(* ===== verification/_CoqProject ===== *)
-Q . S2P
Prelude.v
Config.v
Health.v
HealthCircuit.v
HealthProofs.v
Conformance.v
Hash.v
Pricing.v
RetrySafety.v
Budget.v
Router.v
RouterOrder.v
RouterSamples.v
RouterLemmas.v
RouterProofs.v
RouterPolicy.v
RouterExplain.v
RouterRotation.v
RouterIndex.v
Resolver.v
ControlPlane.v
SharedState.v
SharedStateProofs.v
BreakerSync.v
LinkedList.v
Cache.v
CacheProofs.v
Text.v
Semantic.v
SemanticProofs.v
NameMap.v
Autopilot.v
AutopilotProofs.v
AuditChain.v
AuditChainProofs.v
Workflow.v
WorkflowGraph.v
WorkflowProofs.v
FlowStore.v
FlowProofs.v
Authz.v
Redact.v
Engine.v
EngineLogic.v
Usage.v
UsageProofs.v
GoSort.v
ProviderState.v
Decision.v
DecisionChain.v
Orchestrator.v
DecisionLemmas.v
DecisionProofs.v
Policy.v
PolicyProofs.v
Egress.v
EgressProofs.v
EngineProofs.v
Video.v
VideoQueue.v
VideoCost.v
VideoRun.v
VideoPool.v
VideoProofs.v
EventStream.v
EventStreamProofs.v
Json.v
SSE.v
Emitters.v
Decoders.v
Validation.v
Pump.v
PumpProofs.v
AnthropicProofs.v
StreamSamples.v
EmitterProofs.v
CacheWiring.v
CacheWiringProofs.v
CacheWiringSamples.v
Hedging.v
