(* ===== verification/Prelude.v ===== *)
(** * NexaRoute: a verification library

    NexaRoute is a gateway in front of language-model providers.  A request
    names a model; the gateway selects deployments that may serve it, orders
    them, tries them in turn and learns from the outcome.  This library models
    the decisions on that path and the state they keep, from the Go sources
    under [src/internal], and proves what makes them correct.

    ** The program's parts and their files

    - [health] (circuit breakers).  [health.Manager] keeps per deployment a
      status, cooldown deadline, counters, moving averages, per-capability
      scope circuits and latency histograms, and per provider an incident
      circuit.  [Health.v] has one definition per method of
      [health/manager.go], [histogram.go] and [derived.go]; [HealthCircuit.v]
      has the lemmas on what each method does to a circuit; [HealthProofs.v]
      the abstract breaker ([breaker_step]) and the theorems.
    - [config] (data).  [Config.v] has the structs the other parts read.
    - [providers] (conformance manifest).  [Conformance.v] has the dialects'
      claims, the manifest of [conformance.go], its lookup and its validation.
    - [pricing].  [Pricing.v] models the versioned price book and the cost
      formulas of [pricing.go] with binary64 arithmetic.
    - [router].  [Router.v] has the tables, the eligibility funnel
      ([evaluateDeployment]) and session pins of [router.go]; [RouterOrder.v]
      the ordering strategies, [Candidates], [Eligible], [Readiness] and the
      preview [Explain] of [explain.go].  It calls the health manager (shared,
      hence a field of its state), the price book and the manifest.
      [RouterLemmas.v] holds the shared lemmas,
      [RouterProofs.v], [RouterPolicy.v], [RouterExplain.v],
      [RouterRotation.v] and [RouterIndex.v] the theorems, [RouterSamples.v] a
      small configuration that instantiates them.
    - [route] (virtual endpoints).  [Resolver.v] models [resolver.go]: pools,
      fallback chains and the restriction of the router's candidates to them.
    - [retrysafety].  [RetrySafety.v] models the decision whether an attempt
      may be replayed.
    - [budget].  [Budget.v] models the spend ledger of [ledger.go].
    - [controlplane], [sharedstate], [breakersync] (replicas).
      [ControlPlane.v] states the revisioned store as a type class with its
      laws and makes the memory backend an instance; [SharedState.v] models
      the shared breaker markers, their merge, document codec and
      compare-and-swap publication against that class;
      [SharedStateProofs.v] proves them; [BreakerSync.v] is one
      synchronisation round, which couples the shared markers to [Health.v].
    - [cache].  [LinkedList.v] has the intrusive doubly-linked lists both caches
      keep, on an explicit heap; [Cache.v] models the response cache of [cache.go]
      and [CacheProofs.v] proves that it implements an LRU list; [Semantic.v]
      models the similarity cache of [semantic.go], [SemanticProofs.v] its
      refinement of a list of entries and what a lookup answers.
    - [httpapi] (caches).  [CacheWiring.v] models how handlers use the two caches
      ([cache_wiring.go], [cache_wiring_semantic.go]): keys, scopes, guards, the
      text and embedding of a prompt, and handlers interleaved with configuration
      swaps; [CacheWiringProofs.v] the isolation theorems, [CacheWiringSamples.v]
      runs from end to end.
    - [httpapi] (hedging).  [Hedging.v] models the race of [hedging.go] as a
      transition system and proves its theorems.
    - [decision] (decision plane).  After the router has ordered its candidates
      an optional provider may move the primary.  [Decision.v] has the contract
      of a provider and the validation of its answer, [ProviderState.v] the
      circuit around a failing provider, [DecisionChain.v] the chain executor
      with the counters, [Orchestrator.v] the orchestrator, [Policy.v] the
      built-in policy provider; [DecisionLemmas.v], [DecisionProofs.v] and
      [PolicyProofs.v] the theorems.  A provider is a record of its methods, an
      arbitrary one in the theorems on the plane; the policy provider is one
      instance, and is proved to keep the contract.
    - [autopilot].  [Autopilot.v] models the controller that stages a routing
      policy, serves it to a share of the requests and promotes or withdraws it;
      [AutopilotProofs.v] its theorems.
    - [nexaflow] (workflows).  [Workflow.v] has definitions, their validation,
      input mappings, the schedule and the state machines; [WorkflowGraph.v] and
      [WorkflowProofs.v] the theorems.  [FlowStore.v]
      is the run store of [state.go] and [memory_store.go] with its conditional
      transitions, built on those state machines; [FlowProofs.v] its theorems.
      [Authz.v] has the permissions that gate it and the revocation of keys,
      [Redact.v] the redaction of what is stored, [Engine.v] the engine of
      [engine.go] as programs over the store in a monad with errors and crashes;
      [EngineLogic.v] the reasoning, [EngineProofs.v] the
      theorems.
    - [video].  [Video.v] has briefs, jobs and their state machine, [VideoQueue.v]
      the job store and queue, [VideoCost.v] the cost ledger, [VideoRun.v] the
      orchestrator's operations as programs over these and a provider;
      [VideoPool.v] interleaves any number of them, [VideoProofs.v] has the
      theorems.
    - [providers] (event streams).  [EventStream.v] models the frames of
      [eventstream.go] and their re-emission as server-sent events;
      [EventStreamProofs.v] the theorems.
    - [protocol/canonical] and [httpapi] (streaming).  [Json.v] has JSON documents
      with their encoding and parsing, [SSE.v] the reader of upstream events and
      the writing of frames, [Decoders.v] the decoders of the five upstream
      dialects, [Validation.v] the validation of tool calls, [Emitters.v] the
      encoders of the four client dialects behind one interface, and [Pump.v] the
      pump of [canonical_path.go] that connects them.  [PumpProofs.v] has the
      theorems that hold for every emitter, [AnthropicProofs.v] the protocol of
      Anthropic streams, [EmitterProofs.v] the round trip through
      the reader, [StreamSamples.v] streams from end to end.
    - [usage].  [Usage.v] models the token accountant, the per-key spend ledger
      and the per-identity totals; [UsageProofs.v] the theorems.
    - [securitystore] (audit log).  [AuditChain.v] models the hash chain over
      audit records, its verification, appends and retention, with SHA-256 from
      [Hash.v]; [AuditChainProofs.v] the theorems.
    - [egress].  [Egress.v] models the policy on hosts and addresses, the dial
      hook and the redirect rule; [EgressProofs.v] the theorems.
    - [translate] (tool names).  [NameMap.v] models the renaming of tool names
      towards providers and back.
    - [Hash.v] has the hash functions of the Go library the sources call
      (FNV-1a, SHA-256, hexadecimal), executable; [Text.v] its text functions
      (UTF-8, formatting); [GoSort.v] its stable sort as an algorithm, for
      comparators that are not orders.

    ** Conventions

    A struct is a record, a method a function that returns the new state with
    the result; field assignment is [r <| f := v |>].  A clock reading is an
    argument, one per call of the clock in the source.  [int] and [int64] are
    integers with explicit wrap-around ([int64]), [float64] is IEEE binary64
    ([SpecFloat]), strings are byte strings, a Go map is a [gmap] and the order
    of its iteration is never relied on.  Errors are a sum, a nil pointer or
    missing value an [option].  Mutexes make every method atomic, so a
    concurrent history is a sequence of operations; where a protocol spans
    several atomic steps (publication against the shared store, the caches under
    configuration swaps, a hedged race) the steps of the others are explicit in
    between.

    ** What the theorems show

    - Circuit breaking: the manager refines the abstract breaker ([breaker_step],
      which speaks of times and statuses only); retirement is
      sticky, an active cooldown is neither cleared nor shortened by stale
      outcomes, one deployment cannot open its provider's circuit, no cooldown
      is permanent, and the read-locked fast path agrees with the write-locked
      one; histograms count each observation once.
    - Selection: privacy fails closed in selection, re-check and preview; every
      candidate meets every demand of the request and is allowed by the health
      manager; every strategy permutes the
      eligible set; priority tiers, session pins, rotation fairness and
      provider diversification; a predictive preview shows what selection
      does and disturbs nothing; tables and session state keep their
      invariant across all operations and reloads.
    - Endpoints: a virtual endpoint's candidates are exactly those of its pools,
      pool by pool.
    - Retries and spend: a replay is allowed exactly under the stated
      conditions; the ledger balances, admits exactly what fits and alerts once.
    - Prices: resolution finds the latest version in force; costs are never NaN,
      infinite or negative and cached input is billed once.
    - Replicas: merging is a join; publication refines an atomic merge onto
      what interleaved writers left behind and loses no write of theirs; a synchronisation round is
      fail-local, delivers peers' markers and does not echo them.
    - Caches: each refines a list without nil dereference and within its bounds; an
      exact hit is the latest store, a semantic hit the most similar live entry of
      its scope and privacy class.  However handlers and configuration swaps
      interleave, an exact hit was stored under the same generation, path, body,
      client and forwarded headers, a semantic one for the same path, model, client
      and headers, each under the configuration its key was computed from, or the
      hashed texts are a collision.
    - Hedging: a race ends within eleven steps, never waits for nothing, launches at
      most one hedge, returns an error only when no leg is in flight, and closes
      every response it does not return.
    - Decision plane: whatever providers do (errors, panics, timeouts, invalid
      answers), the outcome is a permutation of the eligible candidates: a selected
      primary is in the band the router allows, a ranking is followed as answered;
      a pin needs no provider call; a chain makes no more calls than its budget
      and keeps its time; a provider is skipped
      exactly while its circuit is open; the policy provider's answers are never
      refused and move the primary only to a better score.
    - Autopilot: the incumbent changes only by a promotion of the candidate of the
      last canary, on enough, clean and covered outcomes recorded since it was
      started; exposure of a canary is bounded; leases are immutable;
      the controller keeps its invariant.
    - Workflows: validation terminates and accepts exactly the well-formed
      definitions; an accepted one has a schedule with every node once, after
      its predecessors; a mapped input exists exactly when its references
      resolve to an object.  The store keeps its invariant, a live lease is lost
      only to the listed operations, the
      admission cap holds and decisions are final.  Over all histories of engine
      calls, crashes included, finished work is never revived and a node with
      side effects runs at most once per attempt, also with other engines
      dispatching on the same store; a node is dispatched exactly when its
      predecessors allow it; a cancelled run settles all its attempts; a run
      without cancelled attempts ends in the documented state; stored outputs
      hold no secret but in containers of Go types the redaction does not look
      into.
    - Video: a one-shot job is submitted to its provider at most once whatever
      the interleaving of orchestrators; jobs and keys keep their invariant, and
      the ledger charges each job once.
    - Event streams: a changed byte is detected; frames survive the round trip;
      a message becomes exactly one event whatever its payload.
    - Streaming: for every upstream and every failure of the connection, tool calls
      reach a client whole and validated, none starts after the end, an Anthropic
      client receives a well-formed stream that is complete exactly when the pump
      succeeds, and the bytes of every dialect read back as the events written while
      no frame exceeds the reader's limit.
    - Accounting: totals are exact up to saturation; a reservation is resolved
      once; expired holds are committed, and only those.
    - Audit log: every append sequence leaves a log that verifies; two verified
      logs with one head agree, unless two of their records are a collision.
    - Egress: a dial only ever reaches permitted addresses of an allowed host; the
      address tests are equivalent to a table of ranges.
    - Tool names: names without surrounding white space survive the round trip
      through the provider; the search
      for a free name terminates.

    Some theorems record behaviour that differs from what the source says of
    itself or means to do: [RouterIndex.readiness_counts_retired],
    [RetrySafety.partial_stream_replayed_as_safe],
    [NameMap.namemap_shadowed_name], [NameMap.namemap_padded_name],
    [Redact.typed_container_kept], [AutopilotProofs.unserved_candidate_promoted],
    [AutopilotProofs.keyless_canary_starves],
    [AutopilotProofs.stale_outcomes_withdraw_unserved_candidate],
    [AuditChainProofs.legacy_log_locks], [UsageProofs.unpriced_tokens_wrap],
    [UsageProofs.identity_totals_wrap], [DecisionProofs.panic_counts_twice],
    [DecisionProofs.ranking_leaves_band], [PolicyProofs.trace_omits_quality],
    [PolicyProofs.override_collision],
    [FlowProofs.finished_attempt_rewritten],
    [EngineProofs.retried_attempt_stays_running],
    [EngineProofs.created_run_not_forced], the exception in
    [EngineProofs.readiness_exact],
    [EngineProofs.cancelled_node_succeeds], [EngineProofs.rejected_gate_spins],
    [VideoProofs.late_admission_submits_twice],
    [VideoProofs.unknown_submission_reported_safe], the theorems of
    [StreamSamples.v], and [CacheWiringSamples.stale_semantic_response_served],
    [CacheWiringSamples.no_training_prompt_embedded] and
    [CacheWiringSamples.images_ignored_by_similarity].

    ** Parameters, bounds and fuel

    Parameters of the definitions are: [time.Parse] (prices), the JSON codec with
    its round trip (shared documents), the content hash of a workflow definition
    and the fingerprint of a policy (hashes of JSON), the parsers of addresses
    and URLs and the resolver (egress), the providers' answers, clocks and
    contexts (decision plane), node functions, contexts, clocks and other actors
    (workflow engine), the answers of providers and the execution of episodes
    (video), the wording of JSON errors and the failures of a client's connection
    (streaming), the adapters of the embedding deployment (semantic cache), the
    order in which a Go map is ranged over where
    a result depends on it, and the value of an out-of-range conversion from
    floating point, which Go leaves open.

    Fuel, and why it is enough: the eviction loops of the caches and the scan of
    the semantic cache get the length of the list; the search for a free tool name two more than the names in use;
    the searches of a workflow graph one or two more than its nodes, the
    scheduling loop its nodes and edges.  In each case running out is a failure
    value and is proved not to occur.  The stable sort gets the length of the
    range, which its halving never uses up.  The publish loop runs the
    configured number of attempts, and the check of an address that carries
    another goes two levels deep, as the sources do.  The engine's loop reports
    its own end of fuel, since a run may wait for ever; the waiting for a place
    in the video queue likewise.  The headers of a frame get its bytes as fuel,
    and one refill is enough for a read ([EventStreamProofs.read_fuel]); the pump
    gets two more rounds than the body has lines, and never uses them up
    ([PumpProofs.pump_fuel]); the JSON parser gets twice the length of its text,
    which the scanner has found valid before.  SHA-256's block count is
    computed from the message length.

    ** Not modelled

    HTTP handling beyond the caches, the stream pump and hedging, provider clients, file loading and validation of the
    configuration, database and file backends, translation of whole requests,
    remote decision providers, the encoding of audit rows for the database
    backends (with its refusal of years above 9999 and of sequence numbers above
    the signed range), probing, evaluation, the execution of video
    episodes and rendering, secrets and telemetry are outside the library: they
    are network and file access around the modelled decisions, or work on JSON
    documents whose shape the providers define.

    This file is the prelude: record update, machine integers, time, floating
    point with its order, strings, stable sorting, and the shared lemmas and
    hints (database [go]). *)

From stdpp Require Export base gmap strings list fin_maps fin_sets sorting.
From Stdlib Require Export ZArith Lia.
From Stdlib Require Import SpecFloat Ascii.

(** ** Record update

    Go code assigns struct fields one at a time.  A record type declares its
    eta-expansion once ([Eta]); [r <| f := v |>] is then the record [r] with
    the field [f] replaced, for every field [f] of the record. *)

Class Eta (R : Type) := eta : R -> R.
Class Updater {R F : Type} (proj : R -> F) := update : (F -> F) -> R -> R.

Ltac derive_updater :=
  lazymatch goal with
  | |- @Updater ?R ?F ?proj =>
      let e := constr:(fun r : R => ltac:(
        let b := eval cbv beta delta [eta] in (eta r) in
        let b := lazymatch b with
                 | ?i r => let i' := eval red in i in eval cbv beta in (i' r)
                 | ?b => b
                 end in
        exact b)) in
      exact (fun (f : F -> F) (r : R) => ltac:(
        let b := eval cbv beta in (e r) in
        let p := eval pattern (proj r) in b in
        lazymatch p with
        | ?g _ => let t := eval cbv beta in (g (f (proj r))) in exact t
        end))
  end.

#[global] Hint Extern 1 (Updater _) => derive_updater : typeclass_instances.

Declare Scope record_scope.
Delimit Scope record_scope with rec.
Open Scope record_scope.
Notation "r <| p ::= f |>" := (update (proj := p) f r)
  (at level 12, left associativity, format "r <| p  ::=  f |>") : record_scope.
Notation "r <| p := v |>" := (update (proj := p) (fun _ => v) r)
  (at level 12, left associativity, format "r <| p  :=  v |>") : record_scope.
Arguments update {R F} proj {_} f r /.

(** ** Machine integers

    [int] and [int64] are 64-bit two's complement, [uint64] is modulo [2^64];
    every arithmetic step that can leave the range is wrapped explicitly. *)

Open Scope Z_scope.

Definition max_int64 : Z := 9223372036854775807.
Definition int64 (z : Z) : Z := (z + 2 ^ 63) mod 2 ^ 64 - 2 ^ 63.
Definition uint64 (z : Z) : Z := z mod 2 ^ 64.
Definition in_int64 (z : Z) : Prop := - 2 ^ 63 <= z < 2 ^ 63.

Lemma int64_id z : in_int64 z -> int64 z = z.
Proof. unfold in_int64, int64. intros. rewrite Z.mod_small; lia. Qed.

Lemma int64_range z : in_int64 (int64 z).
Proof.
  unfold in_int64, int64. pose proof (Z.mod_pos_bound (z + 2 ^ 63) (2 ^ 64)). lia.
Qed.

Lemma uint64_id z : 0 <= z < 2 ^ 64 -> uint64 z = z.
Proof. apply Z.mod_small. Qed.

(** ** Time

    A [time.Time] is the number of nanoseconds since the zero time, so that
    [IsZero] is the test against [0]; a [time.Duration] is an [int64] number
    of nanoseconds.  [Sub] saturates at the [int64] bounds as Go's does. *)

Abbreviation Time := Z (only parsing).
Abbreviation Duration := Z (only parsing).

Definition IsZero (t : Time) : bool := t =? 0.
Definition After (t u : Time) : bool := u <? t.
Definition Before (t u : Time) : bool := t <? u.
Definition Add (t : Time) (d : Duration) : Time := t + d.
Definition Sub (t u : Time) : Duration := Z.max (- 2 ^ 63) (Z.min max_int64 (t - u)).

Definition Millisecond : Duration := 1000000.
Definition Second : Duration := 1000000000.
Definition Minute : Duration := 60 * Second.
Definition Hour : Duration := 60 * Minute.
Definition Milliseconds (d : Duration) : Z := Z.quot d Millisecond.

(** ** Floating point

    [float64] is IEEE-754 binary64 with round-to-nearest-even, computed by the
    Standard Library's executable [SpecFloat] (no axiom is involved). *)

Definition float64 : Type := spec_float.
Definition fadd : float64 -> float64 -> float64 := SFadd 53 1024.
Definition fsub : float64 -> float64 -> float64 := SFsub 53 1024.
Definition fmul : float64 -> float64 -> float64 := SFmul 53 1024.
Definition fdiv : float64 -> float64 -> float64 := SFdiv 53 1024.
Definition fsqrt : float64 -> float64 := SFsqrt 53 1024.
Definition feq (x y : float64) : bool := SFeqb x y.
Definition flt (x y : float64) : bool := SFltb x y.
Definition fle (x y : float64) : bool := SFleb x y.
Definition fgt (x y : float64) : bool := flt y x.
Definition fge (x y : float64) : bool := fle y x.
(** [m * 2^e], rounded. *)
Definition fbin (m e : Z) : float64 := binary_normalize 53 1024 m e false.
(** The conversion [float64(n)] of an integer. *)
Definition f_of_int (n : Z) : float64 := fbin n 0.
Definition f_zero : float64 := S754_zero false.
Definition IsNaN (x : float64) : bool := match x with S754_nan => true | _ => false end.
Definition IsInf (x : float64) : bool := match x with S754_infinity _ => true | _ => false end.

Declare Scope f64_scope.
Delimit Scope f64_scope with f64.
Bind Scope f64_scope with float64.
Infix "+" := fadd : f64_scope.
Infix "-" := fsub : f64_scope.
Infix "*" := fmul : f64_scope.
Infix "/" := fdiv : f64_scope.
Infix "<?" := flt : f64_scope.
Infix "<=?" := fle : f64_scope.
Infix ">?" := fgt : f64_scope.
Infix ">=?" := fge : f64_scope.
Infix "=?" := feq : f64_scope.

(** *** The order of the non-NaN floats

    [SpecFloat]'s comparison is the lexicographic order of [frank]; the order
    laws the sorting comparators need follow from it. *)
Definition frank (x : float64) : Z * Z * Z :=
  match x with
  | S754_infinity true => (0, 0, 0)
  | S754_finite true m e => (1, - e, - Z.pos m)
  | S754_zero _ => (2, 0, 0)
  | S754_finite false m e => (3, e, Z.pos m)
  | S754_infinity false => (4, 0, 0)
  | S754_nan => (5, 0, 0)
  end.
Definition lex_lt (a b : Z * Z * Z) : Prop :=
  let '(a1, a2, a3) := a in let '(b1, b2, b3) := b in
  a1 < b1 \/ (a1 = b1 /\ (a2 < b2 \/ (a2 = b2 /\ a3 < b3))).

Section float_order.
Implicit Types x y z : float64.

Ltac float_cases :=
  repeat match goal with
    | x : float64 |- _ => destruct x as [[]|[]| |[] ? ?]
    end; cbn in *; try discriminate;
  repeat match goal with
    | |- context [Z.compare ?a ?b] => destruct (Z.compare_spec a b)
    | |- context [PosDef.Pos.compare_cont Eq ?a ?b] =>
        change (PosDef.Pos.compare_cont Eq a b) with (Pos.compare a b);
        destruct (Pos.compare_spec a b)
    end; cbn; subst; split; intros; try done; try lia.

Lemma flt_spec x y : IsNaN x = false -> IsNaN y = false ->
  flt x y = true <-> lex_lt (frank x) (frank y).
Proof. unfold flt, SFltb, SFcompare. intros Hx Hy. float_cases. Qed.

Lemma feq_spec x y : IsNaN x = false -> IsNaN y = false ->
  feq x y = true <-> frank x = frank y.
Proof.
  unfold feq, SFeqb, SFcompare. intros Hx Hy.
  float_cases; simplify_eq; try done; try lia; repeat f_equal; lia.
Qed.

Lemma fle_spec x y : IsNaN x = false -> IsNaN y = false ->
  fle x y = true <-> ~ lex_lt (frank y) (frank x).
Proof. unfold fle, SFleb, SFcompare. intros Hx Hy. float_cases. Qed.

Lemma flt_irrefl x : flt x x = false.
Proof.
  destruct (IsNaN x) eqn:Hx; [destruct x; done|].
  apply not_true_is_false. rewrite flt_spec by done.
  destruct (frank x) as [[??]?]. cbn. lia.
Qed.

Lemma fle_nan x y : fle x y = true -> IsNaN x = false /\ IsNaN y = false.
Proof. destruct x as [[]|[]| |[] ? ?], y as [[]|[]| |[] ? ?]; done. Qed.

Lemma fle_trans x y z : fle x y = true -> fle y z = true -> fle x z = true.
Proof.
  intros H1 H2. destruct (fle_nan _ _ H1) as [Hx Hy], (fle_nan _ _ H2) as [_ Hz].
  rewrite fle_spec in * by done.
  destruct (frank x) as [[??]?], (frank y) as [[??]?], (frank z) as [[??]?]. cbn in *. lia.
Qed.

Lemma flt_nan x y : flt x y = true -> IsNaN x = false /\ IsNaN y = false.
Proof. destruct x as [[]|[]| |[] ? ?], y as [[]|[]| |[] ? ?]; done. Qed.
End float_order.

(** ** Strings

    A Go string is a byte string; [String.string] is a list of 8-bit
    characters, compared bytewise. *)

Fixpoint str_drop (n : nat) (s : string) : string :=
  match n, s with
  | S n, String _ s => str_drop n s
  | _, _ => s
  end.
(** [strings.HasSuffix]: [len(s) >= len(suf) && s[len(s)-len(suf):] == suf]. *)
Definition HasSuffix (s suf : string) : bool :=
  (String.length suf <=? String.length s)%nat &&
  String.eqb (str_drop (String.length s - String.length suf) s) suf.
Definition HasPrefix (s pre : string) : bool := String.prefix pre s.
(** [strings.TrimSuffix] and [strings.TrimPrefix]. *)
Definition TrimSuffix (s suf : string) : string :=
  if HasSuffix s suf then String.substring 0 (String.length s - String.length suf) s else s.
Definition TrimPrefix (s pre : string) : string :=
  if HasPrefix s pre then str_drop (String.length pre) s else s.
(** [strings.Contains]. *)
Fixpoint Contains (s sub : string) : bool :=
  HasPrefix s sub || match s with EmptyString => false | String _ s' => Contains s' sub end.

Definition bytes_of (l : list nat) : string :=
  String.string_of_list_ascii (map ascii_of_nat l).
(** The UTF-8 encodings of the runes [unicode.IsSpace] accepts. *)
Definition space_runes : list string :=
  map bytes_of
    ([[9]; [10]; [11]; [12]; [13]; [32]; [194; 133]; [194; 160]; [225; 154; 128]]
     ++ map (fun i => [226; 128; 128 + i]) (seq 0 11)
     ++ [[226; 128; 168]; [226; 128; 169]; [226; 128; 175]; [226; 129; 159]; [227; 128; 128]])%nat.
Fixpoint trim_with (step : string -> string -> string) (fuel : nat) (s : string) : string :=
  match fuel with
  | O => s
  | S fuel =>
      let s' := fold_left (fun acc r => step acc r) space_runes s in
      if String.eqb s' s then s else trim_with step fuel s'
  end.
(** [strings.TrimSpace]: white-space runes are cut from both ends; every round
    that continues removes at least one byte, so the length is enough fuel. *)
Definition TrimSpace (s : string) : string :=
  let s := trim_with TrimPrefix (S (String.length s)) s in
  trim_with TrimSuffix (S (String.length s)) s.

Definition lower_ascii (c : ascii) : ascii :=
  let n := nat_of_ascii c in
  if ((65 <=? n) && (n <=? 90))%nat then ascii_of_nat (n + 32) else c.
(** [strings.ToLower] on ASCII letters; other bytes are kept. *)
Fixpoint ToLower (s : string) : string :=
  match s with EmptyString => EmptyString | String c s => String (lower_ascii c) (ToLower s) end.
(** [strings.EqualFold] on ASCII letters. *)
Definition EqualFold (s t : string) : bool := String.eqb (ToLower s) (ToLower t).
(** [strings.Join]. *)
Fixpoint Join (l : list string) (sep : string) : string :=
  match l with [] => EmptyString | [s] => s | s :: l => s +:+ sep +:+ Join l sep end.

Lemma str_app_drop (p s : string) : str_drop (String.length p) (p +:+ s) = s.
Proof. induction p as [|c p IH]; [by destruct s | exact IH]. Qed.

Lemma str_length_app (p s : string) :
  String.length (p +:+ s) = (String.length p + String.length s)%nat.
Proof. induction p as [|c p IH]; [done|]. exact (f_equal S IH). Qed.

Lemma str_drop_split n (s : string) : (n <= String.length s)%nat ->
  exists p, s = p +:+ str_drop n s /\ String.length p = n.
Proof.
  revert s. induction n as [|n IH]; intros s Hn; [by exists ""; destruct s|].
  destruct s as [|c s]; cbn in *; [lia|].
  destruct (IH s) as (p & Heq & Hl); [lia|].
  exists (String c p). split; [exact (f_equal (String c) Heq) | exact (f_equal S Hl)].
Qed.

Lemma HasSuffix_spec (s suf : string) : HasSuffix s suf = true <-> exists p, s = p +:+ suf.
Proof.
  unfold HasSuffix. rewrite andb_true_iff, Nat.leb_le, String.eqb_eq. split.
  - intros [Hl Heq].
    destruct (str_drop_split (String.length s - String.length suf) s) as (p & Hp & _); [lia|].
    exists p. by rewrite Heq in Hp.
  - intros [p ->]. rewrite str_length_app. split; [lia|].
    replace (_ + _ - _)%nat with (String.length p) by lia. apply str_app_drop.
Qed.

(** The bytewise order of strings. *)
Lemma str_ltb_leb (s t : string) : String.ltb s t = negb (String.leb t s).
Proof.
  unfold String.ltb, String.leb. rewrite (String.compare_antisym t s).
  by destruct (String.compare s t).
Qed.

Lemma str_leb_trans (s t u : string) :
  String.leb s t = true -> String.leb t u = true -> String.leb s u = true.
Proof.
  unfold String.leb. revert t u. induction s as [|c s IH]; intros t u; [by destruct u|].
  destruct t as [|d t]; [done|]. destruct u as [|e u]; [done|]. cbn [String.compare].
  unfold Ascii.compare.
  destruct (N.compare_spec (N_of_ascii c) (N_of_ascii d)) as [E1|L1|L1]; [| |done];
  (destruct (N.compare_spec (N_of_ascii d) (N_of_ascii e)) as [E2|L2|L2]; [| |done]); intros H1 H2;
  (destruct (N.compare_spec (N_of_ascii c) (N_of_ascii e)); [|done|lia]); try lia.
  by apply (IH t).
Qed.

(** ** [sort.SliceStable] and [sort.Search]

    [slice_stable less] is the insertion sort Go's [sort.SliceStable] runs on
    blocks of up to 20 elements: the next element moves left while it is [less]
    than its left neighbour.  For a comparator that is a strict weak order the
    stable result is unique, so larger inputs give the same list. *)

Lemma StronglySorted_reverse {A} (R : A -> A -> Prop) (l : list A) :
  StronglySorted R l -> StronglySorted (flip R) (reverse l).
Proof.
  induction 1 as [|y l Hs IH Hall]; [constructor|]. rewrite reverse_cons.
  rewrite Forall_forall in Hall.
  apply StronglySorted_app. split; [|split; [done|repeat constructor]].
  intros z w Hz ->%list_elem_of_singleton. apply Hall. by apply elem_of_reverse.
Qed.

Lemma StronglySorted_lookup {A} (R : A -> A -> Prop) (l : list A) i j x y :
  StronglySorted R l -> l !! i = Some x -> l !! j = Some y -> (i < j)%nat -> R x y.
Proof.
  intros Hs. revert i j. induction Hs as [|z l Hs IH Hall]; intros i j Hi Hj Hij; [done|].
  destruct j as [|j]; [lia|]. destruct i as [|i]; [|apply (IH i j); [done|done|lia]].
  injection Hi as ->. rewrite Forall_forall in Hall. apply Hall. by apply (list_elem_of_lookup_2 _ j).
Qed.

Section slice_stable.
Context {A : Type} (less : A -> A -> bool).

(** The sorted prefix is kept reversed: its last element comes first. *)
Fixpoint insert_rev (x : A) (rp : list A) : list A :=
  match rp with
  | [] => [x]
  | y :: rp' => if less x y then y :: insert_rev x rp' else x :: rp
  end.
Definition slice_stable (l : list A) : list A :=
  reverse (fold_left (fun rp x => insert_rev x rp) l []).

Lemma insert_rev_perm x rp : insert_rev x rp ≡ₚ x :: rp.
Proof.
  induction rp as [|y rp IH]; [done|]. cbn. case_match; [|done].
  rewrite IH. apply Permutation_swap.
Qed.

Lemma slice_stable_perm l : slice_stable l ≡ₚ l.
Proof.
  unfold slice_stable. rewrite reverse_Permutation.
  enough (forall rp, fold_left (fun rp x => insert_rev x rp) l rp ≡ₚ rp ++ l) as H
    by exact (H []).
  induction l as [|x l IH]; intros rp; cbn; [by rewrite app_nil_r|].
  rewrite IH, insert_rev_perm. by rewrite <- Permutation_middle.
Qed.

(** Sortedness with respect to any transitive relation that the comparator
    decides; [P] restricts the claim to the elements it is meant for. *)
Section sorted.
Context (P : A -> Prop) (R : A -> A -> Prop).
Hypothesis Hlt : forall x y, P x -> P y -> less x y = true -> R x y.
Hypothesis Hge : forall x y, P x -> P y -> less x y = false -> R y x.
Hypothesis Htrans : forall x y z, P x -> P y -> P z -> R x y -> R y z -> R x z.

Lemma insert_rev_sorted x rp :
  P x -> Forall P rp -> StronglySorted (flip R) rp -> StronglySorted (flip R) (insert_rev x rp).
Proof.
  intros Hx HP. revert HP. induction 1 as [|y rp Hy HP IH]; intros Hs; cbn; [repeat constructor|].
  inversion Hs as [|? ? Hs' Hall]; subst. destruct (less x y) eqn:E.
  - constructor; [by apply IH|]. rewrite (insert_rev_perm x rp).
    constructor; [by apply Hlt|done].
  - constructor; [done|]. constructor; [by apply Hge|].
    rewrite Forall_forall in Hall, HP |- *. intros z Hz.
    apply (Htrans z y x); eauto. by apply Hall.
Qed.

Lemma slice_stable_sorted l : Forall P l -> StronglySorted R (slice_stable l).
Proof.
  intros Hl. unfold slice_stable.
  assert (forall rp, Forall P rp -> StronglySorted (flip R) rp ->
    StronglySorted (flip R) (fold_left (fun rp x => insert_rev x rp) l rp)) as H.
  { induction Hl as [|x l Hx Hl IH]; intros rp Hrp Hs; [done|].
    apply IH; [rewrite insert_rev_perm; by constructor | by apply insert_rev_sorted]. }
  exact (StronglySorted_reverse _ _ (H [] (Forall_nil_2 _) (SSorted_nil _))).
Qed.
End sorted.

(** Stability: elements the comparator does not separate keep their order. *)
Lemma slice_stable_filter (Q : A -> Prop) `{!forall x, Decision (Q x)} l :
  (forall x y, Q x -> Q y -> less x y = false) -> filter Q (slice_stable l) = filter Q l.
Proof.
  intros HQ.
  assert (forall rp x, filter Q (insert_rev x rp) = filter Q (x :: rp)) as Hins.
  { induction rp as [|y rp IH]; intros x; [done|]. cbn [insert_rev]. destruct (less x y) eqn:E; [|done].
    rewrite filter_cons, IH, !filter_cons.
    destruct (decide (Q x)), (decide (Q y)); try done. by rewrite HQ in E. }
  assert (forall l rp, filter Q (reverse (fold_left (fun rp x => insert_rev x rp) l rp))
    = filter Q (reverse rp) ++ filter Q l) as Hfold.
  { clear l. induction l as [|x l IH]; intros rp; cbn [fold_left];
      [by rewrite filter_nil, app_nil_r|].
    rewrite IH. assert (forall a b : list A, filter Q a = filter Q b ->
      filter Q (reverse a) = filter Q (reverse b)) as Hrev.
    { intros a b. rewrite !filter_reverse. by intros ->. }
    rewrite (Hrev _ _ (Hins rp x)), reverse_cons, filter_app, <- app_assoc. f_equal.
    change (x :: l) with ([x] ++ l). by rewrite filter_app. }
  apply (Hfold l []).
Qed.
End slice_stable.

(** [sort.Search(n, f)]: the binary search of the Go library.  Every round
    halves [j - i], so [n] rounds are always enough. *)
Fixpoint search_loop (f : nat -> bool) (fuel i j : nat) : nat :=
  match fuel with
  | O => i
  | S fuel =>
      if (i <? j)%nat then
        let h := ((i + j) / 2)%nat in
        if f h then search_loop f fuel i h else search_loop f fuel (S h) j
      else i
  end.
Definition sort_Search (n : nat) (f : nat -> bool) : nat := search_loop f n 0 n.

Lemma search_loop_spec f fuel i j :
  (j - i <= fuel)%nat -> (i <= j)%nat ->
  (forall a b, a <= b -> f a = true -> f b = true)%nat ->
  (forall k, k < i -> f k = false)%nat -> (forall k, j <= k -> f k = true)%nat ->
  let r := search_loop f fuel i j in
  (i <= r <= j)%nat /\ (forall k, k < r -> f k = false)%nat /\ (forall k, r <= k -> f k = true)%nat.
Proof.
  revert i j. induction fuel as [|fuel IH]; intros i j Hf Hij Hmono Hlo Hhi; cbn [search_loop].
  - assert (i = j) as -> by lia. auto.
  - destruct (Nat.ltb_spec i j) as [Hlt|Hge]; [|assert (i = j) as -> by lia; auto].
    pose proof (Nat.div_mod_eq (i + j) 2) as Hdm. pose proof (Nat.mod_upper_bound (i + j) 2) as Hm.
    set (h := ((i + j) / 2)%nat) in *. destruct (f h) eqn:Hfh.
    + destruct (IH i h) as (H1 & H2 & H3); [lia|lia|done|done| |split; [lia|by split]].
      intros k Hk. by apply (Hmono h k).
    + destruct (IH (S h) j) as (H1 & H2 & H3);
        [lia|lia|done| |done|split; [lia|by split]].
      intros k Hk. destruct (f k) eqn:E; [|done]. rewrite (Hmono k h) in Hfh; [done|lia|done].
Qed.

Lemma search_loop_ext f g fuel i j :
  (forall k, k < j -> f k = g k)%nat -> (i <= j)%nat -> search_loop f fuel i j = search_loop g fuel i j.
Proof.
  revert i j. induction fuel as [|fuel IH]; intros i j Hfg Hij; cbn [search_loop]; [done|].
  destruct (Nat.ltb_spec i j) as [Hlt|]; [|done].
  pose proof (Nat.div_mod_eq (i + j) 2). pose proof (Nat.mod_upper_bound (i + j) 2).
  rewrite (Hfg ((i + j) / 2)%nat) by lia. case_match; apply IH; intros; try apply Hfg; lia.
Qed.

(** [sort.Search] returns the least index at which a monotone test holds. *)
Lemma sort_Search_spec n f :
  (forall a b, a <= b -> b < n -> f a = true -> f b = true)%nat ->
  let r := sort_Search n f in
  (r <= n)%nat /\ (forall k, k < r -> f k = false)%nat /\ (r < n -> f r = true)%nat.
Proof.
  intros Hmono. set (g := fun k => if (k <? n)%nat then f k else true).
  assert (sort_Search n f = sort_Search n g) as ->.
  { apply search_loop_ext; [|lia]. intros k Hk. unfold g. by destruct (Nat.ltb_spec k n); [|lia]. }
  destruct (search_loop_spec g n 0 n) as ([_ H1] & H2 & H3); [lia|lia| |lia| |].
  - unfold g. intros a b Hab. destruct (Nat.ltb_spec a n), (Nat.ltb_spec b n); try done; [|lia].
    intros. by apply (Hmono a b).
  - unfold g. intros k Hk. by destruct (Nat.ltb_spec k n); [lia|].
  - unfold sort_Search. set (r := search_loop g n 0 n) in *. split_and!; [done| |].
    + intros k Hk. specialize (H2 k Hk). unfold g in H2. destruct (Nat.ltb_spec k n); [done|lia].
    + intros Hr. specialize (H3 r (le_n _)). unfold g in H3. destruct (Nat.ltb_spec r n); [done|lia].
Qed.

(** ** Lists, maps and options *)

Definition sum_Z (l : list Z) : Z := fold_right Z.add 0 l.

Lemma sum_Z_alter f l i x : l !! i = Some x -> sum_Z (alter f i l) = sum_Z l - x + f x.
Proof.
  revert i. induction l as [|y l IH]; intros [|i]; cbn; try done.
  - intros [= ->]. cbn. lia.
  - intros Hi. specialize (IH _ Hi). unfold sum_Z in IH. cbn. lia.
Qed.

Lemma sum_Z_replicate n : sum_Z (replicate n 0) = 0.
Proof. induction n; cbn; [done|]. unfold sum_Z in IHn. lia. Qed.

Create HintDb go.

(** Go's [m[k]] on a map: the zero value when the key is absent. *)
Definition map_get {V} (zero : V) (m : gmap string V) (k : string) : V := default zero (m !! k).
Lemma map_get_insert {V} (z : V) (m : gmap string V) k v k' :
  map_get z (<[k := v]> m) k' = if String.eqb k k' then v else map_get z m k'.
Proof.
  unfold map_get. destruct (String.eqb_spec k k') as [->|Hne]; [by rewrite lookup_insert_eq|by rewrite lookup_insert_ne].
Qed.

Fixpoint find_index {A} (f : A -> bool) (l : list A) : option nat :=
  match l with
  | [] => None
  | x :: l => if f x then Some O else S <$> find_index f l
  end.

Lemma find_index_Some {A} (f : A -> bool) l i :
  find_index f l = Some i -> exists x, l !! i = Some x /\ f x = true.
Proof.
  revert i. induction l as [|x l IH]; intros i; cbn; [done|]. destruct (f x) eqn:E.
  - intros [= <-]. eauto.
  - destruct (find_index f l) as [j|]; cbn; [|done]. intros [= <-]. cbn. by apply IH.
Qed.

Lemma find_index_None {A} (f : A -> bool) l :
  find_index f l = None -> Forall (fun x => f x = false) l.
Proof.
  induction l as [|x l IH]; cbn; [constructor|]. destruct (f x) eqn:E; [done|].
  destruct (find_index f l); cbn; [done|]. auto.
Qed.

(** Normalises boolean hypotheses to propositions. *)
Ltac bool_hyps :=
  repeat match goal with
    | H : (_ && _) = true |- _ => apply andb_true_iff in H as [? ?]
    | H : (_ || _) = false |- _ => apply orb_false_iff in H as [? ?]
    | H : negb _ = true |- _ => apply negb_true_iff in H
    | H : negb _ = false |- _ => apply negb_false_iff in H
    end.
