(* ===== verification/Config.v ===== *)
(** * Configuration data ([src/internal/config/config.go])

    The configuration structs that routing, pricing and virtual endpoint
    resolution read.  [ProviderConfig] and [Config] keep the fields those
    components read (a provider's credentials, addresses and paths, and the
    configuration of other subsystems, are left out); the other structs are
    complete. *)

From S2P Require Import Prelude.

Record Capabilities := mkCapabilities {
  cap_Streaming : bool; cap_Tools : bool; cap_Vision : bool; cap_Reasoning : bool
}.

Record ModelConfig := mkModelConfig {
  mc_ID : string;
  mc_Model : string;
  mc_Aliases : list string;
  mc_Enabled : bool;
  mc_Priority : Z;
  mc_Weight : float64;
  mc_ContextWindow : Z;
  mc_InputCostPerMTok : float64;
  mc_OutputCostPerMTok : float64;
  mc_Source : string;
  mc_TestState : string;
  mc_Capabilities : Capabilities
}.

Record DataHandlingConfig := mkDataHandlingConfig {
  dh_TrainsOnData : string; dh_Retention : string; dh_Note : string
}.

Record ProviderConfig := mkProviderConfig {
  pc_ID : string;
  pc_Name : string;
  pc_Type : string;
  pc_DataHandling : DataHandlingConfig;
  pc_Enabled : bool;
  pc_Models : list ModelConfig
}.

Record RoutingConfig := mkRoutingConfig {
  rc_Strategy : string;
  rc_FallbackOnUnknownModel : bool;
  rc_SessionAffinity : bool;
  rc_SessionTTLSeconds : Z;
  rc_P2CWindow : Z;
  rc_MaxAttempts : Z;
  rc_MaxInflightRequests : Z;
  rc_FailureThreshold : Z;
  rc_CooldownSeconds : Z;
  rc_ProviderFailureThreshold : Z;
  rc_ProviderFailureWindowSeconds : Z;
  rc_ProviderCooldownSeconds : Z;
  rc_CapabilityFailureThreshold : Z;
  rc_CapabilityCooldownSeconds : Z;
  rc_RequestTimeoutMS : Z;
  rc_LatencyWeight : float64;
  rc_FailureWeight : float64;
  rc_CapacityWeight : float64;
  rc_RetryBackoffMS : Z;
  rc_MaxRetryAfterSeconds : Z;
  rc_HedgingEnabled : bool;
  rc_HedgingDelayMS : Z;
  rc_MaxRepairAttempts : Z;
  rc_SanitizeEnabled : bool;
  rc_PublicModel : string
}.

Record PriceEntryConfig := mkPriceEntryConfig {
  pe_InputPerMTok : float64;
  pe_OutputPerMTok : float64;
  pe_CacheReadPerMTok : option float64;
  pe_CacheWritePerMTok : option float64
}.

Record PriceVersionConfig := mkPriceVersionConfig {
  pv_Version : string;
  pv_EffectiveFrom : string;
  pv_Prices : gmap string PriceEntryConfig
}.

Record PricingConfig := mkPricingConfig { pr_Versions : list PriceVersionConfig }.

(** ** Virtual endpoints and the pools behind them *)

Record CandidatePoolConfig := mkCandidatePoolConfig {
  cp_ID : string; cp_Name : string; cp_Mode : string; cp_Deployments : list string
}.
Record FallbackChainConfig := mkFallbackChainConfig {
  fc_ID : string; fc_Name : string; fc_Pools : list string
}.
Record RouteProfileConfig := mkRouteProfileConfig {
  rp_ID : string;
  rp_Name : string;
  rp_CandidatePool : string;
  rp_FallbackChain : string;
  rp_Strategy : string;
  rp_DecisionPolicy : string;
  rp_Privacy : string;
  rp_CanaryDeploymentID : string;
  rp_CanaryPercent : Z;
  rp_TaskIntelMode : string;
  rp_TaskIntelMinConfidence : float64;
  rp_TaskPools : gmap string string;
  rp_TaskEvalGates : gmap string string;
  rp_TaskOverride : string
}.
#[export] Instance eta_RouteProfileConfig : Eta RouteProfileConfig := fun r =>
  mkRouteProfileConfig (rp_ID r) (rp_Name r) (rp_CandidatePool r) (rp_FallbackChain r) (rp_Strategy r)
    (rp_DecisionPolicy r) (rp_Privacy r) (rp_CanaryDeploymentID r) (rp_CanaryPercent r)
    (rp_TaskIntelMode r) (rp_TaskIntelMinConfidence r) (rp_TaskPools r) (rp_TaskEvalGates r)
    (rp_TaskOverride r).

Record VirtualEndpointConfig := mkVirtualEndpointConfig {
  ve_ID : string;
  ve_Name : string;
  ve_Enabled : option bool;
  ve_PublicModel : string;
  ve_RouteProfile : string;
  ve_Protocols : list string
}.
Definition IsEnabled (v : VirtualEndpointConfig) : bool :=
  match ve_Enabled v with None => true | Some b => b end.

Record Config := mkConfig {
  cfg_Providers : list ProviderConfig;
  cfg_Routing : RoutingConfig;
  cfg_Pricing : PricingConfig;
  cfg_VirtualEndpoints : list VirtualEndpointConfig;
  cfg_RouteProfiles : list RouteProfileConfig;
  cfg_CandidatePools : list CandidatePoolConfig;
  cfg_FallbackChains : list FallbackChainConfig
}.
