(* ===== verification/Health.v ===== *)
(** * Deployment and provider health ([src/internal/health])

    The health manager keeps one [State] per deployment, one [ProviderState]
    per provider with its evidence table, and latency histograms.  Every method
    of [Manager] is a definition here, with the same name; the calls to the
    injected clock ([m.now()]) are arguments, one per call in the Go body, so
    that a method that reads the clock twice takes two readings.  A Go map
    entry that was never written reads as the zero value, whose status is the
    empty string ([NoStatus]), not ["unknown"].  The maps reachable from a
    [State] are never shared with a caller ([cloneState]), so a value model is
    exact; a nil map is the empty map. *)

From S2P Require Import Prelude.

(** ** Data *)

Inductive Status := NoStatus | Unknown | Healthy | Degraded | HalfOpen | Cooldown | Retired.
#[export] Instance Status_eq_dec : EqDecision Status.
Proof. solve_decision. Defined.
Definition status_is (a b : Status) : bool := bool_decide (a = b).
Infix "=s?" := status_is (at level 70, no associativity).

Record ScopeState := mkScopeState {
  sc_Status : Status;
  sc_Successes : Z;
  sc_Failures : Z;
  sc_ConsecutiveFailures : Z;
  sc_LastChecked : Time;
  sc_LastSuccess : Time;
  sc_LastFailure : Time;
  sc_LastError : string;
  sc_CooldownUntil : Time
}.
#[export] Instance eta_ScopeState : Eta ScopeState := fun r =>
  mkScopeState (sc_Status r) (sc_Successes r) (sc_Failures r) (sc_ConsecutiveFailures r)
    (sc_LastChecked r) (sc_LastSuccess r) (sc_LastFailure r) (sc_LastError r) (sc_CooldownUntil r).
Definition zero_ScopeState : ScopeState := mkScopeState NoStatus 0 0 0 0 0 0 "" 0.

Record ProviderState := mkProviderState {
  ps_Provider : string;
  ps_Status : Status;
  ps_Evidence : Z;
  ps_LastChecked : Time;
  ps_LastSuccess : Time;
  ps_LastFailure : Time;
  ps_LastError : string;
  ps_CooldownUntil : Time
}.
#[export] Instance eta_ProviderState : Eta ProviderState := fun r =>
  mkProviderState (ps_Provider r) (ps_Status r) (ps_Evidence r) (ps_LastChecked r)
    (ps_LastSuccess r) (ps_LastFailure r) (ps_LastError r) (ps_CooldownUntil r).
Definition zero_ProviderState : ProviderState := mkProviderState "" NoStatus 0 0 0 0 "" 0.

Record State := mkState {
  st_Deployment : string;
  st_Status : Status;
  st_Successes : Z;
  st_Failures : Z;
  st_ConsecutiveFailures : Z;
  st_EWMALatencyMS : float64;
  st_EWMATTFTMS : float64;
  st_EWMAFailureRate : float64;
  st_LastChecked : Time;
  st_LastSuccess : Time;
  st_LastFailure : Time;
  st_LastError : string;
  st_LastErrorClass : string;
  st_CooldownUntil : Time;
  st_NextRetryAt : Time;
  st_RecoveryFailures : Z;
  st_RecoverySuccesses : Z;
  st_LastProbeDurationMS : Z;
  st_Scopes : gmap string ScopeState
}.
#[export] Instance eta_State : Eta State := fun r =>
  mkState (st_Deployment r) (st_Status r) (st_Successes r) (st_Failures r)
    (st_ConsecutiveFailures r) (st_EWMALatencyMS r) (st_EWMATTFTMS r) (st_EWMAFailureRate r)
    (st_LastChecked r) (st_LastSuccess r) (st_LastFailure r) (st_LastError r)
    (st_LastErrorClass r) (st_CooldownUntil r) (st_NextRetryAt r) (st_RecoveryFailures r)
    (st_RecoverySuccesses r) (st_LastProbeDurationMS r) (st_Scopes r).
Definition zero_State : State :=
  mkState "" NoStatus 0 0 0 f_zero f_zero f_zero 0 0 0 "" "" 0 0 0 0 0 ∅.

(** ** Histograms ([histogram.go]) *)

Definition LatencyHistogramBoundsMS : list float64 :=
  map f_of_int [5; 10; 25; 50; 100; 250; 500; 1000; 2000; 4000; 8000; 16000; 32000; 64000].

(** [Buckets] is empty for Go's nil slice. *)
Record Histogram := mkHistogram { h_Buckets : list Z; h_SumMS : float64; h_Count : Z }.
#[export] Instance eta_Histogram : Eta Histogram := fun r =>
  mkHistogram (h_Buckets r) (h_SumMS r) (h_Count r).
Definition zero_Histogram : Histogram := mkHistogram [] f_zero 0.

Definition Observe (h : Histogram) (ms : float64) : Histogram :=
  let ms := if (ms <? f_zero)%f64 then f_zero else ms in
  let h := match h_Buckets h with
           | [] => h <| h_Buckets := replicate (S (length LatencyHistogramBoundsMS)) 0 |>
           | _ => h
           end in
  let i := sort_Search (length LatencyHistogramBoundsMS)
             (fun i => (ms <=? nth i LatencyHistogramBoundsMS f_zero)%f64) in
  h <| h_Buckets ::= alter (fun c => uint64 (c + 1)) i |>
    <| h_SumMS ::= fun sum => (sum + ms)%f64 |>
    <| h_Count ::= fun c => uint64 (c + 1) |>.

(** The running sums of the finite buckets, then the total count. *)
Fixpoint running (run : Z) (l : list Z) (n : nat) : list Z :=
  match n with
  | O => []
  | S n =>
      let run := uint64 (run + hd 0 l) in
      run :: running run (tl l) n
  end.
Definition Cumulative (h : Histogram) : list Z :=
  running 0 (h_Buckets h) (length LatencyHistogramBoundsMS) ++ [h_Count h].

Record deploymentHistograms := mkDH { dh_Latency : Histogram; dh_TTFT : Histogram }.
#[export] Instance eta_deploymentHistograms : Eta deploymentHistograms := fun r =>
  mkDH (dh_Latency r) (dh_TTFT r).

(** ** The manager *)

Record Manager := mkManager {
  mg_threshold : Z;
  mg_cooldown : Duration;
  mg_scopeThreshold : Z;
  mg_scopeCooldown : Duration;
  mg_providerThreshold : Z;
  mg_providerWindow : Duration;
  mg_providerCooldown : Duration;
  mg_states : gmap string State;
  mg_providers : gmap string ProviderState;
  mg_providerEvidence : gmap string (gmap string Time);
  mg_histograms : gmap string deploymentHistograms
}.
#[export] Instance eta_Manager : Eta Manager := fun r =>
  mkManager (mg_threshold r) (mg_cooldown r) (mg_scopeThreshold r) (mg_scopeCooldown r)
    (mg_providerThreshold r) (mg_providerWindow r) (mg_providerCooldown r) (mg_states r)
    (mg_providers r) (mg_providerEvidence r) (mg_histograms r).

Definition New (threshold : Z) (cooldown : Duration) : Manager :=
  let threshold := if threshold <? 1 then 1 else threshold in
  let cooldown := if cooldown <=? 0 then Hour else cooldown in
  mkManager threshold cooldown 2 (5 * Minute) 3 (20 * Second) (30 * Second) ∅ ∅ ∅ ∅.

(** [m.states[id]], with the zero value for an unknown deployment, and
    [m.states[id] = s]. *)
Definition get_state (m : Manager) (id : string) : State := map_get zero_State (mg_states m) id.
Definition put_state (m : Manager) (id : string) (s : State) : Manager :=
  m <| mg_states ::= insert id s |>.
Definition get_provider (m : Manager) (id : string) : ProviderState :=
  map_get zero_ProviderState (mg_providers m) id.
Definition put_provider (m : Manager) (id : string) (s : ProviderState) : Manager :=
  m <| mg_providers ::= insert id s |>.

Definition histogramsFor (m : Manager) (id : string) : deploymentHistograms :=
  map_get (mkDH zero_Histogram zero_Histogram) (mg_histograms m) id.
Definition observe_latency (m : Manager) (id : string) (ms : float64) : Manager :=
  let h := histogramsFor m id in
  m <| mg_histograms ::= insert id (h <| dh_Latency := Observe (dh_Latency h) ms |>) |>.
Definition observe_ttft (m : Manager) (id : string) (ms : float64) : Manager :=
  let h := histogramsFor m id in
  m <| mg_histograms ::= insert id (h <| dh_TTFT := Observe (dh_TTFT h) ms |>) |>.
Definition Histograms (m : Manager) (id : string) : Histogram * Histogram * bool :=
  match mg_histograms m !! id with
  | None => (zero_Histogram, zero_Histogram, false)
  | Some h => (dh_Latency h, dh_TTFT h, true)
  end.

(** [Status == Cooldown && !CooldownUntil.IsZero() && now.After(CooldownUntil)] *)
Definition cooldown_expired (st : Status) (until now : Time) : bool :=
  (st =s? Cooldown) && negb (IsZero until) && After now until.
(** [Status == Cooldown && !CooldownUntil.IsZero() && now.Before(CooldownUntil)] *)
Definition cooldown_active (st : Status) (until now : Time) : bool :=
  (st =s? Cooldown) && negb (IsZero until) && Before now until.

Definition cloneState (s : State) : State := s.

Definition normalizeGlobal (s : State) (now : Time) : State :=
  if cooldown_expired (st_Status s) (st_CooldownUntil s) now then
    s <| st_Status := HalfOpen |>
      <| st_ConsecutiveFailures := 0 |>
      <| st_RecoveryFailures := 0 |>
      <| st_LastError := "" |>
      <| st_CooldownUntil := 0 |>
  else s.

Definition normalize_scope (now : Time) (st : ScopeState) : ScopeState :=
  if cooldown_expired (sc_Status st) (sc_CooldownUntil st) now then
    st <| sc_Status := Unknown |>
       <| sc_ConsecutiveFailures := 0 |>
       <| sc_LastError := "" |>
       <| sc_CooldownUntil := 0 |>
  else st.
Definition normalizeScopes (s : State) (now : Time) : State :=
  s <| st_Scopes ::= fmap (normalize_scope now) |>.

Definition stateNeedsNormalization (s : State) (now : Time) : bool :=
  if cooldown_expired (st_Status s) (st_CooldownUntil s) now then true
  else existsb (fun '(_, st) => cooldown_expired (sc_Status st) (sc_CooldownUntil st) now)
         (map_to_list (st_Scopes s)).

Definition scopesReadyState (s : State) (scopes : list string) : bool :=
  forallb (fun scope =>
    match st_Scopes s !! scope with
    | Some st => negb (sc_Status st =s? Cooldown)
    | None => true
    end) scopes.

(** [GetWithScopes] has two critical sections: a read-locked one that answers
    when nothing has expired, and a write-locked one that re-reads the table
    (which another goroutine may have changed in between) and normalises. *)
Definition unknown_State (id : string) : State :=
  zero_State <| st_Deployment := id |> <| st_Status := Unknown |>.
Definition GetWithScopes_read (m : Manager) (id : string) (scopes : list string) (now : Time)
    : option (State * bool) :=
  match mg_states m !! id with
  | None => Some (unknown_State id, true)
  | Some s =>
      if negb (stateNeedsNormalization s now)
      then Some (cloneState s, scopesReadyState s scopes)
      else None
  end.
Definition GetWithScopes_write (m : Manager) (id : string) (scopes : list string) (now : Time)
    : Manager * (State * bool) :=
  match mg_states m !! id with
  | None => (m, (unknown_State id, true))
  | Some s =>
      let s := normalizeScopes (normalizeGlobal s now) now in
      (put_state m id s, (cloneState s, scopesReadyState s scopes))
  end.
Definition GetWithScopes (m : Manager) (id : string) (scopes : list string) (now : Time)
    : Manager * (State * bool) :=
  match GetWithScopes_read m id scopes now with
  | Some r => (m, r)
  | None => GetWithScopes_write m id scopes now
  end.
Definition Get (m : Manager) (id : string) (now : Time) : Manager * State :=
  let '(m, (s, _)) := GetWithScopes m id [] now in (m, s).

Definition updateEWMA (s : State) (latency : Duration) : State :=
  let ms := f_of_int (Milliseconds latency) in
  if (ms <=? f_zero)%f64 then s
  else if (st_EWMALatencyMS s =? f_zero)%f64 then s <| st_EWMALatencyMS := ms |>
  else s <| st_EWMALatencyMS := (st_EWMALatencyMS s * fbin 3 (-2) + ms * fbin 1 (-2))%f64 |>.

Definition updateFailureEWMA (s : State) (failed : bool) : State :=
  let sample := if failed then f_of_int 1 else f_zero in
  if int64 (st_Successes s + st_Failures s) <=? 1 then s <| st_EWMAFailureRate := sample |>
  else s <| st_EWMAFailureRate := (st_EWMAFailureRate s * fbin 3 (-2) + sample * fbin 1 (-2))%f64 |>.

Definition RecordTTFT (m : Manager) (id : string) (ttft : Duration) : Manager :=
  let ms := f_of_int (Milliseconds ttft) in
  if (ms <=? f_zero)%f64 then m
  else
    let st := get_state m id <| st_Deployment := id |> in
    let st := if (st_EWMATTFTMS st =? f_zero)%f64 then st <| st_EWMATTFTMS := ms |>
              else st <| st_EWMATTFTMS := (st_EWMATTFTMS st * fbin 3 (-2) + ms * fbin 1 (-2))%f64 |> in
    observe_ttft (put_state m id st) id ms.

(** [x++] on an [int] or [int64]. *)
Definition incr (z : Z) : Z := int64 (z + 1).

Definition RecordSuccess (m : Manager) (id : string) (latency : Duration) (now : Time) : Manager :=
  let s := get_state m id <| st_Deployment := id |>
             <| st_Successes ::= incr |>
             <| st_LastChecked := now |>
             <| st_LastSuccess := now |> in
  let s := updateEWMA s latency in
  let m := observe_latency m id (f_of_int (Milliseconds latency)) in
  let s := updateFailureEWMA s false in
  if st_Status s =s? Retired then put_state m id s
  else if cooldown_active (st_Status s) (st_CooldownUntil s) (st_LastChecked s) then put_state m id s
  else
    put_state m id
      (s <| st_ConsecutiveFailures := 0 |>
         <| st_RecoveryFailures := 0 |>
         <| st_RecoverySuccesses := 0 |>
         <| st_Status := Healthy |>
         <| st_LastError := "" |>
         <| st_LastErrorClass := "" |>
         <| st_CooldownUntil := 0 |>
         <| st_NextRetryAt := 0 |>
         <| st_LastProbeDurationMS := Milliseconds latency |>).

(** [now] and [now2] are the two readings of the clock. *)
Definition RecordFailure (m : Manager) (id errMsg : string) (latency : Duration)
    (now now2 : Time) : Manager :=
  let s := get_state m id <| st_Deployment := id |> in
  if st_Status s =s? Retired then put_state m id s
  else
    let s := s <| st_Failures ::= incr |> in
    let s := updateFailureEWMA s true in
    let s := s <| st_ConsecutiveFailures ::= incr |>
               <| st_LastChecked := now |>
               <| st_LastFailure := now |>
               <| st_LastError := errMsg |> in
    let s := updateEWMA s latency in
    let m := observe_latency m id (f_of_int (Milliseconds latency)) in
    if cooldown_active (st_Status s) (st_CooldownUntil s) (st_LastChecked s) then put_state m id s
    else
      let s :=
        if (st_Status s =s? HalfOpen) || (mg_threshold m <=? st_ConsecutiveFailures s) then
          s <| st_Status := Cooldown |> <| st_CooldownUntil := Add now2 (mg_cooldown m) |>
        else
          s <| st_Status := Degraded |> <| st_CooldownUntil := 0 |> in
      put_state m id s.

Definition normalizeProviderState (st : ProviderState) (now : Time) : ProviderState :=
  if cooldown_expired (ps_Status st) (ps_CooldownUntil st) now then
    st <| ps_Status := HalfOpen |>
       <| ps_Evidence := 0 |>
       <| ps_LastError := "" |>
       <| ps_CooldownUntil := 0 |>
  else st.

(** Like [GetWithScopes], a read-locked answer or a write-locked one. *)
Definition ProviderAvailable (m : Manager) (id : string) (now : Time) : Manager * bool :=
  if bool_decide (id = "") then (m, true)
  else
    match mg_providers m !! id with
    | None => (m, true)
    | Some st =>
        if negb (ps_Status st =s? Cooldown) || IsZero (ps_CooldownUntil st)
           || Before now (ps_CooldownUntil st)
        then (m, negb (ps_Status st =s? Cooldown))
        else
          let st := normalizeProviderState st now in
          (put_provider m id st, negb (ps_Status st =s? Cooldown))
    end.

Definition RecordProviderFailure (m : Manager) (providerID deploymentID reason : string)
    (now : Time) : Manager :=
  if bool_decide (providerID = "") then m
  else
    let deploymentID := if bool_decide (deploymentID = "") then providerID else deploymentID in
    let st := normalizeProviderState (get_provider m providerID) now in
    let st := st <| ps_Provider := providerID |>
                 <| ps_LastChecked := now |>
                 <| ps_LastFailure := now |>
                 <| ps_LastError := reason |> in
    if cooldown_active (ps_Status st) (ps_CooldownUntil st) now then put_provider m providerID st
    else if ps_Status st =s? HalfOpen then
      put_provider m providerID
        (st <| ps_Status := Cooldown |>
            <| ps_Evidence := 1 |>
            <| ps_CooldownUntil := Add now (mg_providerCooldown m) |>)
      <| mg_providerEvidence ::= insert providerID {[deploymentID := now]} |>
    else
      let evidence := map_get ∅ (mg_providerEvidence m) providerID in
      let evidence := filter (fun '(_, at_) => ~ Sub now at_ > mg_providerWindow m) evidence in
      let evidence := <[deploymentID := now]> evidence in
      let st := st <| ps_Evidence := Z.of_nat (size evidence) |> in
      let st :=
        if mg_providerThreshold m <=? ps_Evidence st then
          st <| ps_Status := Cooldown |> <| ps_CooldownUntil := Add now (mg_providerCooldown m) |>
        else
          st <| ps_Status := Degraded |> <| ps_CooldownUntil := 0 |> in
      put_provider (m <| mg_providerEvidence ::= insert providerID evidence |>) providerID st.

Definition RecordProviderSuccess (m : Manager) (providerID : string) (now : Time) : Manager :=
  if bool_decide (providerID = "") then m
  else
    let st := get_provider m providerID <| ps_Provider := providerID |>
                <| ps_LastChecked := now |>
                <| ps_LastSuccess := now |> in
    if cooldown_active (ps_Status st) (ps_CooldownUntil st) now then put_provider m providerID st
    else
      put_provider m providerID
        (st <| ps_Status := Healthy |>
            <| ps_Evidence := 0 |>
            <| ps_LastError := "" |>
            <| ps_CooldownUntil := 0 |>)
      <| mg_providerEvidence ::= delete providerID |>.

(** The snapshots list the map values; Go's iteration order is unspecified, so
    the order of the list carries no meaning. *)
Definition ProviderSnapshot (m : Manager) (now : Time) : Manager * list ProviderState :=
  let m := m <| mg_providers ::= fmap (fun st => normalizeProviderState st now) |> in
  (m, (map_to_list (mg_providers m)).*2).

Definition Snapshot (m : Manager) (now now2 : Time) : Manager * list State :=
  if existsb (fun '(_, s) => stateNeedsNormalization s now) (map_to_list (mg_states m)) then
    let m := m <| mg_states ::= fmap (fun s => normalizeScopes (normalizeGlobal s now2) now2) |> in
    (m, cloneState <$> (map_to_list (mg_states m)).*2)
  else (m, cloneState <$> (map_to_list (mg_states m)).*2).

Definition Quarantine (m : Manager) (id reason : string) (latency : Duration) (now : Time) : Manager :=
  let s := get_state m id <| st_Deployment := id |> in
  if st_Status s =s? Retired then put_state m id s
  else
    let s := s <| st_Failures ::= incr |> in
    let s := updateFailureEWMA s true in
    let s := s <| st_ConsecutiveFailures ::= incr |>
               <| st_RecoveryFailures := 0 |>
               <| st_Status := Degraded |>
               <| st_LastChecked := now |>
               <| st_LastFailure := now |>
               <| st_LastError := reason |>
               <| st_CooldownUntil := 0 |> in
    put_state m id (updateEWMA s latency).

Definition RecordProbeFailure (m : Manager) (id reason class : string) (latency : Duration)
    (now : Time) : Manager :=
  let s := get_state m id <| st_Deployment := id |> in
  if st_Status s =s? Retired then put_state m id s
  else
    let s := s <| st_Failures ::= incr |> in
    let s := updateFailureEWMA s true in
    let s := s <| st_ConsecutiveFailures ::= incr |>
               <| st_RecoveryFailures ::= incr |>
               <| st_Status := Degraded |>
               <| st_LastChecked := now |>
               <| st_LastFailure := now |>
               <| st_LastError := reason |> in
    let s := if bool_decide (class = "") then s else s <| st_LastErrorClass := class |> in
    let s := s <| st_CooldownUntil := 0 |>
               <| st_NextRetryAt := 0 |>
               <| st_LastProbeDurationMS := Milliseconds latency |> in
    put_state m id (updateEWMA s latency).

Definition RecordRecoveryFailure (m : Manager) (id reason : string) (latency : Duration)
    (now : Time) : Manager :=
  RecordProbeFailure m id reason "" latency now.

Definition RecordRecoverySuccess (m : Manager) (id : string) (latency : Duration) (now : Time)
    : Manager :=
  let s := get_state m id <| st_Deployment := id |> in
  if (st_Status s =s? Retired) || (st_Status s =s? Healthy) then put_state m id s
  else
    let s := s <| st_Successes ::= incr |>
               <| st_RecoverySuccesses ::= incr |>
               <| st_LastChecked := now |>
               <| st_LastSuccess := now |>
               <| st_LastProbeDurationMS := Milliseconds latency |> in
    let s := updateEWMA s latency in
    let s := updateFailureEWMA s false in
    let s := if negb (st_Status s =s? HalfOpen) then s <| st_Status := HalfOpen |> else s in
    put_state m id
      (s <| st_LastError := "" |> <| st_LastErrorClass := "" |> <| st_NextRetryAt := 0 |>).

Definition SetNextRetry (m : Manager) (id : string) (at_ : Time) : Manager :=
  let s := get_state m id in
  if st_Status s =s? Retired then put_state m id s
  else put_state m id (s <| st_Deployment := id |> <| st_NextRetryAt := at_ |>).

Definition SetErrorClass (m : Manager) (id class : string) : Manager :=
  if bool_decide (class = "") then m
  else
    let s := get_state m id in
    if st_Status s =s? Retired then put_state m id s
    else put_state m id (s <| st_Deployment := id |> <| st_LastErrorClass := class |>).

Definition EnterCooldown (m : Manager) (id reason : string) (d : Duration) (now now2 : Time) : Manager :=
  if st_Status (get_state m id) =s? Retired then m
  else
    let d := if d <=? 0 then mg_cooldown m else d in
    put_state m id
      (get_state m id <| st_Deployment := id |>
         <| st_Status := Cooldown |>
         <| st_LastChecked := now |>
         <| st_LastError := reason |>
         <| st_CooldownUntil := Add now2 d |>).

Definition ForceCooldown (m : Manager) (id reason : string) (d : Duration) (now now2 : Time) : Manager :=
  if st_Status (get_state m id) =s? Retired then m
  else
    let d := if d <=? 0 then mg_cooldown m else d in
    let s := get_state m id <| st_Deployment := id |> <| st_Failures ::= incr |> in
    let s := updateFailureEWMA s true in
    put_state m id
      (s <| st_ConsecutiveFailures ::= incr |>
         <| st_Status := Cooldown |>
         <| st_LastChecked := now |>
         <| st_LastFailure := now |>
         <| st_LastError := reason |>
         <| st_CooldownUntil := Add now2 d |>).

Definition Retire (m : Manager) (id reason errorClass : string) (now : Time) : Manager :=
  put_state m id
    (get_state m id <| st_Deployment := id |>
       <| st_Status := Retired |>
       <| st_Failures ::= incr |>
       <| st_ConsecutiveFailures ::= incr |>
       <| st_LastChecked := now |>
       <| st_LastFailure := now |>
       <| st_LastError := reason |>
       <| st_LastErrorClass := errorClass |>
       <| st_CooldownUntil := 0 |>
       <| st_RecoveryFailures := 0 |>).

Definition ApplySharedCooldown (m : Manager) (id : string) (until : Time) (reason : string)
    (now : Time) : Manager * bool :=
  if bool_decide (id = "") || IsZero until then (m, false)
  else if negb (After until now) then (m, false)
  else
    let s := get_state m id in
    if st_Status s =s? Retired then (m, false)
    else if (st_Status s =s? Cooldown) && negb (After until (st_CooldownUntil s)) then (m, false)
    else
      (put_state m id
         (s <| st_Deployment := id |>
            <| st_Status := Cooldown |>
            <| st_LastChecked := now |>
            <| st_LastError := reason |>
            <| st_CooldownUntil := until |>), true).

Definition scope_success (now : Time) (scopes : gmap string ScopeState) (scope : string)
    : gmap string ScopeState :=
  if bool_decide (scope = "") then scopes
  else
    <[scope := map_get zero_ScopeState scopes scope
                 <| sc_Status := Healthy |>
                 <| sc_Successes ::= incr |>
                 <| sc_ConsecutiveFailures := 0 |>
                 <| sc_LastChecked := now |>
                 <| sc_LastSuccess := now |>
                 <| sc_LastError := "" |>
                 <| sc_CooldownUntil := 0 |>]> scopes.
Definition RecordScopeSuccess (m : Manager) (id : string) (scopes : list string) (now : Time) : Manager :=
  match scopes with
  | [] => m
  | _ => put_state m id (get_state m id <| st_Deployment := id |>
           <| st_Scopes ::= fun sc => fold_left (scope_success now) scopes sc |>)
  end.

Definition scope_failure (m : Manager) (reason : string) (now : Time)
    (scopes : gmap string ScopeState) (scope : string) : gmap string ScopeState :=
  if bool_decide (scope = "") then scopes
  else
    let st := map_get zero_ScopeState scopes scope
                <| sc_Failures ::= incr |>
                <| sc_ConsecutiveFailures ::= incr |>
                <| sc_LastChecked := now |>
                <| sc_LastFailure := now |>
                <| sc_LastError := reason |> in
    let st :=
      if mg_scopeThreshold m <=? sc_ConsecutiveFailures st then
        st <| sc_Status := Cooldown |> <| sc_CooldownUntil := Add now (mg_scopeCooldown m) |>
      else st <| sc_Status := Degraded |> in
    <[scope := st]> scopes.
Definition RecordScopeFailure (m : Manager) (id : string) (scopes : list string) (reason : string)
    (now : Time) : Manager :=
  match scopes with
  | [] => m
  | _ => put_state m id (get_state m id <| st_Deployment := id |>
           <| st_Scopes ::= fun sc => fold_left (scope_failure m reason now) scopes sc |>)
  end.

Definition ScopesReady (m : Manager) (id : string) (scopes : list string) (now : Time)
    : Manager * bool :=
  match scopes with
  | [] => (m, true)
  | _ => let '(m, (_, ready)) := GetWithScopes m id scopes now in (m, ready)
  end.

Definition Invalidate (m : Manager) (id : string) : Manager := put_state m id (unknown_State id).

Definition Retain (m : Manager) (valid : gset string) : Manager :=
  m <| mg_states ::= filter (fun '(id, _) => id ∈ valid) |>.

Definition RetainProviders (m : Manager) (valid : gset string) : Manager :=
  let gone : gset string := dom (mg_providers m) ∖ valid in
  m <| mg_providers ::= filter (fun '(id, _) => id ∉ gone) |>
    <| mg_providerEvidence ::= filter (fun '(id, _) => id ∉ gone) |>.

Definition InvalidateProvider (m : Manager) (id : string) : Manager :=
  if bool_decide (id = "") then m
  else m <| mg_providers ::= delete id |> <| mg_providerEvidence ::= delete id |>.

Definition ConfigureAdvanced (m : Manager) (threshold : Z) (cooldown : Duration)
    (scopeThreshold : Z) (scopeCooldown : Duration) : Manager :=
  let threshold := if threshold <? 1 then 1 else threshold in
  let cooldown := if cooldown <=? 0 then Hour else cooldown in
  let scopeThreshold := if scopeThreshold <? 1 then 2 else scopeThreshold in
  let scopeCooldown := if scopeCooldown <=? 0 then 5 * Minute else scopeCooldown in
  m <| mg_threshold := threshold |>
    <| mg_cooldown := cooldown |>
    <| mg_scopeThreshold := scopeThreshold |>
    <| mg_scopeCooldown := scopeCooldown |>.

Definition Configure (m : Manager) (threshold : Z) (cooldown : Duration) : Manager :=
  ConfigureAdvanced m threshold cooldown (mg_scopeThreshold m) (mg_scopeCooldown m).

Definition ConfigureProviderIncidents (m : Manager) (threshold : Z) (window cooldown : Duration)
    : Manager :=
  let threshold := if threshold <? 2 then 2 else threshold in
  let window := if window <=? 0 then 20 * Second else window in
  let cooldown := if cooldown <=? 0 then 30 * Second else cooldown in
  m <| mg_providerThreshold := threshold |>
    <| mg_providerWindow := window |>
    <| mg_providerCooldown := cooldown |>.

(** ** Presentation ([derived.go]) *)

Definition CircuitStateFor (s : Status) : string :=
  match s with
  | Cooldown | Retired => "OPEN"
  | HalfOpen => "HALF_OPEN"
  | _ => "CLOSED"
  end.

Definition RichStateFor (st : State) : string :=
  match st_Status st with
  | Healthy => "HEALTHY"
  | Degraded => "DEGRADED"
  | HalfOpen => "RECOVERING"
  | Cooldown => "COOLDOWN"
  | Retired => "DISABLED"
  | _ => if IsZero (st_LastChecked st) then "UNKNOWN" else "CHECKING"
  end.
Definition AverageLatencyMS (st : State) : float64 := st_EWMALatencyMS st.
Definition RecentErrorRate (st : State) : float64 := st_EWMAFailureRate st.
