(* ===== verification/HealthCircuit.v ===== *)
(** * Operations of the health manager and what they do to one circuit

    The operations as data ([op], [run_op]), the circuit of a deployment (status,
    deadline, consecutive failures), and the lemmas that each manager method moves
    exactly one deployment's circuit, by exactly the function [c_step]. *)

From S2P Require Import Prelude Health.

(** ** Operations as data *)

Inductive op :=
| OpGet (id : string) (scopes : list string) (now : Time)
| OpRecordTTFT (id : string) (ttft : Duration)
| OpRecordSuccess (id : string) (latency : Duration) (now : Time)
| OpRecordFailure (id errMsg : string) (latency : Duration) (now now2 : Time)
| OpProviderAvailable (id : string) (now : Time)
| OpRecordProviderFailure (p d reason : string) (now : Time)
| OpRecordProviderSuccess (p : string) (now : Time)
| OpProviderSnapshot (now : Time)
| OpSnapshot (now now2 : Time)
| OpQuarantine (id reason : string) (latency : Duration) (now : Time)
| OpRecordProbeFailure (id reason class : string) (latency : Duration) (now : Time)
| OpRecordRecoverySuccess (id : string) (latency : Duration) (now : Time)
| OpSetNextRetry (id : string) (at_ : Time)
| OpSetErrorClass (id class : string)
| OpEnterCooldown (id reason : string) (d : Duration) (now now2 : Time)
| OpForceCooldown (id reason : string) (d : Duration) (now now2 : Time)
| OpRetire (id reason class : string) (now : Time)
| OpApplySharedCooldown (id : string) (until : Time) (reason : string) (now : Time)
| OpRecordScopeSuccess (id : string) (scopes : list string) (now : Time)
| OpRecordScopeFailure (id : string) (scopes : list string) (reason : string) (now : Time)
| OpInvalidate (id : string)
| OpRetain (valid : gset string)
| OpRetainProviders (valid : gset string)
| OpInvalidateProvider (id : string)
| OpConfigure (threshold : Z) (cooldown : Duration) (scopeThreshold : Z) (scopeCooldown : Duration)
| OpConfigureProviderIncidents (threshold : Z) (window cooldown : Duration).

Definition run_op (m : Manager) (o : op) : Manager :=
  match o with
  | OpGet id scopes now => (GetWithScopes m id scopes now).1
  | OpRecordTTFT id ttft => RecordTTFT m id ttft
  | OpRecordSuccess id latency now => RecordSuccess m id latency now
  | OpRecordFailure id e latency now now2 => RecordFailure m id e latency now now2
  | OpProviderAvailable id now => (ProviderAvailable m id now).1
  | OpRecordProviderFailure p d reason now => RecordProviderFailure m p d reason now
  | OpRecordProviderSuccess p now => RecordProviderSuccess m p now
  | OpProviderSnapshot now => (ProviderSnapshot m now).1
  | OpSnapshot now now2 => (Snapshot m now now2).1
  | OpQuarantine id reason latency now => Quarantine m id reason latency now
  | OpRecordProbeFailure id reason class latency now => RecordProbeFailure m id reason class latency now
  | OpRecordRecoverySuccess id latency now => RecordRecoverySuccess m id latency now
  | OpSetNextRetry id at_ => SetNextRetry m id at_
  | OpSetErrorClass id class => SetErrorClass m id class
  | OpEnterCooldown id reason d now now2 => EnterCooldown m id reason d now now2
  | OpForceCooldown id reason d now now2 => ForceCooldown m id reason d now now2
  | OpRetire id reason class now => Retire m id reason class now
  | OpApplySharedCooldown id until reason now => (ApplySharedCooldown m id until reason now).1
  | OpRecordScopeSuccess id scopes now => RecordScopeSuccess m id scopes now
  | OpRecordScopeFailure id scopes reason now => RecordScopeFailure m id scopes reason now
  | OpInvalidate id => Invalidate m id
  | OpRetain valid => Retain m valid
  | OpRetainProviders valid => RetainProviders m valid
  | OpInvalidateProvider id => InvalidateProvider m id
  | OpConfigure t c st sc => ConfigureAdvanced m t c st sc
  | OpConfigureProviderIncidents t w c => ConfigureProviderIncidents m t w c
  end.

Definition run_ops (m : Manager) (os : list op) : Manager := fold_left run_op os m.

(** ** Reading after writing *)

Lemma status_is_true a b : (a =s? b) = true <-> a = b.
Proof. apply bool_decide_eq_true. Qed.
Lemma status_is_false a b : (a =s? b) = false <-> a <> b.
Proof. apply bool_decide_eq_false. Qed.

Lemma get_put m id s id' :
  get_state (put_state m id s) id' = if decide (id = id') then s else get_state m id'.
Proof.
  unfold get_state, put_state, map_get. cbn. rewrite lookup_insert. by case_decide.
Qed.

(** ** The abstract circuit breaker

    What routing depends on is the triple of status, cooldown deadline and
    consecutive failures.  [c_step] is the breaker's state machine on that
    triple alone; [run_op_refines] shows the manager implements it. *)

Record circuit := mkCircuit { c_status : Status; c_until : Time; c_consec : Z }.
Definition circuit_of (s : State) : circuit :=
  mkCircuit (st_Status s) (st_CooldownUntil s) (st_ConsecutiveFailures s).
Definition c_zero : circuit := mkCircuit NoStatus 0 0.

Definition c_normalize (now : Time) (c : circuit) : circuit :=
  if cooldown_expired (c_status c) (c_until c) now then mkCircuit HalfOpen 0 0 else c.

(** A failure that demotes without regard to an active cooldown. *)
Definition c_degrade (c : circuit) : circuit :=
  if c_status c =s? Retired then c else mkCircuit Degraded 0 (incr (c_consec c)).
Definition c_open (m : Manager) (d : Duration) (now2 : Time) (consec : Z) (c : circuit) : circuit :=
  if c_status c =s? Retired then c
  else mkCircuit Cooldown (Add now2 (if d <=? 0 then mg_cooldown m else d)) consec.

Definition c_event (m : Manager) (o : op) (c : circuit) : circuit :=
  match o with
  | OpGet _ _ now => c_normalize now c
  | OpRecordSuccess _ _ now =>
      if (c_status c =s? Retired) || cooldown_active (c_status c) (c_until c) now then c
      else mkCircuit Healthy 0 0
  | OpRecordFailure _ _ _ now now2 =>
      if c_status c =s? Retired then c
      else if cooldown_active (c_status c) (c_until c) now
      then mkCircuit (c_status c) (c_until c) (incr (c_consec c))
      else if (c_status c =s? HalfOpen) || (mg_threshold m <=? incr (c_consec c))
      then mkCircuit Cooldown (Add now2 (mg_cooldown m)) (incr (c_consec c))
      else mkCircuit Degraded 0 (incr (c_consec c))
  | OpQuarantine _ _ _ _ | OpRecordProbeFailure _ _ _ _ _ => c_degrade c
  | OpRecordRecoverySuccess _ _ _ =>
      if (c_status c =s? Retired) || (c_status c =s? Healthy) then c
      else mkCircuit HalfOpen (c_until c) (c_consec c)
  | OpEnterCooldown _ _ d _ now2 => c_open m d now2 (c_consec c) c
  | OpForceCooldown _ _ d _ now2 => c_open m d now2 (incr (c_consec c)) c
  | OpRetire _ _ _ _ => mkCircuit Retired 0 (incr (c_consec c))
  | OpApplySharedCooldown id until _ now =>
      if bool_decide (id = "") || IsZero until || negb (After until now)
         || (c_status c =s? Retired)
         || ((c_status c =s? Cooldown) && negb (After until (c_until c)))
      then c
      else mkCircuit Cooldown until (c_consec c)
  | OpInvalidate _ => mkCircuit Unknown 0 0
  | _ => c
  end.

(** The deployment an operation is addressed to, if any. *)
Definition op_target (o : op) : option string :=
  match o with
  | OpGet id _ _ | OpRecordTTFT id _ | OpRecordSuccess id _ _ | OpRecordFailure id _ _ _ _
  | OpQuarantine id _ _ _ | OpRecordProbeFailure id _ _ _ _ | OpRecordRecoverySuccess id _ _
  | OpSetNextRetry id _ | OpSetErrorClass id _ | OpEnterCooldown id _ _ _ _
  | OpForceCooldown id _ _ _ _ | OpRetire id _ _ _ | OpApplySharedCooldown id _ _ _
  | OpRecordScopeSuccess id _ _ | OpRecordScopeFailure id _ _ _ | OpInvalidate id => Some id
  | _ => None
  end.

Definition snapshot_writes (m : Manager) (now : Time) : bool :=
  existsb (fun '(_, s) => stateNeedsNormalization s now) (map_to_list (mg_states m)).

Definition c_step (m : Manager) (o : op) (id : string) (c : circuit) : circuit :=
  match o with
  | OpSnapshot now now2 => if snapshot_writes m now then c_normalize now2 c else c
  | OpRetain valid => if bool_decide (id ∈ valid) then c else c_zero
  | _ => if bool_decide (op_target o = Some id) then c_event m o c else c
  end.

Definition circuit_at (m : Manager) (id : string) : circuit := circuit_of (get_state m id).

Lemma circuit_put m id s id' :
  circuit_at (put_state m id s) id' = if bool_decide (id = id') then circuit_of s else circuit_at m id'.
Proof. unfold circuit_at. rewrite get_put. case_decide; case_bool_decide; done. Qed.

(** The EWMA updates touch nothing but their own gauge. *)
Definition same_but_gauges (s s' : State) : Prop :=
  circuit_of s' = circuit_of s /\ st_LastChecked s' = st_LastChecked s /\
  st_Scopes s' = st_Scopes s /\ st_Deployment s' = st_Deployment s.
Lemma updateEWMA_frame s latency : same_but_gauges s (updateEWMA s latency).
Proof. unfold updateEWMA. repeat case_match; done. Qed.
Lemma updateFailureEWMA_frame s b : same_but_gauges s (updateFailureEWMA s b).
Proof. unfold updateFailureEWMA. repeat case_match; done. Qed.

Lemma circuit_of_normalize s now :
  circuit_of (normalizeScopes (normalizeGlobal s now) now) = c_normalize now (circuit_of s).
Proof. unfold normalizeScopes, normalizeGlobal, c_normalize, circuit_of. cbn. by case_match. Qed.

Lemma circuit_observe_latency m id ms id' : circuit_at (observe_latency m id ms) id' = circuit_at m id'.
Proof. done. Qed.
Lemma circuit_observe_ttft m id ms id' : circuit_at (observe_ttft m id ms) id' = circuit_at m id'.
Proof. done. Qed.

Lemma c_normalize_none now c :
  cooldown_expired (c_status c) (c_until c) now = false -> c_normalize now c = c.
Proof. unfold c_normalize. by intros ->. Qed.

Lemma needs_normalization_false s now :
  stateNeedsNormalization s now = false ->
  cooldown_expired (st_Status s) (st_CooldownUntil s) now = false /\
  forall k st, st_Scopes s !! k = Some st ->
    cooldown_expired (sc_Status st) (sc_CooldownUntil st) now = false.
Proof.
  unfold stateNeedsNormalization. case_match eqn:E; [done|]. intros Hex. split; [done|].
  intros k st Hk. apply not_true_is_false. intros Ht.
  apply not_true_iff_false in Hex. apply Hex. apply existsb_exists.
  exists (k, st). split; [|done]. by apply list_elem_of_In, elem_of_map_to_list.
Qed.

Lemma get_refines m id scopes now id' :
  circuit_at (GetWithScopes m id scopes now).1 id'
  = if bool_decide (id = id') then c_normalize now (circuit_at m id') else circuit_at m id'.
Proof.
  unfold GetWithScopes, GetWithScopes_read, GetWithScopes_write.
  destruct (mg_states m !! id) as [s|] eqn:Hs.
  - assert (get_state m id = s) as Hg by (unfold get_state, map_get; by rewrite Hs).
    destruct (stateNeedsNormalization s now) eqn:Hn; cbn [negb fst].
    + rewrite circuit_put, circuit_of_normalize. case_bool_decide; [|done]. subst id'.
      unfold circuit_at. by rewrite Hg.
    + case_bool_decide; [|done]. subst id'. rewrite c_normalize_none; [done|].
      unfold circuit_at. rewrite Hg. by apply needs_normalization_false in Hn as [? _].
  - case_bool_decide; [|done]. subst id'. cbn. unfold circuit_at, get_state, map_get.
    by rewrite Hs.
Qed.

#[local] Arguments status_is : simpl never.
#[local] Arguments cooldown_active : simpl never.
#[local] Arguments cooldown_expired : simpl never.
#[local] Arguments incr : simpl never.
#[local] Arguments Z.leb : simpl never.

(** One operation on deployment [id] moves its circuit by [f] and no other. *)
Definition moves (m m' : Manager) (id : string) (f : circuit -> circuit) : Prop :=
  forall id', circuit_at m' id' = if bool_decide (id = id') then f (circuit_at m id') else circuit_at m id'.

Lemma moves_refl m id f : f (circuit_at m id) = circuit_at m id -> moves m m id f.
Proof. intros Hf id'. case_bool_decide; congruence. Qed.

Lemma moves_put m m' id s f :
  mg_states m' = mg_states m -> circuit_of s = f (circuit_of (get_state m id)) ->
  moves m (put_state m' id s) id f.
Proof.
  intros Hm Hs id'. rewrite circuit_put. case_bool_decide; [by subst|].
  unfold circuit_at, get_state. by rewrite Hm.
Qed.

(** Walks through the [let]s and [if]s of an operation.  Of every intermediate
    state only the projections the circuit depends on are kept. *)
Ltac summarize s e :=
  lazymatch e with
  | updateEWMA ?s0 ?l => pose proof (updateEWMA_frame s0 l) as [[= ? ? ?] [? _]]
  | updateFailureEWMA ?s0 ?b => pose proof (updateFailureEWMA_frame s0 b) as [[= ? ? ?] [? _]]
  | _ => pose proof (eq_refl (st_Status e)); pose proof (eq_refl (st_CooldownUntil e));
         pose proof (eq_refl (st_ConsecutiveFailures e)); pose proof (eq_refl (st_LastChecked e))
  end;
  repeat match goal with
    | H : ?p e = ?rhs |- _ =>
        change (p s = rhs) in H;
        cbn [st_Status st_CooldownUntil st_ConsecutiveFailures st_LastChecked update] in H
    end;
  clearbody s.
Ltac walk :=
  repeat lazymatch goal with
    | |- moves _ (let x := (if ?b then _ else _) in _) _ _ => destruct b eqn:?; cbv beta iota
    | |- moves ?m (let x := ?e in @?body x) ?id ?f =>
        let x' := fresh x in pose (x' := e); change (moves m (body x') id f); cbv beta;
        lazymatch type of e with State => summarize x' e | _ => idtac end
    | |- moves ?m (fst (let x := ?e in @?body x)) ?id ?f =>
        let x' := fresh x in pose (x' := e); change (moves m (fst (body x')) id f); cbv beta;
        lazymatch type of e with State => summarize x' e | _ => idtac end
    | |- moves _ (if ?b then _ else _) _ _ => destruct b eqn:?
    | |- moves _ (match ?l with [] => _ | _ :: _ => _ end) _ _ => destruct l eqn:?
    | |- moves _ (fst (if ?b then _ else _)) _ _ => destruct b eqn:?
    | |- moves _ (fst (_, _)) _ _ => cbn [fst]
    | |- moves ?m (put_state ?m' ?i (updateEWMA ?s ?l)) ?id ?f =>
        let x := fresh "s" in pose (x := updateEWMA s l);
        change (moves m (put_state m' i x) id f); summarize x (updateEWMA s l)
    end.
Ltac moves_op :=
  walk;
  first [ apply moves_refl | apply moves_put; [reflexivity|] ];
  unfold circuit_at, circuit_of in *;
  cbn [st_Status st_CooldownUntil st_ConsecutiveFailures st_LastChecked update
       c_status c_until c_consec] in *;
  repeat match goal with
    | H : ?p ?s = ?rhs |- _ =>
        is_var s; lazymatch type of s with State => rewrite H in *; clear H end
    end;
  repeat match goal with H : ?x = _ |- context [?x] => rewrite H end;
  cbn; try done; repeat (case_match; cbn in *); bool_hyps; try done; try congruence;
  repeat match goal with
    | H1 : ?b = ?v, H2 : context [?b] |- _ =>
        lazymatch H1 with H2 => fail | _ => rewrite H1 in H2; cbn in H2; try discriminate end
    | H : (_ =s? _) = true |- _ => apply status_is_true in H; rewrite H; try done
    end.

Lemma moves_RecordSuccess m id latency now :
  moves m (RecordSuccess m id latency now) id (c_event m (OpRecordSuccess id latency now)).
Proof. cbv beta delta [RecordSuccess c_event]. moves_op. Qed.
Lemma moves_RecordFailure m id e latency now now2 :
  moves m (RecordFailure m id e latency now now2) id (c_event m (OpRecordFailure id e latency now now2)).
Proof. cbv beta delta [RecordFailure c_event]. moves_op. Qed.
Lemma moves_RecordTTFT m id ttft : moves m (RecordTTFT m id ttft) id (c_event m (OpRecordTTFT id ttft)).
Proof. cbv beta delta [RecordTTFT c_event]. moves_op. Qed.
Lemma moves_Quarantine m id reason latency now :
  moves m (Quarantine m id reason latency now) id (c_event m (OpQuarantine id reason latency now)).
Proof. cbv beta delta [Quarantine c_event c_degrade]. moves_op. Qed.
Lemma moves_RecordProbeFailure m id reason class latency now :
  moves m (RecordProbeFailure m id reason class latency now) id
    (c_event m (OpRecordProbeFailure id reason class latency now)).
Proof. cbv beta delta [RecordProbeFailure c_event c_degrade]. moves_op. Qed.
Lemma moves_RecordRecoverySuccess m id latency now :
  moves m (RecordRecoverySuccess m id latency now) id
    (c_event m (OpRecordRecoverySuccess id latency now)).
Proof. cbv beta delta [RecordRecoverySuccess c_event]. moves_op. Qed.
Lemma moves_SetNextRetry m id at_ :
  moves m (SetNextRetry m id at_) id (c_event m (OpSetNextRetry id at_)).
Proof. cbv beta delta [SetNextRetry c_event]. moves_op. Qed.
Lemma moves_SetErrorClass m id class :
  moves m (SetErrorClass m id class) id (c_event m (OpSetErrorClass id class)).
Proof. cbv beta delta [SetErrorClass c_event]. moves_op. Qed.
Lemma moves_EnterCooldown m id reason d now now2 :
  moves m (EnterCooldown m id reason d now now2) id (c_event m (OpEnterCooldown id reason d now now2)).
Proof. cbv beta delta [EnterCooldown c_event c_open]. moves_op. Qed.
Lemma moves_ForceCooldown m id reason d now now2 :
  moves m (ForceCooldown m id reason d now now2) id (c_event m (OpForceCooldown id reason d now now2)).
Proof. cbv beta delta [ForceCooldown c_event c_open]. moves_op. Qed.
Lemma moves_Retire m id reason class now :
  moves m (Retire m id reason class now) id (c_event m (OpRetire id reason class now)).
Proof. cbv beta delta [Retire c_event]. moves_op. Qed.
Lemma moves_ApplySharedCooldown m id until reason now :
  moves m (ApplySharedCooldown m id until reason now).1 id
    (c_event m (OpApplySharedCooldown id until reason now)).
Proof. cbv beta delta [ApplySharedCooldown c_event]. moves_op. Qed.
Lemma moves_RecordScopeSuccess m id scopes now :
  moves m (RecordScopeSuccess m id scopes now) id (c_event m (OpRecordScopeSuccess id scopes now)).
Proof. cbv beta delta [RecordScopeSuccess c_event]. moves_op. Qed.
Lemma moves_RecordScopeFailure m id scopes reason now :
  moves m (RecordScopeFailure m id scopes reason now) id
    (c_event m (OpRecordScopeFailure id scopes reason now)).
Proof. cbv beta delta [RecordScopeFailure c_event]. moves_op. Qed.
Lemma moves_Invalidate m id : moves m (Invalidate m id) id (c_event m (OpInvalidate id)).
Proof. cbv beta delta [Invalidate c_event]. moves_op. Qed.
#[local] Hint Resolve moves_RecordSuccess moves_RecordFailure moves_RecordTTFT moves_Quarantine
  moves_RecordProbeFailure moves_RecordRecoverySuccess moves_SetNextRetry moves_SetErrorClass
  moves_EnterCooldown moves_ForceCooldown moves_Retire moves_ApplySharedCooldown
  moves_RecordScopeSuccess moves_RecordScopeFailure moves_Invalidate : go.

Lemma snapshot_circuit m now now2 id :
  circuit_at (Snapshot m now now2).1 id
  = if snapshot_writes m now then c_normalize now2 (circuit_at m id) else circuit_at m id.
Proof.
  unfold Snapshot, snapshot_writes. case_match; [|done]. cbn.
  unfold circuit_at, get_state, map_get. cbn. rewrite lookup_fmap.
  destruct (mg_states m !! id); cbn; [apply circuit_of_normalize | done].
Qed.

Lemma retain_circuit m valid id :
  circuit_at (Retain m valid) id = if bool_decide (id ∈ valid) then circuit_at m id else c_zero.
Proof.
  unfold circuit_at, get_state, map_get, Retain. cbn. rewrite map_lookup_filter.
  destruct (mg_states m !! id) as [s|]; cbn; [|by case_bool_decide].
  case_bool_decide; case_guard; naive_solver.
Qed.

(** Proves that an operation leaves an observation [f] of the manager alone, by
    walking through its [let]s and branches without expanding them. *)
Ltac op_frame :=
  repeat lazymatch goal with
    | |- ?f (let x := ?e in @?body x) = ?r =>
        let x' := fresh "x" in pose (x' := e); change (f (body x') = r); cbv beta;
        lazymatch type of e with Manager => idtac | _ => clearbody x' end
    | |- ?f (fst (let x := ?e in @?body x)) = ?r =>
        let x' := fresh "x" in pose (x' := e); change (f (fst (body x')) = r); cbv beta;
        lazymatch type of e with Manager => idtac | _ => clearbody x' end
    | |- ?f (if ?b then _ else _) = _ => destruct b
    | |- ?f (fst (if ?b then _ else _)) = _ => destruct b
    | |- ?f (match ?l with [] => _ | _ :: _ => _ end) = _ => destruct l
    | |- ?f (fst (match ?b with Some _ => _ | None => _ end)) = _ => destruct b
    end; reflexivity.

Lemma provider_ops_states m o : op_target o = None ->
  match o with OpSnapshot _ _ | OpRetain _ => False | _ => True end ->
  mg_states (run_op m o) = mg_states m.
Proof.
  destruct o; cbn [op_target run_op]; try done; intros _ _;
    cbv beta delta [ProviderAvailable RecordProviderFailure RecordProviderSuccess InvalidateProvider];
    op_frame.
Qed.

Lemma run_op_step m o id : circuit_at (run_op m o) id = c_step m o id (circuit_at m id).
Proof.
  assert (forall id' f m', moves m m' id' f -> circuit_at m' id
    = if bool_decide (Some id' = Some id) then f (circuit_at m id) else circuit_at m id) as Hm.
  { intros id' f m' Hmv. rewrite Hmv. repeat case_bool_decide; naive_solver. }
  assert (forall o', o = o' -> op_target o' = None ->
    match o' with OpSnapshot _ _ | OpRetain _ => False | _ => True end ->
    circuit_at (run_op m o') id = circuit_at m id) as Hp.
  { intros o' _ Ht Ho. unfold circuit_at, get_state. by rewrite provider_ops_states. }
  destruct o; try (by apply (Hp _ eq_refl)); cbn [c_step op_target run_op];
    solve [ apply Hm; auto with go | apply snapshot_circuit | apply retain_circuit
          | apply Hm; intros ?; apply get_refines ].
Qed.
