(* ===== verification/HealthProofs.v ===== *)
(** * Correctness of the health manager

    Properties that hold along traces of manager operations: the manager refines
    the abstract circuit breaker, retirement is sticky, an active cooldown
    survives in-flight observations, no cooldown is permanent, one broken
    deployment cannot open a provider circuit, the read-locked fast path agrees
    with the write-locked one, and the histograms count exactly. *)

From S2P Require Import Prelude Health HealthCircuit.

(** ** Theorems on deployments *)

(** The circuit breaker as documented, on the triple alone.  An open circuit
    holds while its deadline is ahead and lapses once it has passed. *)
Definition held_open (now : Time) (c : circuit) : Prop := c_status c = Cooldown /\ c_until c <> 0 /\ now < c_until c.
Definition lapsed (now : Time) (c : circuit) : Prop := c_status c = Cooldown /\ c_until c <> 0 /\ c_until c < now.
#[local] Instance held_open_dec now c : Decision (held_open now c).
Proof. unfold held_open. apply _. Defined.
#[local] Instance lapsed_dec now c : Decision (lapsed now c).
Proof. unfold lapsed. apply _. Defined.
(** A lapsed circuit is half-open, with its failures forgotten. *)
Definition relax (now : Time) (c : circuit) : circuit := if decide (lapsed now c) then mkCircuit HalfOpen 0 0 else c.
Definition one_more (n : Z) : Z := int64 (n + 1).
Definition demote (c : circuit) : circuit := if decide (c_status c = Retired) then c else mkCircuit Degraded 0 (one_more (c_consec c)).
Definition open_for (normal d : Duration) (now : Time) (failures : Z) (c : circuit) : circuit :=
  if decide (c_status c = Retired) then c else mkCircuit Cooldown (Add now (if decide (0 < d) then d else normal)) failures.
(** Some deployment of the table, or a scope of one, has lapsed. *)
Definition some_lapsed (m : Manager) (now : Time) : Prop :=
  exists d s, mg_states m !! d = Some s /\
    (lapsed now (circuit_of s) \/ exists k sc, st_Scopes s !! k = Some sc /\ lapsed now (mkCircuit (sc_Status sc) (sc_CooldownUntil sc) 0)).

(** What an event addressed to the deployment does to its circuit. *)
Definition breaker (threshold : Z) (normal : Duration) (o : op) (c : circuit) : circuit :=
  match o with
  | OpGet _ _ now => relax now c
  | OpRecordSuccess _ _ now => if decide (c_status c = Retired \/ held_open now c) then c else mkCircuit Healthy 0 0
  | OpRecordFailure _ _ _ now now2 =>
      if decide (c_status c = Retired) then c
      else if decide (held_open now c) then mkCircuit Cooldown (c_until c) (one_more (c_consec c))
      else if decide (c_status c = HalfOpen \/ threshold <= one_more (c_consec c))
      then mkCircuit Cooldown (Add now2 normal) (one_more (c_consec c))
      else mkCircuit Degraded 0 (one_more (c_consec c))
  | OpQuarantine _ _ _ _ | OpRecordProbeFailure _ _ _ _ _ => demote c
  | OpRecordRecoverySuccess _ _ _ => if decide (c_status c = Retired \/ c_status c = Healthy) then c else mkCircuit HalfOpen (c_until c) (c_consec c)
  | OpEnterCooldown _ _ d _ now2 => open_for normal d now2 (c_consec c) c
  | OpForceCooldown _ _ d _ now2 => open_for normal d now2 (one_more (c_consec c)) c
  | OpRetire _ _ _ _ => mkCircuit Retired 0 (one_more (c_consec c))
  | OpApplySharedCooldown d until _ now =>
      if decide (d <> "" /\ until <> 0 /\ now < until /\ c_status c <> Retired /\ (c_status c = Cooldown -> c_until c < until))
      then mkCircuit Cooldown until (c_consec c) else c
  | OpInvalidate _ => mkCircuit Unknown 0 0
  | _ => c
  end.
(** The circuit of [id] before and after an operation of the manager. *)
Definition breaker_step (m : Manager) (o : op) (id : string) (c c' : circuit) : Prop :=
  match o with
  | OpSnapshot now now2 => some_lapsed m now /\ c' = relax now2 c \/ ~ some_lapsed m now /\ c' = c
  | OpRetain valid => c' = if decide (id ∈ valid) then c else mkCircuit NoStatus 0 0
  | _ => c' = if decide (op_target o = Some id) then breaker (mg_threshold m) (mg_cooldown m) o c else c
  end.

Lemma active_iff now c : cooldown_active (c_status c) (c_until c) now = bool_decide (held_open now c).
Proof.
  apply eq_bool_prop_intro. rewrite bool_decide_spec. unfold cooldown_active, held_open, status_is, IsZero, Before.
  rewrite !andb_True, negb_True, !Is_true_true, bool_decide_eq_true, Z.eqb_eq, Z.ltb_lt. tauto.
Qed.
Lemma expired_iff now c : cooldown_expired (c_status c) (c_until c) now = bool_decide (lapsed now c).
Proof.
  apply eq_bool_prop_intro. rewrite bool_decide_spec. unfold cooldown_expired, lapsed, status_is, IsZero, After.
  rewrite !andb_True, negb_True, !Is_true_true, bool_decide_eq_true, Z.eqb_eq, Z.ltb_lt. tauto.
Qed.
Lemma some_lapsed_iff m now : snapshot_writes m now = true <-> some_lapsed m now.
Proof.
  unfold snapshot_writes, some_lapsed. rewrite existsb_exists. split.
  - intros ([d s] & Hin%list_elem_of_In%elem_of_map_to_list & H). exists d, s. split; [done|]. unfold stateNeedsNormalization in H.
    destruct (cooldown_expired _ _ _) eqn:E; [left; change (cooldown_expired (c_status (circuit_of s)) (c_until (circuit_of s)) now = true) in E; rewrite expired_iff in E; by apply bool_decide_eq_true in E|].
    apply existsb_exists in H as ([k sc] & Hk%list_elem_of_In%elem_of_map_to_list & H). right. exists k, sc. split; [done|].
    apply (bool_decide_eq_true (lapsed now (mkCircuit (sc_Status sc) (sc_CooldownUntil sc) 0))). by rewrite <- expired_iff.
  - intros (d & s & Hd & H). exists (d, s). split; [by apply list_elem_of_In, elem_of_map_to_list|]. unfold stateNeedsNormalization.
    change (cooldown_expired (st_Status s) (st_CooldownUntil s) now) with (cooldown_expired (c_status (circuit_of s)) (c_until (circuit_of s)) now).
    rewrite expired_iff. case_bool_decide as Hl; [done|]. destruct H as [H|(k & sc & Hk & H)]; [done|].
    apply existsb_exists. exists (k, sc). split; [by apply list_elem_of_In, elem_of_map_to_list|].
    change (cooldown_expired (c_status (mkCircuit (sc_Status sc) (sc_CooldownUntil sc) 0)) (c_until (mkCircuit (sc_Status sc) (sc_CooldownUntil sc) 0)) now = true).
    rewrite expired_iff. by apply bool_decide_eq_true.
Qed.
Lemma relax_iff now c : c_normalize now c = relax now c.
Proof. unfold c_normalize, relax. rewrite expired_iff. case_bool_decide; case_decide; done. Qed.

Lemma breaker_iff m o c : c_event m o c = breaker (mg_threshold m) (mg_cooldown m) o c.
Proof.
  destruct o; try done; cbn [c_event breaker].
  - apply relax_iff.
  - rewrite active_iff. unfold status_is. repeat case_bool_decide; case_decide; cbn; tauto.
  - rewrite active_iff. unfold status_is, incr, one_more.
    destruct (bool_decide_reflect (c_status c = Retired)), (decide (c_status c = Retired)); try done.
    destruct (bool_decide_reflect (held_open now c)) as [Hh|Hh], (decide (held_open now c)); try done; [by destruct Hh as [-> _]|].
    destruct (bool_decide_reflect (c_status c = HalfOpen)), (Z.leb_spec (mg_threshold m) (int64 (c_consec c + 1))), (decide (_ \/ _)); cbn; (done || (exfalso; naive_solver lia)).
  - unfold c_degrade, demote, status_is. case_bool_decide; case_decide; done.
  - unfold c_degrade, demote, status_is. case_bool_decide; case_decide; done.
  - unfold status_is. repeat case_bool_decide; case_decide; cbn; tauto.
  - unfold c_open, open_for, status_is. case_bool_decide; case_decide; try done. destruct (Z.leb_spec d 0), (decide (0 < d)); done || lia.
  - unfold c_open, open_for, status_is. case_bool_decide; case_decide; try done. destruct (Z.leb_spec d 0), (decide (0 < d)); done || lia.
  - unfold status_is, IsZero, After.
    destruct (bool_decide_reflect (id = "")), (Z.eqb_spec until 0), (Z.ltb_spec now until), (bool_decide_reflect (c_status c = Retired)),
      (bool_decide_reflect (c_status c = Cooldown)), (Z.ltb_spec (c_until c) until); cbn; case_decide; (done || (exfalso; naive_solver lia)).
Qed.

(** (C7) Every manager operation implements the circuit breaker as documented:
    the status, cooldown deadline and consecutive-failure count of every
    deployment after an operation are what [breaker_step] says of those three
    values before it, stated with the order of times and statuses alone. *)
Theorem run_op_refines m o id : breaker_step m o id (circuit_of (get_state m id)) (circuit_of (get_state (run_op m o) id)).
Proof.
  change (breaker_step m o id (circuit_at m id) (circuit_at (run_op m o) id)). rewrite run_op_step.
  destruct o; cbn [breaker_step c_step]; try (rewrite <- breaker_iff; by case_bool_decide; case_decide).
  - destruct (snapshot_writes m now) eqn:E; [left|right]; rewrite <- some_lapsed_iff, E; [by rewrite relax_iff|done].
  - by case_bool_decide; case_decide.
Qed.

(** A property of a deployment's circuit that every allowed step keeps holds
    after any sequence of allowed steps. *)
Lemma run_ops_invariant (P : circuit -> Prop) (ok : op -> Prop) m os id :
  (forall m o c, ok o -> P c -> P (c_step m o id c)) ->
  Forall ok os -> P (circuit_at m id) -> P (circuit_at (run_ops m os) id).
Proof.
  intros Hstep Hok. revert m. induction Hok as [|o os Ho Hok IH]; intros m HP; [done|].
  cbn. apply IH. rewrite run_op_step. by apply Hstep.
Qed.

(** The operations that can lift a retirement of [id]: an explicit
    invalidation, or a configuration that no longer contains it. *)
Definition keeps_identity (id : string) (o : op) : Prop :=
  match o with
  | OpInvalidate id' => id' <> id
  | OpRetain valid => id ∈ valid
  | _ => True
  end.

Lemma c_step_retired m o id c :
  keeps_identity id o -> c_status c = Retired -> c_status (c_step m o id c) = Retired.
Proof.
  intros Ho Hc. destruct c as [st u n]. cbn in Hc. subst st.
  destruct o; cbn in *; unfold c_normalize, c_open, c_degrade, cooldown_expired, cooldown_active;
    cbn; repeat (case_bool_decide || case_match || rewrite ?orb_true_r); try done; simplify_eq; by bool_hyps.
Qed.

(** Retirement is permanent until the deployment's
    identity is invalidated or leaves the configuration: no sequence of
    successes, failures, probes, recoveries, cooldowns, peer markers or
    snapshots moves a retired deployment to another status. *)
Theorem retired_sticky m os id :
  Forall (keeps_identity id) os ->
  st_Status (get_state m id) = Retired ->
  st_Status (get_state (run_ops m os) id) = Retired.
Proof.
  intros Hos HR. eapply (run_ops_invariant (fun c => c_status c = Retired)); [|done|done].
  intros. by apply c_step_retired.
Qed.

(** Observations of requests that were in flight when a cooldown with deadline
    [u] started, and everything else that may run concurrently before [u] but
    is not an explicit verdict on the deployment. *)
Definition inflight (u : Time) (id : string) (o : op) : Prop :=
  match o with
  | OpGet _ _ now => now <= u
  | OpSnapshot _ now2 => now2 <= u
  | OpRecordSuccess _ _ now => now < u
  | OpRecordFailure _ _ _ now _ => now < u
  | OpRetain valid => id ∈ valid
  | OpQuarantine id' _ _ _ | OpRecordProbeFailure id' _ _ _ _ | OpRecordRecoverySuccess id' _ _
  | OpEnterCooldown id' _ _ _ _ | OpForceCooldown id' _ _ _ _ | OpRetire id' _ _ _
  | OpInvalidate id' => id' <> id
  | _ => True
  end.

Definition cooling (u : Time) (c : circuit) : Prop := c_status c = Cooldown /\ u <= c_until c.

Lemma cooling_active u c now : 0 < u -> cooling u c -> now < u ->
  cooldown_active (c_status c) (c_until c) now = true.
Proof.
  intros Hu [Hs Hc] Hn. unfold cooldown_active, IsZero, Before. rewrite Hs.
  rewrite !andb_true_iff, negb_true_iff. split_and!; [done|lia|lia].
Qed.
Lemma cooling_unexpired u c now : cooling u c -> now <= u ->
  cooldown_expired (c_status c) (c_until c) now = false.
Proof.
  intros [Hs Hc] Hn. unfold cooldown_expired, After. rewrite Hs.
  rewrite !andb_false_iff. right. lia.
Qed.

Lemma c_event_cooling u id m o c : 0 < u -> inflight u id o -> op_target o = Some id ->
  cooling u c -> cooling u (c_event m o c).
Proof.
  intros Hu Ho Ht Hc. pose proof Hc as [Hs Hle].
  destruct o; cbn in Ht; simplify_eq; cbn in Ho; try done; cbn [c_event].
  - by rewrite c_normalize_none by (by apply (cooling_unexpired u)).
  - by rewrite (cooling_active u), orb_true_r.
  - rewrite (cooling_active u) by done. rewrite Hs. by split.
  - repeat case_match; [done|]. split; [done|]. cbn. bool_hyps. rewrite Hs in *.
    match goal with H : (_ && negb _) = false |- _ => apply andb_false_iff in H as [H|H] end; [done|].
    bool_hyps. unfold After in *. lia.
Qed.

Lemma c_step_cooling u id m o c : 0 < u -> inflight u id o -> cooling u c -> cooling u (c_step m o id c).
Proof.
  intros Hu Ho Hc.
  assert (op_target o = Some id -> cooling u (c_event m o c)) as He
    by (intros; by apply (c_event_cooling u id)).
  destruct o; cbn [c_step]; try (case_bool_decide; [by apply He|done]).
  - case_match; [|done]. by rewrite c_normalize_none by (by apply (cooling_unexpired u)).
  - cbn in Ho. by rewrite bool_decide_eq_true_2.
Qed.

(** While a cooldown is running, no stale success,
    in-flight failure, snapshot, peer marker or unrelated operation re-admits
    the deployment or shortens its deadline: a read before the deadline still
    reports a cooldown whose deadline is at least the original one. *)
Theorem active_cooldown_held m os id scopes u now :
  0 < u -> st_Status (get_state m id) = Cooldown -> st_CooldownUntil (get_state m id) = u ->
  Forall (inflight u id) os -> now <= u ->
  let s := get_state (run_op (run_ops m os) (OpGet id scopes now)) id in
  st_Status s = Cooldown /\ u <= st_CooldownUntil s.
Proof.
  intros Hu Hs Hc Hos Hnow. cbv zeta.
  assert (cooling u (circuit_at (run_ops m os) id)) as Hcool.
  { eapply run_ops_invariant with (ok := inflight u id); [|done|].
    - intros. by apply c_step_cooling.
    - split; cbn; [done|lia]. }
  apply (c_step_cooling u id (run_ops m os) (OpGet id scopes now)) in Hcool; [|done|done].
  rewrite <- run_op_step in Hcool. exact Hcool.
Qed.

(** ** No cooldown is permanent *)

(** Clock readings come after the zero time. *)
Definition op_clock (o : op) : Prop :=
  match o with
  | OpRecordFailure _ _ _ now now2 | OpEnterCooldown _ _ _ now now2
  | OpForceCooldown _ _ _ now now2 => 0 < now /\ 0 < now2
  | OpApplySharedCooldown _ _ _ now | OpRecordProviderFailure _ _ _ now => 0 < now
  | _ => True
  end.

(** Every open circuit has a deadline, and the configured cooldowns are positive. *)
Definition bounded_circuit (c : circuit) : Prop := c_status c = Cooldown -> 0 < c_until c.
Record wf (m : Manager) : Prop := {
  wf_cooldown : 0 < mg_cooldown m;
  wf_providerCooldown : 0 < mg_providerCooldown m;
  wf_states : forall id, bounded_circuit (circuit_at m id);
  wf_providers : forall p, ps_Status (get_provider m p) = Cooldown ->
    0 < ps_CooldownUntil (get_provider m p)
}.

Lemma wf_New threshold cooldown : wf (New threshold cooldown).
Proof. split; cbn; [case_match; unfold Hour, Minute, Second; lia | done | done | done]. Qed.

Lemma c_event_bounded m o c :
  0 < mg_cooldown m -> op_clock o -> bounded_circuit c -> bounded_circuit (c_event m o c).
Proof.
  intros Hm Ho Hc. destruct o; cbn [c_event]; try done;
    unfold c_normalize, c_degrade, c_open; repeat (case_match; try done);
    unfold bounded_circuit, Add; cbn in *; intros; bool_hyps; try done; try lia.
  unfold After in *. lia.
Qed.

Lemma c_step_bounded m o id c :
  0 < mg_cooldown m -> op_clock o -> bounded_circuit c -> bounded_circuit (c_step m o id c).
Proof.
  intros Hm Ho Hc. pose proof (c_event_bounded m o c Hm Ho Hc) as He.
  destruct o; cbn [c_step]; try (by case_bool_decide).
  case_match; [|done]. unfold c_normalize. by case_match.
Qed.

(** The configuration only changes through the two [Configure] operations. *)
Definition config (m : Manager) : Duration * Duration * Z :=
  (mg_cooldown m, mg_providerCooldown m, mg_providerThreshold m).
Lemma run_op_config m o :
  match o with
  | OpConfigure _ _ _ _ | OpConfigureProviderIncidents _ _ _ => True
  | _ => config (run_op m o) = config m
  end.
Proof.
  destruct o; try done; cbn [run_op];
    cbv beta delta [GetWithScopes GetWithScopes_write RecordTTFT RecordSuccess RecordFailure
      ProviderAvailable RecordProviderFailure RecordProviderSuccess Snapshot Quarantine
      RecordProbeFailure RecordRecoverySuccess SetNextRetry SetErrorClass EnterCooldown
      ForceCooldown ApplySharedCooldown RecordScopeSuccess RecordScopeFailure InvalidateProvider];
    op_frame.
Qed.

(** ** Provider incident circuits *)

Definition evidence_at (m : Manager) (p : string) : gmap string Time :=
  map_get ∅ (mg_providerEvidence m) p.

Lemma get_put_provider m p st q :
  get_provider (put_provider m p st) q = if bool_decide (p = q) then st else get_provider m q.
Proof.
  unfold get_provider, put_provider, map_get. cbn. rewrite lookup_insert.
  case_decide; case_bool_decide; done.
Qed.

(** The evidence a failure of [d] leaves: the deployments that failed inside
    the window, and [d]. *)
Definition fresh_evidence (m : Manager) (p d : string) (now : Time) : gmap string Time :=
  <[d := now]> (filter (fun '(_, at_) => ~ Sub now at_ > mg_providerWindow m) (evidence_at m p)).
Definition failing_deployment (p d : string) : string := if bool_decide (d = "") then p else d.

Inductive failure_outcome (m : Manager) (p d : string) (now : Time) : Manager -> Prop :=
| stale_failure m' :
    cooldown_active (ps_Status (get_provider m p)) (ps_CooldownUntil (get_provider m p)) now = true ->
    ps_Status (get_provider m' p) = Cooldown ->
    ps_CooldownUntil (get_provider m' p) = ps_CooldownUntil (get_provider m p) ->
    mg_providerEvidence m' = mg_providerEvidence m ->
    failure_outcome m p d now m'
| reopened m' :
    ps_Status (normalizeProviderState (get_provider m p) now) = HalfOpen ->
    ps_Status (get_provider m' p) = Cooldown ->
    ps_CooldownUntil (get_provider m' p) = now + mg_providerCooldown m ->
    mg_providerEvidence m' = <[p := {[failing_deployment p d := now]}]> (mg_providerEvidence m) ->
    failure_outcome m p d now m'
| opened m' :
    ps_Status (normalizeProviderState (get_provider m p) now) <> HalfOpen ->
    mg_providerThreshold m <= Z.of_nat (size (fresh_evidence m p (failing_deployment p d) now)) ->
    ps_Status (get_provider m' p) = Cooldown ->
    ps_CooldownUntil (get_provider m' p) = now + mg_providerCooldown m ->
    mg_providerEvidence m' =
      <[p := fresh_evidence m p (failing_deployment p d) now]> (mg_providerEvidence m) ->
    failure_outcome m p d now m'
| degraded m' :
    ps_Status (normalizeProviderState (get_provider m p) now) <> HalfOpen ->
    Z.of_nat (size (fresh_evidence m p (failing_deployment p d) now)) < mg_providerThreshold m ->
    ps_Status (get_provider m' p) = Degraded ->
    ps_CooldownUntil (get_provider m' p) = 0 ->
    mg_providerEvidence m' =
      <[p := fresh_evidence m p (failing_deployment p d) now]> (mg_providerEvidence m) ->
    failure_outcome m p d now m'.

Lemma normalize_active st now :
  cooldown_active (ps_Status (normalizeProviderState st now))
    (ps_CooldownUntil (normalizeProviderState st now)) now = true ->
  normalizeProviderState st now = st.
Proof.
  unfold normalizeProviderState. case_match; [|done]. cbn. done.
Qed.

(** Walks through the [let]s of a provider operation, keeping of every
    intermediate [ProviderState] only its status and deadline. *)
Ltac walk_provider :=
  repeat lazymatch goal with
    | |- ?P (let x := (if ?b then _ else _) in _) => destruct b eqn:?
    | |- ?P (let x := ?e in @?body x) =>
        let x' := fresh x in pose (x' := e); change (P (body x')); cbv beta;
        lazymatch type of e with
        | ProviderState =>
            let H1 := fresh "H" x in let H2 := fresh "H" x in
            assert (ps_Status x' = ps_Status e) as H1 by reflexivity;
            assert (ps_CooldownUntil x' = ps_CooldownUntil e) as H2 by reflexivity;
            cbn [ps_Status ps_CooldownUntil update] in H1, H2;
            let H3 := fresh "H" x in
            assert (ps_Evidence x' = ps_Evidence e) as H3 by reflexivity;
            cbn [ps_Evidence update] in H3; clearbody x'
        | _ => idtac
        end
    | |- ?P (if ?b then _ else _) => destruct b eqn:?
    end.

Lemma get_put_provider_eq m m' p st :
  mg_providers m' = insert p st (mg_providers m) -> get_provider m' p = st.
Proof. unfold get_provider, map_get. intros ->. by rewrite lookup_insert_eq. Qed.

Lemma record_provider_failure_cases m p d reason now :
  p <> "" -> failure_outcome m p d now (RecordProviderFailure m p d reason now).
Proof.
  intros Hp. cbv beta delta [RecordProviderFailure]. rewrite bool_decide_eq_false_2 by done.
  change (if bool_decide (d = "") then p else d) with (failing_deployment p d).
  walk_provider; rewrite ?Hst2, ?Hst3, ?Hst, ?Hst0 in *.
  - pose proof (normalize_active _ _ Heqb) as Hn. rewrite Hn in *.
    apply stale_failure; try done; erewrite (get_put_provider_eq m _ p) by reflexivity; [|congruence].
    unfold cooldown_active in Heqb. bool_hyps. rewrite Hst2. by apply status_is_true.
  - apply status_is_true in Heqb0.
    apply reopened; [done| | |done]; by erewrite (get_put_provider_eq m _ p) by reflexivity.
  - apply status_is_false in Heqb0. rewrite Hst7 in Heqb1.
    change evidence1 with (fresh_evidence m p (failing_deployment p d) now) in Heqb1.
    apply opened; try done; [lia| |]; erewrite (get_put_provider_eq m _ p) by reflexivity;
      [congruence | rewrite Hst9; done].
  - apply status_is_false in Heqb0. rewrite Hst7 in Heqb1.
    change evidence1 with (fresh_evidence m p (failing_deployment p d) now) in Heqb1.
    apply degraded; try done; [lia| |]; erewrite (get_put_provider_eq m _ p) by reflexivity;
      [congruence | rewrite Hst9; done].
Qed.

Definition provider_view (m : Manager) (p : string) : ProviderState * gmap string Time :=
  (get_provider m p, evidence_at m p).

Lemma provider_view_frame m m' p :
  mg_providers m' = mg_providers m -> mg_providerEvidence m' = mg_providerEvidence m ->
  provider_view m' p = provider_view m p.
Proof. unfold provider_view, get_provider, evidence_at. by intros -> ->. Qed.

Definition is_provider_op (o : op) : Prop :=
  match o with
  | OpProviderAvailable _ _ | OpRecordProviderFailure _ _ _ _ | OpRecordProviderSuccess _ _
  | OpProviderSnapshot _ | OpRetainProviders _ | OpInvalidateProvider _ => True
  | _ => False
  end.

Lemma deployment_ops_providers m o : ~ is_provider_op o ->
  (mg_providers (run_op m o), mg_providerEvidence (run_op m o))
  = (mg_providers m, mg_providerEvidence m).
Proof.
  intros Ho. pose (f := fun m' => (mg_providers m', mg_providerEvidence m')).
  change (f (run_op m o) = f m).
  destruct o; cbn [is_provider_op] in Ho; try done; cbn [run_op];
    cbv beta delta [GetWithScopes GetWithScopes_write RecordTTFT RecordSuccess RecordFailure
      Snapshot Quarantine RecordProbeFailure RecordRecoverySuccess SetNextRetry SetErrorClass
      EnterCooldown ForceCooldown ApplySharedCooldown RecordScopeSuccess RecordScopeFailure
      ConfigureAdvanced ConfigureProviderIncidents];
    op_frame.
Qed.

Lemma record_provider_failure_other m p d reason now q :
  p <> q -> provider_view (RecordProviderFailure m p d reason now) q = provider_view m q.
Proof.
  intros Hpq.
  assert (forall m' e st, mg_providers m' = <[p := st]> (mg_providers m) ->
    mg_providerEvidence m' = mg_providerEvidence m \/
    mg_providerEvidence m' = <[p := e]> (mg_providerEvidence m) ->
    provider_view m' q = provider_view m q) as Hput.
  { intros m' e st Hm He. unfold provider_view, get_provider, evidence_at, map_get.
    rewrite Hm, lookup_insert_ne by done. destruct He as [-> | ->]; [done|].
    by rewrite lookup_insert_ne. }
  pose (P := fun m' => provider_view m' q = provider_view m q).
  change (P (RecordProviderFailure m p d reason now)).
  cbv beta delta [RecordProviderFailure].
  change (if bool_decide (d = "") then p else d) with (failing_deployment p d).
  case_match; [done|]. walk_provider; unfold P.
  - eapply (Hput _ ∅); [reflexivity|by left].
  - eapply Hput; [reflexivity|right; reflexivity].
  - eapply Hput; [reflexivity|right; reflexivity].
  - eapply Hput; [reflexivity|right; reflexivity].
Qed.

Lemma provider_available_view m p now q :
  (provider_view (ProviderAvailable m p now).1 q).2 = (provider_view m q).2 /\
  ((provider_view (ProviderAvailable m p now).1 q).1 = get_provider m q \/
   (provider_view (ProviderAvailable m p now).1 q).1 = normalizeProviderState (get_provider m q) now).
Proof.
  unfold ProviderAvailable. case_bool_decide; [by auto|].
  destruct (mg_providers m !! p) as [st|] eqn:Hp; [|by auto].
  destruct (_ || _); [by auto|]. cbn. split; [done|]. rewrite get_put_provider.
  case_bool_decide; [|by left]. subst q. right. unfold get_provider, map_get. by rewrite Hp.
Qed.

Lemma normalize_provider_closed st now :
  ps_Status st <> Cooldown -> normalizeProviderState st now = st.
Proof.
  intros Hs. unfold normalizeProviderState, cooldown_expired.
  by apply status_is_false in Hs as ->.
Qed.

Lemma provider_snapshot_view m now q :
  (provider_view (ProviderSnapshot m now).1 q)
  = (normalizeProviderState (get_provider m q) now, evidence_at m q).
Proof.
  unfold provider_view, get_provider, evidence_at, map_get, ProviderSnapshot. cbn.
  rewrite lookup_fmap. by destruct (mg_providers m !! q).
Qed.

(** What one deployment's failures can do to its provider's circuit. *)
Record single_evidence (m : Manager) (p d : string) : Prop := {
  se_threshold : 2 <= mg_providerThreshold m;
  se_status : ps_Status (get_provider m p) <> Cooldown /\ ps_Status (get_provider m p) <> HalfOpen;
  se_evidence : dom (evidence_at m p) ⊆ {[d]}
}.

(** Every failure reported against [p] comes from the one deployment [d]. *)
Definition only_deployment (p d : string) (o : op) : Prop :=
  match o with
  | OpRecordProviderFailure q d' _ _ => q = p -> failing_deployment q d' = d
  | _ => True
  end.

Lemma single_evidence_view m m' p d :
  2 <= mg_providerThreshold m' -> provider_view m' p = provider_view m p ->
  single_evidence m p d -> single_evidence m' p d.
Proof. intros Ht [= Hg He] [_ Hs Hev]. split; [done|by rewrite Hg|by rewrite He]. Qed.

Lemma single_evidence_size m p d now :
  dom (evidence_at m p) ⊆ {[d]} -> (size (fresh_evidence m p d now) <= 1)%nat.
Proof.
  intros Hd. unfold fresh_evidence. rewrite <- (size_dom (D := gset string)).
  transitivity (size ({[d]} : gset string)); [|by rewrite size_singleton].
  apply subseteq_size. rewrite dom_insert. apply union_least; [done|].
  etrans; [|exact Hd]. apply dom_filter_subseteq.
Qed.

Lemma single_evidence_failure m p d d' reason now :
  failing_deployment p d' = d -> single_evidence m p d ->
  single_evidence (RecordProviderFailure m p d' reason now) p d.
Proof.
  intros Hd HI. pose proof HI as [Ht [Hs1 Hs2] He].
  destruct (decide (p = "")) as [->|Hp]; [done|].
  pose proof (run_op_config m (OpRecordProviderFailure p d' reason now)) as Hc.
  apply (f_equal snd) in Hc. change (mg_providerThreshold (RecordProviderFailure m p d' reason now)
    = mg_providerThreshold m) in Hc.
  pose proof (record_provider_failure_cases m p d' reason now Hp) as Ho.
  rewrite <- Hd in *. pose proof (single_evidence_size m p _ now He) as Hsz.
  inversion Ho as [? Ha| ? Hh | ? Hh Hn| ? Hh Hn Hst Hu Hev]; subst; clear Ho.
  - unfold cooldown_active in Ha. bool_hyps. by rewrite status_is_true in *.
  - by rewrite normalize_provider_closed in Hh.
  - lia.
  - split; [lia|by rewrite Hst|].
    unfold evidence_at at 1, map_get. rewrite Hev, lookup_insert_eq. cbn.
    unfold fresh_evidence. rewrite dom_insert. apply union_least; [done|].
    etrans; [|exact He]. apply dom_filter_subseteq.
Qed.

Lemma threshold_step m o :
  2 <= mg_providerThreshold m -> 2 <= mg_providerThreshold (run_op m o).
Proof.
  intros Ht. pose proof (run_op_config m o) as Hc.
  destruct o; try (pose proof (f_equal snd Hc : mg_providerThreshold _ = _) as ->; exact Ht).
  - done.
  - cbn. case_match; lia.
Qed.

Definition success_outcome (m : Manager) (p : string) (now : Time) (q : string) (m' : Manager) : Prop :=
  provider_view m' q = provider_view m q \/
  (q = p /\ cooldown_active (ps_Status (get_provider m p)) (ps_CooldownUntil (get_provider m p)) now = true
   /\ ps_Status (get_provider m' q) = Cooldown
   /\ ps_CooldownUntil (get_provider m' q) = ps_CooldownUntil (get_provider m p)
   /\ evidence_at m' q = evidence_at m q) \/
  (q = p /\ ps_Status (get_provider m' q) = Healthy
   /\ ps_CooldownUntil (get_provider m' q) = 0 /\ evidence_at m' q = ∅).

Lemma record_provider_success_cases m p now q :
  success_outcome m p now q (RecordProviderSuccess m p now).
Proof.
  cbv beta delta [RecordProviderSuccess]. case_bool_decide; [by left|].
  walk_provider; rewrite ?Hst, ?Hst0 in *; destruct (decide (q = p)) as [->|Hq].
  - right. left. rewrite get_put_provider, bool_decide_eq_true_2 by done. rewrite Hst, Hst0.
    pose proof Heqb as Ha. unfold cooldown_active in Ha. bool_hyps. by rewrite status_is_true in *.
  - left. unfold provider_view. by rewrite get_put_provider, bool_decide_eq_false_2.
  - right. right. erewrite (get_put_provider_eq m _ p) by reflexivity.
    unfold evidence_at, map_get. cbn. by rewrite lookup_delete_eq.
  - left. unfold provider_view, get_provider, evidence_at, map_get. cbn.
    by rewrite lookup_insert_ne, lookup_delete_ne.
Qed.

Lemma invalidate_provider_view m p q :
  provider_view (InvalidateProvider m p) q = provider_view m q \/
  provider_view (InvalidateProvider m p) q = (zero_ProviderState, ∅).
Proof.
  unfold InvalidateProvider. case_bool_decide; [by left|].
  unfold provider_view, get_provider, evidence_at, map_get. cbn.
  rewrite !lookup_delete. case_decide; [by right|by left].
Qed.

Lemma retain_providers_view m valid q :
  provider_view (RetainProviders m valid) q = provider_view m q \/
  provider_view (RetainProviders m valid) q = (zero_ProviderState, ∅).
Proof.
  unfold provider_view, get_provider, evidence_at, map_get, RetainProviders. cbn.
  rewrite !map_lookup_filter.
  destruct (decide (q ∈ (dom (mg_providers m) : gset string) ∖ valid)) as [Hq|Hq].
  - right. destruct (mg_providers m !! q), (mg_providerEvidence m !! q); cbn; by simplify_option_eq.
  - left. destruct (mg_providers m !! q), (mg_providerEvidence m !! q); cbn; by simplify_option_eq.
Qed.

Lemma single_evidence_zero m' p d :
  2 <= mg_providerThreshold m' -> provider_view m' p = (zero_ProviderState, ∅) ->
  single_evidence m' p d.
Proof. intros Ht [= Hg He]. split; [done|by rewrite Hg|rewrite He; set_solver]. Qed.

Lemma single_evidence_step m o p d :
  only_deployment p d o -> single_evidence m p d -> single_evidence (run_op m o) p d.
Proof.
  intros Ho HI. pose proof HI as [Ht [Hs1 Hs2] He].
  pose proof (threshold_step m o Ht) as Ht'.
  assert (~ is_provider_op o -> single_evidence (run_op m o) p d) as Hframe.
  { intros Hn. apply (single_evidence_view m); [done| |done].
    pose proof (deployment_ops_providers m o Hn) as [= ? ?]. by apply provider_view_frame. }
  destruct o; try (by apply Hframe; intros []); cbn [run_op] in *.
  - pose proof (provider_available_view m id now p) as [Hev [Hg|Hg]];
      (apply (single_evidence_view m); [done| |done]); unfold provider_view in *; cbn in *;
      rewrite Hg, Hev; [done|]. by rewrite normalize_provider_closed.
  - destruct (decide (p0 = p)) as [->|Hq]; [by apply single_evidence_failure; auto|].
    apply (single_evidence_view m); [done|by apply record_provider_failure_other|done].
  - pose proof (record_provider_success_cases m p0 now p) as [Hv|[(-> & Ha & _)|(-> & Hs & _ & Hev)]].
    + by apply (single_evidence_view m).
    + unfold cooldown_active in Ha. bool_hyps. by rewrite status_is_true in *.
    + split; [done|by rewrite Hs|rewrite Hev; set_solver].
  - apply (single_evidence_view m); [done| |done]. rewrite provider_snapshot_view.
    by rewrite normalize_provider_closed.
  - destruct (retain_providers_view m valid p);
      [by apply (single_evidence_view m)|by apply single_evidence_zero].
  - destruct (invalidate_provider_view m id p);
      [by apply (single_evidence_view m)|by apply single_evidence_zero].
Qed.

(** One broken model cannot suppress its
    provider: starting from a fresh manager, as long as every failure reported
    against a provider comes from the same deployment, the provider's incident
    circuit never opens, whatever else happens and however the thresholds are
    reconfigured. *)
Theorem one_deployment_never_opens threshold cooldown os p d :
  Forall (only_deployment p d) os ->
  ps_Status (get_provider (run_ops (New threshold cooldown) os) p) <> Cooldown.
Proof.
  intros Hos. enough (single_evidence (run_ops (New threshold cooldown) os) p d) as [_ [? _] _]
    by done.
  assert (single_evidence (New threshold cooldown) p d) as HI by (split; [done|done|set_solver]).
  revert HI. generalize (New threshold cooldown). induction Hos as [|o os Ho Hos IH]; [done|].
  intros m HI. cbn. by apply IH, single_evidence_step.
Qed.

(** ** Well-formedness of reachable managers *)

Lemma normalize_provider_bounded st now :
  (ps_Status st = Cooldown -> 0 < ps_CooldownUntil st) ->
  ps_Status (normalizeProviderState st now) = Cooldown ->
  0 < ps_CooldownUntil (normalizeProviderState st now).
Proof. unfold normalizeProviderState. by case_match. Qed.

Lemma wf_providers_step m o p :
  wf m -> op_clock o -> ps_Status (get_provider (run_op m o) p) = Cooldown ->
  0 < ps_CooldownUntil (get_provider (run_op m o) p).
Proof.
  intros [_ Hpc _ Hwf] Ho.
  assert (~ is_provider_op o -> get_provider (run_op m o) p = get_provider m p) as Hframe.
  { intros Hn. pose proof (deployment_ops_providers m o Hn) as [= Hp _].
    unfold get_provider. by rewrite Hp. }
  destruct o; try (rewrite Hframe; [apply Hwf|by intros []]); cbn [run_op op_clock] in *.
  - pose proof (provider_available_view m id now p) as [_ [Hg|Hg]]; cbn in Hg; rewrite Hg;
      auto using normalize_provider_bounded.
  - destruct (decide (p0 = p)) as [->|Hq].
    + destruct (decide (p = "")) as [->|Hp]; [apply Hwf|].
      pose proof (Hwf p).
      destruct (record_provider_failure_cases m p d reason now Hp) as
        [? Ha ? Hu | ? ? ? Hu | ? ? ? ? Hu | ? ? ? Hs]; rewrite ?Hu; try lia; [|congruence].
      unfold cooldown_active in Ha. bool_hyps. rewrite status_is_true in *. auto.
    + pose proof (record_provider_failure_other m p0 d reason now p Hq) as [= Hg _].
      rewrite Hg. apply Hwf.
  - destruct (record_provider_success_cases m p0 now p)
      as [[= Hg _]|[(-> & Ha & _ & Hu & _)|(-> & Hs & _)]]; [rewrite Hg; apply Hwf| |congruence].
    rewrite Hu. intros _. apply Hwf. unfold cooldown_active in Ha. bool_hyps.
    by apply status_is_true.
  - pose proof (f_equal fst (provider_snapshot_view m now p) : get_provider _ p = _) as ->.
    cbn [fst]. apply normalize_provider_bounded, Hwf.
  - destruct (retain_providers_view m valid p) as [[= Hg _]|[= Hg _]]; rewrite Hg; [apply Hwf|done].
  - destruct (invalidate_provider_view m id p) as [[= Hg _]|[= Hg _]]; rewrite Hg; [apply Hwf|done].
Qed.

Lemma wf_step m o : wf m -> op_clock o -> wf (run_op m o).
Proof.
  intros Hwf Ho. pose proof (run_op_config m o) as Hc. pose proof Hwf as [Hc1 Hc2 Hst _]. split.
  - destruct o; try (pose proof (f_equal (fun x => x.1.1) Hc : mg_cooldown _ = _) as ->; exact Hc1).
    + cbn. case_match; unfold Hour, Minute, Second; lia.
    + done.
  - destruct o; try (pose proof (f_equal (fun x => x.1.2) Hc : mg_providerCooldown _ = _) as ->; exact Hc2).
    + done.
    + cbn. case_match; unfold Second; lia.
  - intros id. rewrite run_op_step. by apply c_step_bounded.
  - intros p. by apply wf_providers_step.
Qed.

Lemma wf_run_ops m os : wf m -> Forall op_clock os -> wf (run_ops m os).
Proof.
  intros Hwf Hos. revert m Hwf. induction Hos as [|o os Ho Hos IH]; [done|].
  intros m Hwf. cbn. by apply IH, wf_step.
Qed.

(** (C36) In every state the manager can reach, every
    open deployment circuit and every open provider circuit has a deadline, and
    reading it after that deadline finds it half-open: no deployment and no
    provider is locked out forever. *)
Theorem no_permanent_cooldown threshold cooldown os id scopes now :
  Forall op_clock os ->
  let m := run_ops (New threshold cooldown) os in
  (st_Status (get_state m id) = Cooldown -> st_CooldownUntil (get_state m id) < now ->
   st_Status (GetWithScopes m id scopes now).2.1 = HalfOpen) /\
  (ps_Status (get_provider m id) = Cooldown -> ps_CooldownUntil (get_provider m id) < now ->
   (ProviderAvailable m id now).2 = true).
Proof.
  intros Hos m. assert (wf m) as Hwf by (apply wf_run_ops; [apply wf_New|done]).
  clearbody m. split; intros Hs Hn.
  - pose proof (wf_states _ Hwf id Hs) as Hu. cbn in Hu.
    unfold get_state, map_get, GetWithScopes, GetWithScopes_read, GetWithScopes_write in *.
    destruct (mg_states m !! id) as [s|]; cbn in *; [|done].
    unfold stateNeedsNormalization, normalizeGlobal.
    assert (cooldown_expired (st_Status s) (st_CooldownUntil s) now = true) as ->; [|done].
    unfold cooldown_expired, IsZero, After. rewrite Hs. rewrite !andb_true_iff, negb_true_iff.
    split_and!; [done|lia|lia].
  - pose proof (wf_providers _ Hwf id Hs) as Hu.
    unfold get_provider, map_get, ProviderAvailable in *. case_bool_decide; [done|].
    destruct (mg_providers m !! id) as [st|]; cbn in *; [|done].
    rewrite Hs. unfold IsZero, Before. cbn.
    destruct (Z.eqb_spec (ps_CooldownUntil st) 0); [lia|]. destruct (Z.ltb_spec now (ps_CooldownUntil st)); [lia|].
    cbn. unfold normalizeProviderState.
    assert (cooldown_expired (ps_Status st) (ps_CooldownUntil st) now = true) as ->; [|done].
    unfold cooldown_expired, IsZero, After. rewrite Hs. rewrite !andb_true_iff, negb_true_iff.
    split_and!; [done|lia|lia].
Qed.

(** The read-locked fast path of [GetWithScopes] never
    disagrees with the write-locked path: whenever the fast path answers, the
    normalising path would return the same state and readiness and leave the
    manager unchanged, so skipping the write lock is unobservable. *)
Theorem fast_path_agrees m id scopes now r :
  GetWithScopes_read m id scopes now = Some r ->
  GetWithScopes_write m id scopes now = (m, r).
Proof.
  unfold GetWithScopes_read, GetWithScopes_write.
  destruct (mg_states m !! id) as [s|] eqn:Hs; [|congruence].
  destruct (stateNeedsNormalization s now) eqn:Hn; cbn [negb]; [done|]. intros [= <-].
  apply needs_normalization_false in Hn as [Hg Hsc].
  assert (normalizeScopes (normalizeGlobal s now) now = s) as ->.
  { unfold normalizeGlobal. rewrite Hg. unfold normalizeScopes.
    assert (normalize_scope now <$> st_Scopes s = st_Scopes s) as Hid.
    { rewrite <- (map_fmap_id (st_Scopes s)) at 2. apply map_fmap_ext. intros k st Hk.
      unfold normalize_scope. by rewrite (Hsc k st Hk). }
    cbn. rewrite Hid. by destruct s. }
  f_equal. unfold put_state. cbn. rewrite insert_id by done. by destruct m.
Qed.

(** ** Histograms *)

Record hist_ok (h : Histogram) : Prop := {
  hist_shape : h_Buckets h = [] \/ length (h_Buckets h) = S (length LatencyHistogramBoundsMS);
  hist_count : h_Count h = uint64 (sum_Z (h_Buckets h))
}.

Lemma bounds_sorted a b : (a <= b)%nat -> (b < length LatencyHistogramBoundsMS)%nat ->
  (nth a LatencyHistogramBoundsMS f_zero <=? nth b LatencyHistogramBoundsMS f_zero)%f64 = true.
Proof.
  intros Hab Hb.
  assert (forallb (fun b => forallb (fun a =>
    fle (nth a LatencyHistogramBoundsMS f_zero) (nth b LatencyHistogramBoundsMS f_zero))
    (seq 0 (S b))) (seq 0 (length LatencyHistogramBoundsMS)) = true) as Hall by (vm_compute; reflexivity).
  rewrite forallb_forall in Hall. specialize (Hall b). rewrite forallb_forall in Hall.
  apply Hall; apply in_seq; lia.
Qed.

(** The bucket an observation falls into, by the half-open intervals that the
    comment on [Buckets] promises. *)
Definition in_bucket (ms : float64) (i : nat) : Prop :=
  (i <= length LatencyHistogramBoundsMS)%nat /\
  (forall k, k < i -> (ms <=? nth k LatencyHistogramBoundsMS f_zero)%f64 = false)%nat /\
  (i < length LatencyHistogramBoundsMS -> (ms <=? nth i LatencyHistogramBoundsMS f_zero)%f64 = true)%nat.

Lemma uint64_succ a b x : a = uint64 b -> uint64 (a + 1) = uint64 (b - x + uint64 (x + 1)).
Proof.
  unfold uint64. intros ->. rewrite Zplus_mod_idemp_l, Zplus_mod_idemp_r. f_equal. lia.
Qed.

(** A histogram observation lands in exactly the bucket
    whose interval contains the (clamped) value, increments only that bucket
    and the total, and keeps the invariant that the total count is the sum of
    the buckets modulo the [uint64] range. *)
Theorem observe_counts h ms :
  hist_ok h ->
  hist_ok (Observe h ms) /\
  exists i, in_bucket (if (ms <? f_zero)%f64 then f_zero else ms) i /\
    h_Count (Observe h ms) = uint64 (h_Count h + 1) /\
    (forall k, default 0 (h_Buckets (Observe h ms) !! k)
       = if decide (k = i) then uint64 (default 0 (h_Buckets h !! k) + 1)
         else default 0 (h_Buckets h !! k)).
Proof.
  intros [Hsh Hct]. unfold Observe. set (v := if (ms <? f_zero)%f64 then f_zero else ms).
  cbv zeta. set (i := sort_Search _ _).
  assert (in_bucket v i) as Hi.
  { apply (sort_Search_spec (length LatencyHistogramBoundsMS)). intros a b Hab Hb Ha.
    eapply fle_trans; [exact Ha|]. by apply bounds_sorted. }
  clearbody i.
  set (h0 := match h_Buckets h with [] => _ | _ => h end).
  assert (length (h_Buckets h0) = S (length LatencyHistogramBoundsMS) /\
    h_Count h0 = h_Count h /\ uint64 (sum_Z (h_Buckets h0)) = uint64 (sum_Z (h_Buckets h)) /\
    forall k, default 0 (h_Buckets h0 !! k) = default 0 (h_Buckets h !! k)) as (Hl & Hc & Hsum & Hk).
  { unfold h0. destruct (h_Buckets h) as [|z l] eqn:Hb; cbn [h_Buckets h_Count update].
    - split_and!; [by rewrite length_replicate|done|by rewrite sum_Z_replicate|].
      intros k. destruct (_ !! k) eqn:E; [|done]. by apply lookup_replicate in E as [-> _].
    - rewrite Hb. split_and!; try done. by destruct Hsh. }
  destruct (h_Buckets h0 !! i) as [x|] eqn:Hx; [|apply lookup_ge_None in Hx; destruct Hi; lia].
  cbn [h_Buckets h_Count update]. split.
  - split; cbn [h_Buckets h_Count update]; [right; by rewrite length_alter|].
    rewrite (sum_Z_alter _ _ _ _ Hx), Hc. apply uint64_succ. by rewrite Hct, Hsum.
  - exists i. split_and!; [done|by rewrite Hc|]. intros k. case_decide as Hki.
    + subst k. rewrite list_lookup_alter_eq, Hx, <- Hk, Hx. done.
    + by rewrite list_lookup_alter_ne by done.
Qed.

(** ** Witnesses *)

Definition ms_ : Duration := Millisecond.
Definition cooled : Manager :=
  run_ops (New 2 Hour) [OpRecordFailure "p/m" "boom" ms_ 100 101; OpRecordFailure "p/m" "boom" ms_ 200 201].

Lemma retired_sticky_witness :
  st_Status (get_state (run_ops (Retire cooled "p/m" "eol" "retired" 300)
    [OpRecordSuccess "p/m" ms_ 400; OpInvalidate "q/m"; OpRetain {["p/m"]}]) "p/m") = Retired.
Proof.
  apply retired_sticky; [|reflexivity].
  rewrite !Forall_cons. split_and!; cbn; [done|done|set_solver|done].
Defined.

Lemma active_cooldown_held_witness :
  let s := get_state (run_op (run_ops cooled
    [OpRecordSuccess "p/m" ms_ 500; OpRecordFailure "p/m" "late" ms_ 600 601]) (OpGet "p/m" [] 700)) "p/m" in
  st_Status s = Cooldown /\ 201 + Hour <= st_CooldownUntil s.
Proof.
  apply (active_cooldown_held cooled _ "p/m" [] (201 + Hour) 700);
    [reflexivity|reflexivity|reflexivity| |unfold Hour, Minute, Second; lia].
  rewrite !Forall_cons. unfold inflight, Hour, Minute, Second. split_and!; [lia|lia|done].
Defined.

Lemma one_deployment_never_opens_witness :
  ps_Status (get_provider (run_ops (New 2 Hour)
    [OpRecordProviderFailure "p" "p/m" "e" 10; OpRecordProviderFailure "p" "p/m" "e" 20;
     OpRecordProviderFailure "p" "p/m" "e" 30; OpRecordProviderFailure "q" "q/n" "e" 40]) "p") <> Cooldown.
Proof. apply (one_deployment_never_opens 2 Hour _ "p" "p/m").
  rewrite !Forall_cons. by split_and!. Defined.

Lemma no_permanent_cooldown_witness :
  st_Status (GetWithScopes cooled "p/m" [] (300 + Hour)).2.1 = HalfOpen.
Proof.
  apply (no_permanent_cooldown 2 Hour
    [OpRecordFailure "p/m" "boom" ms_ 100 101; OpRecordFailure "p/m" "boom" ms_ 200 201] "p/m" []
    (300 + Hour)); [by rewrite !Forall_cons|reflexivity|vm_compute; reflexivity].
Defined.

Lemma fast_path_agrees_witness :
  GetWithScopes_write cooled "p/m" ["tools"] 300 = (cooled, (get_state cooled "p/m", true)).
Proof. apply fast_path_agrees. vm_compute. reflexivity. Defined.

Lemma observe_counts_witness : hist_ok (Observe zero_Histogram (f_of_int 7)).
Proof. apply (observe_counts zero_Histogram (f_of_int 7)). split; [by left|reflexivity]. Defined.
