(* ===== verification/Conformance.v ===== *)
(** * The provider conformance manifest ([src/internal/providers/conformance.go])

    The manifest states, per provider dialect and contract dimension, how far a
    claim is backed by evidence.  The router refuses deployments whose dialect
    is [UNSUPPORTED] in a required dimension, and the retry policy takes its
    idempotency support from it.  A Go map literal is an association list here
    ([dim_claim] reads it like [m[k]], with the zero claim for a missing key);
    the problems [ValidateManifest] reports are values instead of formatted
    messages, in the order they are found, before the final sort. *)

From Stdlib Require Import Ascii.
From S2P Require Import Prelude.

Inductive ConformanceState :=
  | NoState | StateUntested | StateFixtureVerified | StateLiveVerified | StatePartial
  | StateUnsupported | StateStale.
#[export] Instance ConformanceState_eq_dec : EqDecision ConformanceState.
Proof. solve_decision. Defined.

Inductive ConformanceDimension :=
  | DimAddressing | DimAuth | DimNonStream | DimStreaming | DimToolCalls | DimToolResults
  | DimParallelTools | DimReasoning | DimStructuredOutput | DimImages | DimUsageCache
  | DimFinishReasons | DimErrorEnvelopes | DimRetryAfter | DimCancellation | DimIdempotency.
#[export] Instance ConformanceDimension_eq_dec : EqDecision ConformanceDimension.
Proof. solve_decision. Defined.

Definition ConformanceDimensions : list ConformanceDimension :=
  [DimAddressing; DimAuth; DimNonStream; DimStreaming;
   DimToolCalls; DimToolResults; DimParallelTools; DimReasoning;
   DimStructuredOutput; DimImages; DimUsageCache; DimFinishReasons;
   DimErrorEnvelopes; DimRetryAfter; DimCancellation; DimIdempotency].

Record DimensionClaim := mkDimensionClaim { dc_State : ConformanceState; dc_Note : string }.

Record ConformanceEntry := mkConformanceEntry {
  ce_Dialect : string;
  ce_ContractVersion : string;
  ce_Native : bool;
  ce_Status : ConformanceState;
  ce_Dimensions : list (ConformanceDimension * DimensionClaim);
  ce_EvidenceSource : string;
  ce_EvidenceDate : string;
  ce_Limitations : string
}.

Definition ManifestVersion : string := "conformance.v1".
Definition DefaultStaleAfterDays : Z := 180.

Definition dim_lookup (dim : ConformanceDimension) (e : ConformanceEntry) : option DimensionClaim :=
  snd <$> find (fun p => bool_decide (fst p = dim)) (ce_Dimensions e).
(** [e.Dimensions[dim].State]. *)
Definition dim_state (dim : ConformanceDimension) (e : ConformanceEntry) : ConformanceState :=
  match dim_lookup dim e with Some c => dc_State c | None => NoState end.

(** ** The manifest *)

Definition entry_anthropic_compatible : ConformanceEntry := mkConformanceEntry "anthropic_compatible" ManifestVersion true StateFixtureVerified
  [(DimAddressing, mkDimensionClaim StateFixtureVerified "");
   (DimAuth, mkDimensionClaim StateFixtureVerified "x-api-key; client auth never reused as provider auth");
   (DimNonStream, mkDimensionClaim StateFixtureVerified "");
   (DimStreaming, mkDimensionClaim StateFixtureVerified "");
   (DimToolCalls, mkDimensionClaim StateFixtureVerified "");
   (DimToolResults, mkDimensionClaim StateFixtureVerified "tool results fold into user turns (M5-2 defect 1)");
   (DimParallelTools, mkDimensionClaim StateFixtureVerified "disable_parallel_tool_use mapped");
   (DimReasoning, mkDimensionClaim StateFixtureVerified "thinking budgets; unsigned blocks never fabricated");
   (DimStructuredOutput, mkDimensionClaim StatePartial "no IR->Anthropic response_format mapping in this build");
   (DimImages, mkDimensionClaim StateFixtureVerified "");
   (DimUsageCache, mkDimensionClaim StateFixtureVerified "cache_read/cache_creation tokens mapped both directions");
   (DimFinishReasons, mkDimensionClaim StateFixtureVerified "");
   (DimErrorEnvelopes, mkDimensionClaim StateFixtureVerified "Anthropic-style envelopes on Anthropic ingress");
   (DimRetryAfter, mkDimensionClaim StateFixtureVerified "honored with configurable cap");
   (DimCancellation, mkDimensionClaim StatePartial "context-propagated; dedicated gateway cancellation fixture in internal/httpapi/retry_safety_test.go; provider-side cancellation of in-flight upstream work remains unverified");
   (DimIdempotency, mkDimensionClaim StateUntested "no verified provider mechanism; gateway never generates a key and by default never forwards a client key (an operator forward_headers listing is an operator assertion, not gateway evidence); gateway-side behavior fixture-covered in internal/retrysafety and internal/httpapi/retry_safety_test.go")]
  "internal/httpapi/conformance_test.go (M5-2 pairs); internal/protocol/canonical/conformance_regression_test.go" "2026-10-18"
  "Live api.anthropic.com behavior is UNVERIFIED; evidence is dialect-faithful fakes plus codec fixtures.".

Definition entry_openai_compatible : ConformanceEntry := mkConformanceEntry "openai_compatible" ManifestVersion true StateFixtureVerified
  [(DimAddressing, mkDimensionClaim StateFixtureVerified "");
   (DimAuth, mkDimensionClaim StateFixtureVerified "bearer; per-provider header allowlist");
   (DimNonStream, mkDimensionClaim StateFixtureVerified "");
   (DimStreaming, mkDimensionClaim StateFixtureVerified "stream_options.include_usage injected, retried without on rejection");
   (DimToolCalls, mkDimensionClaim StateFixtureVerified "reversible tool-name mapping for grammar-violating names");
   (DimToolResults, mkDimensionClaim StateFixtureVerified "");
   (DimParallelTools, mkDimensionClaim StateFixtureVerified "");
   (DimReasoning, mkDimensionClaim StatePartial "reasoning_effort passthrough is provider-dependent");
   (DimStructuredOutput, mkDimensionClaim StateFixtureVerified "response_format mapped");
   (DimImages, mkDimensionClaim StateFixtureVerified "data URL + URL forms");
   (DimUsageCache, mkDimensionClaim StateFixtureVerified "prompt_tokens_details.cached_tokens mapped");
   (DimFinishReasons, mkDimensionClaim StateFixtureVerified "");
   (DimErrorEnvelopes, mkDimensionClaim StateFixtureVerified "");
   (DimRetryAfter, mkDimensionClaim StateFixtureVerified "honored with configurable cap");
   (DimCancellation, mkDimensionClaim StatePartial "context-propagated; dedicated gateway cancellation fixture in internal/httpapi/retry_safety_test.go; provider-side cancellation of in-flight upstream work remains unverified");
   (DimIdempotency, mkDimensionClaim StateUntested "no verified provider mechanism; gateway never generates a key and by default never forwards a client key (an operator forward_headers listing is an operator assertion, not gateway evidence); gateway-side behavior fixture-covered in internal/retrysafety and internal/httpapi/retry_safety_test.go")]
  "internal/httpapi/conformance_test.go (M5-2 pairs); internal/providers/http_adapter_test.go" "2026-10-18"
  "Third-party OpenAI-compatible endpoints vary; a /models response alone verifies nothing beyond addressing/auth.".

Definition entry_openai_responses : ConformanceEntry := mkConformanceEntry "openai_responses" ManifestVersion true StateFixtureVerified
  [(DimAddressing, mkDimensionClaim StateFixtureVerified "");
   (DimAuth, mkDimensionClaim StateFixtureVerified "");
   (DimNonStream, mkDimensionClaim StateFixtureVerified "");
   (DimStreaming, mkDimensionClaim StateFixtureVerified "");
   (DimToolCalls, mkDimensionClaim StateFixtureVerified "");
   (DimToolResults, mkDimensionClaim StateFixtureVerified "function_call_output items");
   (DimParallelTools, mkDimensionClaim StateFixtureVerified "");
   (DimReasoning, mkDimensionClaim StateFixtureVerified "reasoning object mapped");
   (DimStructuredOutput, mkDimensionClaim StateFixtureVerified "text.format mapped");
   (DimImages, mkDimensionClaim StateFixtureVerified "");
   (DimUsageCache, mkDimensionClaim StateFixtureVerified "input_tokens_details.cached_tokens mapped");
   (DimFinishReasons, mkDimensionClaim StateFixtureVerified "");
   (DimErrorEnvelopes, mkDimensionClaim StateFixtureVerified "");
   (DimRetryAfter, mkDimensionClaim StateFixtureVerified "");
   (DimCancellation, mkDimensionClaim StatePartial "context-propagated; no dedicated cancellation fixture");
   (DimIdempotency, mkDimensionClaim StateUntested "no verified provider mechanism; gateway never generates a key and by default never forwards a client key (an operator forward_headers listing is an operator assertion, not gateway evidence); gateway-side behavior fixture-covered in internal/retrysafety and internal/httpapi/retry_safety_test.go")]
  "internal/httpapi/conformance_test.go (M5-2 pairs); internal/httpapi/codex_responses_test.go" "2026-10-18"
  "Responses API variants across third-party hosts are UNTESTED.".

Definition entry_gemini : ConformanceEntry := mkConformanceEntry "gemini" ManifestVersion false StateFixtureVerified
  [(DimAddressing, mkDimensionClaim StateFixtureVerified "model-in-path addressing pinned by M5-2 defect 3");
   (DimAuth, mkDimensionClaim StateFixtureVerified "x-goog-api-key; key never forwarded to non-Google hosts");
   (DimNonStream, mkDimensionClaim StateFixtureVerified "");
   (DimStreaming, mkDimensionClaim StateFixtureVerified "");
   (DimToolCalls, mkDimensionClaim StateFixtureVerified "");
   (DimToolResults, mkDimensionClaim StateFixtureVerified "functionResponse parts");
   (DimParallelTools, mkDimensionClaim StateUnsupported "no equivalent knob; flag dropped on encode");
   (DimReasoning, mkDimensionClaim StatePartial "budget hints only; no faithful budget mapping");
   (DimStructuredOutput, mkDimensionClaim StateFixtureVerified "responseMimeType/responseSchema");
   (DimImages, mkDimensionClaim StateFixtureVerified "");
   (DimUsageCache, mkDimensionClaim StatePartial "caching is implicit; usage reported, never requested");
   (DimFinishReasons, mkDimensionClaim StateFixtureVerified "");
   (DimErrorEnvelopes, mkDimensionClaim StateFixtureVerified "");
   (DimRetryAfter, mkDimensionClaim StateFixtureVerified "");
   (DimCancellation, mkDimensionClaim StatePartial "context-propagated; no dedicated cancellation fixture");
   (DimIdempotency, mkDimensionClaim StateUntested "no verified provider mechanism; gateway never generates a key and by default never forwards a client key (an operator forward_headers listing is an operator assertion, not gateway evidence); gateway-side behavior fixture-covered in internal/retrysafety and internal/httpapi/retry_safety_test.go")]
  "internal/httpapi/conformance_test.go (M5-2 pairs); internal/protocol/canonical conformance fixtures" "2026-10-18"
  "Reached via canonical translation, not native passthrough. Live Google behavior UNVERIFIED.".

Definition entry_bedrock : ConformanceEntry := mkConformanceEntry "bedrock" ManifestVersion false StatePartial
  [(DimAddressing, mkDimensionClaim StatePartial "Converse paths unit-tested; no /v1/models listing claim (see #491 review)");
   (DimAuth, mkDimensionClaim StatePartial "SigV4 signing unit-tested; live IAM behavior UNVERIFIED");
   (DimNonStream, mkDimensionClaim StatePartial "");
   (DimStreaming, mkDimensionClaim StatePartial "event-stream framing unit-tested");
   (DimToolCalls, mkDimensionClaim StatePartial "toolUse/toolResult blocks in encoder fixtures");
   (DimToolResults, mkDimensionClaim StatePartial "");
   (DimParallelTools, mkDimensionClaim StateUnsupported "no equivalent knob; flag dropped on encode");
   (DimReasoning, mkDimensionClaim StateUnsupported "thinking blocks not encoded to Converse");
   (DimStructuredOutput, mkDimensionClaim StateUnsupported "no response_format mapping");
   (DimImages, mkDimensionClaim StatePartial "");
   (DimUsageCache, mkDimensionClaim StatePartial "cachePoint mapping unit-tested; live cache behavior UNVERIFIED");
   (DimFinishReasons, mkDimensionClaim StatePartial "");
   (DimErrorEnvelopes, mkDimensionClaim StatePartial "");
   (DimRetryAfter, mkDimensionClaim StatePartial "");
   (DimCancellation, mkDimensionClaim StateUntested "");
   (DimIdempotency, mkDimensionClaim StateUntested "no verified provider mechanism; gateway never generates a key and by default never forwards a client key (an operator forward_headers listing is an operator assertion, not gateway evidence); gateway-side behavior fixture-covered in internal/retrysafety and internal/httpapi/retry_safety_test.go")]
  "internal/providers/bedrock_adapter_test.go; internal/providers/sigv4_test.go" "2026-10-18"
  "Converse coverage is adapter-unit-test evidence only: no M5-2 ingress-pair fixtures and NO live AWS verification.".

Definition entry_azure_openai : ConformanceEntry := mkConformanceEntry "azure_openai" ManifestVersion false StatePartial
  [(DimAddressing, mkDimensionClaim StatePartial "deployment + api-version addressing unit-tested");
   (DimAuth, mkDimensionClaim StatePartial "api-key header unit-tested");
   (DimNonStream, mkDimensionClaim StateUntested "");
   (DimStreaming, mkDimensionClaim StateUntested "");
   (DimToolCalls, mkDimensionClaim StateUntested "");
   (DimToolResults, mkDimensionClaim StateUntested "");
   (DimParallelTools, mkDimensionClaim StateUntested "");
   (DimReasoning, mkDimensionClaim StateUntested "");
   (DimStructuredOutput, mkDimensionClaim StateUntested "");
   (DimImages, mkDimensionClaim StateUntested "");
   (DimUsageCache, mkDimensionClaim StateUntested "");
   (DimFinishReasons, mkDimensionClaim StateUntested "");
   (DimErrorEnvelopes, mkDimensionClaim StateUntested "");
   (DimRetryAfter, mkDimensionClaim StateUntested "");
   (DimCancellation, mkDimensionClaim StateUntested "");
   (DimIdempotency, mkDimensionClaim StateUntested "no verified provider mechanism; gateway never generates a key and by default never forwards a client key (an operator forward_headers listing is an operator assertion, not gateway evidence); gateway-side behavior fixture-covered in internal/retrysafety and internal/httpapi/retry_safety_test.go")]
  "internal/providers/azure_vertex_test.go" "2026-10-18"
  "Deployment addressing and api-key auth are unit-tested; no conformance-pair fixtures and no live Azure tenant verification. The shipped preset base URL is a placeholder the operator must replace.".

Definition entry_opencode_console : ConformanceEntry := mkConformanceEntry "opencode-console" ManifestVersion false StatePartial
  [(DimAddressing, mkDimensionClaim StateFixtureVerified "ingress-selected opencode paths asserted per cell");
   (DimAuth, mkDimensionClaim StateFixtureVerified "bearer; per-credential keys; no key or email in state surfaces");
   (DimNonStream, mkDimensionClaim StateFixtureVerified "");
   (DimStreaming, mkDimensionClaim StateFixtureVerified "SSE reassembled with terminal marker per ingress");
   (DimToolCalls, mkDimensionClaim StateFixtureVerified "");
   (DimToolResults, mkDimensionClaim StateFixtureVerified "");
   (DimParallelTools, mkDimensionClaim StatePartial "multiple tool calls fixture-verified on OpenAI chat ingress only");
   (DimReasoning, mkDimensionClaim StatePartial "thinking blocks survive Anthropic ingress to Anthropic upstream; cross-protocol reasoning mapping not fixture-verified");
   (DimStructuredOutput, mkDimensionClaim StateUntested "");
   (DimImages, mkDimensionClaim StateUntested "");
   (DimUsageCache, mkDimensionClaim StatePartial "usage tokens mapped from upstream fields; cache tokens not fixture-verified");
   (DimFinishReasons, mkDimensionClaim StatePartial "terminal markers fixture-verified; per-reason mapping not asserted");
   (DimErrorEnvelopes, mkDimensionClaim StateFixtureVerified "429 envelope per ingress; opencode 403 entitlement diagnostic");
   (DimRetryAfter, mkDimensionClaim StateFixtureVerified "delta-seconds and HTTP-date forms, fallback, cap");
   (DimCancellation, mkDimensionClaim StatePartial "context-propagated; no dedicated cancellation fixture");
   (DimIdempotency, mkDimensionClaim StateUntested "")]
  "internal/providers/opencode_test.go; internal/httpapi/opencode_test.go (S1-S5 cells for 3 ingresses x both profiles); internal/config/opencode_test.go" "2026-10-28"
  "Fixture-only evidence: live opencode.ai behavior is UNVERIFIED (live = NOT_RUN). Reached via canonical translation, not native passthrough. Console receives no gateway-derived session header. Free-tier models return a model-entitlement 403 diagnostic (status-based; an invalid key returning 403 surfaces the same diagnostic on that request). Go discovery is unsupported; multi-tool fixtures cover the OpenAI chat ingress only; reasoning/images/structured-output/idempotency are untested or partial as marked; cache tokens are not fixture-verified.".

Definition entry_opencode_go : ConformanceEntry := mkConformanceEntry "opencode-go" ManifestVersion false StatePartial
  [(DimAddressing, mkDimensionClaim StateFixtureVerified "ingress-selected opencode paths asserted per cell");
   (DimAuth, mkDimensionClaim StateFixtureVerified "bearer; derived Go session header stable per conversation; per-credential keys");
   (DimNonStream, mkDimensionClaim StateFixtureVerified "");
   (DimStreaming, mkDimensionClaim StateFixtureVerified "SSE reassembled with terminal marker per ingress");
   (DimToolCalls, mkDimensionClaim StateFixtureVerified "");
   (DimToolResults, mkDimensionClaim StateFixtureVerified "");
   (DimParallelTools, mkDimensionClaim StatePartial "multiple tool calls fixture-verified on OpenAI chat ingress only");
   (DimReasoning, mkDimensionClaim StatePartial "thinking blocks survive Anthropic ingress to Anthropic upstream; cross-protocol reasoning mapping not fixture-verified");
   (DimStructuredOutput, mkDimensionClaim StateUntested "");
   (DimImages, mkDimensionClaim StateUntested "");
   (DimUsageCache, mkDimensionClaim StatePartial "usage tokens mapped from upstream fields; cache tokens not fixture-verified");
   (DimFinishReasons, mkDimensionClaim StatePartial "terminal markers fixture-verified; per-reason mapping not asserted");
   (DimErrorEnvelopes, mkDimensionClaim StateFixtureVerified "429 envelope per ingress; opencode 403 entitlement diagnostic");
   (DimRetryAfter, mkDimensionClaim StateFixtureVerified "delta-seconds and HTTP-date forms, fallback, cap");
   (DimCancellation, mkDimensionClaim StatePartial "context-propagated; no dedicated cancellation fixture");
   (DimIdempotency, mkDimensionClaim StateUntested "")]
  "internal/providers/opencode_test.go; internal/httpapi/opencode_test.go (S1-S5 cells for 3 ingresses x both profiles); internal/config/opencode_test.go" "2026-10-28"
  "Fixture-only evidence: live opencode.ai behavior is UNVERIFIED (live = NOT_RUN). Reached via canonical translation, not native passthrough. Go discovery is undocumented and unsupported (models are saved manually; no Go listing endpoint is assumed). Go requests carry a derived x-opencode-session header (client value wins unchanged; deterministic provider|model fallback). Free-tier models return a model-entitlement 403 diagnostic (status-based; an invalid key returning 403 surfaces the same diagnostic on that request). Multi-tool fixtures cover the OpenAI chat ingress only; reasoning/images/structured-output/idempotency are untested or partial as marked; cache tokens are not fixture-verified.".

Definition entry_vertex : ConformanceEntry := mkConformanceEntry "vertex" ManifestVersion false StatePartial
  [(DimAddressing, mkDimensionClaim StatePartial "project/location/model addressing unit-tested");
   (DimAuth, mkDimensionClaim StatePartial "bearer shape unit-tested; OAuth exchange UNVERIFIED");
   (DimNonStream, mkDimensionClaim StateUntested "");
   (DimStreaming, mkDimensionClaim StateUntested "");
   (DimToolCalls, mkDimensionClaim StateUntested "");
   (DimToolResults, mkDimensionClaim StateUntested "");
   (DimParallelTools, mkDimensionClaim StateUntested "");
   (DimReasoning, mkDimensionClaim StateUntested "");
   (DimStructuredOutput, mkDimensionClaim StateUntested "");
   (DimImages, mkDimensionClaim StateUntested "");
   (DimUsageCache, mkDimensionClaim StateUntested "");
   (DimFinishReasons, mkDimensionClaim StateUntested "");
   (DimErrorEnvelopes, mkDimensionClaim StateUntested "");
   (DimRetryAfter, mkDimensionClaim StateUntested "");
   (DimCancellation, mkDimensionClaim StateUntested "");
   (DimIdempotency, mkDimensionClaim StateUntested "no verified provider mechanism; gateway never generates a key and by default never forwards a client key (an operator forward_headers listing is an operator assertion, not gateway evidence); gateway-side behavior fixture-covered in internal/retrysafety and internal/httpapi/retry_safety_test.go")]
  "internal/providers/azure_vertex_test.go" "2026-10-18"
  "Addressing/auth shape unit-tested only; OAuth token exchange and live Vertex behavior UNVERIFIED.".

Definition Manifest : list ConformanceEntry :=
  [entry_anthropic_compatible; entry_openai_compatible; entry_openai_responses; entry_gemini; entry_bedrock; entry_azure_openai; entry_opencode_console; entry_opencode_go; entry_vertex].

Definition ManifestEntry (dialect : string) : option ConformanceEntry :=
  find (fun e => String.eqb (ce_Dialect e) dialect) Manifest.

(** ** Evidence dates

    [time.Parse("2006-01-02", s)]: four, two and two digits separated by
    dashes, the day within the month, nothing before or after. *)
Definition digit (c : ascii) : option Z :=
  let n := Z.of_nat (nat_of_ascii c) in
  if (48 <=? n) && (n <=? 57) then Some (n - 48) else None.
Fixpoint digits (acc : Z) (l : list ascii) : option Z :=
  match l with
  | [] => Some acc
  | c :: l => match digit c with Some d => digits (acc * 10 + d) l | None => None end
  end.
Definition is_leap (y : Z) : bool :=
  (y mod 4 =? 0) && (negb (y mod 100 =? 0) || (y mod 400 =? 0)).
Definition days_in (m y : Z) : Z :=
  if m =? 2 then (if is_leap y then 29 else 28)
  else if (m =? 4) || (m =? 6) || (m =? 9) || (m =? 11) then 30 else 31.
(** Days from 1 January of year 1 to the given date. *)
Definition days_before_month (m y : Z) : Z :=
  sum_Z (map (fun k => days_in (Z.of_nat k) y) (seq 1 (Z.to_nat (m - 1)))).
Definition days_since_epoch (y m d : Z) : Z :=
  let p := y - 1 in
  365 * p + p / 4 - p / 100 + p / 400 + days_before_month m y + (d - 1).
Definition parse_date (s : string) : option Time :=
  match String.list_ascii_of_string s with
  | [y1; y2; y3; y4; s1; m1; m2; s2; d1; d2] =>
      match digits 0 [y1; y2; y3; y4], digits 0 [m1; m2], digits 0 [d1; d2] with
      | Some y, Some m, Some d =>
          if bool_decide (s1 = "-"%char) && bool_decide (s2 = "-"%char)
             && (1 <=? m) && (m <=? 12) && (1 <=? d) && (d <=? days_in m y)
          then Some (days_since_epoch y m d * (24 * Hour)) else None
      | _, _, _ => None
      end
  | _ => None
  end.

Definition EffectiveState (e : ConformanceEntry) (now : Time) (staleAfterDays : Z) : ConformanceState :=
  if bool_decide (ce_Status e <> StateFixtureVerified) &&
     bool_decide (ce_Status e <> StateLiveVerified) &&
     bool_decide (ce_Status e <> StatePartial)
  then ce_Status e
  else
    match parse_date (ce_EvidenceDate e) with
    | None => StateStale
    | Some d =>
        if int64 (int64 (staleAfterDays * 24) * Hour) <? Sub now d then StateStale else ce_Status e
    end.

(** ** Validation *)

Inductive Problem :=
  | EmptyDialect
  | DuplicateEntry (dialect : string)
  | UnknownDialect (dialect : string)
  | WrongVersion (dialect version : string)
  | MissingEvidence (dialect : string) (st : ConformanceState)
  | BadDate (dialect date : string)
  | MissingDimension (dialect : string) (dim : ConformanceDimension)
  | InvalidState (dialect : string) (dim : ConformanceDimension) (st : ConformanceState)
  | LiveInside (dialect : string) (dim : ConformanceDimension) (st : ConformanceState)
  | NoEntry (dialect : string).

Definition check_dimension (e : ConformanceEntry) (dim : ConformanceDimension) : list Problem :=
  match dim_lookup dim e with
  | None => [MissingDimension (ce_Dialect e) dim]
  | Some claim =>
      match dc_State claim with
      | StateUntested | StateFixtureVerified | StateLiveVerified | StatePartial | StateUnsupported => []
      | _ => [InvalidState (ce_Dialect e) dim (dc_State claim)]
      end ++
      (if bool_decide (dc_State claim = StateLiveVerified) && bool_decide (ce_Status e <> StateLiveVerified)
       then [LiveInside (ce_Dialect e) dim (ce_Status e)] else [])
  end.
Definition check_entry (knownDialects : gmap string bool) (seen : gset string) (e : ConformanceEntry)
    : list Problem :=
  (if bool_decide (ce_Dialect e ∈ seen) then [DuplicateEntry (ce_Dialect e)] else []) ++
  (if negb (map_get false knownDialects (ce_Dialect e)) then [UnknownDialect (ce_Dialect e)] else []) ++
  (if negb (String.eqb (ce_ContractVersion e) ManifestVersion)
   then [WrongVersion (ce_Dialect e) (ce_ContractVersion e)] else []) ++
  (if (bool_decide (ce_Status e = StateFixtureVerified) || bool_decide (ce_Status e = StateLiveVerified))
      && String.eqb (TrimSpace (ce_EvidenceSource e)) ""
   then [MissingEvidence (ce_Dialect e) (ce_Status e)] else []) ++
  (match parse_date (ce_EvidenceDate e) with
   | Some _ => []
   | None => [BadDate (ce_Dialect e) (ce_EvidenceDate e)]
   end) ++
  flat_map (check_dimension e) ConformanceDimensions.
Fixpoint check_entries (knownDialects : gmap string bool) (seen : gset string)
    (entries : list ConformanceEntry) : gset string * list Problem :=
  match entries with
  | [] => (seen, [])
  | e :: entries =>
      if String.eqb (ce_Dialect e) "" then
        let '(seen, ps) := check_entries knownDialects seen entries in (seen, EmptyDialect :: ps)
      else
        let ps0 := check_entry knownDialects seen e in
        let '(seen, ps) := check_entries knownDialects ({[ce_Dialect e]} ∪ seen) entries in
        (seen, ps0 ++ ps)
  end.
Definition ValidateManifest (entries : list ConformanceEntry) (knownDialects : gmap string bool)
    : list Problem :=
  let '(seen, problems) := check_entries knownDialects ∅ entries in
  problems ++ flat_map (fun '(d, _) => if bool_decide (d ∈ seen) then [] else [NoEntry d])
                (map_to_list knownDialects).

(** ** What a clean validation means *)

Lemma flat_map_nil {A B} (f : A -> list B) (l : list A) :
  flat_map f l = [] <-> Forall (fun x => f x = []) l.
Proof.
  induction l as [|x l IH]; cbn; [done|]. rewrite app_nil, IH, Forall_cons. done.
Qed.

(** The structural honesty rules for one entry. *)
Record honest_entry (e : ConformanceEntry) : Prop := {
  honest_version : ce_ContractVersion e = ManifestVersion;
  honest_evidence : ce_Status e = StateFixtureVerified \/ ce_Status e = StateLiveVerified ->
    TrimSpace (ce_EvidenceSource e) <> "";
  honest_date : is_Some (parse_date (ce_EvidenceDate e));
  honest_dimensions : forall dim, exists c, dim_lookup dim e = Some c /\
    dc_State c <> NoState /\ dc_State c <> StateStale /\
    (dc_State c = StateLiveVerified -> ce_Status e = StateLiveVerified)
}.

Lemma ConformanceDimensions_all dim : dim ∈ ConformanceDimensions.
Proof. unfold ConformanceDimensions. rewrite !elem_of_cons. destruct dim; auto 20. Qed.

Lemma check_dimension_nil e dim : check_dimension e dim = [] ->
  exists c, dim_lookup dim e = Some c /\ dc_State c <> NoState /\ dc_State c <> StateStale /\
    (dc_State c = StateLiveVerified -> ce_Status e = StateLiveVerified).
Proof.
  unfold check_dimension. destruct (dim_lookup dim e) as [c|]; [|done].
  intros H. exists c. split; [done|].
  apply app_nil in H as [H1 H2]. split_and!.
  - intros E. by rewrite E in H1.
  - intros E. by rewrite E in H1.
  - intros E. rewrite E in H2. rewrite bool_decide_true in H2 by done. cbn in H2.
    destruct (decide (ce_Status e = StateLiveVerified)) as [|Hn]; [done|].
    by rewrite bool_decide_true in H2.
Qed.

Lemma check_entry_nil known seen e : check_entry known seen e = [] ->
  ce_Dialect e ∉ seen /\ known !! ce_Dialect e = Some true /\ honest_entry e.
Proof.
  unfold check_entry. rewrite !app_nil, flat_map_nil, Forall_forall.
  intros (H1 & H2 & H3 & H4 & H5 & H6). split_and!.
  - intros Hin. by rewrite bool_decide_true in H1.
  - unfold map_get in H2. destruct (known !! ce_Dialect e) as [[]|]; done.
  - constructor.
    + destruct (String.eqb_spec (ce_ContractVersion e) ManifestVersion); done.
    + intros Hs E. rewrite E in H4.
      destruct Hs as [Hs|Hs]; rewrite Hs in H4; cbn in H4; done.
    + destruct (parse_date (ce_EvidenceDate e)); [eauto|done].
    + intros dim. apply check_dimension_nil, H6, ConformanceDimensions_all.
Qed.

Lemma check_entries_nil known entries : forall seen seen',
  check_entries known seen entries = (seen', []) ->
  Forall (fun e => ce_Dialect e <> "" /\ known !! ce_Dialect e = Some true /\ honest_entry e) entries /\
  NoDup (ce_Dialect <$> entries) /\ (forall d, d ∈ ce_Dialect <$> entries -> d ∉ seen) /\
  (forall d, d ∈ seen' <-> d ∈ seen \/ d ∈ ce_Dialect <$> entries).
Proof.
  induction entries as [|e entries IH]; intros seen seen'; cbn [check_entries].
  - intros [= <-]. split_and!; [done|constructor|by intros ? ?%elem_of_nil|].
    intros d. cbn. rewrite elem_of_nil. tauto.
  - destruct (String.eqb_spec (ce_Dialect e) ""); destruct (check_entries _ _ _) as [s ps] eqn:E; [done|].
    intros Heq. assert (s = seen') as -> by exact (f_equal fst Heq).
    apply (f_equal snd) in Heq as [H0 ->]%app_nil.
    destruct (check_entry_nil _ _ _ H0) as (Hns & Hk & Hh).
    destruct (IH _ _ E) as (HF & HN & Hd & Hs). rewrite fmap_cons. split_and!.
    + by constructor.
    + constructor; [|done]. intros Hin. apply (Hd _ Hin). set_solver.
    + intros d Hin. apply elem_of_cons in Hin as [->|Hin]; [done|].
      specialize (Hd d Hin). set_solver.
    + intros d. rewrite Hs, elem_of_cons. set_solver.
Qed.


(** A manifest that [ValidateManifest] accepts is structurally honest:
    dialects are distinct and shipped, every shipped dialect has an entry, and
    each entry carries the current version, a parseable date, an evidence
    source when it claims verification, and a stored state for every dimension
    that never exceeds what the entry itself claims. *)
Theorem validated_manifest_honest (entries : list ConformanceEntry) (known : gmap string bool) :
  ValidateManifest entries known = [] ->
  NoDup (ce_Dialect <$> entries) /\
  Forall (fun e => ce_Dialect e <> "" /\ known !! ce_Dialect e = Some true /\ honest_entry e) entries /\
  (forall d b, known !! d = Some b -> exists e, e ∈ entries /\ ce_Dialect e = d).
Proof.
  unfold ValidateManifest. destruct (check_entries known ∅ entries) as [seen ps] eqn:E.
  intros [-> H]%app_nil. destruct (check_entries_nil _ _ _ _ E) as (HF & HN & _ & Hs).
  split_and!; [done|done|]. intros d b Hd.
  rewrite flat_map_nil, Forall_forall in H.
  specialize (H (d, b) (proj2 (elem_of_map_to_list _ _ _) Hd)). cbn in H.
  case_bool_decide as Hin; [|done].
  apply Hs in Hin as [Hin|Hin]; [set_solver|].
  apply list_elem_of_fmap in Hin as (e & -> & He). eauto.
Qed.

(** The dialect types of the presets the build ships ([presets.go]). *)
Definition shipped_dialects : gmap string bool :=
  list_to_map (map (fun d => (d, true))
    ["openai_compatible"; "anthropic_compatible"; "openai_responses"; "bedrock"; "azure_openai";
     "vertex"; "gemini"; "opencode-console"; "opencode-go"]).

Lemma Manifest_valid : ValidateManifest Manifest shipped_dialects = [].
Proof. vm_compute. reflexivity. Qed.

Lemma validated_manifest_honest_witness :
  ValidateManifest Manifest shipped_dialects = [] /\ NoDup (ce_Dialect <$> Manifest).
Proof.
  split; [vm_compute; reflexivity|].
  apply (validated_manifest_honest Manifest shipped_dialects). vm_compute. reflexivity.
Defined.

(** No dialect of the manifest has evidence for provider-side idempotency. *)
Lemma idempotency_untested dialect e :
  ManifestEntry dialect = Some e -> dim_state DimIdempotency e = StateUntested.
Proof.
  intros [Hin _]%find_some.
  assert (Forall (fun e => dim_state DimIdempotency e = StateUntested) Manifest) as HF
    by (repeat constructor).
  rewrite List.Forall_forall in HF. by apply HF.
Qed.
