(* ===== verification/Hash.v ===== *)
(** * Hash functions of the Go library used by the program

    FNV-1a ([hash/fnv]) selects rotation slots in the router; SHA-256
    ([crypto/sha256]) with hexadecimal encoding builds affinity buckets, cache
    keys and credential digests.  Both are executable and checked on published
    test vectors. *)

From Stdlib Require Import Ascii.
From S2P Require Import Prelude.

(** The bytes of a string, as integers in [0, 256). *)
Definition byte_of (c : ascii) : Z := Z.of_N (N_of_ascii c).
Definition bytes (s : string) : list Z := map byte_of (String.list_ascii_of_string s).

(** ** FNV-1a, 64 bits *)

Definition fnv_offset64 : Z := 14695981039346656037.
Definition fnv_prime64 : Z := 1099511628211.
Definition fnv64a_write (h : Z) (data : list Z) : Z :=
  fold_left (fun h b => uint64 (Z.lxor h b * fnv_prime64)) data h.

Lemma fnv64a_write_range data h : 0 <= h < 2 ^ 64 -> 0 <= fnv64a_write h data < 2 ^ 64.
Proof.
  unfold fnv64a_write. revert h. induction data as [|b data IH]; intros h Hh; cbn; [done|].
  apply IH. unfold uint64. apply Z.mod_pos_bound. lia.
Qed.

Lemma fnv64a_write_app h a b : fnv64a_write h (a ++ b) = fnv64a_write (fnv64a_write h a) b.
Proof. apply fold_left_app. Qed.

(** The 32-bit variant. *)
Definition fnv_offset32 : Z := 2166136261.
Definition fnv_prime32 : Z := 16777619.
Definition fnv32a_write (h : Z) (data : list Z) : Z :=
  fold_left (fun h b => (Z.lxor h b * fnv_prime32) mod 2 ^ 32) data h.
Example fnv32a_vector : fnv32a_write fnv_offset32 (bytes "foobar") = 3214735720.
Proof. reflexivity. Qed.

(** ** SHA-256 *)

Module Sha256.
Definition w32 (z : Z) : Z := Z.land z (2 ^ 32 - 1).
Definition rotr (n x : Z) : Z := w32 (Z.lor (Z.shiftr x n) (Z.shiftl x (32 - n))).
Definition shr (n x : Z) : Z := Z.shiftr x n.
Definition not32 (x : Z) : Z := Z.lxor x (2 ^ 32 - 1).
Definition Ch (x y z : Z) : Z := Z.lxor (Z.land x y) (Z.land (not32 x) z).
Definition Maj (x y z : Z) : Z := Z.lxor (Z.lxor (Z.land x y) (Z.land x z)) (Z.land y z).
Definition S0 (x : Z) : Z := Z.lxor (Z.lxor (rotr 2 x) (rotr 13 x)) (rotr 22 x).
Definition S1 (x : Z) : Z := Z.lxor (Z.lxor (rotr 6 x) (rotr 11 x)) (rotr 25 x).
Definition s0 (x : Z) : Z := Z.lxor (Z.lxor (rotr 7 x) (rotr 18 x)) (shr 3 x).
Definition s1 (x : Z) : Z := Z.lxor (Z.lxor (rotr 17 x) (rotr 19 x)) (shr 10 x).

(** The constants of the standard: the first 32 bits of the fractional parts of
    the cube roots (round constants) and square roots (initial state) of the
    first primes. *)
Definition is_prime (n : nat) : bool :=
  (2 <=? n)%nat && forallb (fun d => negb (n mod d =? 0)%nat) (seq 2 (n - 2)).
Definition primes (k : nat) : list Z := map Z.of_nat (take k (List.filter is_prime (seq 2 310))).
(** The integer cube root below [2^n], one bit at a time. *)
Fixpoint cbrt (n : nat) (x r : Z) : Z :=
  match n with
  | O => r
  | S n => let c := r + 2 ^ Z.of_nat n in cbrt n x (if c ^ 3 <=? x then c else r)
  end.
Definition K : list Z := Eval vm_compute in map (fun p => w32 (cbrt 36 (p * 2 ^ 96) 0)) (primes 64).
Definition H0 : list Z := Eval vm_compute in map (fun p => w32 (Z.sqrt (p * 2 ^ 64))) (primes 8).

(** The padded message: a one bit, zeros, and the bit length in 64 bits. *)
Definition be (n : nat) (x : Z) : list Z :=
  map (fun i => Z.land (Z.shiftr x (8 * Z.of_nat i)) 255) (rev (seq 0 n)).
Definition pad (msg : list Z) : list Z :=
  let len := length msg in
  let zeros := ((119 - len mod 64) mod 64)%nat in
  msg ++ [128] ++ replicate zeros 0 ++ be 8 (8 * Z.of_nat len).

Fixpoint words (l : list Z) : list Z :=
  match l with
  | a :: b :: c :: d :: l =>
      (Z.shiftl a 24 + Z.shiftl b 16 + Z.shiftl c 8 + d) :: words l
  | _ => []
  end.

(** The message schedule, most recent word first. *)
Fixpoint schedule (n : nat) (acc : list Z) : list Z :=
  match n with
  | O => rev acc
  | S n =>
      let w := w32 (s1 (nth 1 acc 0) + nth 6 acc 0 + s0 (nth 14 acc 0) + nth 15 acc 0) in
      schedule n (w :: acc)
  end.

Definition round (st : list Z) (kw : Z * Z) : list Z :=
  match st with
  | [a; b; c; d; e; f; g; h] =>
      let t1 := h + S1 e + Ch e f g + fst kw + snd kw in
      let t2 := S0 a + Maj a b c in
      [w32 (t1 + t2); a; b; c; w32 (d + t1); e; f; g]
  | _ => st
  end.
Definition compress (st : list Z) (block : list Z) : list Z :=
  let ws := schedule 48 (rev (words block)) in
  let st' := fold_left round (combine K ws) st in
  map (fun '(x, y) => w32 (x + y)) (combine st st').
Fixpoint blocks (fuel : nat) (l : list Z) : list (list Z) :=
  match fuel with
  | O => []
  | S fuel => match l with [] => [] | _ => take 64 l :: blocks fuel (drop 64 l) end
  end.
Definition Sum256 (msg : list Z) : list Z :=
  let p := pad msg in
  flat_map (be 4) (fold_left compress (blocks (length p) p) H0).
End Sha256.

(** ** Hexadecimal *)

Definition hex_digit (z : Z) : ascii :=
  ascii_of_N (Z.to_N (if z <? 10 then 48 + z else 87 + z)).
Fixpoint EncodeToString (l : list Z) : string :=
  match l with
  | [] => ""
  | b :: l => String (hex_digit (b / 16)) (String (hex_digit (b mod 16)) (EncodeToString l))
  end.

Lemma EncodeToString_length l : String.length (EncodeToString l) = (2 * length l)%nat.
Proof. induction l as [|b l IH]; cbn; [done|]. rewrite IH. lia. Qed.

Definition sha256_hex (s : string) : string := EncodeToString (Sha256.Sum256 (bytes s)).

Example fnv64a_abc : fnv64a_write fnv_offset64 (bytes "foobar") = 0x85944171f73967e8.
Proof. vm_compute. reflexivity. Qed.
Example sha256_empty :
  sha256_hex "" = "e3b0c44298fc1c149afbf4c8996fb92427ae41e4649b934ca495991b7852b855".
Proof. vm_compute. reflexivity. Qed.
Example sha256_abc :
  sha256_hex "abc" = "ba7816bf8f01cfea414140de5dae2223b00361a396177a9cb410ff61f20015ad".
Proof. vm_compute. reflexivity. Qed.
Example sha256_two_blocks :
  sha256_hex "abcdbcdecdefdefgefghfghighijhijkijkljklmklmnlmnomnopnopq"
  = "248d6a61d20638b8e5c026930c3e6039a33ce45964ff2167f6ecedd419db06c1".
Proof. vm_compute. reflexivity. Qed.

Lemma Sum256_length msg : length (Sha256.Sum256 msg) = 32%nat.
Proof.
  unfold Sha256.Sum256.
  assert (forall bl st, length st = 8%nat -> length (fold_left Sha256.compress bl st) = 8%nat) as H.
  { induction bl as [|b bl IH]; intros st Hst; [done|]. cbn [fold_left]. apply IH.
    unfold Sha256.compress. rewrite length_map, length_combine.
    assert (forall l st, length st = 8%nat -> length (fold_left Sha256.round l st) = 8%nat) as Hr.
    { induction l as [|kw l IHl]; intros s Hs; [done|]. cbn [fold_left]. apply IHl.
      do 8 (destruct s as [|? s]; [done|]). by destruct s. }
    rewrite Hr by done. lia. }
  specialize (H (Sha256.blocks (length (Sha256.pad msg)) (Sha256.pad msg)) Sha256.H0 eq_refl).
  revert H. generalize (fold_left Sha256.compress (Sha256.blocks (length (Sha256.pad msg)) (Sha256.pad msg)) Sha256.H0).
  intros l Hl. do 8 (destruct l as [|? l]; [done|]). by destruct l.
Qed.
