(* ===== verification/Pricing.v ===== *)
(** * The versioned price book ([src/internal/pricing/pricing.go])

    A book is a list of price versions in ascending order of their effective
    date.  [time.Parse(time.RFC3339, _)] is the argument [parse_time] of
    [FromConfig]: every statement holds for whatever dates it accepts. *)

From S2P Require Import Prelude Config.

(** ** Data *)

Record Entry := mkEntry {
  InputPerMTok : float64;
  OutputPerMTok : float64;
  CacheReadPerMTok : option float64;
  CacheWritePerMTok : option float64
}.
#[export] Instance eta_Entry : Eta Entry := fun r =>
  mkEntry (InputPerMTok r) (OutputPerMTok r) (CacheReadPerMTok r) (CacheWritePerMTok r).
Definition zero_Entry : Entry := mkEntry f_zero f_zero None None.

Definition CacheRead (e : Entry) : float64 :=
  match CacheReadPerMTok e with Some r => r | None => InputPerMTok e end.
Definition CacheWrite (e : Entry) : float64 :=
  match CacheWritePerMTok e with Some r => r | None => InputPerMTok e end.

Record Version := mkVersion { v_Name : string; v_EffectiveFrom : Time; v_Prices : gmap string Entry }.
Record Book := mkBook { b_versions : list Version }.

(** ** Operations *)

Definition version_less (a b : Version) : bool :=
  if negb (v_EffectiveFrom a =? v_EffectiveFrom b)
  then Before (v_EffectiveFrom a) (v_EffectiveFrom b)
  else String.ltb (v_Name a) (v_Name b).

Definition entry_of_config (p : PriceEntryConfig) : Entry :=
  mkEntry (pe_InputPerMTok p) (pe_OutputPerMTok p) (pe_CacheReadPerMTok p) (pe_CacheWritePerMTok p).
Definition FromConfig (parse_time : string -> option Time) (cfg : Config) : Book :=
  let versions :=
    omap (fun v =>
      match parse_time (pv_EffectiveFrom v) with
      | None => None
      | Some from => Some (mkVersion (pv_Version v) from (entry_of_config <$> pv_Prices v))
      end) (pr_Versions (cfg_Pricing cfg)) in
  mkBook (slice_stable version_less versions).

(** [versions] is walked from its end; a nil book prices nothing. *)
Fixpoint resolve_rev (rev_versions : list Version) (deploymentID : string) (at_ : Time)
    : option (Entry * string) :=
  match rev_versions with
  | [] => None
  | v :: rest =>
      if After (v_EffectiveFrom v) at_ then resolve_rev rest deploymentID at_
      else
        match v_Prices v !! deploymentID with
        | Some e => Some (e, v_Name v)
        | None => resolve_rev rest deploymentID at_
        end
  end.
Definition Resolve (b : option Book) (deploymentID : string) (at_ : Time) : option (Entry * string) :=
  match b with
  | None => None
  | Some b => resolve_rev (reverse (b_versions b)) deploymentID at_
  end.

Definition ModelEntry (inputPerMTok outputPerMTok : float64) : Entry :=
  mkEntry inputPerMTok outputPerMTok None None.

(** The deployments of the configuration, in the order they are declared. *)
Definition model_entries (cfg : Config) : list (string * Entry) :=
  flat_map (fun p => map (fun m => (pc_ID p +:+ "/" +:+ mc_ID m,
    ModelEntry (mc_InputCostPerMTok m) (mc_OutputCostPerMTok m))) (pc_Models p)) (cfg_Providers cfg).
Definition ResolveFor (b : option Book) (cfg : Config) (deploymentID : string) (at_ : Time)
    : Entry * string :=
  match Resolve b deploymentID at_ with
  | Some (e, v) => (e, v)
  | None =>
      match find (fun '(id, _) => String.eqb id deploymentID) (model_entries cfg) with
      | Some (_, e) => (e, "config")
      | None => (zero_Entry, "unpriced")
      end
  end.

Definition bad_rate (r : float64) : bool := IsNaN r || IsInf r || (r <? f_zero)%f64.
Definition clean_rate (r : float64) : float64 := if bad_rate r then f_zero else r.
Definition clean_cache_rate (r : option float64) : option float64 :=
  match r with Some x => if bad_rate x then None else Some x | None => None end.
Definition nonneg (n : Z) : Z := if n <? 0 then 0 else n.
Definition million : float64 := f_of_int 1000000.
Definition sane_cost (cost : float64) : float64 :=
  if (cost <? f_zero)%f64 || IsNaN cost || IsInf cost then f_zero else cost.

Definition Cost (e : Entry) (input output cacheRead cacheWrite : Z) (inputIncludesCache : bool) : float64 :=
  let e := e <| InputPerMTok ::= clean_rate |> <| OutputPerMTok ::= clean_rate |>
             <| CacheReadPerMTok ::= clean_cache_rate |> <| CacheWritePerMTok ::= clean_cache_rate |> in
  let input := nonneg input in
  let output := nonneg output in
  let cacheRead := nonneg cacheRead in
  let cacheWrite := nonneg cacheWrite in
  let billableInput := if inputIncludesCache then nonneg (int64 (input - cacheRead)) else input in
  let cost := ((f_of_int billableInput * InputPerMTok e + f_of_int output * OutputPerMTok e
                + f_of_int cacheRead * CacheRead e + f_of_int cacheWrite * CacheWrite e) / million)%f64 in
  sane_cost cost.

Definition Estimate (e : Entry) (estInputTokens maxOutputTokens : Z) : float64 :=
  let e := e <| InputPerMTok ::= clean_rate |> <| OutputPerMTok ::= clean_rate |> in
  let estInputTokens := nonneg estInputTokens in
  let maxOutputTokens := nonneg maxOutputTokens in
  let v := ((f_of_int estInputTokens * InputPerMTok e + f_of_int maxOutputTokens * OutputPerMTok e)
            / million)%f64 in
  sane_cost v.

(** ** The order of the book *)

(** [u] is not later than [v]: by date, and by name on the same date. *)
Definition version_le (u v : Version) : Prop :=
  v_EffectiveFrom u < v_EffectiveFrom v \/
  (v_EffectiveFrom u = v_EffectiveFrom v /\ String.leb (v_Name u) (v_Name v) = true).


Section book_order.
Implicit Types u v w : Version.

Lemma version_le_trans u v w : version_le u v -> version_le v w -> version_le u w.
Proof.
  intros [?|[? H1]] [?|[? H2]]; [left; lia|left; lia|left; lia|].
  right. split; [lia|]. by apply (str_leb_trans _ (v_Name v)).
Qed.

Lemma version_less_le u v : version_less u v = true -> version_le u v.
Proof.
  unfold version_less, version_le, Before. destruct (Z.eqb_spec (v_EffectiveFrom u) (v_EffectiveFrom v)); cbn.
  - rewrite str_ltb_leb, negb_true_iff. intros H. right. split; [done|].
    destruct (String.leb_total (v_Name u) (v_Name v)); congruence.
  - intros ?%Z.ltb_lt. by left.
Qed.

Lemma version_less_ge u v : version_less u v = false -> version_le v u.
Proof.
  unfold version_less, version_le, Before. destruct (Z.eqb_spec (v_EffectiveFrom u) (v_EffectiveFrom v)); cbn.
  - rewrite str_ltb_leb, negb_false_iff. intros H. by right.
  - intros ?%Z.ltb_ge. left. lia.
Qed.

Lemma FromConfig_sorted parse cfg : StronglySorted version_le (b_versions (FromConfig parse cfg)).
Proof.
  cbn. apply (slice_stable_sorted version_less (fun _ => True)).
  - intros; by apply version_less_le.
  - intros; by apply version_less_ge.
  - intros ? y; intros. by apply (version_le_trans _ y).
  - by apply Forall_true.
Qed.
End book_order.

(** The versions that can price a deployment at a moment. *)
Definition prices_at (dep : string) (at_ : Time) (v : Version) (e : Entry) : Prop :=
  v_EffectiveFrom v <= at_ /\ v_Prices v !! dep = Some e.

Lemma resolve_rev_spec l dep at_ :
  StronglySorted (flip version_le) l ->
  match resolve_rev l dep at_ with
  | Some (e, name) =>
      exists v, v ∈ l /\ v_Name v = name /\ prices_at dep at_ v e /\
        forall u e', u ∈ l -> prices_at dep at_ u e' -> u = v \/ version_le u v
  | None => forall v e, v ∈ l -> ~ prices_at dep at_ v e
  end.
Proof.
  induction 1 as [|v l Hs IH Hall]; cbn [resolve_rev]; [by intros ? ? ?%elem_of_nil|].
  unfold After. rewrite Forall_forall in Hall.
  assert (forall e, prices_at dep at_ v e -> v_EffectiveFrom v <= at_) as Hv by (intros e []; done).
  destruct (Z.ltb_spec at_ (v_EffectiveFrom v)) as [Hlt|Hge];
    [|destruct (v_Prices v !! dep) as [e|] eqn:He].
  2: { exists v. split_and!; [by left|done|by split|].
    intros u e' [->|Hu]%elem_of_cons _; [by left|]. right. by apply Hall. }
  all: destruct (resolve_rev l dep at_) as [[e0 name]|].
  all: try (intros u e0 [->|Hu]%elem_of_cons [H1 H2]; [try lia; congruence|by apply (IH u e0 Hu)]).
  all: destruct IH as (w & Hw & Hn & Hp & Hmax); exists w; split_and!; [by right|done|done|].
  all: intros u e' [->|Hu]%elem_of_cons Hpu; [exfalso; destruct Hpu; try lia; congruence | by apply (Hmax u e')].
Qed.

(** Price resolution is exact: [Resolve] answers with the entry of the
    latest version that is in force and prices the deployment, a later version
    that does not mention it never shadows an earlier one, and it fails only
    when no version in force prices the deployment. *)
Theorem resolve_latest (parse : string -> option Time) (cfg : Config) (dep : string) (at_ : Time) :
  let b := FromConfig parse cfg in
  match Resolve (Some b) dep at_ with
  | Some (e, name) =>
      exists v, v ∈ b_versions b /\ v_Name v = name /\ prices_at dep at_ v e /\
        forall u e', u ∈ b_versions b -> prices_at dep at_ u e' -> u = v \/ version_le u v
  | None => forall v e, v ∈ b_versions b -> ~ prices_at dep at_ v e
  end.
Proof.
  intros b. cbn [Resolve].
  pose proof (resolve_rev_spec (reverse (b_versions b)) dep at_) as H.
  assert (StronglySorted (flip version_le) (reverse (b_versions b))) as Hs.
  { apply StronglySorted_reverse. apply FromConfig_sorted. }
  specialize (H Hs). destruct (resolve_rev _ _ _) as [[e name]|].
  - destruct H as (v & Hv & Hn & Hp & Hm). exists v.
    rewrite elem_of_reverse in Hv. split_and!; [done|done|done|].
    intros u e' Hu. apply Hm. by rewrite elem_of_reverse.
  - intros v e Hv. apply H. by rewrite elem_of_reverse.
Qed.

(** ** Costs *)

Lemma nonneg_id n : 0 <= n -> nonneg n = n.
Proof. unfold nonneg. destruct (Z.ltb_spec n 0); lia. Qed.
Lemma nonneg_nonneg n : 0 <= nonneg n.
Proof. unfold nonneg. destruct (Z.ltb_spec n 0); lia. Qed.

Lemma sane_cost_sane c :
  IsNaN (sane_cost c) = false /\ IsInf (sane_cost c) = false /\ fle f_zero (sane_cost c) = true.
Proof.
  unfold sane_cost. destruct ((c <? f_zero)%f64 || IsNaN c || IsInf c) eqn:E; [done|].
  apply orb_false_iff in E as [[E1 E2]%orb_false_iff E3]. split_and!; [done|done|].
  apply fle_spec; [done|done|]. rewrite <- flt_spec by done. by rewrite E1.
Qed.

(** Charging a dialect whose input count includes the cached tokens is charging
    the uncached remainder under the additive convention. *)
Lemma Cost_includes_cache e input output cacheRead cacheWrite :
  in_int64 input -> in_int64 cacheRead ->
  Cost e input output cacheRead cacheWrite true =
  Cost e (nonneg input - nonneg cacheRead) output cacheRead cacheWrite false.
Proof.
  intros Hi Hc. unfold Cost. unfold in_int64 in *.
  assert (nonneg input < 2 ^ 63) by (unfold nonneg; destruct (Z.ltb_spec input 0); lia).
  assert (nonneg cacheRead < 2 ^ 63) by (unfold nonneg; destruct (Z.ltb_spec cacheRead 0); lia).
  pose proof (nonneg_nonneg input). pose proof (nonneg_nonneg cacheRead).
  by rewrite int64_id by (unfold in_int64; lia).
Qed.

(** Recorded costs are sane whatever the rates and counts: never NaN,
    infinite or negative; and when the reported input includes the cached
    tokens, these are billed once, at the cache rate, and only the remainder at
    the input rate. *)
Theorem cost_sane_and_single_charge (e : Entry) (input output cacheRead cacheWrite : Z) (incl : bool) :
  in_int64 input -> in_int64 cacheRead ->
  let c := Cost e input output cacheRead cacheWrite incl in
  IsNaN c = false /\ IsInf c = false /\ fle f_zero c = true /\
  Cost e input output cacheRead cacheWrite true =
  Cost e (nonneg input - nonneg cacheRead) output cacheRead cacheWrite false.
Proof.
  intros Hi Hc c. destruct (sane_cost_sane (
    let e := e <| InputPerMTok ::= clean_rate |> <| OutputPerMTok ::= clean_rate |>
               <| CacheReadPerMTok ::= clean_cache_rate |> <| CacheWritePerMTok ::= clean_cache_rate |> in
    let billable := if incl then nonneg (int64 (nonneg input - nonneg cacheRead)) else nonneg input in
    (f_of_int billable * InputPerMTok e + f_of_int (nonneg output) * OutputPerMTok e
      + f_of_int (nonneg cacheRead) * CacheRead e
      + f_of_int (nonneg cacheWrite) * CacheWrite e) / million)%f64) as (H1 & H2 & H3).
  split_and!; [exact H1|exact H2|exact H3|by apply Cost_includes_cache].
Qed.

(** A million input tokens of which 400000 were cached, at 3 USD (0.5 USD
    cached) per million tokens. *)
Definition sample_entry : Entry := mkEntry (f_of_int 3) (f_of_int 15) (Some (fbin 1 (-1))) None.
Lemma cost_sane_and_single_charge_witness :
  Cost sample_entry 1000000 0 400000 0 true = f_of_int 2 /\
  Cost sample_entry 1000000 0 400000 0 true = Cost sample_entry 600000 0 400000 0 false.
Proof.
  split; [vm_compute; reflexivity|].
  apply (cost_sane_and_single_charge sample_entry 1000000 0 400000 0 true); unfold in_int64; lia.
Defined.
