(* ===== verification/RetrySafety.v ===== *)
(** * Retry safety ([src/internal/retrysafety/retrysafety.go])

    The policy that decides whether a failed upstream attempt may be replayed.
    A Go error is its message and the error values of its unwrap chain that the
    classification looks for, in the order [errors.As] visits them. *)

From S2P Require Import Prelude Conformance.

(** ** Data *)

Inductive SentState := SentNotSent | SentUnknown | SentConfirmed.
#[export] Instance SentState_eq_dec : EqDecision SentState.
Proof. solve_decision. Defined.
Inductive ExecutionState := ExecutionNone | ExecutionUnknown | ExecutionConfirmed.
#[export] Instance ExecutionState_eq_dec : EqDecision ExecutionState.
Proof. solve_decision. Defined.
Inductive IdempotencySupport := IdempotencyNone | IdempotencyUnverified | IdempotencyVerified.
#[export] Instance IdempotencySupport_eq_dec : EqDecision IdempotencySupport.
Proof. solve_decision. Defined.

Record Outcome := mkOutcome {
  o_Sent : SentState;
  o_Execution : ExecutionState;
  o_ResponseCommitted : bool;
  o_Cancelled : bool;
  o_Retryable : bool;
  o_DurableSideEffect : bool;
  o_AttemptsUsed : Z;
  o_MaxAttempts : Z;
  o_Deadline : Time
}.
#[export] Instance eta_Outcome : Eta Outcome := fun r =>
  mkOutcome (o_Sent r) (o_Execution r) (o_ResponseCommitted r) (o_Cancelled r) (o_Retryable r)
    (o_DurableSideEffect r) (o_AttemptsUsed r) (o_MaxAttempts r) (o_Deadline r).

Record Decision := mkDecision { dn_Allow : bool; dn_Reason : string; dn_Ambiguous : bool }.

(** ** Idempotency policy *)

Definition SupportForDialect (_ : string) : IdempotencySupport := IdempotencyNone.
Definition ForwardClientKey (_ : string) : bool := false.
Definition GenerateProviderKey : string * bool := ("", false).
Definition BodyEqualityProvesDuplicate : bool := false.
Definition KeyMatches (a b : string) : bool :=
  negb (String.eqb a "") && negb (String.eqb b "") && String.eqb a b.

(** ** Transport errors *)

(** The links of an unwrap chain: a [*net.OpError] with its operation, a
    [syscall.Errno], or any other error value. *)
Inductive error_link := OpError (op : string) | Errno (n : Z) | OtherError.
Record go_error := mkGoError { e_message : string; e_chain : list error_link }.
Definition ECONNREFUSED : Z := 111.

(** [errors.As(err, &opErr)] and [errors.As(err, &errno)]: the first match. *)
Fixpoint as_OpError (chain : list error_link) : option string :=
  match chain with
  | [] => None
  | OpError op :: _ => Some op
  | _ :: chain => as_OpError chain
  end.
Fixpoint as_Errno (chain : list error_link) : option Z :=
  match chain with
  | [] => None
  | Errno n :: _ => Some n
  | _ :: chain => as_Errno chain
  end.

Definition ClassifyTransportError (err : option go_error) : SentState :=
  match err with
  | None => SentNotSent
  | Some err =>
      if bool_decide (as_OpError (e_chain err) = Some "dial") then SentNotSent
      else
        let msg := e_message err in
        if Contains msg "connection refused" || Contains msg "no such host"
           || Contains msg "all configured provider credentials are cooling down"
        then SentNotSent
        else if bool_decide (as_Errno (e_chain err) = Some ECONNREFUSED) then SentNotSent
        else SentUnknown
  end.

(** ** The decision *)

Definition deny (reason : string) : Decision := mkDecision false reason false.

Definition Decide (o : Outcome) (now : Time) : Decision :=
  if o_Cancelled o then deny "cancelled: never replay a cancelled request"
  else if o_ResponseCommitted o then deny "response committed: never replay after client-visible output"
  else if negb (o_Retryable o) then deny "error class is not retryable"
  else if (o_MaxAttempts o <=? 0) || (o_MaxAttempts o <=? o_AttemptsUsed o) then deny "retry budget exhausted"
  else if negb (IsZero (o_Deadline o)) && negb (Before now (o_Deadline o)) then deny "retry deadline exceeded"
  else if o_DurableSideEffect o && bool_decide (o_Execution o <> ExecutionNone) then
    mkDecision false "durable operation with unknown or confirmed execution must not be replayed; record as ambiguous and resolve manually" true
  else if bool_decide (o_Execution o = ExecutionUnknown) || bool_decide (o_Sent o = SentUnknown) then
    mkDecision true "pre-commit ambiguous replay for a stateless request; provider may have executed the first attempt; record as ambiguous_outcome" true
  else mkDecision true "pre-commit safe replay: request was not sent or was rejected before execution" false.

Definition TimeoutBeforeSend (attemptsUsed maxAttempts : Z) : Outcome :=
  mkOutcome SentNotSent ExecutionNone false false true false attemptsUsed maxAttempts 0.
Definition TimeoutAfterSend (attemptsUsed maxAttempts : Z) (durable : bool) : Outcome :=
  mkOutcome SentUnknown ExecutionUnknown false false true durable attemptsUsed maxAttempts 0.
Definition Disconnect (attemptsUsed maxAttempts : Z) (durable : bool) : Outcome :=
  mkOutcome SentUnknown ExecutionUnknown false false true durable attemptsUsed maxAttempts 0.
Definition StatusOutcome (status attemptsUsed maxAttempts : Z) : Outcome :=
  let o := mkOutcome SentConfirmed ExecutionNone false false false false attemptsUsed maxAttempts 0 in
  if (status =? 400) || (status =? 422) then
    o <| o_Execution := ExecutionNone |> <| o_Retryable := false |>
  else if (status =? 401) || (status =? 403) || (status =? 404) then
    o <| o_Execution := ExecutionNone |> <| o_Retryable := true |>
  else if (status =? 429) || (500 <=? status) || (status =? 408) then
    o <| o_Execution := ExecutionUnknown |> <| o_Retryable := true |>
  else o <| o_Execution := ExecutionUnknown |> <| o_Retryable := false |>.
Definition PartialStream (committed : bool) (attemptsUsed maxAttempts : Z) : Outcome :=
  if committed then mkOutcome SentConfirmed ExecutionConfirmed true false true false attemptsUsed maxAttempts 0
  else mkOutcome SentConfirmed ExecutionConfirmed false false true false attemptsUsed maxAttempts 0.

(** ** Properties *)

(** The absolute bars, the budget and the deadline. *)
Definition may_retry (o : Outcome) (now : Time) : Prop :=
  o_Cancelled o = false /\ o_ResponseCommitted o = false /\ o_Retryable o = true /\
  0 < o_MaxAttempts o /\ o_AttemptsUsed o < o_MaxAttempts o /\
  (o_Deadline o = 0 \/ now < o_Deadline o).

Lemma Decide_bars o now : may_retry o now \/ Decide o now = deny (dn_Reason (Decide o now)).
Proof.
  unfold Decide, may_retry, IsZero, Before.
  destruct (o_Cancelled o); [by right|]. destruct (o_ResponseCommitted o); [by right|].
  destruct (o_Retryable o); [|by right]. cbn [negb].
  destruct (Z.leb_spec (o_MaxAttempts o) 0); [by right|]. cbn [orb].
  destruct (Z.leb_spec (o_MaxAttempts o) (o_AttemptsUsed o)); [by right|].
  destruct (Z.eqb_spec (o_Deadline o) 0), (Z.ltb_spec now (o_Deadline o)); cbn [negb andb];
    try (by right); left; split_and!; auto; lia.
Qed.

Lemma Decide_open o now : may_retry o now ->
  dn_Allow (Decide o now) = negb (o_DurableSideEffect o && bool_decide (o_Execution o <> ExecutionNone)) /\
  dn_Ambiguous (Decide o now) =
    o_DurableSideEffect o && bool_decide (o_Execution o <> ExecutionNone)
    || bool_decide (o_Execution o = ExecutionUnknown) || bool_decide (o_Sent o = SentUnknown).
Proof.
  intros (H1 & H2 & H3 & H4 & H5 & H6). unfold Decide, IsZero, Before. rewrite H1, H2, H3. cbn [negb].
  destruct (Z.leb_spec (o_MaxAttempts o) 0); [lia|]. cbn [orb].
  destruct (Z.leb_spec (o_MaxAttempts o) (o_AttemptsUsed o)); [lia|].
  assert (negb (o_Deadline o =? 0) && negb (now <? o_Deadline o) = false) as ->.
  { destruct (Z.eqb_spec (o_Deadline o) 0), (Z.ltb_spec now (o_Deadline o)); try done; lia. }
  destruct (o_DurableSideEffect o && _); [done|].
  by destruct (bool_decide (o_Execution o = ExecutionUnknown) || _) eqn:E; rewrite ?E.
Qed.

(** The retry decision is exact: a replay is allowed if and only if the
    request was neither cancelled nor committed to the client, its error class
    is retryable, attempts and time are left, and a durable operation is known
    not to have executed.  In particular no budget or class overrides a
    cancellation or a commitment, and durable work is never duplicated. *)
Theorem decide_allows_iff (o : Outcome) (now : Time) :
  dn_Allow (Decide o now) = true <->
  may_retry o now /\ (o_DurableSideEffect o = true -> o_Execution o = ExecutionNone).
Proof.
  split.
  - intros Ha. destruct (Decide_bars o now) as [Hm|E]; [|by rewrite E in Ha].
    split; [done|]. intros Hd. destruct (Decide_open o now Hm) as [E _]. rewrite E, Hd in Ha.
    destruct (decide (o_Execution o = ExecutionNone)); [done|]. by rewrite bool_decide_true in Ha.
  - intros [Hm Hd]. destruct (Decide_open o now Hm) as [-> _].
    destruct (o_DurableSideEffect o); [|done]. by rewrite bool_decide_false by (rewrite Hd by done; auto).
Qed.

(** Ambiguity is recorded whenever it is unknown what the provider did: a
    replay allowed after an attempt whose dispatch or execution is unknown is
    flagged ambiguous, and a refused durable replay is flagged too. *)
Theorem decide_flags_unknown (o : Outcome) (now : Time) :
  may_retry o now ->
  o_Execution o = ExecutionUnknown \/ o_Sent o = SentUnknown \/
    (o_DurableSideEffect o = true /\ o_Execution o = ExecutionConfirmed) ->
  dn_Ambiguous (Decide o now) = true.
Proof.
  intros Hm H. destruct (Decide_open o now Hm) as [_ ->].
  destruct H as [-> | [-> | [-> ->]]]; rewrite ?orb_true_r; try done.
Qed.

Lemma decide_flags_unknown_witness :
  dn_Ambiguous (Decide (TimeoutAfterSend 1 4 false) 100) = true /\
  dn_Ambiguous (Decide (StatusOutcome 503 1 4) 100) = true.
Proof.
  split.
  - apply (decide_flags_unknown (TimeoutAfterSend 1 4 false) 100).
    + unfold may_retry. cbn. split_and!; auto; lia.
    + by left.
  - reflexivity.
Defined.

(** An uncommitted stream failure is replayed as if nothing had run: its
    outcome says the provider produced output, yet the replay is allowed,
    not flagged ambiguous, and explained as not sent or rejected before
    execution. *)
Theorem partial_stream_replayed_as_safe (attemptsUsed maxAttempts : Z) (now : Time) :
  0 <= attemptsUsed < maxAttempts ->
  o_Execution (PartialStream false attemptsUsed maxAttempts) = ExecutionConfirmed /\
  Decide (PartialStream false attemptsUsed maxAttempts) now =
  mkDecision true "pre-commit safe replay: request was not sent or was rejected before execution" false.
Proof.
  intros H. split; [done|]. unfold Decide. cbn.
  destruct (Z.leb_spec maxAttempts 0); [lia|].
  destruct (Z.leb_spec maxAttempts attemptsUsed); [lia|done].
Qed.
Lemma partial_stream_replayed_as_safe_witness :
  0 <= 1 < 4 /\ dn_Ambiguous (Decide (PartialStream false 1 4) 100) = false.
Proof.
  split; [lia|]. destruct (partial_stream_replayed_as_safe 1 4 100) as [_ ->]; [lia|reflexivity].
Defined.

(** The policy agrees with the conformance manifest: no dialect has evidence
    for idempotency, none is granted support. *)
Lemma support_matches_manifest dialect e : ManifestEntry dialect = Some e ->
  dim_state DimIdempotency e = StateUntested /\ SupportForDialect dialect = IdempotencyNone.
Proof. intros H. split; [by apply (idempotency_untested dialect)|done]. Qed.
