(* ===== verification/Budget.v ===== *)
(** * The budget ledger ([src/internal/budget/ledger.go])

    Amounts are reserved before a request runs and settled or released when it
    ends.  All arithmetic is on [int64]; the mutex makes every method atomic,
    so a run of the ledger is a sequence of method calls. *)

From S2P Require Import Prelude.

(** ** Data *)

Inductive budget_error :=
  | ErrBudgetExceeded | ErrReservationNotFound | ErrReservationClosed | ErrInvalidLimit.

Record Limit := mkLimit { lm_Key : string; lm_Amount : Z }.
Record Reservation := mkReservation {
  rs_ID : string; rs_Key : string; rs_Reserved : Z; rs_Settled : Z; rs_Closed : bool
}.
#[export] Instance eta_Reservation : Eta Reservation := fun r =>
  mkReservation (rs_ID r) (rs_Key r) (rs_Reserved r) (rs_Settled r) (rs_Closed r).
Record Alert := mkAlert { al_Key : string; al_Threshold : Z; al_Used : Z; al_Limit : Z }.

(** [alerted[key]] holds the thresholds whose entry is [true]. *)
Record Ledger := mkLedger {
  lg_limits : gmap string Limit;
  lg_used : gmap string Z;
  lg_reserved : gmap string Z;
  lg_reservations : gmap string Reservation;
  lg_alerted : gmap string (gset Z)
}.
#[export] Instance eta_Ledger : Eta Ledger := fun r =>
  mkLedger (lg_limits r) (lg_used r) (lg_reserved r) (lg_reservations r) (lg_alerted r).

(** ** Operations *)

Fixpoint add_limits (limits : list Limit) (m : gmap string Limit) : option (gmap string Limit) :=
  match limits with
  | [] => Some m
  | l :: limits =>
      if String.eqb (lm_Key l) "" || (lm_Amount l <? 0) then None
      else add_limits limits (<[lm_Key l := l]> m)
  end.
Definition NewLedger (limits : list Limit) : budget_error + Ledger :=
  match add_limits limits ∅ with
  | None => inl ErrInvalidLimit
  | Some m => inr (mkLedger m ∅ ∅ ∅ ∅)
  end.

Definition remainingBudget (limit used reserved : Z) : Z :=
  if limit <? used then -1
  else if int64 (limit - used) <? reserved then -1
  else int64 (int64 (limit - used) - reserved).

Definition saturatingAdd (a b : Z) : Z :=
  if (0 <? b) && (int64 (max_int64 - b) <? a) then max_int64 else int64 (a + b).

Definition thresholdReached (used limit threshold : Z) : bool :=
  let q := Z.quot limit 100 in
  let r := Z.rem limit 100 in
  let need := int64 (int64 (q * threshold) + Z.quot (int64 (r * threshold)) 100) in
  let need := if negb (Z.rem (int64 (r * threshold)) 100 =? 0) then int64 (need + 1) else need in
  need <=? used.

(** One pass of the threshold loop. *)
Definition alert_step (key : string) (used limit : Z) (acc : Ledger * list Alert) (threshold : Z)
    : Ledger * list Alert :=
  let '(l, out) := acc in
  if thresholdReached used limit threshold
     && bool_decide (threshold ∉ map_get ∅ (lg_alerted l) key) then
    (l <| lg_alerted ::= insert key ({[threshold]} ∪ map_get ∅ (lg_alerted l) key) |>,
     out ++ [mkAlert key threshold used limit])
  else (l, out).
Definition alertsLocked (l : Ledger) (key : string) : Ledger * list Alert :=
  let limit := match lg_limits l !! key with Some x => lm_Amount x | None => 0 end in
  if limit <=? 0 then (l, [])
  else
    let used := map_get 0 (lg_used l) key in
    let '(l, out) := fold_left (alert_step key used limit) [50; 80; 95; 100] (l, []) in
    (l, slice_stable (fun a b => al_Threshold a <? al_Threshold b) out).

Definition Reserve (l : Ledger) (id key : string) (amount : Z) : Ledger * (budget_error + Reservation) :=
  if String.eqb id "" || String.eqb key "" || (amount <=? 0) then (l, inl ErrBudgetExceeded)
  else
    match lg_reservations l !! id with
    | Some _ => (l, inl ErrReservationClosed)
    | None =>
        match lg_limits l !! key with
        | None => (l, inl ErrBudgetExceeded)
        | Some limit =>
            if remainingBudget (lm_Amount limit) (map_get 0 (lg_used l) key) (map_get 0 (lg_reserved l) key) <? amount
            then (l, inl ErrBudgetExceeded)
            else
              let r := mkReservation id key amount 0 false in
              (l <| lg_reservations ::= insert id r |>
                 <| lg_reserved ::= insert key (int64 (map_get 0 (lg_reserved l) key + amount)) |>, inr r)
        end
    end.

Definition Settle (l : Ledger) (id : string) (actual : Z) : Ledger * (budget_error + list Alert) :=
  let actual := if actual <? 0 then 0 else actual in
  match lg_reservations l !! id with
  | None => (l, inl ErrReservationNotFound)
  | Some r =>
      if rs_Closed r then (l, inl ErrReservationClosed)
      else
        let key := rs_Key r in
        let l := l <| lg_reserved ::= insert key (int64 (map_get 0 (lg_reserved l) key - rs_Reserved r)) |>
                   <| lg_used ::= insert key (saturatingAdd (map_get 0 (lg_used l) key) actual) |>
                   <| lg_reservations ::= insert id (r <| rs_Settled := actual |> <| rs_Closed := true |>) |> in
        let '(l, alerts) := alertsLocked l key in (l, inr alerts)
  end.

Definition Release (l : Ledger) (id : string) : Ledger * option budget_error :=
  match lg_reservations l !! id with
  | None => (l, Some ErrReservationNotFound)
  | Some r =>
      if rs_Closed r then (l, Some ErrReservationClosed)
      else
        (l <| lg_reserved ::= insert (rs_Key r) (int64 (map_get 0 (lg_reserved l) (rs_Key r) - rs_Reserved r)) |>
           <| lg_reservations ::= insert id (r <| rs_Closed := true |>) |>, None)
  end.

Definition Usage (l : Ledger) (key : string) : Z * Z * bool :=
  (map_get 0 (lg_used l) key, map_get 0 (lg_reserved l) key, bool_decide (is_Some (lg_limits l !! key))).

(** ** Arithmetic *)

Lemma remainingBudget_spec limit used reserved :
  0 <= limit <= max_int64 -> 0 <= used <= max_int64 -> 0 <= reserved <= max_int64 ->
  remainingBudget limit used reserved = if limit <? used + reserved then -1 else limit - used - reserved.
Proof.
  unfold max_int64. intros Hl Hu Hr. unfold remainingBudget.
  destruct (Z.ltb_spec limit used), (Z.ltb_spec limit (used + reserved)); try lia;
    rewrite (int64_id (limit - used)) by (unfold in_int64; lia);
    (destruct (Z.ltb_spec (limit - used) reserved); try lia).
  apply int64_id. unfold in_int64. lia.
Qed.

Lemma saturatingAdd_spec a b : 0 <= a <= max_int64 -> 0 <= b <= max_int64 ->
  saturatingAdd a b = Z.min max_int64 (a + b).
Proof.
  unfold max_int64. intros Ha Hb. unfold saturatingAdd, max_int64.
  rewrite (int64_id (9223372036854775807 - b)) by (unfold in_int64; lia).
  destruct (Z.ltb_spec 0 b), (Z.ltb_spec (9223372036854775807 - b) a); cbn [andb]; try lia.
  all: rewrite int64_id by (unfold in_int64; lia); lia.
Qed.

Lemma threshold_exact used limit threshold :
  0 <= limit <= max_int64 -> 0 <= threshold <= 100 ->
  thresholdReached used limit threshold = true <-> limit * threshold <= used * 100.
Proof.
  unfold max_int64. intros Hl Ht. unfold thresholdReached. cbv zeta.
  rewrite (Z.quot_div_nonneg limit 100), (Z.rem_mod_nonneg limit 100) by lia.
  pose proof (Z.div_mod limit 100 ltac:(lia)) as Hdm. pose proof (Z.mod_pos_bound limit 100 ltac:(lia)) as Hb.
  set (q := limit / 100) in *. set (r := limit mod 100) in *.
  assert (0 <= q <= 92233720368547758) as Hq by lia.
  assert (0 <= r * threshold <= 9900) as Hrt by nia.
  assert (0 <= q * threshold <= 9223372036854775800) as Hqt by nia.
  rewrite (int64_id (r * threshold)) by (unfold in_int64; lia).
  rewrite (int64_id (q * threshold)) by (unfold in_int64; lia).
  rewrite (Z.quot_div_nonneg (r * threshold) 100), (Z.rem_mod_nonneg (r * threshold) 100) by lia.
  pose proof (Z.div_mod (r * threshold) 100 ltac:(lia)) as Hdm2.
  pose proof (Z.mod_pos_bound (r * threshold) 100 ltac:(lia)) as Hb2.
  set (d := r * threshold / 100) in *. set (m := (r * threshold) mod 100) in *.
  assert (limit * threshold = 100 * (q * threshold) + 100 * d + m) as E by nia.
  assert (limit * threshold <= 100 * limit) as Hle by nia.
  assert (0 <= d) as Hd0 by lia.
  rewrite (int64_id (q * threshold + d)) by (unfold in_int64; lia).
  destruct (Z.eqb_spec m 0); cbn [negb]; [rewrite Z.leb_le; lia|].
  rewrite (int64_id (q * threshold + d + 1)) by (unfold in_int64; lia).
  rewrite Z.leb_le. lia.
Qed.

(** ** Sums over the reservations *)

Definition map_sum (f : Reservation -> Z) (m : gmap string Reservation) : Z :=
  map_fold (fun _ r acc => f r + acc) 0 m.

Lemma map_sum_insert_None f m i x : m !! i = None -> map_sum f (<[i := x]> m) = f x + map_sum f m.
Proof. intros Hi. unfold map_sum. rewrite map_fold_insert_L; [done|intros; lia|done]. Qed.

Lemma map_sum_insert_Some f m i x y : m !! i = Some y -> map_sum f (<[i := x]> m) = map_sum f m - f y + f x.
Proof.
  intros Hi. rewrite <- (insert_id m i y Hi) at 2. rewrite <- !(insert_delete_eq m i).
  rewrite !map_sum_insert_None by apply lookup_delete_eq. lia.
Qed.

Lemma map_sum_nonneg f m : map_Forall (fun _ r => 0 <= f r) m -> 0 <= map_sum f m.
Proof.
  induction m as [|i x m Hi IH] using map_ind; intros Hall; [unfold map_sum; by rewrite map_fold_empty|].
  rewrite map_sum_insert_None by done. apply map_Forall_insert in Hall as [Hx Hm]; [|done].
  specialize (IH Hm). lia.
Qed.

(** ** The ledger invariant *)

Definition open_amount (key : string) (r : Reservation) : Z :=
  if negb (rs_Closed r) && String.eqb (rs_Key r) key then rs_Reserved r else 0.
Definition settled_amount (key : string) (r : Reservation) : Z :=
  if rs_Closed r && String.eqb (rs_Key r) key then rs_Settled r else 0.
Definition limit_of (l : Ledger) (key : string) : Z :=
  match lg_limits l !! key with Some x => lm_Amount x | None => 0 end.

Record wf_reservation (r : Reservation) : Prop := {
  wf_amount : 0 < rs_Reserved r;
  wf_settled : 0 <= rs_Settled r <= max_int64;
  wf_open : rs_Closed r = false -> rs_Settled r = 0
}.

Record wf_ledger (l : Ledger) : Prop := {
  wf_limits : forall key, 0 <= limit_of l key <= max_int64;
  wf_reservations : map_Forall (fun _ r => wf_reservation r) (lg_reservations l);
  wf_reserved : forall key, map_get 0 (lg_reserved l) key = map_sum (open_amount key) (lg_reservations l);
  wf_reserved_bound : forall key, map_get 0 (lg_reserved l) key <= limit_of l key;
  wf_used : forall key, map_get 0 (lg_used l) key =
    Z.min max_int64 (map_sum (settled_amount key) (lg_reservations l))
}.

Lemma open_nonneg l key : wf_ledger l -> 0 <= map_get 0 (lg_reserved l) key.
Proof.
  intros W. rewrite (wf_reserved l W). apply map_sum_nonneg. intros id r Hr.
  destruct (wf_reservations l W id r Hr). unfold open_amount. destruct (negb _ && _); lia.
Qed.

Lemma settled_nonneg l key : wf_ledger l -> 0 <= map_sum (settled_amount key) (lg_reservations l).
Proof.
  intros W. apply map_sum_nonneg. intros id r Hr.
  destruct (wf_reservations l W id r Hr) as [_ [? _] _]. unfold settled_amount. destruct (_ && _); lia.
Qed.

Lemma used_range l key : wf_ledger l -> 0 <= map_get 0 (lg_used l) key <= max_int64.
Proof.
  intros W. rewrite (wf_used l W). pose proof (settled_nonneg l key W). unfold max_int64. lia.
Qed.

(** *** Alerts *)

Lemma alert_step_frame key used limit acc t :
  lg_limits (fst (alert_step key used limit acc t)) = lg_limits (fst acc) /\
  lg_used (fst (alert_step key used limit acc t)) = lg_used (fst acc) /\
  lg_reserved (fst (alert_step key used limit acc t)) = lg_reserved (fst acc) /\
  lg_reservations (fst (alert_step key used limit acc t)) = lg_reservations (fst acc).
Proof. destruct acc as [l out]. unfold alert_step. by destruct (_ && _). Qed.

Lemma alert_fold_frame key used limit ts acc :
  lg_limits (fst (fold_left (alert_step key used limit) ts acc)) = lg_limits (fst acc) /\
  lg_used (fst (fold_left (alert_step key used limit) ts acc)) = lg_used (fst acc) /\
  lg_reserved (fst (fold_left (alert_step key used limit) ts acc)) = lg_reserved (fst acc) /\
  lg_reservations (fst (fold_left (alert_step key used limit) ts acc)) = lg_reservations (fst acc).
Proof.
  revert acc. induction ts as [|t ts IH]; intros acc; [done|]. cbn [fold_left].
  destruct (IH (alert_step key used limit acc t)) as (-> & -> & -> & ->). apply alert_step_frame.
Qed.

Lemma alertsLocked_frame l key :
  lg_limits (fst (alertsLocked l key)) = lg_limits l /\ lg_used (fst (alertsLocked l key)) = lg_used l /\
  lg_reserved (fst (alertsLocked l key)) = lg_reserved l /\
  lg_reservations (fst (alertsLocked l key)) = lg_reservations l.
Proof.
  unfold alertsLocked. fold (limit_of l key). destruct (limit_of l key <=? 0); [done|]. cbv zeta.
  pose proof (alert_fold_frame key (map_get 0 (lg_used l) key) (limit_of l key) [50; 80; 95; 100] (l, [])) as H.
  destruct (fold_left _ _ _) as [l' out]. exact H.
Qed.

(** What an alert asserts, and that it is new. *)
Definition alert_new (l : Ledger) (key : string) (used limit : Z) (a : Alert) : Prop :=
  al_Key a = key /\ al_Used a = used /\ al_Limit a = limit /\
  thresholdReached used limit (al_Threshold a) = true /\ al_Threshold a ∉ map_get ∅ (lg_alerted l) key.

Lemma alert_fold_spec key used limit ts l0 l out :
  NoDup (al_Threshold <$> out) ->
  (forall k, map_get ∅ (lg_alerted l) k = map_get ∅ (lg_alerted l0) k ∪
     (if String.eqb key k then list_to_set (al_Threshold <$> out) else ∅)) ->
  Forall (alert_new l0 key used limit) out ->
  let '(l', out') := fold_left (alert_step key used limit) ts (l, out) in
  NoDup (al_Threshold <$> out') /\
  (forall k, map_get ∅ (lg_alerted l') k = map_get ∅ (lg_alerted l0) k ∪
     (if String.eqb key k then list_to_set (al_Threshold <$> out') else ∅)) /\
  Forall (alert_new l0 key used limit) out'.
Proof.
  revert l out. induction ts as [|t ts IH]; intros l out Hnd Hal Hnew; [done|]. cbn [fold_left].
  unfold alert_step at 2. destruct (thresholdReached used limit t) eqn:Ht; cbn [andb]; [|by apply IH].
  case_bool_decide as Hnot; [|by apply IH].
  pose proof (Hal key) as Hk. rewrite String.eqb_refl in Hk. rewrite Hk in Hnot.
  assert (t ∉ al_Threshold <$> out) as Hfresh by (rewrite <- (elem_of_list_to_set (C := gset Z)); set_solver).
  apply IH.
  - rewrite fmap_app. apply NoDup_app. split_and!; [done| |by apply NoDup_singleton].
    intros x Hx Hx'. cbn in Hx'. apply list_elem_of_singleton in Hx' as ->. done.
  - intros k. cbn [lg_alerted update]. rewrite map_get_insert, fmap_app, list_to_set_app_L.
    destruct (String.eqb_spec key k) as [<-|Hne].
    + rewrite Hk. cbn. set_solver.
    + specialize (Hal k). rewrite (proj2 (String.eqb_neq _ _) Hne) in Hal. exact Hal.
  - apply Forall_app. split; [done|]. constructor; [|constructor].
    split_and!; try done. cbn. set_solver.
Qed.

Lemma alertsLocked_spec l key :
  let '(l', out) := alertsLocked l key in
  NoDup (al_Threshold <$> out) /\
  (forall k, map_get ∅ (lg_alerted l') k = map_get ∅ (lg_alerted l) k ∪
     (if String.eqb key k then list_to_set (al_Threshold <$> out) else ∅)) /\
  Forall (alert_new l key (map_get 0 (lg_used l) key) (limit_of l key)) out.
Proof.
  unfold alertsLocked. fold (limit_of l key).
  assert (forall k, map_get ∅ (lg_alerted l) k = map_get ∅ (lg_alerted l) k ∪
     (if String.eqb key k then list_to_set (al_Threshold <$> []) else ∅ : gset Z)) as H0.
  { intros k. destruct (String.eqb key k); set_solver. }
  destruct (limit_of l key <=? 0); [split_and!; [constructor|exact H0|constructor]|]. cbv zeta.
  pose proof (alert_fold_spec key (map_get 0 (lg_used l) key) (limit_of l key) [50; 80; 95; 100] l l []
    (NoDup_nil_2) H0 (Forall_nil_2 _)) as H.
  destruct (fold_left _ _ _) as [l' out]. destruct H as (H1 & H2 & H3).
  set (srt := slice_stable _ out).
  assert (srt ≡ₚ out) as Hp by apply slice_stable_perm.
  split_and!.
  - by rewrite Hp.
  - intros k. rewrite H2. destruct (String.eqb key k); [|done]. f_equal. apply list_to_set_perm_L. by rewrite Hp.
  - by rewrite Hp.
Qed.

(** *** Operations *)

Inductive ledger_op :=
  | OpReserve (id key : string) (amount : Z)
  | OpSettle (id : string) (actual : Z)
  | OpRelease (id : string).
(** The ledger after an operation, and the alerts it raised. *)
Definition run_ledger_op (l : Ledger) (o : ledger_op) : Ledger * list Alert :=
  match o with
  | OpReserve id key amount => (fst (Reserve l id key amount), [])
  | OpSettle id actual =>
      let '(l, r) := Settle l id actual in (l, match r with inr alerts => alerts | inl _ => [] end)
  | OpRelease id => (fst (Release l id), [])
  end.
Fixpoint run_ledger (l : Ledger) (os : list ledger_op) : Ledger * list Alert :=
  match os with
  | [] => (l, [])
  | o :: os =>
      let '(l, a) := run_ledger_op l o in
      let '(l, b) := run_ledger l os in (l, a ++ b)
  end.
Definition op_in_range (o : ledger_op) : Prop :=
  match o with OpSettle _ actual => in_int64 actual | _ => True end.

Lemma wf_same l l' : wf_ledger l -> lg_limits l' = lg_limits l -> lg_used l' = lg_used l ->
  lg_reserved l' = lg_reserved l -> lg_reservations l' = lg_reservations l -> wf_ledger l'.
Proof.
  intros [W1 W2 W3 W4 W5] E1 E2 E3 E4. unfold limit_of in *.
  constructor; unfold limit_of; rewrite ?E1, ?E2, ?E3, ?E4; done.
Qed.

Lemma Reserve_cases l id key amount : wf_ledger l ->
  let '(l', res) := Reserve l id key amount in
  match res with
  | inl _ => l' = l
  | inr r => r = mkReservation id key amount 0 false /\ 0 < amount /\ lg_reservations l !! id = None /\
      is_Some (lg_limits l !! key) /\
      map_get 0 (lg_used l) key + map_get 0 (lg_reserved l) key + amount <= limit_of l key /\
      l' = l <| lg_reservations ::= insert id r |>
             <| lg_reserved ::= insert key (map_get 0 (lg_reserved l) key + amount) |>
  end.
Proof.
  intros W. unfold Reserve. destruct (String.eqb id "" || String.eqb key ""); [done|]. cbn [orb].
  destruct (Z.leb_spec amount 0); [done|].
  destruct (lg_reservations l !! id) eqn:Hid; [done|].
  destruct (lg_limits l !! key) as [lim|] eqn:Hlim; [|done].
  assert (lm_Amount lim = limit_of l key) as Hl by (unfold limit_of; by rewrite Hlim). rewrite Hl.
  pose proof (wf_limits l W key) as Hb. pose proof (used_range l key W) as Hu.
  pose proof (open_nonneg l key W) as Hr. pose proof (wf_reserved_bound l W key) as Hrb.
  rewrite remainingBudget_spec by lia.
  destruct (Z.ltb_spec (limit_of l key) (map_get 0 (lg_used l) key + map_get 0 (lg_reserved l) key)) as [Hx|Hx].
  - destruct (Z.ltb_spec (-1) amount); [done|lia].
  - destruct (Z.ltb_spec (limit_of l key - map_get 0 (lg_used l) key - map_get 0 (lg_reserved l) key) amount); [done|].
    split_and!; [done|lia|done|eauto|lia|].
    rewrite int64_id by (unfold in_int64, max_int64 in *; lia). done.
Qed.

Lemma Reserve_wf l id key amount : wf_ledger l -> wf_ledger (fst (Reserve l id key amount)).
Proof.
  intros W. pose proof (Reserve_cases l id key amount W) as H.
  destruct (Reserve l id key amount) as [l' [e|r]]; cbn [fst]; [by subst l'|].
  destruct H as (-> & Ha & Hid & Hlim & Hle & ->).
  pose proof (used_range l key W) as Hu.
  constructor; cbn [lg_limits lg_used lg_reserved lg_reservations update]; unfold limit_of;
    cbn [lg_limits update]; fold (limit_of l).
  - apply (wf_limits l W).
  - apply map_Forall_insert_2; [constructor; cbn; unfold max_int64; lia|apply (wf_reservations l W)].
  - intros k. rewrite map_get_insert, map_sum_insert_None, <- (wf_reserved l W) by done.
    unfold open_amount at 1. cbn. destruct (String.eqb_spec key k) as [<-|]; lia.
  - intros k. rewrite map_get_insert. destruct (String.eqb_spec key k) as [<-|]; [|apply (wf_reserved_bound l W)].
    unfold limit_of in Hle. lia.
  - intros k. rewrite map_sum_insert_None, (wf_used l W) by done. unfold settled_amount at 2. cbn. lia.
Qed.

(** Closing an open reservation with [actual] settled. *)
Lemma close_wf l id r actual used' : wf_ledger l -> lg_reservations l !! id = Some r -> rs_Closed r = false ->
  0 <= actual <= max_int64 ->
  (forall k, map_get 0 used' k = Z.min max_int64 (map_get 0 (lg_used l) k + if String.eqb (rs_Key r) k then actual else 0)) ->
  wf_ledger (mkLedger (lg_limits l) used'
    (<[rs_Key r := int64 (map_get 0 (lg_reserved l) (rs_Key r) - rs_Reserved r)]> (lg_reserved l))
    (<[id := mkReservation (rs_ID r) (rs_Key r) (rs_Reserved r) actual true]> (lg_reservations l)) (lg_alerted l)).
Proof.
  intros W Hid Hcl Ha Hused'.
  destruct (wf_reservations l W id r Hid) as [Hpos _ _].
  assert (forall k, map_sum (open_amount k) (<[id := mkReservation (rs_ID r) (rs_Key r) (rs_Reserved r) actual true]> (lg_reservations l))
    = map_get 0 (lg_reserved l) k - (if String.eqb (rs_Key r) k then rs_Reserved r else 0)) as Hopen.
  { intros k. rewrite (map_sum_insert_Some _ _ _ _ r Hid), <- (wf_reserved l W). unfold open_amount. cbn.
    rewrite Hcl. cbn. lia. }
  assert (map_Forall (fun _ r => wf_reservation r)
    (<[id := mkReservation (rs_ID r) (rs_Key r) (rs_Reserved r) actual true]> (lg_reservations l))) as HR.
  { apply map_Forall_insert_2; [by constructor|apply (wf_reservations l W)]. }
  assert (0 <= map_get 0 (lg_reserved l) (rs_Key r) - rs_Reserved r) as Hnn.
  { specialize (Hopen (rs_Key r)). rewrite String.eqb_refl in Hopen. rewrite <- Hopen.
    apply map_sum_nonneg. intros i x Hx. destruct (HR i x Hx). unfold open_amount. destruct (negb _ && _); lia. }
  pose proof (wf_reserved_bound l W (rs_Key r)). pose proof (wf_limits l W (rs_Key r)).
  assert (int64 (map_get 0 (lg_reserved l) (rs_Key r) - rs_Reserved r) = map_get 0 (lg_reserved l) (rs_Key r) - rs_Reserved r) as ->.
  { apply int64_id. unfold in_int64, max_int64 in *. lia. }
  constructor; cbn [lg_limits lg_used lg_reserved lg_reservations]; unfold limit_of;
    cbn [lg_limits]; fold (limit_of l).
  - apply (wf_limits l W).
  - exact HR.
  - intros k. rewrite Hopen, map_get_insert. destruct (String.eqb_spec (rs_Key r) k) as [<-|]; lia.
  - intros k. rewrite map_get_insert. pose proof (wf_reserved_bound l W k) as Hb. unfold limit_of in Hb.
    destruct (String.eqb_spec (rs_Key r) k) as [<-|]; lia.
  - intros k. rewrite Hused', (wf_used l W), (map_sum_insert_Some _ _ _ _ r Hid).
    pose proof (settled_nonneg l k W). unfold settled_amount at 3 4. cbn. rewrite Hcl. cbn.
    destruct (String.eqb (rs_Key r) k); unfold max_int64 in *; lia.
Qed.

Lemma Release_wf l id : wf_ledger l -> wf_ledger (fst (Release l id)).
Proof.
  intros W. unfold Release. destruct (lg_reservations l !! id) as [r|] eqn:Hid; [|done].
  destruct (rs_Closed r) eqn:Hcl; [done|]. cbn [fst].
  assert (rs_Settled r = 0) as Hs by (by apply (wf_open r (wf_reservations l W id r Hid))).
  apply (close_wf l id r (rs_Settled r) (lg_used l) W Hid Hcl); rewrite Hs.
  - unfold max_int64. lia.
  - intros k. pose proof (used_range l k W). destruct (String.eqb (rs_Key r) k); lia.
Qed.

Lemma Settle_wf l id actual : wf_ledger l -> in_int64 actual -> wf_ledger (fst (Settle l id actual)).
Proof.
  intros W Ha. unfold Settle. destruct (lg_reservations l !! id) as [r|] eqn:Hid; [|done].
  destruct (rs_Closed r) eqn:Hcl; [done|]. cbv zeta.
  set (act := if actual <? 0 then 0 else actual).
  assert (0 <= act <= max_int64) as Hact.
  { unfold act, in_int64, max_int64 in *. destruct (Z.ltb_spec actual 0); lia. }
  set (l1 := l <| lg_reserved ::= _ |> <| lg_used ::= _ |> <| lg_reservations ::= _ |>).
  assert (wf_ledger l1) as W1.
  { apply (close_wf l id r act (<[rs_Key r := saturatingAdd (map_get 0 (lg_used l) (rs_Key r)) act]> (lg_used l)));
      try done.
    intros k. rewrite map_get_insert. pose proof (used_range l (rs_Key r) W). pose proof (used_range l k W).
    destruct (String.eqb_spec (rs_Key r) k) as [<-|]; [by rewrite saturatingAdd_spec|lia]. }
  destruct (alertsLocked_frame l1 (rs_Key r)) as (E1 & E2 & E3 & E4).
  destruct (alertsLocked l1 (rs_Key r)) as [l2 alerts]. cbn [fst] in *. by apply (wf_same l1).
Qed.

Lemma run_ledger_op_wf l o : wf_ledger l -> op_in_range o -> wf_ledger (fst (run_ledger_op l o)).
Proof.
  intros W Ho. destruct o as [id key amount|id actual|id]; cbn [run_ledger_op].
  - by apply Reserve_wf.
  - pose proof (Settle_wf l id actual W Ho) as H. by destruct (Settle l id actual).
  - by apply Release_wf.
Qed.

Lemma run_ledger_wf l os : wf_ledger l -> Forall op_in_range os -> wf_ledger (fst (run_ledger l os)).
Proof.
  intros W Hos. revert l W. induction Hos as [|o os Ho Hos IH]; intros l W; [done|]. cbn [run_ledger].
  pose proof (run_ledger_op_wf l o W Ho) as W1. destruct (run_ledger_op l o) as [l1 a].
  specialize (IH l1 W1). by destruct (run_ledger l1 os).
Qed.

Lemma NewLedger_wf limits l : NewLedger limits = inr l ->
  Forall (fun x => in_int64 (lm_Amount x)) limits -> wf_ledger l.
Proof.
  unfold NewLedger. intros Hn Hr.
  assert (forall m m', map_Forall (fun _ x => 0 <= lm_Amount x <= max_int64) m -> add_limits limits m = Some m' ->
    map_Forall (fun _ x => 0 <= lm_Amount x <= max_int64) m') as Hadd.
  { clear Hn. induction Hr as [|x limits Hx _ IH]; intros m m' Hm; cbn; [by intros [= <-]|].
    destruct (String.eqb (lm_Key x) ""); [done|]. cbn. destruct (Z.ltb_spec (lm_Amount x) 0); [done|].
    apply IH. apply map_Forall_insert_2; [unfold in_int64, max_int64 in *; lia|done]. }
  destruct (add_limits limits ∅) as [m|] eqn:E; [|done]. injection Hn as <-.
  specialize (Hadd ∅ m (map_Forall_empty _) E).
  assert (forall key, 0 <= limit_of (mkLedger m ∅ ∅ ∅ ∅) key <= max_int64) as Hl.
  { intros key. unfold limit_of. cbn. destruct (m !! key) as [x|] eqn:Hx; [by apply (Hadd key)|].
    unfold max_int64. lia. }
  constructor; cbn [lg_reservations lg_reserved lg_used]; [done|apply map_Forall_empty| | |];
    intros key; unfold map_get, map_sum; rewrite ?map_fold_empty, ?lookup_empty; cbn.
  - done.
  - apply Hl.
  - done.
Qed.

(** The ledger balances after any sequence of operations: what is reserved
    under a key is exactly the sum of its open reservations and never exceeds
    the limit, what is used is exactly the sum of the settled amounts pinned at
    the largest [int64], and neither is ever negative. *)
Theorem ledger_balances (limits : list Limit) (l0 : Ledger) (os : list ledger_op) (key : string) :
  NewLedger limits = inr l0 -> Forall (fun x => in_int64 (lm_Amount x)) limits -> Forall op_in_range os ->
  let l := fst (run_ledger l0 os) in
  let reserved := map_get 0 (lg_reserved l) key in
  let used := map_get 0 (lg_used l) key in
  reserved = map_sum (open_amount key) (lg_reservations l) /\ 0 <= reserved <= limit_of l key /\
  used = Z.min max_int64 (map_sum (settled_amount key) (lg_reservations l)) /\ 0 <= used.
Proof.
  intros Hn Hl Hos l reserved used.
  assert (wf_ledger l) as W by (apply run_ledger_wf; [by apply (NewLedger_wf limits)|done]).
  split_and!; [apply (wf_reserved l W)|by apply open_nonneg|apply (wf_reserved_bound l W)|apply (wf_used l W)|].
  apply (used_range l key W).
Qed.

(** Admission is exact and never overcommits: for a new reservation of a
    positive amount under a known key, [Reserve] succeeds if and only if used,
    reserved and requested amounts together stay within the limit. *)
Theorem reserve_admits_iff (l : Ledger) (id key : string) (amount : Z) :
  wf_ledger l -> id <> "" -> key <> "" -> 0 < amount -> lg_reservations l !! id = None ->
  is_Some (lg_limits l !! key) ->
  (exists l' r, Reserve l id key amount = (l', inr r)) <->
  map_get 0 (lg_used l) key + map_get 0 (lg_reserved l) key + amount <= limit_of l key.
Proof.
  intros W Hid Hkey Ha Hfresh [lim Hlim]. split.
  - intros (l' & r & Hr). pose proof (Reserve_cases l id key amount W) as H. rewrite Hr in H. tauto.
  - intros Hle. unfold Reserve.
    rewrite (proj2 (String.eqb_neq _ _) Hid), (proj2 (String.eqb_neq _ _) Hkey). cbn [orb].
    destruct (Z.leb_spec amount 0); [lia|]. rewrite Hfresh, Hlim.
    assert (lm_Amount lim = limit_of l key) as Hl by (unfold limit_of; by rewrite Hlim). rewrite Hl.
    pose proof (wf_limits l W key). pose proof (used_range l key W). pose proof (open_nonneg l key W).
    pose proof (wf_reserved_bound l W key). rewrite remainingBudget_spec by lia.
    destruct (Z.ltb_spec (limit_of l key) (map_get 0 (lg_used l) key + map_get 0 (lg_reserved l) key)); [lia|].
    destruct (Z.ltb_spec (limit_of l key - map_get 0 (lg_used l) key - map_get 0 (lg_reserved l) key) amount); [lia|].
    eauto.
Qed.

(** ** Alerts over a run *)

(** The alerts already raised according to the ledger. *)
Definition alert_id (a : Alert) : string * Z := (al_Key a, al_Threshold a).
Definition raised (l : Ledger) (p : string * Z) : Prop := snd p ∈ map_get ∅ (lg_alerted l) (fst p).

(** An operation raises distinct, justified alerts that were not raised before
    and records exactly them. *)
Definition alerts_ok (l l' : Ledger) (out : list Alert) : Prop :=
  NoDup (alert_id <$> out) /\
  (forall p, raised l' p <-> raised l p \/ p ∈ alert_id <$> out) /\
  Forall (fun a => ~ raised l (alert_id a) /\ al_Limit a * al_Threshold a <= al_Used a * 100) out.

Lemma alerts_ok_nil l l' : lg_alerted l' = lg_alerted l -> alerts_ok l l' [].
Proof.
  intros E. split_and!; [constructor| |constructor]. intros p. unfold raised. rewrite E. cbn.
  rewrite elem_of_nil. tauto.
Qed.

Lemma thresholds_in_range l key l' out : wf_ledger l -> alertsLocked l key = (l', out) ->
  Forall (fun a => 0 <= al_Threshold a <= 100) out.
Proof.
  intros W. unfold alertsLocked. fold (limit_of l key).
  destruct (limit_of l key <=? 0); [by intros [= <- <-]|]. cbv zeta.
  set (used := map_get 0 (lg_used l) key). set (lim := limit_of l key).
  assert (forall ts acc, Forall (fun t => 0 <= t <= 100) ts ->
    Forall (fun a => 0 <= al_Threshold a <= 100) (snd acc) ->
    Forall (fun a => 0 <= al_Threshold a <= 100) (snd (fold_left (alert_step key used lim) ts acc))) as H.
  { induction ts as [|t ts IH]; intros [la oa] Ht Ho; [done|]. cbn [fold_left].
    apply Forall_cons in Ht as [Ht Hts]. apply IH; [done|]. unfold alert_step. destruct (_ && _); [|done].
    cbn [snd]. apply Forall_app. split; [done|]. by constructor. }
  specialize (H [50; 80; 95; 100] (l, [])).
  destruct (fold_left _ _ _) as [l2 o2]. intros [= <- <-]. rewrite slice_stable_perm. apply H; [|constructor].
  repeat constructor; lia.
Qed.

Lemma alertsLocked_ok l key : wf_ledger l ->
  alerts_ok l (fst (alertsLocked l key)) (snd (alertsLocked l key)).
Proof.
  intros W. pose proof (alertsLocked_spec l key) as H.
  destruct (alertsLocked l key) as [l' out] eqn:E. destruct H as (H1 & H2 & H3). cbn [fst snd].
  pose proof (thresholds_in_range l key l' out W E) as H4.
  rewrite Forall_forall in H3, H4.
  assert (alert_id <$> out = pair key <$> (al_Threshold <$> out)) as Hid.
  { rewrite <- list_fmap_compose. apply list_fmap_ext. intros i a Ha. unfold alert_id. cbn.
    destruct (H3 a (list_elem_of_lookup_2 _ _ _ Ha)) as [-> _]. done. }
  split_and!.
  - rewrite Hid. apply NoDup_fmap_2; [|done]. intros x y. by intros [= ->].
  - intros [k t]. unfold raised. cbn [fst snd]. rewrite H2, Hid, elem_of_union, list_elem_of_fmap.
    destruct (String.eqb_spec key k) as [<-|Hne].
    + rewrite elem_of_list_to_set. naive_solver.
    + split; [intros [?|?]; [by left|set_solver]|]. intros [?|(t' & Heq & _)]; [by left|]. congruence.
  - apply Forall_forall. intros a Ha. destruct (H3 a Ha) as (Hk & Hu & Hl & Ht & Hn).
    split; [unfold raised, alert_id; cbn; by rewrite Hk|]. rewrite Hl, Hu.
    apply threshold_exact; [apply (wf_limits l W)|by apply H4|done].
Qed.

Lemma run_ledger_op_alerts l o : wf_ledger l -> op_in_range o ->
  alerts_ok l (fst (run_ledger_op l o)) (snd (run_ledger_op l o)).
Proof.
  intros W Ho. destruct o as [id key amount|id actual|id]; cbn [run_ledger_op fst snd].
  - apply alerts_ok_nil. pose proof (Reserve_cases l id key amount W) as H.
    destruct (Reserve l id key amount) as [l' [e|r]]; cbn [fst]; [by subst l'|].
    destruct H as (_ & _ & _ & _ & _ & ->). done.
  - pose proof (Settle_wf l id actual W Ho) as W'. unfold Settle in *.
    destruct (lg_reservations l !! id) as [r|]; [|by apply alerts_ok_nil].
    destruct (rs_Closed r); [by apply alerts_ok_nil|]. cbv zeta in *.
    set (l1 := l <| lg_reserved ::= _ |> <| lg_used ::= _ |> <| lg_reservations ::= _ |>) in *.
    assert (wf_ledger l1) as W1.
    { destruct (alertsLocked_frame l1 (rs_Key r)) as (E1 & E2 & E3 & E4).
      destruct (alertsLocked l1 (rs_Key r)) as [l2 al]. cbn [fst] in *. by apply (wf_same l2). }
    pose proof (alertsLocked_ok l1 (rs_Key r) W1) as (A1 & A2 & A3).
    destruct (alertsLocked l1 (rs_Key r)) as [l2 al]. by split_and!.
  - apply alerts_ok_nil. unfold Release. destruct (lg_reservations l !! id) as [r|]; [|done].
    by destruct (rs_Closed r).
Qed.

Lemma run_ledger_alerts l os : wf_ledger l -> Forall op_in_range os ->
  alerts_ok l (fst (run_ledger l os)) (snd (run_ledger l os)).
Proof.
  intros W Hos. revert l W. induction Hos as [|o os Ho Hos IH]; intros l W; [by apply alerts_ok_nil|].
  cbn [run_ledger].
  pose proof (run_ledger_op_wf l o W Ho) as W1. destruct (run_ledger_op_alerts l o W Ho) as (A1 & A2 & A3).
  destruct (run_ledger_op l o) as [l1 a]. cbn [fst snd] in *.
  destruct (IH l1 W1) as (B1 & B2 & B3). destruct (run_ledger l1 os) as [l2 b]. cbn [fst snd] in *.
  rewrite Forall_forall in B3. split_and!.
  - rewrite fmap_app. apply NoDup_app. split_and!; [done| |done].
    intros p Hp (x & -> & Hx)%list_elem_of_fmap. destruct (B3 x Hx) as [Hn _]. apply Hn. apply A2. by right.
  - intros p. rewrite B2, A2, fmap_app, elem_of_app. tauto.
  - apply Forall_app. split; [done|]. apply Forall_forall. intros x Hx. destruct (B3 x Hx) as [Hn Ht].
    split; [|done]. intros Hr. apply Hn, A2. by left.
Qed.

(** Budget alerts are raised at most once per key and threshold over any
    run, and only when usage has really reached that percentage of the limit,
    with the comparison exact even where the products exceed 64 bits. *)
Theorem alerts_once_and_justified (limits : list Limit) (l0 : Ledger) (os : list ledger_op) :
  NewLedger limits = inr l0 -> Forall (fun x => in_int64 (lm_Amount x)) limits -> Forall op_in_range os ->
  let alerts := snd (run_ledger l0 os) in
  NoDup (alert_id <$> alerts) /\ Forall (fun a => al_Limit a * al_Threshold a <= al_Used a * 100) alerts.
Proof.
  intros Hn Hl Hos alerts. destruct (run_ledger_alerts l0 os) as (A1 & _ & A3);
    [by apply (NewLedger_wf limits)|done|].
  split; [done|]. eapply Forall_impl; [exact A3|]. by intros a [_ ?].
Qed.

(** ** Witnesses *)

Definition sample_limits : list Limit := [mkLimit "team" 100].
Definition sample_ledger : Ledger := mkLedger {["team" := mkLimit "team" 100]} ∅ ∅ ∅ ∅.
Definition sample_ops : list ledger_op :=
  [OpReserve "a" "team" 60; OpReserve "b" "team" 60; OpSettle "a" 85; OpReserve "c" "team" 10;
   OpSettle "c" 40; OpSettle "a" 1].

Lemma sample_in_range :
  Forall (fun x => in_int64 (lm_Amount x)) sample_limits /\ Forall op_in_range sample_ops.
Proof. split; repeat constructor; unfold in_int64; cbn; lia. Qed.

Lemma ledger_balances_witness :
  map_get 0 (lg_used (fst (run_ledger sample_ledger sample_ops))) "team" = 125 /\
  map_get 0 (lg_reserved (fst (run_ledger sample_ledger sample_ops))) "team" =
    map_sum (open_amount "team") (lg_reservations (fst (run_ledger sample_ledger sample_ops))).
Proof.
  split; [vm_compute; reflexivity|].
  apply (ledger_balances sample_limits sample_ledger sample_ops "team");
    [reflexivity|apply sample_in_range|apply sample_in_range].
Defined.

Lemma sample_wf : wf_ledger sample_ledger.
Proof. apply (NewLedger_wf sample_limits); [reflexivity|apply sample_in_range]. Qed.

Lemma reserve_admits_iff_witness :
  (exists l' r, Reserve sample_ledger "a" "team" 100 = (l', inr r)) <-> 0 + 0 + 100 <= 100.
Proof.
  apply (reserve_admits_iff sample_ledger "a" "team" 100);
    [apply sample_wf|discriminate|discriminate|lia|reflexivity|by eexists].
Defined.

Lemma alerts_once_and_justified_witness :
  al_Threshold <$> snd (run_ledger sample_ledger sample_ops) = [50; 80; 95; 100] /\
  NoDup (alert_id <$> snd (run_ledger sample_ledger sample_ops)).
Proof.
  split; [vm_compute; reflexivity|].
  apply (alerts_once_and_justified sample_limits sample_ledger sample_ops);
    [reflexivity|apply sample_in_range|apply sample_in_range].
Defined.
