(* ===== verification/Router.v ===== *)
(** * Candidate selection ([src/internal/router/router.go])

    The router turns a request's [Requirement] into an ordered list of scored
    deployments.  The [health] pointer it shares with the rest of the gateway
    is a field here, since reading health can normalise an expired circuit and
    so write it.  The two clocks it reads (the health manager's and
    [time.Now]) are arguments: [clk i] is the [i]-th reading of a call, and
    readings reserved for a branch that is not taken are skipped.  A session
    table read that upgrades from the read lock to the write lock
    ([pinned]) takes a second reading. *)

From S2P Require Import Prelude Config Health Conformance Hash Pricing.

(** ** Data *)

Record Deployment := mkDeployment {
  d_ID : string;
  d_ProviderID : string;
  d_ProviderName : string;
  d_ProviderType : string;
  d_Model : string;
  d_Aliases : list string;
  d_Priority : Z;
  d_Weight : float64;
  d_ContextWindow : Z;
  d_InputCostPerMTok : float64;
  d_OutputCostPerMTok : float64;
  d_Capabilities : Capabilities;
  d_TrainsOnData : string
}.
#[export] Instance eta_Deployment : Eta Deployment := fun r =>
  mkDeployment (d_ID r) (d_ProviderID r) (d_ProviderName r) (d_ProviderType r) (d_Model r)
    (d_Aliases r) (d_Priority r) (d_Weight r) (d_ContextWindow r) (d_InputCostPerMTok r)
    (d_OutputCostPerMTok r) (d_Capabilities r) (d_TrainsOnData r).

Record ProviderLoad := mkProviderLoad {
  pl_Active : Z;
  pl_Waiting : Z;
  pl_Limit : Z;
  pl_QuotaExhausted : bool;
  pl_QuotaPressure : float64
}.
Definition zero_ProviderLoad : ProviderLoad := mkProviderLoad 0 0 0 false f_zero.

Record Requirement := mkRequirement {
  rq_Model : string;
  rq_Tools : bool; rq_Vision : bool; rq_Streaming : bool; rq_Reasoning : bool;
  rq_StructuredOutput : bool; rq_ParallelTools : bool;
  rq_ProviderType : string;
  rq_SessionKey : string;
  rq_SelectionKey : string;
  rq_ProviderLoad : gmap string ProviderLoad;
  rq_LoadForProvider : option (string -> ProviderLoad);
  rq_MinContextWindow : Z;
  rq_EstimatedInputTokens : Z;
  rq_MaxOutputTokens : Z;
  rq_RequireNoTraining : bool
}.
#[export] Instance eta_Requirement : Eta Requirement := fun r =>
  mkRequirement (rq_Model r) (rq_Tools r) (rq_Vision r) (rq_Streaming r) (rq_Reasoning r)
    (rq_StructuredOutput r) (rq_ParallelTools r) (rq_ProviderType r) (rq_SessionKey r)
    (rq_SelectionKey r) (rq_ProviderLoad r) (rq_LoadForProvider r) (rq_MinContextWindow r)
    (rq_EstimatedInputTokens r) (rq_MaxOutputTokens r) (rq_RequireNoTraining r).

Definition Scopes (r : Requirement) : list string :=
  (if rq_Tools r then ["tools"] else []) ++
  (if rq_Vision r then ["vision"] else []) ++
  (if rq_Streaming r then ["streaming"] else []) ++
  (if rq_Reasoning r then ["reasoning"] else []) ++
  (if rq_StructuredOutput r then ["structured_output"] else []) ++
  (if rq_ParallelTools r then ["parallel_tools"] else []).

Record Scored := mkScored {
  sd_Deployment : Deployment;
  sd_Health : State;
  sd_Score : float64;
  sd_CapacityPressure : float64;
  sd_EstimatedCostUSD : float64;
  sd_PriceKnown : bool;
  sd_ScoreBase : float64;
  sd_HealthAdjustment : float64;
  sd_WeightContribution : float64;
  sd_PriorityPenalty : float64;
  sd_LatencyPenalty : float64;
  sd_CapacityPenalty : float64;
  sd_FailurePenalty : float64
}.
Definition sd_ID (s : Scored) : string := d_ID (sd_Deployment s).
Definition sd_Priority (s : Scored) : Z := d_Priority (sd_Deployment s).
Definition sd_ProviderID (s : Scored) : string := d_ProviderID (sd_Deployment s).
Definition sd_Status (s : Scored) : Status := st_Status (sd_Health s).

Record sessionPin := mkSessionPin {
  sp_Deployment : string;
  sp_Expires : Time;
  sp_Turns : Z;
  sp_LastInputTokens : Z;
  sp_LastCacheReadTokens : Z
}.
#[export] Instance eta_sessionPin : Eta sessionPin := fun r =>
  mkSessionPin (sp_Deployment r) (sp_Expires r) (sp_Turns r) (sp_LastInputTokens r)
    (sp_LastCacheReadTokens r).
Definition zero_sessionPin : sessionPin := mkSessionPin "" 0 0 0 0.

Definition maxSessionPins : nat := Z.to_nat 10000.

Record Router := mkRouter {
  r_cfg : Config;
  r_health : Manager;
  r_all : list Deployment;
  r_byID : gmap string Deployment;
  r_byModel : gmap string (list Deployment);
  r_rr : Z;
  r_sessions : gmap string sessionPin
}.
#[export] Instance eta_Router : Eta Router := fun r =>
  mkRouter (r_cfg r) (r_health r) (r_all r) (r_byID r) (r_byModel r) (r_rr r) (r_sessions r).

Definition strategy (cfg : Config) : string := rc_Strategy (cfg_Routing cfg).

(** ** Building the tables *)

Definition SatisfiesNoTraining (trainsOnData : string) : bool :=
  String.eqb (ToLower (TrimSpace trainsOnData)) "no".

Definition IsReadyStrategy (s : string) : bool :=
  String.eqb s "ready_mesh" || String.eqb s "ready_queue" || String.eqb s "cost_aware".

(** One deployment, with the price book's rates when it prices it. *)
Definition build_deployment (book : Book) (bookNow : Time) (p : ProviderConfig) (m : ModelConfig)
    : Deployment :=
  let trains := ToLower (TrimSpace (dh_TrainsOnData (pc_DataHandling p))) in
  let trains := if String.eqb trains "" then "unknown" else trains in
  let w := if (mc_Weight m <=? f_zero)%f64 then f_of_int 1 else mc_Weight m in
  let d := mkDeployment (pc_ID p +:+ "/" +:+ mc_ID m) (pc_ID p) (pc_Name p) (pc_Type p) (mc_Model m)
             (mc_Aliases m) (mc_Priority m) w (mc_ContextWindow m) (mc_InputCostPerMTok m)
             (mc_OutputCostPerMTok m) (mc_Capabilities m) trains in
  match Resolve (Some book) (d_ID d) bookNow with
  | Some (entry, _) =>
      d <| d_InputCostPerMTok := InputPerMTok entry |> <| d_OutputCostPerMTok := OutputPerMTok entry |>
  | None => d
  end.

(** The enabled deployments in declaration order, each with its model ID. *)
Definition enabled_models (cfg : Config) : list (ProviderConfig * ModelConfig) :=
  flat_map (fun p => if negb (pc_Enabled p) then [] else
    map (pair p) (List.filter mc_Enabled (pc_Models p))) (cfg_Providers cfg).
Definition build_deployments (book : Book) (bookNow : Time) (cfg : Config) : list (Deployment * string) :=
  map (fun '(p, m) => (build_deployment book bookNow p m, mc_ID m)) (enabled_models cfg).

(** The non-empty keys, each at its first occurrence. *)
Fixpoint index_keys (seen : list string) (keys : list string) : list string :=
  match keys with
  | [] => []
  | key :: keys =>
      if String.eqb key "" then index_keys seen keys
      else if bool_decide (key ∈ seen) then index_keys seen keys
      else key :: index_keys (key :: seen) keys
  end.
Definition index_model (byModel : gmap string (list Deployment)) (dm : Deployment * string)
    : gmap string (list Deployment) :=
  let '(d, mid) := dm in
  fold_left (fun byModel key => <[key := map_get [] byModel key ++ [d]]> byModel)
    (index_keys [] ([d_ID d; d_Model d; mid] ++ d_Aliases d)) byModel.

Definition Reload (r : Router) (parse_time : string -> option Time) (cfg : Config)
    (bookNow now : Time) : Router :=
  let priceBook := FromConfig parse_time cfg in
  let built := build_deployments priceBook bookNow cfg in
  let all := built.*1 in
  let byID := fold_left (fun m d => <[d_ID d := d]> m) all ∅ in
  let byModel := fold_left index_model built ∅ in
  let valid : gset string := list_to_set (d_ID <$> all) in
  let r := r <| r_cfg := cfg |> <| r_all := all |> <| r_byID := byID |> <| r_byModel := byModel |> in
  if negb (rc_SessionAffinity (cfg_Routing cfg)) then r <| r_sessions := ∅ |>
  else r <| r_sessions ::= filter (fun '(_, pin) =>
         sp_Deployment pin ∈ valid /\ After now (sp_Expires pin) = false) |>.

Definition empty_Router (hm : Manager) (cfg : Config) : Router := mkRouter cfg hm [] ∅ ∅ 0 ∅.
Definition New (parse_time : string -> option Time) (cfg : Config) (hm : Manager) (bookNow now : Time)
    : Router :=
  Reload (empty_Router hm cfg) parse_time cfg bookNow now.

(** ** Eligibility *)

(** [model == "" || model == "auto" || model == "claude-auto"] *)
Definition any_model (model : string) : bool :=
  String.eqb model "" || String.eqb model "auto" || String.eqb model "claude-auto".

Definition matchesModel (d : Deployment) (model : string) : bool :=
  if any_model model then true
  else if String.eqb (d_ID d) model || String.eqb (d_Model d) model then true
  else if existsb (fun a => String.eqb a model) (d_Aliases d) then true
  else HasSuffix (d_ID d) ("/" +:+ model).

Definition healthRank (st : Status) : Z :=
  match st with Healthy => 0 | Unknown => 1 | HalfOpen => 2 | _ => 3 end.

Definition four : float64 := f_of_int 4.
Definition capacityPressure (l : ProviderLoad) : float64 :=
  if pl_QuotaExhausted l then four
  else
    let p := if 0 <? pl_Limit l
             then ((f_of_int (pl_Active l) + f_of_int 2 * f_of_int (pl_Waiting l)) / f_of_int (pl_Limit l))%f64
             else f_zero in
    let p := if (p <? f_zero)%f64 then f_zero else p in
    let p := if (p >? four)%f64 then four else p in
    let p := if (pl_QuotaPressure l >? p)%f64 then pl_QuotaPressure l else p in
    if (p >? four)%f64 then four else p.

Definition estimatedRequestCost (d : Deployment) (req : Requirement) : float64 * bool :=
  if (rq_EstimatedInputTokens req <=? 0) || (rq_MaxOutputTokens req <=? 0) then (f_zero, false)
  else if (d_InputCostPerMTok d <=? f_zero)%f64 && (d_OutputCostPerMTok d <=? f_zero)%f64
  then (f_zero, false)
  else
    let cost := ((f_of_int (rq_EstimatedInputTokens req) * d_InputCostPerMTok d
                  + f_of_int (rq_MaxOutputTokens req) * d_OutputCostPerMTok d) / million)%f64 in
    if (cost <? f_zero)%f64 then (f_zero, false) else (cost, true).

Definition load_for (req : Requirement) (provider : string) : ProviderLoad :=
  match rq_LoadForProvider req with
  | Some f => f provider
  | None => map_get zero_ProviderLoad (rq_ProviderLoad req) provider
  end.

Definition scored (d : Deployment) (hs : State) (req : Requirement) (cfg : Config) : Scored :=
  let healthAdj := match st_Status hs with
                   | Healthy => f_of_int 35
                   | Unknown => f_of_int 10
                   | HalfOpen => f_of_int (-10)
                   | Degraded => f_of_int (-20)
                   | _ => f_zero
                   end in
  let pressure := capacityPressure (load_for req (d_ProviderID d)) in
  let weightContrib := (d_Weight d * f_of_int 10)%f64 in
  let priorityPenalty := (f_of_int (d_Priority d) * f_of_int 3)%f64 in
  let latencyPenalty := (st_EWMALatencyMS hs * rc_LatencyWeight (cfg_Routing cfg))%f64 in
  let capacityPenalty := (pressure * rc_CapacityWeight (cfg_Routing cfg))%f64 in
  let failurePenalty := (st_EWMAFailureRate hs * rc_FailureWeight (cfg_Routing cfg))%f64 in
  let score := (f_of_int 100 + healthAdj + weightContrib - priorityPenalty - latencyPenalty
                - capacityPenalty - failurePenalty)%f64 in
  let '(cost, priceKnown) := estimatedRequestCost d req in
  mkScored d hs score pressure cost priceKnown (f_of_int 100) healthAdj weightContrib priorityPenalty
    latencyPenalty capacityPenalty failurePenalty.

(** The stable exclusion reasons ([explain.go]). *)
Definition ExcludeModelMismatch : string := "model_mismatch".
Definition ExcludeProviderType : string := "provider_type".
Definition ExcludePrivacyNoTraining : string := "privacy_no_training".
Definition ExcludeProviderCircuit : string := "provider_circuit_open".
Definition ExcludeContextWindow : string := "context_window_too_small".
Definition ExcludeMissingTools : string := "capability_tools_unsupported".
Definition ExcludeMissingVision : string := "capability_vision_unsupported".
Definition ExcludeMissingStreaming : string := "capability_streaming_unsupported".
Definition ExcludeMissingReasoning : string := "capability_reasoning_unsupported".
Definition ExcludeRetired : string := "retired".
Definition ExcludeNotReady : string := "health_not_ready".
Definition ExcludeCapabilityScopeNotReady : string := "capability_scope_not_ready".
Definition ExcludeConformanceStructuredOutput : string := "conformance_structured_output_unsupported".
Definition ExcludeConformanceParallelTools : string := "conformance_parallel_tools_unsupported".
Definition ExcludeConformanceReasoning : string := "conformance_reasoning_unsupported".
Definition ExcludeCooldown : string := "health_cooldown".

(** The checks that precede any health read; [None] passes. *)
Definition static_exclusion (d : Deployment) (req : Requirement) (ignoreModel : bool) : option string :=
  if negb ignoreModel && negb (matchesModel d (rq_Model req)) then Some ExcludeModelMismatch
  else if negb (String.eqb (rq_ProviderType req) "") && negb (String.eqb (d_ProviderType d) (rq_ProviderType req))
  then Some ExcludeProviderType
  else if rq_RequireNoTraining req && negb (SatisfiesNoTraining (d_TrainsOnData d))
  then Some ExcludePrivacyNoTraining
  else None.
(** [ManifestEntry(d.ProviderType)] marks the dimension [UNSUPPORTED]. *)
Definition dialect_unsupported (d : Deployment) (dim : ConformanceDimension) : bool :=
  match ManifestEntry (d_ProviderType d) with
  | Some entry => bool_decide (dim_state dim entry = StateUnsupported)
  | None => false
  end.
(** The checks between the provider circuit and the deployment's health. *)
Definition capability_exclusion (d : Deployment) (req : Requirement) : option string :=
  if (0 <? rq_MinContextWindow req) && (0 <? d_ContextWindow d)
     && (d_ContextWindow d <? rq_MinContextWindow req) then Some ExcludeContextWindow
  else if rq_Tools req && negb (cap_Tools (d_Capabilities d)) then Some ExcludeMissingTools
  else if rq_Vision req && negb (cap_Vision (d_Capabilities d)) then Some ExcludeMissingVision
  else if rq_Streaming req && negb (cap_Streaming (d_Capabilities d)) then Some ExcludeMissingStreaming
  else if rq_Reasoning req && negb (cap_Reasoning (d_Capabilities d)) then Some ExcludeMissingReasoning
  else if rq_StructuredOutput req && dialect_unsupported d DimStructuredOutput
  then Some ExcludeConformanceStructuredOutput
  else if rq_ParallelTools req && dialect_unsupported d DimParallelTools
  then Some ExcludeConformanceParallelTools
  else if rq_Reasoning req && dialect_unsupported d DimReasoning
  then Some ExcludeConformanceReasoning
  else None.
(** The checks on the health read. *)
Definition health_exclusion (cfg : Config) (hs : State) (scopesReady : bool) : option string :=
  if st_Status hs =s? Retired then Some ExcludeRetired
  else if IsReadyStrategy (strategy cfg) then
    if negb (st_Status hs =s? Healthy) then Some ExcludeNotReady
    else if String.eqb (strategy cfg) "ready_mesh" && negb scopesReady
    then Some ExcludeCapabilityScopeNotReady
    else None
  else if st_Status hs =s? Cooldown then Some ExcludeCooldown
  else None.

(** [inl reason] is an exclusion; [now] is the provider circuit's clock
    reading, [now2] the deployment's. *)
Definition evaluateDeployment (hm : Manager) (d : Deployment) (req : Requirement) (cfg : Config)
    (ignoreModel : bool) (scopes : list string) (now now2 : Time) : Manager * (string + Scored) :=
  match static_exclusion d req ignoreModel with
  | Some reason => (hm, inl reason)
  | None =>
      let '(hm, available) := ProviderAvailable hm (d_ProviderID d) now in
      if negb available then (hm, inl ExcludeProviderCircuit)
      else
        match capability_exclusion d req with
        | Some reason => (hm, inl reason)
        | None =>
            let healthScopes :=
              if String.eqb (strategy cfg) "ready_mesh" || String.eqb (strategy cfg) "cost_aware"
              then scopes else [] in
            let '(hm, (hs, scopesReady)) := GetWithScopes hm (d_ID d) healthScopes now2 in
            match health_exclusion cfg hs scopesReady with
            | Some reason => (hm, inl reason)
            | None => (hm, inr (scored d hs req cfg))
            end
        end
  end.
Definition eligibleDeployment (hm : Manager) (d : Deployment) (req : Requirement) (cfg : Config)
    (ignoreModel : bool) (scopes : list string) (now now2 : Time) : Manager * option Scored :=
  let '(hm, v) := evaluateDeployment hm d req cfg ignoreModel scopes now now2 in
  (hm, match v with inl _ => None | inr s => Some s end).

(** ** Session pins *)

Definition affinityBucket (req : Requirement) : string :=
  if String.eqb (TrimSpace (rq_SessionKey req)) "" then ""
  else
    let h := Sha256.Sum256 (bytes (rq_SessionKey req)) in
    let privacy := if rq_RequireNoTraining req then "no_training" else "any" in
    EncodeToString (take 16 h) +:+ "|" +:+ rq_Model req +:+ "|" +:+ rq_ProviderType req +:+ "|"
      +:+ Join (Scopes req) "," +:+ "|" +:+ privacy.

Definition pinned (sessions : gmap string sessionPin) (req : Requirement) (cfg : Config)
    (now now2 : Time) : gmap string sessionPin * string :=
  if negb (rc_SessionAffinity (cfg_Routing cfg)) then (sessions, "")
  else
    let key := affinityBucket req in
    if String.eqb key "" then (sessions, "")
    else
      match sessions !! key with
      | None => (sessions, "")
      | Some pin =>
          if Before now (sp_Expires pin) then (sessions, sp_Deployment pin)
          else if After now2 (sp_Expires pin) then (delete key sessions, "")
          else (sessions, sp_Deployment pin)
      end.
Definition PinnedDeploymentID (r : Router) (req : Requirement) (now now2 : Time) : Router * string :=
  let '(sessions, id) := pinned (r_sessions r) req (r_cfg r) now now2 in
  (r <| r_sessions := sessions |>, id).

(** [for k := range m { delete(m, k); break }]: [victim] is the key the map
    iteration yields first; any other value stands for some present key. *)
Definition evict_one (victim : string) (sessions : gmap string sessionPin) : gmap string sessionPin :=
  match sessions !! victim, map_to_list sessions with
  | Some _, _ => delete victim sessions
  | None, (k, _) :: _ => delete k sessions
  | None, [] => sessions
  end.

Definition ObserveSession (r : Router) (req : Requirement) (id : string) (victim : string) (now : Time)
    : Router :=
  let cfg := r_cfg r in
  if negb (rc_SessionAffinity (cfg_Routing cfg)) || String.eqb (TrimSpace (rq_SessionKey req)) ""
     || String.eqb id "" then r
  else
    let ttl := int64 (rc_SessionTTLSeconds (cfg_Routing cfg) * Second) in
    let ttl := if ttl <=? 0 then Hour else ttl in
    let key := affinityBucket req in
    let sessions := r_sessions r in
    let sessions :=
      if bool_decide (sessions !! key = None) && (maxSessionPins <=? size sessions)%nat
      then evict_one victim sessions else sessions in
    let pin := map_get zero_sessionPin sessions key in
    let pin := if negb (String.eqb (sp_Deployment pin) id)
               then zero_sessionPin <| sp_Deployment := id |> else pin in
    let pin := pin <| sp_Expires := Add now ttl |> <| sp_Turns ::= incr |> in
    r <| r_sessions := <[key := pin]> sessions |>.

Definition ObserveSessionCache (r : Router) (req : Requirement) (id : string)
    (inputTokens cacheReadTokens : Z) : Router :=
  if negb (rc_SessionAffinity (cfg_Routing (r_cfg r))) || String.eqb (TrimSpace (rq_SessionKey req)) ""
     || String.eqb id "" then r
  else
    let key := affinityBucket req in
    match r_sessions r !! key with
    | None => r
    | Some pin =>
        if negb (String.eqb (sp_Deployment pin) id) then r
        else
          let pin := if 0 <? inputTokens then pin <| sp_LastInputTokens := inputTokens |> else pin in
          let pin := if 0 <? cacheReadTokens
                     then pin <| sp_LastCacheReadTokens := cacheReadTokens |> else pin in
          r <| r_sessions ::= insert key pin |>
    end.

Definition sessionPinRecord (sessions : gmap string sessionPin) (req : Requirement) (cfg : Config)
    (now : Time) : option sessionPin :=
  if negb (rc_SessionAffinity (cfg_Routing cfg)) then None
  else
    let key := affinityBucket req in
    if String.eqb key "" then None
    else
      match sessions !! key with
      | None => None
      | Some pin => if negb (Before now (sp_Expires pin)) then None else Some pin
      end.

Definition SessionCount (r : Router) (now : Time) : Router * nat :=
  let r := r <| r_sessions ::= filter (fun '(_, p) => After now (sp_Expires p) = false) |> in
  (r, size (r_sessions r)).
