(* ===== verification/RouterOrder.v ===== *)
(** * Candidate ordering ([src/internal/router/router.go], [explain.go])

    The strategies that order an eligible candidate list in place, the two
    entry points [Candidates] and [Explain] that share them, and the lookups
    that re-check or report deployments.  A slice sorted or permuted in place
    is a list returned; the router is returned where a strategy advances the
    rotation counter or reaps an expired session pin. *)

From Stdlib Require Import Ascii.
From S2P Require Import Prelude Config Health Conformance Hash Pricing Router.

(** ** Hash-driven selection *)

Definition simulatedRotationOffset (req : Requirement) (window : nat) : nat :=
  if (window <=? 1)%nat then 0%nat
  else
    let key := if String.eqb (rq_SelectionKey req) "" then rq_SessionKey req else rq_SelectionKey req in
    if String.eqb key "" && String.eqb (rq_Model req) "" then 0%nat
    else
      let h := fnv64a_write fnv_offset64 (bytes key) in
      let h := fnv64a_write h [0] in
      let h := fnv64a_write h (bytes (rq_Model req)) in
      Z.to_nat (h mod Z.of_nat window).

Definition hashIndex (key : string) (salt : ascii) (n : nat) : nat :=
  if (n <=? 1)%nat then 0%nat
  else
    let h := fnv64a_write fnv_offset64 (bytes key) in
    let h := fnv64a_write h [byte_of salt] in
    Z.to_nat (h mod Z.of_nat n).

(** [strconv.FormatUint(z, 10)]; a [uint64] has at most 20 digits. *)
Fixpoint format_digits (fuel : nat) (z : Z) (acc : string) : string :=
  match fuel with
  | O => acc
  | S fuel =>
      let acc := String (ascii_of_N (Z.to_N (48 + z mod 10))) acc in
      if z / 10 =? 0 then acc else format_digits fuel (z / 10) acc
  end.
Definition FormatUint (z : Z) : string := format_digits 20 z "".

(** ** Comparators *)

Definition better (a b : Scored) : bool :=
  if negb (sd_Score a =? sd_Score b)%f64 then (sd_Score a >? sd_Score b)%f64
  else if negb (sd_CapacityPressure a =? sd_CapacityPressure b)%f64
  then (sd_CapacityPressure a <? sd_CapacityPressure b)%f64
  else String.ltb (sd_ID a) (sd_ID b).

Definition cost_less (a b : Scored) : bool :=
  if negb (sd_Priority a =? sd_Priority b) then sd_Priority a <? sd_Priority b
  else if negb (eqb (sd_PriceKnown a) (sd_PriceKnown b)) then sd_PriceKnown a
  else if sd_PriceKnown a && negb (sd_EstimatedCostUSD a =? sd_EstimatedCostUSD b)%f64
  then (sd_EstimatedCostUSD a <? sd_EstimatedCostUSD b)%f64
  else better a b.
Definition mesh_less (a b : Scored) : bool :=
  if negb (sd_Priority a =? sd_Priority b) then sd_Priority a <? sd_Priority b else better a b.
Definition queue_less (a b : Scored) : bool :=
  if negb (sd_Priority a =? sd_Priority b) then sd_Priority a <? sd_Priority b
  else if negb (d_Weight (sd_Deployment a) =? d_Weight (sd_Deployment b))%f64
  then (d_Weight (sd_Deployment a) >? d_Weight (sd_Deployment b))%f64
  else String.ltb (sd_ID a) (sd_ID b).

(** The comparators that rank by health first. *)
Definition rank_then (less : Scored -> Scored -> bool) (a b : Scored) : bool :=
  let ri := healthRank (sd_Status a) in
  let rj := healthRank (sd_Status b) in
  if negb (ri =? rj) then ri <? rj else less a b.
Definition score_less (a b : Scored) : bool := (sd_Score a >? sd_Score b)%f64.
Definition priority_less (a b : Scored) : bool :=
  if negb (sd_Priority a =? sd_Priority b) then sd_Priority a <? sd_Priority b else score_less a b.
Definition latency_less (a b : Scored) : bool :=
  let li := st_EWMALatencyMS (sd_Health a) in
  let lj := st_EWMALatencyMS (sd_Health b) in
  if (li =? f_zero)%f64 && negb (lj =? f_zero)%f64 then false
  else if negb (li =? f_zero)%f64 && (lj =? f_zero)%f64 then true
  else if negb (li =? lj)%f64 then (li <? lj)%f64
  else score_less a b.
Definition id_less (a b : Scored) : bool := String.ltb (sd_ID a) (sd_ID b).

(** ** In-place moves *)

(** [chosen := out[j]; copy(out[i+1:j+1], out[i:j]); out[i] = chosen]. *)
Definition move_to (i j : nat) (out : list Scored) : list Scored :=
  match out !! j with
  | Some chosen => take i out ++ [chosen] ++ drop i (take j out) ++ drop (S j) out
  | None => out
  end.
(** [out[i], out[j] = out[j], out[i]]. *)
Definition swap (i j : nat) (out : list Scored) : list Scored :=
  match out !! i, out !! j with
  | Some x, Some y => <[i := y]> (<[j := x]> out)
  | _, _ => out
  end.
(** [for i := 0; i < w; i++ { out[i] = rot[(i+off)%w] }] with [rot] a copy of
    [out[:w]]. *)
Definition rotate_window (w off : nat) (out : list Scored) : list Scored :=
  imap (fun i x => if (i <? w)%nat then default x (out !! ((i + off) mod w)%nat) else x) out.

(** The first [j] past [i] in the same priority tier with another provider. *)
Fixpoint find_pick (prev : string) (priority : Z) (l : list Scored) (j : nat) : option nat :=
  match l with
  | [] => None
  | s :: l =>
      if sd_Priority s =? priority then
        if negb (String.eqb (sd_ProviderID s) prev) then Some j
        else find_pick prev priority l (S j)
      else None
  end.
Definition diversify_at (i : nat) (out : list Scored) : list Scored :=
  match out !! i, out !! (i - 1)%nat with
  | Some x, Some prev =>
      if negb (String.eqb (sd_ProviderID x) (sd_ProviderID prev)) then out
      else
        match find_pick (sd_ProviderID prev) (sd_Priority x) (drop (S i) out) (S i) with
        | Some pick => move_to i pick out
        | None => out
        end
  | _, _ => out
  end.
Fixpoint diversify_loop (n i : nat) (out : list Scored) : list Scored :=
  match n with
  | O => out
  | S n => diversify_loop n (S i) (diversify_at i out)
  end.
Definition diversifyProviderFailover (out : list Scored) (start : nat) (attemptLimit : Z) : list Scored :=
  let start := if (start <? 1)%nat then 1%nat else start in
  let stop := length out in
  let stop := if (0 <? attemptLimit) && (attemptLimit <? Z.of_nat stop)
              then Z.to_nat attemptLimit else stop in
  diversify_loop (stop - start) start out.

(** The index of the pinned deployment in the best priority tier. *)
Definition pin_index (pin : string) (out : list Scored) : option nat :=
  match out with
  | [] => None
  | x :: _ => find_index (fun s => String.eqb (sd_ID s) pin && (sd_Priority s =? sd_Priority x)) out
  end.
(** The promotion of a live pin to the front; [None] when it does not apply. *)
Definition promote_pin (pin : string) (out : list Scored) : option (list Scored) :=
  if String.eqb pin "" then None
  else match pin_index pin out with Some i => Some (move_to 0 i out) | None => None end.

Definition orderCostAware (r : Router) (out : list Scored) (req : Requirement) (cfg : Config)
    (now now2 : Time) : Router * list Scored :=
  let out := slice_stable cost_less out in
  if (length out <? 2)%nat then (r, out)
  else
    let '(sessions, pin) := pinned (r_sessions r) req cfg now now2 in
    let r := r <| r_sessions := sessions |> in
    let out := match promote_pin pin out with Some out => out | None => out end in
    (r, diversifyProviderFailover out 1 (rc_MaxAttempts (cfg_Routing cfg))).

(** The length of the prefix of elements that satisfy [p]. *)
Fixpoint prefix_len (p : Scored -> bool) (l : list Scored) : nat :=
  match l with x :: l => if p x then S (prefix_len p l) else O | [] => O end.

(** Power of two choices in the window: the slot of the better of two hashed
    candidates. *)
Definition p2c_winner (key : string) (window : nat) (out : list Scored) : nat :=
  let a := hashIndex key "a"%char window in
  let b := hashIndex key "b"%char (window - 1) in
  let b := if (a <=? b)%nat then S b else b in
  match out !! b, out !! a with
  | Some x, Some y => if better x y then b else a
  | _, _ => a
  end.

Definition orderReadyMesh (r : Router) (out : list Scored) (req : Requirement) (cfg : Config)
    (simulated : bool) (now now2 : Time) : Router * list Scored :=
  let max := rc_MaxAttempts (cfg_Routing cfg) in
  let out := slice_stable mesh_less out in
  if (length out <? 2)%nat then (r, out)
  else
    let '(sessions, pin) := pinned (r_sessions r) req cfg now now2 in
    let r := r <| r_sessions := sessions |> in
    match promote_pin pin out with
    | Some out => (r, diversifyProviderFailover out 1 max)
    | None =>
        let p := match out with x :: _ => sd_Priority x | [] => 0 end in
        let window := S (prefix_len (fun s => sd_Priority s =? p) (tail out)) in
        let p2c := rc_P2CWindow (cfg_Routing cfg) in
        let window := if (0 <? p2c) && (p2c <? Z.of_nat window) then Z.to_nat p2c else window in
        if (window <? 2)%nat then (r, diversifyProviderFailover out 1 max)
        else
          let key := if String.eqb (rq_SelectionKey req) "" then rq_SessionKey req else rq_SelectionKey req in
          let live := String.eqb key "" && negb simulated in
          let r := if live then r <| r_rr ::= fun c => uint64 (c + 1) |> else r in
          let key := if live then FormatUint (r_rr r) else key in
          (r, diversifyProviderFailover (swap 0 (p2c_winner key window out) out) 1 max)
    end.

(** ** Strategies *)

(** The rotation offset: a hash of the requirement in a simulation, otherwise
    the next value of the shared counter. *)
Definition rotation (r : Router) (req : Requirement) (simulated : bool) (window : nat) : Router * nat :=
  if simulated then (r, simulatedRotationOffset req window)
  else
    let r := r <| r_rr ::= fun c => uint64 (c + 1) |> in
    (r, Z.to_nat (uint64 (r_rr r - 1) mod Z.of_nat window)).
Definition rotate_if (r : Router) (req : Requirement) (simulated : bool) (w : nat) (out : list Scored)
    : Router * list Scored :=
  if (1 <? w)%nat then
    let '(r, off) := rotation r req simulated w in (r, rotate_window w off out)
  else (r, out).

Definition round_robin_window (out : list Scored) : nat :=
  match out with
  | [] => 1%nat
  | x :: rest => S (prefix_len (fun s => healthRank (sd_Status s) =? healthRank (sd_Status x)) rest)
  end.
Definition adaptive_window (out : list Scored) : nat :=
  match out with
  | [] => 1%nat
  | x :: rest =>
      S (prefix_len (fun s => (sd_Score s >=? sd_Score x - f_of_int 15)%f64
           && negb (sd_Status s =s? Degraded)) (take 31 rest))
  end.

Definition applyStrategyMode (r : Router) (out : list Scored) (req : Requirement) (cfg : Config)
    (simulated : bool) (now now2 : Time) : Router * list Scored :=
  let st := strategy cfg in
  if String.eqb st "ready_mesh" then orderReadyMesh r out req cfg simulated now now2
  else if String.eqb st "cost_aware" then orderCostAware r out req cfg now now2
  else if String.eqb st "ready_queue" then (r, slice_stable queue_less out)
  else if String.eqb st "priority" then (r, slice_stable (rank_then priority_less) out)
  else if String.eqb st "least_latency" then (r, slice_stable (rank_then latency_less) out)
  else if String.eqb st "round_robin" then
    let out := slice_stable (rank_then id_less) out in
    rotate_if r req simulated (round_robin_window out) out
  else if String.eqb st "adaptive_round_robin" then
    let out := slice_stable (rank_then score_less) out in
    rotate_if r req simulated (adaptive_window out) out
  else (r, slice_stable (rank_then score_less) out).
Definition applyStrategy (r : Router) (out : list Scored) (req : Requirement) (cfg : Config)
    (now now2 : Time) : Router * list Scored :=
  applyStrategyMode r out req cfg false now now2.
Definition applyStrategySimulated (r : Router) (out : list Scored) (req : Requirement) (cfg : Config)
    (now now2 : Time) : Router * list Scored :=
  applyStrategyMode r out req cfg true now now2.

(** ** Candidates *)

(** [source] and [known] of a requirement. *)
Definition candidate_source (r : Router) (req : Requirement) : list Deployment * bool :=
  if any_model (rq_Model req) then (r_all r, true)
  else
    let source := map_get [] (r_byModel r) (rq_Model req) in
    (source, (0 <? length source)%nat).

Fixpoint build (hm : Manager) (ds : list Deployment) (req : Requirement) (cfg : Config)
    (ignore : bool) (scopes : list string) (clk : nat -> Time) : Manager * list Scored :=
  match ds with
  | [] => (hm, [])
  | d :: ds =>
      let '(hm, s) := eligibleDeployment hm d req cfg ignore scopes (clk 0%nat) (clk 1%nat) in
      let '(hm, out) := build hm ds req cfg ignore scopes (fun i => clk (2 + i)%nat) in
      (hm, match s with Some s => s :: out | None => out end)
  end.

(** The eligible candidates before ordering. *)
Definition collect (r : Router) (req : Requirement) (clk : nat -> Time) : Router * list Scored :=
  let cfg := r_cfg r in
  let '(source, known) := candidate_source r req in
  let scopes := Scopes req in
  let '(hm, out) := build (r_health r) source req cfg false scopes clk in
  let '(hm, out) :=
    if (length out =? 0)%nat && negb known && rc_FallbackOnUnknownModel (cfg_Routing cfg)
    then build hm (r_all r) req cfg true scopes (fun i => clk (2 * length source + i)%nat)
    else (hm, out) in
  (r <| r_health := hm |>, out).
(** [now] and [now2] are the readings of the session clock. *)
Definition Candidates (r : Router) (req : Requirement) (clk : nat -> Time) (now now2 : Time)
    : Router * list Scored :=
  let '(r, out) := collect r req clk in
  if (length out <=? 1)%nat then (r, out)
  else applyStrategy r out req (r_cfg r) now now2.

Definition Eligible (r : Router) (id : string) (req : Requirement) (now now2 : Time)
    : Router * option Scored :=
  let cfg := r_cfg r in
  match r_byID r !! id with
  | None => (r, None)
  | Some d =>
      let known := if any_model (rq_Model req) then true
                   else bool_decide (is_Some (r_byModel r !! rq_Model req)) in
      let ignoreModel := negb known && rc_FallbackOnUnknownModel (cfg_Routing cfg) in
      let '(hm, s) := eligibleDeployment (r_health r) d req cfg ignoreModel (Scopes req) now now2 in
      (r <| r_health := hm |>, s)
  end.
Definition Router_Deployment (r : Router) (id : string) : option Deployment := r_byID r !! id.

Definition AllLimit (r : Router) (limit : Z) : list Deployment * nat :=
  let total := length (r_all r) in
  let n := if (0 <? limit) && (limit <? Z.of_nat total) then Z.to_nat limit else total in
  (take n (r_all r), total).
Definition All (r : Router) : list Deployment := fst (AllLimit r 0).

Fixpoint count_usable (hm : Manager) (ds : list Deployment) (readyStrategy : bool) (clk : nat -> Time)
    : Manager * Z :=
  match ds with
  | [] => (hm, 0)
  | d :: ds =>
      let '(hm, available) := ProviderAvailable hm (d_ProviderID d) (clk 0%nat) in
      if negb available then count_usable hm ds readyStrategy (fun i => clk (2 + i)%nat)
      else
        let '(hm, st) := Get hm (d_ID d) (clk 1%nat) in
        let ok := if readyStrategy then st_Status st =s? Healthy else negb (st_Status st =s? Cooldown) in
        let '(hm, usable) := count_usable hm ds readyStrategy (fun i => clk (2 + i)%nat) in
        (hm, (if ok then 1 else 0) + usable)
  end.
Definition Readiness (r : Router) (strategy : string) (clk : nat -> Time) : Router * (Z * Z) :=
  let '(hm, usable) := count_usable (r_health r) (r_all r) (IsReadyStrategy strategy) clk in
  (r <| r_health := hm |>, (Z.of_nat (length (r_all r)), usable)).

(** ** Explain ([explain.go]) *)

Definition decisionLimit : nat := Z.to_nat 1000.

Record CandidateDecision := mkCandidateDecision {
  cd_DeploymentID : string;
  cd_ProviderID : string;
  cd_Model : string;
  cd_Priority : Z;
  cd_Weight : float64;
  cd_TrainsOnData : string;
  cd_Capabilities : Capabilities;
  cd_Included : bool;
  cd_ExcludedReason : string;
  cd_Score : float64;
  cd_ScoreBase : float64;
  cd_HealthAdjustment : float64;
  cd_WeightContribution : float64;
  cd_PriorityPenalty : float64;
  cd_LatencyPenalty : float64;
  cd_CapacityPenalty : float64;
  cd_FailurePenalty : float64;
  cd_HealthStatus : Status;
  cd_EWMALatencyMS : float64;
  cd_EWMAFailureRate : float64;
  cd_CapacityPressure : float64;
  cd_EstimatedCostUSD : float64;
  cd_PriceKnown : bool
}.

Definition IsRotatingStrategy (s : string) : bool :=
  String.eqb s "round_robin" || String.eqb s "adaptive_round_robin".

Record Explanation := mkExplanation {
  ex_Simulated : bool;
  ex_Deterministic : bool;
  ex_RotationPredictive : bool;
  ex_Strategy : string;
  ex_Model : string;
  ex_KnownModel : bool;
  ex_UsedUnknownModelFallback : bool;
  ex_SessionAffinityEnabled : bool;
  ex_PinnedDeployment : string;
  ex_PinnedApplied : bool;
  ex_PinnedSessionTurns : Z;
  ex_PinnedLastCacheReadTokens : Z;
  ex_PinnedCacheBenefitUSD : float64;
  ex_Candidates : list Scored;
  ex_CandidateCount : nat;
  ex_IncludedCount : nat;
  ex_Decisions : list CandidateDecision;
  ex_ConsideredCount : nat;
  ex_DecisionsTruncated : bool
}.

(** The decision of one verdict; [status] is the deployment's health status as
    read when the decision is recorded. *)
Definition decision (d : Deployment) (verdict : string + Scored) (status : Status) : CandidateDecision :=
  match verdict with
  | inr s =>
      mkCandidateDecision (d_ID d) (d_ProviderID d) (d_Model d) (d_Priority d) (d_Weight d)
        (d_TrainsOnData d) (d_Capabilities d) true "" (sd_Score s) (sd_ScoreBase s)
        (sd_HealthAdjustment s) (sd_WeightContribution s) (sd_PriorityPenalty s) (sd_LatencyPenalty s)
        (sd_CapacityPenalty s) (sd_FailurePenalty s) (sd_Status s) (st_EWMALatencyMS (sd_Health s))
        (st_EWMAFailureRate (sd_Health s)) (sd_CapacityPressure s) (sd_EstimatedCostUSD s) (sd_PriceKnown s)
  | inl reason =>
      mkCandidateDecision (d_ID d) (d_ProviderID d) (d_Model d) (d_Priority d) (d_Weight d)
        (d_TrainsOnData d) (d_Capabilities d) false reason f_zero f_zero f_zero f_zero f_zero f_zero
        f_zero f_zero status f_zero f_zero f_zero f_zero false
  end.
Definition addDecision (hm : Manager) (verdicts : gmap string CandidateDecision) (d : Deployment)
    (verdict : string + Scored) (now : Time) : Manager * gmap string CandidateDecision :=
  match verdicts !! d_ID d with
  | Some _ => (hm, verdicts)
  | None =>
      let '(hm, st) := Get hm (d_ID d) now in
      (hm, <[d_ID d := decision d verdict (st_Status st)]> verdicts)
  end.

(** Three clock readings per deployment: the funnel's two and the decision's. *)
Fixpoint build_explained (hm : Manager) (verdicts : gmap string CandidateDecision) (ds : list Deployment)
    (req : Requirement) (cfg : Config) (ignore : bool) (scopes : list string) (clk : nat -> Time)
    : Manager * gmap string CandidateDecision * list Scored :=
  match ds with
  | [] => (hm, verdicts, [])
  | d :: ds =>
      let '(hm, v) := evaluateDeployment hm d req cfg ignore scopes (clk 0%nat) (clk 1%nat) in
      let '(hm, verdicts) := addDecision hm verdicts d v (clk 2%nat) in
      let '(hm, verdicts, out) :=
        build_explained hm verdicts ds req cfg ignore scopes (fun i => clk (3 + i)%nat) in
      (hm, verdicts, match v with inr s => s :: out | inl _ => out end)
  end.

(** [PinnedSessionTurns], [PinnedLastCacheReadTokens], [PinnedCacheBenefitUSD]. *)
Definition pin_economics (parse_time : string -> option Time) (cfg : Config) (pin : option sessionPin)
    (now : Time) : Z * Z * float64 :=
  match pin with
  | None => (0, 0, f_zero)
  | Some pin =>
      let benefit :=
        if 0 <? sp_LastCacheReadTokens pin then
          let '(entry, source) := ResolveFor (Some (FromConfig parse_time cfg)) cfg (sp_Deployment pin) now in
          if negb (String.eqb source "unpriced") && (InputPerMTok entry >? CacheRead entry)%f64
          then (f_of_int (sp_LastCacheReadTokens pin) * (InputPerMTok entry - CacheRead entry) / million)%f64
          else f_zero
        else f_zero in
      (sp_Turns pin, sp_LastCacheReadTokens pin, benefit)
  end.

(** [clk] is the health clock; [tm] the readings of [time.Now], six at most:
    two for the pin, one for its record, one for its price, two for ordering. *)
Definition Explain (r : Router) (parse_time : string -> option Time) (req : Requirement)
    (clk tm : nat -> Time) : Router * Explanation :=
  let cfg := r_cfg r in
  let st := strategy cfg in
  let '(source, known) := candidate_source r req in
  let scopes := Scopes req in
  let predictive := negb (IsRotatingStrategy st) &&
    (negb (String.eqb st "ready_mesh") || negb (String.eqb (rq_SelectionKey req) "")
     || negb (String.eqb (rq_SessionKey req) "")) in
  let affinity := rc_SessionAffinity (cfg_Routing cfg) in
  let '(sessions, pin) :=
    if affinity then pinned (r_sessions r) req cfg (tm 0%nat) (tm 1%nat) else (r_sessions r, "") in
  let r := r <| r_sessions := sessions |> in
  let '(turns, lastRead, benefit) :=
    if affinity then pin_economics parse_time cfg (sessionPinRecord sessions req cfg (tm 2%nat)) (tm 3%nat)
    else (0, 0, f_zero) in
  let '(hm, verdicts, out) := build_explained (r_health r) ∅ source req cfg false scopes clk in
  let fallback := (length out =? 0)%nat && negb known && rc_FallbackOnUnknownModel (cfg_Routing cfg) in
  let '(hm, verdicts, out) :=
    if fallback
    then build_explained hm verdicts (r_all r) req cfg true scopes (fun i => clk (3 * length source + i)%nat)
    else (hm, verdicts, out) in
  let r := r <| r_health := hm |> in
  let order := if negb fallback then source else r_all r in
  let decisions := take decisionLimit (omap (fun d => verdicts !! d_ID d) order) in
  let truncated := (length decisions <? size verdicts)%nat in
  let included := length out in
  let '(r, out) := if (1 <? length out)%nat
                   then applyStrategySimulated r out req cfg (tm 4%nat) (tm 5%nat) else (r, out) in
  let applied := negb (String.eqb pin "") &&
    match out with x :: _ => String.eqb (sd_ID x) pin | [] => false end in
  (r, mkExplanation true true predictive st (rq_Model req) known fallback affinity pin applied turns
        lastRead benefit out (length out) included decisions (size verdicts) truncated).
