(* ===== verification/RouterSamples.v ===== *)
(** * A small gateway configuration

    Three deployments of two providers, all healthy, used to instantiate the
    router theorems. *)

From S2P Require Import Prelude Config Health Conformance Hash Pricing Router RouterOrder.

Definition sample_model (id : string) (priority : Z) : ModelConfig :=
  mkModelConfig id "gpt" ["fast"] true priority (f_of_int 1) 8000 (f_of_int 3) (f_of_int 15) "manual" "passed"
    (mkCapabilities true true false false).
Definition sample_routing (strategy : string) : RoutingConfig :=
  mkRoutingConfig strategy true true 60 2 3 0 3 3600 3 20 30 2 300 60000 (fbin 1 (-6)) (f_of_int 40)
    (f_of_int 10) 0 60 false 0 1 false "".
Definition sample_data (trains : string) : DataHandlingConfig := mkDataHandlingConfig trains "none" "".
Definition sample_cfg (strategy : string) : Config :=
  mkConfig
    [mkProviderConfig "p1" "One" "openai_compatible" (sample_data "No") true [sample_model "a" 1; sample_model "b" 1];
     mkProviderConfig "p2" "Two" "gemini" (sample_data "unknown") true [sample_model "a" 1]]
    (sample_routing strategy) (mkPricingConfig []) [] [] [] [].
Definition sample_health : Manager :=
  RecordSuccess (RecordSuccess (RecordSuccess (Health.New 3 Hour) "p1/a" (90 * Millisecond) 10)
    "p1/b" (20 * Millisecond) 10) "p2/a" (50 * Millisecond) 10.
Definition no_dates (s : string) : option Time := None.
Definition sample_router (strategy : string) : Router :=
  New no_dates (sample_cfg strategy) sample_health 20 20.
Definition sample_req : Requirement :=
  mkRequirement "fast" true false false false false false "" "session" "" ∅ None 4000 1000 500 false.
Definition at_30 (i : nat) : Time := 30.

(** The sample request under [ready_mesh] finds all three deployments. *)
Example sample_candidates :
  sd_ID <$> snd (Candidates (sample_router "ready_mesh") sample_req at_30 30 30) = ["p1/b"; "p2/a"; "p1/a"].
Proof. vm_compute. reflexivity. Qed.

Definition zero_Deployment : Deployment :=
  mkDeployment "" "" "" "" "" [] 0 f_zero 0 f_zero f_zero (mkCapabilities false false false false) "".
Definition zero_Scored : Scored :=
  mkScored zero_Deployment zero_State f_zero f_zero f_zero false f_zero f_zero f_zero f_zero f_zero f_zero f_zero.
Lemma hd_elem {A} (d : A) (l : list A) : l <> [] -> hd d l ∈ l.
Proof. destruct l; [done|]. by left. Qed.
