(* ===== verification/RouterLemmas.v ===== *)
(** * Lemmas on the router

    What one candidate evaluation observes: reading health may write it (an expired
    circuit is normalised), so the order of reads could matter.  It does not: at one
    instant every read answers from [view_state] and [provider_view], which no read
    at that instant changes.  [verdict] is candidate evaluation as a pure function
    of those views; [build] at one instant is a filter by it.

    Ordering: every in-place move of the ordering code is a permutation; the moves
    the ready strategies make stay within one priority tier. *)

From S2P Require Import Prelude Config Health HealthCircuit Conformance Hash Pricing Router RouterOrder.

(** ** Health views *)

Definition norm (t : Time) (s : State) : State := normalizeScopes (normalizeGlobal s t) t.
Definition view_state (m : Manager) (id : string) (t : Time) : State :=
  match mg_states m !! id with None => unknown_State id | Some s => norm t s end.
Definition provider_view (m : Manager) (p : string) (t : Time) : bool :=
  if bool_decide (p = "") then true
  else
    match mg_providers m !! p with
    | None => true
    | Some st => negb (ps_Status (normalizeProviderState st t) =s? Cooldown)
    end.
Definition same_view (t : Time) (m m' : Manager) : Prop :=
  (forall id, view_state m id t = view_state m' id t) /\
  (forall p, provider_view m p t = provider_view m' p t).

#[export] Instance same_view_equiv t : Equivalence (same_view t).
Proof.
  split.
  - intros m. split; done.
  - intros m m' [H1 H2]. split; intros; by rewrite ?H1, ?H2.
  - intros m m' m'' [H1 H2] [H3 H4]. split; intros; by rewrite ?H1, ?H2, ?H3, ?H4.
Qed.

Lemma expired_not_cooldown st until now : st <> Cooldown -> cooldown_expired st until now = false.
Proof. intros H. unfold cooldown_expired. by rewrite (proj2 (status_is_false _ _) H). Qed.

Lemma normalizeGlobal_idem s t : normalizeGlobal (normalizeGlobal s t) t = normalizeGlobal s t.
Proof.
  unfold normalizeGlobal at 2 3.
  destruct (cooldown_expired (st_Status s) (st_CooldownUntil s) t) eqn:E.
  - unfold normalizeGlobal. by rewrite expired_not_cooldown.
  - unfold normalizeGlobal. by rewrite E.
Qed.

Lemma normalize_scope_idem t sc : normalize_scope t (normalize_scope t sc) = normalize_scope t sc.
Proof.
  unfold normalize_scope at 2 3.
  destruct (cooldown_expired (sc_Status sc) (sc_CooldownUntil sc) t) eqn:E.
  - unfold normalize_scope. by rewrite expired_not_cooldown.
  - unfold normalize_scope. by rewrite E.
Qed.

Lemma normalizeGlobal_scopes s t f :
  normalizeGlobal (s <| st_Scopes ::= f |>) t = normalizeGlobal s t <| st_Scopes ::= f |>.
Proof. unfold normalizeGlobal. destruct s; cbn -[cooldown_expired]. by case_match. Qed.

Lemma norm_idem t s : norm t (norm t s) = norm t s.
Proof.
  unfold norm, normalizeScopes. rewrite normalizeGlobal_scopes, normalizeGlobal_idem.
  destruct (normalizeGlobal s t). cbn. f_equal. rewrite <- map_fmap_compose.
  apply map_fmap_ext. intros. apply normalize_scope_idem.
Qed.

Lemma norm_id t s : stateNeedsNormalization s t = false -> norm t s = s.
Proof.
  intros [Hg Hs]%needs_normalization_false. unfold norm, normalizeGlobal. rewrite Hg.
  destruct s; unfold normalizeScopes; cbn in *. f_equal.
  rewrite <- (map_fmap_id st_Scopes) at 2. apply map_fmap_ext. intros k st Hk.
  unfold normalize_scope. by rewrite (Hs k st Hk).
Qed.

Lemma GetWithScopes_view m id scopes t :
  snd (GetWithScopes m id scopes t) = (view_state m id t, scopesReadyState (view_state m id t) scopes).
Proof.
  unfold GetWithScopes, GetWithScopes_read, view_state.
  destruct (mg_states m !! id) as [s|] eqn:E.
  - destruct (stateNeedsNormalization s t) eqn:Hn; cbn [negb].
    + unfold GetWithScopes_write. by rewrite E.
    + cbn [snd]. by rewrite norm_id.
  - cbn. f_equal. symmetry. unfold scopesReadyState. apply forallb_forall. intros x _. cbn.
    by rewrite lookup_empty.
Qed.

Lemma GetWithScopes_frame m id scopes t :
  mg_providers (fst (GetWithScopes m id scopes t)) = mg_providers m /\
  forall id', view_state (fst (GetWithScopes m id scopes t)) id' t = view_state m id' t.
Proof.
  unfold GetWithScopes, GetWithScopes_read.
  destruct (mg_states m !! id) as [s|] eqn:E; [|done].
  destruct (stateNeedsNormalization s t) eqn:Hn; cbn [negb]; [|done].
  unfold GetWithScopes_write. rewrite E. split; [done|]. intros id'.
  unfold view_state, put_state. cbn [fst update mg_states].
  destruct (decide (id' = id)) as [->|Hne].
  - rewrite E. cbn. rewrite lookup_insert_eq. apply norm_idem.
  - cbn. by rewrite lookup_insert_ne.
Qed.

Lemma GetWithScopes_same m id scopes t : same_view t m (fst (GetWithScopes m id scopes t)).
Proof.
  destruct (GetWithScopes_frame m id scopes t) as [Hp Hv].
  split; intros; [by rewrite Hv|]. unfold provider_view. by rewrite Hp.
Qed.

Lemma Get_same m id t : same_view t m (fst (Get m id t)) /\ snd (Get m id t) = view_state m id t.
Proof.
  unfold Get. pose proof (GetWithScopes_same m id [] t) as Hs.
  pose proof (GetWithScopes_view m id [] t) as Hv.
  destruct (GetWithScopes m id [] t) as [m' [s b]]. cbn in *. by injection Hv as -> _.
Qed.

Lemma normalizeProviderState_idem st t :
  normalizeProviderState (normalizeProviderState st t) t = normalizeProviderState st t.
Proof.
  unfold normalizeProviderState at 2 3.
  destruct (cooldown_expired (ps_Status st) (ps_CooldownUntil st) t) eqn:E.
  - unfold normalizeProviderState. by rewrite expired_not_cooldown.
  - unfold normalizeProviderState. by rewrite E.
Qed.

Lemma ProviderAvailable_view m p t :
  snd (ProviderAvailable m p t) = provider_view m p t /\
  mg_states (fst (ProviderAvailable m p t)) = mg_states m /\
  same_view t m (fst (ProviderAvailable m p t)).
Proof.
  unfold ProviderAvailable, provider_view. case_bool_decide as Hp; [done|].
  destruct (mg_providers m !! p) as [st|] eqn:E; [|done].
  destruct (negb (ps_Status st =s? Cooldown) || IsZero (ps_CooldownUntil st)
            || Before t (ps_CooldownUntil st)) eqn:Hc.
  - split_and!; [|done|done]. cbn [snd]. unfold normalizeProviderState.
    assert (cooldown_expired (ps_Status st) (ps_CooldownUntil st) t = false) as ->; [|done].
    unfold cooldown_expired, Before, After in *. destruct (ps_Status st =s? Cooldown); [|done]. cbn in *.
    destruct (IsZero (ps_CooldownUntil st)); [done|]. cbn in *.
    apply Z.ltb_lt in Hc. destruct (Z.ltb_spec (ps_CooldownUntil st) t); [lia|done].
  - split_and!; [done|done|]. split; [done|]. intros q. unfold provider_view, put_provider. cbn.
    case_bool_decide; [done|]. destruct (decide (q = p)) as [->|Hne].
    + rewrite E, lookup_insert_eq. by rewrite normalizeProviderState_idem.
    + by rewrite lookup_insert_ne.
Qed.

(** ** Candidate evaluation as a pure function *)

(** The verdict on [d] given the provider's availability and the health view. *)
Definition pure_verdict (available : bool) (hs : State) (d : Deployment) (req : Requirement)
    (cfg : Config) (ignoreModel : bool) (scopes : list string) : string + Scored :=
  match static_exclusion d req ignoreModel with
  | Some reason => inl reason
  | None =>
      if negb available then inl ExcludeProviderCircuit
      else
        match capability_exclusion d req with
        | Some reason => inl reason
        | None =>
            let healthScopes :=
              if String.eqb (strategy cfg) "ready_mesh" || String.eqb (strategy cfg) "cost_aware"
              then scopes else [] in
            match health_exclusion cfg hs (scopesReadyState hs healthScopes) with
            | Some reason => inl reason
            | None => inr (scored d hs req cfg)
            end
        end
  end.
Definition verdict (m : Manager) (t : Time) (req : Requirement) (cfg : Config) (ignoreModel : bool)
    (scopes : list string) (d : Deployment) : string + Scored :=
  pure_verdict (provider_view m (d_ProviderID d) t) (view_state m (d_ID d) t) d req cfg ignoreModel scopes.

Definition included {A B} (v : A + B) : option B := match v with inl _ => None | inr s => Some s end.

Lemma evaluateDeployment_pure m d req cfg ig scopes t1 t2 :
  snd (evaluateDeployment m d req cfg ig scopes t1 t2) =
  pure_verdict (provider_view m (d_ProviderID d) t1) (view_state m (d_ID d) t2) d req cfg ig scopes.
Proof.
  unfold evaluateDeployment, pure_verdict.
  destruct (static_exclusion d req ig); [done|].
  destruct (ProviderAvailable_view m (d_ProviderID d) t1) as (Hp & Hs & _).
  destruct (ProviderAvailable m (d_ProviderID d) t1) as [m1 av]. cbn in Hp, Hs. subst av.
  destruct (negb _); [done|]. destruct (capability_exclusion d req); [done|].
  set (hsc := if String.eqb (strategy cfg) "ready_mesh" || String.eqb (strategy cfg) "cost_aware" then scopes else []).
  assert (view_state m (d_ID d) t2 = view_state m1 (d_ID d) t2) as -> by (unfold view_state; by rewrite Hs).
  pose proof (GetWithScopes_view m1 (d_ID d) hsc t2) as Hv.
  destruct (GetWithScopes m1 (d_ID d) hsc t2) as [m2 [hs rd]]. cbn in Hv. injection Hv as -> ->.
  by destruct (health_exclusion _ _ _).
Qed.

Lemma evaluateDeployment_same m d req cfg ig scopes t :
  same_view t m (fst (evaluateDeployment m d req cfg ig scopes t t)).
Proof.
  unfold evaluateDeployment. destruct (static_exclusion d req ig); [done|].
  destruct (ProviderAvailable_view m (d_ProviderID d) t) as (_ & _ & Hs).
  destruct (ProviderAvailable m (d_ProviderID d) t) as [m1 av]. cbn in Hs.
  destruct (negb _); [done|]. destruct (capability_exclusion d req); [done|].
  set (hsc := if String.eqb (strategy cfg) "ready_mesh" || String.eqb (strategy cfg) "cost_aware" then scopes else []). pose proof (GetWithScopes_same m1 (d_ID d) hsc t) as Hv.
  destruct (GetWithScopes m1 (d_ID d) hsc t) as [m2 [hs rd]]. cbn in Hv.
  etransitivity; [exact Hs|]. by destruct (health_exclusion _ _ _).
Qed.

Lemma verdict_same t m m' req cfg ig scopes d :
  same_view t m m' -> verdict m t req cfg ig scopes d = verdict m' t req cfg ig scopes d.
Proof. intros [H1 H2]. unfold verdict. by rewrite H1, H2. Qed.

(** At one instant [build] is a filter by the verdict. *)
Lemma build_pure m ds req cfg ig scopes t :
  snd (build m ds req cfg ig scopes (fun _ => t)) =
    omap (fun d => included (verdict m t req cfg ig scopes d)) ds /\
  same_view t m (fst (build m ds req cfg ig scopes (fun _ => t))).
Proof.
  revert m. induction ds as [|d ds IH]; intros m; [done|]. cbn [build].
  unfold eligibleDeployment.
  pose proof (evaluateDeployment_pure m d req cfg ig scopes t t) as Hv.
  pose proof (evaluateDeployment_same m d req cfg ig scopes t) as Hs.
  destruct (evaluateDeployment m d req cfg ig scopes t t) as [m1 v]. cbn in Hv, Hs.
  destruct (IH m1) as [IH1 IH2].
  destruct (build m1 ds req cfg ig scopes _) as [m2 out]. cbn in IH1, IH2 |- *.
  fold (verdict m t req cfg ig scopes d) in Hv. rewrite Hv, IH1. split; [|by transitivity m1].
  assert (omap (fun d => included (verdict m1 t req cfg ig scopes d)) ds =
          omap (fun d => included (verdict m t req cfg ig scopes d)) ds) as ->.
  { apply list_omap_ext, Forall_Forall2_diag, Forall_true. intros x. by rewrite (verdict_same t m m1). }
  by destruct (verdict m t req cfg ig scopes d).
Qed.

(** In general each verdict is taken on some intermediate view. *)
Lemma build_elem m ds req cfg ig scopes clk s :
  s ∈ snd (build m ds req cfg ig scopes clk) ->
  exists d av hs, d ∈ ds /\ pure_verdict av hs d req cfg ig scopes = inr s.
Proof.
  revert m clk. induction ds as [|d ds IH]; intros m clk; [by intros ?%elem_of_nil|]. cbn [build].
  unfold eligibleDeployment.
  pose proof (evaluateDeployment_pure m d req cfg ig scopes (clk 0%nat) (clk 1%nat)) as Hv.
  destruct (evaluateDeployment m d req cfg ig scopes _ _) as [m1 v]. cbn [snd] in Hv.
  specialize (IH m1 (fun i => clk (2 + i)%nat)).
  destruct (build m1 ds req cfg ig scopes _) as [m2 out]. cbn [snd] in *.
  assert (s ∈ out -> exists d0 av hs, d0 ∈ d :: ds /\ pure_verdict av hs d0 req cfg ig scopes = inr s) as Hout.
  { intros Hin. destruct (IH Hin) as (d0 & av & hs & ? & ?). exists d0, av, hs. split; [by right|done]. }
  destruct v as [reason|s0]; cbn; [exact Hout|].
  intros [->|Hin]%elem_of_cons; [|by apply Hout].
  eexists d, _, _. split; [by left|]. exact (eq_sym Hv).
Qed.

Section moves.
Implicit Types out : list Scored.

(** [move_to i j] takes the element at [j] out and puts it back at [i]. *)
Lemma move_to_split i j out c : (i <= j)%nat -> out !! j = Some c ->
  exists A B C, out = A ++ B ++ c :: C /\ length A = i /\ (length A + length B)%nat = j /\
    move_to i j out = A ++ c :: B ++ C.
Proof.
  intros Hij Hj. pose proof (lookup_lt_Some _ _ _ Hj) as Hlt.
  exists (take i out), (drop i (take j out)), (drop (S j) out).
  assert (take i out = take i (take j out)) as Ht by (rewrite take_take; f_equal; lia).
  split_and!.
  - rewrite Ht, app_assoc, take_drop. by rewrite take_drop_middle.
  - rewrite length_take. lia.
  - rewrite length_drop, !length_take. lia.
  - unfold move_to. by rewrite Hj.
Qed.

Lemma move_to_perm i j out : (i <= j)%nat -> move_to i j out ≡ₚ out.
Proof.
  intros Hij. destruct (out !! j) as [c|] eqn:Hj; [|unfold move_to; by rewrite Hj].
  destruct (move_to_split i j out c Hij Hj) as (A & B & C & Hout & _ & _ & ->).
  rewrite Hout. apply Permutation_app_head. by rewrite (Permutation_middle B C c).
Qed.

(** A move within a run of elements with the same key keeps the key sequence. *)
Lemma move_to_keys {K} (key : Scored -> K) i j out k : (i <= j)%nat ->
  (forall n s, (i <= n <= j)%nat -> out !! n = Some s -> key s = k) ->
  key <$> move_to i j out = key <$> out.
Proof.
  intros Hij Hk. destruct (out !! j) as [c|] eqn:Hj; [|unfold move_to; by rewrite Hj].
  destruct (move_to_split i j out c Hij Hj) as (A & B & C & Hout & HA & HB & ->).
  assert (key c = k) as Hc by (apply (Hk j c); [lia|done]).
  assert (key <$> B = replicate (length B) k) as HBk.
  { apply list_eq_same_length with (length B); [by rewrite length_replicate|by rewrite length_fmap|].
    intros n x y Hn. rewrite list_lookup_fmap, lookup_replicate.
    intros (s & Hs & ->)%fmap_Some [-> _]. apply (Hk (i + n)%nat); [lia|].
    rewrite Hout, lookup_app_r by lia. rewrite lookup_app_l by lia. by rewrite HA, Nat.add_comm, Nat.add_sub. }
  rewrite Hout. rewrite !fmap_app, !fmap_cons, !fmap_app, HBk, Hc. f_equal.
  rewrite app_comm_cons, <- replicate_S, replicate_S_end. by rewrite <- app_assoc.
Qed.

Lemma swap_perm i j out : swap i j out ≡ₚ out.
Proof.
  unfold swap. destruct (out !! i) as [x|] eqn:Hi; [|done].
  destruct (out !! j) as [y|] eqn:Hj; [|done]. by apply Permutation_insert_swap.
Qed.

Lemma swap_keys {K} (key : Scored -> K) i j out :
  (forall x y, out !! i = Some x -> out !! j = Some y -> key x = key y) ->
  key <$> swap i j out = key <$> out.
Proof.
  intros Hk. unfold swap. destruct (out !! i) as [x|] eqn:Hi; [|done].
  destruct (out !! j) as [y|] eqn:Hj; [|done]. specialize (Hk x y eq_refl eq_refl).
  rewrite !list_fmap_insert. rewrite Hk at 1. rewrite (list_insert_id (_ <$> out) j).
  - rewrite list_insert_id; [done|]. rewrite list_lookup_fmap, Hi. cbn. by rewrite Hk.
  - by rewrite list_lookup_fmap, Hj.
Qed.

Lemma rotate_window_spec w off out : (0 < w <= length out)%nat ->
  rotate_window w off out = rotate off (take w out) ++ drop w out.
Proof.
  intros Hw. assert (length (take w out) = w) as Hl by (rewrite length_take; lia).
  apply list_eq. intros i. unfold rotate_window. rewrite list_lookup_imap.
  destruct (Nat.ltb_spec i w) as [Hi|Hi].
  - rewrite lookup_app_l by (rewrite length_rotate; lia).
    rewrite lookup_rotate_r by lia. rewrite Hl. unfold rotate_nat_add.
    rewrite <- Nat2Z.inj_add, <- Nat2Z.inj_mod, Nat2Z.id. rewrite (Nat.add_comm off i).
    pose proof (Nat.mod_upper_bound (i + off) w). rewrite lookup_take_lt by lia.
    destruct (out !! i) as [x|] eqn:Ex; [|apply lookup_ge_None in Ex; lia].
    destruct (out !! ((i + off) mod w)%nat) as [y|] eqn:E; [|apply lookup_ge_None in E; lia].
    cbn. destruct (Nat.ltb_spec i w); [done|lia].
  - rewrite lookup_app_r by (rewrite length_rotate; lia). rewrite length_rotate, lookup_drop, Hl.
    replace (w + (i - w))%nat with i by lia. destruct (out !! i) as [x|]; [|done]. cbn.
    by destruct (Nat.ltb_spec i w); [lia|].
Qed.

Lemma rotate_perm n out : rotate n out ≡ₚ out.
Proof. unfold rotate. rewrite Permutation_app_comm. by rewrite take_drop. Qed.

Lemma rotate_window_perm w off out : (0 < w <= length out)%nat -> rotate_window w off out ≡ₚ out.
Proof. intros Hw. rewrite rotate_window_spec by done. by rewrite rotate_perm, take_drop. Qed.

Lemma prefix_len_le p out : (prefix_len p out <= length out)%nat.
Proof. induction out as [|x out IH]; cbn; [done|]. destruct (p x); lia. Qed.

Lemma prefix_len_lookup p out n s : (n < prefix_len p out)%nat -> out !! n = Some s -> p s = true.
Proof.
  revert n. induction out as [|x out IH]; intros n; [done|]. cbn. destruct (p x) eqn:E; [|lia].
  destruct n as [|n]; cbn; [intros _ [= <-]; done|]. intros. apply (IH n); [lia|done].
Qed.

(** ** Provider diversification *)

Lemma find_pick_spec prev prio l j : forall pick, find_pick prev prio l j = Some pick ->
  (j <= pick)%nat /\ (exists s, l !! (pick - j)%nat = Some s /\ sd_ProviderID s <> prev) /\
  forall n s, (n <= pick - j)%nat -> l !! n = Some s -> sd_Priority s = prio.
Proof.
  revert j. induction l as [|x l IH]; intros j pick; cbn [find_pick]; [done|].
  destruct (Z.eqb_spec (sd_Priority x) prio) as [Hp|]; [|done].
  destruct (String.eqb_spec (sd_ProviderID x) prev) as [He|Hne]; cbn [negb].
  - intros (Hj & (s & Hs & Hd) & Hall)%IH. split; [lia|]. split.
    + exists s. replace (pick - j)%nat with (S (pick - S j)) by lia. done.
    + intros [|n] s' Hn; cbn; [intros [= <-]; done|]. apply Hall. lia.
  - intros [= <-]. rewrite Nat.sub_diag. split; [done|]. split; [by exists x|].
    intros [|n] s' Hn; [|lia]. intros [= <-]. done.
Qed.

Lemma diversify_at_cases i out :
  diversify_at i out = out \/
  exists pick x, (i < pick)%nat /\ out !! i = Some x /\ diversify_at i out = move_to i pick out /\
    forall n s, (i <= n <= pick)%nat -> out !! n = Some s -> sd_Priority s = sd_Priority x.
Proof.
  unfold diversify_at. destruct (out !! i) as [x|] eqn:Hx; [|by left].
  destruct (out !! (i - 1)%nat) as [p|]; [|by left].
  destruct (negb _); [by left|].
  destruct (find_pick _ _ _ _) as [pick|] eqn:Hp; [|by left].
  apply find_pick_spec in Hp as (Hle & _ & Hall). right. exists pick, x.
  split_and!; [lia|done|done|]. intros n s Hn Hs. destruct (decide (n = i)) as [->|]; [congruence|].
  apply (Hall (n - S i)%nat); [lia|]. rewrite lookup_drop. by replace (S i + (n - S i))%nat with n by lia.
Qed.

Lemma diversify_at_perm i out : diversify_at i out ≡ₚ out.
Proof.
  destruct (diversify_at_cases i out) as [->|(pick & x & ? & ? & -> & _)]; [done|].
  apply move_to_perm. lia.
Qed.

Lemma diversify_at_priority i out : sd_Priority <$> diversify_at i out = sd_Priority <$> out.
Proof.
  destruct (diversify_at_cases i out) as [->|(pick & x & ? & ? & -> & Hall)]; [done|].
  apply (move_to_keys _ _ _ _ (sd_Priority x)); [lia|done].
Qed.

Lemma diversify_at_take i k out : (k <= i)%nat -> take k (diversify_at i out) = take k out.
Proof.
  intros Hk. destruct (diversify_at_cases i out) as [->|(pick & x & Hlt & Hx & -> & _)]; [done|].
  destruct (out !! pick) as [c|] eqn:Hc; [|unfold move_to; by rewrite Hc].
  destruct (move_to_split i pick out c) as (A & B & C & Hout & HA & _ & ->); [lia|done|].
  rewrite Hout, !take_app_le by lia. done.
Qed.

Lemma diversify_loop_perm n i out : diversify_loop n i out ≡ₚ out.
Proof.
  revert i out. induction n as [|n IH]; intros i out; cbn; [done|]. by rewrite IH, diversify_at_perm.
Qed.

Lemma diversify_loop_priority n i out : sd_Priority <$> diversify_loop n i out = sd_Priority <$> out.
Proof.
  revert i out. induction n as [|n IH]; intros i out; cbn; [done|]. by rewrite IH, diversify_at_priority.
Qed.

Lemma diversify_loop_take n i k out : (k <= i)%nat -> take k (diversify_loop n i out) = take k out.
Proof.
  revert i out. induction n as [|n IH]; intros i out Hk; cbn; [done|].
  rewrite IH by lia. by apply diversify_at_take.
Qed.

Lemma diversify_perm out start limit : diversifyProviderFailover out start limit ≡ₚ out.
Proof. apply diversify_loop_perm. Qed.
Lemma diversify_priority out start limit :
  sd_Priority <$> diversifyProviderFailover out start limit = sd_Priority <$> out.
Proof. apply diversify_loop_priority. Qed.
Lemma diversify_head out start limit : head (diversifyProviderFailover out start limit) = head out.
Proof.
  assert (forall l : list Scored, head l = head (take 1 l)) as Hh by by intros [].
  rewrite Hh, (Hh out). f_equal. apply diversify_loop_take. by destruct (Nat.ltb_spec start 1); lia.
Qed.

(** ** Sorted by priority *)

Lemma sorted_by_priority less out :
  (forall x y, sd_Priority x <> sd_Priority y -> less x y = (sd_Priority x <? sd_Priority y)) ->
  StronglySorted (fun x y => sd_Priority x <= sd_Priority y) (slice_stable less out).
Proof.
  intros Hless. apply (slice_stable_sorted less (fun _ => True)).
  - intros x y _ _ H. destruct (decide (sd_Priority x = sd_Priority y)); [lia|].
    rewrite Hless in H by done. by apply Z.ltb_lt in H; lia.
  - intros x y _ _ H. destruct (decide (sd_Priority x = sd_Priority y)); [lia|].
    rewrite Hless in H by done. apply Z.ltb_ge in H. lia.
  - intros; lia.
  - by apply Forall_true.
Qed.

Definition tiers_ordered (out : list Scored) : Prop := StronglySorted Z.le (sd_Priority <$> out).

Lemma tiers_ordered_sorted out :
  StronglySorted (fun x y => sd_Priority x <= sd_Priority y) out -> tiers_ordered out.
Proof. apply StronglySorted_fmap. by intros. Qed.
End moves.
