(* ===== verification/RouterProofs.v ===== *)
(** * Router properties

    What candidate selection promises the request path: eligibility and
    privacy of every candidate, orderings that neither lose nor invent
    candidates and respect priority tiers, authoritative session pins, fair
    rotation, faithful explanations, and bounded session state. *)

From Stdlib Require Import Ascii.
From S2P Require Import Prelude Config Health HealthCircuit Conformance Hash Pricing Router RouterOrder RouterSamples RouterLemmas.

(** ** Ordering is a permutation *)

Lemma pin_index_lt pin out i : pin_index pin out = Some i ->
  exists x y, head out = Some x /\ out !! i = Some y /\ sd_ID y = pin /\ sd_Priority y = sd_Priority x.
Proof.
  unfold pin_index. destruct out as [|x out]; [done|].
  intros (y & Hy & H)%find_index_Some. apply andb_true_iff in H as [He%String.eqb_eq Hp%Z.eqb_eq].
  by exists x, y.
Qed.

Lemma promote_pin_perm pin out out' : promote_pin pin out = Some out' -> out' ≡ₚ out.
Proof.
  unfold promote_pin. destruct (String.eqb pin ""); [done|].
  destruct (pin_index pin out); [|done]. intros [= <-]. apply move_to_perm. lia.
Qed.

Lemma round_robin_window_le out : (out <> []) -> (0 < round_robin_window out <= length out)%nat.
Proof.
  destruct out as [|x out]; [done|]. intros _. cbn.
  pose proof (prefix_len_le (fun s => healthRank (sd_Status s) =? healthRank (sd_Status x)) out). lia.
Qed.

Lemma adaptive_window_le out : (out <> []) -> (0 < adaptive_window out <= length out)%nat.
Proof.
  destruct out as [|x out]; [done|]. intros _. unfold adaptive_window.
  pose proof (prefix_len_le (fun s => (sd_Score s >=? sd_Score x - f_of_int 15)%f64
    && negb (sd_Status s =s? Degraded)) (take 31 out)) as H.
  rewrite length_take in H. cbn [length]. lia.
Qed.

Lemma rotate_if_perm r req sim w out : (0 < w <= length out)%nat -> snd (rotate_if r req sim w out) ≡ₚ out.
Proof.
  intros Hw. unfold rotate_if. destruct (1 <? w)%nat; [|done].
  destruct (rotation r req sim w) as [r' off]. cbn. by apply rotate_window_perm.
Qed.

Lemma orderReadyMesh_perm r out req cfg sim now now2 :
  snd (orderReadyMesh r out req cfg sim now now2) ≡ₚ out.
Proof.
  unfold orderReadyMesh. pose proof (slice_stable_perm mesh_less out) as Hp.
  revert Hp. generalize (slice_stable mesh_less out). intros o Hp.
  destruct (length o <? 2)%nat; [done|].
  destruct (pinned _ _ _ _ _) as [ss pin].
  destruct (promote_pin pin o) as [o'|] eqn:Ho.
  - cbn. by rewrite diversify_perm, (promote_pin_perm _ _ _ Ho).
  - cbv zeta. destruct (_ <? 2)%nat; cbn [snd]; by rewrite diversify_perm, ?swap_perm.
Qed.

Lemma orderCostAware_perm r out req cfg now now2 :
  snd (orderCostAware r out req cfg now now2) ≡ₚ out.
Proof.
  unfold orderCostAware. pose proof (slice_stable_perm cost_less out) as Hp.
  revert Hp. generalize (slice_stable cost_less out). intros o Hp.
  destruct (length o <? 2)%nat; [done|].
  destruct (pinned _ _ _ _ _) as [ss pin]. cbn [snd]. rewrite diversify_perm.
  destruct (promote_pin pin o) as [o'|] eqn:Ho; [|done]. by rewrite (promote_pin_perm _ _ _ Ho).
Qed.

Lemma slice_stable_nonempty {A} less (l : list A) : l <> [] -> slice_stable less l <> [].
Proof.
  intros Hl Hn. pose proof (slice_stable_perm less l) as H. rewrite Hn in H.
  by apply Permutation_nil in H.
Qed.

Lemma applyStrategyMode_perm r out req cfg sim now now2 : out <> [] ->
  snd (applyStrategyMode r out req cfg sim now now2) ≡ₚ out.
Proof.
  intros Hne. unfold applyStrategyMode.
  repeat match goal with |- context [String.eqb (strategy cfg) ?s] => destruct (String.eqb (strategy cfg) s) end.
  all: cbn [snd]; rewrite ?slice_stable_perm; try done.
  - apply orderReadyMesh_perm.
  - apply orderCostAware_perm.
  - rewrite rotate_if_perm; [apply slice_stable_perm|].
    apply round_robin_window_le. by apply slice_stable_nonempty.
  - rewrite rotate_if_perm; [apply slice_stable_perm|].
    apply adaptive_window_le. by apply slice_stable_nonempty.
Qed.

Lemma Candidates_perm r req clk now now2 :
  snd (Candidates r req clk now now2) ≡ₚ snd (collect r req clk).
Proof.
  unfold Candidates. destruct (collect r req clk) as [r' out].
  destruct (Nat.leb_spec (length out) 1); [done|]. apply applyStrategyMode_perm. destruct out; [cbn in *; lia|done].
Qed.

(** Ordering is a permutation: whatever the strategy, live or simulated,
    the ordered list holds exactly the eligible candidates, each as often as it
    was found eligible; no candidate is lost, duplicated or invented. *)
Theorem ordering_permutes (r : Router) (out : list Scored) (req : Requirement) (cfg : Config)
    (sim : bool) (clk : nat -> Time) (now now2 : Time) :
  (out <> [] -> snd (applyStrategyMode r out req cfg sim now now2) ≡ₚ out) /\
  snd (Candidates r req clk now now2) ≡ₚ snd (collect r req clk).
Proof. split; [apply applyStrategyMode_perm | apply Candidates_perm]. Qed.

(** ** Eligibility *)

(** What evaluation demands of a candidate. *)
Record admissible (cfg : Config) (req : Requirement) (ignoreModel : bool) (s : Scored) : Prop := {
  adm_model : ignoreModel = false -> matchesModel (sd_Deployment s) (rq_Model req) = true;
  adm_provider_type : rq_ProviderType req <> "" -> d_ProviderType (sd_Deployment s) = rq_ProviderType req;
  adm_privacy : rq_RequireNoTraining req = true -> SatisfiesNoTraining (d_TrainsOnData (sd_Deployment s)) = true;
  adm_context : 0 < d_ContextWindow (sd_Deployment s) ->
    rq_MinContextWindow req <= d_ContextWindow (sd_Deployment s) \/ rq_MinContextWindow req <= 0;
  adm_tools : rq_Tools req = true -> cap_Tools (d_Capabilities (sd_Deployment s)) = true;
  adm_vision : rq_Vision req = true -> cap_Vision (d_Capabilities (sd_Deployment s)) = true;
  adm_streaming : rq_Streaming req = true -> cap_Streaming (d_Capabilities (sd_Deployment s)) = true;
  adm_reasoning : rq_Reasoning req = true -> cap_Reasoning (d_Capabilities (sd_Deployment s)) = true;
  adm_dialect : forall dim,
    (dim = DimStructuredOutput /\ rq_StructuredOutput req = true) \/
    (dim = DimParallelTools /\ rq_ParallelTools req = true) \/
    (dim = DimReasoning /\ rq_Reasoning req = true) ->
    dialect_unsupported (sd_Deployment s) dim = false;
  adm_not_retired : sd_Status s <> Retired;
  adm_ready : IsReadyStrategy (strategy cfg) = true -> sd_Status s = Healthy;
  adm_not_cooling : IsReadyStrategy (strategy cfg) = false -> sd_Status s <> Cooldown;
  adm_scopes : strategy cfg = "ready_mesh" -> scopesReadyState (sd_Health s) (Scopes req) = true
}.

Lemma scored_deployment d hs req cfg :
  sd_Deployment (scored d hs req cfg) = d /\ sd_Health (scored d hs req cfg) = hs.
Proof. unfold scored. by destruct (estimatedRequestCost d req). Qed.

Lemma pure_verdict_scored av hs d req cfg ig scopes s :
  pure_verdict av hs d req cfg ig scopes = inr s -> s = scored d hs req cfg.
Proof.
  unfold pure_verdict. destruct (static_exclusion d req ig); [done|].
  destruct (negb av); [done|]. destruct (capability_exclusion d req); [done|]. cbv zeta.
  destruct (health_exclusion _ _ _); [done|]. by intros [= <-].
Qed.

(** Splits a chain of guarded exclusions that ended in [None]. *)
Ltac guards H :=
  repeat match type of H with
    | (if ?b then Some _ else _) = None => destruct b eqn:?; [discriminate H|]
    end.

Lemma pure_verdict_admissible av hs d req cfg ig s :
  pure_verdict av hs d req cfg ig (Scopes req) = inr s -> admissible cfg req ig s.
Proof.
  unfold pure_verdict. destruct (static_exclusion d req ig) eqn:Hst; [done|].
  destruct (negb av); [done|]. destruct (capability_exclusion d req) eqn:Hcap; [done|].
  destruct (health_exclusion _ _ _) eqn:Hh; [done|]. intros [= <-].
  destruct (scored_deployment d hs req cfg) as [Hd Hhs].
  unfold static_exclusion in Hst. guards Hst. unfold capability_exclusion in Hcap. guards Hcap.
  unfold health_exclusion in Hh. destruct (st_Status hs =s? Retired) eqn:Hr; [done|].
  constructor; unfold sd_Status; rewrite ?Hd, ?Hhs.
  - intros ->. by destruct (matchesModel d (rq_Model req)).
  - intros Hn. destruct (String.eqb_spec (rq_ProviderType req) ""); [done|].
    by destruct (String.eqb_spec (d_ProviderType d) (rq_ProviderType req)).
  - intros Hp. rewrite Hp in *. by destruct (SatisfiesNoTraining (d_TrainsOnData d)).
  - intros Hc. destruct (Z.ltb_spec 0 (rq_MinContextWindow req)); [|lia].
    destruct (Z.ltb_spec 0 (d_ContextWindow d)); [|lia].
    destruct (Z.ltb_spec (d_ContextWindow d) (rq_MinContextWindow req)); [done|lia].
  - intros E. rewrite E in *. by destruct (cap_Tools (d_Capabilities d)).
  - intros E. rewrite E in *. by destruct (cap_Vision (d_Capabilities d)).
  - intros E. rewrite E in *. by destruct (cap_Streaming (d_Capabilities d)).
  - intros E. rewrite E in *. by destruct (cap_Reasoning (d_Capabilities d)).
  - intros dim [[-> E]|[[-> E]|[-> E]]]; rewrite E in *; cbn [andb] in *; done.
  - by apply status_is_false in Hr.
  - intros E. rewrite E in Hh. destruct (st_Status hs =s? Healthy) eqn:Hs; [|done]. by apply status_is_true.
  - intros E. rewrite E in Hh. destruct (st_Status hs =s? Cooldown) eqn:Hs; [done|]. by apply status_is_false.
  - intros E. rewrite E in Hh. cbn -[scopesReadyState Scopes status_is] in Hh.
    destruct (st_Status hs =s? Healthy); [|done]. cbn -[scopesReadyState Scopes] in Hh.
    by destruct (scopesReadyState hs (Scopes req)).
Qed.

(** Whether a requirement's model is unknown and fallback is configured. *)
Definition uses_fallback (r : Router) (req : Requirement) : bool :=
  negb (snd (candidate_source r req)) && rc_FallbackOnUnknownModel (cfg_Routing (r_cfg r)).

Lemma SatisfiesNoTraining_spec x : SatisfiesNoTraining x = true <-> ToLower (TrimSpace x) = "no".
Proof. apply String.eqb_eq. Qed.

(** What the health manager must say of a deployment, as it stood before the
    selection, when the clock was read at the times in [T].  A circuit that is
    open must have a deadline which one of the readings has passed. *)
Definition over (T : Time -> Prop) (until : Time) : Prop := exists t, T t /\ until <> 0 /\ until < t.
Record serviceable (m : Manager) (cfg : Config) (req : Requirement) (T : Time -> Prop) (d : Deployment) : Prop := {
  svc_provider : forall p, d_ProviderID d <> "" -> mg_providers m !! d_ProviderID d = Some p -> ps_Status p = Cooldown -> over T (ps_CooldownUntil p);
  svc_unknown : mg_states m !! d_ID d = None -> IsReadyStrategy (strategy cfg) = false;
  svc_not_retired : forall s, mg_states m !! d_ID d = Some s -> st_Status s <> Retired;
  svc_ready : forall s, mg_states m !! d_ID d = Some s -> IsReadyStrategy (strategy cfg) = true -> st_Status s = Healthy;
  svc_circuit : forall s, mg_states m !! d_ID d = Some s -> st_Status s = Cooldown -> over T (st_CooldownUntil s);
  svc_scopes : forall s k sc, mg_states m !! d_ID d = Some s -> strategy cfg = "ready_mesh" -> k ∈ Scopes req ->
    st_Scopes s !! k = Some sc -> sc_Status sc = Cooldown -> over T (sc_CooldownUntil sc) }.

(** Reading the table does nothing but let circuits lapse at the times it is read. *)
Definition aged (T : Time -> Prop) (m m' : Manager) : Prop :=
  (forall id, exists ts, Forall T ts /\ mg_providers m' !! id = fold_left normalizeProviderState ts <$> mg_providers m !! id)
  /\ forall id, exists ts, Forall T ts /\ mg_states m' !! id = fold_left (flip norm) ts <$> mg_states m !! id.
Lemma aged_refl T m : aged T m m.
Proof. split; intros id; exists []; (split; [constructor|]); cbn; by destruct (_ !! id). Qed.
Lemma aged_trans T m1 m2 m3 : aged T m1 m2 -> aged T m2 m3 -> aged T m1 m3.
Proof.
  intros [P1 S1] [P2 S2]. split; intros id.
  - destruct (P1 id) as (ts & H1 & E1), (P2 id) as (us & H2 & E2). exists (ts ++ us). split; [by apply Forall_app_2|].
    rewrite E2, E1. destruct (mg_providers m1 !! id); cbn; [|done]. by rewrite fold_left_app.
  - destruct (S1 id) as (ts & H1 & E1), (S2 id) as (us & H2 & E2). exists (ts ++ us). split; [by apply Forall_app_2|].
    rewrite E2, E1. destruct (mg_states m1 !! id); cbn; [|done]. by rewrite fold_left_app.
Qed.
Lemma ProviderAvailable_aged (T : Time -> Prop) m p t : T t -> aged T m (fst (ProviderAvailable m p t)).
Proof.
  intros Ht. unfold ProviderAvailable. case_bool_decide; [apply aged_refl|]. destruct (mg_providers m !! p) as [st|] eqn:E; [|apply aged_refl].
  destruct (_ || _ || _); [apply aged_refl|]. split; intros id; cbn.
  - destruct (decide (p = id)) as [<-|Hne]; [exists [t]; rewrite lookup_insert_eq, E; by repeat constructor|].
    exists []. rewrite lookup_insert_ne by done. split; [constructor|]. cbn. by destruct (mg_providers m !! id).
  - exists []. split; [constructor|]. cbn. by destruct (mg_states m !! id).
Qed.
Lemma GetWithScopes_aged (T : Time -> Prop) m id scopes t : T t -> aged T m (fst (GetWithScopes m id scopes t)).
Proof.
  intros Ht. unfold GetWithScopes. destruct (GetWithScopes_read m id scopes t); [apply aged_refl|]. unfold GetWithScopes_write.
  destruct (mg_states m !! id) as [s|] eqn:E; [|apply aged_refl]. split; intros id'; cbn.
  - exists []. split; [constructor|]. cbn. by destruct (mg_providers m !! id').
  - destruct (decide (id = id')) as [<-|Hne]; [exists [t]; rewrite lookup_insert_eq, E; by repeat constructor|].
    exists []. rewrite lookup_insert_ne by done. split; [constructor|]. cbn. by destruct (mg_states m !! id').
Qed.
Lemma evaluateDeployment_aged (T : Time -> Prop) m d req cfg ig scopes t1 t2 : T t1 -> T t2 ->
  aged T m (fst (evaluateDeployment m d req cfg ig scopes t1 t2)).
Proof.
  intros H1 H2. unfold evaluateDeployment. destruct (static_exclusion d req ig); [apply aged_refl|].
  pose proof (ProviderAvailable_aged T m (d_ProviderID d) t1 H1) as Ha. destruct (ProviderAvailable m (d_ProviderID d) t1) as [m1 av]. cbn [fst] in Ha.
  destruct (negb av); [done|]. destruct (capability_exclusion d req); [done|]. cbv zeta.
  pose proof (GetWithScopes_aged T m1 (d_ID d) (if String.eqb (strategy cfg) "ready_mesh" || String.eqb (strategy cfg) "cost_aware" then scopes else []) t2 H2) as Hb.
  destruct (GetWithScopes m1 _ _ t2) as [m2 [hs rd]]. cbn [fst] in Hb. destruct (health_exclusion _ _ _); by eapply aged_trans.
Qed.

(** What a lapse leaves: an open circuit only if no reading was past its deadline. *)
Lemma expired_over (T : Time -> Prop) st until t : T t -> cooldown_expired st until t = true -> over T until.
Proof. unfold cooldown_expired, IsZero, After. intros Ht [[_ H1]%andb_true_iff H2]%andb_true_iff. exists t. split; [done|]. lia. Qed.
Lemma provider_fold (T : Time -> Prop) ts st : Forall T ts -> ps_Status st = Cooldown -> ps_Status (fold_left normalizeProviderState ts st) <> Cooldown ->
  over T (ps_CooldownUntil st).
Proof.
  induction ts as [|t ts IH]; [done|]. intros [Ht Hts]%Forall_cons Hc. cbn [fold_left]. unfold normalizeProviderState at 2.
  destruct (cooldown_expired _ _ t) eqn:E; [intros _; by eapply expired_over|by apply IH].
Qed.
Lemma norm_status t s : st_Status (norm t s) = if cooldown_expired (st_Status s) (st_CooldownUntil s) t then HalfOpen else st_Status s.
Proof. unfold norm, normalizeScopes, normalizeGlobal. by destruct (cooldown_expired _ _ t). Qed.
Lemma norm_until t s : st_CooldownUntil (norm t s) = if cooldown_expired (st_Status s) (st_CooldownUntil s) t then 0 else st_CooldownUntil s.
Proof. unfold norm, normalizeScopes, normalizeGlobal. by destruct (cooldown_expired _ _ t). Qed.
Lemma norm_scopes t s : st_Scopes (norm t s) = normalize_scope t <$> st_Scopes s.
Proof. unfold norm, normalizeScopes, normalizeGlobal. by destruct (cooldown_expired _ _ t). Qed.
Lemma state_fold (T : Time -> Prop) ts s : Forall T ts ->
  st_Status (fold_left (flip norm) ts s) = st_Status s
  \/ st_Status s = Cooldown /\ over T (st_CooldownUntil s) /\ st_Status (fold_left (flip norm) ts s) = HalfOpen.
Proof.
  assert (forall ts s, st_Status s = HalfOpen -> st_Status (fold_left (flip norm) ts s) = HalfOpen) as Hh.
  { clear. induction ts as [|t ts IH]; intros s Hs; [done|]. cbn. apply IH. unfold flip. rewrite norm_status, Hs. by rewrite expired_not_cooldown. }
  revert s. induction ts as [|t ts IH]; intros s; [by left|]. intros [Ht Hts]%Forall_cons. cbn [fold_left].
  destruct (cooldown_expired (st_Status s) (st_CooldownUntil s) t) eqn:E.
  - right. split_and!; [|by eapply expired_over|apply Hh; unfold flip; by rewrite norm_status, E].
    unfold cooldown_expired in E. apply andb_true_iff in E as [[E _]%andb_true_iff _]. by apply status_is_true.
  - destruct (IH (flip norm s t) Hts) as [H|(H1 & H2 & H3)]; unfold flip in *; rewrite ?norm_status, ?norm_until, E in *; [by left|by right].
Qed.
Lemma scope_fold (T : Time -> Prop) ts s k sc : Forall T ts -> st_Scopes s !! k = Some sc -> sc_Status sc = Cooldown ->
  (forall sc', st_Scopes (fold_left (flip norm) ts s) !! k = Some sc' -> sc_Status sc' <> Cooldown) -> over T (sc_CooldownUntil sc).
Proof.
  revert s. induction ts as [|t ts IH]; intros s; [intros _ H1 H2 H3; by destruct (H3 sc H1)|]. intros [Ht Hts]%Forall_cons H1 H2 H3. cbn [fold_left] in H3.
  destruct (cooldown_expired (sc_Status sc) (sc_CooldownUntil sc) t) eqn:E; [by eapply expired_over|].
  apply (IH (flip norm s t)); try done. unfold flip. rewrite norm_scopes, lookup_fmap, H1. cbn. unfold normalize_scope. by rewrite E.
Qed.
Lemma pure_verdict_serviceable (T : Time -> Prop) m0 m d req cfg ig t1 t2 s : aged T m0 m -> T t1 -> T t2 ->
  pure_verdict (provider_view m (d_ProviderID d) t1) (view_state m (d_ID d) t2) d req cfg ig (Scopes req) = inr s -> serviceable m0 cfg req T d.
Proof.
  intros [Hp Hs] Ht1 Ht2 Hv. pose proof (pure_verdict_admissible _ _ _ _ _ _ _ Hv) as Ha.
  pose proof (pure_verdict_scored _ _ _ _ _ _ _ _ Hv) as Es. destruct Ha as [_ _ _ _ _ _ _ _ _ Hret Hrdy Hcool Hsc].
  unfold sd_Status in *. rewrite Es, (proj2 (scored_deployment _ _ _ _)) in *. clear Es.
  destruct (Hs (d_ID d)) as (ts & Hts & Es). unfold view_state in *.
  assert (forall s0, mg_states m0 !! d_ID d = Some s0 -> mg_states m !! d_ID d = Some (fold_left (flip norm) ts s0)) as Es' by (intros s0 E; by rewrite Es, E).
  assert (Forall T (ts ++ [t2])) as Hall by (apply Forall_app_2; [done|by repeat constructor]).
  assert (forall s0, norm t2 (fold_left (flip norm) ts s0) = fold_left (flip norm) (ts ++ [t2]) s0) as Ef by (intros; by rewrite fold_left_app).
  split.
  - intros p Hne E Hc. destruct (Hp (d_ProviderID d)) as (us & Hus & Ep). rewrite E in Ep. cbn in Ep.
    unfold pure_verdict, provider_view in Hv. rewrite Ep, bool_decide_eq_false_2 in Hv by done. destruct (static_exclusion d req ig); [done|].
    destruct (ps_Status (normalizeProviderState _ t1) =s? Cooldown) eqn:Ec; [done|]. apply status_is_false in Ec.
    apply (provider_fold T (us ++ [t1]) p); [apply Forall_app_2; [done|by repeat constructor]|done|by rewrite fold_left_app].
  - intros E. rewrite Es, E in Hrdy. cbn in Hrdy. destruct (IsReadyStrategy (strategy cfg)); [by specialize (Hrdy eq_refl)|done].
  - intros s0 E. rewrite (Es' s0 E), Ef in Hret. intros Hr. destruct (state_fold T (ts ++ [t2]) s0 Hall) as [H|(H & _)]; congruence.
  - intros s0 E Hr. rewrite (Es' s0 E), Ef in Hrdy. specialize (Hrdy Hr). destruct (state_fold T (ts ++ [t2]) s0 Hall) as [H|(_ & _ & H)]; congruence.
  - intros s0 E Hc. rewrite (Es' s0 E), Ef in Hrdy, Hcool. destruct (state_fold T (ts ++ [t2]) s0 Hall) as [H|(_ & H & _)]; [|done].
    destruct (IsReadyStrategy (strategy cfg)); [specialize (Hrdy eq_refl); congruence|]. by destruct (Hcool eq_refl); rewrite H.
  - intros s0 k sc E Hst Hk Hl Hc. rewrite (Es' s0 E), Ef in Hsc. specialize (Hsc Hst). apply (scope_fold T (ts ++ [t2]) s0 k sc); try done.
    intros sc' Hl'. unfold scopesReadyState in Hsc. rewrite forallb_forall in Hsc. specialize (Hsc k (proj1 (list_elem_of_In _ _) Hk)).
    rewrite Hl' in Hsc. by apply negb_true_iff, status_is_false in Hsc.
Qed.

(** Each candidate of a pass was found admissible and serviceable. *)
Lemma build_serviceable (T : Time -> Prop) m0 ds req cfg ig : forall m clk, (forall i, T (clk i)) -> aged T m0 m ->
  aged T m0 (fst (build m ds req cfg ig (Scopes req) clk))
  /\ forall s, s ∈ snd (build m ds req cfg ig (Scopes req) clk) ->
       exists d, d ∈ ds /\ sd_Deployment s = d /\ admissible cfg req ig s /\ serviceable m0 cfg req T d.
Proof.
  induction ds as [|d ds IH]; intros m clk Hclk Hm; [split; [done|by intros s ?%elem_of_nil]|]. cbn [build]. unfold eligibleDeployment.
  pose proof (evaluateDeployment_pure m d req cfg ig (Scopes req) (clk 0%nat) (clk 1%nat)) as Hv.
  pose proof (evaluateDeployment_aged T m d req cfg ig (Scopes req) _ _ (Hclk 0%nat) (Hclk 1%nat)) as Ha.
  destruct (evaluateDeployment m d req cfg ig (Scopes req) _ _) as [m1 v]. cbn [fst snd] in Ha, Hv.
  destruct (IH m1 (fun i => clk (2 + i)%nat)) as [I1 I2]; [by intros i|by eapply aged_trans|].
  destruct (build m1 ds req cfg ig (Scopes req) _) as [m2 out]. cbn [fst snd] in *. split; [done|]. intros s Hin.
  assert (s ∈ out \/ v = inr s) as [Ho| Ev] by (destruct v as [|s0]; [by left|]; apply elem_of_cons in Hin as [->|?]; auto).
  - destruct (I2 s Ho) as (d0 & Hd0 & H). exists d0. split; [by right|done].
  - rewrite Ev in Hv. symmetry in Hv. exists d. split_and!; [by left| |by eapply pure_verdict_admissible|by eapply (pure_verdict_serviceable T m0 m)].
    rewrite (pure_verdict_scored _ _ _ _ _ _ _ _ Hv). apply scored_deployment.
Qed.
Definition readings (clk : nat -> Time) (t : Time) : Prop := exists i, clk i = t.
Lemma collect_full r req clk s : s ∈ snd (collect r req clk) ->
  exists ig, (ig = true -> uses_fallback r req = true) /\ admissible (r_cfg r) req ig s /\
    sd_Deployment s ∈ (if ig then r_all r else fst (candidate_source r req)) /\ serviceable (r_health r) (r_cfg r) req (readings clk) (sd_Deployment s).
Proof.
  unfold collect, uses_fallback. destruct (candidate_source r req) as [source known].
  destruct (build_serviceable (readings clk) (r_health r) source req (r_cfg r) false (r_health r) clk) as [Ha H1]; [by intros i; exists i|apply aged_refl|].
  destruct (build (r_health r) source req (r_cfg r) false (Scopes req) clk) as [hm out]. cbn [fst snd] in *.
  destruct ((length out =? 0)%nat && negb known && _) eqn:Hf.
  - destruct (build_serviceable (readings clk) (r_health r) (r_all r) req (r_cfg r) true hm (fun i => clk (2 * length source + i)%nat)) as [_ H2];
      [by intros i; eexists|done|].
    destruct (build hm (r_all r) req (r_cfg r) true (Scopes req) _) as [hm2 out2]. intros Hin.
    destruct (H2 s Hin) as (d & Hd & Ed & Hadm & Hsv). exists true. cbn. subst d.
    apply andb_true_iff in Hf as [[_ Hk]%andb_true_iff Hfb]. by rewrite Hk, Hfb.
  - intros Hin. destruct (H1 s Hin) as (d & Hd & Ed & Hadm & Hsv). exists false. by subst d.
Qed.

Lemma Candidates_elem r req clk now now2 s : s ∈ snd (Candidates r req clk now now2) ->
  exists ig, (ig = true -> uses_fallback r req = true) /\ admissible (r_cfg r) req ig s /\
    sd_Deployment s ∈ (if ig then r_all r else fst (candidate_source r req)) /\ serviceable (r_health r) (r_cfg r) req (readings clk) (sd_Deployment s).
Proof. rewrite Candidates_perm. apply collect_full. Qed.


(** ** Explanations *)

Lemma addDecision_same hm verdicts d v t : same_view t hm (fst (addDecision hm verdicts d v t)).
Proof.
  unfold addDecision. destruct (verdicts !! d_ID d); [done|].
  destruct (Get_same hm (d_ID d) t) as [H _]. by destruct (Get hm (d_ID d) t).
Qed.

Lemma build_explained_pure m vs ds req cfg ig scopes t :
  snd (build_explained m vs ds req cfg ig scopes (fun _ => t)) =
    omap (fun d => included (verdict m t req cfg ig scopes d)) ds /\
  same_view t m (fst (fst (build_explained m vs ds req cfg ig scopes (fun _ => t)))).
Proof.
  revert m vs. induction ds as [|d ds IH]; intros m vs; [done|]. cbn [build_explained].
  pose proof (evaluateDeployment_pure m d req cfg ig scopes t t) as Hv.
  pose proof (evaluateDeployment_same m d req cfg ig scopes t) as Hs.
  destruct (evaluateDeployment m d req cfg ig scopes t t) as [m1 v]. cbn in Hv, Hs.
  pose proof (addDecision_same m1 vs d v t) as Ha.
  destruct (addDecision m1 vs d v t) as [m2 vs2]. cbn in Ha.
  destruct (IH m2 vs2) as [IH1 IH2].
  destruct (build_explained m2 vs2 ds req cfg ig scopes _) as [[m3 vs3] out]. cbn in IH1, IH2 |- *.
  fold (verdict m t req cfg ig scopes d) in Hv. rewrite Hv, IH1.
  assert (same_view t m m2) as Hm2 by by transitivity m1.
  split; [|by transitivity m2].
  assert (omap (fun d => included (verdict m2 t req cfg ig scopes d)) ds =
          omap (fun d => included (verdict m t req cfg ig scopes d)) ds) as ->.
  { apply list_omap_ext, Forall_Forall2_diag, Forall_true. intros x. by rewrite (verdict_same t m m2). }
  by destruct (verdict m t req cfg ig scopes d).
Qed.

Lemma build_explained_elem m vs ds req cfg ig scopes clk s :
  s ∈ snd (build_explained m vs ds req cfg ig scopes clk) ->
  exists d av hs, d ∈ ds /\ pure_verdict av hs d req cfg ig scopes = inr s.
Proof.
  revert m vs clk. induction ds as [|d ds IH]; intros m vs clk; [by intros ?%elem_of_nil|].
  cbn [build_explained].
  pose proof (evaluateDeployment_pure m d req cfg ig scopes (clk 0%nat) (clk 1%nat)) as Hv.
  destruct (evaluateDeployment m d req cfg ig scopes _ _) as [m1 v]. cbn [snd] in Hv.
  destruct (addDecision m1 vs d v (clk 2%nat)) as [m2 vs2].
  specialize (IH m2 vs2 (fun i => clk (3 + i)%nat)).
  destruct (build_explained m2 vs2 ds req cfg ig scopes _) as [[m3 vs3] out]. cbn [snd] in *.
  assert (s ∈ out -> exists d0 av hs, d0 ∈ d :: ds /\ pure_verdict av hs d0 req cfg ig scopes = inr s) as Hout.
  { intros Hin. destruct (IH Hin) as (d0 & av & hs & ? & ?). exists d0, av, hs. split; [by right|done]. }
  destruct v as [reason|s0]; [exact Hout|].
  intros [->|Hin]%elem_of_cons; [|by apply Hout].
  eexists d, _, _. split; [by left|]. exact (eq_sym Hv).
Qed.

(** The parts of [Explain], named: the health manager and candidates after the
    funnel, and the session table after the pin is read. *)
Definition explained_collect (r : Router) (req : Requirement) (clk : nat -> Time)
    : Manager * gmap string CandidateDecision * list Scored :=
  let cfg := r_cfg r in
  let '(source, known) := candidate_source r req in
  let '(hm, verdicts, out) := build_explained (r_health r) ∅ source req cfg false (Scopes req) clk in
  if (length out =? 0)%nat && negb known && rc_FallbackOnUnknownModel (cfg_Routing cfg)
  then build_explained hm verdicts (r_all r) req cfg true (Scopes req)
         (fun i => clk (3 * length source + i)%nat)
  else (hm, verdicts, out).
Definition explained_sessions (r : Router) (req : Requirement) (tm : nat -> Time)
    : gmap string sessionPin * string :=
  if rc_SessionAffinity (cfg_Routing (r_cfg r))
  then pinned (r_sessions r) req (r_cfg r) (tm 0%nat) (tm 1%nat) else (r_sessions r, "").

Definition predictive (r : Router) (req : Requirement) : bool :=
  negb (IsRotatingStrategy (strategy (r_cfg r))) &&
  (negb (String.eqb (strategy (r_cfg r)) "ready_mesh") || negb (String.eqb (rq_SelectionKey req) "")
   || negb (String.eqb (rq_SessionKey req) "")).

Lemma Explain_parts r parse req clk tm :
  let '(hm, _, out) := explained_collect r req clk in
  let r1 := r <| r_sessions := fst (explained_sessions r req tm) |> <| r_health := hm |> in
  let res := if (1 <? length out)%nat
             then applyStrategySimulated r1 out req (r_cfg r) (tm 4%nat) (tm 5%nat) else (r1, out) in
  fst (Explain r parse req clk tm) = fst res /\
  ex_Candidates (snd (Explain r parse req clk tm)) = snd res /\
  ex_RotationPredictive (snd (Explain r parse req clk tm)) = predictive r req /\
  ex_PinnedDeployment (snd (Explain r parse req clk tm)) = snd (explained_sessions r req tm).
Proof.
  unfold Explain, explained_collect, explained_sessions, predictive.
  destruct (candidate_source r req) as [source known].
  destruct r as [cfg hm0 all byID byModel rr sess].
  cbn [r_cfg r_health r_all r_byID r_byModel r_rr r_sessions update].
  destruct (if rc_SessionAffinity (cfg_Routing cfg) then pinned sess req cfg (tm 0%nat) (tm 1%nat)
            else (sess, "")) as [ss pin].
  destruct (if rc_SessionAffinity (cfg_Routing cfg) then
    pin_economics parse cfg (sessionPinRecord ss req cfg (tm 2%nat)) (tm 3%nat)
    else (0, 0, f_zero)) as [[turns lastRead] benefit].
  cbn [fst snd].
  destruct (build_explained hm0 ∅ source req cfg false (Scopes req) clk) as [[hm vs] out].
  destruct ((length out =? 0)%nat && negb known && rc_FallbackOnUnknownModel (cfg_Routing cfg)).
  - destruct (build_explained hm vs all req cfg true (Scopes req) _) as [[hm2 vs2] out2].
    by destruct (if (1 <? length out2)%nat then _ else _) as [r' o].
  - by destruct (if (1 <? length out)%nat then _ else _) as [r' o].
Qed.

Lemma Explain_elem r parse req clk tm s : s ∈ ex_Candidates (snd (Explain r parse req clk tm)) ->
  exists ig, admissible (r_cfg r) req ig s /\
    sd_Deployment s ∈ (if ig then r_all r else fst (candidate_source r req)).
Proof.
  pose proof (Explain_parts r parse req clk tm) as HE.
  destruct (explained_collect r req clk) as [[hm vs] out] eqn:Hc. cbv zeta in HE.
  destruct HE as (_ & -> & _ & _).
  assert (forall r1, snd (if (1 <? length out)%nat then applyStrategySimulated r1 out req (r_cfg r)
    (tm 4%nat) (tm 5%nat) else (r1, out)) ≡ₚ out) as Hperm.
  { intros r1. destruct (Nat.ltb_spec 1 (length out)); [|done].
    apply applyStrategyMode_perm. destruct out; [cbn in *; lia|done]. }
  rewrite Hperm. clear Hperm. unfold explained_collect in Hc.
  destruct (candidate_source r req) as [source known].
  pose proof (build_explained_elem (r_health r) ∅ source req (r_cfg r) false (Scopes req) clk s) as H1.
  destruct (build_explained (r_health r) ∅ source req (r_cfg r) false (Scopes req) clk) as [[hm1 vs1] out1].
  destruct ((length out1 =? 0)%nat && negb known && _).
  - pose proof (build_explained_elem hm1 vs1 (r_all r) req (r_cfg r) true (Scopes req)
      (fun i => clk (3 * length source + i)%nat) s) as H2.
    rewrite Hc in H2. cbn [snd] in H2. intros Hin. destruct (H2 Hin) as (d & av & hs & Hd & Hv).
    exists true. split; [by eapply pure_verdict_admissible|].
    by rewrite (pure_verdict_scored _ _ _ _ _ _ _ _ Hv), (proj1 (scored_deployment _ _ _ _)).
  - injection Hc as -> -> ->. intros Hin. destruct (H1 Hin) as (d & av & hs & Hd & Hv).
    exists false. split; [by eapply pure_verdict_admissible|].
    by rewrite (pure_verdict_scored _ _ _ _ _ _ _ _ Hv), (proj1 (scored_deployment _ _ _ _)).
Qed.

Lemma Eligible_elem r id req now now2 s : snd (Eligible r id req now now2) = Some s ->
  exists ig, admissible (r_cfg r) req ig s /\ r_byID r !! id = Some (sd_Deployment s).
Proof.
  unfold Eligible. destruct (r_byID r !! id) as [d|]; [|done]. cbv zeta.
  set (ig := negb _ && _). unfold eligibleDeployment.
  pose proof (evaluateDeployment_pure (r_health r) d req (r_cfg r) ig (Scopes req) now now2) as Hv.
  destruct (evaluateDeployment (r_health r) d req (r_cfg r) ig (Scopes req) now now2) as [hm v].
  cbn [snd] in *. destruct v as [|s']; [done|]. intros [= ->].
  exists ig. split; [by eapply pure_verdict_admissible|]. symmetry in Hv.
  by rewrite (pure_verdict_scored _ _ _ _ _ _ _ _ Hv), (proj1 (scored_deployment _ _ _ _)).
Qed.

(** (C8) The privacy gate is fail-closed on every path: when a request
    requires no training, every deployment that selection, the per-attempt
    re-check or the route preview returns declares exactly ["no"] (up to case
    and surrounding space); ["unknown"], ["yes"] and the empty string never
    pass. *)
Theorem privacy_fail_closed (r : Router) (parse : string -> option Time) (req : Requirement)
    (clk tm : nat -> Time) (now now2 : Time) (id : string) (s : Scored) :
  rq_RequireNoTraining req = true ->
  s ∈ snd (Candidates r req clk now now2) \/
  s ∈ ex_Candidates (snd (Explain r parse req clk tm)) \/
  snd (Eligible r id req now now2) = Some s ->
  ToLower (TrimSpace (d_TrainsOnData (sd_Deployment s))) = "no".
Proof.
  intros Hp H.
  enough (exists ig, admissible (r_cfg r) req ig s) as [ig Ha].
  { apply SatisfiesNoTraining_spec. exact (adm_privacy _ _ _ _ Ha Hp). }
  destruct H as [H|[H|H]].
  - destruct (Candidates_elem _ _ _ _ _ _ H) as (ig & _ & Ha & _). by exists ig.
  - destruct (Explain_elem _ _ _ _ _ _ H) as (ig & Ha & _). by exists ig.
  - destruct (Eligible_elem _ _ _ _ _ _ H) as (ig & Ha & _). by exists ig.
Qed.

(** ** Witnesses *)

Lemma ordering_permutes_witness :
  let out := snd (Candidates (sample_router "round_robin") sample_req at_30 30 30) in
  out <> [] /\
  snd (applyStrategyMode (sample_router "round_robin") out sample_req (sample_cfg "round_robin") false 30 30)
    ≡ₚ out.
Proof.
  cbv zeta. split; [vm_compute; discriminate|].
  refine (proj1 (ordering_permutes (sample_router "round_robin")
    (snd (Candidates (sample_router "round_robin") sample_req at_30 30 30)) sample_req
    (sample_cfg "round_robin") false at_30 30 30) _).
  vm_compute. discriminate.
Defined.

Definition sample_first (r : Router) (req : Requirement) : Scored :=
  hd zero_Scored (snd (Candidates r req at_30 30 30)).


(** With a no-training demand only the first provider's deployments remain. *)
Definition private_req : Requirement := sample_req <| rq_RequireNoTraining := true |>.
Lemma privacy_fail_closed_witness :
  rq_RequireNoTraining private_req = true /\
  sd_ID (sample_first (sample_router "cost_aware") private_req) = "p1/b" /\
  ToLower (TrimSpace (d_TrainsOnData (sd_Deployment (sample_first (sample_router "cost_aware") private_req)))) = "no".
Proof.
  split; [reflexivity|]. split; [vm_compute; reflexivity|].
  apply (privacy_fail_closed (sample_router "cost_aware") no_dates private_req at_30 at_30 30 30 "");
    [reflexivity|].
  left. apply hd_elem. vm_compute. discriminate.
Defined.
