(* ===== verification/RouterPolicy.v ===== *)
(** * Ordering policy of the router

    Priority tiers, session pins, provider diversification and rotation: what
    the order of the candidates means. *)

From Stdlib Require Import Ascii.
From S2P Require Import Prelude Config Health HealthCircuit Conformance Hash Pricing Router RouterOrder RouterSamples RouterLemmas RouterProofs.

(** ** Priority tiers *)

Lemma promote_pin_priority pin out out' :
  tiers_ordered out -> promote_pin pin out = Some out' -> sd_Priority <$> out' = sd_Priority <$> out.
Proof.
  unfold promote_pin. intros Hs. destruct (String.eqb pin ""); [done|].
  destruct (pin_index pin out) as [i|] eqn:Hi; [|done]. intros [= <-].
  destruct (pin_index_lt _ _ _ Hi) as (x & y & Hx & Hy & _ & Hp).
  apply (move_to_keys _ _ _ _ (sd_Priority x)); [lia|].
  intros n s Hn Hls. destruct out as [|x' out]; [done|]. injection Hx as ->.
  destruct n as [|n]; [by injection Hls as ->|].
  unfold tiers_ordered in Hs. rewrite fmap_cons in Hs.
  inversion Hs as [|? ? Hs' Hall]; subst. rewrite Forall_forall in Hall.
  assert (sd_Priority x <= sd_Priority s) as Hle.
  { apply Hall. apply list_elem_of_fmap. exists s. split; [done|]. by apply (list_elem_of_lookup_2 _ n). }
  destruct (decide (S n = i)) as [<-|Hne]; [cbn in *; congruence|].
  destruct i as [|i]; [lia|].
  assert (sd_Priority s <= sd_Priority y) as Hle2.
  { apply (StronglySorted_lookup Z.le (sd_Priority <$> out) n i); [done| | |lia];
    rewrite list_lookup_fmap;
    [exact (f_equal (fmap sd_Priority) Hls)|exact (f_equal (fmap sd_Priority) Hy)]. }
  lia.
Qed.

Lemma mesh_sorted out : tiers_ordered (slice_stable mesh_less out).
Proof.
  apply tiers_ordered_sorted, sorted_by_priority. intros x y Hne. unfold mesh_less.
  by rewrite (proj2 (Z.eqb_neq _ _) Hne).
Qed.
Lemma cost_sorted out : tiers_ordered (slice_stable cost_less out).
Proof.
  apply tiers_ordered_sorted, sorted_by_priority. intros x y Hne. unfold cost_less.
  by rewrite (proj2 (Z.eqb_neq _ _) Hne).
Qed.
Lemma queue_sorted out : tiers_ordered (slice_stable queue_less out).
Proof.
  apply tiers_ordered_sorted, sorted_by_priority. intros x y Hne. unfold queue_less.
  by rewrite (proj2 (Z.eqb_neq _ _) Hne).
Qed.

Lemma hashIndex_lt key salt n : (0 < n)%nat -> (hashIndex key salt n < n)%nat.
Proof.
  intros Hn. unfold hashIndex. destruct (Nat.leb_spec n 1); [lia|].
  set (h := fnv64a_write _ _). pose proof (Z.mod_pos_bound h (Z.of_nat n)). lia.
Qed.

Lemma p2c_winner_lt key w out : (2 <= w)%nat -> (p2c_winner key w out < w)%nat.
Proof.
  intros Hw. unfold p2c_winner.
  pose proof (hashIndex_lt key "a"%char w) as Ha. pose proof (hashIndex_lt key "b"%char (w - 1)) as Hb.
  destruct (Nat.leb_spec (hashIndex key "a"%char w) (hashIndex key "b"%char (w - 1)));
    repeat case_match; lia.
Qed.

(** The P2C window never leaves the best tier. *)
Lemma window_swap_priority out w key :
  (2 <= w)%nat ->
  (w <= S (prefix_len (fun s => (sd_Priority s =? match out with x :: _ => sd_Priority x | [] => 0 end)%Z)
             (tail out)))%nat ->
  sd_Priority <$> swap 0 (p2c_winner key w out) out = sd_Priority <$> out.
Proof.
  intros Hw2 Hw. apply swap_keys. intros x y Hx Hy.
  pose proof (p2c_winner_lt key w out Hw2) as Hlt. revert Hy Hlt. generalize (p2c_winner key w out). intros i Hy Hlt.
  destruct out as [|x' out]; [done|]. injection Hx as ->. destruct i as [|i]; [by injection Hy as ->|].
  cbn [tail] in Hw. symmetry. apply Z.eqb_eq.
  apply (prefix_len_lookup (fun s => sd_Priority s =? sd_Priority x) out i); [lia|done].
Qed.

Lemma orderReadyMesh_tiers r out req cfg sim now now2 :
  tiers_ordered (snd (orderReadyMesh r out req cfg sim now now2)).
Proof.
  unfold orderReadyMesh. pose proof (mesh_sorted out) as Hp.
  revert Hp. generalize (slice_stable mesh_less out). intros o Hp.
  destruct (length o <? 2)%nat; [done|].
  destruct (pinned _ _ _ _ _) as [ss pin].
  destruct (promote_pin pin o) as [o'|] eqn:Ho.
  - cbn [snd]. unfold tiers_ordered. by rewrite diversify_priority, (promote_pin_priority _ _ _ Hp Ho).
  - cbv zeta. set (w0 := S (prefix_len _ _)). set (w := if _ && _ then Z.to_nat _ else w0).
    assert (w <= w0)%nat as Hw.
    { unfold w. destruct (_ && _) eqn:E; [|done]. apply andb_true_iff in E as [_ E%Z.ltb_lt]. lia. }
    destruct (Nat.ltb_spec w 2); cbn [snd]; unfold tiers_ordered; rewrite diversify_priority; [done|].
    by rewrite window_swap_priority.
Qed.

Lemma orderCostAware_tiers r out req cfg now now2 :
  tiers_ordered (snd (orderCostAware r out req cfg now now2)).
Proof.
  unfold orderCostAware. pose proof (cost_sorted out) as Hp.
  revert Hp. generalize (slice_stable cost_less out). intros o Hp.
  destruct (length o <? 2)%nat; [done|].
  destruct (pinned _ _ _ _ _) as [ss pin]. cbn [snd]. unfold tiers_ordered. rewrite diversify_priority.
  destruct (promote_pin pin o) as [o'|] eqn:Ho; [|done]. by rewrite (promote_pin_priority _ _ _ Hp Ho).
Qed.

Lemma ready_tiers r out req cfg sim now now2 : IsReadyStrategy (strategy cfg) = true ->
  tiers_ordered (snd (applyStrategyMode r out req cfg sim now now2)).
Proof.
  unfold IsReadyStrategy, applyStrategyMode.
  destruct (String.eqb (strategy cfg) "ready_mesh"); [intros _; apply orderReadyMesh_tiers|].
  destruct (String.eqb (strategy cfg) "cost_aware"); [intros _; apply orderCostAware_tiers|].
  destruct (String.eqb (strategy cfg) "ready_queue"); [intros _; apply queue_sorted|done].
Qed.

(** Under the ready strategies no retry crosses tiers early: the
    candidate list is in ascending priority, whatever session pin, power-of-two
    choice, cost comparison or provider diversification reordered it. *)
Theorem ready_strategies_respect_tiers (r : Router) (req : Requirement) (clk : nat -> Time)
    (now now2 : Time) :
  IsReadyStrategy (strategy (r_cfg r)) = true ->
  tiers_ordered (snd (Candidates r req clk now now2)).
Proof.
  intros Hr. unfold Candidates. destruct (collect r req clk) as [r' out] eqn:Hc.
  assert (r_cfg r' = r_cfg r) as Hcfg.
  { unfold collect in Hc. destruct (candidate_source r req) as [src known].
    destruct (build _ _ _ _ _ _ _) as [hm o]. destruct (if _ && _ && _ then _ else _) as [hm' o'].
    by injection Hc as <- _. }
  destruct (Nat.leb_spec (length out) 1).
  - cbn [snd]. destruct out as [|x [|y out]]; [constructor|repeat constructor|cbn in *; lia].
  - apply ready_tiers. by rewrite Hcfg.
Qed.

(** ** Session pins *)

Lemma affinityBucket_nonempty req :
  TrimSpace (rq_SessionKey req) <> "" -> affinityBucket req <> "".
Proof.
  intros Hk. unfold affinityBucket. destruct (String.eqb_spec (TrimSpace (rq_SessionKey req)) ""); [done|].
  intros H%(f_equal String.length). rewrite !str_length_app in H. cbn [String.length] in H. lia.
Qed.

Lemma pinned_live sessions req cfg now now2 pin :
  rc_SessionAffinity (cfg_Routing cfg) = true -> TrimSpace (rq_SessionKey req) <> "" ->
  sessions !! affinityBucket req = Some pin -> now < sp_Expires pin ->
  pinned sessions req cfg now now2 = (sessions, sp_Deployment pin).
Proof.
  intros Ha Hk%affinityBucket_nonempty Hp Hn. unfold pinned. rewrite Ha. cbn [negb]. cbv zeta.
  destruct (String.eqb_spec (affinityBucket req) ""); [done|]. rewrite Hp.
  unfold Before. by rewrite (proj2 (Z.ltb_lt _ _) Hn).
Qed.

Lemma move_to_head i out c : out !! i = Some c -> head (move_to 0 i out) = Some c.
Proof. intros H. unfold move_to. by rewrite H. Qed.

(** A pinned deployment of the best tier is promoted. *)
Lemma promote_pin_head out s : tiers_ordered out -> sd_ID s <> "" -> s ∈ out ->
  (forall x, head out = Some x -> sd_Priority s <= sd_Priority x) ->
  exists out' y, promote_pin (sd_ID s) out = Some out' /\ head out' = Some y /\ sd_ID y = sd_ID s.
Proof.
  intros Hs Hne [i Hi]%list_elem_of_lookup Hmin. unfold promote_pin.
  destruct (String.eqb_spec (sd_ID s) ""); [done|].
  destruct (pin_index (sd_ID s) out) as [j|] eqn:Hj.
  - destruct (pin_index_lt _ _ _ Hj) as (x & y & _ & Hy & Hid & _).
    exists (move_to 0 j out), y. by rewrite (move_to_head j out y Hy).
  - exfalso. unfold pin_index in Hj. destruct out as [|x out]; [done|].
    apply find_index_None in Hj. rewrite Forall_forall in Hj.
    specialize (Hj s (list_elem_of_lookup_2 _ _ _ Hi)). rewrite String.eqb_refl in Hj. cbn in Hj.
    apply Z.eqb_neq in Hj. specialize (Hmin x eq_refl).
    destruct i as [|i]; [by injection Hi as ->|].
    unfold tiers_ordered in Hs. rewrite fmap_cons in Hs. inversion Hs as [|? ? _ Hall]; subst.
    rewrite Forall_forall in Hall. specialize (Hall (sd_Priority s)).
    enough (sd_Priority x <= sd_Priority s) by lia. apply Hall.
    apply list_elem_of_fmap. exists s. split; [done|]. exact (list_elem_of_lookup_2 out i s Hi).
Qed.

Lemma pinned_head less r out req cfg pin now now2 s :
  tiers_ordered (slice_stable less out) -> (2 <= length out)%nat ->
  rc_SessionAffinity (cfg_Routing cfg) = true -> TrimSpace (rq_SessionKey req) <> "" ->
  r_sessions r !! affinityBucket req = Some pin -> now < sp_Expires pin ->
  s ∈ out -> sd_ID s = sp_Deployment pin -> sd_ID s <> "" ->
  (forall x, x ∈ out -> sd_Priority s <= sd_Priority x) ->
  (length (slice_stable less out) <? 2)%nat = false /\
  pinned (r_sessions r) req cfg now now2 = (r_sessions r, sd_ID s) /\
  exists out' y, promote_pin (sd_ID s) (slice_stable less out) = Some out' /\
    head out' = Some y /\ sd_ID y = sd_ID s.
Proof.
  intros Hs Hl Ha Hk Hp Hn Hin Hid Hne Hmin. split_and!.
  - rewrite (Permutation_length (slice_stable_perm less out)). by apply Nat.ltb_ge.
  - rewrite Hid. by apply pinned_live.
  - apply promote_pin_head; [done|done|by rewrite slice_stable_perm|].
    intros x Hx. apply Hmin. rewrite <- (slice_stable_perm less out).
    destruct (slice_stable less out); [done|]. injection Hx as ->. by left.
Qed.

Lemma strategy_pin_head r out req cfg sim pin now now2 s :
  strategy cfg = "ready_mesh" \/ strategy cfg = "cost_aware" -> (2 <= length out)%nat ->
  rc_SessionAffinity (cfg_Routing cfg) = true -> TrimSpace (rq_SessionKey req) <> "" ->
  r_sessions r !! affinityBucket req = Some pin -> now < sp_Expires pin ->
  s ∈ out -> sd_ID s = sp_Deployment pin -> sd_ID s <> "" ->
  (forall x, x ∈ out -> sd_Priority s <= sd_Priority x) ->
  sd_ID <$> head (snd (applyStrategyMode r out req cfg sim now now2)) = Some (sd_ID s).
Proof.
  intros Hst Hl Ha Hk Hp Hn Hin Hid Hne Hmin. unfold applyStrategyMode.
  destruct Hst as [-> | ->]; cbn [String.eqb Ascii.eqb Bool.eqb].
  - destruct (pinned_head mesh_less r out req cfg pin now now2 s)
      as (H1 & H2 & o & y & H3 & H4 & H5); try done; [apply mesh_sorted|].
    unfold orderReadyMesh. cbv zeta. rewrite H1, H2, H3. cbn [snd]. by rewrite diversify_head, H4, <- H5.
  - destruct (pinned_head cost_less r out req cfg pin now now2 s)
      as (H1 & H2 & o & y & H3 & H4 & H5); try done; [apply cost_sorted|].
    unfold orderCostAware. cbv zeta. rewrite H1, H2, H3. cbn [snd]. by rewrite diversify_head, H4, <- H5.
Qed.

Lemma collect_frame r req clk :
  r_cfg (fst (collect r req clk)) = r_cfg r /\ r_all (fst (collect r req clk)) = r_all r /\
  r_byID (fst (collect r req clk)) = r_byID r /\ r_byModel (fst (collect r req clk)) = r_byModel r /\
  r_rr (fst (collect r req clk)) = r_rr r /\ r_sessions (fst (collect r req clk)) = r_sessions r.
Proof.
  unfold collect. destruct (candidate_source r req) as [src known].
  destruct (build _ _ _ _ _ _ _) as [hm o]. by destruct (if _ && _ && _ then _ else _) as [hm' o'].
Qed.

(** Session affinity is authoritative: under [ready_mesh] and
    [cost_aware], when the request's session holds a live pin and the pinned
    deployment is eligible in the best priority tier, it is the first
    candidate, ahead of cheaper, better scored or load-spread ones. *)
Theorem session_pin_leads (r : Router) (req : Requirement) (clk : nat -> Time) (now now2 : Time)
    (pin : sessionPin) (s : Scored) :
  strategy (r_cfg r) = "ready_mesh" \/ strategy (r_cfg r) = "cost_aware" ->
  rc_SessionAffinity (cfg_Routing (r_cfg r)) = true ->
  TrimSpace (rq_SessionKey req) <> "" ->
  r_sessions r !! affinityBucket req = Some pin -> now < sp_Expires pin ->
  s ∈ snd (collect r req clk) -> sd_ID s = sp_Deployment pin -> sd_ID s <> "" ->
  (forall x, x ∈ snd (collect r req clk) -> sd_Priority s <= sd_Priority x) ->
  sd_ID <$> head (snd (Candidates r req clk now now2)) = Some (sp_Deployment pin).
Proof.
  intros Hst Ha Hk Hp Hn Hin Hid Hne Hmin. unfold Candidates.
  destruct (collect_frame r req clk) as (Hc & _ & _ & _ & _ & Hss).
  destruct (collect r req clk) as [r' out]. cbn [fst snd] in *. rewrite <- Hid.
  destruct (Nat.leb_spec (length out) 1) as [Hle|Hlt].
  - destruct out as [|x [|y out]]; [by apply elem_of_nil in Hin| |cbn in *; lia].
    apply list_elem_of_singleton in Hin as ->. done.
  - apply (strategy_pin_head r' out req (r_cfg r') false pin); rewrite ?Hc, ?Hss; try done; lia.
Qed.

(** ** Witnesses *)

Lemma ready_strategies_respect_tiers_witness :
  IsReadyStrategy (strategy (r_cfg (sample_router "ready_queue"))) = true /\
  tiers_ordered (snd (Candidates (sample_router "ready_queue") sample_req at_30 30 30)).
Proof.
  split; [reflexivity|]. apply (ready_strategies_respect_tiers (sample_router "ready_queue")). reflexivity.
Defined.

(** The slowest deployment leads once the session is pinned to it. *)
Definition pinned_router : Router :=
  ObserveSession (sample_router "ready_mesh") sample_req "p1/a" "" 25.
Definition pinned_scored : Scored :=
  default zero_Scored (find (fun s => String.eqb (sd_ID s) "p1/a") (snd (collect pinned_router sample_req at_30))).
Lemma session_pin_leads_witness :
  sd_ID <$> head (snd (Candidates pinned_router sample_req at_30 30 30)) = Some "p1/a".
Proof.
  assert (sd_ID pinned_scored = "p1/a") as Hid by (vm_compute; reflexivity).
  apply (session_pin_leads pinned_router sample_req at_30 30 30
    (mkSessionPin "p1/a" (25 + 60 * Second) 1 0 0) pinned_scored).
  - by left.
  - reflexivity.
  - vm_compute. discriminate.
  - vm_compute. reflexivity.
  - vm_compute. reflexivity.
  - unfold pinned_scored. destruct (find _ _) as [s|] eqn:E.
    + apply find_some in E as [E _]. by apply list_elem_of_In.
    + vm_compute in E. discriminate E.
  - exact Hid.
  - rewrite Hid. discriminate.
  - intros x Hx.
    assert (Forall (fun x => sd_Priority x = 1) (snd (collect pinned_router sample_req at_30))) as HF.
    { vm_compute. repeat constructor. }
    rewrite Forall_forall in HF. rewrite (HF x Hx). vm_compute. discriminate.
Defined.
