(* ===== verification/RouterExplain.v ===== *)
(** * Route previews and rotation

    [Explain] is a dry run of [Candidates]: it must not disturb live routing
    and, where it says it is predictive, must show what live routing would do.
    The rotating strategies, which a preview does not predict, are fair. *)

From Stdlib Require Import Ascii.
From S2P Require Import Prelude Config Health HealthCircuit Conformance Hash Pricing Router RouterOrder RouterSamples RouterLemmas RouterProofs RouterPolicy.

(** ** Session reads *)

Lemma pinned_cases sessions req cfg now now2 :
  fst (pinned sessions req cfg now now2) = sessions \/
  exists pin, sessions !! affinityBucket req = Some pin /\ sp_Expires pin < now2 /\
    pinned sessions req cfg now now2 = (delete (affinityBucket req) sessions, "").
Proof.
  unfold pinned. destruct (negb _); [by left|]. cbv zeta.
  destruct (String.eqb _ ""); [by left|].
  destruct (sessions !! affinityBucket req) as [pin|] eqn:E; [|by left].
  destruct (Before _ _); [by left|]. unfold After.
  destruct (Z.ltb_spec (sp_Expires pin) now2); [|by left]. right. by exists pin.
Qed.

(** A second read at the same instant gives the same answer. *)
Lemma pinned_idem sessions req cfg t :
  pinned (fst (pinned sessions req cfg t t)) req cfg t t = pinned sessions req cfg t t.
Proof.
  destruct (pinned_cases sessions req cfg t t) as [E|(pin & _ & _ & E)].
  - by rewrite E.
  - rewrite E. cbn [fst]. unfold pinned in *. destruct (negb _); [done|]. cbv zeta in *.
    destruct (String.eqb _ ""); [done|]. by rewrite lookup_delete_eq.
Qed.

(** ** The simulated ordering *)

(** A simulation advances no counter and keeps the tables; it may drop the
    request's own expired pin. *)
Definition simulation_frame (r r' : Router) (req : Requirement) (now2 : Time) : Prop :=
  r_cfg r' = r_cfg r /\ r_all r' = r_all r /\ r_byID r' = r_byID r /\ r_byModel r' = r_byModel r /\
  r_rr r' = r_rr r /\
  (r_sessions r' = r_sessions r \/
   exists pin, r_sessions r !! affinityBucket req = Some pin /\ sp_Expires pin < now2 /\
     r_sessions r' = delete (affinityBucket req) (r_sessions r)).

Lemma pinned_simulation r req cfg now now2 :
  simulation_frame r (r <| r_sessions := fst (pinned (r_sessions r) req cfg now now2) |>) req now2.
Proof.
  split_and!; try done. cbn.
  destruct (pinned_cases (r_sessions r) req cfg now now2) as [->|(pin & ? & ? & ->)]; [by left|].
  right. by exists pin.
Qed.

Lemma simulation_frame_refl r req t : simulation_frame r r req t.
Proof. split_and!; try done. by left. Qed.

Lemma applyStrategySimulated_frame r out req cfg now now2 :
  simulation_frame r (fst (applyStrategySimulated r out req cfg now now2)) req now2.
Proof.
  pose proof (pinned_simulation r req cfg now now2) as Hp.
  unfold applyStrategySimulated, applyStrategyMode.
  repeat match goal with |- context [String.eqb (strategy cfg) ?s] => destruct (String.eqb (strategy cfg) s) end;
    try apply simulation_frame_refl.
  - unfold orderReadyMesh. destruct (length _ <? 2)%nat; [apply simulation_frame_refl|].
    destruct (pinned _ _ _ _ _) as [ss pin]. cbn [fst] in Hp.
    destruct (promote_pin _ _); [exact Hp|]. cbv zeta. destruct (_ <? 2)%nat; [exact Hp|].
    rewrite andb_false_r. exact Hp.
  - unfold orderCostAware. destruct (length _ <? 2)%nat; [apply simulation_frame_refl|].
    destruct (pinned _ _ _ _ _) as [ss pin]. exact Hp.
  - unfold rotate_if, rotation. destruct (1 <? _)%nat; apply simulation_frame_refl.
  - unfold rotate_if, rotation. destruct (1 <? _)%nat; apply simulation_frame_refl.
Qed.

(** A route preview leaves live routing alone: it advances no rotation
    counter, creates or moves no session pin and touches no routing table; at
    most it reaps the request's own pin, and only once that has expired. *)
Theorem explain_does_not_disturb (r : Router) (parse : string -> option Time) (req : Requirement)
    (clk tm : nat -> Time) :
  let r' := fst (Explain r parse req clk tm) in
  r_cfg r' = r_cfg r /\ r_all r' = r_all r /\ r_byID r' = r_byID r /\ r_byModel r' = r_byModel r /\
  r_rr r' = r_rr r /\
  (r_sessions r' = r_sessions r \/
   exists pin t, r_sessions r !! affinityBucket req = Some pin /\ sp_Expires pin < t /\
     r_sessions r' = delete (affinityBucket req) (r_sessions r)).
Proof.
  cbv zeta. pose proof (Explain_parts r parse req clk tm) as HE.
  destruct (explained_collect r req clk) as [[hm vs] out]. cbv zeta in HE. destruct HE as (-> & _).
  assert (exists t, simulation_frame r (r <| r_sessions := fst (explained_sessions r req tm) |>) req t)
    as (t1 & F1).
  { unfold explained_sessions. destruct (rc_SessionAffinity _).
    - eexists. apply pinned_simulation.
    - exists 0. split_and!; try done. by left. }
  set (r1 := r <| r_sessions := _ |> <| r_health := hm |>).
  assert (simulation_frame r r1 req t1) as F1' by exact F1. clearbody r1. clear F1.
  assert (exists t2, simulation_frame r1 (fst (if (1 <? length out)%nat
    then applyStrategySimulated r1 out req (r_cfg r) (tm 4%nat) (tm 5%nat) else (r1, out))) req t2) as (t2 & F2).
  { destruct (1 <? length out)%nat; [eexists; apply applyStrategySimulated_frame|].
    exists 0. apply simulation_frame_refl. }
  revert F2. generalize (fst (if (1 <? length out)%nat
    then applyStrategySimulated r1 out req (r_cfg r) (tm 4%nat) (tm 5%nat) else (r1, out))).
  intros r2 (E1 & E2 & E3 & E4 & E5 & E6). destruct F1' as (D1 & D2 & D3 & D4 & D5 & D6).
  split_and!; try congruence.
  destruct D6 as [D6|(pin & Hl & Ht & D6)], E6 as [E6|(pin' & Hl' & Ht' & E6)].
  - left. congruence.
  - right. exists pin', t2. rewrite <- D6. done.
  - right. exists pin, t1. rewrite <- D6. done.
  - right. exists pin, t1. split_and!; [done|done|]. rewrite E6, D6. apply delete_delete_eq.
Qed.

(** ** Predictive previews *)

(** The order depends on the router only through the pin, when it does not
    rotate. *)
Lemma applyStrategyMode_agree r r' out req cfg t :
  negb (IsRotatingStrategy (strategy cfg)) &&
    (negb (String.eqb (strategy cfg) "ready_mesh") || negb (String.eqb (rq_SelectionKey req) "")
     || negb (String.eqb (rq_SessionKey req) "")) = true ->
  snd (pinned (r_sessions r) req cfg t t) = snd (pinned (r_sessions r') req cfg t t) ->
  snd (applyStrategyMode r out req cfg true t t) = snd (applyStrategyMode r' out req cfg false t t).
Proof.
  intros [Hrot Hkey]%andb_true_iff Hpin. unfold IsRotatingStrategy in Hrot.
  apply negb_true_iff, orb_false_iff in Hrot as [Hr1 Hr2].
  unfold applyStrategyMode. rewrite Hr1, Hr2.
  destruct (String.eqb (strategy cfg) "ready_mesh").
  { unfold orderReadyMesh. destruct (length _ <? 2)%nat; [done|].
    destruct (pinned (r_sessions r) req cfg t t) as [ss pin].
    destruct (pinned (r_sessions r') req cfg t t) as [ss' pin']. cbn [snd] in Hpin. subst pin'.
    destruct (promote_pin _ _); [done|]. cbv zeta. destruct (_ <? 2)%nat; [done|].
    assert (String.eqb (if String.eqb (rq_SelectionKey req) "" then rq_SessionKey req
      else rq_SelectionKey req) "" = false) as Hk.
    { cbn in Hkey. destruct (String.eqb (rq_SelectionKey req) "") eqn:E1; cbn in Hkey; [|exact E1].
      by apply negb_true_iff in Hkey. }
    rewrite Hk. done. }
  destruct (String.eqb (strategy cfg) "cost_aware").
  { unfold orderCostAware. destruct (length _ <? 2)%nat; [done|].
    destruct (pinned (r_sessions r) req cfg t t) as [ss pin].
    destruct (pinned (r_sessions r') req cfg t t) as [ss' pin']. cbn [snd] in Hpin. subst pin'. done. }
  repeat match goal with |- context [String.eqb (strategy cfg) ?s] => destruct (String.eqb (strategy cfg) s) end; done.
Qed.

Lemma explained_collect_agrees r req t :
  snd (explained_collect r req (fun _ => t)) = snd (collect r req (fun _ => t)).
Proof.
  unfold explained_collect, collect. destruct (candidate_source r req) as [src known].
  destruct (build_pure (r_health r) src req (r_cfg r) false (Scopes req) t) as [B1 S1].
  destruct (build_explained_pure (r_health r) ∅ src req (r_cfg r) false (Scopes req) t) as [B2 S2].
  destruct (build _ _ _ _ _ _ _) as [hm1 o1].
  destruct (build_explained _ _ _ _ _ _ _ _) as [[hm2 vs2] o2].
  cbn [fst snd] in *. rewrite B2, <- B1. destruct (_ && _ && _); [|done].
  destruct (build_pure hm1 (r_all r) req (r_cfg r) true (Scopes req) t) as [B3 _].
  destruct (build_explained_pure hm2 vs2 (r_all r) req (r_cfg r) true (Scopes req) t) as [B4 _].
  destruct (build hm1 _ _ _ _ _ _) as [hm3 o3]. cbn [fst snd] in *. rewrite B3, B4.
  apply list_omap_ext, Forall_Forall2_diag, Forall_true. intros x.
  by rewrite <- (verdict_same t _ _ _ _ _ _ _ S2), <- (verdict_same t _ _ _ _ _ _ _ S1).
Qed.

(** (C32) A preview that says it is predictive is exact: taken at one instant,
    the candidate order of [Explain] is the order [Candidates] gives live
    traffic from the same state, although the preview also records a verdict
    for every deployment and reads the session pin once more. *)
Theorem explain_predicts (r : Router) (parse : string -> option Time) (req : Requirement) (t : Time) :
  let e := snd (Explain r parse req (fun _ => t) (fun _ => t)) in
  ex_RotationPredictive e = true ->
  ex_Candidates e = snd (Candidates r req (fun _ => t) t t).
Proof.
  cbv zeta. pose proof (Explain_parts r parse req (fun _ => t) (fun _ => t)) as HE.
  pose proof (explained_collect_agrees r req t) as Hc. unfold Candidates.
  destruct (collect_frame r req (fun _ => t)) as (Hcfg & _ & _ & _ & _ & Hss).
  destruct (explained_collect r req (fun _ => t)) as [[hm vs] out].
  destruct (collect r req (fun _ => t)) as [r' out']. cbn [fst snd] in *. subst out'.
  destruct HE as (_ & -> & -> & _). intros Hpred.
  destruct (Nat.ltb_spec 1 (length out)), (Nat.leb_spec (length out) 1); try lia; [|done].
  rewrite Hcfg. apply applyStrategyMode_agree; [exact Hpred|]. rewrite Hss. cbn.
  unfold explained_sessions. destruct (rc_SessionAffinity (cfg_Routing (r_cfg r))) eqn:Ha; [|done].
  by rewrite pinned_idem.
Qed.

Lemma explain_predicts_witness :
  ex_RotationPredictive (snd (Explain (sample_router "ready_mesh") no_dates sample_req (fun _ => 30) (fun _ => 30))) = true /\
  ex_Candidates (snd (Explain (sample_router "ready_mesh") no_dates sample_req (fun _ => 30) (fun _ => 30)))
  = snd (Candidates (sample_router "ready_mesh") sample_req (fun _ => 30) 30 30).
Proof.
  split; [vm_compute; reflexivity|].
  apply (explain_predicts (sample_router "ready_mesh") no_dates sample_req 30). vm_compute. reflexivity.
Defined.
