(* ===== verification/RouterRotation.v ===== *)
(** * Rotation fairness and provider diversification

    Round robin gives each of the healthiest candidates the lead once per
    turn; the failover order spreads attempts over providers wherever the
    priority tier has another provider left. *)

From Stdlib Require Import Ascii.
From S2P Require Import Prelude Config Health HealthCircuit Conformance Hash Pricing Router RouterOrder RouterSamples RouterLemmas RouterProofs RouterPolicy.

(** ** Round robin *)

Definition rank (s : Scored) : Z := healthRank (sd_Status s).

(** The leading candidates of [n] consecutive requests that find the same
    candidates eligible. *)
Fixpoint serve (n : nat) (r : Router) (out : list Scored) (req : Requirement) (cfg : Config) (t : Time)
    : list (option Scored) :=
  match n with
  | O => []
  | S n => let '(r', o) := applyStrategy r out req cfg t t in head o :: serve n r' out req cfg t
  end.

Lemma rank_sorted out :
  StronglySorted (fun x y => rank x <= rank y) (slice_stable (rank_then id_less) out).
Proof.
  assert (forall x y, rank_then id_less x y = true -> rank x <= rank y) as H1.
  { intros x y. unfold rank_then, rank. destruct (Z.eqb_spec (healthRank (sd_Status x)) (healthRank (sd_Status y)));
      cbn; [lia|intros ?%Z.ltb_lt; lia]. }
  assert (forall x y, rank_then id_less x y = false -> rank y <= rank x) as H2.
  { intros x y. unfold rank_then, rank. destruct (Z.eqb_spec (healthRank (sd_Status x)) (healthRank (sd_Status y)));
      cbn; [lia|intros ?%Z.ltb_ge; lia]. }
  apply (slice_stable_sorted _ (fun _ => True)); [auto|auto|intros; lia|by apply Forall_true].
Qed.

(** In a list sorted by rank, the window is the set of best-ranked candidates. *)
Lemma prefix_filter x l : StronglySorted (fun x y => rank x <= rank y) (x :: l) ->
  take (prefix_len (fun s => rank s =? rank x) l) l = filter (fun s => rank s = rank x) l.
Proof.
  intros Hs. inversion Hs as [|? ? Hl Hall]; subst. clear Hs.
  induction Hl as [|y l Hl IH Hy]; [done|]. cbn [prefix_len].
  inversion Hall as [|? ? Hxy Hall']; subst. rewrite filter_cons.
  destruct (Z.eqb_spec (rank y) (rank x)) as [E|Hne]; cbn [take].
  - rewrite decide_True by done. f_equal. by apply IH.
  - rewrite decide_False by done. symmetry.
    assert (Forall (fun z => ~ rank z = rank x) l) as Hn.
    { eapply Forall_impl; [exact Hy|]. cbn. lia. }
    clear -Hn. induction Hn as [|z l Hz Hn IH]; [done|]. by rewrite filter_cons, decide_False.
Qed.

Lemma window_filter o x l : o = x :: l -> StronglySorted (fun x y => rank x <= rank y) o ->
  take (round_robin_window o) o = filter (fun s => rank s = rank x) o.
Proof.
  intros -> Hs. cbn [round_robin_window take]. rewrite filter_cons, decide_True by done.
  f_equal. by apply prefix_filter.
Qed.

Lemma rotate_window_head w off out : (0 < w <= length out)%nat ->
  head (rotate_window w off out) = out !! (off mod w)%nat.
Proof.
  intros Hw. destruct out as [|x out]; [cbn in *; lia|]. unfold rotate_window. cbn [imap head].
  destruct (Nat.ltb_spec 0 w); [|lia]. rewrite Nat.add_0_l.
  destruct ((x :: out) !! (off mod w)%nat) as [y|] eqn:E; [done|].
  apply lookup_ge_None in E. pose proof (Nat.mod_upper_bound off w). lia.
Qed.

Lemma round_robin_head r out req cfg t : strategy cfg = "round_robin" -> out <> [] ->
  0 <= r_rr r < 2 ^ 64 ->
  let o := slice_stable (rank_then id_less) out in
  let w := round_robin_window o in
  head (snd (applyStrategy r out req cfg t t)) = o !! (Z.to_nat (r_rr r) mod w)%nat /\
  ((1 < w)%nat -> r_rr (fst (applyStrategy r out req cfg t t)) = uint64 (r_rr r + 1)).
Proof.
  intros Hst Hne Hrr o w.
  assert (0 < w <= length o)%nat as Hw
    by (apply round_robin_window_le, slice_stable_nonempty; done).
  unfold applyStrategy, applyStrategyMode. rewrite Hst. cbn [String.eqb Ascii.eqb Bool.eqb].
  fold o. fold w. unfold rotate_if. destruct (Nat.ltb_spec 1 w) as [Hw1|Hw1].
  - unfold rotation. cbn [snd fst r_rr update]. split; [|done].
    rewrite rotate_window_head by done. f_equal.
    assert (uint64 (uint64 (r_rr r + 1) - 1) = r_rr r) as ->.
    { unfold uint64. rewrite Zminus_mod_idemp_l. replace (r_rr r + 1 - 1) with (r_rr r) by lia.
      by apply Z.mod_small. }
    rewrite Z2Nat.inj_mod, Nat2Z.id by lia. by rewrite Nat.Div0.mod_mod.
  - cbn [snd fst]. split; [|lia]. assert (w = 1)%nat as -> by lia. rewrite Nat.mod_1_r.
    destruct o as [|x o]; [cbn in *; lia|]. done.
Qed.

Lemma serve_lookup n r out req cfg t k : strategy cfg = "round_robin" -> out <> [] ->
  0 <= r_rr r -> r_rr r + Z.of_nat n <= 2 ^ 64 -> (k < n)%nat ->
  let o := slice_stable (rank_then id_less) out in
  let w := round_robin_window o in
  serve n r out req cfg t !! k = Some (o !! ((Z.to_nat (r_rr r) + k) mod w)%nat).
Proof.
  intros Hst Hne Hrr Hmax Hk o w. revert r k Hrr Hmax Hk. induction n as [|n IH]; intros r k Hrr Hmax Hk; [lia|].
  cbn [serve]. destruct (round_robin_head r out req cfg t) as [Hh Hr]; [done|done|lia|].
  fold o in Hh, Hr. fold w in Hh, Hr.
  destruct (applyStrategy r out req cfg t t) as [r' o']. cbn [fst snd] in *.
  destruct k as [|k]; [by rewrite Nat.add_0_r, Hh|].
  destruct (decide (1 < w)%nat) as [Hw|Hw].
  - assert (r_rr r' = r_rr r + 1) as E by (rewrite Hr by done; apply uint64_id; lia).
    change ((head o' :: serve n r' out req cfg t) !! S k) with (serve n r' out req cfg t !! k).
    rewrite IH by lia. rewrite E.
    by replace (Z.to_nat (r_rr r + 1) + k)%nat with (Z.to_nat (r_rr r) + S k)%nat by lia.
  - assert (w <> 0)%nat as Hw0 by (unfold w, round_robin_window; destruct o; lia).
    assert (w = 1)%nat as E1 by lia. rewrite E1, Nat.mod_1_r.
    assert (forall m q, serve m q out req cfg t = replicate m (o !! 0%nat)) as Hrep.
    { clear -Hst E1. induction m as [|m IHm]; intros q; [done|]. cbn [serve replicate].
      unfold applyStrategy, applyStrategyMode. rewrite Hst. cbn [String.eqb Ascii.eqb Bool.eqb].
      fold o. fold w. unfold rotate_if. rewrite E1. cbn [Nat.ltb Nat.leb]. rewrite IHm. f_equal.
      by destruct o. }
    rewrite Hrep. change ((head o' :: replicate n (o !! 0%nat)) !! S k) with (replicate n (o !! 0%nat) !! k).
    apply lookup_replicate_2. lia.
Qed.

Lemma length_serve n r out req cfg t : length (serve n r out req cfg t) = n.
Proof.
  revert r. induction n as [|n IH]; intros r; [done|]. cbn [serve].
  destruct (applyStrategy r out req cfg t t). cbn. by rewrite IH.
Qed.

(** The members of the lead rotation: the candidates of the best health rank. *)
Definition best_ranked (out : list Scored) (s : Scored) : Prop := Forall (fun x => rank s <= rank x) out.
#[export] Instance best_ranked_dec out s : Decision (best_ranked out s).
Proof. unfold best_ranked. apply _. Defined.

Lemma filter_iff_in {A} (P Q : A -> Prop) `{!forall x, Decision (P x), !forall x, Decision (Q x)} (l : list A) :
  (forall x, x ∈ l -> P x <-> Q x) -> filter P l = filter Q l.
Proof.
  induction l as [|x l IH]; intros Hpq; [done|]. rewrite !filter_cons.
  rewrite (decide_ext (P x) (Q x)) by (apply Hpq; by left).
  rewrite IH; [done|]. intros y Hy. apply Hpq. by right.
Qed.

Lemma filter_best o x l : o = x :: l -> StronglySorted (fun x y => rank x <= rank y) o ->
  filter (fun s => rank s = rank x) o = filter (best_ranked o) o.
Proof.
  intros -> Hs. apply filter_iff_in. intros s Hin.
  inversion Hs as [|? ? _ Hall]; subst. unfold best_ranked. split.
  - intros ->. constructor; [lia|done].
  - intros HF. rewrite Forall_cons in HF. destruct HF as [H1 _].
    apply elem_of_cons in Hin as [->|Hin]; [done|]. rewrite Forall_forall in Hall.
    specialize (Hall s Hin). lia.
Qed.

(** Round robin is fair: over as many consecutive requests as there are
    candidates of the best health rank, each of these leads exactly once
    (until the 64-bit counter wraps). *)
Theorem round_robin_fair (r : Router) (out : list Scored) (req : Requirement) (cfg : Config) (t : Time) :
  strategy cfg = "round_robin" -> out <> [] ->
  let n := length (filter (best_ranked out) out) in
  0 <= r_rr r -> r_rr r + Z.of_nat n <= 2 ^ 64 ->
  serve n r out req cfg t ≡ₚ Some <$> filter (best_ranked out) out.
Proof.
  intros Hst Hne n Hrr Hmax. set (o := slice_stable (rank_then id_less) out).
  pose proof (slice_stable_perm (rank_then id_less) out) as Hperm. fold o in Hperm.
  assert (o <> []) as Hone by by apply slice_stable_nonempty.
  assert (take (round_robin_window o) o = filter (best_ranked o) o) as Hwin.
  { destruct o as [|x l] eqn:Ho; [done|]. rewrite (window_filter (x :: l) x l), (filter_best (x :: l) x l);
      try done; rewrite <- Ho; apply rank_sorted. }
  assert (filter (best_ranked o) o ≡ₚ filter (best_ranked out) out) as Hf.
  { rewrite (list_filter_iff (best_ranked o) (best_ranked out) o).
    - by apply filter_Permutation.
    - intros s. unfold best_ranked. by rewrite Hperm. }
  pose proof (round_robin_window_le o Hone) as Hw.
  assert (round_robin_window o = n) as Hwn.
  { unfold n. rewrite <- (Permutation_length Hf), <- Hwin, length_take. lia. }
  rewrite <- Hf, <- Hwin, <- (rotate_perm (Z.to_nat (r_rr r)) (take (round_robin_window o) o)).
  assert (serve n r out req cfg t = Some <$> rotate (Z.to_nat (r_rr r)) (take (round_robin_window o) o)) as ->; [|done].
  assert (length (take (round_robin_window o) o) = round_robin_window o) as Hl by (rewrite length_take; lia).
  apply list_eq. intros k. destruct (decide (k < n)%nat) as [Hk|Hk].
  - rewrite serve_lookup by done. fold o. rewrite list_lookup_fmap, lookup_rotate_r by lia.
    rewrite Hl. unfold rotate_nat_add.
    rewrite <- Nat2Z.inj_add, <- Nat2Z.inj_mod, Nat2Z.id.
    pose proof (Nat.mod_upper_bound (Z.to_nat (r_rr r) + k) (round_robin_window o)) as Hm.
    rewrite lookup_take_lt by lia.
    destruct (o !! _) eqn:E; [done|]. apply lookup_ge_None in E. lia.
  - rewrite !lookup_ge_None_2; [done|rewrite length_fmap, length_rotate; lia|rewrite length_serve; lia].
Qed.

(** ** Provider diversification *)

(** At position [i] the attempt repeats the previous provider only if the rest
    of its tier has no other provider left. *)
Definition diverse_at (out : list Scored) (i : nat) : Prop :=
  forall x p, out !! i = Some x -> out !! (i - 1)%nat = Some p -> sd_ProviderID x = sd_ProviderID p ->
  forall j y, (i < j)%nat -> out !! j = Some y ->
  (forall k z, (i <= k <= j)%nat -> out !! k = Some z -> sd_Priority z = sd_Priority x) ->
  sd_ProviderID y = sd_ProviderID p.

Lemma find_pick_None prev prio l n : find_pick prev prio l n = None ->
  forall j y, l !! j = Some y ->
  (forall k z, (k <= j)%nat -> l !! k = Some z -> sd_Priority z = prio) -> sd_ProviderID y = prev.
Proof.
  revert n. induction l as [|x l IH]; intros n; [done|]. cbn [find_pick]. intros Hp j y Hj Hall.
  assert (sd_Priority x = prio) as Hx by (apply (Hall 0%nat); [lia|done]).
  rewrite (proj2 (Z.eqb_eq _ _) Hx) in Hp.
  destruct (String.eqb_spec (sd_ProviderID x) prev) as [E|]; [|done]. cbn [negb] in Hp.
  destruct j as [|j]; [by injection Hj as <-|].
  apply (IH _ Hp j); [done|]. intros k z Hk Hz. apply (Hall (S k)); [lia|done].
Qed.

(** A move touches no position outside [[i, pick]] and keeps the range's elements. *)
Lemma move_to_lookup i pick out j y : (i <= pick)%nat -> move_to i pick out !! j = Some y ->
  (out !! j = Some y /\ ~ (i <= j <= pick)%nat) \/
  ((i <= j <= pick)%nat /\ exists j', (i <= j' <= pick)%nat /\ out !! j' = Some y) \/
  out !! pick = None.
Proof.
  intros Hle. destruct (out !! pick) as [c|] eqn:Hc; [|by right; right].
  destruct (move_to_split i pick out c Hle Hc) as (A & B & C & Hout & HA & HB & ->).
  intros Hj. apply lookup_app_Some in Hj as [Hj|[Hge Hj]].
  { left. pose proof (lookup_lt_Some _ _ _ Hj). rewrite Hout, lookup_app_l by done. split; [done|lia]. }
  destruct (j - length A)%nat as [|n] eqn:Hn.
  { right; left. injection Hj as <-. split; [lia|]. exists pick. split; [lia|done]. }
  change ((B ++ C) !! n = Some y) in Hj. apply lookup_app_Some in Hj as [Hj|[Hge2 Hj]].
  - right; left. pose proof (lookup_lt_Some _ _ _ Hj). split; [lia|]. exists (i + n)%nat. split; [lia|].
    rewrite Hout, lookup_app_r by lia. replace (i + n - length A)%nat with n by lia.
    by rewrite lookup_app_l.
  - left. split; [|lia]. rewrite Hout, lookup_app_r by lia. rewrite Hn, lookup_app_r by lia.
    by replace (S n - length B)%nat with (S (n - length B)) by lia.
Qed.

Lemma diversify_at_establishes i out : (1 <= i)%nat -> diverse_at (diversify_at i out) i.
Proof.
  intros Hi x p Hx Hp Heq. revert Hx Hp. unfold diversify_at.
  destruct (out !! i) as [x0|] eqn:Hx0; [|congruence].
  destruct (out !! (i - 1)%nat) as [p0|] eqn:Hp0; [|congruence].
  destruct (String.eqb_spec (sd_ProviderID x0) (sd_ProviderID p0)) as [E|Hne]; cbn [negb]; [|congruence].
  destruct (find_pick _ _ _ _) as [pick|] eqn:Hf.
  - apply find_pick_spec in Hf as (Hle & (s & Hs & Hd) & _).
    rewrite lookup_drop in Hs. replace (S i + (pick - S i))%nat with pick in Hs by lia.
    destruct (move_to_split i pick out s) as (A & B & C & Hout & HA & HB & ->); [lia|done|].
    rewrite lookup_app_r, HA, Nat.sub_diag by lia. intros [= <-].
    rewrite lookup_app_l by lia. intros Hp. rewrite Hout, lookup_app_l in Hp0 by lia. congruence.
  - intros Hx Hp j y Hj Hy Hall. assert (x = x0) as -> by congruence. assert (p = p0) as -> by congruence.
    apply (find_pick_None _ _ _ _ Hf (j - S i)%nat).
    + rewrite lookup_drop. by replace (S i + (j - S i))%nat with j by lia.
    + intros k z Hk Hz. rewrite lookup_drop in Hz. apply (Hall (S i + k)%nat); [lia|done].
Qed.

Lemma diversify_at_preserves i i' out : (i < i')%nat -> diverse_at out i -> diverse_at (diversify_at i' out) i.
Proof.
  intros Hii Hd. destruct (diversify_at_cases i' out) as [->|(pick & c & Hlt & Hc & E & Htier)]; [done|].
  pose proof (diversify_at_priority i' out) as Hprio. rewrite E in *.
  intros x p Hx Hp Heq j y Hij Hy Hall.
  assert (forall k z, out !! k = Some z -> exists z', move_to i' pick out !! k = Some z' /\ sd_Priority z' = sd_Priority z) as Hsame.
  { intros k z Hz. apply (f_equal (lookup k)) in Hprio. rewrite !list_lookup_fmap, Hz in Hprio.
    cbn in Hprio. apply fmap_Some in Hprio as (z' & ? & ?). by exists z'. }
  assert (forall k z, (k < i')%nat -> move_to i' pick out !! k = Some z -> out !! k = Some z) as Hfix.
  { intros k z Hk Hz. rewrite <- E in Hz.
    rewrite <- (lookup_take_lt _ i' k) in Hz by done.
    rewrite diversify_at_take in Hz by lia. by rewrite lookup_take_lt in Hz. }
  assert (forall k z, (i <= k <= j)%nat -> out !! k = Some z -> sd_Priority z = sd_Priority x) as Hall'.
  { intros k z Hk Hz. destruct (Hsame k z Hz) as (z' & Hz' & <-). by apply (Hall k). }
  destruct (move_to_lookup i' pick out j y) as [[Hy' _]|[[Hj (j' & Hj' & Hy')]|Hn]]; [lia|done| | |].
  - apply (Hd x p) with (j := j); auto; apply Hfix; auto; lia.
  - apply (Hd x p) with (j := j'); auto; try (apply Hfix; auto; lia); [lia|].
    assert (sd_Priority c = sd_Priority x) as Hcx by (apply (Hall' i'); [lia|done]).
    intros k z Hk Hz. destruct (decide (k <= j)%nat); [apply (Hall' k); [lia|done]|].
    rewrite <- Hcx. apply (Htier k); [lia|done].
  - unfold move_to in Hy. rewrite Hn in Hy. apply (Hd x p) with (j := j); auto; apply Hfix; auto; lia.
Qed.

Lemma diversify_loop_diverse n start out i : (1 <= start)%nat ->
  (start <= i < start + n)%nat -> diverse_at (diversify_loop n start out) i.
Proof.
  intros Hs Hi.
  assert (forall m k o, (i < k)%nat -> diverse_at o i -> diverse_at (diversify_loop m k o) i) as Hkeep.
  { induction m as [|m IH]; intros k o Hk Hd; [done|]. cbn [diversify_loop].
    apply IH; [lia|]. by apply diversify_at_preserves. }
  revert start out Hs Hi. induction n as [|n IH]; intros start out Hs Hi; [lia|]. cbn [diversify_loop].
  destruct (decide (i = start)) as [->|Hne].
  - apply Hkeep; [lia|]. by apply diversify_at_establishes.
  - apply IH; lia.
Qed.

(** Failover is diversified: within the attempts a request can make, two
    consecutive ones go to the same provider only when the rest of the priority
    tier offers no other provider; the primary choice and the tier order are
    untouched. *)
Theorem failover_diversified (out : list Scored) (limit : Z) (i : nat) :
  (1 <= i < length out)%nat -> (limit <= 0 \/ Z.of_nat i < limit) ->
  let out' := diversifyProviderFailover out 1 limit in
  diverse_at out' i /\ head out' = head out /\ sd_Priority <$> out' = sd_Priority <$> out.
Proof.
  intros Hi Hl out'. split_and!; [|apply diversify_head|apply diversify_priority].
  unfold out', diversifyProviderFailover. cbn [Nat.ltb Nat.leb]. apply diversify_loop_diverse; [done|].
  destruct (Z.ltb_spec 0 limit), (Z.ltb_spec limit (Z.of_nat (length out))); cbn; lia.
Qed.

(** ** Witnesses *)

Definition sample_out : list Scored := snd (collect (sample_router "round_robin") sample_req at_30).
Lemma round_robin_fair_witness :
  length (filter (best_ranked sample_out) sample_out) = 3%nat /\
  serve (length (filter (best_ranked sample_out) sample_out)) (sample_router "round_robin") sample_out sample_req
    (sample_cfg "round_robin") 30 ≡ₚ Some <$> filter (best_ranked sample_out) sample_out.
Proof.
  assert (length (filter (best_ranked sample_out) sample_out) = 3%nat) as Hn by (vm_compute; reflexivity).
  split; [exact Hn|]. apply (round_robin_fair (sample_router "round_robin") sample_out sample_req).
  - reflexivity.
  - vm_compute. discriminate.
  - vm_compute. discriminate.
  - rewrite Hn. vm_compute. discriminate.
Defined.

(** The second attempt moves to the other provider. *)
Lemma failover_diversified_witness :
  sd_ProviderID <$> diversifyProviderFailover sample_out 1 3 = ["p1"; "p2"; "p1"] /\
  diverse_at (diversifyProviderFailover sample_out 1 3) 1.
Proof.
  split; [vm_compute; reflexivity|].
  apply (failover_diversified sample_out 3 1); [vm_compute; lia|right; vm_compute; reflexivity].
Defined.
