(* ===== verification/RouterIndex.v ===== *)
(** * Routing tables and session state

    What [Reload] builds, the invariant every router operation keeps, and the
    agreement of the per-attempt re-check [Eligible] with [Candidates]. *)

From Stdlib Require Import Ascii.
From stdpp Require Import relations.
From S2P Require Import Prelude Config Health HealthCircuit Conformance Hash Pricing Router RouterOrder RouterSamples RouterLemmas RouterProofs RouterPolicy RouterExplain.

(** ** The model index *)

Lemma index_keys_elem seen keys key :
  key ∈ index_keys seen keys <-> key ∈ keys /\ key <> "" /\ key ∉ seen.
Proof.
  revert seen. induction keys as [|k keys IH]; intros seen; cbn [index_keys]; [set_solver|].
  destruct (String.eqb_spec k "") as [->|Hk]; [rewrite IH; set_solver|].
  case_bool_decide; [rewrite IH; set_solver|].
  rewrite elem_of_cons, IH, !not_elem_of_cons, elem_of_cons. destruct (decide (key = k)); naive_solver.
Qed.

Lemma index_keys_NoDup seen keys : NoDup (index_keys seen keys).
Proof.
  revert seen. induction keys as [|k keys IH]; intros seen; cbn [index_keys]; [constructor|].
  destruct (String.eqb k ""); [done|]. case_bool_decide; [done|].
  constructor; [|done]. rewrite index_keys_elem, not_elem_of_cons. naive_solver.
Qed.

(** The keys under which a deployment is indexed. *)
Definition indexed_by (key : string) (dm : Deployment * string) : Prop :=
  key <> "" /\ key ∈ [d_ID (fst dm); d_Model (fst dm); snd dm] ++ d_Aliases (fst dm).
#[export] Instance indexed_by_dec key dm : Decision (indexed_by key dm).
Proof. unfold indexed_by. apply _. Defined.

Lemma append_keys_get (d : Deployment) ks (byModel : gmap string (list Deployment)) key : NoDup ks ->
  map_get [] (fold_left (fun byModel k => <[k := map_get [] byModel k ++ [d]]> byModel) ks byModel) key =
  map_get [] byModel key ++ (if decide (key ∈ ks) then [d] else []).
Proof.
  intros Hnd. revert byModel. induction Hnd as [|k ks Hk Hnd IH]; intros byModel; cbn [fold_left].
  - rewrite decide_False by apply not_elem_of_nil. by rewrite app_nil_r.
  - rewrite IH. clear IH. unfold map_get at 1. destruct (decide (key = k)) as [->|Hne].
    + rewrite lookup_insert_eq. cbn. rewrite decide_False by done.
      rewrite decide_True by (apply elem_of_cons; by left). by rewrite app_nil_r.
    + rewrite lookup_insert_ne by done. fold (map_get [] byModel key).
      rewrite (decide_ext (key ∈ ks) (key ∈ k :: ks)); [done|]. rewrite elem_of_cons. naive_solver.
Qed.

Lemma index_model_get byModel dm key :
  map_get [] (index_model byModel dm) key =
  map_get [] byModel key ++ (if decide (indexed_by key dm) then [fst dm] else []).
Proof.
  destruct dm as [d mid]. unfold index_model. rewrite append_keys_get by apply index_keys_NoDup.
  f_equal. apply decide_ext. rewrite index_keys_elem. unfold indexed_by. cbn [fst snd]. set_solver.
Qed.

Lemma index_models_get built byModel key :
  map_get [] (fold_left index_model built byModel) key =
  map_get [] byModel key ++ (filter (indexed_by key) built).*1.
Proof.
  revert byModel. induction built as [|dm built IH]; intros byModel; cbn [fold_left].
  - by rewrite app_nil_r.
  - rewrite IH, index_model_get, filter_cons. destruct (decide (indexed_by key dm));
      cbn; by rewrite <- app_assoc.
Qed.

(** Entries of the index are never empty lists. *)
Lemma index_models_nonempty built byModel :
  map_Forall (fun _ ds => ds <> []) byModel ->
  map_Forall (fun _ ds => ds <> []) (fold_left index_model built byModel).
Proof.
  revert byModel. induction built as [|[d mid] built IH]; intros byModel Hb; [done|]. cbn [fold_left].
  apply IH. unfold index_model. generalize (index_keys [] ([d_ID d; d_Model d; mid] ++ d_Aliases d)).
  intros ks. revert byModel Hb. induction ks as [|k ks IHk]; intros byModel Hb; [done|]. cbn [fold_left].
  apply IHk. apply map_Forall_insert_2; [|done]. by destruct (map_get [] byModel k).
Qed.

Lemma matchesModel_indexed book t p m key :
  let d := build_deployment book t p m in
  indexed_by key (d, mc_ID m) -> matchesModel d key = true.
Proof.
  intros d [Hne Hin]. unfold matchesModel. destruct (any_model key); [done|].
  assert (d_ID d = pc_ID p +:+ "/" +:+ mc_ID m) as HID.
  { unfold d, build_deployment. by destruct (Resolve _ _ _) as [[]|]. }
  cbn [fst snd] in Hin. rewrite elem_of_app, !elem_of_cons in Hin.
  destruct (String.eqb_spec (d_ID d) key) as [|Hn1]; [done|].
  destruct (String.eqb_spec (d_Model d) key) as [|Hn2]; [done|]. cbn [orb].
  destruct (existsb _ (d_Aliases d)) eqn:He; [done|].
  apply HasSuffix_spec. exists (pc_ID p). rewrite HID.
  destruct Hin as [[->|[->|[->|Hnil]]]|Hal]; [done|done|done|by apply elem_of_nil in Hnil|].
  apply not_true_iff_false in He. destruct He. apply existsb_exists. exists key.
  split; [by apply list_elem_of_In|apply String.eqb_refl].
Qed.

Lemma build_deployments_elem book t cfg d mid : (d, mid) ∈ build_deployments book t cfg ->
  exists p m, d = build_deployment book t p m /\ mid = mc_ID m /\ (p, m) ∈ enabled_models cfg.
Proof.
  unfold build_deployments. intros ([p m] & Heq & Hin)%list_elem_of_In%in_map_iff.
  injection Heq as <- <-. exists p, m. split_and!; [done|done|]. by apply list_elem_of_In.
Qed.

Lemma fold_byID_get (all : list Deployment) (m0 : gmap string Deployment) id : NoDup (d_ID <$> all) -> forall d, d ∈ all ->
  id = d_ID d -> fold_left (fun m d => <[d_ID d := d]> m) all m0 !! id = Some d.
Proof.
  revert m0. induction all as [|x all IH]; intros m0 Hnd d Hd ->; [by apply elem_of_nil in Hd|].
  rewrite fmap_cons in Hnd. apply NoDup_cons in Hnd as [Hx Hnd]. cbn [fold_left].
  apply elem_of_cons in Hd as [->|Hd]; [|by apply IH].
  clear IH. assert (forall (l : list Deployment) (m : gmap string Deployment), d_ID x ∉ d_ID <$> l ->
    fold_left (fun m d => <[d_ID d := d]> m) l m !! d_ID x = m !! d_ID x) as Hkeep.
  { induction l as [|y l IHl]; intros m Hn; [done|]. cbn [fold_left].
    rewrite fmap_cons, not_elem_of_cons in Hn. destruct Hn as [Hn1 Hn2].
    rewrite IHl by done. by rewrite lookup_insert_ne. }
  rewrite Hkeep by done. apply lookup_insert_eq.
Qed.

(** ** The router invariant *)

Record wf_router (r : Router) : Prop := {
  wf_byID : forall d, d ∈ r_all r -> r_byID r !! d_ID d = Some d;
  wf_byModel : forall key ds, r_byModel r !! key = Some ds -> key <> "" ->
    ds <> [] /\ forall d, d ∈ ds -> d ∈ r_all r /\ matchesModel d key = true;
  wf_sessions : (size (r_sessions r) <= maxSessionPins)%nat
}.

(** Configuration validation rejects duplicate deployment identifiers. *)
Definition distinct_ids (cfg : Config) : Prop :=
  NoDup ((fun '(p, m) => pc_ID p +:+ "/" +:+ mc_ID m) <$> enabled_models cfg).

Lemma build_ids book t cfg :
  d_ID <$> (build_deployments book t cfg).*1 =
  (fun '(p, m) => pc_ID p +:+ "/" +:+ mc_ID m) <$> enabled_models cfg.
Proof.
  unfold build_deployments. rewrite <- !list_fmap_compose. apply list_fmap_ext.
  intros i [p m] _. cbn. unfold build_deployment. by destruct (Resolve _ _ _) as [[]|].
Qed.

Lemma size_filter_le {A} (P : string * A -> Prop) `{!forall x, Decision (P x)} (m : gmap string A) :
  (size (filter P m) <= size m)%nat.
Proof. apply map_subseteq_size, map_filter_subseteq. Qed.

Lemma Reload_wf r parse cfg bookNow now : distinct_ids cfg ->
  (size (r_sessions r) <= maxSessionPins)%nat -> wf_router (Reload r parse cfg bookNow now).
Proof.
  intros Hnd Hss.
  set (built := build_deployments (FromConfig parse cfg) bookNow cfg).
  assert (r_all (Reload r parse cfg bookNow now) = built.*1 /\
    r_byID (Reload r parse cfg bookNow now) = fold_left (fun m d => <[d_ID d := d]> m) built.*1 ∅ /\
    r_byModel (Reload r parse cfg bookNow now) = fold_left index_model built ∅) as (Ha & Hb & Hm).
  { unfold Reload. by destruct (negb _). }
  constructor.
  - intros d Hd. rewrite Hb. rewrite Ha in Hd. apply fold_byID_get; [|done|done].
    unfold built. rewrite build_ids. exact Hnd.
  - intros key ds Hk Hne. rewrite Hm in Hk. rewrite Ha. split.
    + apply (index_models_nonempty built ∅ (map_Forall_empty _) key ds Hk).
    + intros d Hd. pose proof (index_models_get built ∅ key) as Hg.
      unfold map_get in Hg. rewrite Hk, lookup_empty in Hg. cbn in Hg. rewrite Hg in Hd.
      apply list_elem_of_fmap in Hd as ([d' mid] & -> & [Hi Hin]%list_elem_of_filter). cbn [fst].
      split; [apply list_elem_of_fmap; by exists (d', mid)|].
      destruct (build_deployments_elem _ _ _ _ _ Hin) as (p & m & -> & -> & _).
      by apply matchesModel_indexed.
  - unfold Reload. destruct (negb _); [apply Nat.le_0_l|]. cbn.
    etransitivity; [apply size_filter_le|done].
Qed.

(** The routing tables answer for the configuration: after a reload the
    model index lists, in declaration order, exactly the enabled deployments
    whose identifier, model, model ID or alias is the requested name, all of
    them pass the model check, and the surviving session pins are unexpired and
    name deployments of the new configuration. *)
Theorem reload_index_exact (r : Router) (parse : string -> option Time) (cfg : Config)
    (bookNow now : Time) (key : string) :
  key <> "" ->
  let r' := Reload r parse cfg bookNow now in
  let built := build_deployments (FromConfig parse cfg) bookNow cfg in
  map_get [] (r_byModel r') key = (filter (indexed_by key) built).*1 /\
  (forall d, d ∈ map_get [] (r_byModel r') key -> matchesModel d key = true) /\
  (forall k pin, r_sessions r' !! k = Some pin ->
     now <= sp_Expires pin /\ sp_Deployment pin ∈ d_ID <$> r_all r').
Proof.
  intros Hne r' built.
  assert (r_all r' = built.*1 /\ r_byModel r' = fold_left index_model built ∅) as (Ha & Hm).
  { unfold r', Reload. by destruct (negb _). }
  assert (map_get [] (r_byModel r') key = (filter (indexed_by key) built).*1) as Hg.
  { rewrite Hm, index_models_get. unfold map_get. by rewrite lookup_empty. }
  split_and!; [done| |].
  - intros d Hd. rewrite Hg in Hd.
    apply list_elem_of_fmap in Hd as ([d' mid] & -> & [Hi Hin]%list_elem_of_filter).
    destruct (build_deployments_elem _ _ _ _ _ Hin) as (p & m & -> & -> & _). by apply matchesModel_indexed.
  - intros k pin. rewrite Ha. unfold r', Reload. destruct (negb _); cbn; [by rewrite lookup_empty|].
    intros [_ [Hv He]]%map_lookup_filter_Some. unfold After in He.
    split; [by apply Z.ltb_ge in He|]. by apply elem_of_list_to_set in Hv.
Qed.

(** ** Operations keep the invariant *)

Inductive router_step : Router -> Router -> Prop :=
  | step_reload r parse cfg bookNow now : distinct_ids cfg ->
      router_step r (Reload r parse cfg bookNow now)
  | step_candidates r req clk now now2 : router_step r (fst (Candidates r req clk now now2))
  | step_explain r parse req clk tm : router_step r (fst (Explain r parse req clk tm))
  | step_eligible r id req now now2 : router_step r (fst (Eligible r id req now now2))
  | step_pinned r req now now2 : router_step r (fst (PinnedDeploymentID r req now now2))
  | step_observe r req id victim now : router_step r (ObserveSession r req id victim now)
  | step_observe_cache r req id i c : router_step r (ObserveSessionCache r req id i c)
  | step_count r now : router_step r (fst (SessionCount r now))
  | step_readiness r st clk : router_step r (fst (Readiness r st clk))
  | step_health r hm : router_step r (r <| r_health := hm |>).

(** The tables are the same and no pin was added. *)
Definition tables_kept (r r' : Router) : Prop :=
  r_cfg r' = r_cfg r /\ r_all r' = r_all r /\ r_byID r' = r_byID r /\ r_byModel r' = r_byModel r /\
  r_sessions r' ⊆ r_sessions r.

#[export] Instance tables_kept_preorder : PreOrder tables_kept.
Proof.
  split; [done|]. intros r1 r2 r3 (?&?&?&?&?) (?&?&?&?&?).
  split_and!; try congruence. by transitivity (r_sessions r2).
Qed.

Lemma tables_kept_wf r r' : tables_kept r r' -> wf_router r -> wf_router r'.
Proof.
  intros (Hc & Ha & Hb & Hm & Hs) [W1 W2 W3]. constructor.
  - rewrite Ha, Hb. done.
  - rewrite Hm, Ha. done.
  - etransitivity; [by apply map_subseteq_size|done].
Qed.

Lemma pinned_subset sessions req cfg now now2 : fst (pinned sessions req cfg now now2) ⊆ sessions.
Proof.
  destruct (pinned_cases sessions req cfg now now2) as [->|(pin & _ & _ & ->)]; [done|].
  apply delete_subseteq.
Qed.

Lemma pinned_kept r req cfg now now2 :
  tables_kept r (r <| r_sessions := fst (pinned (r_sessions r) req cfg now now2) |>).
Proof. split_and!; try done. apply pinned_subset. Qed.

Lemma applyStrategyMode_kept r out req cfg sim now now2 :
  tables_kept r (fst (applyStrategyMode r out req cfg sim now now2)) /\
  r_health (fst (applyStrategyMode r out req cfg sim now now2)) = r_health r.
Proof.
  pose proof (pinned_kept r req cfg now now2) as Hp. unfold applyStrategyMode.
  assert (forall w o, tables_kept r (fst (rotate_if r req sim w o)) /\
    r_health (fst (rotate_if r req sim w o)) = r_health r) as Hrot.
  { intros w o. unfold rotate_if, rotation. destruct (1 <? w)%nat, sim; done. }
  repeat match goal with |- context [String.eqb (strategy cfg) ?s] => destruct (String.eqb (strategy cfg) s) end;
    try apply Hrot; try done.
  - unfold orderReadyMesh. destruct (length _ <? 2)%nat; [done|].
    destruct (pinned _ _ _ _ _) as [ss pin]. cbn [fst] in Hp.
    destruct (promote_pin _ _); [done|]. cbv zeta. destruct (_ <? 2)%nat; [done|].
    by destruct (_ && negb sim).
  - unfold orderCostAware. destruct (length _ <? 2)%nat; [done|].
    by destruct (pinned _ _ _ _ _) as [ss pin].
Qed.

Lemma collect_kept r req clk : tables_kept r (fst (collect r req clk)).
Proof. destruct (collect_frame r req clk) as (?&?&?&?&_&Hs). unfold tables_kept. by rewrite Hs. Qed.

Lemma Candidates_kept r req clk now now2 : tables_kept r (fst (Candidates r req clk now now2)).
Proof.
  unfold Candidates. pose proof (collect_kept r req clk) as Hk.
  destruct (collect r req clk) as [r' out]. destruct (length out <=? 1)%nat; [done|].
  etransitivity; [exact Hk|]. apply applyStrategyMode_kept.
Qed.

Lemma Explain_kept r parse req clk tm : tables_kept r (fst (Explain r parse req clk tm)).
Proof.
  pose proof (Explain_parts r parse req clk tm) as HE.
  destruct (explained_collect r req clk) as [[hm vs] out]. cbv zeta in HE. destruct HE as (-> & _).
  set (r1 := r <| r_sessions := _ |> <| r_health := hm |>).
  assert (tables_kept r r1) as H1.
  { split_and!; try done. cbn. unfold explained_sessions. destruct (rc_SessionAffinity _); [|done].
    apply pinned_subset. }
  destruct (1 <? length out)%nat; [|done]. etransitivity; [exact H1|]. apply applyStrategyMode_kept.
Qed.

Lemma evict_one_size victim sessions : sessions <> ∅ ->
  (S (size (evict_one victim sessions)) = size sessions)%nat.
Proof.
  intros Hne. unfold evict_one. destruct (sessions !! victim) as [p|] eqn:E.
  - rewrite map_size_delete_Some by eauto.
    assert (size sessions <> 0%nat) by (apply map_size_non_empty_iff; done). lia.
  - destruct (map_to_list sessions) as [|[k p] l] eqn:Hl; [by apply map_to_list_empty_iff in Hl|].
    assert (sessions !! k = Some p) as Hk by (apply elem_of_map_to_list; rewrite Hl; by left).
    rewrite map_size_delete_Some by eauto.
    assert (size sessions <> 0%nat) by (apply map_size_non_empty_iff; done). lia.
Qed.

Lemma ObserveSession_size r req id victim now :
  (size (r_sessions r) <= maxSessionPins)%nat ->
  (size (r_sessions (ObserveSession r req id victim now)) <= maxSessionPins)%nat.
Proof.
  intros Hs. unfold ObserveSession. destruct (_ || _ || _); [done|]. cbv zeta. cbn [r_sessions update].
  set (key := affinityBucket req).
  destruct (r_sessions r !! key) as [p|] eqn:E.
  - rewrite bool_decide_false by done. cbn [andb]. rewrite map_size_insert_Some by (rewrite E; eauto). done.
  - rewrite bool_decide_true by done. cbn [andb].
    destruct (Nat.leb_spec maxSessionPins (size (r_sessions r))) as [Hge|Hlt].
    + assert (r_sessions r <> ∅) as Hne.
      { intros H0. rewrite H0, map_size_empty in Hge. unfold maxSessionPins in Hge. lia. }
      pose proof (evict_one_size victim (r_sessions r) Hne).
      rewrite map_size_insert. destruct (evict_one victim (r_sessions r) !! key); cbn; lia.
    + rewrite map_size_insert_None by done. lia.
Qed.

Lemma router_step_wf r r' : router_step r r' -> wf_router r -> wf_router r'.
Proof.
  intros Hstep W.
  destruct Hstep as [r parse cfg bookNow now Hd|r req clk now now2|r parse req clk tm|r id req now now2
    |r req now now2|r req id victim now|r req id i c|r now|r st clk|r hm].
  - apply Reload_wf; [done|by apply wf_sessions].
  - apply (tables_kept_wf r); [apply Candidates_kept|done].
  - apply (tables_kept_wf r); [apply Explain_kept|done].
  - apply (tables_kept_wf r); [|done]. unfold Eligible. destruct (r_byID r !! id); [|done]. cbv zeta.
    by destruct (eligibleDeployment _ _ _ _ _ _ _ _).
  - apply (tables_kept_wf r); [|done]. unfold PinnedDeploymentID.
    pose proof (pinned_kept r req (r_cfg r) now now2) as Hp. by destruct (pinned _ _ _ _ _).
  - destruct W as [W1 W2 W3]. constructor; [| |by apply ObserveSession_size].
    all: unfold ObserveSession; destruct (_ || _ || _); [done|]; exact W1 || exact W2.
  - destruct W as [W1 W2 W3].
    assert (size (r_sessions (ObserveSessionCache r req id i c)) <= maxSessionPins)%nat as Hs.
    { unfold ObserveSessionCache. destruct (_ || _ || _); [done|]. cbv zeta.
      destruct (r_sessions r !! affinityBucket req) as [pin|] eqn:E; [|done]. destruct (negb _); [done|].
      cbn [r_sessions update]. rewrite map_size_insert_Some by (rewrite E; eauto). done. }
    constructor; [| |done].
    all: unfold ObserveSessionCache; destruct (_ || _ || _); [done|]; cbv zeta;
      destruct (r_sessions r !! affinityBucket req); [|done]; destruct (negb _); done.
  - apply (tables_kept_wf r); [|done]. split_and!; try done. cbn. apply map_filter_subseteq.
  - apply (tables_kept_wf r); [|done]. unfold Readiness. by destruct (count_usable _ _ _ _).
  - by apply (tables_kept_wf r).
Qed.

(** Along any sequence of router operations, configuration reloads and
    outside changes of health, the tables stay consistent (every deployment is
    found by its identifier, every index entry is non-empty and lists matching
    deployments only) and at most [maxSessionPins] session pins are held. *)
Theorem router_invariant (parse : string -> option Time) (cfg : Config) (hm : Manager)
    (bookNow now : Time) (r : Router) :
  distinct_ids cfg -> rtc router_step (New parse cfg hm bookNow now) r -> wf_router r.
Proof.
  intros Hd Hrtc. assert (wf_router (New parse cfg hm bookNow now)) as W.
  { apply Reload_wf; [done|]. cbn. rewrite map_size_empty. lia. }
  induction Hrtc as [|r1 r2 r3 Hs _ IH]; [done|]. apply IH. by apply (router_step_wf r1).
Qed.

(** ** The per-attempt re-check *)

Lemma collect_pure r req t :
  same_view t (r_health r) (r_health (fst (collect r req (fun _ => t)))) /\
  forall s, s ∈ snd (collect r req (fun _ => t)) ->
    exists d ig, verdict (r_health r) t req (r_cfg r) ig (Scopes req) d = inr s /\
      if ig then d ∈ r_all r /\ uses_fallback r req = true else d ∈ fst (candidate_source r req).
Proof.
  unfold collect, uses_fallback. destruct (candidate_source r req) as [src known].
  destruct (build_pure (r_health r) src req (r_cfg r) false (Scopes req) t) as [B1 S1].
  destruct (build _ _ _ _ _ _ _) as [hm1 o1]. cbn [fst snd] in *.
  assert (forall ig (ds : list Deployment) s, s ∈ omap (fun d => included (verdict (r_health r) t req (r_cfg r) ig (Scopes req) d)) ds ->
    exists d, d ∈ ds /\ verdict (r_health r) t req (r_cfg r) ig (Scopes req) d = inr s) as Hel.
  { intros ig ds s (d & Hd & Hv)%list_elem_of_omap. exists d. split; [done|].
    destruct (verdict _ _ _ _ _ _ _); [done|]. by injection Hv as ->. }
  destruct ((length o1 =? 0)%nat && negb known && _) eqn:Hf.
  - destruct (build_pure hm1 (r_all r) req (r_cfg r) true (Scopes req) t) as [B2 S2].
    destruct (build hm1 _ _ _ _ _ _) as [hm2 o2]. cbn [fst snd r_health update] in *.
    split; [by transitivity hm1|]. intros s Hs. rewrite B2 in Hs.
    apply andb_true_iff in Hf as [[_ Hk]%andb_true_iff Hfb].
    apply list_elem_of_omap in Hs as (d & Hd & Hv).
    rewrite <- (verdict_same t _ _ _ _ _ _ _ S1) in Hv. exists d, true.
    split; [|by rewrite Hk, Hfb]. destruct (verdict _ _ _ _ _ _ _); [done|]. by injection Hv as ->.
  - cbn [fst snd r_health update]. split; [done|]. intros s Hs. rewrite B1 in Hs.
    destruct (Hel _ _ _ Hs) as (d & Hd & Hv). by exists d, false.
Qed.

Lemma Candidates_health r req clk now now2 :
  r_health (fst (Candidates r req clk now now2)) = r_health (fst (collect r req clk)).
Proof.
  unfold Candidates. destruct (collect r req clk) as [r' out]. destruct (length out <=? 1)%nat; [done|].
  apply applyStrategyMode_kept.
Qed.

Lemma any_model_nonempty model : any_model model = false -> model <> "".
Proof. by intros H ->. Qed.

(** The model check a candidate was found under is the one [Eligible] applies. *)
Lemma eligible_ignores_model r req (ig : bool) (d : Deployment) : wf_router r ->
  (if ig then d ∈ r_all r /\ uses_fallback r req = true else d ∈ fst (candidate_source r req)) ->
  d ∈ r_all r /\
  negb (if any_model (rq_Model req) then true else bool_decide (is_Some (r_byModel r !! rq_Model req)))
    && rc_FallbackOnUnknownModel (cfg_Routing (r_cfg r)) = ig.
Proof.
  intros W. unfold uses_fallback, candidate_source.
  destruct (any_model (rq_Model req)) eqn:Ha; cbn [fst snd negb andb]; [by destruct ig; [intros [_ ?]|]|].
  apply any_model_nonempty in Ha. unfold map_get.
  destruct (r_byModel r !! rq_Model req) as [ds|] eqn:Hm.
  - destruct (wf_byModel r W _ _ Hm Ha) as [Hne Hall]. rewrite (bool_decide_true (is_Some (Some ds))) by eauto.
    destruct ds as [|x ds]; [done|]. destruct ig; [by intros [_ ?]|]. intros Hd.
    split; [by apply Hall|done].
  - rewrite (bool_decide_false (is_Some None)) by (by intros [? ?]).
    destruct ig; [done|]. by intros ?%elem_of_nil.
Qed.

(** The re-check before each attempt agrees with selection: at the same
    instant every candidate selection returned, whether it came from the
    requested model or from the unknown-model fallback, is still eligible, with
    the same score and health. *)
Theorem candidates_pass_recheck (r : Router) (req : Requirement) (t : Time) (s : Scored) :
  wf_router r ->
  s ∈ snd (Candidates r req (fun _ => t) t t) ->
  snd (Eligible (fst (Candidates r req (fun _ => t) t t)) (sd_ID s) req t t) = Some s.
Proof.
  intros W Hs. rewrite Candidates_perm in Hs.
  destruct (Candidates_kept r req (fun _ => t) t t) as (Hc & _ & Hb & Hm & _).
  pose proof (Candidates_health r req (fun _ => t) t t) as Hh.
  destruct (collect_pure r req t) as [Hv Hel]. destruct (Hel s Hs) as (d & ig & Hd & Hsrc). clear Hel Hs.
  rewrite <- Hh in Hv. revert Hc Hb Hm Hv. generalize (fst (Candidates r req (fun _ => t) t t)).
  intros r' Hc Hb Hm Hv. destruct (eligible_ignores_model r req ig d W Hsrc) as [Hall Hig].
  assert (sd_Deployment s = d) as Hsd.
  { rewrite (pure_verdict_scored _ _ _ _ _ _ _ _ Hd). apply scored_deployment. }
  unfold Eligible, sd_ID. rewrite Hb, Hsd, (wf_byID r W d Hall), Hm, Hc. cbv zeta. rewrite Hig.
  unfold eligibleDeployment.
  pose proof (evaluateDeployment_pure (r_health r') d req (r_cfg r) ig (Scopes req) t t) as Hp.
  fold (verdict (r_health r') t req (r_cfg r) ig (Scopes req) d) in Hp.
  rewrite <- (verdict_same t _ _ _ _ _ _ _ Hv), Hd in Hp.
  by destruct (evaluateDeployment _ _ _ _ _ _ _ _) as [hm v]; cbn [snd] in *; subst v.
Qed.

(** ** Affinity buckets *)

Definition last_char (s : string) : option ascii := last (String.list_ascii_of_string s).

Lemma str_app_assoc (a b c : string) : a +:+ (b +:+ c) = (a +:+ b) +:+ c.
Proof. induction a as [|x a IH]; [done|]. exact (f_equal (String x) IH). Qed.

Lemma last_char_app a b : b <> "" -> last_char (a +:+ b) = last_char b.
Proof.
  intros Hb. unfold last_char.
  assert (String.list_ascii_of_string (a +:+ b) =
          String.list_ascii_of_string a ++ String.list_ascii_of_string b) as ->.
  { clear Hb. induction a as [|c a IH]; [done|]. exact (f_equal (cons c) IH). }
  rewrite last_app. destruct b as [|c b]; [done|]. cbn [String.list_ascii_of_string].
  destruct (last (c :: String.list_ascii_of_string b)) eqn:E; [done|]. by apply last_None in E.
Qed.

Lemma str_app_prefix_inj (a b c d : string) : String.length a = String.length b ->
  a +:+ c = b +:+ d -> a = b.
Proof.
  revert b. induction a as [|x a IH]; intros [|y b] Hl He; try done.
  cbn in Hl. injection Hl as Hl. cbn in He. injection He as -> He.
  exact (f_equal (String y) (IH b Hl He)).
Qed.

(** Session pins never cross privacy classes or sessions' digests: two
    requirements that share a pin bucket have the same no-training demand and
    the same 128-bit session digest. *)
Theorem affinity_bucket_separates (a b : Requirement) :
  affinityBucket a = affinityBucket b -> affinityBucket a <> "" ->
  rq_RequireNoTraining a = rq_RequireNoTraining b /\
  EncodeToString (take 16 (Sha256.Sum256 (bytes (rq_SessionKey a)))) =
  EncodeToString (take 16 (Sha256.Sum256 (bytes (rq_SessionKey b)))).
Proof.
  unfold affinityBucket. destruct (String.eqb (TrimSpace (rq_SessionKey a)) ""); [done|].
  destruct (String.eqb (TrimSpace (rq_SessionKey b)) "").
  { intros H. by rewrite H. }
  cbv zeta. intros H _. split.
  - apply (f_equal last_char) in H. rewrite !str_app_assoc in H.
    assert (forall q : bool, (if q then "no_training" else "any") <> "") as Hq by by intros [].
    rewrite !last_char_app in H by apply Hq.
    destruct (rq_RequireNoTraining a), (rq_RequireNoTraining b); try reflexivity;
      cbv in H; discriminate H.
  - apply str_app_prefix_inj in H; [done|].
    by rewrite !EncodeToString_length, !length_take, !Sum256_length.
Qed.

(** ** Witnesses *)

Lemma distinct_sample strategy : distinct_ids (sample_cfg strategy).
Proof. apply (bool_decide_unpack _). vm_compute. exact I. Qed.

Lemma reload_index_exact_witness :
  d_ID <$> map_get [] (r_byModel (sample_router "priority")) "a" = ["p1/a"; "p2/a"] /\
  (forall d, d ∈ map_get [] (r_byModel (sample_router "priority")) "a" -> matchesModel d "a" = true).
Proof.
  split; [vm_compute; reflexivity|].
  apply (reload_index_exact (empty_Router sample_health (sample_cfg "priority")) no_dates (sample_cfg "priority")
    20 20 "a"). discriminate.
Defined.

Lemma router_invariant_witness :
  wf_router (ObserveSession (sample_router "ready_mesh") sample_req "p1/a" "" 25).
Proof.
  apply (router_invariant no_dates (sample_cfg "ready_mesh") sample_health 20 20); [apply distinct_sample|].
  apply rtc_once. apply (step_observe (sample_router "ready_mesh")).
Defined.

Lemma candidates_pass_recheck_witness :
  let r := sample_router "least_latency" in
  let s := hd zero_Scored (snd (Candidates r sample_req (fun _ => 30) 30 30)) in
  sd_ID s = "p1/b" /\
  snd (Eligible (fst (Candidates r sample_req (fun _ => 30) 30 30)) (sd_ID s) sample_req 30 30) = Some s.
Proof.
  cbv zeta. split; [vm_compute; reflexivity|].
  apply (candidates_pass_recheck (sample_router "least_latency") sample_req 30).
  - apply Reload_wf; [apply distinct_sample|]. vm_compute. lia.
  - apply hd_elem. vm_compute. discriminate.
Defined.

Lemma affinity_bucket_separates_witness :
  affinityBucket sample_req = affinityBucket (sample_req <| rq_SelectionKey := "other" |>) /\
  rq_RequireNoTraining sample_req = rq_RequireNoTraining (sample_req <| rq_SelectionKey := "other" |>).
Proof.
  split; [vm_compute; reflexivity|].
  apply (affinity_bucket_separates sample_req (sample_req <| rq_SelectionKey := "other" |>)).
  - vm_compute. reflexivity.
  - vm_compute. discriminate.
Defined.

(** ** Readiness and retirement *)

(** What [Readiness] counts as usable, from the health views. *)
Definition usable_at (t : Time) (ready : bool) (m : Manager) (d : Deployment) : bool :=
  provider_view m (d_ProviderID d) t &&
  (if ready then st_Status (view_state m (d_ID d) t) =s? Healthy
   else negb (st_Status (view_state m (d_ID d) t) =s? Cooldown)).
Definition count_true (l : list bool) : Z := sum_Z ((fun b : bool => if b then 1 else 0) <$> l).

Lemma usable_same t ready m m' (ds : list Deployment) : same_view t m m' ->
  usable_at t ready m <$> ds = usable_at t ready m' <$> ds.
Proof. intros [H1 H2]. apply list_fmap_ext. intros i d _. unfold usable_at. by rewrite H1, H2. Qed.

Lemma count_usable_pure m ds ready t :
  snd (count_usable m ds ready (fun _ => t)) = count_true (usable_at t ready m <$> ds).
Proof.
  revert m. induction ds as [|d ds IH]; intros m; [done|]. cbn [count_usable]. rewrite fmap_cons.
  change (count_true (usable_at t ready m d :: (usable_at t ready m <$> ds)))
    with ((if usable_at t ready m d then 1 else 0) + count_true (usable_at t ready m <$> ds)).
  unfold usable_at at 1.
  destruct (ProviderAvailable_view m (d_ProviderID d) t) as (Hp & _ & Hs).
  destruct (ProviderAvailable m (d_ProviderID d) t) as [m1 av]. cbn in Hp, Hs. subst av.
  destruct (provider_view m (d_ProviderID d) t); cbn [negb andb].
  - destruct (Get_same m1 (d_ID d) t) as [Hg Hst].
    destruct (Get m1 (d_ID d) t) as [m2 st]. cbn in Hg, Hst. subst st.
    specialize (IH m2). destruct (count_usable m2 ds ready _) as [m3 u]. cbn [snd] in *.
    rewrite IH, <- (proj1 Hs), (usable_same t ready m m2); [done|by transitivity m1].
  - rewrite IH. by rewrite (usable_same t ready m m1).
Qed.

Lemma count_true_all l : Forall (fun b => b = true) l -> count_true l = Z.of_nat (length l).
Proof.
  induction 1 as [|b l -> _ IH]; [done|]. unfold count_true, sum_Z in *. cbn in *. rewrite IH. lia.
Qed.

Lemma retired_excluded m t req cfg ig scopes d :
  st_Status (view_state m (d_ID d) t) = Retired -> included (verdict m t req cfg ig scopes d) = None.
Proof.
  intros Hr. unfold verdict, pure_verdict. destruct (static_exclusion d req ig); [done|].
  destruct (negb _); [done|]. destruct (capability_exclusion d req); [done|].
  unfold health_exclusion. by rewrite Hr.
Qed.

Lemma omap_none {A B} (f : A -> option B) l : Forall (fun x => f x = None) l -> omap f l = [].
Proof. induction 1 as [|x l Hx _ IH]; [done|]. cbn. by rewrite Hx. Qed.

(** A gap between readiness and routing: when every deployment is retired,
    no request has a candidate, yet under a strategy that is not a ready
    strategy [Readiness] still reports every one of them usable. *)
Theorem readiness_counts_retired (r : Router) (st : string) (req : Requirement) (t : Time) :
  wf_router r -> IsReadyStrategy st = false ->
  Forall (fun d => provider_view (r_health r) (d_ProviderID d) t = true /\
            st_Status (view_state (r_health r) (d_ID d) t) = Retired) (r_all r) ->
  snd (Candidates r req (fun _ => t) t t) = [] /\
  snd (Readiness r st (fun _ => t)) = (Z.of_nat (length (r_all r)), Z.of_nat (length (r_all r))).
Proof.
  intros W Hst Hall. split.
  - apply Permutation_nil. rewrite Candidates_perm. unfold collect.
    assert (Forall (fun d => d ∈ r_all r) (fst (candidate_source r req))) as Hsrc.
    { unfold candidate_source. destruct (any_model (rq_Model req)) eqn:Ha; cbn [fst].
      - by apply Forall_forall.
      - apply any_model_nonempty in Ha. unfold map_get.
        destruct (r_byModel r !! rq_Model req) as [ds|] eqn:Hm; [|constructor].
        apply Forall_forall. intros d Hd. by apply (wf_byModel r W _ _ Hm Ha). }
    rewrite Forall_forall in Hall.
    destruct (candidate_source r req) as [src known]. cbn [fst] in Hsrc.
    destruct (build_pure (r_health r) src req (r_cfg r) false (Scopes req) t) as [B1 S1].
    destruct (build _ _ _ _ _ _ _) as [hm1 o1]. cbn [fst snd] in *.
    rewrite omap_none in B1; [subst o1|].
    2: { eapply Forall_impl; [exact Hsrc|]. intros d Hd. apply retired_excluded. by apply Hall. }
    destruct (_ && _ && _); [|done].
    destruct (build_pure hm1 (r_all r) req (r_cfg r) true (Scopes req) t) as [B2 _].
    destruct (build hm1 _ _ _ _ _ _) as [hm2 o2]. cbn [fst snd] in *.
    rewrite omap_none in B2; [by subst o2|]. apply Forall_forall. intros d Hd.
    apply retired_excluded. rewrite <- (proj1 S1). by apply Hall.
  - unfold Readiness. pose proof (count_usable_pure (r_health r) (r_all r) (IsReadyStrategy st) t) as Hc.
    destruct (count_usable _ _ _ _) as [hm u]. cbn [snd] in *. rewrite Hc, count_true_all.
    + by rewrite length_fmap.
    + rewrite Hst. apply Forall_fmap. eapply Forall_impl; [exact Hall|]. intros d [H1 H2]. cbn.
      unfold usable_at. by rewrite H1, H2.
Qed.

Definition retired_health : Manager :=
  Retire (Retire (Retire sample_health "p1/a" "eol" "model_retired" 21) "p1/b" "eol" "model_retired" 21)
    "p2/a" "eol" "model_retired" 21.
Definition retired_router : Router := sample_router "priority" <| r_health := retired_health |>.
Lemma readiness_counts_retired_witness :
  snd (Candidates retired_router sample_req (fun _ => 30) 30 30) = [] /\
  snd (Readiness retired_router "priority" (fun _ => 30)) = (3, 3).
Proof.
  apply (readiness_counts_retired retired_router "priority" sample_req 30).
  - apply (router_step_wf _ _ (step_health (sample_router "priority") retired_health)).
    apply Reload_wf; [apply distinct_sample|]. vm_compute. lia.
  - reflexivity.
  - vm_compute. repeat constructor.
Defined.

(** A preview's reads also normalise health: an expired cooldown in the shared
    health table becomes half-open, with its failure count and last error
    cleared, although no request was routed. *)
Definition cooled_router : Router :=
  sample_router "ready_queue" <| r_health := EnterCooldown sample_health "p1/a" "rate limited" 5 10 10 |>.
Example explain_normalises_health :
  st_Status (get_state (r_health cooled_router) "p1/a") = Cooldown /\
  st_Status (get_state (r_health (fst (Explain cooled_router no_dates sample_req at_30 at_30))) "p1/a") = HalfOpen.
Proof. split; vm_compute; reflexivity. Qed.
