(* ===== verification/Resolver.v ===== *)
(** * Virtual endpoints and candidate pools ([src/internal/route/resolver.go])

    A virtual endpoint names a route profile, the profile a candidate pool and a
    fallback chain of further pools.  The resolver expands the pools against the
    deployments and restricts the router's candidates to them, in pool order.  A
    Go set is a [gset]; a set that may be nil is an [option]. *)

From S2P Require Import Prelude Config Health Router RouterOrder RouterSamples.

Record ResolvedRoute := mkResolvedRoute {
  rr_VirtualEndpointID : string; rr_VirtualEndpointName : string; rr_PublicModel : string;
  rr_RouteProfileID : string; rr_RouteProfileName : string;
  rr_PrimaryPoolID : string; rr_PrimaryPoolName : string; rr_PrimaryMode : string;
  rr_FallbackChainID : string; rr_FallbackChainName : string;
  rr_OrderedPoolIDs : list string;
  rr_AllowedDeployments : option (gset string);
  rr_FallbackAllowed : list (gset string);
  rr_AllAllowed : gset string;
  rr_Pools : gmap string CandidatePoolConfig
}.

Record Resolver := mkResolver {
  rs_byPublicModel : gmap string VirtualEndpointConfig;
  rs_byID : gmap string VirtualEndpointConfig;
  rs_profiles : gmap string RouteProfileConfig;
  rs_pools : gmap string CandidatePoolConfig;
  rs_chains : gmap string FallbackChainConfig;
  rs_expanded : gmap string (gset string);
  rs_virtualEndpoints : list VirtualEndpointConfig
}.

(** A pool entry names a deployment by ID, model, alias or ID suffix. *)
Definition matchesPoolEntry (d : Deployment) (entry : string) : bool :=
  if String.eqb (d_ID d) entry then true
  else if String.eqb (d_Model d) entry then true
  else if existsb (fun a => String.eqb a entry) (d_Aliases d) then true
  else HasSuffix (d_ID d) ("/" +:+ entry).

(** The loop of the source: [set[d.ID] = struct{}{}] for what passes [keep]. *)
Definition add_ids (keep : Deployment -> bool) (deps : list Deployment) (set : gset string) : gset string :=
  fold_left (fun set d => if keep d then {[d_ID d]} ∪ set else set) deps set.
Definition expand_pool (cp : CandidatePoolConfig) (allDeployments : list Deployment) : gset string :=
  if String.eqb (ToLower (cp_Mode cp)) "all" then add_ids (fun _ => true) allDeployments ∅
  else
    fold_left (fun set entry =>
        let entry := TrimSpace entry in
        if String.eqb entry "" then set
        else add_ids (fun d => matchesPoolEntry d entry) allDeployments set)
      (cp_Deployments cp) ∅.

(** [m[key(x)] = value(x)] for every [x] in order. *)
Definition index_by {A V} (key : A -> string) (value : A -> V) (l : list A) : gmap string V :=
  fold_left (fun m x => <[key x := value x]> m) l ∅.
Definition NewResolver (cfg : Config) (allDeployments : list Deployment) : Resolver :=
  mkResolver
    (index_by ve_PublicModel id (cfg_VirtualEndpoints cfg))
    (index_by ve_ID id (cfg_VirtualEndpoints cfg))
    (index_by rp_ID id (cfg_RouteProfiles cfg))
    (index_by cp_ID id (cfg_CandidatePools cfg))
    (index_by fc_ID id (cfg_FallbackChains cfg))
    (index_by cp_ID (fun cp => expand_pool cp allDeployments) (cfg_CandidatePools cfg))
    (cfg_VirtualEndpoints cfg).

Definition Resolve (r : Resolver) (model : string) : option ResolvedRoute :=
  match rs_byPublicModel r !! model with
  | None => None
  | Some ve =>
      match rs_profiles r !! ve_RouteProfile ve with
      | None => None
      | Some rp =>
          match rs_pools r !! rp_CandidatePool rp with
          | None => None
          | Some primaryPool =>
              let primaryAllowed := rs_expanded r !! cp_ID primaryPool in
              let chain := if String.eqb (rp_FallbackChain rp) "" then None else rs_chains r !! rp_FallbackChain rp in
              (* the chain's pools without the primary *)
              let fallback := match chain with
                              | None => []
                              | Some fc => filter (fun pid => pid <> cp_ID primaryPool) (fc_Pools fc)
                              end in
              let fallbackAllowed := (fun pid => map_get ∅ (rs_expanded r) pid) <$> fallback in
              Some (mkResolvedRoute (ve_ID ve) (ve_Name ve) (ve_PublicModel ve) (rp_ID rp) (rp_Name rp)
                (cp_ID primaryPool) (cp_Name primaryPool) (cp_Mode primaryPool)
                (from_option fc_ID "" chain) (from_option fc_Name "" chain)
                (cp_ID primaryPool :: fallback) primaryAllowed fallbackAllowed
                (default ∅ primaryAllowed ∪ ⋃ fallbackAllowed) (rs_pools r))
          end
      end
  end.

Definition ResolveByID (r : Resolver) (id : string) : option VirtualEndpointConfig := rs_byID r !! id.
Definition ListVirtualEndpoints (r : Resolver) : list VirtualEndpointConfig := rs_virtualEndpoints r.
(** In the order of the map's iteration. *)
Definition ListRouteProfiles (r : Resolver) : list RouteProfileConfig := (map_to_list (rs_profiles r)).*2.
Definition ListCandidatePools (r : Resolver) : list CandidatePoolConfig := (map_to_list (rs_pools r)).*2.
Definition ListFallbackChains (r : Resolver) : list FallbackChainConfig := (map_to_list (rs_chains r)).*2.
Definition GetExpanded (r : Resolver) (poolID : string) : option (gset string) := rs_expanded r !! poolID.

Definition FilterCandidates (candidates : list Scored) (allowed : option (gset string)) (mode : string)
    : list Scored :=
  match allowed with
  | None => candidates
  | Some allowed =>
      if (size allowed =? 0)%nat then []
      else filter (fun c => sd_ID c ∈ allowed) candidates
  end.

(** The pools after the primary, each with its allowed set and mode: the
    precomputed sets first, the expanded index once they run out. *)
Fixpoint fallback_pools (r : Resolver) (ids : list string) (allowed : list (gset string))
    : list (string * option (gset string) * string) :=
  match ids with
  | [] => []
  | poolID :: ids =>
      let mode := match rs_pools r !! poolID with Some p => cp_Mode p | None => "explicit" end in
      match allowed with
      | set :: allowed => (poolID, Some set, mode) :: fallback_pools r ids allowed
      | [] => (poolID, GetExpanded r poolID, mode) :: fallback_pools r ids []
      end
  end.

Fixpoint first_nonempty (candidates : list Scored) (pools : list (string * option (gset string) * string))
    : list Scored * string :=
  match pools with
  | [] => ([], "")
  | (poolID, allowed, mode) :: pools =>
      match FilterCandidates candidates allowed mode with
      | [] => first_nonempty candidates pools
      | f => (f, poolID)
      end
  end.
Definition ResolveCandidates (r : Resolver) (candidates : list Scored) (resolved : ResolvedRoute)
    : list Scored * string :=
  match FilterCandidates candidates (rr_AllowedDeployments resolved) (rr_PrimaryMode resolved) with
  | [] => first_nonempty candidates
            (fallback_pools r (tail (rr_OrderedPoolIDs resolved)) (rr_FallbackAllowed resolved))
  | filtered => (filtered, rr_PrimaryPoolID resolved)
  end.


(** ** The specification: pool by pool *)

Definition pool_sets (resolved : ResolvedRoute) : list (gset string) :=
  default ∅ (rr_AllowedDeployments resolved) :: rr_FallbackAllowed resolved.

(** ** Expansion of the pools *)




Lemma index_by_fmap {A V} (key : A -> string) (value : A -> V) l :
  index_by key value l = value <$> index_by key id l.
Proof.
  unfold index_by. rewrite <- (fmap_empty (M := gmap string) value) at 1. generalize (∅ : gmap string A).
  induction l as [|x l IH]; intros m; cbn [fold_left]; [done|]. rewrite <- IH. by rewrite fmap_insert.
Qed.
Lemma index_by_lookup {A} (key : A -> string) l k x :
  index_by key id l !! k = Some x -> x ∈ l /\ key x = k.
Proof.
  unfold index_by. intros H.
  enough (forall (m : gmap string A), fold_left (fun m x => <[key x := id x]> m) l m !! k = Some x ->
    m !! k = Some x \/ (x ∈ l /\ key x = k)) as Hgen.
  { destruct (Hgen ∅ H) as [Hm|?]; [by rewrite lookup_empty in Hm|done]. }
  clear H. induction l as [|y l IH]; cbn [fold_left]; intros m H; [by left|].
  destruct (IH _ H) as [Hm|[? ?]]; [|right; split; [by right|done]].
  destruct (decide (key y = k)) as [<-|Hne].
  - rewrite lookup_insert_eq in Hm. injection Hm as <-. right. split; [by left|done].
  - rewrite lookup_insert_ne in Hm by done. by left.
Qed.

Lemma expanded_lookup cfg deps k :
  rs_expanded (NewResolver cfg deps) !! k = (fun cp => expand_pool cp deps) <$> rs_pools (NewResolver cfg deps) !! k.
Proof. cbn [rs_expanded rs_pools NewResolver]. by rewrite index_by_fmap, lookup_fmap. Qed.

(** ** The candidate list of an endpoint *)

Lemma filter_candidates_spec (cands : list Scored) A mode :
  FilterCandidates cands (Some A) mode = filter (fun c => sd_ID c ∈ A) cands.
Proof.
  unfold FilterCandidates. destruct (Nat.eqb_spec (size A) 0) as [E|]; [|done].
  apply size_empty_inv, leibniz_equiv in E as ->. symmetry. induction cands as [|c l IH]; [done|].
  rewrite filter_cons_False; [done|]. apply not_elem_of_empty.
Qed.





(** What resolution produces. *)
Lemma resolve_shape cfg deps model res : Resolve (NewResolver cfg deps) model = Some res ->
  exists cp, cp ∈ cfg_CandidatePools cfg /\ rr_PrimaryPoolID res = cp_ID cp /\
    rr_AllowedDeployments res = Some (expand_pool cp deps) /\
    exists rest, rr_OrderedPoolIDs res = cp_ID cp :: rest /\
      rr_FallbackAllowed res = (fun pid => map_get ∅ (rs_expanded (NewResolver cfg deps)) pid) <$> rest /\
      rr_AllAllowed res = ⋃ pool_sets res.
Proof.
  unfold Resolve. destruct (rs_byPublicModel _ !! model) as [ve|]; [|done].
  destruct (rs_profiles _ !! _) as [rp|]; [|done].
  destruct (rs_pools (NewResolver cfg deps) !! rp_CandidatePool rp) as [cp|] eqn:Hcp; [|done]. cbv zeta.
  assert (cp ∈ cfg_CandidatePools cfg /\ cp_ID cp = rp_CandidatePool rp) as [Hin Hid].
  { by apply index_by_lookup in Hcp. }
  assert (rs_expanded (NewResolver cfg deps) !! cp_ID cp = Some (expand_pool cp deps)) as He.
  { rewrite expanded_lookup, Hid, Hcp. done. }
  rewrite He. clear Hcp He. generalize (NewResolver cfg deps). intros r [= <-]. exists cp.
  split_and!; [done|done|done|]. eexists. split_and!; [done|done|]. done.
Qed.

Lemma fallback_pools_known r ids : forall sets, length sets = length ids ->
  (fun '(_, allowed, _) => allowed) <$> fallback_pools r ids sets = Some <$> sets /\
  (fun '(pid, _, _) => pid) <$> fallback_pools r ids sets = ids.
Proof.
  induction ids as [|pid ids IH]; intros [|A sets] Hl; try done. cbn [fallback_pools fmap list_fmap].
  injection Hl as Hl. destruct (IH sets Hl) as [H1 H2]. split; f_equal; [exact H1|exact H2].
Qed.



(** The pool that served: the first whose candidates are not empty. *)
Definition serves (ids : list string) (sets : list (gset string)) (cands : list Scored)
    (f : list Scored) (pid : string) : Prop :=
  (f = [] /\ pid = "" /\ Forall (fun A => filter (fun c => sd_ID c ∈ A) cands = []) sets) \/
  exists i A, ids !! i = Some pid /\ sets !! i = Some A /\ f = filter (fun c => sd_ID c ∈ A) cands /\ f <> [] /\
    Forall (fun B => filter (fun c => sd_ID c ∈ B) cands = []) (take i sets).

Lemma serves_cons pid0 (A : gset string) ids sets (cands : list Scored) f pid :
  filter (fun c => sd_ID c ∈ A) cands = [] -> serves ids sets cands f pid ->
  serves (pid0 :: ids) (A :: sets) cands f pid.
Proof.
  intros HA [(? & ? & ?)|(i & B & ? & ? & ? & ? & ?)]; [left|right].
  - split_and!; [done|done|by constructor].
  - exists (S i), B. split_and!; try done. cbn. by constructor.
Qed.

Lemma first_nonempty_serves r cands ids : forall sets, length sets = length ids ->
  let '(f, pid) := first_nonempty cands (fallback_pools r ids sets) in serves ids sets cands f pid.
Proof.
  induction ids as [|pid0 ids IH]; intros [|A sets] Hl; try done; cbn [fallback_pools first_nonempty].
  { left. split_and!; [done|done|constructor]. }
  injection Hl as Hl. specialize (IH sets Hl). rewrite filter_candidates_spec.
  destruct (filter (fun c => sd_ID c ∈ A) cands) as [|x l] eqn:E.
  - destruct (first_nonempty _ _) as [f pid]. by apply serves_cons.
  - right. exists 0%nat, A. rewrite E. by split_and!.
Qed.

(** Fallback is a last resort: resolving candidates to a pool gives the whole
    of the router's candidates of the first pool, in the order primary then
    fallback chain, that has any; and nothing when no pool of the endpoint has. *)
Theorem resolve_candidates_first cfg deps model res (cands : list Scored) :
  Resolve (NewResolver cfg deps) model = Some res ->
  let '(f, pid) := ResolveCandidates (NewResolver cfg deps) cands res in
  serves (rr_OrderedPoolIDs res) (pool_sets res) cands f pid.
Proof.
  intros Hr. destruct (resolve_shape _ _ _ _ Hr) as (cp & Hcp & Hpid & Ha & rest & Ho & Hf & _).
  unfold ResolveCandidates, pool_sets. rewrite Ha, Ho, Hf. cbn [default tail]. rewrite filter_candidates_spec.
  destruct (filter (fun c => sd_ID c ∈ expand_pool cp deps) cands) as [|x l] eqn:E.
  - pose proof (first_nonempty_serves (NewResolver cfg deps) cands rest
      ((fun pid => map_get ∅ (rs_expanded (NewResolver cfg deps)) pid) <$> rest) ltac:(by rewrite length_fmap)) as Hs.
    destruct (first_nonempty _ _) as [f pid]. by apply serves_cons.
  - right. exists 0%nat, (expand_pool cp deps). rewrite E, Hpid. by split_and!.
Qed.

(** ** Samples *)

Module ResolverSamples.
Definition pool_cfg : Config :=
  let c := sample_cfg "ready_mesh" in
  mkConfig (cfg_Providers c) (cfg_Routing c) (cfg_Pricing c)
    [mkVirtualEndpointConfig "ve" "Code" None "nexa-code" "rp" []]
    [mkRouteProfileConfig "rp" "Coding" "main" "chain" "" "" "" "" 0 "" f_zero ∅ ∅ ""]
    [mkCandidatePoolConfig "main" "Main" "explicit" ["p1/a"; " "]; mkCandidatePoolConfig "spare" "Spare" "explicit" ["a"]]
    [mkFallbackChainConfig "chain" "Chain" ["spare"; "main"]].
Definition pool_deps : list Deployment := r_all (sample_router "ready_mesh").
Definition pool_cands : list Scored := snd (Candidates (sample_router "ready_mesh") sample_req at_30 30 30).
Definition sample_resolver : Resolver := NewResolver pool_cfg pool_deps.


Lemma resolve_candidates_first_witness :
  exists res f, Resolve sample_resolver "nexa-code" = Some res /\
    ResolveCandidates sample_resolver pool_cands res = (f, "main") /\
    serves (rr_OrderedPoolIDs res) (pool_sets res) pool_cands f "main".
Proof.
  destruct (Resolve sample_resolver "nexa-code") as [res|] eqn:E; [|vm_compute in E; discriminate E].
  pose proof (resolve_candidates_first pool_cfg pool_deps "nexa-code" res pool_cands E) as Hs.
  assert (snd (ResolveCandidates sample_resolver pool_cands res) = "main") as Hm.
  { clear Hs. vm_compute in E. injection E as <-. vm_compute. reflexivity. }
  exists res, (fst (ResolveCandidates sample_resolver pool_cands res)). split; [reflexivity|].
  fold sample_resolver in Hs. destruct (ResolveCandidates sample_resolver pool_cands res) as [f pid].
  cbn [snd] in Hm. subst pid. split; [reflexivity|exact Hs].
Defined.
End ResolverSamples.
