(* ===== verification/ControlPlane.v ===== *)
(** * The control-plane store contract and its memory backend

    [src/internal/controlplane/types.go], [memory.go] and the adapter of
    [src/internal/sharedstate/store.go].  A store holds one revisioned document
    per namespace.  Clients are proved against the class [Store] with its laws
    [StoreLaws]; the memory backend, seen through the adapter, is an instance.
    Payloads are an abstract type with a length; a request context is the
    error it reports, if any. *)

From S2P Require Import Prelude.

(** ** Snapshots and errors *)

Section snapshots.
Context {P : Type}.
Record cp_Snapshot := mkCpSnapshot {
  cps_Revision : Z; cps_Schema : Z; cps_Payload : P; cps_UpdatedAt : Time
}.
Record Snapshot := mkSnapshot { sn_Revision : Z; sn_Payload : option P; sn_UpdatedAt : Time }.
End snapshots.
Arguments cp_Snapshot P : clear implicits.
Arguments Snapshot P : clear implicits.

Inductive context_error := Canceled | DeadlineExceeded.
(** Errors of the control plane; [CpOther] is any untyped backend failure. *)
Inductive cp_error :=
  | CpContext (c : context_error) | CpNotFound | CpConflict | CpUnavailable | CpMalformedSnapshot | CpOther.
(** Errors of the breaker state store. *)
Inductive store_error :=
  | ErrContext (c : context_error) | ErrNotFound | ErrConflict | ErrUnavailable | ErrMalformed
  | ErrInvalidEntry | ErrNegativeRetries.

Definition mapControlPlaneError (err : cp_error) : store_error :=
  match err with
  | CpContext c => ErrContext c
  | CpNotFound => ErrNotFound
  | CpConflict => ErrConflict
  | CpUnavailable => ErrUnavailable
  | CpMalformedSnapshot => ErrMalformed
  | CpOther => ErrUnavailable
  end.

(** ** The store interface *)

Section store.
Context {P : Type}.
(** [Load] and [CompareAndSwap]; the last argument of a write is the time the
    store stamps it with. *)
Class Store (S : Type) := {
  store_Load : S -> option context_error -> string -> store_error + Snapshot P;
  store_CompareAndSwap : S -> option context_error -> string -> Z -> P -> Time ->
    S * (store_error + Snapshot P)
}.
(** What clients rely on: a write happens only when the expected revision is the
    stored one (zero for a document that does not exist), it is then what a
    reader finds, under the next revision; a refused write changes nothing; a
    live context does not change what a read answers. *)
Class StoreLaws (S : Type) `{!Store S} := {
  cas_error : forall s ctx ns rev p t s' e,
    store_CompareAndSwap s ctx ns rev p t = (s', inl e) -> s' = s;
  cas_success : forall s ctx ns rev p t s' snap,
    store_CompareAndSwap s ctx ns rev p t = (s', inr snap) ->
    sn_Revision snap = uint64 (rev + 1) /\ sn_Payload snap = Some p /\
    store_Load s' None ns = inr snap /\
    ((exists old, store_Load s None ns = inr old /\ sn_Revision old = rev) \/
     (store_Load s None ns = inl ErrNotFound /\ rev = 0));
  load_success : forall s ctx ns snap,
    store_Load s ctx ns = inr snap -> store_Load s None ns = inr snap /\ is_Some (sn_Payload snap);
  load_missing : forall s ctx ns,
    store_Load s ctx ns = inl ErrNotFound -> store_Load s None ns = inl ErrNotFound
}.
End store.

(** ** The memory backend *)

Section memory.
Context {P : Type} (plen : P -> Z).

Record MemoryStore := mkMemoryStore { ms_items : gmap string (cp_Snapshot P); ms_failed : bool }.
Definition NewMemoryStore : MemoryStore := mkMemoryStore ∅ false.
Definition SetUnavailable (s : MemoryStore) (v : bool) : MemoryStore := mkMemoryStore (ms_items s) v.

Definition memory_Get (s : MemoryStore) (ctx : option context_error) (namespace : string)
    : cp_error + cp_Snapshot P :=
  match ctx with
  | Some c => inl (CpContext c)
  | None =>
      if ms_failed s then inl CpUnavailable
      else match ms_items s !! namespace with None => inl CpNotFound | Some v => inr v end
  end.

Definition memory_Put (s : MemoryStore) (ctx : option context_error) (namespace : string)
    (expectedRevision : Z) (payload : P) (now : Time) : MemoryStore * (cp_error + cp_Snapshot P) :=
  match ctx with
  | Some c => (s, inl (CpContext c))
  | None =>
      if String.eqb namespace "" || (plen payload =? 0) then (s, inl CpNotFound)
      else if ms_failed s then (s, inl CpUnavailable)
      else
        let old := ms_items s !! namespace in
        let conflict := match old with
                        | Some o => negb (cps_Revision o =? expectedRevision)
                        | None => negb (expectedRevision =? 0)
                        end in
        if conflict then (s, inl CpConflict)
        else
          let schema := match old with Some o => cps_Schema o | None => 0 end in
          let schema := if schema =? 0 then 1 else schema in
          let next := mkCpSnapshot (uint64 (expectedRevision + 1)) schema payload now in
          (mkMemoryStore (<[namespace := next]> (ms_items s)) (ms_failed s), inr next)
  end.

Definition memory_Delete (s : MemoryStore) (ctx : option context_error) (namespace : string)
    (expectedRevision : Z) : MemoryStore * option cp_error :=
  match ctx with
  | Some c => (s, Some (CpContext c))
  | None =>
      if ms_failed s then (s, Some CpUnavailable)
      else
        match ms_items s !! namespace with
        | None => (s, Some CpNotFound)
        | Some old =>
            if negb (cps_Revision old =? expectedRevision) then (s, Some CpConflict)
            else (mkMemoryStore (delete namespace (ms_items s)) (ms_failed s), None)
        end
  end.

(** ** The adapter *)

Definition of_cp (v : cp_Snapshot P) : Snapshot P :=
  mkSnapshot (cps_Revision v) (Some (cps_Payload v)) (cps_UpdatedAt v).
Definition cp_Load (s : MemoryStore) (ctx : option context_error) (namespace : string)
    : store_error + Snapshot P :=
  match memory_Get s ctx namespace with
  | inl err => inl (mapControlPlaneError err)
  | inr v => inr (of_cp v)
  end.
Definition cp_CompareAndSwap (s : MemoryStore) (ctx : option context_error) (namespace : string)
    (expectedRevision : Z) (payload : P) (now : Time) : MemoryStore * (store_error + Snapshot P) :=
  let '(s, r) := memory_Put s ctx namespace expectedRevision payload now in
  (s, match r with inl err => inl (mapControlPlaneError err) | inr v => inr (of_cp v) end).

#[export] Instance memory_Store : Store MemoryStore := {
  store_Load := cp_Load;
  store_CompareAndSwap := cp_CompareAndSwap
}.

#[export] Instance memory_StoreLaws : StoreLaws MemoryStore.
Proof.
  split; cbn [store_Load store_CompareAndSwap memory_Store].
  - unfold cp_CompareAndSwap, memory_Put. intros s ctx ns rev p t s' e.
    destruct ctx; [by intros [= <- _]|]. destruct (_ || _); [by intros [= <- _]|].
    destruct (ms_failed s); [by intros [= <- _]|]. cbv zeta.
    by destruct (match ms_items s !! ns with Some _ => _ | None => _ end); intros [= <- _].
  - unfold cp_CompareAndSwap, memory_Put. intros s ctx ns rev p t s' snap.
    destruct ctx; [done|]. destruct (_ || _); [done|].
    destruct (ms_failed s) eqn:Hf; [done|]. cbv zeta.
    destruct (match ms_items s !! ns with Some _ => _ | None => _ end) eqn:Hc; [done|].
    intros [= <- <-]. split_and!; [done|done| |].
    + unfold cp_Load, memory_Get. cbn [ms_failed ms_items]. by rewrite lookup_insert_eq.
    + unfold cp_Load, memory_Get. rewrite Hf. destruct (ms_items s !! ns) as [o|].
      * left. exists (of_cp o). split; [done|]. cbn. by destruct (Z.eqb_spec (cps_Revision o) rev).
      * right. split; [done|]. by destruct (Z.eqb_spec rev 0).
  - unfold cp_Load, memory_Get. intros s ctx ns snap. destruct ctx; [done|].
    destruct (ms_failed s); [done|]. destruct (ms_items s !! ns) as [v|]; [|done].
    intros [= <-]. split; [done|]. by eexists.
  - unfold cp_Load, memory_Get. intros s ctx ns. destruct ctx as [c|]; [by destruct c|]. done.
Qed.
End memory.
Arguments MemoryStore P : clear implicits.
