(* ===== verification/SharedState.v ===== *)
(** * Shared circuit-breaker markers ([src/internal/sharedstate])

    Cooldown and retired markers shared between gateway replicas through a
    revisioned document.  [Merge] is the monotonic union; [Publish] installs it
    with a bounded compare-and-swap loop, during which other replicas may write
    ([env i] is what they do to the store between this replica's read and its
    write in attempt [i]).  Go's JSON codec is the class [Json] with the
    round-trip law [JsonLaws]; the store is the class of [ControlPlane]. *)

From stdpp Require Import relations.
From S2P Require Import Prelude ControlPlane.

(** ** Markers *)

Definition BreakerSchemaVersion : Z := 1.
Definition BreakerNamespace : string := "nexaroute:breaker/v1".
Definition DefaultMaxCooldown : Duration := 30 * Minute.
Definition DefaultMaxDocumentBytes : Z := 1048576.
Definition DefaultMaxEntries : Z := 10000.
Definition DefaultRetries : Z := 3.

(** [StatusOther] is any status outside the allow-list. *)
Inductive EntryStatus := StatusCooldown | StatusRetired | StatusOther (s : string).
#[export] Instance EntryStatus_eq_dec : EqDecision EntryStatus.
Proof. solve_decision. Defined.

Record Entry := mkEntry {
  e_Status : EntryStatus;
  e_CooldownUntil : Time;
  e_ReasonClass : string;
  e_OriginReplica : string;
  e_ObservedAt : Time
}.
#[export] Instance eta_Entry : Eta Entry := fun r =>
  mkEntry (e_Status r) (e_CooldownUntil r) (e_ReasonClass r) (e_OriginReplica r) (e_ObservedAt r).
#[export] Instance Entry_eq_dec : EqDecision Entry.
Proof. solve_decision. Defined.

(** [inl] is [ErrInvalidEntry]; [inr None] an entry that has expired. *)
Definition NormalizeEntry (entry : Entry) (now : Time) (maxCooldown : Duration)
    : store_error + option Entry :=
  if IsZero now then inl ErrInvalidEntry
  else
    match e_Status entry with
    | StatusRetired => inr (Some (entry <| e_CooldownUntil := 0 |>))
    | StatusCooldown =>
        if IsZero (e_CooldownUntil entry) then inl ErrInvalidEntry
        else if negb (After (e_CooldownUntil entry) now) then inr None
        else
          let cap := Add now maxCooldown in
          inr (Some (if (0 <? maxCooldown) && After (e_CooldownUntil entry) cap
                     then entry <| e_CooldownUntil := cap |> else entry))
    | StatusOther _ => inl ErrInvalidEntry
    end.

Definition mergeEntry (current incoming : Entry) : Entry :=
  if bool_decide (e_Status current = StatusRetired) then current
  else if bool_decide (e_Status incoming = StatusRetired) then incoming
  else if After (e_CooldownUntil incoming) (e_CooldownUntil current) then incoming
  else current.

(** The body of the loop over one source. *)
Definition merge_one (now : Time) (maxCooldown : Duration) (deployment : string) (entry : Entry)
    (out : gmap string Entry) : gmap string Entry :=
  if String.eqb deployment "" then out
  else
    match NormalizeEntry entry now maxCooldown with
    | inr (Some normalized) =>
        match out !! deployment with
        | None => <[deployment := normalized]> out
        | Some existing => <[deployment := mergeEntry existing normalized]> out
        end
    | _ => out
    end.
Definition merge_source (now : Time) (maxCooldown : Duration) (source out : gmap string Entry)
    : gmap string Entry :=
  map_fold (merge_one now maxCooldown) out source.
Definition Merge (current incoming : gmap string Entry) (now : Time) (maxCooldown : Duration)
    : gmap string Entry :=
  merge_source now maxCooldown incoming (merge_source now maxCooldown current ∅).

Definition entry_equal (l r : Entry) : bool :=
  bool_decide (e_Status l = e_Status r) && (e_CooldownUntil l =? e_CooldownUntil r) &&
  String.eqb (e_ReasonClass l) (e_ReasonClass r) && String.eqb (e_OriginReplica l) (e_OriginReplica r).
Definition entriesEqual (a b : gmap string Entry) : bool :=
  (size a =? size b)%nat &&
  forallb (fun '(key, l) => match b !! key with Some r => entry_equal l r | None => false end)
    (map_to_list a).
Definition cloneEntries (entries : gmap string Entry) : gmap string Entry := entries.

(** ** The document codec *)

(** [json.Marshal] of the document, [json.Unmarshal] of the document with its
    entries left raw, and of one raw entry. *)
Class Json (P R : Type) := {
  json_marshal : gmap string Entry -> option P;
  json_unmarshal : P -> option (Z * gmap string R);
  json_entry : R -> option Entry;
  json_len : P -> Z
}.
Class JsonLaws (P R : Type) `{!Json P R} := {
  json_roundtrip : forall es p, json_marshal es = Some p ->
    exists raw, json_unmarshal p = Some (BreakerSchemaVersion, raw) /\ size raw = size es /\
      (forall k, (raw !! k ≫= json_entry) = es !! k);
  json_nonempty : forall es p, json_marshal es = Some p -> 0 < json_len p
}.

Section protocol.
Context {P R : Type} `{!Json P R, !JsonLaws P R}.

Definition encodeDocument (entries : gmap string Entry) (maxEntries maxBytes : Z) : store_error + P :=
  if (0 <? maxEntries) && (maxEntries <? Z.of_nat (size entries)) then inl ErrMalformed
  else
    match json_marshal entries with
    | None => inl ErrMalformed
    | Some payload =>
        if (0 <? maxBytes) && (maxBytes <? json_len payload) then inl ErrMalformed else inr payload
    end.

Definition keep_entry (deployment : string) (value : R) : option Entry :=
  if String.eqb deployment "" then None
  else
    match json_entry value with
    | None => None
    | Some entry =>
        if bool_decide (e_Status entry <> StatusCooldown) && bool_decide (e_Status entry <> StatusRetired)
        then None
        else if bool_decide (e_Status entry = StatusCooldown) && IsZero (e_CooldownUntil entry) then None
        else Some entry
    end.
Definition decodeDocument (payload : P) (maxEntries maxBytes : Z) : store_error + gmap string Entry :=
  if (0 <? maxBytes) && (maxBytes <? json_len payload) then inl ErrMalformed
  else
    match json_unmarshal payload with
    | None => inl ErrMalformed
    | Some (schema, raw) =>
        if negb (schema =? BreakerSchemaVersion) then inl ErrMalformed
        else if (0 <? maxEntries) && (maxEntries <? Z.of_nat (size raw)) then inl ErrMalformed
        else inr (map_imap keep_entry raw)
    end.

(** ** The breaker store *)

Record Options := mkOptions {
  op_Namespace : string; op_ReplicaID : string; op_MaxCooldown : Duration;
  op_MaxDocumentBytes : Z; op_MaxEntries : Z; op_Retries : Z
}.
Record View := mkView { vw_Entries : gmap string Entry; vw_Revision : Z; vw_UpdatedAt : Time }.
(** The backing store and the clock are passed to the operations. *)
Record BreakerStore := mkBreakerStore {
  bs_namespace : string; bs_replicaID : string; bs_maxCooldown : Duration;
  bs_maxDocumentBytes : Z; bs_maxEntries : Z; bs_retries : Z
}.

(** [hasStore]: the store passed in is not nil. *)
Definition NewBreakerStore (hasStore : bool) (options : Options) : store_error + BreakerStore :=
  if negb hasStore then inl ErrUnavailable else
  let namespace := if String.eqb (op_Namespace options) "" then BreakerNamespace else op_Namespace options in
  let maxCooldown := if op_MaxCooldown options <=? 0 then DefaultMaxCooldown else op_MaxCooldown options in
  let maxBytes := if op_MaxDocumentBytes options <=? 0 then DefaultMaxDocumentBytes
                  else op_MaxDocumentBytes options in
  let maxEntries := if op_MaxEntries options <=? 0 then DefaultMaxEntries else op_MaxEntries options in
  let retries := if op_Retries options =? 0 then DefaultRetries else op_Retries options in
  if retries <? 0 then inl ErrNegativeRetries
  else
    let replicaID := if String.eqb (op_ReplicaID options) "" then "unknown" else op_ReplicaID options in
    inr (mkBreakerStore namespace replicaID maxCooldown maxBytes maxEntries retries).

Context {S : Type} `{!@Store P S, !@StoreLaws P S _}.
Implicit Types (b : BreakerStore) (s : S).

(** The entries of a loaded snapshot; an empty payload ([None]) does not parse. *)
Definition decode_snapshot b (snapshot : Snapshot P) : store_error + gmap string Entry :=
  match sn_Payload snapshot with
  | None => if 0 <? sn_Revision snapshot then inl ErrMalformed else inr ∅
  | Some payload =>
      if (0 <? sn_Revision snapshot) || (0 <? json_len payload)
      then decodeDocument payload (bs_maxEntries b) (bs_maxDocumentBytes b)
      else inr ∅
  end.

Definition Load b s (ctx : option context_error) (now : Time) : store_error + View :=
  match store_Load s ctx (bs_namespace b) with
  | inl ErrNotFound => inr (mkView ∅ 0 0)
  | inl err => inl err
  | inr snapshot =>
      match sn_Payload snapshot with
      | None => inl ErrMalformed
      | Some payload =>
          match decodeDocument payload (bs_maxEntries b) (bs_maxDocumentBytes b) with
          | inl _ => inl ErrMalformed
          | inr decoded =>
              inr (mkView (Merge ∅ decoded now (bs_maxCooldown b)) (sn_Revision snapshot) (sn_UpdatedAt snapshot))
          end
      end
  end.

(** [None] stands for the zero snapshot of a document that was never written. *)
Definition load_or_new b s (ctx : option context_error) : store_error + Snapshot P :=
  match store_Load s ctx (bs_namespace b) with
  | inl ErrNotFound => inr (mkSnapshot 0 None 0)
  | r => r
  end.

Definition prepare_entry b (now : Time) (entry : Entry) : store_error + option Entry :=
  let entry := if IsZero (e_ObservedAt entry) then entry <| e_ObservedAt := now |> else entry in
  let entry := if String.eqb (e_OriginReplica entry) "" then entry <| e_OriginReplica := bs_replicaID b |>
               else entry in
  NormalizeEntry entry now (bs_maxCooldown b).
Fixpoint prepare_list b (now : Time) (local : list (string * Entry)) : store_error + gmap string Entry :=
  match local with
  | [] => inr ∅
  | (deployment, entry) :: rest =>
      if String.eqb deployment "" then inl ErrInvalidEntry
      else
        match prepare_entry b now entry with
        | inl err => inl err
        | inr active =>
            match prepare_list b now rest with
            | inl err => inl err
            | inr out => inr (match active with Some e => <[deployment := e]> out | None => out end)
            end
        end
  end.
Definition prepareLocal b (local : gmap string Entry) (now : Time) : store_error + gmap string Entry :=
  prepare_list b now (map_to_list local).

(** One attempt: read, merge, and a guarded write.  [inl (Some err)] fails,
    [inl None] is a revision conflict, [inr view] succeeds.  The context is
    looked at three times: before, by the read and by the write. *)
Definition publish_attempt b s (prepared : gmap string Entry) (now : Time) (ctx : nat -> option context_error)
    (env : S -> S) (stamp : Time) : S * (option store_error + View) :=
  match ctx 0%nat with
  | Some c => (s, inl (Some (ErrContext c)))
  | None =>
      match load_or_new b s (ctx 1%nat) with
      | inl err => (s, inl (Some err))
      | inr snapshot =>
          match decode_snapshot b snapshot with
          | inl _ => (s, inl (Some ErrMalformed))
          | inr current =>
              let merged := Merge current prepared now (bs_maxCooldown b) in
              if entriesEqual current merged then
                (s, inr (mkView (cloneEntries merged) (sn_Revision snapshot) (sn_UpdatedAt snapshot)))
              else
                match encodeDocument merged (bs_maxEntries b) (bs_maxDocumentBytes b) with
                | inl _ => (s, inl (Some ErrMalformed))
                | inr payload =>
                    let '(s, saved) :=
                      store_CompareAndSwap (env s) (ctx 2%nat) (bs_namespace b) (sn_Revision snapshot) payload stamp in
                    match saved with
                    | inl ErrConflict => (s, inl None)
                    | inl err => (s, inl (Some err))
                    | inr saved => (s, inr (mkView (cloneEntries merged) (sn_Revision saved) (sn_UpdatedAt saved)))
                    end
                end
          end
      end
  end.

(** [ctxs i], [envs i] and [stamps i] belong to attempt [i]. *)
Fixpoint publish_loop (n : nat) (i : nat) b s (prepared : gmap string Entry) (now : Time)
    (ctxs : nat -> nat -> option context_error) (envs : nat -> S -> S) (stamps : nat -> Time)
    : S * (store_error + View) :=
  match n with
  | O => (s, inl ErrConflict)
  | Datatypes.S n =>
      let '(s, r) := publish_attempt b s prepared now (ctxs i) (envs i) (stamps i) in
      match r with
      | inl None => publish_loop n (Datatypes.S i) b s prepared now ctxs envs stamps
      | inl (Some err) => (s, inl err)
      | inr view => (s, inr view)
      end
  end.
Definition Publish b s (local : gmap string Entry) (now : Time) (ctxs : nat -> nat -> option context_error)
    (envs : nat -> S -> S) (stamps : nat -> Time) : S * (store_error + View) :=
  match prepareLocal b local now with
  | inl err => (s, inl err)
  | inr prepared => publish_loop (Z.to_nat (bs_retries b + 1)) 0 b s prepared now ctxs envs stamps
  end.
End protocol.
