(* ===== verification/SharedStateProofs.v ===== *)
(** * Properties of the shared markers

    [Merge] is the least upper bound of two marker sets; [Publish] refines an
    atomic merge onto the shared document whatever other replicas write in
    between; retirement markers are never lost. *)

From stdpp Require Import relations.
From S2P Require Import Prelude ControlPlane SharedState.

(** ** Merge, key by key *)

Section merge.
Implicit Types (e x y : Entry) (now : Time) (mx : Duration).

Definition norm_at now mx (k : string) e : option Entry :=
  if String.eqb k "" then None
  else match NormalizeEntry e now mx with inr r => r | inl _ => None end.
Definition join (a b : option Entry) : option Entry :=
  match a, b with
  | Some x, Some y => Some (mergeEntry x y)
  | None, b => b
  | a, None => a
  end.

Lemma merge_one_lookup now mx d e out k :
  merge_one now mx d e out !! k = if String.eqb d k then join (out !! k) (norm_at now mx k e) else out !! k.
Proof.
  unfold merge_one, norm_at. destruct (String.eqb_spec d k) as [<-|Hne].
  - destruct (String.eqb_spec d "") as [->|Hd]; [by destruct (out !! "")|].
    destruct (NormalizeEntry e now mx) as [err|[n|]]; [by destruct (out !! d)| |by destruct (out !! d)].
    destruct (out !! d) eqn:Ho; by rewrite lookup_insert_eq.
  - destruct (String.eqb d ""); [done|]. destruct (NormalizeEntry e now mx) as [err|[n|]]; [done| |done].
    destruct (out !! d); by rewrite lookup_insert_ne.
Qed.

Lemma merge_source_lookup now mx src out k :
  merge_source now mx src out !! k = join (out !! k) (src !! k ≫= norm_at now mx k).
Proof.
  unfold merge_source. revert k.
  apply (map_fold_weak_ind (fun res m => forall k, res !! k = join (out !! k) (m !! k ≫= norm_at now mx k))).
  - intros k. rewrite lookup_empty. by destruct (out !! k).
  - intros i e m res Hi IH k. rewrite merge_one_lookup, IH.
    destruct (String.eqb_spec i k) as [<-|Hne].
    + rewrite lookup_insert_eq, Hi. cbn. by destruct (out !! i).
    + by rewrite lookup_insert_ne.
Qed.

Lemma Merge_lookup cur inc now mx k :
  Merge cur inc now mx !! k = join (cur !! k ≫= norm_at now mx k) (inc !! k ≫= norm_at now mx k).
Proof. unfold Merge. rewrite !merge_source_lookup, lookup_empty. done. Qed.

(** What a normalised marker looks like. *)
Definition active now mx e : Prop :=
  (e_Status e = StatusRetired /\ e_CooldownUntil e = 0) \/
  (e_Status e = StatusCooldown /\ now < e_CooldownUntil e /\ (0 < mx -> e_CooldownUntil e <= now + mx)).

Lemma norm_at_active now mx k e n : norm_at now mx k e = Some n -> k <> "" /\ active now mx n.
Proof.
  unfold norm_at, NormalizeEntry, active. destruct (String.eqb_spec k ""); [done|].
  destruct (IsZero now); [done|]. destruct (e_Status e) eqn:Hs; [|intros [= <-]; split; [done|by left]|done].
  destruct (IsZero (e_CooldownUntil e)); [done|]. unfold After.
  destruct (Z.ltb_spec now (e_CooldownUntil e)) as [Hlt|]; [|done]. cbn [negb]. intros [= <-].
  split; [done|right]. unfold Add. destruct (Z.ltb_spec 0 mx), (Z.ltb_spec (now + mx) (e_CooldownUntil e)); cbn;
    rewrite ?Hs; split_and!; try done; lia.
Qed.

Lemma norm_at_id now mx k e : 0 < now -> k <> "" -> active now mx e -> norm_at now mx k e = Some e.
Proof.
  intros Hn Hk He. unfold norm_at, NormalizeEntry, IsZero, After, Add.
  destruct (String.eqb_spec k ""); [done|]. destruct (Z.eqb_spec now 0); [lia|].
  destruct He as [[-> Hu]|(-> & Hlt & Hcap)].
  - destruct e; cbn in *. by subst.
  - destruct (Z.eqb_spec (e_CooldownUntil e) 0); [lia|].
    destruct (Z.ltb_spec now (e_CooldownUntil e)); [|lia]. cbn [negb].
    destruct (Z.ltb_spec 0 mx), (Z.ltb_spec (now + mx) (e_CooldownUntil e)); cbn; try done; lia.
Qed.

Lemma mergeEntry_active now mx x y : active now mx x -> active now mx y -> active now mx (mergeEntry x y).
Proof. intros Hx Hy. unfold mergeEntry. repeat case_match; done. Qed.

Lemma join_active now mx a b n : join a b = Some n ->
  (forall x, a = Some x -> active now mx x) -> (forall y, b = Some y -> active now mx y) -> active now mx n.
Proof.
  intros H Ha Hb. destruct a as [x|], b as [y|]; cbn in H; try done; injection H as <-; auto.
  apply mergeEntry_active; auto.
Qed.

Lemma Merge_active cur inc now mx k n : Merge cur inc now mx !! k = Some n -> k <> "" /\ active now mx n.
Proof.
  rewrite Merge_lookup. intros H.
  assert (forall (m : gmap string Entry) x, (m !! k ≫= norm_at now mx k) = Some x -> k <> "" /\ active now mx x) as Hx.
  { intros m x. destruct (m !! k); [|done]. cbn. apply norm_at_active. }
  split.
  - destruct (cur !! k ≫= norm_at now mx k) eqn:E1; [by apply Hx in E1 as [? _]|].
    cbn in H. by apply Hx in H as [? _].
  - apply (join_active now mx _ _ _ H); intros x Hxs; by apply Hx in Hxs as [_ ?].
Qed.

(** The order of markers: a longer cooldown is more, retirement is most. *)
Definition marker_le (a b : option Entry) : Prop :=
  match a, b with
  | None, _ => True
  | Some _, None => False
  | Some x, Some y =>
      e_Status y = StatusRetired \/
      (e_Status x = StatusCooldown /\ e_Status y = StatusCooldown /\ e_CooldownUntil x <= e_CooldownUntil y)
  end.

(** The result is one of the two, and the other is not above it. *)
Lemma mergeEntry_cases now mx x y : active now mx x -> active now mx y ->
  (mergeEntry x y = x /\ marker_le (Some y) (Some x)) \/ (mergeEntry x y = y /\ marker_le (Some x) (Some y)).
Proof.
  intros Hx Hy. unfold mergeEntry, After, marker_le.
  destruct (decide (e_Status x = StatusRetired)) as [E|E]; [rewrite bool_decide_true by done; auto|].
  rewrite (bool_decide_false (e_Status x = StatusRetired)) by done.
  destruct (decide (e_Status y = StatusRetired)) as [F|F]; [rewrite bool_decide_true by done; auto|].
  rewrite (bool_decide_false (e_Status y = StatusRetired)) by done.
  destruct Hx as [[? _]|(Hx & _)]; [done|]. destruct Hy as [[? _]|(Hy & _)]; [done|].
  destruct (Z.ltb_spec (e_CooldownUntil x) (e_CooldownUntil y)); [right|left]; split; try done;
    right; split_and!; auto; lia.
Qed.

Lemma marker_le_refl now mx x : active now mx x -> marker_le (Some x) (Some x).
Proof. intros [[? _]|(? & _)]; cbn; [by left|right; split_and!; auto; lia]. Qed.

Lemma mergeEntry_lub now mx x y : active now mx x -> active now mx y ->
  marker_le (Some x) (Some (mergeEntry x y)) /\ marker_le (Some y) (Some (mergeEntry x y)) /\
  forall c, marker_le (Some x) c -> marker_le (Some y) c -> marker_le (Some (mergeEntry x y)) c.
Proof.
  intros Hx Hy. destruct (mergeEntry_cases now mx x y Hx Hy) as [(-> & H)|(-> & H)]; split_and!; try done.
  - by apply (marker_le_refl now mx).
  - by apply (marker_le_refl now mx).
Qed.

Lemma join_lub now mx a b : (forall x, a = Some x -> active now mx x) -> (forall y, b = Some y -> active now mx y) ->
  marker_le a (join a b) /\ marker_le b (join a b) /\
  forall c, marker_le a c -> marker_le b c -> marker_le (join a b) c.
Proof.
  intros Ha Hb. destruct a as [x|], b as [y|]; cbn [join].
  - by apply (mergeEntry_lub now mx); auto.
  - split_and!; [by apply (marker_le_refl now mx); auto|done|done].
  - split_and!; [done|by apply (marker_le_refl now mx); auto|done].
  - done.
Qed.

(** Merging markers is a join: every merged marker is at least each
    side's live marker and nothing more, so replicas that saw the same markers
    agree on routing in whatever order they merged them; every result is
    retired, or cooling down past the present and no longer than the cap. *)
Theorem merge_is_join (cur inc : gmap string Entry) (now : Time) (mx : Duration) (k : string) :
  let a := cur !! k ≫= norm_at now mx k in
  let b := inc !! k ≫= norm_at now mx k in
  let m := Merge cur inc now mx !! k in
  marker_le a m /\ marker_le b m /\ (forall c, marker_le a c -> marker_le b c -> marker_le m c) /\
  (forall n, m = Some n -> active now mx n).
Proof.
  intros a b m.
  assert (forall (src : gmap string Entry) x, (src !! k ≫= norm_at now mx k) = Some x -> active now mx x) as Hx.
  { intros src x. destruct (src !! k); [|done]. cbn. intros H. by apply norm_at_active in H as [_ ?]. }
  destruct (join_lub now mx a b (Hx cur) (Hx inc)) as (H1 & H2 & H3). unfold m. rewrite Merge_lookup.
  split_and!; [done|done|done|]. intros n Hn. apply (join_active now mx _ _ _ Hn); apply Hx.
Qed.

Lemma mergeEntry_absorb m y : marker_le (Some y) (Some m) -> mergeEntry m y = m.
Proof.
  unfold mergeEntry, After. intros H. cbn in H.
  destruct (decide (e_Status m = StatusRetired)) as [E|E]; [by rewrite bool_decide_true|].
  destruct H as [?|(Hy & Hm & Hle)]; [done|]. rewrite Hy, Hm. cbn.
  destruct (Z.ltb_spec (e_CooldownUntil m) (e_CooldownUntil y)); [lia|done].
Qed.

(** Merging the same markers again changes nothing. *)
Lemma Merge_idem cur inc now mx : 0 < now ->
  Merge (Merge cur inc now mx) inc now mx = Merge cur inc now mx.
Proof.
  intros Hn. apply map_eq. intros k. rewrite (Merge_lookup (Merge cur inc now mx)).
  destruct (Merge cur inc now mx !! k) as [m|] eqn:Hm.
  - destruct (Merge_active _ _ _ _ _ _ Hm) as [Hk Ha]. cbn. rewrite norm_at_id by done.
    rewrite Merge_lookup in Hm. destruct (inc !! k ≫= norm_at now mx k) as [y|] eqn:Hy; [|done].
    cbn. f_equal. assert (active now mx y) as Hya.
    { destruct (inc !! k); [|done]. cbn in Hy. by apply norm_at_active in Hy as [_ ?]. }
    assert (m = y \/ exists x, m = mergeEntry x y /\ active now mx x) as [->|(x & -> & Hxa)].
    { destruct (cur !! k) as [c|] eqn:Hc; cbn in Hm; [|left; congruence].
      destruct (norm_at now mx k c) as [x|] eqn:Hx; cbn in Hm; [|left; congruence].
      right. exists x. apply norm_at_active in Hx as [_ ?]. split; [congruence|done]. }
    + apply mergeEntry_absorb. by apply (marker_le_refl now mx).
    + apply mergeEntry_absorb. by apply (mergeEntry_lub now mx).
  - cbn. rewrite Merge_lookup in Hm. destruct (cur !! k ≫= _), (inc !! k ≫= _); done.
Qed.
End merge.

(** ** The publish protocol *)

Lemma entriesEqual_refl m : entriesEqual m m = true.
Proof.
  unfold entriesEqual. rewrite Nat.eqb_refl. cbn. apply forallb_forall. intros [k e] Hin.
  apply list_elem_of_In, elem_of_map_to_list in Hin. rewrite Hin. unfold entry_equal.
  by rewrite bool_decide_true, Z.eqb_refl, !String.eqb_refl.
Qed.

Section publish.
Context {P R : Type} `{!Json P R, !JsonLaws P R}.
Context {S : Type} `{!@Store P S, !@StoreLaws P S _}.
Implicit Types (b : BreakerStore) (s : S).

Lemma decode_encode es me mb p now mx : 0 < now ->
  map_Forall (fun k e => k <> "" /\ active now mx e) es ->
  encodeDocument es me mb = inr p -> decodeDocument p me mb = inr es /\ 0 < json_len p.
Proof.
  intros Hn Hes. unfold encodeDocument, decodeDocument.
  destruct (_ && _) eqn:Hsz; [done|]. destruct (json_marshal es) as [q|] eqn:Hm; [|done].
  destruct (_ && (mb <? json_len q)) eqn:Hb; [done|]. intros [= <-]. rewrite Hb.
  destruct (json_roundtrip es q Hm) as (raw & -> & Hsize & Hraw). rewrite Hsize, Hsz.
  change (negb (BreakerSchemaVersion =? BreakerSchemaVersion)) with false. cbv iota.
  split; [|by apply (json_nonempty es q)]. f_equal. apply map_eq. intros k.
  rewrite map_lookup_imap. specialize (Hraw k). destruct (raw !! k) as [r|]; cbn in *.
  - destruct (es !! k) as [e|] eqn:He.
    + destruct (Hes k e He) as [Hk Ha]. unfold keep_entry. rewrite Hraw.
      destruct (String.eqb_spec k ""); [done|].
      destruct Ha as [[-> _]|(-> & Hlt & _)]; [done|]. cbn.
      unfold IsZero. destruct (Z.eqb_spec (e_CooldownUntil e) 0); [lia|done].
    + unfold keep_entry. rewrite Hraw. by destruct (String.eqb k "").
  - done.
Qed.

(** *** The abstract specification: atomic merges onto the shared document *)

(** The document a reader of the store finds; a missing one is empty. *)
Definition shared_document b s : store_error + gmap string Entry :=
  match load_or_new b s None with
  | inl err => inl err
  | inr snapshot => decode_snapshot b snapshot
  end.
Definition merge_step b s s' : Prop :=
  exists cur prepared now mx, 0 < now /\ shared_document b s = inr cur /\
    shared_document b s' = inr (Merge cur prepared now mx).
(** A merge by another replica, whose write gets the next revision. *)
Definition revision b s : Z :=
  match load_or_new b s None with inr snapshot => sn_Revision snapshot | inl _ => 0 end.
Definition quiet_step b s s' : Prop :=
  merge_step b s s' /\ revision b s' = revision b s + 1.

Lemma quiet_merge b s s' : rtc (quiet_step b) s s' -> rtc (merge_step b) s s'.
Proof. apply rtc_subrel. by intros ? ? [? _]. Qed.

Lemma quiet_revision b s s' : rtc (quiet_step b) s s' -> s' = s \/ revision b s < revision b s'.
Proof.
  induction 1 as [|s s1 s2 [_ Hr] _ IH]; [by left|]. right. destruct IH as [->|]; lia.
Qed.

Lemma load_none b s ctx snap : load_or_new b s ctx = inr snap -> load_or_new b s None = inr snap.
Proof.
  unfold load_or_new. destruct (store_Load s ctx (bs_namespace b)) as [err|v] eqn:E.
  - destruct err; try done. intros [= <-]. by rewrite (load_missing _ _ _ E).
  - intros [= <-]. destruct (load_success _ _ _ _ E) as [-> _]. done.
Qed.

(** A successful guarded write finds the document this replica has read. *)
Lemma cas_unmoved b s s1 ctx snap p t s' saved : load_or_new b s None = inr snap ->
  rtc (quiet_step b) s s1 ->
  store_CompareAndSwap s1 ctx (bs_namespace b) (sn_Revision snap) p t = (s', inr saved) ->
  s1 = s /\ store_Load s' None (bs_namespace b) = inr saved /\ sn_Payload saved = Some p.
Proof.
  intros Hl Hq Hcas. destruct (cas_success _ _ _ _ _ _ _ _ Hcas) as (_ & Hp & Hload & Hpre).
  assert (revision b s = sn_Revision snap) as Hrev by (unfold revision; by rewrite Hl).
  destruct (quiet_revision b s s1 Hq) as [->|Hlt]; [done|]. exfalso.
  assert (revision b s1 = sn_Revision snap) as Hrev1; [|lia].
  unfold revision, load_or_new. destruct Hpre as [(old & -> & <-)|[-> Hz]]; [done|]. by rewrite Hz.
Qed.

Lemma shared_document_saved b s' saved p es now mx : 0 < now ->
  map_Forall (fun k e => k <> "" /\ active now mx e) es ->
  encodeDocument es (bs_maxEntries b) (bs_maxDocumentBytes b) = inr p ->
  store_Load s' None (bs_namespace b) = inr saved -> sn_Payload saved = Some p ->
  shared_document b s' = inr es.
Proof.
  intros Hn Hes He Hl Hp. destruct (decode_encode _ _ _ _ _ _ Hn Hes He) as [Hd Hlen].
  unfold shared_document, load_or_new. rewrite Hl. unfold decode_snapshot. rewrite Hp.
  rewrite (proj2 (Z.ltb_lt 0 (json_len p)) Hlen), orb_true_r. exact Hd.
Qed.

(** What this replica's own step does when it succeeds from [s1]: the document
    it finds there is merged with its markers, in the view and in the store. *)
Definition published b (prepared : gmap string Entry) (now : Time) s1 s' (view : View) : Prop :=
  exists old, shared_document b s1 = inr old /\
    vw_Entries view = Merge old prepared now (bs_maxCooldown b) /\
    ((s' = s1 /\ entriesEqual old (vw_Entries view) = true) \/ shared_document b s' = inr (vw_Entries view)).

Lemma publish_attempt_refines b s prepared now ctx env stamp : 0 < now -> rtc (quiet_step b) s (env s) ->
  let '(s', r) := publish_attempt b s prepared now ctx env stamp in
  match r with
  | inr view => published b prepared now s s' view
  | inl _ => rtc (quiet_step b) s s'
  end.
Proof.
  intros Hn Henv. unfold publish_attempt. destruct (ctx 0%nat); [done|].
  destruct (load_or_new b s (ctx 1%nat)) as [err|snap] eqn:Hl; [done|]. apply load_none in Hl.
  destruct (decode_snapshot b snap) as [err|cur] eqn:Hd; [done|].
  assert (shared_document b s = inr cur) as Hdoc by (unfold shared_document; by rewrite Hl). cbv zeta.
  set (merged := Merge cur prepared now (bs_maxCooldown b)).
  destruct (entriesEqual cur merged) eqn:Heq.
  { exists cur. split_and!; [done|done|by left]. }
  destruct (encodeDocument merged _ _) as [err|payload] eqn:He; [done|].
  destruct (store_CompareAndSwap (env s) (ctx 2%nat) _ _ _ _) as [s' [err|saved]] eqn:Hcas.
  - assert (s' = env s) as -> by (by eapply cas_error). by destruct err.
  - destruct (cas_unmoved _ _ _ _ _ _ _ _ _ Hl Henv Hcas) as (_ & Hload & Hp).
    assert (map_Forall (fun k e => k <> "" /\ active now (bs_maxCooldown b) e) merged) as Hact.
    { intros k e Hk. by apply (Merge_active cur prepared). }
    exists cur. split_and!; [done|done|right].
    exact (shared_document_saved _ _ _ _ _ _ _ Hn Hact He Hload Hp).
Qed.

Lemma publish_loop_refines n : forall i b s prepared now ctxs envs stamps, 0 < now ->
  (forall i s, rtc (quiet_step b) s (envs i s)) ->
  let '(s', r) := publish_loop n i b s prepared now ctxs envs stamps in
  match r with
  | inr view => exists s1, rtc (quiet_step b) s s1 /\ published b prepared now s1 s' view
  | inl _ => rtc (quiet_step b) s s'
  end.
Proof.
  induction n as [|n IH]; intros i b s prepared now ctxs envs stamps Hn Henv; cbn [publish_loop]; [done|].
  pose proof (publish_attempt_refines b s prepared now (ctxs i) (envs i) (stamps i) Hn (Henv i s)) as Ha.
  destruct (publish_attempt _ _ _ _ _ _ _) as [s' [[err|]|view]]; [done| |by exists s].
  specialize (IH (Datatypes.S i) b s' prepared now ctxs envs stamps Hn Henv).
  destruct (publish_loop _ _ _ _ _ _ _ _ _) as [s'' [err|view]]; [by trans s'|].
  destruct IH as (s1 & H1 & H2). exists s1. split; [by trans s'|done].
Qed.

(** The store after the others acted during [n] attempts, from attempt [i] on,
    and this replica wrote nothing. *)
Fixpoint drift (envs : nat -> S -> S) (i n : nat) s : S :=
  match n with O => s | Datatypes.S n => drift envs (Datatypes.S i) n (envs i s) end.

Lemma publish_attempt_exact b s prepared now ctx env stamp : 0 < now -> rtc (quiet_step b) s (env s) ->
  let '(s', r) := publish_attempt b s prepared now ctx env stamp in
  match r with
  | inr view => s' = s \/ env s = s
  | inl (Some _) => s' = s \/ s' = env s
  | inl None => s' = env s
  end.
Proof.
  intros Hn Henv. unfold publish_attempt. destruct (ctx 0%nat); [by left|].
  destruct (load_or_new b s (ctx 1%nat)) as [err|snap] eqn:Hl; [by left|]. apply load_none in Hl.
  destruct (decode_snapshot b snap) as [err|cur]; [by left|]. cbv zeta.
  destruct (entriesEqual _ _); [by left|]. destruct (encodeDocument _ _ _) as [err|payload]; [by left|].
  destruct (store_CompareAndSwap (env s) (ctx 2%nat) _ _ _ _) as [s' [err|saved]] eqn:Hcas.
  - assert (s' = env s) as -> by (by eapply cas_error). destruct err; auto.
  - right. by destruct (cas_unmoved _ _ _ _ _ _ _ _ _ Hl Henv Hcas).
Qed.

Lemma publish_loop_exact n : forall i b s prepared now ctxs envs stamps, 0 < now -> (forall i s, rtc (quiet_step b) s (envs i s)) ->
  let '(s', r) := publish_loop n i b s prepared now ctxs envs stamps in
  match r with
  | inr view => exists k, (k < n)%nat /\ published b prepared now (drift envs i k s) s' view
                 /\ (s' = drift envs i k s \/ envs (i + k)%nat (drift envs i k s) = drift envs i k s)
  | inl _ => exists k, (k <= n)%nat /\ s' = drift envs i k s
  end.
Proof.
  induction n as [|n IH]; intros i b s prepared now ctxs envs stamps Hn Henv; cbn [publish_loop]; [by exists 0%nat|].
  pose proof (publish_attempt_refines b s prepared now (ctxs i) (envs i) (stamps i) Hn (Henv i s)) as Ha.
  pose proof (publish_attempt_exact b s prepared now (ctxs i) (envs i) (stamps i) Hn (Henv i s)) as Hb.
  destruct (publish_attempt _ _ _ _ _ _ _) as [s' [[err|]|view]].
  - destruct Hb as [-> | ->]; [exists 0%nat|exists 1%nat]; (split; [lia|done]).
  - subst s'. specialize (IH (Datatypes.S i) b (envs i s) prepared now ctxs envs stamps Hn Henv).
    destruct (publish_loop _ _ _ _ _ _ _ _ _) as [s'' [err|view]].
    + destruct IH as (k & Hk & ->). exists (Datatypes.S k). split; [lia|done].
    + destruct IH as (k & Hk & Hpub & Hd). exists (Datatypes.S k). rewrite Nat.add_succ_r. split_and!; [lia|done|done].
  - exists 0%nat. rewrite Nat.add_0_r. split_and!; [lia|done|done].
Qed.

(** (C10) Publishing refines an atomic merge.  The other replicas act on the store
    during each attempt, between this replica's read and its write, and only by
    merges that get the next revision.  A publish that succeeds does so in one of
    its [retries + 1] attempts: the store then is the one the others left behind,
    its document is merged with this replica's markers, in the view and in the
    store, and when something was written the others did nothing between the
    read and the write, so no write of theirs is lost.  A publish that fails
    leaves exactly what the others wrote. *)
Theorem publish_refines_merge b s local now ctxs (envs : nat -> S -> S) stamps : 0 < now -> 0 <= bs_retries b ->
  (forall i s, rtc (quiet_step b) s (envs i s)) ->
  let '(s', r) := Publish b s local now ctxs envs stamps in
  match r with
  | inr view => exists prepared k, prepareLocal b local now = inr prepared /\ Z.of_nat k <= bs_retries b
      /\ published b prepared now (drift envs 0 k s) s' view
      /\ (s' = drift envs 0 k s \/ envs k (drift envs 0 k s) = drift envs 0 k s)
  | inl _ => exists k, Z.of_nat k <= bs_retries b + 1 /\ s' = drift envs 0 k s
  end.
Proof.
  intros Hn Hr Henv. unfold Publish. destruct (prepareLocal b local now) as [err|prepared]; [exists 0%nat; split; [lia|done]|].
  pose proof (publish_loop_exact (Z.to_nat (bs_retries b + 1)) 0 b s prepared now ctxs envs stamps Hn Henv) as Hl.
  destruct (publish_loop _ _ _ _ _ _ _ _ _) as [s' [err|view]].
  - destruct Hl as (k & Hk & ->). exists k. split; [lia|done].
  - destruct Hl as (k & Hk & Hpub & Hd). exists prepared, k. split_and!; [done|lia|done|done].
Qed.

(** *** Retirement is never lost *)

Definition retired_at b (k : string) s : Prop :=
  exists cur e, shared_document b s = inr cur /\ cur !! k = Some e /\ e_Status e = StatusRetired.

Lemma decode_nameless b p cur : decodeDocument p (bs_maxEntries b) (bs_maxDocumentBytes b) = inr cur ->
  cur !! "" = None.
Proof.
  unfold decodeDocument. destruct (_ && _); [done|]. destruct (json_unmarshal p) as [[sc raw]|]; [|done].
  destruct (negb _); [done|]. destruct (_ && _); [done|]. intros [= <-]. rewrite map_lookup_imap.
  by destruct (raw !! "").
Qed.

Lemma document_nameless b s cur : shared_document b s = inr cur -> cur !! "" = None.
Proof.
  unfold shared_document, decode_snapshot. destruct (load_or_new b s None) as [err|snap]; [done|].
  destruct (sn_Payload snap) as [p|]; [|destruct (0 <? _); [done|by intros [= <-]]].
  destruct (_ || _); [apply decode_nameless|by intros [= <-]].
Qed.

Lemma Merge_retired (cur prepared : gmap string Entry) now mx k e : 0 < now -> k <> "" ->
  cur !! k = Some e -> e_Status e = StatusRetired ->
  exists e', Merge cur prepared now mx !! k = Some e' /\ e_Status e' = StatusRetired.
Proof.
  intros Hn Hk He Hr. rewrite Merge_lookup, He. cbn [option_bind mbind].
  assert (norm_at now mx k e = Some (e <| e_CooldownUntil := 0 |>)) as ->.
  { unfold norm_at, NormalizeEntry, IsZero. destruct (String.eqb_spec k ""); [done|].
    destruct (Z.eqb_spec now 0); [lia|]. by rewrite Hr. }
  destruct (prepared !! k ≫= norm_at now mx k) as [y|]; cbn [join]; [|eexists; split; [done|by destruct e]].
  eexists. split; [done|]. unfold mergeEntry. rewrite bool_decide_true by (by destruct e). by destruct e.
Qed.

Lemma merge_step_retired b s s' k : merge_step b s s' -> retired_at b k s -> retired_at b k s'.
Proof.
  intros (cur & prepared & now & mx & Hn & Hd & Hd') (c & e & Hc & He & Hr).
  assert (c = cur) as -> by congruence.
  assert (k <> "") as Hk by (intros ->; by rewrite (document_nameless _ _ _ Hd) in He).
  destruct (Merge_retired cur prepared now mx k e Hn Hk He Hr) as (e' & He' & Hr').
  by exists (Merge cur prepared now mx), e'.
Qed.

Lemma merge_steps_retired b s s' k : rtc (merge_step b) s s' -> retired_at b k s -> retired_at b k s'.
Proof. induction 1; eauto using merge_step_retired. Qed.

Lemma published_step b prepared now s1 s' view : 0 < now ->
  published b prepared now s1 s' view -> rtc (merge_step b) s1 s'.
Proof.
  intros Hn (old & Ho & Hv & [[-> _]|Hd]); [done|]. apply rtc_once.
  exists old, prepared, now, (bs_maxCooldown b). split_and!; [done|done|]. by rewrite Hd, Hv.
Qed.

(** *** What a successful publish delivers *)

Lemma entriesEqual_lookup (a m : gmap string Entry) k r : entriesEqual a m = true -> m !! k = Some r ->
  exists l, a !! k = Some l /\ entry_equal l r = true.
Proof.
  unfold entriesEqual. intros [Hsz Hall]%andb_true_iff Hr. apply Nat.eqb_eq in Hsz.
  rewrite forallb_forall in Hall.
  assert (forall k l, a !! k = Some l -> exists r, m !! k = Some r /\ entry_equal l r = true) as Hsub.
  { intros k' l Hl. specialize (Hall (k', l)). cbn in Hall.
    destruct (m !! k') as [r'|]; [exists r'; split; [done|]|discriminate Hall].
    - apply Hall. by apply list_elem_of_In, elem_of_map_to_list.
    - by apply list_elem_of_In, elem_of_map_to_list. }
  assert (dom a = dom m) as Hdom.
  { apply set_subseteq_size_eq; [|by rewrite !size_dom, Hsz].
    intros j' [l Hl]%elem_of_dom. destruct (Hsub j' l Hl) as (r' & ? & _). by apply elem_of_dom. }
  assert (k ∈ dom a) as [l Hl]%elem_of_dom by (rewrite Hdom; by apply elem_of_dom).
  exists l. split; [done|]. destruct (Hsub k l Hl) as (r' & Hr' & He). congruence.
Qed.

Lemma marker_le_equal a r l : marker_le a (Some r) -> entry_equal l r = true -> marker_le a (Some l).
Proof.
  unfold entry_equal. intros Hle Heq. apply andb_true_iff in Heq as [Heq _].
  apply andb_true_iff in Heq as [Heq _]. apply andb_true_iff in Heq as [Hs Hu].
  apply bool_decide_eq_true in Hs. apply Z.eqb_eq in Hu. destruct a; [|done]. cbn in *. by rewrite Hs, Hu.
Qed.

Lemma published_delivers b prepared now s1 s' view k : 0 < now ->
  published b prepared now s1 s' view ->
  exists cur, shared_document b s' = inr cur /\ marker_le (prepared !! k ≫= norm_at now (bs_maxCooldown b) k) (cur !! k).
Proof.
  intros Hn (old & Ho & Hv & Hs).
  assert (marker_le (prepared !! k ≫= norm_at now (bs_maxCooldown b) k) (vw_Entries view !! k)) as Hle.
  { rewrite Hv, Merge_lookup. apply (join_lub now (bs_maxCooldown b)); intros x Hx.
    - destruct (old !! k); [|done]. by apply norm_at_active in Hx as [_ ?].
    - destruct (prepared !! k); [|done]. by apply norm_at_active in Hx as [_ ?]. }
  destruct Hs as [[-> Heq]|Hd]; [|by exists (vw_Entries view)]. exists old. split; [done|].
  destruct (vw_Entries view !! k) as [r|] eqn:Hr; [|destruct (prepared !! k ≫= _); by destruct (old !! k)].
  destruct (entriesEqual_lookup _ _ _ _ Heq Hr) as (l & -> & Hl). by apply (marker_le_equal _ r).
Qed.

Lemma prepare_list_active b now l : forall out, prepare_list b now l = inr out ->
  map_Forall (fun k e => k <> "" /\ active now (bs_maxCooldown b) e) out.
Proof.
  induction l as [|[k e] l IH]; cbn [prepare_list]; intros out; [by intros [= <-]|].
  destruct (String.eqb_spec k "") as [|Hk]; [done|]. destruct (prepare_entry b now e) as [err|act] eqn:Hp; [done|].
  destruct (prepare_list b now l) as [err|rest]; [done|]. intros [= <-].
  specialize (IH rest eq_refl). destruct act as [x|]; [|done]. apply map_Forall_insert_2; [|done].
  apply (norm_at_active now (bs_maxCooldown b) k
    (let entry := if IsZero (e_ObservedAt e) then e <| e_ObservedAt := now |> else e in
     if String.eqb (e_OriginReplica entry) "" then entry <| e_OriginReplica := bs_replicaID b |> else entry)).
  unfold norm_at. destruct (String.eqb_spec k ""); [done|]. unfold prepare_entry in Hp. by rewrite Hp.
Qed.

(** Retirement markers are never lost: a deployment the shared document
    calls retired is still retired there after any publish, successful or not,
    by this replica, with any writes of the others in between, and whatever
    this replica believes of it. *)
Theorem retirement_never_lost b s local now ctxs (envs : nat -> S -> S) stamps k : 0 < now ->
  (forall i s, rtc (quiet_step b) s (envs i s)) ->
  retired_at b k s -> retired_at b k (fst (Publish b s local now ctxs envs stamps)).
Proof.
  intros Hn Henv Hr. unfold Publish. destruct (prepareLocal b local now) as [err|prepared]; [done|].
  pose proof (publish_loop_refines (Z.to_nat (bs_retries b + 1)) 0 b s prepared now ctxs envs stamps Hn Henv) as Hl.
  destruct (publish_loop _ _ _ _ _ _ _ _ _) as [s' [err|view]]; cbn [fst].
  - apply (merge_steps_retired b s); [by apply quiet_merge|done].
  - destruct Hl as (s1 & Hq & Hp). apply (merge_steps_retired b s); [|done].
    trans s1; [by apply quiet_merge|by apply (published_step b prepared now s1 s' view)].
Qed.

(** A successful publish delivers: every live local marker, capped and
    stamped, is then covered by the shared document, which holds for that
    deployment a retirement or a cooldown at least as long. *)
Theorem publish_delivers b s local now ctxs (envs : nat -> S -> S) stamps s' view prepared k : 0 < now ->
  (forall i s, rtc (quiet_step b) s (envs i s)) ->
  prepareLocal b local now = inr prepared ->
  Publish b s local now ctxs envs stamps = (s', inr view) ->
  exists cur, shared_document b s' = inr cur /\ marker_le (prepared !! k) (cur !! k).
Proof.
  intros Hn Henv Hp. unfold Publish. rewrite Hp. intros HP.
  pose proof (publish_loop_refines (Z.to_nat (bs_retries b + 1)) 0 b s prepared now ctxs envs stamps Hn Henv) as Hl.
  rewrite HP in Hl. destruct Hl as (s1 & _ & Hpub).
  destruct (published_delivers _ _ _ _ _ _ k Hn Hpub) as (cur & Hd & Hle). exists cur. split; [done|].
  destruct (prepared !! k) as [x|] eqn:Hx; [|done]. cbn [option_bind mbind] in Hle.
  destruct (prepare_list_active _ _ _ _ Hp k x Hx) as [Hk Ha]. by rewrite norm_at_id in Hle.
Qed.

(** Publishing is idempotent: after a success, publishing the same markers
    at the same instant with nobody in between finds nothing to write, leaves
    the store as it is and shows the same routing state. *)
Theorem publish_idempotent b s local now ctxs (envs envs' : nat -> S -> S) stamps stamps' s' view : 0 < now ->
  0 <= bs_retries b -> (forall i s, rtc (quiet_step b) s (envs i s)) ->
  Publish b s local now ctxs envs stamps = (s', inr view) ->
  exists view', Publish b s' local now (fun _ _ => None) envs' stamps' = (s', inr view') /\
    vw_Entries view' = vw_Entries view.
Proof.
  intros Hn Hre Henv. unfold Publish. destruct (prepareLocal b local now) as [err|prepared]; [done|]. intros HP.
  pose proof (publish_loop_refines (Z.to_nat (bs_retries b + 1)) 0 b s prepared now ctxs envs stamps Hn Henv) as Hl.
  rewrite HP in Hl. destruct Hl as (s1 & _ & old & Ho & Hv & Hs).
  assert (exists cur, shared_document b s' = inr cur /\ Merge cur prepared now (bs_maxCooldown b) = vw_Entries view /\
    entriesEqual cur (vw_Entries view) = true) as (cur & Hd & Hm & He).
  { destruct Hs as [[-> He]|Hd]; [by exists old|]. exists (vw_Entries view). split_and!; [done| |apply entriesEqual_refl].
    rewrite Hv. by apply Merge_idem. }
  assert (exists n, Z.to_nat (bs_retries b + 1) = Datatypes.S n) as (n & ->) by (exists (Z.to_nat (bs_retries b)); lia).
  cbn [publish_loop]. unfold publish_attempt, shared_document in *.
  destruct (load_or_new b s' None) as [err|snap]; [done|]. rewrite Hd. cbv zeta. rewrite Hm, He. by eexists.
Qed.
End publish.

(** ** Samples *)

Module Samples.
#[local] Instance plain_Json : Json (gmap string Entry) Entry := {
  json_marshal es := Some es;
  json_unmarshal p := Some (BreakerSchemaVersion, p);
  json_entry := Some;
  json_len _ := 1
}.
#[local] Instance plain_JsonLaws : JsonLaws (gmap string Entry) Entry.
Proof.
  split; [|done]. intros es p [= <-]. exists es. split_and!; [done|done|].
  intros k. cbn. by destruct (es !! k).
Qed.
Definition plain_len (p : gmap string Entry) : Z := 1.
#[local] Instance plain_Store : @Store (gmap string Entry) _ := memory_Store plain_len.
#[local] Instance plain_StoreLaws : @StoreLaws (gmap string Entry) _ plain_Store := memory_StoreLaws plain_len.
Definition sample_store : BreakerStore := mkBreakerStore BreakerNamespace "r1" (30 * Minute) 1048576 10000 3.
Definition retired_entry : Entry := mkEntry StatusRetired 0 "auth" "r2" 50.
Definition cooling_entry : Entry := mkEntry StatusCooldown 200 "timeout" "" 0.

(** Another replica that retires ["m"] as soon as it finds no document. *)
Definition other_replica (i : nat) (s : MemoryStore (gmap string Entry)) : MemoryStore (gmap string Entry) :=
  match ms_items s !! BreakerNamespace, ms_failed s with
  | None, false => fst (cp_CompareAndSwap plain_len s None BreakerNamespace 0 {["m" := retired_entry]} 90)
  | _, _ => s
  end.
Lemma other_replica_quiet i s : rtc (quiet_step sample_store) s (other_replica i s).
Proof.
  unfold other_replica. destruct (ms_items s !! BreakerNamespace) eqn:Hi; [done|].
  destruct (ms_failed s) eqn:Hf; [done|]. apply rtc_once.
  assert (load_or_new sample_store s None = inr (mkSnapshot 0 None 0)) as Hl.
  { unfold load_or_new. cbn [store_Load plain_Store memory_Store]. unfold cp_Load, memory_Get.
    rewrite Hf. change (bs_namespace sample_store) with BreakerNamespace. by rewrite Hi. }
  assert (load_or_new sample_store (fst (cp_CompareAndSwap plain_len s None BreakerNamespace 0 {["m" := retired_entry]} 90)) None
          = inr (mkSnapshot 1 (Some {["m" := retired_entry]}) 90)) as Hl'.
  { unfold cp_CompareAndSwap, memory_Put. rewrite Hf, Hi. cbn -[lookup insert].
    unfold load_or_new. cbn [store_Load plain_Store memory_Store]. unfold cp_Load, memory_Get.
    cbn [ms_failed ms_items]. change (bs_namespace sample_store) with BreakerNamespace. by rewrite lookup_insert_eq. }
  split; [exists ∅, {["m" := retired_entry]}, 90, (30 * Minute); split_and!; [done| |]|].
  - unfold shared_document. by rewrite Hl.
  - unfold shared_document. rewrite Hl'. vm_compute. reflexivity.
  - unfold revision. by rewrite Hl, Hl'.
Qed.

Definition sample_markers : gmap string Entry := {["n" := cooling_entry]}.
Definition sample_prepared : gmap string Entry := {["n" := mkEntry StatusCooldown 200 "timeout" "r1" 100]}.
(** Replica [r1] publishes a cooldown of ["n"] and loses its first write to the
    other replica: the second attempt merges both markers. *)
Definition sample_publish :=
  Publish sample_store NewMemoryStore sample_markers 100 (fun _ _ => None) other_replica (fun i => 101 + Z.of_nat i).
Lemma publish_refines_merge_witness :
  (exists s' view, sample_publish = (s', inr view) /\ vw_Revision view = 2 /\ size (vw_Entries view) = 2%nat) /\
  let '(s', r) := sample_publish in
  match r with
  | inr view => exists prepared k, prepareLocal sample_store sample_markers 100 = inr prepared /\ Z.of_nat k <= 3
      /\ published sample_store prepared 100 (drift other_replica 0 k NewMemoryStore) s' view
      /\ (s' = drift other_replica 0 k NewMemoryStore \/ other_replica k (drift other_replica 0 k NewMemoryStore) = drift other_replica 0 k NewMemoryStore)
  | inl _ => exists k, Z.of_nat k <= 4 /\ s' = drift other_replica 0 k NewMemoryStore
  end.
Proof.
  split; [eexists _, _; split; [vm_compute; reflexivity|split; reflexivity]|].
  exact (publish_refines_merge sample_store NewMemoryStore sample_markers 100 (fun _ _ => None)
    other_replica (fun i => 101 + Z.of_nat i) eq_refl ltac:(vm_compute; discriminate) other_replica_quiet).
Defined.

Definition retired_store : MemoryStore (gmap string Entry) := other_replica 0 NewMemoryStore.
Lemma retirement_never_lost_witness :
  retired_at sample_store "m" (fst (Publish sample_store retired_store {["m" := cooling_entry]} 100
    (fun _ _ => None) other_replica (fun _ => 101))).
Proof.
  apply (retirement_never_lost sample_store retired_store {["m" := cooling_entry]} 100 (fun _ _ => None)
    other_replica (fun _ => 101) "m" eq_refl other_replica_quiet).
  exists {["m" := retired_entry]}, retired_entry. split_and!; [vm_compute; reflexivity|vm_compute; reflexivity|reflexivity].
Defined.

Lemma publish_delivers_witness :
  exists cur, shared_document sample_store (fst sample_publish) = inr cur /\
    marker_le (Some (mkEntry StatusCooldown 200 "timeout" "r1" 100)) (cur !! "n").
Proof.
  destruct sample_publish as [s' [err|view]] eqn:E; [vm_compute in E; discriminate E|].
  exact (publish_delivers sample_store NewMemoryStore sample_markers 100 (fun _ _ => None)
    other_replica (fun i => 101 + Z.of_nat i) s' view
    sample_prepared "n" eq_refl other_replica_quiet
    ltac:(vm_compute; reflexivity) E).
Defined.

Lemma publish_idempotent_witness :
  exists view', Publish sample_store (fst sample_publish) sample_markers 100 (fun _ _ => None)
    (fun _ s => s) (fun _ => 105) = (fst sample_publish, inr view').
Proof.
  destruct sample_publish as [s' [err|view]] eqn:E; [vm_compute in E; discriminate E|].
  destruct (publish_idempotent sample_store NewMemoryStore sample_markers 100 (fun _ _ => None)
    other_replica (fun _ s => s) (fun i => 101 + Z.of_nat i) (fun _ => 105) s' view eq_refl
    ltac:(vm_compute; discriminate) other_replica_quiet E) as (view' & H & _).
  exists view'. exact H.
Defined.
End Samples.
