(* ===== verification/BreakerSync.v ===== *)
(** * Breaker synchronisation between replicas ([src/internal/breakersync])

    One round of a replica: load the shared document, apply the peers' markers
    to the local health manager, publish the local markers.  The manager is
    [Health]'s, the breaker store is [SharedState]'s over any control-plane
    [Store].  The clock readings of a round are the fields of [clocks]; the map
    iteration order is irrelevant since every marker touches its own deployment. *)

From stdpp Require Import relations.
From S2P Require Import Prelude ControlPlane SharedState Health HealthCircuit SharedStateProofs.

Definition DefaultInterval : Duration := 10 * Second.

Record Syncer := mkSyncer { sy_replicaID : string; sy_maxCooldown : Duration; sy_interval : Duration }.
Record SyncOptions := mkSyncOptions {
  so_ReplicaID : string; so_MaxCooldown : Duration; so_Interval : Duration
}.
Inductive sync_error := StoreRequired | ManagerRequired | ReplicaIDRequired
  | LoadFailed (err : store_error) | PublishFailed (err : store_error).

(** [hasStore] and [hasManager]: the interface values are not nil. *)
Definition New (hasStore hasManager : bool) (options : SyncOptions) : sync_error + Syncer :=
  if negb hasStore then inl StoreRequired
  else if negb hasManager then inl ManagerRequired
  else if String.eqb (so_ReplicaID options) "" then inl ReplicaIDRequired
  else
    let maxCooldown := if so_MaxCooldown options <=? 0 then DefaultMaxCooldown else so_MaxCooldown options in
    let interval := if so_Interval options <=? 0 then DefaultInterval else so_Interval options in
    inr (mkSyncer (so_ReplicaID options) maxCooldown interval).

(** The marker of one state, if it is publishable. *)
Definition local_marker (now : Time) (s : State) : option Entry :=
  if String.eqb (st_Deployment s) "" then None
  else
    match st_Status s with
    | Retired => Some (mkEntry StatusRetired 0 (st_LastErrorClass s) "" (st_LastChecked s))
    | Cooldown =>
        if After (st_CooldownUntil s) now
        then Some (mkEntry StatusCooldown (st_CooldownUntil s) (st_LastErrorClass s) "" (st_LastChecked s))
        else None
    | _ => None
    end.
Definition LocalMarkers (states : list State) (now : Time) : gmap string Entry :=
  fold_left (fun out s => match local_marker now s with
                          | Some e => <[st_Deployment s := e]> out
                          | None => out
                          end) states ∅.

Definition with_class (reason class : string) : string :=
  if String.eqb class "" then reason else reason +:+ " (" +:+ class +:+ ")".
Definition apply_one (sy : Syncer) (now : Time) (mnow : Time) (deployment : string) (entry : Entry)
    (m : Manager) : Manager :=
  if String.eqb (e_OriginReplica entry) (sy_replicaID sy) then m
  else
    match e_Status entry with
    | StatusCooldown =>
        (ApplySharedCooldown m deployment (e_CooldownUntil entry)
           (with_class "shared cooldown" (e_ReasonClass entry)) mnow).1
    | StatusRetired =>
        (ApplySharedCooldown m deployment (Add now (sy_maxCooldown sy))
           (with_class "shared retired (bounded)" (e_ReasonClass entry)) mnow).1
    | StatusOther _ => m
    end.
(** [mnow d] is the manager's clock while it handles deployment [d]. *)
Definition apply (sy : Syncer) (m : Manager) (entries : gmap string Entry) (now : Time) (mnow : string -> Time)
    : Manager :=
  map_fold (fun d e => apply_one sy now (mnow d) d e) m entries.

Record clocks := mkClocks {
  ck_load : Time; ck_apply : Time; ck_manager : string -> Time;
  ck_snapshot : Time; ck_snapshot2 : Time; ck_markers : Time; ck_publish : Time
}.

Section sync.
Context {P R : Type} `{!Json P R, !JsonLaws P R}.
Context {S : Type} `{!@Store P S, !@StoreLaws P S _}.
Implicit Types (b : BreakerStore) (s : S) (sy : Syncer).

(** [others] is what peers write between this replica's load and its publish. *)
Definition SyncOnce sy b (m : Manager) s (ck : clocks) (ctx : option context_error)
    (ctxs : nat -> nat -> option context_error) (others : S -> S) (envs : nat -> S -> S) (stamps : nat -> Time)
    : Manager * S * option sync_error :=
  match Load b s ctx (ck_load ck) with
  | inl err => (m, s, Some (LoadFailed err))
  | inr view =>
      let m := apply sy m (vw_Entries view) (ck_apply ck) (ck_manager ck) in
      let '(m, states) := Health.Snapshot m (ck_snapshot ck) (ck_snapshot2 ck) in
      let local := LocalMarkers states (ck_markers ck) in
      let '(s, r) := Publish b (others s) local (ck_publish ck) ctxs envs stamps in
      (m, s, match r with inl err => Some (PublishFailed err) | inr _ => None end)
  end.

(** ** What a round does to a local circuit *)

(** The deadline a peer's marker asks for. *)
Definition peer_deadline sy (now : Time) (entry : Entry) : option Time :=
  if String.eqb (e_OriginReplica entry) (sy_replicaID sy) then None
  else
    match e_Status entry with
    | StatusCooldown => Some (e_CooldownUntil entry)
    | StatusRetired => Some (Add now (sy_maxCooldown sy))
    | StatusOther _ => None
    end.
(** Applying a deadline to a circuit: it opens or stays open longer. *)
Definition c_extend (id : string) (mnow : Time) (deadline : option Time) (c : circuit) : circuit :=
  match deadline with
  | None => c
  | Some until =>
      if bool_decide (id = "") || IsZero until || negb (After until mnow)
         || (c_status c =s? Retired) || ((c_status c =s? Cooldown) && negb (After until (c_until c)))
      then c
      else mkCircuit Cooldown until (c_consec c)
  end.

Lemma apply_one_circuit sy now mnow d e m id :
  circuit_at (apply_one sy now mnow d e m) id =
  if bool_decide (d = id) then c_extend d mnow (peer_deadline sy now e) (circuit_at m id) else circuit_at m id.
Proof.
  unfold apply_one, peer_deadline. destruct (String.eqb _ _); [by case_bool_decide|].
  destruct (e_Status e); [by rewrite moves_ApplySharedCooldown..|by case_bool_decide].
Qed.

Lemma apply_circuit sy m entries now mnow id :
  circuit_at (apply sy m entries now mnow) id =
  match entries !! id with
  | Some e => c_extend id (mnow id) (peer_deadline sy now e) (circuit_at m id)
  | None => circuit_at m id
  end.
Proof.
  unfold apply.
  apply (map_fold_weak_ind (fun res (es : gmap string Entry) => circuit_at res id =
    match es !! id with
    | Some e => c_extend id (mnow id) (peer_deadline sy now e) (circuit_at m id)
    | None => circuit_at m id
    end)).
  - by rewrite lookup_empty.
  - intros d e es res Hd IH. rewrite apply_one_circuit. case_bool_decide as Hid.
    + subst d. rewrite lookup_insert_eq. rewrite Hd in IH. by rewrite IH.
    + rewrite lookup_insert_ne by done. exact IH.
Qed.

(** A round that loaded [view] moves circuit [id] as follows. *)
Lemma sync_circuit sy b m s ck ctx ctxs others envs stamps view id :
  Load b s ctx (ck_load ck) = inr view ->
  let '(m', _, _) := SyncOnce sy b m s ck ctx ctxs others envs stamps in
  let c := match vw_Entries view !! id with
           | Some e => c_extend id (ck_manager ck id) (peer_deadline sy (ck_apply ck) e) (circuit_at m id)
           | None => circuit_at m id
           end in
  circuit_at m' id = c \/ circuit_at m' id = c_normalize (ck_snapshot2 ck) c.
Proof.
  intros Hl. unfold SyncOnce. rewrite Hl. cbv zeta.
  set (m1 := apply _ _ _ _ _). pose proof (snapshot_circuit m1 (ck_snapshot ck) (ck_snapshot2 ck) id) as Hs.
  destruct (Health.Snapshot m1 (ck_snapshot ck) (ck_snapshot2 ck)) as [m2 states]. cbn [fst] in Hs.
  destruct (Publish _ _ _ _ _ _ _) as [s' r]. rewrite Hs. unfold m1. rewrite apply_circuit.
  destruct (snapshot_writes _ _); auto.
Qed.

(** The circuit is no weaker: retirement is kept and not gained, an open circuit
    keeps its deadline or gets a later one. *)
Definition tightened (c c' : circuit) : Prop :=
  (c_status c = Retired -> c' = c) /\ (c_status c' = Retired -> c_status c = Retired) /\
  (c_status c = Cooldown -> c_status c' = Cooldown /\ c_until c <= c_until c').

Lemma tightened_refl c : tightened c c.
Proof. split_and!; intros; [done|done|split; [done|lia]]. Qed.

Lemma c_extend_tightens id mnow d c : tightened c (c_extend id mnow d c).
Proof.
  unfold c_extend. destruct d as [u|]; [|apply tightened_refl].
  destruct (_ || _) eqn:E; [apply tightened_refl|]. apply orb_false_iff in E as [E E2].
  apply orb_false_iff in E as [_ Er]. apply status_is_false in Er.
  split_and!; [done|done|]. intros Hc. split; [done|]. cbn [c_until].
  apply status_is_true in Hc. rewrite Hc in E2. unfold After in E2.
  destruct (Z.ltb_spec (c_until c) u); [lia|done].
Qed.

Lemma normalize_unexpired now c : now <= c_until c -> c_normalize now c = c.
Proof.
  intros H'. apply c_normalize_none. unfold cooldown_expired, After.
  destruct (Z.ltb_spec (c_until c) now); [lia|]. by rewrite andb_false_r.
Qed.

(** A synchronisation round is fail-local.  When the shared state cannot be
    loaded, the manager and the store are exactly as before and the error is
    reported.  Whatever the outcome, a locally retired deployment is untouched, no
    deployment becomes retired through a peer, and a cooldown that has not ended
    when the round takes its snapshot is neither cleared nor shortened. *)
Theorem sync_fail_local sy b m s ck ctx ctxs others envs stamps :
  let '(m', s', err) := SyncOnce sy b m s ck ctx ctxs others envs stamps in
  (forall e, Load b s ctx (ck_load ck) = inl e -> m' = m /\ s' = s /\ err = Some (LoadFailed e)) /\
  forall id, let c := circuit_at m id in let c' := circuit_at m' id in
    (c_status c = Retired -> c' = c) /\ (c_status c' = Retired -> c_status c = Retired) /\
    (c_status c = Cooldown -> ck_snapshot2 ck <= c_until c ->
     c_status c' = Cooldown /\ c_until c <= c_until c').
Proof.
  destruct (Load b s ctx (ck_load ck)) as [e|view] eqn:Hl.
  { unfold SyncOnce. rewrite Hl. split; [by intros ? [= ->]|]. intros id.
    split_and!; [done|done|]. intros. split; [done|lia]. }
  pose proof (fun id => sync_circuit sy b m s ck ctx ctxs others envs stamps view id Hl) as Hc.
  destruct (SyncOnce _ _ _ _ _ _ _ _ _ _) as [[m' s'] err]. split; [done|]. intros id c c'.
  specialize (Hc id). cbv zeta in Hc. set (c1 := match _ !! id with Some _ => _ | None => _ end) in Hc.
  assert (tightened c c1) as (T1 & T2 & T3).
  { unfold c1. destruct (vw_Entries view !! id); [apply c_extend_tightens|apply tightened_refl]. }
  assert (c_status c1 <> Cooldown -> c_normalize (ck_snapshot2 ck) c1 = c1) as Hn.
  { intros Hne. apply c_normalize_none. unfold cooldown_expired. by rewrite (proj2 (status_is_false _ _) Hne). }
  fold c' in Hc. split_and!.
  - intros Hr. specialize (T1 Hr). rewrite T1 in *. destruct Hc as [->| ->]; [done|]. apply Hn. by rewrite Hr.
  - intros Hr. apply T2. destruct Hc as [<-|E]; [done|]. rewrite E in Hr. unfold c_normalize in Hr. by case_match.
  - intros Ho Hle. destruct (T3 Ho) as [S1 S2]. destruct Hc as [->| ->]; [done|].
    rewrite normalize_unexpired by lia. done.
Qed.

(** What a load shows of the shared document. *)
Lemma load_view b s t0 cur : shared_document b s = inr cur -> cur <> ∅ ->
  exists view, Load b s None t0 = inr view /\ vw_Entries view = Merge ∅ cur t0 (bs_maxCooldown b).
Proof.
  unfold shared_document, load_or_new, Load. intros Hd Hne.
  destruct (store_Load s None (bs_namespace b)) as [err|snap].
  { destruct err; try done. unfold decode_snapshot in Hd. cbn in Hd. by injection Hd as <-. }
  unfold decode_snapshot in Hd. destruct (sn_Payload snap) as [p|]; [|destruct (0 <? _); [done|by injection Hd as <-]].
  destruct (_ || _); [|by injection Hd as <-]. rewrite Hd. by eexists.
Qed.

(** A peer's marker reaches this replica: when the shared document holds a
    live marker of another replica for a deployment, a round that can read the
    store leaves that deployment retired here, if it was, or cooling down at least
    until the marker's deadline, capped for the reader (for a retirement, until
    the bounded cooldown from now). *)
Theorem peer_marker_propagates sy b m s ck ctxs others envs stamps cur k e n d :
  shared_document b s = inr cur -> cur !! k = Some e ->
  norm_at (ck_load ck) (bs_maxCooldown b) k e = Some n ->
  peer_deadline sy (ck_apply ck) n = Some d ->
  0 < d -> ck_manager ck k < d -> ck_snapshot2 ck <= d ->
  let '(m', _, _) := SyncOnce sy b m s ck None ctxs others envs stamps in
  let c' := circuit_at m' k in
  c_status c' = Retired \/ (c_status c' = Cooldown /\ d <= c_until c').
Proof.
  intros Hd Hk Hn Hp Hpos Hm Hs.
  assert (cur <> ∅) as Hne by (intros ->; by rewrite lookup_empty in Hk).
  destruct (load_view b s (ck_load ck) cur Hd Hne) as (view & Hl & Hv).
  pose proof (sync_circuit sy b m s ck None ctxs others envs stamps view k Hl) as Hc.
  destruct (SyncOnce _ _ _ _ _ _ _ _ _ _) as [[m' s'] err]. cbv zeta in *.
  rewrite Hv, Merge_lookup, lookup_empty, Hk in Hc. cbn [option_bind mbind join] in Hc. rewrite Hn, Hp in Hc.
  assert (c_status (c_extend k (ck_manager ck k) (Some d) (circuit_at m k)) = Retired \/
    (c_status (c_extend k (ck_manager ck k) (Some d) (circuit_at m k)) = Cooldown /\
     d <= c_until (c_extend k (ck_manager ck k) (Some d) (circuit_at m k)))) as Hx.
  { apply norm_at_active in Hn as [Hk' _]. unfold c_extend, IsZero, After.
    rewrite bool_decide_false by done. destruct (Z.eqb_spec d 0); [lia|].
    destruct (Z.ltb_spec (ck_manager ck k) d); [|lia]. cbn [negb orb].
    destruct (c_status (circuit_at m k) =s? Retired) eqn:Er; [left; by apply status_is_true|].
    destruct (c_status (circuit_at m k) =s? Cooldown) eqn:Ec; cbn [andb orb]; [|right; split; [done|cbn; lia]].
    apply status_is_true in Ec. destruct (Z.ltb_spec (c_until (circuit_at m k)) d); cbn [negb].
    - right. split; [done|cbn; lia].
    - right. split; [done|lia]. }
  set (c1 := c_extend _ _ _ _) in *. destruct Hc as [->| ->]; [done|]. destruct Hx as [Hr|[Hr Hle]].
  - left. unfold c_normalize, cooldown_expired. by rewrite Hr.
  - right. by rewrite normalize_unexpired by lia.
Qed.

(** ** Applied markers are not echoed *)

Lemma LocalMarkers_lookup l now k e : LocalMarkers l now !! k = Some e ->
  exists st, st ∈ l /\ st_Deployment st = k /\ local_marker now st = Some e.
Proof.
  unfold LocalMarkers.
  enough (forall (out : gmap string Entry),
    fold_left (fun (out : gmap string Entry) (st : State) =>
      match local_marker now st with Some e => <[st_Deployment st := e]> out | None => out end) l out !! k = Some e ->
    out !! k = Some e \/ exists st, st ∈ l /\ st_Deployment st = k /\ local_marker now st = Some e) as Hgen.
  { intros Hk. destruct (Hgen ∅ Hk) as [He|?]; [by rewrite lookup_empty in He|done]. }
  induction l as [|st l IH]; cbn [fold_left]; intros out Hk; [by left|].
  destruct (IH _ Hk) as [Hout|(x & Hx & ?)]; [|right; exists x; split; [by right|done]].
  destruct (local_marker now st) as [x|] eqn:Hm; [|by left].
  destruct (decide (st_Deployment st = k)) as [Hd|Hd].
  - rewrite Hd, lookup_insert_eq in Hout. injection Hout as <-. right. exists st. split; [by left|done].
  - rewrite lookup_insert_ne in Hout by done. by left.
Qed.

Definition states_named (m : Manager) : Prop :=
  map_Forall (fun id st => st_Deployment st = id) (mg_states m).

Lemma apply_one_named sy now mnow d e m : states_named m -> states_named (apply_one sy now mnow d e m).
Proof.
  intros Hm. unfold apply_one. destruct (String.eqb _ _); [done|].
  destruct (e_Status e); [..|done]; unfold ApplySharedCooldown; repeat case_match; try done;
    by apply map_Forall_insert_2.
Qed.
Lemma apply_named sy m entries now mnow : states_named m -> states_named (apply sy m entries now mnow).
Proof.
  intros Hm. unfold apply. apply (map_fold_weak_ind (fun res _ => states_named res)); [done|].
  intros. by apply apply_one_named.
Qed.

(** A state of the snapshot, as a circuit of the manager. *)
Lemma snapshot_elem m now now2 st : states_named m -> st ∈ (Health.Snapshot m now now2).2 ->
  circuit_of st = circuit_at m (st_Deployment st) \/ circuit_of st = c_normalize now2 (circuit_at m (st_Deployment st)).
Proof.
  intros Hm. unfold Health.Snapshot. destruct (existsb _ _); cbn [snd];
    rewrite list_elem_of_fmap; intros (x & -> & Hx);
    apply list_elem_of_fmap in Hx as ([id y] & -> & Hy); cbn [snd]; unfold cloneState.
  - apply elem_of_map_to_list in Hy. cbn [mg_states update] in Hy. rewrite lookup_fmap_Some in Hy.
    destruct Hy as (z & <- & Hz). right. rewrite circuit_of_normalize.
    assert (st_Deployment (normalizeScopes (normalizeGlobal z now2) now2) = id) as ->.
    { transitivity (st_Deployment z); [|by apply (Hm id z)]. unfold normalizeScopes, normalizeGlobal. by case_match. }
    unfold circuit_at, get_state, map_get. by rewrite Hz.
  - apply elem_of_map_to_list in Hy. left. rewrite (Hm id y Hy). unfold circuit_at, get_state, map_get. by rewrite Hy.
Qed.

Lemma prepare_list_lookup b now l : forall out k x, prepare_list b now l = inr out -> out !! k = Some x ->
  exists e, (k, e) ∈ l /\ prepare_entry b now e = inr (Some x).
Proof.
  induction l as [|[k' e] l IH]; cbn [prepare_list]; intros out k x; [intros [= <-]; by rewrite lookup_empty|].
  destruct (String.eqb k' ""); [done|]. destruct (prepare_entry b now e) as [err|act] eqn:He; [done|].
  destruct (prepare_list b now l) as [err|rest]; [done|]. intros [= <-] Hx.
  destruct act as [y|]; [destruct (decide (k' = k)) as [->|Hne]|].
  - rewrite lookup_insert_eq in Hx. injection Hx as <-. exists e. split; [by left|done].
  - rewrite lookup_insert_ne in Hx by done. destruct (IH _ _ _ eq_refl Hx) as (e' & ? & ?).
    exists e'. split; [by right|done].
  - destruct (IH _ _ _ eq_refl Hx) as (e' & ? & ?). exists e'. split; [by right|done].
Qed.

(** A prepared cooldown: live at [now], no later than the local deadline, capped. *)
Lemma prepare_cooldown b now e x : prepare_entry b now e = inr (Some x) -> e_Status e = StatusCooldown ->
  now <> 0 /\ e_Status x = StatusCooldown /\ now < e_CooldownUntil x <= e_CooldownUntil e /\
  (0 < bs_maxCooldown b -> e_CooldownUntil x <= now + bs_maxCooldown b).
Proof.
  unfold prepare_entry, NormalizeEntry, IsZero, After, Add. intros Hp Hs.
  set (e1 := if String.eqb _ _ then _ else _) in Hp.
  assert (e_Status e1 = StatusCooldown /\ e_CooldownUntil e1 = e_CooldownUntil e) as [S1 U1].
  { unfold e1. repeat case_match; by destruct e. }
  clearbody e1. destruct (Z.eqb_spec now 0); [done|]. rewrite S1, U1 in Hp.
  destruct (_ =? 0); [done|]. destruct (Z.ltb_spec now (e_CooldownUntil e)); [|done]. cbn [negb] in Hp.
  injection Hp as <-. destruct (Z.ltb_spec 0 (bs_maxCooldown b)), (Z.ltb_spec (now + bs_maxCooldown b) (e_CooldownUntil e));
    cbn [andb]; destruct e1; cbn in S1, U1 |- *; split_and!; try done; lia.
Qed.

(** Nothing is open or retired here. *)
Definition unopened (m : Manager) : Prop :=
  forall id, c_status (circuit_at m id) <> Cooldown /\ c_status (circuit_at m id) <> Retired.

(** The markers a replica without any of its own draws from its snapshot are
    cooldowns that the entries it applied ask for. *)
Lemma applied_markers sy m entries now mnow t1 t2 t3 k e : states_named m -> unopened m ->
  LocalMarkers (Health.Snapshot (apply sy m entries now mnow) t1 t2).2 t3 !! k = Some e ->
  e_Status e = StatusCooldown /\ exists src, entries !! k = Some src /\ peer_deadline sy now src = Some (e_CooldownUntil e).
Proof.
  intros Hm Hu He. destruct (LocalMarkers_lookup _ _ _ _ He) as (st & Hin & Hk & Hmark).
  pose proof (snapshot_elem _ _ _ _ (apply_named sy m entries now mnow Hm) Hin) as Hc. rewrite Hk in Hc.
  rewrite !apply_circuit in Hc.
  set (c1 := match entries !! k with Some _ => _ | None => _ end) in Hc.
  assert (c_status c1 = Retired \/ c_status c1 = Cooldown ->
    c_status c1 = Cooldown /\ exists src, entries !! k = Some src /\ peer_deadline sy now src = Some (c_until c1)) as H1.
  { destruct (Hu k) as [N1 N2]. unfold c1. destruct (entries !! k) as [src|]; [|by intros [?|?]].
    unfold c_extend. destruct (peer_deadline sy now src) as [d|] eqn:Hp; [|by intros [?|?]].
    destruct (_ || _); [by intros [?|?]|]. intros _. split; [done|by exists src]. }
  assert (c_status (circuit_of st) = Retired \/ c_status (circuit_of st) = Cooldown -> circuit_of st = c1) as H2.
  { destruct Hc as [->| ->]; [done|]. unfold c_normalize. case_match; [by intros [?|?]|done]. }
  unfold local_marker in Hmark. destruct (String.eqb _ _); [done|].
  destruct (st_Status st) eqn:Hst; try done.
  - rewrite <- H2 in H1 by (right; exact Hst). destruct (H1 (or_intror Hst)) as (_ & src & ? & ?).
    destruct (After _ _); [|done]. injection Hmark as <-. split; [done|by exists src].
  - rewrite <- H2 in H1 by (left; exact Hst). destruct (H1 (or_introl Hst)) as (Hbad & _).
    change (st_Status st = Cooldown) in Hbad. congruence.
Qed.

(** Such a marker, prepared for the document it came from, is covered by it. *)
Lemma echo_covered sy b (cur : gmap string Entry) t0 now tp k src e x : 0 < tp ->
  Merge ∅ cur t0 (bs_maxCooldown b) !! k = Some src -> peer_deadline sy now src = Some (e_CooldownUntil e) ->
  e_Status e = StatusCooldown -> prepare_entry b tp e = inr (Some x) ->
  exists y, (cur !! k ≫= norm_at tp (bs_maxCooldown b) k) = Some y /\ marker_le (Some x) (Some y).
Proof.
  intros Htp Hsrc Hp He Hx. destruct (prepare_cooldown _ _ _ _ Hx He) as (_ & Sx & Ux & Cx).
  rewrite Merge_lookup, lookup_empty in Hsrc. cbn [option_bind mbind join] in Hsrc.
  destruct (cur !! k) as [c|]; [|done]. cbn [option_bind mbind] in *. unfold norm_at in *.
  destruct (String.eqb k ""); [done|]. unfold NormalizeEntry, IsZero in *.
  destruct (Z.eqb_spec t0 0); [done|]. destruct (Z.eqb_spec tp 0); [lia|].
  unfold peer_deadline in Hp. destruct (String.eqb _ _); [done|].
  destruct (e_Status c) eqn:Hc; [|eexists; split; [reflexivity|]; left; destruct c; exact Hc|done].
  destruct (_ =? 0); [done|]. unfold After, Add in *.
  destruct (Z.ltb_spec t0 (e_CooldownUntil c)); [|done]. cbn [negb] in Hsrc. injection Hsrc as <-.
  assert (e_CooldownUntil e <= e_CooldownUntil c) as Hle.
  { destruct (0 <? bs_maxCooldown b), (Z.ltb_spec (t0 + bs_maxCooldown b) (e_CooldownUntil c)); cbn [andb] in Hp;
      destruct c; cbn in Hc, Hp |- *; subst; injection Hp as <-; cbn in *; lia. }
  destruct (Z.ltb_spec tp (e_CooldownUntil c)); [|lia]. cbn [negb]. eexists. split; [done|]. right.
  destruct (Z.ltb_spec 0 (bs_maxCooldown b)), (Z.ltb_spec (tp + bs_maxCooldown b) (e_CooldownUntil c)); cbn [andb];
    destruct c; cbn in Hc |- *; split_and!; try done; cbn in *; lia.
Qed.

Lemma Merge_covered (cur prepared : gmap string Entry) now mx : 0 < now ->
  (forall k x, prepared !! k = Some x -> exists y, (cur !! k ≫= norm_at now mx k) = Some y /\ marker_le (Some x) (Some y)) ->
  map_Forall (fun k e => k <> "" /\ active now mx e) prepared ->
  Merge cur prepared now mx = Merge cur ∅ now mx.
Proof.
  intros Hn Hcov Hact. apply map_eq. intros k. rewrite !Merge_lookup, lookup_empty. cbn [option_bind mbind].
  destruct (prepared !! k) as [x|] eqn:Hx; [|done]. destruct (Hcov k x Hx) as (y & -> & Hle).
  destruct (Hact k x Hx) as [Hk Ha]. cbn [option_bind mbind]. rewrite norm_at_id by done.
  cbn. f_equal. by apply mergeEntry_absorb.
Qed.

Lemma publish_attempt_error b s prepared now ctx env stamp s' r :
  publish_attempt b s prepared now ctx env stamp = (s', inl r) -> s' = s \/ s' = env s.
Proof.
  unfold publish_attempt. repeat case_match; intros [=]; subst; try (by left); try (right; by eapply cas_error).
Qed.

Lemma publish_loop_alone n : forall i b s prepared now ctxs stamps, 0 < now ->
  let '(s', _) := publish_loop n i b s prepared now ctxs (fun _ s => s) stamps in
  s' = s \/ exists cur, shared_document b s = inr cur /\
    shared_document b s' = inr (Merge cur prepared now (bs_maxCooldown b)).
Proof.
  induction n as [|n IH]; intros i b s prepared now ctxs stamps Hn; cbn [publish_loop]; [by left|].
  pose proof (publish_attempt_refines b s prepared now (ctxs i) (fun s => s) (stamps i) Hn (rtc_refl _ _)) as Ha.
  destruct (publish_attempt _ _ _ _ _ _ _) as [s' [r|view]] eqn:E.
  - assert (s' = s) as -> by (by destruct (publish_attempt_error _ _ _ _ _ _ _ _ _ E)).
    destruct r; [by left|]. apply IH. exact Hn.
  - destruct Ha as (old & Ho & Hv & [[-> _]|Hd]); [by left|right]. exists old. by rewrite Hd, Hv.
Qed.

(** No echo: a replica that has no open or retired circuit of its own
    applies the shared markers and publishes, and the document it leaves is the
    one it found, at most without the markers that have expired.  Markers do not
    extend themselves by going round between replicas. *)
Theorem no_echo sy b m s cur ck ctxs stamps : 0 < ck_publish ck ->
  shared_document b s = inr cur -> cur <> ∅ -> states_named m -> unopened m ->
  let '(_, s', _) := SyncOnce sy b m s ck None ctxs (fun s => s) (fun _ s => s) stamps in
  s' = s \/ shared_document b s' = inr (Merge cur ∅ (ck_publish ck) (bs_maxCooldown b)).
Proof.
  intros Htp Hd Hne Hm Hu. unfold SyncOnce. destruct (load_view b s (ck_load ck) cur Hd Hne) as (view & -> & Hv).
  cbv zeta. pose proof (applied_markers sy m (vw_Entries view) (ck_apply ck) (ck_manager ck) (ck_snapshot ck)
    (ck_snapshot2 ck) (ck_markers ck)) as Hmark.
  destruct (Health.Snapshot _ _ _) as [m2 states]. cbn [snd] in Hmark. unfold Publish.
  destruct (prepareLocal _ _ _) as [err|prepared] eqn:Hp; [by left|].
  pose proof (publish_loop_alone (Z.to_nat (bs_retries b + 1)) 0 b s prepared (ck_publish ck) ctxs stamps Htp) as Hl.
  destruct (publish_loop _ _ _ _ _ _ _ _ _) as [s' r]. destruct Hl as [->|(c & Hc & Hs')]; [by left|right].
  assert (c = cur) as -> by congruence. rewrite Hs'. f_equal.
  apply Merge_covered; [done| |by apply (prepare_list_active _ _ _ _ Hp)].
  intros k x Hx. destruct (prepare_list_lookup _ _ _ _ _ _ Hp Hx) as (e & He%elem_of_map_to_list & Hpe).
  destruct (Hmark k e Hm Hu He) as (Se & src & Hsrc & Hdl). rewrite Hv in Hsrc.
  exact (echo_covered sy b cur (ck_load ck) (ck_apply ck) (ck_publish ck) k src e x Htp Hsrc Hdl Se Hpe).
Qed.
End sync.

(** ** Samples *)

Module SyncSamples.
Import Samples.
#[local] Existing Instance plain_Json.
#[local] Existing Instance plain_JsonLaws.
#[local] Existing Instance plain_Store.
#[local] Existing Instance plain_StoreLaws.

(** Replica [r1] finds the retirement of ["m"] that replica [r2] published. *)
Definition sample_syncer : Syncer := mkSyncer "r1" (30 * Minute) DefaultInterval.
Definition sample_clocks : clocks := mkClocks 100 101 (fun _ => 102) 103 104 105 106.
Definition fresh : Manager := Health.New 3 (30 * Second).

Lemma peer_marker_propagates_witness :
  let '(m', _, _) := SyncOnce sample_syncer sample_store fresh retired_store sample_clocks None (fun _ _ => None)
    (fun s => s) (fun _ s => s) (fun _ => 110) in
  let c' := circuit_at m' "m" in
  c_status c' = Retired \/ (c_status c' = Cooldown /\ 101 + 30 * Minute <= c_until c').
Proof.
  apply (peer_marker_propagates sample_syncer sample_store fresh retired_store sample_clocks (fun _ _ => None)
    (fun s => s) (fun _ s => s) (fun _ => 110) {["m" := retired_entry]} "m" retired_entry retired_entry);
    first [vm_compute; reflexivity | vm_compute; discriminate].
Defined.

Lemma no_echo_witness :
  let '(_, s', _) := SyncOnce sample_syncer sample_store fresh retired_store sample_clocks None (fun _ _ => None)
    (fun s => s) (fun _ s => s) (fun _ => 110) in
  s' = retired_store \/ shared_document sample_store s' = inr (Merge {["m" := retired_entry]} ∅ 106 (30 * Minute)).
Proof.
  apply (no_echo sample_syncer sample_store fresh retired_store {["m" := retired_entry]} sample_clocks
    (fun _ _ => None) (fun _ => 110)).
  - reflexivity.
  - vm_compute. reflexivity.
  - intros E. assert (({["m" := retired_entry]} : gmap string Entry) !! "m" = Some retired_entry) as Hm by reflexivity.
    rewrite E in Hm. discriminate Hm.
  - intros id st Hst. discriminate Hst.
  - intros id. split; discriminate.
Defined.
End SyncSamples.
