(* ===== verification/LinkedList.v ===== *)
(** * Intrusive doubly-linked lists

    The recency lists of the two response caches ([lruList] of
    [src/internal/cache/cache.go]; [head], [tail] and [length] of
    [src/internal/cache/semantic.go]) are intrusive doubly-linked lists with the
    same four operations.  The nodes live in a heap, pointer to node; a nil
    pointer is [None], and dereferencing one makes an operation [None].  The first
    part holds the operations; the second shows that heap, head and tail represent
    a list ([list_rep]), what each operation does to it, and how the table from
    keys to nodes follows ([table_rep]); the third measures the
    items kept ([total]) and cuts a list to the most recent ones that fit
    ([fit]). *)

From S2P Require Import Prelude.

(** ** Nodes and operations *)

Definition loc : Type := nat.
Record lruNode (E : Type) := mkNode { n_key : string; n_entry : E; n_prev : option loc; n_next : option loc }.
Arguments mkNode {E}.
Arguments n_key {E}.
Arguments n_entry {E}.
Arguments n_prev {E}.
Arguments n_next {E}.
#[export] Instance eta_lruNode {E} : Eta (lruNode E) := fun r => mkNode (n_key r) (n_entry r) (n_prev r) (n_next r).
Record lruList := mkList { l_head : option loc; l_tail : option loc; l_len : Z }.
#[export] Instance eta_lruList : Eta lruList := fun r => mkList (l_head r) (l_tail r) (l_len r).
Definition empty_list : lruList := mkList None None 0.
Abbreviation heap E := (gmap loc (lruNode E)).

(** [p.prev = v] and [p.next = v]. *)
Definition set_prev {E} (h : heap E) (p : loc) (v : option loc) : option (heap E) :=
  n ← h !! p; Some (<[p := n <| n_prev := v |>]> h).
Definition set_next {E} (h : heap E) (p : loc) (v : option loc) : option (heap E) :=
  n ← h !! p; Some (<[p := n <| n_next := v |>]> h).

Definition pushFront {E} (h : heap E) (l : lruList) (n : loc) : option (heap E * lruList) :=
  h ← set_prev h n None;
  h ← set_next h n (l_head l);
  h ← match l_head l with Some hd => set_prev h hd (Some n) | None => Some h end;
  let l := l <| l_head := Some n |> in
  let l := match l_tail l with None => l <| l_tail := Some n |> | Some _ => l end in
  Some (h, l <| l_len := int64 (l_len l + 1) |>).

Definition unlink {E} (h : heap E) (l : lruList) (n : loc) : option (heap E * lruList) :=
  node ← h !! n;
  '(h, l) ← match n_prev node with
            | Some p => h ← set_next h p (n_next node); Some (h, l)
            | None => Some (h, l <| l_head := n_next node |>)
            end;
  node ← h !! n;
  '(h, l) ← match n_next node with
            | Some x => h ← set_prev h x (n_prev node); Some (h, l)
            | None => Some (h, l <| l_tail := n_prev node |>)
            end;
  h ← set_prev h n None;
  h ← set_next h n None;
  Some (h, l <| l_len := int64 (l_len l - 1) |>).

Definition moveToFront {E} (h : heap E) (l : lruList) (n : loc) : option (heap E * lruList) :=
  if bool_decide (l_head l = Some n) then Some (h, l)
  else '(h, l) ← unlink h l n; pushFront h l n.

Lemma NoDup_app_remove_mid {A} (l1 l2 : list A) x : NoDup (l1 ++ x :: l2) -> NoDup (l1 ++ l2).
Proof. rewrite !NoDup_app, NoDup_cons. intros (? & H & _ & ?). split_and!; [done| |done]. intros y Hy Hy'. apply (H y Hy). by right. Qed.
Lemma NoDup_app_mid_not_elem {A} (l1 l2 : list A) x : NoDup (l1 ++ x :: l2) -> x ∉ l1 ++ l2.
Proof.
  rewrite NoDup_app, NoDup_cons, elem_of_app. intros (_ & H & ? & _) [Hx|]; [|done]. apply (H x Hx). by left.
Qed.

(** ** Segments of the doubly-linked list *)

Section doubly_linked.
Context {E : Type}.
Abbreviation item := (string * E)%type.
Abbreviation cell := (loc * item)%type.
Implicit Types (h : heap E) (xs ys pre post : list cell) (p nx : option loc) (l : lruList) (n : loc).

Definition first xs nx : option loc := match xs with [] => nx | (x, _) :: _ => Some x end.
Fixpoint final p xs : option loc := match xs with [] => p | (x, _) :: xs => final (Some x) xs end.
(** [xs] are linked from [p] on the left to [nx] on the right. *)
Fixpoint dseg h p xs nx : Prop :=
  match xs with
  | [] => True
  | (x, (k, e)) :: xs => h !! x = Some (mkNode k e p (first xs nx)) /\ dseg h (Some x) xs nx
  end.

Lemma final_snoc xs x c : forall p, final p (xs ++ [(x, c)]) = Some x.
Proof. induction xs as [|[y d] xs IH]; intros p; cbn; [done|apply IH]. Qed.
Lemma final_some x c xs : forall p, exists y, final p ((x, c) :: xs) = Some y.
Proof. revert x c. induction xs as [|[y d] xs IH]; intros x c p; cbn; [by eexists|apply (IH y d p)]. Qed.
Lemma first_app xs ys nx : first (xs ++ ys) nx = first xs (first ys nx).
Proof. by destruct xs as [|[x c] xs]. Qed.
Lemma final_app xs ys : forall p, final p (xs ++ ys) = final (final p xs) ys.
Proof. induction xs as [|[x c] xs IH]; intros p; cbn; [done|apply IH]. Qed.

Lemma dseg_app h xs ys nx : forall p,
  dseg h p (xs ++ ys) nx <-> dseg h p xs (first ys nx) /\ dseg h (final p xs) ys nx.
Proof.
  induction xs as [|[x [k e]] xs IH]; intros p; cbn; [tauto|]. rewrite IH, first_app. tauto.
Qed.

Lemma dseg_frame h h' xs nx : forall p, (forall x, x ∈ xs.*1 -> h' !! x = h !! x) -> dseg h p xs nx -> dseg h' p xs nx.
Proof.
  induction xs as [|[x [k e]] xs IH]; intros p Hf; cbn; [done|]. intros [Hx Hs]. split.
  - rewrite Hf by (cbn; by left). done.
  - apply IH; [|done]. intros y Hy. apply Hf. cbn. by right.
Qed.

(** [h'] differs from [h] at most at [n]. *)
Definition agree_off (n : loc) h h' : Prop := forall y, y <> n -> h' !! y = h !! y.

Lemma set_prev_eq h n node v : h !! n = Some node -> set_prev h n v = Some (<[n := node <| n_prev := v |>]> h).
Proof. intros Hn. unfold set_prev. by rewrite Hn. Qed.
Lemma set_next_eq h n node v : h !! n = Some node -> set_next h n v = Some (<[n := node <| n_next := v |>]> h).
Proof. intros Hn. unfold set_next. by rewrite Hn. Qed.

(** Redirecting the end of a segment and the start of one. *)
Lemma set_next_seg h p xs x k e nx nx' : NoDup ((xs ++ [(x, (k, e))]).*1) ->
  dseg h p (xs ++ [(x, (k, e))]) nx ->
  exists h', set_next h x nx' = Some h' /\ dseg h' p (xs ++ [(x, (k, e))]) nx' /\ agree_off x h h'.
Proof.
  rewrite fmap_app, NoDup_app. intros (_ & Hd & _). rewrite dseg_app. cbn. intros (Hs & Hx & _).
  rewrite (set_next_eq _ _ _ _ Hx). eexists. split; [done|]. split.
  - rewrite dseg_app. cbn. rewrite lookup_insert_eq. split_and!; [|done|done].
    apply (dseg_frame h); [|done]. intros y Hy. rewrite lookup_insert_ne; [done|].
    intros <-. apply (Hd x Hy). by left.
  - intros y Hy. by rewrite lookup_insert_ne.
Qed.

Lemma set_prev_seg h p p' x k e xs nx : NoDup (((x, (k, e)) :: xs).*1) -> dseg h p ((x, (k, e)) :: xs) nx ->
  exists h', set_prev h x p' = Some h' /\ dseg h' p' ((x, (k, e)) :: xs) nx /\ agree_off x h h'.
Proof.
  rewrite fmap_cons, NoDup_cons. intros [Hn _]. cbn. intros [Hx Hs].
  rewrite (set_prev_eq _ _ _ _ Hx). eexists. split; [done|]. split.
  - rewrite lookup_insert_eq. split; [done|]. apply (dseg_frame h); [|done].
    intros y Hy. rewrite lookup_insert_ne; [done|]. by intros <-.
  - intros y Hy. by rewrite lookup_insert_ne.
Qed.

(** ** The list operations *)

Record list_rep h l xs : Prop := {
  lr_seg : dseg h None xs None;
  lr_nodup : NoDup (xs.*1);
  lr_head : l_head l = first xs None;
  lr_tail : l_tail l = final None xs;
  lr_len : l_len l = Z.of_nat (length xs);
  lr_small : Z.of_nat (length xs) < 2 ^ 62
}.

Lemma list_rep_empty h : list_rep h empty_list [].
Proof. split; try done. constructor. Qed.

Lemma agree_off_seg h h' x xs p nx : agree_off x h h' -> x ∉ xs.*1 -> dseg h p xs nx -> dseg h' p xs nx.
Proof. intros Ha Hx. apply dseg_frame. intros y Hy. apply Ha. by intros ->. Qed.

Lemma pushFront_spec h l xs n k e p q : list_rep h l xs -> Z.of_nat (length xs) + 1 < 2 ^ 62 ->
  h !! n = Some (mkNode k e p q) -> n ∉ xs.*1 ->
  exists h' l', pushFront h l n = Some (h', l') /\ list_rep h' l' ((n, (k, e)) :: xs) /\
    (forall y, y ∉ n :: xs.*1 -> h' !! y = h !! y).
Proof.
  intros [Hs Hnd Hh Ht Hl Hsm] Hb Hn Hni. unfold pushFront. rewrite (set_prev_eq _ _ _ _ Hn). cbn [mbind option_bind].
  erewrite set_next_eq by apply lookup_insert_eq. cbn [mbind option_bind]. rewrite insert_insert_eq.
  set (h1 := <[n := _]> h).
  assert (agree_off n h h1) as Ha by (intros y Hy; unfold h1; by rewrite lookup_insert_ne).
  pose proof (agree_off_seg _ _ _ _ _ _ Ha Hni Hs) as Hs1.
  assert (h1 !! n = Some (mkNode k e None (first xs None))) as Hn1 by (unfold h1; rewrite lookup_insert_eq, Hh; done).
  assert (int64 (l_len l + 1) = Z.of_nat (length ((n, (k, e)) :: xs))) as Hlen.
  { rewrite int64_id; cbn [length]; [lia|]. unfold in_int64. lia. }
  destruct xs as [|[x [k' e']] xs].
  - rewrite Hh. cbn. rewrite Ht. cbn. eexists _, _. split; [done|]. split.
    + split; cbn; try done. apply NoDup_singleton.
    + intros y Hy. apply Ha. intros ->. apply Hy. by left.
  - rewrite Hh. cbn [first]. cbn. destruct (set_prev_seg h1 None (Some n) x k' e' xs None Hnd Hs1) as (h2 & -> & Hs2 & Ha2).
    cbn. rewrite Ht. destruct (final_some x (k', e') xs None) as [t Ef]. rewrite Ef.
    eexists _, _. split; [done|]. split.
    + split; cbn [l_head l_tail l_len update first]; try done.
      * cbn [dseg first]. split; [|exact Hs2]. rewrite Ha2; [done|]. intros ->. apply Hni. by left.
      * rewrite fmap_cons. by apply NoDup_cons.
      * cbn [length] in Hb |- *. lia.
    + intros y Hy. rewrite Ha2, Ha; [done| |]; intros ->; apply Hy; cbn; set_solver.
Qed.

(** The two halves of [unlink]: the left part is made to end at [nx], the right
    part to start from [p]. *)
Lemma patch_next h l pre n nx : dseg h None pre (Some n) -> NoDup (pre.*1) -> n ∉ pre.*1 ->
  l_head l = first pre (Some n) ->
  exists h' l', match final None pre with
                | Some x => h ← set_next h x nx; Some (h, l)
                | None => Some (h, l <| l_head := nx |>)
                end = Some (h', l') /\
    dseg h' None pre nx /\ (forall y, y ∉ pre.*1 -> h' !! y = h !! y) /\
    l_head l' = first pre nx /\ l_tail l' = l_tail l /\ l_len l' = l_len l.
Proof.
  intros Hs Hnd Hn Hh. destruct pre as [|[x [k e]] pre'] using rev_ind.
  { cbn. by eexists _, _. }
  clear IHpre'. rewrite final_snoc. destruct (set_next_seg h None pre' x k e (Some n) nx Hnd Hs) as (h' & -> & Hs' & Ha).
  cbn [mbind option_bind]. exists h', l. split_and!; try done.
  - intros y Hy. apply Ha. intros ->. apply Hy. rewrite fmap_app. apply elem_of_app. right. by left.
  - rewrite Hh, !first_app. done.
Qed.

Lemma patch_prev h l post n p : dseg h (Some n) post None -> NoDup (post.*1) -> n ∉ post.*1 ->
  l_tail l = final (Some n) post ->
  exists h' l', match first post None with
                | Some x => h ← set_prev h x p; Some (h, l)
                | None => Some (h, l <| l_tail := p |>)
                end = Some (h', l') /\
    dseg h' p post None /\ (forall y, y ∉ post.*1 -> h' !! y = h !! y) /\
    l_tail l' = final p post /\ l_head l' = l_head l /\ l_len l' = l_len l.
Proof.
  intros Hs Hnd Hn Ht. destruct post as [|[x [k e]] post].
  { cbn. by eexists _, _. }
  cbn [first]. destruct (set_prev_seg h (Some n) p x k e post None Hnd Hs) as (h' & -> & Hs' & Ha).
  cbn [mbind option_bind]. exists h', l. split_and!; try done.
  intros y Hy. apply Ha. intros ->. apply Hy. by left.
Qed.

Lemma unlink_spec h l pre n k e post : list_rep h l (pre ++ (n, (k, e)) :: post) ->
  exists h' l', unlink h l n = Some (h', l') /\ list_rep h' l' (pre ++ post) /\
    h' !! n = Some (mkNode k e None None) /\
    (forall y, y ∉ (pre ++ (n, (k, e)) :: post).*1 -> h' !! y = h !! y).
Proof.
  intros [Hs Hnd Hh Ht Hl Hsm]. rewrite dseg_app in Hs. cbn [dseg first] in Hs. destruct Hs as (Hpre & Hn & Hpost).
  rewrite fmap_app, fmap_cons in Hnd. cbn [fst] in Hnd.
  apply NoDup_app in Hnd as (Nd1 & Ndd & [Nn Nd2]%NoDup_cons).
  assert (n ∉ pre.*1) as Nn1 by (intros Hin; apply (Ndd n Hin); by left).
  assert (forall y, y ∈ pre.*1 -> y ∉ post.*1) as Hdis by (intros y Hy Hy'; apply (Ndd y Hy); by right).
  rewrite first_app in Hh. rewrite final_app in Ht. cbn [first final] in Hh, Ht.
  unfold unlink. rewrite Hn. cbn [mbind option_bind n_prev n_next].
  destruct (patch_next h l pre n (first post None) Hpre Nd1 Nn1 Hh) as (h1 & l1 & E1 & S1 & F1 & Lh1 & Lt1 & Ll1).
  rewrite E1. cbn [mbind option_bind]. rewrite (F1 n Nn1), Hn. cbn [mbind option_bind n_prev n_next].
  assert (dseg h1 (Some n) post None) as Hpost1.
  { apply (dseg_frame h); [|done]. intros y Hy. apply F1. intros Hy'. by apply (Hdis y). }
  destruct (patch_prev h1 l1 post n (final None pre) Hpost1 Nd2 Nn ltac:(by rewrite Lt1)) as (h2 & l2 & E2 & S2 & F2 & Lt2 & Lh2 & Ll2).
  rewrite E2. cbn [mbind option_bind].
  assert (h2 !! n = Some (mkNode k e (final None pre) (first post None))) as Hn2 by (by rewrite F2, F1, Hn).
  rewrite (set_prev_eq _ _ _ _ Hn2). cbn [mbind option_bind].
  erewrite set_next_eq by apply lookup_insert_eq. cbn [mbind option_bind]. rewrite insert_insert_eq.
  eexists _, _. split; [done|]. split; [|split].
  - assert (agree_off n h2 (<[n := mkNode k e None None]> h2)) as Ha by (intros y Hy; by rewrite lookup_insert_ne).
    rewrite length_app in Hl, Hsm. cbn [length] in Hl, Hsm.
    split; cbn [l_head l_tail l_len update].
    + rewrite dseg_app. split; (apply (agree_off_seg h2 _ n); [exact Ha|done|]); [|exact S2].
      apply (dseg_frame h1); [|exact S1]. intros y Hy. apply F2. by apply Hdis.
    + rewrite fmap_app. by apply NoDup_app.
    + by rewrite Lh2, Lh1, first_app.
    + by rewrite Lt2, final_app.
    + rewrite Ll2, Ll1, Hl, length_app. rewrite int64_id; [lia|]. unfold in_int64. lia.
    + rewrite length_app. lia.
  - by rewrite lookup_insert_eq.
  - intros y Hy. rewrite fmap_app, fmap_cons in Hy. cbn [fst] in Hy. rewrite lookup_insert_ne by set_solver.
    rewrite F2, F1 by set_solver. done.
Qed.

Lemma moveToFront_spec h l pre n k e post : list_rep h l (pre ++ (n, (k, e)) :: post) ->
  exists h' l', moveToFront h l n = Some (h', l') /\ list_rep h' l' ((n, (k, e)) :: pre ++ post) /\
    (forall y, y ∉ (pre ++ (n, (k, e)) :: post).*1 -> h' !! y = h !! y).
Proof.
  intros Hr. unfold moveToFront. case_bool_decide as Hh.
  - assert (pre = []) as ->; [|by exists h, l]. destruct pre as [|[x c] pre]; [done|exfalso].
    pose proof (lr_head _ _ _ Hr) as Hh'. rewrite Hh in Hh'. cbn in Hh'. injection Hh' as <-.
    pose proof (lr_nodup _ _ _ Hr) as Hnd. rewrite fmap_app, !fmap_cons in Hnd. cbn [fst] in Hnd.
    apply NoDup_app in Hnd as (_ & Hd & _). apply (Hd n); by left.
  - destruct (unlink_spec _ _ _ _ _ _ _ Hr) as (h1 & l1 & -> & Hr1 & Hn & F1). cbn [mbind option_bind].
    pose proof (lr_nodup _ _ _ Hr) as Hnd. pose proof (lr_small _ _ _ Hr) as Hsm.
    rewrite length_app in Hsm. cbn [length] in Hsm.
    rewrite fmap_app, fmap_cons in Hnd. cbn [fst] in Hnd. apply NoDup_app in Hnd as (_ & Hd & [Hn2 _]%NoDup_cons).
    destruct (pushFront_spec h1 l1 (pre ++ post) n k e None None Hr1) as (h2 & l2 & E2 & Hr2 & F2); [rewrite length_app; lia|done| |].
    { rewrite fmap_app, elem_of_app. intros [Hin|Hin]; [apply (Hd n Hin); by left|done]. }
    exists h2, l2. split_and!; [done|done|]. intros y Hy. rewrite F2, F1; [done|done|].
    rewrite fmap_app, fmap_cons in Hy. rewrite fmap_app. cbn [fst] in Hy. set_solver.
Qed.

Lemma dseg_alloc h p xs nx x : dseg h p xs nx -> x ∈ xs.*1 -> is_Some (h !! x).
Proof.
  revert p. induction xs as [|[y [k e]] xs IH]; intros p; cbn [dseg]; [intros _ Hx; by apply not_elem_of_nil in Hx|].
  intros [Hy Hs] [->|Hx]%elem_of_cons; [by eexists|by eapply IH].
Qed.

(** A fresh node may be written without disturbing the list, and is not on it. *)
Lemma list_rep_alloc h l xs node : list_rep h l xs ->
  let n := fresh (dom h) in n ∉ xs.*1 /\ list_rep (<[n := node]> h) l xs.
Proof.
  intros Hl n. assert (n ∉ xs.*1) as Hn.
  { intros Hx. destruct (dseg_alloc _ _ _ _ _ (lr_seg _ _ _ Hl) Hx) as [node' Hnode].
    apply (is_fresh (dom h)). apply elem_of_dom. by exists node'. }
  split; [done|]. destruct Hl. split; try done. apply (dseg_frame h); [|done]. intros y Hy.
  apply lookup_insert_ne. by intros <-.
Qed.

(** ** The key table of a list *)

Definition table_rep (t : gmap string loc) xs : Prop := forall k x, t !! k = Some x <-> exists e, (x, (k, e)) ∈ xs.

Lemma cell_key k e x xs : (x, (k, e)) ∈ xs -> k ∈ xs.*2.*1.
Proof. intros Hin. apply (list_elem_of_fmap_2 fst _ (k, e)). by apply (list_elem_of_fmap_2 snd _ (x, (k, e))). Qed.
Lemma table_delete t pre n k e post : NoDup ((pre ++ (n, (k, e)) :: post).*2.*1) ->
  table_rep t (pre ++ (n, (k, e)) :: post) -> table_rep (delete k t) (pre ++ post).
Proof.
  intros Hk He k' x. rewrite !fmap_app, !fmap_cons in Hk. cbn [fst snd] in Hk. destruct (decide (k = k')) as [<-|Hne].
  - rewrite lookup_delete_eq. split; [done|]. intros (e' & Hin). exfalso.
    apply (NoDup_app_mid_not_elem _ _ _ Hk). rewrite <- !fmap_app. by apply (cell_key k e' x).
  - rewrite lookup_delete_ne by done. rewrite (He k' x). split; intros (e' & Hin); exists e'; set_solver.
Qed.
Lemma table_perm t xs ys : xs ≡ₚ ys -> table_rep t xs -> table_rep t ys.
Proof. intros Hp Ht k x. rewrite (Ht k x). by setoid_rewrite Hp. Qed.
Lemma table_insert t n k e xs : k ∉ xs.*2.*1 -> table_rep t xs -> table_rep (<[k := n]> t) ((n, (k, e)) :: xs).
Proof.
  intros Hk He k' x. destruct (decide (k = k')) as [<-|Hne].
  - rewrite lookup_insert_eq. split.
    + intros [= <-]. exists e. by left.
    + intros (e' & [[= -> _]|Hin]%elem_of_cons); [done|]. exfalso. apply Hk. by apply (cell_key k e' x).
  - rewrite lookup_insert_ne by done. rewrite (He k' x). split; intros (e' & Hin); exists e'; [by right|].
    apply elem_of_cons in Hin as [[= _ ? _]|]; [congruence|done].
Qed.
End doubly_linked.

(** ** Sizes *)

Section sized.
Context {E : Type} (size : E -> Z).
Abbreviation item := (string * E)%type.
Implicit Types (a b : list item).

Definition total a : Z := fold_right (fun i z => size i.2 + z) 0 a.
(** The longest prefix, that is the most recent items, of at most [room] bytes. *)
Fixpoint fit (room : Z) a : list item :=
  match a with
  | [] => []
  | i :: a => if size i.2 <=? room then i :: fit (room - size i.2) a else []
  end.

Context (size_nonneg : forall e, 0 <= size e).

Lemma total_app a b : total (a ++ b) = total a + total b.
Proof. induction a as [|i a IH]; cbn [app total fold_right]; [done|]. unfold total in *. lia. Qed.
Lemma total_cons i a : total (i :: a) = size i.2 + total a.
Proof. done. Qed.
Lemma total_nonneg a : 0 <= total a.
Proof. induction a as [|i a IH]; [done|]. rewrite total_cons. pose proof (size_nonneg i.2). lia. Qed.

Lemma fit_all room a : total a <= room -> fit room a = a.
Proof.
  revert room. induction a as [|i a IH]; intros room; [done|]. rewrite total_cons. cbn [fit]. intros Ht.
  pose proof (total_nonneg a). destruct (Z.leb_spec (size i.2) room); [|lia]. rewrite IH by lia. done.
Qed.
Lemma fit_snoc room a i : room < total (a ++ [i]) -> fit room (a ++ [i]) = fit room a.
Proof.
  revert room. induction a as [|j a IH]; intros room; cbn [app]; rewrite total_cons; cbn [fit].
  - cbn. intros Ht. destruct (Z.leb_spec (size i.2) room); [lia|done].
  - intros Ht. destruct (size j.2 <=? room); [|done]. f_equal. apply IH. lia.
Qed.
Lemma fit_total room a : 0 <= room -> total (fit room a) <= room.
Proof.
  revert room. induction a as [|i a IH]; intros room Hr; cbn [fit]; [done|].
  destruct (Z.leb_spec (size i.2) room); [|done]. rewrite total_cons. specialize (IH (room - size i.2)). lia.
Qed.
Lemma fit_sublist room a : fit room a `sublist_of` a.
Proof.
  revert room. induction a as [|i a IH]; intros room; cbn [fit]; [constructor|].
  destruct (_ <=? room); [by constructor|apply sublist_nil_l].
Qed.
Lemma total_take m a : total (take m a) <= total a.
Proof.
  revert m. induction a as [|i a IH]; intros [|m]; cbn [take]; rewrite ?total_cons; [done|done| |].
  - pose proof (total_nonneg a). pose proof (size_nonneg i.2). cbn. lia.
  - specialize (IH m). lia.
Qed.

End sized.
