(* ===== verification/Cache.v ===== *)
(** * The response cache ([src/internal/cache/cache.go])

    A bounded, expiring cache whose recency order is an intrusive doubly-linked
    list ([LinkedList]).  An operation is a partial function on the heap: [None] is the panic
    of a nil dereference (or, for the eviction loop, running out of fuel), which
    [CacheProofs] shows never happens.  Nodes that are unlinked stay in the heap
    as garbage.  A body is a string of bytes. *)

From S2P Require Import Prelude Hash LinkedList.

Record Entry := mkEntry {
  ce_Body : string; ce_ContentType : string; ce_Status : Z; ce_CreatedAt : Time; ce_Deployment : string
}.
Record Stats := mkStats {
  cs_Hits : Z; cs_Misses : Z; cs_Bypasses : Z; cs_Stores : Z; cs_Entries : Z; cs_BytesStored : Z
}.
#[export] Instance eta_Stats : Eta Stats := fun r =>
  mkStats (cs_Hits r) (cs_Misses r) (cs_Bypasses r) (cs_Stores r) (cs_Entries r) (cs_BytesStored r).
Definition zero_Stats : Stats := mkStats 0 0 0 0 0 0.

(** ** The cache *)

Record Cache := mkCache {
  c_ttl : Duration;
  c_entries : gmap string loc;
  c_heap : heap Entry;
  c_order : lruList;
  c_maxEntries : Z;
  c_maxBytes : Z;
  c_bytes : Z;
  c_stats : Stats
}.
#[export] Instance eta_Cache : Eta Cache := fun r =>
  mkCache (c_ttl r) (c_entries r) (c_heap r) (c_order r) (c_maxEntries r) (c_maxBytes r) (c_bytes r) (c_stats r).

Definition maxEntriesCap : Z := 65536.
Definition New (ttl : Duration) (maxEntries maxTotalBytes : Z) : Cache :=
  let ttl := if ttl <=? 0 then 5 * Minute else ttl in
  let maxEntries := if maxEntries <=? 0 then 256 else maxEntries in
  let maxEntries := if maxEntriesCap <? maxEntries then maxEntriesCap else maxEntries in
  let maxTotalBytes := if maxTotalBytes <=? 0 then Z.shiftl 64 20 else maxTotalBytes in
  let maxTotalBytes := if Z.shiftl 1 30 <? maxTotalBytes then Z.shiftl 1 30 else maxTotalBytes in
  mkCache ttl ∅ ∅ empty_list maxEntries maxTotalBytes 0 zero_Stats.

(** The hashed text has a zero byte after the path and after the body. *)
Definition key_text (path body context : list Z) : list Z := path ++ [0] ++ body ++ [0] ++ context.
Definition KeyWithContext (path body context : string) : string :=
  EncodeToString (Sha256.Sum256 (key_text (bytes path) (bytes body) (bytes context))).
Definition Key (path body : string) : string := KeyWithContext path body "".

Definition body_len (e : Entry) : Z := Z.of_nat (String.length (ce_Body e)).
Definition removeNode (c : Cache) (n : loc) : option Cache :=
  node ← c_heap c !! n;
  let c := match c_entries c !! n_key node with
           | Some _ =>
               let bytes := int64 (c_bytes c - body_len (n_entry node)) in
               c <| c_entries ::= delete (n_key node) |> <| c_bytes := if bytes <? 0 then 0 else bytes |>
           | None => c
           end in
  '(h, l) ← unlink (c_heap c) (c_order c) n;
  Some (c <| c_heap := h |> <| c_order := l |>).

Definition miss (c : Cache) : Cache := c <| c_stats ::= update cs_Misses (fun z => int64 (z + 1)) |>.
(** [None] in the result is a miss. *)
Definition Lookup (c : Cache) (key : string) (now : Time) : option (Cache * option Entry) :=
  match c_entries c !! key with
  | None => Some (miss c, None)
  | Some n =>
      node ← c_heap c !! n;
      if c_ttl c <? Sub now (ce_CreatedAt (n_entry node)) then
        c ← removeNode c n; Some (miss c, None)
      else
        '(h, l) ← moveToFront (c_heap c) (c_order c) n;
        let c := c <| c_heap := h |> <| c_order := l |> in
        Some (c <| c_stats ::= update cs_Hits (fun z => int64 (z + 1)) |>, Some (n_entry node))
  end.

(** [c.removeNode(c.order.tail)], which dereferences the pointer. *)
Definition remove_tail (c : Cache) : option Cache := n ← l_tail (c_order c); removeNode c n.
Fixpoint evict_bytes (fuel : nat) (c : Cache) (size : Z) : option Cache :=
  if (c_maxBytes c <? int64 (c_bytes c + size)) && (0 <? l_len (c_order c)) then
    match fuel with
    | O => None
    | S fuel => c ← remove_tail c; evict_bytes fuel c size
    end
  else Some c.

Definition Store (c : Cache) (key : string) (e : Entry) : option Cache :=
  if body_len e =? 0 then Some c
  else if c_maxBytes c <? body_len e then Some c
  else
    c ← match c_entries c !! key with Some old => removeNode c old | None => Some c end;
    c ← evict_bytes (Z.to_nat (l_len (c_order c))) c (body_len e);
    c ← (if c_maxEntries c <=? l_len (c_order c) then remove_tail c else Some c);
    let n := fresh (dom (c_heap c)) in
    let h := <[n := mkNode key e None None]> (c_heap c) in
    '(h, l) ← pushFront h (c_order c) n;
    Some (c <| c_entries ::= insert key n |> <| c_heap := h |> <| c_order := l |>
            <| c_bytes := int64 (c_bytes c + body_len e) |>
            <| c_stats ::= update cs_Stores (fun z => int64 (z + 1)) |>).

Definition Bypass (c : Cache) : Cache := c <| c_stats ::= update cs_Bypasses (fun z => int64 (z + 1)) |>.
Definition Invalidate (c : Cache) : Cache :=
  c <| c_entries := ∅ |> <| c_order := empty_list |> <| c_bytes := 0 |>.
Definition Reset (c : Cache) : Cache :=
  c <| c_entries := ∅ |> <| c_order := empty_list |> <| c_bytes := 0 |> <| c_stats := zero_Stats |>.
Definition Cache_Stats (c : Cache) : Stats :=
  c_stats c <| cs_Entries := l_len (c_order c) |> <| cs_BytesStored := c_bytes c |>.

(** ** Samples *)

Definition sample_entry (body : string) (t : Time) : Entry := mkEntry body "application/json" 200 t "p1/a".
(** With room for two, reading ["a"] makes ["b"] the one that is evicted. *)
Definition lru_trace : option (option string * option Entry * Z * Z) :=
  (c ← Store (New Minute 2 0) "a" (sample_entry "A" 10);
   c ← Store c "b" (sample_entry "BB" 11);
   '(c, _) ← Lookup c "a" 12;
   c ← Store c "c" (sample_entry "CCC" 13);
   '(c, a) ← Lookup c "a" 14;
   '(c, b) ← Lookup c "b" 15;
   Some (option_map ce_Body a, b, c_bytes c, l_len (c_order c))).
Example lru_evicts_least_recent : lru_trace = Some (Some "A", None, 4, 2).
Proof. vm_compute. reflexivity. Qed.
