(* ===== verification/CacheProofs.v ===== *)
(** * The response cache refines an LRU list

    The heap of nodes represents a list ([LinkedList.list_rep]), on which the
    cache as a whole behaves as the declarative LRU cache [lru_run]: it never
    dereferences nil and keeps its bounds. *)

From S2P Require Import Prelude LinkedList Cache.

(** ** Items and their sizes *)

Abbreviation item := (string * Entry)%type.
Abbreviation cell := (loc * item)%type.
Implicit Types (h : heap Entry) (xs ys pre post : list cell) (p nx : option loc) (l : lruList) (n : loc).
Abbreviation total := (LinkedList.total body_len).
Abbreviation fit := (LinkedList.fit body_len).

Lemma body_len_nonneg e : 0 <= body_len e.
Proof. unfold body_len. lia. Qed.
Lemma cached_total_nonneg (a : list item) : 0 <= total a.
Proof. apply LinkedList.total_nonneg, body_len_nonneg. Qed.

(** ** The specification: a list of items, most recently used first *)

Implicit Types (a b : list item) (k : string) (e : Entry).

Definition lru_remove k a : list item := filter (fun i => i.1 <> k) a.
Fixpoint lru_find k a : option Entry :=
  match a with
  | [] => None
  | (k', e) :: a => if String.eqb k' k then Some e else lru_find k a
  end.
Definition lru_lookup (ttl : Duration) a k (now : Time) : list item * option Entry :=
  match lru_find k a with
  | None => (a, None)
  | Some e =>
      if ttl <? Sub now (ce_CreatedAt e) then (lru_remove k a, None)
      else ((k, e) :: lru_remove k a, Some e)
  end.
Definition lru_store (maxEntries maxBytes : Z) a k e : list item :=
  if (body_len e =? 0) || (maxBytes <? body_len e) then a
  else (k, e) :: take (Z.to_nat (maxEntries - 1)) (fit (maxBytes - body_len e) (lru_remove k a)).

(** ** The representation invariant *)

Record cache_rep (c : Cache) xs : Prop := {
  cr_list : list_rep (c_heap c) (c_order c) xs;
  cr_keys : NoDup (xs.*2.*1);
  cr_entries : table_rep (c_entries c) xs;
  cr_bytes : c_bytes c = total xs.*2;
  cr_maxBytes : total xs.*2 <= c_maxBytes c <= 2 ^ 30;
  cr_maxEntries : Z.of_nat (length xs) <= c_maxEntries c <= 65536 /\ 0 < c_maxEntries c;
  cr_positive : Forall (fun i => 0 < body_len i.2) xs.*2
}.
Definition same_config (c c' : Cache) : Prop :=
  c_ttl c' = c_ttl c /\ c_maxEntries c' = c_maxEntries c /\ c_maxBytes c' = c_maxBytes c /\ c_stats c' = c_stats c.

Lemma removeNode_spec c pre n k e post : cache_rep c (pre ++ (n, (k, e)) :: post) ->
  exists c', removeNode c n = Some c' /\ cache_rep c' (pre ++ post) /\ same_config c c'.
Proof.
  intros [Hl Hk He Hb Hmb [Hme Hme0] Hp]. destruct (unlink_spec _ _ _ _ _ _ _ Hl) as (h' & l' & E & Hl' & _ & _).
  pose proof (lr_seg _ _ _ Hl) as Hs. rewrite dseg_app in Hs. cbn [dseg] in Hs. destruct Hs as (_ & Hn & _).
  assert (c_entries c !! k = Some n) as Hkn by (apply He; exists e; set_solver).
  rewrite fmap_app, fmap_cons, total_app, total_cons in Hb, Hmb. cbn [snd] in Hb, Hmb.
  rewrite length_app in Hme. cbn [length] in Hme.
  rewrite fmap_app, fmap_cons, Forall_app, Forall_cons in Hp. destruct Hp as (Hp1 & _ & Hp2).
  pose proof (cached_total_nonneg pre.*2). pose proof (cached_total_nonneg post.*2).
  unfold removeNode. rewrite Hn. cbn [mbind option_bind n_key n_entry]. rewrite Hkn.
  cbn [c_heap c_order update]. rewrite E. cbn [mbind option_bind]. eexists. split; [done|]. split; [|done].
  assert (int64 (c_bytes c - body_len e) = total (pre.*2 ++ post.*2)) as Hb'.
  { rewrite total_app, Hb, int64_id; [lia|]. unfold in_int64, body_len in *. lia. }
  split; cbn [c_heap c_order c_entries c_bytes c_maxBytes c_maxEntries update].
  - done.
  - rewrite !fmap_app, !fmap_cons in Hk. rewrite !fmap_app. by apply NoDup_app_remove_mid in Hk.
  - by apply (table_delete _ _ n _ e).
  - rewrite Hb', fmap_app. pose proof (cached_total_nonneg (pre.*2 ++ post.*2)).
    destruct (Z.ltb_spec (total (pre.*2 ++ post.*2)) 0); [lia|done].
  - rewrite fmap_app, total_app. unfold body_len in *. lia.
  - rewrite length_app. lia.
  - rewrite fmap_app. by apply Forall_app.
Qed.

Lemma remove_absent k a : k ∉ a.*1 -> lru_find k a = None /\ lru_remove k a = a.
Proof.
  induction a as [|[k' e] a IH]; [done|]. rewrite fmap_cons, not_elem_of_cons. cbn [fst lru_find]. intros [Hne Hk].
  destruct (IH Hk) as [H1 H2]. split.
  - destruct (String.eqb_spec k' k); [congruence|done].
  - unfold lru_remove in *. rewrite filter_cons_True by (cbn; congruence). by rewrite H2.
Qed.
Lemma remove_mid k e a b : NoDup ((a ++ (k, e) :: b).*1) ->
  lru_find k (a ++ (k, e) :: b) = Some e /\ lru_remove k (a ++ (k, e) :: b) = a ++ b.
Proof.
  rewrite fmap_app, fmap_cons. cbn [fst]. intros Hnd. pose proof (NoDup_app_mid_not_elem _ _ _ Hnd) as Hk.
  apply not_elem_of_app in Hk as [Ha Hb]. destruct (remove_absent _ _ Ha) as [F1 R1], (remove_absent _ _ Hb) as [_ R2].
  split.
  - clear Hnd R1 R2 Hb. induction a as [|[k' e'] a IH]; cbn [app lru_find]; [by rewrite String.eqb_refl|].
    cbn [lru_find] in F1. rewrite fmap_cons, not_elem_of_cons in Ha. destruct Ha as [_ Ha].
    destruct (String.eqb k' k); [done|]. by apply IH.
  - unfold lru_remove in *. rewrite filter_app, filter_cons_False by (cbn; tauto). by rewrite R1, R2.
Qed.

Lemma rep_present c xs k n : cache_rep c xs -> c_entries c !! k = Some n ->
  exists pre e post, xs = pre ++ (n, (k, e)) :: post /\
    lru_find k xs.*2 = Some e /\ lru_remove k xs.*2 = (pre ++ post).*2.
Proof.
  intros Hr (e & Hin)%(cr_entries _ _ Hr). apply list_elem_of_split in Hin as (pre & post & ->).
  exists pre, e, post. pose proof (cr_keys _ _ Hr) as Hk. split; [done|].
  assert ((pre ++ (n, (k, e)) :: post).*2 = pre.*2 ++ (k, e) :: post.*2) as E by (by rewrite fmap_app).
  rewrite E in *. rewrite fmap_app. by apply remove_mid.
Qed.
Lemma rep_absent c xs k : cache_rep c xs -> c_entries c !! k = None ->
  lru_find k xs.*2 = None /\ lru_remove k xs.*2 = xs.*2.
Proof.
  intros Hr Hn. apply remove_absent. intros (i & -> & Hi)%list_elem_of_fmap.
  apply list_elem_of_fmap in Hi as ([x [k e]] & -> & Hx).
  assert (c_entries c !! k = Some x) as Hx' by (apply (cr_entries _ _ Hr); by exists e).
  cbn in Hn. congruence.
Qed.

(** *** Lookup *)

Lemma lookup_spec c xs k now : cache_rep c xs ->
  exists c' r ys, Lookup c k now = Some (c', r) /\ cache_rep c' ys /\ c_ttl c' = c_ttl c /\
    c_maxEntries c' = c_maxEntries c /\ c_maxBytes c' = c_maxBytes c /\
    lru_lookup (c_ttl c) xs.*2 k now = (ys.*2, r).
Proof.
  intros Hr. unfold Lookup, lru_lookup. destruct (c_entries c !! k) as [n|] eqn:Hk.
  - destruct (rep_present _ _ _ _ Hr Hk) as (pre & e & post & -> & -> & ->).
    pose proof (lr_seg _ _ _ (cr_list _ _ Hr)) as Hs. rewrite dseg_app in Hs. cbn [dseg] in Hs. destruct Hs as (_ & Hn & _).
    rewrite Hn. cbn [mbind option_bind n_entry]. destruct (c_ttl c <? Sub now (ce_CreatedAt e)).
    + destruct (removeNode_spec _ _ _ _ _ _ Hr) as (c' & -> & Hr' & Ht & Hme & Hmb & _). cbn [mbind option_bind].
      exists (miss c'), None, (pre ++ post). split_and!; try done. by destruct Hr'.
    + destruct (moveToFront_spec _ _ _ _ _ _ _ (cr_list _ _ Hr)) as (h' & l' & -> & Hl' & _). cbn [mbind option_bind].
      eexists _, _, ((n, (k, e)) :: pre ++ post). split; [done|]. split; [|done].
      assert ((n, (k, e)) :: pre ++ post ≡ₚ pre ++ (n, (k, e)) :: post) as Hperm by (by apply Permutation_middle).
      destruct Hr as [_ Hkeys He Hb Hmb Hme Hp]. split; cbn [c_heap c_order c_entries c_bytes c_maxBytes c_maxEntries update].
      * done.
      * by rewrite Hperm.
      * by apply (table_perm _ (pre ++ (n, (k, e)) :: post)).
      * rewrite Hb. rewrite fmap_cons, !fmap_app, fmap_cons, total_cons, !total_app, total_cons. lia.
      * rewrite fmap_cons, fmap_app, total_cons, total_app. rewrite fmap_app, fmap_cons, total_app, total_cons in Hmb. lia.
      * by rewrite Hperm.
      * by rewrite Hperm.
  - destruct (rep_absent _ _ _ Hr Hk) as [-> _]. exists (miss c), None, xs. split_and!; try done. by destruct Hr.
Qed.

(** *** Store *)

Lemma remove_tail_spec c xs x i : cache_rep c (xs ++ [(x, i)]) ->
  exists c', remove_tail c = Some c' /\ cache_rep c' xs /\ same_config c c'.
Proof.
  intros Hr. destruct i as [k e]. unfold remove_tail. rewrite (lr_tail _ _ _ (cr_list _ _ Hr)), final_snoc.
  cbn [mbind option_bind]. destruct (removeNode_spec _ _ _ _ _ _ Hr) as (c' & E & Hr' & Hc).
  rewrite app_nil_r in Hr'. by exists c'.
Qed.

Lemma same_config_trans c1 c2 c3 : same_config c1 c2 -> same_config c2 c3 -> same_config c1 c3.
Proof. unfold same_config. intuition congruence. Qed.

Lemma evict_bytes_spec size xs : forall c fuel, cache_rep c xs -> (length xs <= fuel)%nat ->
  0 < size <= c_maxBytes c ->
  exists c' ys, evict_bytes fuel c size = Some c' /\ cache_rep c' ys /\ same_config c c' /\
    ys.*2 = fit (c_maxBytes c - size) xs.*2.
Proof.
  induction xs as [|[x i] xs IH] using rev_ind; intros c fuel Hr Hf Hs.
  - exists c, []. split_and!; [|done|done|done]. pose proof (lr_len _ _ _ (cr_list _ _ Hr)) as Hl.
    destruct fuel; cbn [evict_bytes]; rewrite Hl, andb_false_r; done.
  - destruct fuel as [|fuel]; [rewrite length_app in Hf; cbn in Hf; lia|]. cbn [evict_bytes].
    pose proof (cr_maxBytes _ _ Hr) as Hmb. pose proof (cached_total_nonneg (xs ++ [(x, i)]).*2) as Hnn.
    rewrite (cr_bytes _ _ Hr), (lr_len _ _ _ (cr_list _ _ Hr)), length_app. cbn [length].
    rewrite int64_id by (unfold in_int64; lia). rewrite fmap_app in *. cbn [fmap list_fmap snd] in *.
    destruct (Z.ltb_spec 0 (Z.of_nat (length xs + 1))); [|lia]. rewrite andb_true_r.
    destruct (Z.ltb_spec (c_maxBytes c) (total (xs.*2 ++ [i]) + size)).
    + destruct (remove_tail_spec _ _ _ _ Hr) as (c1 & -> & Hr1 & Hc1). cbn [mbind option_bind].
      destruct (IH c1 fuel Hr1) as (c2 & ys & E2 & Hr2 & Hc2 & Hys).
      { rewrite length_app in Hf. cbn in Hf. lia. }
      { destruct Hc1 as (_ & _ & -> & _). done. }
      exists c2, ys. split_and!; [done|done|by apply (same_config_trans c c1)|].
      rewrite Hys. destruct Hc1 as (_ & _ & -> & _). symmetry. apply fit_snoc. lia.
    + exists c, (xs ++ [(x, i)]). split_and!; [done|done|done|]. rewrite fmap_app. symmetry. apply fit_all; [apply body_len_nonneg|]. cbn. lia.
Qed.

(** The entry-count bound: at most one entry is over it. *)
Lemma evict_count_spec c xs : cache_rep c xs ->
  exists c' ys, (if c_maxEntries c <=? l_len (c_order c) then remove_tail c else Some c) = Some c' /\
    cache_rep c' ys /\ same_config c c' /\ ys.*2 = take (Z.to_nat (c_maxEntries c - 1)) xs.*2 /\
    Z.of_nat (length ys) < c_maxEntries c.
Proof.
  intros Hr. rewrite (lr_len _ _ _ (cr_list _ _ Hr)). destruct (cr_maxEntries _ _ Hr) as [Hme Hme0].
  destruct (Z.leb_spec (c_maxEntries c) (Z.of_nat (length xs))) as [Hle|Hlt].
  - destruct xs as [|[x i] xs] using rev_ind; [cbn in *; lia|]. clear IHxs.
    destruct (remove_tail_spec _ _ _ _ Hr) as (c' & E & Hr' & Hc). rewrite length_app in Hme, Hle. cbn [length] in Hme, Hle.
    exists c', xs. split_and!; [done|done|done| |lia]. rewrite fmap_app, take_app_le by (rewrite length_fmap; lia).
    rewrite take_ge; [done|]. rewrite length_fmap. lia.
  - exists c, xs. split_and!; [done|done|done| |done]. rewrite take_ge; [done|]. rewrite length_fmap. lia.
Qed.

(** Inserting a fresh node at the front. *)
Lemma insert_spec c xs k e : cache_rep c xs -> k ∉ xs.*2.*1 -> 0 < body_len e ->
  total xs.*2 + body_len e <= c_maxBytes c -> Z.of_nat (length xs) < c_maxEntries c ->
  let n := fresh (dom (c_heap c)) in
  exists h' l', pushFront (<[n := mkNode k e None None]> (c_heap c)) (c_order c) n = Some (h', l') /\
    cache_rep (c <| c_entries ::= insert k n |> <| c_heap := h' |> <| c_order := l' |>
                 <| c_bytes := int64 (c_bytes c + body_len e) |>
                 <| c_stats ::= update cs_Stores (fun z => int64 (z + 1)) |>) ((n, (k, e)) :: xs).
Proof.
  intros Hr Hk He Hroom Hlen n. destruct Hr as [Hl Hkeys Hent Hb Hmb [Hme Hme0] Hp].
  destruct (list_rep_alloc _ _ _ (mkNode k e None None) Hl) as [Hn Hl1]. fold n in Hn, Hl1.
  pose proof (cached_total_nonneg xs.*2).
  destruct (pushFront_spec _ _ xs n k e None None Hl1) as (h' & l' & E & Hl' & _); [lia|apply lookup_insert_eq|done|].
  exists h', l'. split; [done|]. split; cbn [c_heap c_order c_entries c_bytes c_maxBytes c_maxEntries update].
  - done.
  - rewrite !fmap_cons. by apply NoDup_cons.
  - by apply table_insert.
  - rewrite fmap_cons, total_cons, Hb. cbn [snd]. rewrite int64_id by (unfold in_int64; lia). lia.
  - rewrite fmap_cons, total_cons. cbn [snd]. lia.
  - cbn [length]. lia.
  - rewrite fmap_cons. by constructor.
Qed.

Lemma store_spec c xs k e : cache_rep c xs ->
  exists c' ys, Store c k e = Some c' /\ cache_rep c' ys /\ c_ttl c' = c_ttl c /\
    c_maxEntries c' = c_maxEntries c /\ c_maxBytes c' = c_maxBytes c /\
    lru_store (c_maxEntries c) (c_maxBytes c) xs.*2 k e = ys.*2.
Proof.
  intros Hr. unfold Store, lru_store. destruct (Z.eqb_spec (body_len e) 0) as [|H0]; [by exists c, xs|].
  destruct (Z.ltb_spec (c_maxBytes c) (body_len e)) as [|Hfit]; [by exists c, xs|]. cbn [orb].
  assert (0 < body_len e) as Hpos by (unfold body_len in *; lia).
  assert (exists c1 xs1, match c_entries c !! k with Some old => removeNode c old | None => Some c end = Some c1 /\
    cache_rep c1 xs1 /\ same_config c c1 /\ lru_remove k xs.*2 = xs1.*2) as (c1 & xs1 & -> & Hr1 & Hc1 & Hx1).
  { destruct (c_entries c !! k) as [old|] eqn:Ho.
    - destruct (rep_present _ _ _ _ Hr Ho) as (pre & e0 & post & -> & _ & Hrem).
      destruct (removeNode_spec _ _ _ _ _ _ Hr) as (c1 & ? & ? & ?). by exists c1, (pre ++ post).
    - destruct (rep_absent _ _ _ Hr Ho) as [_ Hrem]. by exists c, xs. }
  cbn [mbind option_bind]. destruct Hc1 as (Ht1 & Hme1 & Hmb1 & _).
  destruct (evict_bytes_spec (body_len e) xs1 c1 (Z.to_nat (l_len (c_order c1))) Hr1) as (c2 & xs2 & -> & Hr2 & Hc2 & Hx2).
  { rewrite (lr_len _ _ _ (cr_list _ _ Hr1)). lia. }
  { lia. }
  cbn [mbind option_bind]. destruct Hc2 as (Ht2 & Hme2 & Hmb2 & _).
  destruct (evict_count_spec c2 xs2 Hr2) as (c3 & xs3 & -> & Hr3 & Hc3 & Hx3 & Hlen).
  cbn [mbind option_bind]. destruct Hc3 as (Ht3 & Hme3 & Hmb3 & _).
  assert (xs3.*2 = take (Z.to_nat (c_maxEntries c - 1)) (fit (c_maxBytes c - body_len e) (lru_remove k xs.*2))) as Hx.
  { rewrite Hx3, Hx2, Hx1, Hme2, Hme1, Hmb1. done. }
  destruct (insert_spec c3 xs3 k e Hr3) as (h' & l' & E & Hr4); [|done| |lia|].
  { rewrite Hx. intros (i & Hi & Hin)%list_elem_of_fmap.
    assert (i ∈ lru_remove k xs.*2) as Hrem.
    { eapply elem_of_sublist; [|apply (fit_sublist body_len (c_maxBytes c - body_len e))].
      eapply elem_of_sublist; [exact Hin|apply sublist_take]. }
    apply list_elem_of_filter in Hrem as [Hne _]. congruence. }
  { rewrite Hx. pose proof (total_take body_len body_len_nonneg (Z.to_nat (c_maxEntries c - 1)) (fit (c_maxBytes c - body_len e) (lru_remove k xs.*2))).
    pose proof (fit_total body_len (c_maxBytes c - body_len e) (lru_remove k xs.*2)). lia. }
  rewrite E. cbn [mbind option_bind]. eexists _, _. split; [done|]. split; [exact Hr4|].
  split_and!; [cbn; congruence|cbn; congruence|cbn; congruence|]. rewrite fmap_cons. cbn [snd]. by rewrite Hx.
Qed.

(** ** Runs *)

Inductive cache_op :=
| OpLookup (key : string) (now : Time)
| OpStore (key : string) (e : Entry)
| OpBypass
| OpInvalidate
| OpReset.

(** The state after each operation and what a lookup answers; [None] panics. *)
Definition run_op (c : Cache) (o : cache_op) : option (Cache * option Entry) :=
  match o with
  | OpLookup key now => Lookup c key now
  | OpStore key e => c ← Store c key e; Some (c, None)
  | OpBypass => Some (Bypass c, None)
  | OpInvalidate => Some (Invalidate c, None)
  | OpReset => Some (Reset c, None)
  end.
Fixpoint run_cache (c : Cache) (os : list cache_op) : option (Cache * list (option Entry)) :=
  match os with
  | [] => Some (c, [])
  | o :: os =>
      '(c, r) ← run_op c o;
      '(c, rs) ← run_cache c os;
      Some (c, r :: rs)
  end.

Definition lru_op (ttl maxEntries maxBytes : Z) a (o : cache_op) : list item * option Entry :=
  match o with
  | OpLookup key now => lru_lookup ttl a key now
  | OpStore key e => (lru_store maxEntries maxBytes a key e, None)
  | OpBypass => (a, None)
  | OpInvalidate | OpReset => ([], None)
  end.
Fixpoint lru_run (ttl maxEntries maxBytes : Z) a (os : list cache_op) : list item * list (option Entry) :=
  match os with
  | [] => (a, [])
  | o :: os =>
      let '(a, r) := lru_op ttl maxEntries maxBytes a o in
      let '(a, rs) := lru_run ttl maxEntries maxBytes a os in
      (a, r :: rs)
  end.

Lemma rep_cleared c : 0 <= c_maxBytes c <= 2 ^ 30 -> 0 < c_maxEntries c <= 65536 ->
  forall st, cache_rep (mkCache (c_ttl c) ∅ (c_heap c) empty_list (c_maxEntries c) (c_maxBytes c) 0 st) [].
Proof.
  intros Hb He st. split; cbn; try done.
  - apply list_rep_empty.
  - constructor.
  - intros k x. rewrite lookup_empty. split; [done|]. intros (e & Hin). by apply not_elem_of_nil in Hin.
  - lia.
Qed.
Lemma New_rep ttl maxEntries maxBytes : cache_rep (New ttl maxEntries maxBytes) [].
Proof.
  unfold New. apply (rep_cleared (mkCache _ ∅ ∅ empty_list _ _ 0 zero_Stats)); cbn [c_maxBytes c_maxEntries].
  - change (Z.shiftl 64 20) with 67108864. change (Z.shiftl 1 30) with 1073741824.
    destruct (Z.leb_spec maxBytes 0); [done|]. destruct (Z.ltb_spec 1073741824 maxBytes); lia.
  - unfold maxEntriesCap. destruct (Z.leb_spec maxEntries 0); [done|]. destruct (Z.ltb_spec 65536 maxEntries); lia.
Qed.

Lemma run_op_spec c xs o : cache_rep c xs ->
  exists c' r ys, run_op c o = Some (c', r) /\ cache_rep c' ys /\ c_ttl c' = c_ttl c /\
    c_maxEntries c' = c_maxEntries c /\ c_maxBytes c' = c_maxBytes c /\
    lru_op (c_ttl c) (c_maxEntries c) (c_maxBytes c) xs.*2 o = (ys.*2, r).
Proof.
  intros Hr. pose proof (cr_maxBytes _ _ Hr) as Hb. pose proof (cached_total_nonneg xs.*2).
  destruct (cr_maxEntries _ _ Hr) as [He He0]. destruct o as [k now|k e| | |]; cbn [run_op lru_op].
  - by apply lookup_spec.
  - destruct (store_spec c xs k e Hr) as (c' & ys & -> & ? & ? & ? & ? & ->). by exists c', None, ys.
  - exists (Bypass c), None, xs. split_and!; try done. by destruct Hr.
  - exists (Invalidate c), None, []. split_and!; try done. apply (rep_cleared c); lia.
  - exists (Reset c), None, []. split_and!; try done. apply (rep_cleared c); lia.
Qed.

Lemma run_cache_spec os : forall c xs, cache_rep c xs ->
  exists c' rs ys, run_cache c os = Some (c', rs) /\ cache_rep c' ys /\ c_ttl c' = c_ttl c /\
    c_maxEntries c' = c_maxEntries c /\ c_maxBytes c' = c_maxBytes c /\
    lru_run (c_ttl c) (c_maxEntries c) (c_maxBytes c) xs.*2 os = (ys.*2, rs).
Proof.
  induction os as [|o os IH]; intros c xs Hr; cbn [run_cache lru_run]; [by exists c, [], xs|].
  destruct (run_op_spec c xs o Hr) as (c1 & r & ys & -> & Hr1 & Ht & He & Hb & ->). cbn [mbind option_bind].
  destruct (IH c1 ys Hr1) as (c2 & rs & zs & -> & Hr2 & Ht2 & He2 & Hb2 & E2). rewrite Ht, He, Hb in E2. rewrite E2.
  exists c2, (r :: rs), zs. split_and!; try done; congruence.
Qed.

(** (C11) The cache refines an LRU list.  From a new cache of any configuration,
    any sequence of operations runs without a nil dereference and with a
    terminating eviction loop, and every lookup answers what the declarative LRU
    cache answers; at the end the byte count is the sum of the cached bodies and
    within the byte bound, the list length is the number of entries and within
    the entry bound, and the bounds are at most the safe maxima. *)
Theorem cache_refines_lru (ttl : Duration) (maxEntries maxBytes : Z) (os : list cache_op) :
  let c0 := New ttl maxEntries maxBytes in
  let '(a, rs) := lru_run (c_ttl c0) (c_maxEntries c0) (c_maxBytes c0) [] os in
  exists c, run_cache c0 os = Some (c, rs) /\
    c_bytes c = total a /\ total a <= c_maxBytes c0 <= 2 ^ 30 /\
    l_len (c_order c) = Z.of_nat (length a) /\ Z.of_nat (length a) <= c_maxEntries c0 <= 65536.
Proof.
  intros c0. destruct (run_cache_spec os c0 [] (New_rep ttl maxEntries maxBytes)) as (c & rs & ys & E & Hr & _ & He & Hb & El).
  cbn [fmap list_fmap] in El. rewrite El. exists c. split; [done|].
  pose proof (cr_maxBytes _ _ Hr) as Hb'. destruct (cr_maxEntries _ _ Hr) as [He' _]. rewrite He in He'. rewrite Hb in Hb'.
  split_and!; [apply (cr_bytes _ _ Hr)|lia|lia| |rewrite length_fmap; lia|lia].
  by rewrite (lr_len _ _ _ (cr_list _ _ Hr)), length_fmap.
Qed.

(** ** What a hit returns *)

(** The operation leaves what is cached under [k] alone, or drops it. *)
Definition keeps (maxBytes : Z) k (o : cache_op) : bool :=
  match o with
  | OpInvalidate | OpReset => false
  | OpStore k' e => negb (String.eqb k' k) || (body_len e =? 0) || (maxBytes <? body_len e)
  | OpLookup _ _ | OpBypass => true
  end.

Lemma lru_find_elem k a e : lru_find k a = Some e -> (k, e) ∈ a.
Proof.
  induction a as [|[k' e'] a IH]; cbn [lru_find]; [done|]. destruct (String.eqb_spec k' k) as [->|].
  - intros [= ->]. by left.
  - intros H. right. by apply IH.
Qed.
Lemma lru_remove_elem k k' a e : (k, e) ∈ lru_remove k' a -> k <> k' /\ (k, e) ∈ a.
Proof. intros [? ?]%list_elem_of_filter. done. Qed.

Lemma lru_op_origin ttl maxE maxB a o k e : (k, e) ∈ (lru_op ttl maxE maxB a o).1 ->
  o = OpStore k e \/ ((k, e) ∈ a /\ keeps maxB k o = true).
Proof.
  destruct o as [k' now|k' e'| | |]; cbn [lru_op fst]; intros Hin;
    [| |by right|by apply not_elem_of_nil in Hin..].
  - right. split; [|done]. unfold lru_lookup in Hin. destruct (lru_find k' a) as [e'|] eqn:Hf; [|done].
    destruct (ttl <? _); cbn [fst] in Hin; [by apply lru_remove_elem in Hin as [_ ?]|].
    apply elem_of_cons in Hin as [[= -> ->]|Hin]; [by apply lru_find_elem|by apply lru_remove_elem in Hin as [_ ?]].
  - unfold lru_store in Hin. cbn [keeps]. destruct (body_len e' =? 0); [right; by rewrite orb_true_r|].
    destruct (maxB <? body_len e'); [right; by rewrite !orb_true_r|]. cbn [orb] in Hin.
    apply elem_of_cons in Hin as [[= -> ->]|Hin]; [by left|right].
    assert ((k, e) ∈ lru_remove k' a) as [Hne Ha]%lru_remove_elem.
    { eapply elem_of_sublist; [|apply (fit_sublist body_len (maxB - body_len e'))]. eapply elem_of_sublist; [exact Hin|apply sublist_take]. }
    split; [done|]. by destruct (String.eqb_spec k' k).
Qed.

Lemma lru_run_snoc ttl maxE maxB os o : forall a,
  lru_run ttl maxE maxB a (os ++ [o]) =
  let '(b, rs) := lru_run ttl maxE maxB a os in
  let '(b, r) := lru_op ttl maxE maxB b o in (b, rs ++ [r]).
Proof.
  induction os as [|o' os IH]; intros a; cbn [app lru_run].
  - by destruct (lru_op _ _ _ a o).
  - destruct (lru_op _ _ _ a o') as [b r]. rewrite IH. destruct (lru_run _ _ _ b os) as [b' rs].
    by destruct (lru_op _ _ _ b' o).
Qed.

Lemma lru_run_origin ttl maxE maxB os k e : (k, e) ∈ (lru_run ttl maxE maxB [] os).1 ->
  exists os1 os2, os = os1 ++ OpStore k e :: os2 /\ Forall (fun o => keeps maxB k o = true) os2.
Proof.
  induction os as [|o os IH] using rev_ind; [intros Hin; by apply not_elem_of_nil in Hin|].
  rewrite lru_run_snoc. destruct (lru_run ttl maxE maxB [] os) as [b rs]. cbn [fst] in IH.
  pose proof (lru_op_origin ttl maxE maxB b o k e) as Ho. destruct (lru_op ttl maxE maxB b o) as [b' r]. cbn [fst] in *.
  intros [->|[Hin Hk]]%Ho; [by exists os, []|]. destruct (IH Hin) as (os1 & os2 & -> & Hf).
  exists os1, (os2 ++ [o]). split; [by rewrite <- app_assoc|]. apply Forall_app. auto.
Qed.

(** A cache hit is honest: what a lookup returns after any history was
    stored under exactly that key, is the last thing stored there, has not been
    invalidated since, and is no older than the time to live. *)
Theorem cache_hit_is_latest_store (ttl : Duration) (maxEntries maxBytes : Z) (os : list cache_op) (k : string)
    (now : Time) (c c' : Cache) (rs : list (option Entry)) (e : Entry) :
  run_cache (New ttl maxEntries maxBytes) os = Some (c, rs) -> Lookup c k now = Some (c', Some e) ->
  Sub now (ce_CreatedAt e) <= c_ttl (New ttl maxEntries maxBytes) /\
  exists os1 os2, os = os1 ++ OpStore k e :: os2 /\
    Forall (fun o => keeps (c_maxBytes (New ttl maxEntries maxBytes)) k o = true) os2.
Proof.
  set (c0 := New ttl maxEntries maxBytes). intros Hrun Hhit.
  destruct (run_cache_spec os c0 [] (New_rep ttl maxEntries maxBytes)) as (d & rs' & ys & E & Hr & Httl & _ & _ & El).
  rewrite Hrun in E. injection E as <- <-. cbn [fmap list_fmap] in El.
  destruct (lookup_spec c ys k now Hr) as (c2 & r & zs & E2 & _ & _ & _ & _ & E3). rewrite Hhit in E2. injection E2 as <- <-.
  unfold lru_lookup in E3. destruct (lru_find k ys.*2) as [e'|] eqn:Hf; [|done]. rewrite Httl in E3.
  destruct (Z.ltb_spec (c_ttl c0) (Sub now (ce_CreatedAt e'))); [done|]. injection E3 as _ ->. split; [done|].
  apply (lru_run_origin (c_ttl c0) (c_maxEntries c0) (c_maxBytes c0)). rewrite El. by apply lru_find_elem.
Qed.

(** ** Keys *)

Lemma zero_sep_inj (u v x y : list Z) : 0 ∉ u -> 0 ∉ v -> u ++ [0] ++ x = v ++ [0] ++ y -> u = v /\ x = y.
Proof.
  revert v. induction u as [|a u IH]; intros [|b v] Hu Hv He; cbn in He.
  - by injection He.
  - injection He as <- _. exfalso. apply Hv. by left.
  - injection He as -> _. exfalso. apply Hu. by left.
  - injection He as -> He. rewrite not_elem_of_cons in Hu, Hv.
    destruct (IH v) as [-> ->]; [tauto|tauto|exact He|done].
Qed.
(** Requests whose path and JSON body have no zero byte get one key only when
    they agree in path, body and context, or SHA-256 collides on their texts. *)
Lemma key_separates path body context path' body' context' :
  0 ∉ Hash.bytes path -> 0 ∉ Hash.bytes body -> 0 ∉ Hash.bytes path' -> 0 ∉ Hash.bytes body' ->
  KeyWithContext path body context = KeyWithContext path' body' context' ->
  let t := key_text (Hash.bytes path) (Hash.bytes body) (Hash.bytes context) in
  let t' := key_text (Hash.bytes path') (Hash.bytes body') (Hash.bytes context') in
  (Hash.bytes path = Hash.bytes path' /\ Hash.bytes body = Hash.bytes body' /\ Hash.bytes context = Hash.bytes context') \/
  (t <> t' /\ Hash.EncodeToString (Hash.Sha256.Sum256 t) = Hash.EncodeToString (Hash.Sha256.Sum256 t')).
Proof.
  intros H1 H2 H3 H4 Hk t t'. destruct (decide (t = t')) as [E|Hne]; [left|right; by split].
  unfold t, t', key_text in E. apply zero_sep_inj in E as [-> E]; [|done|done].
  by apply zero_sep_inj in E as [-> ->].
Qed.

(** ** Samples *)

Definition sample_ops : list cache_op :=
  [OpStore "a" (sample_entry "A" 10); OpStore "a" (sample_entry "AA" 11); OpStore "b" (sample_entry "B" 12)].
Lemma cache_hit_is_latest_store_witness :
  Sub 20 11 <= c_ttl (New Minute 2 0) /\
  exists os1 os2, sample_ops = os1 ++ OpStore "a" (sample_entry "AA" 11) :: os2 /\
    Forall (fun o => keeps (c_maxBytes (New Minute 2 0)) "a" o = true) os2.
Proof.
  destruct (run_cache (New Minute 2 0) sample_ops) as [[c rs]|] eqn:E; [|vm_compute in E; discriminate E].
  destruct (Lookup c "a" 20) as [[c' r]|] eqn:El; [|vm_compute in E; injection E as <- <-; vm_compute in El; discriminate El].
  assert (r = Some (sample_entry "AA" 11)) as -> by
    (vm_compute in E; injection E as <- <-; vm_compute in El; injection El as _ <-; reflexivity).
  exact (cache_hit_is_latest_store Minute 2 0 sample_ops "a" 20 c c' rs (sample_entry "AA" 11) E El).
Defined.
