(* ===== verification/Text.v ===== *)
(** * Text functions of the Go library used by the program

    UTF-8 iteration ([for _, r := range s]) and encoding, decimal and hexadecimal
    formatting, and slicing of byte strings, with the facts about them the
    components share. *)

From stdpp Require Import pretty.
From Stdlib Require Import SpecFloat Ascii.
From S2P Require Import Prelude Hash.

(** ** Runes *)

Definition RuneError : Z := 65533.
Definition cont (lo hi b : Z) : bool := (lo <=? b) && (b <=? hi).
(** The runes of a byte string; an invalid byte is [RuneError] and one byte wide. *)
Fixpoint runes (s : list Z) : list Z :=
  match s with
  | [] => []
  | b0 :: s1 =>
      if b0 <? 128 then b0 :: runes s1
      else
        match s1 with
        | b1 :: s2 =>
            if cont 194 223 b0 && cont 128 191 b1 then ((b0 - 192) * 64 + (b1 - 128)) :: runes s2
            else
              match s2 with
              | b2 :: s3 =>
                  let lo := if b0 =? 224 then 160 else 128 in
                  let hi := if b0 =? 237 then 159 else 191 in
                  if cont 224 239 b0 && cont lo hi b1 && cont 128 191 b2
                  then ((b0 - 224) * 4096 + (b1 - 128) * 64 + (b2 - 128)) :: runes s3
                  else
                    match s3 with
                    | b3 :: s4 =>
                        let lo := if b0 =? 240 then 144 else 128 in
                        let hi := if b0 =? 244 then 143 else 191 in
                        if cont 240 244 b0 && cont lo hi b1 && cont 128 191 b2 && cont 128 191 b3
                        then ((b0 - 240) * 262144 + (b1 - 128) * 4096 + (b2 - 128) * 64 + (b3 - 128)) :: runes s4
                        else RuneError :: runes s1
                    | [] => RuneError :: runes s1
                    end
              | [] => RuneError :: runes s1
              end
        | [] => [RuneError]
        end
  end.
(** [string(r)] for a rune that [runes] yields. *)
Definition encode_rune (r : Z) : list Z :=
  if r <? 128 then [r]
  else if r <? 2048 then [192 + r / 64; 128 + r mod 64]
  else if r <? 65536 then [224 + r / 4096; 128 + (r / 64) mod 64; 128 + r mod 64]
  else [240 + r / 262144; 128 + (r / 4096) mod 64; 128 + (r / 64) mod 64; 128 + r mod 64].
Definition char_of (b : Z) : ascii := ascii_of_N (Z.to_N b).
Definition string_of_bytes (l : list Z) : string := String.string_of_list_ascii (map char_of l).

Example runes_mixed : runes [97; 195; 169; 226; 130; 172; 240; 159; 146; 169; 255; 98] = [97; 233; 8364; 128169; RuneError; 98].
Proof. reflexivity. Qed.
Example encode_runes_back : concat (encode_rune <$> [97; 233; 8364; 128169]) = [97; 195; 169; 226; 130; 172; 240; 159; 146; 169].
Proof. reflexivity. Qed.

(** ** Numbers *)

(** [strconv.Itoa], [%d]. *)
Definition Itoa (z : Z) : string := pretty z.
(** [%x] of a non-negative integer. *)
Fixpoint hex_go (fuel : nat) (z : Z) (acc : string) : string :=
  match fuel with
  | O => acc
  | S fuel => let acc := String (hex_digit (z mod 16)) acc in
              if z <? 16 then acc else hex_go fuel (z / 16) acc
  end.
Definition FormatHex (z : Z) : string := hex_go 16 z "".
(** [%.kf]: the exact decimal value rounded to [k] places, ties to even. *)
Definition pad_left (n : nat) (s : string) : string :=
  String.string_of_list_ascii (replicate (n - String.length s) "0"%char) +:+ s.
Definition round_ratio (num den : Z) : Z :=
  let q := num / den in
  let r := num mod den in
  if (2 * r <? den) || ((2 * r =? den) && Z.even q) then q else q + 1.
Definition FormatFixed (k : nat) (x : float64) : string :=
  let digits (sgn : bool) (n : Z) :=
    let p := 10 ^ Z.of_nat k in
    (if sgn then "-" else "") +:+ Itoa (n / p) +:+
    (if (k =? 0)%nat then "" else "." +:+ pad_left k (Itoa (n mod p))) in
  match x with
  | S754_nan => "NaN"
  | S754_infinity sgn => if sgn then "-Inf" else "+Inf"
  | S754_zero sgn => digits sgn 0
  | S754_finite sgn m e =>
      digits sgn (if 0 <=? e then Z.pos m * 2 ^ e * 10 ^ Z.of_nat k
                  else round_ratio (Z.pos m * 10 ^ Z.of_nat k) (2 ^ (- e)))
  end.
Example fixed_samples :
  FormatFixed 4 (fdiv (f_of_int 1) (f_of_int 5)) = "0.2000" /\ FormatFixed 1 (fdiv (f_of_int 1) (f_of_int 8)) = "0.1" /\
  FormatFixed 4 (fdiv (f_of_int (-15)) (f_of_int 7)) = "-2.1429" /\ FormatFixed 2 (f_of_int 1234) = "1234.00".
Proof. vm_compute. auto. Qed.
(** The truncation of a conversion to an integer; [None] where the value does
    not fit and the result depends on the machine. *)
Definition f_trunc (x : float64) : option Z :=
  match x with
  | S754_zero _ => Some 0
  | S754_finite sgn m e =>
      let n := if 0 <=? e then Z.pos m * 2 ^ e else Z.pos m / 2 ^ (- e) in
      let n := if sgn then - n else n in
      if bool_decide (in_int64 n) then Some n else None
  | _ => None
  end.
Example hex_255 : FormatHex 48879 = "beef".
Proof. reflexivity. Qed.

(** ** Slices of strings *)

(** [s[:n]] for [n <= len(s)]. *)
Definition str_take (n : nat) (s : string) : string := String.substring 0 n s.

Fixpoint str_forall (f : ascii -> bool) (s : string) : bool :=
  match s with EmptyString => true | String c s => f c && str_forall f s end.

Lemma str_app_nil (s : string) : s +:+ "" = s.
Proof. induction s as [|c s IH]; [done|]. exact (f_equal (String c) IH). Qed.
Lemma str_app_assoc3 (a b c : string) : (a +:+ b) +:+ c = a +:+ (b +:+ c).
Proof. induction a as [|x a IH]; [done|]. exact (f_equal (String x) IH). Qed.
Lemma str_forall_app f (a b : string) : str_forall f (a +:+ b) = str_forall f a && str_forall f b.
Proof.
  induction a as [|c a IH]; [done|]. change (f c && str_forall f (a +:+ b) = f c && str_forall f a && str_forall f b).
  by rewrite IH, andb_assoc.
Qed.
Lemma str_take_forall f n (s : string) : str_forall f s = true -> str_forall f (str_take n s) = true.
Proof.
  unfold str_take. revert n. induction s as [|c s IH]; intros [|n]; cbn; try done.
  intros [-> H]%andb_true_iff. cbn. by apply IH.
Qed.
Lemma str_take_length n (s : string) : (n <= String.length s)%nat -> String.length (str_take n s) = n.
Proof.
  unfold str_take. revert s. induction n as [|n IH]; intros s Hn; [by destruct s|].
  destruct s as [|c s]; cbn in *; [lia|]. f_equal. apply IH. lia.
Qed.

Definition is_digit (c : ascii) : bool := let n := nat_of_ascii c in ((48 <=? n) && (n <=? 57))%nat.
Lemma pretty_N_char_digit x : is_digit (pretty_N_char x) = true.
Proof. unfold pretty_N_char. by repeat case_match. Qed.
Lemma pretty_go_digits x : forall s, str_forall is_digit s = true -> str_forall is_digit (pretty_N_go x s) = true.
Proof.
  induction (N.lt_wf_0 x) as [x _ IH]; intros s Hs. destruct (decide (0 < x)%N) as [Hx|Hx].
  - rewrite pretty_N_go_step by done. apply IH; [by apply N.div_lt|]. cbn [str_forall].
    by rewrite pretty_N_char_digit, Hs.
  - assert (x = 0%N) as -> by lia. done.
Qed.
Lemma Itoa_pos p : Itoa (Z.pos p) = pretty_N_go (N.pos p) "".
Proof. reflexivity. Qed.
Lemma Itoa_digits z : 0 <= z -> str_forall is_digit (Itoa z) = true.
Proof.
  intros Hz. destruct z as [|p|p]; [done| |lia]. rewrite Itoa_pos. by apply pretty_go_digits.
Qed.
Lemma pretty_go_length k : forall x s, (x < 10 ^ N.of_nat k)%N ->
  (String.length (pretty_N_go x s) <= k + String.length s)%nat.
Proof.
  induction k as [|k IH]; intros x s Hx.
  - change (10 ^ N.of_nat 0)%N with 1%N in Hx. assert (x = 0%N) as -> by lia. rewrite pretty_N_go_0. lia.
  - destruct (decide (0 < x)%N) as [Hp|Hp]; [|assert (x = 0%N) as -> by lia; rewrite pretty_N_go_0; lia].
    rewrite pretty_N_go_step by done. etrans; [apply IH|cbn; lia].
    apply N.Div0.div_lt_upper_bound. rewrite Nat2N.inj_succ, N.pow_succ_r' in Hx. done.
Qed.
Lemma Itoa_length z k : 0 <= z < 10 ^ Z.of_nat (S k) -> (String.length (Itoa z) <= S k)%nat.
Proof.
  intros Hz. destruct z as [|p|p]; [cbn; lia| |lia]. rewrite Itoa_pos.
  etrans; [apply (pretty_go_length (S k))|cbn; lia]. apply N2Z.inj_lt. rewrite N2Z.inj_pow, nat_N_Z. cbn -[Z.pow]. lia.
Qed.
Lemma Itoa_inj x y : Itoa x = Itoa y -> x = y.
Proof. apply (inj pretty). Qed.
Lemma Itoa_nonempty z : 0 <= z -> Itoa z <> "".
Proof.
  intros Hz H. destruct z as [|p|p]; [done| |lia]. rewrite Itoa_pos, pretty_N_go_step in H by lia.
  assert (forall x s, s <> "" -> pretty_N_go x s <> "") as Hgo; [|by eapply Hgo in H].
  intros x. induction (N.lt_wf_0 x) as [x _ IH]; intros s Hs. destruct (decide (0 < x)%N).
  - rewrite pretty_N_go_step by done. by apply IH; [apply N.div_lt|].
  - by assert (x = 0%N) as -> by lia.
Qed.

(** What follows the last dash of a string determines it. *)
Lemma dash_suffix_inj (a b s t : string) : str_forall is_digit s = true -> str_forall is_digit t = true ->
  a +:+ "-" +:+ s = b +:+ "-" +:+ t -> s = t.
Proof.
  revert b. induction a as [|c a IH]; intros [|d b] Hs Ht E.
  - by injection E.
  - exfalso. change (String "-" s = String d (b +:+ "-" +:+ t)) in E. injection E as _ ->.
    rewrite str_forall_app in Hs. apply andb_true_iff in Hs as [_ Hs]. discriminate Hs.
  - exfalso. change (String c (a +:+ "-" +:+ s) = String "-" t) in E. injection E as _ <-.
    rewrite str_forall_app in Ht. apply andb_true_iff in Ht as [_ Ht]. discriminate Ht.
  - apply (IH b Hs Ht). change (String c (a +:+ "-" +:+ s) = String d (b +:+ "-" +:+ t)) in E. by injection E.
Qed.
