(* ===== verification/Semantic.v ===== *)
(** * The semantic response cache ([src/internal/cache/semantic.go])

    Responses indexed by the embedding of their prompt.  A lookup scans the whole
    recency list for the most similar live entry of its scope; a store evicts from
    the tail.  The cache keeps the list as [LinkedList] models it ([sc_order]
    groups the fields [head], [tail] and [length]); [None] is the panic of a nil
    dereference, or running out of fuel.  The clock is an argument.  Embeddings
    are [float32], the similarity is computed in [float64]. *)

From Stdlib Require Import SpecFloat Ascii.
From S2P Require Import Prelude Text LinkedList.

(** ** Similarity *)

(** A [float32] is a binary32 number; converting it to [float64] is exact. *)
Definition float32 : Type := spec_float.
Definition f64_of_f32 (x : float32) : float64 :=
  match x with
  | S754_finite s m e => binary_normalize 53 1024 (if s then Z.neg m else Z.pos m) e s
  | _ => x
  end.
Definition f32_of_int (n : Z) : float32 := binary_normalize 24 128 n 0 false.

(** The loop over the components: [dot], [na], [nb]. *)
Fixpoint cos_loop (a b : list float32) (dot na nb : float64) : float64 * float64 * float64 :=
  match a, b with
  | x :: a, y :: b =>
      let x := f64_of_f32 x in
      let y := f64_of_f32 y in
      cos_loop a b (dot + x * y)%f64 (na + x * x)%f64 (nb + y * y)%f64
  | _, _ => (dot, na, nb)
  end.
Definition CosineSimilarity (a b : list float32) : float64 :=
  if (length a =? 0)%nat || negb (length a =? length b)%nat then f_zero
  else
    let '(dot, na, nb) := cos_loop a b f_zero f_zero f_zero in
    if feq na f_zero || feq nb f_zero then f_zero
    else (dot / (fsqrt na * fsqrt nb))%f64.

(** ** The cache *)

Record SemanticEntry := mkSem {
  se_Body : string; se_ContentType : string; se_Status : Z; se_CreatedAt : Time;
  se_Vector : list float32; se_Scope : string;
  se_Deployment : string; se_TrainsOnData : string; se_NoTraining : bool;
  se_Embedding : string; se_PromptSHA256 : string; se_SourceModel : string
}.
Record SemanticStats := mkSemStats { ss_Hits : Z; ss_Misses : Z; ss_Stores : Z; ss_Entries : Z; ss_BytesStored : Z }.
#[export] Instance eta_SemanticStats : Eta SemanticStats := fun r =>
  mkSemStats (ss_Hits r) (ss_Misses r) (ss_Stores r) (ss_Entries r) (ss_BytesStored r).

Definition maxSemanticEntriesCap : Z := 16384.
Definition maxVectorDim : Z := 8192.

Record SemanticCache := mkSemCache {
  sc_ttl : Duration;
  sc_threshold : float64;
  sc_maxEntries : Z;
  sc_maxBytes : Z;
  sc_entries : gmap string loc;
  sc_heap : heap SemanticEntry;
  sc_order : lruList;
  sc_bytes : Z;
  sc_stats : SemanticStats;
  sc_seq : Z
}.
#[export] Instance eta_SemanticCache : Eta SemanticCache := fun r =>
  mkSemCache (sc_ttl r) (sc_threshold r) (sc_maxEntries r) (sc_maxBytes r) (sc_entries r) (sc_heap r)
    (sc_order r) (sc_bytes r) (sc_stats r) (sc_seq r).

Definition NewSemantic (ttl : Duration) (threshold : float64) (maxEntries maxTotalBytes : Z) : SemanticCache :=
  let ttl := if ttl <=? 0 then 5 * Minute else ttl in
  let threshold := if fle threshold f_zero || fgt threshold (f_of_int 1)
                   then fdiv (f_of_int 95) (f_of_int 100) else threshold in
  let maxEntries := if maxEntries <=? 0 then 1024 else maxEntries in
  let maxEntries := if maxSemanticEntriesCap <? maxEntries then maxSemanticEntriesCap else maxEntries in
  let maxTotalBytes := if maxTotalBytes <=? 0 then Z.shiftl 64 20 else maxTotalBytes in
  let maxTotalBytes := if Z.shiftl 1 30 <? maxTotalBytes then Z.shiftl 1 30 else maxTotalBytes in
  mkSemCache ttl threshold maxEntries maxTotalBytes ∅ ∅ empty_list 0 (mkSemStats 0 0 0 0 0) 0.

Definition sem_len (e : SemanticEntry) : Z := Z.of_nat (String.length (se_Body e)).

(** *** The recency list *)

Definition set_list (c : SemanticCache) (hl : heap SemanticEntry * lruList) : SemanticCache :=
  c <| sc_heap := fst hl |> <| sc_order := snd hl |>.
Definition sem_pushFront (c : SemanticCache) (n : loc) : option SemanticCache :=
  set_list c <$> pushFront (sc_heap c) (sc_order c) n.
Definition sem_unlink (c : SemanticCache) (n : loc) : option SemanticCache :=
  set_list c <$> unlink (sc_heap c) (sc_order c) n.
Definition sem_moveToFront (c : SemanticCache) (n : loc) : option SemanticCache :=
  set_list c <$> moveToFront (sc_heap c) (sc_order c) n.

(** *** Lookup *)

(** The [continue] guards of the scan. *)
Definition sem_eligible (ttl : Duration) (scope : string) (requireNoTraining : bool) (now : Time) (e : SemanticEntry) : bool :=
  String.eqb (se_Scope e) scope && negb (ttl <? Sub now (se_CreatedAt e)) &&
  negb (requireNoTraining && (negb (se_NoTraining e) || negb (String.eqb (se_TrainsOnData e) "no"))).

(** The scan from [node] on, with [best] and [bestScore] so far. *)
Fixpoint scan (fuel : nat) (c : SemanticCache) (scope : string) (vector : list float32) (requireNoTraining : bool)
    (now : Time) (node : option loc) (best : option loc) (bestScore : float64) : option (option loc * float64) :=
  match node with
  | None => Some (best, bestScore)
  | Some p =>
      match fuel with
      | O => None
      | S fuel =>
          n ← sc_heap c !! p;
          if sem_eligible (sc_ttl c) scope requireNoTraining now (n_entry n) then
            let score := CosineSimilarity vector (se_Vector (n_entry n)) in
            if fge score (sc_threshold c) && fgt score bestScore
            then scan fuel c scope vector requireNoTraining now (n_next n) (Some p) score
            else scan fuel c scope vector requireNoTraining now (n_next n) best bestScore
          else scan fuel c scope vector requireNoTraining now (n_next n) best bestScore
      end
  end.

Definition sem_bad_vector (vector : list float32) : bool :=
  (length vector =? 0)%nat || (maxVectorDim <? Z.of_nat (length vector)).
Definition SemLookup (c : SemanticCache) (scope : string) (vector : list float32) (requireNoTraining : bool)
    (now : Time) : option (SemanticCache * option (SemanticEntry * float64)) :=
  if sem_bad_vector vector then Some (c, None)
  else
    '(best, bestScore) ← scan (Z.to_nat (l_len (sc_order c))) c scope vector requireNoTraining now
                           (l_head (sc_order c)) None f_zero;
    match best with
    | None => Some (c <| sc_stats ::= update ss_Misses (fun z => int64 (z + 1)) |>, None)
    | Some p =>
        c ← sem_moveToFront c p;
        n ← sc_heap c !! p;
        Some (c <| sc_stats ::= update ss_Hits (fun z => int64 (z + 1)) |>, Some (n_entry n, bestScore))
    end.

(** *** Store *)

Definition sem_removeNode (c : SemanticCache) (n : loc) : option SemanticCache :=
  node ← sc_heap c !! n;
  let c := match sc_entries c !! n_key node with
           | Some _ =>
               let bytes := int64 (sc_bytes c - sem_len (n_entry node)) in
               c <| sc_entries ::= delete (n_key node) |> <| sc_bytes := if bytes <? 0 then 0 else bytes |>
           | None => c
           end in
  sem_unlink c n.

Fixpoint sem_evict (fuel : nat) (c : SemanticCache) (size : Z) : option SemanticCache :=
  match l_tail (sc_order c) with
  | Some n =>
      if sc_maxBytes c <? int64 (sc_bytes c + size) then
        match fuel with
        | O => None
        | S fuel => c ← sem_removeNode c n; sem_evict fuel c size
        end
      else Some c
  | None => Some c
  end.
Definition sem_evict_count (c : SemanticCache) : option SemanticCache :=
  match l_tail (sc_order c) with
  | Some n => if sc_maxEntries c <=? l_len (sc_order c) then sem_removeNode c n else Some c
  | None => Some c
  end.

(** [fmt.Sprintf("%s\x00%d", scope, seq)] *)
Definition sem_key (scope : string) (seq : Z) : string := scope +:+ String zero (Itoa seq).
Definition sem_rejects (maxBytes : Z) (e : SemanticEntry) : bool :=
  (sem_len e =? 0) || sem_bad_vector (se_Vector e) || String.eqb (se_Scope e) "" || (maxBytes <? sem_len e).
Definition SemStore (c : SemanticCache) (e : SemanticEntry) : option SemanticCache :=
  if sem_rejects (sc_maxBytes c) e then Some c
  else
    c ← sem_evict (Z.to_nat (l_len (sc_order c))) c (sem_len e);
    c ← sem_evict_count c;
    let c := c <| sc_seq ::= fun z => uint64 (z + 1) |> in
    let key := sem_key (se_Scope e) (sc_seq c) in
    let n := fresh (dom (sc_heap c)) in
    let c := c <| sc_heap ::= insert n (mkNode key e None None) |> <| sc_entries ::= insert key n |> in
    c ← sem_pushFront c n;
    Some (c <| sc_bytes := int64 (sc_bytes c + sem_len e) |>
            <| sc_stats ::= update ss_Stores (fun z => int64 (z + 1)) |>).

Definition SemInvalidate (c : SemanticCache) : SemanticCache :=
  c <| sc_entries := ∅ |> <| sc_order := empty_list |> <| sc_bytes := 0 |>.
Definition SemStats (c : SemanticCache) : SemanticStats :=
  sc_stats c <| ss_Entries := l_len (sc_order c) |> <| ss_BytesStored := sc_bytes c |>.

(** ** Samples *)

Definition sample_sem (body scope : string) (v : list Z) (no_train : bool) (t : Time) : SemanticEntry :=
  mkSem body "application/json" 200 t (map f32_of_int v) scope "p1/a" "no" no_train "p2/embed" "" "m".
(** Of two entries above the threshold the nearer one is served. *)
Definition sem_trace : option (list (option string) * SemanticStats) :=
  (let c := NewSemantic Minute (f_of_int 0) 2 0 in
   c ← SemStore c (sample_sem "A" "s" [10; 1] true 10);
   c ← SemStore c (sample_sem "B" "s" [10; 2] false 11);
   '(c, r1) ← SemLookup c "s" (map f32_of_int [10; 2]) false 12;
   '(c, r2) ← SemLookup c "s" (map f32_of_int [10; 2]) true 12;
   '(c, r3) ← SemLookup c "t" (map f32_of_int [10; 2]) false 12;
   c ← SemStore c (sample_sem "CC" "s" [1; 0] false 13);
   '(c, r4) ← SemLookup c "s" (map f32_of_int [0; 1]) false 14;
   Some (map (option_map (fun r => se_Body r.1)) [r1; r2; r3; r4], SemStats c)).
Example semantic_trace : sem_trace = Some ([Some "B"; Some "A"; None; None], mkSemStats 2 2 3 2 3).
Proof. vm_compute. reflexivity. Qed.
