(* ===== verification/SemanticProofs.v ===== *)
(** * The semantic cache refines a list of entries

    The abstract cache is the list of entries, most recently used first: a lookup
    picks the most similar live entry of its scope and moves it to the front, a
    store keeps the most recent entries that fit.  The pointer structure, the key
    table and the byte count of [Semantic] implement it without a nil
    dereference; what a hit may be served from follows on the abstract side. *)

From Stdlib Require Import SpecFloat Ascii.
From S2P Require Import Prelude Text LinkedList Semantic.

Abbreviation item := (string * SemanticEntry)%type.
Abbreviation cell := (loc * item)%type.
Implicit Types (xs ys pre post : list cell) (a b : list SemanticEntry) (e : SemanticEntry) (c : SemanticCache).

(** ** The specification *)

(** A request: scope, vector, whether it requires no training, and the time. *)
Record query := mkQuery { q_scope : string; q_vector : list float32; q_noTraining : bool; q_now : Time }.
(** What a request may be served: an entry of its scope that has not expired; under
    a no-training requirement, one stored under it by a provider that declares it. *)
Definition may_serve (ttl : Duration) (q : query) e : Prop :=
  se_Scope e = q_scope q /\ Sub (q_now q) (se_CreatedAt e) <= ttl /\
  (q_noTraining q = true -> se_NoTraining e = true /\ se_TrainsOnData e = "no").
#[export] Instance may_serve_dec ttl q e : Decision (may_serve ttl q e).
Proof. unfold may_serve. apply _. Defined.
Definition eligible (ttl : Duration) (q : query) e : bool := bool_decide (may_serve ttl q e).
(** The vectors the cache compares, and the entries it keeps. *)
Definition usable (v : list float32) : Prop := 1 <= Z.of_nat (length v) <= 8192.
Definition keepable (maxBytes : Z) e : Prop :=
  1 <= sem_len e <= maxBytes /\ usable (se_Vector e) /\ se_Scope e <> "".
#[export] Instance usable_dec v : Decision (usable v).
Proof. unfold usable. apply _. Defined.
#[export] Instance keepable_dec maxBytes e : Decision (keepable maxBytes e).
Proof. unfold keepable. apply _. Defined.
Definition score (q : query) e : float64 := CosineSimilarity (q_vector q) (se_Vector e).

(** The index of the best entry of [a], counted from [i], and its score. *)
Fixpoint pick (ttl : Duration) (thr : float64) (q : query) (i : nat) a (best : option nat) (bs : float64) : option nat * float64 :=
  match a with
  | [] => (best, bs)
  | e :: a =>
      if eligible ttl q e && (fge (score q e) thr && fgt (score q e) bs)
      then pick ttl thr q (S i) a (Some i) (score q e)
      else pick ttl thr q (S i) a best bs
  end.
Definition total_len a : Z := foldr (fun e z => sem_len e + z) 0 a.
Fixpoint fit_len (room : Z) a : list SemanticEntry :=
  match a with
  | [] => []
  | e :: a => if sem_len e <=? room then e :: fit_len (room - sem_len e) a else []
  end.

Definition spec_lookup (ttl : Duration) (thr : float64) a (q : query) : list SemanticEntry * option (SemanticEntry * float64) :=
  if bool_decide (~ usable (q_vector q)) then (a, None)
  else match pick ttl thr q 0 a None f_zero with
       | (Some i, s) => match a !! i with Some e => (e :: delete i a, Some (e, s)) | None => (a, None) end
       | (None, _) => (a, None)
       end.
Definition spec_store (maxEntries maxBytes : Z) a e : list SemanticEntry :=
  if bool_decide (~ keepable maxBytes e) then a
  else e :: take (Z.to_nat (maxEntries - 1)) (fit_len (maxBytes - sem_len e) a).

(** ** The guards of the code *)

Lemma eligible_code ttl q e : sem_eligible ttl (q_scope q) (q_noTraining q) (q_now q) e = eligible ttl q e.
Proof.
  unfold eligible, may_serve, sem_eligible. apply eq_true_iff_eq. rewrite bool_decide_eq_true, !andb_true_iff, String.eqb_eq, negb_true_iff, Z.ltb_ge.
  rewrite negb_true_iff. destruct (q_noTraining q), (se_NoTraining e), (String.eqb_spec (se_TrainsOnData e) "no"); cbn; naive_solver.
Qed.
Lemma usable_code v : sem_bad_vector v = bool_decide (~ usable v).
Proof.
  unfold sem_bad_vector, usable, maxVectorDim. apply eq_true_iff_eq. rewrite bool_decide_eq_true, orb_true_iff, Nat.eqb_eq, Z.ltb_lt. lia.
Qed.
Lemma keepable_code maxBytes e : sem_rejects maxBytes e = bool_decide (~ keepable maxBytes e).
Proof.
  unfold sem_rejects, keepable. rewrite usable_code. apply eq_true_iff_eq.
  rewrite bool_decide_eq_true, !orb_true_iff, Z.eqb_eq, Z.ltb_lt, bool_decide_eq_true, String.eqb_eq.
  assert (0 <= sem_len e) by (unfold sem_len; lia).
  destruct (decide (usable (se_Vector e))), (decide (se_Scope e = "")), (decide (1 <= sem_len e <= maxBytes)); intuition lia.
Qed.

(** ** Sizes *)

Abbreviation total := (LinkedList.total sem_len).
Abbreviation fit := (LinkedList.fit sem_len).
Lemma sem_len_nonneg e : 0 <= sem_len e.
Proof. unfold sem_len. lia. Qed.
Lemma total_items (l : list item) : total l = total_len l.*2.
Proof. induction l as [|i l IH]; [done|]. rewrite total_cons, fmap_cons. cbn [total_len foldr]. unfold total_len in IH. lia. Qed.
Lemma fit_items (l : list item) : forall room, (fit room l).*2 = fit_len room l.*2.
Proof.
  induction l as [|i l IH]; intros room; [done|]. cbn [fit fmap list_fmap fit_len].
  destruct (sem_len i.2 <=? room); [|done]. cbn [fmap list_fmap]. by rewrite <- IH.
Qed.
Lemma total_len_nonneg a : 0 <= total_len a.
Proof. induction a as [|e a IH]; [done|]. cbn [total_len foldr]. pose proof (sem_len_nonneg e). unfold total_len in IH. lia. Qed.

(** ** Keys *)

Lemma digit_sep_inj s s' d d' : str_forall is_digit d = true -> str_forall is_digit d' = true ->
  s +:+ String zero d = s' +:+ String zero d' -> d = d'.
Proof.
  revert s'. induction s as [|x s IH]; intros [|x' s'] Hd Hd' He.
  - by injection He.
  - injection He as <- He. exfalso. rewrite He in Hd. clear -Hd.
    induction s' as [|y s' IH]; cbn in Hd; [done|]. apply andb_prop in Hd as [_ Hd]. by apply IH.
  - injection He as -> He. exfalso. rewrite <- He in Hd'. clear -Hd'.
    induction s as [|y s IH]; cbn in Hd'; [done|]. apply andb_prop in Hd' as [_ Hd']. by apply IH.
  - injection He as _ He. by apply (IH s').
Qed.
Lemma sem_key_inj s s' n n' : 0 <= n -> 0 <= n' -> sem_key s n = sem_key s' n' -> n = n'.
Proof. intros Hn Hn' He%digit_sep_inj; [by apply Itoa_inj|by apply Itoa_digits..]. Qed.

(** ** The representation invariant *)

(** The key was made from a sequence number up to [seq]. *)
Definition key_upto (seq : Z) (k : string) : Prop := exists scope n, k = sem_key scope n /\ 0 <= n <= seq.
Record sem_rep c xs : Prop := {
  sr_list : list_rep (sc_heap c) (sc_order c) xs;
  sr_keys : NoDup (xs.*2.*1);
  sr_seq : Forall (key_upto (sc_seq c)) (xs.*2.*1);
  sr_entries : table_rep (sc_entries c) xs;
  sr_bytes : sc_bytes c = total xs.*2;
  sr_maxBytes : total xs.*2 <= sc_maxBytes c <= 2 ^ 30;
  sr_maxEntries : Z.of_nat (length xs) <= sc_maxEntries c <= 16384 /\ 0 < sc_maxEntries c
}.
Definition same_conf c c' : Prop :=
  sc_ttl c' = sc_ttl c /\ sc_threshold c' = sc_threshold c /\ sc_maxEntries c' = sc_maxEntries c /\
  sc_maxBytes c' = sc_maxBytes c.
#[export] Instance same_conf_po : PreOrder same_conf.
Proof. split; [done|]. unfold same_conf. intros c1 c2 c3. intuition congruence. Qed.

Lemma rep_node c pre n k e post : sem_rep c (pre ++ (n, (k, e)) :: post) ->
  exists p q, sc_heap c !! n = Some (mkNode k e p q).
Proof.
  intros Hr. pose proof (lr_seg _ _ _ (sr_list _ _ Hr)) as Hs. rewrite dseg_app in Hs. cbn [dseg] in Hs.
  destruct Hs as (_ & Hn & _). eauto.
Qed.

Lemma sem_removeNode_spec c pre n k e post : sem_rep c (pre ++ (n, (k, e)) :: post) ->
  exists c', sem_removeNode c n = Some c' /\ sem_rep c' (pre ++ post) /\ same_conf c c' /\ sc_seq c' = sc_seq c.
Proof.
  intros Hr. destruct (rep_node _ _ _ _ _ _ Hr) as (p & q & Hn). destruct Hr as [Hl Hk Hq He Hb Hmb [Hme Hme0]].
  destruct (unlink_spec _ _ _ _ _ _ _ Hl) as (h' & l' & E & Hl' & _ & _).
  assert (sc_entries c !! k = Some n) as Hkn by (apply He; exists e; set_solver).
  rewrite !fmap_app, !fmap_cons in Hq. cbn [fst snd] in Hq.
  rewrite fmap_app, fmap_cons, total_app, total_cons in Hb, Hmb. cbn [snd] in Hb, Hmb.
  rewrite length_app in Hme. cbn [length] in Hme. apply Forall_app in Hq as [Hq1 [_ Hq2]%Forall_cons].
  pose proof (total_nonneg sem_len sem_len_nonneg pre.*2). pose proof (total_nonneg sem_len sem_len_nonneg post.*2).
  pose proof (sem_len_nonneg e).
  unfold sem_removeNode. rewrite Hn. cbn [mbind option_bind n_key n_entry]. rewrite Hkn.
  unfold sem_unlink. cbn [sc_heap sc_order update]. rewrite E. eexists. split; [done|]. split; [|done].
  assert (int64 (sc_bytes c - sem_len e) = total (pre.*2 ++ post.*2)) as Hb'.
  { rewrite total_app, Hb, int64_id; [lia|]. unfold in_int64. lia. }
  split; cbn [set_list fst snd sc_heap sc_order sc_entries sc_bytes sc_maxBytes sc_maxEntries sc_seq update].
  - done.
  - rewrite !fmap_app, !fmap_cons in Hk. rewrite !fmap_app. by apply NoDup_app_remove_mid in Hk.
  - rewrite !fmap_app. by apply Forall_app.
  - by apply (table_delete _ _ n _ e).
  - rewrite Hb', fmap_app. pose proof (total_nonneg sem_len sem_len_nonneg (pre.*2 ++ post.*2)).
    destruct (Z.ltb_spec (total (pre.*2 ++ post.*2)) 0); [lia|done].
  - rewrite fmap_app, total_app. lia.
  - rewrite length_app. lia.
Qed.

(** ** Lookup *)

Lemma scan_spec c (q : query) xs : forall p before fuel bi bs, dseg (sc_heap c) p xs None -> (length xs <= fuel)%nat ->
  scan fuel c (q_scope q) (q_vector q) (q_noTraining q) (q_now q) (first xs None) (bi ≫= fun j => (before ++ xs).*1 !! j) bs =
  let '(bj, s) := pick (sc_ttl c) (sc_threshold c) q (length before) xs.*2.*2 bi bs in
  Some (bj ≫= fun j => (before ++ xs).*1 !! j, s).
Proof.
  induction xs as [|[x [k e]] xs IH]; intros p before fuel bi bs Hs Hf; [by destruct fuel|].
  destruct fuel as [|fuel]; [cbn in Hf; lia|]. cbn [dseg] in Hs. destruct Hs as [Hx Hs].
  cbn [first scan fmap list_fmap fst snd pick]. rewrite Hx. cbn [mbind option_bind n_entry n_next].
  assert (before ++ (x, (k, e)) :: xs = (before ++ [(x, (k, e))]) ++ xs) as E by (by rewrite <- app_assoc).
  assert (length (before ++ [(x, (k, e))]) = S (length before)) as El by (rewrite length_app; cbn; lia).
  assert ((before ++ (x, (k, e)) :: xs).*1 !! length before = Some x) as Ex.
  { rewrite fmap_app, lookup_app_r by (rewrite length_fmap; lia). by rewrite length_fmap, Nat.sub_diag. }
  pose proof (fun bi bs => IH (Some x) (before ++ [(x, (k, e))]) fuel bi bs Hs ltac:(cbn in Hf; lia)) as IH'.
  rewrite El, <- E in IH'. rewrite eligible_code. unfold score.
  destruct (eligible _ _ e); cbn [andb]; [|apply IH'].
  destruct (fge _ _ && fgt _ bs); [|apply IH'].
  rewrite <- (IH' (Some (length before))). cbn [mbind option_bind]. by rewrite Ex.
Qed.

Lemma pick_bound ttl thr q a : forall i best bs, (forall j, best = Some j -> (j < i)%nat) ->
  forall j, (pick ttl thr q i a best bs).1 = Some j -> (j < i + length a)%nat.
Proof.
  induction a as [|e a IH]; intros i best bs Hb j; cbn [pick length].
  - intros Hj%Hb. lia.
  - destruct (_ && _); intros Hj; apply IH in Hj; try lia.
    + intros j' [= <-]. lia.
    + intros j' Hj'%Hb. lia.
Qed.

Lemma rep_perm c c' xs ys : xs ≡ₚ ys -> sem_rep c xs -> same_conf c c' -> list_rep (sc_heap c') (sc_order c') ys ->
  sc_entries c' = sc_entries c -> sc_bytes c' = sc_bytes c -> sc_seq c' = sc_seq c -> sem_rep c' ys.
Proof.
  intros Hp [_ Hk Hq He Hb Hmb Hme] (_ & _ & Ee & Eb) Hl En Ec Es.
  assert (total xs.*2 = total ys.*2) as Et.
  { clear -Hp. induction Hp as [|[]|[] []|]; cbn [fmap list_fmap]; rewrite ?total_cons; lia. }
  split; rewrite ?Ee, ?Eb, ?En, ?Ec, ?Es, <- ?Hp, <- ?Et; try done. by apply (table_perm _ xs).
Qed.

Lemma SemLookup_spec c xs q : sem_rep c xs ->
  exists c' r ys, SemLookup c (q_scope q) (q_vector q) (q_noTraining q) (q_now q) = Some (c', r) /\ sem_rep c' ys /\
    same_conf c c' /\ sc_seq c' = sc_seq c /\ spec_lookup (sc_ttl c) (sc_threshold c) xs.*2.*2 q = (ys.*2.*2, r).
Proof.
  intros Hr. unfold SemLookup, spec_lookup. rewrite usable_code. destruct (bool_decide (~ _)); [by exists c, None, xs|].
  pose proof (sr_list _ _ Hr) as Hl. rewrite (lr_head _ _ _ Hl), (lr_len _ _ _ Hl), Nat2Z.id.
  pose proof (scan_spec c q xs None [] (length xs) None f_zero (lr_seg _ _ _ Hl) ltac:(lia)) as Hscan.
  cbn [app mbind option_bind length] in Hscan. rewrite Hscan.
  pose proof (pick_bound (sc_ttl c) (sc_threshold c) q xs.*2.*2 0 None f_zero ltac:(done)) as Hb.
  destruct (pick _ _ _ _ _ _ _) as [[i|] s]; cbn [mbind option_bind fst] in *.
  2: { eexists _, None, xs. split; [done|]. split_and!; try done. by apply (rep_perm c _ xs). }
  specialize (Hb i eq_refl). rewrite !length_fmap in Hb. cbn [Nat.add] in Hb.
  destruct (lookup_lt_is_Some_2 xs i Hb) as [[n [k e]] Hi]. rewrite !list_lookup_fmap, Hi. cbn [fmap option_fmap option_map fst snd].
  apply list_elem_of_split_length in Hi as (pre & post & -> & ->).
  unfold sem_moveToFront. destruct (moveToFront_spec _ _ _ _ _ _ _ Hl) as (h' & l' & -> & Hl' & _).
  cbn [fmap option_fmap option_map mbind option_bind set_list fst snd sc_heap update].
  pose proof (lr_seg _ _ _ Hl') as [Hn _]. rewrite Hn. cbn [mbind option_bind n_entry].
  eexists _, _, ((n, (k, e)) :: pre ++ post). split; [done|]. split_and!; try done.
  - apply (rep_perm c _ (pre ++ (n, (k, e)) :: post)); try done. symmetry. apply Permutation_middle.
  - rewrite !fmap_app, !fmap_cons, !fmap_app. cbn [snd].
    replace (length pre) with (length pre.*2.*2) by (by rewrite !length_fmap). by rewrite delete_middle.
Qed.

(** ** Store *)

Lemma tail_spec c xs x i : sem_rep c (xs ++ [(x, i)]) ->
  l_tail (sc_order c) = Some x /\
  exists c', sem_removeNode c x = Some c' /\ sem_rep c' xs /\ same_conf c c' /\ sc_seq c' = sc_seq c.
Proof.
  intros Hr. destruct i as [k e]. rewrite (lr_tail _ _ _ (sr_list _ _ Hr)), final_snoc. split; [done|].
  destruct (sem_removeNode_spec _ _ _ _ _ _ Hr) as (c' & E & Hr' & Hc). rewrite app_nil_r in Hr'. by exists c'.
Qed.

Lemma sem_evict_spec size xs : forall c fuel, sem_rep c xs -> (length xs <= fuel)%nat -> 0 < size <= sc_maxBytes c ->
  exists c' ys, sem_evict fuel c size = Some c' /\ sem_rep c' ys /\ same_conf c c' /\ sc_seq c' = sc_seq c /\
    ys.*2 = fit (sc_maxBytes c - size) xs.*2.
Proof.
  induction xs as [|[x i] xs IH] using rev_ind; intros c fuel Hr Hf Hs.
  - exists c, []. split_and!; try done. pose proof (lr_tail _ _ _ (sr_list _ _ Hr)) as Hl. cbn in Hl.
    destruct fuel; cbn [sem_evict]; by rewrite Hl.
  - destruct fuel as [|fuel]; [rewrite length_app in Hf; cbn in Hf; lia|]. cbn [sem_evict].
    destruct (tail_spec _ _ _ _ Hr) as (-> & c1 & E1 & Hr1 & Hc1 & Hq1).
    pose proof (sr_maxBytes _ _ Hr) as Hmb. pose proof (total_nonneg sem_len sem_len_nonneg (xs ++ [(x, i)]).*2) as Hnn.
    rewrite (sr_bytes _ _ Hr), int64_id by (unfold in_int64; lia). rewrite fmap_app in *. cbn [fmap list_fmap snd] in *.
    destruct (Z.ltb_spec (sc_maxBytes c) (total (xs.*2 ++ [i]) + size)).
    + rewrite E1. cbn [mbind option_bind]. pose proof Hc1 as (_ & _ & _ & Hmb1).
      destruct (IH c1 fuel Hr1) as (c2 & ys & E2 & Hr2 & Hc2 & Hq2 & Hys).
      { rewrite length_app in Hf. cbn in Hf. lia. }
      { by rewrite Hmb1. }
      exists c2, ys. split_and!; [done|done|by transitivity c1|congruence|].
      rewrite Hys, Hmb1. symmetry. apply fit_snoc. lia.
    + exists c, (xs ++ [(x, i)]). split_and!; try done. rewrite fmap_app. symmetry.
      apply fit_all; [apply sem_len_nonneg|]. cbn. lia.
Qed.

Lemma sem_evict_count_spec c xs : sem_rep c xs ->
  exists c' ys, sem_evict_count c = Some c' /\ sem_rep c' ys /\ same_conf c c' /\ sc_seq c' = sc_seq c /\
    ys.*2 = take (Z.to_nat (sc_maxEntries c - 1)) xs.*2 /\ Z.of_nat (length ys) < sc_maxEntries c.
Proof.
  intros Hr. unfold sem_evict_count. rewrite (lr_len _ _ _ (sr_list _ _ Hr)). destruct (sr_maxEntries _ _ Hr) as [Hme Hme0].
  destruct xs as [|[x i] xs] using rev_ind; [|clear IHxs].
  - rewrite (lr_tail _ _ _ (sr_list _ _ Hr)). cbn [final]. exists c, []. cbn. rewrite take_nil. done.
  - destruct (tail_spec _ _ _ _ Hr) as (-> & c1 & E1 & Hr1 & Hc1 & Hq1).
    rewrite length_app in *. cbn [length] in *.
    destruct (Z.leb_spec (sc_maxEntries c) (Z.of_nat (length xs + 1))) as [Hle|Hlt].
    + exists c1, xs. split_and!; try done; [|lia]. rewrite fmap_app, take_app_le by (rewrite length_fmap; lia).
      rewrite take_ge; [done|]. rewrite length_fmap. lia.
    + exists c, (xs ++ [(x, i)]). split_and!; try done; [|rewrite length_app; cbn; lia].
      rewrite take_ge; [done|]. rewrite length_fmap, length_app. cbn. lia.
Qed.

Lemma key_upto_fresh c xs scope : sem_rep c xs -> 0 <= sc_seq c -> sem_key scope (sc_seq c + 1) ∉ xs.*2.*1.
Proof.
  intros Hr Hs Hin. pose proof (sr_seq _ _ Hr) as Hq. rewrite Forall_forall in Hq.
  destruct (Hq _ Hin) as (s' & n & He & Hn). apply sem_key_inj in He; lia.
Qed.

Lemma sem_insert_spec c xs e : sem_rep c xs -> 0 <= sc_seq c -> 0 < sem_len e ->
  total xs.*2 + sem_len e <= sc_maxBytes c -> Z.of_nat (length xs) < sc_maxEntries c ->
  let k := sem_key (se_Scope e) (sc_seq c + 1) in
  let n := fresh (dom (sc_heap c)) in
  exists h' l', pushFront (<[n := mkNode k e None None]> (sc_heap c)) (sc_order c) n = Some (h', l') /\
    forall st, sem_rep (mkSemCache (sc_ttl c) (sc_threshold c) (sc_maxEntries c) (sc_maxBytes c) (<[k := n]> (sc_entries c)) h' l'
                 (int64 (sc_bytes c + sem_len e)) st (sc_seq c + 1)) ((n, (k, e)) :: xs).
Proof.
  intros Hr Hq0 He Hroom Hlen k n. pose proof (key_upto_fresh _ _ (se_Scope e) Hr Hq0) as Hk. fold k in Hk.
  destruct Hr as [Hl Hkeys Hq Hent Hb Hmb [Hme Hme0]].
  destruct (list_rep_alloc _ _ _ (mkNode k e None None) Hl) as [Hn Hl1]. fold n in Hn, Hl1.
  pose proof (total_nonneg sem_len sem_len_nonneg xs.*2).
  destruct (pushFront_spec _ _ xs n k e None None Hl1) as (h' & l' & E & Hl' & _); [lia|apply lookup_insert_eq|done|].
  exists h', l'. split; [done|]. intros st.
  split; cbn [sc_heap sc_order sc_entries sc_bytes sc_maxBytes sc_maxEntries sc_seq].
  - done.
  - rewrite !fmap_cons. by apply NoDup_cons.
  - rewrite !fmap_cons. constructor; [exists (se_Scope e), (sc_seq c + 1); split; [done|lia]|].
    eapply Forall_impl; [exact Hq|]. intros k' (s' & m & ? & ?). exists s', m. split; [done|lia].
  - by apply table_insert.
  - rewrite fmap_cons, total_cons, Hb. cbn [snd]. rewrite int64_id by (unfold in_int64; lia). lia.
  - rewrite fmap_cons, total_cons. cbn [snd]. lia.
  - cbn [length]. lia.
Qed.

Lemma SemStore_spec c xs e : sem_rep c xs -> 0 <= sc_seq c -> sc_seq c + 1 < 2 ^ 64 ->
  exists c' ys, SemStore c e = Some c' /\ sem_rep c' ys /\ same_conf c c' /\
    sc_seq c <= sc_seq c' <= sc_seq c + 1 /\ spec_store (sc_maxEntries c) (sc_maxBytes c) xs.*2.*2 e = ys.*2.*2.
Proof.
  intros Hr Hq0 Hq. unfold SemStore, spec_store. rewrite <- keepable_code. destruct (sem_rejects (sc_maxBytes c) e) eqn:Hrej; [exists c, xs; split_and!; try done; lia|].
  assert (0 < sem_len e <= sc_maxBytes c) as Hpos.
  { unfold sem_rejects in Hrej. rewrite !orb_false_iff, Z.eqb_neq, Z.ltb_ge in Hrej. pose proof (sem_len_nonneg e). lia. }
  destruct (sem_evict_spec (sem_len e) xs c (Z.to_nat (l_len (sc_order c))) Hr) as (c2 & xs2 & -> & Hr2 & Hc2 & Hq2 & Hx2); [|lia|].
  { rewrite (lr_len _ _ _ (sr_list _ _ Hr)). lia. }
  cbn [mbind option_bind]. destruct (sem_evict_count_spec c2 xs2 Hr2) as (c3 & xs3 & -> & Hr3 & Hc3 & Hq3 & Hx3 & Hlen).
  cbn [mbind option_bind]. assert (same_conf c c3) as Hc by (by transitivity c2). pose proof Hc as (_ & _ & Eme & Emb).
  destruct Hc2 as (_ & _ & Eme2 & Emb2).
  assert (uint64 (sc_seq c3 + 1) = sc_seq c3 + 1) as Hseq by (unfold uint64; apply Z.mod_small; lia).
  cbn [sc_seq sc_heap sc_order update]. rewrite Hseq.
  assert (total xs3.*2 <= sc_maxBytes c - sem_len e) as Hroom.
  { rewrite Hx3, Hx2. etransitivity; [apply (total_take sem_len sem_len_nonneg)|]. apply fit_total. lia. }
  destruct (sem_insert_spec c3 xs3 e Hr3) as (h' & l' & E & Hr4); [lia..|].
  cbn zeta in E. unfold sem_pushFront. cbn [sc_heap sc_order update]. rewrite E. eexists _, _. split; [done|]. split; [apply Hr4|].
  split_and!; [done|cbn; lia|cbn; lia|]. rewrite !fmap_cons. cbn [snd]. f_equal.
  by rewrite Hx3, Hx2, fmap_take, fit_items, Eme2.
Qed.

(** ** Runs *)

Inductive sem_op :=
| SLookup (q : query)
| SStore (e : SemanticEntry)
| SInvalidate.
Abbreviation answer := (option (SemanticEntry * float64)).

Definition sem_step c (o : sem_op) : option (SemanticCache * answer) :=
  match o with
  | SLookup q => SemLookup c (q_scope q) (q_vector q) (q_noTraining q) (q_now q)
  | SStore e => c ← SemStore c e; Some (c, None)
  | SInvalidate => Some (SemInvalidate c, None)
  end.
Fixpoint sem_run c (os : list sem_op) : option (SemanticCache * list answer) :=
  match os with
  | [] => Some (c, [])
  | o :: os => '(c, r) ← sem_step c o; '(c, rs) ← sem_run c os; Some (c, r :: rs)
  end.
Definition spec_step c0 a (o : sem_op) : list SemanticEntry * answer :=
  match o with
  | SLookup q => spec_lookup (sc_ttl c0) (sc_threshold c0) a q
  | SStore e => (spec_store (sc_maxEntries c0) (sc_maxBytes c0) a e, None)
  | SInvalidate => ([], None)
  end.
Fixpoint spec_run c0 a (os : list sem_op) : list SemanticEntry * list answer :=
  match os with
  | [] => (a, [])
  | o :: os => let '(a, r) := spec_step c0 a o in let '(a, rs) := spec_run c0 a os in (a, r :: rs)
  end.

Lemma sem_rep_cleared c : 0 <= sc_maxBytes c <= 2 ^ 30 -> 0 < sc_maxEntries c <= 16384 ->
  sc_entries c = ∅ -> sc_order c = empty_list -> sc_bytes c = 0 -> sem_rep c [].
Proof.
  intros Hb He En Eo Eb. split; rewrite ?En, ?Eo, ?Eb; try done.
  - apply list_rep_empty.
  - apply NoDup_nil_2.
  - intros k x. rewrite lookup_empty. split; [done|]. intros (e & Hin). by apply not_elem_of_nil in Hin.
  - cbn. lia.
Qed.
Lemma NewSemantic_rep ttl thr maxEntries maxBytes : sem_rep (NewSemantic ttl thr maxEntries maxBytes) [].
Proof.
  apply sem_rep_cleared; unfold NewSemantic; cbn [sc_maxBytes sc_maxEntries sc_entries sc_order sc_bytes]; try done.
  - change (Z.shiftl 64 20) with 67108864. change (Z.shiftl 1 30) with 1073741824.
    destruct (Z.leb_spec maxBytes 0); [done|]. destruct (Z.ltb_spec 1073741824 maxBytes); lia.
  - unfold maxSemanticEntriesCap. destruct (Z.leb_spec maxEntries 0); [done|]. destruct (Z.ltb_spec 16384 maxEntries); lia.
Qed.

Lemma sem_step_spec c0 c xs o : sem_rep c xs -> same_conf c0 c -> 0 <= sc_seq c -> sc_seq c + 1 < 2 ^ 64 ->
  exists c' r ys, sem_step c o = Some (c', r) /\ sem_rep c' ys /\ same_conf c0 c' /\ sc_seq c <= sc_seq c' <= sc_seq c + 1 /\
    spec_step c0 xs.*2.*2 o = (ys.*2.*2, r).
Proof.
  intros Hr Hc Hq0 Hq. pose proof Hc as (Et & Eth & Ee & Eb). destruct o as [q|e|]; cbn [sem_step spec_step].
  - destruct (SemLookup_spec c xs q Hr) as (c' & r & ys & ? & ? & ? & ? & E). rewrite Et, Eth in E.
    exists c', r, ys. split_and!; try done; [by transitivity c|lia..].
  - destruct (SemStore_spec c xs e Hr Hq0 Hq) as (c' & ys & -> & ? & ? & ? & E). rewrite Ee, Eb in E. rewrite E.
    exists c', None, ys. split_and!; try done; [by transitivity c|lia..].
  - exists (SemInvalidate c), None, []. pose proof (sr_maxBytes _ _ Hr). pose proof (sr_maxEntries _ _ Hr).
    pose proof (total_nonneg sem_len sem_len_nonneg xs.*2). split_and!; try done; [|cbn; lia..].
    apply sem_rep_cleared; cbn [SemInvalidate sc_maxBytes sc_maxEntries update]; try done; lia.
Qed.

Lemma sem_run_spec c0 os : forall c xs, sem_rep c xs -> same_conf c0 c -> 0 <= sc_seq c ->
  sc_seq c + Z.of_nat (length os) < 2 ^ 64 ->
  exists c' rs ys, sem_run c os = Some (c', rs) /\ sem_rep c' ys /\ same_conf c0 c' /\
    spec_run c0 xs.*2.*2 os = (ys.*2.*2, rs).
Proof.
  induction os as [|o os IH]; intros c xs Hr Hc Hq0 Hq; cbn [sem_run spec_run length] in *; [by exists c, [], xs|].
  destruct (sem_step_spec c0 c xs o Hr Hc) as (c1 & r & ys & -> & Hr1 & Hc1 & Hq1 & ->); [lia..|]. cbn [mbind option_bind].
  destruct (IH c1 ys Hr1 Hc1) as (c2 & rs & zs & -> & Hr2 & Hc2 & ->); [lia..|]. by exists c2, (r :: rs), zs.
Qed.

(** The semantic cache refines a list of entries.  From a new cache of any
    configuration, any sequence of fewer than 2^64 operations runs without a nil
    dereference and with a terminating scan and eviction loop, and answers what the
    abstract cache answers; at the end the byte count is the sum of the cached
    bodies, and the list length and the byte count are within bounds that no
    configuration can lift. *)
Theorem semantic_cache_refines (ttl : Duration) (thr : float64) (maxEntries maxBytes : Z) (os : list sem_op) :
  Z.of_nat (length os) < 2 ^ 64 ->
  let c0 := NewSemantic ttl thr maxEntries maxBytes in
  let '(a, rs) := spec_run c0 [] os in
  exists c, sem_run c0 os = Some (c, rs) /\
    ss_BytesStored (SemStats c) = total_len a /\ total_len a <= sc_maxBytes c0 <= 2 ^ 30 /\
    ss_Entries (SemStats c) = Z.of_nat (length a) /\ Z.of_nat (length a) <= sc_maxEntries c0 <= 16384.
Proof.
  intros Hlen c0. destruct (sem_run_spec c0 os c0 [] (NewSemantic_rep _ _ _ _)) as (c & rs & ys & E & Hr & Hc & El); [done|done|done|].
  cbn [fmap list_fmap] in El. rewrite El. exists c. split; [done|]. destruct Hc as (_ & _ & Ee & Eb).
  pose proof (sr_maxBytes _ _ Hr) as Hb. destruct (sr_maxEntries _ _ Hr) as [He _]. rewrite Ee in He. rewrite Eb in Hb.
  rewrite total_items in Hb. pose proof (sr_bytes _ _ Hr) as Hbytes. rewrite total_items in Hbytes.
  cbn [SemStats ss_BytesStored ss_Entries update]. rewrite (lr_len _ _ _ (sr_list _ _ Hr)), !length_fmap. split_and!; try done; lia.
Qed.

(** ** The best match *)

Lemma flt_fle_trans x y z : flt x y = true -> fle y z = true -> flt x z = true.
Proof.
  intros H1 H2. destruct (flt_nan _ _ H1) as [Hx Hy], (fle_nan _ _ H2) as [_ Hz].
  rewrite flt_spec in * by done. rewrite fle_spec in H2 by done.
  destruct (frank x) as [[??]?], (frank y) as [[??]?], (frank z) as [[??]?]. cbn in *. lia.
Qed.
Lemma fle_flt_trans x y z : fle x y = true -> flt y z = true -> flt x z = true.
Proof.
  intros H1 H2. destruct (fle_nan _ _ H1) as [Hx Hy], (flt_nan _ _ H2) as [_ Hz].
  rewrite flt_spec in * by done. rewrite fle_spec in H1 by done.
  destruct (frank x) as [[??]?], (frank y) as [[??]?], (frank z) as [[??]?]. cbn in *. lia.
Qed.
Lemma flt_fle x y : flt x y = true -> fle x y = true.
Proof.
  intros H. destruct (flt_nan _ _ H) as [Hx Hy]. rewrite flt_spec in H by done. rewrite fle_spec by done.
  destruct (frank x) as [[??]?], (frank y) as [[??]?]. cbn in *. lia.
Qed.
Lemma flt_false_fle x y : IsNaN x = false -> IsNaN y = false -> flt x y = false -> fle y x = true.
Proof. intros Hx Hy H. apply not_true_iff_false in H. rewrite flt_spec in H by done. by rewrite fle_spec. Qed.

(** An eligible entry at or above the threshold. *)
Definition candidate (ttl : Duration) (thr : float64) (q : query) e : bool := eligible ttl q e && fge (score q e) thr.
Lemma candidate_score ttl thr q e : candidate ttl thr q e = true -> IsNaN (score q e) = false.
Proof. unfold candidate. intros [_ H]%andb_prop. by destruct (fle_nan _ _ H). Qed.

(** The entry at index [k] beats the ones before it and is at least as good as the rest. *)
Definition best_at ttl thr q a (k : nat) e : Prop :=
  a !! k = Some e /\ candidate ttl thr q e = true /\
  (forall e', e' ∈ a -> candidate ttl thr q e' = true -> fle (score q e') (score q e) = true) /\
  (forall e', e' ∈ take k a -> candidate ttl thr q e' = true -> flt (score q e') (score q e) = true).

Lemma pick_spec ttl thr q a : forall i best bs, IsNaN bs = false ->
  (pick ttl thr q i a best bs = (best, bs) /\ forall e, e ∈ a -> candidate ttl thr q e = true -> fle (score q e) bs = true) \/
  (exists k e, pick ttl thr q i a best bs = (Some (i + k)%nat, score q e) /\ flt bs (score q e) = true /\ best_at ttl thr q a k e).
Proof.
  induction a as [|e a IH]; intros i best bs Hbs; cbn [pick].
  { left. split; [done|]. intros e He. by apply not_elem_of_nil in He. }
  rewrite andb_assoc. fold (candidate ttl thr q e). destruct (candidate ttl thr q e && fgt (score q e) bs) eqn:Hc.
  - apply andb_prop in Hc as [Hc Hgt]. pose proof (candidate_score _ _ _ _ Hc) as Hn. right.
    destruct (IH (S i) (Some i) (score q e) Hn) as [[-> Hall]|(k & e' & -> & Hlt & Hk & Hck & Hall & Hpre)].
    + exists 0%nat, e. rewrite Nat.add_0_r. unfold best_at. split_and!; try done.
      * intros e' [->|He']%elem_of_cons Hc'; [|by apply Hall]. apply flt_false_fle; [done..|]. apply flt_irrefl.
      * intros e' He'. by apply not_elem_of_nil in He'.
    + exists (S k), e'. rewrite Nat.add_succ_r. unfold best_at. split_and!; try done.
      * by apply (flt_fle_trans _ (score q e)); [|apply flt_fle].
      * intros e'' [->|He'']%elem_of_cons Hc'; [by apply flt_fle|by apply Hall].
      * cbn [take]. intros e'' [->|He'']%elem_of_cons Hc'; [done|by apply Hpre].
  - assert (candidate ttl thr q e = true -> fle (score q e) bs = true) as Hle.
    { intros Hc'. rewrite Hc' in Hc. apply flt_false_fle; [done|by apply (candidate_score ttl thr)|done]. }
    destruct (IH (S i) best bs Hbs) as [[-> Hall]|(k & e' & -> & Hlt & Hk & Hck & Hall & Hpre)]; [left|right].
    + split; [done|]. intros e' [->|He']%elem_of_cons Hc'; [by apply Hle|by apply Hall].
    + exists (S k), e'. rewrite Nat.add_succ_r. unfold best_at. split_and!; try done.
      * intros e'' [->|He'']%elem_of_cons Hc'; [|by apply Hall]. apply flt_fle, (fle_flt_trans _ bs); [by apply Hle|done].
      * cbn [take]. intros e'' [->|He'']%elem_of_cons Hc'; [|by apply Hpre]. apply (fle_flt_trans _ bs); [by apply Hle|done].
Qed.

Lemma spec_lookup_some ttl thr a q b e s : spec_lookup ttl thr a q = (b, Some (e, s)) ->
  s = score q e /\ flt f_zero s = true /\ exists k, best_at ttl thr q a k e.
Proof.
  unfold spec_lookup. destruct (bool_decide (~ _)); [done|].
  destruct (pick_spec ttl thr q a 0 None f_zero eq_refl) as [[-> _]|(k & e' & -> & Hlt & Hb)]; [done|].
  cbn [Nat.add]. rewrite (proj1 Hb). intros [= _ <- <-]. eauto.
Qed.
Lemma spec_lookup_none ttl thr a q b : spec_lookup ttl thr a q = (b, None) ->
  ~ usable (q_vector q) \/ forall e, e ∈ a -> may_serve ttl q e -> fle thr (score q e) = true -> flt f_zero (score q e) = false.
Proof.
  unfold spec_lookup. intros H. case_bool_decide as Hv; [by left|right].
  destruct (pick_spec ttl thr q a 0 None f_zero eq_refl) as [[Hp Hall]|(k & e' & Hp & Hlt & Hb)]; rewrite Hp in H.
  - intros e He Hs Hthr. assert (candidate ttl thr q e = true) as Hc.
    { unfold candidate, eligible. by rewrite bool_decide_true. }
    pose proof (Hall e He Hc) as Hle. apply not_true_iff_false. intros Hgt.
    pose proof (fle_flt_trans _ _ _ Hle Hgt) as Hf. by rewrite flt_irrefl in Hf.
  - cbn [Nat.add] in H. by rewrite (proj1 Hb) in H.
Qed.

(** *** Where an entry comes from *)

Lemma fit_len_sublist room a : fit_len room a `sublist_of` a.
Proof.
  revert room. induction a as [|e a IH]; intros room; cbn [fit_len]; [constructor|].
  destruct (_ <=? room); [by constructor|apply sublist_nil_l].
Qed.
Lemma spec_step_origin c0 a o e : e ∈ (spec_step c0 a o).1 -> o = SStore e \/ (e ∈ a /\ o <> SInvalidate).
Proof.
  destruct o as [q|e'|]; cbn [spec_step fst]; [|unfold spec_store|intros Hin; by apply not_elem_of_nil in Hin].
  - intros Hin. right. split; [|done]. unfold spec_lookup in Hin. destruct (bool_decide (~ _)); [done|].
    destruct (pick _ _ _ _ _ _ _) as [[i|] s]; [|done]. destruct (a !! i) as [e'|] eqn:Hi; [|done].
    cbn [fst] in Hin. apply elem_of_cons in Hin as [->|Hin]; [by apply list_elem_of_lookup_2 in Hi|].
    eapply elem_of_sublist; [exact Hin|apply sublist_delete].
  - destruct (bool_decide (~ _)); [by right|]. intros [->|Hin]%elem_of_cons; [by left|right]. split; [|done].
    eapply elem_of_sublist; [|apply (fit_len_sublist (sc_maxBytes c0 - sem_len e'))]. eapply elem_of_sublist; [exact Hin|apply sublist_take].
Qed.
Lemma spec_run_snoc c0 os o : forall a,
  spec_run c0 a (os ++ [o]) =
  let '(b, rs) := spec_run c0 a os in let '(b, r) := spec_step c0 b o in (b, rs ++ [r]).
Proof.
  induction os as [|o' os IH]; intros a; cbn [app spec_run].
  - by destruct (spec_step c0 a o).
  - destruct (spec_step c0 a o') as [b r]. rewrite IH. destruct (spec_run c0 b os) as [b' rs]. by destruct (spec_step c0 b' o).
Qed.
Lemma spec_run_origin c0 os e : e ∈ (spec_run c0 [] os).1 ->
  exists os1 os2, os = os1 ++ SStore e :: os2 /\ SInvalidate ∉ os2.
Proof.
  induction os as [|o os IH] using rev_ind; [intros Hin; by apply not_elem_of_nil in Hin|].
  rewrite spec_run_snoc. destruct (spec_run c0 [] os) as [b rs]. cbn [fst] in IH.
  pose proof (spec_step_origin c0 b o e) as Ho. destruct (spec_step c0 b o) as [b' r]. cbn [fst] in *.
  intros [->|[Hin Hk]]%Ho; [exists os, []; split; [done|by apply not_elem_of_nil]|].
  destruct (IH Hin) as (os1 & os2 & -> & Hf).
  exists os1, (os2 ++ [o]). split; [by rewrite <- app_assoc|]. set_solver.
Qed.

(** What a lookup may answer. *)
Definition lookup_answer c0 (os : list sem_op) (q : query) (r : answer) : Prop :=
  let a := (spec_run c0 [] os).1 in
  match r with
  | Some (e, s) =>
      s = score q e /\ fle (sc_threshold c0) s = true /\
      may_serve (sc_ttl c0) q e /\
      (exists os1 os2, os = os1 ++ SStore e :: os2 /\ SInvalidate ∉ os2) /\
      exists k, best_at (sc_ttl c0) (sc_threshold c0) q a k e
  | None => ~ usable (q_vector q) \/
      forall e, e ∈ a -> may_serve (sc_ttl c0) q e -> fle (sc_threshold c0) (score q e) = true -> flt f_zero (score q e) = false
  end.

(** (C14) A lookup is exact.  After any history of fewer than 2^64 operations a lookup
    returns, and a hit is an entry of the request's own scope that was stored and
    not invalidated since, is no older than the time to live, was stored under
    no-training by a provider that declares it if (and only if) the request
    requires that, reaches the threshold, and is the most similar such entry, the
    most recently used one on a tie; a miss means that the vector is empty or
    longer than 8192, or that no cached entry of that description has a score that
    is positive and reaches the threshold. *)
Theorem semantic_lookup_exact (ttl : Duration) (thr : float64) (maxEntries maxBytes : Z) (os : list sem_op)
    (q : query) c (rs : list answer) :
  let c0 := NewSemantic ttl thr maxEntries maxBytes in
  Z.of_nat (length os) < 2 ^ 64 -> sem_run c0 os = Some (c, rs) ->
  exists c' r, SemLookup c (q_scope q) (q_vector q) (q_noTraining q) (q_now q) = Some (c', r) /\ lookup_answer c0 os q r.
Proof.
  intros c0 Hlen Hrun. destruct (sem_run_spec c0 os c0 [] (NewSemantic_rep _ _ _ _)) as (d & rs' & ys & E & Hr & Hc & El); [done..|].
  rewrite Hrun in E. injection E as <- <-. destruct (SemLookup_spec c ys q Hr) as (c' & r & zs & E' & _ & _ & _ & Es).
  exists c', r. split; [done|]. pose proof Hc as (Et & Eth & _). rewrite Et, Eth in Es.
  unfold lookup_answer. cbn [fmap list_fmap] in El. pose proof (spec_run_origin c0 os) as Ho. rewrite El in *. cbn [fst] in *.
  destruct r as [[e s]|]; [|by apply spec_lookup_none in Es].
  destruct (spec_lookup_some _ _ _ _ _ _ _ Es) as (-> & _ & k & Hb). destruct Hb as (Hk & Hcand & Hb).
  pose proof (andb_prop _ _ Hcand) as [Hel Hge]. apply bool_decide_eq_true in Hel.
  split_and!; try done.
  - apply Ho. by apply list_elem_of_lookup_2 in Hk.
  - exists k. by split.
Qed.

Definition sem_sample_ops : list sem_op :=
  [SStore (sample_sem "A" "s" [10; 1] true 10); SStore (sample_sem "B" "s" [10; 2] false 11)].
Definition sem_sample_query : query := mkQuery "s" (map f32_of_int [10; 2]) true 12.
Lemma semantic_lookup_exact_witness :
  exists c rs, sem_run (NewSemantic Minute f_zero 2 0) sem_sample_ops = Some (c, rs) /\
  exists c' r, SemLookup c "s" (map f32_of_int [10; 2]) true 12 = Some (c', r) /\
    lookup_answer (NewSemantic Minute f_zero 2 0) sem_sample_ops sem_sample_query r.
Proof.
  destruct (sem_run (NewSemantic Minute f_zero 2 0) sem_sample_ops) as [[c rs]|] eqn:E; [|vm_compute in E; discriminate E].
  exists c, rs. split; [reflexivity|].
  exact (semantic_lookup_exact Minute f_zero 2 0 sem_sample_ops sem_sample_query c rs ltac:(cbn; lia) E).
Defined.
Lemma semantic_cache_refines_witness :
  let c0 := NewSemantic Minute f_zero 2 0 in
  let '(a, rs) := spec_run c0 [] sem_sample_ops in
  exists c, sem_run c0 sem_sample_ops = Some (c, rs) /\
    ss_BytesStored (SemStats c) = total_len a /\ total_len a <= sc_maxBytes c0 <= 2 ^ 30 /\
    ss_Entries (SemStats c) = Z.of_nat (length a) /\ Z.of_nat (length a) <= sc_maxEntries c0 <= 16384.
Proof. exact (semantic_cache_refines Minute f_zero 2 0 sem_sample_ops ltac:(cbn; lia)). Defined.
