(* ===== verification/NameMap.v ===== *)
(** * Tool name mapping ([src/internal/translate/namemap.go])

    Client tool names that an upstream protocol would refuse are renamed on the
    way out and restored on the way back.  The Go loop that looks for a free
    name has no bound; here it has fuel, two more than the number of names in
    use, and running out is [None]: [names_total] shows it never does. *)

From Stdlib Require Import Ascii.
From S2P Require Import Prelude Hash Text.

Record NameMap := mkNameMap { fwd : gmap string string; rev : gmap string string }.

Definition safe_code (n : Z) : bool :=
  ((97 <=? n) && (n <=? 122)) || ((65 <=? n) && (n <=? 90)) || ((48 <=? n) && (n <=? 57)) || (n =? 95) || (n =? 45).
Definition safe_char (c : ascii) : bool := safe_code (byte_of c).
Definition isSafeToolName (name : string) : bool := str_forall safe_char name && negb (String.eqb name "").

(** With an empty suffix a long name is cut and marked with a hash; otherwise
    room is made for the suffix. *)
Definition truncateWithSuffix (s : string) (maxLen : Z) (suffix : string) : string :=
  if maxLen <=? 0 then s
  else if String.eqb suffix "" then
    if Z.of_nat (String.length s) <=? maxLen then s
    else
      let h := fnv64a_write fnv_offset64 (bytes s) in
      let tail := "-" +:+ FormatHex (Z.land h 4294967295) in
      let keep := maxLen - Z.of_nat (String.length tail) in
      if keep <? 1 then str_take (Z.to_nat maxLen) s
      else str_take (Z.to_nat keep) s +:+ tail
  else
    let s := if maxLen <? Z.of_nat (String.length s + String.length suffix)
             then str_take (Z.to_nat (maxLen - Z.of_nat (String.length suffix))) s else s in
    s +:+ suffix.

Definition sanitizeToolName (name : string) (maxLen : Z) : string :=
  let out := string_of_bytes (map (fun r => if safe_code r then r else 95) (runes (bytes name))) in
  truncateWithSuffix (if String.eqb out "" then "tool" else out) maxLen "".

(** [for i := 2; ; i++]. *)
Fixpoint dedupe (fuel : nat) (used : gset string) (base sanitized : string) (maxLen i : Z) : option string :=
  match fuel with
  | O => None
  | S fuel =>
      if bool_decide (sanitized ∈ used)
      then dedupe fuel used base (truncateWithSuffix base maxLen ("-" +:+ Itoa i)) maxLen (i + 1)
      else Some sanitized
  end.

(** One iteration over the names; the accumulator is the maps and [used]. *)
Definition add_name (maxLen : Z) (acc : NameMap * gset string) (original : string) : option (NameMap * gset string) :=
  let '(m, used) := acc in
  let original := TrimSpace original in
  if String.eqb original "" then Some acc
  else if (Z.of_nat (String.length original) <=? maxLen) && isSafeToolName original
  then Some (m, {[original]} ∪ used)
  else
    let base := sanitizeToolName original maxLen in
    match dedupe (S (S (size used))) used base base maxLen 2 with
    | None => None
    | Some sanitized =>
        let used := {[sanitized]} ∪ used in
        if String.eqb sanitized original then Some (m, used)
        else Some (mkNameMap (<[original := sanitized]> (fwd m)) (<[sanitized := original]> (rev m)), used)
    end.
Definition add_names (maxLen : Z) (acc : NameMap * gset string) (names : list string) : option (NameMap * gset string) :=
  fold_left (fun acc n => match acc with Some acc => add_name maxLen acc n | None => None end) names (Some acc).
(** The outer [None] is a loop that does not end, the inner one the nil map. *)
Definition newNameMap (names : list string) (maxLen : Z) : option (option NameMap) :=
  match add_names maxLen (mkNameMap ∅ ∅, ∅) names with
  | None => None
  | Some (m, _) => Some (if (size (fwd m) =? 0)%nat then None else Some m)
  end.
Definition NewOpenAINameMap (names : list string) : option (option NameMap) := newNameMap names 64.
Definition NewAnthropicNameMap (names : list string) : option (option NameMap) := newNameMap names 128.

Definition Forward (m : option NameMap) (name : string) : string :=
  match m with None => name | Some m => default name (fwd m !! name) end.
Definition Reverse (m : option NameMap) (name : string) : string :=
  match m with None => name | Some m => default name (rev m !! name) end.

(** ** Samples *)

Example dotted_name :
  match NewOpenAINameMap ["fs.read"; "fs:read"; "ok"] with
  | Some m => Forward m <$> ["fs.read"; "fs:read"; "ok"]
  | None => []
  end = ["fs_read"; "fs_read-2"; "ok"].
Proof. vm_compute. reflexivity. Qed.

(** ** The search for a free name ends *)

Definition suffixed (base : string) (maxLen i : Z) : string := truncateWithSuffix base maxLen ("-" +:+ Itoa i).

Lemma suffixed_shape base maxLen i : 0 < maxLen ->
  exists p, suffixed base maxLen i = p +:+ "-" +:+ Itoa i /\ (p = base \/ exists n, p = str_take n base).
Proof.
  intros Hm. unfold suffixed, truncateWithSuffix. destruct (Z.leb_spec maxLen 0); [lia|].
  change (String.eqb ("-" +:+ Itoa i) "") with false. cbv iota zeta.
  destruct (maxLen <? _); eexists; (split; [reflexivity|]); [right; by eexists|by left].
Qed.
Lemma suffixed_inj base maxLen i j : 0 < maxLen -> 0 <= i -> 0 <= j ->
  suffixed base maxLen i = suffixed base maxLen j -> i = j.
Proof.
  intros Hm Hi Hj. destruct (suffixed_shape base maxLen i Hm) as (p & -> & _).
  destruct (suffixed_shape base maxLen j Hm) as (q & -> & _). intros E. apply Itoa_inj.
  by apply (dash_suffix_inj p q); [apply Itoa_digits|apply Itoa_digits|].
Qed.

Lemma dedupe_none n : forall used base cur maxLen i, dedupe (S n) used base cur maxLen i = None ->
  forall j, (j < n)%nat -> suffixed base maxLen (i + Z.of_nat j) ∈ used.
Proof.
  induction n as [|n IH]; intros used base cur maxLen i H j Hj; [lia|].
  remember (S n) as n' eqn:E. cbn [dedupe] in H. case_bool_decide; [|done]. subst n'.
  destruct j as [|j].
  - rewrite Z.add_0_r. cbn [dedupe] in H. by case_bool_decide.
  - replace (i + Z.of_nat (S j)) with (i + 1 + Z.of_nat j) by lia.
    apply (IH used base (suffixed base maxLen i) maxLen (i + 1)); [exact H|lia].
Qed.

Lemma dedupe_terminates used base cur maxLen : 0 < maxLen ->
  exists s, dedupe (S (S (size used))) used base cur maxLen 2 = Some s.
Proof.
  intros Hm. destruct (dedupe _ _ _ _ _ _) as [s|] eqn:E; [by exists s|exfalso].
  pose proof (dedupe_none (S (size used)) used base cur maxLen 2 E) as Hall.
  set (l := (fun j => suffixed base maxLen (2 + Z.of_nat j)) <$> seq 0 (S (size used))).
  assert (NoDup l) as Hnd.
  { apply NoDup_fmap_2_strong; [|apply NoDup_seq]. intros x y _ _ Hxy. apply suffixed_inj in Hxy; lia. }
  assert (list_to_set l ⊆ used) as Hsub.
  { intros x. rewrite elem_of_list_to_set. intros (j & -> & Hj)%list_elem_of_fmap.
    apply Hall. apply elem_of_seq in Hj. lia. }
  apply subseteq_size in Hsub. rewrite size_list_to_set in Hsub by done.
  unfold l in Hsub. rewrite length_fmap, length_seq in Hsub. lia.
Qed.

Lemma dedupe_some n : forall used base cur maxLen i s, dedupe n used base cur maxLen i = Some s ->
  s ∉ used /\ (s = cur \/ exists j, i <= j < i + Z.of_nat n /\ s = suffixed base maxLen j).
Proof.
  induction n as [|n IH]; intros used base cur maxLen i s; cbn [dedupe]; [done|].
  case_bool_decide as Hu.
  - intros H. destruct (IH _ _ _ _ _ _ H) as [Hn [->|(j & Hj & ->)]]; (split; [done|right]).
    + exists i. split; [lia|done].
    + exists j. split; [lia|done].
  - intros [= ->]. split; [done|by left].
Qed.

Lemma add_name_total maxLen acc n : 0 < maxLen -> exists acc', add_name maxLen acc n = Some acc'.
Proof.
  intros Hm. unfold add_name. destruct acc as [m used]. destruct (String.eqb _ ""); [by eexists|].
  destruct (_ && _); [by eexists|].
  destruct (dedupe_terminates used (sanitizeToolName (TrimSpace n) maxLen) (sanitizeToolName (TrimSpace n) maxLen) maxLen Hm) as [s ->].
  destruct (String.eqb _ _); by eexists.
Qed.

Lemma add_names_total maxLen names : 0 < maxLen -> forall acc, exists acc', add_names maxLen acc names = Some acc'.
Proof.
  intros Hm. unfold add_names. induction names as [|n names IH]; intros acc; cbn [fold_left]; [by eexists|].
  destruct (add_name_total maxLen acc n Hm) as [acc' ->]. apply IH.
Qed.

(** The constructors return: for every list of names and every positive
    limit the search for a free upstream name ends, after at most one attempt
    more than there are names in use. *)
Theorem names_total names maxLen : 0 < maxLen -> exists m, newNameMap names maxLen = Some m.
Proof.
  intros Hm. unfold newNameMap.
  destruct (add_names_total maxLen names Hm (mkNameMap ∅ ∅, ∅)) as [[m u] ->]. by eexists.
Qed.
Lemma names_total_witness : exists m, newNameMap ["a.b"; "a:b"; "a_b"; "a/b"] 64 = Some m.
Proof. apply names_total. lia. Defined.

(** ** The upstream name is accepted by the upstream grammar *)

Definition upstream_valid (maxLen : Z) (s : string) : bool :=
  isSafeToolName s && (Z.of_nat (String.length s) <=? maxLen).

Lemma safe_char_of r : safe_code r = true -> safe_char (char_of r) = true.
Proof.
  intros H. assert (byte_of (char_of r) = r) as E; [|by unfold safe_char; rewrite E].
  unfold byte_of, char_of. rewrite N_ascii_embedding; unfold safe_code in H; lia.
Qed.
Lemma string_of_bytes_safe l : Forall (fun r => safe_code r = true) l -> str_forall safe_char (string_of_bytes l) = true.
Proof.
  unfold string_of_bytes. induction 1 as [|r l Hr _ IH]; [done|]. cbn [map String.string_of_list_ascii str_forall].
  by rewrite safe_char_of, IH.
Qed.
Lemma digits_safe s : str_forall is_digit s = true -> str_forall safe_char s = true.
Proof.
  induction s as [|c s IH]; [done|]. cbn [str_forall]. intros [Hc Hs]%andb_true_iff. rewrite IH by done.
  rewrite andb_true_r. revert Hc. clear. destruct c as [[] [] [] [] [] [] [] []]; vm_compute; congruence.
Qed.
Lemma hex_go_safe fuel : forall z acc, str_forall safe_char acc = true ->
  str_forall safe_char (hex_go fuel z acc) = true /\
  (String.length (hex_go fuel z acc) <= fuel + String.length acc)%nat.
Proof.
  induction fuel as [|fuel IH]; intros z acc Ha; cbn [hex_go]; [by split|].
  assert (safe_char (hex_digit (z mod 16)) = true) as Hd.
  { pose proof (Z.mod_pos_bound z 16 ltac:(lia)) as Hb. revert Hb. generalize (z mod 16). intros d Hd.
    assert (d ∈ seqZ 0 16) as Hin by (apply elem_of_seqZ; lia).
    clear Hd. revert d Hin. apply Forall_forall. vm_compute. repeat constructor. }
  assert (str_forall safe_char (String (hex_digit (z mod 16)) acc) = true) as Hc by (cbn [str_forall]; by rewrite Hd, Ha).
  destruct (z <? 16); [split; [done|cbn; lia]|].
  destruct (IH (z / 16) _ Hc) as [H1 H2]. split; [done|]. cbn in H2. lia.
Qed.

Lemma upstream_valid_app maxLen a b : str_forall safe_char a = true -> str_forall safe_char b = true -> b <> "" ->
  Z.of_nat (String.length a + String.length b) <= maxLen -> upstream_valid maxLen (a +:+ b) = true.
Proof.
  intros Ha Hb Hne Hl. unfold upstream_valid, isSafeToolName. rewrite str_forall_app, Ha, Hb, str_length_app.
  rewrite (proj2 (Z.leb_le _ _) Hl), andb_true_r. cbn [andb]. apply negb_true_iff, String.eqb_neq.
  intros E. destruct b; [done|]. by destruct a.
Qed.

Lemma truncate_hash_valid maxLen s : 64 <= maxLen -> str_forall safe_char s = true -> s <> "" ->
  upstream_valid maxLen (truncateWithSuffix s maxLen "") = true.
Proof.
  intros Hm Hs Hne. unfold truncateWithSuffix. destruct (Z.leb_spec maxLen 0); [lia|].
  change (String.eqb "" "") with true. cbv iota. destruct (Z.leb_spec (Z.of_nat (String.length s)) maxLen) as [Hl|Hl].
  - unfold upstream_valid, isSafeToolName. rewrite Hs, (proj2 (Z.leb_le _ _) Hl), (proj2 (String.eqb_neq _ _) Hne). done.
  - cbv zeta. unfold FormatHex. destruct (hex_go_safe 16 (Z.land (fnv64a_write fnv_offset64 (bytes s)) 4294967295) "" eq_refl) as [H1 H2].
    revert H1 H2. generalize (hex_go 16 (Z.land (fnv64a_write fnv_offset64 (bytes s)) 4294967295) ""). intros t Ht Htl.
    rewrite str_length_app. change (String.length "-") with 1%nat. change (String.length "") with 0%nat in Htl.
    destruct (Z.ltb_spec (maxLen - Z.of_nat (1 + String.length t)) 1); [lia|].
    apply upstream_valid_app; [by apply str_take_forall|by rewrite str_forall_app, Ht|done|].
    rewrite str_take_length, str_length_app by lia. change (String.length "-") with 1%nat. lia.
Qed.
Lemma sanitize_valid maxLen name : 64 <= maxLen -> upstream_valid maxLen (sanitizeToolName name maxLen) = true.
Proof.
  intros Hm. unfold sanitizeToolName. set (out := string_of_bytes _).
  assert (str_forall safe_char out = true) as Hout.
  { apply string_of_bytes_safe, List.Forall_map, Forall_true. intros r. by destruct (safe_code r) eqn:E. }
  destruct (String.eqb_spec out "") as [E|E]; apply truncate_hash_valid; done.
Qed.
Lemma suffixed_valid maxLen base i : 64 <= maxLen -> 0 <= i < 10 ^ 11 ->
  str_forall safe_char base = true -> upstream_valid maxLen (suffixed base maxLen i) = true.
Proof.
  intros Hm Hi Hb. unfold suffixed, truncateWithSuffix. destruct (Z.leb_spec maxLen 0); [lia|].
  change (String.eqb ("-" +:+ Itoa i) "") with false. cbv iota zeta. rewrite str_length_app. change (String.length "-") with 1%nat.
  pose proof (Itoa_length i 10 Hi) as Hl.
  assert (str_forall safe_char ("-" +:+ Itoa i) = true) as Hs.
  { rewrite str_forall_app. by rewrite (digits_safe _ (Itoa_digits i (proj1 Hi))). }
  destruct (Z.ltb_spec maxLen (Z.of_nat (String.length base + (1 + String.length (Itoa i))))) as [Hlt|Hge];
    apply upstream_valid_app; try done; try (by apply str_take_forall);
    rewrite ?str_take_length, str_length_app by lia; change (String.length "-") with 1%nat; lia.
Qed.

(** ** What one pass over the names establishes *)

Definition needs_rename (maxLen : Z) (o : string) : bool :=
  negb ((Z.of_nat (String.length o) <=? maxLen) && isSafeToolName o).

(** [n] is the number of names seen, [seen] the renamed ones and [safes] the
    names that were kept before any renaming. *)
Record NameInv (maxLen : Z) (n : nat) (safes : gset string) (m : NameMap) (used : gset string) : Prop := {
  ni_size : (size used <= n)%nat;
  ni_safes : safes ⊆ used;
  ni_fwd : forall o s, fwd m !! o = Some s ->
    rev m !! s = Some o /\ upstream_valid maxLen s = true /\ needs_rename maxLen o = true;
  ni_rev : forall s o, rev m !! s = Some o -> s ∈ used /\ s ∉ safes }.

Lemma fresh_valid maxLen (used : gset string) o s : 64 <= maxLen -> Z.of_nat (size used) < 10 ^ 9 ->
  dedupe (S (S (size used))) used (sanitizeToolName o maxLen) (sanitizeToolName o maxLen) maxLen 2 = Some s ->
  s ∉ used /\ upstream_valid maxLen s = true.
Proof.
  intros Hm Hn H. destruct (dedupe_some _ _ _ _ _ _ _ H) as [Hu Hs]. split; [exact Hu|].
  pose proof (sanitize_valid maxLen o Hm) as Hv. destruct Hs as [->|(j & Hj & ->)]; [exact Hv|].
  apply suffixed_valid; [exact Hm|lia|]. unfold upstream_valid, isSafeToolName in Hv.
  apply andb_true_iff in Hv as [[Hv _]%andb_true_iff _]. exact Hv.
Qed.
Lemma renamed_differs maxLen o s : upstream_valid maxLen s = true -> needs_rename maxLen o = true -> s <> o.
Proof.
  unfold upstream_valid, needs_rename. intros Hv Hn ->. rewrite andb_comm, Hv in Hn. done.
Qed.
Lemma name_inv_add maxLen n safes m used o s : NameInv maxLen n safes m used -> needs_rename maxLen o = true ->
  s ∉ used -> upstream_valid maxLen s = true ->
  NameInv maxLen (S n) safes (mkNameMap (<[o := s]> (fwd m)) (<[s := o]> (rev m))) ({[s]} ∪ used).
Proof.
  intros [Hsz Hsf Hf Hr] Ho Hs Hv. split; cbn [fwd rev].
  - rewrite size_union_alt. pose proof (subseteq_size (used ∖ {[s]}) used ltac:(set_solver)). rewrite size_singleton. lia.
  - set_solver.
  - intros o' s'. rewrite lookup_insert_Some. intros [[<- <-]|[Hne Ho']]; [by rewrite lookup_insert_eq|].
    destruct (Hf o' s' Ho') as (H1 & H2 & H3). rewrite lookup_insert_ne; [done|].
    intros ->. by destruct (Hr _ _ H1).
  - intros s' o'. rewrite lookup_insert_Some. intros [[<- _]|[Hne Hs']]; [set_solver|].
    destruct (Hr _ _ Hs'). set_solver.
Qed.
Lemma name_inv_keep maxLen n safes m used o : NameInv maxLen n safes m used -> NameInv maxLen (S n) safes m ({[o]} ∪ used).
Proof.
  intros [Hsz Hsf Hf Hr]. split; [| |exact Hf|].
  - rewrite size_union_alt. pose proof (subseteq_size (used ∖ {[o]}) used ltac:(set_solver)). rewrite size_singleton. lia.
  - set_solver.
  - intros s' o' H. destruct (Hr _ _ H). set_solver.
Qed.

Lemma add_name_inv maxLen n safes m used x m' used' : 64 <= maxLen -> Z.of_nat n < 10 ^ 9 ->
  NameInv maxLen n safes m used -> add_name maxLen (m, used) x = Some (m', used') ->
  NameInv maxLen (S n) safes m' used' /\
  (forall o, is_Some (fwd m !! o) \/ TrimSpace x = o /\ o <> "" /\ needs_rename maxLen o = true -> is_Some (fwd m' !! o)).
Proof.
  intros Hm Hn Hi. unfold add_name. generalize (TrimSpace x). intros t.
  destruct (String.eqb_spec t "") as [Et|Et].
  { intros [= <- <-]. split; [|intros o [?|(<- & ? & _)]; done]. destruct Hi. split; [lia|done..]. }
  destruct (_ && _) eqn:Hsafe.
  { intros [= <- <-]. split; [by apply name_inv_keep|]. intros o [?|(<- & _ & H)]; [done|].
    unfold needs_rename in H. by rewrite Hsafe in H. }
  destruct (dedupe _ _ _ _ _ _) as [s|] eqn:Ed; [|done].
  pose proof (ni_size _ _ _ _ _ Hi). destruct (fresh_valid maxLen used t s Hm ltac:(lia) Ed) as [Hs Hv].
  assert (needs_rename maxLen t = true) as Ht by (unfold needs_rename; by rewrite Hsafe).
  rewrite (proj2 (String.eqb_neq s t) (renamed_differs maxLen t s Hv Ht)). intros [= <- <-].
  split; [by apply name_inv_add|]. cbn [fwd]. intros o [Ho|(<- & _ & _)].
  - destruct (decide (t = o)) as [<-|Hne]; [rewrite lookup_insert_eq|rewrite lookup_insert_ne]; done.
  - rewrite lookup_insert_eq. done.
Qed.
Lemma add_names_cons maxLen acc x names :
  add_names maxLen acc (x :: names) = match add_name maxLen acc x with Some acc' => add_names maxLen acc' names | None => None end.
Proof.
  unfold add_names. cbn [fold_left]. destruct (add_name maxLen acc x); [done|]. by induction names.
Qed.
Lemma add_names_inv maxLen names : 64 <= maxLen -> forall n safes m used m' used',
  Z.of_nat (n + length names) < 10 ^ 9 -> NameInv maxLen n safes m used ->
  add_names maxLen (m, used) names = Some (m', used') ->
  NameInv maxLen (n + length names) safes m' used' /\
  (forall o, is_Some (fwd m !! o) \/ o ∈ TrimSpace <$> names /\ o <> "" /\ needs_rename maxLen o = true -> is_Some (fwd m' !! o)).
Proof.
  intros Hm. induction names as [|x names IH]; intros n safes m used m' used' Hn Hi.
  - intros [= <- <-]. rewrite Nat.add_0_r. split; [done|]. intros o [?|[Ho _]]; [done|]. by apply list_elem_of_fmap in Ho as (? & _ & ?%not_elem_of_nil).
  - rewrite add_names_cons. cbn [length] in Hn. destruct (add_name _ _ _) as [[m1 u1]|] eqn:E1; [|done]. intros E2.
    destruct (add_name_inv maxLen n safes m used x m1 u1 Hm ltac:(lia) Hi E1) as [Hi1 Hf1].
    destruct (IH (S n) safes m1 u1 m' used' ltac:(lia) Hi1 E2) as [Hi2 Hf2].
    cbn [length]. rewrite Nat.add_succ_r. split; [exact Hi2|]. intros o Ho. apply Hf2.
    destruct Ho as [Ho|(Ho & Hne & Hr)]; [left; apply Hf1; by left|].
    cbn [fmap list_fmap] in Ho. apply elem_of_cons in Ho as [->|Ho]; [left; apply Hf1; right; done|by right].
Qed.
(** Names that need no renaming are only recorded as used. *)
Lemma add_names_safe maxLen names : Forall (fun x => needs_rename maxLen (TrimSpace x) = false) names -> forall m used,
  exists used', add_names maxLen (m, used) names = Some (m, used') /\ used ⊆ used' /\
    (size used' <= size used + length names)%nat /\ forall o, o ∈ TrimSpace <$> names -> o <> "" -> o ∈ used'.
Proof.
  induction 1 as [|x names Hx _ IH]; intros m used.
  - exists used. split_and!; [done|done|cbn; lia|]. intros o Ho. by apply list_elem_of_fmap in Ho as (? & _ & ?%not_elem_of_nil).
  - rewrite add_names_cons. unfold add_name. cbn [fmap list_fmap length]. revert Hx. generalize (TrimSpace x). intros t Ht.
    destruct (String.eqb_spec t "") as [->|Et].
    + destruct (IH m used) as (u & E & Hsub & Hsz & Hin). exists u. split_and!; [exact E|done|lia|].
      intros o [->|Ho]%elem_of_cons; [done|by apply Hin].
    + unfold needs_rename in Ht. apply negb_false_iff in Ht. rewrite Ht.
      destruct (IH m ({[t]} ∪ used)) as (u & E & Hsub & Hsz & Hin). exists u. split_and!; [exact E|set_solver| |].
      * pose proof (subseteq_size (used ∖ {[t]}) used ltac:(set_solver)). rewrite size_union_alt, size_singleton in Hsz. lia.
      * intros o [->|Ho]%elem_of_cons; [set_solver|by apply Hin].
Qed.

Lemma name_inv_init maxLen (used : gset string) n : (size used <= n)%nat -> NameInv maxLen n used (mkNameMap ∅ ∅) used.
Proof. intros Hn. split; [done|done|..]; cbn; intros ? ?; by rewrite lookup_empty. Qed.

Lemma add_names_app maxLen acc acc' l1 l2 : add_names maxLen acc l1 = Some acc' ->
  add_names maxLen acc (l1 ++ l2) = add_names maxLen acc' l2.
Proof. unfold add_names. rewrite fold_left_app. by intros ->. Qed.
Lemma kept_is_valid maxLen o : needs_rename maxLen o = false -> upstream_valid maxLen o = true.
Proof. unfold needs_rename, upstream_valid. intros H%negb_false_iff. by rewrite andb_comm. Qed.

(** The finished maps: renamed names are mapped there and back, kept names
    are not renamed, and those kept up front are no one's upstream name. *)
Lemma new_name_map_spec maxLen (pre post : list string) r : 64 <= maxLen ->
  Z.of_nat (length (pre ++ post)) < 10 ^ 9 ->
  Forall (fun x => needs_rename maxLen (TrimSpace x) = false) pre ->
  newNameMap (pre ++ post) maxLen = Some r ->
  exists m, (r = Some m \/ r = None /\ fwd m = ∅) /\
    (forall o s, fwd m !! o = Some s -> rev m !! s = Some o /\ upstream_valid maxLen s = true /\ needs_rename maxLen o = true) /\
    (forall o, o ∈ TrimSpace <$> (pre ++ post) -> o <> "" -> needs_rename maxLen o = true -> is_Some (fwd m !! o)) /\
    (forall o, o ∈ TrimSpace <$> pre -> o <> "" -> rev m !! o = None).
Proof.
  intros Hm Hl Hpre. unfold newNameMap.
  destruct (add_names_safe maxLen pre Hpre (mkNameMap ∅ ∅) ∅) as (u & E & _ & Hsz & Hin).
  rewrite size_empty in Hsz. rewrite (add_names_app _ _ _ _ post E).
  destruct (add_names maxLen (mkNameMap ∅ ∅, u) post) as [[m u']|] eqn:E2; [|done]. intros [= <-]. rewrite length_app in Hl.
  destruct (add_names_inv maxLen post Hm (length pre) u _ _ _ _ Hl (name_inv_init maxLen u _ Hsz) E2) as [[_ _ Hf Hr] Hall].
  exists m. split_and!.
  - destruct (Nat.eqb_spec (size (fwd m)) 0) as [Hz|Hz]; [right; split; [done|]|by left]. by apply map_size_empty_inv.
  - exact Hf.
  - intros o Ho Hne Hnr. apply Hall. right. rewrite fmap_app in Ho. apply elem_of_app in Ho as [Ho|Ho]; [|done].
    apply list_elem_of_fmap in Ho as (x & -> & Hx). rewrite Forall_forall in Hpre. by rewrite (Hpre x Hx) in Hnr.
  - intros o Ho Hne. destruct (rev m !! o) as [o'|] eqn:Eo; [|done]. destruct (Hr _ _ Eo) as [_ []]. by apply Hin.
Qed.

(** The grammar both upstream protocols document, [^[a-zA-Z0-9_-]{1,maxLen}$]. *)
Definition grammar_chars : list ascii :=
  String.list_ascii_of_string "abcdefghijklmnopqrstuvwxyzABCDEFGHIJKLMNOPQRSTUVWXYZ0123456789_-".
Definition accepted (maxLen : Z) (s : string) : Prop :=
  1 <= Z.of_nat (String.length s) <= maxLen /\ Forall (.∈ grammar_chars) (String.list_ascii_of_string s).
Lemma safe_char_grammar c : safe_char c = bool_decide (c ∈ grammar_chars).
Proof. by destruct c as [[] [] [] [] [] [] [] []]; vm_compute. Qed.
Lemma accepted_iff maxLen s : upstream_valid maxLen s = true <-> accepted maxLen s.
Proof.
  unfold upstream_valid, accepted, isSafeToolName. rewrite !andb_true_iff, negb_true_iff, String.eqb_neq, Z.leb_le.
  assert (str_forall safe_char s = true <-> Forall (.∈ grammar_chars) (String.list_ascii_of_string s)) as ->.
  { induction s as [|c s IH]; cbn [str_forall String.list_ascii_of_string]; [by split; [constructor|]|].
    by rewrite andb_true_iff, Forall_cons, IH, safe_char_grammar, bool_decide_eq_true. }
  assert (s <> "" <-> 1 <= Z.of_nat (String.length s)) as ->; [|tauto]. destruct s; cbn; split; (done || lia).
Qed.
Lemma kept_iff maxLen o : needs_rename maxLen o = true <-> upstream_valid maxLen o = false.
Proof. unfold needs_rename, upstream_valid. rewrite negb_true_iff. by rewrite andb_comm. Qed.

(** (C34) Renaming is sound and reversible.  Every non-empty name the client
    declared without surrounding white space, among fewer than a billion names,
    is sent upstream under a name of the upstream's grammar and length, and the
    name that comes back is the declared one, for every name that was renamed
    and for every name kept before the first renamed one. *)
Theorem namemap_roundtrip maxLen (pre post : list string) m o : 64 <= maxLen ->
  Z.of_nat (length (pre ++ post)) < 10 ^ 9 ->
  Forall (fun x => accepted maxLen (TrimSpace x)) pre ->
  newNameMap (pre ++ post) maxLen = Some m -> o ∈ pre ++ post -> TrimSpace o = o -> o <> "" ->
  accepted maxLen (Forward m o) /\ (~ accepted maxLen o \/ o ∈ pre -> Reverse m (Forward m o) = o).
Proof.
  rewrite <- !accepted_iff, not_true_iff_false, <- kept_iff.
  intros Hm Hl Hpre Hr Hdecl Htrim Hne. assert (Forall (fun x => needs_rename maxLen (TrimSpace x) = false) pre) as Hpre'.
  { eapply Forall_impl; [exact Hpre|]. intros x Hx%accepted_iff. by apply not_true_iff_false; rewrite kept_iff, Hx. }
  clear Hpre. rename Hpre' into Hpre.
  assert (forall l : list string, o ∈ l -> o ∈ TrimSpace <$> l) as Hin by (intros l Hl'; rewrite <- Htrim; by apply list_elem_of_fmap_2).
  pose proof (Hin _ Hdecl) as Ho. destruct (new_name_map_spec maxLen pre post m Hm Hl Hpre Hr) as (nm & Hnm & Hf & Hall & Hkept).
  destruct (needs_rename maxLen o) eqn:Hn.
  - destruct (Hall o Ho Hne Hn) as [s Hs]. destruct (Hf o s Hs) as (H1 & H2 & _).
    destruct Hnm as [->|[_ E]]; [|by rewrite E, lookup_empty in Hs].
    unfold Forward, Reverse. rewrite Hs. cbn [default from_option id]. by rewrite H1.
  - assert (fwd nm !! o = None) as Hs.
    { destruct (fwd nm !! o) as [s|] eqn:Hs; [|done]. destruct (Hf o s Hs) as (_ & _ & H). congruence. }
    assert (Forward m o = o) as ->.
    { destruct Hnm as [->|[-> _]]; [|done]. unfold Forward. by rewrite Hs. }
    split; [by apply kept_is_valid|]. intros [?|Hp]; [done|]. destruct Hnm as [->|[-> _]]; [|done].
    unfold Reverse. by rewrite (Hkept o (Hin _ Hp) Hne).
Qed.
Lemma namemap_roundtrip_witness : exists m, newNameMap (["ok"] ++ ["fs.read"; "fs:read"]) 64 = Some m /\
  accepted 64 (Forward m "fs:read") /\
  (~ accepted 64 "fs:read" \/ "fs:read" ∈ ["ok"] -> Reverse m (Forward m "fs:read") = "fs:read").
Proof.
  eexists. split; [vm_compute; reflexivity|].
  apply (namemap_roundtrip 64 ["ok"] ["fs.read"; "fs:read"]); [lia|cbn; lia|constructor; [apply accepted_iff; reflexivity|constructor]|vm_compute; reflexivity| |vm_compute; reflexivity|done].
  right. right. left.
Defined.

(** A name declared with surrounding white space is registered without it, so
    the lookup of the declared name finds nothing: it goes upstream as it is,
    outside the upstream's grammar. *)
Theorem namemap_padded_name : exists m, NewOpenAINameMap [" fs.read"] = Some m /\
  Forward m " fs.read" = " fs.read" /\ ~ accepted 64 (Forward m " fs.read").
Proof. eexists. split; [vm_compute; reflexivity|]. split; [vm_compute; reflexivity|]. rewrite <- accepted_iff. vm_compute. discriminate. Qed.

(** A well-formed name declared after a malformed one that sanitizes to it
    is not kept apart from it: both go upstream under the same name, and the
    answer for the well-formed one comes back under the malformed one. *)
Theorem namemap_shadowed_name : exists m, NewOpenAINameMap ["fs.read"; "fs_read"] = Some m /\
  Forward m "fs_read" = Forward m "fs.read" /\ Reverse m (Forward m "fs_read") = "fs.read".
Proof. eexists. split; [vm_compute; reflexivity|]. split; vm_compute; reflexivity. Qed.
