(* ===== verification/Autopilot.v ===== *)
(** * Policy autopilot ([src/internal/autopilot/autopilot.go])

    The lifecycle of one routing-policy candidate: staged, observed, served a
    bounded share of traffic, judged by a gate over observed signals, promoted
    or withdrawn.  Every method of [Controller] is a definition; a method that
    reads the clock once takes the reading, one that reads it several times a
    record of readings.  [candidateWindow] and its
    strata are one level deep in the source too (a stratum is observed with
    its own label cleared), so a window is counters plus a map of counters. *)

From S2P Require Import Prelude Hash Text.

Inductive State := StateDraft | StateShadow | StateCanary | StatePromoted | StateRolledBack.
#[global] Instance State_eq_dec : EqDecision State.
Proof. solve_decision. Defined.
Definition state_eqb (a b : State) : bool := bool_decide (a = b).

Record PolicyRef := mkRef { ID : string; Version : string }.
#[global] Instance PolicyRef_eq_dec : EqDecision PolicyRef.
Proof. solve_decision. Defined.
Definition ref_String (p : PolicyRef) : string :=
  if String.eqb (Version p) "" then ID p else ID p +:+ "@" +:+ Version p.

Definition ClassServerError : string := "server_error".
Definition ClassRateLimit : string := "rate_limit".
Definition ClassAuthError : string := "auth_error".
Definition ClassTimeout : string := "timeout".
Definition ClassTransportError : string := "transport_error".
Definition ClassNoEligible : string := "no_eligible_candidate".

Record Sample := mkSample {
  Success : bool; ErrorClass : string; Failover : bool; Stratum : string;
  NoEligible : bool; HasNoEligibleSignal : bool;
  BudgetAnomaly : bool; HasBudgetAnomalySignal : bool;
  LatencyMS : float64; TTFTMS : float64; HasTTFT : bool; At : Time }.

(** ** Windows *)

Definition maxLatencySamples : nat := 4096.
Record counts := mkCounts {
  requests : Z; successes : Z; errors : Z; serverErrors : Z; rateLimits : Z; authErrors : Z;
  timeouts : Z; transportErrors : Z; noEligible : Z; noEligibleObserved : Z; failovers : Z;
  budgetAnomalies : Z; budgetAnomaliesObserved : Z; latencyMS : list float64; ttftMS : list float64 }.
#[global] Instance eta_counts : Eta counts := fun c => mkCounts (requests c) (successes c) (errors c) (serverErrors c)
  (rateLimits c) (authErrors c) (timeouts c) (transportErrors c) (noEligible c) (noEligibleObserved c) (failovers c)
  (budgetAnomalies c) (budgetAnomaliesObserved c) (latencyMS c) (ttftMS c).
Definition counts0 : counts := mkCounts 0 0 0 0 0 0 0 0 0 0 0 0 0 [] [].
Record window := mkWindow { w_counts : counts; w_strata : gmap string counts }.
Definition window0 : window := mkWindow counts0 ∅.

Definition inc (z : Z) : Z := int64 (z + 1).
Definition inc_if (b : bool) (z : Z) : Z := if b then inc z else z.
(** [copy(dst, dst[1:]); dst[len-1] = v] drops the oldest element. *)
Definition append_bounded {A} (bound : nat) (dst : list A) (v : A) : list A :=
  if (bound <=? length dst)%nat then tail dst ++ [v] else dst ++ [v].
Definition appendBounded (dst : list float64) (v : float64) : list float64 := append_bounded maxLatencySamples dst v.

(** [observe] on the counters, that is with no stratum to attribute to. *)
Definition observe_counts (w : counts) (s : Sample) : counts :=
  let fail (class : string) := negb (Success s) && String.eqb (ErrorClass s) class in
  mkCounts (inc (requests w)) (inc_if (Success s) (successes w)) (inc_if (negb (Success s)) (errors w))
    (inc_if (fail ClassServerError) (serverErrors w)) (inc_if (fail ClassRateLimit) (rateLimits w))
    (inc_if (fail ClassAuthError) (authErrors w)) (inc_if (fail ClassTimeout) (timeouts w))
    (inc_if (fail ClassTransportError) (transportErrors w))
    (inc_if (HasNoEligibleSignal s && NoEligible s) (noEligible w)) (inc_if (HasNoEligibleSignal s) (noEligibleObserved w))
    (inc_if (Failover s) (failovers w))
    (inc_if (HasBudgetAnomalySignal s && BudgetAnomaly s) (budgetAnomalies w))
    (inc_if (HasBudgetAnomalySignal s) (budgetAnomaliesObserved w))
    (if (LatencyMS s >? f_zero)%f64 then appendBounded (latencyMS w) (LatencyMS s) else latencyMS w)
    (if HasTTFT s && (TTFTMS s >? f_zero)%f64 then appendBounded (ttftMS w) (TTFTMS s) else ttftMS w).
Definition maxStrata : nat := 16.
Definition observeStratum (strata : gmap string counts) (s : Sample) : gmap string counts :=
  let label := match strata !! Stratum s with
               | Some _ => Stratum s
               | None => if (maxStrata <=? size strata)%nat then "other" else Stratum s
               end in
  <[label := observe_counts (default counts0 (strata !! label)) s]> strata.
Definition observe (w : window) (s : Sample) : window :=
  mkWindow (observe_counts (w_counts w) s)
    (if String.eqb (Stratum s) "" then w_strata w else observeStratum (w_strata w) s).

(** ** Signals *)

Definition float_less (x y : float64) : bool := (x <? y)%f64 || (IsNaN x && negb (IsNaN y)).
(** [sort.Float64s]. *)
Definition Float64s (l : list float64) : list float64 := slice_stable float_less l.
Definition percentile (samples : list float64) (p : float64) : float64 :=
  let n := length samples in
  if (n =? 0)%nat then f_zero
  else
    let cp := Float64s samples in
    if (p <=? f_zero)%f64 then nth 0 cp f_zero
    else if (p >=? f_of_int 1)%f64 then nth (n - 1) cp f_zero
    else
      let idx := default 0 (f_trunc (p * f_of_int (Z.of_nat n - 1) + fbin 1 (-1))%f64) in
      let idx := if idx <? 0 then 0 else idx in
      let idx := if Z.of_nat n <=? idx then Z.of_nat n - 1 else idx in
      nth (Z.to_nat idx) cp f_zero.

Record Signals0 := mkSignals0 {
  Requests : Z; Successes : Z; Errors : Z; ErrorRate : float64; ServerErrors : Z; RateLimits : Z; AuthErrors : Z;
  Timeouts : Z; TransportErrors : Z; sNoEligible : Z; NoEligibleRate : float64; NoEligibleObserved : Z;
  Failovers : Z; FailoverRate : float64; BudgetAnomalies : Z; BudgetAnomaliesObserved : Z;
  LatencyP50MS : float64; LatencyP95MS : float64; TTFTCount : Z; TTFTP95MS : float64 }.
Record Signals := mkSignals { sig :> Signals0; Strata : list (string * Signals0) }.

Definition ratio (a b : Z) : float64 := if 0 <? b then (f_of_int a / f_of_int b)%f64 else f_zero.
Definition p50 : float64 := (f_of_int 1 / f_of_int 2)%f64.
Definition p95 : float64 := (f_of_int 95 / f_of_int 100)%f64.
Definition snapshot_counts (w : counts) : Signals0 :=
  mkSignals0 (requests w) (successes w) (errors w) (ratio (errors w) (requests w)) (serverErrors w) (rateLimits w)
    (authErrors w) (timeouts w) (transportErrors w) (noEligible w) (ratio (noEligible w) (noEligibleObserved w))
    (noEligibleObserved w) (failovers w) (ratio (failovers w) (requests w)) (budgetAnomalies w) (budgetAnomaliesObserved w)
    (percentile (latencyMS w) p50) (percentile (latencyMS w) p95) (Z.of_nat (length (ttftMS w))) (percentile (ttftMS w) p95).
Definition sort_Strings (l : list string) : list string := slice_stable String.ltb l.
Definition snapshot (w : window) : Signals :=
  mkSignals (snapshot_counts (w_counts w))
    (map (fun label => (label, snapshot_counts (default counts0 (w_strata w !! label))))
       (sort_Strings (elements (dom (w_strata w))))).

(** ** The gate *)

Record GateConfig := mkGate {
  MinSamples : Z; MinPromoteSamples : Z; MaxErrorRate : float64; MaxErrorRateDelta : float64;
  MaxFailoverRate : float64; MaxNoEligibleRate : float64; MaxBudgetAnomalies : Z;
  MaxLatencyP95MS : float64; MaxTTFTP95MS : float64 }.
Definition DefaultGateConfig : GateConfig :=
  mkGate 20 100 (f_of_int 20 / f_of_int 100)%f64 (f_of_int 15 / f_of_int 100)%f64 (f_of_int 50 / f_of_int 100)%f64
    (f_of_int 10 / f_of_int 100)%f64 0 f_zero f_zero.
Definition withDefaults (g : GateConfig) : GateConfig :=
  let d := DefaultGateConfig in
  let minS := if MinSamples g <=? 0 then MinSamples d else MinSamples g in
  let minP := if MinPromoteSamples g <=? 0 then MinPromoteSamples d else MinPromoteSamples g in
  let pos (x dflt : float64) := if (x <=? f_zero)%f64 then dflt else x in
  let nonneg (x : float64) := if (x <? f_zero)%f64 then f_zero else x in
  mkGate minS (if minP <? minS then minS else minP)
    (pos (MaxErrorRate g) (MaxErrorRate d)) (pos (MaxErrorRateDelta g) (MaxErrorRateDelta d))
    (pos (MaxFailoverRate g) (MaxFailoverRate d)) (pos (MaxNoEligibleRate g) (MaxNoEligibleRate d))
    (if MaxBudgetAnomalies g <? 0 then 0 else MaxBudgetAnomalies g)
    (nonneg (MaxLatencyP95MS g)) (nonneg (MaxTTFTP95MS g)).

Inductive Verdict := VerdictHold | VerdictPromote | VerdictRollback.
#[global] Instance Verdict_eq_dec : EqDecision Verdict.
Proof. solve_decision. Defined.
Record GateResult := mkResult { gr_Verdict : Verdict; gr_Reasons : list string; gr_EvaluatedAt : Time; gr_Signals : Signals }.

Definition fmt_f (k : nat) (what : string) (x y : float64) : string := what +:+ ":" +:+ FormatFixed k x +:+ ">" +:+ FormatFixed k y.
Definition fmt_d (what : string) (x : Z) (op : string) (y : Z) : string := what +:+ ":" +:+ Itoa x +:+ op +:+ Itoa y.
(** The violations, in the order they are checked. *)
Definition violations (candidate incumbent : Signals) (cfg : GateConfig) : list string :=
  let on (b : bool) (s : string) : list string := if b then [s] else [] in
  let delta := (ErrorRate candidate - ErrorRate incumbent)%f64 in
  on (ErrorRate candidate >? MaxErrorRate cfg)%f64 (fmt_f 4 "error_rate" (ErrorRate candidate) (MaxErrorRate cfg)) ++
  on ((MinSamples cfg <=? Requests incumbent) && (delta >? MaxErrorRateDelta cfg)%f64)
     (fmt_f 4 "error_rate_regression" delta (MaxErrorRateDelta cfg)) ++
  on (FailoverRate candidate >? MaxFailoverRate cfg)%f64 (fmt_f 4 "failover_rate" (FailoverRate candidate) (MaxFailoverRate cfg)) ++
  on ((0 <? NoEligibleObserved candidate) && (NoEligibleRate candidate >? MaxNoEligibleRate cfg)%f64)
     (fmt_f 4 "no_eligible_rate" (NoEligibleRate candidate) (MaxNoEligibleRate cfg)) ++
  on ((0 <? BudgetAnomaliesObserved candidate) && (MaxBudgetAnomalies cfg <? BudgetAnomalies candidate))
     (fmt_d "budget_anomalies" (BudgetAnomalies candidate) ">" (MaxBudgetAnomalies cfg)) ++
  on ((MaxLatencyP95MS cfg >? f_zero)%f64 && (LatencyP95MS candidate >? MaxLatencyP95MS cfg)%f64)
     (fmt_f 1 "latency_p95_ms" (LatencyP95MS candidate) (MaxLatencyP95MS cfg)) ++
  on ((MaxTTFTP95MS cfg >? f_zero)%f64 && (TTFTP95MS candidate >? MaxTTFTP95MS cfg)%f64)
     (fmt_f 1 "ttft_p95_ms" (TTFTP95MS candidate) (MaxTTFTP95MS cfg)).
Definition EvaluateGate (candidate incumbent : Signals) (cfg : GateConfig) : GateResult :=
  let cfg := withDefaults cfg in
  let res v reasons := mkResult v reasons 0 candidate in
  if Requests candidate <? MinSamples cfg
  then res VerdictHold [fmt_d "insufficient_samples" (Requests candidate) "<" (MinSamples cfg)]
  else match violations candidate incumbent cfg with
  | (_ :: _) as v => res VerdictRollback v
  | [] =>
    if Requests candidate <? MinPromoteSamples cfg
    then res VerdictHold [fmt_d "awaiting_promotion_samples" (Requests candidate) "<" (MinPromoteSamples cfg)]
    else if NoEligibleObserved candidate <? Requests candidate
    then res VerdictHold [fmt_d "insufficient_no_eligible_signal_coverage" (NoEligibleObserved candidate) "<" (Requests candidate)]
    else if BudgetAnomaliesObserved candidate <? Requests candidate
    then res VerdictHold [fmt_d "insufficient_budget_anomaly_signal_coverage" (BudgetAnomaliesObserved candidate) "<" (Requests candidate)]
    else if (MaxTTFTP95MS cfg >? f_zero)%f64 && (TTFTCount candidate =? 0)
    then res VerdictHold ["insufficient_ttft_signal_coverage:0"]
    else res VerdictPromote ["gates_satisfied"]
  end.

(** ** The controller *)

Record Lease := mkLease { l_ID : Z; l_Policy : PolicyRef; l_Generation : Z; l_Canary : bool; l_IssuedAt : Time }.
Record Transition := mkTransition {
  t_At : Time; t_From : State; t_To : State; t_PolicyID : string; t_Version : string; t_Cause : string; t_Gate : option GateResult }.
Record Incident := mkIncident {
  i_ID : string; i_At : Time; i_Kind : string; i_Cause : string; i_PolicyID : string; i_BadVersion : string;
  i_RestoredVersion : string; i_Gate : GateResult; i_Message : string }.
Definition maxHistory : nat := 64.

Record Controller := mkController {
  targetID : string; cfg : GateConfig;
  incumbent : PolicyRef; candidate : PolicyRef; hasCandidate : bool; state : State; generation : Z;
  canaryPercent : float64; canaryMaxRequests : Z; canaryServed : Z;
  candidateWindow : window; incumbentWindow : window;
  transitions : list Transition; incidents : list Incident; lastGate : option GateResult; lastRollback : option Incident;
  leaseSeq : Z; incidentSeq : Z; active : gmap Z Lease }.
#[global] Instance eta_Controller : Eta Controller := fun c => mkController (targetID c) (cfg c) (incumbent c) (candidate c)
  (hasCandidate c) (state c) (generation c) (canaryPercent c) (canaryMaxRequests c) (canaryServed c) (candidateWindow c)
  (incumbentWindow c) (transitions c) (incidents c) (lastGate c) (lastRollback c) (leaseSeq c) (incidentSeq c) (active c).

Definition New (target incumbent : PolicyRef) (cfg : GateConfig) : Controller :=
  let target := if String.eqb (ID target) "" then incumbent else target in
  mkController (ID target) (withDefaults cfg) incumbent (mkRef "" "") false StateDraft 0 f_zero 0 0 window0 window0
    [] [] None None 0 0 ∅.
Definition TargetMatches (c : Controller) (policyID : string) : bool :=
  negb (String.eqb policyID "") && String.eqb policyID (targetID c).

Definition appendBoundedTransition (dst : list Transition) (tr : Transition) : list Transition := append_bounded maxHistory dst tr.
Definition appendBoundedIncident (dst : list Incident) (i : Incident) : list Incident := append_bounded maxHistory dst i.
Definition recordTransitionLocked (c : Controller) (from to : State) (ref : PolicyRef) (cause : string)
    (gate : option GateResult) (now : Time) : Controller * Transition :=
  let tr := mkTransition now from to (ID ref) (Version ref) cause gate in
  (c <| transitions ::= fun l => appendBoundedTransition l tr |>, tr).

Definition BeginShadow (c : Controller) (cand : PolicyRef) (now : Time) : Controller :=
  let c' := c <| candidate := cand |> <| hasCandidate := true |> <| state := StateShadow |>
              <| canaryServed := 0 |> <| candidateWindow := window0 |> in
  fst (recordTransitionLocked c' (state c) StateShadow cand "shadow_started" None now).

Definition clamp (v lo hi : float64) : float64 := if (v <? lo)%f64 then lo else if (v >? hi)%f64 then hi else v.
Inductive CanaryError := CandidateIDRequired | CandidateIsIncumbent (candidate : PolicyRef).
Definition StartCanary (c : Controller) (cand : PolicyRef) (percent : float64) (maxRequests : Z) (now : Time)
    : Controller * option CanaryError :=
  if String.eqb (ID cand) "" then (c, Some CandidateIDRequired)
  else if String.eqb (ID cand) (ID (incumbent c)) && String.eqb (Version cand) (Version (incumbent c))
  then (c, Some (CandidateIsIncumbent cand))
  else
    let c' := c <| candidate := cand |> <| hasCandidate := true |> <| state := StateCanary |>
                <| canaryPercent := clamp percent f_zero (f_of_int 100) |>
                <| canaryMaxRequests := if maxRequests <? 0 then 0 else maxRequests |>
                <| canaryServed := 0 |> <| candidateWindow := window0 |> in
    (fst (recordTransitionLocked c' (state c) StateCanary cand "canary_started" None now), None).

Section selection.
(** What the machine yields for a float that does not fit the integer. *)
Context (oor : float64 -> Z).

Definition shouldCanaryLocked (c : Controller) (requestKey : string) : bool :=
  if (canaryPercent c >=? f_of_int 100)%f64 then true
  else if (canaryPercent c <=? f_zero)%f64 then false
  else if String.eqb requestKey "" then
    let q := (f_of_int 100 / canaryPercent c + f_of_int 1)%f64 in
    Z.rem (canaryServed c) (default (oor q) (f_trunc q)) =? 0
  else
    let h := fnv32a_write fnv_offset32 (bytes requestKey) in
    (f_of_int (h mod 100000) <? canaryPercent c * f_of_int 1000)%f64.

(** The share a request falls in: [Select] and [ObserveNoEligible] ask the
    same question. *)
Definition canary_now (c : Controller) (requestKey : string) : bool :=
  state_eqb (state c) StateCanary && hasCandidate c &&
  negb ((0 <? canaryMaxRequests c) && (canaryMaxRequests c <=? canaryServed c)) &&
  shouldCanaryLocked c requestKey.
Definition Select (c : Controller) (requestKey : string) (now : Time) : Controller * Lease :=
  let canary := canary_now c requestKey in
  let ref := if canary then candidate c else incumbent c in
  let c := c <| canaryServed ::= inc_if canary |> <| leaseSeq ::= fun z => uint64 (z + 1) |> in
  let l := mkLease (leaseSeq c) ref (generation c) canary now in
  (c <| active ::= <[l_ID l := l]> |>, l).
End selection.

Definition evaluateLocked (c : Controller) (now : Time) : Controller * GateResult :=
  let res := EvaluateGate (snapshot (candidateWindow c)) (snapshot (incumbentWindow c)) (cfg c) in
  let res := mkResult (gr_Verdict res) (gr_Reasons res) now (gr_Signals res) in
  (c <| lastGate := Some res |>, res).
Definition Evaluate := evaluateLocked.

Definition rollback_message (target : string) (bad restored : PolicyRef) (reason : string) : string :=
  "policy " +:+ target +:+ " rolled back " +:+ ref_String bad +:+ " → " +:+ ref_String restored +:+ ": " +:+ reason.
Definition rollbackLocked (c : Controller) (cause : string) (res : GateResult) (t1 t2 : Time) : Controller * Incident :=
  let bad := candidate c in
  let restored := incumbent c in
  let from := state c in
  let c := c <| generation ::= fun z => uint64 (z + 1) |> <| state := StateRolledBack |> <| hasCandidate := false |>
             <| canaryServed := 0 |> <| candidateWindow := window0 |> in
  let '(c, _) := recordTransitionLocked c from StateRolledBack bad cause (Some res) t1 in
  let c := c <| incidentSeq ::= fun z => uint64 (z + 1) |> in
  let reason := match gr_Reasons res with r :: _ => r | [] => "gate trip" end in
  let i := mkIncident ("inc-" +:+ Itoa (incidentSeq c)) t2 cause reason (targetID c) (Version bad) (Version restored) res
             (rollback_message (targetID c) bad restored reason) in
  (c <| incidents ::= fun l => appendBoundedIncident l i |> <| lastRollback := Some i |>, i).

(** The clock readings of one call: for the sample, the gate result, the
    transition and the incident. *)
Record Readings := mkReadings { r_sample : Time; r_gate : Time; r_transition : Time; r_incident : Time }.

Definition maybeAutoRollbackLocked (c : Controller) (now : Readings) : Controller :=
  if requests (w_counts (candidateWindow c)) <? MinSamples (cfg c) then c
  else
    let '(c, res) := evaluateLocked c (r_gate now) in
    if bool_decide (gr_Verdict res = VerdictRollback)
    then fst (rollbackLocked c "auto_rollback" res (r_transition now) (r_incident now)) else c.

Definition Record_ (c : Controller) (l : Lease) (s : Sample) (now : Readings) : Controller :=
  let c := c <| active ::= delete (l_ID l) |> in
  let s := if IsZero (At s) then mkSample (Success s) (ErrorClass s) (Failover s) (Stratum s) (NoEligible s) (HasNoEligibleSignal s)
             (BudgetAnomaly s) (HasBudgetAnomalySignal s) (LatencyMS s) (TTFTMS s) (HasTTFT s) (r_sample now) else s in
  let c := if l_Canary l then c <| candidateWindow ::= fun w => observe w s |>
           else c <| incumbentWindow ::= fun w => observe w s |> in
  if state_eqb (state c) StateCanary && hasCandidate c then maybeAutoRollbackLocked c now else c.

Definition no_eligible_sample (stratum : string) (now : Time) : Sample :=
  mkSample false ClassNoEligible false stratum true true false false f_zero f_zero false now.
Definition ObserveNoEligible (oor : float64 -> Z) (c : Controller) (requestKey stratum : string) (now : Readings) : Controller :=
  let s := no_eligible_sample stratum (r_sample now) in
  if canary_now oor c requestKey
  then maybeAutoRollbackLocked (c <| candidateWindow ::= fun w => observe w s |>) now
  else c <| incumbentWindow ::= fun w => observe w s |>.

Definition Release (c : Controller) (l : Lease) : Controller := c <| active ::= delete (l_ID l) |>.

Definition Promote (c : Controller) (now : Readings) : Controller * option Transition :=
  if negb (state_eqb (state c) StateCanary) || negb (hasCandidate c) then (c, None)
  else
    let '(c, res) := evaluateLocked c (r_gate now) in
    if negb (bool_decide (gr_Verdict res = VerdictPromote)) then (c, None)
    else
      let from := state c in
      let promoted := candidate c in
      let c := c <| incumbent := promoted |> <| incumbentWindow := candidateWindow c |> <| candidateWindow := window0 |>
                 <| hasCandidate := false |> <| canaryServed := 0 |> <| generation ::= fun z => uint64 (z + 1) |>
                 <| state := StatePromoted |> in
      let '(c, tr) := recordTransitionLocked c from StatePromoted promoted "gate_promoted" (Some res) (r_transition now) in
      (c, Some tr).
Definition Rollback (c : Controller) (cause : string) (now : Readings) : Controller * option Incident :=
  if negb (hasCandidate c) then (c, None)
  else
    let '(c, res) := evaluateLocked c (r_gate now) in
    let '(c, i) := rollbackLocked c cause res (r_transition now) (r_incident now) in
    (c, Some i).

Record Status := mkStatus {
  ss_GeneratedAt : Time; ss_TargetPolicyID : string; ss_State : State; ss_Incumbent : PolicyRef; ss_Candidate : option PolicyRef;
  ss_CanaryPercent : float64; ss_CanaryServed : Z; ss_CanaryMaxRequests : Z; ss_InFlight : nat; ss_Generation : Z;
  ss_CandidateSignals : Signals; ss_IncumbentSignals : Signals; ss_LastGateDecision : option GateResult;
  ss_LastRollback : option Incident; ss_Transitions : list Transition; ss_Incidents : list Incident }.
Definition getStatus (c : Controller) (now : Time) : Status :=
  mkStatus now (targetID c) (state c) (incumbent c) (if hasCandidate c then Some (candidate c) else None)
    (canaryPercent c) (canaryServed c) (canaryMaxRequests c) (size (active c)) (generation c)
    (snapshot (candidateWindow c)) (snapshot (incumbentWindow c)) (lastGate c) (lastRollback c) (transitions c) (incidents c).
