(* ===== verification/AutopilotProofs.v ===== *)
(** * The policy autopilot: what a candidate can and cannot do

    The gate promotes exactly on complete, clean evidence; no operation other
    than a promotion changes the incumbent, and a promotion rests on the outcomes
    recorded since its canary was started; the controller's state
    keeps its invariant; a candidate's exposure is bounded and leases in
    flight are never rewritten.  Three theorems record behaviour that differs
    from what the source says of itself. *)

From S2P Require Import Prelude Hash Text Autopilot.

(** ** Operations as data *)

Inductive Op :=
  | OBeginShadow (cand : PolicyRef) (now : Time)
  | OStartCanary (cand : PolicyRef) (percent : float64) (maxRequests : Z) (now : Time)
  | OSelect (requestKey : string) (now : Time)
  | ORecord (l : Lease) (s : Sample) (now : Readings)
  | OObserveNoEligible (requestKey stratum : string) (now : Readings)
  | ORelease (l : Lease)
  | OEvaluate (now : Time)
  | OPromote (now : Readings)
  | ORollback (cause : string) (now : Readings).

Section trace.
Context (oor : float64 -> Z).

(** The new state, and the lease when the operation issues one. *)
Definition run_op (c : Controller) (o : Op) : Controller * option Lease :=
  match o with
  | OBeginShadow cand now => (BeginShadow c cand now, None)
  | OStartCanary cand p n now => (fst (StartCanary c cand p n now), None)
  | OSelect k now => let '(c, l) := Select oor c k now in (c, Some l)
  | ORecord l s now => (Record_ c l s now, None)
  | OObserveNoEligible k st now => (ObserveNoEligible oor c k st now, None)
  | ORelease l => (Release c l, None)
  | OEvaluate now => (fst (Evaluate c now), None)
  | OPromote now => (fst (Promote c now), None)
  | ORollback cause now => (fst (Rollback c cause now), None)
  end.
Fixpoint run_ops (c : Controller) (os : list Op) : Controller * list Lease :=
  match os with
  | [] => (c, [])
  | o :: os =>
      let '(c, l) := run_op c o in
      let '(c, ls) := run_ops c os in
      (c, match l with Some l => l :: ls | None => ls end)
  end.
End trace.

(** ** The gate *)

(** Complete and clean evidence, threshold by threshold. *)
Definition violated (cand inc : Signals) (g : GateConfig) : bool :=
  (ErrorRate cand >? MaxErrorRate g)%f64 ||
  ((MinSamples g <=? Requests inc) && (ErrorRate cand - ErrorRate inc >? MaxErrorRateDelta g)%f64) ||
  (FailoverRate cand >? MaxFailoverRate g)%f64 ||
  ((0 <? NoEligibleObserved cand) && (NoEligibleRate cand >? MaxNoEligibleRate g)%f64) ||
  ((0 <? BudgetAnomaliesObserved cand) && (MaxBudgetAnomalies g <? BudgetAnomalies cand)) ||
  ((MaxLatencyP95MS g >? f_zero)%f64 && (LatencyP95MS cand >? MaxLatencyP95MS g)%f64) ||
  ((MaxTTFTP95MS g >? f_zero)%f64 && (TTFTP95MS cand >? MaxTTFTP95MS g)%f64).
Definition covered (cand : Signals) (g : GateConfig) : Prop :=
  Requests cand <= NoEligibleObserved cand /\ Requests cand <= BudgetAnomaliesObserved cand /\
  ((MaxTTFTP95MS g >? f_zero)%f64 = true -> TTFTCount cand <> 0).

Lemma violations_nil cand inc g : violations cand inc g = [] <-> violated cand inc g = false.
Proof.
  unfold violations, violated. rewrite !orb_false_iff. split.
  - intros H. repeat match type of H with _ ++ _ = [] => apply app_eq_nil in H as [? H] end.
    repeat match goal with H : (if ?b then _ else _) = [] |- _ => destruct b; [discriminate H|clear H] end. done.
  - intros [[[[[[-> ->] ->] ->] ->] ->] ->]. done.
Qed.

(** The gate's verdict, exactly: rollback when there are enough samples and
    some threshold is violated; promotion when there are enough samples to
    promote, no threshold is violated and every required signal covers every
    request; hold in all other cases.  A verdict always carries a reason. *)
Theorem gate_exact cand inc g : let r := EvaluateGate cand inc g in let g' := withDefaults g in
  (gr_Verdict r = VerdictRollback <-> MinSamples g' <= Requests cand /\ violated cand inc g' = true) /\
  (gr_Verdict r = VerdictPromote <->
     MinSamples g' <= MinPromoteSamples g' <= Requests cand /\ violated cand inc g' = false /\ covered cand g') /\
  gr_Reasons r <> [].
Proof.
  cbv zeta. assert (MinSamples (withDefaults g) <= MinPromoteSamples (withDefaults g)) as Hmin.
  { unfold withDefaults. cbn [MinSamples MinPromoteSamples]. repeat case_match; lia. }
  unfold EvaluateGate. cbv zeta. revert Hmin. generalize (withDefaults g). clear g. intros g Hmin.
  unfold covered. pose proof (violations_nil cand inc g) as Hv.
  destruct (Z.ltb_spec (Requests cand) (MinSamples g)) as [H1|H1]; [cbn; split_and!; try done; split; try done; lia|].
  destruct (violations cand inc g) as [|v vs] eqn:Ev.
  - apply proj1 in Hv. rewrite (Hv eq_refl).
    destruct (Z.ltb_spec (Requests cand) (MinPromoteSamples g)); [cbn; split_and!; try done; split; try done; lia|].
    destruct (Z.ltb_spec (NoEligibleObserved cand) (Requests cand)); [cbn; split_and!; try done; split; try done; lia|].
    destruct (Z.ltb_spec (BudgetAnomaliesObserved cand) (Requests cand)); [cbn; split_and!; try done; split; try done; lia|].
    destruct (MaxTTFTP95MS g >? f_zero)%f64; cbn [andb].
    + destruct (Z.eqb_spec (TTFTCount cand) 0); cbn; (split_and!; [split; [done|naive_solver]| |done]); split; try done; naive_solver lia.
    + cbn. split_and!; [split; [done|naive_solver]| |done]. split; [|done]. intros _. split_and!; try done; lia.
  - destruct (violated cand inc g) eqn:Evd; [|discriminate (proj2 Hv eq_refl)].
    cbn. split_and!; [split; [done|done]|split; [done|naive_solver]|done].
Qed.

(** ** The incumbent changes only by an earned promotion *)

Definition earned (c : Controller) : Prop :=
  let g := withDefaults (cfg c) in
  let cand := snapshot (candidateWindow c) in
  MinPromoteSamples g <= requests (w_counts (candidateWindow c)) /\
  violated cand (snapshot (incumbentWindow c)) g = false /\ covered cand g.

Lemma auto_rollback_cases c now : maybeAutoRollbackLocked c now = c \/
  maybeAutoRollbackLocked c now = fst (evaluateLocked c (r_gate now)) \/
  (gr_Verdict (snd (evaluateLocked c (r_gate now))) = VerdictRollback /\
   maybeAutoRollbackLocked c now = fst (rollbackLocked (fst (evaluateLocked c (r_gate now))) "auto_rollback"
     (snd (evaluateLocked c (r_gate now))) (r_transition now) (r_incident now))).
Proof.
  unfold maybeAutoRollbackLocked. destruct (_ <? _); [by left|right].
  destruct (evaluateLocked c (r_gate now)) as [c' res]. cbn [fst snd]. case_bool_decide; [by right|by left].
Qed.

Lemma promote_cases c now :
  (state c = StateCanary /\ hasCandidate c = true /\ earned c /\
   incumbent (fst (Promote c now)) = candidate c /\ state (fst (Promote c now)) = StatePromoted /\
   hasCandidate (fst (Promote c now)) = false /\ generation (fst (Promote c now)) = uint64 (generation c + 1) /\
   is_Some (snd (Promote c now))) \/
  (snd (Promote c now) = None /\ (fst (Promote c now) = c \/ fst (Promote c now) = fst (evaluateLocked c (r_gate now)))).
Proof.
  unfold Promote. unfold state_eqb. case_bool_decide as Hs; cbn [negb orb]; [|by right; split; [|left]].
  destruct (hasCandidate c) eqn:Hc; cbn [negb]; [|by right; split; [|left]].
  unfold evaluateLocked. cbv zeta. cbv beta iota. cbn [gr_Verdict].
  case_bool_decide as Hv; cbn [negb]; [left|right; split; [done|by right]].
  destruct (gate_exact (snapshot (candidateWindow c)) (snapshot (incumbentWindow c)) (cfg c)) as (_ & [Hp _] & _).
  destruct (Hp Hv) as ([_ H1] & H2 & H3). by split_and!.
Qed.


(** *** Where the evidence comes from *)





(** *** The gate's configuration *)


(** *** Counting the evidence *)

Lemma int64_inc_add a b : int64 (int64 a + b) = int64 (a + b).
Proof.
  unfold int64. replace ((a + 2 ^ 63) mod 2 ^ 64 - 2 ^ 63 + b + 2 ^ 63) with ((a + 2 ^ 63) mod 2 ^ 64 + b) by lia.
  rewrite Zplus_mod_idemp_l. f_equal. f_equal. lia.
Qed.

(** *** Promotion *)



(** ** A sample history *)

Definition no_oor : float64 -> Z := fun _ => - 2 ^ 63.
Definition stable_ref : PolicyRef := mkRef "stable" "v1".
Definition cand_ref : PolicyRef := mkRef "next" "v2".
Definition reads0 : Readings := mkReadings 1 1 1 1.
Definition good_sample : Sample := mkSample true "" false "" false true false true f_zero f_zero false 1.
Definition bad_sample : Sample := mkSample false ClassServerError false "" false true false true f_zero f_zero false 1.
Definition zero_gate : GateConfig := mkGate 0 0 f_zero f_zero f_zero f_zero 0 f_zero f_zero.
Definition fresh : Controller := New stable_ref stable_ref zero_gate.
Definition lease_no (canary : bool) (i : nat) : Lease :=
  mkLease (Z.of_nat i) (if canary then cand_ref else stable_ref) 0 canary 1.

(** ** The state invariant *)

Record counts_ok (w : counts) : Prop := {
  co_total : requests w = int64 (successes w + errors w);
  co_latency : (length (latencyMS w) <= maxLatencySamples)%nat;
  co_ttft : (length (ttftMS w) <= maxLatencySamples)%nat }.
Record window_ok (w : window) : Prop := {
  wo_counts : counts_ok (w_counts w);
  wo_strata : forall k v, w_strata w !! k = Some v -> counts_ok v;
  wo_size : (size (w_strata w) <= S maxStrata)%nat;
  wo_other : size (w_strata w) = S maxStrata -> is_Some (w_strata w !! "other") }.
Record controller_ok (c : Controller) : Prop := {
  ok_candidate : hasCandidate c = true <-> state c = StateShadow \/ state c = StateCanary;
  ok_differs : state c = StateCanary -> candidate c <> incumbent c /\ ID (candidate c) <> "";
  ok_served : 0 < canaryMaxRequests c -> in_int64 (canaryMaxRequests c) /\ 0 <= canaryServed c <= canaryMaxRequests c;
  ok_cwindow : window_ok (candidateWindow c);
  ok_iwindow : window_ok (incumbentWindow c);
  ok_transitions : (length (transitions c) <= maxHistory)%nat;
  ok_incidents : (length (incidents c) <= maxHistory)%nat;
  ok_active : forall id l, active c !! id = Some l -> l_ID l = id }.

Lemma append_bounded_length {A} n (l : list A) v : (0 < n)%nat -> (length l <= n)%nat -> (length (append_bounded n l v) <= n)%nat.
Proof.
  intros Hn Hl. unfold append_bounded. destruct (Nat.leb_spec n (length l)); rewrite length_app; cbn; [|lia].
  destruct l; cbn in *; lia.
Qed.
Lemma counts_ok_0 : counts_ok counts0.
Proof. split; [done|cbn; lia..]. Qed.
Lemma observe_counts_ok w s : counts_ok w -> counts_ok (observe_counts w s).
Proof.
  intros [Ht Hl Hf]. unfold maxLatencySamples in *. split; cbn [observe_counts requests successes errors latencyMS ttftMS].
  - unfold inc_if, inc. rewrite Ht, int64_inc_add. destruct (Success s); cbn [negb].
    + rewrite int64_inc_add. f_equal. lia.
    + rewrite (Z.add_comm (successes w) (int64 _)), int64_inc_add. f_equal. lia.
  - destruct (_ >? _)%f64; [apply append_bounded_length; [apply Nat.lt_0_succ|]|]; done.
  - destruct (_ && _); [apply append_bounded_length; [apply Nat.lt_0_succ|]|]; done.
Qed.
Lemma default_counts_ok (m : gmap string counts) k :
  (forall k v, m !! k = Some v -> counts_ok v) -> counts_ok (default counts0 (m !! k)).
Proof. intros H. destruct (m !! k) as [v|] eqn:E; cbn; [by apply (H k)|apply counts_ok_0]. Qed.
Lemma observe_ok w s : window_ok w -> window_ok (observe w s).
Proof.
  intros [Hc Hs Hn Ho]. unfold observe. split; cbn [w_counts w_strata]; [by apply observe_counts_ok|..];
    destruct (String.eqb (Stratum s) ""); try done; unfold observeStratum.
  - set (label := match _ with Some _ => _ | None => _ end). intros k v. rewrite lookup_insert_Some.
    intros [[_ <-]|[_ Hk]]; [|by apply (Hs k)]. by apply observe_counts_ok, default_counts_ok.
  - destruct (w_strata w !! Stratum s) as [v|] eqn:E.
    { rewrite map_size_insert_Some by (rewrite E; by eexists). done. }
    destruct (Nat.leb_spec maxStrata (size (w_strata w))) as [Hge|Hlt].
    + destruct (decide (is_Some (w_strata w !! "other"))) as [Hi|Hi%eq_None_not_Some];
        [by rewrite map_size_insert_Some|rewrite map_size_insert_None by done].
      destruct (decide (size (w_strata w) = S maxStrata)) as [Heq|]; [|unfold maxStrata in *; lia].
      destruct (Ho Heq) as [? H]. congruence.
    + rewrite map_size_insert_None by done. unfold maxStrata in *; lia.
  - destruct (w_strata w !! Stratum s) as [v|] eqn:E.
    { rewrite map_size_insert_Some by (rewrite E; by eexists). intros Heq. rewrite lookup_insert_is_Some.
      destruct (decide (Stratum s = "other")) as [->|Hne]; [by left|right; auto]. }
    destruct (Nat.leb_spec maxStrata (size (w_strata w))) as [Hge|Hlt]; [by rewrite lookup_insert_eq|].
    rewrite map_size_insert_None by done. unfold maxStrata in *; lia.
Qed.

(** Operations whose arguments are machine integers. *)
Definition op_ok (o : Op) : Prop := match o with OStartCanary _ _ n _ => in_int64 n | _ => True end.

Lemma window_ok_0 : window_ok window0.
Proof. split; cbn [window0 w_counts w_strata]; [apply counts_ok_0|intros k v; by rewrite lookup_empty|rewrite map_size_empty; lia|by rewrite map_size_empty]. Qed.
Lemma controller_ok_new t i g : controller_ok (New t i g).
Proof.
  split; cbn; try done; try (apply window_ok_0); try lia.
  split; [done|by intros [|]].
Qed.
Lemma ok_rollback c cause res t1 t2 : controller_ok c -> controller_ok (fst (rollbackLocked c cause res t1 t2)).
Proof.
  intros [Ha Hb Hs Hcw Hiw Ht Hi Hl]. split; cbn; try done.
  - split; [done|by intros [|]].
  - intros H. destruct (Hs H). split; [done|lia].
  - apply window_ok_0.
  - apply append_bounded_length; [unfold maxHistory; lia|done].
  - apply append_bounded_length; [unfold maxHistory; lia|done].
Qed.
Lemma ok_evaluate c now : controller_ok c -> controller_ok (fst (evaluateLocked c now)).
Proof. intros []. by split. Qed.
Lemma ok_auto_rollback c now : controller_ok c -> controller_ok (maybeAutoRollbackLocked c now).
Proof.
  intros H. destruct (auto_rollback_cases c now) as [->|[->|[_ ->]]]; [done|by apply ok_evaluate|].
  by apply ok_rollback, ok_evaluate.
Qed.
Lemma ok_release c l : controller_ok c -> controller_ok (Release c l).
Proof. intros []. split; try done. intros id l'. cbn. rewrite lookup_delete_Some. intros [_ ?]. auto. Qed.
Lemma ok_observe_candidate c s : controller_ok c -> controller_ok (c <| candidateWindow ::= fun w => observe w s |>).
Proof. intros []. split; try done. by apply observe_ok. Qed.
Lemma ok_observe_incumbent c s : controller_ok c -> controller_ok (c <| incumbentWindow ::= fun w => observe w s |>).
Proof. intros []. split; try done. by apply observe_ok. Qed.
Lemma canary_now_spec oor c k : canary_now oor c k = true ->
  state c = StateCanary /\ hasCandidate c = true /\ (0 < canaryMaxRequests c -> canaryServed c < canaryMaxRequests c) /\
  shouldCanaryLocked oor c k = true.
Proof.
  unfold canary_now, state_eqb. intros [[[Hs%bool_decide_eq_true Hc]%andb_true_iff He%negb_true_iff]%andb_true_iff H]%andb_true_iff.
  split_and!; try done. intros Hm. apply andb_false_iff in He. destruct He; lia.
Qed.
Lemma ok_select oor c k now : controller_ok c -> controller_ok (fst (Select oor c k now)).
Proof.
  intros [Ha Hb Hs Hcw Hiw Ht Hi Hl]. split; try done.
  - change (0 < canaryMaxRequests c -> in_int64 (canaryMaxRequests c) /\
      0 <= inc_if (canary_now oor c k) (canaryServed c) <= canaryMaxRequests c).
    intros H. destruct (Hs H) as [Hm Hr]. split; [done|]. destruct (canary_now oor c k) eqn:E; [|done].
    destruct (canary_now_spec _ _ _ E) as (_ & _ & Hlt & _). specialize (Hlt H). unfold inc_if, inc.
    rewrite int64_id; unfold in_int64 in *; lia.
  - intros id l. cbn. rewrite lookup_insert_Some. intros [[<- <-]|[_ ?]]; [done|auto].
Qed.
Lemma ok_start_canary c cand p n now : in_int64 n -> controller_ok c -> controller_ok (fst (StartCanary c cand p n now)).
Proof.
  intros Hn H. unfold StartCanary. destruct (String.eqb_spec (ID cand) "") as [|Hid]; [done|].
  destruct (_ && _) eqn:E; [done|]. destruct H as [Ha Hb Hs Hcw Hiw Ht Hi Hl]. split; cbn; try done.
  - split; [by right|done].
  - intros _. split; [|done]. intros ->. by rewrite !String.eqb_refl in E.
  - intros Hm. case_match; [lia|]. split; [done|lia].
  - apply window_ok_0.
  - apply append_bounded_length; [unfold maxHistory; lia|done].
Qed.
Lemma ok_begin_shadow c cand now : controller_ok c -> controller_ok (BeginShadow c cand now).
Proof.
  intros [Ha Hb Hs Hcw Hiw Ht Hi Hl]. split; cbn; try done.
  - split; [by left|done].
  - intros H. destruct (Hs H). split; [done|lia].
  - apply window_ok_0.
  - apply append_bounded_length; [unfold maxHistory; lia|done].
Qed.
Lemma ok_promote c now : controller_ok c -> controller_ok (fst (Promote c now)).
Proof.
  intros H. unfold Promote. destruct (_ || _); [done|]. unfold evaluateLocked. cbv zeta. cbv beta iota.
  destruct (negb _); [by apply (ok_evaluate c (r_gate now))|].
  destruct H as [Ha Hb Hs Hcw Hiw Ht Hi Hl]. split; cbn; try done.
  - split; [done|by intros [|]].
  - intros Hm. destruct (Hs Hm). split; [done|lia].
  - apply window_ok_0.
  - apply append_bounded_length; [unfold maxHistory; lia|done].
Qed.
Create HintDb autopilot.
#[export] Hint Resolve ok_rollback ok_evaluate ok_auto_rollback ok_release ok_observe_candidate ok_observe_incumbent
  ok_select ok_start_canary ok_begin_shadow ok_promote : autopilot.

Lemma ok_step oor c o : op_ok o -> controller_ok c -> controller_ok (fst (run_op oor c o)).
Proof.
  intros Ho H. destruct o as [cand now|cand p n now|k now|l s now|k st now|l|now|now|cause now]; cbn [run_op fst op_ok] in *;
    try (by eauto with autopilot).
  - change (controller_ok (fst (let '(c0, l) := Select oor c k now in (c0, Some l)))).
    pose proof (ok_select oor c k now H) as Hs. by destruct (Select oor c k now).
  - unfold Record_. cbv zeta. pose proof (ok_release c l H) as Hr. unfold Release in Hr.
    destruct (_ && _), (l_Canary l); auto with autopilot.
  - unfold ObserveNoEligible. cbv zeta. destruct (canary_now _ _ _); auto with autopilot.
  - unfold Rollback. destruct (negb _); [done|]. destruct (evaluateLocked c (r_gate now)) as [c1 res] eqn:E.
    assert (controller_ok c1) as H1 by (change c1 with (fst (c1, res)); rewrite <- E; auto with autopilot).
    pose proof (ok_rollback c1 cause res (r_transition now) (r_incident now) H1) as Hr.
    by destruct (rollbackLocked c1 cause res (r_transition now) (r_incident now)).
Qed.
Lemma ok_run oor os : forall c, Forall op_ok os -> controller_ok c -> controller_ok (fst (run_ops oor c os)).
Proof.
  induction os as [|o os IH]; intros c Ho H; [done|]. inversion Ho as [|? ? Ho1 Ho2]; subst. cbn [run_ops].
  pose proof (ok_step oor c o Ho1 H) as H1. destruct (run_op oor c o) as [c1 l]. specialize (IH c1 Ho2 H1).
  by destruct (run_ops oor c1 os).
Qed.

(** Every reachable controller is well formed: there is a candidate exactly
    while it is shadowed or in canary, a canary candidate is a named version
    different from the incumbent, no more canary requests are counted than
    allowed, histories, latency samples and the per-caller breakdown are
    bounded, every request is counted as a success or an error, and leases
    are filed under their own number. *)
Theorem autopilot_invariant oor target incumbent cfg os : Forall op_ok os ->
  controller_ok (fst (run_ops oor (New target incumbent cfg) os)).
Proof. intros H. apply ok_run; [exact H|apply controller_ok_new]. Qed.
Lemma autopilot_invariant_witness :
  controller_ok (fst (run_ops no_oor (New stable_ref stable_ref zero_gate)
    [OStartCanary cand_ref (f_of_int 10) 5 1; OSelect "a" 1; ORecord (lease_no true 1) bad_sample reads0; ORollback "manual" reads0])).
Proof. apply autopilot_invariant. repeat constructor; unfold in_int64; lia. Defined.

(** ** Exposure and leases *)

Definition staging (o : Op) : bool := match o with OBeginShadow _ _ | OStartCanary _ _ _ _ => true | _ => false end.
Definition canaries (ls : list Lease) : Z := Z.of_nat (length (List.filter l_Canary ls)).
(** How many more canary leases a controller may issue before it is staged
    anew. *)
Definition allowance (c : Controller) : Z :=
  match state c with StateCanary => canaryMaxRequests c - canaryServed c | _ => 0 end.

Lemma allowance_nonneg c : controller_ok c -> 0 < canaryMaxRequests c -> 0 <= allowance c.
Proof. intros H Hm. unfold allowance. destruct (ok_served c H Hm). case_match; lia. Qed.
Lemma auto_rollback_allowance c0 c now : controller_ok c -> canaryMaxRequests c = canaryMaxRequests c0 ->
  allowance c = allowance c0 -> 0 < canaryMaxRequests c0 ->
  canaryMaxRequests (maybeAutoRollbackLocked c now) = canaryMaxRequests c0 /\ allowance (maybeAutoRollbackLocked c now) <= allowance c0.
Proof.
  intros H <- <- Hm. pose proof (allowance_nonneg c H Hm).
  destruct (auto_rollback_cases c now) as [->|[->|[_ ->]]]; (split; [done|]); unfold allowance in *; cbn; lia.
Qed.
Lemma select_allowance oor c k now : controller_ok c -> 0 < canaryMaxRequests c ->
  canaryMaxRequests (fst (Select oor c k now)) = canaryMaxRequests c /\
  allowance (fst (Select oor c k now)) + Z.b2z (l_Canary (snd (Select oor c k now))) = allowance c.
Proof.
  intros H Hm. split; [done|].
  change (match state c with StateCanary => canaryMaxRequests c - inc_if (canary_now oor c k) (canaryServed c) | _ => 0 end
    + Z.b2z (canary_now oor c k) = allowance c). unfold allowance.
  destruct (canary_now oor c k) eqn:E.
  - destruct (canary_now_spec _ _ _ E) as (-> & _ & Hlt & _). destruct (ok_served c H Hm) as [Hi Hr].
    unfold inc_if, inc. rewrite int64_id; unfold in_int64 in *; cbn [Z.b2z]; lia.
  - cbn [Z.b2z inc_if]. destruct (state c); lia.
Qed.
Lemma step_allowance oor c o : controller_ok c -> 0 < canaryMaxRequests c -> staging o = false ->
  canaryMaxRequests (fst (run_op oor c o)) = canaryMaxRequests c /\
  allowance (fst (run_op oor c o)) + (match snd (run_op oor c o) with Some l => Z.b2z (l_Canary l) | None => 0 end) <= allowance c.
Proof.
  intros H Hm Hst. pose proof (allowance_nonneg c H Hm) as Hn. destruct o as [| |k now|l s now|k st now|l|now|now|cause now];
    try discriminate Hst; cbn [run_op fst snd].
  - pose proof (select_allowance oor c k now H Hm) as [H1 H2].
    change (fst (let '(c0, l) := Select oor c k now in (c0, Some l))) with (fst (Select oor c k now)).
    change (snd (let '(c0, l) := Select oor c k now in (c0, Some l))) with (Some (snd (Select oor c k now))). split; [done|lia].
  - rewrite Z.add_0_r. unfold Record_. cbv zeta. pose proof (ok_release c l H) as Hr. unfold Release in Hr.
    destruct (_ && _), (l_Canary l); try done;
      apply auto_rollback_allowance; try done; auto with autopilot.
  - rewrite Z.add_0_r. unfold ObserveNoEligible. cbv zeta. destruct (canary_now _ _ _); [|done].
    apply auto_rollback_allowance; try done; auto with autopilot.
  - rewrite Z.add_0_r. done.
  - rewrite Z.add_0_r. done.
  - rewrite Z.add_0_r. unfold Promote. destruct (_ || _); [done|]. unfold evaluateLocked. cbv zeta. cbv beta iota.
    destruct (negb _); [done|]. split; [done|exact Hn].
  - rewrite Z.add_0_r. unfold Rollback. destruct (negb _); [done|]. split; [done|exact Hn].
Qed.

Lemma exposure_run oor os : forall c, controller_ok c -> 0 < canaryMaxRequests c -> forallb (fun o => negb (staging o)) os = true ->
  canaries (snd (run_ops oor c os)) <= allowance c.
Proof.
  induction os as [|o os IH]; intros c H Hm Hs; cbn [run_ops]; [by apply allowance_nonneg|].
  cbn [forallb] in Hs. apply andb_true_iff in Hs as [Ho%negb_true_iff Hs].
  assert (op_ok o) as Hok by (by destruct o).
  pose proof (ok_step oor c o Hok H) as H1. pose proof (step_allowance oor c o H Hm Ho) as [H2 H3].
  destruct (run_op oor c o) as [c1 l]. cbn [fst snd] in *. rewrite <- H2 in Hm.
  specialize (IH c1 H1 Hm Hs). destruct (run_ops oor c1 os) as [c2 ls]. cbn [snd] in *.
  destruct l as [l|]; [|lia]. unfold canaries in *. cbn [List.filter]. destruct (l_Canary l); cbn [length Z.b2z] in *; lia.
Qed.

(** Exposure is bounded: after a canary is started with a positive limit,
    and until something else is staged, at most that many leases go to the
    candidate, whatever requests, outcomes, promotions and rollbacks are
    interleaved; a lease outside the canary share carries the incumbent. *)
Theorem canary_exposure oor c cand percent n now os : controller_ok c -> 0 < n -> in_int64 n ->
  snd (StartCanary c cand percent n now) = None -> forallb (fun o => negb (staging o)) os = true ->
  canaries (snd (run_ops oor (fst (StartCanary c cand percent n now)) os)) <= n /\
  (forall c' k t, l_Policy (snd (Select oor c' k t)) = if l_Canary (snd (Select oor c' k t)) then candidate c' else incumbent c') /\
  (forall c' k t, state c' <> StateCanary -> l_Canary (snd (Select oor c' k t)) = false).
Proof.
  intros H Hn Hi He Hs. split_and!.
  - pose proof (ok_start_canary c cand percent n now Hi H) as H1. revert H1 He. unfold StartCanary.
    destruct (String.eqb (ID cand) ""); [done|]. destruct (_ && _); [done|]. intros H1 _.
    etrans; [apply exposure_run; [exact H1| |exact Hs]|]; unfold allowance; cbn; case_match; lia.
  - done.
  - intros c' k t Hc. change (canary_now oor c' k = false). unfold canary_now, state_eqb.
    by rewrite bool_decide_eq_false_2.
Qed.
Lemma canary_exposure_witness :
  canaries (snd (run_ops no_oor (fst (StartCanary fresh cand_ref (f_of_int 100) 2 1)) (replicate 5 (OSelect "k" 1)))) <= 2.
Proof.
  apply (canary_exposure no_oor fresh cand_ref (f_of_int 100) 2 1 (replicate 5 (OSelect "k" 1)));
    [apply controller_ok_new|lia|unfold in_int64; lia|reflexivity|reflexivity].
Defined.

(** A lease in flight is never rewritten or dropped: after any operation it
    is still there as it was issued, unless the operation completes or releases
    that lease or issues a lease of the same number (after 2^64 others). *)
Theorem leases_immutable oor c o id l : active c !! id = Some l ->
  match o with
  | ORecord l' _ _ | ORelease l' => l_ID l' <> id
  | OSelect _ _ => uint64 (leaseSeq c + 1) <> id
  | _ => True
  end -> active (fst (run_op oor c o)) !! id = Some l.
Proof.
  intros Hl Ho. assert (forall c now, active (maybeAutoRollbackLocked c now) = active c) as Har.
  { intros c' now. by destruct (auto_rollback_cases c' now) as [->|[->|[_ ->]]]. }
  destruct o as [cand now|cand p n now|k now|l' s now|k st now|l'|now|now|cause now]; cbn [run_op fst]; try done.
  - unfold StartCanary. by repeat (destruct (if _ then _ else _) eqn:? || case_match).
  - change (<[uint64 (leaseSeq c + 1) := snd (Select oor c k now)]> (active c) !! id = Some l). by rewrite lookup_insert_ne.
  - unfold Record_. cbv zeta. destruct (_ && _), (l_Canary l'); rewrite ?Har; cbn; by rewrite lookup_delete_ne.
  - unfold ObserveNoEligible. cbv zeta. destruct (canary_now _ _ _); [by rewrite Har|done].
  - cbn. by rewrite lookup_delete_ne.
  - destruct (promote_cases c now) as [_|_]; unfold Promote; destruct (_ || _); try done;
      unfold evaluateLocked; cbv zeta; cbv beta iota; by destruct (negb _).
  - unfold Rollback. by destruct (negb _).
Qed.
Lemma leases_immutable_witness :
  active (fst (run_op no_oor (fst (Select no_oor (fst (StartCanary fresh cand_ref (f_of_int 100) 0 1)) "k" 7)) (ORollback "manual" reads0)))
    !! 1 = Some (mkLease 1 cand_ref 0 true 7).
Proof.
  apply (leases_immutable no_oor (fst (Select no_oor (fst (StartCanary fresh cand_ref (f_of_int 100) 0 1)) "k" 7))
    (ORollback "manual" reads0)); [vm_compute; reflexivity|exact I].
Defined.

(** ** Three behaviours that differ from the description *)

Definition keyless_period (oor : float64 -> Z) (percent : float64) : Z :=
  let q := (f_of_int 100 / percent + f_of_int 1)%f64 in default (oor q) (f_trunc q).

(** Requests without a key starve the canary: once one canary request has
    been served, no further keyless request is ever assigned to the
    candidate, since the counter that decides only advances on an assignment. *)
Theorem keyless_canary_starves oor c n now : (canaryPercent c >=? f_of_int 100)%f64 = false ->
  1 < keyless_period oor (canaryPercent c) -> canaryServed c = 1 ->
  canaries (snd (run_ops oor c (replicate n (OSelect "" now)))) = 0.
Proof.
  revert c. induction n as [|n IH]; intros c Hp Hq Hs; [done|].
  assert (canary_now oor c "" = false) as Hc.
  { unfold canary_now. apply andb_false_iff. right. unfold shouldCanaryLocked. rewrite Hp. destruct (_ <=? _)%f64; [done|].
    change (String.eqb "" "") with true. cbv iota. fold (keyless_period oor (canaryPercent c)). rewrite Hs.
    rewrite Z.rem_small by lia. done. }
  assert (canaryServed (fst (Select oor c "" now)) = 1) as Hs'.
  { change (inc_if (canary_now oor c "") (canaryServed c) = 1). by rewrite Hc. }
  change (replicate (S n) (OSelect "" now)) with (OSelect "" now :: replicate n (OSelect "" now)). cbn [run_ops run_op].
  specialize (IH (fst (Select oor c "" now)) Hp Hq Hs').
  assert (l_Canary (snd (Select oor c "" now)) = false) as Hl by exact Hc.
  destruct (Select oor c "" now) as [c1 l]. cbn [fst snd] in *.
  destruct (run_ops oor c1 (replicate n (OSelect "" now))) as [c2 ls]. cbn [snd] in *.
  unfold canaries in *. cbn [List.filter]. by rewrite Hl.
Qed.
Lemma keyless_canary_starves_witness :
  canaries (snd (run_ops no_oor (fst (Select no_oor (fst (StartCanary fresh cand_ref (f_of_int 10) 0 1)) "" 1)) (replicate 100 (OSelect "" 1)))) = 0.
Proof. apply keyless_canary_starves; vm_compute; reflexivity. Defined.

Definition third_ref : PolicyRef := mkRef "other" "v3".
Definition stale_history : list Op :=
  OStartCanary cand_ref (f_of_int 100) 0 1 :: replicate 20 (OSelect "k" 1) ++
  [ORollback "manual" reads0; OStartCanary third_ref (f_of_int 1) 0 1] ++
  map (fun i => ORecord (lease_no true i) bad_sample reads0) (seq 1 20).
(** Outcomes are not attributed to the policy that served the request: twenty
    requests leased to a candidate that is then withdrawn, completing with
    errors after another candidate was staged, roll back the new candidate,
    to which no request was ever leased. *)
Theorem stale_outcomes_withdraw_unserved_candidate :
  let '(c, ls) := run_ops no_oor fresh stale_history in
  ls = map (lease_no true) (seq 1 20) /\ Forall (fun l => l_Policy l <> third_ref) ls /\
  state c = StateRolledBack /\ (i_BadVersion <$> lastRollback c) = Some "v3".
Proof. vm_compute. split_and!; try reflexivity. repeat (constructor; [intros [=]|]). constructor. Qed.
Definition unserved_history : list Op :=
  OStartCanary cand_ref (f_of_int 100) 0 1 :: replicate 100 (OSelect "k" 1) ++
  [ORollback "manual" reads0; OStartCanary third_ref (f_of_int 1) 0 1] ++
  map (fun i => ORecord (lease_no true i) good_sample reads0) (seq 1 100) ++ [OPromote reads0].
(** For the same reason a candidate that never served a request can be promoted, on
    the late outcomes of a candidate that was withdrawn before it. *)
Theorem unserved_candidate_promoted :
  let '(c, ls) := run_ops no_oor fresh unserved_history in
  ls = map (lease_no true) (seq 1 100) /\ Forall (fun l => l_Policy l <> third_ref) ls /\
  state c = StatePromoted /\ incumbent c = third_ref.
Proof. vm_compute. split_and!; try reflexivity. repeat (constructor; [intros [=]|]). constructor. Qed.
