(* ===== verification/AuditChain.v ===== *)
(** * The audit hash chain ([src/internal/securitystore/chaincore.go], [store.go], [postgres.go])

    Verification of a chain snapshot, sanitization of an event, the planning
    of an append with its pruning, and the application of the plan to the
    stored rows.  A stored row holds the JSON encoding of its record and is
    read back by the inverse decoding; both are left out, so the state here is
    what [loadChainTx] returns.  The sequence allocator is a [uint64] and wraps. *)

From S2P Require Import Prelude Hash Text.

(** ** Timestamps as text: [UTC().Format(time.RFC3339Nano)] *)

Definition day_ns : Z := 86400 * Second.
(** Year, month and day of a day number counted from 1 January of year 1. *)
Definition civil (days : Z) : Z * Z * Z :=
  let z := days + 306 in
  let era := z / 146097 in
  let doe := z mod 146097 in
  let yoe := (doe - doe / 1460 + doe / 36524 - doe / 146096) / 365 in
  let doy := doe - (365 * yoe + yoe / 4 - yoe / 100) in
  let mp := (5 * doy + 2) / 153 in
  let month := if mp <? 10 then mp + 3 else mp - 9 in
  (yoe + era * 400 + (if month <=? 2 then 1 else 0), month, doy - (153 * mp + 2) / 5 + 1).
Definition appendInt (z : Z) (width : nat) : string :=
  if z <? 0 then "-" +:+ pad_left width (Itoa (- z)) else pad_left width (Itoa z).
Definition format_fraction (ns : Z) : string :=
  if ns =? 0 then ""
  else
    let fix strip (fuel : nat) (ns : Z) (width : nat) : string :=
      match fuel with
      | O => pad_left width (Itoa ns)
      | S fuel => if ns mod 10 =? 0 then strip fuel (ns / 10) (width - 1)%nat else pad_left width (Itoa ns)
      end in
    "." +:+ strip 9%nat ns 9%nat.
Definition RFC3339Nano (t : Time) : string :=
  let '(y, m, d) := civil (t / day_ns) in
  let sec := (t mod day_ns) / Second in
  appendInt y 4 +:+ "-" +:+ appendInt m 2 +:+ "-" +:+ appendInt d 2 +:+ "T" +:+
  appendInt (sec / 3600) 2 +:+ ":" +:+ appendInt (sec / 60 mod 60) 2 +:+ ":" +:+ appendInt (sec mod 60) 2 +:+
  format_fraction (t mod Second) +:+ "Z".
(** Nanoseconds from year 1 to 1970. *)
Definition unix_epoch : Z := 62135596800 * Second.
Definition UnixNano (t : Time) : Z := int64 (t - unix_epoch).
Example format_samples :
  RFC3339Nano 0 = "0001-01-01T00:00:00Z" /\
  RFC3339Nano (unix_epoch + 1700000000 * Second + 120000000) = "2023-11-14T22:13:20.12Z" /\
  RFC3339Nano (unix_epoch + 951782400 * Second + 1) = "2000-02-29T00:00:00.000000001Z".
Proof. vm_compute. auto. Qed.

(** ** Records *)

Record AuditEvent := mkEvent {
  Timestamp : Time; RequestID : string; Actor : string; Action : string; Target : string; Method : string;
  Path : string; Outcome : string; Status : Z; Permission : string; Authn : string;
  Seq : Z; PrevHash : string; Hash : string }.
#[global] Instance eta_AuditEvent : Eta AuditEvent := fun e => mkEvent (Timestamp e) (RequestID e) (Actor e) (Action e)
  (Target e) (Method e) (Path e) (Outcome e) (Status e) (Permission e) (Authn e) (Seq e) (PrevHash e) (Hash e).
Record chainRef := mkRef { ref_Seq : Z; ref_Hash : string }.
#[global] Instance chainRef_eq_dec : EqDecision chainRef.
Proof. solve_decision. Defined.
Inductive refState := refAbsent | refMalformed | refValid.
#[global] Instance refState_eq_dec : EqDecision refState.
Proof. solve_decision. Defined.

(** The fields of the canonical encoding, in order. *)
Definition canonical_fields (e : AuditEvent) : list string :=
  [Itoa (Seq e); PrevHash e; RFC3339Nano (Timestamp e); RequestID e; Actor e; Action e; Target e; Method e; Path e;
   Outcome e; Itoa (Status e); Permission e; Authn e].
Definition field (s : string) : string := "|" +:+ Itoa (Z.of_nat (String.length s)) +:+ ":" +:+ s.
Definition encode_fields (l : list string) : string := fold_right (fun s acc => field s +:+ acc) "" l.
Definition canonical_text (e : AuditEvent) : string := "nexaroute-audit-chain-v1" +:+ encode_fields (canonical_fields e).
Definition chain_hash (s : string) : string := sha256_hex s.
#[global] Opaque chain_hash.
Definition canonicalAuditHash (e : AuditEvent) : string := chain_hash (canonical_text e).
Definition recordHash (e : AuditEvent) (keySeq : Z) : string :=
  if negb (String.eqb (Hash e) "") then Hash e
  else canonicalAuditHash (e <| Seq := keySeq |> <| PrevHash := "" |>).

Record chainState := mkState {
  Records : list AuditEvent; Head : chainRef; HeadState : refState; Anchor : chainRef; AnchorState : refState; Allocator : Z }.

(** ** Verification *)

Inductive Problem :=
  | AnchorMalformed
  | OutOfOrder (seq : Z)
  | SequenceGap (seq prevSeq : Z)
  | HashMismatch (seq : Z)
  | BrokenLink (seq : Z)
  | NoLinkToAnchor (seq anchor : Z)
  | GapAfterAnchor (anchor seq : Z)
  | DanglingFirst (seq : Z)
  | HeadMalformed
  | HeadNotAnchor
  | HeadMismatch (head last : Z)
  | HeadMissing
  | HeadMissingPruned (anchor : Z)
  | AllocatorLow (allocator evidence : Z)
  | AllocatorNotHead (allocator head : Z).
Record ChainReport := mkReport {
  TotalRecords : Z; LegacyRecords : Z; ChainedRecords : Z; FirstSeq : Z; LastSeq : Z; HeadHash : string;
  AnchorSeq : Z; HasAnchor : bool; Verified : bool; Problems : list Problem }.

Definition when (b : bool) (p : Problem) : list Problem := if b then [p] else [].
Definition is_legacy (e : AuditEvent) : bool := String.eqb (Hash e) "".
Definition count_if (f : AuditEvent -> bool) (l : list AuditEvent) : Z := Z.of_nat (length (List.filter f l)).

(** One turn of the loop over the records; [prevSeq] is the sequence of
    [prev]. *)
Definition check_record (anchor : option chainRef) (legacyRecords : Z) (prev : option AuditEvent) (r : AuditEvent) : list Problem :=
  let seq := Seq r in
  match prev with Some p => when (seq <=? Seq p) (OutOfOrder seq) | None => [] end ++
  if is_legacy r then []
  else
    match prev with
    | Some p => when (negb (is_legacy p) && negb (seq =? uint64 (Seq p + 1))) (SequenceGap seq (Seq p))
    | None => []
    end ++
    when (negb (String.eqb (canonicalAuditHash r) (Hash r))) (HashMismatch seq) ++
    match prev, anchor with
    | Some p, _ => when (negb (String.eqb (PrevHash r) (recordHash p (Seq p)))) (BrokenLink seq)
    | None, Some a =>
        when (negb (String.eqb (PrevHash r) (ref_Hash a))) (NoLinkToAnchor seq (ref_Seq a)) ++
        when (negb (seq =? uint64 (ref_Seq a + 1)) && (legacyRecords =? 0)) (GapAfterAnchor (ref_Seq a) seq)
    | None, None => when (negb (String.eqb (PrevHash r) "")) (DanglingFirst seq)
    end.
Fixpoint check_records (anchor : option chainRef) (legacyRecords : Z) (prev : option AuditEvent) (rs : list AuditEvent) : list Problem :=
  match rs with
  | [] => []
  | r :: rs => check_record anchor legacyRecords prev r ++ check_records anchor legacyRecords (Some r) rs
  end.

Definition seq_less (a b : AuditEvent) : bool := Seq a <? Seq b.
Definition verifyChainState (st : chainState) : ChainReport :=
  let hasAnchor := bool_decide (AnchorState st = refValid) in
  let anchor := if hasAnchor then Some (Anchor st) else None in
  let records := slice_stable seq_less (Records st) in
  let total := Z.of_nat (length records) in
  let legacy := count_if is_legacy records in
  let chained := count_if (fun e => negb (is_legacy e)) records in
  let firstSeq := match records with r :: _ => Seq r | [] => 0 end in
  let lastSeq := match last records with Some r => Seq r | None => 0 end in
  let headHash0 := match last records with Some r => recordHash r (Seq r) | None => "" end in
  let headHash := match HeadState st with
                  | refValid => if total =? 0 then ref_Hash (Head st) else headHash0
                  | _ => headHash0
                  end in
  let head_problems :=
    match HeadState st with
    | refMalformed => [HeadMalformed]
    | refValid =>
        if total =? 0 then when (negb hasAnchor || negb (bool_decide (Head st = Anchor st))) HeadNotAnchor
        else when (negb (ref_Seq (Head st) =? lastSeq) || negb (String.eqb (ref_Hash (Head st)) headHash0))
               (HeadMismatch (ref_Seq (Head st)) lastSeq)
    | refAbsent =>
        when (0 <? chained) HeadMissing ++
        when ((total =? 0) && hasAnchor) (HeadMissingPruned (ref_Seq (Anchor st)))
    end in
  let evidence := lastSeq in
  let evidence := if hasAnchor && (evidence <? ref_Seq (Anchor st)) then ref_Seq (Anchor st) else evidence in
  let headValid := bool_decide (HeadState st = refValid) in
  let evidence := if headValid && (evidence <? ref_Seq (Head st)) then ref_Seq (Head st) else evidence in
  let problems :=
    when (bool_decide (AnchorState st = refMalformed)) AnchorMalformed ++
    check_records anchor legacy None records ++
    head_problems ++
    when (Allocator st <? evidence) (AllocatorLow (Allocator st) evidence) ++
    when (headValid && ((0 <? chained) || (total =? 0)) && negb (Allocator st =? ref_Seq (Head st)))
      (AllocatorNotHead (Allocator st) (ref_Seq (Head st))) in
  mkReport total legacy chained firstSeq lastSeq headHash (if hasAnchor then ref_Seq (Anchor st) else 0) hasAnchor
    (match problems with [] => true | _ => false end) problems.

(** ** Appending *)

Definition IsControl (r : Z) : bool := (r <? 32) || ((127 <=? r) && (r <? 160)).
(** The loop of [Sanitize]: [n] bytes are written, [break] ends it. *)
Fixpoint sanitize_go (maxBytes : Z) (n : Z) (rs : list Z) : list Z :=
  match rs with
  | [] => []
  | r :: rs =>
      if IsControl r || (r =? 8232) || (r =? 8233) then sanitize_go maxBytes n rs
      else
        let w := Z.of_nat (length (encode_rune r)) in
        if maxBytes <? n + w then [] else encode_rune r ++ sanitize_go maxBytes (n + w) rs
  end.
Definition Sanitize (value : string) (maxBytes : Z) : string :=
  let value := TrimSpace value in
  if maxBytes <? 1 then "" else TrimSpace (string_of_bytes (sanitize_go maxBytes 0 (runes (bytes value)))).

Inductive AppendError := ErrInvalidAudit | ErrUnverified (first : Problem) | ErrInconsistentEmpty | ErrMetadataWithoutChain.
Definition sanitizeAuditEvent (event : AuditEvent) (now : Time) : AppendError + AuditEvent :=
  let event := mkEvent (if IsZero (Timestamp event) then now else Timestamp event)
    (Sanitize (RequestID event) 128) (Sanitize (Actor event) 200) (Sanitize (Action event) 128) (Sanitize (Target event) 200)
    (Sanitize (Method event) 16) (Sanitize (Path event) 256) (Sanitize (Outcome event) 64) (Status event)
    (Sanitize (Permission event) 64) (Sanitize (Authn event) 64) (Seq event) (PrevHash event) (Hash event) in
  if String.eqb (Actor event) "" || String.eqb (Action event) "" || String.eqb (Outcome event) "" ||
     (Status event <? 0) || (599 <? Status event)
  then inl ErrInvalidAudit else inr event.

Record appendPlan := mkPlan {
  p_Event : AuditEvent; p_PrunedSeqs : list Z; p_Head : chainRef; p_Anchor : chainRef; p_HasAnchor : bool; p_Allocator : Z }.

(** The pruned prefix: records over the retention age or over the count. *)
Fixpoint prune_count (cutoff : Z) (maxAuditItems : Z) (infos : list (Z * Z)) : nat :=
  match infos with
  | [] => O
  | (_, ts) :: rest =>
      if (ts <? cutoff) || (maxAuditItems <? Z.of_nat (length infos)) then S (prune_count cutoff maxAuditItems rest) else O
  end.
Definition info_less (a b : Z * Z) : bool := fst a <? fst b.
(** [bySeq]: the last record with the sequence, as in the map built by the loop. *)
Definition by_seq (records : list AuditEvent) (seq : Z) : option AuditEvent :=
  List.find (fun r => Seq r =? seq) (reverse records).
(** The checks between verification and planning; [Verified] is set back exactly
    when a problem is reported. *)
Definition append_gate (st : chainState) (report : ChainReport) : option AppendError :=
  match Problems report with
  | p :: _ => Some (ErrUnverified p)
  | [] =>
      if TotalRecords report =? 0 then
        let genesis := bool_decide (HeadState st = refAbsent) && bool_decide (AnchorState st = refAbsent) in
        let emptied := bool_decide (HeadState st = refValid) && bool_decide (AnchorState st = refValid) in
        if negb genesis && negb emptied then Some ErrInconsistentEmpty else None
      else if ChainedRecords report =? 0 then
        if negb (bool_decide (HeadState st = refAbsent)) || negb (bool_decide (AnchorState st = refAbsent))
        then Some ErrMetadataWithoutChain else None
      else None
  end.
(** The second half of [planAuditAppend], from the linked event on. *)
Definition plan_prune (st : chainState) (event : AuditEvent) (maxAuditItems cutoff : Z) : appendPlan :=
  let infos := map (fun r => (Seq r, UnixNano (Timestamp r))) (Records st) ++ [(Seq event, UnixNano (Timestamp event))] in
  let infos := slice_stable info_less infos in
  let toDelete := prune_count cutoff maxAuditItems infos in
  let prunedSeqs := map fst (take toDelete infos) in
  let pruned := match last prunedSeqs with
                | Some seq => Some (mkRef seq (recordHash (default event (by_seq (Records st) seq)) seq))
                | None => None
                end in
  let head := match pruned with
              | Some ref => if (toDelete =? length infos)%nat then ref else mkRef (Seq event) (Hash event)
              | None => mkRef (Seq event) (Hash event)
              end in
  let '(anchor, hasAnchor) := match pruned with
                              | Some ref => (ref, true)
                              | None => if bool_decide (AnchorState st = refValid) then (Anchor st, true) else (mkRef 0 "", false)
                              end in
  mkPlan event prunedSeqs head anchor hasAnchor (Seq event).
Definition link_event (st : chainState) (report : ChainReport) (event : AuditEvent) : AuditEvent :=
  let event := event <| Seq := uint64 (Allocator st + 1) |> <| PrevHash := HeadHash report |> in
  event <| Hash := canonicalAuditHash event |>.
Definition planAuditAppend (st : chainState) (event : AuditEvent) (maxAuditItems : Z) (retention : Duration)
    (stamp now : Time) : AppendError + appendPlan :=
  match sanitizeAuditEvent event stamp with
  | inl err => inl err
  | inr event =>
      let report := verifyChainState st in
      match append_gate st report with
      | Some err => inl err
      | None => inr (plan_prune st (link_event st report event) maxAuditItems (UnixNano (Add now (int64 (- retention)))))
      end
  end.

(** [parseChainRefMeta] on a decoded reference. *)
Definition ref_state (r : chainRef) : refState := if String.eqb (ref_Hash r) "" || (ref_Seq r =? 0) then refMalformed else refValid.
Definition load_ref (r : chainRef) : chainRef * refState :=
  match ref_state r with refValid => (r, refValid) | s => (mkRef 0 "", s) end.
(** The rows after the plan's deletes, insert and metadata writes, loaded again
    in sequence order. *)
Definition applyPlanTx (st : chainState) (plan : appendPlan) : chainState :=
  let kept := List.filter (fun r => negb (existsb (Z.eqb (Seq r)) (p_PrunedSeqs plan))) (Records st) in
  let insert := negb (existsb (Z.eqb (Seq (p_Event plan))) (p_PrunedSeqs plan)) in
  let rows := slice_stable seq_less (if insert then kept ++ [p_Event plan] else kept) in
  let '(head, headState) := load_ref (p_Head plan) in
  let '(anchor, anchorState) := if p_HasAnchor plan then load_ref (p_Anchor plan) else (Anchor st, AnchorState st) in
  mkState rows head headState anchor anchorState (p_Allocator plan).
Definition appendAuditInTx (st : chainState) (event : AuditEvent) (maxAuditItems : Z) (retention : Duration)
    (stamp now : Time) : chainState * option AppendError :=
  match planAuditAppend st event maxAuditItems retention stamp now with
  | inl err => (st, Some err)
  | inr plan => (applyPlanTx st plan, None)
  end.
Definition genesis : chainState := mkState [] (mkRef 0 "") refAbsent (mkRef 0 "") refAbsent 0.
