(* ===== verification/AuditChainProofs.v ===== *)
(** * The audit chain: appends keep it verified, and it is tamper evident

    From an empty log every accepted append, pruning included, yields a log
    that verifies again, so the append gate never locks the log; and two
    verified logs with the same head hash hold the same events, unless SHA-256
    collides.  The last theorem records a legacy log that locks itself. *)

From Stdlib Require Import Ascii.
From S2P Require Import Prelude Hash Text AuditChain.

Lemma chain_hash_nonempty s : chain_hash s <> "".
Proof.
  Transparent chain_hash. unfold chain_hash, sha256_hex. Opaque chain_hash. intros H%(f_equal String.length).
  rewrite EncodeToString_length, Sum256_length in H. done.
Qed.
Lemma hash_nonempty e : String.eqb (canonicalAuditHash e) "" = false.
Proof. apply String.eqb_neq, chain_hash_nonempty. Qed.

(** A sorted list is a fixed point of the stable sort. *)
Lemma slice_stable_id {A} (less : A -> A -> bool) (l : list A) :
  StronglySorted (fun x y => less y x = false) l -> slice_stable less l = l.
Proof.
  intros Hs. unfold slice_stable. enough (forall rp, StronglySorted (fun x y => less y x = false) (reverse rp ++ l) ->
    reverse (fold_left (fun rp x => insert_rev less x rp) l rp) = reverse rp ++ l) as H by apply (H [] Hs).
  clear Hs. induction l as [|x l IH]; intros rp Hs; cbn [fold_left]; [by rewrite app_nil_r|].
  assert (insert_rev less x rp = x :: rp) as E.
  { destruct rp as [|y rp]; [done|]. cbn [insert_rev]. rewrite reverse_cons, <- app_assoc in Hs.
    assert (less x y = false) as ->; [|done].
    apply (StronglySorted_lookup (fun x y => less y x = false) (reverse rp ++ y :: x :: l) (length (reverse rp)) (S (length (reverse rp))));
      [exact Hs|by rewrite list_lookup_middle| |lia].
    rewrite lookup_app_r by lia. by replace (S (length (reverse rp)) - length (reverse rp))%nat with 1%nat by lia. }
  rewrite E, IH; rewrite reverse_cons, <- app_assoc; done.
Qed.

(** ** Linked records *)

Definition is_chained (r : AuditEvent) : Prop := Hash r = canonicalAuditHash r.
(** The records follow the reference [(s, h)] one by one. *)
Fixpoint linked (h : string) (s : Z) (rs : list AuditEvent) : Prop :=
  match rs with
  | [] => True
  | r :: rs => Seq r = s + 1 /\ PrevHash r = h /\ is_chained r /\ linked (Hash r) (Seq r) rs
  end.
Fixpoint end_ref (h : string) (s : Z) (rs : list AuditEvent) : chainRef :=
  match rs with [] => mkRef s h | r :: rs => end_ref (Hash r) (Seq r) rs end.

Lemma chained_not_legacy r : is_chained r -> is_legacy r = false.
Proof. unfold is_chained, is_legacy. intros ->. apply hash_nonempty. Qed.
Lemma recordHash_chained r k : is_chained r -> recordHash r k = Hash r.
Proof. intros H%chained_not_legacy. unfold recordHash, is_legacy in *. by rewrite H. Qed.

Lemma linked_app h s rs rs' : linked h s (rs ++ rs') <->
  linked h s rs /\ linked (ref_Hash (end_ref h s rs)) (ref_Seq (end_ref h s rs)) rs'.
Proof. revert h s. induction rs as [|r rs IH]; intros h s; cbn; [naive_solver|]. rewrite IH. naive_solver. Qed.
Lemma end_ref_app h s rs rs' :
  end_ref h s (rs ++ rs') = end_ref (ref_Hash (end_ref h s rs)) (ref_Seq (end_ref h s rs)) rs'.
Proof. revert h s. induction rs as [|r rs IH]; intros h s; cbn; [done|]. apply IH. Qed.
Lemma end_ref_last h s rs r : end_ref h s (rs ++ [r]) = mkRef (Seq r) (Hash r).
Proof. by rewrite end_ref_app. Qed.
Lemma linked_seq h s rs : linked h s rs -> ref_Seq (end_ref h s rs) = s + Z.of_nat (length rs) /\
  forall i r, rs !! i = Some r -> Seq r = s + 1 + Z.of_nat i.
Proof.
  revert h s. induction rs as [|r rs IH]; intros h s; cbn [linked]; [cbn; intros _; split; [lia|done]|].
  intros (Hs & _ & _ & Hl). destruct (IH _ _ Hl) as [He Hi]. cbn [end_ref length]. split; [lia|].
  intros [|i] r'; cbn; [intros [= <-]; lia|]. intros Hr. rewrite (Hi i r' Hr). lia.
Qed.
Lemma linked_chained h s rs : linked h s rs -> Forall is_chained rs.
Proof. revert h s. induction rs as [|r rs IH]; intros h s; cbn; [constructor|]. intros (_ & _ & H & Hl). constructor; eauto. Qed.
Lemma linked_sorted h s rs : linked h s rs -> StronglySorted (fun x y => seq_less y x = false) rs.
Proof.
  revert h s. induction rs as [|r rs IH]; intros h s; cbn [linked]; [constructor|]. intros (Hs & _ & _ & Hl).
  constructor; [by eapply IH|]. apply Forall_lookup. intros i x Hx. destruct (linked_seq _ _ _ Hl) as [_ Hi].
  unfold seq_less. rewrite (Hi i x Hx). apply Z.ltb_ge. lia.
Qed.
Lemma linked_sort_id h s rs : linked h s rs -> slice_stable seq_less rs = rs.
Proof. intros H. by eapply slice_stable_id, linked_sorted. Qed.
Lemma count_none (f : AuditEvent -> bool) rs : Forall (fun r => f r = false) rs -> count_if f rs = 0.
Proof. unfold count_if. induction 1 as [|r rs Hr _ IH]; cbn; [done|]. by rewrite Hr. Qed.
Lemma count_all (f : AuditEvent -> bool) rs : Forall (fun r => f r = true) rs -> count_if f rs = Z.of_nat (length rs).
Proof. unfold count_if. induction 1 as [|r rs Hr _ IH]; cbn; [done|]. rewrite Hr. cbn [length]. lia. Qed.

Lemma check_linked_tail a n rs : forall p, is_chained p -> 0 <= Seq p -> Seq p + Z.of_nat (length rs) < 2 ^ 64 ->
  linked (Hash p) (Seq p) rs -> check_records a n (Some p) rs = [].
Proof.
  induction rs as [|r rs IH]; intros p Hp H0 Hb Hl; [done|]. cbn [linked length] in *. destruct Hl as (Hs & Hh & Hc & Hl).
  cbn [check_records]. rewrite (IH r Hc ltac:(lia) ltac:(lia) Hl), app_nil_r. unfold check_record.
  rewrite (chained_not_legacy r Hc), (chained_not_legacy p Hp), (recordHash_chained p _ Hp), Hh, String.eqb_refl, <- Hc, String.eqb_refl.
  rewrite uint64_id by lia. rewrite Hs, Z.eqb_refl. replace (Seq p + 1 <=? Seq p) with false by lia. done.
Qed.
Lemma check_linked a h s rs : 0 <= s -> s + Z.of_nat (length rs) < 2 ^ 64 -> linked h s rs ->
  match a with Some r => r = mkRef s h | None => h = "" end -> check_records a 0 None rs = [].
Proof.
  intros H0 Hb Hl Ha. destruct rs as [|r rs]; [done|]. cbn [linked length] in *. destruct Hl as (Hs & Hh & Hc & Hl).
  cbn [check_records]. rewrite (check_linked_tail a 0 rs r Hc ltac:(lia) ltac:(lia) Hl), app_nil_r. unfold check_record.
  rewrite (chained_not_legacy r Hc), <- Hc, String.eqb_refl. cbn [when negb app].
  destruct a as [a|]; rewrite Ha in *; cbn [ref_Hash ref_Seq].
  - rewrite Hh, String.eqb_refl, uint64_id, Hs, Z.eqb_refl by lia. done.
  - by rewrite Hh.
Qed.

(** ** The invariant of a log without legacy records *)

Definition bounds_ok (s : Z) (st : chainState) : Prop := 0 <= s /\ s + Z.of_nat (length (Records st)) < 2 ^ 64.
Inductive chain_inv (st : chainState) : Prop :=
  | inv_genesis : Records st = [] -> HeadState st = refAbsent -> AnchorState st = refAbsent -> bounds_ok (Allocator st) st -> chain_inv st
  | inv_unpruned s : bounds_ok s st -> linked "" s (Records st) -> Records st <> [] -> AnchorState st = refAbsent ->
      HeadState st = refValid -> Head st = end_ref "" s (Records st) -> Allocator st = ref_Seq (Head st) -> chain_inv st
  | inv_pruned s h : bounds_ok s st -> linked h s (Records st) -> AnchorState st = refValid -> Anchor st = mkRef s h ->
      s <> 0 -> h <> "" ->
      HeadState st = refValid -> Head st = end_ref h s (Records st) -> Allocator st = ref_Seq (Head st) -> chain_inv st.

(** What the three cases share: where the next record is linked. *)
Lemma inv_linked st : chain_inv st -> exists h s, bounds_ok s st /\ linked h s (Records st) /\
  Allocator st = ref_Seq (end_ref h s (Records st)) /\
  match AnchorState st with refValid => Anchor st = mkRef s h /\ s <> 0 /\ h <> "" | refAbsent => h = "" | refMalformed => False end /\
  match HeadState st with
  | refValid => Head st = end_ref h s (Records st) /\ (Records st = [] -> AnchorState st = refValid)
  | refAbsent => Records st = [] /\ AnchorState st = refAbsent
  | refMalformed => False
  end.
Proof.
  intros [Hr Hh Ha Hb|s Hb Hl Hn Ha Hs Hh Hal|s h Hb Hl Ha Han Hs0 Hh0 Hs Hh Hal].
  - exists "", (Allocator st). rewrite Hr, Hh, Ha. by split_and!.
  - exists "", s. rewrite Hs, Ha, <- Hh. by split_and!.
  - exists h, s. rewrite Hs, Ha, <- Hh. by split_and!.
Qed.
Lemma end_ref_spec h s rs : Forall is_chained rs ->
  match last rs with
  | Some r => end_ref h s rs = mkRef (Seq r) (Hash r) /\ recordHash r (Seq r) = Hash r
  | None => rs = [] /\ end_ref h s rs = mkRef s h
  end.
Proof.
  destruct rs as [|r rs _] using rev_ind; [done|]. rewrite last_snoc, end_ref_last, Forall_app.
  intros [_ Hr]. inversion Hr; subst. split; [done|by apply recordHash_chained].
Qed.

Lemma inv_problems st h s : bounds_ok s st -> linked h s (Records st) ->
  Allocator st = ref_Seq (end_ref h s (Records st)) ->
  match AnchorState st with refValid => Anchor st = mkRef s h /\ s <> 0 /\ h <> "" | refAbsent => h = "" | refMalformed => False end ->
  match HeadState st with
  | refValid => Head st = end_ref h s (Records st) /\ (Records st = [] -> AnchorState st = refValid)
  | refAbsent => Records st = [] /\ AnchorState st = refAbsent
  | refMalformed => False
  end ->
  Problems (verifyChainState st) = [] /\ HeadHash (verifyChainState st) = ref_Hash (end_ref h s (Records st)).
Proof.
  intros [H0 Hb] Hl Hal Ha Hh. pose proof (linked_chained _ _ _ Hl) as Hc. destruct (linked_seq _ _ _ Hl) as [He _].
  unfold verifyChainState. cbv zeta. cbn [Problems HeadHash]. rewrite (linked_sort_id _ _ _ Hl).
  assert (count_if is_legacy (Records st) = 0) as ->.
  { apply count_none. eapply Forall_impl; [exact Hc|apply chained_not_legacy]. }
  rewrite (check_linked _ h s (Records st) H0 Hb Hl)
    by (destruct (AnchorState st); [exact Ha|done|by destruct Ha]).
  pose proof (end_ref_spec h s (Records st) Hc) as Hlast. destruct (last (Records st)) as [r|] eqn:El.
  - destruct Hlast as [Er Hr]. rewrite Hr. rewrite Er in *. cbn [ref_Seq ref_Hash] in *.
    assert (Z.of_nat (length (Records st)) =? 0 = false) as -> by (by destruct (Records st)).
    destruct (HeadState st); [destruct Hh as [E _]; by rewrite E in El|done|]. destruct Hh as [-> _]. cbn [ref_Seq ref_Hash].
    rewrite Hal, Z.eqb_refl, String.eqb_refl.
    assert ((if bool_decide (AnchorState st = refValid) && (Seq r <? ref_Seq (Anchor st)) then ref_Seq (Anchor st) else Seq r) = Seq r) as ->.
    { destruct (AnchorState st); [done|done|]. destruct Ha as [-> _]. cbn [ref_Seq]. by replace (Seq r <? s) with false by lia. }
    rewrite Z.ltb_irrefl, andb_false_r, Z.ltb_irrefl. cbn [negb]. rewrite andb_false_r.
    split; [|done]. by destruct (AnchorState st).
  - destruct Hlast as [Er Hr]. rewrite Hr in *. rewrite Er in *. cbn [ref_Seq ref_Hash length] in *.
    destruct (HeadState st); [destruct Hh as [_ Ha']; rewrite Ha' in *|done|destruct Hh as [Hh Ha']; rewrite (Ha' eq_refl) in *].
    + rewrite Hal, Ha. change (bool_decide (refAbsent = refValid)) with false. cbv iota beta delta [andb].
      assert (s <? 0 = false) as -> by (apply Z.ltb_ge; lia). done.
    + destruct Ha as [-> _]. rewrite Hal, Hh. rewrite (bool_decide_eq_true_2 (mkRef s h = mkRef s h)) by done.
      change (bool_decide (refValid = refValid)) with true. cbn [ref_Seq ref_Hash]. rewrite (Z.eqb_refl s).
      cbn [negb]. rewrite andb_false_r. cbn [negb andb orb]. split; [|done].
      assert ((if 0 <? s then s else 0) = s) as -> by (destruct (Z.ltb_spec 0 s); lia). by rewrite !Z.ltb_irrefl.
Qed.

Lemma inv_verifies st : chain_inv st -> exists h s, bounds_ok s st /\ linked h s (Records st) /\
  Allocator st = ref_Seq (end_ref h s (Records st)) /\
  Problems (verifyChainState st) = [] /\ HeadHash (verifyChainState st) = ref_Hash (end_ref h s (Records st)) /\
  append_gate st (verifyChainState st) = None /\
  match AnchorState st with refValid => Anchor st = mkRef s h /\ s <> 0 /\ h <> "" | refAbsent => h = "" | refMalformed => False end.
Proof.
  intros H. destruct (inv_linked st H) as (h & s & Hb & Hl & Hal & Ha & Hh).
  destruct (inv_problems st h s Hb Hl Hal Ha Hh) as [Hp Hhh]. exists h, s. split_and!; try done.
  unfold append_gate. rewrite Hp. unfold verifyChainState. cbv zeta. cbn [TotalRecords ChainedRecords]. rewrite (linked_sort_id _ _ _ Hl).
  destruct (Records st) as [|r rs] eqn:Er.
  - cbn [length Z.of_nat Z.eqb]. destruct (HeadState st); [by destruct Hh as [_ ->]|done|destruct Hh as [_ Hh]; by rewrite Hh].
  - rewrite count_all; [done|]. eapply Forall_impl; [exact (linked_chained _ _ _ Hl)|]. intros x Hx. by rewrite chained_not_legacy.
Qed.

(** ** Appending and pruning *)

Lemma linked_nodup h s rs : linked h s rs -> NoDup (Seq <$> rs).
Proof.
  intros Hl. destruct (linked_seq _ _ _ Hl) as [_ Hi]. apply NoDup_alt. intros i j x.
  rewrite !list_lookup_fmap. intros (r & Hr & ->)%fmap_Some (r' & Hr' & E)%fmap_Some.
  rewrite (Hi i r Hr), (Hi j r' Hr') in E. lia.
Qed.
Lemma filter_pruned (rs : list AuditEvent) k : NoDup (Seq <$> rs) ->
  List.filter (fun r => negb (existsb (Z.eqb (Seq r)) (map Seq (take k rs)))) rs = drop k rs.
Proof.
  intros Hn. set (f := fun r : AuditEvent => _).
  transitivity (List.filter f (take k rs ++ drop k rs)); [by rewrite take_drop|]. rewrite List.filter_app. unfold f. clear f.
  assert (forall l : list AuditEvent, (forall r, r ∈ l -> r ∈ take k rs) ->
    List.filter (fun r => negb (existsb (Z.eqb (Seq r)) (map Seq (take k rs)))) l = []) as H1.
  { induction l as [|r l IH]; intros Hin; [done|]. cbn [List.filter].
    assert (existsb (Z.eqb (Seq r)) (map Seq (take k rs)) = true) as ->.
    { apply existsb_exists. exists (Seq r). split; [|apply Z.eqb_refl]. apply in_map, list_elem_of_In, Hin. by left. }
    apply IH. intros x Hx. apply Hin. by right. }
  assert (forall l : list AuditEvent, (forall r, r ∈ l -> r ∈ drop k rs) ->
    List.filter (fun r => negb (existsb (Z.eqb (Seq r)) (map Seq (take k rs)))) l = l) as H2.
  { induction l as [|r l IH]; intros Hin; [done|]. cbn [List.filter].
    assert (existsb (Z.eqb (Seq r)) (map Seq (take k rs)) = false) as ->.
    { apply not_true_is_false. intros (x & Hx & Hxr)%existsb_exists. apply in_map_iff in Hx as (r' & <- & Hr').
      apply Z.eqb_eq in Hxr. rewrite <- (take_drop k rs), fmap_app in Hn. apply NoDup_app in Hn as (_ & Hd & _).
      apply (Hd (Seq r')); [by apply list_elem_of_fmap_2, list_elem_of_In|]. rewrite <- Hxr.
      apply list_elem_of_fmap_2, Hin. by left. }
    f_equal. apply IH. intros x Hx. apply Hin. by right. }
  rewrite H1, H2; done.
Qed.
Lemma prune_count_le c n infos : (prune_count c n infos <= length infos)%nat.
Proof. induction infos as [|[? ts] l IH]; cbn; [lia|]. destruct (_ || _); cbn; lia. Qed.
Lemma prune_count_bound c n infos : 0 <= n -> Z.of_nat (length infos - prune_count c n infos) <= n.
Proof.
  intros Hn. induction infos as [|[x ts] l IH]; cbn [prune_count length]; [lia|].
  destruct (_ || _) eqn:E; [lia|].
  apply orb_false_iff in E as [_ E%Z.ltb_ge]. lia.
Qed.

(** The plan of an accepted append, as a list operation: append the new
    record and drop a prefix. *)
Definition new_record (st : chainState) (e : AuditEvent) : AuditEvent := link_event st (verifyChainState st) e.
Lemma hash_ignores_hash e h : canonicalAuditHash (e <| Hash := h |>) = canonicalAuditHash e.
Proof. done. Qed.
Lemma new_record_chained st e : is_chained (new_record st e).
Proof. unfold is_chained, new_record, link_event. by rewrite hash_ignores_hash. Qed.

Lemma by_seq_linked h s rs i r : linked h s rs -> rs !! i = Some r -> by_seq rs (Seq r) = Some r.
Proof.
  intros Hl Hr. unfold by_seq. destruct (List.find _ _) as [r'|] eqn:E.
  - apply List.find_some in E as [Hin Heq%Z.eqb_eq]. apply list_elem_of_In in Hin. rewrite elem_of_reverse in Hin. apply list_elem_of_lookup in Hin as [j Hj].
    destruct (linked_seq _ _ _ Hl) as [_ Hi]. rewrite (Hi i r Hr), (Hi j r' Hj) in Heq. assert (i = j) as <- by lia. congruence.
  - exfalso. assert (In r (reverse rs)) as Hin by (apply list_elem_of_In, elem_of_reverse; by eapply list_elem_of_lookup_2).
    apply (List.find_none _ _ E r) in Hin. by rewrite Z.eqb_refl in Hin.
Qed.

Definition info_of (r : AuditEvent) : Z * Z := (Seq r, UnixNano (Timestamp r)).
Lemma infos_sorted h s rs : linked h s rs -> slice_stable info_less (map info_of rs) = map info_of rs.
Proof.
  intros Hl%linked_sorted. apply slice_stable_id. induction Hl as [|r rs Hl IH Hall]; cbn; constructor; [done|].
  by apply List.Forall_map.
Qed.
Lemma new_record_linked st e h s : bounds_ok s st -> Allocator st + 1 < 2 ^ 64 -> linked h s (Records st) ->
  Allocator st = ref_Seq (end_ref h s (Records st)) -> HeadHash (verifyChainState st) = ref_Hash (end_ref h s (Records st)) ->
  linked h s (Records st ++ [new_record st e]) /\ Seq (new_record st e) = Allocator st + 1.
Proof.
  intros [H0 Hb] Hw Hl Hal Hhh. destruct (linked_seq _ _ _ Hl) as [He _].
  assert (Seq (new_record st e) = Allocator st + 1) as Hs.
  { change (uint64 (Allocator st + 1) = Allocator st + 1). apply uint64_id. lia. }
  split; [|done]. apply linked_app. split; [done|]. cbn [linked]. rewrite <- Hal.
  split_and!; [done|exact Hhh|apply new_record_chained|done].
Qed.

(** The last pruned record is the anchor. *)
Lemma pruned_ref h s (rs : list AuditEvent) new k : linked h s (rs ++ [new]) ->
  match last (map Seq (take k (rs ++ [new]))) with
  | Some seq => Some (mkRef seq (recordHash (default new (by_seq rs seq)) seq))
  | None => None
  end = if (k =? 0)%nat then None else Some (end_ref h s (take k (rs ++ [new]))).
Proof.
  intros Hl. destruct k as [|k]; [by destruct (rs ++ [new])|]. cbn [Nat.eqb].
  pose proof Hl as Ht. rewrite <- (take_drop (S k) (rs ++ [new])) in Ht. apply linked_app in Ht as [Ht _].
  destruct (take (S k) (rs ++ [new])) as [|r l _] eqn:E using rev_ind; [by destruct rs|].
  rewrite map_app. cbn [map]. rewrite last_snoc, end_ref_last. do 2 f_equal.
  assert (is_chained r) as Hr by (apply linked_chained in Ht; rewrite Forall_app, Forall_singleton in Ht; by destruct Ht).
  assert ((rs ++ [new]) !! length l = Some r) as Hlk.
  { assert (take (S k) (rs ++ [new]) !! length l = Some r) as H by (rewrite E; by rewrite list_lookup_middle).
    by apply lookup_take_Some in H as [H _]. }
  enough (default new (by_seq rs (Seq r)) = r) as -> by by apply recordHash_chained.
  apply linked_app in Hl as [Hrs Hnew]. apply lookup_app_Some in Hlk as [Hlk|[Hlk1 Hlk2]].
  - by rewrite (by_seq_linked h s rs (length l) r Hrs Hlk).
  - destruct (length l - length rs)%nat; [|done]. injection Hlk2 as <-. unfold by_seq.
    destruct (List.find _ _) as [r'|] eqn:Ef; [|done]. exfalso. apply List.find_some in Ef as [Hin Heq%Z.eqb_eq].
    apply list_elem_of_In in Hin. rewrite elem_of_reverse in Hin. apply list_elem_of_lookup in Hin as [j Hj].
    destruct (linked_seq _ _ _ Hrs) as [He Hi]. rewrite (Hi j r' Hj) in Heq. cbn [linked] in Hnew. rewrite He in Hnew.
    apply lookup_lt_Some in Hj. lia.
Qed.

(** ** One append *)

Lemma prune_shape st new m cutoff h s : linked h s (Records st ++ [new]) ->
  exists k, (k <= length (Records st ++ [new]))%nat /\ (0 <= m -> Z.of_nat (length (Records st ++ [new]) - k) <= m) /\
    plan_prune st new m cutoff = mkPlan new (map Seq (take k (Records st ++ [new]))) (end_ref h s (Records st ++ [new]))
      (if (k =? 0)%nat then if bool_decide (AnchorState st = refValid) then Anchor st else mkRef 0 ""
       else end_ref h s (take k (Records st ++ [new])))
      (if (k =? 0)%nat then bool_decide (AnchorState st = refValid) else true) (Seq new).
Proof.
  intros Hl. set (all := Records st ++ [new]). set (k := prune_count cutoff m (map info_of all)). exists k.
  pose proof (prune_count_le cutoff m (map info_of all)) as Hk. pose proof (prune_count_bound cutoff m (map info_of all)) as Hm.
  rewrite length_map in Hk, Hm. split_and!; [exact Hk|exact Hm|]. unfold plan_prune.
  change (map _ (Records st) ++ [_]) with (map info_of (Records st) ++ map info_of [new]).
  rewrite <- map_app. fold all. rewrite (infos_sorted h s all Hl). fold k. cbv zeta.
  rewrite length_map, firstn_map, map_map. change (map (fun x => fst (info_of x)) ?l) with (map Seq l).
  pose proof (pruned_ref h s (Records st) new k Hl) as Hp. fold all in Hp. rewrite Hp.
  assert (end_ref h s all = mkRef (Seq new) (Hash new)) as He by apply end_ref_last.
  destruct (Nat.eqb_spec k 0) as [Hz|Hz]; [rewrite He; by case_bool_decide|].
  f_equal. destruct (Nat.eqb_spec k (length all)) as [Hall|]; [|by rewrite He]. by rewrite Hall, firstn_all.
Qed.

Lemma ref_state_valid r : ref_Hash r <> "" -> ref_Seq r <> 0 -> load_ref r = (r, refValid).
Proof.
  intros H1 H2. unfold load_ref, ref_state. rewrite (proj2 (String.eqb_neq _ _) H1), (proj2 (Z.eqb_neq _ _) H2). done.
Qed.
Lemma end_ref_valid h s rs : 0 <= s -> linked h s rs -> rs <> [] ->
  ref_Hash (end_ref h s rs) <> "" /\ ref_Seq (end_ref h s rs) <> 0 /\ 0 <= ref_Seq (end_ref h s rs).
Proof.
  intros H0 Hl Hn. destruct (linked_seq _ _ _ Hl) as [He _]. pose proof (linked_chained _ _ _ Hl) as Hc.
  assert (0 < Z.of_nat (length rs)) by (destruct rs; [done|cbn; lia]). split_and!; [|lia|lia].
  destruct rs as [|r rs _] using rev_ind; [done|]. rewrite end_ref_last. cbn [ref_Hash].
  rewrite Forall_app, Forall_singleton in Hc. destruct Hc as [_ ->]. apply chain_hash_nonempty.
Qed.
(** The rows after the plan are the retained suffix. *)
Lemma apply_rows st new k h s : linked h s (Records st ++ [new]) ->
  slice_stable seq_less
    (if negb (existsb (Z.eqb (Seq new)) (map Seq (take k (Records st ++ [new]))))
     then List.filter (fun r => negb (existsb (Z.eqb (Seq r)) (map Seq (take k (Records st ++ [new]))))) (Records st) ++ [new]
     else List.filter (fun r => negb (existsb (Z.eqb (Seq r)) (map Seq (take k (Records st ++ [new]))))) (Records st))
  = drop k (Records st ++ [new]).
Proof.
  intros Hl. pose proof (filter_pruned (Records st ++ [new]) k (linked_nodup _ _ _ Hl)) as Hf.
  rewrite List.filter_app in Hf. cbn [List.filter] in Hf.
  assert (slice_stable seq_less (drop k (Records st ++ [new])) = drop k (Records st ++ [new])) as Hs.
  { rewrite <- (take_drop k (Records st ++ [new])) in Hl. apply linked_app in Hl as [_ Hl]. by eapply linked_sort_id. }
  rewrite <- Hs. f_equal. rewrite <- Hf. destruct (negb _); [done|]. by rewrite app_nil_r.
Qed.
Lemma apply_inv st new m cutoff h s : bounds_ok s st -> Allocator st + 1 < 2 ^ 64 -> linked h s (Records st ++ [new]) ->
  Allocator st = ref_Seq (end_ref h s (Records st)) ->
  match AnchorState st with refValid => Anchor st = mkRef s h /\ s <> 0 /\ h <> "" | refAbsent => h = "" | refMalformed => False end ->
  let st' := applyPlanTx st (plan_prune st new m cutoff) in
  chain_inv st' /\ Allocator st' = Seq new /\ (0 <= m -> Z.of_nat (length (Records st')) <= m).
Proof.
  intros [H0 Hb] Hw Hl Hal Ha. cbv zeta. destruct (prune_shape st new m cutoff h s Hl) as (k & Hk & Hm & ->).
  unfold applyPlanTx. cbn [p_PrunedSeqs p_Event p_Head p_HasAnchor p_Anchor p_Allocator].
  rewrite (apply_rows st new k h s Hl). destruct (linked_seq _ _ _ Hl) as [He _]. pose proof Hl as Hl0. apply linked_app in Hl0 as [Hl0 Hn0].
  destruct (linked_seq _ _ _ Hl0) as [He0 _]. rewrite length_app in He. cbn [length] in He.
  destruct (end_ref_valid h s _ H0 Hl) as (Hh1 & Hh2 & Hh3); [by destruct (Records st)|].
  rewrite (ref_state_valid _ Hh1 Hh2). pose proof (end_ref_last h s (Records st) new) as Hlast.
  assert (forall an ast, Allocator (mkState (drop k (Records st ++ [new])) (end_ref h s (Records st ++ [new])) refValid an ast (Seq new)) =
    ref_Seq (Head (mkState (drop k (Records st ++ [new])) (end_ref h s (Records st ++ [new])) refValid an ast (Seq new)))) as Hal'.
  { intros an ast. cbn. by rewrite Hlast. }
  assert (0 <= m -> Z.of_nat (length (drop k (Records st ++ [new]))) <= m) as Hm' by (rewrite length_drop; done).
  destruct (Nat.eqb_spec k 0) as [->|Hz].
  - rewrite drop_0 in *. destruct (AnchorState st) eqn:Ea; [|done|].
    + cbn [bool_decide]. change (bool_decide (refAbsent = refValid)) with false. cbv iota. split_and!; [|done|exact Hm'].
      subst h. eapply (inv_unpruned _ s); try done; [split; [done|cbn; rewrite length_app; cbn; lia]|by destruct (Records st)].
    + destruct Ha as (-> & Hs0 & Hh0). change (bool_decide (refValid = refValid)) with true. cbv iota.
      rewrite ref_state_valid by done. split_and!; [|done|exact Hm'].
      eapply (inv_pruned _ s h); try done. split; [done|cbn; rewrite length_app; cbn; lia].
  - pose proof Hl as Hsp. rewrite <- (take_drop k (Records st ++ [new])) in Hsp. apply linked_app in Hsp as [Ht Hd].
    destruct (end_ref_valid h s _ H0 Ht) as (Ht1 & Ht2 & Ht3); [by destruct k, (Records st)|].
    rewrite (ref_state_valid _ Ht1 Ht2). split_and!; [|done|exact Hm'].
    eapply (inv_pruned _ (ref_Seq (end_ref h s (take k (Records st ++ [new])))) (ref_Hash (end_ref h s (take k (Records st ++ [new])))));
      [|exact Hd|reflexivity| |exact Ht2|exact Ht1|reflexivity| |apply Hal'].
    + split; [done|]. cbn [Records]. destruct (linked_seq _ _ _ Ht) as [-> _]. rewrite length_take, length_drop, length_app. cbn [length]. lia.
    + cbn [Anchor]. by destruct (end_ref h s (take k (Records st ++ [new]))).
    + cbn [Head Records]. by rewrite <- end_ref_app, take_drop.
Qed.

Section log.
Context (maxAuditItems : Z) (retention : Duration).

(** An append request with its two clock readings. *)
Record Append := mkAppend { a_event : AuditEvent; a_stamp : Time; a_now : Time }.
Definition verdict (a : Append) : option AppendError :=
  match sanitizeAuditEvent (a_event a) (a_stamp a) with inl err => Some err | inr _ => None end.
Fixpoint run_appends (st : chainState) (l : list Append) : chainState * list (option AppendError) :=
  match l with
  | [] => (st, [])
  | a :: l =>
      let '(st, err) := appendAuditInTx st (a_event a) maxAuditItems retention (a_stamp a) (a_now a) in
      let '(st, errs) := run_appends st l in (st, err :: errs)
  end.
Definition accepted (l : list Append) : Z := Z.of_nat (length (List.filter (fun a => match verdict a with None => true | _ => false end) l)).

Lemma append_step st a : chain_inv st -> Allocator st + 1 < 2 ^ 64 ->
  let '(st', err) := appendAuditInTx st (a_event a) maxAuditItems retention (a_stamp a) (a_now a) in
  err = verdict a /\ chain_inv st' /\
  match err with
  | Some _ => st' = st
  | None => Allocator st' = Allocator st + 1 /\ (0 <= maxAuditItems -> Z.of_nat (length (Records st')) <= maxAuditItems)
  end.
Proof.
  intros H Hw. unfold appendAuditInTx, planAuditAppend, verdict.
  destruct (sanitizeAuditEvent (a_event a) (a_stamp a)) as [err|e]; [done|].
  destruct (inv_verifies st H) as (h & s & Hb & Hl & Hal & _ & Hhh & -> & Ha). cbv zeta.
  change (link_event st (verifyChainState st) e) with (new_record st e).
  destruct (new_record_linked st e h s Hb Hw Hl Hal Hhh) as [Hl' Hs].
  destruct (apply_inv st (new_record st e) maxAuditItems (UnixNano (Add (a_now a) (int64 (- retention)))) h s Hb Hw Hl' Hal Ha) as (H1 & H2 & H3).
  split_and!; [done|exact H1|congruence|exact H3].
Qed.
Lemma run_appends_inv l : forall st, chain_inv st -> Allocator st + Z.of_nat (length l) < 2 ^ 64 ->
  (0 <= maxAuditItems -> Z.of_nat (length (Records st)) <= maxAuditItems) ->
  let '(st', errs) := run_appends st l in
  errs = map verdict l /\ chain_inv st' /\ Allocator st' = Allocator st + accepted l /\
  (0 <= maxAuditItems -> Z.of_nat (length (Records st')) <= maxAuditItems).
Proof.
  induction l as [|a l IH]; intros st H Hw Hm; cbn [run_appends]; [split_and!; try done; unfold accepted; cbn; lia|].
  cbn [length] in Hw. pose proof (append_step st a H ltac:(lia)) as Hs.
  destruct (appendAuditInTx _ _ _ _ _ _) as [st1 err]. destruct Hs as (-> & H1 & H2).
  assert (Allocator st1 = Allocator st + (match verdict a with None => 1 | _ => 0 end) /\
    (0 <= maxAuditItems -> Z.of_nat (length (Records st1)) <= maxAuditItems)) as [Ha1 Hm1].
  { destruct (verdict a); [subst; split; [lia|done]|done]. }
  assert (Allocator st1 <= Allocator st + 1) by (destruct (verdict a); lia).
  specialize (IH st1 H1 ltac:(lia) Hm1). destruct (run_appends st1 l) as [st2 errs]. destruct IH as (-> & H3 & H4 & H5).
  split_and!; [done|done| |done]. rewrite H4, Ha1. unfold accepted. cbn [List.filter]. destruct (verdict a); cbn [length]; lia.
Qed.

(** (C19) A log that starts empty never locks itself.  After any sequence of
    appends (fewer than 2^64) it verifies; an append is refused exactly when
    its event is invalid after sanitization, never because of the chain; the
    allocator counts the accepted appends; and no more records are retained
    than configured. *)
Theorem audit_log_stays_verified l : Z.of_nat (length l) < 2 ^ 64 ->
  let '(st, errs) := run_appends genesis l in
  Verified (verifyChainState st) = true /\ errs = map verdict l /\ Allocator st = accepted l /\
  (0 <= maxAuditItems -> Z.of_nat (length (Records st)) <= maxAuditItems).
Proof.
  intros Hl. assert (chain_inv genesis) as H by (apply inv_genesis; done).
  pose proof (run_appends_inv l genesis H ltac:(cbn; lia) ltac:(cbn; lia)) as Hr.
  destruct (run_appends genesis l) as [st errs]. destruct Hr as (H1 & H2 & H3 & H4).
  destruct (inv_verifies st H2) as (h & s & _ & _ & _ & Hp & _). split_and!; [|done|done|done].
  change (match Problems (verifyChainState st) with [] => true | _ => false end = true). by rewrite Hp.
Qed.
End log.

(** ** Tamper evidence *)

(** Two logs exhibit a collision of SHA-256: at the same distance from the newest
    record they hold records whose hashed texts differ and whose hashes agree. *)
Definition collision_in (rs rs' : list AuditEvent) : Prop :=
  exists i r r', reverse rs !! i = Some r /\ reverse rs' !! i = Some r' /\
    canonical_text r <> canonical_text r' /\ chain_hash (canonical_text r) = chain_hash (canonical_text r').

Lemma digits_colon_inj (a b x y : string) : str_forall is_digit a = true -> str_forall is_digit b = true ->
  a +:+ ":" +:+ x = b +:+ ":" +:+ y -> a = b /\ x = y.
Proof.
  revert b. induction a as [|c a IH]; intros [|d b] Ha Hb E.
  - by injection E.
  - exfalso. change (String ":" x = String d (b +:+ ":" +:+ y)) in E. injection E as <- _. discriminate Hb.
  - exfalso. change (String c (a +:+ ":" +:+ x) = String ":" y) in E. injection E as -> _. discriminate Ha.
  - change (String c (a +:+ ":" +:+ x) = String d (b +:+ ":" +:+ y)) in E. injection E as -> E.
    cbn [str_forall] in Ha, Hb. apply andb_true_iff in Ha as [_ Ha]. apply andb_true_iff in Hb as [_ Hb].
    destruct (IH b Ha Hb E) as [-> ->]. done.
Qed.
Lemma str_app_inj_length (a b x y : string) : String.length a = String.length b -> a +:+ x = b +:+ y -> a = b /\ x = y.
Proof.
  revert b. induction a as [|c a IH]; intros [|d b] Hl E; try discriminate Hl; [done|].
  change (String c (a +:+ x) = String d (b +:+ y)) in E. injection E as -> E. injection Hl as Hl.
  destruct (IH b Hl E) as [-> ->]. done.
Qed.
Lemma field_inj a b x y : field a +:+ x = field b +:+ y -> a = b /\ x = y.
Proof.
  unfold field. rewrite !str_app_assoc3. intros E. apply (str_app_inj_length "|" "|") in E as [_ E]; [|done].
  apply digits_colon_inj in E as [E1 E2]; [|apply Itoa_digits; lia|apply Itoa_digits; lia].
  apply Itoa_inj, Nat2Z.inj in E1. by apply str_app_inj_length.
Qed.
Lemma encode_fields_inj l l' : encode_fields l = encode_fields l' -> l = l'.
Proof.
  revert l'. induction l as [|a l IH]; intros [|b l'] E; [done|discriminate E|discriminate E|].
  cbn [encode_fields fold_right] in E. apply field_inj in E as [-> E]. f_equal. by apply IH.
Qed.
(** The canonical text determines the fields. *)
Lemma canonical_text_inj e e' : canonical_text e = canonical_text e' -> canonical_fields e = canonical_fields e'.
Proof. intros E. apply str_app_inj_length in E as [_ E]; [|done]. by apply encode_fields_inj. Qed.
Lemma fields_or_texts e e' :
  canonical_fields e = canonical_fields e' \/ canonical_text e <> canonical_text e'.
Proof. destruct (decide (canonical_text e = canonical_text e')) as [Ht|Ht]; [left; by apply canonical_text_inj|by right]. Qed.
Lemma collision_in_snoc rs rs' r r' : collision_in rs rs' -> collision_in (rs ++ [r]) (rs' ++ [r']).
Proof. intros (i & x & x' & H). exists (S i), x, x'. by rewrite !reverse_snoc. Qed.

(** What verification says of the newest records. *)
Lemma check_records_app a n prev l1 l2 :
  check_records a n prev (l1 ++ l2) = check_records a n prev l1 ++ check_records a n (match last l1 with Some p => Some p | None => prev end) l2.
Proof.
  revert prev. induction l1 as [|r l1 IH]; intros prev; [done|]. cbn [app check_records]. rewrite IH, app_assoc.
  do 2 f_equal. rewrite last_cons. by destruct (last l1).
Qed.
Lemma when_nil b p : when b p = [] -> b = false.
Proof. by destruct b. Qed.
Lemma check_last a n prev rs r : check_records a n prev (rs ++ [r]) = [] -> is_legacy r = false ->
  check_records a n prev rs = [] /\ Hash r = canonicalAuditHash r /\
  match last rs with Some p => is_legacy p = false -> PrevHash r = Hash p | None => True end.
Proof.
  rewrite check_records_app. cbn [check_records]. rewrite app_nil_r. intros [H1 H2]%app_eq_nil Hr. split; [done|].
  unfold check_record in H2. rewrite Hr in H2. apply app_eq_nil in H2 as [_ H2]. apply app_eq_nil in H2 as [_ H2].
  apply app_eq_nil in H2 as [H2 H3]. apply when_nil, negb_false_iff, String.eqb_eq in H2. split; [done|].
  destruct (last rs) as [p|]; [|done]. intros Hp. apply when_nil, negb_false_iff, String.eqb_eq in H3.
  rewrite H3. unfold recordHash. unfold is_legacy in Hp. by rewrite Hp.
Qed.

Lemma chains_agree a n a' n' rs : forall rs', check_records a n None rs = [] -> check_records a' n' None rs' = [] ->
  Forall (fun r => is_legacy r = false) rs -> Forall (fun r => is_legacy r = false) rs' ->
  Hash <$> last rs = Hash <$> last rs' -> collision_in rs rs' \/
  forall i r r', reverse rs !! i = Some r -> reverse rs' !! i = Some r' -> canonical_fields r = canonical_fields r' /\ Hash r = Hash r'.
Proof.
  induction rs as [|r rs IH] using rev_ind; intros rs' H H' Hc Hc' Hh; [by right|].
  destruct rs' as [|r' rs' _] using rev_ind; [by right|].
  rewrite !last_snoc in Hh. injection Hh as Hh. apply Forall_app in Hc as [Hc Hcr]. apply Forall_app in Hc' as [Hc' Hcr'].
  rewrite Forall_singleton in Hcr, Hcr'.
  destruct (check_last _ _ _ _ _ H Hcr) as (H1 & H2 & H3). destruct (check_last _ _ _ _ _ H' Hcr') as (H1' & H2' & H3').
  destruct (fields_or_texts r r') as [Hf|Ht].
  2: { left. exists 0%nat, r, r'. rewrite !reverse_snoc. split_and!; try done. unfold canonicalAuditHash in *. congruence. }
  assert (PrevHash r = PrevHash r') as Hp by (unfold canonical_fields in Hf; congruence).
  assert (collision_in rs rs' \/ forall i x x', reverse rs !! i = Some x -> reverse rs' !! i = Some x' ->
    canonical_fields x = canonical_fields x' /\ Hash x = Hash x') as [?|Hrec].
  { destruct (last rs) as [p|] eqn:El; [|apply last_None in El as ->; by right].
    destruct (last rs') as [p'|] eqn:El'; [|apply last_None in El' as ->; right; intros i x x' _ Hx; by rewrite reverse_nil, lookup_nil in Hx].
    apply (IH rs'); try done. rewrite El'. cbn [fmap option_fmap option_map]. f_equal.
    apply last_Some in El as [l ->]. apply last_Some in El' as [l' ->].
    rewrite Forall_app, Forall_singleton in Hc, Hc'. destruct Hc as [_ Hc], Hc' as [_ Hc'].
    by rewrite <- (H3 Hc), <- (H3' Hc'). }
  { left. by apply collision_in_snoc. }
  right. intros i x x'. rewrite !reverse_snoc. destruct i as [|i]; cbn; [|apply Hrec].
  intros [= <-] [= <-]. done.
Qed.

Definition sorted_records (st : chainState) : list AuditEvent := slice_stable seq_less (Records st).
Lemma verified_records st : Verified (verifyChainState st) = true ->
  check_records (if bool_decide (AnchorState st = refValid) then Some (Anchor st) else None)
    (count_if is_legacy (sorted_records st)) None (sorted_records st) = [].
Proof.
  unfold verifyChainState. cbv zeta. cbn [Verified]. intros H.
  destruct (when (bool_decide (AnchorState st = refMalformed)) AnchorMalformed ++ _) eqn:E; [|done].
  apply app_eq_nil in E as [_ E]. by apply app_eq_nil in E as [E _].
Qed.

(** (C35) Tamper evidence.  If two logs of chained records both verify and their
    newest records carry the same hash, then record by record from the newest
    backwards they hold the same sequence number, link, timestamp and event
    fields, unless two records of these very logs, equally far from the newest,
    are a collision of SHA-256: their hashed texts differ and their hashes agree. *)
Theorem tamper_evident st st' : Verified (verifyChainState st) = true -> Verified (verifyChainState st') = true ->
  Forall (fun r => is_legacy r = false) (sorted_records st) -> Forall (fun r => is_legacy r = false) (sorted_records st') ->
  Hash <$> last (sorted_records st) = Hash <$> last (sorted_records st') ->
  collision_in (sorted_records st) (sorted_records st') \/
  forall i r r', reverse (sorted_records st) !! i = Some r -> reverse (sorted_records st') !! i = Some r' ->
    canonical_fields r = canonical_fields r' /\ Hash r = Hash r'.
Proof.
  intros H H' Hc Hc' Hh. exact (chains_agree _ _ _ _ _ _ (verified_records st H) (verified_records st' H') Hc Hc' Hh).
Qed.

(** ** Samples *)

Definition login (actor : string) : AuditEvent := mkEvent 0 "req-1" actor "login" "" "POST" "/login" "ok" 200 "" "" 0 "" "".
Definition t0 : Time := unix_epoch + 1700000000 * Second.
Definition sample_appends : list Append := [mkAppend (login "alice") t0 t0; mkAppend (login "") t0 t0; mkAppend (login "bob") (t0 + 1) (t0 + 1)].
Definition sample_log (items : Z) : chainState := fst (run_appends items (24 * Hour) genesis sample_appends).
Lemma audit_log_stays_verified_witness :
  let '(st, errs) := run_appends 1 (24 * Hour) genesis sample_appends in
  Verified (verifyChainState st) = true /\ errs = map verdict sample_appends /\ Allocator st = accepted sample_appends /\
  (0 <= 1 -> Z.of_nat (length (Records st)) <= 1).
Proof. apply audit_log_stays_verified. cbn. lia. Defined.
Lemma tamper_evident_witness : collision_in (sorted_records (sample_log 1)) (sorted_records (sample_log 5)) \/
  forall i r r', reverse (sorted_records (sample_log 1)) !! i = Some r -> reverse (sorted_records (sample_log 5)) !! i = Some r' ->
    canonical_fields r = canonical_fields r' /\ Hash r = Hash r'.
Proof.
  apply (tamper_evident (sample_log 1) (sample_log 5)); [vm_compute; reflexivity|vm_compute; reflexivity| | |vm_compute; reflexivity].
  - assert (forallb (fun r => negb (is_legacy r)) (sorted_records (sample_log 1)) = true) as H by (vm_compute; reflexivity).
    apply Forall_forall. intros r Hr%list_elem_of_In. rewrite forallb_forall in H. by apply negb_true_iff, H.
  - assert (forallb (fun r => negb (is_legacy r)) (sorted_records (sample_log 5)) = true) as H by (vm_compute; reflexivity).
    apply Forall_forall. intros r Hr%list_elem_of_In. rewrite forallb_forall in H. by apply negb_true_iff, H.
Defined.

(** ** A legacy log that locks itself *)

(** Two legacy records are left, the allocator is one past them (the newest
    legacy record was pruned by age before the chain existed). *)
Definition legacy_record (seq : Z) : AuditEvent :=
  mkEvent t0 "" "alice" "login" "" "" "" "ok" 200 "" "" seq "" "".
Definition legacy_log : chainState := mkState [legacy_record 1; legacy_record 2] (mkRef 0 "") refAbsent (mkRef 0 "") refAbsent 3.
Definition later : Time := t0 + 48 * Hour.
(** A log that verifies can lock itself: the first chained append to this
    legacy log, which prunes the two old records by age, is accepted, and the
    log it leaves no longer verifies, so every further append is refused. *)
Theorem legacy_log_locks : Verified (verifyChainState legacy_log) = true /\
  let '(st, err) := appendAuditInTx legacy_log (login "bob") 100 (24 * Hour) later later in
  err = None /\ Problems (verifyChainState st) = [GapAfterAnchor 2 4] /\
  forall e m r t1 t2, exists err, appendAuditInTx st e m r t1 t2 = (st, Some err).
Proof.
  split; [vm_compute; reflexivity|].
  destruct (appendAuditInTx legacy_log (login "bob") 100 (24 * Hour) later later) as [st err] eqn:E.
  assert (err = None /\ Problems (verifyChainState st) = [GapAfterAnchor 2 4]) as [H1 H2].
  { apply (f_equal (fun x => (snd x, Problems (verifyChainState (fst x))))) in E. cbn [fst snd] in E.
    assert ((err, Problems (verifyChainState st)) = (None, [GapAfterAnchor 2 4])) as H by (rewrite <- E; vm_compute; reflexivity).
    exact (conj (f_equal fst H) (f_equal snd H)). }
  split_and!; [exact H1|exact H2|]. intros e m r t1 t2. unfold appendAuditInTx, planAuditAppend.
  destruct (sanitizeAuditEvent e t1) as [err'|e']; [by exists err'|]. cbv zeta. unfold append_gate. rewrite H2. by eexists.
Qed.
