(* ===== verification/Workflow.v ===== *)
(** * Workflow definitions ([src/internal/nexaflow]: [workflow.go], [graph.go], [states.go],
      [input_mapping.go], [registry.go])

    A definition is a graph of node instances.  This file has the data, the
    registry lookup and schema checks, the input mappings, the validation of a
    definition with its error values, the schedule [TopologicalOrder] and the
    run and node state machines.  Where the source ranges over a map, the list
    of nodes gives the order here; only the choice among several errors
    depends on it.  A map inside a configuration value is an association list.
    The recursions of the source run over a graph, so they have fuel and
    return [None] without it. *)

From Stdlib Require Import Ascii.
From S2P Require Import Prelude Hash Text.

(** ** Values and schemas *)

(** The Go values a payload may hold.  A decoded JSON document has the first six
    kinds; the output of a [Run] function may also hold a [[]string], a
    [map[string]string], or a container of another Go type (a slice of maps, a
    struct), of which only what it encodes to is known. *)
Inductive Value :=
  | VNil
  | VBool (b : bool)
  | VNumber (x : float64)
  | VString (s : string)
  | VArray (l : list Value)
  | VObject (m : list (string * Value))
  | VStrings (l : list string)
  | VStringMap (m : list (string * string))
  | VTyped (encodes : Value).
Definition assoc {A} (k : string) (m : list (string * A)) : option A := snd <$> List.find (fun kv => String.eqb (fst kv) k) m.

Record Field := mkField { f_Name : string; f_Type : string; f_Required : bool }.
Record RetryPolicy := mkRetry { MaxAttempts : Z; RetryableCodes : list string }.
(** The contract of a node, without its texts.  Its [Run] function is not code of
    this package; whether it is set is a flag. *)
Record NodeSpec := mkSpec {
  ns_ID : string; ns_Version : string; ns_Category : string; ns_InputSchema : list Field; ns_ConfigSchema : list Field;
  ns_Permission : string; ns_SideEffect : string; ns_Retry : RetryPolicy; ns_DefaultTimeout : Duration; ns_MaxTimeout : Duration;
  ns_MaxInputBytes : Z; ns_MaxOutputBytes : Z; ns_RequiresOperatorPolicy : bool; ns_RunSet : bool }.
Definition SideEffectNone : string := "none".
Definition SideEffectRead : string := "read".
Definition SideEffectExternal : string := "external".
Definition SideEffectBillable : string := "billable".
Definition SideEffectIrreversible : string := "irreversible".
Definition Registry : Type := gmap string NodeSpec.
Definition SupportedVersion : string := "v1".

Inductive NodeError :=
  | UnsupportedVersion (version : string)
  | NodeNotFound (id : string)
  | InvalidSchema (name type : string)
  | MissingField (kind name : string)
  | UnknownField (kind key : string)
  | WrongType (name type : string).
(** [NewRegistry]: the first defect refuses the whole list. *)
Inductive RegistryError := NilSpec | SpecVersion (id version : string) | SpecNoID | SpecRetry (id : string) | SpecTimeouts (id : string) | SpecBounds (id : string) | DuplicateSpec (key : string).
Definition spec_key (spec : NodeSpec) : string := ns_ID spec +:+ "@" +:+ ns_Version spec.
Definition check_spec (r : Registry) (spec : NodeSpec) : option RegistryError :=
  if negb (String.eqb (ns_Version spec) SupportedVersion) then Some (SpecVersion (ns_ID spec) (ns_Version spec))
  else if String.eqb (ns_ID spec) "" || negb (ns_RunSet spec) then Some SpecNoID
  else if (MaxAttempts (ns_Retry spec) <? 1) || (3 <? MaxAttempts (ns_Retry spec)) then Some (SpecRetry (ns_ID spec))
  else if (ns_DefaultTimeout spec <=? 0) || (ns_MaxTimeout spec <? ns_DefaultTimeout spec) then Some (SpecTimeouts (ns_ID spec))
  else if (ns_MaxInputBytes spec <=? 0) || (ns_MaxOutputBytes spec <=? 0) then Some (SpecBounds (ns_ID spec))
  else if bool_decide (is_Some (r !! spec_key spec)) then Some (DuplicateSpec (spec_key spec))
  else None.
Fixpoint register_all (specs : list (option NodeSpec)) (r : Registry) : RegistryError + Registry :=
  match specs with
  | [] => inr r
  | None :: _ => inl NilSpec
  | Some spec :: specs => match check_spec r spec with Some e => inl e | None => register_all specs (<[spec_key spec := spec]> r) end
  end.
Definition NewRegistry (specs : list (option NodeSpec)) : RegistryError + Registry := register_all specs ∅.
Definition Lookup (r : Registry) (id version : string) : NodeError + NodeSpec :=
  if negb (String.eqb version SupportedVersion) then inl (UnsupportedVersion version)
  else match r !! (id +:+ "@" +:+ version) with None => inl (NodeNotFound id) | Some spec => inr spec end.

Definition fieldTypes : list string := ["string"; "number"; "boolean"; "object"; "array"; "secretRef"].
Definition mem (s : string) (l : list string) : bool := existsb (String.eqb s) l.
(** The first error in a loop over a list. *)
Fixpoint first_error {A E} (f : A -> option E) (l : list A) : option E :=
  match l with [] => None | x :: l => match f x with Some e => Some e | None => first_error f l end end.
Definition checkFieldType (f : Field) (v : Value) : option NodeError :=
  let wrong := Some (WrongType (f_Name f) (f_Type f)) in
  if String.eqb (f_Type f) "string" || String.eqb (f_Type f) "secretRef" then match v with VString _ => None | _ => wrong end
  else if String.eqb (f_Type f) "number" then match v with VNumber _ => None | _ => wrong end
  else if String.eqb (f_Type f) "boolean" then match v with VBool _ => None | _ => wrong end
  else if String.eqb (f_Type f) "object" then match v with VObject _ => None | _ => wrong end
  else if String.eqb (f_Type f) "array" then match v with VArray _ => None | _ => wrong end
  else None.
(** [known[f.Name] = f]: the last field of a name counts. *)
Definition known_field (schema : list Field) (key : string) : option Field :=
  List.find (fun f => String.eqb (f_Name f) key) (reverse schema).
Definition validateAgainstSchema (values : list (string * Value)) (schema : list Field) (kind : string) : option NodeError :=
  match first_error (fun f =>
          if negb (mem (f_Type f) fieldTypes) then Some (InvalidSchema (f_Name f) (f_Type f))
          else if f_Required f && bool_decide (assoc (f_Name f) values = None) then Some (MissingField kind (f_Name f)) else None) schema with
  | Some e => Some e
  | None => first_error (fun kv => match known_field schema (fst kv) with
                                   | None => Some (UnknownField kind (fst kv))
                                   | Some f => checkFieldType f (snd kv)
                                   end) values
  end.
(** A nil configuration is an empty one. *)
Definition ValidateConfig (spec : NodeSpec) (config : list (string * Value)) : option NodeError :=
  validateAgainstSchema config (ns_ConfigSchema spec) "config".

(** ** Input mappings *)

(** [strings.Split(path, ".")]. *)
Fixpoint split_dots (s : string) (cur : string) : list string :=
  match s with
  | EmptyString => [cur]
  | String c s => if Ascii.eqb c "." then cur :: split_dots s "" else split_dots s (cur +:+ String c "")
  end.
(** [fmt.Sscanf(part, "%d", &idx)]: leading space, a sign, digits; what
    follows is not read.  A line break before the number is an error. *)
Definition scan_space (r : Z) : bool :=
  ((9 <=? r) && (r <=? 13)) || (r =? 32) || (r =? 133) || (r =? 160) || (r =? 5760) || ((8192 <=? r) && (r <=? 8202)) ||
  (r =? 8232) || (r =? 8233) || (r =? 8239) || (r =? 8287) || (r =? 12288).
Fixpoint skip_space (rs : list Z) : option (list Z) :=
  match rs with
  | [] => Some []
  | r :: rest =>
      if (r =? 13) && (match rest with r2 :: _ => r2 =? 10 | [] => false end) then skip_space rest
      else if r =? 10 then None
      else if scan_space r then skip_space rest else Some rs
  end.
Fixpoint scan_digits (rs : list Z) (acc : Z) (any : bool) : option Z :=
  match rs with
  | r :: rest => if (48 <=? r) && (r <=? 57) then scan_digits rest (acc * 10 + (r - 48)) true else if any then Some acc else None
  | [] => if any then Some acc else None
  end.
Definition scan_int (part : string) : option Z :=
  match skip_space (runes (bytes part)) with
  | None => None
  | Some rs =>
      let '(neg, rs) := match rs with r :: rest => if r =? 45 then (true, rest) else if r =? 43 then (false, rest) else (false, rs) | [] => (false, rs) end in
      match scan_digits rs 0 false with
      | None => None
      | Some n => let n := if neg : bool then - n else n in if bool_decide (in_int64 n) then Some n else None
      end
  end.
Definition step_path (cur : Value) (part : string) : option Value :=
  match cur with
  | VObject m => assoc part m
  | VArray l => match scan_int part with
                | Some idx => if (idx <? 0) || (Z.of_nat (length l) <=? idx) then None else l !! Z.to_nat idx
                | None => None
                end
  | _ => None
  end.
Definition resolveMappingPath (ctx : list (string * Value)) (path : string) : option Value :=
  if String.eqb path "" then None
  else fold_left (fun cur part => match cur with Some v => step_path v part | None => None end) (split_dots path "") (Some (VObject ctx)).

(** The reference of a mapping value, if it is one. *)
Definition ref_of (v : Value) : option string :=
  match v with
  | VObject [(k, VString ref)] => if String.eqb k "$ref" then Some ref else None
  | VString s => if HasPrefix s "$." then Some (TrimPrefix s "$.") else None
  | _ => None
  end.
Fixpoint resolveMappingValue (ctx : list (string * Value)) (v : Value) : option Value :=
  match ref_of v with
  | Some ref => resolveMappingPath ctx ref
  | None =>
      match v with
      | VObject m =>
          let fix go (m : list (string * Value)) : option (list (string * Value)) :=
            match m with
            | [] => Some []
            | (k, x) :: m =>
                match resolveMappingValue ctx x with
                | Some y => match go m with Some m => Some ((k, y) :: m) | None => None end
                | None => None
                end
            end in
          VObject <$> go m
      | VArray l =>
          let fix go (l : list Value) : option (list Value) :=
            match l with
            | [] => Some []
            | x :: l =>
                match resolveMappingValue ctx x with
                | Some y => match go l with Some l => Some (y :: l) | None => None end
                | None => None
                end
            end in
          VArray <$> go l
      | v => Some v
      end
  end.
Fixpoint collectMappingRefs (v : Value) : list string :=
  match ref_of v with
  | Some ref => [ref]
  | None =>
      match v with
      | VObject m => let fix go (m : list (string * Value)) : list string :=
                       match m with [] => [] | (_, x) :: m => collectMappingRefs x ++ go m end in go m
      | VArray l => let fix go (l : list Value) : list string :=
                      match l with [] => [] | x :: l => collectMappingRefs x ++ go l end in go l
      | _ => []
      end
  end.

(** ** Definitions *)

Record DefinitionNode := mkNode { n_ID : string; n_NodeID : string; n_Version : string; n_Config : list (string * Value); n_Input : option (list (string * Value)) }.
Record DefinitionEdge := mkEdge { e_ID : string; e_From : string; e_To : string; e_Branch : string }.
Record DefinitionTrigger := mkTrigger { t_Name : string; t_Kind : string; t_Config : list (string * Value) }.
Record DefinitionSettings := mkSettings { s_RunTimeoutSeconds : Z; s_MaxConcurrentRuns : Z; s_RetentionDays : Z }.
Record Definition_ := mkDef {
  d_SchemaVersion : string; d_ID : string; d_Name : string; d_Nodes : list DefinitionNode; d_Edges : list DefinitionEdge;
  d_Triggers : list DefinitionTrigger; d_Settings : DefinitionSettings }.
Definition mappedNodeInput (runInput : list (string * Value)) (node : DefinitionNode) (outputs : list (string * list (string * Value)))
    : option (list (string * Value)) :=
  let ctx := map (fun kv => (fst kv, VObject (snd kv))) outputs ++ [("input", VObject runInput)] in
  match resolveMappingValue ctx (VObject (default [] (n_Input node))) with Some (VObject m) => Some m | _ => None end.

Inductive DefError :=
  | DefNil | RegistryNil | BadSchemaVersion | EmptyID | EmptyName
  | NegativeTimeout | NegativeRuns | BadRetention
  | NoNodes | EmptyNodeID | DuplicateNode (id : string) | BadNodeVersion (id : string) | BadNode (id : string) (e : NodeError)
  | MappingOnTrigger (id : string) | MappingOnApproval (id : string) | MappingUnknownKey (id key : string) | MappingUnknownRoot (id root : string)
  | NoTriggers | EmptyTrigger | DuplicateTrigger (name : string) | UnknownKind (name kind : string) | TriggerNoNode (name : string)
  | TriggerWrongNode (name : string) | TriggerConfig (name : string) (e : NodeError) | TriggerUndeclared (id : string)
  | EmptyEdgeID | DuplicateEdgeID (id : string) | UnknownSource (id : string) | UnknownTarget (id : string) | SelfEdge (id : string)
  | DuplicateEdge (from to branch : string) | BranchFromOther (id : string) | BranchUnknown (id : string)
  | TriggerHasIncoming (id : string) | NoIncoming (id : string) | Unreachable (id : string) | Cycle (id : string).

Definition validateSettings (def : Definition_) : option DefError :=
  let s := d_Settings def in
  if s_RunTimeoutSeconds s <? 0 then Some NegativeTimeout
  else if s_MaxConcurrentRuns s <? 0 then Some NegativeRuns
  else if negb (s_RetentionDays s =? 0) && ((s_RetentionDays s <? 7) || (365 <? s_RetentionDays s)) then Some BadRetention
  else None.

(** The loop over the nodes; [nodes] maps instance ids to their contracts. *)
Fixpoint check_nodes (reg : Registry) (ns : list DefinitionNode) (nodes : gmap string NodeSpec) : DefError + gmap string NodeSpec :=
  match ns with
  | [] => inr nodes
  | n :: ns =>
      if String.eqb (n_ID n) "" then inl EmptyNodeID
      else if bool_decide (is_Some (nodes !! n_ID n)) then inl (DuplicateNode (n_ID n))
      else if negb (String.eqb (n_Version n) SupportedVersion) then inl (BadNodeVersion (n_ID n))
      else match Lookup reg (n_NodeID n) (n_Version n) with
      | inl e => inl (BadNode (n_ID n) e)
      | inr spec =>
          match ValidateConfig spec (n_Config n) with
          | Some e => inl (BadNode (n_ID n) e)
          | None => check_nodes reg ns (<[n_ID n := spec]> nodes)
          end
      end
  end.
Definition instanceIsTrigger (nodes : gmap string NodeSpec) (id : string) : bool :=
  match nodes !! id with Some spec => String.eqb (ns_Category spec) "trigger" | None => false end.

Definition approvalNodeID : string := "nexaroute.control.approval".
Fixpoint root_of (s : string) : string :=
  match s with EmptyString => "" | String c s => if Ascii.eqb c "." then "" else String c (root_of s) end.
Definition check_mapping (nodes : gmap string NodeSpec) (n : DefinitionNode) : option DefError :=
  match n_Input n with
  | None => None
  | Some input =>
      if instanceIsTrigger nodes (n_ID n) then Some (MappingOnTrigger (n_ID n))
      else match nodes !! n_ID n with
      | None => None
      | Some spec =>
          if String.eqb (ns_ID spec) approvalNodeID then Some (MappingOnApproval (n_ID n))
          else match first_error (fun kv => if mem (fst kv) (map f_Name (ns_InputSchema spec)) then None
                                            else Some (MappingUnknownKey (n_ID n) (fst kv))) input with
          | Some e => Some e
          | None => first_error (fun ref =>
                      let root := root_of ref in
                      if negb (String.eqb root "input") && negb (bool_decide (is_Some (nodes !! root)))
                      then Some (MappingUnknownRoot (n_ID n) root) else None) (collectMappingRefs (VObject input))
          end
      end
  end.
Definition validateInputMappings (def : Definition_) (nodes : gmap string NodeSpec) : option DefError :=
  first_error (check_mapping nodes) (d_Nodes def).

Definition triggerNodeID (kind : string) : option string :=
  if String.eqb kind "manual" then Some "nexaroute.trigger.manual"
  else if String.eqb kind "webhook" then Some "nexaroute.trigger.webhook"
  else if String.eqb kind "schedule" then Some "nexaroute.trigger.schedule"
  else None.
Fixpoint check_triggers (nodes : gmap string NodeSpec) (ts : list DefinitionTrigger) (decls : gset string) : DefError + gset string :=
  match ts with
  | [] => inr decls
  | tr :: ts =>
      if String.eqb (t_Name tr) "" then inl EmptyTrigger
      else if bool_decide (t_Name tr ∈ decls) then inl (DuplicateTrigger (t_Name tr))
      else match triggerNodeID (t_Kind tr) with
      | None => inl (UnknownKind (t_Name tr) (t_Kind tr))
      | Some nodeID =>
          match nodes !! t_Name tr with
          | None => inl (TriggerNoNode (t_Name tr))
          | Some spec =>
              if negb (String.eqb (ns_ID spec) nodeID) then inl (TriggerWrongNode (t_Name tr))
              else match ValidateConfig spec (t_Config tr) with
              | Some e => inl (TriggerConfig (t_Name tr) e)
              | None => check_triggers nodes ts ({[t_Name tr]} ∪ decls)
              end
          end
      end
  end.

Definition branchNodeID : string := "nexaroute.control.branch".
Definition branch_name (config : list (string * Value)) (key : string) : option string :=
  match assoc key config with Some (VString s) => Some s | _ => None end.
Definition validateBranchEdge (def : Definition_) (e : DefinitionEdge) (from : NodeSpec) : option DefError :=
  if negb (String.eqb (ns_ID from) branchNodeID) then Some (BranchFromOther (e_ID e))
  else match List.find (fun n => String.eqb (n_ID n) (e_From e)) (d_Nodes def) with
  | Some n =>
      if bool_decide (branch_name (n_Config n) "true_branch" = Some (e_Branch e)) ||
         bool_decide (branch_name (n_Config n) "false_branch" = Some (e_Branch e))
      then None else Some (BranchUnknown (e_ID e))
  | None => Some (BranchUnknown (e_ID e))
  end.
Definition NUL : string := String zero "".
Definition triple (e : DefinitionEdge) : string := e_From e +:+ NUL +:+ e_To e +:+ NUL +:+ e_Branch e.
Fixpoint check_edges (def : Definition_) (nodes : gmap string NodeSpec) (es : list DefinitionEdge) (ids triples : gset string) : option DefError :=
  match es with
  | [] => None
  | e :: es =>
      if String.eqb (e_ID e) "" then Some EmptyEdgeID
      else if bool_decide (e_ID e ∈ ids) then Some (DuplicateEdgeID (e_ID e))
      else match nodes !! e_From e with
      | None => Some (UnknownSource (e_ID e))
      | Some from =>
          if negb (bool_decide (is_Some (nodes !! e_To e))) then Some (UnknownTarget (e_ID e))
          else if String.eqb (e_From e) (e_To e) then Some (SelfEdge (e_ID e))
          else if bool_decide (triple e ∈ triples) then Some (DuplicateEdge (e_From e) (e_To e) (e_Branch e))
          else match (if negb (String.eqb (e_Branch e) "") then validateBranchEdge def e from else None) with
          | Some err => Some err
          | None => check_edges def nodes es ({[e_ID e]} ∪ ids) ({[triple e]} ∪ triples)
          end
      end
  end.
(** [adj[e.From] = append(adj[e.From], e.To)] over the edges. *)
Definition adjacency (es : list DefinitionEdge) : gmap string (list string) :=
  fold_left (fun adj e => <[e_From e := map_get [] adj (e_From e) ++ [e_To e]]> adj) es ∅.
Definition incoming (es : list DefinitionEdge) (id : string) : Z := Z.of_nat (length (List.filter (fun e => String.eqb (e_To e) id) es)).
Definition check_root (nodes : gmap string NodeSpec) (es : list DefinitionEdge) (id : string) : option DefError :=
  if instanceIsTrigger nodes id then if 0 <? incoming es id then Some (TriggerHasIncoming id) else None
  else if incoming es id =? 0 then Some (NoIncoming id) else None.

(** Reachability: [visit]. *)
Fixpoint visit (adj : gmap string (list string)) (fuel : nat) (reached : gset string) (id : string) : option (gset string) :=
  match fuel with
  | O => None
  | S fuel =>
      if bool_decide (id ∈ reached) then Some reached
      else fold_left (fun acc next => match acc with Some r => visit adj fuel r next | None => None end)
             (map_get [] adj id) (Some ({[id]} ∪ reached))
  end.
Definition visit_all (adj : gmap string (list string)) (fuel : nat) (ids : list string) (reached : gset string) : option (gset string) :=
  fold_left (fun acc id => match acc with Some r => visit adj fuel r id | None => None end) ids (Some reached).

(** Cycle search: the grey and black nodes; a grey successor is a cycle. *)
Record Colors := mkColors { gray : gset string; black : gset string }.
Inductive DfsResult := DfsOk (c : Colors) | DfsCycle (n : string) | DfsFuel.
Definition dfs_step (dfs : Colors -> string -> DfsResult) (acc : DfsResult) (n : string) : DfsResult :=
  match acc with
  | DfsOk c => if bool_decide (n ∈ gray c) then DfsCycle n else if bool_decide (n ∈ black c) then DfsOk c else dfs c n
  | r => r
  end.
Definition sort_Strings (l : list string) : list string := slice_stable String.ltb l.
Fixpoint dfs (adj : gmap string (list string)) (fuel : nat) (c : Colors) (id : string) : DfsResult :=
  match fuel with
  | O => DfsFuel
  | S fuel =>
      match fold_left (dfs_step (dfs adj fuel)) (sort_Strings (map_get [] adj id)) (DfsOk (mkColors ({[id]} ∪ gray c) (black c))) with
      | DfsOk c => DfsOk (mkColors (gray c ∖ {[id]}) ({[id]} ∪ black c))
      | r => r
      end
  end.
(** The search from every node in order; a node that is not white is passed
    over (none is grey between searches). *)
Definition checkAcyclic (adj : gmap string (list string)) (ids : list string) : DfsResult :=
  fold_left (fun acc id => match acc with
                           | DfsOk c => if bool_decide (id ∈ gray c) || bool_decide (id ∈ black c) then acc
                                        else dfs adj (S (length ids)) c id
                           | r => r
                           end) (sort_Strings ids) (DfsOk (mkColors ∅ ∅)).

(** [inl] is fuel running out, [inr] the error value of the source. *)
Definition graph_checks (def : Definition_) (nodes : gmap string NodeSpec) : unit + option DefError :=
  let ids := map n_ID (d_Nodes def) in
  let adj := adjacency (d_Edges def) in
  match first_error (check_root nodes (d_Edges def)) ids with
  | Some e => inr (Some e)
  | None =>
      match visit_all adj (S (S (length ids))) (List.filter (instanceIsTrigger nodes) ids) ∅ with
      | None => inl tt
      | Some reached =>
          match first_error (fun id => if bool_decide (id ∈ reached) then None else Some (Unreachable id)) ids with
          | Some e => inr (Some e)
          | None =>
              match checkAcyclic adj ids with
              | DfsFuel => inl tt
              | DfsCycle n => inr (Some (Cycle n))
              | DfsOk _ => inr None
              end
          end
      end
  end.
Definition ValidateDefinition (def : option Definition_) (reg : option Registry) : unit + option DefError :=
  match def, reg with
  | None, _ => inr (Some DefNil)
  | Some _, None => inr (Some RegistryNil)
  | Some def, Some reg =>
      if negb (String.eqb (d_SchemaVersion def) "v1") then inr (Some BadSchemaVersion)
      else if String.eqb (d_ID def) "" then inr (Some EmptyID)
      else if String.eqb (d_Name def) "" then inr (Some EmptyName)
      else match validateSettings def with
      | Some e => inr (Some e)
      | None =>
          if (length (d_Nodes def) =? 0)%nat then inr (Some NoNodes)
          else match check_nodes reg (d_Nodes def) ∅ with
          | inl e => inr (Some e)
          | inr nodes =>
              match validateInputMappings def nodes with
              | Some e => inr (Some e)
              | None =>
                  if (length (d_Triggers def) =? 0)%nat then inr (Some NoTriggers)
                  else match check_triggers nodes (d_Triggers def) ∅ with
                  | inl e => inr (Some e)
                  | inr decls =>
                      match first_error (fun id => if instanceIsTrigger nodes id && negb (bool_decide (id ∈ decls))
                                                   then Some (TriggerUndeclared id) else None) (map n_ID (d_Nodes def)) with
                      | Some e => inr (Some e)
                      | None =>
                          match check_edges def nodes (d_Edges def) ∅ ∅ with
                          | Some e => inr (Some e)
                          | None => graph_checks def nodes
                          end
                      end
                  end
              end
          end
      end
  end.

(** ** The schedule *)

Definition dec_indegree (ind : gmap string Z) (id : string) : gmap string Z := <[id := map_get 0 ind id - 1]> ind.
(** [pos] walks back over the larger names: the ready list stays sorted. *)
Definition insert_ready (next : string) (ready : list string) : list string := reverse (insert_rev String.ltb next (reverse ready)).
Definition topo_step (acc : gmap string Z * list string) (next : string) : gmap string Z * list string :=
  let '(ind, ready) := acc in
  let ind := dec_indegree ind next in
  if map_get 0 ind next =? 0 then (ind, insert_ready next ready) else (ind, ready).
Fixpoint topo_loop (adj : gmap string (list string)) (fuel : nat) (ind : gmap string Z) (ready out : list string) : option (list string) :=
  match ready with
  | [] => Some out
  | cur :: ready =>
      match fuel with
      | O => None
      | S fuel =>
          let '(ind, ready) := fold_left topo_step (map_get [] adj cur) (ind, ready) in
          topo_loop adj fuel ind ready (out ++ [cur])
      end
  end.
Definition indegrees (es : list DefinitionEdge) : gmap string Z :=
  fold_left (fun ind e => <[e_To e := map_get 0 ind (e_To e) + 1]> ind) es ∅.
Definition TopologicalOrder (def : Definition_) : option (list string) :=
  let ids := sort_Strings (map n_ID (d_Nodes def)) in
  let ind := indegrees (d_Edges def) in
  let ready := List.filter (fun id => map_get 0 ind id =? 0) ids in
  topo_loop (adjacency (d_Edges def)) (length ids + length (d_Edges def)) ind ready [].

Definition incomingEdges (def : Definition_) (nodeID : string) : list DefinitionEdge :=
  List.filter (fun e => String.eqb (e_To e) nodeID) (d_Edges def).
Definition edgeFired (e : DefinitionEdge) (outputs : list (string * list (string * Value))) : bool :=
  if String.eqb (e_Branch e) "" then true
  else match assoc (e_From e) outputs with
  | None => false
  | Some out => match assoc "selected_branch" out with Some (VString sel) => String.eqb sel (e_Branch e) | _ => false end
  end.

(** ** State machines *)

Inductive RunState := RunCreated | RunRunning | RunWaitingForApproval | RunSucceeded | RunFailed | RunCancelled | RunNeedsManualAction | RunWaitingTimer.
#[global] Instance RunState_eq_dec : EqDecision RunState.
Proof. solve_decision. Defined.
Definition run_Terminal (s : RunState) : bool := match s with RunSucceeded | RunFailed | RunCancelled => true | _ => false end.
Definition validRunTransition (from to : RunState) : bool :=
  if bool_decide (from = to) then true
  else if run_Terminal from then false
  else match from, to with
  | RunCreated, (RunRunning | RunCancelled) => true
  | RunRunning, (RunSucceeded | RunFailed | RunCancelled | RunWaitingForApproval | RunNeedsManualAction) => true
  | RunWaitingForApproval, (RunRunning | RunCancelled | RunFailed) => true
  | RunNeedsManualAction, (RunCancelled | RunFailed) => true
  | _, _ => false
  end.
Inductive NodeState := NodePending | NodeClaimed | NodeRunning | NodeWaiting | NodeSucceeded | NodeFailed | NodeSkipped | NodeCancelled | NodeNeedsManualAction.
#[global] Instance NodeState_eq_dec : EqDecision NodeState.
Proof. solve_decision. Defined.
Definition node_Terminal (s : NodeState) : bool := match s with NodeSucceeded | NodeFailed | NodeSkipped | NodeCancelled => true | _ => false end.
Definition validNodeTransition (from to : NodeState) : bool :=
  if bool_decide (from = to) then true
  else if node_Terminal from then false
  else match from, to with
  | NodePending, (NodeClaimed | NodeSkipped | NodeCancelled) => true
  | NodeClaimed, (NodeRunning | NodeCancelled | NodeNeedsManualAction | NodeWaiting | NodePending | NodeFailed) => true
  | NodeRunning, (NodeSucceeded | NodeFailed | NodeCancelled | NodeNeedsManualAction | NodeWaiting | NodePending) => true
  | NodeWaiting, (NodePending | NodeCancelled | NodeFailed) => true
  | NodeNeedsManualAction, (NodeCancelled | NodeFailed) => true
  | _, _ => false
  end.

Definition DefinitionDraft : string := "draft".
Definition DefinitionPublished : string := "published".
Definition DefinitionSuperseded : string := "superseded".
Definition CanTransitionTo (status next : string) : bool :=
  if String.eqb status DefinitionDraft then String.eqb next DefinitionPublished
  else if String.eqb status DefinitionPublished then String.eqb next DefinitionSuperseded
  else false.

(** ** A sample *)

Definition trigger_spec : NodeSpec := mkSpec "nexaroute.trigger.manual" "v1" "trigger" [] [] "" SideEffectNone (mkRetry 1 []) Second Second 65536 65536 false true.
Definition work_spec : NodeSpec := mkSpec "nexaroute.transform" "v1" "transform" [mkField "text" "string" false] [] "" SideEffectNone (mkRetry 1 []) Second Second 65536 65536 false true.
Definition sample_registry : Registry :=
  <["nexaroute.trigger.manual@v1" := trigger_spec]> (<["nexaroute.transform@v1" := work_spec]> ∅).
Definition sample_def (edges : list DefinitionEdge) : Definition_ :=
  mkDef "v1" "wf" "sample"
    [mkNode "t" "nexaroute.trigger.manual" "v1" [] None; mkNode "b" "nexaroute.transform" "v1" [] None;
     mkNode "a" "nexaroute.transform" "v1" [] (Some [("text", VString "$.t.body")])]
    edges [mkTrigger "t" "manual" []] (mkSettings 0 0 0).
Definition good_edges : list DefinitionEdge := [mkEdge "e1" "t" "b" ""; mkEdge "e2" "b" "a" ""].
Example sample_ok : ValidateDefinition (Some (sample_def good_edges)) (Some sample_registry) = inr None /\
  TopologicalOrder (sample_def good_edges) = Some ["t"; "b"; "a"].
Proof. vm_compute. auto. Qed.
Example sample_cycle : ValidateDefinition (Some (sample_def (good_edges ++ [mkEdge "e3" "a" "b" ""]))) (Some sample_registry) = inr (Some (Cycle "a")).
Proof. vm_compute. reflexivity. Qed.
