(* ===== verification/WorkflowGraph.v ===== *)
(** * Workflow graphs: reachability, cycles and the schedule

    The recursive searches of [workflow.go] are exact: [visit] computes the
    reachable nodes, [checkAcyclic] decides acyclicity, neither runs out of fuel.
    [TopologicalOrder] always returns; on a graph without cycles whose edges join
    its nodes it lists every node exactly once, each after all its predecessors. *)

From stdpp Require Import relations.
From S2P Require Import Prelude Workflow.

(** ** The edge relation *)

Definition edge_rel (es : list DefinitionEdge) (u v : string) : Prop := exists e, e ∈ es /\ e_From e = u /\ e_To e = v.
Definition succs (es : list DefinitionEdge) (u : string) : list string := map e_To (List.filter (fun e => String.eqb (e_From e) u) es).

Lemma adjacency_spec es u : map_get [] (adjacency es) u = succs es u.
Proof.
  unfold adjacency, succs. induction es as [|e es IH] using rev_ind; [done|].
  rewrite fold_left_app, List.filter_app, map_app. cbn [fold_left List.filter]. rewrite map_get_insert.
  destruct (String.eqb_spec (e_From e) u) as [->|Hne]; cbn [map]; [by rewrite IH|by rewrite app_nil_r].
Qed.
Lemma elem_of_succs es u v : v ∈ succs es u <-> edge_rel es u v.
Proof.
  unfold succs, edge_rel. rewrite list_elem_of_In, in_map_iff. setoid_rewrite filter_In. setoid_rewrite String.eqb_eq.
  setoid_rewrite list_elem_of_In. naive_solver.
Qed.

Section search.
Context (es : list DefinitionEdge) (N : gset string).
Hypothesis Hclosed : forall u v, edge_rel es u v -> u ∈ N -> v ∈ N.
Notation E := (edge_rel es).
Notation adj := (adjacency es).

(** ** Reachability *)

(** What a visit adds: it is closed under edges and reachable from the start. *)
Definition visited (src : string -> Prop) (R R' : gset string) : Prop :=
  R ⊆ R' /\ (forall x y, x ∈ R' -> x ∉ R -> E x y -> y ∈ R') /\ (forall x, x ∈ R' -> x ∈ R \/ exists s, src s /\ rtc E s x).

Lemma visited_refl src R : visited src R R.
Proof. split_and!; [done|done|auto]. Qed.
Lemma visited_trans src R1 R2 R3 : visited src R1 R2 -> visited src R2 R3 -> visited src R1 R3.
Proof.
  intros (H1 & H2 & H3) (H4 & H5 & H6). split_and!; [set_solver| |].
  - intros x y Hx Hn Hxy. destruct (decide (x ∈ R2)); [|by eauto]. apply H4. eauto.
  - intros x Hx. destruct (H6 x Hx); auto.
Qed.
Lemma visited_weaken (src src' : string -> Prop) R R' : (forall s, src s -> exists s', src' s' /\ rtc E s' s) -> visited src R R' -> visited src' R R'.
Proof.
  intros Hs (H1 & H2 & H3). split_and!; [done|done|]. intros x Hx. destruct (H3 x Hx) as [|(s & Hsrc & Hr)]; [by left|right].
  destruct (Hs s Hsrc) as (s' & Hs' & Hr'). exists s'. split; [done|by etrans].
Qed.
Lemma fold_none {A B} (f : A -> B -> option A) (l : list B) :
  fold_left (fun acc x => match acc with Some r => f r x | None => None end) l None = None.
Proof. by induction l. Qed.
Lemma fold_visit fuel l : (forall R id R', visit adj fuel R id = Some R' -> visited (eq id) R R' /\ id ∈ R') ->
  forall R R', fold_left (fun acc next => match acc with Some r => visit adj fuel r next | None => None end) l (Some R) = Some R' ->
  visited (fun s => s ∈ l) R R' /\ forall s, s ∈ l -> s ∈ R'.
Proof.
  intros Hv. induction l as [|s l IH]; intros R R'; cbn [fold_left].
  - intros [= <-]. split; [apply visited_refl|]. by intros s ?%not_elem_of_nil.
  - destruct (visit adj fuel R s) as [R1|] eqn:E1; [|by rewrite (fold_none (visit adj fuel))].
    intros H. destruct (Hv _ _ _ E1) as [H1 Hs]. destruct (IH _ _ H) as [H2 Hl]. split.
    + eapply visited_trans; eapply visited_weaken; try done; intros x Hx.
      * subst. exists x. split; [by left|done].
      * exists x. split; [by right|done].
    + intros x [->|Hx]%elem_of_cons; [|by apply Hl]. by apply (proj1 H2).
Qed.
Lemma visit_spec fuel : forall R id R', visit adj fuel R id = Some R' -> visited (eq id) R R' /\ id ∈ R'.
Proof.
  induction fuel as [|fuel IH]; intros R id R'; cbn [visit]; [done|]. case_bool_decide as Hid.
  - intros [= <-]. split; [apply visited_refl|done].
  - rewrite adjacency_spec. intros H. destruct (fold_visit fuel (succs es id) IH _ _ H) as [(H1 & H2 & H3) Hs].
    split; [|apply H1; set_solver]. split_and!; [set_solver| |].
    + intros x y Hx Hn Hxy. destruct (decide (x = id)) as [->|Hne]; [apply Hs; by apply elem_of_succs|].
      apply (H2 x y Hx); [set_solver|done].
    + intros x Hx. destruct (H3 x Hx) as [Hx'|(s & Hs' & Hr)].
      * apply elem_of_union in Hx' as [->%elem_of_singleton|]; [right; exists id; by split|by left].
      * right. exists id. split; [done|]. eapply rtc_l; [|exact Hr]. by apply elem_of_succs.
Qed.
(** Visiting the sources from nothing reaches exactly what is reachable. *)
Lemma visit_all_spec fuel l R : visit_all adj fuel l ∅ = Some R -> forall x, x ∈ R <-> exists s, s ∈ l /\ rtc E s x.
Proof.
  intros H. destruct (fold_visit fuel l (visit_spec fuel) _ _ H) as [(H1 & H2 & H3) Hs]. intros x. split.
  - intros Hx. destruct (H3 x Hx) as [?|?]; [set_solver|done].
  - intros (s & Hsl & Hr). apply Hs in Hsl. clear Hs. induction Hr as [|x y z Hxy Hr IH]; [done|]. apply IH. apply (H2 x y); [done|set_solver|done].
Qed.

Lemma fold_visit_fuel fuel l : (forall R id, id ∈ N -> (size (N ∖ R) < fuel)%nat -> is_Some (visit adj fuel R id)) ->
  forall R, (forall s, s ∈ l -> s ∈ N) -> (size (N ∖ R) < fuel)%nat ->
  is_Some (fold_left (fun acc next => match acc with Some r => visit adj fuel r next | None => None end) l (Some R)).
Proof.
  intros Hv. induction l as [|s l IH]; intros R Hl Hf; cbn [fold_left]; [done|].
  destruct (Hv R s) as [R1 E1]; [apply Hl; by left|done|]. rewrite E1. apply IH; [intros x Hx; apply Hl; by right|].
  destruct (visit_spec _ _ _ _ E1) as [(H1 & _) _]. eapply Nat.le_lt_trans; [|exact Hf]. apply subseteq_size. set_solver.
Qed.
Lemma visit_fuel fuel : forall R id, id ∈ N -> (size (N ∖ R) < fuel)%nat -> is_Some (visit adj fuel R id).
Proof.
  induction fuel as [|fuel IH]; intros R id Hid Hf; [lia|]. cbn [visit]. case_bool_decide as Hr; [done|].
  apply fold_visit_fuel; [exact IH| |].
  - intros s Hs. rewrite adjacency_spec in Hs. apply elem_of_succs in Hs. by eapply Hclosed.
  - assert (size (N ∖ ({[id]} ∪ R)) < size (N ∖ R))%nat; [|lia]. apply subset_size. set_solver.
Qed.
Lemma visit_all_fuel fuel l R : (forall s, s ∈ l -> s ∈ N) -> (size N < fuel)%nat -> is_Some (visit_all adj fuel l R).
Proof.
  intros Hl Hf. apply fold_visit_fuel; [apply visit_fuel|done|]. eapply Nat.le_lt_trans; [|exact Hf]. apply subseteq_size. set_solver.
Qed.

(** ** Cycles *)

Definition colored (c : Colors) : gset string := gray c ∪ black c.
Record colors_ok (c : Colors) : Prop := {
  co_closed : forall x y, x ∈ black c -> E x y -> y ∈ black c;
  co_acyclic : forall x, x ∈ black c -> ~ tc E x x;
  co_disjoint : gray c ## black c }.
Definition dfs_post (c : Colors) (l : list string) (r : DfsResult) : Prop :=
  match r with
  | DfsOk c' => gray c' = gray c /\ black c ⊆ black c' /\ (forall s, s ∈ l -> s ∈ black c') /\ colors_ok c'
  | DfsCycle n => tc E n n
  | DfsFuel => True
  end.

Lemma fold_dfs_stuck f l r : (forall c, r <> DfsOk c) -> fold_left (dfs_step f) l r = r.
Proof. intros Hr. induction l as [|n l IH]; [done|]. cbn [fold_left]. destruct r; [by destruct (Hr c)|done|done]. Qed.

Lemma fold_dfs fuel id l : (forall c n, colors_ok c -> n ∉ gray c -> n ∉ black c -> (forall g, g ∈ gray c -> tc E g n) ->
    dfs_post c [n] (dfs adj fuel c n)) ->
  forall c, colors_ok c -> (forall s, s ∈ l -> E id s) -> (forall g, g ∈ gray c -> g = id \/ tc E g id) ->
  dfs_post c l (fold_left (dfs_step (dfs adj fuel)) l (DfsOk c)).
Proof.
  intros Hd. induction l as [|n l IH]; intros c Hc Hl Hg; cbn [fold_left].
  { split_and!; try done. by intros s ?%not_elem_of_nil. }
  assert (E id n) as Hn by (apply Hl; by left).
  assert (forall g, g ∈ gray c -> tc E g n) as Hgn.
  { intros g Hgg. destruct (Hg g Hgg) as [->|Ht]; [by apply tc_once|]. eapply tc_r; done. }
  cbn [dfs_step]. case_bool_decide as Hgray; [rewrite fold_dfs_stuck by done; cbn [dfs_post]; by apply Hgn|].
  assert (forall s, s ∈ l -> E id s) as Hl' by (intros s Hs; apply Hl; by right).
  case_bool_decide as Hblack.
  { specialize (IH c Hc Hl' Hg). destruct (fold_left _ l (DfsOk c)) as [c'| |]; [|done|done].
    destruct IH as (H1 & H2 & H3 & H4). split_and!; try done. intros s [->|Hs]%elem_of_cons; auto. }
  specialize (Hd c n Hc Hgray Hblack Hgn). destruct (dfs adj fuel c n) as [c1|m|]; [|rewrite fold_dfs_stuck; done..].
  destruct Hd as (H1 & H2 & H3 & H4). specialize (IH c1 H4 Hl'). rewrite H1 in IH. specialize (IH Hg).
  destruct (fold_left _ l (DfsOk c1)) as [c'| |]; [|done|done]. destruct IH as (H5 & H6 & H7 & H8).
  split_and!; [congruence|set_solver| |done]. intros s [->|Hs]%elem_of_cons; [|auto]. apply H6, H3. by left.
Qed.
Lemma colors_blacken c id : colors_ok c -> id ∈ gray c -> (forall s, E id s -> s ∈ black c) ->
  colors_ok (mkColors (gray c ∖ {[id]}) ({[id]} ∪ black c)).
Proof.
  intros [H1 H2 H3] Hg Hs. split; cbn [gray black].
  - intros x y Hx Hxy. apply elem_of_union in Hx as [->%elem_of_singleton|Hx]; apply elem_of_union; right; eauto.
  - intros x Hx Hc. apply elem_of_union in Hx as [->%elem_of_singleton|Hx]; [|by eapply H2].
    assert (forall a b, rtc E a b -> a ∈ black c -> b ∈ black c) as Hrtc by (induction 1; eauto).
    assert (exists y, E id y /\ rtc E y id) as (y & Hy & Hr).
    { inversion Hc as [? ? Ho|? y ? Hy Ht]; subst; [exists id; split; [done|constructor]|]. exists y. split; [done|by apply tc_rtc]. }
    apply (Hrtc y id) in Hr; [set_solver|by apply Hs].
  - set_solver.
Qed.
Lemma elem_of_sort_Strings s l : s ∈ sort_Strings l <-> s ∈ l.
Proof. unfold sort_Strings. by rewrite slice_stable_perm. Qed.
Lemma dfs_spec fuel : forall c n, colors_ok c -> n ∉ gray c -> n ∉ black c -> (forall g, g ∈ gray c -> tc E g n) ->
  dfs_post c [n] (dfs adj fuel c n).
Proof.
  induction fuel as [|fuel IH]; intros c n Hc Hg Hb Hpath; cbn [dfs]; [done|]. rewrite adjacency_spec.
  assert (colors_ok (mkColors ({[n]} ∪ gray c) (black c))) as Hc1.
  { destruct Hc as [H1 H2 H3]. split; cbn; [done|done|set_solver]. }
  pose proof (fold_dfs fuel n (sort_Strings (succs es n)) IH _ Hc1) as Hf. cbn [gray black] in Hf.
  assert (forall s, s ∈ sort_Strings (succs es n) -> E n s) as Hs by (intros s Hs; by apply elem_of_succs, elem_of_sort_Strings).
  specialize (Hf Hs). assert (forall g, g ∈ {[n]} ∪ gray c -> g = n \/ tc E g n) as Hp.
  { intros g [->%elem_of_singleton|?]%elem_of_union; auto. }
  specialize (Hf Hp). destruct (fold_left _ _ _) as [c'| |]; [|exact Hf|exact Hf].
  destruct Hf as (H1 & H2 & H3 & H4). cbn [gray black] in H1, H2. cbn [dfs_post gray black].
  split_and!; [set_solver|set_solver| |].
  - intros s ->%list_elem_of_singleton. set_solver.
  - apply colors_blacken; [done|rewrite H1; set_solver|]. intros s Hns. by apply H3, elem_of_sort_Strings, elem_of_succs.
Qed.

Lemma dfs_step_mono f : (forall c n c', f c n = DfsOk c' -> colored c ⊆ colored c') ->
  forall l c c', fold_left (dfs_step f) l (DfsOk c) = DfsOk c' -> colored c ⊆ colored c'.
Proof.
  intros Hf. induction l as [|n l IH]; intros c c'; cbn [fold_left]; [by intros [= <-]|].
  cbn [dfs_step]. case_bool_decide; [by rewrite fold_dfs_stuck|]. case_bool_decide; [apply IH|].
  destruct (f c n) as [c1| |] eqn:E1; [|by rewrite fold_dfs_stuck..]. intros H1. etrans; [by eapply Hf|by apply IH].
Qed.
Lemma dfs_mono fuel : forall c n c', dfs adj fuel c n = DfsOk c' -> {[n]} ∪ colored c ⊆ colored c'.
Proof.
  induction fuel as [|fuel IH]; intros c n c'; cbn [dfs]; [done|].
  destruct (fold_left _ _ _) as [c1| |] eqn:E1; [|done|done]. intros [= <-].
  apply dfs_step_mono in E1; [|intros x y z H%IH; set_solver]. unfold colored in *. cbn [gray black] in *.
  intros x Hx. destruct (decide (x = n)) as [->|]; [set_solver|]. assert (x ∈ gray c1 ∪ black c1) by set_solver. set_solver.
Qed.
Lemma fold_dfs_fuel fuel l : (forall c n, n ∈ N -> n ∉ gray c -> n ∉ black c -> (size (N ∖ colored c) < fuel)%nat -> dfs adj fuel c n <> DfsFuel) ->
  forall c, (forall s, s ∈ l -> s ∈ N) -> (size (N ∖ colored c) < fuel)%nat -> fold_left (dfs_step (dfs adj fuel)) l (DfsOk c) <> DfsFuel.
Proof.
  intros Hd. induction l as [|n l IH]; intros c Hl Hf; cbn [fold_left]; [done|]. cbn [dfs_step].
  assert (forall s, s ∈ l -> s ∈ N) as Hl' by (intros s Hs; apply Hl; by right).
  case_bool_decide as Hg; [by rewrite fold_dfs_stuck|]. case_bool_decide as Hb; [by apply IH|].
  pose proof (Hd c n (Hl n (list_elem_of_here _ _)) Hg Hb Hf) as Hd'.
  destruct (dfs adj fuel c n) as [c1| |] eqn:E1; [|by rewrite fold_dfs_stuck|done].
  apply IH; [done|]. eapply Nat.le_lt_trans; [|exact Hf]. apply subseteq_size. apply dfs_mono in E1. set_solver.
Qed.
Lemma dfs_fuel fuel : forall c n, n ∈ N -> n ∉ gray c -> n ∉ black c -> (size (N ∖ colored c) < fuel)%nat -> dfs adj fuel c n <> DfsFuel.
Proof.
  induction fuel as [|fuel IH]; intros c n Hn Hg Hb Hf; [lia|]. cbn [dfs]. rewrite adjacency_spec.
  pose proof (fold_dfs_fuel fuel (sort_Strings (succs es n)) IH (mkColors ({[n]} ∪ gray c) (black c))) as H.
  destruct (fold_left _ _ _); [done|done|]. exfalso. apply H; [| |done].
  - intros s Hs%elem_of_sort_Strings%elem_of_succs. by eapply Hclosed.
  - unfold colored in *. cbn [gray black]. assert (size (N ∖ (({[n]} ∪ gray c) ∪ black c)) < size (N ∖ (gray c ∪ black c)))%nat; [|lia].
    apply subset_size. set_solver.
Qed.

(** The search decides acyclicity and does not run out of fuel. *)
Definition acyclic_loop (ids : list string) (fuel : nat) (c : Colors) : DfsResult :=
  fold_left (fun acc id => match acc with
                           | DfsOk c => if bool_decide (id ∈ gray c) || bool_decide (id ∈ black c) then acc else dfs adj fuel c id
                           | r => r
                           end) ids (DfsOk c).
Lemma acyclic_loop_spec fuel ids : forall c, colors_ok c -> gray c = ∅ -> (forall s, s ∈ ids -> s ∈ N) -> (size N < fuel)%nat ->
  match acyclic_loop ids fuel c with
  | DfsOk c' => colors_ok c' /\ (forall s, s ∈ ids -> s ∈ black c') /\ black c ⊆ black c'
  | DfsCycle n => tc E n n
  | DfsFuel => False
  end.
Proof.
  unfold acyclic_loop. induction ids as [|id ids IH]; intros c Hc Hg Hn Hf; cbn [fold_left].
  { split_and!; try done. by intros s ?%not_elem_of_nil. }
  assert (forall s, s ∈ ids -> s ∈ N) as Hn' by (intros s Hs; apply Hn; by right).
  rewrite Hg. rewrite bool_decide_eq_false_2 by set_solver. cbn [orb]. case_bool_decide as Hb.
  - specialize (IH c Hc Hg Hn' Hf). destruct (fold_left _ ids _); [|done|done]. destruct IH as (H1 & H2 & H3).
    split_and!; [done| |done]. intros s [->|Hs]%elem_of_cons; auto.
  - assert (dfs_post c [id] (dfs adj fuel c id)) as Hp by (apply dfs_spec; [done|set_solver|done|set_solver]).
    assert (dfs adj fuel c id <> DfsFuel) as Hd.
    { apply dfs_fuel; [apply Hn; by left|set_solver|done|]. eapply Nat.le_lt_trans; [|exact Hf]. apply subseteq_size. set_solver. }
    assert (forall r, (forall c, r <> DfsOk c) -> fold_left (fun acc id => match acc with
         | DfsOk c => if bool_decide (id ∈ gray c) || bool_decide (id ∈ black c) then acc else dfs adj fuel c id | r => r end) ids r = r) as Hst.
    { intros r Hr. clear -Hr. induction ids as [|x ids IH]; [done|]. cbn [fold_left]. destruct r as [c0| |]; [by destruct (Hr c0)|by apply IH|by apply IH]. }
    destruct (dfs adj fuel c id) as [c1|m|]; [|rewrite (Hst (DfsCycle m)) by done; exact Hp|done].
    destruct Hp as (H1 & H2 & H3 & H4). rewrite Hg in H1. specialize (IH c1 H4 H1 Hn' Hf).
    destruct (fold_left _ ids _); [|done|done]. destruct IH as (H5 & H6 & H7). split_and!; [done| |set_solver].
    intros s [->|Hs]%elem_of_cons; [apply H7, H3; by left|auto].
Qed.
Lemma checkAcyclic_spec ids : (forall s, s ∈ ids <-> s ∈ N) -> (size N <= length ids)%nat -> (forall u v, E u v -> u ∈ N) ->
  match checkAcyclic adj ids with
  | DfsOk _ => forall x, ~ tc E x x
  | DfsCycle n => tc E n n
  | DfsFuel => False
  end.
Proof.
  intros Hids Hlen Hsrc. assert (colors_ok (mkColors ∅ ∅)) as H0 by (split; cbn; set_solver).
  pose proof (acyclic_loop_spec (S (length ids)) (sort_Strings ids) (mkColors ∅ ∅) H0 eq_refl) as H.
  assert (forall s, s ∈ sort_Strings ids -> s ∈ N) as Hs by (intros s; rewrite elem_of_sort_Strings; apply Hids).
  specialize (H Hs ltac:(lia)). unfold checkAcyclic. unfold acyclic_loop in H. destruct (fold_left _ _ _) as [c| |]; [|exact H|exact H].
  destruct H as (H1 & H2 & _). intros x Hx. apply (co_acyclic c H1 x); [|done]. apply H2, elem_of_sort_Strings, Hids.
  inversion Hx; subst; eauto.
Qed.
End search.

(** ** Termination *)

(** Nodes still waiting for a predecessor. *)
Definition waiting (ind : gmap string Z) : nat := size (filter (fun kv => 0 < kv.2) ind).

Lemma insert_ready_perm n ready : insert_ready n ready ≡ₚ n :: ready.
Proof. unfold insert_ready. rewrite reverse_Permutation, insert_rev_perm, reverse_Permutation. done. Qed.

Lemma waiting_dec ind n :
  (waiting (dec_indegree ind n) + (if (map_get 0 (dec_indegree ind n) n =? 0)%Z then 1 else 0) <= waiting ind)%nat.
Proof.
  unfold waiting, dec_indegree. rewrite map_get_insert, String.eqb_refl. unfold map_get.
  destruct (ind !! n) as [z|] eqn:En; cbn [default from_option id].
  - destruct (Z.eqb_spec (z - 1) 0) as [Hz|Hz].
    + rewrite map_filter_insert_False by (cbn; lia). rewrite map_filter_delete.
      rewrite map_size_delete_Some by (exists z; apply map_lookup_filter_Some; split; [done|cbn; lia]).
      assert (0 < size (filter (fun kv : string * Z => (0 < kv.2)%Z) ind))%nat; [|lia].
      apply Nat.neq_0_lt_0. intros Hs%map_size_empty_inv.
      assert (filter (fun kv : string * Z => 0 < kv.2) ind !! n = Some z) as Hl by (apply map_lookup_filter_Some; split; [done|cbn; lia]).
      by rewrite Hs, lookup_empty in Hl.
    + rewrite Nat.add_0_r. destruct (decide (0 < z - 1)) as [Hp|Hp].
      * rewrite map_filter_insert_True by done.
        rewrite map_size_insert_Some; [done|]. exists z. apply map_lookup_filter_Some. split; [done|cbn; lia].
      * rewrite map_filter_insert_False by done. rewrite map_filter_delete. apply map_subseteq_size, delete_subseteq.
  - change (0 - 1 =? 0) with false. cbv iota. rewrite map_filter_insert_False by (cbn; lia). rewrite map_filter_delete, Nat.add_0_r.
    apply map_subseteq_size, delete_subseteq.
Qed.
Lemma topo_steps_measure l : forall ind ready ind' ready', fold_left topo_step l (ind, ready) = (ind', ready') ->
  (length ready' + waiting ind' <= length ready + waiting ind)%nat.
Proof.
  induction l as [|n l IH]; intros ind ready ind' ready'; cbn [fold_left]; [by intros [= <- <-]|].
  cbn [topo_step]. pose proof (waiting_dec ind n) as Hw. destruct (map_get 0 (dec_indegree ind n) n =? 0); intros H%IH; [|lia].
  rewrite (Permutation_length (insert_ready_perm n ready)) in H. cbn [length] in H. lia.
Qed.
Lemma topo_loop_total adj fuel : forall ind ready out, (length ready + waiting ind <= fuel)%nat -> exists r, topo_loop adj fuel ind ready out = Some r.
Proof.
  induction fuel as [|fuel IH]; intros ind [|cur ready] out Hf; cbn [topo_loop]; try by eexists; cbn in Hf.
  - cbn in Hf. lia.
  - destruct (fold_left topo_step (map_get [] adj cur) (ind, ready)) as [ind' ready'] eqn:E. apply topo_steps_measure in E.
    apply IH. cbn in Hf. lia.
Qed.
Lemma indegrees_size es : (size (indegrees es) <= length es)%nat.
Proof.
  unfold indegrees. induction es as [|e es IH] using rev_ind; [cbn; rewrite map_size_empty; lia|].
  rewrite fold_left_app, length_app. cbn [fold_left length]. set (m := fold_left _ es ∅) in *.
  destruct (m !! e_To e) eqn:E; [rewrite map_size_insert_Some by (by rewrite E)|rewrite map_size_insert_None by done]; lia.
Qed.
Lemma topological_order_total def : exists out, TopologicalOrder def = Some out.
Proof.
  unfold TopologicalOrder. apply topo_loop_total. apply Nat.add_le_mono.
  - apply List.filter_length_le.
  - etrans; [|apply indegrees_size]. apply map_subseteq_size, map_filter_subseteq.
Qed.

(** ** Order *)

Definition occ (v : string) (l : list string) : Z := Z.of_nat (length (List.filter (String.eqb v) l)).
(** Edges into [v] from nodes not yet emitted. *)
Definition pending (es : list DefinitionEdge) (out : list string) (v : string) : Z :=
  Z.of_nat (length (List.filter (fun e => String.eqb (e_To e) v && negb (mem (e_From e) out)) es)).
(** Every node of the list comes after its predecessors. *)
Definition ordered (es : list DefinitionEdge) (out : list string) : Prop :=
  forall l1 v l2 u, out = l1 ++ v :: l2 -> edge_rel es u v -> u ∈ l1.

Lemma occ_nonneg v l : 0 <= occ v l.
Proof. unfold occ. lia. Qed.
Lemma occ_cons v n l : occ v (n :: l) = (if String.eqb v n then 1 else 0) + occ v l.
Proof. unfold occ. cbn [List.filter]. destruct (String.eqb v n); cbn [length]; lia. Qed.
Lemma mem_spec s l : mem s l = true <-> s ∈ l.
Proof. unfold mem. rewrite existsb_exists, list_elem_of_In. setoid_rewrite String.eqb_eq. naive_solver. Qed.
Lemma mem_app s l1 l2 : mem s (l1 ++ l2) = mem s l1 || mem s l2.
Proof. apply existsb_app. Qed.

Lemma pending_emit es out cur v : cur ∉ out -> pending es out v = pending es (out ++ [cur]) v + occ v (succs es cur).
Proof.
  intros Hc. unfold pending, occ, succs. induction es as [|e es IH]; [done|]. cbn [List.filter map].
  rewrite mem_app. cbn [mem existsb]. rewrite orb_false_r.
  destruct (String.eqb_spec (e_From e) cur) as [Hf|Hf]; cbn [map].
  - assert (mem (e_From e) out = false) as ->.
    { apply not_true_is_false. rewrite mem_spec. by rewrite Hf. }
    cbn [orb negb]. rewrite andb_true_r, andb_false_r. cbn [List.filter]. rewrite (String.eqb_sym v).
    destruct (String.eqb (e_To e) v); cbn [length]; lia.
  - rewrite orb_false_r. destruct (_ && _); cbn [length]; lia.
Qed.
Lemma pending_zero es out v : pending es out v = 0 <-> forall u, edge_rel es u v -> u ∈ out.
Proof.
  unfold pending, edge_rel. induction es as [|e es IH]; cbn [List.filter].
  - split; [|done]. intros _ u (e & He & _). by apply not_elem_of_nil in He.
  - destruct (String.eqb (e_To e) v && negb (mem (e_From e) out)) eqn:Eb.
    + apply andb_true_iff in Eb as [Ht%String.eqb_eq Hm%negb_true_iff]. split; [cbn [length]; lia|]. intros H.
      exfalso. apply not_true_iff_false in Hm. apply Hm, mem_spec, H. exists e. split; [by left|done].
    + rewrite IH. split.
      * intros H u (e' & [->|He]%elem_of_cons & <- & Ht); [|by apply H; exists e'].
        rewrite Ht, String.eqb_refl in Eb. by apply negb_false_iff, mem_spec in Eb.
      * intros H u (e' & He & Hft). apply H. exists e'. split; [by right|done].
Qed.
Lemma indegrees_spec es v : map_get 0 (indegrees es) v = pending es [] v.
Proof.
  unfold indegrees, pending. induction es as [|e es IH] using rev_ind; [done|].
  rewrite fold_left_app, List.filter_app, length_app. cbn [fold_left List.filter].
  rewrite map_get_insert. change (mem (e_From e) []) with false. cbn [negb]. rewrite andb_true_r.
  destruct (String.eqb_spec (e_To e) v) as [->|]; cbn [length]; rewrite IH; lia.
Qed.

Section schedule.
Context (es : list DefinitionEdge) (ids : list string).
Hypothesis Hids : NoDup ids.
Hypothesis Hends : forall u v, edge_rel es u v -> u ∈ ids /\ v ∈ ids.

(** The ready list holds exactly the nodes that wait for nothing and are not
    yet emitted. *)
Record topo_inv (base : string -> Z) (l : list string) (emitted : list string) (ind : gmap string Z) (ready : list string) : Prop := {
  ti_base : forall v, 0 <= base v;
  ti_ind : forall v, map_get 0 ind v = base v + occ v l;
  ti_nodup : NoDup (emitted ++ ready);
  ti_sub : forall v, v ∈ emitted ++ ready -> v ∈ ids;
  ti_ready : forall v, v ∈ ids -> (v ∈ emitted ++ ready <-> map_get 0 ind v = 0) }.

Lemma topo_steps_inv base emitted l : (forall v, v ∈ l -> v ∈ ids) -> forall ind ready ind' ready',
  topo_inv base l emitted ind ready -> fold_left topo_step l (ind, ready) = (ind', ready') -> topo_inv base [] emitted ind' ready'.
Proof.
  induction l as [|n l IH]; intros Hl ind ready ind' ready' Hi; cbn [fold_left]; [by intros [= <- <-]|].
  assert (forall v, v ∈ l -> v ∈ ids) as Hl' by (intros v Hv; apply Hl; by right).
  assert (n ∈ ids) as Hn by (apply Hl; by left). destruct Hi as [Hb Hind Hnd Hsub Hr]. cbn [topo_step].
  assert (forall v, map_get 0 (dec_indegree ind n) v = base v + occ v l) as Hind'.
  { intros v. unfold dec_indegree. rewrite map_get_insert. pose proof (Hind v) as Hv. rewrite occ_cons in Hv.
    rewrite (String.eqb_sym v n) in Hv. destruct (String.eqb_spec n v) as [->|]; lia. }
  assert (n ∉ emitted ++ ready) as Hnew.
  { rewrite (Hr n Hn), (Hind n), occ_cons, String.eqb_refl. pose proof (Hb n). pose proof (occ_nonneg n l). lia. }
  assert (forall v, v <> n -> map_get 0 (dec_indegree ind n) v = map_get 0 ind v) as Hother.
  { intros v Hv. unfold dec_indegree. rewrite map_get_insert. by destruct (String.eqb_spec n v) as [->|]. }
  destruct (Z.eqb_spec (map_get 0 (dec_indegree ind n) n) 0) as [Hz|Hz]; apply IH; try done; split; try done.
  - rewrite insert_ready_perm, <- Permutation_middle. by constructor.
  - intros v. rewrite insert_ready_perm, <- Permutation_middle, elem_of_cons. intros [->|Hv]; auto.
  - intros v Hv. rewrite insert_ready_perm, <- Permutation_middle, elem_of_cons.
    destruct (decide (v = n)) as [->|Hne]; [naive_solver|]. rewrite Hother, <- (Hr v Hv) by done. naive_solver.
  - intros v Hv. destruct (decide (v = n)) as [->|Hne]; [naive_solver|]. by rewrite Hother, <- (Hr v Hv).
Qed.

Lemma topo_loop_spec fuel : forall ind ready out r, topo_inv (pending es out) [] out ind ready -> ordered es out ->
  topo_loop (adjacency es) fuel ind ready out = Some r ->
  NoDup r /\ (forall v, v ∈ r -> v ∈ ids) /\ ordered es r /\ forall v, v ∈ ids -> (forall u, edge_rel es u v -> u ∈ r) -> v ∈ r.
Proof.
  induction fuel as [|fuel IH]; intros ind ready out r Hi Ho; (destruct ready as [|cur ready]; cbn [topo_loop]; [|try done]).
  1, 2: intros [= <-]; destruct Hi as [Hb Hind Hnd Hsub Hr]; rewrite app_nil_r in *; split_and!; try done;
    intros v Hv Hall; apply (Hr v Hv); rewrite Hind; apply pending_zero in Hall; rewrite Hall; done.
  destruct (fold_left topo_step (map_get [] (adjacency es) cur) (ind, ready)) as [ind' ready'] eqn:Es.
  destruct Hi as [Hb Hind Hnd Hsub Hr].
  assert (cur ∈ ids) as Hcur by (apply Hsub, elem_of_app; right; by left).
  assert (cur ∉ out) as Hout.
  { apply NoDup_app in Hnd as (_ & Hd & _). intros Hc. apply (Hd cur Hc). by left. }
  apply IH.
  - rewrite adjacency_spec in Es. apply (topo_steps_inv (pending es (out ++ [cur])) (out ++ [cur]) (succs es cur)) in Es; [done| |].
    + intros v Hv. apply elem_of_succs in Hv. by apply Hends in Hv as [_ ?].
    + split.
      * intros v. unfold pending. lia.
      * intros v. rewrite <- pending_emit by done. rewrite Hind. unfold occ. cbn. lia.
      * rewrite <- app_assoc. done.
      * intros v. rewrite <- app_assoc. apply Hsub.
      * intros v Hv. rewrite <- app_assoc. apply (Hr v Hv).
  - assert (map_get 0 ind cur = 0) as Hz by (apply (Hr cur Hcur), elem_of_app; right; by left).
    assert (pending es out cur = 0) as Hp by (rewrite Hind in Hz; unfold occ in Hz; cbn in Hz; lia).
    intros l1 v l2 u E Huv. destruct l2 as [|x l2 _] using rev_ind.
    + apply app_inj_tail in E as [-> ->]. by apply (proj1 (pending_zero es l1 v) Hp).
    + rewrite app_comm_cons, app_assoc in E. apply app_inj_tail in E as [-> _]. by eapply Ho.
Qed.

Lemma topo_complete (r : list string) : (forall x, ~ tc (edge_rel es) x x) ->
  (forall v, v ∈ ids -> (forall u, edge_rel es u v -> u ∈ r) -> v ∈ r) -> forall v, v ∈ ids -> v ∈ r.
Proof.
  intros Hac Hcl. set (R := fun v u => edge_rel es u v).
  assert (forall x y, tc R x y -> tc (edge_rel es) y x) as Hflip.
  { induction 1 as [x y Hxy|x y z Hxy _ IHt]; [by apply tc_once|]. eapply tc_r; [exact IHt|exact Hxy]. }
  intros v. assert (sn R v) as Hsn.
  { apply tc_finite_sn; [intros x Hx; by eapply Hac, Hflip|]. exists ids. intros u Hu.
    induction Hu as [x y Hxy|x y z Hxy _ IHt]; [|done]. by apply Hends in Hxy as [? _]. }
  induction Hsn as [v _ IHv]. intros Hv. apply Hcl; [done|]. intros u Huv. apply IHv; [exact Huv|]. by apply Hends in Huv as [? _].
Qed.
End schedule.

Lemma schedule_spec def : let es := d_Edges def in let ids := map n_ID (d_Nodes def) in
  NoDup ids -> (forall u v, edge_rel es u v -> u ∈ ids /\ v ∈ ids) -> (forall x, ~ tc (edge_rel es) x x) ->
  exists out, TopologicalOrder def = Some out /\ out ≡ₚ ids /\ ordered es out.
Proof.
  cbv zeta. intros Hnd Hends Hac. destruct (topological_order_total def) as [out Hout]. exists out. split; [done|].
  unfold TopologicalOrder in Hout. apply (topo_loop_spec _ (map n_ID (d_Nodes def))) in Hout; [|done| |].
  - destruct Hout as (H1 & H2 & H3 & H4). split; [|done]. apply NoDup_Permutation; [done|done|]. intros v. split; [apply H2|].
    apply (topo_complete (d_Edges def) (map n_ID (d_Nodes def)) Hends out Hac H4).
  - split.
    + intros v. unfold pending. lia.
    + intros v. rewrite indegrees_spec. unfold occ. cbn. lia.
    + cbn. apply NoDup_ListNoDup, List.NoDup_filter, NoDup_ListNoDup. unfold sort_Strings. by rewrite slice_stable_perm.
    + intros v. cbn. rewrite list_elem_of_In, filter_In, <- list_elem_of_In. intros [Hv _]. unfold sort_Strings in Hv. by rewrite slice_stable_perm in Hv.
    + intros v Hv. cbn. rewrite list_elem_of_In, filter_In, <- list_elem_of_In, Z.eqb_eq. unfold sort_Strings. rewrite slice_stable_perm. naive_solver.
  - intros l1 v l2 u E. by destruct l1.
Qed.
