(* ===== verification/WorkflowProofs.v ===== *)
(** * Workflow validation is exact, and what it accepts can be scheduled

    [ValidateDefinition] always returns, accepts exactly the well-formed
    definitions, and every accepted definition has a schedule that respects
    its edges.  Input mappings resolve exactly when all collected references
    do; the run and node state machines never leave a terminal state. *)

From stdpp Require Import relations.
From S2P Require Import Prelude Workflow WorkflowGraph.

Lemma first_error_None {A E} (f : A -> option E) (l : list A) : first_error f l = None <-> forall x, x ∈ l -> f x = None.
Proof.
  induction l as [|x l IH]; cbn [first_error]; [split; [|done]; by intros _ x ?%not_elem_of_nil|].
  destruct (f x) as [e|] eqn:E1.
  - split; [done|]. intros H. rewrite <- E1. apply H. by left.
  - rewrite IH. split; [intros H y [->|Hy]%elem_of_cons; auto|]. intros H y Hy. apply H. by right.
Qed.

(** ** The loops of the validation *)

Definition lookup_node (reg : Registry) (n : DefinitionNode) : option NodeSpec := reg !! (n_NodeID n +:+ "@" +:+ n_Version n).
Definition node_ok (reg : Registry) (n : DefinitionNode) : Prop :=
  n_ID n <> "" /\ n_Version n = SupportedVersion /\ exists spec, lookup_node reg n = Some spec /\ ValidateConfig spec (n_Config n) = None.
(** The instances of a definition with their contracts. *)
Definition instances (reg : Registry) (ns : list DefinitionNode) (nodes : gmap string NodeSpec) : Prop :=
  forall id spec, nodes !! id = Some spec <-> exists n, n ∈ ns /\ n_ID n = id /\ lookup_node reg n = Some spec.

Lemma check_nodes_sound reg ns : forall nodes0 nodes, check_nodes reg ns nodes0 = inr nodes ->
  NoDup (map n_ID ns) /\ (forall n, n ∈ ns -> node_ok reg n /\ nodes0 !! n_ID n = None) /\
  (forall id spec, nodes !! id = Some spec <-> nodes0 !! id = Some spec \/ exists n, n ∈ ns /\ n_ID n = id /\ lookup_node reg n = Some spec).
Proof.
  induction ns as [|n ns IH]; intros nodes0 nodes; cbn [check_nodes map].
  { intros [= <-]. split_and!; [constructor|by intros n ?%not_elem_of_nil|]. intros id spec. split; [auto|].
    intros [?|(n & ?%not_elem_of_nil & _)]; done. }
  destruct (String.eqb_spec (n_ID n) "") as [|Hid]; [done|]. case_bool_decide as Hdup; [done|].
  destruct (String.eqb_spec (n_Version n) SupportedVersion) as [Hv|]; [|done]. cbn [negb].
  unfold Lookup. rewrite Hv, String.eqb_refl. cbn [negb]. rewrite <- Hv. fold (lookup_node reg n).
  destruct (lookup_node reg n) as [spec|] eqn:El; [|done]. destruct (ValidateConfig spec (n_Config n)) eqn:Ec; [done|].
  intros H. destruct (IH _ _ H) as (H1 & H2 & H3). apply eq_None_not_Some in Hdup. split_and!.
  - constructor; [|done]. intros (n' & Hn' & Hin)%list_elem_of_fmap. destruct (H2 n' Hin) as [_ Hl]. by rewrite <- Hn', lookup_insert_eq in Hl.
  - intros n' [->|Hn']%elem_of_cons; [split; [|done]; split_and!; [done|done|by exists spec]|].
    destruct (H2 n' Hn') as [Hok Hl]. split; [done|]. rewrite lookup_insert_None in Hl. by destruct Hl.
  - intros id spec'. rewrite H3, lookup_insert_Some. split.
    + intros [[[<- <-]|[_ ?]]|(n' & Hn' & ?)]; [right; exists n; split; [by left|done]|by left|right; exists n'; split; [by right|done]].
    + intros [Hl|(n' & [->|Hn']%elem_of_cons & Hi & Hs)].
      * left. destruct (decide (n_ID n = id)) as [<-|]; [congruence|by right].
      * left. left. split; [done|congruence].
      * right. by exists n'.
Qed.
Lemma check_nodes_complete reg ns : forall nodes0, NoDup (map n_ID ns) ->
  (forall n, n ∈ ns -> node_ok reg n /\ nodes0 !! n_ID n = None) -> exists nodes, check_nodes reg ns nodes0 = inr nodes.
Proof.
  induction ns as [|n ns IH]; intros nodes0 Hnd Hok; cbn [check_nodes map] in *; [by eexists|].
  inversion Hnd as [|? ? Hni Hnd']; subst. destruct (Hok n (list_elem_of_here _ _)) as [(Hid & Hv & spec & Hl & Hc) Hnone].
  rewrite (proj2 (String.eqb_neq _ _) Hid), bool_decide_eq_false_2 by (rewrite Hnone; by intros []).
  rewrite Hv, String.eqb_refl. cbn [negb]. unfold Lookup. rewrite String.eqb_refl. cbn [negb]. rewrite <- Hv. fold (lookup_node reg n).
  rewrite Hl, Hc. apply IH; [done|]. intros n' Hn'. destruct (Hok n' (list_elem_of_further _ _ _ Hn')) as [Hok' Hl']. split; [done|].
  rewrite lookup_insert_ne; [done|]. intros Heq. apply Hni. rewrite Heq. by apply list_elem_of_fmap_2.
Qed.

Definition trigger_ok (nodes : gmap string NodeSpec) (tr : DefinitionTrigger) : Prop :=
  t_Name tr <> "" /\ exists nodeID spec, triggerNodeID (t_Kind tr) = Some nodeID /\ nodes !! t_Name tr = Some spec /\
    ns_ID spec = nodeID /\ ValidateConfig spec (t_Config tr) = None.
Lemma check_triggers_spec nodes ts : forall decls0 decls, check_triggers nodes ts decls0 = inr decls <->
  NoDup (map t_Name ts) /\ (forall tr, tr ∈ ts -> trigger_ok nodes tr /\ t_Name tr ∉ decls0) /\ decls = list_to_set (map t_Name ts) ∪ decls0.
Proof.
  induction ts as [|tr ts IH]; intros decls0 decls; cbn [check_triggers map].
  { split; [intros [= <-]|intros (_ & _ & ->)]; [|f_equal; set_solver]. split_and!; [constructor|by intros tr ?%not_elem_of_nil|set_solver]. }
  split.
  - destruct (String.eqb_spec (t_Name tr) "") as [|Hn]; [done|]. case_bool_decide as Hd; [done|].
    destruct (triggerNodeID (t_Kind tr)) as [nid|] eqn:Ek; [|done]. destruct (nodes !! t_Name tr) as [spec|] eqn:El; [|done].
    destruct (String.eqb_spec (ns_ID spec) nid) as [Hs|]; [|done]. cbn [negb]. destruct (ValidateConfig spec (t_Config tr)) eqn:Ec; [done|].
    intros H. apply IH in H as (H1 & H2 & ->). split_and!.
    + constructor; [|done]. intros (tr' & He & Hin)%list_elem_of_fmap. destruct (H2 tr' Hin). set_solver.
    + intros tr' [->|Hin]%elem_of_cons; [split; [|done]; split; [done|by exists nid, spec]|]. destruct (H2 tr' Hin). set_solver.
    + set_solver.
  - intros (Hnd & Hok & ->). inversion Hnd as [|? ? Hni Hnd']; subst.
    destruct (Hok tr (list_elem_of_here _ _)) as [(Hn & nid & spec & Hk & Hl & Hs & Hc) Hd].
    rewrite (proj2 (String.eqb_neq _ _) Hn), bool_decide_eq_false_2, Hk, Hl by done. rewrite Hs, String.eqb_refl. cbn [negb]. rewrite Hc.
    apply IH. split_and!; [done| |set_solver]. intros tr' Hin. destruct (Hok tr' (list_elem_of_further _ _ _ Hin)) as [Hok' Hd']. split; [done|].
    assert (t_Name tr' <> t_Name tr); [|set_solver]. intros He. apply Hni. rewrite <- He. by apply list_elem_of_fmap_2.
Qed.

Definition edge_ok (def : Definition_) (nodes : gmap string NodeSpec) (e : DefinitionEdge) : Prop :=
  e_ID e <> "" /\ is_Some (nodes !! e_To e) /\ e_From e <> e_To e /\
  exists from, nodes !! e_From e = Some from /\ (e_Branch e <> "" -> validateBranchEdge def e from = None).
Lemma check_edges_spec def nodes es : forall ids triples, check_edges def nodes es ids triples = None <->
  NoDup (map e_ID es) /\ NoDup (map triple es) /\ forall e, e ∈ es -> edge_ok def nodes e /\ e_ID e ∉ ids /\ triple e ∉ triples.
Proof.
  induction es as [|e es IH]; intros ids triples; cbn [check_edges map].
  { split; [intros _|done]. split_and!; [constructor|constructor|by intros e ?%not_elem_of_nil]. }
  split.
  - destruct (String.eqb_spec (e_ID e) "") as [|Hid]; [done|]. case_bool_decide as Hd; [done|].
    destruct (nodes !! e_From e) as [from|] eqn:Ef; [|done]. case_bool_decide as Ht; cbn [negb]; [|done].
    destruct (String.eqb_spec (e_From e) (e_To e)) as [|Hse]; [done|]. case_bool_decide as Htr; [done|].
    destruct (if negb (String.eqb (e_Branch e) "") then _ else None) eqn:Eb; [done|].
    intros H. apply IH in H as (H1 & H2 & H3). split_and!.
    + constructor; [|done]. intros (e' & He & Hin)%list_elem_of_fmap. destruct (H3 e' Hin) as (_ & ? & _). set_solver.
    + constructor; [|done]. intros (e' & He & Hin)%list_elem_of_fmap. destruct (H3 e' Hin) as (_ & _ & ?). set_solver.
    + intros e' [->|Hin]%elem_of_cons; [|destruct (H3 e' Hin) as (? & ? & ?); set_solver].
      split_and!; [|done|done]. split_and!; [done|done|done|]. exists from. split; [done|]. intros Hb.
      by rewrite (proj2 (String.eqb_neq _ _) Hb) in Eb.
  - intros (Hn1 & Hn2 & Hok). inversion Hn1 as [|? ? Hi1 Hn1']; subst. inversion Hn2 as [|? ? Hi2 Hn2']; subst.
    destruct (Hok e (list_elem_of_here _ _)) as ((Hid & Ht & Hse & from & Hf & Hb) & Hd & Htr).
    rewrite (proj2 (String.eqb_neq _ _) Hid), bool_decide_eq_false_2, Hf, bool_decide_eq_true_2 by done. cbn [negb].
    rewrite (proj2 (String.eqb_neq _ _) Hse), bool_decide_eq_false_2 by done.
    assert ((if negb (String.eqb (e_Branch e) "") then validateBranchEdge def e from else None) = None) as ->.
    { destruct (String.eqb_spec (e_Branch e) ""); [done|by apply Hb]. }
    apply IH. split_and!; [done|done|]. intros e' Hin. destruct (Hok e' (list_elem_of_further _ _ _ Hin)) as (Hok' & Hd' & Htr').
    assert (e_ID e' <> e_ID e) by (intros He; apply Hi1; rewrite <- He; by apply list_elem_of_fmap_2).
    assert (triple e' <> triple e) by (intros He; apply Hi2; rewrite <- He; by apply list_elem_of_fmap_2). set_solver.
Qed.

(** ** The graph checks *)

Definition is_trigger (nodes : gmap string NodeSpec) (id : string) : Prop := instanceIsTrigger nodes id = true.
(** Every node is a trigger without, or a step with, a predecessor; every node
    is reachable from a trigger; there is no cycle. *)
Definition graph_ok (nodes : gmap string NodeSpec) (es : list DefinitionEdge) (ids : list string) : Prop :=
  (forall id, id ∈ ids -> (is_trigger nodes id <-> ~ exists u, edge_rel es u id)) /\
  (forall id, id ∈ ids -> exists t, t ∈ ids /\ is_trigger nodes t /\ rtc (edge_rel es) t id) /\
  (forall x, ~ tc (edge_rel es) x x).

Lemma incoming_spec es id : incoming es id = 0 <-> ~ exists u, edge_rel es u id.
Proof.
  unfold incoming. split.
  - intros H (u & e & He & _ & Ht). assert (In e (List.filter (fun e => String.eqb (e_To e) id) es)) as Hin.
    { apply filter_In. split; [by apply list_elem_of_In|by apply String.eqb_eq]. }
    destruct (List.filter _ es); [done|cbn in H; lia].
  - intros H. destruct (List.filter (fun e => String.eqb (e_To e) id) es) as [|e l] eqn:E; [done|exfalso]. apply H.
    assert (In e (List.filter (fun e => String.eqb (e_To e) id) es)) as Hin by (rewrite E; by left).
    apply filter_In in Hin as [Hin Ht%String.eqb_eq]. exists (e_From e), e. split; [by apply list_elem_of_In|done].
Qed.
Lemma check_root_spec nodes es id : check_root nodes es id = None <-> (is_trigger nodes id <-> ~ exists u, edge_rel es u id).
Proof.
  unfold check_root, is_trigger. rewrite <- incoming_spec. assert (0 <= incoming es id) by (unfold incoming; lia).
  destruct (instanceIsTrigger nodes id).
  - destruct (Z.ltb_spec 0 (incoming es id)); split; try done; [intros [H1 _]; specialize (H1 eq_refl); lia|]. intros _. split; [lia|done].
  - destruct (Z.eqb_spec (incoming es id) 0); split; try done. by intros [_ H1]; specialize (H1 e).
Qed.
Lemma size_list_to_set_le (l : list string) : (size (list_to_set l : gset string) <= length l)%nat.
Proof.
  induction l as [|x l IH]; cbn [list_to_set length]; [by rewrite size_empty|]. rewrite size_union_alt, size_singleton.
  pose proof (subseteq_size ((list_to_set l : gset string) ∖ {[x]}) (list_to_set l) ltac:(set_solver)). lia.
Qed.
Lemma graph_checks_spec def nodes : let es := d_Edges def in let ids := map n_ID (d_Nodes def) in
  (forall u v, edge_rel es u v -> u ∈ ids /\ v ∈ ids) ->
  (graph_checks def nodes = inr None <-> graph_ok nodes es ids) /\ exists r, graph_checks def nodes = inr r.
Proof.
  cbv zeta. intros Hends. set (es := d_Edges def) in *. set (ids := map n_ID (d_Nodes def)) in *.
  set (N := list_to_set ids : gset string).
  assert (forall s, s ∈ ids <-> s ∈ N) as HN by (intros s; unfold N; by rewrite elem_of_list_to_set).
  assert (size N <= length ids)%nat as Hsz by apply size_list_to_set_le.
  assert (forall u v, edge_rel es u v -> u ∈ N -> v ∈ N) as Hcl by (intros u v H _; apply HN; by apply Hends in H as [_ ?]).
  unfold graph_checks, graph_ok. fold es ids.
  destruct (first_error (check_root nodes es) ids) as [e|] eqn:Er.
  { split; [|by eexists]. split; [done|]. intros (H & _).
    assert (first_error (check_root nodes es) ids = None) as Hn by (apply first_error_None; intros x Hx; by apply check_root_spec, H). congruence. }
  pose proof (proj1 (first_error_None _ _) Er) as Hroot.
  destruct (visit_all_fuel es N Hcl (S (S (length ids))) (List.filter (instanceIsTrigger nodes) ids) ∅) as [R HR]; [|lia|].
  { intros s Hs. apply list_elem_of_In, filter_In in Hs as [Hs _]. apply HN. by apply list_elem_of_In. }
  rewrite HR. pose proof (visit_all_spec es N Hcl _ _ _ HR) as Hreach.
  assert (forall id, id ∈ R <-> exists t, t ∈ ids /\ is_trigger nodes t /\ rtc (edge_rel es) t id) as HRspec.
  { intros id. rewrite Hreach. setoid_rewrite list_elem_of_In. setoid_rewrite filter_In. unfold is_trigger. naive_solver. }
  clear Er. destruct (first_error (fun id => if bool_decide (id ∈ R) then None else Some (Unreachable id)) ids) as [e|] eqn:Eu.
  { split; [|by eexists]. split; [done|]. intros (_ & H & _).
    assert (first_error (fun id => if bool_decide (id ∈ R) then None else Some (Unreachable id)) ids = None) as Hn; [|congruence].
    apply first_error_None. intros x Hx. rewrite bool_decide_eq_true_2; [done|]. apply HRspec, H, Hx. }
  pose proof (proj1 (first_error_None _ _) Eu) as Hun.
  pose proof (checkAcyclic_spec es N Hcl ids HN Hsz) as Hac.
  assert (forall u v, edge_rel es u v -> u ∈ N) as Hsrc by (intros u v H; apply HN; by apply Hends in H as [? _]).
  specialize (Hac Hsrc). destruct (checkAcyclic (adjacency es) ids) as [c|n|]; [|split; [|eexists; reflexivity]|done].
  - split; [|eexists; reflexivity]. split; [intros _|done]. split_and!; [|  |exact Hac].
    + intros id Hid. by apply check_root_spec, Hroot.
    + intros id Hid. specialize (Hun id Hid). cbv beta in Hun. case_bool_decide as Hd; [|done]. by apply HRspec.
  - split; [done|]. intros (_ & _ & H). by destruct (H n).
Qed.

(** ** Validation *)

Record wf_definition (reg : Registry) (def : Definition_) : Prop := {
  wf_head : d_SchemaVersion def = "v1" /\ d_ID def <> "" /\ d_Name def <> "";
  wf_settings : 0 <= s_RunTimeoutSeconds (d_Settings def) /\ 0 <= s_MaxConcurrentRuns (d_Settings def) /\
    (s_RetentionDays (d_Settings def) = 0 \/ 7 <= s_RetentionDays (d_Settings def) <= 365);
  wf_nodes : d_Nodes def <> [] /\ NoDup (map n_ID (d_Nodes def)) /\ forall n, n ∈ d_Nodes def -> node_ok reg n;
  wf_rest : exists nodes, instances reg (d_Nodes def) nodes /\
    (forall n, n ∈ d_Nodes def -> check_mapping nodes n = None) /\
    d_Triggers def <> [] /\ NoDup (map t_Name (d_Triggers def)) /\ (forall tr, tr ∈ d_Triggers def -> trigger_ok nodes tr) /\
    (forall id, id ∈ map n_ID (d_Nodes def) -> is_trigger nodes id -> id ∈ map t_Name (d_Triggers def)) /\
    NoDup (map e_ID (d_Edges def)) /\ NoDup (map triple (d_Edges def)) /\ (forall e, e ∈ d_Edges def -> edge_ok def nodes e) /\
    graph_ok nodes (d_Edges def) (map n_ID (d_Nodes def)) }.

Lemma validateSettings_spec def : validateSettings def = None <->
  0 <= s_RunTimeoutSeconds (d_Settings def) /\ 0 <= s_MaxConcurrentRuns (d_Settings def) /\
  (s_RetentionDays (d_Settings def) = 0 \/ 7 <= s_RetentionDays (d_Settings def) <= 365).
Proof.
  unfold validateSettings. destruct (Z.ltb_spec (s_RunTimeoutSeconds (d_Settings def)) 0); [split; [done|lia]|].
  destruct (Z.ltb_spec (s_MaxConcurrentRuns (d_Settings def)) 0); [split; [done|lia]|].
  destruct (Z.eqb_spec (s_RetentionDays (d_Settings def)) 0); cbn [negb andb]; [split; [lia|done]|].
  destruct (Z.ltb_spec (s_RetentionDays (d_Settings def)) 7), (Z.ltb_spec 365 (s_RetentionDays (d_Settings def))); cbn [orb];
    split; try done; lia.
Qed.
Lemma instances_ids reg ns nodes id : instances reg ns nodes -> (forall n, n ∈ ns -> node_ok reg n) ->
  (id ∈ map n_ID ns <-> is_Some (nodes !! id)).
Proof.
  intros Hi Hok. split.
  - intros (n & -> & Hn)%list_elem_of_fmap. destruct (Hok n Hn) as (_ & _ & spec & Hl & _). exists spec. apply Hi. by exists n.
  - intros [spec (n & Hn & <- & _)%Hi]. by apply list_elem_of_fmap_2.
Qed.
Lemma edges_in_nodes reg def nodes : instances reg (d_Nodes def) nodes -> (forall n, n ∈ d_Nodes def -> node_ok reg n) ->
  (forall e, e ∈ d_Edges def -> edge_ok def nodes e) ->
  forall u v, edge_rel (d_Edges def) u v -> u ∈ map n_ID (d_Nodes def) /\ v ∈ map n_ID (d_Nodes def).
Proof.
  intros Hi Hn Hok u v (e & He & <- & <-). destruct (Hok e He) as (_ & Ht & _ & from & Hf & _).
  rewrite !(instances_ids reg _ nodes) by done. split; [by exists from|done].
Qed.

Lemma wf_sound reg def : ValidateDefinition (Some def) (Some reg) = inr None -> wf_definition reg def.
Proof.
  unfold ValidateDefinition. destruct (String.eqb_spec (d_SchemaVersion def) "v1") as [H1|]; [|done]. cbn [negb].
  destruct (String.eqb_spec (d_ID def) "") as [|H2]; [done|]. destruct (String.eqb_spec (d_Name def) "") as [|H3]; [done|].
  destruct (validateSettings def) eqn:Es; [done|]. apply validateSettings_spec in Es.
  destruct (Nat.eqb_spec (length (d_Nodes def)) 0) as [|H4]; [done|]. destruct (check_nodes reg (d_Nodes def) ∅) as [|nodes] eqn:En; [done|].
  destruct (check_nodes_sound _ _ _ _ En) as (Hnd & Hok & Hinst).
  destruct (validateInputMappings def nodes) eqn:Em; [done|]. pose proof (proj1 (first_error_None _ _) Em) as Hmap.
  destruct (Nat.eqb_spec (length (d_Triggers def)) 0) as [|H5]; [done|]. destruct (check_triggers nodes (d_Triggers def) ∅) as [|decls] eqn:Et; [done|].
  apply check_triggers_spec in Et as (Htn & Htok & ->).
  destruct (first_error _ (map n_ID (d_Nodes def))) eqn:Eu; [done|]. pose proof (proj1 (first_error_None _ _) Eu) as Hdecl.
  destruct (check_edges def nodes (d_Edges def) ∅ ∅) eqn:Ee; [done|]. apply check_edges_spec in Ee as (He1 & He2 & Heok). intros Hg.
  assert (instances reg (d_Nodes def) nodes) as Hi.
  { intros id spec. rewrite Hinst. rewrite lookup_empty. split; [by intros [|]|by right]. }
  assert (forall n, n ∈ d_Nodes def -> node_ok reg n) as Hok' by (intros n Hn; by apply Hok).
  assert (forall e, e ∈ d_Edges def -> edge_ok def nodes e) as Heok' by (intros e He; by apply Heok).
  split; [done|done| |].
  - split_and!; [by destruct (d_Nodes def)|done|done].
  - exists nodes. split_and!; try done; [by destruct (d_Triggers def)|by intros tr ?; apply Htok| |].
    + intros id Hid Htr. specialize (Hdecl id Hid). cbv beta in Hdecl. unfold is_trigger in Htr. rewrite Htr in Hdecl. cbn [andb] in Hdecl.
      case_bool_decide as Hd; [|done]. apply elem_of_union in Hd as [Hd|?]; [by apply elem_of_list_to_set in Hd|set_solver].
    + pose proof (edges_in_nodes reg def nodes Hi Hok' Heok') as Hends. by apply (graph_checks_spec def nodes Hends).
Qed.
Lemma wf_complete reg def : wf_definition reg def -> ValidateDefinition (Some def) (Some reg) = inr None.
Proof.
  intros [(H1 & H2 & H3) Hs (Hn1 & Hn2 & Hn3) (nodes & Hi & Hm & Ht1 & Ht2 & Ht3 & Htd & He1 & He2 & He3 & Hg)].
  unfold ValidateDefinition. rewrite H1. cbn [String.eqb negb]. change (negb (String.eqb "v1" "v1")) with false. cbv iota.
  rewrite (proj2 (String.eqb_neq _ _) H2), (proj2 (String.eqb_neq _ _) H3), (proj2 (validateSettings_spec def) Hs).
  assert ((length (d_Nodes def) =? 0)%nat = false) as -> by (by destruct (d_Nodes def)).
  destruct (check_nodes_complete reg (d_Nodes def) ∅ Hn2) as [nodes' En]; [intros n Hn; split; [by apply Hn3|by rewrite lookup_empty]|].
  rewrite En. assert (nodes' = nodes) as ->.
  { destruct (check_nodes_sound _ _ _ _ En) as (_ & _ & Hi'). apply map_eq. intros id. apply option_eq. intros spec.
    rewrite (Hi' id spec), (Hi id spec), lookup_empty. naive_solver. }
  unfold validateInputMappings. rewrite (proj2 (first_error_None _ _) Hm).
  assert ((length (d_Triggers def) =? 0)%nat = false) as -> by (by destruct (d_Triggers def)).
  rewrite (proj2 (check_triggers_spec nodes (d_Triggers def) ∅ (list_to_set (map t_Name (d_Triggers def)) ∪ ∅))) by
    (split_and!; [done|intros tr Htr; split; [by apply Ht3|set_solver]|done]).
  rewrite (proj2 (first_error_None _ _)).
  2: { intros id Hid. destruct (instanceIsTrigger nodes id) eqn:Ei; [|done]. cbn [andb]. rewrite bool_decide_eq_true_2; [done|].
       apply elem_of_union_l, elem_of_list_to_set. by apply Htd. }
  rewrite (proj2 (check_edges_spec def nodes (d_Edges def) ∅ ∅)) by (split_and!; [done|done|]; intros e He; split_and!; [by apply He3|set_solver|set_solver]).
  pose proof (edges_in_nodes reg def nodes Hi Hn3 He3) as Hends. by apply (graph_checks_spec def nodes Hends).
Qed.
Lemma validate_returns def reg : exists r, ValidateDefinition def reg = inr r.
Proof.
  unfold ValidateDefinition. destruct def as [def|]; [|by eexists]. destruct reg as [reg|]; [|by eexists].
  destruct (negb _); [by eexists|]. destruct (String.eqb _ ""); [by eexists|]. destruct (String.eqb _ ""); [by eexists|].
  destruct (validateSettings def); [by eexists|]. destruct (_ =? 0)%nat; [by eexists|].
  destruct (check_nodes reg (d_Nodes def) ∅) as [|nodes] eqn:En; [by eexists|]. destruct (validateInputMappings def nodes); [by eexists|].
  destruct (_ =? 0)%nat; [by eexists|]. destruct (check_triggers nodes (d_Triggers def) ∅); [by eexists|].
  destruct (first_error _ _); [by eexists|]. destruct (check_edges def nodes (d_Edges def) ∅ ∅) eqn:Ee; [by eexists|].
  destruct (check_nodes_sound _ _ _ _ En) as (_ & Hok & Hinst). apply check_edges_spec in Ee as (_ & _ & Heok).
  apply graph_checks_spec. apply (edges_in_nodes reg def nodes).
  - intros id spec. rewrite Hinst, lookup_empty. split; [by intros [|]|by right].
  - intros n Hn. by apply Hok.
  - intros e He. by apply Heok.
Qed.

(** (C37) Validation is total and exact: it always returns, and it accepts a
    definition if and only if the definition is well formed: settings in range,
    distinct named instances of known nodes with valid configurations and
    input mappings, triggers and trigger nodes in bijection, distinct edges
    between existing nodes with known branch labels, every node either an
    entry point or fed by an edge and reachable from an entry point, and no
    cycle. *)
Theorem validation_exact reg def : exists r, ValidateDefinition (Some def) (Some reg) = inr r /\ (r = None <-> wf_definition reg def).
Proof.
  destruct (validate_returns (Some def) (Some reg)) as [r Hr]. exists r. split; [done|]. split.
  - intros ->. by apply wf_sound.
  - intros H%wf_complete. congruence.
Qed.

(** (C20) An accepted definition can be run: the schedule exists, lists every node
    instance exactly once, and places each node after all nodes with an edge
    into it. *)
Theorem accepted_definition_schedules reg def : ValidateDefinition (Some def) (Some reg) = inr None ->
  exists out, TopologicalOrder def = Some out /\ out ≡ₚ map n_ID (d_Nodes def) /\ ordered (d_Edges def) out.
Proof.
  intros [_ _ (_ & Hn & Hok) (nodes & Hi & _ & _ & _ & _ & _ & _ & _ & He & (_ & _ & Hac))]%wf_sound.
  apply schedule_spec; [done|by eapply edges_in_nodes|done].
Qed.
Lemma accepted_definition_schedules_witness : exists out, TopologicalOrder (sample_def good_edges) = Some out /\
  out ≡ₚ map n_ID (d_Nodes (sample_def good_edges)) /\ ordered (d_Edges (sample_def good_edges)) out.
Proof. apply (accepted_definition_schedules sample_registry). vm_compute. reflexivity. Defined.

(** (C38) Neither recursion of the validation nor the scheduling loop can run for
    ever: for every definition, valid or not, validation yields a verdict and
    scheduling a list. *)
Theorem workflow_checks_terminate def reg : (exists r, ValidateDefinition def reg = inr r) /\
  forall d, exists out, TopologicalOrder d = Some out.
Proof. split; [apply validate_returns|apply topological_order_total]. Qed.

(** ** Input mappings *)

Section value_ind.
Context (P : Value -> Prop) (Hnil : P VNil) (Hbool : forall b, P (VBool b)) (Hnum : forall x, P (VNumber x)) (Hstr : forall s, P (VString s))
  (Harr : forall l, Forall P l -> P (VArray l)) (Hobj : forall m, Forall (fun kv => P (snd kv)) m -> P (VObject m))
  (Hstrs : forall l, P (VStrings l)) (Hstrm : forall m, P (VStringMap m)) (Htyped : forall v, P (VTyped v)).
Fixpoint Value_nested_ind (v : Value) : P v :=
  match v with
  | VNil => Hnil
  | VBool b => Hbool b
  | VNumber x => Hnum x
  | VString s => Hstr s
  | VArray l => Harr l ((fix go l : Forall P l := match l with [] => Forall_nil_2 _ | x :: l => Forall_cons_2 _ _ _ (Value_nested_ind x) (go l) end) l)
  | VObject m => Hobj m ((fix go m : Forall (fun kv => P (snd kv)) m :=
                            match m with [] => Forall_nil_2 _ | (k, x) :: m => Forall_cons_2 _ (k, x) _ (Value_nested_ind x) (go m) end) m)
  | VStrings l => Hstrs l
  | VStringMap m => Hstrm m
  | VTyped v => Htyped v
  end.
End value_ind.

Definition resolves (ctx : list (string * Value)) (ref : string) : Prop := is_Some (resolveMappingPath ctx ref).
Lemma resolve_iff ctx v : is_Some (resolveMappingValue ctx v) <-> Forall (resolves ctx) (collectMappingRefs v).
Proof.
  assert (forall (A : Type) (x : A), is_Some (Some x) <-> True) as Hsome by (intros; split; [done|by eexists]).
  induction v as [|b|x|s|l IH|m IH|l|m|v] using Value_nested_ind; cbn [resolveMappingValue collectMappingRefs]; try (cbn; rewrite Hsome; split; [constructor|done]).
  - destruct (ref_of (VString s)); [by rewrite Forall_singleton|]. rewrite Hsome. split; [constructor|done].
  - cbn [ref_of]. rewrite fmap_is_Some. induction IH as [|v l Hv _ IHl]; [rewrite Hsome; split; [constructor|done]|].
    rewrite Forall_app, <- Hv, <- IHl. destruct (resolveMappingValue ctx v); [|split; [by intros []|by intros [[] _]]].
    match goal with |- context [match ?g with Some l => Some (_ :: l) | None => None end] => destruct g end; rewrite ?Hsome; [tauto|].
    split; [by intros []|by intros [_ []]].
  - destruct (ref_of (VObject m)); [by rewrite Forall_singleton|].
    rewrite fmap_is_Some. induction IH as [|[k v] m Hv _ IHm]; [rewrite Hsome; split; [constructor|done]|].
    cbn [snd] in Hv. rewrite Forall_app, <- Hv, <- IHm. destruct (resolveMappingValue ctx v); [|split; [by intros []|by intros [[] _]]].
    match goal with |- context [match ?g with Some m => Some ((_, _) :: m) | None => None end] => destruct g end; rewrite ?Hsome; [tauto|].
    split; [by intros []|by intros [_ []]].
Qed.
Lemma resolve_keys ctx m m' : ref_of (VObject m) = None -> resolveMappingValue ctx (VObject m) = Some (VObject m') -> map fst m' = map fst m.
Proof.
  cbn [resolveMappingValue]. intros ->. intros (m1 & Hm & [= ->])%fmap_Some. revert m1 Hm.
  induction m as [|[k v] m IH]; intros m1; [by intros [= <-]|].
  destruct (resolveMappingValue ctx v); [|done].
  match goal with |- context [match ?g with Some m => Some ((_, _) :: m) | None => None end] => destruct g as [m2|] eqn:E end; [|done].
  intros [= <-]. cbn. f_equal. by apply IH.
Qed.

(** The run context a mapping refers to: node outputs, then the run input. *)
Definition mapping_ctx (runInput : list (string * Value)) (outputs : list (string * list (string * Value))) : list (string * Value) :=
  map (fun kv => (fst kv, VObject (snd kv))) outputs ++ [("input", VObject runInput)].

(** What mapping means.  A path leads from a value to a part of it: a name into
    an object, a number into an array. *)
Inductive leads : Value -> list string -> Value -> Prop :=
| leads_here v : leads v [] v
| leads_field m k x path v : assoc k m = Some x -> leads x path v -> leads (VObject m) (k :: path) v
| leads_item l k i x path v : scan_int k = Some (Z.of_nat i) -> l !! i = Some x -> leads x path v -> leads (VArray l) (k :: path) v.
Definition refers (ctx : list (string * Value)) (ref : string) (v : Value) : Prop := ref <> "" /\ leads (VObject ctx) (split_dots ref "") v.
(** [maps ctx v w]: the mapping value [v] becomes [w].  A reference becomes what it
    refers to, containers are mapped part by part, anything else is kept. *)
Inductive maps (ctx : list (string * Value)) : Value -> Value -> Prop :=
| maps_ref_object ref w : refers ctx ref w -> maps ctx (VObject [("$ref", VString ref)]) w
| maps_ref_string ref w : refers ctx ref w -> maps ctx (VString ("$." +:+ ref)) w
| maps_object m m' : (forall ref, m <> [("$ref", VString ref)]) -> Forall2 (fun kv kw => fst kv = fst kw /\ maps ctx (snd kv) (snd kw)) m m' -> maps ctx (VObject m) (VObject m')
| maps_array l l' : Forall2 (maps ctx) l l' -> maps ctx (VArray l) (VArray l')
| maps_string s : (forall ref, s <> "$." +:+ ref) -> maps ctx (VString s) (VString s)
| maps_nil : maps ctx VNil VNil
| maps_bool b : maps ctx (VBool b) (VBool b)
| maps_number x : maps ctx (VNumber x) (VNumber x)
| maps_strings l : maps ctx (VStrings l) (VStrings l)
| maps_string_map m : maps ctx (VStringMap m) (VStringMap m)
| maps_typed v : maps ctx (VTyped v) (VTyped v).

Lemma leads_fold path : forall v w,
  fold_left (fun cur part => match cur with Some v => step_path v part | None => None end) path (Some v) = Some w <-> leads v path w.
Proof.
  assert (forall path, fold_left (fun cur part => match cur with Some v => step_path v part | None => None end) path (None : option Value) = None) as Hn
    by (intros l; induction l; [done|by cbn]).
  induction path as [|k path IH]; intros v w; cbn [fold_left].
  { split; [intros [= ->]; constructor|by inversion 1]. }
  split.
  - destruct (step_path v k) as [x|] eqn:E; [|by rewrite Hn]. intros H%IH. destruct v; try done; cbn in E.
    + destruct (scan_int k) as [i|] eqn:Ei; [|done]. destruct (Z.ltb_spec i 0); [done|]. destruct (Z.leb_spec (Z.of_nat (length l)) i); [done|].
      cbn in E. apply (leads_item _ _ (Z.to_nat i) x); [|done|done]. by rewrite Z2Nat.id by lia.
    + by apply (leads_field _ _ x).
  - inversion 1 as [|m k' x p v' Hx Hl|l k' i x p v' Hi Hx Hl]; subst; cbn [step_path].
    + rewrite Hx. by apply IH.
    + rewrite Hi. pose proof (lookup_lt_Some _ _ _ Hx). destruct (Z.ltb_spec (Z.of_nat i) 0); [lia|].
      destruct (Z.leb_spec (Z.of_nat (length l)) (Z.of_nat i)); [lia|]. cbn. rewrite Nat2Z.id, Hx. by apply IH.
Qed.
Lemma refers_iff ctx ref v : resolveMappingPath ctx ref = Some v <-> refers ctx ref v.
Proof. unfold resolveMappingPath, refers. rewrite <- leads_fold. destruct (String.eqb_spec ref ""); naive_solver. Qed.

(** [ref_of] recognises the two ways to write a reference. *)
Lemma ref_of_object m ref : ref_of (VObject m) = Some ref <-> m = [("$ref", VString ref)].
Proof.
  split; [|by intros ->]. destruct m as [|[k []] []]; try done. cbn. destruct (String.eqb_spec k "$ref"); [|done]. by intros [= <-]; subst.
Qed.
Lemma prefix_string s ref : HasPrefix s "$." = true /\ TrimPrefix s "$." = ref <-> s = "$." +:+ ref.
Proof.
  unfold TrimPrefix, HasPrefix. split.
  - intros [H <-]. rewrite H. destruct s as [|a [|b s]]; cbn [String.prefix] in H; [done|by destruct (Ascii.ascii_dec _ a)|].
    destruct (Ascii.ascii_dec _ a) as [<-|]; [|done]. by destruct (Ascii.ascii_dec _ b) as [<-|].
  - intros ->. cbn. by destruct ref.
Qed.
Lemma ref_of_string s ref : ref_of (VString s) = Some ref <-> s = "$." +:+ ref.
Proof. cbn [ref_of]. rewrite <- prefix_string. destruct (HasPrefix s "$."); naive_solver. Qed.

Lemma maps_string_inv ctx s w : maps ctx (VString s) w ->
  (exists ref, s = "$." +:+ ref /\ refers ctx ref w) \/ (forall ref, s <> "$." +:+ ref) /\ w = VString s.
Proof. inversion 1; subst; eauto. Qed.
Lemma resolve_maps ctx v : forall w, resolveMappingValue ctx v = Some w <-> maps ctx v w.
Proof.
  induction v as [|b|x|s|l IH|m IH|l|m|v] using Value_nested_ind; intros w; cbn [resolveMappingValue].
  1-3, 7-9: split; [intros [= <-]; constructor|by inversion 1].
  - destruct (ref_of (VString s)) as [ref|] eqn:E.
    + apply ref_of_string in E. rewrite refers_iff. split; [intros H; rewrite E; by constructor|].
      intros [(ref' & E' & Hr)|[Hs _]]%maps_string_inv; [|by destruct (Hs ref)].
      apply ref_of_string in E, E'. congruence.
    + split; [intros [= <-]; constructor; intros ref Hs; apply ref_of_string in Hs; congruence|].
      intros [(ref' & E' & Hr)|[_ ->]]%maps_string_inv; [|done]. apply ref_of_string in E'. congruence.
  - cbn [ref_of]. split.
    + intros (l1 & Hl & ->)%fmap_Some. constructor. revert l1 Hl. induction IH as [|v l Hv _ IHl]; intros l1; [intros [= <-]; constructor|].
      destruct (resolveMappingValue ctx v) as [y|] eqn:Ey; [|done].
      match goal with |- context [match ?g with Some l => Some (_ :: l) | None => None end] => destruct g as [l2|] eqn:E2 end; [|done].
      intros [= <-]. constructor; [by apply Hv|by apply IHl].
    + inversion 1 as [| | |l0 l' Hl| | | | | | |]; subst. apply fmap_Some. exists l'. split; [|done]. clear H.
      revert l' Hl. induction IH as [|v l Hv _ IHl]; intros l' Hl; inversion Hl as [|? y ? l2 Hy Hr]; subst; [done|].
      rewrite (proj2 (Hv y) Hy). by rewrite (IHl _ Hr).
  - destruct (ref_of (VObject m)) as [ref|] eqn:E.
    + apply ref_of_object in E as ->. rewrite refers_iff. split; [by constructor|].
      inversion 1 as [ref' w' Hr| |m0 m' Hm| | | | | | | |]; subst; [done|by destruct (Hm ref)].
    + assert (forall ref, m <> [("$ref", VString ref)]) as Hne by (intros ref Hm; apply ref_of_object in Hm; congruence). split.
      * intros (m1 & Hm & ->)%fmap_Some. constructor; [done|]. clear E Hne. revert m1 Hm.
        induction IH as [|[k v] m Hv _ IHm]; intros m1; [intros [= <-]; constructor|].
        destruct (resolveMappingValue ctx v) as [y|] eqn:Ey; [|done].
        match goal with |- context [match ?g with Some m => Some ((_, _) :: m) | None => None end] => destruct g as [m2|] eqn:E2 end; [|done].
        intros [= <-]. constructor; [split; [done|by apply Hv]|by apply IHm].
      * inversion 1 as [ref' w' Hr| |m0 m' _ Hm| | | | | | | |]; subst; [by destruct (Hne ref')|]. apply fmap_Some. exists m'. split; [|done]. clear H E Hne.
        revert m' Hm. induction IH as [|[k v] m Hv _ IHm]; intros m' Hm; inversion Hm as [|? [k' y] ? m2 [Hk Hy] Hr]; subst; [done|].
        cbn [fst snd] in Hk, Hy, Hv. subst k'. rewrite (proj2 (Hv y) Hy). by rewrite (IHm _ Hr).
Qed.

(** (C39) Mapped inputs fail closed.  A node with a mapping gets the input [m]
    exactly when the mapping as a whole becomes the object [m] in the run context
    (the outputs and the run input): every reference leads somewhere, and a
    mapping that is itself one reference leads to an object.  In particular an
    input is refused exactly when some reference that validation collects does
    not resolve or the whole mapping is a reference to something that is not an
    object, and a mapping that is not a reference gives exactly its own keys. *)
Theorem mapped_input_exact runInput node outputs input : n_Input node = Some input ->
  let ctx := mapping_ctx runInput outputs in
  (forall m, mappedNodeInput runInput node outputs = Some m <-> maps ctx (VObject input) (VObject m))
  /\ (mappedNodeInput runInput node outputs = None <->
       (exists ref, In ref (collectMappingRefs (VObject input)) /\ forall v, ~ refers ctx ref v)
       \/ exists ref v, input = [("$ref", VString ref)] /\ refers ctx ref v /\ forall m, v <> VObject m)
  /\ ((forall ref, input <> [("$ref", VString ref)]) -> forall m, mappedNodeInput runInput node outputs = Some m -> map fst m = map fst input).
Proof.
  intros Hin ctx. unfold mappedNodeInput. rewrite Hin. cbn [default from_option id]. fold (mapping_ctx runInput outputs). fold ctx. cbv zeta.
  pose proof (resolve_maps ctx (VObject input)) as Hm. pose proof (resolve_iff ctx (VObject input)) as Hr.
  split_and!.
  - intros m. rewrite <- Hm. destruct (resolveMappingValue ctx (VObject input)) as [[]|]; naive_solver.
  - destruct (resolveMappingValue ctx (VObject input)) as [v|].
    + assert (Forall (resolves ctx) (collectMappingRefs (VObject input))) as Hall by (apply Hr; by eexists).
      assert (forall ref, In ref (collectMappingRefs (VObject input)) -> ~ forall v, ~ refers ctx ref v) as Hno.
      { intros ref Href Hno. rewrite List.Forall_forall in Hall. destruct (Hall _ Href) as [x Hx]. by apply (Hno x), refers_iff. }
      pose proof (proj1 (Hm v) eq_refl) as Hv. inversion Hv as [ref w Hw| |m0 m' Hne Hf| | | | | | | |]; subst.
      * split; [|intros [(r & H1 & H2)|(r & w & [= <-] & H2 & H3)]; [by destruct (Hno r)|]].
        { destruct v; try done; intros _; right; eexists _, _; (split_and!; [done|exact Hw|done]). }
        assert (v = w) as -> by (apply refers_iff in H2, Hw; congruence). destruct w; try done. by destruct (H3 m).
      * split; [done|]. intros [(r & H1 & H2)|(r & w & -> & _)]; [by destruct (Hno r)|by destruct (Hne r)].
    + split; [|done]. intros _. left.
      assert (~ Forall (resolves ctx) (collectMappingRefs (VObject input))) as Hall by (rewrite <- Hr; by intros []).
      apply not_Forall_Exists in Hall; [|intros ref; unfold resolves; apply _].
      apply List.Exists_exists in Hall as (ref & Hin' & Href). exists ref. split; [done|]. intros v Hv. apply Href. exists v. by apply refers_iff.
  - intros Hne m Hsome. apply (resolve_keys ctx).
    + destruct (ref_of (VObject input)) as [ref|] eqn:E; [|done]. apply ref_of_object in E. by destruct (Hne ref).
    + destruct (resolveMappingValue ctx (VObject input)) as [[]|]; naive_solver.
Qed.
Definition mapped_node : DefinitionNode := mkNode "a" "nexaroute.transform" "v1" [] (Some [("text", VString "$.t.items.1"); ("n", VNil)]).
Definition t_outputs : list (string * list (string * Value)) := [("t", [("items", VArray [VNil; VString "x"])])].
Lemma mapped_input_exact_witness :
  mappedNodeInput [] mapped_node t_outputs = Some [("text", VString "x"); ("n", VNil)] /\
  forall m, mappedNodeInput [] mapped_node t_outputs = Some m -> map fst m = ["text"; "n"].
Proof. split; [vm_compute; reflexivity|]. apply (mapped_input_exact [] mapped_node t_outputs [("text", VString "$.t.items.1"); ("n", VNil)]); [reflexivity|discriminate]. Defined.

(** ** State machines *)

Definition run_step (s s' : RunState) : Prop := validRunTransition s s' = true.
Definition node_step (s s' : NodeState) : Prop := validNodeTransition s s' = true.
Lemma rtc_invariant {A} (R : relation A) (Q : A -> Prop) x y : (forall a b, R a b -> Q a -> Q b) -> rtc R x y -> Q x -> Q y.
Proof. intros Hs. induction 1; eauto. Qed.

(** The lifecycles: whatever sequence of transitions the tables admit, a
    terminal run or node attempt stays as it is; a run never becomes created
    again nor reaches the reserved timer state; a run that needs manual action
    can only be failed or cancelled; a node attempt succeeds only out of
    running, runs only after it was claimed, and is skipped only while
    pending. *)
Theorem lifecycles_safe :
  (forall s s', run_Terminal s = true -> rtc run_step s s' -> s' = s) /\
  (forall s s', node_Terminal s = true -> rtc node_step s s' -> s' = s) /\
  (forall s s', s <> RunCreated -> rtc run_step s s' -> s' <> RunCreated) /\
  (forall s, rtc run_step RunCreated s -> s <> RunWaitingTimer) /\
  (forall s, rtc run_step RunNeedsManualAction s -> s ∈ [RunNeedsManualAction; RunFailed; RunCancelled]) /\
  (forall s s', node_step s s' -> s <> s' ->
     (s' = NodeSucceeded -> s = NodeRunning) /\ (s' = NodeRunning -> s = NodeClaimed) /\ (s' = NodeSkipped -> s = NodePending)).
Proof.
  split_and!.
  - intros s s' Ht Hr. apply (rtc_invariant run_step (fun x => x = s) s s'); [|done|done].
    intros a b Hab ->. unfold run_step, validRunTransition in Hab. rewrite Ht in Hab. by case_bool_decide.
  - intros s s' Ht Hr. apply (rtc_invariant node_step (fun x => x = s) s s'); [|done|done].
    intros a b Hab ->. unfold node_step, validNodeTransition in Hab. rewrite Ht in Hab. by case_bool_decide.
  - intros s s' Hs Hr. apply (rtc_invariant run_step (fun x => x <> RunCreated) s s'); [|done|done]. by intros [] [].
  - intros s Hr. apply (rtc_invariant run_step (fun x => x <> RunWaitingTimer) RunCreated s); [|done|done]. by intros [] [].
  - intros s Hr. apply (rtc_invariant run_step (fun x => x ∈ [RunNeedsManualAction; RunFailed; RunCancelled]) RunNeedsManualAction s); [|done|by left].
    intros a b Hab. rewrite !elem_of_cons. destruct a, b; try discriminate Hab; intros H;
      first [by left|by right; left|by right; right; left|exfalso; repeat (destruct H as [H|H]; [discriminate H|]); by apply not_elem_of_nil in H].
  - intros s s' Hs Hne. destruct s, s'; try discriminate Hs; by split_and!.
Qed.
