(* ===== verification/FlowStore.v ===== *)
(** * The workflow run store ([src/internal/nexaflow]: [store.go], [state.go], [memory_store.go])

    The whole durable dataset of one store with its conditional transitions:
    drafts and revisions, runs with their idempotency keys and admission cap,
    append-only node attempts with leases, and approvals.  A method of the
    store runs under its mutex, so an operation is one step; deep copies are
    the identity on values.  The content hash of a definition (over its JSON) is
    a parameter, the clock an argument.  A state left empty by the caller
    ([""] in the source) is [None]. *)

From Stdlib Require Import Ascii.
From S2P Require Import Prelude Text Workflow.

Abbreviation Payload := (list (string * Value)) (only parsing).

Record Run := mkRun {
  r_ID : string; r_DefinitionID : string; r_Revision : Z; r_Definition : Definition_; r_State : RunState; r_IdempotencyKey : string;
  r_Principal : string; r_PrincipalRoles : list string; r_Input : Payload; r_ErrorCode : string; r_Error : string;
  r_CreatedAt : Time; r_UpdatedAt : Time; r_StartedAt : Time; r_FinishedAt : Time; r_LeaseOwner : string; r_LeaseUntil : Time }.
#[global] Instance eta_Run : Eta Run := fun r =>
  mkRun (r_ID r) (r_DefinitionID r) (r_Revision r) (r_Definition r) (r_State r) (r_IdempotencyKey r) (r_Principal r) (r_PrincipalRoles r)
    (r_Input r) (r_ErrorCode r) (r_Error r) (r_CreatedAt r) (r_UpdatedAt r) (r_StartedAt r) (r_FinishedAt r) (r_LeaseOwner r) (r_LeaseUntil r).
Record NodeExecution := mkExec {
  x_RunID : string; x_NodeID : string; x_Attempt : Z; x_State : NodeState; x_Input : Payload; x_Output : Payload; x_OutputTruncated : bool;
  x_ResumeInput : Payload; x_ErrorCode : string; x_Error : string; x_Dispatched : bool; x_Ambiguous : bool; x_Deadline : Time;
  x_IdempotencyKey : string; x_AppendOperationID : string; x_LeaseOwner : string; x_LeaseUntil : Time;
  x_CreatedAt : Time; x_UpdatedAt : Time; x_StartedAt : Time; x_FinishedAt : Time }.
#[global] Instance eta_NodeExecution : Eta NodeExecution := fun x =>
  mkExec (x_RunID x) (x_NodeID x) (x_Attempt x) (x_State x) (x_Input x) (x_Output x) (x_OutputTruncated x) (x_ResumeInput x) (x_ErrorCode x) (x_Error x)
    (x_Dispatched x) (x_Ambiguous x) (x_Deadline x) (x_IdempotencyKey x) (x_AppendOperationID x) (x_LeaseOwner x) (x_LeaseUntil x)
    (x_CreatedAt x) (x_UpdatedAt x) (x_StartedAt x) (x_FinishedAt x).
Record Approval := mkApproval { a_RunID : string; a_NodeID : string; a_Requester : string; a_Approver : string; a_Decision : string; a_DecidedAt : Time }.
Record DefinitionVersion := mkVersion { v_DefinitionID : string; v_Revision : Z; v_ContentHash : string; v_Status : string }.
Record PublishedDefinition := mkPublished { p_Version : DefinitionVersion; p_Definition : Definition_; p_PublishedBy : string; p_PublishedAt : Time }.
Record RunFilter := mkFilter { rf_DefinitionID : string; rf_State : option RunState; rf_Limit : Z }.

Inductive StoreError :=
| ErrNotFound | ErrAlreadyExists | ErrIdempotencyConflict | ErrApprovalConflict | ErrNoApprovalRecord | ErrRunLimit
| ErrStateConflict | ErrTerminalState | ErrIDRequired | ErrBadDecision | ErrSelfApproval | ErrContentHash.

Record storeState := mkStore {
  drafts : gmap string Definition_; revisions : gmap string (list PublishedDefinition); runs : gmap string Run;
  runByIdem : gmap string string; nodes : gmap string (list NodeExecution); approvals : gmap string Approval }.
#[global] Instance eta_storeState : Eta storeState := fun s => mkStore (drafts s) (revisions s) (runs s) (runByIdem s) (nodes s) (approvals s).
Definition newStoreState : storeState := mkStore ∅ ∅ ∅ ∅ ∅ ∅.
(** A change of state with its result: on an error nothing changed. *)
Definition Outcome (R : Type) : Type := storeState * (R + StoreError).

Definition nul : string := String zero EmptyString.
Definition approvalKey (runID nodeID : string) : string := runID +:+ nul +:+ nodeID.
Definition NodeIDKey (runID nodeID : string) (attempt : Z) : string := runID +:+ ":" +:+ nodeID +:+ ":" +:+ Itoa attempt.

(** ** Drafts and revisions *)

Definition saveDraft (s : storeState) (def : Definition_) : Outcome unit :=
  if String.eqb (d_ID def) "" then (s, inr ErrIDRequired) else (s <| drafts := <[d_ID def := def]> (drafts s) |>, inl tt).
Definition getDraft (s : storeState) (id : string) : Definition_ + StoreError :=
  match drafts s !! id with Some d => inl d | None => inr ErrNotFound end.
Definition listDrafts (s : storeState) : list Definition_ := omap (fun id => drafts s !! id) (sort_Strings (map_to_list (drafts s)).*1).
Definition revs (s : storeState) (id : string) : list PublishedDefinition := default [] (revisions s !! id).
Definition set_status (status : string) (r : PublishedDefinition) : PublishedDefinition :=
  mkPublished (mkVersion (v_DefinitionID (p_Version r)) (v_Revision (p_Version r)) (v_ContentHash (p_Version r)) status)
    (p_Definition r) (p_PublishedBy r) (p_PublishedAt r).
Definition is_published (r : PublishedDefinition) : bool := String.eqb (v_Status (p_Version r)) DefinitionPublished.
Definition publishIfUnchanged (ContentHash : Definition_ -> option string) (s : storeState) (id publishedBy expectedHash : string) (now : Time) : Outcome PublishedDefinition :=
  match drafts s !! id with
  | None => (s, inr ErrNotFound)
  | Some draft =>
      match ContentHash draft with
      | None => (s, inr ErrContentHash)
      | Some hash =>
          if negb (String.eqb expectedHash "") && negb (String.eqb hash expectedHash) then (s, inr ErrStateConflict)
          else
            let existing := revs s id in
            let fresh :=
              let rev := mkPublished (mkVersion id (Z.of_nat (length existing) + 1) hash DefinitionPublished) draft publishedBy now in
              (s <| revisions := <[id := map (fun r => if is_published r then set_status DefinitionSuperseded r else r) existing ++ [rev]]> (revisions s) |>,
               inl rev) in
            match last existing with
            | Some latest => if is_published latest && String.eqb (v_ContentHash (p_Version latest)) hash then (s, inl latest) else fresh
            | None => fresh
            end
      end
  end.
Definition publish (ContentHash : Definition_ -> option string) (s : storeState) (id publishedBy : string) (now : Time) : Outcome PublishedDefinition :=
  publishIfUnchanged ContentHash s id publishedBy "" now.
Definition supersedeRevision (s : storeState) (id : string) (revision : Z) : Outcome PublishedDefinition :=
  match find_index (fun r => v_Revision (p_Version r) =? revision) (revs s id) with
  | None => (s, inr ErrNotFound)
  | Some i =>
      match revs s id !! i with
      | None => (s, inr ErrNotFound)
      | Some r =>
          if negb (is_published r) then (s, inr ErrStateConflict)
          else (s <| revisions := <[id := <[i := set_status DefinitionSuperseded r]> (revs s id)]> (revisions s) |>, inl (set_status DefinitionSuperseded r))
      end
  end.
Definition getRevision (s : storeState) (id : string) (revision : Z) : PublishedDefinition + StoreError :=
  match List.find (fun r => v_Revision (p_Version r) =? revision) (revs s id) with Some r => inl r | None => inr ErrNotFound end.
Definition listRevisions (s : storeState) (id : string) : list PublishedDefinition := revs s id.

(** ** Runs *)

(** The runs of a definition that hold a slot. *)
Definition active (s : storeState) (definitionID : string) : gmap string Run :=
  filter (fun kv => r_DefinitionID kv.2 = definitionID /\ run_Terminal (r_State kv.2) = false) (runs s).
Definition createRun (s : storeState) (run : Run) (given : option RunState) (now : Time) : Outcome unit :=
  if String.eqb (r_ID run) "" then (s, inr ErrIDRequired)
  else if bool_decide (is_Some (runs s !! r_ID run)) then (s, inr ErrAlreadyExists)
  else if negb (String.eqb (r_IdempotencyKey run) "") && bool_decide (is_Some (runByIdem s !! r_IdempotencyKey run)) then (s, inr ErrIdempotencyConflict)
  else
    let limit := s_MaxConcurrentRuns (d_Settings (r_Definition run)) in
    if (0 <? limit) && (limit <=? Z.of_nat (size (active s (r_DefinitionID run)))) then (s, inr ErrRunLimit)
    else
      let run := run <| r_State := default RunCreated given |> <| r_CreatedAt := now |> <| r_UpdatedAt := now |> in
      let s := s <| runs := <[r_ID run := run]> (runs s) |> in
      (if String.eqb (r_IdempotencyKey run) "" then s else s <| runByIdem := <[r_IdempotencyKey run := r_ID run]> (runByIdem s) |>, inl tt).
Definition getRun (s : storeState) (id : string) : Run + StoreError := match runs s !! id with Some r => inl r | None => inr ErrNotFound end.
Definition getRunByIdempotency (s : storeState) (key : string) : Run + StoreError :=
  match runByIdem s !! key with Some id => getRun s id | None => inr ErrNotFound end.
Definition move_run (r : Run) (state : RunState) (errorCode errMsg : string) (now : Time) : Run :=
  let r := if negb (bool_decide (r_State r = RunRunning)) && bool_decide (state = RunRunning) && IsZero (r_StartedAt r) then r <| r_StartedAt := now |> else r in
  let r := if run_Terminal state && IsZero (r_FinishedAt r) then r <| r_FinishedAt := now |> else r in
  r <| r_State := state |> <| r_ErrorCode := errorCode |> <| r_Error := errMsg |> <| r_UpdatedAt := now |>.
Definition updateRunState (s : storeState) (runID : string) (expected : option RunState) (state : RunState) (errorCode errMsg : string) (now : Time) : Outcome Run :=
  match runs s !! runID with
  | None => (s, inr ErrNotFound)
  | Some r =>
      if bool_decide (is_Some expected) && negb (bool_decide (expected = Some (r_State r))) then (s, inr ErrStateConflict)
      else if run_Terminal (r_State r) && negb (bool_decide (r_State r = state)) then (s, inr ErrTerminalState)
      else if negb (validRunTransition (r_State r) state) then (s, inr ErrStateConflict)
      else let r := move_run r state errorCode errMsg now in (s <| runs := <[runID := r]> (runs s) |>, inl r)
  end.
Definition run_less (a b : Run) : bool := if r_CreatedAt a =? r_CreatedAt b then String.ltb (r_ID a) (r_ID b) else r_CreatedAt a <? r_CreatedAt b.
Definition listRuns (s : storeState) (f : RunFilter) : list Run :=
  let all := (map_to_list (runs s)).*2 in
  let out := List.filter (fun r => (String.eqb (rf_DefinitionID f) "" || String.eqb (r_DefinitionID r) (rf_DefinitionID f))
                                    && match rf_State f with Some st => bool_decide (r_State r = st) | None => true end) all in
  let out := slice_stable run_less out in
  if (0 <? rf_Limit f) && (rf_Limit f <? Z.of_nat (length out)) then take (Z.to_nat (rf_Limit f)) out else out.

(** A run is deleted with its idempotency key, its attempts and its approvals. *)
Definition prunable (before : Time) (r : Run) : bool := run_Terminal (r_State r) && negb (IsZero (r_FinishedAt r)) && Before (r_FinishedAt r) before.
Definition delete_run (s : storeState) (id : string) (r : Run) : storeState :=
  let s := s <| runs := delete id (runs s) |> in
  let s := if String.eqb (r_IdempotencyKey r) "" then s else s <| runByIdem := delete (r_IdempotencyKey r) (runByIdem s) |> in
  let s := s <| nodes := delete id (nodes s) |> in
  s <| approvals := filter (fun kv => HasPrefix kv.1 (id +:+ nul) = false) (approvals s) |>.
Definition prune (s : storeState) (before : Time) : Outcome nat :=
  let gone := List.filter (fun kv => prunable before kv.2) (map_to_list (runs s)) in
  (fold_left (fun s kv => delete_run s kv.1 kv.2) gone s, inl (length gone)).

(** ** Node attempts *)

Definition rows (s : storeState) (runID : string) : list NodeExecution := default [] (nodes s !! runID).
(** The position of the highest attempt of a node, the first of equals. *)
Fixpoint best_row (nodeID : string) (l : list NodeExecution) (i : nat) (cur : option (nat * NodeExecution)) : option (nat * NodeExecution) :=
  match l with
  | [] => cur
  | x :: l =>
      best_row nodeID l (S i)
        (if negb (String.eqb (x_NodeID x) nodeID) then cur
         else match cur with
         | None => Some (i, x)
         | Some (_, c) => if x_Attempt c <? x_Attempt x then Some (i, x) else cur
         end)
  end.
Definition currentAttempt (s : storeState) (runID nodeID : string) : option (nat * NodeExecution) := best_row nodeID (rows s runID) 0 None.
Definition set_row (s : storeState) (runID : string) (i : nat) (x : NodeExecution) : storeState :=
  s <| nodes := <[runID := <[i := x]> (rows s runID)]> (nodes s) |>.
Definition appendNodeExecution (s : storeState) (exec : NodeExecution) (given : option NodeState) (now : Time) : Outcome NodeExecution :=
  match runs s !! x_RunID exec with
  | None => (s, inr ErrNotFound)
  | Some _ =>
      match (if String.eqb (x_AppendOperationID exec) "" then None
             else List.find (fun e => String.eqb (x_NodeID e) (x_NodeID exec) && String.eqb (x_AppendOperationID e) (x_AppendOperationID exec)) (rows s (x_RunID exec))) with
      | Some existing => (s, inl existing)
      | None =>
          let attempt := match currentAttempt s (x_RunID exec) (x_NodeID exec) with Some (_, cur) => int64 (x_Attempt cur + 1) | None => 0 end in
          let exec := exec <| x_Attempt := attempt |> <| x_IdempotencyKey := NodeIDKey (x_RunID exec) (x_NodeID exec) attempt |>
                           <| x_CreatedAt := now |> <| x_UpdatedAt := now |> <| x_State := default NodePending given |> in
          (s <| nodes := <[x_RunID exec := rows s (x_RunID exec) ++ [exec]]> (nodes s) |>, inl exec)
      end
  end.
(** The row that replaces the current one. *)
Definition replace_row (cur exec : NodeExecution) (now : Time) : NodeExecution :=
  let exec := exec <| x_IdempotencyKey := x_IdempotencyKey cur |> <| x_AppendOperationID := x_AppendOperationID cur |> <| x_CreatedAt := x_CreatedAt cur |> in
  let exec := if node_Terminal (x_State exec) then exec <| x_LeaseOwner := "" |> <| x_LeaseUntil := 0 |> else exec in
  let exec := if negb (bool_decide (x_State cur = NodeRunning)) && bool_decide (x_State exec = NodeRunning) && IsZero (x_StartedAt exec)
              then exec <| x_StartedAt := now |> else exec in
  let exec := if node_Terminal (x_State exec) && IsZero (x_FinishedAt exec) then exec <| x_FinishedAt := now |> else exec in
  exec <| x_UpdatedAt := now |>.
Definition saveNodeExecution (s : storeState) (exec : NodeExecution) (expected : option NodeState) (now : Time) : Outcome NodeExecution :=
  match currentAttempt s (x_RunID exec) (x_NodeID exec) with
  | None => (s, inr ErrNotFound)
  | Some (i, cur) =>
      if bool_decide (is_Some expected) && negb (bool_decide (expected = Some (x_State cur))) then (s, inr ErrStateConflict)
      else if node_Terminal (x_State cur) && negb (bool_decide (x_State cur = x_State exec)) then (s, inr ErrTerminalState)
      else if negb (validNodeTransition (x_State cur) (x_State exec)) then (s, inr ErrStateConflict)
      else if negb (x_Attempt exec =? x_Attempt cur) then (s, inr ErrStateConflict)
      else let x := replace_row cur exec now in (set_row s (x_RunID exec) i x, inl x)
  end.
Definition exec_less (a b : NodeExecution) : bool :=
  if String.eqb (x_NodeID a) (x_NodeID b) then x_Attempt a <? x_Attempt b else String.ltb (x_NodeID a) (x_NodeID b).
Definition getNodeExecutions (s : storeState) (runID : string) : list NodeExecution + StoreError :=
  match runs s !! runID with None => inr ErrNotFound | Some _ => inl (slice_stable exec_less (rows s runID)) end.

(** ** Leases *)

(** A live lease of somebody else. *)
Definition held_by_other (x : NodeExecution) (owner : string) (now : Time) : bool :=
  negb (String.eqb (x_LeaseOwner x) "") && negb (String.eqb (x_LeaseOwner x) owner) && negb (IsZero (x_LeaseUntil x)) && After (x_LeaseUntil x) now.
Definition tryClaim (s : storeState) (runID nodeID owner : string) (ttl : Duration) (now : Time) : Outcome (option NodeExecution) :=
  match currentAttempt s runID nodeID with
  | None => (s, inr ErrNotFound)
  | Some (i, cur) =>
      if negb (bool_decide (x_State cur = NodePending)) && negb (bool_decide (x_State cur = NodeClaimed)) then (s, inl None)
      else if held_by_other cur owner now then (s, inl None)
      else
        let x := cur <| x_State := NodeClaimed |> <| x_LeaseOwner := owner |> <| x_LeaseUntil := Add now ttl |> <| x_UpdatedAt := now |> in
        (set_row s runID i x, inl (Some x))
  end.
Definition releaseLease (s : storeState) (runID nodeID owner : string) : Outcome unit :=
  match currentAttempt s runID nodeID with
  | None => (s, inr ErrNotFound)
  | Some (i, cur) =>
      (if String.eqb (x_LeaseOwner cur) owner then set_row s runID i (cur <| x_LeaseOwner := "" |> <| x_LeaseUntil := 0 |>) else s, inl tt)
  end.

(** ** Approvals *)

Definition recordApproval (s : storeState) (appr : Approval) (now : Time) : Outcome Approval :=
  if negb (String.eqb (a_Decision appr) "approved") && negb (String.eqb (a_Decision appr) "rejected") then (s, inr ErrBadDecision)
  else if negb (String.eqb (a_Approver appr) "") && negb (String.eqb (a_Requester appr) "") && String.eqb (a_Approver appr) (a_Requester appr)
       then (s, inr ErrSelfApproval)
  else
    let key := approvalKey (a_RunID appr) (a_NodeID appr) in
    match approvals s !! key with
    | Some prev => if String.eqb (a_Decision prev) (a_Decision appr) && String.eqb (a_Approver prev) (a_Approver appr) then (s, inl prev) else (s, inr ErrApprovalConflict)
    | None =>
        let appr := mkApproval (a_RunID appr) (a_NodeID appr) (a_Requester appr) (a_Approver appr) (a_Decision appr) now in
        (s <| approvals := <[key := appr]> (approvals s) |>, inl appr)
    end.
Definition getApproval (s : storeState) (runID nodeID : string) : Approval + StoreError :=
  match approvals s !! approvalKey runID nodeID with Some a => inl a | None => inr ErrNoApprovalRecord end.

(** ** Steps

    The mutating methods of [MemoryStore], each with the clock it reads. *)
Inductive FlowOp :=
| SaveDraft (def : Definition_)
| Publish (id by_ : string) (now : Time)
| PublishIfUnchanged (id by_ hash : string) (now : Time)
| SupersedeRevision (id : string) (revision : Z)
| CreateRun (run : Run) (given : option RunState) (now : Time)
| UpdateRunState (runID : string) (expected : option RunState) (state : RunState) (code msg : string) (now : Time)
| Prune (before : Time)
| AppendNodeExecution (exec : NodeExecution) (given : option NodeState) (now : Time)
| SaveNodeExecution (exec : NodeExecution) (expected : option NodeState) (now : Time)
| TryClaim (runID nodeID owner : string) (ttl : Duration) (now : Time)
| ReleaseLease (runID nodeID owner : string)
| RecordApproval (appr : Approval) (now : Time).
Definition flow_step (ContentHash : Definition_ -> option string) (s : storeState) (op : FlowOp) : storeState :=
  match op with
  | SaveDraft def => (saveDraft s def).1
  | Publish id by_ now => (publish ContentHash s id by_ now).1
  | PublishIfUnchanged id by_ hash now => if String.eqb hash "" then s else (publishIfUnchanged ContentHash s id by_ hash now).1
  | SupersedeRevision id revision => (supersedeRevision s id revision).1
  | CreateRun run given now => (createRun s run given now).1
  | UpdateRunState runID expected state code msg now => (updateRunState s runID expected state code msg now).1
  | Prune before => (prune s before).1
  | AppendNodeExecution exec given now => (appendNodeExecution s exec given now).1
  | SaveNodeExecution exec expected now => (saveNodeExecution s exec expected now).1
  | TryClaim runID nodeID owner ttl now => (tryClaim s runID nodeID owner ttl now).1
  | ReleaseLease runID nodeID owner => (releaseLease s runID nodeID owner).1
  | RecordApproval appr now => (recordApproval s appr now).1
  end.
Definition flow_run (ContentHash : Definition_ -> option string) (s : storeState) (ops : list FlowOp) : storeState := fold_left (flow_step ContentHash) ops s.
