(* ===== verification/FlowProofs.v ===== *)
(** * Theorems on the workflow run store

    The dataset keeps its invariant along every sequence of operations, leases
    are exclusive, the admission cap holds, and what was decided stays decided. *)

From S2P Require Import Prelude Text Workflow FlowStore.

(** ** The current attempt *)

Definition of_node (nodeID : string) (x : NodeExecution) : bool := String.eqb (x_NodeID x) nodeID.

Lemma best_row_spec nodeID l i cur j x :
  best_row nodeID l i cur = Some (j, x) ->
  (cur = Some (j, x) \/ exists k, j = (i + k)%nat /\ l !! k = Some x /\ x_NodeID x = nodeID).
Proof.
  revert i cur. induction l as [|y l IH]; intros i cur; cbn; [by left|]. intros H. apply IH in H as [H|(k & -> & Hk & Hn)].
  - destruct (String.eqb_spec (x_NodeID y) nodeID) as [E|]; cbn in H; [|by left].
    assert (Some (i, y) = Some (j, x) \/ cur = Some (j, x)) as [[= <- <-]|Hc] by (destruct cur as [[? c]|]; [case_match|]; auto).
    + right. exists 0%nat. split; [lia|done].
    + by left.
  - right. exists (S k). split; [lia|done].
Qed.

Lemma currentAttempt_row s runID nodeID i x :
  currentAttempt s runID nodeID = Some (i, x) -> rows s runID !! i = Some x /\ x_NodeID x = nodeID.
Proof. intros H. apply best_row_spec in H as [H|(k & -> & Hk & Hn)]; [done|]. done. Qed.

Lemma best_row_app nodeID l l' i cur : best_row nodeID (l ++ l') i cur = best_row nodeID l' (i + length l) (best_row nodeID l i cur).
Proof.
  revert i cur. induction l as [|y l IH]; intros i cur; cbn; [by rewrite Nat.add_0_r|]. rewrite IH. f_equal. lia.
Qed.

(** A change of another node's row does not show. *)
Lemma best_row_other nodeID l i cur k x x' :
  l !! k = Some x -> x_NodeID x <> nodeID -> x_NodeID x' = x_NodeID x -> best_row nodeID (<[k := x']> l) i cur = best_row nodeID l i cur.
Proof.
  intros Hk Hn Hx. revert i cur k Hk. induction l as [|y l IH]; intros i cur [|k] Hk; try done; cbn.
  - injection Hk as ->. rewrite Hx. by rewrite (proj2 (String.eqb_neq _ _) Hn).
  - by apply IH.
Qed.

(** ** The invariant *)

(** Attempts of a node are numbered from 0 in the order of their rows. *)
Definition node_rows (nodeID : string) (l : list NodeExecution) : list NodeExecution := List.filter (of_node nodeID) l.
Definition numbered (nodeID : string) (l : list NodeExecution) : Prop :=
  map x_Attempt (node_rows nodeID l) = map Z.of_nat (seq 0 (length (node_rows nodeID l))).

Lemma best_row_numbered nodeID l :
  numbered nodeID l ->
  match best_row nodeID l 0 None with
  | Some (_, x) => x_Attempt x + 1 = Z.of_nat (length (node_rows nodeID l))
  | None => node_rows nodeID l = []
  end.
Proof.
  unfold numbered, node_rows. induction l as [|y l IH] using rev_ind; [done|]. rewrite best_row_app, List.filter_app. cbn [best_row].
  cbn [List.filter]. unfold of_node at 2 4 6 8. destruct (String.eqb (x_NodeID y) nodeID); cbn [negb].
  - rewrite map_app, length_app, seq_app, map_app. cbn [map length seq]. intros H. apply app_inj_tail in H as [Hl Hy]. specialize (IH Hl).
    rewrite Nat.add_0_l in Hy. destruct (best_row nodeID l 0 None) as [[j c]|].
    + rewrite (proj2 (Z.ltb_lt _ _)) by lia. lia.
    + lia.
  - rewrite app_nil_r. exact IH.
Qed.

Record row_ok (runID : string) (x : NodeExecution) : Prop := {
  row_run : x_RunID x = runID;
  row_key : x_IdempotencyKey x = NodeIDKey runID (x_NodeID x) (x_Attempt x) }.
Definition rows_ok (rs : gmap string Run) (ns : gmap string (list NodeExecution)) (k : Z) : Prop :=
  forall id l, ns !! id = Some l ->
    is_Some (rs !! id) /\ Forall (row_ok id) l /\ (forall n, numbered n l) /\ Z.of_nat (length l) <= k.
Definition runs_ok (rs : gmap string Run) : Prop := map_Forall (fun id r => r_ID r = id /\ id <> "") rs.
(** The key table and the keys of the runs are the same relation. *)
Definition idem_ok (rs : gmap string Run) (idem : gmap string string) : Prop :=
  forall k id, idem !! k = Some id <-> k <> "" /\ exists r, rs !! id = Some r /\ r_IdempotencyKey r = k.
Definition revision_list_ok (id : string) (l : list PublishedDefinition) : Prop :=
  map (fun r => v_Revision (p_Version r)) l = map Z.of_nat (seq 1 (length l))
  /\ (length (List.filter is_published l) <= 1)%nat
  /\ Forall (fun r => v_DefinitionID (p_Version r) = id) l.
Definition revisions_ok (rv : gmap string (list PublishedDefinition)) : Prop := map_Forall revision_list_ok rv.
Definition approval_ok (key : string) (a : Approval) : Prop :=
  key = approvalKey (a_RunID a) (a_NodeID a) /\ (a_Decision a = "approved" \/ a_Decision a = "rejected")
  /\ (a_Approver a <> "" -> a_Approver a <> a_Requester a \/ a_Requester a = "").
Definition approvals_ok (ap : gmap string Approval) : Prop := map_Forall approval_ok ap.

(** [k] bounds the number of operations so far. *)
Record store_ok (s : storeState) (k : Z) : Prop := {
  ok_runs : runs_ok (runs s);
  ok_idem : idem_ok (runs s) (runByIdem s);
  ok_rows : rows_ok (runs s) (nodes s) k;
  ok_revisions : revisions_ok (revisions s);
  ok_approvals : approvals_ok (approvals s) }.

(** *** Rows *)

Lemma rows_ok_weaken rs ns k k' : rows_ok rs ns k -> k <= k' -> rows_ok rs ns k'.
Proof. intros H Hk id l Hl. destruct (H id l Hl) as (? & ? & ? & ?). split_and!; try done. lia. Qed.

Lemma rows_ok_runs rs rs' ns k : rows_ok rs ns k -> (forall id, is_Some (rs !! id) -> is_Some (rs' !! id)) -> rows_ok rs' ns k.
Proof. intros H Hr id l Hl. destruct (H id l Hl) as (? & ? & ? & ?). split_and!; auto. Qed.

Lemma rows_get s runID i x : rows s runID !! i = Some x -> nodes s !! runID = Some (rows s runID).
Proof. unfold rows. by destruct (nodes s !! runID). Qed.

Lemma node_rows_update n l i x x' :
  l !! i = Some x -> x_NodeID x' = x_NodeID x -> x_Attempt x' = x_Attempt x ->
  map x_Attempt (node_rows n (<[i := x']> l)) = map x_Attempt (node_rows n l).
Proof.
  intros Hi Hn Ha. revert i Hi. induction l as [|y l IH]; intros [|i] Hi; try done; cbn.
  - injection Hi as ->. unfold of_node. rewrite Hn. destruct (String.eqb _ _); cbn; by rewrite ?Ha.
  - destruct (of_node n y); cbn; [f_equal|]; by apply IH.
Qed.

Lemma numbered_update n l i x x' :
  l !! i = Some x -> x_NodeID x' = x_NodeID x -> x_Attempt x' = x_Attempt x -> numbered n l -> numbered n (<[i := x']> l).
Proof.
  intros Hi Hn Ha H. pose proof (node_rows_update n l i x x' Hi Hn Ha) as E. unfold numbered in *. rewrite E, H.
  apply (f_equal length) in E. rewrite !length_map in E. by rewrite E.
Qed.

(** A row replaced by one of the same identity. *)
Lemma set_row_ok s runID i x x' k :
  rows_ok (runs s) (nodes s) k -> rows s runID !! i = Some x ->
  x_RunID x' = x_RunID x -> x_NodeID x' = x_NodeID x -> x_Attempt x' = x_Attempt x -> x_IdempotencyKey x' = x_IdempotencyKey x ->
  rows_ok (runs s) (nodes (set_row s runID i x')) k.
Proof.
  intros H Hi Hr Hn Ha Hk id l. cbn. rewrite lookup_insert_Some. intros [[<- <-]|[_ Hl]]; [|by apply H].
  destruct (H _ _ (rows_get _ _ _ _ Hi)) as (H1 & H2 & H3 & H4). split_and!; [done| | |by rewrite length_insert].
  - apply Forall_insert; [done|]. rewrite Forall_lookup in H2. destruct (H2 _ _ Hi) as [? ?]. split; congruence.
  - intros n. eapply numbered_update; eauto.
Qed.

Lemma append_ok s exec given now k :
  rows_ok (runs s) (nodes s) k -> 0 <= k < 2 ^ 62 -> rows_ok (runs s) (nodes (appendNodeExecution s exec given now).1) (k + 1).
Proof.
  intros H Hk. unfold appendNodeExecution. destruct (runs s !! x_RunID exec) as [r|] eqn:Er; [|apply (rows_ok_weaken _ _ k); [done|lia]].
  destruct (if String.eqb (x_AppendOperationID exec) "" then None else _); [apply (rows_ok_weaken _ _ k); [done|lia]|].
  set (attempt := match currentAttempt s (x_RunID exec) (x_NodeID exec) with Some (_, cur) => _ | None => 0 end). cbn.
  assert (rows s (x_RunID exec) = [] \/ nodes s !! x_RunID exec = Some (rows s (x_RunID exec))) as Hrows
    by (unfold rows; destruct (nodes s !! x_RunID exec); auto).
  assert (Forall (row_ok (x_RunID exec)) (rows s (x_RunID exec)) /\ (forall n, numbered n (rows s (x_RunID exec)))
    /\ 0 <= Z.of_nat (length (rows s (x_RunID exec))) <= k) as (H1 & H2 & H3).
  { destruct Hrows as [->|E]; [split_and!; [constructor|done|cbn; lia|cbn; lia]|].
    destruct (H _ _ E) as (_ & ? & ? & ?). split_and!; try done; lia. }
  intros id l. rewrite lookup_insert_Some. intros [[<- <-]|[_ Hl]].
  2:{ destruct (H _ _ Hl) as (? & ? & ? & ?). split_and!; try done. lia. }
  assert (attempt = Z.of_nat (length (node_rows (x_NodeID exec) (rows s (x_RunID exec))))) as Hat.
  { pose proof (best_row_numbered _ _ (H2 (x_NodeID exec))) as Hb. unfold attempt, currentAttempt.
    destruct (best_row _ _ 0 None) as [[j c]|]; [|by rewrite Hb].
    assert (length (node_rows (x_NodeID exec) (rows s (x_RunID exec))) <= length (rows s (x_RunID exec)))%nat by apply List.filter_length_le.
    rewrite <- Hb. apply int64_id. unfold in_int64. lia. }
  split_and!; [by eexists| | |rewrite length_app; cbn].
  - apply Forall_app_2; [done|]. constructor; [|constructor]. by split.
  - intros n. specialize (H2 n). unfold numbered, node_rows in *. rewrite List.filter_app. cbn [List.filter]. unfold of_node at 2 4. cbn [x_NodeID].
    destruct (String.eqb_spec (x_NodeID exec) n) as [<-|].
    + rewrite map_app, length_app, seq_app, map_app, H2. cbn. by rewrite Hat.
    + by rewrite app_nil_r.
  - lia.
Qed.

(** *** Revisions *)

Lemma revs_ok s id : revisions_ok (revisions s) -> revision_list_ok id (revs s id).
Proof.
  intros H. unfold revs. destruct (revisions s !! id) as [l|] eqn:E; [by apply H|]. split_and!; [done|cbn; lia|constructor].
Qed.

Lemma supersede_all l :
  let l' := map (fun r => if is_published r then set_status DefinitionSuperseded r else r) l in
  map (fun r => v_Revision (p_Version r)) l' = map (fun r => v_Revision (p_Version r)) l
  /\ List.filter is_published l' = [] /\ forall id, Forall (fun r => v_DefinitionID (p_Version r) = id) l -> Forall (fun r => v_DefinitionID (p_Version r) = id) l'.
Proof.
  cbv zeta. induction l as [|r l (IH1 & IH2 & IH3)]; [done|]. cbn [map List.filter]. destruct (is_published r) eqn:E.
  - cbn. rewrite IH1, IH2. split_and!; [done|done|]. intros id [? ?]%Forall_cons. constructor; [done|]. by apply IH3.
  - cbn. rewrite IH1, E, IH2. split_and!; [done|done|]. intros id [? ?]%Forall_cons. constructor; [done|]. by apply IH3.
Qed.

Lemma publish_ok hash s id by_ expected now :
  revisions_ok (revisions s) -> revisions_ok (revisions (publishIfUnchanged hash s id by_ expected now).1).
Proof.
  intros H. unfold publishIfUnchanged. destruct (drafts s !! id) as [d|]; [|done]. destruct (hash d) as [h|]; [|done].
  destruct (_ && _); [done|].
  assert (revisions_ok (revisions (s <| revisions := <[id := map (fun r => if is_published r then set_status DefinitionSuperseded r else r) (revs s id)
    ++ [mkPublished (mkVersion id (Z.of_nat (length (revs s id)) + 1) h DefinitionPublished) d by_ now]]> (revisions s) |>))) as Hfresh.
  { cbn. apply map_Forall_insert_2; [|done]. destruct (revs_ok s id H) as (H1 & _ & H3). destruct (supersede_all (revs s id)) as (E1 & E2 & E3).
    split_and!.
    - rewrite map_app, E1, H1, length_app, length_map, seq_app, map_app. cbn. do 2 f_equal. lia.
    - rewrite List.filter_app, E2. cbn. lia.
    - apply Forall_app_2; [by apply E3|by repeat constructor]. }
  destruct (last (revs s id)) as [latest|]; [destruct (_ && _); done|done].
Qed.

Lemma set_status_list l i r :
  l !! i = Some r -> let l' := <[i := set_status DefinitionSuperseded r]> l in
  map (fun r => v_Revision (p_Version r)) l' = map (fun r => v_Revision (p_Version r)) l
  /\ (length (List.filter is_published l') <= length (List.filter is_published l))%nat
  /\ forall id, Forall (fun r => v_DefinitionID (p_Version r) = id) l -> Forall (fun r => v_DefinitionID (p_Version r) = id) l'.
Proof.
  cbv zeta. revert i. induction l as [|x l IH]; intros [|i] Hi; try done.
  - injection Hi as ->. cbn. split_and!; [done|case_match; cbn; lia|]. intros id [? ?]%Forall_cons. by constructor.
  - destruct (IH i Hi) as (E1 & E2 & E3). change (<[S i := ?y]> (x :: l)) with (x :: <[i := set_status DefinitionSuperseded r]> l).
    cbn [map List.filter]. rewrite E1. split_and!; [done|case_match; cbn [length]; lia|].
    intros id [? ?]%Forall_cons. constructor; [done|by apply E3].
Qed.

Lemma supersede_ok s id revision : revisions_ok (revisions s) -> revisions_ok (revisions (supersedeRevision s id revision).1).
Proof.
  intros H. unfold supersedeRevision. destruct (find_index _ _) as [i|]; [|done]. destruct (revs s id !! i) as [r|] eqn:Er; [|done].
  destruct (negb _); [done|]. cbn. apply map_Forall_insert_2; [|done].
  destruct (revs_ok s id H) as (H1 & H2 & H3). destruct (set_status_list _ _ _ Er) as (E1 & E2 & E3).
  split_and!; [by rewrite E1, H1, length_insert|lia|by apply E3].
Qed.

(** *** Runs *)

Lemma move_run_keeps r state code msg now :
  r_ID (move_run r state code msg now) = r_ID r /\ r_IdempotencyKey (move_run r state code msg now) = r_IdempotencyKey r
  /\ r_DefinitionID (move_run r state code msg now) = r_DefinitionID r /\ r_State (move_run r state code msg now) = state.
Proof. unfold move_run. by repeat case_match. Qed.

Lemma create_ok s run given now k : store_ok s k -> store_ok (createRun s run given now).1 k.
Proof.
  intros [H1 H2 H3 H4 H5]. unfold createRun. destruct (String.eqb_spec (r_ID run) "") as [|Hid]; [done|].
  destruct (bool_decide_reflect (is_Some (runs s !! r_ID run))) as [|Hnew]; [done|]. rewrite <- eq_None_not_Some in Hnew.
  destruct (negb (String.eqb (r_IdempotencyKey run) "") && _) eqn:Ek; [done|]. cbv zeta. destruct ((0 <? _) && _); [done|].
  set (run' := run <| r_State := _ |> <| r_CreatedAt := now |> <| r_UpdatedAt := now |>).
  assert (runs_ok (<[r_ID run := run']> (runs s))) as Hr by (apply map_Forall_insert_2; done).
  assert (rows_ok (<[r_ID run := run']> (runs s)) (nodes s) k) as Hrows.
  { apply (rows_ok_runs (runs s)); [done|]. intros id Hs. destruct (decide (id = r_ID run)) as [->|]; [by rewrite lookup_insert_eq|by rewrite lookup_insert_ne]. }
  assert (forall id r, <[r_ID run := run']> (runs s) !! id = Some r <-> id = r_ID run /\ r = run' \/ id <> r_ID run /\ runs s !! id = Some r) as Hl
    by (intros id r; rewrite lookup_insert_Some; naive_solver).
  cbn [fst]. destruct (String.eqb_spec (r_IdempotencyKey run) "") as [E|Hne]; change (r_IdempotencyKey run') with (r_IdempotencyKey run).
  - rewrite (proj2 (String.eqb_eq _ _) E). split; [exact Hr| |exact Hrows|exact H4|exact H5]. cbn. intros key id. rewrite (H2 key id). setoid_rewrite Hl. split.
    + intros [? (r & ? & ?)]. split; [done|]. exists r. split; [|done]. right. split; [intros ->; congruence|done].
    + intros [Hk (r & [[-> ->]|[? ?]] & Hrk)]; [|eauto]. change (r_IdempotencyKey run = key) in Hrk. congruence.
  - rewrite (proj2 (String.eqb_neq _ _) Hne). split; [exact Hr| |exact Hrows|exact H4|exact H5]. cbn in Ek |- *. apply bool_decide_eq_false in Ek. rewrite <- eq_None_not_Some in Ek.
    intros key id. rewrite lookup_insert_Some. setoid_rewrite Hl. rewrite (H2 key id). split.
    + intros [[<- <-]|[Hk [? (r & Hr' & ?)]]]; [split; [done|]; exists run'; auto|].
      split; [done|]. exists r. split; [|done]. right. split; [intros ->; congruence|done].
    + intros [? (r & [[-> ->]|[Hn Hr']] & <-)]; [by left|]. right. split; [|eauto].
      intros E. assert (runByIdem s !! r_IdempotencyKey run = Some id) as Hbad by (apply H2; split; [done|]; exists r; by rewrite E). congruence.
Qed.

Lemma update_ok s runID expected state code msg now k : store_ok s k -> store_ok (updateRunState s runID expected state code msg now).1 k.
Proof.
  intros [H1 H2 H3 H4 H5]. unfold updateRunState. destruct (runs s !! runID) as [r|] eqn:Er; [|done].
  destruct (_ && _); [done|]. destruct (_ && _); [done|]. destruct (negb _); [done|]. cbn [fst].
  destruct (move_run_keeps r state code msg now) as (Ei & Ek & _ & _).
  split; cbn; [| | |exact H4|exact H5].
  - apply map_Forall_insert_2; [|done]. rewrite Ei. by apply H1.
  - intros key id. rewrite (H2 key id). setoid_rewrite lookup_insert_Some. split; intros [? (r' & Hr' & Hk)]; (split; [done|]).
    + destruct (decide (runID = id)) as [->|]; [|eauto]. exists (move_run r state code msg now). split; [by left|congruence].
    + destruct Hr' as [[<- <-]|[? ?]]; [|eauto]. exists r. split; [done|congruence].
  - apply (rows_ok_runs (runs s)); [done|]. intros id Hs. destruct (decide (id = runID)) as [->|]; [by rewrite lookup_insert_eq|by rewrite lookup_insert_ne].
Qed.

Lemma delete_run_ok s id r k : store_ok s k -> runs s !! id = Some r -> store_ok (delete_run s id r) k.
Proof.
  intros [H1 H2 H3 H4 H5] Hr. unfold delete_run.
  assert (idem_ok (delete id (runs s)) (if String.eqb (r_IdempotencyKey r) "" then runByIdem s else delete (r_IdempotencyKey r) (runByIdem s))) as Hi.
  { intros key id'. destruct (String.eqb_spec (r_IdempotencyKey r) "") as [E|E].
    - rewrite (H2 key id'). setoid_rewrite lookup_delete_Some. split; intros [? (r' & Hr' & Hk)]; (split; [done|]); exists r'; [|naive_solver].
      split; [split; [|done]|done]. intros ->. congruence.
    - rewrite lookup_delete_Some, (H2 key id'). setoid_rewrite lookup_delete_Some. split.
      + intros [Hne [? (r' & Hr' & Hk)]]. split; [done|]. exists r'. split; [split; [|done]|done]. intros ->. congruence.
      + intros [? (r' & [Hn Hr'] & Hk)]. split; [|eauto]. intros Ekey. subst key.
        assert (runByIdem s !! r_IdempotencyKey r' = Some id) as Ha by (apply H2; split; [done|]; exists r; by rewrite Ekey).
        assert (runByIdem s !! r_IdempotencyKey r' = Some id') as Hb by (apply H2; eauto). congruence. }
  split; cbn.
  - destruct (String.eqb (r_IdempotencyKey r) ""); cbn; by apply map_Forall_delete.
  - destruct (String.eqb (r_IdempotencyKey r) ""); exact Hi.
  - assert (rows_ok (delete id (runs s)) (delete id (nodes s)) k) as Hrows.
    { intros id' l [Hn Hl]%lookup_delete_Some. destruct (H3 _ _ Hl) as (? & ? & ? & ?). split_and!; try done. by rewrite lookup_delete_ne. }
    destruct (String.eqb (r_IdempotencyKey r) ""); exact Hrows.
  - destruct (String.eqb (r_IdempotencyKey r) ""); exact H4.
  - assert (approvals_ok (filter (fun kv => HasPrefix kv.1 (id +:+ nul) = false) (approvals s))) as Ha
      by (intros key a [Hl _]%map_lookup_filter_Some; by apply H5).
    destruct (String.eqb (r_IdempotencyKey r) ""); exact Ha.
Qed.

Lemma prune_ok s before k : store_ok s k -> store_ok (prune s before).1 k.
Proof.
  intros H. unfold prune. cbn [fst]. pose proof (NoDup_fst_map_to_list (runs s)) as Hnd.
  assert (Forall (fun kv => runs s !! kv.1 = Some kv.2) (map_to_list (runs s))) as Hin
    by (apply Forall_forall; intros [id r] Hx; by apply elem_of_map_to_list).
  set (l := map_to_list (runs s)) in *. clearbody l. revert s H Hin.
  induction l as [|[id r] l IH]; intros s H Hin; [done|]. apply NoDup_cons in Hnd as [Hni Hnd]. apply Forall_cons in Hin as [Hr Hin].
  cbn [List.filter snd]. destruct (prunable before r); [|by apply IH]. cbn [fold_left fst snd]. apply IH; [done|by apply delete_run_ok|].
  apply Forall_forall. intros [id' r'] Hx. cbn [fst snd]. assert (runs (delete_run s id r) = delete id (runs s)) as -> by (unfold delete_run; by case_match).
  rewrite lookup_delete_ne; [by apply (proj1 (Forall_forall _ _) Hin _ Hx)|]. intros <-. apply Hni. apply (list_elem_of_fmap_2 fst _ _ Hx).
Qed.

(** *** Attempts and approvals *)

Lemma replace_row_keeps cur exec now :
  x_RunID (replace_row cur exec now) = x_RunID exec /\ x_NodeID (replace_row cur exec now) = x_NodeID exec
  /\ x_Attempt (replace_row cur exec now) = x_Attempt exec /\ x_IdempotencyKey (replace_row cur exec now) = x_IdempotencyKey cur
  /\ x_State (replace_row cur exec now) = x_State exec.
Proof.
  unfold replace_row. destruct exec, cur. cbn. unfold node_Terminal. repeat case_match; done.
Qed.

Lemma current_ok s runID nodeID i cur k :
  store_ok s k -> currentAttempt s runID nodeID = Some (i, cur) -> rows s runID !! i = Some cur /\ x_NodeID cur = nodeID /\ x_RunID cur = runID.
Proof.
  intros H Hc. apply currentAttempt_row in Hc as [Hi Hn]. split_and!; [done..|].
  destruct (ok_rows _ _ H _ _ (rows_get _ _ _ _ Hi)) as (_ & Hr & _). rewrite Forall_lookup in Hr. by destruct (Hr _ _ Hi).
Qed.

Lemma store_ok_rows s runID i cur x k :
  store_ok s k -> rows s runID !! i = Some cur ->
  x_RunID x = x_RunID cur -> x_NodeID x = x_NodeID cur -> x_Attempt x = x_Attempt cur -> x_IdempotencyKey x = x_IdempotencyKey cur ->
  store_ok (set_row s runID i x) k.
Proof. intros [H1 H2 H3 H4 H5] Hi ? ? ? ?. split; [exact H1|exact H2|exact (set_row_ok s runID i cur x k H3 Hi ltac:(done) ltac:(done) ltac:(done) ltac:(done))|exact H4|exact H5]. Qed.

Lemma save_ok s exec expected now k : store_ok s k -> store_ok (saveNodeExecution s exec expected now).1 k.
Proof.
  intros H. unfold saveNodeExecution. destruct (currentAttempt _ _ _) as [[i cur]|] eqn:Ec; [|done].
  destruct (_ && _); [done|]. destruct (_ && _); [done|]. destruct (negb (validNodeTransition _ _)); [done|].
  destruct (Z.eqb_spec (x_Attempt exec) (x_Attempt cur)) as [Ea|]; [|done]. cbn [negb fst].
  destruct (current_ok _ _ _ _ _ _ H Ec) as (Hi & Hn & Hr). destruct (replace_row_keeps cur exec now) as (E1 & E2 & E3 & E4 & _).
  eapply store_ok_rows; [done|done|congruence..].
Qed.

Lemma claim_ok s runID nodeID owner ttl now k : store_ok s k -> store_ok (tryClaim s runID nodeID owner ttl now).1 k.
Proof.
  intros H. unfold tryClaim. destruct (currentAttempt _ _ _) as [[i cur]|] eqn:Ec; [|done]. destruct (_ && _); [done|].
  destruct (held_by_other _ _ _); [done|]. destruct (current_ok _ _ _ _ _ _ H Ec) as (Hi & _ & _). by eapply store_ok_rows.
Qed.

Lemma release_ok s runID nodeID owner k : store_ok s k -> store_ok (releaseLease s runID nodeID owner).1 k.
Proof.
  intros H. unfold releaseLease. destruct (currentAttempt _ _ _) as [[i cur]|] eqn:Ec; [|done].
  destruct (String.eqb _ _); [|done]. destruct (current_ok _ _ _ _ _ _ H Ec) as (Hi & _ & _). by eapply store_ok_rows.
Qed.

Lemma record_ok s appr now : approvals_ok (approvals s) -> approvals_ok (approvals (recordApproval s appr now).1).
Proof.
  intros H. unfold recordApproval. destruct (negb (String.eqb (a_Decision appr) "approved") && _) eqn:Ed; [done|].
  destruct (negb (String.eqb (a_Approver appr) "") && _ && _) eqn:Es; [done|]. cbv zeta.
  destruct (approvals s !! approvalKey (a_RunID appr) (a_NodeID appr)); [case_match; exact H|]. cbn. apply map_Forall_insert_2; [|done]. split_and!; cbn.
  - done.
  - destruct (String.eqb_spec (a_Decision appr) "approved"); [by left|]. destruct (String.eqb_spec (a_Decision appr) "rejected"); [by right|done].
  - intros Ha. rewrite (proj2 (String.eqb_neq _ _) Ha) in Es. cbn in Es.
    destruct (String.eqb_spec (a_Requester appr) ""); [by right|]. cbn in Es. apply String.eqb_neq in Es. by left.
Qed.

Lemma store_ok_weaken s k k' : store_ok s k -> k <= k' -> store_ok s k'.
Proof. intros [] ?. split; try done. by eapply rows_ok_weaken. Qed.

Lemma step_ok hash s op k : store_ok s k -> 0 <= k < 2 ^ 62 -> store_ok (flow_step hash s op) (k + 1).
Proof.
  intros H Hk. assert (store_ok s (k + 1)) as H' by (apply (store_ok_weaken _ k); [done|lia]).
  destruct op; cbn [flow_step]; try (by apply create_ok); try (by apply update_ok); try (by apply prune_ok); try (by apply save_ok);
    try (by apply claim_ok); try (by apply release_ok); destruct H' as [H1 H2 H3 H4 H5].
  - unfold saveDraft. by case_match.
  - assert (runs (publish hash s id by_ now).1 = runs s /\ runByIdem (publish hash s id by_ now).1 = runByIdem s
      /\ nodes (publish hash s id by_ now).1 = nodes s /\ approvals (publish hash s id by_ now).1 = approvals s) as (E1 & E2 & E3 & E4)
      by (unfold publish, publishIfUnchanged; repeat case_match; done).
    split; rewrite ?E1, ?E2, ?E3, ?E4; try done. by apply publish_ok.
  - case_match; [done|].
    assert (runs (publishIfUnchanged hash s id by_ hash0 now).1 = runs s /\ runByIdem (publishIfUnchanged hash s id by_ hash0 now).1 = runByIdem s
      /\ nodes (publishIfUnchanged hash s id by_ hash0 now).1 = nodes s /\ approvals (publishIfUnchanged hash s id by_ hash0 now).1 = approvals s) as (E1 & E2 & E3 & E4)
      by (unfold publishIfUnchanged; repeat case_match; done).
    split; rewrite ?E1, ?E2, ?E3, ?E4; try done. by apply publish_ok.
  - assert (runs (supersedeRevision s id revision).1 = runs s /\ runByIdem (supersedeRevision s id revision).1 = runByIdem s
      /\ nodes (supersedeRevision s id revision).1 = nodes s /\ approvals (supersedeRevision s id revision).1 = approvals s) as (E1 & E2 & E3 & E4)
      by (unfold supersedeRevision; repeat case_match; done).
    split; rewrite ?E1, ?E2, ?E3, ?E4; try done. by apply supersede_ok.
  - assert (runs (appendNodeExecution s exec given now).1 = runs s /\ runByIdem (appendNodeExecution s exec given now).1 = runByIdem s
      /\ revisions (appendNodeExecution s exec given now).1 = revisions s /\ approvals (appendNodeExecution s exec given now).1 = approvals s) as (E1 & E2 & E3 & E4)
      by (unfold appendNodeExecution; repeat case_match; done).
    split; rewrite ?E1, ?E2, ?E3, ?E4; try done. apply append_ok; [apply H|done].
  - assert (runs (recordApproval s appr now).1 = runs s /\ runByIdem (recordApproval s appr now).1 = runByIdem s
      /\ revisions (recordApproval s appr now).1 = revisions s /\ nodes (recordApproval s appr now).1 = nodes s) as (E1 & E2 & E3 & E4)
      by (unfold recordApproval; repeat case_match; done).
    split; rewrite ?E1, ?E2, ?E3, ?E4; try done. by apply record_ok.
Qed.

Lemma run_ok hash ops : forall s k, store_ok s k -> 0 <= k -> k + Z.of_nat (length ops) < 2 ^ 62 -> store_ok (flow_run hash s ops) (k + Z.of_nat (length ops)).
Proof.
  induction ops as [|op ops IH]; intros s k H Hk Hb; cbn [length] in *; [by rewrite Z.add_0_r|]. cbn [flow_run fold_left].
  replace (k + Z.of_nat (S (length ops))) with (k + 1 + Z.of_nat (length ops)) by lia. apply IH; [apply step_ok; [done|lia]|lia..].
Qed.

(** ** Leases *)

Lemma best_row_keep nodeID l i j c c' :
  best_row nodeID l i (Some (j, c)) = Some (j, c) -> (j < i)%nat -> x_Attempt c' = x_Attempt c -> best_row nodeID l i (Some (j, c')) = Some (j, c').
Proof.
  intros H Hj Ha. revert i H Hj. induction l as [|y l IH]; intros i H Hj; [done|]. cbn in H |- *.
  destruct (negb _); [apply IH; [done|lia]|]. rewrite Ha. destruct (x_Attempt c <? x_Attempt y); [|apply IH; [done|lia]].
  apply best_row_spec in H as [[= ? ?]|(k & ? & _)]; lia.
Qed.

(** The current row changed in place stays the current row. *)
Lemma best_row_same nodeID l i cur k x x' :
  best_row nodeID l i cur = Some ((i + k)%nat, x) -> l !! k = Some x -> (forall j c, cur = Some (j, c) -> (j < i)%nat) ->
  x_NodeID x' = x_NodeID x -> x_Attempt x' = x_Attempt x -> best_row nodeID (<[k := x']> l) i cur = Some ((i + k)%nat, x').
Proof.
  intros H Hk Hc Hn Ha. revert i k cur H Hk Hc. induction l as [|y l IH]; intros i [|k] cur H Hk Hc; try done; cbn in H |- *.
  - injection Hk as ->. rewrite Nat.add_0_r in *. rewrite Hn.
    assert (forall d : option (nat * NodeExecution), (forall j c, d = Some (j, c) -> (j < i)%nat) -> best_row nodeID l (S i) d <> Some (i, x)) as Hno.
    { intros d Hd Hb. apply best_row_spec in Hb as [Hb|(m & ? & _)]; [apply Hd in Hb|]; lia. }
    destruct (negb _); [by edestruct Hno|]. destruct cur as [[j c]|]; [rewrite Ha; case_match; [|by edestruct Hno]|];
      (apply (best_row_keep _ _ _ _ x); [done|lia|done]).
  - replace (i + S k)%nat with (S i + k)%nat in * by lia. apply IH; [done|done|]. intros j c Hj.
    destruct (negb _); [apply Hc in Hj; lia|]. destruct cur as [[j' c']|]; [case_match|]; try (injection Hj as <- <-; lia).
    apply Hc in Hj. lia.
Qed.

Lemma current_set_same s runID nodeID i x x' :
  currentAttempt s runID nodeID = Some (i, x) -> x_NodeID x' = x_NodeID x -> x_Attempt x' = x_Attempt x ->
  currentAttempt (set_row s runID i x') runID nodeID = Some (i, x').
Proof.
  intros H Hn Ha. destruct (currentAttempt_row _ _ _ _ _ H) as [Hi _]. unfold currentAttempt, rows at 1. cbn. rewrite lookup_insert_eq. cbn.
  exact (best_row_same nodeID (rows s runID) 0 None i x x' H Hi ltac:(done) Hn Ha).
Qed.

Lemma current_set_other s runID nodeID runID' nodeID' i x x' :
  currentAttempt s runID' nodeID' = Some (i, x) -> (runID', nodeID') <> (runID, nodeID) -> x_NodeID x' = x_NodeID x ->
  currentAttempt (set_row s runID' i x') runID nodeID = currentAttempt s runID nodeID.
Proof.
  intros H Hne Hn. destruct (currentAttempt_row _ _ _ _ _ H) as [Hi Hx]. unfold currentAttempt. destruct (decide (runID' = runID)) as [->|Hr].
  - assert (rows (set_row s runID i x') runID = <[i := x']> (rows s runID)) as -> by (unfold rows at 1; cbn; by rewrite lookup_insert_eq).
    apply (best_row_other _ _ _ _ _ x); [done| |done]. congruence.
  - assert (rows (set_row s runID' i x') runID = rows s runID) as -> by (unfold rows at 1 2; cbn; by rewrite lookup_insert_ne). done.
Qed.

(** The operations through which a live lease can be lost: the owner's own new
    claim or release, a claim after the lease has run out, a new attempt of the
    node, a write of its row that expects it to be claimed or expects nothing
    (writes do not look at the owner), and retention. *)
Definition gives_way (runID nodeID owner : string) (until : Time) (op : FlowOp) : Prop :=
  match op with
  | TryClaim r n o _ now => (r, n) = (runID, nodeID) /\ (o = owner \/ until <= now)
  | ReleaseLease r n o => (r, n) = (runID, nodeID) /\ o = owner
  | AppendNodeExecution e _ _ => (x_RunID e, x_NodeID e) = (runID, nodeID)
  | SaveNodeExecution e expected _ => (x_RunID e, x_NodeID e) = (runID, nodeID) /\ (expected = None \/ expected = Some NodeClaimed)
  | Prune _ => True
  | _ => False
  end.
#[local] Instance gives_way_dec runID nodeID owner until op : Decision (gives_way runID nodeID owner until op).
Proof. destruct op; cbn; apply _. Defined.
Definition foreign (runID nodeID owner : string) (until : Time) (op : FlowOp) : Prop := ~ gives_way runID nodeID owner until op.

Lemma held_true x owner other now :
  x_LeaseOwner x = owner -> owner <> "" -> other <> owner -> x_LeaseUntil x <> 0 -> now < x_LeaseUntil x -> held_by_other x other now = true.
Proof.
  intros Ho Hne Hoth Hz Hlt. unfold held_by_other. rewrite Ho, (proj2 (String.eqb_neq owner "") Hne), (proj2 (String.eqb_neq owner other)) by congruence.
  unfold IsZero, After. rewrite (proj2 (Z.eqb_neq _ _) Hz). cbn. by apply Z.ltb_lt.
Qed.

Lemma claim_refused s runID nodeID other ttl now i x :
  currentAttempt s runID nodeID = Some (i, x) -> held_by_other x other now = true -> tryClaim s runID nodeID other ttl now = (s, inl None).
Proof. intros Hc Hh. unfold tryClaim. rewrite Hc. destruct (_ && _); [done|]. by rewrite Hh. Qed.

Lemma foreign_step hash s op runID nodeID i x owner :
  currentAttempt s runID nodeID = Some (i, x) -> x_State x = NodeClaimed -> x_LeaseOwner x = owner -> owner <> "" -> x_LeaseUntil x <> 0 ->
  foreign runID nodeID owner (x_LeaseUntil x) op -> currentAttempt (flow_step hash s op) runID nodeID = Some (i, x).
Proof.
  intros Hc Hst Ho Hne Hz Hf.
  assert (forall s', nodes s' = nodes s -> currentAttempt s' runID nodeID = Some (i, x)) as Hsame by (intros s' E; unfold currentAttempt, rows; by rewrite E).
  destruct op; unfold foreign in Hf; cbn [flow_step gives_way] in *.
  - apply Hsame. unfold saveDraft. by case_match.
  - apply Hsame. unfold publish, publishIfUnchanged. by repeat case_match.
  - apply Hsame. unfold publishIfUnchanged. by repeat case_match.
  - apply Hsame. unfold supersedeRevision. by repeat case_match.
  - apply Hsame. unfold createRun. by repeat case_match.
  - apply Hsame. unfold updateRunState. by repeat case_match.
  - by destruct Hf.
  - unfold appendNodeExecution. destruct (runs s !! _); [|done]. case_match; [done|]. cbn [fst]. unfold currentAttempt, rows at 1. cbn.
    destruct (decide (x_RunID exec = runID)) as [Er|Er]; [|by rewrite lookup_insert_ne]. rewrite Er, lookup_insert_eq. cbn.
    rewrite best_row_app. cbn. rewrite (proj2 (String.eqb_neq (x_NodeID exec) nodeID)) by congruence. exact Hc.
  - unfold saveNodeExecution. destruct (currentAttempt s (x_RunID exec) (x_NodeID exec)) as [[j cur]|] eqn:Ec; [|done].
    destruct (decide ((x_RunID exec, x_NodeID exec) = (runID, nodeID))) as [[= Er En]|Hn].
    { rewrite Er, En, Hc in Ec. injection Ec as <- <-. rewrite Hst. destruct expected as [st|]; [|exfalso; apply Hf; split; [congruence|by left]].
      destruct (decide (st = NodeClaimed)) as [->|Hne']; [exfalso; apply Hf; split; [congruence|by right]|].
      rewrite bool_decide_eq_true_2 by done. by rewrite bool_decide_eq_false_2 by congruence. }
    repeat (destruct (_ && _); [done|]). destruct (negb _); [done|]. destruct (negb _); [done|]. cbn [fst].
    rewrite (current_set_other s runID nodeID _ _ j cur _ Ec); [done|done|].
    destruct (replace_row_keeps cur exec now) as (_ & E2 & _). apply currentAttempt_row in Ec as [_ Ec]. congruence.
  - destruct (decide ((runID0, nodeID0) = (runID, nodeID))) as [[= -> ->]|Hn].
    + assert (owner0 <> owner) as Ho' by (intros ->; apply Hf; split; [done|by left]).
      assert (now < x_LeaseUntil x) as Hlt by (apply Z.nle_gt; intros ?; apply Hf; split; [done|by right]).
      by rewrite (claim_refused _ _ _ _ _ _ _ _ Hc (held_true x owner owner0 now Ho Hne Ho' Hz Hlt)).
    + unfold tryClaim. destruct (currentAttempt s runID0 nodeID0) as [[j cur]|] eqn:Ec; [|done]. destruct (_ && _); [done|].
      destruct (held_by_other _ _ _); [done|]. cbn [fst]. by rewrite (current_set_other s runID nodeID _ _ j cur _ Ec).
  - unfold releaseLease. destruct (decide ((runID0, nodeID0) = (runID, nodeID))) as [[= -> ->]|Hn].
    + assert (owner0 <> owner) as Ho' by (intros ->; by apply Hf). rewrite Hc. rewrite (proj2 (String.eqb_neq (x_LeaseOwner x) owner0)) by congruence. done.
    + destruct (currentAttempt s runID0 nodeID0) as [[j cur]|] eqn:Ec; [|done]. destruct (String.eqb _ _); [|done]. cbn [fst].
      by rewrite (current_set_other s runID nodeID _ _ j cur _ Ec).
  - apply Hsame. unfold recordApproval. by repeat case_match.
Qed.

Lemma foreign_run hash ops : forall s runID nodeID i x owner,
  currentAttempt s runID nodeID = Some (i, x) -> x_State x = NodeClaimed -> x_LeaseOwner x = owner -> owner <> "" -> x_LeaseUntil x <> 0 ->
  Forall (foreign runID nodeID owner (x_LeaseUntil x)) ops -> currentAttempt (flow_run hash s ops) runID nodeID = Some (i, x).
Proof.
  induction ops as [|op ops IH]; intros s runID nodeID i x owner Hc Hst Ho Hne Hz Hf; [done|]. apply Forall_cons in Hf as [H1 H2].
  cbn [flow_run fold_left]. eapply IH; [|done..]. by eapply foreign_step.
Qed.

(** ** The admission cap *)

Lemma active_spec s d id : id ∈ dom (active s d) <-> exists r, runs s !! id = Some r /\ r_DefinitionID r = d /\ run_Terminal (r_State r) = false.
Proof.
  rewrite elem_of_dom. unfold is_Some, active. setoid_rewrite map_lookup_filter_Some. cbn. naive_solver.
Qed.

Lemma active_size_le (s s' : storeState) d : dom (active s' d) ⊆ dom (active s d) -> (size (active s' d) <= size (active s d))%nat.
Proof. intros H. rewrite <- !size_dom. by apply subseteq_size. Qed.

Lemma delete_runs_sub l : forall s d, dom (active (fold_left (fun s kv => delete_run s kv.1 kv.2) l s) d) ⊆ dom (active s d).
Proof.
  induction l as [|[id r] l IH]; intros s d; [done|]. cbn [fold_left fst snd]. etrans; [apply IH|]. intros id'. rewrite !active_spec.
  assert (runs (delete_run s id r) = delete id (runs s)) as -> by (unfold delete_run; by case_match).
  intros (r' & [_ ?]%lookup_delete_Some & ?). eauto.
Qed.

(** Every run of the definition is admitted under the same cap. *)
Definition capped (d : string) (limit : Z) (op : FlowOp) : Prop :=
  match op with CreateRun run _ _ => r_DefinitionID run = d -> s_MaxConcurrentRuns (d_Settings (r_Definition run)) = limit | _ => True end.

Lemma create_cap s run given now d limit :
  0 < limit -> capped d limit (CreateRun run given now) -> Z.of_nat (size (active s d)) <= limit ->
  Z.of_nat (size (active (createRun s run given now).1 d)) <= limit.
Proof.
  intros Hl Hc Hs. unfold createRun. destruct (String.eqb _ _); [done|]. destruct (bool_decide _); [done|]. destruct (negb _ && _); [done|].
  cbv zeta. destruct ((0 <? _) && _) eqn:Ef; [done|].
  set (run' := run <| r_State := _ |> <| r_CreatedAt := now |> <| r_UpdatedAt := now |>). cbn [fst].
  set (s' := if String.eqb _ _ then _ else _). assert (runs s' = <[r_ID run := run']> (runs s)) as Hr by (unfold s'; by case_match). clearbody s'.
  destruct (decide (r_DefinitionID run = d)) as [Ed|Ed].
  - rewrite (Hc Ed), (proj2 (Z.ltb_lt _ _) Hl), Ed in Ef. cbn in Ef. apply Z.leb_gt in Ef.
    assert (dom (active s' d) ⊆ {[r_ID run]} ∪ dom (active s d)) as Hsub.
    { intros id. rewrite elem_of_union, elem_of_singleton, !active_spec, Hr. intros (r & [[<- _]|[_ ?]]%lookup_insert_Some & ?); eauto. }
    apply subseteq_size in Hsub. rewrite <- !size_dom in *. pose proof (size_union_alt {[r_ID run]} (dom (active s d))) as E.
    pose proof (subseteq_size (dom (active s d) ∖ {[r_ID run]}) (dom (active s d)) ltac:(set_solver)). rewrite size_singleton in E. lia.
  - assert (dom (active s' d) ⊆ dom (active s d)) as Hsub; [|apply active_size_le in Hsub; lia].
    intros id. rewrite !active_spec, Hr. intros (r & [[<- <-]|[_ ?]]%lookup_insert_Some & ? & ?); [done|eauto].
Qed.

Lemma update_cap s runID expected state code msg now d : dom (active (updateRunState s runID expected state code msg now).1 d) ⊆ dom (active s d).
Proof.
  unfold updateRunState. destruct (runs s !! runID) as [r|] eqn:Er; [|done]. destruct (_ && _); [done|].
  destruct (run_Terminal (r_State r) && _) eqn:Et; [done|]. destruct (negb (validRunTransition _ _)); [done|]. cbn [fst].
  destruct (move_run_keeps r state code msg now) as (_ & _ & Ed & Es). intros id. rewrite !active_spec. cbn.
  intros (r' & [[<- <-]|[_ ?]]%lookup_insert_Some & Hd & Ht); [|eauto]. exists r. rewrite <- Ed. split_and!; [done..|].
  rewrite Es in Ht. destruct (run_Terminal (r_State r)) eqn:Er'; [|done]. cbn in Et. apply negb_false_iff, bool_decide_eq_true in Et. congruence.
Qed.

Lemma cap_step hash s op d limit :
  0 < limit -> capped d limit op -> Z.of_nat (size (active s d)) <= limit -> Z.of_nat (size (active (flow_step hash s op) d)) <= limit.
Proof.
  intros Hl Hc Hs. assert (forall s', dom (active s' d) ⊆ dom (active s d) -> Z.of_nat (size (active s' d)) <= limit) as Hsub
    by (intros s' H; apply active_size_le in H; lia).
  assert (forall s', runs s' = runs s -> Z.of_nat (size (active s' d)) <= limit) as Hsame by (intros s' E; unfold active; by rewrite E).
  destruct op; cbn [flow_step]; try (by apply create_cap).
  - apply Hsame. unfold saveDraft. by case_match.
  - apply Hsame. unfold publish, publishIfUnchanged. by repeat case_match.
  - apply Hsame. unfold publishIfUnchanged. by repeat case_match.
  - apply Hsame. unfold supersedeRevision. by repeat case_match.
  - apply Hsub, update_cap.
  - apply Hsub, delete_runs_sub.
  - apply Hsame. unfold appendNodeExecution. by repeat case_match.
  - apply Hsame. unfold saveNodeExecution. by repeat case_match.
  - apply Hsame. unfold tryClaim. by repeat case_match.
  - apply Hsame. unfold releaseLease. by repeat case_match.
  - apply Hsame. unfold recordApproval. by repeat case_match.
Qed.

(** ** What was decided *)

(** [s'] keeps what [s] decided: finished runs and attempts keep their state
    and their place, approvals stand. *)
Record keeps (s s' : storeState) : Prop := {
  keeps_runs : forall id r, runs s !! id = Some r ->
    exists r', runs s' !! id = Some r' /\ (run_Terminal (r_State r) = true -> r_State r' = r_State r);
  keeps_rows : forall id i x, rows s id !! i = Some x ->
    exists x', rows s' id !! i = Some x' /\ x_NodeID x' = x_NodeID x /\ (node_Terminal (x_State x) = true -> x_State x' = x_State x);
  keeps_approvals : forall k a, approvals s !! k = Some a -> approvals s' !! k = Some a }.

Lemma keeps_refl s s' : runs s' = runs s -> nodes s' = nodes s -> approvals s' = approvals s -> keeps s s'.
Proof. intros E1 E2 E3. unfold rows. split; unfold rows; rewrite ?E1, ?E2, ?E3; eauto. Qed.

Lemma keeps_trans s1 s2 s3 : keeps s1 s2 -> keeps s2 s3 -> keeps s1 s3.
Proof.
  intros [A1 A2 A3] [B1 B2 B3]. split; [| |auto].
  - intros id r Hr. destruct (A1 _ _ Hr) as (r' & Hr' & Ht). destruct (B1 _ _ Hr') as (r'' & Hr'' & Ht'). exists r''. split; [done|].
    intros E. specialize (Ht E). rewrite <- Ht. apply Ht'. by rewrite Ht.
  - intros id i x Hx. destruct (A2 _ _ _ Hx) as (x' & Hx' & Hn & Ht). destruct (B2 _ _ _ Hx') as (x'' & Hx'' & Hn' & Ht'). exists x''.
    split_and!; [done|congruence|]. intros E. specialize (Ht E). rewrite <- Ht. apply Ht'. by rewrite Ht.
Qed.

Lemma keeps_set_row s runID i x x' :
  rows s runID !! i = Some x -> x_NodeID x' = x_NodeID x -> (node_Terminal (x_State x) = true -> x_State x' = x_State x) -> keeps s (set_row s runID i x').
Proof.
  intros Hi Hn Ht. split; cbn; [eauto| |eauto]. intros id j y Hy.
  assert (rows (set_row s runID i x') id = if decide (runID = id) then <[i := x']> (rows s runID) else rows s id) as ->.
  { unfold rows at 1. cbn. case_decide as E; [by rewrite E, lookup_insert_eq|by rewrite lookup_insert_ne]. }
  case_decide as E; [subst id|eauto]. destruct (decide (i = j)) as [->|Hij].
  - exists x'. rewrite list_lookup_insert_eq by (by eapply lookup_lt_Some). simplify_eq. eauto.
  - exists y. rewrite list_lookup_insert_ne by done. eauto.
Qed.

Definition no_prune (op : FlowOp) : Prop := match op with Prune _ => False | _ => True end.

Lemma keeps_step hash s op : no_prune op -> keeps s (flow_step hash s op).
Proof.
  intros Hp. destruct op; cbn [flow_step no_prune] in *; try done.
  - apply keeps_refl; unfold saveDraft; by case_match.
  - apply keeps_refl; unfold publish, publishIfUnchanged; by repeat case_match.
  - apply keeps_refl; unfold publishIfUnchanged; by repeat case_match.
  - apply keeps_refl; unfold supersedeRevision; by repeat case_match.
  - unfold createRun. destruct (String.eqb _ _); [by apply keeps_refl|].
    destruct (bool_decide_reflect (is_Some (runs s !! r_ID run))) as [|Hnew]; [by apply keeps_refl|]. destruct (negb _ && _); [by apply keeps_refl|].
    cbv zeta. destruct ((0 <? _) && _); [by apply keeps_refl|]. cbn [fst]. set (run' := run <| r_State := _ |> <| r_CreatedAt := now |> <| r_UpdatedAt := now |>).
    destruct (String.eqb _ _); (split; cbn; [|eauto|eauto]); intros id r Hr; exists r;
      (rewrite lookup_insert_ne; [done|intros <-; apply Hnew; eauto]).
  - unfold updateRunState. destruct (runs s !! runID) as [r|] eqn:Er; [|by apply keeps_refl]. destruct (_ && _); [by apply keeps_refl|].
    destruct (run_Terminal (r_State r) && _) eqn:Et; [by apply keeps_refl|]. destruct (negb (validRunTransition _ _)); [by apply keeps_refl|].
    cbn [fst]. destruct (move_run_keeps r state code msg now) as (_ & _ & _ & Es). split; cbn; [|eauto|eauto]. intros id r' Hr'.
    destruct (decide (runID = id)) as [->|]; [|exists r'; by rewrite lookup_insert_ne].
    exists (move_run r state code msg now). rewrite lookup_insert_eq. split; [done|]. simplify_eq. intros E. rewrite Es. rewrite E in Et.
    cbn in Et. by apply negb_false_iff, bool_decide_eq_true in Et.
  - unfold appendNodeExecution. destruct (runs s !! _); [|by apply keeps_refl]. case_match; [by apply keeps_refl|]. cbn [fst].
    split; cbn; [eauto| |eauto]. intros id i x Hx. exists x. split; [|done]. unfold rows at 1. cbn.
    destruct (decide (x_RunID exec = id)) as [<-|]; [|by rewrite lookup_insert_ne]. rewrite lookup_insert_eq. cbn. by apply lookup_app_l_Some.
  - unfold saveNodeExecution. destruct (currentAttempt _ _ _) as [[i cur]|] eqn:Ec; [|by apply keeps_refl]. destruct (_ && _); [by apply keeps_refl|].
    destruct (node_Terminal (x_State cur) && _) eqn:Et; [by apply keeps_refl|]. destruct (negb (validNodeTransition _ _)); [by apply keeps_refl|].
    destruct (negb (_ =? _)); [by apply keeps_refl|]. cbn [fst]. destruct (replace_row_keeps cur exec now) as (_ & En & _ & _ & Es).
    apply currentAttempt_row in Ec as [Hi Hn]. apply (keeps_set_row _ _ _ cur); [done|congruence|]. intros E. rewrite E in Et. rewrite Es.
    cbn in Et. by apply negb_false_iff, bool_decide_eq_true in Et.
  - unfold tryClaim. destruct (currentAttempt _ _ _) as [[i cur]|] eqn:Ec; [|by apply keeps_refl]. destruct (_ && _) eqn:Es; [by apply keeps_refl|].
    destruct (held_by_other _ _ _); [by apply keeps_refl|]. cbn [fst]. apply currentAttempt_row in Ec as [Hi Hn].
    apply (keeps_set_row _ _ _ cur); [done|done|]. destruct (x_State cur); try done.
  - unfold releaseLease. destruct (currentAttempt _ _ _) as [[i cur]|] eqn:Ec; [|by apply keeps_refl]. destruct (String.eqb _ _); [|by apply keeps_refl].
    cbn [fst]. apply currentAttempt_row in Ec as [Hi Hn]. by apply (keeps_set_row _ _ _ cur).
  - unfold recordApproval. destruct (_ && _); [by apply keeps_refl|]. destruct (_ && _ && _); [by apply keeps_refl|]. cbv zeta.
    destruct (approvals s !! approvalKey (a_RunID appr) (a_NodeID appr)) eqn:Ea; [destruct (_ && _); by apply keeps_refl|]. cbn [fst].
    split; cbn; [eauto|eauto|].
    intros k a Ha. rewrite lookup_insert_ne; [done|]. intros <-. congruence.
Qed.

Lemma keeps_run hash ops : forall s, Forall no_prune ops -> keeps s (flow_run hash s ops).
Proof.
  induction ops as [|op ops IH]; intros s H; [by apply keeps_refl|]. apply Forall_cons in H as [H1 H2]. cbn [flow_run fold_left].
  eapply keeps_trans; [by apply keeps_step|by apply IH].
Qed.

(** ** Samples *)

Definition sample_hash (d : Definition_) : option string := Some (d_Name d).
Definition sample_run (id key : string) : Run :=
  mkRun id "wf" 1 (mkDef "v1" "wf" "sample" [] [] [] (mkSettings 0 2 0)) RunCreated key "alice" [] [] "" "" 0 0 0 0 "" 0.
Definition sample_exec (id : string) (st : NodeState) (code : string) : NodeExecution :=
  mkExec id "n" 0 st [] [] false [] code "" false false 0 "" "" "" 0 0 0 0 0.
(** One run with one claimed attempt, moved to its end. *)
Definition sample_ops : list FlowOp :=
  [ SaveDraft (r_Definition (sample_run "r1" "k1")); Publish "wf" "bob" 10; CreateRun (sample_run "r1" "k1") None 11;
    UpdateRunState "r1" (Some RunCreated) RunRunning "" "" 12; AppendNodeExecution (sample_exec "r1" NodePending "") None 13;
    TryClaim "r1" "n" "w1" 100 14; SaveNodeExecution (sample_exec "r1" NodeRunning "") (Some NodeClaimed) 15;
    SaveNodeExecution (sample_exec "r1" NodeSucceeded "") (Some NodeRunning) 16; UpdateRunState "r1" None RunSucceeded "" "" 17;
    RecordApproval (mkApproval "r1" "n" "alice" "bob" "approved" 0) 18 ].

(** ** The properties *)

(** (C31) Invariant of the run store: after any sequence of store operations
    (fewer than 2^62 of them), every run is stored under its own identifier; the
    idempotency table is exactly the relation from the non-empty keys to the
    runs that carry them, so a key names one run; every attempt row belongs to
    an existing run, carries the key derived from its run, node and attempt
    number, and the attempts of a node are numbered 0, 1, 2, ... without gap or
    duplicate; the revisions of a definition are numbered 1, 2, ... with at most
    one of them published; every approval is approved or rejected and was not
    given by its requester. *)
Theorem flow_store_invariant (hash : Definition_ -> option string) (ops : list FlowOp) :
  Z.of_nat (length ops) < 2 ^ 62 -> store_ok (flow_run hash newStoreState ops) (Z.of_nat (length ops)).
Proof. intros H. apply (run_ok hash ops newStoreState 0); [|done|done]. by split; try done; intros k id; split; [|intros [_ (r & Hr & _)]]. Qed.

Lemma flow_store_invariant_witness :
  Z.of_nat (length sample_ops) < 2 ^ 62 /\ store_ok (flow_run sample_hash newStoreState sample_ops) (Z.of_nat (length sample_ops)).
Proof. split; [by vm_compute|]. apply flow_store_invariant. by vm_compute. Defined.

(** (C17) Leases are exclusive.  When a worker with a name has claimed a node until
    [now + ttl] and, after any operations of anybody on the store, another worker's
    claim of that node succeeds, then either the claim came when the lease had run
    out, on the very attempt that was claimed, or one of the operations gave the
    lease up: the owner claimed again or released it, it was claimed after it had
    run out, the node got a new attempt, its row was written by a save that
    expects it to be claimed or expects nothing, or retention ran.  Nothing else
    others do, their claims and releases and all other saves of the node
    included, moves it. *)
Theorem lease_exclusive (hash : Definition_ -> option string) (s s' s'' : storeState) (runID nodeID owner other : string) (ttl ttl' : Duration) (now now' : Time)
    (x y : NodeExecution) (ops : list FlowOp) :
  tryClaim s runID nodeID owner ttl now = (s', inl (Some x)) -> owner <> "" -> Add now ttl <> 0 ->
  tryClaim (flow_run hash s' ops) runID nodeID other ttl' now' = (s'', inl (Some y)) -> other <> owner ->
  Add now ttl <= now' /\ (exists i, currentAttempt (flow_run hash s' ops) runID nodeID = Some (i, x))
  \/ Exists (gives_way runID nodeID owner (Add now ttl)) ops.
Proof.
  unfold tryClaim at 1. destruct (currentAttempt s runID nodeID) as [[i cur]|] eqn:Ec; [|done]. destruct (_ && _); [done|].
  destruct (held_by_other cur owner now); [done|].
  intros [= <- <-] Hne Hz Hclaim Hoth. set (x := cur <| x_State := NodeClaimed |> <| x_LeaseOwner := owner |> <| x_LeaseUntil := Add now ttl |> <| x_UpdatedAt := now |>) in *.
  destruct (decide (Exists (gives_way runID nodeID owner (Add now ttl)) ops)) as [He|Hn]; [by right|].
  assert (Forall (foreign runID nodeID owner (Add now ttl)) ops) as Hf
    by (apply Forall_forall; intros op Hop Hg; apply Hn, Exists_exists; by exists op).
  left. assert (currentAttempt (flow_run hash (set_row s runID i x) ops) runID nodeID = Some (i, x)) as Hc
    by (apply (foreign_run _ _ _ _ _ _ _ owner); [by apply (current_set_same _ _ _ _ cur)|done..]).
  split; [|by exists i]. apply Z.nlt_ge. intros Hlt.
  assert (tryClaim (flow_run hash (set_row s runID i x) ops) runID nodeID other ttl' now' = (s'', inl (Some y))) as Hcl by exact Hclaim.
  rewrite (claim_refused _ _ _ _ ttl' now' i x Hc (held_true x owner other now' eq_refl Hne Hoth Hz Hlt)) in Hcl. done.
Qed.

Lemma lease_exclusive_witness :
  let s := flow_run sample_hash newStoreState (take 5 sample_ops) in
  let ops := [TryClaim "r1" "n" "w2" 50 20; ReleaseLease "r1" "n" "w2"; SaveNodeExecution (sample_exec "r1" NodeSucceeded "") (Some NodeRunning) 22; CreateRun (sample_run "r2" "") None 21] in
  Add 14 100 <= 114 /\ (exists i x, currentAttempt (flow_run sample_hash (tryClaim s "r1" "n" "w1" 100 14).1 ops) "r1" "n" = Some (i, x))
  \/ Exists (gives_way "r1" "n" "w1" (Add 14 100)) ops.
Proof.
  cbv zeta. destruct (tryClaim (flow_run sample_hash newStoreState (take 5 sample_ops)) "r1" "n" "w1" 100 14) as [s' [[x|]|]] eqn:E; cbn [snd fst].
  - assert (s' = (tryClaim (flow_run sample_hash newStoreState (take 5 sample_ops)) "r1" "n" "w1" 100 14).1) as Es by (by rewrite E).
    destruct (tryClaim (flow_run sample_hash s' [TryClaim "r1" "n" "w2" 50 20; ReleaseLease "r1" "n" "w2"; SaveNodeExecution (sample_exec "r1" NodeSucceeded "") (Some NodeRunning) 22; CreateRun (sample_run "r2" "") None 21]) "r1" "n" "w2" 50 114) as [s'' [[y|]|]] eqn:E2.
    + destruct (lease_exclusive sample_hash _ _ _ _ _ _ _ _ _ _ _ _ _ _ E ltac:(done) ltac:(done) E2 ltac:(done)) as [[H1 [i H2]]|H]; [left; eauto|by right].
    + exfalso. rewrite Es in E2. apply (f_equal snd) in E2. vm_compute in E2. discriminate.
    + exfalso. rewrite Es in E2. apply (f_equal snd) in E2. vm_compute in E2. discriminate.
  - exfalso. apply (f_equal snd) in E. vm_compute in E. discriminate.
  - exfalso. apply (f_equal snd) in E. vm_compute in E. discriminate.
Defined.

(** The concurrency cap holds: when every run of a definition is created
    under the same positive [MaxConcurrentRuns], no sequence of store
    operations from the empty store ever has more runs of that definition that
    are not finished. *)
Theorem admission_cap (hash : Definition_ -> option string) (definitionID : string) (limit : Z) (ops : list FlowOp) :
  0 < limit -> Forall (capped definitionID limit) ops -> Z.of_nat (size (active (flow_run hash newStoreState ops) definitionID)) <= limit.
Proof.
  intros Hl Hops. assert (forall s, Z.of_nat (size (active s definitionID)) <= limit ->
    Z.of_nat (size (active (fold_left (flow_step hash) ops s) definitionID)) <= limit) as H; [|apply H; by change (0 <= limit); lia].
  induction Hops as [|op ops Hop _ IH]; intros s Hs; [done|]. cbn. apply IH. by apply cap_step.
Qed.

Lemma admission_cap_witness :
  let ops := [CreateRun (sample_run "r1" "") None 1; CreateRun (sample_run "r2" "") None 2; CreateRun (sample_run "r3" "") None 3] in
  Z.of_nat (size (active (flow_run sample_hash newStoreState ops) "wf")) <= 2
  /\ size (active (flow_run sample_hash newStoreState ops) "wf") = 2%nat.
Proof. split; [|by vm_compute]. apply admission_cap; [done|]. by repeat constructor. Defined.

(** Decisions are final: along any sequence of operations without
    retention, every run stays known and a finished one keeps its final state;
    every attempt row keeps its place and node, and a finished one its state;
    a recorded approval is never changed. *)
Theorem decisions_final (hash : Definition_ -> option string) (s : storeState) (ops : list FlowOp) :
  Forall no_prune ops ->
  (forall id r, runs s !! id = Some r ->
     exists r', getRun (flow_run hash s ops) id = inl r' /\ (run_Terminal (r_State r) = true -> r_State r' = r_State r))
  /\ (forall id i x, rows s id !! i = Some x ->
     exists x', rows (flow_run hash s ops) id !! i = Some x' /\ x_NodeID x' = x_NodeID x
       /\ (node_Terminal (x_State x) = true -> x_State x' = x_State x))
  /\ (forall runID nodeID a, getApproval s runID nodeID = inl a -> getApproval (flow_run hash s ops) runID nodeID = inl a).
Proof.
  intros H. destruct (keeps_run hash ops s H) as [H1 H2 H3]. split_and!; [|exact H2|].
  - intros id r Hr. destruct (H1 id r Hr) as (r' & Hr' & Ht). exists r'. unfold getRun. by rewrite Hr'.
  - intros runID nodeID a. unfold getApproval. destruct (approvals s !! _) as [a'|] eqn:E; [|done]. intros [= <-]. by rewrite (H3 _ _ E).
Qed.

Lemma decisions_final_witness :
  let s := flow_run sample_hash newStoreState sample_ops in
  exists r', getRun (flow_run sample_hash s [UpdateRunState "r1" None RunFailed "late" "" 30]) "r1" = inl r' /\ r_State r' = RunSucceeded.
Proof.
  cbv zeta. set (s := flow_run sample_hash newStoreState sample_ops).
  destruct (runs s !! "r1") as [r|] eqn:Er; [|exfalso; vm_compute in Er; discriminate].
  assert (r_State r = RunSucceeded) as Es by (vm_compute in Er; injection Er as <-; reflexivity).
  destruct (decisions_final sample_hash s [UpdateRunState "r1" None RunFailed "late" "" 30] ltac:(by repeat constructor)) as (H & _ & _).
  destruct (H "r1" r Er) as (r' & Hr' & Ht). exists r'. split; [exact Hr'|]. rewrite Es in Ht. by apply Ht.
Defined.

(** Saving a finished attempt again in the state it already has is accepted and
    replaces its error code: the row changes although it is final. *)
Lemma finished_attempt_rewritten :
  let s := flow_run sample_hash newStoreState (take 8 sample_ops) in
  match saveNodeExecution s (sample_exec "r1" NodeSucceeded "rewritten") None 40 with
  | (s', inl x) => x_ErrorCode x = "rewritten" /\ option_map (fun ix => x_ErrorCode ix.2) (currentAttempt s "r1" "n") = Some ""
      /\ option_map (fun ix => x_ErrorCode ix.2) (currentAttempt s' "r1" "n") = Some "rewritten"
  | _ => False
  end.
Proof. vm_compute. auto. Qed.
