(* ===== verification/Authz.v ===== *)
(** * Authorization ([src/internal/authz/authz.go]) and key revocation ([src/internal/virtualkeys/service.go])

    Roles grant fixed sets of permissions to an authenticated identity; a
    client key is revoked by one mutation of the configuration. *)

From S2P Require Import Prelude.

(** ** Roles and permissions *)

Definition RoleOwner : string := "owner".
Definition RoleAdmin : string := "admin".
Definition RoleOperator : string := "operator".
Definition RoleDeveloper : string := "developer".
Definition RoleViewer : string := "viewer".
Definition ReadConfig : string := "config.read".
Definition WriteConfig : string := "config.write".
Definition ReadProviders : string := "providers.read".
Definition WriteProviders : string := "providers.write".
Definition ReadRouting : string := "routing.read".
Definition WriteRouting : string := "routing.write".
Definition ReadUsage : string := "usage.read".
Definition RunEvaluation : string := "evaluation.run".
Definition ReadAudit : string := "audit.read".
Definition ManageKeys : string := "keys.manage".
Definition ManageVideo : string := "video.manage".

Record Identity := mkIdentity { Subject : string; Issuer : string; Roles : list string }.

Definition all_permissions : list string :=
  [ReadConfig; WriteConfig; ReadProviders; WriteProviders; ReadRouting; WriteRouting; ReadUsage; RunEvaluation; ReadAudit; ManageKeys; ManageVideo].
(** The table of the source; an unknown role has no permission. *)
Definition rolePermissions (role : string) : list string :=
  if String.eqb role RoleOwner then all_permissions
  else if String.eqb role RoleAdmin then all_permissions
  else if String.eqb role RoleOperator then [ReadConfig; ReadProviders; ReadRouting; WriteRouting; ReadUsage; RunEvaluation; ManageVideo]
  else if String.eqb role RoleDeveloper then [ReadConfig; ReadProviders; ReadRouting; ReadUsage; RunEvaluation; ReadAudit]
  else if String.eqb role RoleViewer then [ReadConfig; ReadProviders; ReadRouting; ReadUsage]
  else [].

Definition Authenticated (i : Identity) : bool := negb (String.eqb (TrimSpace (Subject i)) "").
Definition HasRole (i : Identity) (want : string) : bool := existsb (fun role => String.eqb role want) (Roles i).
Definition Authorize (i : Identity) (permission : string) : bool :=
  Authenticated i && existsb (fun role => existsb (String.eqb permission) (rolePermissions role)) (Roles i).
(** In no particular order in the source. *)
Definition PermissionsFor (role : string) : list string := rolePermissions role.

(** Only the owner and administrator roles may write the configuration, the
    providers or the keys, and no permission comes without an identity. *)
#[local] Opaque TrimSpace.
Lemma write_needs_admin i p :
  p = WriteConfig \/ p = WriteProviders \/ p = ManageKeys -> Authorize i p = true ->
  Authenticated i = true /\ (HasRole i RoleOwner = true \/ HasRole i RoleAdmin = true).
Proof.
  intros Hp H. unfold Authorize in H. destruct (Authenticated i); [|discriminate]. split; [reflexivity|]. cbn [andb] in H.
  apply existsb_exists in H as (role & Hin & H). unfold HasRole. rewrite !existsb_exists. unfold rolePermissions in H.
  destruct (String.eqb_spec role RoleOwner) as [->|_]; [left; exists RoleOwner; by rewrite String.eqb_refl|].
  destruct (String.eqb_spec role RoleAdmin) as [->|_]; [right; exists RoleAdmin; by rewrite String.eqb_refl|].
  exfalso. destruct Hp as [-> | [-> | ->]]; repeat (destruct (String.eqb role _); [discriminate H|]); discriminate H.
Qed.

(** ** Client keys *)

Record VirtualKey := mkKey { vk_ID : string; vk_Revoked : bool }.
Inductive RevokeError := IDRequired | MutationUnavailable | KeyNotFound (id : string).
(** The mutation: the first key of the name is marked. *)
Fixpoint revoke_first (id : string) (keys : list VirtualKey) : option (list VirtualKey) :=
  match keys with
  | [] => None
  | k :: keys => if String.eqb (vk_ID k) id then Some (mkKey (vk_ID k) true :: keys)
                 else match revoke_first id keys with Some keys => Some (k :: keys) | None => None end
  end.
(** [available] tells whether a mutation function is wired. *)
Definition Revoke (available : bool) (keys : list VirtualKey) (id : string) : list VirtualKey * option RevokeError :=
  if String.eqb id "" then (keys, Some IDRequired)
  else if negb available then (keys, Some MutationUnavailable)
  else match revoke_first id keys with Some keys => (keys, None) | None => (keys, Some (KeyNotFound id)) end.
