(* ===== verification/Redact.v ===== *)
(** * Redaction of workflow data ([src/internal/nexaflow/redact.go], [store.go])

    What a run record may hold: values under secret keys are replaced, long
    strings and deep nesting cut, and an output is bounded.  The replacement of
    bearer and basic credentials inside a text (two regular expressions) and the
    length of a JSON encoding are parameters. *)

From Stdlib Require Import Ascii.
From S2P Require Import Prelude Text Workflow.

Definition MaxErrorMessageChars : nat := 512.
Definition MaxRedactDepth : nat := 100.
Definition MaxStoredOutputBytes : Z := 65536.
Definition secretKeys : list string :=
  ["authorization"; "api_key"; "apikey"; "token"; "secret"; "password"; "client_secret"; "access_token"; "refresh_token";
   "cookie"; "set_cookie"; "proxy_authorization"; "auth_token"].

(** [strings.ReplaceAll(key, "-", "_")]. *)
Fixpoint dashes (s : string) : string :=
  match s with EmptyString => EmptyString | String c s => String (if Ascii.eqb c "-" then "_"%char else c) (dashes s) end.
Definition isSecretKey (key : string) : bool :=
  let lower := ToLower (dashes key) in
  existsb (fun secret => String.eqb lower secret || HasSuffix lower ("_" +:+ secret) || HasPrefix lower (secret +:+ "_")) secretKeys
  || (Contains lower "api_key" || Contains lower "apikey" || Contains lower "client_secret" || Contains lower "authorization").

Section redact.
(** The two regular expressions applied to a text in turn. *)
Context (redactText : string -> string).

Definition RedactError (msg : string) : string :=
  let msg := TrimSpace (redactText msg) in
  if (MaxErrorMessageChars <? String.length msg)%nat then str_take MaxErrorMessageChars msg else msg.

(** [room] is what is left of the depth: [MaxRedactDepth - depth + 1]. *)
Fixpoint redactJSONValueDepth (room : nat) (v : Value) : Value :=
  match room with
  | O => VString "[TRUNCATED]"
  | S room =>
      match v with
      | VObject m => VObject (map (fun kv => (fst kv, if isSecretKey (fst kv) then VString "[REDACTED]" else redactJSONValueDepth room (snd kv))) m)
      | VStringMap m =>
          VObject (map (fun kv => (fst kv, if isSecretKey (fst kv) then VString "[REDACTED]" else redactJSONValueDepth room (VString (snd kv)))) m)
      | VStrings l => VArray (map (fun s => redactJSONValueDepth room (VString s)) l)
      | VArray l => VArray (map (redactJSONValueDepth room) l)
      | VString s => let s := redactText s in if (8192 <? String.length s)%nat then VString (str_take 8192 s) else VString s
      | v => v
      end
  end.
Definition redactJSONValue (v : Value) : Value := redactJSONValueDepth (S MaxRedactDepth) v.

Context (jsonLen : list (string * Value) -> Z).

(** The keys in order until the bound is met. *)
Fixpoint keep_fitting (keys : list string) (cleaned kept : list (string * Value)) : list (string * Value) :=
  match keys with
  | [] => kept
  | k :: keys =>
      let kept' := kept ++ match assoc k cleaned with Some v => [(k, v)] | None => [] end in
      if MaxStoredOutputBytes <? jsonLen kept' then kept else keep_fitting keys cleaned kept'
  end.
(** [m[k] = v]. *)
Definition set_key {A} (k : string) (v : A) (m : list (string * A)) : list (string * A) :=
  List.filter (fun kv => negb (String.eqb (fst kv) k)) m ++ [(k, v)].
Definition sanitizeNodeOutput (out : option (list (string * Value))) : list (string * Value) * bool :=
  match out with
  | None => ([], false)
  | Some out =>
      let cleaned := match redactJSONValue (VObject out) with VObject m => m | _ => [] end in
      if jsonLen cleaned <=? MaxStoredOutputBytes then (cleaned, false)
      else (set_key "_truncated" (VBool true) (keep_fitting (sort_Strings (map fst cleaned)) cleaned []), true)
  end.
End redact.

(** ** Secrets do not survive *)

(** The keys whose values must not be surfaced, as the comments of the source
    describe them: with hyphens read as underscores and without regard to case,
    a listed word at an underscore boundary, or one of four words anywhere. *)
Definition secret_name (key : string) : Prop :=
  let k := ToLower (dashes key) in
  (exists w, w ∈ ["authorization"; "api_key"; "apikey"; "token"; "secret"; "password"; "client_secret"; "access_token"; "refresh_token";
                  "cookie"; "set_cookie"; "proxy_authorization"; "auth_token"]
     /\ (k = w \/ (exists before, k = before +:+ "_" +:+ w) \/ exists after, k = w +:+ "_" +:+ after))
  \/ exists w before after, w ∈ ["api_key"; "apikey"; "client_secret"; "authorization"] /\ k = before +:+ w +:+ after.

Lemma prefix_exists p s : HasPrefix s p = true <-> exists q, s = p +:+ q.
Proof.
  unfold HasPrefix. revert s. induction p as [|c p IH]; intros s; [cbn; split; [by exists s|by destruct s]|].
  destruct s as [|d s]; cbn [String.prefix]; [split; [done|by intros []]|].
  destruct (Ascii.ascii_dec c d) as [<-|Hne]; [rewrite IH; split; intros [q H]; exists q; [by rewrite H|by injection H]|].
  split; [done|]. intros [q H]. by injection H.
Qed.
Lemma contains_exists p s : Contains s p = true <-> exists q r, s = q +:+ p +:+ r.
Proof.
  induction s as [|c s IH]; cbn [Contains]; rewrite orb_true_iff, prefix_exists.
  - split; [intros [[r H]|]; [by exists "", r|done]|]. intros (q & r & H). left. destruct q; [by exists r|done].
  - rewrite IH. split; [intros [[r H]|(q & r & ->)]; [by exists "", r|by exists (String c q), r]|].
    intros ([|d q] & r & H); [left; by exists r|right; injection H as _ H; eauto].
Qed.
Lemma secret_exact key : isSecretKey key = true <-> secret_name key.
Proof.
  unfold isSecretKey, secret_name. set (k := ToLower (dashes key)). cbv zeta.
  rewrite orb_true_iff, existsb_exists. setoid_rewrite <- list_elem_of_In. fold secretKeys.
  rewrite !orb_true_iff, !contains_exists.
  assert (forall w, (String.eqb k w || HasSuffix k ("_" +:+ w)) || HasPrefix k (w +:+ "_") = true <->
    k = w \/ (exists before, k = before +:+ "_" +:+ w) \/ exists after, k = w +:+ "_" +:+ after) as Hw.
  { intros w. rewrite !orb_true_iff, String.eqb_eq, prefix_exists, HasSuffix_spec.
    setoid_rewrite str_app_assoc3. tauto. }
  setoid_rewrite Hw. split.
  - intros [(w & Hin & H)|H]; [left; by exists w|right].
    destruct H as [[[(q & r & ->)|(q & r & ->)]|(q & r & ->)]|(q & r & ->)]; eexists _, q, r; (split; [|done]); set_solver.
  - intros [(w & Hin & H)|(w & q & r & Hin & ->)]; [left; by exists w|right]. set_unfold in Hin.
    destruct Hin as [->|[->|[->|[->|[]]]]]; eauto 8.
Qed.

(** No value under a secret key is left unredacted, at any depth, in objects,
    arrays and string maps.  What a container of another Go type holds is not
    looked at. *)
Fixpoint clean (v : Value) : Prop :=
  match v with
  | VObject m => (fix go (m : list (string * Value)) : Prop :=
                    match m with [] => True | (k, x) :: m => (secret_name k -> x = VString "[REDACTED]") /\ clean x /\ go m end) m
  | VArray l => (fix go (l : list Value) : Prop := match l with [] => True | x :: l => clean x /\ go l end) l
  | VStringMap m => Forall (fun kv => secret_name (fst kv) -> snd kv = "[REDACTED]") m
  | _ => True
  end.
Definition clean_field (kv : string * Value) : Prop := (secret_name (fst kv) -> snd kv = VString "[REDACTED]") /\ clean (snd kv).

Lemma clean_object m : clean (VObject m) <-> Forall clean_field m.
Proof.
  induction m as [|[k x] m IH]; cbn; [by split|]. rewrite Forall_cons. unfold clean_field at 1. cbn.
  change ((fix go (m : list (string * Value)) : Prop := match m with [] => True | (k, x) :: m => (secret_name k -> x = VString "[REDACTED]") /\ clean x /\ go m end) m)
    with (clean (VObject m)). rewrite IH. tauto.
Qed.

Lemma redacted_field key (v : Value) : clean v -> clean_field (key, if isSecretKey key then VString "[REDACTED]" else v).
Proof.
  intros Hv. unfold clean_field. cbn [fst snd]. rewrite <- secret_exact. destruct (isSecretKey key); [split; [done|exact I]|]. by split.
Qed.
Lemma redact_clean redactText room v : clean (redactJSONValueDepth redactText room v).
Proof.
  revert v. induction room as [|room IH]; intros v; [done|]. destruct v as [| | | |l|m|l|m|]; try done; cbn [redactJSONValueDepth].
  - by destruct (_ <? _)%nat.
  - induction l as [|x l IHl]; [done|]. split; [apply IH|exact IHl].
  - apply clean_object, Forall_forall. intros kv [[k x] [-> _]]%list_elem_of_fmap. by apply redacted_field.
  - induction l as [|x l IHl]; [done|]. split; [apply IH|exact IHl].
  - apply clean_object, Forall_forall. intros kv [[k x] [-> _]]%list_elem_of_fmap. by apply redacted_field.
Qed.

Lemma redact_object redactText out : exists m, redactJSONValue redactText (VObject out) = VObject m /\ clean (VObject m) /\ map fst m = map fst out.
Proof.
  unfold redactJSONValue. generalize MaxRedactDepth. intros room. pose proof (redact_clean redactText (S room) (VObject out)) as Hc.
  eexists. split; [reflexivity|]. split; [exact Hc|]. rewrite map_map. by apply map_ext.
Qed.

Lemma keep_fitting_sub jsonLen keys cleaned kept :
  Forall clean_field cleaned -> Forall clean_field kept -> Forall clean_field (keep_fitting jsonLen keys cleaned kept).
Proof.
  intros Hc. revert kept. induction keys as [|k keys IH]; intros kept Hk; cbn [keep_fitting]; [done|]. destruct (_ <? _); [done|]. apply IH.
  apply Forall_app_2; [done|]. unfold assoc. destruct (List.find _ cleaned) as [[k' v]|] eqn:E; cbn; [|constructor].
  apply List.find_some in E as [Hin He]. cbn in He. apply String.eqb_eq in He as ->. constructor; [|constructor].
  rewrite Forall_forall in Hc. apply Hc. by apply list_elem_of_In.
Qed.

(** (C29) What is stored of an output holds no unredacted value under a key that
    names a secret, at any depth of objects, arrays and string maps and whether it
    was cut or not (values inside containers of other Go types are not looked at);
    and an output that was not cut keeps every key. *)
Theorem sanitize_clean redactText jsonLen out :
  let '(stored, cut) := sanitizeNodeOutput redactText jsonLen out in
  clean (VObject stored) /\ (cut = false -> map fst stored = map fst (default [] out)).
Proof.
  destruct out as [out|]; cbn [sanitizeNodeOutput]; [|done].
  destruct (redact_object redactText out) as (m & -> & Hc & Hk). destruct (_ <=? _); [done|].
  split; [|done]. apply clean_object. apply clean_object in Hc. apply Forall_app_2.
  - assert (Forall clean_field (keep_fitting jsonLen (sort_Strings (map fst m)) m [])) as H by (apply keep_fitting_sub; [done|constructor]).
    rewrite Forall_forall in H. apply Forall_forall. intros kv [Hin _]%list_elem_of_In%List.filter_In. apply H. by apply list_elem_of_In.
  - constructor; [|constructor]. split; [|exact I]. cbn [fst]. rewrite <- secret_exact. vm_compute. discriminate.
Qed.

Lemma typed_field_kept redactText v : redactJSONValue redactText (VObject [("rows", VTyped v)]) = VObject [("rows", VTyped v)].
Proof. unfold redactJSONValue, MaxRedactDepth. reflexivity. Qed.
(** A slice of maps, which is no [[]any], keeps the credentials inside it. *)
Theorem typed_container_kept redactText jsonLen : jsonLen [("rows", VTyped (VArray [VObject [("api_key", VString "k")]]))] <= MaxStoredOutputBytes ->
  sanitizeNodeOutput redactText jsonLen (Some [("rows", VTyped (VArray [VObject [("api_key", VString "k")]]))])
  = ([("rows", VTyped (VArray [VObject [("api_key", VString "k")]]))], false).
Proof.
  intros H. unfold sanitizeNodeOutput. rewrite typed_field_kept. by rewrite (proj2 (Z.leb_le _ _) H).
Qed.
