(* ===== verification/Engine.v ===== *)
(** * The workflow engine ([src/internal/nexaflow]: [engine.go], [registry.go], [graph.go])

    The engine drives runs on top of the run store of [FlowStore.v].  It is not
    atomic: every call of the store is one step, and between two steps other
    goroutines and processes may act on the store, contexts end, clocks run and
    the process may stop.  All of that is an environment ([Env]) indexed by the
    number of the step; the definitions are written in a small monad that asks
    it ([M]): a state, a Go error that is returned at once ([Exc]), or the end
    of the process ([Crash]).

    The engine uses the memory store, whose calls do not look at the context.
    Goroutines of the job pool touch only the row of their own node, so the pool
    is a sequence in an order the environment chooses.  The delay before a
    retry has no effect on the state and is left out, and so is the table of
    cancel functions: a cancelled context is an answer of the environment. *)

From S2P Require Import Prelude Hash Text Authz Workflow FlowStore Redact.

(** ** Outside the engine *)

Record RunContext := mkRunContext { rc_Principal : Identity; rc_Input : Payload; rc_Config : Payload; rc_PolicyApproved : bool }.
(** An error of a node: its code, whether it may be retried, its text. *)
Record NodeErr := mkErr { ne_Code : string; ne_Retryable : bool; ne_Message : string }.
(** What [errors.Is] and [errors.As] find in the error of a [Run] function. *)
Record RunError := mkRunError { re_Canceled : bool; re_Deadline : bool; re_Node : option NodeErr; re_Text : string }.
Inductive CtxErr := Canceled | DeadlineExceeded.
#[global] Instance CtxErr_eq_dec : EqDecision CtxErr.
Proof. solve_decision. Defined.

(** The texts and the JSON encoder: formatting by code and arguments, the
    replacement of credentials, the rendering of store errors, encoded lengths
    and equality of encodings. *)
Record Lib := mkLib {
  fmtText : string -> list string -> string; credentials : string -> string; storeText : StoreError -> string;
  payloadLen : Payload -> Z; definitionLen : Definition_ -> Z; sameJSONValue : Payload -> Payload -> bool }.

Record AuditEvent := mkEvent { ev_RunID : string; ev_NodeID : string; ev_Kind : string; ev_Attempt : Z; ev_State : string; ev_ErrorCode : string }.
(** [Ran] is a call of a node's [Run] function, [Audit] a call of the hook. *)
Inductive Event := Ran (runID nodeID : string) (attempt : Z) | Audit (ev : AuditEvent).

(** What the other engines on the store are doing, which this one does not see: the
    attempts whose dispatch they have recorded and not yet made, and the calls they
    made. *)
Record Peers := mkPeers { p_held : gset (string * string * Z); p_ran : list Event }.
Definition nobody : Peers := mkPeers ∅ [].
(** The store, the memory of the process, and the other engines. *)
Record Shared := mkShared { store : storeState; inFlight : gset string; semaphores : gmap string (Z * Z); peers : Peers }.
#[global] Instance eta_Shared : Eta Shared := fun s => mkShared (store s) (inFlight s) (semaphores s) (peers s).

(** What the [n]-th step of the engine finds. *)
Record Env := mkEnv {
  clock : nat -> Time;
  crash : nat -> bool;
  others : nat -> Shared -> Shared;
  ctx_done : nat -> bool;
  node_ctx : nat -> option CtxErr;
  run_node : nat -> NodeSpec -> RunContext -> option Payload + RunError;
  random : nat -> option (list Z);
  ticks : nat -> nat * bool;
  range : forall {A : Type}, nat -> list A -> list A;
  range_perm : forall A n (l : list A), range n l ≡ₚ l }.

Inductive EngineError :=
| EStore (e : StoreError) | RunParked | RunInFlight | DefinitionBusy | InitializationIncomplete (runID nodeID : string) | NotWaiting
| TooManyNodes | TooManyEdges | DefinitionTooLarge | InputTooLarge | BadDefinition (e : DefError) | NoRandom
| BadApprovalDecision | EmptyApprover | ApproverIsRequester | CtxEnded | OutOfFuel.

Record St := mkSt { tick : nat; sh : Shared; log : list Event }.
#[global] Instance eta_St : Eta St := fun s => mkSt (tick s) (sh s) (log s).
Inductive Res (A : Type) := Val (a : A) | Exc (e : EngineError) | Crash.
Arguments Val {A}.
Arguments Exc {A}.
Arguments Crash {A}.
Definition M (A : Type) : Type := St -> St * Res A.
#[global] Instance M_ret : MRet M := fun A a st => (st, Val a).
#[global] Instance M_bind : MBind M := fun A B f m st =>
  match m st with (st, Val a) => f a st | (st, Exc e) => (st, Exc e) | (st, Crash) => (st, Crash) end.
Definition throw {A} (e : EngineError) : M A := fun st => (st, Exc e).
(** A call whose error the caller looks at. *)
Definition try {A} (m : M A) : M (A + EngineError) := fun st =>
  match m st with (st, Val a) => (st, Val (inl a)) | (st, Exc e) => (st, Val (inr e)) | (st, Crash) => (st, Crash) end.
Fixpoint mfold {A S} (f : S -> A -> M S) (l : list A) (s : S) : M S :=
  match l with [] => mret s | x :: l => s ← f s x; mfold f l s end.
Definition emit (e : Event) : M unit := fun st => (st <| log := log st ++ [e] |>, Val tt).

(** The state names of the source. *)
Definition node_name (s : NodeState) : string :=
  match s with
  | NodePending => "pending" | NodeClaimed => "claimed" | NodeRunning => "running" | NodeWaiting => "waiting" | NodeSucceeded => "succeeded"
  | NodeFailed => "failed" | NodeSkipped => "skipped" | NodeCancelled => "cancelled" | NodeNeedsManualAction => "needs_manual_action"
  end.
Definition run_name (s : RunState) : string :=
  match s with
  | RunCreated => "created" | RunRunning => "running" | RunWaitingForApproval => "waiting_for_approval" | RunSucceeded => "succeeded"
  | RunFailed => "failed" | RunCancelled => "cancelled" | RunNeedsManualAction => "needs_manual_action" | RunWaitingTimer => "waiting_timer"
  end.

(** ** Graph and data helpers *)

Definition nodeDefByID (def : Definition_) (id : string) : DefinitionNode :=
  default (mkNode id "" "" [] None) (List.find (fun n => String.eqb (n_ID n) id) (d_Nodes def)).
Definition triggerConfig (def : Definition_) (node : DefinitionNode) (spec : NodeSpec) : Payload :=
  match (if String.eqb (ns_Category spec) "trigger" then List.find (fun tr => String.eqb (t_Name tr) (n_ID node)) (d_Triggers def) else None) with
  | Some tr => t_Config tr
  | None => n_Config node
  end.
Definition currentAttempts (all : list NodeExecution) : gmap string NodeExecution :=
  fold_left (fun out ex => match out !! x_NodeID ex with
                           | Some cur => if x_Attempt cur <? x_Attempt ex then <[x_NodeID ex := ex]> out else out
                           | None => <[x_NodeID ex := ex]> out
                           end) all ∅.
Definition codeIn (codes : list string) (want : string) : bool := existsb (fun c => String.eqb c want) codes.
(** The outputs of the succeeded attempts. *)
Definition outputs_of (current : gmap string NodeExecution) : list (string * Payload) :=
  omap (fun kv => if bool_decide (x_State kv.2 = NodeSucceeded) then Some (x_NodeID kv.2, x_Output kv.2) else None) (map_to_list current).

Fixpoint readiness_loop (edges : list DefinitionEdge) (current : gmap string NodeExecution) (outputs : list (string * Payload)) (skipVote : bool) : bool * bool :=
  match edges with
  | [] => if skipVote then (false, true) else (true, false)
  | edge :: edges =>
      match current !! e_From edge with
      | None => (false, false)
      | Some src =>
          if negb (edgeFired edge outputs) then
            if node_Terminal (x_State src) then readiness_loop edges current outputs true else (false, false)
          else match x_State src with
          | NodeSucceeded => readiness_loop edges current outputs skipVote
          | NodeFailed | NodeCancelled | NodeSkipped | NodeNeedsManualAction => readiness_loop edges current outputs true
          | _ => (false, false)
          end
      end
  end.
(** Whether the node is ready, and whether it is skipped. *)
Definition nodeReadiness (def : Definition_) (nodeID : string) (current : gmap string NodeExecution) (outputs : list (string * Payload)) : bool * bool :=
  match incomingEdges def nodeID with
  | [] => (true, false)
  | edges => readiness_loop edges current outputs false
  end.

Definition overlayResumeInput (dst : Payload) (spec : NodeSpec) (resume : Payload) : Payload :=
  fold_left (fun dst kv => if existsb (fun f => String.eqb (f_Name f) (fst kv)) (ns_InputSchema spec) then set_key (fst kv) (snd kv) dst else dst) resume dst.
Definition nodeInput (run : Run) (node : DefinitionNode) (spec : NodeSpec) (outputs : list (string * Payload)) (resume : Payload) : option Payload :=
  if String.eqb (ns_Category spec) "trigger" then Some (overlayResumeInput (r_Input run) spec resume)
  else if String.eqb (ns_ID spec) approvalNodeID && bool_decide (n_Input node = None) then Some (overlayResumeInput [] spec resume)
  else match n_Input node with
  | Some _ =>
      match mappedNodeInput (r_Input run) node outputs with
      | Some mapped => Some (overlayResumeInput mapped spec resume)
      | None => None
      end
  | None =>
      let merged := fold_left (fun merged edge =>
                      if edgeFired edge outputs
                      then fold_left (fun merged kv => set_key (fst kv) (snd kv) merged) (default [] (assoc (e_From edge) outputs)) merged
                      else merged) (incomingEdges (r_Definition run) (n_ID node)) [] in
      Some (overlayResumeInput merged spec resume)
  end.

(** ** The engine *)

Record Engine := mkEngine { registry : Registry; workerID : string; workers : Z; leaseTTL : Duration; approvalTimeout : Duration }.
Definition EngineMaxNodes : Z := 128.
Definition EngineMaxEdges : Z := 512.
Definition EngineMaxDefinitionJSONBytes : Z := 1048576.
Definition EngineDefaultWorkers : Z := 16.
Definition EngineMaxWorkers : Z := 32.
Definition EngineDefaultLeaseTTL : Duration := 30 * Second.
Definition MaxRunInputBytes : Z := 65536.
Definition MaxConfigBytes : Z := 262144.
(** A store and a registry are required; [random_id] is what the random source
    gives for an engine without a name. *)
Inductive OptionError := NoStore | NoRegistry | NoWorkerID.
Definition NewEngine (hasStore : bool) (reg : option Registry) (worker : string) (nworkers : Z) (ttl timeout : Duration) (random_id : option (list Z)) : Engine + OptionError :=
  if negb hasStore then inr NoStore
  else match reg with
  | None => inr NoRegistry
  | Some reg =>
      let nworkers := if nworkers <=? 0 then EngineDefaultWorkers else nworkers in
      let nworkers := if EngineMaxWorkers <? nworkers then EngineMaxWorkers else nworkers in
      let ttl := if ttl <=? 0 then EngineDefaultLeaseTTL else ttl in
      if String.eqb worker "" then match random_id with Some b => inl (mkEngine reg ("engine-" +:+ EncodeToString b) nworkers ttl timeout) | None => inr NoWorkerID end
      else inl (mkEngine reg worker nworkers ttl timeout)
  end.

(** A [NodeExecution] with these fields set. *)
Definition new_attempt (runID nodeID opID : string) : NodeExecution :=
  mkExec runID nodeID 0 NodePending [] [] false [] "" "" false false 0 "" opID "" 0 0 0 0 0.

Section engine.
Context (env : Env) (lib : Lib) (e : Engine).

(** One step: the number it has, unless the process stops here. *)
Definition step : M nat := fun st => if crash env (tick st) then (st, Crash) else (st <| tick := S (tick st) |>, Val (tick st)).
(** An access to the shared state, after what others did. *)
Definition access {A} (f : nat -> Shared -> Shared * A) : M A :=
  n ← step; (fun st => let '(s, a) := f n (others env n (sh st)) in (st <| sh := s |>, Val a)) : M A.
Definition lift {A} (r : A + StoreError) : M A := match r with inl a => mret a | inr err => throw (EStore err) end.
Definition store_get {A} (f : storeState -> A + StoreError) : M A := r ← access (fun _ s => (s, f (store s))); lift r.
Definition store_op {A} (f : Time -> storeState -> Outcome A) : M A :=
  r ← access (fun n s => let '(s', r) := f (clock env n) (store s) in (s <| store := s' |>, r)); lift r.
Definition now : M Time := n ← step; mret (clock env n).
Definition runCtxErr : M bool := n ← step; mret (ctx_done env n).
Definition ranged {A} (l : list A) : M (list A) := n ← step; mret (range env n l).

Definition GetRun (id : string) : M Run := store_get (fun s => getRun s id).
Definition GetNodeExecutions (id : string) : M (list NodeExecution) := store_get (fun s => getNodeExecutions s id).
Definition GetApproval (runID nodeID : string) : M Approval := store_get (fun s => getApproval s runID nodeID).
Definition UpdateState (runID : string) (expected : option RunState) (state : RunState) (code msg : string) : M Run :=
  store_op (fun now s => updateRunState s runID expected state code msg now).
Definition Save (exec : NodeExecution) (expected : option NodeState) : M NodeExecution := store_op (fun now s => saveNodeExecution s exec expected now).
Definition Append (runID nodeID opID : string) : M NodeExecution :=
  store_op (fun now s => appendNodeExecution s (new_attempt runID nodeID opID) (Some NodePending) now).
(** [errors.Is(err, ErrStateConflict) || errors.Is(err, ErrTerminalState)]. *)
Definition lost_race (err : EngineError) : bool := match err with EStore ErrStateConflict | EStore ErrTerminalState => true | _ => false end.

(** *** Guarded execution of a node *)

Definition newNodeError (code : string) (retryable : bool) (args : list string) : NodeErr := mkErr code retryable (RedactError (credentials lib) (fmtText lib code args)).
Definition schema_error (err : NodeError) : NodeErr :=
  match err with
  | UnsupportedVersion v => newNodeError "unsupported_version" false [v]
  | NodeNotFound id => newNodeError "node_not_found" false [id]
  | InvalidSchema n t => newNodeError "invalid_schema" false [n; t]
  | MissingField k n => newNodeError "validation_error" false [k; n]
  | UnknownField k n => newNodeError "validation_error" false [k; n]
  | WrongType n t => newNodeError "validation_error" false [n; t]
  end.
Definition asNodeError (err : RunError) : NodeErr :=
  match re_Node err with
  | Some ne => mkErr (ne_Code ne) (ne_Retryable ne) (RedactError (credentials lib) (ne_Message ne))
  | None => mkErr "backend_error" false (RedactError (credentials lib) (re_Text err))
  end.
Definition node_error_text (err : NodeErr) : string := ne_Code err +:+ ": " +:+ RedactError (credentials lib) (ne_Message err).
(** The checks before [Run] is called. *)
Definition execute_guard (spec : NodeSpec) (principal : Identity) (input config : Payload) (policyApproved : bool) : option NodeErr :=
  if negb (Authenticated principal) then Some (newNodeError "permission_denied" false [ns_ID spec])
  else if negb (String.eqb (ns_Permission spec) "") && negb (Authorize principal (ns_Permission spec))
       then Some (newNodeError "permission_denied" false [Subject principal; ns_Permission spec; ns_ID spec])
  else if ns_RequiresOperatorPolicy spec && negb policyApproved then Some (newNodeError "policy_required" false [ns_ID spec])
  else match ValidateConfig spec config with
  | Some err => Some (schema_error err)
  | None =>
      if MaxConfigBytes <? payloadLen lib config then Some (newNodeError "config_too_large" false [])
      else match validateAgainstSchema input (ns_InputSchema spec) "input" with
      | Some err => Some (schema_error err)
      | None => if ns_MaxInputBytes spec <? payloadLen lib input then Some (newNodeError "input_too_large" false []) else None
      end
  end.
(** What the outcome of [Run] becomes. *)
Definition execute_result (spec : NodeSpec) (ctx : option CtxErr) (r : option Payload + RunError) : Payload + NodeErr :=
  match r with
  | inr err =>
      if bool_decide (ctx = Some Canceled) || re_Canceled err then inr (newNodeError "cancelled" false [ns_ID spec])
      else if bool_decide (ctx = Some DeadlineExceeded) || re_Deadline err
      then inr (newNodeError "timeout" ((1 <? MaxAttempts (ns_Retry spec)) && codeIn (RetryableCodes (ns_Retry spec)) "timeout") [ns_ID spec])
      else inr (asNodeError err)
  | inl out =>
      if bool_decide (ctx <> None) then inr (newNodeError "cancelled" false [ns_ID spec])
      else match redactJSONValue (credentials lib) (VObject (default [] out)) with
      | VObject m => if ns_MaxOutputBytes spec <? payloadLen lib m then inr (newNodeError "output_too_large" false []) else inl m
      | _ => inr (newNodeError "internal_error" false [ns_ID spec])
      end
  end.
(** [Registry.Execute] for the attempt [who]. *)
Definition ExecuteNode (who : string * string * Z) (spec : NodeSpec) (principal : Identity) (input config : Payload) (policyApproved : bool) : M (Payload + NodeErr) :=
  match execute_guard spec principal input config policyApproved with
  | Some err => mret (inr err)
  | None =>
      n ← step;
      emit (Ran who.1.1 who.1.2 who.2);;
      mret (execute_result spec (node_ctx env n) (run_node env n spec (mkRunContext principal input config policyApproved)))
  end.

(** *** Creation *)

Definition requireInitializedRun (run : Run) : M unit :=
  rows ← GetNodeExecutions (r_ID run);
  match List.find (fun node => negb (existsb (fun x => (x_Attempt x =? 0) && String.eqb (x_NodeID x) (n_ID node)) rows)) (d_Nodes (r_Definition run)) with
  | Some node => throw (InitializationIncomplete (r_ID run) (n_ID node))
  | None => mret tt
  end.
(** The environment says how often the ticker fires before the wait ends, and
    whether the context ended it or the deadline. *)
Fixpoint wait_loop (n : nat) (cancelled : bool) (run : Run) : M unit :=
  r ← try (requireInitializedRun run);
  match r with
  | inl _ => mret tt
  | inr (InitializationIncomplete a b as err) => match n with O => throw (if cancelled then CtxEnded else err) | S n => wait_loop n cancelled run end
  | inr err => throw err
  end.
Definition waitForInitializedRun (run : Run) : M unit := n ← step; wait_loop (ticks env n).1 (ticks env n).2 run.
(** A stored run that answers the same request. *)
Definition same_request (existing : Run) (pub : PublishedDefinition) (input : Payload) : bool :=
  String.eqb (r_DefinitionID existing) (v_DefinitionID (p_Version pub)) && (r_Revision existing =? v_Revision (p_Version pub))
  && sameJSONValue lib (r_Input existing) input.
Definition appendInitial (runID : string) (order : list string) : M unit :=
  mfold (fun _ nodeID => Append runID nodeID "initial";; mret tt) order tt.
Definition CreateRun (pub : PublishedDefinition) (principal : Identity) (input : Payload) (idempotencyKey : string) : M Run :=
  let def := p_Definition pub in
  if EngineMaxNodes <? Z.of_nat (length (d_Nodes def)) then throw TooManyNodes
  else if EngineMaxEdges <? Z.of_nat (length (d_Edges def)) then throw TooManyEdges
  else if EngineMaxDefinitionJSONBytes <? definitionLen lib def then throw DefinitionTooLarge
  else match ValidateDefinition (Some def) (Some (registry e)) with
  | inl _ => throw OutOfFuel
  | inr (Some err) => throw (BadDefinition err)
  | inr None =>
      if MaxRunInputBytes <? payloadLen lib input then throw InputTooLarge
      else
        found ← (if String.eqb idempotencyKey "" then mret (inr (EStore ErrNotFound))
                 else try (store_get (fun s => getRunByIdempotency s idempotencyKey)));
        match found with
        | inl existing =>
            if negb (same_request existing pub input) then throw (EStore ErrIdempotencyConflict)
            else waitForInitializedRun existing;; mret existing
        | inr (EStore ErrNotFound) =>
            n ← step;
            match random env n with
            | None => throw NoRandom
            | Some idb =>
                let run := mkRun ("run_" +:+ EncodeToString idb) (v_DefinitionID (p_Version pub)) (v_Revision (p_Version pub)) def RunCreated
                             idempotencyKey (Subject principal) (Roles principal) input "" "" 0 0 0 0 "" 0 in
                created ← try (store_op (fun now s => createRun s run (Some RunCreated) now));
                match created with
                | inr err =>
                    match (if String.eqb idempotencyKey "" then EStore ErrNotFound else err) with
                    | EStore ErrIdempotencyConflict =>
                        raced ← try (store_get (fun s => getRunByIdempotency s idempotencyKey));
                        match raced with
                        | inl existing =>
                            if same_request existing pub input then waitForInitializedRun existing;; GetRun (r_ID existing) else throw err
                        | inr _ => throw err
                        end
                    | _ => throw err
                    end
                | inl _ =>
                    appendInitial (r_ID run) (default [] (TopologicalOrder def));;
                    GetRun (r_ID run)
                end
            end
        | inr err => throw err
        end
  end.

(** *** Settling *)

(** What the current attempts say of a run. *)
Record Tally := mkTally { anyParked : bool; anyFailed : bool; anyWaiting : bool; allTerminal : bool; hasRunnable : bool; firstFailed : option NodeExecution }.
#[global] Instance eta_Tally : Eta Tally := fun t => mkTally (anyParked t) (anyFailed t) (anyWaiting t) (allTerminal t) (hasRunnable t) (firstFailed t).
Definition tally_one (def : Definition_) (current : gmap string NodeExecution) (t : Tally) (kv : string * NodeExecution) : Tally :=
  let cur := kv.2 in
  let t := match x_State cur with
    | NodeNeedsManualAction => t <| anyParked := true |>
    | NodeFailed => t <| anyFailed := true |> <| firstFailed := match firstFailed t with None => Some cur | f => f end |>
    | NodeWaiting => t <| anyWaiting := true |>
    | NodeClaimed | NodeRunning => t <| hasRunnable := true |>
    | NodePending =>
        let '(ready, skip) := nodeReadiness def (x_NodeID cur) current (outputs_of current) in
        if ready || skip then t <| hasRunnable := true |> else t
    | _ => t
    end in
  if node_Terminal (x_State cur) then t else t <| allTerminal := false |>.
Definition tally (def : Definition_) (current : gmap string NodeExecution) (l : list (string * NodeExecution)) : Tally :=
  fold_left (tally_one def current) l (mkTally false false false true false None).
Definition recomputeRunState (runID : string) : M unit :=
  run ← GetRun runID;
  if run_Terminal (r_State run) then mret tt
  else
    rows ← GetNodeExecutions runID;
    let current := currentAttempts rows in
    l ← ranged (map_to_list current);
    let t := tally (r_Definition run) current l in
    if anyParked t then
      UpdateState runID None RunNeedsManualAction "needs_manual_action" "run parked: an ambiguous node outcome needs operator recovery";; mret tt
    else if anyFailed t && allTerminal t then
      let '(code, msg) := match firstFailed t with Some f => (x_ErrorCode f, x_Error f) | None => ("node_failed", "a node failed") end in
      UpdateState runID None RunFailed code msg;; mret tt
    else if anyWaiting t && negb (hasRunnable t) then UpdateState runID None RunWaitingForApproval "" "";; mret tt
    else if allTerminal t then UpdateState runID None RunSucceeded "" "";; mret tt
    else mret tt.
(** A waiting attempt whose deadline passed is failed. *)
Definition expired (cur : NodeExecution) (now : Time) : bool := bool_decide (x_State cur = NodeWaiting) && negb (IsZero (x_Deadline cur)) && After now (x_Deadline cur).
Definition expire_row (cur : NodeExecution) : NodeExecution :=
  cur <| x_State := NodeFailed |> <| x_ErrorCode := "approval_expired" |> <| x_Error := "approval deadline expired" |>.
Definition expireApprovals (run : Run) : M unit :=
  if approvalTimeout e <=? 0 then mret tt
  else
    rows ← GetNodeExecutions (r_ID run);
    t ← now;
    l ← ranged (map_to_list (currentAttempts rows));
    changed ← mfold (fun changed kv =>
      if negb (expired kv.2 t) then mret changed
      else
        r ← try (Save (expire_row kv.2) (Some NodeWaiting));
        match r with inl _ => mret true | inr err => if lost_race err then mret changed else throw err end) l false;
    if (changed : bool) then recomputeRunState (r_ID run) else mret tt.
Definition finishRun (run : Run) : M (Run * option EngineError) :=
  over ← runCtxErr;
  if (over : bool) then
    r ← try (UpdateState (r_ID run) None RunCancelled "cancelled" "run cancelled");
    match r with
    | inr err => if lost_race err then final ← GetRun (r_ID run); mret (final, None) else mret (run, Some err)
    | inl _ => final ← GetRun (r_ID run); mret (final, None)
    end
  else
    r ← try (recomputeRunState (r_ID run));
    match r with
    | inr err => mret (run, Some err)
    | inl _ =>
        r ← try (GetRun (r_ID run));
        match r with
        | inr err => mret (run, Some err)
        | inl final =>
            emit (Audit (mkEvent (r_ID run) "" "run_finished" 0 (run_name (r_State final)) (r_ErrorCode final)));;
            mret (final, None)
        end
    end.

(** *** Dispatch *)

Record engineJob := mkJob { j_node : DefinitionNode; j_spec : NodeSpec; j_exec : NodeExecution; j_input : Payload }.
Record Sweep := mkSweep { sw_current : gmap string NodeExecution; sw_progress : bool; sw_jobs : list engineJob }.
#[global] Instance eta_Sweep : Eta Sweep := fun s => mkSweep (sw_current s) (sw_progress s) (sw_jobs s).

(** The error of an attempt: of its node, or of the store. *)
Inductive JobError := JNode (err : NodeErr) | JStore (err : EngineError).
Definition job_text (err : JobError) : string :=
  match err with JNode err => node_error_text err | JStore (EStore err) => storeText lib err | JStore _ => "" end.

(** A waiting node with a recorded decision is pending again. *)
Definition resume_row (cur : NodeExecution) (appr : Approval) : NodeExecution :=
  cur <| x_ResumeInput := [("decision", VString (a_Decision appr)); ("approver", VString (a_Approver appr)); ("requester", VString (a_Requester appr))] |>
      <| x_State := NodePending |> <| x_Deadline := 0 |>.
Definition resume_one (run : Run) (current : gmap string NodeExecution) (kv : string * NodeExecution) : M (gmap string NodeExecution) :=
  let cur := kv.2 in
  if negb (bool_decide (x_State cur = NodeWaiting)) then mret current
  else
    r ← try (GetApproval (r_ID run) (x_NodeID cur));
    match r with
    | inr (EStore ErrNoApprovalRecord) => mret current
    | inr err => throw err
    | inl appr =>
        let next := resume_row cur appr in
        r ← try (Save next (Some NodeWaiting));
        match r with
        | inl _ => mret (<[x_NodeID cur := next]> current)
        | inr err => if lost_race err then mret current else throw err
        end
    end.
(** A claimed node that is not dispatched is failed. *)
Definition fail_claimed (nodeID : string) (claimed : NodeExecution) (code msg : string) (sw : Sweep) : M Sweep :=
  let next := claimed <| x_State := NodeFailed |> <| x_ErrorCode := code |> <| x_Error := msg |> in
  Save next (Some NodeClaimed);;
  mret (sw <| sw_current := <[nodeID := next]> (sw_current sw) |> <| sw_progress := true |>).
Definition claim_node (run : Run) (outputs : list (string * Payload)) (nodeID : string) (resume : Payload) (sw : Sweep) : M Sweep :=
  t ← now;
  claim ← store_op (fun _ s => tryClaim s (r_ID run) nodeID (workerID e) (leaseTTL e) t);
  match claim with
  | None => mret sw
  | Some claimed =>
      let node := nodeDefByID (r_Definition run) nodeID in
      match Lookup (registry e) (n_NodeID node) (n_Version node) with
      | inl err => fail_claimed nodeID claimed "node_not_found" (node_error_text (schema_error err)) sw
      | inr spec =>
          match nodeInput run node spec outputs resume with
          | None => fail_claimed nodeID claimed "input_resolution" (fmtText lib "input_resolution" [n_ID node]) sw
          | Some input => mret (sw <| sw_jobs := sw_jobs sw ++ [mkJob node spec claimed input] |>)
          end
      end
  end.
Definition sweep_one (run : Run) (outputs : list (string * Payload)) (sw : Sweep) (nodeID : string) : M Sweep :=
  let '(ready, skip) := nodeReadiness (r_Definition run) nodeID (sw_current sw) outputs in
  match sw_current sw !! nodeID with
  | None => if skip then throw (EStore ErrNotFound) else if ready then claim_node run outputs nodeID [] sw else mret sw
  | Some cur =>
      if node_Terminal (x_State cur) || bool_decide (x_State cur = NodeWaiting) || bool_decide (x_State cur = NodeClaimed) || bool_decide (x_State cur = NodeRunning)
      then mret sw
      else if skip then
        let next := cur <| x_State := NodeSkipped |> in
        r ← try (Save next (Some NodePending));
        match r with
        | inl _ => mret (sw <| sw_current := <[nodeID := next]> (sw_current sw) |> <| sw_progress := true |>)
        | inr err => if lost_race err then mret sw else throw err
        end
      else if ready then claim_node run outputs nodeID (x_ResumeInput cur) sw
      else mret sw
  end.

(** One goroutine of the pool. *)
Definition run_job (run : Run) (jb : engineJob) : M (Payload + JobError) :=
  emit (Audit (mkEvent (r_ID run) (n_ID (j_node jb)) "node_started" (x_Attempt (j_exec jb)) (node_name NodeRunning) ""));;
  saved ← try (Save (j_exec jb <| x_State := NodeRunning |> <| x_Dispatched := true |>) (Some NodeClaimed));
  match saved with
  | inr err => mret (inr (JStore err))
  | inl _ =>
      appr ← try (GetApproval (r_ID run) (n_ID (j_node jb)));
      let policyApproved := match appr with inl a => String.eqb (a_Decision a) "approved" | inr _ => false end in
      out ← ExecuteNode (r_ID run, n_ID (j_node jb), x_Attempt (j_exec jb)) (j_spec jb) (mkIdentity (r_Principal run) "" (r_PrincipalRoles run))
              (j_input jb) (triggerConfig (r_Definition run) (j_node jb) (j_spec jb)) policyApproved;
      mret (match out with inl m => inl m | inr err => inr (JNode err) end)
  end.

(** The attempt executed, but its outcome could not be stored. *)
Definition parkPersistFailure (run : Run) (exec : NodeExecution) : M unit :=
  let next := exec <| x_State := NodeNeedsManualAction |> <| x_Ambiguous := true |> <| x_ErrorCode := "result_not_persisted" |>
                   <| x_Error := "node outcome could not be persisted; the execution result is unknown to the store" |> in
  try (Save next None);;
  emit (Audit (mkEvent (r_ID run) (x_NodeID exec) "parked" (x_Attempt exec) (node_name NodeNeedsManualAction) "result_not_persisted")).
Definition finish (run : Run) (exec next : NodeExecution) (nodeID : string) (current : gmap string NodeExecution) : M (gmap string NodeExecution) :=
  r ← try (Save next (Some (x_State exec)));
  match r with
  | inr _ => parkPersistFailure run exec;; mret current
  | inl saved =>
      emit (Audit (mkEvent (r_ID run) nodeID "node_finished" (x_Attempt saved) (node_name (x_State saved)) (x_ErrorCode saved)));;
      mret (<[nodeID := saved]> current)
  end.
(** The attempt as the store has it now. *)
Definition refresh (run : Run) (jb : engineJob) (current : gmap string NodeExecution) : M (gmap string NodeExecution) :=
  r ← try (GetNodeExecutions (r_ID run));
  mret (match r with
        | inl rows => fold_left (fun current c => if String.eqb (x_NodeID c) (n_ID (j_node jb)) && (x_Attempt c =? x_Attempt (j_exec jb))
                                                  then <[n_ID (j_node jb) := c]> current else current) rows current
        | inr _ => current
        end).
Definition set_failed (exec : NodeExecution) (state : NodeState) (code msg : string) : NodeExecution :=
  exec <| x_State := state |> <| x_ErrorCode := code |> <| x_Error := msg |>.
Definition is_truncated (out : Payload) : bool := match assoc "truncated" out with Some (VBool b) => b | _ => false end.
Definition unsafe_timeout (spec : NodeSpec) : bool :=
  String.eqb (ns_SideEffect spec) SideEffectBillable || String.eqb (ns_SideEffect spec) SideEffectExternal || String.eqb (ns_SideEffect spec) SideEffectIrreversible.
(** [recordOutcome] after the refresh. *)
Definition settle (run : Run) (jb : engineJob) (res : Payload + JobError) (current : gmap string NodeExecution) : M (gmap string NodeExecution) :=
  let nodeID := n_ID (j_node jb) in
  let exec := default (j_exec jb) (current !! nodeID) in
  let spec := j_spec jb in
  match res with
  | inl out =>
      if String.eqb (ns_ID spec) "nexaroute.control.loop_plan" && is_truncated out
      then finish run exec (set_failed exec NodeFailed "loop_truncated" "loop_plan dropped tail items; iteration would be partial") nodeID current
      else
        let '(cleaned, truncated) := sanitizeNodeOutput (credentials lib) (payloadLen lib) (Some out) in
        finish run exec (exec <| x_State := NodeSucceeded |> <| x_Output := cleaned |> <| x_OutputTruncated := truncated |>
                              <| x_ErrorCode := "" |> <| x_Error := "" |>) nodeID current
  | inr err =>
      let '(code, retryable) := match err with JNode ne => (ne_Code ne, ne_Retryable ne) | JStore _ => ("internal_error", false) end in
      let msg := job_text err in
      if String.eqb code "cancelled" then finish run exec (set_failed exec NodeCancelled code msg) nodeID current
      else if String.eqb code "approval_required" || String.eqb code "policy_required" then
        deadline ← (if 0 <? approvalTimeout e then t ← now; mret (Add t (approvalTimeout e)) else mret (x_Deadline exec));
        finish run exec (set_failed exec NodeWaiting code msg <| x_Deadline := deadline |>) nodeID current
      else if retryable && codeIn (RetryableCodes (ns_Retry spec)) code && (int64 (x_Attempt exec + 1) <? MaxAttempts (ns_Retry spec)) then
        appended ← try (Append (r_ID run) nodeID ("retry:" +:+ Itoa (x_Attempt exec)));
        match appended with
        | inr _ => parkPersistFailure run exec;; mret current
        | inl appended =>
            r ← try (Save (set_failed exec NodeFailed code msg) (Some (x_State exec)));
            match r with
            | inr _ => parkPersistFailure run exec;; mret current
            | inl _ => mret (<[nodeID := appended]> current)
            end
        end
      else if String.eqb code "timeout" && unsafe_timeout spec then
        current ← finish run exec (set_failed exec NodeNeedsManualAction "ambiguous_timeout"
          "node timed out; the external outcome is unknown and the node must not be auto-retried" <| x_Ambiguous := true |>) nodeID current;
        emit (Audit (mkEvent (r_ID run) nodeID "parked" (x_Attempt exec) (node_name NodeNeedsManualAction) "ambiguous_timeout"));;
        mret current
      else finish run exec (set_failed exec NodeFailed code msg) nodeID current
  end.
Definition recordOutcome (run : Run) (jb : engineJob) (res : Payload + JobError) (current : gmap string NodeExecution) : M (gmap string NodeExecution) :=
  current ← refresh run jb current; settle run jb res current.
(** The pool in the order it happens to run; outcomes are recorded in job order. *)
Definition runJobs (run : Run) (jobs : list engineJob) (current : gmap string NodeExecution) : M unit :=
  order ← ranged (imap pair jobs);
  results ← mfold (fun results ij => r ← run_job run ij.2; mret (<[ij.1 := r]> results)) order (∅ : gmap nat (Payload + JobError));
  mfold (fun current ij =>
    match results !! ij.1 with
    | Some r => recordOutcome run ij.2 r current
    | None => mret current
    end) (imap pair jobs) current;;
  mret tt.
Definition sweep (run : Run) : M bool :=
  rows ← GetNodeExecutions (r_ID run);
  let current := currentAttempts rows in
  let outputs := outputs_of current in
  l ← ranged (map_to_list current);
  current ← mfold (resume_one run) l current;
  sw ← mfold (sweep_one run outputs) (default [] (TopologicalOrder (r_Definition run))) (mkSweep current false []);
  match sw_jobs sw with
  | [] => mret (sw_progress sw)
  | jobs => runJobs run jobs (sw_current sw);; mret true
  end.

(** *** Driving a run *)

Fixpoint sweep_loop (fuel : nat) (runID : string) (run : Run) : M (Run * option EngineError) :=
  match fuel with
  | O => throw OutOfFuel
  | S fuel =>
      r ← try (sweep run);
      match r with
      | inr err => over ← runCtxErr; if (over : bool) then finishRun run else mret (run, Some err)
      | inl progress =>
          run ← GetRun runID;
          if run_Terminal (r_State run) then mret (run, None)
          else if negb progress then finishRun run
          else over ← runCtxErr; if (over : bool) then finishRun run else sweep_loop fuel runID run
      end
  end.
(** [inFlight[runID] = true] unless it is already. *)
Definition enter (runID : string) : M bool :=
  access (fun _ s => if bool_decide (runID ∈ inFlight s) then (s, false) else (s <| inFlight := {[runID]} ∪ inFlight s |>, true)).
Definition leave (runID : string) : M unit := access (fun _ s => (s <| inFlight := inFlight s ∖ {[runID]} |>, tt)).
(** A semaphore is made once per definition, with the capacity of its first run. *)
Definition acquire (definitionID : string) (maxConcurrent : Z) : M bool :=
  access (fun _ s =>
    let '(capacity, held) := default (maxConcurrent, 0) (semaphores s !! definitionID) in
    if held <? capacity then (s <| semaphores := <[definitionID := (capacity, held + 1)]> (semaphores s) |>, true)
    else (s <| semaphores := <[definitionID := (capacity, held)]> (semaphores s) |>, false)).
Definition release (definitionID : string) : M unit :=
  access (fun _ s => match semaphores s !! definitionID with
                     | Some (capacity, held) => (s <| semaphores := <[definitionID := (capacity, held - 1)]> (semaphores s) |>, tt)
                     | None => (s, tt)
                     end).
(** [defer]. *)
Definition finally {A} (m : M A) (cleanup : M unit) : M A :=
  r ← try m; cleanup;; match r with inl a => mret a | inr err => throw err end.
(** The part of [Execute] under the semaphore. *)
Definition drive (fuel : nat) (runID : string) (run : Run) : M (Run * option EngineError) :=
  r ← try (expireApprovals run);
  match r with
  | inr err => mret (run, Some err)
  | inl _ =>
      run ← GetRun runID;
      if run_Terminal (r_State run) then mret (run, None)
      else
        run ← match r_State run with
              | RunCreated => UpdateState runID (Some RunCreated) RunRunning "" ""
              | RunWaitingForApproval => UpdateState runID (Some RunWaitingForApproval) RunRunning "" ""
              | _ => mret run
              end;
        sweep_loop fuel runID run
  end.
Definition Execute (fuel : nat) (runID : string) : M (Run * option EngineError) :=
  run ← GetRun runID;
  if run_Terminal (r_State run) then mret (run, None)
  else if bool_decide (r_State run = RunNeedsManualAction) then mret (run, Some RunParked)
  else
    init ← try (requireInitializedRun run);
    match init with
    | inr err => mret (run, Some err)
    | inl _ =>
        entered ← enter runID;
        if negb entered then mret (run, Some RunInFlight)
        else finally
          (let maxConcurrent := s_MaxConcurrentRuns (d_Settings (r_Definition run)) in
           let maxConcurrent := if maxConcurrent <=? 0 then 1 else maxConcurrent in
           got ← acquire (r_DefinitionID run) maxConcurrent;
           if negb got then mret (run, Some DefinitionBusy)
           else finally (drive fuel runID run) (release (r_DefinitionID run)))
          (leave runID)
    end.

(** *** Operators *)

Definition DecideApproval (runID nodeID approver decision : string) : M Approval :=
  if negb (String.eqb decision "approved") && negb (String.eqb decision "rejected") then throw BadApprovalDecision
  else if String.eqb approver "" then throw EmptyApprover
  else
    run ← GetRun runID;
    if negb (String.eqb (r_Principal run) "") && String.eqb approver (r_Principal run) then throw ApproverIsRequester
    else
      rows ← GetNodeExecutions runID;
      match currentAttempts rows !! nodeID with
      | None => throw NotWaiting
      | Some cur =>
          if negb (bool_decide (x_State cur = NodeWaiting)) then throw NotWaiting
          else
            appr ← store_op (fun now s => recordApproval s (mkApproval runID nodeID (r_Principal run) approver decision 0) now);
            let node := nodeDefByID (r_Definition run) nodeID in
            let gated := match Lookup (registry e) (n_NodeID node) (n_Version node) with inr spec => ns_RequiresOperatorPolicy spec | inl _ => false end in
            if String.eqb decision "rejected" && gated then
              Save (set_failed cur NodeFailed "approval_rejected" "operator policy approval rejected") (Some NodeWaiting);;
              try (recomputeRunState runID);;
              mret appr
            else
              Save (resume_row cur (mkApproval runID nodeID (r_Principal run) approver decision 0)) (Some NodeWaiting);;
              (if bool_decide (r_State run = RunWaitingForApproval)
               then try (UpdateState runID (Some RunWaitingForApproval) RunRunning "" "");; mret tt else mret tt);;
              mret appr
      end.
Definition CancelRun (runID : string) : M Run :=
  run ← GetRun runID;
  if run_Terminal (r_State run) then mret run
  else
    rows ← GetNodeExecutions runID;
    l ← ranged (map_to_list (currentAttempts rows));
    mfold (fun _ kv =>
      if node_Terminal (x_State kv.2) then mret tt
      else try (Save (set_failed kv.2 NodeCancelled "cancelled" "run cancelled") None);; mret tt) l tt;;
    r ← try (UpdateState runID None RunCancelled "cancelled" "run cancelled");
    match r with
    | inl updated => mret updated
    | inr err => if lost_race err then GetRun runID else throw err
    end.
Definition ForceFailRun (runID code msg : string) : M Run :=
  UpdateState runID None RunFailed (if String.eqb code "" then "operator_force_failed" else code) msg.

(** *** Recovery *)

Definition live_lease (cur : NodeExecution) (now : Time) : bool :=
  negb (String.eqb (x_LeaseOwner cur) "") && negb (IsZero (x_LeaseUntil cur)) && After (x_LeaseUntil cur) now.
Definition unlease (x : NodeExecution) : NodeExecution := x <| x_LeaseOwner := "" |> <| x_LeaseUntil := 0 |>.
(** What becomes of an attempt that was interrupted: the row to store and
    whether it is parked. *)
Definition recovered_row (def : Definition_) (cur : NodeExecution) : NodeExecution * bool :=
  if negb (x_Dispatched cur) then (unlease (cur <| x_State := NodePending |>), false)
  else
    let node := nodeDefByID def (x_NodeID cur) in
    match Lookup (registry e) (n_NodeID node) (n_Version node) with
    | inr spec =>
        if String.eqb (ns_SideEffect spec) SideEffectNone || String.eqb (ns_SideEffect spec) SideEffectRead
        then (unlease (cur <| x_State := NodePending |> <| x_Dispatched := false |>), false)
        else (unlease (set_failed cur NodeNeedsManualAction "ambiguous_recovery" "run interrupted after dispatch; the external outcome is unknown" <| x_Ambiguous := true |>), true)
    | inl _ => (unlease (set_failed cur NodeNeedsManualAction "ambiguous_recovery" "run interrupted after dispatch; the external outcome is unknown" <| x_Ambiguous := true |>), true)
    end.
(** The flags are [changed] and [anyLiveLease]. *)
Definition recover_one (run : Run) (t : Time) (flags : bool * bool) (kv : string * NodeExecution) : M (bool * bool) :=
  let cur := kv.2 in
  match x_State cur with
  | NodeWaiting =>
      if (0 <? approvalTimeout e) && expired cur t then
        r ← try (Save (expire_row cur) (Some NodeWaiting));
        mret (match r with inl _ => (true, flags.2) | inr _ => flags end)
      else mret flags
  | NodeClaimed | NodeRunning =>
      if live_lease cur t then mret (flags.1, true)
      else
        let '(next, parked) := recovered_row (r_Definition run) cur in
        r ← try (Save next (Some (x_State cur)));
        match r with
        | inr _ => mret flags
        | inl _ =>
            (if parked : bool
             then emit (Audit (mkEvent (r_ID run) (x_NodeID cur) "recovered" (x_Attempt cur) (node_name NodeNeedsManualAction) "ambiguous_recovery"))
             else mret tt);;
            mret (true, flags.2)
        end
  | _ => mret flags
  end.
Definition recover_run (t : Time) (run : Run) : M unit :=
  if run_Terminal (r_State run) || bool_decide (r_State run = RunNeedsManualAction) || bool_decide (r_State run = RunCreated) then mret tt
  else
    rows ← GetNodeExecutions (r_ID run);
    l ← ranged (map_to_list (currentAttempts rows));
    flags ← mfold (recover_one run t) l (false, false);
    if fst flags && negb (snd flags) then try (recomputeRunState (r_ID run));; mret tt else mret tt.
Definition Recover : M unit :=
  runs ← store_get (fun s => inl (listRuns s (mkFilter "" None 0)));
  t ← now;
  mfold (fun _ run => recover_run t run) runs tt.
End engine.
