(* ===== verification/EngineLogic.v ===== *)
(** * Reasoning about the workflow engine

    [follows]: what every program of [Engine.v] does to the store, whatever its
    environment and wherever it stops.  Finished runs and attempts keep their
    state, rows keep their place and approvals stand.

    Side effects happen at most once: across any number of engine calls on one run,
    each of which may be cut short by the end of the process at any step, and with
    other engines dispatching, recovering and settling in between ([peer_step]), the
    [Run] function of a node with side effects is called at most once per attempt,
    counting the calls of all.  The invariant ties the calls and the dispatches in
    hand to the rows: an attempt that can still be dispatched was never run and is in
    nobody's hand. *)

From S2P Require Import Prelude Text Workflow FlowStore FlowProofs Authz Redact Engine.

Definition no_hash (d : Definition_) : option string := None.

(** ** Programs only add *)

Section follows.
Context (env : Env) (lib : Lib) (e : Engine).
Hypothesis others_keep : forall n s, keeps (store s) (store (others env n s)).

Definition follows {A} (m : M A) : Prop := forall st, keeps (store (sh st)) (store (sh (m st).1)).

Lemma keeps_same s : keeps s s.
Proof. by apply keeps_refl. Qed.

Lemma follows_ret {A} (a : A) : follows (mret a).
Proof. intros st. apply keeps_same. Qed.
Lemma follows_throw {A} err : follows (throw (A := A) err).
Proof. intros st. apply keeps_same. Qed.
Lemma follows_bind {A B} (m : M A) (f : A -> M B) : follows m -> (forall a, follows (f a)) -> follows (m ≫= f).
Proof.
  intros Hm Hf st. unfold mbind, M_bind. specialize (Hm st). destruct (m st) as [st' [a|err|]]; cbn in *; [|done..].
  eapply keeps_trans; [exact Hm|apply Hf].
Qed.
Lemma follows_try {A} (m : M A) : follows m -> follows (try m).
Proof. intros Hm st. unfold try. specialize (Hm st). destruct (m st) as [st' [a|err|]]; exact Hm. Qed.
Lemma follows_emit ev : follows (emit ev).
Proof. intros st. apply keeps_same. Qed.
Lemma follows_mfold {A S} (f : S -> A -> M S) : (forall s a, follows (f s a)) -> forall l s, follows (mfold f l s).
Proof. intros Hf l. induction l as [|x l IH]; intros s; cbn; [apply follows_ret|]. by apply follows_bind. Qed.
Lemma follows_step : follows (step env).
Proof. intros st. unfold step. destruct (crash env (tick st)); apply keeps_same. Qed.
Lemma follows_access {A} (f : nat -> Shared -> Shared * A) : (forall n s, keeps (store s) (store (f n s).1)) -> follows (access env f).
Proof.
  intros Hf. apply follows_bind; [apply follows_step|]. intros n st. cbn. specialize (Hf n (others env n (sh st))).
  destruct (f n (others env n (sh st))) as [s a]. cbn in *. eapply keeps_trans; [apply others_keep|exact Hf].
Qed.
Lemma follows_lift {A} (r : A + StoreError) : follows (lift r).
Proof. destruct r; [apply follows_ret|apply follows_throw]. Qed.
Lemma follows_get {A} (f : storeState -> A + StoreError) : follows (store_get env f).
Proof. apply follows_bind; [|intros; apply follows_lift]. apply follows_access. intros. apply keeps_same. Qed.
Lemma follows_op {A} (f : Time -> storeState -> Outcome A) : (forall t s, keeps s (f t s).1) -> follows (store_op env f).
Proof.
  intros Hf. apply follows_bind; [|intros; apply follows_lift]. apply follows_access. intros n s. specialize (Hf (clock env n) (store s)).
  by destruct (f (clock env n) (store s)).
Qed.
End follows.

Create HintDb follows.
#[export] Hint Resolve follows_ret follows_throw follows_try follows_emit follows_step follows_lift follows_get : follows.
(** Programs are walked through by their shape. *)
Ltac follow_step :=
  match goal with
  | |- follows (_ ≫= _) => apply follows_bind; [|intros]
  | |- follows (mfold _ _ _) => apply follows_mfold; intros
  | |- follows (try _) => apply follows_try
  | |- follows (match ?x with _ => _ end) => destruct x
  | |- follows _ => solve [auto with follows nocore]
  end.
Ltac follow := intros; cbv zeta; repeat follow_step.

Section programs.
Context (env : Env) (lib : Lib) (e : Engine).
Hypothesis others_keep : forall n s, keeps (store s) (store (others env n s)).

Lemma follows_save exec expected : follows (Save env exec expected).
Proof. apply follows_op; [done|]. intros t s. exact (keeps_step no_hash s (SaveNodeExecution exec expected t) I). Qed.
Lemma follows_update runID expected state code msg : follows (UpdateState env runID expected state code msg).
Proof. apply follows_op; [done|]. intros t s. exact (keeps_step no_hash s (UpdateRunState runID expected state code msg t) I). Qed.
Lemma follows_append runID nodeID opID : follows (Append env runID nodeID opID).
Proof. apply follows_op; [done|]. intros t s. exact (keeps_step no_hash s (AppendNodeExecution _ (Some NodePending) t) I). Qed.
Lemma follows_claim runID nodeID owner ttl t : follows (store_op env (fun _ s => tryClaim s runID nodeID owner ttl t)).
Proof. apply follows_op; [done|]. intros t' s. exact (keeps_step no_hash s (TryClaim runID nodeID owner ttl t) I). Qed.
Lemma follows_create run given : follows (store_op env (fun t s => createRun s run given t)).
Proof. apply follows_op; [done|]. intros t s. exact (keeps_step no_hash s (FlowStore.CreateRun run given t) I). Qed.
Lemma follows_record appr : follows (store_op env (fun t s => recordApproval s appr t)).
Proof. apply follows_op; [done|]. intros t s. exact (keeps_step no_hash s (RecordApproval appr t) I). Qed.
#[local] Hint Resolve follows_save follows_update follows_append follows_claim follows_create follows_record : follows.

Lemma follows_getrun id : follows (GetRun env id).
Proof. by apply follows_get. Qed.
Lemma follows_getnodes id : follows (GetNodeExecutions env id).
Proof. by apply follows_get. Qed.
Lemma follows_getapproval a b : follows (GetApproval env a b).
Proof. by apply follows_get. Qed.
Lemma follows_now : follows (now env).
Proof. unfold now. follow. Qed.
Lemma follows_ctx : follows (runCtxErr env).
Proof. unfold runCtxErr. follow. Qed.
Lemma follows_ranged {A} (l : list A) : follows (ranged env l).
Proof. unfold ranged. follow. Qed.
#[local] Hint Resolve follows_getrun follows_getnodes follows_getapproval follows_now follows_ctx follows_ranged : follows.

Lemma follows_initialized run : follows (requireInitializedRun env run).
Proof. unfold requireInitializedRun. follow. Qed.
#[local] Hint Resolve follows_initialized : follows.
Lemma follows_wait run : forall n c, follows (wait_loop env n c run).
Proof. induction n as [|n IH]; intros c; cbn [wait_loop]; follow. Qed.
#[local] Hint Resolve follows_wait : follows.
Lemma follows_createrun pub principal input key : follows (CreateRun env lib e pub principal input key).
Proof. unfold CreateRun, waitForInitializedRun, appendInitial. follow. Qed.
Lemma follows_recompute runID : follows (recomputeRunState env runID).
Proof. unfold recomputeRunState. follow. Qed.
#[local] Hint Resolve follows_recompute : follows.
Lemma follows_expire run : follows (expireApprovals env e run).
Proof. unfold expireApprovals. follow. Qed.
Lemma follows_finishrun run : follows (finishRun env run).
Proof. unfold finishRun. follow. Qed.
Lemma follows_park run exec : follows (parkPersistFailure env run exec).
Proof. unfold parkPersistFailure. follow. Qed.
#[local] Hint Resolve follows_expire follows_finishrun follows_park : follows.
Lemma follows_finish run exec next nodeID current : follows (finish env run exec next nodeID current).
Proof. unfold finish. follow. Qed.
Lemma follows_runjob run jb : follows (run_job env lib run jb).
Proof. unfold run_job, ExecuteNode. follow. Qed.
#[local] Hint Resolve follows_finish follows_runjob : follows.
Lemma follows_settle run jb res current : follows (settle env lib e run jb res current).
Proof. unfold settle. follow. Qed.
#[local] Hint Resolve follows_settle : follows.
Lemma follows_record_outcome run jb res current : follows (recordOutcome env lib e run jb res current).
Proof. unfold recordOutcome, refresh. follow. Qed.
#[local] Hint Resolve follows_record_outcome : follows.
Lemma follows_runjobs run jobs current : follows (runJobs env lib e run jobs current).
Proof. unfold runJobs. follow. Qed.
#[local] Hint Resolve follows_runjobs : follows.
Lemma follows_resume run current kv : follows (resume_one env run current kv).
Proof. unfold resume_one. follow. Qed.
Lemma follows_sweepone run outputs sw nodeID : follows (sweep_one env lib e run outputs sw nodeID).
Proof. unfold sweep_one, claim_node, fail_claimed. follow. Qed.
#[local] Hint Resolve follows_resume follows_sweepone : follows.
Lemma follows_sweep run : follows (sweep env lib e run).
Proof. unfold sweep. follow. Qed.
#[local] Hint Resolve follows_sweep : follows.
Lemma follows_sweeploop runID : forall fuel run, follows (sweep_loop env lib e fuel runID run).
Proof. induction fuel as [|fuel IH]; intros run; cbn [sweep_loop]; follow. Qed.
#[local] Hint Resolve follows_sweeploop : follows.
Lemma follows_shared {A} (f : nat -> Shared -> Shared * A) : (forall n s, store (f n s).1 = store s) -> follows (access env f).
Proof. intros H. apply follows_access; [done|]. intros n s. rewrite H. apply keeps_same. Qed.
Lemma follows_drive fuel runID run : follows (drive env lib e fuel runID run).
Proof. unfold drive. follow. Qed.
Lemma follows_finally {A} (m : M A) c : follows m -> follows c -> follows (finally m c).
Proof. intros. unfold finally. follow. Qed.
Lemma follows_execute fuel runID : follows (Execute env lib e fuel runID).
Proof.
  unfold Execute. apply follows_bind; [auto with follows|intros run]. destruct (run_Terminal _); [auto with follows|].
  destruct (bool_decide _); [auto with follows|]. apply follows_bind; [auto with follows|intros []]; [|auto with follows].
  apply follows_bind; [apply follows_shared; intros n s; by case_match|intros []]; cbn [negb]; [|auto with follows].
  apply follows_finally; [|by apply follows_shared].
  apply follows_bind; [apply follows_shared; intros n s; by repeat case_match|intros []]; cbn [negb]; [|auto with follows].
  apply follows_finally; [apply follows_drive|]. apply follows_shared. intros n s. by repeat case_match.
Qed.
Lemma follows_decide runID nodeID approver decision : follows (DecideApproval env e runID nodeID approver decision).
Proof. unfold DecideApproval. follow. Qed.
Lemma follows_cancel runID : follows (CancelRun env runID).
Proof. unfold CancelRun. follow. Qed.
Lemma follows_force runID code msg : follows (ForceFailRun env runID code msg).
Proof. unfold ForceFailRun. follow. Qed.
Lemma follows_recoverone run t flags kv : follows (recover_one env e run t flags kv).
Proof. unfold recover_one. follow. Qed.
#[local] Hint Resolve follows_recoverone : follows.
Lemma follows_recover : follows (Recover env e).
Proof. unfold Recover, recover_run. follow. Qed.
End programs.

(** ** Rows of a run *)

Definition open_state (s : NodeState) : bool := match s with NodePending | NodeClaimed | NodeWaiting => true | _ => false end.
(** No attempt number can overflow. *)
Definition fits (s : storeState) : Prop := forall id, Z.of_nat (length (rows s id)) < 2 ^ 62.

Lemma keeps_length s s' id : keeps s s' -> (length (rows s id) <= length (rows s' id))%nat.
Proof.
  intros H. destruct (decide (length (rows s id) <= length (rows s' id))%nat) as [|Hn]; [done|]. exfalso.
  destruct (lookup_lt_is_Some_2 (rows s id) (length (rows s' id)) ltac:(lia)) as [x Hx].
  destruct (keeps_rows _ _ H id _ x Hx) as (x' & Hx' & _). apply lookup_lt_Some in Hx'. lia.
Qed.
Lemma fits_keeps s s' : keeps s s' -> fits s' -> fits s.
Proof. intros H Hf id. specialize (Hf id). pose proof (keeps_length s s' id H). lia. Qed.

Lemma numbered_unique n l i j x y :
  numbered n l -> l !! i = Some x -> l !! j = Some y -> x_NodeID x = n -> x_NodeID y = n -> x_Attempt x = x_Attempt y -> i = j.
Proof.
  intros Hn. assert (NoDup (map x_Attempt (node_rows n l))) as Hd.
  { rewrite Hn. apply (NoDup_fmap_2 Z.of_nat). apply NoDup_seq. }
  clear Hn. revert i j. induction l as [|z l IH]; intros [|i] [|j] Hi Hj Hx Hy Ha; try done; cbn in Hi, Hj.
  - exfalso. injection Hi as ->. cbn in Hd. unfold of_node in Hd at 1. rewrite Hx, String.eqb_refl in Hd. cbn in Hd.
    apply NoDup_cons in Hd as [Hni _]. apply Hni. rewrite Ha. apply list_elem_of_fmap. exists y. split; [done|].
    apply list_elem_of_In, filter_In. split; [apply list_elem_of_In; by eapply list_elem_of_lookup_2|]. unfold of_node. by rewrite Hy, String.eqb_refl.
  - exfalso. injection Hj as ->. cbn in Hd. unfold of_node in Hd at 1. rewrite Hy, String.eqb_refl in Hd. cbn in Hd.
    apply NoDup_cons in Hd as [Hni _]. apply Hni. rewrite <- Ha. apply list_elem_of_fmap. exists x. split; [done|].
    apply list_elem_of_In, filter_In. split; [apply list_elem_of_In; by eapply list_elem_of_lookup_2|]. unfold of_node. by rewrite Hx, String.eqb_refl.
  - f_equal. apply IH; try done. cbn in Hd. destruct (of_node n z); [|done]. cbn in Hd. by apply NoDup_cons in Hd as [_ ?].
Qed.

Lemma replace_row_dispatched cur exec now : x_Dispatched (replace_row cur exec now) = x_Dispatched exec.
Proof. unfold replace_row. destruct exec, cur. cbn. unfold node_Terminal. repeat case_match; done. Qed.

Section once.
Context (reg : Registry) (R : string) (D : Definition_).

(** A node whose effects cannot be repeated freely. *)
Definition has_effects (spec : NodeSpec) : bool := negb (String.eqb (ns_SideEffect spec) SideEffectNone || String.eqb (ns_SideEffect spec) SideEffectRead).
Definition side_effecting (n : string) : bool :=
  let node := nodeDefByID D n in
  match Lookup reg (n_NodeID node) (n_Version node) with inr spec => has_effects spec | inl _ => false end.

(** How often an attempt of the run was run. *)
Definition is_ran (n : string) (k : Z) (ev : Event) : bool :=
  match ev with Ran r n' k' => String.eqb r R && String.eqb n' n && (k' =? k) | Audit _ => false end.
Definition ran (lg : list Event) (n : string) (k : Z) : nat := length (List.filter (is_ran n k) lg).
Lemma ran_app lg ev n k : ran (lg ++ [ev]) n k = (ran lg n k + if is_ran n k ev then 1 else 0)%nat.
Proof. unfold ran. rewrite List.filter_app, length_app. cbn. by destruct (is_ran n k ev). Qed.

Definition row_at (s : storeState) (n : string) (k : Z) (x : NodeExecution) : Prop :=
  exists i, rows s R !! i = Some x /\ x_NodeID x = n /\ x_Attempt x = k.

(** The calls made by all engines, and the dispatches that others have in hand. *)
Record View := mkView { v_ran : list Event; v_held : gset (string * string * Z) }.
(** An attempt that is there and, if it has side effects, is not open. *)
Definition past (s : storeState) (n : string) (k : Z) : Prop := exists x, row_at s n k x /\ (side_effecting n = true -> open_state (x_State x) = false).
(** An attempt that nobody has run and nobody else is about to run. *)
Definition free (v : View) (n : string) (k : Z) : Prop := ran (v_ran v) n k = 0%nat /\ (side_effecting n = true -> (R, n, k) ∉ v_held v).

Record Pinv (s : storeState) (v : View) : Prop := {
  pi_ok : store_ok s (2 ^ 62 - 1);
  pi_def : exists r, runs s !! R = Some r /\ r_Definition r = D;
  pi_once : forall n k, side_effecting n = true -> (ran (v_ran v) n k <= 1)%nat;
  pi_open : forall n k x, row_at s n k x -> side_effecting n = true -> open_state (x_State x) = true -> ran (v_ran v) n k = 0%nat;
  pi_exists : forall n k, ran (v_ran v) n k <> 0%nat -> exists x, row_at s n k x;
  pi_dispatched : forall n k x, row_at s n k x -> x_State x = NodeRunning -> x_Dispatched x = true;
  pi_held : forall n k, (R, n, k) ∈ v_held v -> past s n k /\ (side_effecting n = true -> ran (v_ran v) n k = 0%nat) }.

(** ** Steps that keep it *)

(** A store operation that cannot reopen an attempt that was run. *)
Definition allowed (v : View) (op : FlowOp) : Prop :=
  match op with
  | Prune _ => False
  | SaveNodeExecution exec expected _ =>
      x_RunID exec = R ->
      (x_State exec = NodeRunning -> x_Dispatched exec = true)
      /\ (open_state (x_State exec) = true -> side_effecting (x_NodeID exec) = true ->
          free v (x_NodeID exec) (x_Attempt exec) \/ exists st, expected = Some st /\ open_state st = true)
  | AppendNodeExecution exec given _ => x_RunID exec = R -> given <> Some NodeRunning
  | _ => True
  end.
(** What can be done to the run by anybody at any time: anything but retention,
    dispatching, and reopening an attempt with side effects that is not open. *)
Definition harmless (op : FlowOp) : Prop :=
  match op with
  | Prune _ => False
  | SaveNodeExecution exec expected _ =>
      x_RunID exec = R -> x_State exec <> NodeRunning
        /\ (open_state (x_State exec) = true -> side_effecting (x_NodeID exec) = true -> exists st, expected = Some st /\ open_state st = true)
  | AppendNodeExecution exec given _ => x_RunID exec = R -> given <> Some NodeRunning
  | _ => True
  end.
Lemma harmless_allowed v op : harmless op -> allowed v op.
Proof. destruct op; try done. cbn. intros H HR. destruct (H HR) as [H1 H2]. split; [done|auto]. Qed.
Lemma allowed_no_prune v op : allowed v op -> no_prune op.
Proof. by destruct op. Qed.

Lemma store_ok_fits s k : store_ok s k -> fits s -> store_ok s (2 ^ 62 - 1).
Proof.
  intros [H1 H2 H3 H4 H5] Hf. split; try done. intros id l Hl. destruct (H3 id l Hl) as (? & ? & ? & _). split_and!; try done.
  specialize (Hf id). unfold rows in Hf. rewrite Hl in Hf. cbn in Hf. lia.
Qed.
Lemma step_ok_fits hash s op : store_ok s (2 ^ 62 - 1) -> fits (flow_step hash s op) -> store_ok (flow_step hash s op) (2 ^ 62 - 1).
Proof. intros H Hf. apply (store_ok_fits _ (2 ^ 62 - 1 + 1)); [|done]. apply step_ok; [done|lia]. Qed.

(** The definition of a stored run never changes. *)
Lemma step_def hash s op r : no_prune op -> runs s !! R = Some r -> exists r', runs (flow_step hash s op) !! R = Some r' /\ r_Definition r' = r_Definition r.
Proof.
  intros Hp Hr. destruct op; cbn [flow_step no_prune] in *; try done.
  - exists r. unfold saveDraft. by case_match.
  - exists r. unfold publish, publishIfUnchanged. by repeat case_match.
  - exists r. unfold publishIfUnchanged. by repeat case_match.
  - exists r. unfold supersedeRevision. by repeat case_match.
  - exists r. unfold createRun. destruct (String.eqb _ _); [done|].
    destruct (bool_decide_reflect (is_Some (runs s !! r_ID run))) as [|Hnew]; [done|]. destruct (negb _ && _); [done|]. cbv zeta.
    destruct ((0 <? _) && _); [done|]. cbn [fst]. destruct (String.eqb _ _); cbn; (rewrite lookup_insert_ne; [done|intros E; apply Hnew; rewrite E; eauto]).
  - unfold updateRunState. destruct (runs s !! runID) as [r0|] eqn:E0; [|eauto]. destruct (_ && _); [eauto|]. destruct (_ && _); [eauto|].
    destruct (negb _); [eauto|]. cbn [fst]. cbn. destruct (decide (runID = R)) as [->|]; [|exists r; by rewrite lookup_insert_ne].
    exists (move_run r0 state code msg now). rewrite lookup_insert_eq. split; [done|]. simplify_eq. unfold move_run. by repeat case_match.
  - exists r. unfold appendNodeExecution. by repeat case_match.
  - exists r. unfold saveNodeExecution. by repeat case_match.
  - exists r. unfold tryClaim. by repeat case_match.
  - exists r. unfold releaseLease. by repeat case_match.
  - exists r. unfold recordApproval. by repeat case_match.
Qed.

(** What a step does to the rows of the run: a row keeps its key; it is open only
    if it was or if its attempt was never run; it is running only if that was
    recorded; a new row has a key that was never run. *)
Record row_rel (s s' : storeState) (v : View) : Prop := {
  rr_back : forall n k x', row_at s' n k x' ->
    (x_State x' = NodeRunning -> x_Dispatched x' = true)
    /\ (free v n k \/ exists x, row_at s n k x /\ (open_state (x_State x') = true -> side_effecting n = true -> open_state (x_State x) = true));
  rr_forth : forall n k x, row_at s n k x -> exists x', row_at s' n k x' }.

Lemma row_rel_same s s' v : Pinv s v -> rows s' R = rows s R -> row_rel s s' v.
Proof.
  intros HP E. split; unfold row_at; rewrite E; [|eauto]. intros n k x' Hx. split; [by apply (pi_dispatched s v HP n k)|]. right. eauto.
Qed.

Lemma row_rel_set s v runID i cur x :
  Pinv s v -> rows s runID !! i = Some cur -> x_NodeID x = x_NodeID cur -> x_Attempt x = x_Attempt cur ->
  (runID = R -> (x_State x = NodeRunning -> x_Dispatched x = true)
    /\ (open_state (x_State x) = true -> side_effecting (x_NodeID cur) = true -> free v (x_NodeID cur) (x_Attempt cur) \/ open_state (x_State cur) = true)) ->
  row_rel s (set_row s runID i x) v.
Proof.
  intros HP Hi Hn Ha H. destruct (decide (runID = R)) as [->|Hne].
  2:{ apply row_rel_same; [done|]. unfold rows at 1. cbn. by rewrite lookup_insert_ne. }
  destruct (H eq_refl) as [H1 H2]. assert (rows (set_row s R i x) R = <[i := x]> (rows s R)) as E by (unfold rows at 1; cbn; by rewrite lookup_insert_eq).
  split; unfold row_at; rewrite E.
  - intros n k x' (j & Hj & <- & <-). apply list_lookup_insert_Some in Hj as [(<- & <- & _)|[Hij Hj]].
    + split; [done|]. rewrite Hn, Ha in *. destruct (side_effecting (x_NodeID cur)) eqn:Es; [|right; exists cur; split; [eauto|done]].
      destruct (open_state (x_State x)) eqn:Eo; [|right; exists cur; split; [eauto|done]].
      destruct (H2 eq_refl eq_refl) as [Hfree|Ho]; [by left|]. right. exists cur. split; eauto.
    + split; [apply (pi_dispatched s v HP (x_NodeID x') (x_Attempt x')); by exists j|]. right. exists x'. eauto.
  - intros n k y (j & Hj & Hyn & Hyk). destruct (decide (i = j)) as [<-|Hij].
    + simplify_eq. exists x, i. rewrite list_lookup_insert_eq by (by eapply lookup_lt_Some). split_and!; [done|congruence|congruence].
    + exists y, j. by rewrite list_lookup_insert_ne.
Qed.

Lemma row_rel_append s v exec given now :
  Pinv s v -> fits (appendNodeExecution s exec given now).1 -> (x_RunID exec = R -> given <> Some NodeRunning) ->
  row_rel s (appendNodeExecution s exec given now).1 v.
Proof.
  intros HP Hf Hg. unfold appendNodeExecution in *. destruct (runs s !! x_RunID exec) eqn:Er; [|by apply row_rel_same].
  destruct (if String.eqb (x_AppendOperationID exec) "" then None else _); [by apply row_rel_same|].
  set (attempt := match currentAttempt s (x_RunID exec) (x_NodeID exec) with Some (_, cur) => _ | None => 0 end) in *. cbn [fst] in *.
  set (row := exec <| x_Attempt := attempt |> <| x_IdempotencyKey := _ |> <| x_CreatedAt := now |> <| x_UpdatedAt := now |> <| x_State := _ |>) in *.
  change (x_RunID row) with (x_RunID exec) in *.
  destruct (decide (x_RunID exec = R)) as [ER|Hne].
  2:{ apply row_rel_same; [done|]. unfold rows at 1. cbn. by rewrite lookup_insert_ne. }
  rewrite ER in *. set (s' := s <| nodes := _ |>) in *.
  assert (rows s' R = rows s R ++ [row]) as E by (unfold rows at 1; cbn; by rewrite lookup_insert_eq).
  assert (forall x, row_at s (x_NodeID exec) attempt x -> False) as Hnew.
  { intros x (i & Hi & Hxn & Hxa).
    destruct (ok_rows _ _ (pi_ok s v HP) _ _ (rows_get _ _ _ _ Hi)) as (_ & _ & Hnum & Hlen).
    pose proof (best_row_numbered _ _ (Hnum (x_NodeID exec))) as Hb.
    assert (In x (node_rows (x_NodeID exec) (rows s R))) as Hin.
    { apply filter_In. split; [apply list_elem_of_In; by eapply list_elem_of_lookup_2|]. unfold of_node. by rewrite Hxn, String.eqb_refl. }
    assert (0 <= x_Attempt x < Z.of_nat (length (node_rows (x_NodeID exec) (rows s R)))) as Hxlt.
    { apply (in_map x_Attempt) in Hin. rewrite (Hnum (x_NodeID exec)) in Hin. apply in_map_iff in Hin as (m & <- & Hm%in_seq). lia. }
    assert (attempt = Z.of_nat (length (node_rows (x_NodeID exec) (rows s R)))) as Hat; [|lia].
    unfold attempt, currentAttempt. rewrite ER. destruct (best_row _ _ 0 None) as [[j c]|]; [|rewrite Hb in Hxlt; cbn in Hxlt; lia]. rewrite <- Hb. apply int64_id.
    assert (length (node_rows (x_NodeID exec) (rows s R)) <= length (rows s R))%nat by apply List.filter_length_le. unfold in_int64. lia. }
  assert (free v (x_NodeID exec) attempt) as H0.
  { split.
    - destruct (decide (ran (v_ran v) (x_NodeID exec) attempt = 0%nat)) as [|Hr]; [done|]. destruct (pi_exists s v HP _ _ Hr) as (x & Hx). by destruct (Hnew x).
    - intros Hs Hh. destruct (pi_held s v HP _ _ Hh) as [(x & Hx & _) _]. by apply (Hnew x). }
  split; unfold row_at; rewrite E.
  - intros n k x' (j & Hj & <- & <-). apply lookup_app_Some in Hj as [Hj|[_ Hj]].
    + split; [apply (pi_dispatched s v HP (x_NodeID x') (x_Attempt x')); by exists j|]. right. exists x'. eauto.
    + apply list_lookup_singleton_Some in Hj as [_ <-]. split; [|by left]. cbn. specialize (Hg eq_refl). destruct given as [[]|]; done.
  - intros n k y (j & Hj & Hy). exists y, j. split; [by apply lookup_app_l_Some|done].
Qed.

Lemma row_rel_step hash s v op : Pinv s v -> allowed v op -> fits (flow_step hash s op) -> row_rel s (flow_step hash s op) v.
Proof.
  intros HP Ha Hf. assert (forall s', nodes s' = nodes s -> row_rel s s' v) as Hsame by (intros s' E; apply row_rel_same; [done|]; unfold rows; by rewrite E).
  destruct op; cbn [flow_step allowed] in *; try done.
  - apply Hsame. unfold saveDraft. by case_match.
  - apply Hsame. unfold publish, publishIfUnchanged. by repeat case_match.
  - apply Hsame. unfold publishIfUnchanged. by repeat case_match.
  - apply Hsame. unfold supersedeRevision. by repeat case_match.
  - apply Hsame. unfold createRun. by repeat case_match.
  - apply Hsame. unfold updateRunState. by repeat case_match.
  - by apply row_rel_append.
  - unfold saveNodeExecution. destruct (currentAttempt _ _ _) as [[i cur]|] eqn:Ec; [|by apply Hsame].
    destruct (_ && _) eqn:Ex; [by apply Hsame|]. destruct (node_Terminal _ && _); [by apply Hsame|].
    destruct (negb (validNodeTransition _ _)); [by apply Hsame|]. destruct (Z.eqb_spec (x_Attempt exec) (x_Attempt cur)) as [Et|]; [|by apply Hsame].
    cbn [negb fst]. destruct (current_ok _ _ _ _ _ _ (pi_ok s v HP) Ec) as (Hi & Hn & Hr). destruct (replace_row_keeps cur exec now) as (E1 & E2 & E3 & _ & E5).
    apply (row_rel_set s v _ i cur); [done|done|congruence|congruence|]. intros ER. destruct (Ha ER) as [Ha1 Ha2]. rewrite E5. split.
    + intros Hrun. rewrite replace_row_dispatched. by apply Ha1.
    + intros Ho Hs. rewrite Hn in *. destruct (Ha2 Ho Hs) as [H0|(st & -> & Hst)]; [left; by rewrite <- Et|right].
      cbn in Ex. apply negb_false_iff, bool_decide_eq_true in Ex. injection Ex as <-. done.
  - unfold tryClaim. destruct (currentAttempt _ _ _) as [[i cur]|] eqn:Ec; [|by apply Hsame]. destruct (_ && _) eqn:Es; [by apply Hsame|].
    destruct (held_by_other _ _ _); [by apply Hsame|]. cbn [fst]. destruct (current_ok _ _ _ _ _ _ (pi_ok s v HP) Ec) as (Hi & _ & _).
    apply (row_rel_set s v _ i cur); try done. intros _. split; [done|]. intros _ _. right. destruct (x_State cur); done.
  - unfold releaseLease. destruct (currentAttempt _ _ _) as [[i cur]|] eqn:Ec; [|by apply Hsame]. destruct (String.eqb _ _); [|by apply Hsame].
    cbn [fst]. destruct (current_ok _ _ _ _ _ _ (pi_ok s v HP) Ec) as (Hi & Hn & _).
    apply (row_rel_set s v _ i cur); try done. intros ER. split; [|by right].
    intros Hrun. rewrite ER in Hi. change (x_Dispatched cur = true). apply (pi_dispatched s v HP (x_NodeID cur) (x_Attempt cur)); [|exact Hrun]. exists i. split_and!; [exact Hi|done|done].
  - apply Hsame. unfold recordApproval. by repeat case_match.
Qed.

(** Every allowed step keeps the invariant, with the same calls. *)
Lemma row_unique s v n k x y : Pinv s v -> row_at s n k x -> row_at s n k y -> x = y.
Proof.
  intros HP (i & Hi & Hxn & Hxk) (j & Hj & Hyn & Hyk). destruct (ok_rows _ _ (pi_ok s v HP) _ _ (rows_get _ _ _ _ Hi)) as (_ & _ & Hnum & _).
  assert (i = j) as <- by (eapply (numbered_unique n); eauto; congruence). congruence.
Qed.
(** A step that does not free an attempt leaves it past. *)
Lemma rel_past s s' v n k : Pinv s v -> row_rel s s' v -> past s n k -> (side_effecting n = true -> ~ free v n k) -> past s' n k.
Proof.
  intros HP [Hb Hfo] (x & Hx & Hox) Hf. destruct (Hfo n k x Hx) as [x' Hx']. exists x'. split; [done|]. intros Hs.
  destruct (Hb n k x' Hx') as [_ [Hfree|(y & Hy & Hop)]]; [by destruct (Hf Hs)|]. rewrite (row_unique s v n k y x HP Hy Hx) in Hop.
  destruct (open_state (x_State x')); [|done]. specialize (Hop eq_refl Hs). rewrite (Hox Hs) in Hop. done.
Qed.
Lemma step_inv hash s v op : Pinv s v -> allowed v op -> fits (flow_step hash s op) -> Pinv (flow_step hash s op) v.
Proof.
  intros HP Ha Hf. pose proof (row_rel_step hash s v op HP Ha Hf) as Hrel. pose proof Hrel as [Hb Hfo]. pose proof HP as [H1 (r & Hr & Hd) H3 H4 H5 H6 H7]. split.
  - by apply step_ok_fits.
  - destruct (step_def hash s op r (allowed_no_prune v op Ha) Hr) as (r' & Hr' & Ed). exists r'. split; [done|congruence].
  - exact H3.
  - intros n k x' Hx Hs Ho. destruct (Hb n k x' Hx) as [_ [[? _]|(x & Hx0 & Hop)]]; [done|]. by apply (H4 n k x); auto.
  - intros n k Hn. destruct (H5 n k Hn) as [x Hx]. by apply (Hfo n k x).
  - intros n k x' Hx. by apply (Hb n k x').
  - intros n k Hh. destruct (H7 n k Hh) as [Hp H0]. split; [|done]. apply (rel_past s _ v); try done. intros Hs [_ Hn]. by apply (Hn Hs).
Qed.

(** The invariant depends on the calls by their number and holds for fewer dispatches. *)
Lemma Pinv_view s v v' : Pinv s v -> (forall n k, ran (v_ran v') n k = ran (v_ran v) n k) -> v_held v' ⊆ v_held v -> Pinv s v'.
Proof. intros [H1 H2 H3 H4 H5 H6 H7] Hr Hh. split; try done; intros *; rewrite ?Hr; eauto. Qed.

(** What an engine that has recorded a dispatch may rely on until it makes the call. *)
Definition ours (s : storeState) (v : View) (n : string) (k : Z) : Prop := past s n k /\ (side_effecting n = true -> free v n k).

Lemma is_ran_self n k : is_ran n k (Ran R n k) = true.
Proof. cbn. by rewrite !String.eqb_refl, Z.eqb_refl. Qed.
Lemma is_ran_other n k n' k' : (n', k') <> (n, k) -> is_ran n' k' (Ran R n k) = false.
Proof. intros H. cbn. rewrite String.eqb_refl. destruct (String.eqb_spec n n'), (Z.eqb_spec k k'); cbn; try done. subst. by destruct H. Qed.

(** A call of the attempt [n], [k] of the run, where it is past and was not run. *)
Lemma ran_inv s v n k : Pinv s v -> ours s v n k -> Pinv s (mkView (v_ran v ++ [Ran R n k]) (v_held v)).
Proof.
  intros HP ((x & Hx & Hox) & H0). assert (forall n' k', ran (v_ran v ++ [Ran R n k]) n' k' = (ran (v_ran v) n' k' + if bool_decide ((n', k') = (n, k)) then 1 else 0)%nat) as Hr.
  { intros n' k'. rewrite ran_app. case_bool_decide as E; [injection E as -> ->; by rewrite is_ran_self|by rewrite is_ran_other]. }
  pose proof HP as [H1 H2 H3 H4 H5 H6 H7]. split; try done; cbn [v_ran v_held].
  - intros n' k' Hs. rewrite Hr. case_bool_decide as E; [injection E as -> ->; destruct (H0 Hs) as [-> _]; lia|]. specialize (H3 n' k' Hs). lia.
  - intros n' k' y Hy Hs Ho. rewrite Hr. case_bool_decide as E; [|rewrite (H4 n' k' y Hy Hs Ho); lia].
    injection E as -> ->. rewrite (row_unique s v n k y x HP Hy Hx), (Hox Hs) in Ho. done.
  - intros n' k'. rewrite Hr. case_bool_decide as E; [injection E as -> ->; eauto|]. rewrite Nat.add_0_r. apply H5.
  - intros n' k' Hh. destruct (H7 n' k' Hh) as [Hp E0]. split; [done|]. intros Hs. rewrite Hr, (E0 Hs). case_bool_decide as E; [|lia].
    injection E as -> ->. by destruct (H0 Hs) as [_ Hn]; destruct (Hn Hs).
Qed.

(** A step that anybody may take leaves past what is past. *)
Lemma past_step hash s v op n k :
  Pinv s v -> (forall v', allowed v' op) -> fits (flow_step hash s op) -> past s n k -> past (flow_step hash s op) n k.
Proof.
  intros HP Ha Hf Hp. destruct (side_effecting n) eqn:Hs.
  - set (v' := mkView (v_ran v) ∅). assert (Pinv s v') as HP' by (apply (Pinv_view s v); [done|done|set_solver]).
    assert (exists v1, Pinv s v1 /\ ran (v_ran v1) n k <> 0%nat) as (v1 & HP1 & Hr).
    { destruct (decide (ran (v_ran v') n k = 0%nat)) as [H0|]; [|eauto]. exists (mkView (v_ran v' ++ [Ran R n k]) (v_held v')).
      split; [apply ran_inv; [done|split; [done|intros _; split; [done|set_solver]]]|]. cbn [v_ran]. rewrite ran_app, is_ran_self. lia. }
    apply (rel_past s _ v1); [done|by apply row_rel_step|done|]. intros _ [H _]. done.
  - destruct Hp as (x & Hx & _). destruct (rr_forth _ _ _ (row_rel_step hash s v op HP (Ha v) Hf) n k x Hx) as [x' Hx']. exists x'. split; [done|]. by rewrite Hs.
Qed.

(** *** Other engines *)

Definition held_of (exec : NodeExecution) : string * string * Z := (R, x_NodeID exec, x_Attempt exec).
(** What other engines may do between two steps of this one, as this one does it
    itself: a harmless step, among them every step of a recovery; record a dispatch,
    from a claimed attempt; make the call of a dispatch they recorded, once; give an
    attempt back that they recorded and did not call (a gate refused it); and end
    with a dispatch in hand. *)
Inductive peer_step : storeState * Peers -> storeState * Peers -> Prop :=
| ps_op hash op s p : harmless op -> peer_step (s, p) (flow_step hash s op, p)
| ps_dispatch s p exec t s' x : x_RunID exec = R -> x_State exec = NodeRunning -> x_Dispatched exec = true ->
    saveNodeExecution s exec (Some NodeClaimed) t = (s', inl x) ->
    peer_step (s, p) (s', mkPeers (p_held p ∪ {[held_of exec]}) (p_ran p))
| ps_call s p n k : (R, n, k) ∈ p_held p -> peer_step (s, p) (s, mkPeers (p_held p ∖ {[(R, n, k)]}) (p_ran p ++ [Ran R n k]))
| ps_return s p exec expected t : x_RunID exec = R -> held_of exec ∈ p_held p -> x_State exec <> NodeRunning ->
    peer_step (s, p) ((saveNodeExecution s exec expected t).1, mkPeers (p_held p ∖ {[held_of exec]}) (p_ran p))
| ps_end s p key : peer_step (s, p) (s, mkPeers (p_held p ∖ {[key]}) (p_ran p)).
Definition reach : storeState * Peers -> storeState * Peers -> Prop := rtc peer_step.

Lemma harmless_no_prune op : harmless op -> no_prune op.
Proof. by destruct op. Qed.
Lemma save_keeps s exec expected t : keeps s (saveNodeExecution s exec expected t).1.
Proof. exact (keeps_step no_hash s (SaveNodeExecution exec expected t) I). Qed.
Lemma peer_keeps a b : peer_step a b -> keeps a.1 b.1.
Proof.
  destruct 1; cbn [fst]; try by apply keeps_refl.
  - apply keeps_step. by apply harmless_no_prune.
  - match goal with H : saveNodeExecution _ _ _ _ = _ |- _ => pose proof (save_keeps s exec (Some NodeClaimed) t) as Hk; by rewrite H in Hk end.
  - apply save_keeps.
Qed.
Lemma reach_keeps a b : reach a b -> keeps a.1 b.1.
Proof. induction 1 as [|a b c H _ IH]; [by apply keeps_refl|]. eapply keeps_trans; [by apply peer_keeps|exact IH]. Qed.

(** The dispatch is recorded before it happens: the saved row was claimed, so its
    attempt was not run, nobody has it in hand, and it is past afterwards. *)
Lemma save_running s v exec t s' x :
  Pinv s v -> x_RunID exec = R -> x_State exec = NodeRunning -> x_Dispatched exec = true ->
  saveNodeExecution s exec (Some NodeClaimed) t = (s', inl x) ->
  past s' (x_NodeID exec) (x_Attempt exec)
  /\ (side_effecting (x_NodeID exec) = true -> free v (x_NodeID exec) (x_Attempt exec))
  /\ (side_effecting (x_NodeID exec) = true -> ~ past s (x_NodeID exec) (x_Attempt exec)).
Proof.
  intros HP ER Es Ed. unfold saveNodeExecution. destruct (currentAttempt s (x_RunID exec) (x_NodeID exec)) as [[i cur]|] eqn:Ec; [|done].
  destruct (bool_decide (is_Some (Some NodeClaimed)) && _) eqn:Ex; [done|]. destruct (node_Terminal _ && _); [done|]. destruct (negb (validNodeTransition _ _)); [done|].
  destruct (Z.eqb_spec (x_Attempt exec) (x_Attempt cur)) as [Ea|]; [|done]. cbn [negb]. intros [= <- <-].
  assert (x_State cur = NodeClaimed) as Hcl.
  { rewrite (bool_decide_eq_true_2 (is_Some (Some NodeClaimed))) in Ex by eauto. cbn in Ex. apply negb_false_iff, bool_decide_eq_true in Ex. congruence. }
  destruct (current_ok _ _ _ _ _ _ (pi_ok _ _ HP) Ec) as (Hi & Hn & Hr). destruct (replace_row_keeps cur exec t) as (E1 & E2 & E3 & _ & E5). rewrite ER in *.
  assert (row_at s (x_NodeID exec) (x_Attempt exec) cur) as Hcur by (exists i; split_and!; congruence).
  assert (side_effecting (x_NodeID exec) = true -> ~ past s (x_NodeID exec) (x_Attempt exec)) as Hnp.
  { intros Hs (y & Hy & Hoy). rewrite (row_unique _ _ _ _ _ _ HP Hy Hcur), Hcl in Hoy. by specialize (Hoy Hs). }
  split_and!; [| |exact Hnp].
  - exists (replace_row cur exec t). split; [|intros _; by rewrite E5, Es]. exists i. split_and!; [|done|done].
    unfold rows at 1. cbn. rewrite lookup_insert_eq. cbn. apply list_lookup_insert_eq. by eapply lookup_lt_Some.
  - intros Hs. split; [apply (pi_open _ _ HP _ _ cur Hcur Hs); by rewrite Hcl|]. intros _ Hh. by destruct (pi_held _ _ HP _ _ Hh) as [Hp _]; destruct (Hnp Hs Hp).
Qed.

(** The calls of this engine with those of the others. *)
Definition joint (lg : list Event) (p : Peers) : View := mkView (lg ++ p_ran p) (p_held p).
Lemma ran_joint lg l n k : ran (lg ++ l) n k = (ran lg n k + ran l n k)%nat.
Proof. unfold ran. by rewrite List.filter_app, length_app. Qed.

(** What does not change for this engine, whatever the others do. *)
Definition steady (s : storeState) (v : View) (s' : storeState) (v' : View) : Prop :=
  (forall n k x, row_at s n k x -> exists x', row_at s' n k x') /\ forall n k, ours s v n k -> ours s' v' n k.
Lemma steady_refl s v : steady s v s v.
Proof. split; eauto. Qed.
Lemma steady_trans s v s1 v1 s2 v2 : steady s v s1 v1 -> steady s1 v1 s2 v2 -> steady s v s2 v2.
Proof. intros [A1 A2] [B1 B2]. split; [intros n k x Hx; destruct (A1 n k x Hx) as [y Hy]; eauto|auto]. Qed.
Lemma steady_step hash s v op : Pinv s v -> (forall v', allowed v' op) -> fits (flow_step hash s op) -> steady s v (flow_step hash s op) v.
Proof.
  intros HP Ha Hf. split.
  - intros n k x Hx. by apply (rr_forth _ _ _ (row_rel_step hash s v op HP (Ha v) Hf) n k x).
  - intros n k [Hp H0]. split; [by apply (past_step hash s v)|done].
Qed.

Lemma peer_dispatch s lg p exec t s' x : let p' := mkPeers (p_held p ∪ {[held_of exec]}) (p_ran p) in
  x_RunID exec = R -> x_State exec = NodeRunning -> x_Dispatched exec = true -> saveNodeExecution s exec (Some NodeClaimed) t = (s', inl x) ->
  Pinv s (joint lg p) -> fits s' -> Pinv s' (joint lg p') /\ steady s (joint lg p) s' (joint lg p').
Proof.
  intros p' ER Es Ed Hsave HP Hf. destruct (save_running s (joint lg p) exec t s' x HP ER Es Ed Hsave) as (S1 & S2 & S3).
  set (op := SaveNodeExecution exec (Some NodeClaimed) t). assert (s' = flow_step no_hash s op) as Eop by (cbn; by rewrite Hsave). rewrite Eop in *.
  assert (forall v', allowed v' op) as Ha by (intros v' _; rewrite Es; done).
  destruct (steady_step no_hash s (joint lg p) op HP Ha Hf) as [K1 K2]. destruct (step_inv no_hash s (joint lg p) op HP (Ha _) Hf) as [H1 H2 H3 H4 H5 H6 H7].
  split; [split; try done|split; [done|]].
  - cbn [joint v_held p_held p']. intros n k [Hh|[= -> ->]%elem_of_singleton]%elem_of_union; [by apply (H7 n k)|]. split; [done|]. intros Hs. by apply (S2 Hs).
  - intros n k Ho. destruct (K2 n k Ho) as [K3 K4]. split; [done|]. intros Hs. destruct (K4 Hs) as [K5 K6]. split; [done|]. intros _.
    cbn [joint v_held p_held p'] in *. intros [Hh|[= -> ->]%elem_of_singleton]%elem_of_union; [by apply K6|]. apply (S3 Hs). apply Ho.
Qed.
Lemma peer_call s lg p n k : let p' := mkPeers (p_held p ∖ {[(R, n, k)]}) (p_ran p ++ [Ran R n k]) in
  (R, n, k) ∈ p_held p -> Pinv s (joint lg p) -> Pinv s (joint lg p') /\ steady s (joint lg p) s (joint lg p').
Proof.
  intros p' Hh HP.
  assert (Pinv s (mkView (lg ++ p_ran p) (p_held p ∖ {[(R, n, k)]}))) as HP1 by (apply (Pinv_view s (joint lg p)); [done|done|cbn; set_solver]).
  assert (ours s (mkView (lg ++ p_ran p) (p_held p ∖ {[(R, n, k)]})) n k) as Ho.
  { destruct (pi_held _ _ HP n k Hh) as [Hp H0]. split; [done|]. intros Hs. split; [by apply H0|]. cbn. set_solver. }
  split.
  - apply (Pinv_view s _ (joint lg p') (ran_inv _ _ n k HP1 Ho)); [|done]. intros n' k'. cbn [joint v_ran p_ran p']. by rewrite app_assoc.
  - split; [eauto|]. intros n' k' [Hp H0]. split; [done|]. intros Hs. destruct (H0 Hs) as [H1 H2]. split; [|intros _ Hin; apply (H2 Hs); cbn in *; set_solver].
    cbn [joint v_ran p_ran p'] in *. rewrite app_assoc, ran_app, H1, is_ran_other; [done|]. intros [= -> ->]. by apply (H2 Hs).
Qed.
(** Saving an attempt that is free leaves alone what is relied on of the others. *)
Lemma save_free s v exec expected t : let s' := (saveNodeExecution s exec expected t).1 in
  Pinv s v -> x_RunID exec = R -> x_State exec <> NodeRunning -> (side_effecting (x_NodeID exec) = true -> free v (x_NodeID exec) (x_Attempt exec)) -> fits s' ->
  Pinv s' v /\ (forall n k x, row_at s n k x -> exists x', row_at s' n k x') /\
  forall n k, (n, k) <> (x_NodeID exec, x_Attempt exec) -> ours s v n k -> ours s' v n k.
Proof.
  intros s' HP ER Es Hfree Hf. set (op := SaveNodeExecution exec expected t). change s' with (flow_step no_hash s op) in *. clear s'.
  set (n0 := x_NodeID exec) in *. set (k0 := x_Attempt exec) in *.
  assert (forall v', Pinv s v' -> (side_effecting n0 = true -> free v' n0 k0) -> row_rel s (flow_step no_hash s op) v' /\ Pinv (flow_step no_hash s op) v') as Hstep.
  { intros v' HP' H0. assert (allowed v' op) as Ha by (intros _; split; [done|]; intros _ Hs; left; by apply H0).
    split; [by apply row_rel_step|by apply step_inv]. }
  destruct (Hstep v HP Hfree) as [Hrel HP2]. split; [done|]. split; [intros n k x Hx; by apply (rr_forth _ _ _ Hrel n k x)|].
  intros n k Hne [Hp Hf']. split; [|done].
  destruct (side_effecting n) eqn:Hs; [|destruct Hp as (x & Hx & _); destruct (rr_forth _ _ _ Hrel n k x Hx) as [x' Hx']; exists x'; split; [done|by rewrite Hs]].
  set (v2 := mkView (v_ran v ++ [Ran R n k]) (v_held v)).
  assert (Pinv s v2) as HPv2 by (apply ran_inv; [done|]; split; [done|]; intros _; by apply Hf').
  destruct (Hstep v2 HPv2) as [Hrel2 _].
  { intros Hsn. destruct (Hfree Hsn) as [F1 F2]. split; [|done]. cbn [v2 v_ran]. rewrite ran_app, F1, is_ran_other; [done|congruence]. }
  apply (rel_past s _ v2); try done. intros _ [F1 _]. cbn [v2 v_ran] in F1. rewrite ran_app, is_ran_self in F1. lia.
Qed.
Lemma peer_return s lg p exec expected t : let p' := mkPeers (p_held p ∖ {[held_of exec]}) (p_ran p) in
  x_RunID exec = R -> held_of exec ∈ p_held p -> x_State exec <> NodeRunning -> Pinv s (joint lg p) ->
  fits (saveNodeExecution s exec expected t).1 ->
  Pinv (saveNodeExecution s exec expected t).1 (joint lg p') /\ steady s (joint lg p) (saveNodeExecution s exec expected t).1 (joint lg p').
Proof.
  intros p' ER Hh Es HP Hf. assert (Pinv s (joint lg p')) as HP1 by (apply (Pinv_view s (joint lg p)); [done|done|cbn; set_solver]).
  destruct (save_free s (joint lg p') exec expected t HP1 ER Es) as (HP2 & Hk & Ho); [|done|].
  { intros Hs. split; [by apply (pi_held _ _ HP)|]. intros _. cbn. set_solver. }
  split; [done|]. split; [exact Hk|]. intros n k [Hp Hf']. assert ((R, n, k) ∉ p_held p \/ side_effecting n = false) as Hn.
  { destruct (side_effecting n) eqn:Hs; [left|by right]. by apply (Hf' eq_refl). }
  destruct (decide ((n, k) = (x_NodeID exec, x_Attempt exec))) as [E|Hne].
  - injection E as -> ->. destruct Hn as [Hn|Hs]; [by destruct Hn|]. destruct Hp as (x & Hx & _). destruct (Hk _ _ x Hx) as [x' Hx'].
    split; [exists x'; split; [done|by rewrite Hs]|by rewrite Hs].
  - apply (Ho n k Hne). split; [done|]. intros Hs. destruct (Hf' Hs) as [F1 F2]. split; [done|]. intros _ Hin. apply (F2 Hs). cbn in *. set_solver.
Qed.

Lemma peer_inv a b lg : peer_step a b -> Pinv a.1 (joint lg a.2) -> fits b.1 ->
  Pinv b.1 (joint lg b.2) /\ steady a.1 (joint lg a.2) b.1 (joint lg b.2).
Proof.
  destruct 1; cbn [fst snd]; intros HP Hf.
  - assert (forall v', allowed v' op) as Ha by (intros; by apply harmless_allowed). split; [by apply step_inv|by apply steady_step].
  - by apply (peer_dispatch s lg p exec t s' x).
  - by apply peer_call.
  - by apply peer_return.
  - split; [apply (Pinv_view s (joint lg p)); [done|done|cbn; set_solver]|]. split; [eauto|]. intros n k [Hp H0]. split; [done|].
    intros Hs. destruct (H0 Hs) as [H1 H2]. split; [done|]. intros _ Hin. apply (H2 Hs). cbn in *. set_solver.
Qed.
Lemma reach_inv a b lg : reach a b -> Pinv a.1 (joint lg a.2) -> fits b.1 ->
  Pinv b.1 (joint lg b.2) /\ steady a.1 (joint lg a.2) b.1 (joint lg b.2).
Proof.
  induction 1 as [|a b c H Hr IH]; intros HP Hf; [split; [done|apply steady_refl]|].
  destruct (peer_inv a b lg H HP) as [HPb Hab]; [eapply fits_keeps; [by apply reach_keeps|done]|].
  destruct (IH HPb Hf) as [HPc Hbc]. split; [done|]. by eapply steady_trans.
Qed.
End once.

(** ** Programs *)

Section calls.
Context (env : Env) (lib : Lib) (e : Engine) (R : string) (D : Definition_).
Hypothesis others_peers : forall n s, reach (registry e) R D (store s, peers s) (store (others env n s), peers (others env n s)).

(** The calls of all engines in a state. *)
Abbreviation seen st := (joint (log st) (peers (sh st))).
Abbreviation Inv st := (Pinv (registry e) R D (store (sh st)) (seen st)).
Abbreviation Ours st := (ours (registry e) R D (store (sh st)) (seen st)).
Lemma others_keep n s : keeps (store s) (store (others env n s)).
Proof. exact (reach_keeps _ _ _ _ _ (others_peers n s)). Qed.
#[local] Hint Resolve others_keep : core.

(** No key is lost, and what this engine may rely on stays. *)
Definition calm (st st' : St) : Prop := steady (registry e) R D (store (sh st)) (seen st) (store (sh st')) (seen st').
Lemma calm_refl st : calm st st.
Proof. apply steady_refl. Qed.
Lemma calm_trans a b c : calm a b -> calm b c -> calm a c.
Proof. apply steady_trans. Qed.
Lemma calm_keys st st' : calm st st' -> forall n k x, row_at R (store (sh st)) n k x -> exists x', row_at R (store (sh st')) n k x'.
Proof. by intros [H _]. Qed.
Lemma calm_ours st st' n k : calm st st' -> Ours st n k -> Ours st' n k.
Proof. intros [_ H]. apply H. Qed.
(** The same store, the same other engines and as many calls. *)
Lemma calm_same st st' : store (sh st') = store (sh st) -> peers (sh st') = peers (sh st) -> (forall n k, ran R (log st') n k = ran R (log st) n k) -> calm st st'.
Proof.
  intros Es Ep Hr. unfold calm. rewrite Es, Ep. split; [eauto|]. intros n k [H1 H2]. split; [done|]. intros Hs. destruct (H2 Hs) as [H3 H4]. split; [|done].
  unfold joint in *. cbn [v_ran v_held] in *. by rewrite ran_joint, Hr, <- ran_joint.
Qed.
#[local] Hint Resolve calm_refl : core.

(** The invariant through a program: whatever the result, it holds at the end. *)
Definition spec {A} (m : M A) (P : St -> Prop) (Q : A + EngineError -> St -> St -> Prop) : Prop :=
  follows m /\ forall st, Inv st -> P st -> fits (store (sh (m st).1)) ->
    Inv (m st).1 /\ match (m st).2 with Val a => Q (inl a) st (m st).1 | Exc err => Q (inr err) st (m st).1 | Crash => True end.
Definition tame {A} (m : M A) : Prop := spec m (fun _ => True) (fun _ => calm).

Lemma spec_bind {A B} (m : M A) (f : A -> M B) P Q Q' :
  spec m P Q -> (forall a st, spec (f a) (fun st' => Inv st /\ P st /\ Q (inl a) st st') (fun r _ st'' => Q' r st st'')) ->
  (forall err st st', P st -> Q (inr err) st st' -> Q' (inr err) st st') -> spec (m ≫= f) P Q'.
Proof.
  intros [Fm Hm] Hf He. split; [apply follows_bind; [done|intros a; by apply (Hf a (mkSt 0 (mkShared newStoreState ∅ ∅ nobody) []))]|].
  intros st HI HP. specialize (Hm st HI HP). unfold mbind, M_bind. destruct (m st) as [st1 [a|err|]] eqn:E; cbn [fst snd] in *.
  - intros Hfit. destruct (Hf a st) as [Fa Ha]. destruct Hm as [I1 Q1]; [apply (fits_keeps _ _ (Fa st1) Hfit)|].
    apply (Ha st1 I1); [done|done].
  - intros Hfit. destruct (Hm Hfit) as [I1 Q1]. eauto.
  - intros Hfit. by destruct (Hm Hfit).
Qed.
Lemma spec_weaken {A} (m : M A) P P' (Q Q' : A + EngineError -> St -> St -> Prop) :
  spec m P Q -> (forall st, P' st -> P st) -> (forall r st st', P' st -> Q r st st' -> Q' r st st') -> spec m P' Q'.
Proof.
  intros [Fm Hm] HP HQ. split; [done|]. intros st HI HP' Hf. destruct (Hm st HI (HP st HP') Hf) as [I1 Q1]. split; [done|].
  destruct ((m st).2); eauto.
Qed.
Lemma spec_ret {A} (a : A) P Q : (forall st, Inv st -> P st -> Q (inl a) st st) -> spec (mret a) P Q.
Proof. intros H. split; [apply follows_ret|]. intros st HI HP _. split; [done|by apply H]. Qed.
Lemma spec_throw {A} err P Q : (forall st, Inv st -> P st -> Q (inr err) st st) -> spec (throw (A := A) err) P Q.
Proof. intros H. split; [apply follows_throw|]. intros st HI HP _. split; [done|by apply H]. Qed.
Lemma spec_try {A} (m : M A) P Q : spec m P (fun r => Q (inl r)) -> spec (try m) P Q.
Proof.
  intros [Fm Hm]. split; [by apply follows_try|]. intros st HI HP. unfold try. specialize (Hm st HI HP).
  destruct (m st) as [st1 [a|err|]]; cbn [fst snd] in *; intros Hf; by destruct (Hm Hf).
Qed.
Lemma spec_tried {A} (m : M A) P Q : spec m P Q -> spec (try m) P (fun r st st' => match r with inl r' => Q r' st st' | inr _ => False end).
Proof. intros H. apply spec_try. exact H. Qed.
Lemma spec_mfold {A S} (f : S -> A -> M S) (K : S -> St -> Prop) (l : list A) :
  (forall s a, In a l -> spec (f s a) (K s) (fun r _ st' => match r with inl s' => K s' st' | inr _ => True end)) ->
  forall s, spec (mfold f l s) (K s) (fun r _ st' => match r with inl s' => K s' st' | inr _ => True end).
Proof.
  induction l as [|x l IH]; intros Hf s; cbn [mfold]; [by apply spec_ret|].
  eapply spec_bind; [apply (Hf s x); by left| |by intros].
  intros s' st. cbn beta iota. eapply spec_weaken; [apply (IH ltac:(intros; apply Hf; by right) s')| |by intros]. by intros st' (_ & _ & H).
Qed.

(** *** Tame programs *)

Lemma tame_bind {A B} (m : M A) (f : A -> M B) : tame m -> (forall a, tame (f a)) -> tame (m ≫= f).
Proof.
  intros Hm Hf. eapply spec_bind; [exact Hm| |by intros]. intros a st. eapply spec_weaken; [apply (Hf a)|done|].
  intros r st' st'' (_ & _ & H1) H2. by eapply calm_trans.
Qed.
Lemma tame_ret {A} (a : A) : tame (mret a).
Proof. apply spec_ret. auto. Qed.
Lemma tame_throw {A} err : tame (throw (A := A) err).
Proof. apply spec_throw. auto. Qed.
Lemma tame_try {A} (m : M A) : tame m -> tame (try m).
Proof. intros H. apply spec_try. exact H. Qed.
Lemma tame_mfold {A S} (f : S -> A -> M S) : (forall s a, tame (f s a)) -> forall l s, tame (mfold f l s).
Proof. intros Hf l. induction l as [|x l IH]; intros s; cbn; [apply tame_ret|]. by apply tame_bind. Qed.
Lemma Inv_log st lg : Inv st -> (forall n k, ran R lg n k = ran R (log st) n k) -> Inv (st <| log := lg |>).
Proof. intros HI Hr. eapply Pinv_view; [exact HI| |done]. intros n k. unfold joint. cbn [v_ran log sh update]. by rewrite !ran_joint, Hr. Qed.
Lemma tame_audit ev : tame (emit (Audit ev)).
Proof.
  split; [apply follows_emit|]. intros st HI _ _. cbn in *.
  assert (forall n k, ran R (log st ++ [Audit ev]) n k = ran R (log st) n k) as Hr by (intros; rewrite ran_app; cbn; lia).
  split; [by apply Inv_log|by apply calm_same].
Qed.
Lemma tame_step : tame (step env).
Proof.
  split; [apply follows_step|]. intros st HI _ _. unfold step. destruct (crash env (tick st)); cbn; (split; [exact HI|]); [exact I|exact (calm_refl st)].
Qed.

(** One access: the invariant holds after what others did, then the program's
    own step is taken. *)
Lemma spec_access {A} (f : nat -> Shared -> Shared * A) P Q :
  (forall n s, keeps (store s) (store (f n s).1)) -> (forall n s, peers (f n s).1 = peers s) ->
  (forall st n s1, Inv st -> P st -> Pinv (registry e) R D (store s1) (joint (log st) (peers s1)) ->
     steady (registry e) R D (store (sh st)) (seen st) (store s1) (joint (log st) (peers s1)) ->
     fits (store (f n s1).1) ->
     Pinv (registry e) R D (store (f n s1).1) (joint (log st) (peers s1)) /\ forall t, Q (inl (f n s1).2) st (mkSt t (f n s1).1 (log st))) ->
  spec (access env f) P Q.
Proof.
  intros Hk Hpe H. split; [by apply follows_access|]. intros st HI HP. unfold access, mbind, M_bind, step.
  destruct (crash env (tick st)); [by cbn|]. cbn. pose proof (others_peers (tick st) (sh st)) as Hr.
  specialize (H st (tick st) (others env (tick st) (sh st)) HI HP). specialize (Hk (tick st) (others env (tick st) (sh st))).
  specialize (Hpe (tick st) (others env (tick st) (sh st))).
  destruct (f (tick st) (others env (tick st) (sh st))) as [s a]. cbn in *. intros Hf. rewrite Hpe.
  assert (fits (store (others env (tick st) (sh st)))) as Hf1 by (by eapply fits_keeps).
  destruct (reach_inv _ _ _ _ _ (log st) Hr HI Hf1) as (I1 & I2). destruct (H I1 I2 Hf) as [I4 I5]. split; [done|apply I5].
Qed.

(** *** Store calls *)

Definition answer {A} (r : A + StoreError) : A + EngineError := match r with inl a => inl a | inr err => inr (EStore err) end.
Lemma spec_lift {A} (r : A + StoreError) P Q : (forall st, Inv st -> P st -> Q (answer r) st st) -> spec (lift r) P Q.
Proof. intros H. destruct r; [by apply spec_ret|by apply spec_throw]. Qed.

Lemma spec_get {A} (f : storeState -> A + StoreError) P :
  spec (store_get env f) P (fun r st st' => calm st st' /\ r = answer (f (store (sh st')))).
Proof.
  eapply (spec_bind _ _ _ (fun r st st' => match r with inl a => calm st st' /\ a = f (store (sh st')) | inr _ => False end)).
  - apply spec_access; [intros; apply keeps_same|done|]. intros st n s1 HI HP H1 H2 _. cbn. split; [done|]. intros t. by split.
  - intros r st. apply spec_lift. by intros st' _ (_ & _ & HQ1 & ->).
  - by intros.
Qed.
(** The state in which an operation took effect. *)
Definition applied {A} (f : Time -> storeState -> Outcome A) (op : Time -> FlowOp) (r : A + EngineError) (st st' : St) : Prop :=
  exists t s1, Pinv (registry e) R D s1 (seen st') /\ steady (registry e) R D (store (sh st)) (seen st) s1 (seen st')
    /\ fits (flow_step no_hash s1 (op t)) /\ log st' = log st /\ store (sh st') = (f t s1).1 /\ (f t s1).1 = flow_step no_hash s1 (op t) /\ r = answer (f t s1).2.
Lemma spec_op {A} (f : Time -> storeState -> Outcome A) (op : Time -> FlowOp) P :
  (forall t s, (f t s).1 = flow_step no_hash s (op t)) -> (forall t, no_prune (op t)) ->
  (forall st, Inv st -> P st -> forall t s1 v1, steady (registry e) R D (store (sh st)) (seen st) s1 v1 -> allowed (registry e) R D v1 (op t)) ->
  spec (store_op env f) P (applied f op).
Proof.
  intros Hf Hp Ha.
  eapply (spec_bind _ _ _ (fun r st st' => match r with inl a => applied f op (answer a) st st' | inr _ => False end)).
  - apply spec_access.
    + intros n s. specialize (Hf (clock env n) (store s)). destruct (f (clock env n) (store s)) as [s' r]. cbn in *. subst s'. by apply keeps_step.
    + intros n s. by destruct (f (clock env n) (store s)).
    + intros st n s1 HI HP H1 H2. pose proof (Hf (clock env n) (store s1)) as Hf1. destruct (f (clock env n) (store s1)) as [s' r] eqn:E. cbn in *. intros Hfit. subst s'.
      split; [apply step_inv; [done|by eapply Ha|done]|]. intros t. exists (clock env n), (store s1). rewrite E. cbn. split_and!; done.
  - intros r st. apply spec_lift. by intros st' _ (_ & _ & H).
  - by intros.
Qed.
Lemma applied_keys {A} f op (r : A + EngineError) st st' : applied f op r st st' ->
  (forall t s1 v1, steady (registry e) R D (store (sh st)) (seen st) s1 v1 -> allowed (registry e) R D v1 (op t)) ->
  forall n k x, row_at R (store (sh st)) n k x -> exists x', row_at R (store (sh st')) n k x'.
Proof.
  intros (t & s1 & HP1 & Hst & Hfit & _ & E1 & E2 & _) Ha n k x Hx. destruct (proj1 Hst n k x Hx) as [y Hy]. rewrite E1, E2.
  apply (rr_forth _ _ _ _ _ _ (row_rel_step _ _ _ no_hash s1 _ (op t) HP1 (Ha t _ _ Hst) Hfit) n k y Hy).
Qed.
(** Operations that are allowed at any time. *)
Lemma applied_calm {A} f op (r : A + EngineError) st st' : applied f op r st st' -> (forall t v, allowed (registry e) R D v (op t)) -> calm st st'.
Proof.
  intros (t & s1 & HP1 & Hst & Hfit & _ & E1 & E2 & _) Ha. eapply steady_trans; [exact Hst|]. rewrite E1, E2. by apply steady_step.
Qed.
Lemma tame_get {A} (f : storeState -> A + StoreError) : tame (store_get env f).
Proof. eapply spec_weaken; [apply (spec_get f (fun _ => True))|done|]. by intros r st st' _ (H & _). Qed.
Lemma spec_op_any {A} (f : Time -> storeState -> Outcome A) (op : Time -> FlowOp) P :
  (forall t s, (f t s).1 = flow_step no_hash s (op t)) -> (forall t v, allowed (registry e) R D v (op t)) ->
  spec (store_op env f) P (fun r st st' => calm st st' /\ applied f op r st st').
Proof.
  intros Hf Ha. eapply spec_weaken; [apply (spec_op f op P); [done| |by intros]|done|].
  - intros t. apply (allowed_no_prune (registry e) R D (mkView [] ∅)). apply Ha.
  - intros r st st' _ H. split; [by eapply applied_calm|done].
Qed.
Lemma tame_op {A} (f : Time -> storeState -> Outcome A) (op : Time -> FlowOp) :
  (forall t s, (f t s).1 = flow_step no_hash s (op t)) -> (forall t v, allowed (registry e) R D v (op t)) -> tame (store_op env f).
Proof. intros Hf Ha. eapply spec_weaken; [by apply (spec_op_any f op (fun _ => True))|done|by intros r st st' _ [H _]]. Qed.

(** A row that may be saved at any time. *)
Definition plain_save (exec : NodeExecution) (expected : option NodeState) : Prop :=
  (x_State exec = NodeRunning -> x_Dispatched exec = true) /\ (open_state (x_State exec) = true -> exists st, expected = Some st /\ open_state st = true).
Lemma tame_save exec expected : plain_save exec expected -> tame (Save env exec expected).
Proof. intros [H1 H2]. apply (tame_op _ (fun t => SaveNodeExecution exec expected t)); [done|]. intros t v _. split; [done|]. intros Ho _. right. auto. Qed.
Lemma tame_update runID expected state code msg : tame (UpdateState env runID expected state code msg).
Proof. by apply (tame_op _ (fun t => UpdateRunState runID expected state code msg t)). Qed.
Lemma tame_append runID nodeID opID : tame (Append env runID nodeID opID).
Proof. by apply (tame_op _ (fun t => AppendNodeExecution (new_attempt runID nodeID opID) (Some NodePending) t)). Qed.
Lemma tame_claim runID nodeID owner ttl t : tame (store_op env (fun _ s => tryClaim s runID nodeID owner ttl t)).
Proof. by apply (tame_op _ (fun _ => TryClaim runID nodeID owner ttl t)). Qed.
Lemma tame_create run given : tame (store_op env (fun t s => createRun s run given t)).
Proof. by apply (tame_op _ (fun t => FlowStore.CreateRun run given t)). Qed.
Lemma tame_record appr : tame (store_op env (fun t s => recordApproval s appr t)).
Proof. by apply (tame_op _ (fun t => RecordApproval appr t)). Qed.

Lemma tame_getrun id : tame (GetRun env id).
Proof. apply tame_get. Qed.
Lemma tame_getnodes id : tame (GetNodeExecutions env id).
Proof. apply tame_get. Qed.
Lemma tame_getapproval a b : tame (GetApproval env a b).
Proof. apply tame_get. Qed.
Create HintDb tame.
#[local] Hint Resolve tame_ret tame_throw tame_audit tame_step tame_get tame_update tame_append tame_claim tame_create tame_record
  tame_getrun tame_getnodes tame_getapproval : tame.
Ltac tame_go :=
  match goal with
  | |- tame (_ ≫= _) => apply tame_bind; [|intros]
  | |- tame (mfold _ _ _) => apply tame_mfold; intros
  | |- tame (try _) => apply tame_try
  | |- tame (Save _ _ _) => apply tame_save; split; [discriminate|try discriminate; try (by eexists)]
  | |- tame (match ?x with _ => _ end) => destruct x
  | |- tame _ => solve [auto with tame nocore]
  end.
Ltac tames := intros; cbv zeta; repeat tame_go.

Lemma tame_now : tame (now env).
Proof. unfold now. tames. Qed.
Lemma tame_ctx : tame (runCtxErr env).
Proof. unfold runCtxErr. tames. Qed.
Lemma tame_ranged {A} (l : list A) : tame (ranged env l).
Proof. unfold ranged. tames. Qed.
Lemma tame_initialized run : tame (requireInitializedRun env run).
Proof. unfold requireInitializedRun. tames. Qed.
#[local] Hint Resolve tame_now tame_ctx tame_ranged tame_initialized : tame.
Lemma tame_wait run : forall n c, tame (wait_loop env n c run).
Proof. induction n as [|n IH]; intros c; cbn [wait_loop]; tames. Qed.
#[local] Hint Resolve tame_wait : tame.
Lemma tame_createrun pub principal input key : tame (CreateRun env lib e pub principal input key).
Proof. unfold CreateRun, waitForInitializedRun, appendInitial. tames. Qed.
Lemma tame_recompute runID : tame (recomputeRunState env runID).
Proof. unfold recomputeRunState. tames. Qed.
#[local] Hint Resolve tame_recompute : tame.
Lemma tame_expire run : tame (expireApprovals env e run).
Proof. unfold expireApprovals. tames. Qed.
Lemma tame_finishrun run : tame (finishRun env run).
Proof. unfold finishRun. tames. Qed.
Lemma tame_park run exec : tame (parkPersistFailure env run exec).
Proof. unfold parkPersistFailure. tames. Qed.
#[local] Hint Resolve tame_expire tame_finishrun tame_park : tame.
Lemma tame_finish run exec next nodeID current : open_state (x_State next) = false -> x_State next <> NodeRunning -> tame (finish env run exec next nodeID current).
Proof. intros H1 H2. unfold finish. tame_go; [|tames]. apply tame_try, tame_save. split; [done|]. by rewrite H1. Qed.
Lemma tame_resume run current kv : tame (resume_one env run current kv).
Proof. unfold resume_one. tames. Qed.
Lemma tame_decide runID nodeID approver decision : tame (DecideApproval env e runID nodeID approver decision).
Proof. unfold DecideApproval. tames. Qed.
Lemma tame_cancel runID : tame (CancelRun env runID).
Proof. unfold CancelRun. tames. Qed.
Lemma tame_force runID code msg : tame (ForceFailRun env runID code msg).
Proof. unfold ForceFailRun. tames. Qed.
#[local] Hint Resolve tame_resume : tame.
Lemma tame_shared {A} (f : nat -> Shared -> Shared * A) : (forall n s, store (f n s).1 = store s) -> (forall n s, peers (f n s).1 = peers s) -> tame (access env f).
Proof.
  intros H Hp. apply spec_access; [intros n s; rewrite H; apply keeps_same|done|]. intros st n s1 HI _ H1 H2 _. rewrite H. split; [done|]. intros t.
  unfold calm. cbn. by rewrite H, Hp.
Qed.

(** *** Jobs *)

Definition run_ok (run : Run) : Prop := r_ID run = R -> r_Definition run = D.
Definition job_ok (run : Run) (jb : engineJob) : Prop :=
  x_RunID (j_exec jb) = r_ID run /\ x_NodeID (j_exec jb) = n_ID (j_node jb)
  /\ (r_ID run = R -> side_effecting (registry e) D (n_ID (j_node jb)) = has_effects (j_spec jb)).
Definition key_there (s : storeState) (run : Run) (jb : engineJob) : Prop :=
  r_ID run = R -> exists x, row_at R s (n_ID (j_node jb)) (x_Attempt (j_exec jb)) x.
Definition jobs_there (run : Run) (jobs : list engineJob) (st : St) : Prop := Forall (fun jb => job_ok run jb /\ key_there (store (sh st)) run jb) jobs.
Lemma jobs_there_mono run jobs st st' :
  jobs_there run jobs st -> (forall n k x, row_at R (store (sh st)) n k x -> exists x', row_at R (store (sh st')) n k x') -> jobs_there run jobs st'.
Proof. intros H Hk. eapply Forall_impl; [exact H|]. intros jb [H1 H2]. split; [done|]. intros ER. destruct (H2 ER) as [x Hx]. by apply (Hk _ _ x). Qed.

Lemma claim_row s k runID nodeID owner ttl t s' x :
  store_ok s k -> tryClaim s runID nodeID owner ttl t = (s', inl (Some x)) ->
  x_RunID x = runID /\ x_NodeID x = nodeID /\ exists i, rows s' runID !! i = Some x.
Proof.
  intros Hok. unfold tryClaim. destruct (currentAttempt s runID nodeID) as [[i cur]|] eqn:Ec; [|done]. destruct (_ && _); [done|].
  destruct (held_by_other cur owner t); [done|]. intros [= <- <-]. destruct (current_ok _ _ _ _ _ _ Hok Ec) as (Hi & Hn & Hr).
  split_and!; [done|done|]. exists i. unfold rows at 1. cbn. rewrite lookup_insert_eq. cbn. apply list_lookup_insert_eq. by eapply lookup_lt_Some.
Qed.

Lemma nodeDefByID_ID def id : n_ID (nodeDefByID def id) = id.
Proof.
  unfold nodeDefByID. destruct (List.find _ _) as [n|] eqn:E; [|done]. apply List.find_some in E as [_ E]. by apply String.eqb_eq in E.
Qed.

(** A tame program with a known result. *)
Lemma spec_then {A B} (m : M A) (b : B) P : tame m -> spec (m ≫= fun _ => mret b) P (fun r st st' => calm st st' /\ match r with inl b' => b' = b | inr _ => True end).
Proof.
  intros Hm. eapply spec_bind; [eapply spec_weaken; [exact Hm|done|intros r st st' _ H; exact H]| |by intros].
  intros a st. apply spec_ret. by intros st' _ (_ & _ & H).
Qed.
Definition cur_ok (run : Run) (current : gmap string NodeExecution) : Prop := map_Forall (fun _ x => x_RunID x = r_ID run) current.
Definition sweep_there (run : Run) (sw : Sweep) (st : St) : Prop := jobs_there run (sw_jobs sw) st /\ cur_ok run (sw_current sw).
Lemma sweep_there_calm run sw st st' : sweep_there run sw st -> calm st st' -> sweep_there run sw st'.
Proof. intros [H1 H2] H3. split; [eapply jobs_there_mono; [done|by apply calm_keys]|done]. Qed.
Lemma sweep_there_set run sw nodeID x p st : sweep_there run sw st -> x_RunID x = r_ID run ->
  sweep_there run (mkSweep (<[nodeID := x]> (sw_current sw)) p (sw_jobs sw)) st.
Proof. intros [H1 H2] Hx. split; [done|]. cbn. by apply map_Forall_insert_2. Qed.
Definition swept (run : Run) (r : Sweep + EngineError) (st st' : St) : Prop := match r with inl sw' => sweep_there run sw' st' | inr _ => True end.

Lemma spec_fail_claimed run nodeID claimed code msg sw :
  x_RunID claimed = r_ID run -> spec (fail_claimed env nodeID claimed code msg sw) (sweep_there run sw) (swept run).
Proof.
  intros Hx. eapply spec_weaken; [apply (spec_then (Save env _ _) _ (fun _ => True)); apply tame_save; split; discriminate|done|].
  intros r st st' Hs [H1 H2]. destruct r as [sw'|]; [|done]. subst sw'. exact (sweep_there_set run sw nodeID (set_failed claimed NodeFailed code msg) true st' (sweep_there_calm run sw st st' Hs H1) Hx).
Qed.

(** What a claim gives: a row of the run and, for the run at hand, its key. *)
Lemma spec_try_claim run nodeID t P :
  spec (store_op env (fun _ s => tryClaim s (r_ID run) nodeID (workerID e) (leaseTTL e) t)) P
    (fun r st st' => calm st st' /\ match r with
      | inl (Some x) => x_RunID x = r_ID run /\ x_NodeID x = nodeID /\ (r_ID run = R -> row_at R (store (sh st')) nodeID (x_Attempt x) x)
      | _ => True end).
Proof.
  eapply spec_weaken; [apply (spec_op_any _ (fun _ => TryClaim (r_ID run) nodeID (workerID e) (leaseTTL e) t) (fun _ => True)); done|done|].
  intros r st st' _ (Hc & t' & s1 & HP1 & _ & _ & _ & Hst & _ & ->). split; [done|].
  destruct (tryClaim s1 (r_ID run) nodeID (workerID e) (leaseTTL e) t) as [s2 r] eqn:Et. cbn in *. destruct r as [[x|]|]; try done. cbn.
  destruct (claim_row _ _ _ _ _ _ _ _ _ (pi_ok _ _ _ _ _ HP1) Et) as (E1 & E2 & i & Hi). split_and!; [done|done|]. intros ER. exists i. rewrite Hst, <- ER. done.
Qed.

Lemma spec_claim run outputs nodeID resume sw :
  run_ok run -> spec (claim_node env lib e run outputs nodeID resume sw) (sweep_there run sw) (swept run).
Proof.
  intros Hrun. unfold claim_node. eapply spec_bind; [eapply spec_weaken; [apply tame_now|done|intros r st st' _ H; exact H]| |by intros].
  intros t st. eapply spec_bind; [apply spec_try_claim| |by intros]. intros [claimed|] st1; cbn beta iota.
  2:{ apply spec_ret. intros st2 _ (_ & (_ & HJ & Hc) & Hc' & _). eapply sweep_there_calm; [by eapply sweep_there_calm|done]. }
  cbv zeta. destruct (decide (x_RunID claimed = r_ID run)) as [Ex|Hx].
  2:{ assert (tame (match Lookup (registry e) (n_NodeID (nodeDefByID (r_Definition run) nodeID)) (n_Version (nodeDefByID (r_Definition run) nodeID)) with
        | inl err => fail_claimed env nodeID claimed "node_not_found" (node_error_text lib (schema_error lib err)) sw
        | inr spec => match nodeInput run (nodeDefByID (r_Definition run) nodeID) spec outputs resume with
            | Some input => mret (sw <| sw_jobs := sw_jobs sw ++ [mkJob (nodeDefByID (r_Definition run) nodeID) spec claimed input] |>)
            | None => fail_claimed env nodeID claimed "input_resolution" (fmtText lib "input_resolution" [n_ID (nodeDefByID (r_Definition run) nodeID)]) sw
            end end)) as [Hfo _] by (unfold fail_claimed; tames).
      split; [exact Hfo|]. by intros st2 _ (_ & _ & _ & ? & _). }
  destruct (Lookup (registry e) _ _) as [err|spec0] eqn:El.
  { eapply spec_weaken; [by apply (spec_fail_claimed run)| |by intros]. intros st2 (_ & (_ & HJ & Hc) & Hc' & _). eapply sweep_there_calm; [by eapply sweep_there_calm|done]. }
  destruct (nodeInput _ _ _ _ _) as [input|].
  2:{ eapply spec_weaken; [by apply (spec_fail_claimed run)| |by intros]. intros st2 (_ & (_ & HJ & Hc) & Hc' & _). eapply sweep_there_calm; [by eapply sweep_there_calm|done]. }
  apply spec_ret. intros st2 HI2 (_ & (_ & HJ & Hc) & Hc' & _ & En & Hrow). cbn.
  destruct (sweep_there_calm run sw _ _ (sweep_there_calm run sw _ _ HJ Hc) Hc') as [HJ' Hcur]. split; [|done]. cbn.
  apply Forall_app_2; [done|]. constructor; [|constructor]. unfold job_ok, key_there. cbn. rewrite nodeDefByID_ID. split_and!; [done|done| |].
  - intros ER. unfold side_effecting. rewrite (Hrun ER) in El. by rewrite El.
  - intros ER. exists claimed. by apply Hrow.
Qed.

Lemma spec_sweep_one run outputs sw nodeID :
  run_ok run -> spec (sweep_one env lib e run outputs sw nodeID) (sweep_there run sw) (swept run).
Proof.
  intros Hrun. unfold sweep_one. destruct (nodeReadiness _ _ _ _) as [ready skip].
  assert (spec (mret sw) (sweep_there run sw) (swept run)) as Hret by (by apply spec_ret).
  destruct (sw_current sw !! nodeID) as [cur|] eqn:Ecur.
  2:{ destruct skip; [by apply spec_throw|]. destruct ready; [by apply spec_claim|done]. }
  destruct (_ || _); [done|]. destruct skip.
  - eapply spec_bind; [eapply spec_weaken; [apply tame_try, tame_save; split; discriminate|done|intros r st st' _ H; exact H]| |by intros].
    intros r st. destruct r as [x|err].
    + apply spec_ret. intros st' _ (_ & HJ & Hc). assert (x_RunID cur = r_ID run) as Hx by exact (proj2 HJ nodeID cur Ecur).
      destruct (sweep_there_calm run sw st st' HJ Hc) as [HA HB]. split; [exact HA|]. cbn. apply map_Forall_insert_2; [exact Hx|exact HB].
    + destruct (lost_race err); [|by apply spec_throw]. apply spec_ret. intros st' _ (_ & HJ & Hc). by eapply sweep_there_calm.
  - destruct ready; [by apply spec_claim|done].
Qed.

(** *** Running a job *)

Definition gate_code (code : string) : bool := String.eqb code "approval_required" || String.eqb code "policy_required".
Definition is_gate (res : Payload + JobError) : bool := match res with inr (JNode err) => gate_code (ne_Code err) | _ => false end.
(** Nodes with side effects never ask for an approval themselves. *)
Hypothesis effects_decide : forall n spec rc err ne,
  has_effects spec = true -> run_node env n spec rc = inr err -> re_Node err = Some ne -> gate_code (ne_Code ne) = false.

Lemma result_gate spec n ctx rc err : has_effects spec = true -> execute_result lib spec ctx (run_node env n spec rc) = inr err -> gate_code (ne_Code err) = false.
Proof.
  intros Hs. unfold execute_result. destruct (run_node env n spec rc) as [out|rerr] eqn:Er.
  - case_bool_decide; [by intros [= <-]|]. destruct (redactJSONValue _ _); try (by intros [= <-]). destruct (_ <? _); by intros [= <-].
  - destruct (_ || _); [by intros [= <-]|]. destruct (_ || _); [by intros [= <-]|]. intros [= <-]. unfold asNodeError.
    destruct (re_Node rerr) as [ne|] eqn:En; [|done]. cbn. by apply (effects_decide _ _ _ _ _ Hs Er).
Qed.

Lemma spec_ran r n k :
  spec (emit (Ran r n k)) (fun st => r = R -> Ours st n k)
    (fun _ st st' => store (sh st') = store (sh st) /\ forall n' k', (n', k') <> (n, k) \/ r <> R \/ side_effecting (registry e) D n' = false -> Ours st n' k' -> Ours st' n' k').
Proof.
  split; [apply follows_emit|]. intros st HI HP _. cbn in *.
  assert (forall n' k', (n', k') <> (n, k) \/ r <> R -> ran R (log st ++ [Ran r n k]) n' k' = ran R (log st) n' k') as Hr.
  { intros n' k' Hne. rewrite ran_app. cbn. destruct (String.eqb_spec r R), (String.eqb_spec n n'), (Z.eqb_spec k k'); cbn; try lia. subst. by destruct Hne. }
  split.
  - destruct (decide (r = R)) as [->|Hne]; [|by apply Inv_log; auto].
    eapply Pinv_view; [exact (ran_inv _ _ _ _ _ n k HI (HP eq_refl))| |done]. intros n' k'. unfold joint. cbn [v_ran log sh update].
    rewrite !ran_joint. cbn. lia.
  - split; [done|]. intros n' k' Hne [H1 H2]. split; [done|]. intros Hs. destruct (H2 Hs) as [H3 H4]. split; [|done]. unfold joint in *. cbn [v_ran log sh update] in *.
    rewrite ran_joint, Hr, <- ran_joint; [done|]. destruct Hne as [?|[?|?]]; [by left|by right|congruence].
Qed.

(** A job that was stopped at a gate was not run. *)
Definition key_ours (run : Run) (jb : engineJob) (st : St) : Prop := Ours st (n_ID (j_node jb)) (x_Attempt (j_exec jb)).
Definition gated (run : Run) (jb : engineJob) (res : Payload + JobError) : Prop :=
  r_ID run = R /\ side_effecting (registry e) D (n_ID (j_node jb)) = true /\ is_gate res = true.
Definition gate_unrun (run : Run) (jb : engineJob) (res : Payload + JobError) (st : St) : Prop := gated run jb res -> key_ours run jb st.

Lemma spec_audit ev P : spec (emit (Audit ev)) P (fun _ st st' => calm st st').
Proof. eapply spec_weaken; [apply tame_audit|done|by intros]. Qed.

(** After the dispatch was recorded: what holds until the call is made. *)
Definition dispatched (run : Run) (jb : engineJob) (st0 st : St) : Prop :=
  calm st0 st /\ (r_ID run = R -> key_ours run jb st /\ (side_effecting (registry e) D (n_ID (j_node jb)) = true -> ~ key_ours run jb st0)).

Lemma spec_dispatch run jb P :
  job_ok run jb ->
  spec (Save env (j_exec jb <| x_State := NodeRunning |> <| x_Dispatched := true |>) (Some NodeClaimed)) P
    (fun r st st' => match r with inl _ => dispatched run jb st st' | inr _ => calm st st' end).
Proof.
  intros (J1 & J2 & _). set (exec := j_exec jb <| x_State := NodeRunning |> <| x_Dispatched := true |>).
  eapply spec_weaken; [apply (spec_op_any _ (fun t => SaveNodeExecution exec (Some NodeClaimed) t) (fun _ => True)); [done|by intros t v _; split]|done|].
  intros r st st' _ (Hc & t & s1 & HP1 & Hsteady & Hfit & Hlog & Hst & _ & ->).
  destruct (saveNodeExecution s1 exec (Some NodeClaimed) t) as [s2 [x|err]] eqn:Es; [|exact Hc]. cbn in Hst. split; [exact Hc|]. intros ER.
  destruct (save_running _ _ _ s1 (seen st') exec t s2 x HP1) as (H1 & H2 & H3); [cbn; congruence|done|done|exact Es|].
  change (x_NodeID exec) with (x_NodeID (j_exec jb)) in *. change (x_Attempt exec) with (x_Attempt (j_exec jb)) in *. rewrite J2 in *.
  unfold key_ours. split; [split; [by rewrite Hst|exact H2]|]. intros Hs Ho. apply (H3 Hs). by apply (proj2 Hsteady _ _ Ho).
Qed.

Lemma dispatched_step run jb st0 st st' : dispatched run jb st0 st -> calm st st' -> dispatched run jb st0 st'.
Proof.
  intros [Hp Hd] Hc. split; [by eapply calm_trans|]. intros ER. destruct (Hd ER) as [H1 H2]. split; [by eapply calm_ours|done].
Qed.

Lemma spec_step P : spec (step env) P (fun _ st st' => sh st' = sh st /\ log st' = log st).
Proof. split; [apply follows_step|]. intros st HI _ _. unfold step. destruct (crash env (tick st)); cbn; (split; [exact HI|]); [exact I|done]. Qed.

Lemma spec_execute run jb st0 principal input config approved :
  job_ok run jb ->
  spec (ExecuteNode env lib (r_ID run, n_ID (j_node jb), x_Attempt (j_exec jb)) (j_spec jb) principal input config approved) (dispatched run jb st0)
    (fun r _ st' => match r with
      | inl out => let res := match out with inl m => inl m | inr err => inr (JNode err) end in
          calm st0 st' /\ gate_unrun run jb res st' /\ (gated run jb res -> ~ key_ours run jb st0)
      | inr _ => True end).
Proof.
  intros (J1 & J2 & J3). unfold ExecuteNode. destruct (execute_guard _ _ _ _ _ _) as [err|].
  { apply spec_ret. intros st _ [Hp Hd]. split; [done|]. split; intros (ER & Hs & _); destruct (Hd ER) as [H1 H2]; [done|by apply H2]. }
  eapply spec_bind; [apply spec_step| |by intros]. intros n st. cbn beta iota. cbn [fst snd].
  eapply spec_bind; [eapply spec_weaken; [apply spec_ran| |intros r a b _ H; exact H]| |by intros].
  - intros st' (_ & [_ Hd] & Esh & Elog) ER. rewrite Esh, Elog. by apply (Hd ER).
  - intros [] st1. apply spec_ret. intros st2 _ (_ & (_ & [Hp Hd] & Esh & Elog) & Est & Hr). cbv zeta.
    assert (forall out, execute_result lib (j_spec jb) (node_ctx env n) (run_node env n (j_spec jb) (mkRunContext principal input config approved)) = out ->
      ~ gated run jb (match out with inl m => inl m | inr err => inr (JNode err) end)) as Hng.
    { intros out Ho (ER & Hs & Hg). rewrite (J3 ER) in Hs. destruct out as [m|err]; [done|]. cbn in Hg. by rewrite (result_gate _ _ _ _ _ Hs Ho) in Hg. }
    split; [|split; [by intros Hg; destruct (Hng _ eq_refl)|by intros Hg; destruct (Hng _ eq_refl)]].
    split.
    + intros n' k' x Hx. rewrite Est, Esh. by apply (calm_keys _ _ Hp n' k' x).
    + intros n' k' Ho. apply Hr; [|rewrite Esh, Elog; by apply (calm_ours _ _ _ _ Hp)].
      destruct (decide (r_ID run = R)) as [ER|]; [|by right; left]. destruct (side_effecting (registry e) D n') eqn:Hs; [left|by right; right].
      intros [= -> ->]. destruct (Hd ER) as [_ H2]. by apply (H2 Hs).
Qed.

Lemma spec_run_job run jb P :
  job_ok run jb ->
  spec (run_job env lib run jb) P
    (fun r st st' => match r with inl res => calm st st' /\ gate_unrun run jb res st' /\ (gated run jb res -> ~ key_ours run jb st) | inr _ => True end).
Proof.
  intros HJ. unfold run_job. eapply spec_bind; [apply spec_audit| |by intros]. intros [] st.
  eapply spec_bind; [apply spec_tried, (spec_dispatch run jb _ HJ)| |by intros]. intros [x|err] st1.
  2:{ apply spec_ret. intros st2 _ (_ & (_ & _ & Hc) & Hp). split; [by eapply calm_trans|]. split; by intros (_ & _ & ?). }
  cbn beta iota. eapply spec_bind; [apply spec_tried, spec_get| |by intros]. intros appr st2. cbv zeta.
  eapply spec_bind; [eapply spec_weaken; [apply (spec_execute run jb st1 _ _ _ _ HJ)| |]| |].
  - intros st3 (_ & (_ & _ & Hd) & Hc & _). by eapply dispatched_step.
  - intros r a b (_ & (_ & (_ & _ & Hc) & _) & _) HQ. exact (conj Hc HQ).
  - intros out st3. apply spec_ret. intros st4 _ (_ & _ & Hps & Hp & Hg & Hn). split; [by eapply calm_trans|]. split; [exact Hg|].
    intros Hgd Ho. apply (Hn Hgd). by eapply calm_ours.
  - by intros.
Qed.

(** *** Recording an outcome *)

Definition same_attempt (jb : engineJob) (c : NodeExecution) : bool := String.eqb (x_NodeID c) (n_ID (j_node jb)) && (x_Attempt c =? x_Attempt (j_exec jb)).
Lemma refresh_fold jb l : forall current : gmap string NodeExecution,
  let c' := fold_left (fun current c => if same_attempt jb c then <[n_ID (j_node jb) := c]> current else current) l current in
  (exists c, In c l /\ same_attempt jb c = true /\ c' !! n_ID (j_node jb) = Some c)
  \/ ((forall c, In c l -> same_attempt jb c = false) /\ c' = current).
Proof.
  induction l as [|y l IH] using rev_ind; intros current; [right; by split|]. cbv zeta. rewrite fold_left_app. cbn [fold_left].
  destruct (same_attempt jb y) eqn:E.
  - left. exists y. split_and!; [apply in_or_app; right; by left|done|by rewrite lookup_insert_eq].
  - destruct (IH current) as [(c & Hc & Hs & Hl)|[Hn Hl]].
    + left. exists c. split_and!; [apply in_or_app; by left|done|done].
    + right. split; [|done]. intros c Hc. apply in_app_or in Hc as [Hc|[<-|[]]]; auto.
Qed.
Lemma refresh_other jb l : forall (current : gmap string NodeExecution) id, id <> n_ID (j_node jb) ->
  fold_left (fun current c => if same_attempt jb c then <[n_ID (j_node jb) := c]> current else current) l current !! id = current !! id.
Proof. induction l as [|y l IH]; intros current id Hid; [done|]. cbn [fold_left]. rewrite IH by done. destruct (same_attempt jb y); [by rewrite lookup_insert_ne|done]. Qed.

Lemma getnodes_rows s lg runID rs : Pinv (registry e) R D s lg -> getNodeExecutions s runID = inl rs ->
  rs ≡ₚ rows s runID /\ Forall (fun x => x_RunID x = runID) rs.
Proof.
  intros HP. unfold getNodeExecutions. destruct (runs s !! runID); [|done]. intros [= <-]. split; [apply slice_stable_perm|].
  rewrite slice_stable_perm. apply Forall_lookup. intros i x Hi. destruct (ok_rows _ _ (pi_ok _ _ _ _ _ HP) _ _ (rows_get _ _ _ _ Hi)) as (_ & Hr & _).
  rewrite Forall_lookup in Hr. by destruct (Hr i x Hi).
Qed.

(** The current row of the job: of the run, and with the key of the job. *)
Definition exec_ok (run : Run) (jb : engineJob) (exec : NodeExecution) : Prop :=
  x_RunID exec = r_ID run /\ (r_ID run = R -> x_NodeID exec = n_ID (j_node jb) /\ x_Attempt exec = x_Attempt (j_exec jb)).
Definition refreshed (run : Run) (jb : engineJob) (current : gmap string NodeExecution) : Prop :=
  cur_ok run current /\ exec_ok run jb (default (j_exec jb) (current !! n_ID (j_node jb))).
Lemma spec_refresh run jb current :
  job_ok run jb -> cur_ok run current ->
  spec (refresh env run jb current) (fun st => key_there (store (sh st)) run jb) (fun r st st' => calm st st' /\ match r with inl c => refreshed run jb c | inr _ => True end).
Proof.
  intros (J1 & J2 & J3) Hcur. unfold refresh. eapply spec_bind; [apply spec_tried, spec_get| |by intros].
  intros r st. apply spec_ret. intros st' HI (_ & Hk & Hc & ->). split; [done|]. set (n := n_ID (j_node jb)) in *.
  assert (forall rs, getNodeExecutions (store (sh st')) (r_ID run) = inl rs ->
    refreshed run jb (fold_left (fun current c => if same_attempt jb c then <[n := c]> current else current) rs current)) as Hrs.
  { intros rs Hrs. destruct (getnodes_rows _ _ _ _ HI Hrs) as [Hperm Hall]. rewrite Forall_forall in Hall.
    destruct (refresh_fold jb rs current) as [(c & Hin & Hs & Hl)|[Hn Hl]]; cbv zeta in Hl; fold n in Hl.
    - apply andb_true_iff in Hs as [Hs1%String.eqb_eq Hs2%Z.eqb_eq]. assert (x_RunID c = r_ID run) as Hxc by (apply Hall; by apply list_elem_of_In).
      split.
      + intros id x. destruct (decide (id = n)) as [->|Hne]; [|unfold n in *; rewrite refresh_other by done; apply Hcur].
        rewrite Hl. by intros [= <-].
      + fold n. rewrite Hl. cbn. split; [done|]. intros _. by split.
    - rewrite Hl. split; [done|]. fold n. destruct (current !! n) as [x|] eqn:Ex; cbn.
      + split; [by apply (Hcur n)|]. intros ER. exfalso. destruct (Hk ER) as [x0 Hx0]. destruct (calm_keys _ _ Hc _ _ _ Hx0) as (y & i & Hy & Hyn & Hya).
        assert (same_attempt jb y = false) as Hf.
        { apply Hn, list_elem_of_In. rewrite Hperm, ER. by eapply list_elem_of_lookup_2. }
        unfold same_attempt in Hf. by rewrite Hyn, Hya, String.eqb_refl, Z.eqb_refl in Hf.
      + split; [done|]. intros _. by split. }
  destruct (getNodeExecutions (store (sh st')) (r_ID run)) as [rs|err] eqn:Eg; cbn [answer]; [by apply Hrs|].
  split; [done|]. fold n. destruct (current !! n) as [x|] eqn:Ex; cbn; [|split; [done|by intros _; split]]. split; [by apply (Hcur n)|].
  intros ER. exfalso. destruct (pi_def _ _ _ _ _ HI) as (r & Hr & _). unfold getNodeExecutions in Eg. rewrite ER, Hr in Eg. done.
Qed.

Definition job_key (jb : engineJob) : string * Z := (n_ID (j_node jb), x_Attempt (j_exec jb)).
(** What recording the outcome of a job leaves alone: all, but its own attempt when
    it was stopped at a gate. *)
Definition calm_but (run : Run) (jb : engineJob) (res : Payload + JobError) (st st' : St) : Prop :=
  (forall n k x, row_at R (store (sh st)) n k x -> exists x', row_at R (store (sh st')) n k x')
  /\ forall n k, (gated run jb res -> (n, k) <> job_key jb) -> Ours st n k -> Ours st' n k.
Lemma calm_but_calm run jb res st st' : calm st st' -> calm_but run jb res st st'.
Proof. intros [H1 H2]. split; [done|]. intros n k _. apply H2. Qed.
Lemma calm_but_trans run jb res a b c : calm_but run jb res a b -> calm_but run jb res b c -> calm_but run jb res a c.
Proof. intros [A1 A2] [B1 B2]. split; [intros n k x Hx; destruct (A1 n k x Hx) as [y Hy]; eauto|auto]. Qed.
Lemma calm_but_after run jb res a b c : calm a b -> calm_but run jb res b c -> calm_but run jb res a c.
Proof. intros H. apply calm_but_trans. by apply calm_but_calm. Qed.
Lemma calm_but_before run jb res a b c : calm_but run jb res a b -> calm b c -> calm_but run jb res a c.
Proof. intros H H'. eapply calm_but_trans; [exact H|by apply calm_but_calm]. Qed.

Definition recorded (run : Run) (jb : engineJob) (res : Payload + JobError) (r : gmap string NodeExecution + EngineError) (st st' : St) : Prop :=
  calm_but run jb res st st' /\ match r with inl c => cur_ok run c | inr _ => True end.
Lemma save_result s exec expected t s' x : saveNodeExecution s exec expected t = (s', inl x) -> x_RunID x = x_RunID exec.
Proof.
  unfold saveNodeExecution. destruct (currentAttempt _ _ _) as [[i cur]|]; [|done]. destruct (_ && _); [done|]. destruct (node_Terminal _ && _); [done|].
  destruct (negb (validNodeTransition _ _)); [done|]. destruct (negb (_ =? _)); [done|]. intros [= _ <-]. apply replace_row_keeps.
Qed.
Lemma append_result s v exec given t s' x : Pinv (registry e) R D s v -> appendNodeExecution s exec given t = (s', inl x) -> x_RunID x = x_RunID exec.
Proof.
  intros HP. unfold appendNodeExecution. destruct (runs s !! x_RunID exec); [|done].
  destruct (if String.eqb (x_AppendOperationID exec) "" then None else _) as [y|] eqn:Ef; intros [= _ <-]; [|done].
  destruct (String.eqb _ ""); [done|]. apply List.find_some in Ef as [Hin _]. apply list_elem_of_In, list_elem_of_lookup in Hin as [i Hi].
  destruct (ok_rows _ _ (pi_ok _ _ _ _ _ HP) _ _ (rows_get _ _ _ _ Hi)) as (_ & Hr & _). rewrite Forall_lookup in Hr. by destruct (Hr i y Hi).
Qed.

Lemma spec_park_ret run jb res exec current P : cur_ok run current -> spec (parkPersistFailure env run exec ≫= fun _ => mret current) P (recorded run jb res).
Proof.
  intros Hc. eapply spec_weaken; [apply (spec_then _ _ P), tame_park|done|]. intros r st st' _ [H1 H2]. split; [by apply calm_but_calm|]. destruct r; [by subst|done].
Qed.
(** A save of the outcome: a closed row, or a free attempt of the job. *)
Definition saved_row (run : Run) (jb : engineJob) (res : Payload + JobError) (r : NodeExecution + EngineError) (st st' : St) : Prop :=
  calm_but run jb res st st' /\ match r with inl x => x_RunID x = r_ID run | inr _ => True end.
Lemma spec_finish run jb res exec next nodeID current P :
  cur_ok run current -> spec (Save env next (Some (x_State exec))) P (saved_row run jb res) ->
  spec (finish env run exec next nodeID current) P (recorded run jb res).
Proof.
  intros Hc Hsave. unfold finish. eapply spec_bind; [apply spec_tried, Hsave| |by intros]. intros [saved|err] st.
  - cbn beta iota. eapply spec_weaken; [apply (spec_then (emit (Audit _)) (<[nodeID := saved]> current) (fun _ => True)), tame_audit|done|].
    intros r st' st'' (_ & _ & Hc1 & Hx) [Hc2 Hr]. split; [by eapply calm_but_before|]. destruct r as [c|]; [|done]. subst c. by apply map_Forall_insert_2.
  - eapply spec_weaken; [by apply (spec_park_ret run jb res exec current (fun _ => True))|done|].
    intros r st' st'' (_ & _ & Hc1 & _) [Hc2 Hr]. split; [by eapply calm_but_trans|done].
Qed.
Lemma save_answer run exec expected r st st' : x_RunID exec = r_ID run ->
  applied (fun t s => saveNodeExecution s exec expected t) (fun t => SaveNodeExecution exec expected t) r st st' -> match r with inl x => x_RunID x = r_ID run | inr _ => True end.
Proof.
  intros Hx (t & s1 & _ & _ & _ & _ & _ & _ & ->). destruct (saveNodeExecution s1 exec expected t) as [s2 [x|err]] eqn:Es; [|done].
  cbn. by rewrite (save_result _ _ _ _ _ _ Es).
Qed.
Lemma spec_save_closed run jb res next expected P :
  x_RunID next = r_ID run -> open_state (x_State next) = false -> x_State next <> NodeRunning -> spec (Save env next expected) P (saved_row run jb res).
Proof.
  intros Hx Ho Hn. eapply spec_weaken; [apply (spec_op_any _ (fun t => SaveNodeExecution next expected t) P); [done|]|done|].
  - intros t v _. split; [done|]. by rewrite Ho.
  - intros r st st' _ [Hc Ha]. split; [by apply calm_but_calm|by eapply save_answer].
Qed.
Lemma spec_save_gate run jb res next expected P :
  is_gate res = true -> x_RunID next = r_ID run -> x_State next <> NodeRunning ->
  (r_ID run = R -> x_NodeID next = n_ID (j_node jb) /\ x_Attempt next = x_Attempt (j_exec jb)) ->
  (forall st, P st -> r_ID run = R -> side_effecting (registry e) D (n_ID (j_node jb)) = true -> key_ours run jb st) ->
  spec (Save env next expected) P (saved_row run jb res).
Proof.
  intros Hig Hx Hn Hkey HP. eapply spec_weaken; [apply (spec_op _ (fun t => SaveNodeExecution next expected t) P); [done|done|]|done|].
  - intros st _ Hst t s1 v1 Hsteady ER. split; [done|]. intros _ Hs. left. assert (r_ID run = R) as ER' by congruence.
    destruct (Hkey ER') as [E1 E2]. rewrite E1, E2 in *. destruct (proj2 Hsteady _ _ (HP st Hst ER' Hs)) as [_ Hf]. by apply Hf.
  - intros r st st' Hst Ha. split; [|by eapply save_answer]. pose proof Ha as (t & s1 & HP1 & Hsteady & Hfit & _ & E1 & E2 & _).
    destruct (decide (r_ID run = R)) as [ER|Hne].
    + destruct (Hkey ER) as [K1 K2]. unfold calm_but. rewrite E1. cbn in Hfit.
      destruct (save_free _ _ _ s1 (seen st') next expected t HP1) as (_ & Hk & Ho); [congruence|done| |done|].
      { intros Hs. rewrite K1 in Hs. rewrite K1, K2. by apply (proj2 Hsteady _ _ (HP st Hst ER Hs)). }
      assert (forall n k x, row_at R (store (sh st)) n k x -> exists x', row_at R (saveNodeExecution s1 next expected t).1 n k x') as Hkeys.
      { intros n k x Hx'. destruct (proj1 Hsteady n k x Hx') as [y Hy]. by apply (Hk n k y). }
      split; [exact Hkeys|]. intros n k Hne Hours. rewrite K1, K2 in Ho. destruct (decide ((n, k) = job_key jb)) as [E|Hk']; [|by apply (Ho n k Hk'), (proj2 Hsteady)].
      injection E as -> ->. destruct (side_effecting (registry e) D (n_ID (j_node jb))) eqn:Hs; [by destruct (Hne (conj ER (conj Hs Hig)))|].
      destruct Hours as [(x & Hx' & _) _]. destruct (Hkeys _ _ x Hx') as [x' Hx'']. split; [exists x'; split; [done|by rewrite Hs]|by rewrite Hs].
    + apply calm_but_calm. eapply applied_calm; [exact Ha|]. intros t' v ER. congruence.
Qed.
Lemma spec_finish_closed run jb res exec next nodeID current P :
  cur_ok run current -> x_RunID next = r_ID run -> open_state (x_State next) = false -> x_State next <> NodeRunning ->
  spec (finish env run exec next nodeID current) P (recorded run jb res).
Proof. intros Hc Hx Ho Hn. apply spec_finish; [done|]. by apply spec_save_closed. Qed.

(** A fact the precondition gives may be assumed. *)
Lemma spec_assume {A} (m : M A) (phi : Prop) P Q : follows m -> (forall st, P st -> phi) -> (phi -> spec m P Q) -> spec m P Q.
Proof. intros Fm HP H. split; [done|]. intros st HI Hst. by apply (H (HP st Hst)). Qed.

Lemma spec_settle run jb res current :
  refreshed run jb current ->
  spec (settle env lib e run jb res current) (gate_unrun run jb res) (recorded run jb res).
Proof.
  intros [Hcur [Hx Hkey]]. unfold settle. cbv zeta. set (n := n_ID (j_node jb)) in *. set (exec := default (j_exec jb) (current !! n)) in *.
  destruct res as [out|err].
  { destruct (_ && _); [by apply spec_finish_closed|]. destruct (sanitizeNodeOutput _ _ _) as [cleaned truncated]. by apply spec_finish_closed. }
  destruct (match err with JNode ne => _ | JStore _ => _ end) as [code retryable] eqn:Ecode.
  destruct (String.eqb code "cancelled"); [by apply spec_finish_closed|]. destruct (String.eqb code "approval_required" || _) eqn:Egate.
  { eapply (spec_bind _ _ _ (fun _ => calm)); [|intros deadline st|intros err' st st' _ H; split; [by apply calm_but_calm|done]].
    - assert (tame (if 0 <? approvalTimeout e then t ← now env; mret (Add t (approvalTimeout e)) else mret (x_Deadline exec))) as Ht by tames.
      eapply spec_weaken; [exact Ht|done|intros r st st' _ H; exact H].
    - eapply spec_weaken; [apply (spec_finish run jb (inr err) exec _ n current (gate_unrun run jb (inr err))); [done|]| |].
      + assert (is_gate (inr err) = true) as Hig by (destruct err as [ne|]; cbn in Ecode; injection Ecode as <- <-; [exact Egate|done]).
        apply spec_save_gate; [done|done|done|exact Hkey|]. intros st' Hg ER Hs. apply Hg. by split_and!.
      + intros st' (_ & Hg & Hc) Hgd. eapply calm_ours; [exact Hc|by apply Hg].
      + intros r st' st'' (_ & _ & Hc) [Hc' Hr]. split; [by eapply calm_but_after|done]. }
  destruct (_ && _ && _).
  { eapply spec_bind; [apply spec_tried, (spec_op_any _ (fun t => AppendNodeExecution (new_attempt (r_ID run) n ("retry:" +:+ Itoa (x_Attempt exec))) (Some NodePending) t)); done| |by intros].
    intros [appended|aerr] st.
    2:{ eapply spec_weaken; [by apply (spec_park_ret run jb (inr err) exec current (fun _ => True))|done|]. intros r st' st'' (_ & _ & Hc & _) [Hc' Hr]. split; [by eapply calm_but_after|done]. }
    cbn beta iota. eapply (spec_bind _ _ _ (fun _ => calm)); [eapply spec_weaken; [apply tame_try, tame_save; split; discriminate|done|intros r st' st'' _ H; exact H]| |].
    - intros [x|serr] st1.
      + apply spec_ret. intros st2 _ (_ & (_ & _ & Hc & t & s1 & HP1 & _ & _ & _ & _ & _ & Hans) & Hc'). split; [apply calm_but_calm; by eapply calm_trans|].
        apply map_Forall_insert_2; [|done]. destruct (appendNodeExecution s1 _ (Some NodePending) t) as [s2 [y|]] eqn:Ea; [|done].
        injection Hans as ->. by rewrite (append_result _ _ _ _ _ _ _ HP1 Ea).
      + eapply spec_weaken; [by apply (spec_park_ret run jb (inr err) exec current (fun _ => True))|done|].
        intros r st2 st3 (_ & (_ & _ & Hc & _) & Hc') [Hc'' Hr]. split; [|done]. eapply calm_but_after; [|exact Hc'']. by eapply calm_trans.
    - intros err' st1 st2 (_ & _ & Hc & _) Hc'. split; [apply calm_but_calm; by eapply calm_trans|done]. }
  destruct (_ && _); [|by apply spec_finish_closed].
  eapply spec_bind; [by apply spec_finish_closed| |by intros]. intros c st. eapply spec_weaken; [apply (spec_then _ c (fun _ => True)), tame_audit|done|].
  intros r st' st'' (_ & _ & Hc & Hcc) [Hc' Hr]. split; [by eapply calm_but_before|]. destruct r; [by subst|done].
Qed.

Lemma spec_record run jb res current :
  job_ok run jb -> cur_ok run current ->
  spec (recordOutcome env lib e run jb res current) (fun st => key_there (store (sh st)) run jb /\ gate_unrun run jb res st) (recorded run jb res).
Proof.
  intros HJ Hcur. unfold recordOutcome. eapply (spec_bind _ _ _ (fun r st st' => calm st st' /\ match r with inl c => refreshed run jb c | inr _ => True end)).
  - eapply spec_weaken; [by apply spec_refresh|by intros st [? ?]|by intros].
  - intros current1 st. apply (spec_assume _ (refreshed run jb current1)); [by apply follows_settle|by intros st' (_ & _ & _ & ?)|]. intros Hr.
    eapply spec_weaken; [by apply spec_settle| |].
    + intros st' (_ & [_ Hg] & Hc & _) Hgd. eapply calm_ours; [exact Hc|by apply Hg].
    + intros r st' st'' (_ & _ & Hc & _) [Hc' Hrr]. split; [by eapply calm_but_after|done].
  - intros err st st' _ [H _]. split; [by apply calm_but_calm|done].
Qed.

(** *** The pool *)

Lemma spec_ranged {A} (l : list A) P :
  spec (ranged env l) P (fun r st st' => sh st' = sh st /\ log st' = log st /\ match r with inl l' => l' ≡ₚ l | inr _ => True end).
Proof.
  unfold ranged. eapply spec_bind; [apply spec_step| |intros err st st' _ [? ?]; done]. intros n st. apply spec_ret.
  intros st' _ (_ & _ & E1 & E2). split_and!; [done|done|apply range_perm].
Qed.
Lemma imap_pair_lookup {A} (l : list A) ij : In ij (imap pair l) -> l !! ij.1 = Some ij.2.
Proof.
  intros H. apply list_elem_of_In, list_elem_of_lookup in H as [i Hi]. rewrite list_lookup_imap in Hi.
  destruct (l !! i) as [x|] eqn:E; cbn in Hi; [|done]. by injection Hi as <-.
Qed.
(** Two jobs that were stopped at a gate are of two attempts. *)
Definition gates_apart (run : Run) (jobs : list engineJob) (results : gmap nat (Payload + JobError)) : Prop :=
  forall i j jb jb' res res', i <> j -> jobs !! i = Some jb -> jobs !! j = Some jb' -> results !! i = Some res -> results !! j = Some res' ->
    gated run jb res -> gated run jb' res' -> job_key jb <> job_key jb'.
Definition pool_inv (run : Run) (jobs : list engineJob) (results : gmap nat (Payload + JobError)) (st : St) : Prop :=
  jobs_there run jobs st /\ (forall i jb res, jobs !! i = Some jb -> results !! i = Some res -> gate_unrun run jb res st) /\ gates_apart run jobs results.
(** The outcomes of [todo] are still to be recorded. *)
Definition record_inv (run : Run) (jobs : list engineJob) (results : gmap nat (Payload + JobError)) (todo : list (nat * engineJob)) (st : St) : Prop :=
  jobs_there run jobs st /\ forall ij res, In ij todo -> results !! ij.1 = Some res -> gate_unrun run ij.2 res st.
Lemma jobs_there_nth run jobs st i jb : jobs_there run jobs st -> jobs !! i = Some jb -> job_ok run jb /\ key_there (store (sh st)) run jb.
Proof. unfold jobs_there. rewrite Forall_lookup. intros H Hi. by apply (H i). Qed.

Lemma spec_pool run jobs results ij :
  jobs !! ij.1 = Some ij.2 -> job_ok run ij.2 ->
  spec (r ← run_job env lib run ij.2; mret (<[ij.1 := r]> results)) (pool_inv run jobs results)
    (fun r _ st' => match r with inl results' => pool_inv run jobs results' st' | inr _ => True end).
Proof.
  intros Hij HJ. eapply spec_bind; [apply (spec_run_job run ij.2 _ HJ)| |by intros]. intros res st. apply spec_ret.
  intros st' _ (_ & (Hthere & Hgates & Hap) & Hp & Hg & Hn). split; [eapply jobs_there_mono; [exact Hthere|by apply calm_keys]|].
  assert (forall j jb' res', jobs !! j = Some jb' -> j <> ij.1 -> results !! j = Some res' -> gated run ij.2 res -> gated run jb' res' -> job_key ij.2 <> job_key jb') as Hnew.
  { intros j jb' res' Hj Hne Hres G1 G2 [= E1 E2]. apply (Hn G1). unfold key_ours. rewrite E1, E2. by apply (Hgates j jb' res'). }
  split.
  - intros i jb res' Hi Hres. destruct (decide (ij.1 = i)) as [<-|Hne].
    + rewrite lookup_insert_eq in Hres. simplify_eq. exact Hg.
    + rewrite lookup_insert_ne in Hres by done. intros Hgd. eapply calm_ours; [exact Hp|]. by apply (Hgates i jb res').
  - intros i j jb jb' r1 r2 Hne Hi Hj Hr1 Hr2 G1 G2. destruct (decide (ij.1 = i)) as [<-|Hni], (decide (ij.1 = j)) as [<-|Hnj]; try done;
      rewrite ?lookup_insert_eq in *; rewrite ?lookup_insert_ne in * by done; simplify_eq.
    + by apply (Hnew j jb' r2).
    + intros E. exact (Hnew i jb r1 Hi (not_eq_sym Hni) Hr1 G2 G1 (eq_sym E)).
    + by apply (Hap i j jb jb' r1 r2).
Qed.
Lemma spec_record_all run jobs results (todo : list (nat * engineJob)) :
  gates_apart run jobs results -> NoDup todo.*1 -> (forall ij, In ij todo -> jobs !! ij.1 = Some ij.2) -> Forall (job_ok run) jobs ->
  forall current, cur_ok run current ->
  spec (mfold (fun current ij => match results !! ij.1 with Some r => recordOutcome env lib e run ij.2 r current | None => mret current end) todo current)
    (record_inv run jobs results todo) (fun _ _ _ => True).
Proof.
  intros Hap. induction todo as [|[i jb] todo IH]; intros Hd Hin HJs current Hcur; cbn [mfold]; [by apply spec_ret|]. cbn [fst snd].
  cbn in Hd. apply NoDup_cons in Hd as [Hni Hd]. pose proof (Hin (i, jb) (or_introl eq_refl)) as Hi. cbn in Hi.
  assert (job_ok run jb) as HJ by (rewrite Forall_lookup in HJs; by apply (HJs i)).
  assert (forall c, cur_ok run c -> spec (mfold (fun current ij => match results !! ij.1 with Some r => recordOutcome env lib e run ij.2 r current | None => mret current end) todo c)
    (record_inv run jobs results todo) (fun _ _ _ => True)) as HIH by (intros c Hc; apply IH; [done|intros; apply Hin; by right|done|done]).
  assert (forall c, follows (mfold (fun current ij => match results !! ij.1 with Some r => recordOutcome env lib e run ij.2 r current | None => mret current end) todo c)) as Hfo.
  { intros c. apply follows_mfold. intros c' ij. destruct (results !! ij.1); [by apply follows_record_outcome|apply follows_ret]. }
  destruct (results !! i) as [res|] eqn:Er.
  - eapply (spec_bind _ _ _ (recorded run jb res)); [eapply spec_weaken; [by apply (spec_record run jb res current)| |by intros]| |by intros].
    + intros st [H1 H2]. split; [by apply (jobs_there_nth run jobs st i jb)|]. by apply (H2 (i, jb) res (or_introl eq_refl)).
    + intros c st. apply (spec_assume _ (cur_ok run c)); [apply Hfo|by intros st' (_ & _ & _ & ?)|]. intros Hc.
      eapply spec_weaken; [by apply HIH| |by intros]. intros st' (_ & [H1 H2] & [[Hk Ho] _]).
      split; [by eapply jobs_there_mono|]. intros [j jb'] res' Hin' Hres Hgd. cbn [fst snd] in *. apply Ho.
      * intros Hgd' E. apply (Hap j i jb' jb res' res); try done; [|by apply (Hin (j, jb')); right].
        intros ->. apply Hni. apply list_elem_of_fmap. exists (i, jb'). split; [done|by apply list_elem_of_In].
      * apply (H2 (j, jb') res'); [by right|done|done].
  - eapply (spec_bind _ _ _ (fun r st st' => st' = st /\ match r with inl c => c = current | inr _ => False end)); [by apply spec_ret| |by intros].
    intros c st. apply (spec_assume _ (c = current)); [apply Hfo|by intros st' (_ & _ & _ & ?)|]. intros ->.
    eapply spec_weaken; [by apply HIH| |by intros]. intros st' (_ & [H1 H2] & -> & _). split; [done|]. intros ij res' Hin' Hres. apply (H2 ij res'); [by right|done].
Qed.
Lemma imap_pair_fst {A} (l : list A) : NoDup (imap pair l).*1.
Proof.
  assert ((imap pair l).*1 = seq 0 (length l)) as ->; [|apply NoDup_seq]. apply list_eq. intros i. rewrite list_lookup_fmap, list_lookup_imap.
  destruct (l !! i) as [x|] eqn:E; cbn.
  - symmetry. apply lookup_seq. split; [done|by eapply lookup_lt_Some].
  - symmetry. apply lookup_seq_ge. by apply lookup_ge_None in E.
Qed.

Lemma spec_runjobs run jobs current :
  cur_ok run current -> spec (runJobs env lib e run jobs current) (jobs_there run jobs) (fun _ _ _ => True).
Proof.
  intros Hcur. apply (spec_assume _ (Forall (job_ok run) jobs)); [by apply follows_runjobs| |].
  { intros st H. eapply Forall_impl; [exact H|]. by intros jb [? ?]. }
  intros HJs. assert (forall ij, jobs !! ij.1 = Some ij.2 -> job_ok run ij.2) as HJ by (intros ij Hij; rewrite Forall_lookup in HJs; by apply (HJs ij.1)).
  unfold runJobs. eapply spec_bind; [apply spec_ranged| |by intros]. intros order st. cbn beta iota.
  assert (forall results : gmap nat (Payload + JobError), follows (mfold (fun current ij => match results !! ij.1 with Some r => recordOutcome env lib e run ij.2 r current | None => mret current end) (imap pair jobs) current;; mret tt)) as Hfo.
  { intros results. apply follows_bind; [|intros; apply follows_ret]. apply follows_mfold. intros c ij. destruct (results !! ij.1); [by apply follows_record_outcome|apply follows_ret]. }
  apply (spec_assume _ (order ≡ₚ imap pair jobs)); [|by intros st' (_ & _ & _ & _ & ?)|].
  { apply follows_bind; [apply follows_mfold; intros; apply follows_bind; [by apply follows_runjob|intros; apply follows_ret]|]. exact Hfo. }
  intros Hperm. eapply spec_bind.
  - eapply spec_weaken; [apply (spec_mfold _ (pool_inv run jobs) order)| |intros r st' st'' _ H; exact H].
    + intros results ij Hin. rewrite Hperm in Hin. apply imap_pair_lookup in Hin. apply spec_pool; auto.
    + intros st' (_ & Hj & E1 & E2 & _). split_and!; [by eapply jobs_there_mono; [exact Hj|rewrite E1; eauto]|..].
      * intros i jb res _ Hres. by rewrite lookup_empty in Hres.
      * intros i j jb jb' res res' _ _ _ Hres. by rewrite lookup_empty in Hres.
  - intros results st1. cbn beta iota.
    apply (spec_assume _ (gates_apart run jobs results)); [apply Hfo|by intros st' (_ & _ & _ & _ & ?)|]. intros Hap.
    eapply spec_bind; [eapply spec_weaken; [apply (spec_record_all run jobs results (imap pair jobs)); [done|apply imap_pair_fst|by intros ij Hin; apply imap_pair_lookup|done|done]| |by intros]| |by intros].
    + intros st' (_ & _ & Hj & Hg & _). split; [exact Hj|]. intros ij res Hin Hres. apply imap_pair_lookup in Hin. by apply (Hg ij.1 ij.2 res).
    + intros c st2. by apply spec_ret.
  - by intros.
Qed.

(** *** Sweeps and drives *)

Lemma currentAttempts_in rs : forall id x, currentAttempts rs !! id = Some x -> In x rs /\ x_NodeID x = id.
Proof.
  unfold currentAttempts. induction rs as [|y rs IH] using rev_ind; intros id x; [cbn; by rewrite lookup_empty|]. rewrite fold_left_app. cbn [fold_left].
  set (m := fold_left _ rs ∅) in *. assert (forall (b : bool), (if b then <[x_NodeID y := y]> m else m) !! id = Some x -> In x (rs ++ [y]) /\ x_NodeID x = id) as H.
  { intros [|] Hl; [apply lookup_insert_Some in Hl as [[<- <-]|[_ Hl]]|]; [split; [apply in_or_app; right; by left|done]|..];
      (destruct (IH id x Hl) as [? ?]; split; [apply in_or_app; by left|done]). }
  destruct (m !! x_NodeID y) as [cur|]; [apply (H (x_Attempt cur <? x_Attempt y))|apply (H true)].
Qed.

Lemma spec_getnodes id P :
  spec (GetNodeExecutions env id) P (fun r st st' => calm st st' /\ match r with
    | inl rs => Forall (fun x => x_RunID x = id /\ (id = R -> x_State x = NodeRunning -> x_Dispatched x = true)) rs | inr _ => True end).
Proof.
  split; [by apply follows_getnodes|]. intros st HI HP Hf. destruct (spec_get (fun s => getNodeExecutions s id) P) as [_ H]. destruct (H st HI HP Hf) as [HI' HQ].
  split; [exact HI'|]. unfold GetNodeExecutions in *. destruct ((store_get env (fun s => getNodeExecutions s id) st).2) as [rs|err|]; [|by destruct HQ|done].
  destruct HQ as (Hc & Hans). split; [done|]. destruct (getNodeExecutions (store (sh _)) id) as [rs'|] eqn:Eg; [|done]. cbn in Hans. injection Hans as ->.
  destruct (getnodes_rows _ _ _ _ HI' Eg) as [Hperm Hall]. rewrite Forall_forall in Hall |- *. intros x Hx. split; [by apply Hall|]. intros -> Hrun.
  rewrite Hperm in Hx. apply list_elem_of_lookup in Hx as [i Hi]. apply (pi_dispatched _ _ _ _ _ HI' (x_NodeID x) (x_Attempt x)); [by exists i|done].
Qed.
Lemma spec_getrun id P : spec (GetRun env id) P (fun r st st' => calm st st' /\ match r with inl run => run_ok run /\ r_ID run = id | inr _ => True end).
Proof.
  split; [by apply follows_getrun|]. intros st HI HP Hf. destruct (spec_get (fun s => getRun s id) P) as [_ H]. destruct (H st HI HP Hf) as [HI' HQ].
  split; [exact HI'|]. unfold GetRun in *. set (st1 := (store_get env (fun s => getRun s id) st).1) in *. clearbody st1. destruct ((store_get env (fun s => getRun s id) st).2) as [run|err|]; [|by destruct HQ|done].
  destruct HQ as (Hc & Hans). split; [done|]. unfold getRun in Hans. destruct (runs (store (sh st1)) !! id) as [r|] eqn:Er; [|done]. cbn in Hans. injection Hans as ->.
  destruct (ok_runs _ _ (pi_ok _ _ _ _ _ HI') id r Er) as [Eid _]. split; [|done]. intros ER. destruct (pi_def _ _ _ _ _ HI') as (r' & Hr' & Hd).
  rewrite <- ER, Eid, Er in Hr'. by injection Hr' as ->.
Qed.
Lemma spec_update runID expected state code msg P :
  spec (UpdateState env runID expected state code msg) P (fun r st st' => calm st st' /\ match r with inl run => run_ok run | inr _ => True end).
Proof.
  eapply spec_weaken; [apply (spec_op_any _ (fun t => UpdateRunState runID expected state code msg t) (fun _ => True)); done|done|].
  intros r st st' _ (Hc & t & s1 & HP1 & _ & _ & _ & _ & _ & ->). split; [done|]. unfold updateRunState.
  destruct (runs s1 !! runID) as [r0|] eqn:Er; [|done]. destruct (_ && _); [done|]. destruct (_ && _); [done|]. destruct (negb _); [done|]. cbn.
  destruct (move_run_keeps r0 state code msg t) as (E1 & _). intros ER. destruct (ok_runs _ _ (pi_ok _ _ _ _ _ HP1) runID r0 Er) as [Eid _].
  destruct (pi_def _ _ _ _ _ HP1) as (r' & Hr' & Hd). rewrite <- ER, E1, Eid, Er in Hr'. injection Hr' as <-. rewrite <- Hd. unfold move_run. by repeat case_match.
Qed.

Definition safe {A} (m : M A) : Prop := spec m (fun _ => True) (fun _ _ _ => True).
Lemma safe_tame {A} (m : M A) : tame m -> safe m.
Proof. intros H. by eapply spec_weaken; [exact H|..]. Qed.
Lemma safe_pre {A} (m : M A) P : safe m -> spec m P (fun _ _ _ => True).
Proof. intros H. by eapply spec_weaken; [exact H|..]. Qed.
Lemma safe_bind {A B} (m : M A) (f : A -> M B) : safe m -> (forall a, safe (f a)) -> safe (m ≫= f).
Proof. intros Hm Hf. eapply spec_bind; [exact Hm| |by intros]. intros a st. eapply spec_weaken; [apply (Hf a)|done|done]. Qed.
Lemma safe_try {A} (m : M A) : safe m -> safe (try m).
Proof. intros H. by apply spec_try. Qed.

Lemma spec_resume_one run current kv :
  x_RunID kv.2 = r_ID run -> spec (resume_one env run current kv) (fun _ => cur_ok run current) (fun r _ _ => match r with inl c => cur_ok run c | inr _ => True end).
Proof.
  intros Hx. unfold resume_one. destruct (negb _); [by apply spec_ret|].
  eapply spec_bind; [eapply spec_weaken; [apply tame_try, tame_getapproval|done|intros r st st' _ H; exact H]| |by intros]. intros [appr|err] st.
  2:{ destruct err as [[]| | | | | | | | | | | | | | | | ]; try (by apply spec_throw). apply spec_ret. by intros st' _ (_ & ? & _). }
  cbv zeta. eapply spec_bind; [eapply spec_weaken; [apply tame_try, tame_save; split; [discriminate|by eexists]|done|intros r st' st'' _ H; exact H]| |by intros].
  intros [x|err] st1.
  - apply spec_ret. intros st2 _ (_ & (_ & Hc & _) & _). by apply map_Forall_insert_2.
  - destruct (lost_race err); [|by apply spec_throw]. apply spec_ret. by intros st2 _ (_ & (_ & ? & _) & _).
Qed.

Lemma safe_sweep run : run_ok run -> safe (sweep env lib e run).
Proof.
  intros Hrun. unfold sweep. eapply spec_bind; [apply spec_getnodes| |by intros]. intros rs st. cbv zeta. set (current := currentAttempts rs).
  apply (spec_assume _ (cur_ok run current)).
  { apply follows_bind; [by apply follows_ranged|intros l]. apply follows_bind; [apply follows_mfold; intros; by apply follows_resume|intros c].
    apply follows_bind; [apply follows_mfold; intros; by apply follows_sweepone|intros sw].
    destruct (sw_jobs sw); [apply follows_ret|]. apply follows_bind; [by apply follows_runjobs|intros; apply follows_ret]. }
  { intros st' (_ & _ & _ & Hrs) id x Hx. apply currentAttempts_in in Hx as [Hin _]. rewrite Forall_forall in Hrs. by apply Hrs, list_elem_of_In. }
  intros Hcur. eapply spec_bind; [apply spec_ranged| |by intros]. intros l st1. cbn beta iota.
  apply (spec_assume _ (l ≡ₚ map_to_list current)).
  { apply follows_bind; [apply follows_mfold; intros; by apply follows_resume|intros c].
    apply follows_bind; [apply follows_mfold; intros; by apply follows_sweepone|intros sw].
    destruct (sw_jobs sw); [apply follows_ret|]. apply follows_bind; [by apply follows_runjobs|intros; apply follows_ret]. }
  { by intros st' (_ & _ & _ & _ & ?). }
  intros Hl. eapply spec_bind.
  { eapply spec_weaken; [apply (spec_mfold _ (fun c _ => cur_ok run c) l)|done|intros r st2 st3 _ H; exact H].
    intros c kv Hin. apply spec_resume_one. rewrite Hl in Hin. destruct kv as [id x]. apply list_elem_of_In, elem_of_map_to_list in Hin. by apply (Hcur id). }
  - intros c st2. cbn beta iota. eapply spec_bind.
    + eapply spec_weaken; [apply (spec_mfold _ (sweep_there run) (default [] (TopologicalOrder (r_Definition run))))| |intros r st3 st4 _ H; exact H].
      * intros sw nodeID _. by apply spec_sweep_one.
      * intros st3 (_ & _ & Hc). split; [constructor|exact Hc].
    + intros sw st3. cbn beta iota. destruct (sw_jobs sw) as [|jb jobs] eqn:Ej; [by apply spec_ret|].
      apply (spec_assume _ (cur_ok run (sw_current sw))); [apply follows_bind; [by apply follows_runjobs|intros; apply follows_ret]|by intros st4 (_ & _ & _ & ?)|].
      intros Hc. eapply spec_bind; [eapply spec_weaken; [by apply (spec_runjobs run (jb :: jobs))| |by intros]| |by intros].
      * intros st4 (_ & _ & Hj & _). by rewrite Ej in Hj.
      * intros [] st4. by apply spec_ret.
    + by intros.
  - by intros.
Qed.

Lemma safe_sweeploop runID : forall fuel run, run_ok run -> safe (sweep_loop env lib e fuel runID run).
Proof.
  induction fuel as [|fuel IH]; intros run Hrun; cbn [sweep_loop]; [by apply spec_throw|].
  apply safe_bind; [by apply safe_try, safe_sweep|]. intros [progress|err].
  2:{ apply safe_tame. tames. }
  eapply spec_bind; [apply spec_getrun| |by intros]. intros run' st. cbn beta iota.
  apply (spec_assume _ (run_ok run')); [|by intros st' (_ & _ & _ & ? & _)|].
  { destruct (run_Terminal _); [apply follows_ret|]. destruct (negb progress); [by apply follows_finishrun|]. apply follows_bind; [by apply follows_ctx|intros []]; [by apply follows_finishrun|by apply follows_sweeploop]. }
  intros Hrun'. apply safe_pre. destruct (run_Terminal _); [by apply spec_ret|]. destruct (negb progress); [apply safe_tame, tame_finishrun|].
  apply safe_bind; [apply safe_tame, tame_ctx|]. intros []; [apply safe_tame, tame_finishrun|by apply IH].
Qed.
Lemma safe_drive fuel runID run : safe (drive env lib e fuel runID run).
Proof.
  unfold drive. apply safe_bind; [apply safe_tame, tame_try, tame_expire|]. intros [[]|err]; [|by apply spec_ret].
  eapply spec_bind; [apply spec_getrun| |by intros]. intros run' st. cbn beta iota.
  apply (spec_assume _ (run_ok run')); [|by intros st' (_ & _ & _ & ? & _)|].
  { destruct (run_Terminal _); [apply follows_ret|]. apply follows_bind; [destruct (r_State run'); try apply follows_ret; by apply follows_update|intros; by apply follows_sweeploop]. }
  intros Hrun'. apply safe_pre. destruct (run_Terminal _); [by apply spec_ret|].
  eapply (spec_bind _ _ _ (fun r _ _ => match r with inl run => run_ok run | inr _ => True end)); [| |by intros].
  - assert (forall ex st, spec (UpdateState env runID ex st "" "") (fun _ => True) (fun r _ _ => match r with inl run => run_ok run | inr _ => True end)) as Hu
      by (intros ex rs; eapply spec_weaken; [apply (spec_update _ _ _ _ _ (fun _ => True))|done|by intros r st' st'' _ [_ ?]]).
    destruct (r_State run'); try apply Hu; by apply spec_ret.
  - intros run2 st1. apply (spec_assume _ (run_ok run2)); [by apply follows_sweeploop|by intros st' (_ & _ & ?)|]. intros H2. by apply safe_pre, safe_sweeploop.
Qed.
Lemma safe_finally {A} (m : M A) c : safe m -> safe c -> safe (finally m c).
Proof. intros Hm Hc. unfold finally. apply safe_bind; [by apply safe_try|]. intros r. apply safe_bind; [done|]. intros []. destruct r; [by apply spec_ret|by apply spec_throw]. Qed.
Lemma safe_execute fuel runID : safe (Execute env lib e fuel runID).
Proof.
  unfold Execute. apply safe_bind; [apply safe_tame, tame_getrun|]. intros run. destruct (run_Terminal _); [by apply spec_ret|].
  destruct (bool_decide _); [by apply spec_ret|]. apply safe_bind; [apply safe_tame, tame_try, tame_initialized|]. intros [[]|err]; [|by apply spec_ret].
  apply safe_bind; [apply safe_tame, tame_shared; intros n s; by case_match|]. intros []; cbn [negb]; [|by apply spec_ret].
  apply safe_finally; [|by apply safe_tame, tame_shared]. cbv zeta.
  apply safe_bind; [apply safe_tame, tame_shared; intros n s; by repeat case_match|]. intros []; cbn [negb]; [|by apply spec_ret].
  apply safe_finally; [apply safe_drive|]. apply safe_tame, tame_shared; intros n s; by repeat case_match.
Qed.

(** *** Recovery *)

Lemma spec_recover_one run t flags kv :
  run_ok run -> x_RunID kv.2 = r_ID run -> (r_ID run = R -> x_State kv.2 = NodeRunning -> x_Dispatched kv.2 = true) -> safe (recover_one env e run t flags kv).
Proof.
  intros Hrun Hx Hd. unfold recover_one. destruct kv as [id cur]. cbn [snd] in *.
  assert (forall flags' : bool * bool, (x_State cur = NodeClaimed \/ x_State cur = NodeRunning) ->
    safe (if live_lease cur t then mret (flags.1, true) else
      let '(next, parked) := recovered_row e (r_Definition run) cur in
      r ← try (Save env next (Some (x_State cur)));
      match r with inr _ => mret flags' | inl _ =>
        (if parked : bool then emit (Audit (mkEvent (r_ID run) (x_NodeID cur) "recovered" (x_Attempt cur) (node_name NodeNeedsManualAction) "ambiguous_recovery")) else mret tt);;
        mret (true, flags'.2) end)) as Hmain.
  { intros flags' Hst. destruct (live_lease cur t); [by apply spec_ret|]. destruct (recovered_row e (r_Definition run) cur) as [next parked] eqn:Er.
    apply safe_bind; [|intros [x|err]; apply safe_tame; tames]. apply safe_try.
    eapply spec_weaken; [apply (spec_op _ (fun t => SaveNodeExecution next (Some (x_State cur)) t) (fun _ => True)); [done|done|]|done|done].
    intros st HI _ t' s1 v1 _. cbn. intros ER.
    assert (x_RunID next = x_RunID cur /\ x_NodeID next = x_NodeID cur /\ x_State next <> NodeRunning
      /\ (open_state (x_State next) = true -> x_Dispatched cur = false \/ side_effecting (registry e) D (x_NodeID cur) = false \/ r_ID run <> R)) as (N1 & N2 & N3 & N4).
    { unfold recovered_row in Er. destruct (x_Dispatched cur) eqn:Ed; cbn [negb] in Er; [|injection Er as <- _; split_and!; auto].
      destruct (Lookup (registry e) _ _) as [err|spec0] eqn:El; [injection Er as <- _; split_and!; done|].
      destruct (_ || _) eqn:Es; injection Er as <- _; split_and!; try done. intros _. right.
      destruct (decide (r_ID run = R)) as [ER'|]; [left|by right]. unfold side_effecting. rewrite (Hrun ER') in El. rewrite El. unfold has_effects. by rewrite Es. }
    assert (r_ID run = R) as ER' by congruence. split; [done|]. intros Ho Hs. rewrite N2 in Hs. right. exists (x_State cur). split; [done|].
    destruct Hst as [->|Hr]; [done|]. exfalso. destruct (N4 Ho) as [Hf|[Hf|Hf]]; [|congruence|done]. rewrite (Hd ER' Hr) in Hf. done. }
  destruct (x_State cur) eqn:Est; try (by apply spec_ret); [apply (Hmain flags); auto|apply (Hmain flags); auto|].
  apply safe_tame. tames.
Qed.
Lemma safe_mfold {A S} (f : S -> A -> M S) l : (forall s a, In a l -> safe (f s a)) -> forall s, safe (mfold f l s).
Proof.
  intros Hf. induction l as [|x l IH]; intros s; cbn [mfold]; [by apply spec_ret|]. apply safe_bind; [apply Hf; by left|]. intros s'. apply IH. intros. apply Hf. by right.
Qed.
Lemma safe_recover_run t run : run_ok run -> safe (recover_run env e t run).
Proof.
  intros Hrun. unfold recover_run. destruct (_ || _); [by apply spec_ret|]. eapply spec_bind; [apply spec_getnodes| |by intros]. intros rs st. cbn beta iota.
  assert (forall l, follows (flags ← mfold (recover_one env e run t) l (false, false); if fst flags && negb (snd flags) then try (recomputeRunState env (r_ID run));; mret tt else mret tt)) as Hfo.
  { intros l. apply follows_bind; [apply follows_mfold; intros; by apply follows_recoverone|intros flags]. destruct (_ && _); [|apply follows_ret].
    apply follows_bind; [by apply follows_try, follows_recompute|intros; apply follows_ret]. }
  apply (spec_assume _ (Forall (fun x => x_RunID x = r_ID run /\ (r_ID run = R -> x_State x = NodeRunning -> x_Dispatched x = true)) rs)).
  { apply follows_bind; [by apply follows_ranged|]. exact Hfo. }
  { by intros st' (_ & _ & _ & ?). }
  intros Hrs. apply safe_pre. eapply spec_bind; [apply spec_ranged| |by intros]. intros l st1. cbn beta iota.
  apply (spec_assume _ (l ≡ₚ map_to_list (currentAttempts rs))); [apply Hfo|by intros st' (_ & _ & _ & _ & ?)|]. intros Hl. apply safe_pre.
  apply safe_bind.
  - apply safe_mfold. intros flags [id x] Hin. rewrite Hl in Hin. apply list_elem_of_In, elem_of_map_to_list, currentAttempts_in in Hin as [Hin _].
    rewrite Forall_forall in Hrs. destruct (Hrs x) as [H1 H2]; [by apply list_elem_of_In|]. by apply spec_recover_one.
  - intros flags. apply safe_tame. tames.
Qed.
Lemma safe_recover : safe (Recover env e).
Proof.
  unfold Recover. eapply spec_bind; [apply (spec_get (fun s => inl (listRuns s (mkFilter "" None 0))) (fun _ => True))| |by intros]. intros rs st. cbn beta iota.
  assert (forall t, follows (mfold (fun _ run => recover_run env e t run) rs tt)) as Hfo.
  { intros t. apply follows_mfold. intros [] run. unfold recover_run. destruct (_ || _); [apply follows_ret|]. apply follows_bind; [by apply follows_getnodes|intros].
    apply follows_bind; [by apply follows_ranged|intros]. apply follows_bind; [apply follows_mfold; intros; by apply follows_recoverone|intros flags]. destruct (_ && _); [|apply follows_ret].
    apply follows_bind; [by apply follows_try, follows_recompute|intros; apply follows_ret]. }
  split; [apply follows_bind; [by apply follows_now|exact Hfo]|]. intros st1 HI1 (HI & _ & Hc & Hans). 
  assert (forall run, In run rs -> run_ok run) as Hruns.
  { intros run Hin ER. cbn in Hans. injection Hans as ->. unfold listRuns in Hin. cbn in Hin.
    assert (In run (map_to_list (runs (store (sh st1)))).*2) as Hin'.
    { apply list_elem_of_In. apply list_elem_of_In in Hin. rewrite slice_stable_perm in Hin. apply list_elem_of_In, filter_In in Hin as [Hin _]. by apply list_elem_of_In. }
    apply list_elem_of_In, list_elem_of_fmap in Hin' as ([id r] & -> & Hr). apply elem_of_map_to_list in Hr. cbn in *.
    destruct (ok_runs _ _ (pi_ok _ _ _ _ _ HI1) id r Hr) as [Eid _]. destruct (pi_def _ _ _ _ _ HI1) as (r' & Hr' & Hd). rewrite <- ER, Eid, Hr in Hr'. by injection Hr' as ->. }
  assert (safe (t ← now env; mfold (fun _ run => recover_run env e t run) rs tt)) as [_ Hs].
  { apply safe_bind; [apply safe_tame, tame_now|]. intros t. apply safe_mfold. intros [] run Hin. apply safe_recover_run. by apply Hruns. }
  intros Hf. apply (Hs st1 HI1 I Hf).
Qed.
End calls.
