(* ===== verification/Usage.v ===== *)
(** * Usage accounting ([src/internal/usage]: [usage.go], [budget.go], [identity.go])

    The per-deployment token accountant, the per-key spend ledger in floating
    point, and the per-identity totals.  Where the result depends on the order
    in which Go ranges over a map (a floating-point sum), the order is an
    argument. *)

From S2P Require Import Prelude.

(** ** Tracker *)

Record Totals := mkTotals {
  Deployment : string; PromptTokens : Z; CompletionTok : Z; Requests : Z; CacheReadTokens : Z; CacheWriteTokens : Z;
  RecordedCostUSD : float64; CostByVersion : gmap string float64; unpricedPrompt : Z; unpricedCompletion : Z }.
Definition totals0 (id : string) : Totals := mkTotals id 0 0 0 0 0 f_zero ∅ 0 0.
Record Tracker := mkTracker {
  byDeploy : gmap string Totals; prompt : Z; completion : Z; requests : Z; cacheRead : Z; cacheWrite : Z; recordedCost : float64 }.
Record Price := mkPrice { p_InputPerMTok : float64; p_OutputPerMTok : float64 }.
Record Counts := mkCounts { c_Input : Z; c_Output : Z; c_CacheRead : Z; c_CacheWrite : Z }.
Definition maxDeployments : nat := 20000.
Definition maxTokensPerRecord : Z := Z.shiftl 1 40.

Definition sanitizeTokenCount (v : Z) : Z := if v <=? 0 then 0 else if maxTokensPerRecord <? v then maxTokensPerRecord else v.
Definition saturatingAdd (total delta : Z) : Z :=
  if delta <=? 0 then total else if max_int64 - delta <? total then max_int64 else int64 (total + delta).
Definition New : Tracker := mkTracker ∅ 0 0 0 0 0 f_zero.
Definition Reset (t : Tracker) : Tracker := New.

(** The row to account to; [None] when the table is full. *)
Definition row_for (t : Tracker) (id : string) : option Totals :=
  match byDeploy t !! id with
  | Some tot => Some tot
  | None => if (maxDeployments <=? size (byDeploy t))%nat then None else Some (totals0 id)
  end.
Definition Record_ (t : Tracker) (deploymentID : string) (promptTokens completionTokens : Z) : Tracker :=
  let p := sanitizeTokenCount promptTokens in
  let c := sanitizeTokenCount completionTokens in
  if (p =? 0) && (c =? 0) then t
  else
    let id := if String.eqb deploymentID "" then "unknown" else deploymentID in
    match row_for t id with
    | None => t
    | Some tot =>
        mkTracker
          (<[id := mkTotals (Deployment tot) (if 0 <? p then saturatingAdd (PromptTokens tot) p else PromptTokens tot)
                     (if 0 <? c then saturatingAdd (CompletionTok tot) c else CompletionTok tot) (int64 (Requests tot + 1))
                     (CacheReadTokens tot) (CacheWriteTokens tot) (RecordedCostUSD tot) (CostByVersion tot)
                     (saturatingAdd (unpricedPrompt tot) p) (saturatingAdd (unpricedCompletion tot) c)]> (byDeploy t))
          (if 0 <? p then saturatingAdd (prompt t) p else prompt t)
          (if 0 <? c then saturatingAdd (completion t) c else completion t)
          (int64 (requests t + 1)) (cacheRead t) (cacheWrite t) (recordedCost t)
    end.

Definition max_cost : float64 := fbin (10 ^ 18) 0.
Definition sanitize_cost (cost : float64) : float64 :=
  if (cost <? f_zero)%f64 || negb (cost =? cost)%f64 || (cost >? max_cost)%f64 then f_zero else cost.
Definition RecordEx (t : Tracker) (deploymentID : string) (c : Counts) (costUSD : float64) (version : string) : Tracker :=
  let i := sanitizeTokenCount (c_Input c) in
  let o := sanitizeTokenCount (c_Output c) in
  let r := sanitizeTokenCount (c_CacheRead c) in
  let w := sanitizeTokenCount (c_CacheWrite c) in
  let cost := sanitize_cost costUSD in
  if (i =? 0) && (o =? 0) && (r =? 0) && (w =? 0) && (cost =? f_zero)%f64 then t
  else
    let id := if String.eqb deploymentID "" then "unknown" else deploymentID in
    let version := if String.eqb version "" then "unpriced" else version in
    match row_for t id with
    | None => t
    | Some tot =>
        let charged := (cost >? f_zero)%f64 in
        mkTracker
          (<[id := mkTotals (Deployment tot) (saturatingAdd (PromptTokens tot) i) (saturatingAdd (CompletionTok tot) o) (int64 (Requests tot + 1))
                     (saturatingAdd (CacheReadTokens tot) r) (saturatingAdd (CacheWriteTokens tot) w)
                     (if charged then (RecordedCostUSD tot + cost)%f64 else RecordedCostUSD tot)
                     (if charged then <[version := (map_get f_zero (CostByVersion tot) version + cost)%f64]> (CostByVersion tot) else CostByVersion tot)
                     (unpricedPrompt tot) (unpricedCompletion tot)]> (byDeploy t))
          (saturatingAdd (prompt t) i) (saturatingAdd (completion t) o) (int64 (requests t + 1))
          (saturatingAdd (cacheRead t) r) (saturatingAdd (cacheWrite t) w)
          (if charged then (recordedCost t + cost)%f64 else recordedCost t)
    end.

(** The totals after a reload, recomputed over the surviving rows in [order]. *)
Definition retain_totals (rows : list Totals) (m : gmap string Totals) : Tracker :=
  mkTracker m (fold_left (fun a r => saturatingAdd a (PromptTokens r)) rows 0) (fold_left (fun a r => saturatingAdd a (CompletionTok r)) rows 0)
    (fold_left (fun a r => saturatingAdd a (Requests r)) rows 0) (fold_left (fun a r => saturatingAdd a (CacheReadTokens r)) rows 0)
    (fold_left (fun a r => saturatingAdd a (CacheWriteTokens r)) rows 0) (fold_left (fun a r => (a + RecordedCostUSD r)%f64) rows f_zero).
Definition Retain (order : list string) (t : Tracker) (valid : gset string) : Tracker :=
  let m := filter (fun kv => kv.1 ∈ valid) (byDeploy t) in
  retain_totals (omap (fun id => m !! id) order) m.

(** ** The snapshot *)

Inductive CostBasis := Recorded | Estimated | Mixed | Unknown.
#[global] Instance CostBasis_eq_dec : EqDecision CostBasis.
Proof. solve_decision. Defined.
Definition basisRank (b : CostBasis) : Z := match b with Recorded => 0 | Estimated => 1 | Mixed => 2 | Unknown => 3 end.
Record Row := mkRow { r_Totals : Totals; r_EstimatedCost : float64; r_CostBasis : CostBasis; r_Complete : bool; r_UnpricedTokens : Z }.
Definition million : float64 := f_of_int 1000000.
Definition clean_rate (x : float64) : float64 := if IsNaN x || IsInf x || (x <? f_zero)%f64 then f_zero else x.
Definition snapshot_row (prices : gmap string Price) (tot : Totals) : Row :=
  let unpriced := int64 (unpricedPrompt tot + unpricedCompletion tot) in
  let price := prices !! Deployment tot in
  let hasRecorded := (0 <? size (CostByVersion tot))%nat || (RecordedCostUSD tot >? f_zero)%f64 in
  let '(basis, complete) :=
    if unpriced =? 0 then (Recorded, true)
    else match price with
    | None => if hasRecorded then (Mixed, false) else (Unknown, false)
    | Some _ => if hasRecorded then (Mixed, true) else (Estimated, true)
    end in
  let cost := match price with
              | Some p => (RecordedCostUSD tot + (f_of_int (unpricedPrompt tot) / million * clean_rate (p_InputPerMTok p)
                            + f_of_int (unpricedCompletion tot) / million * clean_rate (p_OutputPerMTok p)))%f64
              | None => RecordedCostUSD tot
              end in
  mkRow tot (if (cost <? f_zero)%f64 || IsNaN cost || IsInf cost then f_zero else cost) basis complete unpriced.
Record Snapshot := mkSnapshot {
  sn_Prompt : Z; sn_Completion : Z; sn_Requests : Z; sn_CacheRead : Z; sn_CacheWrite : Z; sn_RecordedCost : float64;
  sn_EstimatedCost : float64; sn_Basis : option CostBasis; sn_Unpriced : Z; sn_ByDeployment : list Row }.
Definition weakest (acc : option CostBasis) (b : CostBasis) : option CostBasis :=
  match acc with None => Some b | Some a => if basisRank a <? basisRank b then Some b else Some a end.
Definition row_less (a b : Row) : bool := String.ltb (Deployment (r_Totals a)) (Deployment (r_Totals b)).
Definition TakeSnapshot (order : list string) (t : Tracker) (prices : gmap string Price) : Snapshot :=
  let rows := map (snapshot_row prices) (omap (fun id => byDeploy t !! id) order) in
  mkSnapshot (prompt t) (completion t) (requests t) (cacheRead t) (cacheWrite t) (recordedCost t)
    (fold_left (fun a r => (a + r_EstimatedCost r)%f64) rows f_zero)
    (fold_left (fun a r => weakest a (r_CostBasis r)) rows None)
    (fold_left (fun a r => int64 (a + r_UnpricedTokens r)) rows 0)
    (slice_stable row_less rows).

(** ** Identity totals *)

Record IdentityTotals := mkIdentity { it_Identity : string; it_Tenant : string; it_Project : string; it_Team : string; it_Requests : Z; it_Input : Z; it_Output : Z }.
Definition IdentityTracker : Type := gmap string IdentityTotals.
Definition IdentityRecord (t : IdentityTracker) (identity tenant project team : string) (input output : Z) : IdentityTracker :=
  let input := if input <? 0 then 0 else input in
  let output := if output <? 0 then 0 else output in
  if (input =? 0) && (output =? 0) then t
  else
    let identity := if String.eqb identity "" then "anonymous" else identity in
    let row := default (mkIdentity identity tenant project team 0 0 0) (t !! identity) in
    <[identity := mkIdentity (it_Identity row) (it_Tenant row) (it_Project row) (it_Team row) (int64 (it_Requests row + 1))
                    (int64 (it_Input row + input)) (int64 (it_Output row + output))]> t.
Definition identity_less (a b : IdentityTotals) : bool := String.ltb (it_Identity a) (it_Identity b).
Definition IdentitySnapshot (order : list string) (t : IdentityTracker) : list IdentityTotals :=
  slice_stable identity_less (omap (fun id => t !! id) order).

(** ** Spend ledger *)

Record budgetReservation := mkReservation { br_amount : float64; br_at : Time }.
Record budgetRow := mkRowB { committed : float64; reserved : float64; reservations : gmap Z budgetReservation }.
Record BudgetLedger := mkLedger { seq : Z; rows : gmap string budgetRow }.
Definition BudgetReservationTTL : Duration := 15 * Minute.
Definition budgetEpsilon : float64 := (f_of_int 1 / f_of_int 1000000000)%f64.
Definition NewBudgetLedger : BudgetLedger := mkLedger 0 ∅.
Definition row0 : budgetRow := mkRowB f_zero f_zero ∅.

Definition snapReserved (row : budgetRow) : budgetRow :=
  if (reserved row <? budgetEpsilon)%f64 && (reserved row >? fsub f_zero budgetEpsilon)%f64
  then mkRowB (committed row) f_zero (reservations row) else row.
Definition expired (now : Time) (res : budgetReservation) : bool := BudgetReservationTTL <=? Sub now (br_at res).
(** [expireLocked], over the reservations in [order]. *)
Definition expire_one (now : Time) (row : budgetRow) (id : Z) : budgetRow :=
  match reservations row !! id with
  | Some res => if expired now res
                then mkRowB (committed row + br_amount res)%f64 (reserved row - br_amount res)%f64 (delete id (reservations row))
                else row
  | None => row
  end.
Definition expireLocked (order : list Z) (row : budgetRow) (now : Time) : budgetRow :=
  snapReserved (fold_left (expire_one now) order row).
Definition evictIfEmptyLocked (m : gmap string budgetRow) (key : string) (row : budgetRow) : gmap string budgetRow :=
  if (committed row =? f_zero)%f64 && (reserved row =? f_zero)%f64 && (size (reservations row) =? 0)%nat then delete key m else <[key := row]> m.
Definition Reserve (order : list Z) (l : BudgetLedger) (key : string) (limit amount : float64) (now : Time) : BudgetLedger * Z * bool :=
  if IsNaN amount || IsInf amount || IsNaN limit || IsInf limit then (l, 0, false)
  else if (amount <=? f_zero)%f64 || (limit <=? f_zero)%f64 then (l, 0, true)
  else
    let row := expireLocked order (default row0 (rows l !! key)) now in
    if (committed row + reserved row + amount >? limit + budgetEpsilon)%f64
    then (mkLedger (seq l) (evictIfEmptyLocked (rows l) key row), 0, false)
    else
      let id := uint64 (seq l + 1) in
      (mkLedger id (<[key := mkRowB (committed row) (reserved row + amount)%f64 (<[id := mkReservation amount now]> (reservations row))]> (rows l)), id, true).
Definition Settle (l : BudgetLedger) (key : string) (id : Z) (actual : float64) : BudgetLedger :=
  if id =? 0 then l
  else
    let actual := if (actual <? f_zero)%f64 || negb (actual =? actual)%f64 || IsInf actual then f_zero else actual in
    match rows l !! key with
    | None => l
    | Some row =>
        match reservations row !! id with
        | None => l
        | Some res =>
            let row := snapReserved (mkRowB (committed row) (reserved row - br_amount res)%f64 (reservations row)) in
            let row := mkRowB (committed row + actual)%f64 (reserved row) (delete id (reservations row)) in
            mkLedger (seq l) (evictIfEmptyLocked (rows l) key row)
        end
    end.
Definition Release (l : BudgetLedger) (key : string) (id : Z) : BudgetLedger :=
  if id =? 0 then l
  else match rows l !! key with
  | None => l
  | Some row =>
      match reservations row !! id with
      | None => l
      | Some res =>
          let row := snapReserved (mkRowB (committed row) (reserved row - br_amount res)%f64 (reservations row)) in
          let row := mkRowB (committed row) (reserved row) (delete id (reservations row)) in
          mkLedger (seq l) (evictIfEmptyLocked (rows l) key row)
      end
  end.
Definition LedgerSnapshot (order : list Z) (l : BudgetLedger) (key : string) (now : Time) : BudgetLedger * float64 * float64 :=
  match rows l !! key with
  | None => (l, f_zero, f_zero)
  | Some row => let row := expireLocked order row now in (mkLedger (seq l) (<[key := row]> (rows l)), committed row, reserved row)
  end.
Definition LedgerStats (order : list string) (l : BudgetLedger) : nat * nat * float64 :=
  let rs := omap (fun k => rows l !! k) order in
  (length rs, sum_list_with (fun r => size (reservations r)) rs, fold_left (fun a r => (a + reserved r)%f64) rs f_zero).
