(* ===== verification/UsageProofs.v ===== *)
(** * Usage accounting: totals, reservations and two overflows

    The tracker's totals are the saturated sums of its rows after every
    operation; a spend reservation is resolved at most once and cannot hold
    budget beyond its lifetime.  Two theorems record additions that wrap. *)

From stdpp Require Import relations.
From S2P Require Import Prelude Usage.

(** ** Sums over the rows *)

Definition total (f : Totals -> Z) (m : gmap string Totals) : Z := map_fold (fun _ r a => f r + a) 0 m.
Lemma total_delete f m id r : m !! id = Some r -> total f m = f r + total f (delete id m).
Proof. intros H. unfold total. rewrite (map_fold_delete_L _ _ id r); [done| |done]. intros; lia. Qed.
Lemma total_insert f m id r : total f (<[id := r]> m) = f r + total f (delete id m).
Proof. rewrite (total_delete f (<[id := r]> m) id r) by apply lookup_insert_eq. by rewrite delete_insert_eq. Qed.
Lemma total_field_nonneg f m : (forall id r, m !! id = Some r -> 0 <= f r) -> 0 <= total f m.
Proof.
  unfold total. intros H. apply (map_fold_weak_ind (fun a m' => (forall id r, m' !! id = Some r -> 0 <= f r) -> 0 <= a)); [done| |done].
  intros i r m' a Hi IH Hall. assert (0 <= f r) by (apply (Hall i); apply lookup_insert_eq).
  assert (0 <= a); [|lia]. apply IH. intros id r' Hr. apply (Hall id). rewrite lookup_insert_ne; [done|]. congruence.
Qed.
Lemma total_list f m : total f m = sum_Z (map f (map_to_list m).*2).
Proof.
  unfold total. rewrite map_fold_foldr. induction (map_to_list m) as [|[k r] l IH]; [done|]. cbn. by rewrite IH.
Qed.

Definition in_counter (z : Z) : Prop := 0 <= z <= max_int64.
Lemma saturatingAdd_min a b : in_counter a -> 0 <= b -> saturatingAdd a b = Z.min max_int64 (a + b).
Proof.
  unfold in_counter, saturatingAdd, max_int64. intros Ha Hb. destruct (Z.leb_spec b 0); [lia|].
  destruct (Z.ltb_spec (9223372036854775807 - b) a); [lia|]. rewrite int64_id; unfold in_int64; lia.
Qed.
Lemma saturatingAdd_counter a b : in_counter a -> 0 <= b -> in_counter (saturatingAdd a b).
Proof. intros Ha Hb. rewrite saturatingAdd_min by done. unfold in_counter, max_int64 in *. lia. Qed.
Lemma sanitize_range v : 0 <= sanitizeTokenCount v <= 2 ^ 40.
Proof. unfold sanitizeTokenCount, maxTokensPerRecord. rewrite Z.shiftl_mul_pow2 by lia. repeat case_match; lia. Qed.

(** A total is in step with its column. *)
Definition in_step (f : Totals -> Z) (m : gmap string Totals) (g : Z) : Prop := g = Z.min max_int64 (total f m).
Lemma in_step_add f m g id old new x : (forall k r, m !! k = Some r -> in_counter (f r)) -> in_counter (f old) -> 0 <= x ->
  (m !! id = Some old \/ m !! id = None /\ f old = 0) -> f new = saturatingAdd (f old) x -> in_step f m g ->
  in_step f (<[id := new]> m) (saturatingAdd g x).
Proof.
  intros Hm Ho Hx Hold Hnew Hg. unfold in_step in *. assert (0 <= total f (delete id m)) as Hd.
  { apply total_field_nonneg. intros k r [_ Hk]%lookup_delete_Some. by apply (Hm k). }
  assert (total f m = f old + total f (delete id m)) as Ht.
  { destruct Hold as [H|[H H0]]; [by apply total_delete|]. rewrite delete_id by done. lia. }
  rewrite total_insert, Hnew, !saturatingAdd_min; unfold in_counter, max_int64 in *; lia.
Qed.
Lemma in_step_keep f m g id old new : (m !! id = Some old \/ m !! id = None /\ f old = 0) -> f new = f old -> in_step f m g ->
  in_step f (<[id := new]> m) g.
Proof.
  intros Hold Hnew Hg. unfold in_step in *. assert (total f m = f old + total f (delete id m)) as Ht.
  { destruct Hold as [H|[H H0]]; [by apply total_delete|]. rewrite delete_id by done. lia. }
  rewrite total_insert. lia.
Qed.
Lemma fold_saturating f (l : list Totals) : forall a, in_counter a -> Forall (fun r => in_counter (f r)) l ->
  fold_left (fun a r => saturatingAdd a (f r)) l a = Z.min max_int64 (a + sum_Z (map f l)).
Proof.
  induction l as [|r l IH]; intros a Ha Hl; cbn [fold_left map]; [unfold in_counter, sum_Z in *; cbn; lia|].
  inversion Hl as [|? ? Hr Hl']; subst. rewrite IH; [|apply saturatingAdd_counter; [done|by destruct Hr]|done].
  rewrite saturatingAdd_min by (try done; by destruct Hr).
  assert (0 <= sum_Z (map f l)) as Hs.
  { clear -Hl'. unfold sum_Z. induction Hl' as [|x l' [Hx _] _ IH]; cbn; lia. }
  change (sum_Z (f r :: map f l)) with (f r + sum_Z (map f l)). unfold in_counter, max_int64 in *. lia.
Qed.

(** ** The invariant of the tracker *)

Record totals_ok (id : string) (r : Totals) : Prop := {
  to_id : Deployment r = id;
  to_prompt : in_counter (PromptTokens r); to_completion : in_counter (CompletionTok r);
  to_read : in_counter (CacheReadTokens r); to_write : in_counter (CacheWriteTokens r);
  to_uprompt : 0 <= unpricedPrompt r <= PromptTokens r; to_ucompletion : 0 <= unpricedCompletion r <= CompletionTok r }.
Record tracker_ok (t : Tracker) : Prop := {
  tk_rows : forall id r, byDeploy t !! id = Some r -> totals_ok id r;
  tk_size : (size (byDeploy t) <= maxDeployments)%nat;
  tk_prompt : in_step PromptTokens (byDeploy t) (prompt t);
  tk_completion : in_step CompletionTok (byDeploy t) (completion t);
  tk_read : in_step CacheReadTokens (byDeploy t) (cacheRead t);
  tk_write : in_step CacheWriteTokens (byDeploy t) (cacheWrite t) }.

Inductive usage_step (t : Tracker) : Tracker -> Prop :=
  | u_record id p c : usage_step t (Record_ t id p c)
  | u_record_ex id c cost v : usage_step t (RecordEx t id c cost v)
  | u_retain order valid : order ≡ₚ elements (dom (filter (fun kv => kv.1 ∈ valid) (byDeploy t))) -> usage_step t (Retain order t valid)
  | u_reset : usage_step t (Reset t).

Lemma row_for_spec t id tot : tracker_ok t -> row_for t id = Some tot ->
  totals_ok id tot /\ (byDeploy t !! id = Some tot \/ byDeploy t !! id = None /\ tot = totals0 id) /\
  forall new, (size (<[id := new]> (byDeploy t)) <= maxDeployments)%nat.
Proof.
  intros H. unfold row_for. destruct (byDeploy t !! id) as [r|] eqn:E.
  - intros [= <-]. split_and!; [by apply (tk_rows t H)|by left|]. intros new. rewrite map_size_insert_Some by (by rewrite E). apply (tk_size t H).
  - destruct (Nat.leb_spec maxDeployments (size (byDeploy t))); [done|]. intros [= <-].
    split_and!; [split; cbn; unfold in_counter, max_int64; lia || done|by right|]. intros new. rewrite map_size_insert_None by done. lia.
Qed.

(** Replacing one row: the side conditions shared by the two record operations. *)
Lemma tracker_put t id tot new p c rd wr gp gc gr gw rq cost : tracker_ok t -> row_for t id = Some tot ->
  0 <= p -> 0 <= c -> 0 <= rd -> 0 <= wr ->
  Deployment new = Deployment tot ->
  PromptTokens new = saturatingAdd (PromptTokens tot) p -> gp = saturatingAdd (prompt t) p ->
  CompletionTok new = saturatingAdd (CompletionTok tot) c -> gc = saturatingAdd (completion t) c ->
  CacheReadTokens new = saturatingAdd (CacheReadTokens tot) rd -> gr = saturatingAdd (cacheRead t) rd ->
  CacheWriteTokens new = saturatingAdd (CacheWriteTokens tot) wr -> gw = saturatingAdd (cacheWrite t) wr ->
  (unpricedPrompt new = unpricedPrompt tot \/ unpricedPrompt new = saturatingAdd (unpricedPrompt tot) p) ->
  (unpricedCompletion new = unpricedCompletion tot \/ unpricedCompletion new = saturatingAdd (unpricedCompletion tot) c) ->
  tracker_ok (mkTracker (<[id := new]> (byDeploy t)) gp gc rq gr gw cost).
Proof.
  intros H Hrow Hp Hc Hrd Hwr Hd Ep -> Ec -> Er -> Ew -> Eu Ev.
  destruct (row_for_spec t id tot H Hrow) as ([Hid H1 H2 H3 H4 H5 H6] & Hold & Hsz).
  assert (forall f, f (totals0 id) = 0 -> byDeploy t !! id = Some tot \/ byDeploy t !! id = None /\ f tot = 0) as Hold'.
  { intros f Hf. destruct Hold as [|[? ->]]; [by left|by right]. }
  assert (forall f, (forall k r, totals_ok k r -> in_counter (f r)) -> forall k r, byDeploy t !! k = Some r -> in_counter (f r)) as Hcol.
  { intros f Hf k r Hk. apply (Hf k). by apply (tk_rows t H). }
  split; cbn [byDeploy prompt completion cacheRead cacheWrite].
  - intros k r [[<- <-]|[_ Hk]]%lookup_insert_Some; [|by apply (tk_rows t H)].
    split; [congruence|rewrite ?Ep, ?Ec, ?Er, ?Ew; by apply saturatingAdd_counter..| |].
    + rewrite Ep, saturatingAdd_min by done.
      destruct Eu as [->| ->]; rewrite ?saturatingAdd_min by (try done; unfold in_counter, max_int64 in *; lia); unfold in_counter, max_int64 in *; lia.
    + rewrite Ec, saturatingAdd_min by done.
      destruct Ev as [->| ->]; rewrite ?saturatingAdd_min by (try done; unfold in_counter, max_int64 in *; lia); unfold in_counter, max_int64 in *; lia.
  - apply Hsz.
  - apply (in_step_add _ _ _ _ tot); try done; [apply Hcol; by intros ? ? []|by apply Hold'|apply (tk_prompt t H)].
  - apply (in_step_add _ _ _ _ tot); try done; [apply Hcol; by intros ? ? []|by apply Hold'|apply (tk_completion t H)].
  - apply (in_step_add _ _ _ _ tot); try done; [apply Hcol; by intros ? ? []|by apply Hold'|apply (tk_read t H)].
  - apply (in_step_add _ _ _ _ tot); try done; [apply Hcol; by intros ? ? []|by apply Hold'|apply (tk_write t H)].
Qed.
Lemma saturatingAdd_0 a : saturatingAdd a 0 = a.
Proof. done. Qed.
Lemma guarded_add a x : 0 <= x -> (if 0 <? x then saturatingAdd a x else a) = saturatingAdd a x.
Proof. intros Hx. destruct (Z.ltb_spec 0 x); [done|]. by assert (x = 0) as -> by lia. Qed.

Lemma ok_record t id p c : tracker_ok t -> tracker_ok (Record_ t id p c).
Proof.
  intros H. unfold Record_. pose proof (sanitize_range p) as [Hp _]. pose proof (sanitize_range c) as [Hc _].
  destruct (_ && _); [done|]. destruct (row_for t _) as [tot|] eqn:E; [|done]. rewrite !guarded_add by done.
  eapply (tracker_put t _ tot _ (sanitizeTokenCount p) (sanitizeTokenCount c) 0 0); try done; by right.
Qed.
Lemma ok_record_ex t id c cost v : tracker_ok t -> tracker_ok (RecordEx t id c cost v).
Proof.
  intros H. unfold RecordEx. pose proof (sanitize_range (c_Input c)) as [Hi _]. pose proof (sanitize_range (c_Output c)) as [Ho _].
  pose proof (sanitize_range (c_CacheRead c)) as [Hr _]. pose proof (sanitize_range (c_CacheWrite c)) as [Hw _].
  destruct (_ && _); [done|]. destruct (row_for t _) as [tot|] eqn:E; [|done].
  eapply (tracker_put t _ tot _ (sanitizeTokenCount (c_Input c)) (sanitizeTokenCount (c_Output c)) (sanitizeTokenCount (c_CacheRead c))
    (sanitizeTokenCount (c_CacheWrite c))); try done; by left.
Qed.

Lemma values_perm (m : gmap string Totals) order : order ≡ₚ elements (dom m) -> omap (fun id => m !! id) order ≡ₚ (map_to_list m).*2.
Proof.
  intros Ho. assert (order ≡ₚ (map_to_list m).*1) as ->.
  { rewrite Ho. apply NoDup_Permutation; [apply NoDup_elements|apply NoDup_fst_map_to_list|]. intros k. rewrite elem_of_elements, elem_of_dom.
    rewrite list_elem_of_fmap. split.
    - intros [r Hr]. exists (k, r). split; [done|by apply elem_of_map_to_list].
    - intros ([k' r] & -> & Hr). exists r. by apply elem_of_map_to_list in Hr. }
  assert (forall l : list (string * Totals), Forall (fun kv => m !! kv.1 = Some kv.2) l -> omap (fun id => m !! id) l.*1 = l.*2) as Hl.
  { induction 1 as [|[k r] l Hk _ IH]; [done|]. cbn in *. by rewrite Hk, IH. }
  rewrite Hl; [done|]. apply Forall_forall. intros [k r] Hk. by apply elem_of_map_to_list in Hk.
Qed.
Lemma ok_retain t order valid : tracker_ok t -> order ≡ₚ elements (dom (filter (fun kv => kv.1 ∈ valid) (byDeploy t))) ->
  tracker_ok (Retain order t valid).
Proof.
  intros H Ho. unfold Retain. set (m := filter _ _) in *. pose proof (values_perm m order Ho) as Hp.
  assert (forall id r, m !! id = Some r -> totals_ok id r) as Hrows.
  { intros id r [Hr _]%map_lookup_filter_Some. by apply (tk_rows t H). }
  assert (forall f, (forall id r, totals_ok id r -> in_counter (f r)) ->
    in_step f m (fold_left (fun a r => saturatingAdd a (f r)) (omap (fun id => m !! id) order) 0)) as Hfold.
  { intros f Hf. unfold in_step. assert (Forall (fun r => in_counter (f r)) (omap (fun id => m !! id) order)) as Hall.
    { apply Forall_forall. intros r (id & _ & Hr)%list_elem_of_omap. by apply (Hf id), Hrows. }
    rewrite fold_saturating; [|unfold in_counter, max_int64; lia|done]. f_equal. rewrite total_list, Z.add_0_l.
    assert (map f (omap (fun id => m !! id) order) ≡ₚ map f (map_to_list m).*2) as Hpm by (by apply Permutation_map).
    unfold sum_Z. clear -Hpm. induction Hpm; cbn; lia. }
  split; cbn [retain_totals byDeploy prompt completion cacheRead cacheWrite]; [done| |apply Hfold; by intros ? ? []..].
  etrans; [|apply (tk_size t H)]. apply map_subseteq_size, map_filter_subseteq.
Qed.
Lemma ok_new : tracker_ok New.
Proof.
  split; cbn; [intros id r; by rewrite lookup_empty|rewrite map_size_empty; apply Nat.le_0_l|..]; unfold in_step, total; by rewrite map_fold_empty.
Qed.

(** The cumulative totals are exact up to saturation: after any sequence of
    reports, reloads and resets, each token total is the sum of its column over
    the rows, pinned at the largest int64; no counter is negative; tokens
    without a record-time price are among the tokens counted; and the number of
    rows is bounded. *)
Theorem usage_totals_exact t : rtc usage_step New t -> tracker_ok t.
Proof.
  intros Hr. assert (forall a b, rtc usage_step a b -> tracker_ok a -> tracker_ok b) as H; [|exact (H New t Hr ok_new)].
  induction 1 as [|a b c Hab _ IH]; [done|]. intros Ha. apply IH.
  destruct Hab as [id p q|id q cost v|order valid Ho|]; [by apply ok_record|by apply ok_record_ex|by apply ok_retain|apply ok_new].
Qed.
Lemma usage_totals_exact_witness : tracker_ok (Record_ New "d" 5 7).
Proof. apply usage_totals_exact. eapply rtc_l; [apply u_record|apply rtc_refl]. Defined.

(** ** Additions that wrap *)

Definition hostile_reports (n : nat) : Tracker := Nat.iter n (fun t => Record_ t "d" max_int64 max_int64) New.
Lemma hostile_row n : exists r, byDeploy (hostile_reports (S n)) !! "d" = Some r /\
  unpricedPrompt r = Z.min max_int64 (Z.of_nat (S n) * 2 ^ 40) /\ unpricedCompletion r = Z.min max_int64 (Z.of_nat (S n) * 2 ^ 40).
Proof.
  assert (forall a, in_counter a -> saturatingAdd a (2 ^ 40) = Z.min max_int64 (a + 2 ^ 40)) as Hsat by (intros a Ha; by apply saturatingAdd_min).
  assert (forall t r, row_for t "d" = Some r -> exists r', byDeploy (Record_ t "d" max_int64 max_int64) !! "d" = Some r' /\
    unpricedPrompt r' = saturatingAdd (unpricedPrompt r) (2 ^ 40) /\ unpricedCompletion r' = saturatingAdd (unpricedCompletion r) (2 ^ 40)) as Hrec.
  { intros t r Hr. unfold Record_. change (sanitizeTokenCount max_int64) with (2 ^ 40). cbv zeta.
    change ((2 ^ 40 =? 0) && (2 ^ 40 =? 0)) with false. change (String.eqb "d" "") with false. cbv iota. rewrite Hr.
    eexists. split; [cbn [byDeploy]; apply lookup_insert_eq|done]. }
  induction n as [|n (r & Hr & Hp & Hc)].
  - destruct (Hrec New (totals0 "d")) as (r & Hr & Hp & Hc); [done|]. exists r. split_and!; [exact Hr|rewrite Hp; done|rewrite Hc; done].
  - destruct (Hrec (hostile_reports (S n)) r) as (r' & Hr' & Hp' & Hc'); [unfold row_for; by rewrite Hr|]. exists r'. split; [exact Hr'|].
    rewrite Hp', Hc', Hp, Hc. rewrite !Hsat by (unfold in_counter, max_int64; lia). unfold max_int64. lia.
Qed.
Lemma hostile_reachable n : rtc usage_step New (hostile_reports n).
Proof. induction n as [|n IH]; [done|]. eapply rtc_r; [exact IH|]. apply u_record. Qed.

(** The snapshot's unpriced-token figure can be negative: enough reports with
    absurd counts, each clamped and added with saturation, leave two counters
    whose plain sum wraps. *)
Theorem unpriced_tokens_wrap : exists t r, rtc usage_step New t /\ byDeploy t !! "d" = Some r /\
  forall prices, r_UnpricedTokens (snapshot_row prices r) = -2.
Proof.
  destruct (hostile_row (Z.to_nat (2 ^ 23))) as (r & Hr & Hp & Hc). exists (hostile_reports (S (Z.to_nat (2 ^ 23)))), r.
  split_and!; [apply hostile_reachable|exact Hr|]. intros prices. rewrite Nat2Z.inj_succ, Z2Nat.id in Hp, Hc by lia.
  assert (r_UnpricedTokens (snapshot_row prices r) = int64 (unpricedPrompt r + unpricedCompletion r)) as ->.
  { unfold snapshot_row. destruct (if int64 _ =? 0 then _ else _) as [b k]. done. }
  rewrite Hp, Hc. reflexivity.
Qed.

(** The per-identity totals are not protected at all: two reports of the
    largest count leave negative token totals. *)
Theorem identity_totals_wrap :
  let t := IdentityRecord (IdentityRecord ∅ "k" "" "" "" max_int64 max_int64) "k" "" "" "" max_int64 max_int64 in
  it_Input <$> t !! "k" = Some (-2) /\ it_Output <$> t !! "k" = Some (-2).
Proof. vm_compute. done. Qed.

(** ** The spend ledger *)

Inductive LedgerOp :=
  | LReserve (order : list Z) (key : string) (limit amount : float64) (now : Time)
  | LSettle (key : string) (id : Z) (actual : float64)
  | LRelease (key : string) (id : Z)
  | LSnapshot (order : list Z) (key : string) (now : Time).
Definition run_lop (l : BudgetLedger) (o : LedgerOp) : BudgetLedger :=
  match o with
  | LReserve order key limit amount now => fst (fst (Reserve order l key limit amount now))
  | LSettle key id actual => Settle l key id actual
  | LRelease key id => Release l key id
  | LSnapshot order key now => fst (fst (LedgerSnapshot order l key now))
  end.
Definition run_lops (l : BudgetLedger) (os : list LedgerOp) : BudgetLedger := fold_left run_lop os l.
(** The reservation is held by the key. *)
Definition open (l : BudgetLedger) (key : string) (id : Z) : Prop :=
  exists row, rows l !! key = Some row /\ is_Some (reservations row !! id).
Definition known (l : BudgetLedger) (id : Z) : Prop := 0 < id <= seq l.
Record ledger_ok (l : BudgetLedger) : Prop := {
  lo_seq : 0 <= seq l < 2 ^ 64;
  lo_known : forall key id, open l key id -> known l id;
  lo_unique : forall key key' id, open l key id -> open l key' id -> key = key' }.

Lemma snap_reservations row : reservations (snapReserved row) = reservations row.
Proof. unfold snapReserved. by destruct (_ && _). Qed.
Lemma expire_one_shrinks now row i : reservations (expire_one now row i) ⊆ reservations row.
Proof. unfold expire_one. destruct (reservations row !! i); [|done]. destruct (expired _ _); [|done]. apply delete_subseteq. Qed.
Lemma expire_shrinks order row now : reservations (expireLocked order row now) ⊆ reservations row.
Proof.
  unfold expireLocked. rewrite snap_reservations. revert row. induction order as [|i order IH]; intros row; [done|]. cbn [fold_left].
  etrans; [apply IH|apply expire_one_shrinks].
Qed.
Lemma evict_open m s key row k id : open (mkLedger s (evictIfEmptyLocked m key row)) k id ->
  (k = key /\ is_Some (reservations row !! id)) \/ (k <> key /\ open (mkLedger s m) k id).
Proof.
  unfold open, evictIfEmptyLocked. cbn [rows]. intros (r & Hr & Hi). destruct (_ && _).
  - apply lookup_delete_Some in Hr as [Hne Hr]. right. split; [done|by exists r].
  - apply lookup_insert_Some in Hr as [[<- <-]|[Hne Hr]]; [by left|right; split; [done|by exists r]].
Qed.
(** The ledger after an operation, seen through its open reservations. *)
Lemma reserve_open order l key limit amount now k id : open (fst (fst (Reserve order l key limit amount now))) k id ->
  open l k id \/ (k = key /\ id = uint64 (seq l + 1) /\ seq (fst (fst (Reserve order l key limit amount now))) = uint64 (seq l + 1)).
Proof.
  unfold Reserve. destruct (_ || _); [by left|]. destruct (_ || _); [by left|]. cbv zeta.
  pose proof (expire_shrinks order (default row0 (rows l !! key)) now) as Hsh. set (row := expireLocked order _ now) in *.
  assert (forall i, is_Some (reservations row !! i) -> open l key i) as Hrow.
  { intros i [r Hi]. apply (lookup_weaken _ _ _ _ Hi) in Hsh. destruct (rows l !! key) as [r0|] eqn:E; [exists r0; split; [done|by exists r]|].
    cbn in Hsh. by rewrite lookup_empty in Hsh. }
  destruct (_ >? _)%f64; cbn [fst].
  - intros [[-> Hi]|[_ Ho]]%evict_open; left; [by apply Hrow|]. destruct Ho as (r & Hr & Hi). by exists r.
  - intros (r & Hr & Hi). cbn [rows] in Hr. apply lookup_insert_Some in Hr as [[<- <-]|[Hne Hr]]; [|left; by exists r].
    cbn [reservations] in Hi. destruct (decide (id = uint64 (seq l + 1))) as [->|Hn]; [by right|]. rewrite lookup_insert_ne in Hi by done. left. by apply Hrow.
Qed.
Lemma settle_open l key id actual k i : open (Settle l key id actual) k i -> open l k i /\ (id <> 0 -> k = key -> i <> id).
Proof.
  unfold Settle. destruct (Z.eqb_spec id 0) as [->|Hid]; [by intros H; split|].
  destruct (rows l !! key) as [row|] eqn:E.
  2: { intros H. split; [done|]. intros _ ->. destruct H as (r & Hr & _). congruence. }
  destruct (reservations row !! id) as [res|] eqn:Er.
  2: { intros H. split; [done|]. intros _ -> ->. destruct H as (r & Hr & Hi). assert (r = row) as -> by congruence. by rewrite Er in Hi; destruct Hi. }
  cbv zeta. rewrite snap_reservations. cbn [reservations].
  intros [[-> Hi]|[Hne Ho]]%evict_open.
  - cbn [reservations] in Hi. apply lookup_delete_is_Some in Hi as [Hn Hi]. split; [by exists row|]. intros _ _. congruence.
  - split; [|done]. destruct Ho as (r & Hr & Hi). by exists r.
Qed.
Lemma release_open l key id k i : open (Release l key id) k i -> open l k i /\ (id <> 0 -> k = key -> i <> id).
Proof.
  unfold Release. destruct (Z.eqb_spec id 0) as [->|Hid]; [by intros H; split|].
  destruct (rows l !! key) as [row|] eqn:E.
  2: { intros H. split; [done|]. intros _ ->. destruct H as (r & Hr & _). congruence. }
  destruct (reservations row !! id) as [res|] eqn:Er.
  2: { intros H. split; [done|]. intros _ -> ->. destruct H as (r & Hr & Hi). assert (r = row) as -> by congruence. by rewrite Er in Hi; destruct Hi. }
  cbv zeta. rewrite snap_reservations. cbn [reservations].
  intros [[-> Hi]|[Hne Ho]]%evict_open.
  - cbn [reservations] in Hi. apply lookup_delete_is_Some in Hi as [Hn Hi]. split; [by exists row|]. intros _ _. congruence.
  - split; [|done]. destruct Ho as (r & Hr & Hi). by exists r.
Qed.
Lemma snapshot_open order l key now k i : open (fst (fst (LedgerSnapshot order l key now))) k i -> open l k i.
Proof.
  unfold LedgerSnapshot. destruct (rows l !! key) as [row|] eqn:E; [|done]. cbn [fst]. intros (r & Hr & Hi). cbn [rows] in Hr.
  apply lookup_insert_Some in Hr as [[<- <-]|[Hne Hr]]; [|by exists r]. exists row. split; [done|].
  destruct Hi as [x Hx]. exists x. eapply lookup_weaken; [exact Hx|apply expire_shrinks].
Qed.

Lemma lop_seq l o : 0 <= seq l -> seq l + 1 < 2 ^ 64 -> seq l <= seq (run_lop l o) <= seq l + 1.
Proof.
  intros H0 H1. destruct o as [order key limit amount now|key id actual|key id|order key now]; cbn [run_lop].
  - unfold Reserve. destruct (_ || _); [cbn; lia|]. destruct (_ || _); [cbn; lia|]. cbv zeta. destruct (_ >? _)%f64; cbn [fst seq]; [lia|].
    rewrite uint64_id by lia. lia.
  - unfold Settle. destruct (id =? 0); [lia|]. destruct (rows l !! key); [|lia]. destruct (reservations _ !! id); [cbn [seq]; lia|lia].
  - unfold Release. destruct (id =? 0); [lia|]. destruct (rows l !! key); [|lia]. destruct (reservations _ !! id); [cbn [seq]; lia|lia].
  - unfold LedgerSnapshot. destruct (rows l !! key); cbn; lia.
Qed.
(** An operation opens at most the next number. *)
Lemma lop_open l o k i : 0 <= seq l -> seq l + 1 < 2 ^ 64 -> open (run_lop l o) k i ->
  open l k i \/ (i = seq l + 1 /\ seq (run_lop l o) = seq l + 1 /\ exists order limit amount now, o = LReserve order k limit amount now).
Proof.
  intros H0 H1. destruct o as [order key limit amount now|key id actual|key id|order key now]; cbn [run_lop].
  - intros H. destruct (reserve_open _ _ _ _ _ _ _ _ H) as [|(-> & -> & ->)]; [by left|right]. rewrite uint64_id by lia.
    split_and!; [done|done|by eexists _, _, _, _].
  - intros [? _]%settle_open. by left.
  - intros [? _]%release_open. by left.
  - intros ?%snapshot_open. by left.
Qed.
Lemma lop_ok l o : ledger_ok l -> seq l + 1 < 2 ^ 64 -> ledger_ok (run_lop l o).
Proof.
  intros [[H0 Hm] H1 H2] Hb. pose proof (lop_seq l o H0 Hb) as Hs. split; [lia|..].
  - intros key id Ho. destruct (lop_open l o key id H0 Hb Ho) as [Ho'|(-> & E & _)]; [|unfold known; lia]. apply H1 in Ho'. unfold known in *. lia.
  - intros key key' id Ho Ho'.
    destruct (lop_open l o key id H0 Hb Ho) as [Hk|(E & _ & Hr)], (lop_open l o key' id H0 Hb Ho') as [Hk'|(E' & _ & Hr')].
    + by apply (H2 key key' id).
    + exfalso. apply H1 in Hk. unfold known in Hk. lia.
    + exfalso. apply H1 in Hk'. unfold known in Hk'. lia.
    + destruct Hr as (? & ? & ? & ? & ->), Hr' as (? & ? & ? & ? & [=]). done.
Qed.
Lemma lops_seq os : forall l, 0 <= seq l -> seq l + Z.of_nat (length os) < 2 ^ 64 -> ledger_ok l ->
  ledger_ok (run_lops l os) /\ seq l <= seq (run_lops l os) <= seq l + Z.of_nat (length os).
Proof.
  induction os as [|o os IH]; intros l H0 Hb Hok; [split; [done|cbn; lia]|]. cbn [length] in Hb. pose proof (lop_seq l o H0 ltac:(lia)) as Hs.
  destruct (IH (run_lop l o)) as [H1 H2]; [lia|lia|by apply lop_ok; [|lia]|]. split; [done|]. cbn [length]. change (run_lops l (o :: os)) with (run_lops (run_lop l o) os). lia.
Qed.
(** A number that was handed out and is closed stays closed. *)
Lemma closed_stays_closed os id : forall l, ledger_ok l -> known l id -> (forall k, ~ open l k id) -> seq l + Z.of_nat (length os) < 2 ^ 64 ->
  forall k, ~ open (run_lops l os) k id.
Proof.
  induction os as [|o os IH]; intros l Hok Hk Hc Hb; [done|]. cbn [length] in Hb. pose proof (lo_seq l Hok) as [H0 _].
  pose proof (lop_seq l o H0 ltac:(lia)) as Hs. change (run_lops l (o :: os)) with (run_lops (run_lop l o) os). apply IH.
  - apply lop_ok; [done|lia].
  - unfold known in *. lia.
  - intros k Ho. destruct (lop_open l o k id H0 ltac:(lia) Ho) as [Ho'|(-> & _)]; [by apply (Hc k)|]. unfold known in Hk. lia.
  - lia.
Qed.
Lemma closed_noop l k id a : ~ open l k id -> Settle l k id a = l /\ Release l k id = l.
Proof.
  intros Hc. unfold Settle, Release. destruct (id =? 0); [done|]. destruct (rows l !! k) as [row|] eqn:E; [|done].
  destruct (reservations row !! id) eqn:Er; [|done]. exfalso. apply Hc. exists row. split; [done|by rewrite Er].
Qed.
Lemma ledger_ok_new : ledger_ok NewBudgetLedger.
Proof. split; [cbn; lia|..]; intros k; [intros id (r & Hr & _)|intros k' id (r & Hr & _)]; cbn in Hr; by rewrite lookup_empty in Hr. Qed.

(** A reservation is resolved at most once.  Once it was settled or released
    it never holds budget again, and settling or releasing its number later,
    under any key and after any further operations, changes nothing: the first
    resolution wins. *)
Theorem reservation_resolved_once os os' key id a : Z.of_nat (length os + length os') + 1 < 2 ^ 64 ->
  let l := run_lops NewBudgetLedger os in open l key id ->
  forall l1, l1 = Settle l key id a \/ l1 = Release l key id ->
  forall key' b, let l2 := run_lops l1 os' in ~ open l2 key' id /\ Settle l2 key' id b = l2 /\ Release l2 key' id = l2.
Proof.
  cbv zeta. intros Hb Ho l1 Hl1 key' b. destruct (lops_seq os NewBudgetLedger ltac:(done) ltac:(cbn; lia) ledger_ok_new) as [Hok Hs]. cbn in Hs.
  set (l := run_lops NewBudgetLedger os) in *. pose proof (lo_known l Hok key id Ho) as Hk. unfold known in Hk.
  assert (exists o, l1 = run_lop l o /\ seq l1 = seq l) as (o & -> & Hseq).
  { destruct Hl1 as [->| ->]; [exists (LSettle key id a)|exists (LRelease key id)]; (split; [done|]);
      [unfold Settle|unfold Release]; (destruct (id =? 0); [done|]; destruct (rows l !! key); [|done]; by destruct (reservations _ !! id)). }
  assert (forall k, ~ open (run_lop l o) k id) as Hc.
  { intros k Hok1. assert (open l k id /\ (id <> 0 -> k = key -> id <> id)) as [H1 H2].
    { destruct Hl1 as [E|E]; rewrite E in Hok1; [by apply settle_open in Hok1|by apply release_open in Hok1]. }
    apply H2; [lia| |done]. by apply (lo_unique l Hok k key id). }
  assert (~ open (run_lops (run_lop l o) os') key' id) as Hfin.
  { apply closed_stays_closed; [apply lop_ok; [done|lia]|unfold known; lia|done|lia]. }
  split; [done|]. by apply closed_noop.
Qed.
Definition one_dollar : float64 := f_of_int 1.
Definition held : list LedgerOp := [LReserve [] "k" (f_of_int 10) one_dollar 0].
Lemma reservation_resolved_once_witness : let l2 := run_lops (Settle (run_lops NewBudgetLedger held) "k" 1 one_dollar) held in
  ~ open l2 "k" 1 /\ Settle l2 "k" 1 one_dollar = l2 /\ Release l2 "k" 1 = l2.
Proof.
  apply (reservation_resolved_once held held "k" 1 one_dollar); [cbn; lia| |by left].
  eexists. split; [vm_compute; reflexivity|]. eexists. vm_compute. reflexivity.
Defined.

(** ** Expiry *)

(** The amounts that are due, in the order of the sweep. *)
Definition due (row : budgetRow) (now : Time) (order : list Z) : list float64 :=
  omap (fun id => match reservations row !! id with Some res => if expired now res then Some (br_amount res) else None | None => None end) order.
Lemma sweep_spec now order : forall row, NoDup order ->
  (forall i r, reservations (fold_left (expire_one now) order row) !! i = Some r <-> reservations row !! i = Some r /\ (i ∈ order -> expired now r = false)) /\
  committed (fold_left (expire_one now) order row) = fold_left fadd (due row now order) (committed row).
Proof.
  induction order as [|id order IH]; intros row Hnd; cbn [fold_left].
  { split; [|done]. intros i r. split; [intros H; split; [done|]; by intros ?%not_elem_of_nil|by intros [? _]]. }
  inversion Hnd as [|? ? Hni Hnd']; subst. destruct (IH (expire_one now row id) Hnd') as [H1 H2].
  assert (forall i, i <> id -> reservations (expire_one now row id) !! i = reservations row !! i) as Hother.
  { intros i Hi. unfold expire_one. destruct (reservations row !! id); [|done]. destruct (expired _ _); [|done]. cbn. by rewrite lookup_delete_ne. }
  split.
  - intros i r. rewrite H1. destruct (decide (i = id)) as [->|Hne].
    + unfold expire_one. destruct (reservations row !! id) as [res|] eqn:E; [|rewrite E; naive_solver].
      destruct (expired now res) eqn:Ex; cbn [reservations]; [rewrite lookup_delete_eq|rewrite E].
      * split; [by intros []|]. intros [[= ->] H]. rewrite H in Ex; [done|by left].
      * split; [intros [[= ->] _]; by split|]. intros [[= ->] H]. split; [done|]. intros _. done.
    + rewrite Hother by done. rewrite elem_of_cons. naive_solver.
  - rewrite H2. cbn [due omap list_omap]. assert (due (expire_one now row id) now order = due row now order) as ->.
    { unfold due. apply list_omap_ext. apply Forall_Forall2_diag, Forall_forall. intros i Hi. rewrite Hother; [done|]. intros ->. done. }
    unfold expire_one. destruct (reservations row !! id) as [res|]; [|done]. by destruct (expired now res).
Qed.
(** Stale holds are committed, exactly once and nothing else: the sweep that
    precedes every admission and snapshot keeps precisely the reservations
    younger than the time to live and adds the amounts of the others to the
    committed spend. *)
Theorem stale_holds_committed order row now : NoDup order -> (forall i, is_Some (reservations row !! i) -> i ∈ order) ->
  let row' := expireLocked order row now in
  (forall i r, reservations row' !! i = Some r <-> reservations row !! i = Some r /\ Sub now (br_at r) < BudgetReservationTTL) /\
  committed row' = fold_left fadd (due row now order) (committed row).
Proof.
  intros Hnd Hall. cbv zeta. unfold expireLocked. rewrite snap_reservations. destruct (sweep_spec now order row Hnd) as [H1 H2].
  split; [|unfold snapReserved; by destruct (_ && _)]. intros i r. rewrite H1. unfold expired. rewrite Z.leb_gt.
  split; intros [Hr H]; (split; [done|]); [apply H, Hall; by rewrite Hr|done].
Qed.
Lemma stale_holds_committed_witness :
  let row := mkRowB f_zero (f_of_int 3) (<[1 := mkReservation one_dollar 0]> (<[2 := mkReservation (f_of_int 2) (16 * Minute)]> ∅)) in
  committed (expireLocked [1; 2] row (16 * Minute)) = fold_left fadd (due row (16 * Minute) [1; 2]) f_zero.
Proof.
  intros row. apply (stale_holds_committed [1; 2] row (16 * Minute)).
  - apply (bool_decide_unpack _). vm_compute. exact I.
  - intros i [r Hr]. cbn [row reservations] in Hr. apply lookup_insert_Some in Hr as [[<- _]|[_ Hr]]; [by left|]. apply lookup_insert_Some in Hr as [[<- _]|[_ Hr]]; [right; by left|].
    by rewrite lookup_empty in Hr.
Defined.
