(* ===== verification/GoSort.v ===== *)
(** * [sort.SliceStable] for every comparator

    [Prelude.slice_stable] is the insertion sort the library runs on blocks of
    twenty; this is the whole algorithm, with the merging of sorted blocks by
    rotations.  It is needed where the comparator is not a strict weak order (a
    comparison with a tolerance is not transitive), so that the result depends
    on the algorithm. *)

From S2P Require Import Prelude.

Section stable.
Context {A : Type} (less : A -> A -> bool).
Implicit Types l : list A.

Definition less_at (l : list A) (i j : nat) : bool :=
  match l !! i, l !! j with Some x, Some y => less x y | _, _ => false end.
(** [l[a:b]]. *)
Definition slice (a b : nat) (l : list A) : list A := take (b - a) (drop a l).
(** [rotate(a, m, b)]: the blocks [l[a:m]] and [l[m:b]] exchanged. *)
Definition rotate (l : list A) (a m b : nat) : list A := take a l ++ slice m b l ++ slice a m l ++ drop b l.
(** Binary search in [[i, j)] for the least index at which [stop] holds. *)
Fixpoint bisect (fuel : nat) (stop : nat -> bool) (i j : nat) : nat :=
  match fuel with
  | O => i
  | S fuel =>
      if (i <? j)%nat then
        let h := ((i + j) / 2)%nat in
        if stop h then bisect fuel stop i h else bisect fuel stop (S h) j
      else i
  end.
Definition insertionSort (l : list A) (a b : nat) : list A := take a l ++ slice_stable less (slice a b l) ++ drop b l.

(** The two sorted blocks [l[a:m]] and [l[m:b]] merged in place; a call works on
    a strictly shorter range, so [b - a] is enough fuel. *)
Fixpoint symMerge (fuel : nat) (l : list A) (a m b : nat) : list A :=
  match fuel with
  | O => l
  | S fuel =>
      if (m - a =? 1)%nat then
        let i := bisect (b - m) (fun h => negb (less_at l h a)) m b in rotate l a (S a) i
      else if (b - m =? 1)%nat then
        let i := bisect (m - a) (fun h => less_at l m h) a m in rotate l i m (S m)
      else
        let mid := ((a + b) / 2)%nat in
        let n := (mid + m)%nat in
        let '(start, r) := if (mid <? m)%nat then (n - b, mid)%nat else (a, m) in
        let p := (n - 1)%nat in
        let start := bisect (b - a) (fun c => less_at l (p - c) c) start r in
        let stop := (n - start)%nat in
        let l := if (start <? m)%nat && (m <? stop)%nat then rotate l start m stop else l in
        let l := if (a <? start)%nat && (start <? mid)%nat then symMerge fuel l a start mid else l in
        if (mid <? stop)%nat && (stop <? b)%nat then symMerge fuel l mid stop b else l
  end.

Definition blockSize : nat := 20.
(** The blocks sorted by insertion: [rounds] full ones from [a], then the rest. *)
Fixpoint sort_blocks (rounds : nat) (l : list A) (a : nat) : list A :=
  match rounds with
  | O => insertionSort l a (length l)
  | S rounds => sort_blocks rounds (insertionSort l a (a + blockSize)) (a + blockSize)
  end.
(** Neighbouring sorted blocks of [size] merged: [rounds] full pairs, then the rest. *)
Fixpoint merge_pairs (rounds : nat) (size : nat) (l : list A) (a : nat) : list A :=
  match rounds with
  | O => if (a + size <? length l)%nat then symMerge (length l) l a (a + size) (length l) else l
  | S rounds => merge_pairs rounds size (symMerge (2 * size) l a (a + size) (a + 2 * size)) (a + 2 * size)
  end.
Fixpoint merge_all (fuel size : nat) (l : list A) : list A :=
  match fuel with
  | O => l
  | S fuel => if (size <? length l)%nat then merge_all fuel (2 * size) (merge_pairs (length l / (2 * size)) size l 0) else l
  end.
(** Block sizes double, so [length l] rounds are more than enough. *)
Definition SliceStable (l : list A) : list A := merge_all (length l) blockSize (sort_blocks (length l / blockSize) l 0).

(** ** It permutes *)

Lemma slice_split a b l : (a <= b)%nat -> take a l ++ slice a b l ++ drop b l = l.
Proof.
  intros H. unfold slice. rewrite <- (take_drop a l) at 4. f_equal.
  rewrite <- (take_drop (b - a) (drop a l)) at 2. f_equal. rewrite drop_drop. f_equal. lia.
Qed.

Lemma rotate_range_perm l a m b : (a <= m <= b)%nat -> rotate l a m b ≡ₚ l.
Proof.
  intros [H1 H2]. unfold rotate. rewrite <- (slice_split a m l H1) at 5. f_equiv.
  rewrite app_assoc, (Permutation_app_comm (slice m b l)), <- app_assoc. f_equiv.
  unfold slice. rewrite <- (take_drop (b - m) (drop m l)) at 2. f_equiv. rewrite drop_drop.
  replace (m + (b - m))%nat with b by lia. done.
Qed.

Lemma insertionSort_perm l a b : (a <= b)%nat -> insertionSort l a b ≡ₚ l.
Proof. intros H. unfold insertionSort. rewrite slice_stable_perm. by rewrite slice_split. Qed.

Lemma bisect_bounds fuel stop i j : (i <= j)%nat -> (i <= bisect fuel stop i j <= j)%nat.
Proof.
  revert i j. induction fuel as [|fuel IH]; intros i j H; cbn [bisect]; [lia|].
  destruct (Nat.ltb_spec i j); [|lia]. assert (i <= (i + j) / 2 < j)%nat as [H1 H2].
  { split; [apply Nat.div_le_lower_bound|apply Nat.div_lt_upper_bound]; lia. }
  destruct (stop _).
  - specialize (IH i ((i + j) / 2)%nat H1). lia.
  - specialize (IH (S ((i + j) / 2)) j). lia.
Qed.

Lemma symMerge_perm fuel l a m b : (a < m < b)%nat -> symMerge fuel l a m b ≡ₚ l.
Proof.
  revert l a m b. induction fuel as [|fuel IH]; intros l a m b Hb; cbn [symMerge]; [done|].
  destruct (Nat.eqb_spec (m - a) 1).
  { apply rotate_range_perm. pose proof (bisect_bounds (b - m) (fun h => negb (less_at l h a)) m b). lia. }
  destruct (Nat.eqb_spec (b - m) 1).
  { apply rotate_range_perm. pose proof (bisect_bounds (m - a) (fun h => less_at l m h) a m). lia. }
  set (mid := ((a + b) / 2)%nat). destruct (if (mid <? m)%nat then _ else _) as [start0 r].
  set (start := bisect _ _ start0 r). set (stop := (mid + m - start)%nat).
  assert (forall L (c : bool) x y z, L ≡ₚ l -> (c = true -> (x < y < z)%nat) -> (if c then symMerge fuel L x y z else L) ≡ₚ l) as Hs
    by (intros L [] x y z HL Hc; [rewrite IH by auto; done|done]).
  apply Hs; [apply Hs|]; try (intros [?%Nat.ltb_lt ?%Nat.ltb_lt]%andb_true_iff; lia).
  destruct (Nat.ltb_spec start m), (Nat.ltb_spec m stop); try done. apply rotate_range_perm. lia.
Qed.

Lemma sort_blocks_perm rounds l a : (a + rounds * blockSize <= length l)%nat -> sort_blocks rounds l a ≡ₚ l.
Proof.
  revert l a. induction rounds as [|rounds IH]; intros l a H; cbn [sort_blocks].
  - apply insertionSort_perm. lia.
  - assert (insertionSort l a (a + blockSize) ≡ₚ l) as Hp by (apply insertionSort_perm; lia).
    rewrite IH; [done|]. rewrite Hp. lia.
Qed.

Lemma merge_pairs_perm rounds size l a : (0 < size)%nat -> merge_pairs rounds size l a ≡ₚ l.
Proof.
  intros Hs. revert l a. induction rounds as [|rounds IH]; intros l a; cbn [merge_pairs].
  - destruct (Nat.ltb_spec (a + size) (length l)); [|done]. apply symMerge_perm. lia.
  - rewrite IH. apply symMerge_perm. lia.
Qed.

Lemma SliceStable_perm l : SliceStable l ≡ₚ l.
Proof.
  assert (forall fuel size l, (0 < size)%nat -> merge_all fuel size l ≡ₚ l) as Hm.
  { induction fuel as [|fuel IH]; intros size l' Hs; cbn [merge_all]; [done|].
    destruct (size <? length l')%nat; [|done]. rewrite IH by lia. by apply merge_pairs_perm. }
  unfold SliceStable. rewrite Hm by (unfold blockSize; lia). apply sort_blocks_perm.
  rewrite Nat.mul_comm. apply Nat.Div0.mul_div_le.
Qed.

(** Up to twenty elements it is the insertion sort. *)
Lemma SliceStable_small l : (length l < blockSize)%nat -> SliceStable l = slice_stable less l.
Proof.
  intros H. unfold SliceStable. rewrite Nat.div_small by done. cbn [sort_blocks].
  unfold insertionSort, slice. rewrite take_0, drop_0, Nat.sub_0_r, take_ge, drop_ge, app_nil_r by lia. cbn [app].
  destruct (length l) as [|n] eqn:E; [done|]. cbn [merge_all].
  assert (length (slice_stable less l) = S n) as -> by (by rewrite slice_stable_perm).
  by rewrite (proj2 (Nat.ltb_ge _ _)) by lia.
Qed.
End stable.

(** Twenty-five numbers, so that two blocks are merged. *)
Example SliceStable_merges :
  SliceStable Nat.ltb [9; 3; 7; 1; 8; 2; 6; 4; 5; 0; 19; 13; 17; 11; 18; 12; 16; 14; 15; 10; 24; 3; 0; 20; 1]%nat =
  [0; 0; 1; 1; 2; 3; 3; 4; 5; 6; 7; 8; 9; 10; 11; 12; 13; 14; 15; 16; 17; 18; 19; 20; 24]%nat.
Proof. reflexivity. Qed.
