(* ===== verification/ProviderState.v ===== *)
(** * Decision-provider health ([src/internal/decision/providerstate/manager.go])

    The circuit that keeps a failing decision provider out of the decision
    plane for a cooldown: per provider the times of its recent failures, opened
    when enough of them lie in a sliding window, closed by a success or by the
    end of the cooldown.  A method takes the readings of the clock it makes. *)

From S2P Require Import Prelude.

Record Config := mkConfig { FailureThreshold : Z; FailureWindow : Duration; Cooldown : Duration }.
Definition DefaultConfig : Config := mkConfig 3 (30 * Second) (60 * Second).
Record State := mkState {
  Status : string; ConsecutiveFailures : Z; Successes : Z; FailuresInWindow : Z;
  LastFailure : Time; LastSuccess : Time; CooldownUntil : Time; failTimes : list Time }.
#[global] Instance eta_State : Eta State := fun s =>
  mkState (Status s) (ConsecutiveFailures s) (Successes s) (FailuresInWindow s) (LastFailure s) (LastSuccess s) (CooldownUntil s) (failTimes s).
Record Manager := mkManager { cfg : Config; states : gmap string State }.
#[global] Instance eta_Manager : Eta Manager := fun m => mkManager (cfg m) (states m).
Definition fresh_state : State := mkState "healthy" 0 0 0 0 0 0 [].

(** The defaults [New] and [UpdateConfig] put in place of values that are not positive. *)
Definition normalize_config (c : Config) : Config :=
  mkConfig (if FailureThreshold c <=? 0 then 3 else FailureThreshold c)
    (if FailureWindow c <=? 0 then 30 * Second else FailureWindow c)
    (if Cooldown c <=? 0 then 60 * Second else Cooldown c).
Definition New (c : Config) : Manager := mkManager (normalize_config c) ∅.
Definition getStateLocked (m : Manager) (id : string) : State := default fresh_state (states m !! id).
Definition set_state (m : Manager) (id : string) (st : State) : Manager := m <| states := <[id := st]> (states m) |>.

(** The reading [now] decides; [recheck] is the one taken under the write lock. *)
Definition IsCooldown (m : Manager) (id : string) (now recheck : Time) : Manager * bool :=
  match states m !! id with
  | None => (m, false)
  | Some st =>
      if IsZero (CooldownUntil st) then (m, false)
      else if Before now (CooldownUntil st) then (m, true)
      else if negb (Before recheck (CooldownUntil st))
           then (set_state m id (st <| Status := "healthy" |> <| CooldownUntil := 0 |>), false)
           else (m, false)
  end.
Definition get_CooldownUntil (m : Manager) (id : string) : Time :=
  match states m !! id with Some st => CooldownUntil st | None => 0 end.
Definition hide_times (st : State) : State := st <| failTimes := [] |>.
Definition Snapshot (m : Manager) : gmap string State := hide_times <$> states m.
Definition SnapshotOne (m : Manager) (id : string) : State * bool :=
  match states m !! id with Some st => (hide_times st, true) | None => (mkState "" 0 0 0 0 0 0 [], false) end.

Definition RecordSuccess (m : Manager) (id : string) (now : Time) : Manager :=
  let st := getStateLocked m id in
  let st := st <| Successes := int64 (Successes st + 1) |> <| LastSuccess := now |> <| ConsecutiveFailures := 0 |>
               <| failTimes := [] |> <| FailuresInWindow := 0 |> in
  let st := if String.eqb (Status st) "cooldown" || negb (IsZero (CooldownUntil st))
            then st <| Status := "healthy" |> <| CooldownUntil := 0 |> else st in
  let st := if String.eqb (Status st) "" then st <| Status := "healthy" |> else st in
  set_state m id st.

(** The failure times not before the start of the window. *)
Definition in_window (window : Duration) (now : Time) (times : list Time) : list Time :=
  List.filter (fun t => After t (Add now (- window)) || (t =? Add now (- window))) times.
Arguments in_window : simpl never.
Definition RecordFailure (m : Manager) (id : string) (now : Time) : Manager :=
  let st := getStateLocked m id in
  let kept := in_window (FailureWindow (cfg m)) now (failTimes st ++ [now]) in
  let st := st <| ConsecutiveFailures := int64 (ConsecutiveFailures st + 1) |> <| LastFailure := now |>
               <| failTimes := kept |> <| FailuresInWindow := Z.of_nat (length kept) |> in
  let st := if String.eqb (Status st) "" then st <| Status := "healthy" |> else st in
  let st := if (FailureThreshold (cfg m) <=? FailuresInWindow st) && negb (String.eqb (Status st) "cooldown")
            then st <| Status := "cooldown" |> <| CooldownUntil := Add now (Cooldown (cfg m)) |> else st in
  set_state m id st.
Definition UpdateConfig (m : Manager) (c : Config) : Manager := m <| cfg := normalize_config c |>.
Definition Reset (m : Manager) (id : string) : Manager := m <| states := delete id (states m) |>.
Definition get_Config (m : Manager) : Config := cfg m.

(** ** The circuit

    The invariant of a provider's state: the status says whether a cooldown is
    running, and the window's count is the length of its list. *)
Definition state_wf (st : State) : Prop :=
  (Status st = "healthy" /\ CooldownUntil st = 0 \/ Status st = "cooldown" /\ CooldownUntil st <> 0)
  /\ FailuresInWindow st = Z.of_nat (length (failTimes st)).
Definition manager_wf (m : Manager) : Prop :=
  (forall id st, states m !! id = Some st -> state_wf st)
  /\ 0 < FailureThreshold (cfg m) /\ 0 < FailureWindow (cfg m) /\ 0 < Cooldown (cfg m).

Lemma get_wf m id : manager_wf m -> state_wf (getStateLocked m id).
Proof.
  intros [H _]. unfold getStateLocked. destruct (states m !! id) eqn:E; cbn; [eauto|].
  split; [by left|done].
Qed.

Lemma set_wf m id st : manager_wf m -> state_wf st -> manager_wf (set_state m id st).
Proof.
  intros [H Hc] Hst. split; [|exact Hc]. intros id' st'. cbn.
  rewrite lookup_insert_Some. intros [[<- <-]|[? ?]]; eauto.
Qed.

Lemma New_wf c : manager_wf (New c).
Proof.
  split; [done|]. cbn. unfold Second.
  split_and!; case_match; lia.
Qed.

Lemma UpdateConfig_wf m c : manager_wf m -> manager_wf (UpdateConfig m c).
Proof. intros [H _]. split; [exact H|]. apply (New_wf c). Qed.

Lemma IsCooldown_wf m id now recheck : manager_wf m -> manager_wf (IsCooldown m id now recheck).1.
Proof.
  intros Hm. unfold IsCooldown. destruct (states m !! id) as [st|] eqn:E; [|done].
  repeat case_match; try done. apply set_wf; [done|].
  destruct (proj1 Hm _ _ E) as [_ Hn]. split; [by left|done].
Qed.

Lemma RecordSuccess_wf m id now : manager_wf m -> manager_wf (RecordSuccess m id now).
Proof.
  intros Hm. unfold RecordSuccess. apply set_wf; [done|].
  generalize (get_wf m id Hm). generalize (getStateLocked m id).
  intros [] [[[Hs Hc]|[Hs Hc]] _]; cbn in Hs, Hc |- *; subst; cbn; split; cbn; auto.
Qed.

Lemma RecordFailure_wf m id now : 0 <= now -> manager_wf m -> manager_wf (RecordFailure m id now).
Proof.
  intros Hnow Hm. pose proof Hm as [_ (_ & _ & Hcd)]. unfold RecordFailure. apply set_wf; [done|].
  generalize (get_wf m id Hm). generalize (getStateLocked m id).
  intros [] [[[Hs Hc]|[Hs Hc]] _]; cbn in Hs, Hc |- *; subst; cbn.
  - rewrite andb_true_r. case_match; cbn; split; cbn; auto.
    right. split; [done|]. unfold Add. lia.
  - rewrite andb_false_r. split; cbn; auto.
Qed.

(** Recording for one provider leaves every other provider's state alone. *)
Lemma RecordFailure_other m id id' now : id <> id' -> states (RecordFailure m id now) !! id' = states m !! id'.
Proof. intros. cbn. by rewrite lookup_insert_ne. Qed.
Lemma RecordSuccess_other m id id' now : id <> id' -> states (RecordSuccess m id now) !! id' = states m !! id'.
Proof. intros. cbn. by rewrite lookup_insert_ne. Qed.
Lemma IsCooldown_other m id id' now recheck : id <> id' -> states (IsCooldown m id now recheck).1 !! id' = states m !! id'.
Proof. intros. unfold IsCooldown. repeat case_match; try done. cbn. by rewrite lookup_insert_ne. Qed.

(** Failures recorded one after the other. *)
Definition fail_all (m : Manager) (id : string) (ts : list Time) : Manager := fold_left (fun m t => RecordFailure m id t) ts m.
(** All of them within one window. *)
Definition within_window (window : Duration) (ts : list Time) : Prop := forall t u, t ∈ ts -> u ∈ ts -> u - t <= window.
(** The failure that opens the circuit: the one that reaches the threshold. *)
Definition opening (m : Manager) (ts : list Time) : option Time := ts !! Z.to_nat (FailureThreshold (cfg m) - 1).

Lemma fail_all_cfg m id ts : cfg (fail_all m id ts) = cfg m.
Proof. revert m. induction ts as [|t ts IH]; intros m; [done|]. exact (IH (RecordFailure m id t)). Qed.

Lemma fail_all_snoc m id ts t : fail_all m id (ts ++ [t]) = RecordFailure (fail_all m id ts) id t.
Proof. unfold fail_all. by rewrite fold_left_app. Qed.

Lemma in_window_all window now ts :
  within_window window ts -> now ∈ ts -> in_window window now ts = ts.
Proof.
  intros Hw Hnow. unfold in_window. assert (forall t, t ∈ ts -> now - t <= window) as H by (intros t Ht; by apply Hw).
  clear Hw Hnow. induction ts as [|t ts IH]; cbn; [done|].
  assert (now - t <= window) by (apply H; by left).
  assert (After t (Add now (- window)) || (t =? Add now (- window)) = true) as ->.
  { unfold After, Add. apply orb_true_iff. destruct (Z.ltb_spec (now + - window) t); [by left|]. right. apply Z.eqb_eq. lia. }
  f_equal. apply IH. intros u Hu. apply H. by right.
Qed.

Lemma fail_all_state m id ts :
  manager_wf m -> states m !! id = None -> within_window (FailureWindow (cfg m)) ts ->
  let st := getStateLocked (fail_all m id ts) id in
  failTimes st = ts
  /\ match opening m ts with
     | Some t => Status st = "cooldown" /\ CooldownUntil st = Add t (Cooldown (cfg m))
     | None => Status st = "healthy" /\ CooldownUntil st = 0
     end.
Proof.
  intros (_ & Hth & _) Hnone. unfold opening. induction ts as [|t ts IH] using rev_ind; intros Hw.
  { cbn. unfold getStateLocked. by rewrite Hnone. }
  destruct IH as [Hf Hs]. { intros ? ? ? ?. apply Hw; apply elem_of_app; by left. }
  rewrite fail_all_snoc. unfold RecordFailure.
  revert Hf Hs. generalize (getStateLocked (fail_all m id ts) id). intros [status ? ? ? ? ? until times] Hf Hs. cbn in Hf, Hs.
  unfold getStateLocked. cbn. rewrite lookup_insert_eq. cbn. rewrite fail_all_cfg, Hf.
  rewrite in_window_all by (done || (apply elem_of_app; right; by left)).
  rewrite length_app. cbn [length].
  destruct (ts !! Z.to_nat (FailureThreshold (cfg m) - 1)) as [u|] eqn:Eu.
  - rewrite (lookup_app_l_Some _ _ _ _ Eu). destruct Hs as [-> ->]. cbn. by rewrite andb_false_r.
  - apply lookup_ge_None in Eu. destruct Hs as [-> ->]. cbn. rewrite andb_true_r.
    destruct (Z.leb_spec (FailureThreshold (cfg m)) (Z.of_nat (length ts + 1))).
    + replace (Z.to_nat (FailureThreshold (cfg m) - 1)) with (length ts + 0)%nat by lia.
      rewrite lookup_app_r by lia. replace (length ts + 0 - length ts)%nat with O by lia. done.
    + rewrite lookup_ge_None_2 by (rewrite length_app; cbn; lia). done.
Qed.

(** The circuit of a decision provider, exactly: after any failures that
    lie within one window, with no success between them, the provider is
    skipped if and only if the failures reached the threshold, and until
    precisely one cooldown after the failure that reached it (later failures do
    not extend it); a success ends the cooldown at once. *)
Theorem circuit_exact m id ts now recheck :
  manager_wf m -> states m !! id = None -> within_window (FailureWindow (cfg m)) ts -> Forall (fun t => 0 <= t) ts ->
  (IsCooldown (fail_all m id ts) id now recheck).2 =
    match opening m ts with Some t => Before now (Add t (Cooldown (cfg m))) | None => false end
  /\ forall at_ , (IsCooldown (RecordSuccess (fail_all m id ts) id at_) id now recheck).2 = false.
Proof.
  intros Hm Hnone Hw Hpos. destruct (fail_all_state m id ts Hm Hnone Hw) as [_ Hst]. split.
  - unfold IsCooldown. unfold getStateLocked in Hst.
    destruct (states (fail_all m id ts) !! id) as [st|]; cbn in Hst.
    + destruct (opening m ts) as [t|] eqn:Eo; destruct Hst as [_ ->]; [|done].
      assert (0 <= t) by (rewrite Forall_forall in Hpos; eapply Hpos, list_elem_of_lookup_2; exact Eo).
      destruct Hm as (_ & _ & _ & Hcd). unfold IsZero, Add. destruct (Z.eqb_spec (t + Cooldown (cfg m)) 0); [lia|].
      by repeat case_match.
    + by destruct (opening m ts); destruct Hst as [? ?].
  - intros at_. unfold RecordSuccess, IsCooldown. cbn. rewrite lookup_insert_eq.
    generalize (getStateLocked (fail_all m id ts) id). intros st. destruct st; cbn.
    destruct (String.eqb_spec Status0 "cooldown"), (IsZero CooldownUntil0) eqn:E; cbn; try done.
    destruct Status0; cbn; by rewrite E.
Qed.

Lemma circuit_exact_witness :
  (IsCooldown (fail_all (New DefaultConfig) "jev" [10; 11; 12; 13]) "jev" (11 + 60 * Second) 0).2 = true.
Proof.
  refine (eq_trans (proj1 (circuit_exact (New DefaultConfig) "jev" [10; 11; 12; 13] (11 + 60 * Second) 0 _ _ _ _)) _).
  - apply New_wf.
  - done.
  - intros t u Ht Hu. rewrite list_elem_of_In in Ht, Hu. cbn in Ht, Hu.
    change (FailureWindow _) with (30 * Second). unfold Second. lia.
  - repeat constructor; lia.
  - done.
Defined.
