(* ===== verification/Decision.v ===== *)
(** * The contract of the decision plane ([src/internal/decision]: [request.go],
    [result.go], [reason.go], [budget.go], [provider.go], [local.go],
    [registry.go], [validator.go], [primary_constraints.go])

    What a decision provider is asked and may answer, the strict validation of
    its answer, the reordering a valid answer stands for, and the band of
    candidates that may become the new primary.

    The text of an error is kept as the value it is formatted from
    ([ErrText]).  The task profile and the request features are read by the
    providers only; a request here has the fields the plane itself reads, and
    the task type the policy provider reads. *)

From S2P Require Import Prelude.

(** ** Requests *)

Record CandidateCapabilities := mkCaps { Streaming : bool; Tools : bool; Vision : bool; Reasoning : bool }.
Record Candidate := mkCandidate {
  ID : string; ProviderID : string; Model : string; Priority : Z; Weight : float64;
  PoolID : string; PoolOrdinal : Z;
  RouterScore : float64; HealthStatus : string; EWMALatencyMS : float64; EWMATTFTMS : float64; EWMAFailureRate : float64;
  Successes : Z; Failures : Z; CapacityPressure : float64; TaskQuality : float64; TaskQualitySamples : Z;
  EstimatedCostUSD : float64; PriceKnown : bool; ContextWindow : Z; Caps : CandidateCapabilities; OriginalRank : Z }.
Record Budget := mkBudget { Timeout : Duration; MaxProviderCalls : Z }.
Definition DefaultBudget : Budget := mkBudget (10 * Millisecond) 1.
Definition Budget_IsZero (b : Budget) : bool := (Timeout b =? 0) && (MaxProviderCalls b =? 0).
Record DecisionRequest := mkRequest {
  TaskType : string; Candidates : list Candidate; VirtualEndpointID : string; RouteProfileID : string; CandidatePoolID : string;
  PinnedCandidateID : string; PolicyID : string;
  EstimatedInputTokens : Z; MaxOutputTokens : Z; MinContextWindow : Z; req_Budget : Budget; RequestID : string }.
Definition CloneCandidates (l : list Candidate) : list Candidate := l.

(** ** Results *)

Abbreviation Action := string (only parsing).
Definition ActionSelect : Action := "SELECT".
Definition ActionRank : Action := "RANK".
Definition ActionAbstain : Action := "ABSTAIN".
Abbreviation ReasonCode := string (only parsing).
Definition ReasonExistingOrderPreserved : ReasonCode := "EXISTING_ORDER_PRESERVED".
Definition ReasonLocalPassThrough : ReasonCode := "LOCAL_PASS_THROUGH".
Definition ReasonAbstained : ReasonCode := "ABSTAINED".
Definition ReasonTimeout : ReasonCode := "TIMEOUT".
Definition ReasonProviderError : ReasonCode := "PROVIDER_ERROR".
Definition ReasonProviderPanic : ReasonCode := "PROVIDER_PANIC".
Definition ReasonInvalidResult : ReasonCode := "INVALID_RESULT".
Definition ReasonBudgetExceeded : ReasonCode := "BUDGET_EXCEEDED".
Definition ReasonOffMode : ReasonCode := "OFF_MODE".
Definition ReasonEligibleSetPreserved : ReasonCode := "ELIGIBLE_SET_PRESERVED".
Definition ReasonNormalizationApplied : ReasonCode := "NORMALIZATION_APPLIED".
Definition ReasonValidationFailed : ReasonCode := "VALIDATION_FAILED".
Definition ReasonSingleCandidate : ReasonCode := "SINGLE_CANDIDATE".
Definition ReasonEmptyEligible : ReasonCode := "EMPTY_ELIGIBLE".
Definition ReasonProviderUnhealthy : ReasonCode := "PROVIDER_UNHEALTHY".
Definition ReasonAffinityPreserved : ReasonCode := "AFFINITY_PRESERVED".
Definition ReasonPoolBoundaryEnforced : ReasonCode := "POOL_BOUNDARY_ENFORCED".
Definition ReasonPriorityGuardrail : ReasonCode := "PRIORITY_GUARDRAIL_ENFORCED".
Definition ReasonPolicyScored : ReasonCode := "POLICY_SCORED".
Definition ReasonPolicySelectFirst : ReasonCode := "POLICY_SELECT_FIRST".
Definition ReasonTaskAwareWeights : ReasonCode := "TASK_AWARE_WEIGHTS".
Definition ReasonMinDeltaNotMet : ReasonCode := "MIN_DELTA_NOT_MET".
Definition ReasonContextGuardrail : ReasonCode := "CONTEXT_GUARDRAIL".
Definition ReasonExternalSelected : ReasonCode := "EXTERNAL_SELECTED".
Definition ReasonExternalAbstained : ReasonCode := "EXTERNAL_ABSTAINED".
Definition ReasonExternalTimeout : ReasonCode := "EXTERNAL_TIMEOUT".
Definition ReasonExternalHTTPError : ReasonCode := "EXTERNAL_HTTP_ERROR".
Definition ReasonExternalInvalidResponse : ReasonCode := "EXTERNAL_INVALID_RESPONSE".
Definition ReasonExternalUnknownCandidate : ReasonCode := "EXTERNAL_UNKNOWN_CANDIDATE".
Definition ReasonExternalRequestTooLarge : ReasonCode := "EXTERNAL_REQUEST_TOO_LARGE".
Definition ReasonExternalResponseTooLarge : ReasonCode := "EXTERNAL_RESPONSE_TOO_LARGE".
Definition ReasonExternalProviderUnavailable : ReasonCode := "EXTERNAL_PROVIDER_UNAVAILABLE".
Definition ReasonPrimaryConstraintViolation : ReasonCode := "PRIMARY_CONSTRAINT_VIOLATION".
Definition ReasonChainSelected : ReasonCode := "CHAIN_SELECTED".
Definition ReasonChainExhausted : ReasonCode := "CHAIN_EXHAUSTED".
Definition ReasonChainBudgetExhausted : ReasonCode := "CHAIN_BUDGET_EXHAUSTED".
Definition ReasonChainDeadlineExhausted : ReasonCode := "CHAIN_DEADLINE_EXHAUSTED".
Definition ReasonChainStepAbstained : ReasonCode := "CHAIN_STEP_ABSTAINED".
Definition ReasonChainStepFailed : ReasonCode := "CHAIN_STEP_FAILED".
Definition ReasonDecisionProviderCooldown : ReasonCode := "DECISION_PROVIDER_COOLDOWN".
Definition allowedReasonCodes : list ReasonCode :=
  [ReasonExistingOrderPreserved; ReasonLocalPassThrough; ReasonAbstained; ReasonTimeout; ReasonProviderError;
   ReasonProviderPanic; ReasonInvalidResult; ReasonBudgetExceeded; ReasonOffMode; ReasonEligibleSetPreserved;
   ReasonNormalizationApplied; ReasonValidationFailed; ReasonSingleCandidate; ReasonEmptyEligible;
   ReasonProviderUnhealthy; ReasonAffinityPreserved; ReasonPoolBoundaryEnforced; ReasonPriorityGuardrail;
   ReasonPolicyScored; ReasonPolicySelectFirst; ReasonTaskAwareWeights; ReasonMinDeltaNotMet; ReasonContextGuardrail;
   ReasonExternalSelected; ReasonExternalAbstained; ReasonExternalTimeout; ReasonExternalHTTPError;
   ReasonExternalInvalidResponse; ReasonExternalUnknownCandidate; ReasonExternalRequestTooLarge;
   ReasonExternalResponseTooLarge; ReasonExternalProviderUnavailable; ReasonPrimaryConstraintViolation;
   ReasonChainSelected; ReasonChainExhausted; ReasonChainBudgetExhausted; ReasonChainDeadlineExhausted;
   ReasonChainStepAbstained; ReasonChainStepFailed; ReasonDecisionProviderCooldown].
Definition has_code (l : list ReasonCode) (rc : ReasonCode) : bool := existsb (String.eqb rc) l.
Definition IsValidReasonCode (rc : ReasonCode) : bool := has_code allowedReasonCodes rc.
Definition MaxReasonCodes : nat := 8.
Definition MaxReasonCodeLen : nat := 64.
Definition MaxSelectedIDLen : nat := 512.
Definition MaxProviderIDLen : nat := 128.
Definition MaxRankedIDs : nat := 4096.

Inductive ValidationError :=
| ErrEmptyEligible
| ErrInvalidAction (action : Action)
| ErrInvalidConfidence (confidence : float64)
| ErrSelectedIDTooLong
| ErrProviderIDTooLong
| ErrReasonCodeTooMany (count : nat)
| ErrReasonCodeTooLong (rc : ReasonCode)
| ErrReasonCodeInvalid (rc : ReasonCode)
| ErrTooManyRanked (count : nat)
| ErrSelectRequiresID
| ErrSelectHasRanked
| ErrUnknownCandidate (id : string)
| ErrRankHasSelected
| ErrRankEmpty
| ErrRankedIDTooLong
| ErrDuplicateID (id : string)
| ErrAbstainHasSelected
| ErrAbstainHasRanked.
(** [plainText] is a text given as such. *)
Inductive ErrText := NoError | plainText (s : string) | validationText (e : ValidationError) | notFoundText (name : string).
Definition bounded (s : string) : string := if (256 <? String.length s)%nat then String.substring 0 256 s else s.

Record PolicyTrace := mkPolicyTrace {
  pt_PolicyID : string; pt_PolicyVersion : string; pt_TaskType : string; pt_OriginalPrimaryID : string; pt_SelectedID : string;
  pt_ChangedPrimary : bool; pt_SelectedScore : float64; pt_OriginalPrimaryScore : float64;
  pt_SelectedBreakdown : gmap string float64; pt_OriginalBreakdown : gmap string float64; pt_Weights : gmap string float64 }.
Record DecisionResult := mkResult {
  r_Action : Action; SelectedID : string; RankedIDs : list string; Confidence : float64; ReasonCodes : list ReasonCode;
  r_ProviderID : string; Abstained : bool; Latency : Duration; Error : ErrText; r_PolicyTrace : option PolicyTrace }.
#[global] Instance eta_DecisionResult : Eta DecisionResult := fun r =>
  mkResult (r_Action r) (SelectedID r) (RankedIDs r) (Confidence r) (ReasonCodes r) (r_ProviderID r) (Abstained r) (Latency r) (Error r) (r_PolicyTrace r).
Definition f_one : float64 := f_of_int 1.
(** The abstentions the plane itself builds. *)
Definition abstain (confidence : float64) (codes : list ReasonCode) (provider : string) : DecisionResult :=
  mkResult ActionAbstain "" [] confidence codes provider true 0 NoError None.
Definition IsAbstain (r : DecisionResult) : bool := String.eqb (r_Action r) ActionAbstain.
Definition ValidAction (r : DecisionResult) : bool :=
  String.eqb (r_Action r) ActionSelect || String.eqb (r_Action r) ActionRank || String.eqb (r_Action r) ActionAbstain.
Definition IsStrictAbstain (r : DecisionResult) : bool :=
  String.eqb (r_Action r) ActionAbstain && String.eqb (SelectedID r) "" && (length (RankedIDs r) =? 0)%nat.

(** ** Validation *)

Definition eligible_has (eligible : list Candidate) (id : string) : bool := existsb (fun c => String.eqb (ID c) id) eligible.
Fixpoint check_codes (codes : list ReasonCode) : option ValidationError :=
  match codes with
  | [] => None
  | rc :: codes =>
      if (MaxReasonCodeLen <? String.length rc)%nat then Some (ErrReasonCodeTooLong rc)
      else if negb (IsValidReasonCode rc) then Some (ErrReasonCodeInvalid rc)
      else check_codes codes
  end.
Fixpoint check_ranked (eligible : list Candidate) (ids seen : list string) : option ValidationError :=
  match ids with
  | [] => None
  | id :: ids =>
      if (MaxSelectedIDLen <? String.length id)%nat then Some ErrRankedIDTooLong
      else if negb (eligible_has eligible id) then Some (ErrUnknownCandidate id)
      else if has_code seen id then Some (ErrDuplicateID id)
      else check_ranked eligible ids (id :: seen)
  end.
Definition ValidateResult (eligible : list Candidate) (result : DecisionResult) : option ValidationError :=
  if (length eligible =? 0)%nat then Some ErrEmptyEligible
  else if negb (ValidAction result) then Some (ErrInvalidAction (r_Action result))
  else if IsNaN (Confidence result) || IsInf (Confidence result) then Some (ErrInvalidConfidence (Confidence result))
  else if (Confidence result <? f_zero)%f64 || (Confidence result >? f_one)%f64 then Some (ErrInvalidConfidence (Confidence result))
  else if (MaxSelectedIDLen <? String.length (SelectedID result))%nat then Some ErrSelectedIDTooLong
  else if (MaxProviderIDLen <? String.length (r_ProviderID result))%nat then Some ErrProviderIDTooLong
  else if (MaxReasonCodes <? length (ReasonCodes result))%nat then Some (ErrReasonCodeTooMany (length (ReasonCodes result)))
  else match check_codes (ReasonCodes result) with
  | Some e => Some e
  | None =>
      if (MaxRankedIDs <? length (RankedIDs result))%nat then Some (ErrTooManyRanked (length (RankedIDs result)))
      else if (length eligible <? length (RankedIDs result))%nat then Some (ErrTooManyRanked (length (RankedIDs result)))
      else if String.eqb (r_Action result) ActionSelect then
        if String.eqb (SelectedID result) "" then Some ErrSelectRequiresID
        else if negb (length (RankedIDs result) =? 0)%nat then Some ErrSelectHasRanked
        else if negb (eligible_has eligible (SelectedID result)) then Some (ErrUnknownCandidate (SelectedID result))
        else None
      else if String.eqb (r_Action result) ActionRank then
        if negb (String.eqb (SelectedID result) "") then Some ErrRankHasSelected
        else if (length (RankedIDs result) =? 0)%nat then Some ErrRankEmpty
        else check_ranked eligible (RankedIDs result) []
      else
        if negb (String.eqb (SelectedID result) "") then Some ErrAbstainHasSelected
        else if negb (length (RankedIDs result) =? 0)%nat then Some ErrAbstainHasRanked
        else None
  end.

(** ** Normalization *)

(** [eligibleByID[id]]: the last candidate of that ID wins. *)
Definition by_id (eligible : list Candidate) (id : string) : option Candidate :=
  List.find (fun c => String.eqb (ID c) id) (rev eligible).
Definition without (id : string) (l : list Candidate) : list Candidate := List.filter (fun c => negb (String.eqb (ID c) id)) l.
(** The ranked candidates, each ID once, and the IDs seen. *)
Fixpoint rank_pass (eligible : list Candidate) (ids seen : list string) : list Candidate * list string :=
  match ids with
  | [] => ([], seen)
  | id :: ids =>
      if has_code seen id then rank_pass eligible ids seen
      else
        let '(out, seen') := rank_pass eligible ids (id :: seen) in
        (match by_id eligible id with Some c => c :: out | None => out end, seen')
  end.
Definition NormalizeResult (eligible : list Candidate) (result : DecisionResult) : list Candidate * bool * ReasonCode :=
  if (length eligible =? 0)%nat then ([], false, ReasonEmptyEligible)
  else if String.eqb (r_Action result) ActionAbstain then (CloneCandidates eligible, false, ReasonAbstained)
  else if String.eqb (r_Action result) ActionSelect then
    if String.eqb (SelectedID result) "" then (CloneCandidates eligible, false, ReasonInvalidResult)
    else match by_id eligible (SelectedID result) with
    | None => (CloneCandidates eligible, false, ReasonInvalidResult)
    | Some sel => (sel :: without (SelectedID result) eligible, true, ReasonEligibleSetPreserved)
    end
  else if String.eqb (r_Action result) ActionRank then
    if (length (RankedIDs result) =? 0)%nat then (CloneCandidates eligible, false, ReasonAbstained)
    else
      let '(out, seen) := rank_pass eligible (RankedIDs result) [] in
      let omitted := List.filter (fun c => negb (has_code seen (ID c))) eligible in
      (out ++ omitted, true, if (0 <? length omitted)%nat then ReasonNormalizationApplied else ReasonEligibleSetPreserved)
  else (CloneCandidates eligible, false, ReasonAbstained).

(** ** The primary band *)

Record PrimarySelectionConstraints := mkConstraints {
  AllowedPrimaryIDs : list string; ForcedPrimaryID : string; pc_ReasonCodes : list ReasonCode; MinOrdinal : Z; MinPriority : Z }.
Definition min_by (f : Candidate -> Z) (first : Candidate) (rest : list Candidate) : Z :=
  fold_left (fun acc c => if f c <? acc then f c else acc) rest (f first).
Definition ComputePrimaryConstraints (candidates : list Candidate) (pinnedID : string) : PrimarySelectionConstraints :=
  match candidates with
  | [] => mkConstraints [] "" [] 0 0
  | c0 :: rest =>
      let minOrdinal := min_by PoolOrdinal c0 rest in
      let bandPool := List.filter (fun c => PoolOrdinal c =? minOrdinal) candidates in
      let reasonCodes := if (length bandPool <? length candidates)%nat then [ReasonPoolBoundaryEnforced] else [] in
      match (if String.eqb pinnedID "" then None else List.find (fun c => String.eqb (ID c) pinnedID) bandPool) with
      | Some c => mkConstraints [pinnedID] pinnedID (ReasonAffinityPreserved :: reasonCodes) minOrdinal (Priority c)
      | None =>
          match bandPool with
          | [] => mkConstraints [] "" reasonCodes minOrdinal 0
          | b0 :: brest =>
              let minPriority := min_by Priority b0 brest in
              let filtered := List.filter (fun c => Priority c =? minPriority) bandPool in
              let reasonCodes := if (length filtered <? length bandPool)%nat then reasonCodes ++ [ReasonPriorityGuardrail] else reasonCodes in
              let band := if (0 <? length filtered)%nat then filtered else bandPool in
              mkConstraints (map ID band) "" reasonCodes minOrdinal (match band with b :: _ => Priority b | [] => 0 end)
          end
      end
  end.
Definition IsAllowedPrimary (p : PrimarySelectionConstraints) (id : string) : bool := existsb (fun allowed => String.eqb allowed id) (AllowedPrimaryIDs p).

(** ** Providers

    [Outside] is what a provider's methods find when they are called: its own
    health report, the error of the context it is given, and the answer of the
    service behind it.  [Panicked] is a [Decide] that panics. *)
Inductive Reply := Returned (r : DecisionResult) (err : option string) | Panicked (text : string).
Record Outside := mkOutside { o_health : string; o_ctx_err : option string; o_reply : Reply }.
Record Capabilities := mkCapabilities { CanRank : bool; CanSelect : bool }.
Record DecisionProvider := mkProvider {
  p_ID : string; p_Capabilities : Capabilities; p_Health : Outside -> string; p_Decide : Outside -> DecisionRequest -> Reply }.
Definition HealthHealthy : string := "healthy".
Definition HealthDegraded : string := "degraded".
Definition HealthUnavailable : string := "unavailable".
Definition LocalProvider : DecisionProvider :=
  mkProvider "local" (mkCapabilities true false) (fun _ => HealthHealthy)
    (fun o _ => match o_ctx_err o with
     | Some e => Returned (abstain f_zero [ReasonTimeout; ReasonExistingOrderPreserved] "local") (Some e)
     | None => Returned (abstain f_one [ReasonExistingOrderPreserved; ReasonLocalPassThrough] "local") None
     end).

(** ** The registry *)

Definition Registry : Type := gmap string DecisionProvider.
Definition Register (r : Registry) (p : DecisionProvider) : Registry := if String.eqb (p_ID p) "" then r else <[p_ID p := p]> r.
Definition NewRegistry : Registry := Register ∅ LocalProvider.
Definition Registry_Get (r : Registry) (id : string) : option DecisionProvider := r !! id.
(** [List] ranges over the map: some order of its keys. *)
Definition Registry_List (r : Registry) : list string := (map_to_list r).*1.
Definition Registry_Snapshot (r : Registry) (outside : string -> Outside) : gmap string string :=
  map_imap (fun id p => Some (p_Health p (outside id))) r.
Definition Registry_Resolve (r : Registry) (name : string) : DecisionProvider + ErrText :=
  let name := if String.eqb name "" then "local" else name in
  match r !! name with Some p => inl p | None => inr (notFoundText name) end.
