(* ===== verification/DecisionChain.v ===== *)
(** * The decision chain ([src/internal/decision]: [metrics.go], [chain.go])

    The bounded counters of the decision plane, and the executor that asks an
    ordered chain of providers under one deadline and one call budget.

    Everything the executor finds outside itself at a step is one record of
    readings ([Readings]): the state of the contexts, the clock, and the
    provider's answers; the readings may depend on the timeout of the context
    and on the step.  The executor's registry, provider states and counters are
    those of its orchestrator, which always passes all three. *)

From S2P Require Import Prelude ProviderState Decision.

(** ** Counters *)

Record Metrics := mkMetrics {
  decisionsTotal : Z; abstainsTotal : Z; failuresTotal : Z; timeoutsTotal : Z; invalidTotal : Z; selectTotal : Z; rankTotal : Z;
  latencySum : Z; latencyCount : Z; offModeTotal : Z; externalTotal : Z; externalSelected : Z; externalError : Z; externalTimeout : Z;
  externalInvalid : Z; externalUnavailable : Z; externalRequestTooLarge : Z; externalResponseTooLarge : Z; externalLatencySum : Z;
  externalLatencyCount : Z; chainSelected : Z; chainExhausted : Z; chainBudgetExhausted : Z; chainDeadlineExhausted : Z; chainAffinity : Z;
  chainStepSelected : Z; chainStepAbstained : Z; chainStepError : Z; chainStepTimeout : Z; chainStepInvalid : Z; chainStepUnavailable : Z;
  chainStepCooldown : Z; chainStepSkippedBudget : Z }.
#[global] Instance eta_Metrics : Eta Metrics := fun m => mkMetrics
  (decisionsTotal m) (abstainsTotal m) (failuresTotal m) (timeoutsTotal m) (invalidTotal m) (selectTotal m) (rankTotal m) (latencySum m)
  (latencyCount m) (offModeTotal m) (externalTotal m) (externalSelected m) (externalError m) (externalTimeout m) (externalInvalid m)
  (externalUnavailable m) (externalRequestTooLarge m) (externalResponseTooLarge m) (externalLatencySum m) (externalLatencyCount m)
  (chainSelected m) (chainExhausted m) (chainBudgetExhausted m) (chainDeadlineExhausted m) (chainAffinity m) (chainStepSelected m)
  (chainStepAbstained m) (chainStepError m) (chainStepTimeout m) (chainStepInvalid m) (chainStepUnavailable m) (chainStepCooldown m)
  (chainStepSkippedBudget m).
Definition metrics0 : Metrics := mkMetrics 0 0 0 0 0 0 0 0 0 0 0 0 0 0 0 0 0 0 0 0 0 0 0 0 0 0 0 0 0 0 0 0 0.
Definition add1 (z : Z) : Z := int64 (z + 1).

Definition external_codes : list ReasonCode :=
  [ReasonExternalSelected; ReasonExternalAbstained; ReasonExternalTimeout; ReasonExternalHTTPError;
   ReasonExternalInvalidResponse; ReasonExternalUnknownCandidate; ReasonExternalRequestTooLarge;
   ReasonExternalResponseTooLarge; ReasonExternalProviderUnavailable].
Definition count_external (m : Metrics) (rc : ReasonCode) : Metrics :=
  if String.eqb rc ReasonExternalSelected then m <| externalSelected ::= add1 |>
  else if String.eqb rc ReasonExternalHTTPError || String.eqb rc ReasonProviderError then m <| externalError ::= add1 |>
  else if String.eqb rc ReasonExternalTimeout || String.eqb rc ReasonTimeout then m <| externalTimeout ::= add1 |>
  else if String.eqb rc ReasonExternalInvalidResponse || String.eqb rc ReasonExternalUnknownCandidate || String.eqb rc ReasonInvalidResult
       then m <| externalInvalid ::= add1 |>
  else if String.eqb rc ReasonExternalProviderUnavailable || String.eqb rc ReasonProviderUnhealthy then m <| externalUnavailable ::= add1 |>
  else if String.eqb rc ReasonExternalRequestTooLarge then m <| externalRequestTooLarge ::= add1 |>
  else if String.eqb rc ReasonExternalResponseTooLarge then m <| externalResponseTooLarge ::= add1 |>
  else m.
Definition when (b : bool) (f : Metrics -> Metrics) (m : Metrics) : Metrics := if b then f m else m.
Definition Record_ (m : Metrics) (result : DecisionResult) (failed timedOut offMode : bool) : Metrics :=
  if offMode then m <| offModeTotal ::= add1 |>
  else
    let m := m <| decisionsTotal ::= add1 |> in
    let m := when timedOut (fun m => m <| timeoutsTotal ::= add1 |>) m in
    let m := when failed (fun m => m <| failuresTotal ::= add1 |>) m in
    let m := when (String.eqb (r_Action result) ActionAbstain) (fun m => m <| abstainsTotal ::= add1 |>) m in
    let m := if String.eqb (r_Action result) ActionSelect then m <| selectTotal ::= add1 |>
             else if String.eqb (r_Action result) ActionRank then m <| rankTotal ::= add1 |> else m in
    let m := when (0 <? Latency result)
               (fun m => m <| latencySum ::= fun s => int64 (s + Latency result) |> <| latencyCount ::= add1 |>) m in
    let m := when (existsb (fun rc => String.eqb rc ReasonInvalidResult || String.eqb rc ReasonValidationFailed) (ReasonCodes result))
               (fun m => m <| invalidTotal ::= add1 |>) m in
    if existsb (has_code external_codes) (ReasonCodes result) then
      let m := m <| externalTotal ::= add1 |> in
      let m := when (0 <? Latency result)
                 (fun m => m <| externalLatencySum ::= fun s => int64 (s + Latency result) |> <| externalLatencyCount ::= add1 |>) m in
      fold_left count_external (ReasonCodes result) m
    else m.
Definition RecordChainOutcome (m : Metrics) (outcome : string) : Metrics :=
  if String.eqb outcome "selected" then m <| chainSelected ::= add1 |>
  else if String.eqb outcome "exhausted" then m <| chainExhausted ::= add1 |>
  else if String.eqb outcome "budget_exhausted" then m <| chainBudgetExhausted ::= add1 |>
  else if String.eqb outcome "deadline_exhausted" then m <| chainDeadlineExhausted ::= add1 |>
  else if String.eqb outcome "affinity_preserved" then m <| chainAffinity ::= add1 |>
  else m.
Definition RecordChainStep (m : Metrics) (providerType outcome : string) : Metrics :=
  if String.eqb outcome "selected" then m <| chainStepSelected ::= add1 |>
  else if String.eqb outcome "abstained" then m <| chainStepAbstained ::= add1 |>
  else if String.eqb outcome "error" then m <| chainStepError ::= add1 |>
  else if String.eqb outcome "timeout" then m <| chainStepTimeout ::= add1 |>
  else if String.eqb outcome "invalid" then m <| chainStepInvalid ::= add1 |>
  else if String.eqb outcome "unavailable" then m <| chainStepUnavailable ::= add1 |>
  else if String.eqb outcome "cooldown" then m <| chainStepCooldown ::= add1 |>
  else if String.eqb outcome "skipped_budget" then m <| chainStepSkippedBudget ::= add1 |>
  else m.
(** The averages in milliseconds of [Snapshot]; its other entries are the counters themselves. *)
Definition latency_avg_ms (m : Metrics) : Z := if 0 <? latencyCount m then Z.quot (Z.quot (latencySum m) (latencyCount m)) Millisecond else 0.
Definition external_latency_avg_ms (m : Metrics) : Z :=
  if 0 <? externalLatencyCount m then Z.quot (Z.quot (externalLatencySum m) (externalLatencyCount m)) Millisecond else 0.

(** ** Chains and their traces *)

Inductive ChainOutcome := OutcomeSelected | OutcomeExhausted | OutcomeBudgetExhausted | OutcomeDeadlineExhausted | OutcomeAffinityPreserved.
Inductive StepOutcome := StepSelected | StepAbstained | StepError | StepTimeout | StepInvalid | StepUnavailable | StepCooldown | StepSkippedBudget.
Record ChainStepTrace := mkStepTrace {
  st_Index : nat; st_ProviderID : string; st_ProviderType : string; st_Outcome : StepOutcome; st_Action : Action;
  st_Called : bool; st_Duration : Duration; st_ReasonCodes : list ReasonCode }.
Record ChainTrace := mkChainTrace {
  ct_ChainID : string; ct_StepCount : nat; ct_CallsUsed : Z; ct_SelectedProviderID : string; ct_Outcome : ChainOutcome; ct_Steps : list ChainStepTrace }.
Definition providerType (id : string) : string :=
  if String.eqb id "local" then "local" else if String.eqb id "policy" then "policy" else "jev".
Record ChainStepConfig := mkStep { step_Provider : string; step_TimeoutMS : Z }.
Record ChainConfig := mkChain { chain_ID : string; chain_Steps : list ChainStepConfig }.

(** The readings of one step: the contexts before and after the call, what the
    provider meets, the clock of the provider states. *)
Record Readings := mkReadings {
  chain_done : bool; (* [<-chainCtx.Done()] is ready before the step *)
  outside : Outside;
  cool_now : Time; cool_recheck : Time; (* the clock in [IsCooldown] *)
  remaining : Duration; (* [time.Until(deadline)] *)
  latency : Duration;
  chain_exceeded : bool; (* [chainCtx.Err() == context.DeadlineExceeded] after the call *)
  step_exceeded : bool; (* the same of a context of the step's own *)
  chain_done_after : bool; (* [<-chainCtx.Done()] is ready after a timed-out step *)
  panic_now : Time; record_now : Time (* the clock in [RecordFailure] and [RecordSuccess] *) }.
Definition World : Type := Duration -> nat -> Readings.

(** What the executor and the orchestrator share, and the world they act on: the
    [Decide] calls made so far, by the provider that received them. *)
Record Shared := mkShared { sh_state : ProviderState.Manager; sh_metrics : Metrics; sh_calls : list string }.
#[global] Instance eta_Shared : Eta Shared := fun s => mkShared (sh_state s) (sh_metrics s) (sh_calls s).
Definition is_external (id : string) : bool := negb (String.eqb id "local") && negb (String.eqb id "policy").
Definition note_step (provider outcome : string) (s : Shared) : Shared :=
  s <| sh_metrics ::= fun m => RecordChainStep m (providerType provider) outcome |>.
Definition note_outcome (outcome : string) (s : Shared) : Shared := s <| sh_metrics ::= fun m => RecordChainOutcome m outcome |>.
Definition note_failure (external : bool) (id : string) (now : Time) (s : Shared) : Shared :=
  if external then s <| sh_state ::= fun m => ProviderState.RecordFailure m id now |> else s.
Definition note_success (external : bool) (id : string) (now : Time) (s : Shared) : Shared :=
  if external then s <| sh_state ::= fun m => ProviderState.RecordSuccess m id now |> else s.

(** ** The limits of a chain *)

(** The context's timeout: the smaller of the two, kept in (0, 5s]. *)
Definition clamp_timeout (cfgTimeout budgetTimeout : Duration) : Duration :=
  let timeout := if (0 <? budgetTimeout) && (budgetTimeout <? cfgTimeout) then budgetTimeout else cfgTimeout in
  let timeout := if timeout <=? 0 then 10 * Millisecond else timeout in
  if 5 * Second <? timeout then 5 * Second else timeout.
Definition max_calls (chain : ChainConfig) (budget : Budget) : Z :=
  if MaxProviderCalls budget <=? 0 then
    let n := Z.of_nat (length (chain_Steps chain)) in
    let n := if n =? 0 then 1 else n in
    if 8 <? n then 8 else n
  else MaxProviderCalls budget.

(** A forced pin, put first: [None] when it is not among the candidates. *)
Definition pin_first (candidates : list Candidate) (forcedID : string) : option (list Candidate) :=
  match List.find (fun c => String.eqb (ID c) forcedID) candidates with
  | Some c => Some (c :: without forcedID candidates)
  | None => None
  end.
Definition affinity_result (forcedID provider : string) : DecisionResult :=
  mkResult ActionSelect forcedID [] f_one [ReasonAffinityPreserved; ReasonEligibleSetPreserved] provider false 0 NoError None.

(** ** One step *)

(** The recovered call of [Decide]: its result, its error, and whether it
    panicked.  [panic_text] is how the caller prints the panic. *)
Definition call_provider (p : DecisionProvider) (w : Readings) (req : DecisionRequest) (panic_text : string -> string) (s : Shared) :
    DecisionResult * option string * bool * Shared :=
  let s := s <| sh_calls ::= fun l => l ++ [p_ID p] |> in
  match p_Decide p (outside w) req with
  | Returned r err => (r, err, false, s)
  | Panicked text =>
      (abstain f_zero [ReasonProviderPanic; ReasonExistingOrderPreserved] (p_ID p) <| Error := plainText (panic_text text) |>,
       Some (String.append "decision provider panic: " (panic_text text)), true, s)
  end.
Definition fill_result (p : DecisionProvider) (lat : Duration) (r : DecisionResult) : DecisionResult :=
  let r := r <| Latency := lat |> in
  if String.eqb (r_ProviderID r) "" then r <| r_ProviderID := p_ID p |> else r.

Inductive StepEnd :=
| Continue (t : ChainStepTrace) (callsUsed : Z) (s : Shared)
| Return (t : ChainStepTrace) (callsUsed : Z) (s : Shared) (ordered : list Candidate) (result : DecisionResult) (selected : string) (outcome : ChainOutcome).

Section step.
Context (req : DecisionRequest) (constraints : PrimarySelectionConstraints) (idx : nat) (step : ChainStepConfig) (w : Readings).

Definition trace_step (called : bool) (dur : Duration) (outcome : StepOutcome) (action : Action) (codes : list ReasonCode) : ChainStepTrace :=
  mkStepTrace idx (step_Provider step) (providerType (step_Provider step)) outcome action called dur codes.
Definition external : bool := is_external (step_Provider step).
(** The step got a call whose answer does not count. *)
Definition failed_step (p : DecisionProvider) (callsUsed : Z) (s : Shared) (outcome : StepOutcome) (label : string) (action : Action) (codes : list ReasonCode) : StepEnd :=
  Continue (trace_step true (latency w) outcome action codes) callsUsed
    (note_failure external (p_ID p) (record_now w) (note_step (step_Provider step) label s)).
Definition invalid_codes : list ReasonCode := [ReasonInvalidResult; ReasonValidationFailed; ReasonChainStepFailed].

(** The deadline passed during the call. *)
Definition timed_out_step (p : DecisionProvider) (callsUsed : Z) (s : Shared) : StepEnd :=
  let t := trace_step true (latency w) StepTimeout ActionAbstain [ReasonTimeout; ReasonExternalTimeout; ReasonChainStepFailed] in
  let s := note_failure external (p_ID p) (record_now w) (note_step (step_Provider step) "timeout" s) in
  if chain_done_after w
  then Return t callsUsed (note_outcome "deadline_exhausted" s) (CloneCandidates (Candidates req))
         (abstain f_zero [ReasonTimeout; ReasonChainDeadlineExhausted; ReasonExistingOrderPreserved] (p_ID p)) "" OutcomeDeadlineExhausted
  else Continue t callsUsed s.

(** A valid SELECT inside the band ends the chain. *)
Definition selected_step (p : DecisionProvider) (callsUsed : Z) (s : Shared) (r : DecisionResult) : StepEnd :=
  let codes := if (length (ReasonCodes r) =? 0)%nat then [ReasonChainSelected] else ReasonCodes r in
  let t := trace_step true (latency w) StepSelected ActionSelect codes in
  let s := note_success external (p_ID p) (record_now w) (note_outcome "selected" (note_step (step_Provider step) "selected" s)) in
  let normalized := (NormalizeResult (Candidates req) r).1.1 in
  let r := if has_code (ReasonCodes r) ReasonChainSelected then r
           else r <| ReasonCodes := take MaxReasonCodes (ReasonCodes r ++ [ReasonChainSelected]) |> in
  Return t callsUsed s normalized r (p_ID p) OutcomeSelected.
Definition abstained_step (p : DecisionProvider) (callsUsed : Z) (s : Shared) (r : DecisionResult) : StepEnd :=
  let rc := ReasonCodes r in
  let rc := if negb (has_code rc ReasonChainStepAbstained) && (length rc <? MaxReasonCodes)%nat then rc ++ [ReasonChainStepAbstained] else rc in
  Continue (trace_step true (latency w) StepAbstained ActionAbstain rc) callsUsed
    (note_success external (p_ID p) (record_now w) (note_step (step_Provider step) "abstained" s)).

(** What becomes of the provider's answer. *)
Definition judge (p : DecisionProvider) (callsUsed : Z) (s : Shared) (r : DecisionResult) (err : option string) : StepEnd :=
  let own_deadline := (0 <? step_TimeoutMS step) && (int64 (step_TimeoutMS step * Millisecond) <? remaining w) in
  if chain_exceeded w || (own_deadline && step_exceeded w) then timed_out_step p callsUsed s
  else match err with
  | Some _ => failed_step p callsUsed s StepError "error" (if ValidAction r then r_Action r else ActionAbstain) [ReasonProviderError; ReasonChainStepFailed]
  | None =>
      if String.eqb (r_Action r) ActionRank && negb (CanRank (p_Capabilities p)) then failed_step p callsUsed s StepInvalid "invalid" (r_Action r) invalid_codes
      else if String.eqb (r_Action r) ActionSelect && negb (CanSelect (p_Capabilities p)) then failed_step p callsUsed s StepInvalid "invalid" (r_Action r) invalid_codes
      else match ValidateResult (Candidates req) r with
      | Some _ => failed_step p callsUsed s StepInvalid "invalid" (r_Action r) invalid_codes
      | None =>
          if String.eqb (r_Action r) ActionSelect && negb (IsAllowedPrimary constraints (SelectedID r))
          then failed_step p callsUsed s StepInvalid "invalid" (r_Action r) [ReasonPrimaryConstraintViolation; ReasonInvalidResult; ReasonChainStepFailed]
          else if String.eqb (r_Action r) ActionSelect then selected_step p callsUsed s r
          else if String.eqb (r_Action r) ActionAbstain then abstained_step p callsUsed s r
          else failed_step p callsUsed s StepInvalid "invalid" ActionRank invalid_codes
      end
  end.

(** The guards before the call: a provider that is registered, healthy and not cooling down. *)
Definition skipped_step (callsUsed : Z) (s : Shared) (outcome : StepOutcome) (label : string) (codes : list ReasonCode) : StepEnd :=
  Continue (trace_step false 0 outcome "" codes) callsUsed (note_step (step_Provider step) label s).
Definition run_step (reg : Registry) (callsUsed : Z) (s : Shared) : StepEnd :=
  match Registry_Get reg (step_Provider step) with
  | None => skipped_step callsUsed s StepUnavailable "unavailable" [ReasonProviderUnhealthy; ReasonExternalProviderUnavailable]
  | Some p =>
      if String.eqb (p_Health p (outside w)) HealthUnavailable
      then skipped_step callsUsed s StepUnavailable "unavailable" [ReasonProviderUnhealthy; ReasonExternalProviderUnavailable]
      else
        let '(st, cooling) := if external then ProviderState.IsCooldown (sh_state s) (step_Provider step) (cool_now w) (cool_recheck w)
                              else (sh_state s, false) in
        let s := s <| sh_state := st |> in
        if cooling then skipped_step callsUsed s StepCooldown "cooldown" [ReasonDecisionProviderCooldown; ReasonExternalProviderUnavailable]
        else
          let callsUsed := callsUsed + 1 in
          let '(r, err, _, s) := call_provider p w req (fun t => t) s in
          judge p callsUsed s (fill_result p (latency w) r) err
  end.
End step.

(** ** The loop *)

Record Executed := mkExecuted { ex_ordered : list Candidate; ex_result : DecisionResult; ex_trace : ChainTrace; ex_shared : Shared }.

Section execute.
Context (reg : Registry) (req : DecisionRequest) (constraints : PrimarySelectionConstraints) (chain : ChainConfig) (maxCalls : Z) (world : nat -> Readings).

Definition finish (calls : Z) (steps : list ChainStepTrace) (selected : string) (outcome : ChainOutcome)
    (ordered : list Candidate) (result : DecisionResult) (s : Shared) : Executed :=
  mkExecuted ordered result (mkChainTrace (chain_ID chain) (length (chain_Steps chain)) calls selected outcome steps) s.
Definition skipped_budget (idx : nat) (step : ChainStepConfig) : ChainStepTrace :=
  trace_step idx step false 0 StepSkippedBudget "" [ReasonBudgetExceeded; ReasonChainBudgetExhausted].
(** The traces of this step and of all later ones, none of them called. *)
Fixpoint skip_rest (idx : nat) (steps : list ChainStepConfig) : list ChainStepTrace :=
  match steps with [] => [] | step :: rest => skipped_budget idx step :: skip_rest (S idx) rest end.
Definition note_skips (steps : list ChainStepConfig) (s : Shared) : Shared :=
  fold_left (fun s step => note_step (step_Provider step) "skipped_budget" s) steps s.

Definition out_of_time (step : ChainStepConfig) (idx : nat) (calls : Z) (done : list ChainStepTrace) (s : Shared) : Executed :=
  finish calls (done ++ [trace_step idx step false 0 StepTimeout "" [ReasonTimeout; ReasonChainDeadlineExhausted]]) "" OutcomeDeadlineExhausted
    (CloneCandidates (Candidates req))
    (abstain f_zero [ReasonTimeout; ReasonChainDeadlineExhausted; ReasonExistingOrderPreserved] (step_Provider step))
    (note_outcome "deadline_exhausted" s).
Definition out_of_calls (step : ChainStepConfig) (rest : list ChainStepConfig) (idx : nat) (calls : Z) (done : list ChainStepTrace) (s : Shared) : Executed :=
  finish calls (done ++ skip_rest idx (step :: rest)) "" OutcomeBudgetExhausted (CloneCandidates (Candidates req))
    (abstain f_zero [ReasonBudgetExceeded; ReasonChainBudgetExhausted; ReasonExistingOrderPreserved] (step_Provider step))
    (note_step (step_Provider step) "skipped_budget" (note_outcome "budget_exhausted" (note_skips rest s))).

Fixpoint run_steps (steps : list ChainStepConfig) (idx : nat) (calls : Z) (done : list ChainStepTrace) (s : Shared) : Executed :=
  match steps with
  | [] =>
      finish calls done "" OutcomeExhausted (CloneCandidates (Candidates req))
        (abstain f_zero [ReasonChainExhausted; ReasonExistingOrderPreserved] (chain_ID chain)) (note_outcome "exhausted" s)
  | step :: rest =>
      if chain_done (world idx) then out_of_time step idx calls done s
      else if maxCalls <=? calls then out_of_calls step rest idx calls done s
      else
        match run_step req constraints idx step (world idx) reg calls s with
        | Continue t calls s => run_steps rest (S idx) calls (done ++ [t]) s
        | Return t calls s ordered result selected outcome => finish calls (done ++ [t]) selected outcome ordered result s
        end
  end.
End execute.

Definition Execute (reg : Registry) (chain : ChainConfig) (req : DecisionRequest) (constraints : PrimarySelectionConstraints)
    (budget : Budget) (cfgTimeout : Duration) (world : World) (s : Shared) : Executed :=
  match (if String.eqb (ForcedPrimaryID constraints) "" then None else pin_first (Candidates req) (ForcedPrimaryID constraints)) with
  | Some ordered =>
      finish chain 0 [] "" OutcomeAffinityPreserved ordered (affinity_result (ForcedPrimaryID constraints) (chain_ID chain))
        (note_outcome "affinity_preserved" s)
  | None =>
      run_steps reg req constraints chain (max_calls chain budget) (world (clamp_timeout cfgTimeout (Timeout budget))) (chain_Steps chain) 0 0 [] s
  end.
