(* ===== verification/Orchestrator.v ===== *)
(** * The decision orchestrator ([src/internal/decision/orchestrator.go])

    [Decide] runs the decision plane for one request: it picks the mode, asks
    one provider or a chain of them, and falls back to the given order on every
    failure.  Config changes are whole replacements, so a request sees one
    snapshot: [Decide] reads the orchestrator it is given. *)

From S2P Require Import Prelude ProviderState Decision DecisionChain.

(** ** Configuration ([config.go]) *)

Record DecisionConfig := mkDecisionConfig {
  Mode : string; Provider : string; TimeoutMS : Z; Policy : string; Chain : string; cfg_MaxProviderCalls : Z; Shadow : bool }.
#[global] Instance eta_DecisionConfig : Eta DecisionConfig := fun c =>
  mkDecisionConfig (Mode c) (Provider c) (TimeoutMS c) (Policy c) (Chain c) (cfg_MaxProviderCalls c) (Shadow c).
Record DecisionChainConfig := mkChainConfig { cc_ID : string; cc_Steps : list ChainStepConfig }.
Record DecisionProviderHealthConfig := mkHealthConfig { hc_FailureThreshold : Z; hc_FailureWindowSeconds : Z; hc_CooldownSeconds : Z }.
(** The parts of the full configuration the orchestrator reads. *)
Record FullConfig := mkFullConfig {
  fc_Decision : DecisionConfig; fc_DecisionProviderHealth : DecisionProviderHealthConfig; fc_DecisionChains : list DecisionChainConfig }.

Record DecisionTrace := mkTrace {
  t_Mode : string; t_ProviderID : string; t_CandidateCount : nat; t_Action : Action; t_SelectedID : string;
  t_ReasonCodes : list ReasonCode; t_Duration : Duration; t_FallbackUsed : bool;
  t_PolicyTrace : option PolicyTrace; t_ChainTrace : option ChainTrace }.
Record Orchestrator := mkOrchestrator {
  registry : Registry; cfg : DecisionConfig; chains : gmap string DecisionChainConfig;
  healthCfg : DecisionProviderHealthConfig; shared : Shared }.
#[global] Instance eta_Orchestrator : Eta Orchestrator := fun o =>
  mkOrchestrator (registry o) (cfg o) (chains o) (healthCfg o) (shared o).

Definition normalize_decision (c : DecisionConfig) : DecisionConfig :=
  let c := if String.eqb (Mode c) "" then c <| Mode := "off" |> else c in
  let c := if String.eqb (Provider c) "" then c <| Provider := "local" |> else c in
  if TimeoutMS c =? 0 then c <| TimeoutMS := 10 |> else c.
Definition normalize_health (h : DecisionProviderHealthConfig) : DecisionProviderHealthConfig :=
  mkHealthConfig (if hc_FailureThreshold h =? 0 then 3 else hc_FailureThreshold h)
    (if hc_FailureWindowSeconds h =? 0 then 30 else hc_FailureWindowSeconds h)
    (if hc_CooldownSeconds h =? 0 then 60 else hc_CooldownSeconds h).
Definition state_config (h : DecisionProviderHealthConfig) : ProviderState.Config :=
  ProviderState.mkConfig (hc_FailureThreshold h) (int64 (hc_FailureWindowSeconds h * Second)) (int64 (hc_CooldownSeconds h * Second)).
Definition chains_map (l : list DecisionChainConfig) : gmap string DecisionChainConfig := fold_left (fun m ch => <[cc_ID ch := ch]> m) l ∅.

Definition NewOrchestrator (reg : option Registry) (c : DecisionConfig) : Orchestrator :=
  let h := mkHealthConfig 3 30 60 in
  mkOrchestrator (default NewRegistry reg) (normalize_decision c) ∅ h (mkShared (ProviderState.New (state_config h)) metrics0 []).
Definition NewOrchestratorWithConfig (reg : option Registry) (full : FullConfig) : Orchestrator :=
  let h := normalize_health (fc_DecisionProviderHealth full) in
  mkOrchestrator (default NewRegistry reg) (normalize_decision (fc_Decision full)) (chains_map (fc_DecisionChains full)) h
    (mkShared (ProviderState.New (state_config h)) metrics0 []).
Definition UpdateConfig (o : Orchestrator) (c : DecisionConfig) : Orchestrator := o <| cfg := normalize_decision c |>.
Definition UpdateFullConfig (o : Orchestrator) (full : FullConfig) : Orchestrator :=
  let h := normalize_health (fc_DecisionProviderHealth full) in
  o <| cfg := normalize_decision (fc_Decision full) |> <| chains := chains_map (fc_DecisionChains full) |> <| healthCfg := h |>
    <| shared := shared o <| sh_state ::= fun m => ProviderState.UpdateConfig m (state_config h) |> |>.

(** ** The outcome of a request *)

Record Decided := mkDecided { d_ordered : list Candidate; d_result : DecisionResult; d_trace : DecisionTrace; d_shared : Shared }.

Section decide.
Context (o : Orchestrator) (req : DecisionRequest).

Definition trace_of (provider : string) (action : Action) (selected : string) (codes : list ReasonCode) (dur : Duration)
    (fallback : bool) (policy : option PolicyTrace) (chain : option ChainTrace) : DecisionTrace :=
  mkTrace (Mode (cfg o)) provider (length (Candidates req)) action selected codes dur fallback policy chain.
Definition note (r : DecisionResult) (failed timedOut off : bool) (s : Shared) : Shared := s <| sh_metrics ::= fun m => Record_ m r failed timedOut off |>.
(** The given order, with an abstention [r] the plane built itself. *)
Definition keep_order (r : DecisionResult) (dur : Duration) (fallback failed timedOut off : bool) (s : Shared) : Decided :=
  mkDecided (CloneCandidates (Candidates req)) r (trace_of (r_ProviderID r) ActionAbstain "" (ReasonCodes r) dur fallback None None) (note r failed timedOut off s).

(** *** The chain (mode [hybrid]) *)

Definition chain_budget (chain : ChainConfig) : Budget :=
  let b := req_Budget req in
  let n := Z.of_nat (length (chain_Steps chain)) in
  if Budget_IsZero b
  then mkBudget (int64 (TimeoutMS (cfg o) * Millisecond)) (if cfg_MaxProviderCalls (cfg o) =? 0 then n else cfg_MaxProviderCalls (cfg o))
  else
    let calls := if (0 <? cfg_MaxProviderCalls (cfg o)) && (MaxProviderCalls b =? 0) then cfg_MaxProviderCalls (cfg o) else MaxProviderCalls b in
    mkBudget (Timeout b) (if calls =? 0 then n else calls).
Definition fallback_used (outcome : ChainOutcome) : bool :=
  match outcome with OutcomeSelected | OutcomeAffinityPreserved => false | _ => true end.
Definition no_chain (chainID : string) (s : Shared) : Decided :=
  let r := abstain f_zero [ReasonProviderError; ReasonChainExhausted; ReasonExistingOrderPreserved] chainID <| Error := plainText "chain not found" |> in
  mkDecided (CloneCandidates (Candidates req)) r
    (trace_of chainID ActionAbstain "" (ReasonCodes r) 0 true None (Some (mkChainTrace chainID 0 0 "" OutcomeExhausted [])))
    (note_outcome "exhausted" (note r true false false s)).
Definition decide_chain (constraints : PrimarySelectionConstraints) (world : World) (lat : Duration) (s : Shared) : Decided :=
  let chainID := Chain (cfg o) in
  match (if String.eqb chainID "" then None else chains o !! chainID) with
  | None => no_chain chainID s
  | Some ch =>
      let chain := mkChain (cc_ID ch) (cc_Steps ch) in
      let ex := Execute (registry o) chain req constraints (chain_budget chain) (int64 (TimeoutMS (cfg o) * Millisecond)) world s in
      let r := ex_result ex <| Latency := lat |> in
      let t := ex_trace ex in
      let timedOut := existsb (fun rc => String.eqb rc ReasonTimeout || String.eqb rc ReasonChainDeadlineExhausted) (ReasonCodes r) in
      mkDecided (ex_ordered ex) r
        (trace_of (if String.eqb (ct_SelectedProviderID t) "" then chainID else ct_SelectedProviderID t) (r_Action r) (SelectedID r) (ReasonCodes r) lat
           (fallback_used (ct_Outcome t)) (r_PolicyTrace r) (Some t))
        (note r false timedOut false (ex_shared ex))
  end.

(** *** One provider *)

Definition calls_budget : Z :=
  if negb (Budget_IsZero (req_Budget req)) then MaxProviderCalls (req_Budget req)
  else if 0 <? cfg_MaxProviderCalls (cfg o) then cfg_MaxProviderCalls (cfg o) else 1.
Definition pinned (p : DecisionProvider) (forcedID : string) (ordered : list Candidate) (s : Shared) : Decided :=
  let r := affinity_result forcedID (p_ID p) in
  mkDecided ordered r
    (trace_of (p_ID p) ActionSelect forcedID (ReasonCodes r) 0 false None (Some (mkChainTrace "" 0 0 "" OutcomeAffinityPreserved [])))
    (note_outcome "affinity_preserved" (note r false false false s)).

Section answer.
Context (p : DecisionProvider) (w : Readings).
Definition failed (s : Shared) : Shared := note_failure (is_external (p_ID p)) (p_ID p) (record_now w) s.
Definition rejection (codes : list ReasonCode) (text : ErrText) : DecisionResult :=
  abstain f_zero codes (p_ID p) <| Latency := latency w |> <| Error := text |>.
Definition reject (codes : list ReasonCode) (text : ErrText) (timedOut : bool) (s : Shared) : Decided :=
  let d := keep_order (rejection codes text) (latency w) true true timedOut false s in
  mkDecided (d_ordered d) (d_result d) (d_trace d) (failed (d_shared d)).
Definition invalid : list ReasonCode := [ReasonInvalidResult; ReasonValidationFailed; ReasonExistingOrderPreserved].
Definition provider_error (r : DecisionResult) (err : string) (s : Shared) : Decided :=
  let codes := if has_code (ReasonCodes r) ReasonProviderError then ReasonCodes r
               else ReasonCodes r ++ [ReasonProviderError; ReasonExistingOrderPreserved] in
  let r := r <| ReasonCodes := codes |> <| Abstained := true |>
             <| r_Action := if ValidAction r then r_Action r else ActionAbstain |> <| Error := plainText (bounded err) |> in
  mkDecided (CloneCandidates (Candidates req)) r (trace_of (p_ID p) (r_Action r) "" (ReasonCodes r) (latency w) true None None)
    (failed (note r true false false s)).
Definition accept (r : DecisionResult) (s : Shared) : Decided :=
  let s := note_success (is_external (p_ID p)) (p_ID p) (record_now w) s in
  let '(normalized, applied, normReason) := NormalizeResult (Candidates req) r in
  let r := if String.eqb normReason "" || has_code (ReasonCodes r) normReason then r else r <| ReasonCodes := ReasonCodes r ++ [normReason] |> in
  mkDecided normalized r
    (trace_of (p_ID p) (r_Action r) (if String.eqb (r_Action r) ActionSelect then SelectedID r else "") (ReasonCodes r) (latency w)
       (negb applied || String.eqb normReason ReasonNormalizationApplied || String.eqb normReason ReasonAbstained) (r_PolicyTrace r) None)
    (note r false false false s).
Definition cut_error (r : DecisionResult) : DecisionResult :=
  match Error r with plainText t => r <| Error := plainText (bounded t) |> | _ => r end.

(** The provider is asked once, and its answer judged. *)
Definition ask (constraints : PrimarySelectionConstraints) (s : Shared) : Decided :=
  let '(r, err, panicked, s) := call_provider p w req bounded s in
  let s := if panicked then note_failure (is_external (p_ID p)) (p_ID p) (panic_now w) s else s in
  let r := cut_error (fill_result p (latency w) r) in
  if chain_exceeded w then reject [ReasonTimeout; ReasonExistingOrderPreserved] (plainText "timeout") true s
  else match err with
  | Some e => provider_error r e s
  | None =>
      if String.eqb (r_Action r) ActionRank && negb (CanRank (p_Capabilities p)) then reject invalid (plainText "provider cannot rank") false s
      else if String.eqb (r_Action r) ActionSelect && negb (CanSelect (p_Capabilities p)) then reject invalid (plainText "provider cannot select") false s
      else match ValidateResult (Candidates req) r with
      | Some e => reject invalid (validationText e) false s
      | None =>
          if String.eqb (r_Action r) ActionSelect && negb (IsAllowedPrimary constraints (SelectedID r))
          then reject [ReasonPrimaryConstraintViolation; ReasonExistingOrderPreserved] (plainText "primary constraint violation") false s
          else accept r s
      end
  end.
End answer.

Definition decide_one (constraints : PrimarySelectionConstraints) (world : World) (s : Shared) : Decided :=
  let providerName := if String.eqb (Provider (cfg o)) "" then "local" else Provider (cfg o) in
  if calls_budget <=? 0 then keep_order (abstain f_zero [ReasonBudgetExceeded; ReasonExistingOrderPreserved] (Provider (cfg o))) 0 true false false false s
  else match Registry_Resolve (registry o) providerName with
  | inr text => keep_order (abstain f_zero [ReasonProviderError; ReasonExistingOrderPreserved] providerName <| Error := text |>) 0 true true false false s
  | inl p =>
      match (if String.eqb (ForcedPrimaryID constraints) "" then None else pin_first (Candidates req) (ForcedPrimaryID constraints)) with
      | Some ordered => pinned p (ForcedPrimaryID constraints) ordered s
      | None =>
          let timeout := clamp_timeout (int64 (TimeoutMS (cfg o) * Millisecond)) (Timeout (req_Budget req)) in
          let w := world timeout O in
          let '(st, cooling) := if is_external (p_ID p) then ProviderState.IsCooldown (sh_state s) (p_ID p) (cool_now w) (cool_recheck w)
                                else (sh_state s, false) in
          let s := s <| sh_state := st |> in
          if cooling then
            let d := keep_order (abstain f_zero [ReasonDecisionProviderCooldown; ReasonExistingOrderPreserved] (p_ID p)) 0 true false false false s in
            mkDecided (d_ordered d) (d_result d) (d_trace d) (note_outcome "exhausted" (note_step (p_ID p) "cooldown" (d_shared d)))
          else if String.eqb (p_Health p (outside w)) HealthUnavailable
          then keep_order (abstain f_zero [ReasonProviderUnhealthy; ReasonExistingOrderPreserved] (p_ID p)) 0 true false false false s
          else ask p w constraints s
      end
  end.

(** *** [Decide] *)

Definition Decide (world : World) (lat : Duration) : Decided :=
  let s := shared o in
  if (length (Candidates req) =? 0)%nat then
    keep_order (abstain f_zero [ReasonEmptyEligible; ReasonExistingOrderPreserved] "none") 0 true false false false s
  else if (length (Candidates req) =? 1)%nat then
    keep_order (abstain f_one [ReasonSingleCandidate; ReasonExistingOrderPreserved] "none") 0 false false false false s
  else if String.eqb (Mode (cfg o)) "off" then
    keep_order (abstain f_one [ReasonOffMode; ReasonExistingOrderPreserved] "off") 0 false false false true s
  else
    let constraints := ComputePrimaryConstraints (Candidates req) (PinnedCandidateID req) in
    if String.eqb (Mode (cfg o)) "hybrid" then decide_chain constraints world lat s
    else decide_one constraints world s.
End decide.

(** A request served: the orchestrator with the state [Decide] left. *)
Definition serve (o : Orchestrator) (req : DecisionRequest) (world : World) (lat : Duration) : Orchestrator * Decided :=
  let d := Decide o req world lat in (o <| shared := d_shared d |>, d).
