(* ===== verification/DecisionLemmas.v ===== *)
(** * Lemmas on the decision contract

    The reorderings are permutations of candidates with distinct IDs, the
    validator accepts exactly the well-formed answers, and the allowed IDs are
    those of the primary band. *)

From S2P Require Import Prelude Decision.

Definition distinct (l : list Candidate) : Prop := NoDup (map ID l).

(** ** Boolean tests as propositions *)

Lemma has_code_true l x : has_code l x = true <-> x ∈ l.
Proof.
  unfold has_code. rewrite existsb_exists. setoid_rewrite String.eqb_eq.
  rewrite list_elem_of_In. naive_solver.
Qed.

Lemma has_code_false l x : has_code l x = false <-> x ∉ l.
Proof. rewrite <- not_true_iff_false, has_code_true. done. Qed.

Lemma eligible_has_true l id : eligible_has l id = true <-> exists c, c ∈ l /\ ID c = id.
Proof.
  unfold eligible_has. rewrite existsb_exists. setoid_rewrite String.eqb_eq.
  by setoid_rewrite list_elem_of_In.
Qed.

Lemma find_id_Some l id c : List.find (fun c => String.eqb (ID c) id) l = Some c -> c ∈ l /\ ID c = id.
Proof. intros [H1 H2]%find_some. rewrite list_elem_of_In. by apply String.eqb_eq in H2. Qed.

Lemma find_id_None l id c : List.find (fun c => String.eqb (ID c) id) l = None -> c ∈ l -> ID c <> id.
Proof. intros H Hc <-. rewrite list_elem_of_In in Hc. pose proof (find_none _ _ H _ Hc) as E. cbn in E. by rewrite String.eqb_refl in E. Qed.

Lemma by_id_Some l id c : by_id l id = Some c -> c ∈ l /\ ID c = id.
Proof.
  unfold by_id. intros [H ?]%find_id_Some. split; [|done].
  rewrite list_elem_of_In in *. by apply in_rev.
Qed.

Lemma by_id_None l id c : by_id l id = None -> c ∈ l -> ID c <> id.
Proof. intros H Hc. eapply find_id_None; [exact H|]. rewrite list_elem_of_In in *. by apply in_rev in Hc. Qed.

(** ** Reorderings *)

Lemma distinct_inj l c c' : distinct l -> c ∈ l -> c' ∈ l -> ID c = ID c' -> c = c'.
Proof.
  unfold distinct. induction l as [|x l IH]; cbn; [by intros _ ?%not_elem_of_nil|].
  intros [Hx Hl]%NoDup_cons Hc Hc' E. rewrite list_elem_of_fmap in Hx.
  apply elem_of_cons in Hc as [->|Hc], Hc' as [->|Hc']; try done; [| |by apply IH].
  - destruct Hx; eauto.
  - destruct Hx; eauto.
Qed.

Lemma without_notin l id : id ∉ map ID l -> without id l = l.
Proof.
  intros H. unfold without. induction l as [|c l IH]; cbn; [done|].
  cbn in H. apply not_elem_of_cons in H as [Hc Hl].
  rewrite (proj2 (String.eqb_neq _ _)) by done. cbn. f_equal. by apply IH.
Qed.

(** Dropping one more ID from a filter takes out exactly the candidate that has it. *)
Lemma filter_pull seen l c :
  distinct l -> c ∈ l -> ID c ∉ seen ->
  c :: List.filter (fun c' => negb (has_code (ID c :: seen) (ID c'))) l ≡ₚ List.filter (fun c' => negb (has_code seen (ID c'))) l.
Proof.
  intros Hd Hc Hs. induction l as [|x l IH]; [by apply not_elem_of_nil in Hc|].
  apply NoDup_cons in Hd as [Hx Hd]. cbn [List.filter].
  destruct (decide (ID x = ID c)) as [E|Hne].
  - assert (c = x) as ->.
    { apply elem_of_cons in Hc as [->|Hc]; [done|]. destruct Hx. rewrite E. by apply list_elem_of_fmap_2. }
    rewrite (proj2 (has_code_true _ _)) by (by left). rewrite (proj2 (has_code_false _ _)) by done. cbn.
    f_equiv. erewrite filter_ext_in; [done|]. intros c' Hc'. f_equal. cbn.
    rewrite (proj2 (String.eqb_neq _ _)); [done|]. intros E'. destruct Hx.
    rewrite <- E'. apply list_elem_of_fmap_2. by apply list_elem_of_In.
  - assert (c ∈ l) as Hcl by (by apply elem_of_cons in Hc as [->|?]).
    cbn. rewrite (proj2 (String.eqb_neq _ _)) by done. cbn.
    change (existsb (String.eqb (ID x)) seen) with (has_code seen (ID x)).
    destruct (has_code seen (ID x)); cbn; [by apply IH|]. rewrite <- (IH Hd Hcl). apply Permutation_swap.
Qed.

Lemma filter_nothing l : List.filter (fun c => negb (has_code [] (ID c))) l = l.
Proof. induction l as [|c l IH]; [done|]. cbn. f_equal. exact IH. Qed.

Lemma pull_out l c : distinct l -> c ∈ l -> c :: without (ID c) l ≡ₚ l.
Proof.
  intros Hd Hc. pose proof (filter_pull [] l c Hd Hc (not_elem_of_nil _)) as H.
  rewrite filter_nothing in H. etrans; [|exact H]. f_equiv. unfold without.
  erewrite filter_ext; [done|]. intros c'. cbn. by rewrite orb_false_r.
Qed.

Lemma rank_pass_perm l ids seen :
  distinct l ->
  let '(out, seen') := rank_pass l ids seen in
  out ++ List.filter (fun c => negb (has_code seen' (ID c))) l ≡ₚ List.filter (fun c => negb (has_code seen (ID c))) l.
Proof.
  intros Hd. revert seen. induction ids as [|id ids IH]; intros seen; cbn; [done|].
  destruct (has_code seen id) eqn:Es; [apply IH|].
  specialize (IH (id :: seen)). destruct (rank_pass l ids (id :: seen)) as [out seen'].
  destruct (by_id l id) as [c|] eqn:E.
  - apply by_id_Some in E as [Hc <-]. cbn. rewrite IH. apply filter_pull; try done. by apply has_code_false.
  - rewrite IH. erewrite filter_ext_in; [done|]. intros c Hc%list_elem_of_In. cbn.
    rewrite (proj2 (String.eqb_neq _ _)); [done|]. by apply (by_id_None l).
Qed.

Lemma Normalize_perm l r : distinct l -> (NormalizeResult l r).1.1 ≡ₚ l.
Proof.
  intros Hd. unfold NormalizeResult. destruct (length l =? 0)%nat eqn:E.
  { apply Nat.eqb_eq in E. by destruct l. }
  pose proof (rank_pass_perm l (RankedIDs r) [] Hd) as Hr. rewrite filter_nothing in Hr.
  destruct (String.eqb (r_Action r) ActionAbstain), (String.eqb (r_Action r) ActionSelect), (String.eqb (r_Action r) ActionRank); cbn; try done;
    try (destruct (length (RankedIDs r) =? 0)%nat; [done|]; by destruct (rank_pass l (RankedIDs r) [])).
  all: destruct (String.eqb (SelectedID r) ""); [done|].
  all: destruct (by_id l (SelectedID r)) as [c|] eqn:Ec; [|done].
  all: apply by_id_Some in Ec as [Hc <-]; by apply pull_out.
Qed.

(** ** Validation *)

(** A confidence in the unit interval (so neither NaN nor infinite). *)
Definition unit_confidence (x : float64) : Prop := (f_zero <=? x)%f64 = true /\ (x <=? f_one)%f64 = true.

(** The contract of an answer, as the documentation of [ValidateResult] has it. *)
Definition well_formed (eligible : list Candidate) (r : DecisionResult) : Prop :=
  eligible <> [] /\ unit_confidence (Confidence r)
  /\ (String.length (SelectedID r) <= 512)%nat /\ (String.length (r_ProviderID r) <= 128)%nat
  /\ (length (ReasonCodes r) <= 8)%nat /\ Forall (.∈ allowedReasonCodes) (ReasonCodes r)
  /\ (r_Action r = ActionSelect /\ SelectedID r <> "" /\ RankedIDs r = [] /\ SelectedID r ∈ map ID eligible
      \/ r_Action r = ActionRank /\ SelectedID r = "" /\ RankedIDs r <> [] /\ NoDup (RankedIDs r) /\ (length (RankedIDs r) <= 4096)%nat
         /\ Forall (fun id => (String.length id <= 512)%nat /\ id ∈ map ID eligible) (RankedIDs r)
      \/ r_Action r = ActionAbstain /\ SelectedID r = "" /\ RankedIDs r = []).

Lemma guard_None {E} (b : bool) (e : E) (x : option E) : (if b then Some e else x) = None <-> b = false /\ x = None.
Proof. destruct b; naive_solver. Qed.

Lemma if_None {E} (b : bool) (x y : option E) : (if b then x else y) = None <-> b = true /\ x = None \/ b = false /\ y = None.
Proof. destruct b; naive_solver. Qed.

Lemma confidence_guard x :
  IsNaN x || IsInf x = false /\ (x <? f_zero)%f64 || (x >? f_one)%f64 = false <-> unit_confidence x.
Proof.
  unfold unit_confidence, fgt. rewrite !orb_false_iff. split.
  - intros ([Hn Hi] & H0 & H1). rewrite !fle_spec by done. split; intros H.
    + apply (proj2 (flt_spec x f_zero Hn eq_refl)) in H. congruence.
    + apply (proj2 (flt_spec f_one x eq_refl Hn)) in H. congruence.
  - intros [H0 H1]. destruct (fle_nan _ _ H0) as [_ Hn]. pose proof H0 as H0'. pose proof H1 as H1'.
    rewrite fle_spec in H0', H1' by done. split_and!; try done.
    + by destruct x as [|[]| |].
    + apply not_true_is_false. by rewrite flt_spec.
    + apply not_true_is_false. by rewrite flt_spec.
Qed.

Lemma canonical_short rc : rc ∈ allowedReasonCodes -> (String.length rc <= 64)%nat.
Proof.
  revert rc. apply Forall_forall. apply (bool_decide_eq_true_1 (Forall (fun rc => (String.length rc <= 64)%nat) allowedReasonCodes)).
  by vm_compute.
Qed.

Lemma check_codes_None codes : check_codes codes = None <-> Forall (.∈ allowedReasonCodes) codes.
Proof.
  induction codes as [|rc codes IH]; cbn [check_codes]; [done|].
  rewrite !guard_None, Forall_cons, IH, negb_false_iff, Nat.ltb_ge. unfold IsValidReasonCode. rewrite has_code_true.
  split; [naive_solver|]. intros [H ?]. split_and!; try done. by apply canonical_short.
Qed.

Lemma eligible_has_map l id : eligible_has l id = true <-> id ∈ map ID l.
Proof. rewrite eligible_has_true. setoid_rewrite list_elem_of_fmap. naive_solver. Qed.

Lemma check_ranked_None l ids seen :
  check_ranked l ids seen = None <->
  NoDup ids /\ Forall (.∉ seen) ids /\ Forall (fun id => (String.length id <= 512)%nat /\ id ∈ map ID l) ids.
Proof.
  revert seen. induction ids as [|id ids IH]; intros seen; cbn [check_ranked].
  { split; [intros _; split_and!; constructor|done]. }
  rewrite !guard_None, IH, NoDup_cons, !Forall_cons, negb_false_iff, Nat.ltb_ge, eligible_has_map, has_code_false.
  rewrite !Forall_forall. setoid_rewrite elem_of_cons. unfold MaxSelectedIDLen. naive_solver.
Qed.

Lemma ranked_length (l : list Candidate) (ids : list string) : NoDup ids -> Forall (.∈ map ID l) ids -> (length ids <= length l)%nat.
Proof.
  intros Hn Hi. rewrite <- (length_map ID l). apply submseteq_length, NoDup_submseteq; [done|].
  intros id Hid. by rewrite Forall_forall in Hi; apply Hi.
Qed.

Lemma length_0 {A} (l : list A) : (length l =? 0)%nat = true <-> l = [].
Proof. by destruct l. Qed.
Lemma length_not_0 {A} (l : list A) : (length l =? 0)%nat = false <-> l <> [].
Proof. by destruct l. Qed.

Lemma Validate_exact l r : ValidateResult l r = None <-> well_formed l r.
Proof.
  unfold ValidateResult, well_formed. rewrite !guard_None, length_not_0, negb_false_iff, !Nat.ltb_ge.
  assert (forall x y : option ValidationError, match x with Some e => Some e | None => y end = None <-> x = None /\ y = None) as Hm
    by (intros [] ?; naive_solver).
  rewrite Hm, check_codes_None, <- confidence_guard, !guard_None.
  rewrite (if_None (String.eqb (r_Action r) ActionSelect)), (if_None (String.eqb (r_Action r) ActionRank)), !guard_None.
  rewrite !Nat.ltb_ge, !negb_false_iff, check_ranked_None.
  unfold ValidAction. rewrite !orb_true_iff, !String.eqb_eq, !String.eqb_neq, eligible_has_map, !length_0, length_not_0.
  unfold MaxSelectedIDLen, MaxProviderIDLen, MaxReasonCodes, MaxRankedIDs.
  split.
  - intros (? & ? & ? & ? & ? & ? & ? & ? & ? & ? & H). split_and!; try done. naive_solver.
  - intros (? & [? ?] & ? & ? & ? & ? & [(-> & ? & -> & ?)|[(-> & -> & ? & ? & ? & Hf)|(-> & -> & ->)]]).
    + split_and!; try done; cbn; try lia; auto. left. by split_and!.
    + assert (length (RankedIDs r) <= length l)%nat.
      { apply ranked_length; [done|]. eapply Forall_impl; [exact Hf|]. naive_solver. }
      split_and!; try done; cbn; try lia; auto.
      right. split; [done|]. left. split_and!; try done. apply Forall_forall. by intros ? _ ?%not_elem_of_nil.
    + split_and!; try done; cbn; try lia; auto. right. split; [done|]. right. by split_and!.
Qed.

(** A valid selection puts the candidate first and leaves the rest in order. *)
Lemma Normalize_select l r :
  ValidateResult l r = None -> r_Action r = ActionSelect ->
  exists c, c ∈ l /\ ID c = SelectedID r /\ (NormalizeResult l r).1.1 = c :: without (ID c) l.
Proof.
  rewrite Validate_exact. intros (Hl & _ & _ & _ & _ & _ & Hc) Ha. unfold NormalizeResult.
  rewrite (proj2 (length_not_0 l) Hl), Ha. cbn.
  destruct Hc as [(_ & Hs & _ & Hc)|[[Ha' _]|[Ha' _]]]; [|by rewrite Ha in Ha'|by rewrite Ha in Ha'].
  rewrite (proj2 (String.eqb_neq _ _) Hs).
  destruct (by_id l (SelectedID r)) as [c|] eqn:E; cbn.
  - apply by_id_Some in E as [? <-]. eauto.
  - apply list_elem_of_fmap in Hc as (c & Hid & Hc). by destruct (by_id_None _ _ _ E Hc).
Qed.

(** A ranking of the candidates [l] by [ids]: the candidates with these IDs in this
    order, then the ones that were left out in the order they were given. *)
Definition ranking (l : list Candidate) (ids : list string) (out : list Candidate) : Prop :=
  exists front, map ID front = ids /\ Forall (.∈ l) front /\ out = front ++ List.filter (fun c => bool_decide (ID c ∉ ids)) l.

Lemma rank_pass_exact l ids seen :
  NoDup ids -> Forall (.∉ seen) ids -> Forall (.∈ map ID l) ids ->
  let '(out, seen') := rank_pass l ids seen in map ID out = ids /\ Forall (.∈ l) out /\ forall x, x ∈ seen' <-> x ∈ ids \/ x ∈ seen.
Proof.
  revert seen. induction ids as [|id ids IH]; intros seen; cbn [rank_pass].
  { intros _ _ _. split_and!; [done|constructor|]. intros x. rewrite elem_of_nil. naive_solver. }
  rewrite NoDup_cons, !Forall_cons. intros [Hid Hn] [Hs Hns] [Hin Hl]. rewrite (proj2 (has_code_false _ _) Hs).
  specialize (IH (id :: seen) Hn). destruct (rank_pass l ids (id :: seen)) as [out seen'].
  destruct IH as (H1 & H2 & H3); [|done|].
  { rewrite Forall_forall in Hns |- *. intros x Hx. rewrite elem_of_cons. intros [->|?]; [done|]. by apply (Hns x). }
  destruct (by_id l id) as [c|] eqn:E.
  - apply by_id_Some in E as [Hc <-]. cbn. rewrite H1. split_and!; [done|by constructor|].
    intros x. rewrite H3, !elem_of_cons. naive_solver.
  - apply list_elem_of_fmap in Hin as (c & Hc & Hcl). by destruct (by_id_None _ _ _ E Hcl).
Qed.

(** A valid ranking is followed to the letter. *)
Lemma Normalize_rank l r : ValidateResult l r = None -> r_Action r = ActionRank -> ranking l (RankedIDs r) (NormalizeResult l r).1.1.
Proof.
  rewrite Validate_exact. intros (Hl & _ & _ & _ & _ & _ & Hc) Ha. unfold NormalizeResult.
  rewrite (proj2 (length_not_0 l) Hl), Ha. cbn.
  destruct Hc as [[Ha' _]|[(_ & _ & Hne & Hn & _ & Hf)|[Ha' _]]]; [by rewrite Ha in Ha'| |by rewrite Ha in Ha'].
  rewrite (proj2 (length_not_0 _) Hne). pose proof (rank_pass_exact l (RankedIDs r) [] Hn) as H.
  destruct (rank_pass l (RankedIDs r) []) as [out seen]. destruct H as (H1 & H2 & H3).
  { apply Forall_forall. by intros ? _ ?%not_elem_of_nil. }
  { eapply Forall_impl; [exact Hf|]. naive_solver. }
  exists out. split_and!; [done|done|]. cbn. f_equal. apply filter_ext. intros c.
  destruct (has_code seen (ID c)) eqn:Es; cbn.
  - apply has_code_true, H3 in Es as [Es|Es%elem_of_nil]; [|done]. by rewrite bool_decide_eq_false_2 by (intros H; by apply H).
  - apply has_code_false in Es. rewrite bool_decide_eq_true_2; [done|]. intros H. apply Es, H3. by left.
Qed.

Lemma Normalize_abstain l r : r_Action r = ActionAbstain -> (NormalizeResult l r).1.1 = l.
Proof. unfold NormalizeResult. intros ->. destruct (length l =? 0)%nat eqn:E; [|done]. apply Nat.eqb_eq in E. by destruct l. Qed.

(** ** The primary band *)

Section band.
Context (cands : list Candidate) (pinned : string).

(** In the first pool that has a candidate. *)
Definition earliest (c : Candidate) : Prop := c ∈ cands /\ forall c', c' ∈ cands -> PoolOrdinal c <= PoolOrdinal c'.
(** The session's pin is a candidate of that pool. *)
Definition pin_holds : Prop := pinned <> "" /\ exists p, earliest p /\ ID p = pinned.
(** Who may become primary: the pin when it holds, otherwise the best priority of the earliest pool. *)
Definition in_band (c : Candidate) : Prop :=
  earliest c /\ (pin_holds /\ ID c = pinned \/ ~ pin_holds /\ forall c', earliest c' -> Priority c <= Priority c').
End band.

Lemma min_by_spec f c0 rest :
  (forall c, c ∈ c0 :: rest -> min_by f c0 rest <= f c) /\ exists c, c ∈ c0 :: rest /\ f c = min_by f c0 rest.
Proof.
  unfold min_by.
  assert (forall acc, let m := fold_left (fun acc c => if f c <? acc then f c else acc) rest acc in
    m <= acc /\ (forall c, c ∈ rest -> m <= f c) /\ (m = acc \/ exists c, c ∈ rest /\ f c = m)) as H.
  { induction rest as [|x rest IH]; intros acc m; subst m; cbn.
    { split_and!; [lia|by intros ? ?%not_elem_of_nil|by left]. }
    set (acc' := if f x <? acc then f x else acc).
    assert (acc' <= acc /\ acc' <= f x /\ (acc' = acc \/ acc' = f x)) as (H1 & H2 & H3)
      by (unfold acc'; destruct (Z.ltb_spec (f x) acc); lia).
    destruct (IH acc') as (H4 & H5 & H6). split_and!; [lia| |].
    - intros c [->|Hc]%elem_of_cons; [lia|by apply H5].
    - destruct H6 as [->|(c & Hc & Ec)]; [|right; exists c; split; [by right|done]].
      destruct H3 as [->| ->]; [by left|]. right. exists x. split; [by left|done]. }
  destruct (H (f c0)) as (H1 & H2 & H3). split.
  - intros c [->|Hc]%elem_of_cons; auto.
  - destruct H3 as [->|(c & Hc & Ec)]; [exists c0|exists c]; (split; [|done]); [by left|by right].
Qed.

Lemma filter_min f c0 rest c :
  c ∈ List.filter (fun c => f c =? min_by f c0 rest) (c0 :: rest) <->
  c ∈ c0 :: rest /\ forall c', c' ∈ c0 :: rest -> f c <= f c'.
Proof.
  destruct (min_by_spec f c0 rest) as [Hle (m & Hm & Em)].
  rewrite !list_elem_of_In, filter_In, <- !list_elem_of_In, Z.eqb_eq. split; intros [Hc H]; split; try done.
  - rewrite H. done.
  - specialize (H m Hm). specialize (Hle c Hc). lia.
Qed.

Lemma filter_min_nonempty f c0 rest : exists m, m ∈ List.filter (fun c => f c =? min_by f c0 rest) (c0 :: rest).
Proof.
  destruct (min_by_spec f c0 rest) as [Hle (m & Hm & Em)]. exists m. apply filter_min.
  split; [done|]. intros c' Hc'. rewrite Em. by apply Hle.
Qed.

Lemma allowed_exact cands pinned c :
  distinct cands -> c ∈ cands ->
  IsAllowedPrimary (ComputePrimaryConstraints cands pinned) (ID c) = true <-> in_band cands pinned c.
Proof.
  intros Hd Hc. unfold IsAllowedPrimary, ComputePrimaryConstraints.
  destruct cands as [|c0 rest]; [by apply not_elem_of_nil in Hc|].
  set (pool := List.filter (fun c => PoolOrdinal c =? _) (c0 :: rest)).
  assert (forall c, c ∈ pool <-> earliest (c0 :: rest) c) as Hpool by (intros c'; apply filter_min).
  assert (forall id, existsb (fun a => String.eqb a id) [pinned] = true <-> id = pinned) as Hone
    by (intros id; cbn; rewrite orb_false_r, String.eqb_eq; naive_solver).
  destruct (if String.eqb pinned "" then None else _) as [p|] eqn:Hpin.
  - destruct (String.eqb_spec pinned ""); [done|]. apply find_id_Some in Hpin as [Hp Ep].
    cbn [AllowedPrimaryIDs]. rewrite Hone. split.
    + intros E. assert (c = p) as -> by (apply (distinct_inj (c0 :: rest)); try done; [by apply Hpool in Hp as [? _]|congruence]).
      split; [by apply Hpool|]. left. split; [split; [done|]; exists p; by rewrite <- Hpool|done].
    + intros [_ [[_ ?]|[Hn _]]]; [done|]. destruct Hn. split; [done|]. exists p. by rewrite <- Hpool.
  - assert (~ pin_holds (c0 :: rest) pinned) as Hno.
    { intros [Hne (p & Hp & Ep)]. rewrite (proj2 (String.eqb_neq _ _) Hne) in Hpin.
      apply Hpool in Hp. by destruct (find_id_None _ _ _ Hpin Hp). }
    destruct pool as [|b0 brest] eqn:Epool.
    { destruct (filter_min_nonempty PoolOrdinal c0 rest) as [m Hm].
      change (m ∈ pool) in Hm. rewrite Epool in Hm. by apply not_elem_of_nil in Hm. }
    set (band := List.filter (fun c => Priority c =? _) (b0 :: brest)).
    assert (forall c, c ∈ band <-> c ∈ b0 :: brest /\ forall c', c' ∈ b0 :: brest -> Priority c <= Priority c') as Hband
      by (intros c'; apply filter_min).
    assert ((0 <? length band)%nat = true) as ->.
    { destruct (filter_min_nonempty Priority b0 brest) as [m Hm]. change (m ∈ band) in Hm. apply Nat.ltb_lt.
      destruct band; [by apply not_elem_of_nil in Hm|cbn; lia]. }
    cbn [AllowedPrimaryIDs]. rewrite existsb_exists. setoid_rewrite String.eqb_eq. split.
    + intros (id & Hid%list_elem_of_In%list_elem_of_fmap & E). destruct Hid as (b & -> & Hb).
      pose proof (proj1 (Hband b) Hb) as [Hbp Hmin].
      assert (c = b) as -> by (apply (distinct_inj (c0 :: rest)); try done; by apply Hpool in Hbp as [? _]).
      split; [by apply Hpool|]. right. split; [done|]. intros c' Hc'%Hpool. by apply Hmin.
    + intros [He [[? _]|[_ Hmin]]]; [done|]. exists (ID c). split; [|done].
      apply list_elem_of_In, list_elem_of_fmap. exists c. split; [done|]. apply Hband.
      split; [by apply Hpool|]. intros c' Hc'%Hpool. by apply Hmin.
Qed.

(** The forced primary is the pin exactly when the pin holds. *)
Lemma forced_exact cands pinned :
  (pin_holds cands pinned /\ ForcedPrimaryID (ComputePrimaryConstraints cands pinned) = pinned)
  \/ (~ pin_holds cands pinned /\ ForcedPrimaryID (ComputePrimaryConstraints cands pinned) = "").
Proof.
  unfold ComputePrimaryConstraints. destruct cands as [|c0 rest].
  { right. split; [|done]. intros (_ & p & [Hp _] & _). by apply not_elem_of_nil in Hp. }
  set (pool := List.filter _ (c0 :: rest)).
  assert (forall c, c ∈ pool <-> earliest (c0 :: rest) c) as Hpool by (intros c'; apply filter_min).
  destruct (if String.eqb pinned "" then None else _) as [p|] eqn:Hpin.
  - left. destruct (String.eqb_spec pinned ""); [done|]. apply find_id_Some in Hpin as [Hp Ep].
    split; [|done]. split; [done|]. exists p. by rewrite <- Hpool.
  - right. split; [|by destruct pool]. intros [Hne (p & Hp & Ep)].
    rewrite (proj2 (String.eqb_neq _ _) Hne) in Hpin. apply Hpool in Hp. by destruct (find_id_None _ _ _ Hpin Hp).
Qed.
