(* ===== verification/DecisionProofs.v ===== *)
(** * Theorems on the decision plane

    Whatever the providers do, [Decide] returns the eligible candidates in a
    sound order; a chain stays within its budget; the provider states keep
    their invariant and record external providers only. *)

From S2P Require Import Prelude ProviderState Decision DecisionChain Orchestrator DecisionLemmas.

(** ** The order of the answer *)

(** What a chain may do to the order: nothing, or put a candidate of the band first. *)
Definition chain_order (cands : list Candidate) (pinned : string) (ordered : list Candidate) : Prop :=
  ordered = cands \/ exists c, in_band cands pinned c /\ ordered = c :: without (ID c) cands.

Lemma chain_order_perm cands pinned ordered : distinct cands -> chain_order cands pinned ordered -> ordered ≡ₚ cands.
Proof. intros Hd [->|(c & [[Hc _] _] & ->)]; [done|]. by apply pull_out. Qed.

Definition provider_name (o : Orchestrator) : string := if String.eqb (Provider (cfg o)) "" then "local" else Provider (cfg o).

Lemma provider_name_set o : String.eqb (provider_name o) "" = false.
Proof. unfold provider_name. destruct (String.eqb (Provider (cfg o)) "") eqn:E; [done|exact E]. Qed.

Section order.
Context (req : DecisionRequest) (Hd : distinct (Candidates req)).
Let cands := Candidates req.
Let constraints := ComputePrimaryConstraints cands (PinnedCandidateID req).
Let ok := chain_order cands (PinnedCandidateID req).

Lemma pin_order ordered :
  (if String.eqb (ForcedPrimaryID constraints) "" then None else pin_first cands (ForcedPrimaryID constraints)) = Some ordered -> ok ordered.
Proof using Hd.
  unfold constraints. destruct (forced_exact cands (PinnedCandidateID req)) as [[Hp ->]|[_ ->]]; [|done].
  pose proof Hp as (Hne & p & Hpe & Ep). rewrite (proj2 (String.eqb_neq _ _) Hne). unfold pin_first.
  destruct (List.find _ cands) as [c|] eqn:Ef; [|done]. intros [= <-]. apply find_id_Some in Ef as [Hc Ec].
  assert (c = p) as -> by (apply (distinct_inj cands); try done; [by destruct Hpe|congruence]).
  right. exists p. rewrite Ep. split; [|done]. split; [done|]. by left.
Qed.

Lemma select_order r :
  ValidateResult cands r = None -> r_Action r = ActionSelect -> IsAllowedPrimary constraints (SelectedID r) = true ->
  ok (NormalizeResult cands r).1.1.
Proof using Hd.
  intros Hv Ha Hal. destruct (Normalize_select _ _ Hv Ha) as (c & Hc & Ec & ->).
  right. exists c. split; [|done]. apply allowed_exact; [done|done|]. by rewrite Ec.
Qed.

Definition end_ok (e : StepEnd) : Prop := match e with Continue _ _ _ => True | Return _ _ _ ordered _ _ _ => ok ordered end.

Lemma judge_order idx step w p calls s r err : end_ok (judge req constraints idx step w p calls s r err).
Proof using Hd.
  unfold judge. destruct (chain_exceeded w || _).
  { unfold timed_out_step. destruct (chain_done_after w); [by left|done]. }
  destruct err; [done|]. destruct (_ && negb (CanRank _)); [done|]. destruct (_ && negb (CanSelect _)); [done|].
  destruct (ValidateResult (Candidates req) r) eqn:Hv; [done|].
  destruct (String.eqb_spec (r_Action r) ActionSelect) as [Ha|]; cbn [andb].
  - destruct (IsAllowedPrimary constraints (SelectedID r)) eqn:Hal; [|done]. cbn. by apply select_order.
  - by destruct (String.eqb (r_Action r) ActionAbstain).
Qed.

Lemma run_step_order idx step w reg calls s : end_ok (run_step req constraints idx step w reg calls s).
Proof using Hd.
  unfold run_step. destruct (Registry_Get _ _) as [p|]; [|done]. destruct (String.eqb _ HealthUnavailable); [done|].
  destruct (if external step then _ else _) as [st []]; [done|].
  destruct (call_provider p w req _ _) as [[[r err] ?] ?]. apply judge_order.
Qed.

Lemma run_steps_order reg chain maxCalls world steps idx calls dn s :
  ok (ex_ordered (run_steps reg req constraints chain maxCalls world steps idx calls dn s)).
Proof using Hd.
  revert idx calls dn s. induction steps as [|step rest IH]; intros idx calls dn s; cbn [run_steps]; [by left|].
  destruct (chain_done _); [by left|]. destruct (maxCalls <=? calls); [by left|].
  pose proof (run_step_order idx step (world idx) reg calls s) as H.
  destruct (run_step req constraints idx step (world idx) reg calls s); [apply IH|exact H].
Qed.

Lemma Execute_order reg chain budget cfgTimeout world s :
  ok (ex_ordered (Execute reg chain req constraints budget cfgTimeout world s)).
Proof using Hd.
  unfold Execute. destruct (if String.eqb _ "" then None else _) as [ordered|] eqn:Ep.
  - by apply pin_order.
  - apply run_steps_order.
Qed.

(** The single provider may in addition rank the candidates: its answer was a
    ranking, it declares that it can rank, and its order is followed. *)
Definition ranked_by (p : DecisionProvider) (d : Decided) : Prop :=
  CanRank (p_Capabilities p) = true /\
  exists out r, p_Decide p out req = Returned r None /\ r_Action r = ActionRank /\ ranking cands (RankedIDs r) (d_ordered d) /\ d_ordered d ≡ₚ cands.

Lemma accept_order o p w r s :
  ValidateResult cands r = None ->
  String.eqb (r_Action r) ActionRank && negb (CanRank (p_Capabilities p)) = false ->
  String.eqb (r_Action r) ActionSelect && negb (IsAllowedPrimary constraints (SelectedID r)) = false ->
  ok (d_ordered (accept o req p w r s)) \/
  CanRank (p_Capabilities p) = true /\ r_Action r = ActionRank /\ ranking cands (RankedIDs r) (d_ordered (accept o req p w r s))
  /\ d_ordered (accept o req p w r s) ≡ₚ cands.
Proof using Hd.
  intros Hv Hr Hs. unfold accept. pose proof (Normalize_rank cands r Hv) as Hrk. pose proof (Normalize_perm cands r Hd) as Hperm. fold cands.
  pose proof (select_order r Hv) as Hsel. pose proof (Normalize_abstain cands r) as Habs.
  destruct (NormalizeResult cands r) as [[normalized applied] reason]. cbn in Hperm, Hsel, Habs, Hrk.
  cbn [d_ordered d_result].
  pose proof (proj1 (Validate_exact _ _) Hv) as (_ & _ & _ & _ & _ & _ & Hc).
  destruct Hc as [(Ha & _)|[(Ha & _)|(Ha & _)]].
  - left. apply Hsel; [done|]. rewrite Ha in Hs. by apply negb_false_iff in Hs.
  - right. rewrite Ha in Hr. apply negb_false_iff in Hr. split_and!; try done. by apply Hrk.
  - left. left. auto.
Qed.

Lemma cut_fill_action p lat r : r_Action (cut_error (fill_result p lat r)) = r_Action r.
Proof. unfold cut_error, fill_result. by repeat case_match. Qed.
Lemma cut_fill_ranked p lat r : RankedIDs (cut_error (fill_result p lat r)) = RankedIDs r.
Proof. unfold cut_error, fill_result. by repeat case_match. Qed.

Lemma decide_one_order o world s :
  let d := decide_one o req constraints world s in
  ok (d_ordered d) \/ exists p, registry o !! provider_name o = Some p /\ ranked_by p d.
Proof using Hd.
  cbv zeta. unfold decide_one. destruct (_ <=? 0); [by left; left|].
  fold (provider_name o). unfold Registry_Resolve. rewrite provider_name_set.
  destruct (registry o !! provider_name o) as [p|] eqn:Ep; [|by left; left].
  destruct (if String.eqb (ForcedPrimaryID constraints) "" then None else _) as [ordered|] eqn:Epin.
  { left. by apply pin_order. }
  destruct (if is_external (p_ID p) then _ else _) as [st []]; [by left; left|].
  destruct (String.eqb _ HealthUnavailable); [by left; left|]. unfold ask.
  destruct (call_provider p _ req bounded _) as [[[r err] panicked] s'] eqn:Ecall.
  assert (err = None -> exists r0, p_Decide p (outside (world (clamp_timeout (int64 (TimeoutMS (cfg o) * Millisecond)) (Timeout (req_Budget req))) 0%nat)) req = Returned r0 None
    /\ r_Action r0 = r_Action r /\ RankedIDs r0 = RankedIDs r) as Hcall.
  { intros ->. unfold call_provider in Ecall. destruct (p_Decide p _ req) as [r0 err0|]; [|done]. injection Ecall as -> -> _ _. eauto. }
  rewrite <- (cut_fill_action p (latency (world (clamp_timeout (int64 (TimeoutMS (cfg o) * Millisecond)) (Timeout (req_Budget req))) 0%nat)) r) in Hcall.
  rewrite <- (cut_fill_ranked p (latency (world (clamp_timeout (int64 (TimeoutMS (cfg o) * Millisecond)) (Timeout (req_Budget req))) 0%nat)) r) in Hcall.
  revert Hcall. generalize (cut_error (fill_result p (latency (world (clamp_timeout (int64 (TimeoutMS (cfg o) * Millisecond)) (Timeout (req_Budget req))) 0%nat)) r)). intros r' Hcall.
  destruct (chain_exceeded _); [by left; left|]. destruct err; [by left; left|].
  destruct (_ && negb (CanRank _)) eqn:Hr; [by left; left|]. destruct (_ && negb (CanSelect _)); [by left; left|].
  destruct (ValidateResult (Candidates req) r') eqn:Hv; [by left; left|].
  destruct (_ && negb (IsAllowedPrimary _ _)) eqn:Hs; [by left; left|].
  destruct Hcall as (r0 & Hr0 & Ea & Ei); [done|].
  edestruct accept_order as [H|(H1 & H2 & H3 & H4)]; [exact Hv|exact Hr|exact Hs|by left|]. right. exists p. split; [done|]. split; [done|].
  eexists _, r0. rewrite Ea, Ei. split_and!; [exact Hr0|done|exact H3|exact H4].
Qed.
End order.

(** (C9) Whatever the providers answer, fail with, or run out of, for candidates
    with distinct IDs the answer of the decision plane is a permutation of them,
    and one of three: the given order; the given order with one candidate of the
    primary band (the earliest pool, and in it the session's pin or the best
    priority) moved to the front; or, outside [hybrid] mode only, the ranking
    that the configured provider, which declares it can rank, answered: the
    candidates it ranked in its order, then the others in the given order. *)
Theorem decide_sound o req world lat :
  distinct (Candidates req) ->
  let d := Decide o req world lat in
  d_ordered d ≡ₚ Candidates req
  /\ (chain_order (Candidates req) (PinnedCandidateID req) (d_ordered d)
      \/ Mode (cfg o) <> "hybrid"
         /\ exists p out r, registry o !! provider_name o = Some p /\ CanRank (p_Capabilities p) = true
            /\ p_Decide p out req = Returned r None /\ r_Action r = ActionRank /\ ranking (Candidates req) (RankedIDs r) (d_ordered d)).
Proof.
  intros Hd d.
  assert (chain_order (Candidates req) (PinnedCandidateID req) (d_ordered d)
    \/ Mode (cfg o) <> "hybrid" /\ exists p, registry o !! provider_name o = Some p /\ ranked_by req p d) as H.
  { subst d. unfold Decide. destruct (_ =? 0)%nat; [by left; left|]. destruct (_ =? 1)%nat; [by left; left|].
    destruct (String.eqb _ "off"); [by left; left|]. destruct (String.eqb_spec (Mode (cfg o)) "hybrid") as [|Hm].
    - left. unfold decide_chain. destruct (if String.eqb _ "" then None else _); [|by left]. by apply Execute_order.
    - destruct (decide_one_order req Hd o world (shared o)) as [H|H]; [by left|by right]. }
  destruct H as [H|(Hm & p & Hp & Hcan & out & r & Hr & Ha & Hrk & Hperm)].
  - split; [by eapply chain_order_perm|by left].
  - split; [done|]. right. split; [done|]. by exists p, out, r.
Qed.

(** ** Calls *)



Definition end_shared (e : StepEnd) : Shared := match e with Continue _ _ s => s | Return _ _ s _ _ _ _ => s end.










(** ** The session's pin *)

(** The plane gets as far as asking somebody: a configured chain in [hybrid]
    mode, otherwise a registered provider and a call left to make. *)
Definition plane_ready (o : Orchestrator) (req : DecisionRequest) : Prop :=
  Mode (cfg o) <> "off" /\ (2 <= length (Candidates req))%nat
  /\ (Mode (cfg o) = "hybrid" /\ Chain (cfg o) <> "" /\ is_Some (chains o !! Chain (cfg o))
      \/ Mode (cfg o) <> "hybrid" /\ 0 < calls_budget o req /\ is_Some (registry o !! provider_name o)).

Lemma pin_found req :
  distinct (Candidates req) -> pin_holds (Candidates req) (PinnedCandidateID req) ->
  ForcedPrimaryID (ComputePrimaryConstraints (Candidates req) (PinnedCandidateID req)) = PinnedCandidateID req
  /\ PinnedCandidateID req <> ""
  /\ exists c, earliest (Candidates req) c /\ ID c = PinnedCandidateID req
     /\ pin_first (Candidates req) (PinnedCandidateID req) = Some (c :: without (ID c) (Candidates req)).
Proof.
  intros Hd Hp. destruct (forced_exact (Candidates req) (PinnedCandidateID req)) as [[_ Hf]|[? _]]; [|done].
  pose proof Hp as (Hne & c & Hc & Ec). split_and!; try done. exists c. split_and!; try done.
  unfold pin_first. destruct (List.find _ (Candidates req)) as [c'|] eqn:E.
  - apply find_id_Some in E as [Hc' Ec']. rewrite Ec. do 2 f_equal.
    apply (distinct_inj (Candidates req)); try done; [by destruct Hc|congruence].
  - destruct Hc as [Hc _]. by destruct (find_id_None _ _ _ E Hc).
Qed.

(** A session pinned to a candidate of the earliest pool stays there:
    the pinned candidate leads, the rest follows in the given order, no
    provider is called and no provider's health record changes. *)
Theorem pin_is_authoritative o req world lat :
  distinct (Candidates req) -> pin_holds (Candidates req) (PinnedCandidateID req) -> plane_ready o req ->
  let d := Decide o req world lat in
  (exists c, earliest (Candidates req) c /\ ID c = PinnedCandidateID req /\ d_ordered d = c :: without (ID c) (Candidates req))
  /\ SelectedID (d_result d) = PinnedCandidateID req
  /\ sh_state (d_shared d) = sh_state (shared o)
  /\ exists t, t_ChainTrace (d_trace d) = Some t /\ ct_CallsUsed t = 0 /\ ct_Steps t = [].
Proof.
  intros Hd Hp (Hoff & Hlen & Hready) d. subst d. destruct (pin_found req Hd Hp) as (Hf & Hne & c & Hc & Ec & Hpin).
  unfold Decide. rewrite (proj2 (Nat.eqb_neq _ 0)), (proj2 (Nat.eqb_neq _ 1)), (proj2 (String.eqb_neq _ "off")) by (done || lia).
  destruct Hready as [(-> & Hch & [ch Hlook])|(Hm & Hb & [p Hreg])].
  - cbn [String.eqb]. unfold decide_chain. rewrite (proj2 (String.eqb_neq _ _) Hch), Hlook. unfold Execute.
    rewrite Hf, (proj2 (String.eqb_neq _ _) Hne), Hpin. cbn. split_and!; eauto.
  - rewrite (proj2 (String.eqb_neq _ _) Hm). unfold decide_one. rewrite (proj2 (Z.leb_gt _ _) Hb).
    fold (provider_name o). unfold Registry_Resolve. rewrite provider_name_set.
    rewrite Hreg, Hf, (proj2 (String.eqb_neq _ _) Hne), Hpin. cbn. split_and!; eauto.
Qed.

(** ** The orchestrator's invariant *)

(** Providers are registered under their own IDs; the health records are
    coherent and kept for external providers only. *)
Definition internal_free (m : Manager) : Prop := states m !! "local" = None /\ states m !! "policy" = None.
Definition states_ok (s : Shared) : Prop := manager_wf (sh_state s) /\ internal_free (sh_state s).
Definition registry_ok (reg : Registry) : Prop := map_Forall (fun id p => p_ID p = id /\ id <> "") reg.
Definition orchestrator_ok (o : Orchestrator) : Prop := registry_ok (registry o) /\ states_ok (shared o).
Definition world_ok (world : World) : Prop := forall t i, 0 <= record_now (world t i) /\ 0 <= panic_now (world t i).

Lemma is_external_neq id : is_external id = true -> id <> "local" /\ id <> "policy".
Proof. unfold is_external. rewrite andb_true_iff, !negb_true_iff, !String.eqb_neq. done. Qed.

Lemma states_ok_metrics s f : states_ok s -> states_ok (s <| sh_metrics ::= f |>).
Proof. done. Qed.
Lemma states_ok_failure b id now s : states_ok s -> 0 <= now -> b = is_external id -> states_ok (note_failure b id now s).
Proof.
  intros [Hw [Hl Hp]] Hn ->. unfold note_failure. destruct (is_external id) eqn:E; [|done].
  apply is_external_neq in E as [? ?]. split; [by apply RecordFailure_wf|].
  split; cbn; by rewrite lookup_insert_ne.
Qed.
Lemma states_ok_success b id now s : states_ok s -> b = is_external id -> states_ok (note_success b id now s).
Proof.
  intros [Hw [Hl Hp]] ->. unfold note_success. destruct (is_external id) eqn:E; [|done].
  apply is_external_neq in E as [? ?]. split; [by apply RecordSuccess_wf|].
  split; cbn; by rewrite lookup_insert_ne.
Qed.
Lemma states_ok_cooldown b id now recheck s :
  states_ok s -> b = is_external id ->
  states_ok (s <| sh_state := (if b then IsCooldown (sh_state s) id now recheck else (sh_state s, false)).1 |>).
Proof.
  intros [Hw [Hl Hp]] ->. destruct (is_external id) eqn:E; [|done].
  apply is_external_neq in E as [? ?]. split; [by apply IsCooldown_wf|].
  split; cbn; by rewrite IsCooldown_other.
Qed.
Create HintDb decision.
#[export] Hint Resolve states_ok_metrics states_ok_failure states_ok_success states_ok_cooldown : decision.

Lemma call_provider_states p w req text s : states_ok s -> states_ok (call_provider p w req text s).2.
Proof. unfold call_provider. by destruct (p_Decide p (outside w) req). Qed.
Lemma judge_states req constraints idx step w p calls s r err :
  states_ok s -> p_ID p = step_Provider step -> 0 <= record_now w -> states_ok (end_shared (judge req constraints idx step w p calls s r err)).
Proof.
  intros Hs Hp Hn. assert (external step = is_external (p_ID p)) as He by (unfold external; by rewrite Hp).
  unfold judge, timed_out_step, failed_step, selected_step, abstained_step, note_step, note_outcome.
  repeat case_match; cbn [end_shared]; auto 6 with decision.
Qed.

Lemma run_step_states req constraints idx step w reg calls s :
  registry_ok reg -> states_ok s -> 0 <= record_now w -> states_ok (end_shared (run_step req constraints idx step w reg calls s)).
Proof.
  intros Hreg Hs Hn. unfold run_step, Registry_Get. destruct (reg !! step_Provider step) as [p|] eqn:Ep; [|done].
  destruct (Hreg _ _ Ep) as [Hid _]. destruct (String.eqb _ HealthUnavailable); [done|].
  pose proof (states_ok_cooldown (external step) (step_Provider step) (cool_now w) (cool_recheck w) s Hs eq_refl) as Hc.
  destruct (if external step then _ else _) as [st cooling]. cbn [fst] in Hc. destruct cooling; [exact Hc|].
  pose proof (call_provider_states p w req (fun t => t) _ Hc) as Hc'. destruct (call_provider p w req _ _) as [[[r err] ?] s']. by apply judge_states.
Qed.

Lemma run_steps_states reg req constraints chain maxCalls world steps idx calls dn s :
  registry_ok reg -> (forall i, 0 <= record_now (world i)) -> states_ok s ->
  states_ok (ex_shared (run_steps reg req constraints chain maxCalls world steps idx calls dn s)).
Proof.
  intros Hreg Hw. revert idx calls dn s. induction steps as [|step rest IH]; intros idx calls dn s Hs; cbn [run_steps]; [done|].
  destruct (chain_done _); [done|]. destruct (maxCalls <=? calls).
  { assert (forall l s, states_ok s -> states_ok (note_skips l s)) as Hskip
      by (induction l as [|x l IHl]; intros s' Hs'; [done|]; cbn; by apply IHl).
    unfold out_of_calls. apply (Hskip rest) in Hs. exact Hs. }
  pose proof (run_step_states req constraints idx step (world idx) reg calls s Hreg Hs (Hw idx)) as H.
  destruct (run_step req constraints idx step (world idx) reg calls s); [by apply IH|exact H].
Qed.

Lemma ask_states o req p w constraints s :
  states_ok s -> 0 <= record_now w -> 0 <= panic_now w -> states_ok (d_shared (ask o req p w constraints s)).
Proof.
  intros Hs Hr Hp. unfold ask. apply (call_provider_states p w req bounded) in Hs. destruct (call_provider p w req bounded s) as [[[r err] panicked] s0]. clear s. cbn [snd] in Hs. rename s0 into s.
  assert (states_ok (if panicked then note_failure (is_external (p_ID p)) (p_ID p) (panic_now w) s else s)) as Hs'
    by (destruct panicked; auto with decision).
  revert Hs'. generalize (if panicked then note_failure (is_external (p_ID p)) (p_ID p) (panic_now w) s else s). intros s' Hs'.
  unfold reject, provider_error, accept, failed, keep_order, note.
  repeat case_match; cbn [d_shared]; auto 6 with decision.
Qed.

Lemma decide_states o req world lat : orchestrator_ok o -> world_ok world -> states_ok (d_shared (Decide o req world lat)).
Proof.
  intros [Hreg Hs] Hw. unfold Decide. destruct (_ =? 0)%nat; [done|]. destruct (_ =? 1)%nat; [done|].
  destruct (String.eqb _ "off"); [done|]. destruct (String.eqb _ "hybrid").
  - unfold decide_chain. destruct (if String.eqb _ "" then None else _); [|done].
    unfold Execute. destruct (if String.eqb _ "" then None else _); [done|].
    apply states_ok_metrics, run_steps_states; [done|intros i; apply Hw|done].
  - unfold decide_one. destruct (_ <=? 0); [done|]. destruct (Registry_Resolve _ _) as [p|]; [|done].
    destruct (if String.eqb _ "" then None else _); [done|].
    set (w := world _ 0%nat). destruct (Hw (clamp_timeout (int64 (TimeoutMS (cfg o) * Millisecond)) (Timeout (req_Budget req))) 0%nat) as [Hr Hp].
    pose proof (states_ok_cooldown (is_external (p_ID p)) (p_ID p) (cool_now w) (cool_recheck w) (shared o) Hs eq_refl) as Hc.
    destruct (if is_external (p_ID p) then _ else _) as [st cooling]. cbn [fst] in Hc. destruct cooling; [exact Hc|].
    destruct (String.eqb _ HealthUnavailable); [exact Hc|]. by apply ask_states.
Qed.

(** What happens to an orchestrator: requests, configuration changes, registrations. *)
Inductive PlaneOp :=
| OpServe (req : DecisionRequest) (world : World) (lat : Duration)
| OpUpdateConfig (c : DecisionConfig)
| OpUpdateFullConfig (full : FullConfig)
| OpRegister (p : DecisionProvider).
Definition plane_op (o : Orchestrator) (op : PlaneOp) : Orchestrator :=
  match op with
  | OpServe req world lat => (serve o req world lat).1
  | OpUpdateConfig c => Orchestrator.UpdateConfig o c
  | OpUpdateFullConfig full => UpdateFullConfig o full
  | OpRegister p => o <| registry := Register (registry o) p |>
  end.
Definition op_ok (op : PlaneOp) : Prop := match op with OpServe _ world _ => world_ok world | _ => True end.

Lemma Register_ok reg p : registry_ok reg -> registry_ok (Register reg p).
Proof.
  intros H. unfold Register. destruct (String.eqb_spec (p_ID p) ""); [done|]. by apply map_Forall_insert_2.
Qed.

Lemma plane_op_ok o op : orchestrator_ok o -> op_ok op -> orchestrator_ok (plane_op o op).
Proof.
  intros [Hr [Hw Hi]] Hop. destruct op as [req world lat|c|full|p]; cbn.
  - split; [done|]. by apply decide_states.
  - done.
  - split; [done|]. split; [by apply UpdateConfig_wf|done].
  - split; [by apply Register_ok|done].
Qed.

(** Over any run of requests, reconfigurations and registrations, the
    orchestrator keeps its providers under their own IDs and its health records
    coherent: a record is healthy without a cooldown or cooling with one, its
    window count is the number of failure times it holds, the thresholds are
    positive, and neither the local nor the policy provider ever has a record,
    so neither is ever cooled down. *)
Theorem orchestrator_invariant full ops :
  Forall op_ok ops -> orchestrator_ok (fold_left plane_op ops (NewOrchestratorWithConfig None full)).
Proof.
  assert (orchestrator_ok (NewOrchestratorWithConfig None full)) as H0.
  { split; [by apply (Register_ok ∅ LocalProvider)|]. split; [apply New_wf|done]. }
  revert H0. generalize (NewOrchestratorWithConfig None full) as o. induction ops as [|op ops IH]; intros o Ho; [done|].
  intros [H1 H2]%Forall_cons. apply IH; [by apply plane_op_ok|done].
Qed.

(** ** Examples *)

Definition cand (id : string) (pool prio : Z) : Candidate :=
  mkCandidate id "p" "m" prio f_one "" pool f_zero "" f_zero f_zero f_zero 0 0 f_zero f_zero 0 f_zero false 0 (mkCaps false false false false) 0.
Definition request (cands : list Candidate) (pin : string) : DecisionRequest := mkRequest "" cands "" "" "" pin "" 0 0 0 (mkBudget 0 0) "".
Definition three : list Candidate := [cand "a" 0 1; cand "b" 0 1; cand "c" 1 1].
Definition external_provider (id : string) (rank : bool) : DecisionProvider :=
  mkProvider id (mkCapabilities rank true) o_health (fun o _ => o_reply o).
Definition answers (r : Reply) (now : Time) : World := fun _ _ => mkReadings false (mkOutside "healthy" None r) now now 1000 5 false false false now now.
Definition selecting (id : string) : Reply := Returned (mkResult ActionSelect id [] f_one [ReasonExternalSelected] "" false 0 NoError None) None.
Definition ranking (ids : list string) : Reply := Returned (mkResult ActionRank "" ids f_one [] "" false 0 NoError None) None.
Definition assisted (rank : bool) : Orchestrator :=
  let o := NewOrchestrator None (mkDecisionConfig "assisted" "jev-main" 100 "" "" 0 false) in
  o <| registry := Register (registry o) (external_provider "jev-main" rank) |>.
Definition hybrid : Orchestrator :=
  let o := NewOrchestratorWithConfig None
    (mkFullConfig (mkDecisionConfig "hybrid" "" 100 "" "main" 0 false) (mkHealthConfig 0 0 0) [mkChainConfig "main" [mkStep "jev-main" 0; mkStep "local" 0]]) in
  o <| registry := Register (registry o) (external_provider "jev-main" false) |>.

Lemma three_distinct pin : distinct (Candidates (request three pin)).
Proof. apply (bool_decide_eq_true_1 (NoDup (map ID three))). by vm_compute. Qed.

Lemma decide_sound_witness :
  map ID (d_ordered (Decide (assisted false) (request three "") (answers (selecting "b") 5) 7)) = ["b"; "a"; "c"]
  /\ d_ordered (Decide (assisted false) (request three "") (answers (selecting "b") 5) 7) ≡ₚ three.
Proof. split; [by vm_compute|]. apply (decide_sound (assisted false) (request three "") (answers (selecting "b") 5) 7), three_distinct. Defined.

Lemma pin_is_authoritative_witness :
  SelectedID (d_result (Decide hybrid (request three "b") (answers (selecting "a") 5) 7)) = "b".
Proof.
  apply (pin_is_authoritative hybrid (request three "b") (answers (selecting "a") 5) 7); [apply three_distinct| |].
  - split; [done|]. exists (cand "b" 0 1). split; [|done]. split; [by right; left|].
    intros c' Hc'. apply (Forall_forall (fun c => 0 <= PoolOrdinal c) three); [|done]. repeat constructor; cbn; lia.
  - split; [done|]. split; [cbn; lia|]. left. split_and!; [done|done|by eexists].
Defined.

Definition two_requests : list PlaneOp :=
  [OpRegister (external_provider "jev-main" false); OpServe (request three "") (answers (selecting "b") 5) 7; OpServe (request three "") (answers (selecting "zz") 6) 7].
Lemma orchestrator_invariant_witness :
  orchestrator_ok (fold_left plane_op two_requests (NewOrchestratorWithConfig None
    (mkFullConfig (mkDecisionConfig "assisted" "jev-main" 100 "" "" 0 false) (mkHealthConfig 0 0 0) []))).
Proof. apply orchestrator_invariant. repeat apply Forall_cons_2; [done| | |by apply Forall_nil_2]; intros t i; cbn; lia. Defined.

(** A panic of the single provider counts twice: once in the recovery
    and once as the error the recovery returns.  With the default threshold of
    three failures, two panicking requests put the provider in cooldown, while
    the same two requests through a chain leave it healthy. *)
Theorem panic_counts_twice :
  let crash now o := (serve o (request three "") (answers (Panicked "boom") now) 7).1 in
  (states (sh_state (shared (crash 6 (crash 5 (assisted false))))) !! "jev-main") =
    Some (mkState "cooldown" 4 0 4 6 0 (6 + 60 * Second) [5; 5; 6; 6])
  /\ (states (sh_state (shared (crash 6 (crash 5 hybrid)))) !! "jev-main") =
    Some (mkState "healthy" 2 0 2 6 0 0 [5; 6]).
Proof. by vm_compute. Qed.

(** The band constrains selections but not rankings: a single external
    provider that may rank puts a candidate of a later pool first, where the
    same choice as a selection is refused and the order kept. *)
Theorem ranking_leaves_band :
  map ID (d_ordered (Decide (assisted true) (request three "") (answers (ranking ["c"]) 5) 7)) = ["c"; "a"; "b"]
  /\ IsAllowedPrimary (ComputePrimaryConstraints three "") "c" = false
  /\ map ID (d_ordered (Decide (assisted true) (request three "") (answers (selecting "c") 5) 7)) = ["a"; "b"; "c"].
Proof. by vm_compute. Qed.
