(* ===== verification/Policy.v ===== *)
(** * The policy provider ([src/internal/decision/policy])

    A deterministic decision provider: candidates of the primary band are
    scored on eight objectives, each scaled to the unit interval, the weighted
    scores are sorted, and the best one is selected when it is not the router's
    own first choice and improves on it enough.

    Where Go ranges over a map the order is an argument.  The fingerprint of a
    policy without an explicit version is a parameter (it is a hash of a JSON
    encoding).  Floating-point operations are rounded one by one, as they are
    where the compiler does not fuse a multiplication with an addition. *)

From Stdlib Require Import SpecFloat.
From S2P Require Import Prelude GoSort Decision.

(** ** Policies ([policy.go]) *)

Record Weights := mkWeights {
  RouterBaseline : float64; Reliability : float64; WLatency : float64; TTFT : float64;
  Capacity : float64; Cost : float64; Context : float64; Quality : float64 }.
Record Policy := mkPolicy {
  ID : string; Name : string; Version : string; SelectionMode : string; PWeights : Weights;
  TaskOverrides : gmap string Weights; MinScoreDelta : float64; MinObservations : Z }.
Definition canonicalTasks : list string :=
  ["simple_chat"; "coding"; "code_edit"; "debugging"; "repository_analysis"; "architecture_reasoning"; "deep_reasoning"; "tool_use";
   "agentic_task"; "long_context"; "vision"; "structured_output"; "data_extraction"; "general"; "background"; "unknown"].

(** The weights under the names [validateWeights] ranges over. *)
Definition named_weights (w : Weights) : list (string * float64) :=
  [(".router_baseline", RouterBaseline w); (".reliability", Reliability w); (".latency", WLatency w); (".ttft", TTFT w);
   (".capacity", Capacity w); (".cost", Cost w); (".context", Context w); (".quality", Quality w)].
Definition bad_weight (v : float64) : bool := IsNaN v || IsInf v || (v <? f_zero)%f64 || (v >? f_of_int 1000000)%f64.
(** The name of the first bad weight in the order of the range. *)
Definition validateWeights (order : list (string * float64) -> list (string * float64)) (w : Weights) : option string :=
  fst <$> List.find (fun nv => bad_weight nv.2) (order (named_weights w)).
Definition hasPositive (w : Weights) : bool :=
  (RouterBaseline w >? f_zero)%f64 || (Reliability w >? f_zero)%f64 || (WLatency w >? f_zero)%f64 || (TTFT w >? f_zero)%f64
  || (Capacity w >? f_zero)%f64 || (Cost w >? f_zero)%f64 || (Context w >? f_zero)%f64 || (Quality w >? f_zero)%f64.

Record DecisionPolicyConfig := mkPolicyConfig {
  pc_ID : string; pc_Name : string; pc_Version : string; pc_SelectionMode : string; pc_Weights : Weights;
  pc_TaskOverrides : list (string * Weights); pc_MinScoreDelta : float64; pc_MinObservations : Z }.
Inductive PolicyError :=
| IDRequired | BadSelectionMode (id : string) | BadMinScoreDelta (id : string) | BadWeight (id name : string) | NoPositiveWeight (id : string)
| TaskNotCanonical (id task : string) | BadTaskWeight (id task name : string) | NoPositiveTaskWeight (id task : string) | NegativeMinObservations (id : string).

Section from_config.
Context (order : list (string * float64) -> list (string * float64)) (deriveVersion : Policy -> string).

(** The overrides in the order of the range: a later key replaces an equal one. *)
Fixpoint convert_overrides (id : string) (l : list (string * Weights)) (acc : gmap string Weights) : gmap string Weights + PolicyError :=
  match l with
  | [] => inl acc
  | (k, w) :: l =>
      let nk := TrimSpace (ToLower k) in
      if String.eqb nk "" then convert_overrides id l acc
      else if negb (has_code canonicalTasks nk) then inr (TaskNotCanonical id nk)
      else match validateWeights order w with
      | Some n => inr (BadTaskWeight id nk n)
      | None => if negb (hasPositive w) then inr (NoPositiveTaskWeight id nk) else convert_overrides id l (<[nk := w]> acc)
      end
  end.
Definition FromConfig (c : DecisionPolicyConfig) : Policy + PolicyError :=
  let id := TrimSpace (pc_ID c) in
  if String.eqb id "" then inr IDRequired
  else
    let sel := TrimSpace (ToLower (pc_SelectionMode c)) in
    let sel := if String.eqb sel "" then "select_first" else sel in
    if negb (String.eqb sel "select_first") then inr (BadSelectionMode id)
    else if IsNaN (pc_MinScoreDelta c) || IsInf (pc_MinScoreDelta c) || (pc_MinScoreDelta c <? f_zero)%f64 || (pc_MinScoreDelta c >? f_one)%f64
    then inr (BadMinScoreDelta id)
    else match validateWeights order (pc_Weights c) with
    | Some n => inr (BadWeight id n)
    | None =>
        if negb (hasPositive (pc_Weights c)) then inr (NoPositiveWeight id)
        else match convert_overrides id (pc_TaskOverrides c) ∅ with
        | inr e => inr e
        | inl overrides =>
            if pc_MinObservations c <? 0 then inr (NegativeMinObservations id)
            else
              let p := mkPolicy id (TrimSpace (pc_Name c)) (TrimSpace (pc_Version c)) sel (pc_Weights c) overrides (pc_MinScoreDelta c) (pc_MinObservations c) in
              inl (if String.eqb (Version p) ""
                   then mkPolicy (ID p) (Name p) (deriveVersion p) (SelectionMode p) (PWeights p) (TaskOverrides p) (MinScoreDelta p) (MinObservations p)
                   else p)
        end
    end.
End from_config.

Definition EvidenceFor (p : Policy) (c : Candidate) : float64 :=
  if MinObservations p <=? 0 then f_one
  else
    let n := int64 (Successes c + Failures c) in
    if n <=? 0 then f_zero else if MinObservations p <=? n then f_one
    else (f_of_int n / f_of_int (MinObservations p))%f64.
Definition ResolveWeights (p : Policy) (taskType : string) : Weights * bool :=
  let tt := TrimSpace (ToLower taskType) in
  if String.eqb tt "" then (PWeights p, false)
  else match TaskOverrides p !! tt with
  | Some ow => if hasPositive ow then (ow, true) else (PWeights p, false)
  | None => (PWeights p, false)
  end.
Definition TotalWeight (w : Weights) : float64 :=
  let sum := (RouterBaseline w + Reliability w + WLatency w + TTFT w + Capacity w + Cost w + Context w + Quality w)%f64 in
  if IsNaN sum || IsInf sum then f_zero else sum.

(** ** Objectives ([scorer.go]) *)

Definition CompRouterBaseline : string := "router_baseline".
Definition CompReliability : string := "reliability".
Definition CompLatency : string := "latency".
Definition CompTTFT : string := "ttft".
Definition CompCapacity : string := "capacity".
Definition CompCost : string := "cost".
Definition CompContext : string := "context".
Definition CompQuality : string := "quality".
Definition CompEvidence : string := "evidence".
Definition f_half : float64 := fbin 1 (-1).
Definition f_tenths (n : Z) : float64 := (f_of_int n / f_of_int 10)%f64.
Definition epsilon : float64 := (f_one / f_of_int 1000000000)%f64.
Definition fullConfidenceSamples : Z := 32.

Definition clamp01 (v : float64) : float64 :=
  if IsNaN v || IsInf v then f_half else if (v <? f_zero)%f64 then f_zero else if (v >? f_one)%f64 then f_one else v.
Definition qualityComponent (c : Candidate) : float64 :=
  if TaskQualitySamples c <=? 0 then f_half
  else
    let conf := (f_of_int (TaskQualitySamples c) / f_of_int fullConfidenceSamples)%f64 in
    let conf := if (conf >? f_one)%f64 then f_one else conf in
    (f_half + conf * (clamp01 (TaskQuality c) - f_half))%f64.
Definition finiteOrNeutral (v neutral : float64) : float64 * bool := if IsNaN v || IsInf v then (neutral, false) else (v, true).
Definition healthScore (status : string) : float64 :=
  let s := TrimSpace (ToLower status) in
  if String.eqb s "healthy" then f_one
  else if String.eqb s "unknown" || String.eqb s "" then f_half
  else if String.eqb s "half_open" then f_tenths 3
  else if String.eqb s "degraded" then f_tenths 2
  else if String.eqb s "cooldown" then f_zero
  else if String.eqb s "unavailable" then f_zero
  else f_half.

(** A score per candidate ID; the last candidate of an ID decides. *)
Definition assign (score : Candidate -> float64) (cands : list Candidate) : gmap string float64 :=
  fold_left (fun m c => <[Decision.ID c := score c]> m) cands ∅.
Definition f_min (first : float64) (rest : list float64) : float64 := fold_left (fun m v => if (v <? m)%f64 then v else m) rest first.
Definition f_max (first : float64) (rest : list float64) : float64 := fold_left (fun m v => if (v >? m)%f64 then v else m) rest first.
Definition finite (v : float64) : option float64 := if (finiteOrNeutral v f_half).2 then Some v else None.
(** Scaling between the least and the greatest known value: neutral without
    one, without a spread, and for the candidates that have no value. *)
Definition scaled (value : Candidate -> option float64) (norm : float64 -> float64 -> float64 -> float64) (cands : list Candidate) : gmap string float64 :=
  match omap value cands with
  | [] => assign (fun _ => f_half) cands
  | v0 :: rest =>
      let lo := f_min v0 rest in
      let hi := f_max v0 rest in
      let delta := (hi - lo)%f64 in
      if (delta <? epsilon)%f64 then assign (fun _ => f_half) cands
      else assign (fun c => match value c with Some v => clamp01 (norm v lo delta) | None => f_half end) cands
  end.
Definition computeRouterBaseline (cands : list Candidate) : gmap string float64 :=
  scaled (fun c => finite (RouterScore c)) (fun v lo delta => ((v - lo) / delta)%f64) cands.
Definition computeReliability (cands : list Candidate) : gmap string float64 :=
  assign (fun c =>
    if int64 (Successes c + Failures c) =? 0 then f_half
    else
      let hs := healthScore (HealthStatus c) in
      let frScore := match finite (EWMAFailureRate c) with
        | Some fv =>
            let fv := if (fv <? f_zero)%f64 then f_zero else fv in
            let fv := if (fv >? f_one)%f64 then f_one else fv in (f_one - fv)%f64
        | None => f_half
        end in
      clamp01 ((hs + frScore) / f_of_int 2)%f64) cands.
Definition positive (v : float64) : option float64 := match finite v with Some fv => if (fv >? f_zero)%f64 then Some fv else None | None => None end.
Definition computeLatency (cands : list Candidate) (useTTFT : bool) : gmap string float64 :=
  scaled (fun c => positive (if useTTFT then EWMATTFTMS c else EWMALatencyMS c)) (fun v lo delta => (f_one - (v - lo) / delta)%f64) cands.
Definition computeCapacity (cands : list Candidate) : gmap string float64 :=
  assign (fun c => match finite (CapacityPressure c) with
    | Some fv =>
        let fv := if (fv <? f_zero)%f64 then f_zero else fv in
        let fv := if (fv >? f_of_int 4)%f64 then f_of_int 4 else fv in
        clamp01 (f_one - fv / f_of_int 4)%f64
    | None => f_half
    end) cands.
Definition known_cost (c : Candidate) : option float64 :=
  if PriceKnown c then match finite (EstimatedCostUSD c) with Some fv => if (fv >=? f_zero)%f64 then Some fv else None | None => None end else None.
Definition computeCost (cands : list Candidate) : gmap string float64 :=
  scaled known_cost (fun v lo delta => (f_one - (v - lo) / delta)%f64) cands.
Definition computeContext (cands : list Candidate) (required : Z) : gmap string float64 :=
  if required <=? 0 then assign (fun _ => f_half) cands
  else assign (fun c =>
    if ContextWindow c <=? 0 then f_half
    else if ContextWindow c <? required then f_zero
    else clamp01 (f_of_int (int64 (ContextWindow c - required)) / f_of_int (ContextWindow c))%f64) cands.

Record ScoredCandidate := mkScored {
  sc_Candidate : Candidate; Components : gmap string float64; WeightedScore : float64; sc_OriginalRank : Z; Evidence : float64 }.
(** The evidence behind a candidate's reliability, and the reliability it leaves. *)
Definition evidence_gate (minObservations : Z) (c : Candidate) (reliability : float64) : float64 * float64 :=
  if 0 <? minObservations then
    let n := int64 (Successes c + Failures c) in
    if n <? minObservations then
      let evidence := if n <=? 0 then f_zero else (f_of_int n / f_of_int minObservations)%f64 in
      (evidence, (f_half + evidence * (reliability - f_half))%f64)
    else (f_one, reliability)
  else (f_one, reliability).
Definition ScoreCandidatesWithObservations (cands : list Candidate) (required minObservations : Z) : list ScoredCandidate :=
  let get m c := map_get f_zero m (Decision.ID c) in
  map (fun c =>
    let '(evidence, reliability) := evidence_gate minObservations c (get (computeReliability cands) c) in
    let comp : gmap string float64 := list_to_map
      [(CompRouterBaseline, get (computeRouterBaseline cands) c); (CompReliability, reliability);
       (CompLatency, get (computeLatency cands false) c); (CompTTFT, get (computeLatency cands true) c);
       (CompCapacity, get (computeCapacity cands) c); (CompCost, get (computeCost cands) c);
       (CompContext, get (computeContext cands required) c); (CompQuality, qualityComponent c); (CompEvidence, evidence)] in
    mkScored c (clamp01 <$> comp) f_zero (OriginalRank c) evidence) cands.
Definition ScoreCandidates (cands : list Candidate) (required : Z) : list ScoredCandidate := ScoreCandidatesWithObservations cands required 0.

(** ** Weighting ([normalization.go]) *)

Definition WeightedSum (components : gmap string float64) (w : Weights) : float64 :=
  let total := TotalWeight w in
  if (total <=? f_zero)%f64 || IsNaN total || IsInf total then f_half
  else
    let get := map_get f_zero components in
    let sum := (f_zero + get CompRouterBaseline * RouterBaseline w + get CompReliability * Reliability w + get CompLatency * WLatency w
                + get CompTTFT * TTFT w + get CompCapacity * Capacity w + get CompCost * Cost w + get CompContext * Context w
                + get CompQuality * Quality w)%f64 in
    if IsNaN sum || IsInf sum then f_half
    else
      let score := (sum / total)%f64 in
      if IsNaN score || IsInf score then f_half else if (score <? f_zero)%f64 then f_zero else if (score >? f_one)%f64 then f_one else score.
Definition set_score (w : Weights) (sc : ScoredCandidate) : ScoredCandidate :=
  mkScored (sc_Candidate sc) (Components sc) (WeightedSum (Components sc) w) (sc_OriginalRank sc) (Evidence sc).
Definition ApplyWeights (scored : list ScoredCandidate) (w : Weights) : list ScoredCandidate := map (set_score w) scored.

(** ** The provider ([provider.go]) *)

Record Provider := mkPolicyProvider { policies : gmap string Policy; defaultPolicyID : string }.
Definition policies_map (l : list Policy) : gmap string Policy := fold_left (fun m p => <[ID p := p]> m) l ∅.
Definition NewProvider (l : list Policy) (defaultID : string) : Provider := mkPolicyProvider (policies_map l) defaultID.
Definition UpdatePolicies (p : Provider) (l : list Policy) (defaultID : string) : Provider := NewProvider l defaultID.
Definition resolvePolicy (p : Provider) (req : DecisionRequest) : option Policy :=
  match (if String.eqb (PolicyID req) "" then None else policies p !! PolicyID req) with
  | Some pol => Some pol
  | None => if String.eqb (defaultPolicyID p) "" then None else policies p !! defaultPolicyID p
  end.
(** The ID with the least original rank, the first of equals. *)
Definition originalPrimaryID (band : list Candidate) : string :=
  match band with
  | [] => ""
  | c0 :: rest => (fold_left (fun '(r, id) c => if OriginalRank c <? r then (OriginalRank c, Decision.ID c) else (r, id)) rest (OriginalRank c0, Decision.ID c0)).2
  end.
Definition weightsToMap (w : Weights) : gmap string float64 :=
  list_to_map [(CompRouterBaseline, RouterBaseline w); (CompReliability, Reliability w); (CompLatency, WLatency w); (CompTTFT, TTFT w);
               (CompCapacity, Capacity w); (CompCost, Cost w); (CompContext, Context w)].
Fixpoint dedup_codes (l seen : list ReasonCode) (room : nat) : list ReasonCode :=
  match l, room with
  | rc :: l, S room' => if has_code seen rc then dedup_codes l seen room else rc :: dedup_codes l (rc :: seen) room'
  | _, _ => []
  end.
Definition dedupReasonCodes (l : list ReasonCode) : list ReasonCode := dedup_codes l [] MaxReasonCodes.
Definition better (x y : ScoredCandidate) : bool :=
  if (SFabs (WeightedScore x - WeightedScore y)%f64 >? epsilon)%f64 then (WeightedScore x >? WeightedScore y)%f64
  else sc_OriginalRank x <? sc_OriginalRank y.

Definition policy_abstain (codes : list ReasonCode) (trace : option PolicyTrace) : DecisionResult :=
  mkResult ActionAbstain "" [] f_zero codes "policy" true 0 NoError trace.
Definition policy_select (id : string) (confidence : float64) (codes : list ReasonCode) (trace : PolicyTrace) : DecisionResult :=
  mkResult ActionSelect id [] confidence codes "policy" false 0 NoError (Some trace).
(** A trace without scores: the pin, or the only candidate of the band. *)
Definition plain_trace (pol : Policy) (task original selected : string) (changed : bool) : PolicyTrace :=
  mkPolicyTrace (ID pol) (Version pol) task original selected changed f_one f_one ∅ ∅ ∅.

Section decide.
Context (pol : Policy) (req : DecisionRequest).

(** The candidates of the band scored and sorted, and the answer to them. *)
Definition decide_scored (band : list Candidate) (codes : list ReasonCode) : DecisionResult :=
  let '(w, taskAware) := ResolveWeights pol (TaskType req) in
  let est := int64 (EstimatedInputTokens req + MaxOutputTokens req) in
  let required := if MinContextWindow req <=? 0 then if 0 <? est then est else MinContextWindow req else MinContextWindow req in
  let scored := SliceStable better (ApplyWeights (ScoreCandidatesWithObservations band required (MinObservations pol)) w) in
  let orig := originalPrimaryID band in
  let osc := List.find (fun sc => String.eqb (Decision.ID (sc_Candidate sc)) orig) scored in
  let origScore := match osc with Some sc => WeightedScore sc | None => f_zero end in
  let origBreakdown := match osc with Some sc => Components sc | None => ∅ end in
  match scored with
  | [] => policy_abstain [] None
  | top :: _ =>
      let topID := Decision.ID (sc_Candidate top) in
      let trace selected changed := mkPolicyTrace (ID pol) (Version pol) (TaskType req) orig selected changed (WeightedScore top) origScore
                                     (Components top) origBreakdown (weightsToMap w) in
      let rc l := dedupReasonCodes (l ++ codes ++ if taskAware then [ReasonTaskAwareWeights] else []) in
      if String.eqb topID orig then
        policy_abstain (rc [ReasonExistingOrderPreserved; ReasonPolicyScored]) (Some (trace orig false))
      else if (MinScoreDelta pol >? f_zero)%f64 && (WeightedScore top - origScore <? MinScoreDelta pol)%f64 then
        policy_abstain (rc [ReasonMinDeltaNotMet; ReasonPolicyScored; ReasonExistingOrderPreserved]) (Some (trace topID false))
      else policy_select topID (WeightedScore top) (rc [ReasonPolicyScored; ReasonPolicySelectFirst]) (trace topID (negb (String.eqb topID orig)))
  end.

Definition decide_policy (c0 : Candidate) (rest : list Candidate) : DecisionResult :=
  let candidates := c0 :: rest in
  let minOrdinal := min_by PoolOrdinal c0 rest in
  let bandPool := List.filter (fun c => PoolOrdinal c =? minOrdinal) candidates in
  let codes := if (length bandPool <? length candidates)%nat then [ReasonPoolBoundaryEnforced] else [] in
  match (if String.eqb (PinnedCandidateID req) "" then None else List.find (fun c => String.eqb (Decision.ID c) (PinnedCandidateID req)) bandPool) with
  | Some c =>
      let orig := originalPrimaryID bandPool in
      policy_select (Decision.ID c) f_one ([ReasonAffinityPreserved; ReasonPolicySelectFirst] ++ codes ++ [ReasonPolicyScored])
        (plain_trace pol (TaskType req) orig (Decision.ID c) (negb (String.eqb (Decision.ID c) orig)))
  | None =>
      let '(band, codes) := match bandPool with
        | [] => ([], codes)
        | b0 :: brest =>
            let minPriority := min_by Priority b0 brest in
            let filtered := List.filter (fun c => Priority c =? minPriority) bandPool in
            (filtered, if (length filtered <? length bandPool)%nat then codes ++ [ReasonPriorityGuardrail] else codes)
        end in
      match band with
      | [b] =>
          policy_select (Decision.ID b) f_one (dedupReasonCodes ([ReasonPolicyScored; ReasonPolicySelectFirst] ++ codes))
            (plain_trace pol (TaskType req) (originalPrimaryID band) (Decision.ID b) false)
      | _ => decide_scored band codes
      end
  end.
End decide.

Definition policy_decide (p : Provider) (o : Outside) (req : DecisionRequest) : Reply :=
  match o_ctx_err o with
  | Some e => Returned (policy_abstain [ReasonAbstained; ReasonExistingOrderPreserved] None) (Some e)
  | None =>
      match Candidates req with
      | [] => Returned (policy_abstain [ReasonEmptyEligible; ReasonExistingOrderPreserved] None) None
      | c0 :: rest =>
          match resolvePolicy p req with
          | None => Returned (policy_abstain [ReasonAbstained; ReasonExistingOrderPreserved] None) None
          | Some pol => Returned (decide_policy pol req c0 rest) None
          end
      end
  end.
Definition PolicyProvider (p : Provider) : DecisionProvider :=
  mkProvider "policy" (mkCapabilities false true) (fun _ => HealthHealthy) (policy_decide p).

(** ** Explanations ([explain.go]) *)

Record PolicyScoreBreakdown := mkBreakdown {
  CandidateID : string; bd_PoolID : string; bd_PoolOrdinal : Z; bd_Priority : Z; bd_OriginalRank : Z;
  bd_Components : gmap string float64; bd_WeightedScore : float64; bd_Weights : Weights; bd_Evidence : float64 }.
Definition Explain (scored : list ScoredCandidate) (w : Weights) : list PolicyScoreBreakdown :=
  map (fun sc => let c := sc_Candidate sc in
    mkBreakdown (Decision.ID c) (PoolID c) (PoolOrdinal c) (Priority c) (sc_OriginalRank sc) (clamp01 <$> Components sc) (clamp01 (WeightedScore sc)) w (Evidence sc)) scored.
