(* ===== verification/PolicyProofs.v ===== *)
(** * Theorems on the policy provider

    Its answers keep the provider contract and the primary band, so the
    orchestrator accepts every one of them; and it moves the primary only to a
    candidate that scores better. *)

From S2P Require Import Prelude GoSort Decision DecisionLemmas DecisionChain Orchestrator Policy.

(** ** Scores stay in the unit interval *)

Lemma clamp_unit (v : float64) :
  unit_confidence (if IsNaN v || IsInf v then f_half else if (v <? f_zero)%f64 then f_zero else if (v >? f_one)%f64 then f_one else v).
Proof.
  destruct (IsNaN v || IsInf v) eqn:E1; [done|]. destruct (v <? f_zero)%f64 eqn:E2; [done|].
  destruct (v >? f_one)%f64 eqn:E3; [done|]. apply confidence_guard. by rewrite E1, E2, E3.
Qed.

Lemma WeightedSum_unit m w : unit_confidence (WeightedSum m w).
Proof.
  unfold WeightedSum. destruct (_ || IsInf (TotalWeight w)); [done|].
  match goal with |- context [IsNaN ?x || IsInf ?x] => generalize x end. intros sum.
  destruct (IsNaN sum || IsInf sum); [done|]. apply clamp_unit.
Qed.

(** ** Reason codes *)

Lemma dedup_codes_spec l seen room :
  (length (dedup_codes l seen room) <= room)%nat /\ forall rc, rc ∈ dedup_codes l seen room -> rc ∈ l.
Proof.
  revert seen room. induction l as [|rc l IH]; intros seen room; cbn.
  { split; [lia|]. by intros ? ?%not_elem_of_nil. }
  destruct room as [|room]; cbn. { split; [lia|]. by intros ? ?%not_elem_of_nil. }
  destruct (has_code seen rc).
  - destruct (IH seen (S room)) as [H1 H2]. split; [done|]. intros ? ?%H2. by right.
  - destruct (IH (rc :: seen) room) as [H1 H2]. split; [cbn; lia|].
    intros rc' [->|?%H2]%elem_of_cons; [by left|by right].
Qed.

Definition canonical_codes (l : list ReasonCode) : Prop := (length l <= 8)%nat /\ Forall (.∈ allowedReasonCodes) l.

Lemma dedup_canonical l : Forall (.∈ allowedReasonCodes) l -> canonical_codes (dedupReasonCodes l).
Proof.
  intros H. destruct (dedup_codes_spec l [] 8) as [H1 H2]. split; [done|].
  apply Forall_forall. intros rc Hrc%H2. by rewrite Forall_forall in H; apply H.
Qed.

Lemma canonical_by_has l : forallb (has_code allowedReasonCodes) l = true -> Forall (.∈ allowedReasonCodes) l.
Proof. intros H. apply Forall_forall. intros rc Hrc. rewrite forallb_forall in H. apply has_code_true, H. by apply list_elem_of_In. Qed.

(** ** The answer to a scored band *)

Section scored.
Context (pol : Policy) (req : DecisionRequest) (band : list Candidate) (codes : list ReasonCode).
Hypothesis Hcodes : Forall (.∈ allowedReasonCodes) codes.

Lemma scored_candidates required w :
  map sc_Candidate (ApplyWeights (ScoreCandidatesWithObservations band required (MinObservations pol)) w) = band.
Proof using.
  unfold ApplyWeights, ScoreCandidatesWithObservations. rewrite !map_map. cbn [set_score sc_Candidate].
  transitivity (map (fun c => c) band); [|apply map_id]. apply map_ext. intros c. by destruct (evidence_gate _ c _).
Qed.

Lemma scored_units required w sc :
  sc ∈ ApplyWeights (ScoreCandidatesWithObservations band required (MinObservations pol)) w -> unit_confidence (WeightedScore sc).
Proof using. unfold ApplyWeights. intros (sc' & -> & _)%list_elem_of_fmap. apply WeightedSum_unit. Qed.

(** The codes of every branch are canonical. *)
Lemma rc_canonical (l : list ReasonCode) (aware : bool) :
  forallb (has_code allowedReasonCodes) l = true -> canonical_codes (dedupReasonCodes (l ++ codes ++ if aware then [ReasonTaskAwareWeights] else [])).
Proof using Hcodes.
  intros H. apply dedup_canonical. apply Forall_app_2; [by apply canonical_by_has|]. apply Forall_app_2; [done|].
  destruct aware; by apply canonical_by_has.
Qed.

Lemma decide_scored_shape :
  band <> [] ->
  let r := decide_scored pol req band codes in
  RankedIDs r = [] /\ r_ProviderID r = "policy" /\ unit_confidence (Confidence r) /\ canonical_codes (ReasonCodes r)
  /\ (r_Action r = ActionAbstain /\ SelectedID r = ""
      \/ r_Action r = ActionSelect /\ exists c, c ∈ band /\ SelectedID r = Decision.ID c).
Proof using Hcodes.
  intros Hne r. subst r. unfold decide_scored. destruct (ResolveWeights pol (TaskType req)) as [w aware].
  set (required := if MinContextWindow req <=? 0 then _ else _).
  set (l := ApplyWeights _ w). pose proof (SliceStable_perm better l) as Hp.
  pose proof (scored_candidates required w) as Hc. fold l in Hc. pose proof (scored_units required w) as Hu. fold l in Hu.
  destruct (SliceStable better l) as [|top rest].
  { apply Permutation_nil in Hp. rewrite Hp in Hc. by destruct Hne. }
  assert (top ∈ l) as Htop by (rewrite <- Hp; by left).
  destruct (String.eqb _ (originalPrimaryID band)); [split_and!; try done; [by apply rc_canonical|by left]|].
  destruct (_ && _)%bool; [split_and!; try done; [by apply rc_canonical|by left]|].
  split_and!; try done; [by apply Hu|by apply rc_canonical|].
  right. split; [done|]. exists (sc_Candidate top). split; [|done]. rewrite <- Hc. by apply list_elem_of_fmap_2.
Qed.
End scored.

(** ** The answer to a request *)

(** What the candidates' IDs have to be for an answer to name them. *)
Definition nameable (cands : list Candidate) : Prop :=
  Forall (fun c => Decision.ID c <> "" /\ (String.length (Decision.ID c) <= 512)%nat) cands.

(** An answer that keeps the contract and stays in the band. *)
Definition good_answer (cands : list Candidate) (pinned : string) (r : DecisionResult) : Prop :=
  r_ProviderID r = "policy" /\ well_formed cands r /\ r_Action r <> ActionRank
  /\ (r_Action r = ActionSelect -> exists c, in_band cands pinned c /\ SelectedID r = Decision.ID c).

Lemma good_select cands pinned c conf codes t :
  nameable cands -> in_band cands pinned c -> unit_confidence conf -> canonical_codes codes ->
  good_answer cands pinned (policy_select (Decision.ID c) conf codes t).
Proof.
  intros Hn Hc Hu [Hl Hf]. pose proof Hc as [[Hin _] _].
  destruct (proj1 (Forall_forall _ _) Hn c Hin) as [Hid Hlen].
  split_and!; try done; [|intros _; by exists c].
  split_and!; try done; [by intros ->; apply not_elem_of_nil in Hin|cbn; lia|].
  left. split_and!; try done. exact (list_elem_of_fmap_2 Decision.ID _ _ Hin).
Qed.

Lemma good_abstain cands pinned codes t :
  cands <> [] -> canonical_codes codes -> good_answer cands pinned (policy_abstain codes t).
Proof.
  intros Hne [Hl Hf]. split_and!; try done. split_and!; try done; [cbn; lia|cbn; lia|]. right. right. by split_and!.
Qed.

Lemma good_scored cands pinned pol req band codes :
  nameable cands -> cands <> [] -> band <> [] -> Forall (.∈ allowedReasonCodes) codes ->
  (forall c, c ∈ band -> in_band cands pinned c) -> good_answer cands pinned (decide_scored pol req band codes).
Proof.
  intros Hn Hne Hb Hc Hband. destruct (decide_scored_shape pol req band codes Hc Hb) as (Hr & Hp & Hu & [Hl Hf] & Ha).
  destruct Ha as [[Ha Hs]|(Ha & c & Hcb & Hs)]; split_and!; try done; try (by rewrite Ha).
  - split_and!; try done; [rewrite Hs; cbn; lia|rewrite Hp; cbn; lia|]. right. right. by split_and!.
  - specialize (Hband c Hcb). pose proof Hband as [[Hin _] _].
    destruct (proj1 (Forall_forall _ _) Hn c Hin) as [Hid Hlen].
    split_and!; try done; [by rewrite Hs|rewrite Hp; cbn; lia|]. left. rewrite Hs. split_and!; try done. exact (list_elem_of_fmap_2 Decision.ID _ _ Hin).
  - intros _. exists c. auto.
Qed.

Lemma good_decide pol req c0 rest :
  Candidates req = c0 :: rest -> nameable (c0 :: rest) ->
  good_answer (c0 :: rest) (PinnedCandidateID req) (decide_policy pol req c0 rest).
Proof.
  intros _ Hn. unfold decide_policy.
  set (pool := List.filter (fun c => PoolOrdinal c =? _) (c0 :: rest)).
  assert (forall c, c ∈ pool <-> earliest (c0 :: rest) c) as Hpool by (intros c'; apply filter_min).
  destruct (if String.eqb (PinnedCandidateID req) "" then None else _) as [p|] eqn:Hpin.
  - destruct (String.eqb_spec (PinnedCandidateID req) ""); [done|]. apply find_id_Some in Hpin as [Hp Ep].
    apply good_select; try done.
    + apply Hpool in Hp. split; [done|]. left. split; [|done]. split; [done|]. by exists p.
    + destruct (_ <? _)%nat; split; [cbn; lia|by apply canonical_by_has|cbn; lia|by apply canonical_by_has].
  - assert (~ pin_holds (c0 :: rest) (PinnedCandidateID req)) as Hno.
    { intros [Hne (p & Hp & Ep)]. rewrite (proj2 (String.eqb_neq _ _) Hne) in Hpin.
      apply Hpool in Hp. by destruct (find_id_None _ _ _ Hpin Hp). }
    destruct (filter_min_nonempty PoolOrdinal c0 rest) as [m Hm]. change (m ∈ pool) in Hm.
    destruct pool as [|b0 brest]; [by apply not_elem_of_nil in Hm|].
    set (band := List.filter (fun c => Priority c =? _) (b0 :: brest)).
    assert (forall c, c ∈ band -> in_band (c0 :: rest) (PinnedCandidateID req) c) as Hband.
    { intros c [Hc Hmin]%filter_min. split; [by apply Hpool|]. right. split; [done|]. intros c' Hc'%Hpool. by apply Hmin. }
    destruct (filter_min_nonempty Priority b0 brest) as [x Hx]. change (x ∈ band) in Hx.
    set (codes := if (length band <? _)%nat then _ else _).
    assert (Forall (.∈ allowedReasonCodes) codes) as Hcodes.
    { unfold codes. destruct (length band <? _)%nat, (_ <? _)%nat; by apply canonical_by_has. }
    destruct band as [|b [|b' band]]; [by apply not_elem_of_nil in Hx| |].
    + apply good_select; [done|by apply Hband; left|done|].
      apply dedup_canonical, Forall_app_2; [by apply canonical_by_has|done].
    + by apply good_scored.
Qed.

(** The policy provider keeps its contract with the orchestrator.  Asked
    about candidates with distinct, non-empty IDs of bounded length within the
    deadline, it answers without an error, its answer is never refused (not for
    a capability, by the validator, nor for the primary band), and so the
    orchestrator accepts it as it is: an abstention, or a selection out of the
    primary band. *)
Theorem policy_never_refused o req p w constraints s :
  distinct (Candidates req) -> nameable (Candidates req) -> Candidates req <> [] ->
  constraints = ComputePrimaryConstraints (Candidates req) (PinnedCandidateID req) ->
  o_ctx_err (outside w) = None -> chain_exceeded w = false ->
  exists r, policy_decide p (outside w) req = Returned r None
    /\ (r_Action r = ActionAbstain \/ r_Action r = ActionSelect /\ exists c, in_band (Candidates req) (PinnedCandidateID req) c /\ SelectedID r = Decision.ID c)
    /\ ask o req (PolicyProvider p) w constraints s = accept o req (PolicyProvider p) w (cut_error (fill_result (PolicyProvider p) (latency w) r))
         (s <| sh_calls ::= fun l => l ++ [p_ID (PolicyProvider p)] |>).
Proof.
  intros Hd Hn Hne -> Hctx Hex. destruct (Candidates req) as [|c0 rest] eqn:Ec; [done|].
  assert (exists r, policy_decide p (outside w) req = Returned r None /\ good_answer (c0 :: rest) (PinnedCandidateID req) r) as (r & Hr & Hg).
  { unfold policy_decide. rewrite Hctx, Ec. destruct (resolvePolicy p req) as [pol|].
    - eexists. split; [done|]. by apply good_decide.
    - eexists. split; [done|]. apply good_abstain; [done|]. split; [cbn; lia|by apply canonical_by_has]. }
  exists r. split; [done|]. destruct Hg as (Hp & Hw & Hnr & Hs). split.
  { destruct Hw as (_ & _ & _ & _ & _ & _ & [[Ha _]|[[Ha _]|[Ha _]]]); [right; auto|done|by left]. }
  unfold ask, call_provider. cbn [p_Decide PolicyProvider]. rewrite Hr, Hex.
  set (r' := cut_error _).
  assert (r_Action r' = r_Action r /\ SelectedID r' = SelectedID r /\ well_formed (c0 :: rest) r') as (Ea & Es & Hw').
  { unfold r', cut_error, fill_result. destruct r as [a sel rk conf codes pid ab lt err pt]. cbn in Hp. subst pid. cbn.
    destruct err; cbn; split_and!; (done || exact Hw). }
  rewrite Ea, Es, Ec. rewrite (proj2 (String.eqb_neq (r_Action r) ActionRank) Hnr). cbn [andb].
  rewrite andb_false_r. rewrite (proj2 (Validate_exact (c0 :: rest) r') Hw').
  destruct (String.eqb_spec (r_Action r) ActionSelect) as [Ha|]; [|done]. cbn [andb].
  destruct (Hs Ha) as (c & Hc & ->). rewrite (proj2 (allowed_exact (c0 :: rest) (PinnedCandidateID req) c Hd (proj1 (proj1 Hc))) Hc). done.
Qed.

(** ** Why the primary moves *)

Definition ascending (l : list ScoredCandidate) : Prop := StronglySorted (fun x y => sc_OriginalRank x < sc_OriginalRank y) l.
Definition outscores (x y : ScoredCandidate) : Prop := (WeightedScore x >? WeightedScore y)%f64 = true.

Lemma flt_trans (x y z : float64) : flt x y = true -> flt y z = true -> flt x z = true.
Proof.
  intros H1 H2. destruct (flt_nan _ _ H1) as [Hx Hy], (flt_nan _ _ H2) as [_ Hz].
  rewrite flt_spec in * by done.
  destruct (frank x) as [[??]?], (frank y) as [[??]?], (frank z) as [[??]?]. cbn in *. lia.
Qed.

(** An element that comes to the front of the sorted prefix passed the one there. *)
Lemma insert_rev_last (less : ScoredCandidate -> ScoredCandidate -> bool) x rp h :
  last rp = Some h -> last (insert_rev less x rp) = Some h \/ last (insert_rev less x rp) = Some x /\ less x h = true.
Proof.
  induction rp as [|y rp IH]; [done|]. intros Hl. cbn [insert_rev]. destruct (less x y) eqn:E.
  - destruct rp as [|z rp].
    + cbn in Hl. injection Hl as ->. right. done.
    + rewrite last_cons_cons in Hl. destruct (IH Hl) as [H|[H Hx]].
      * left. destruct (insert_rev less x (z :: rp)) eqn:Ei; [done|]. by rewrite last_cons_cons.
      * right. split; [|done]. destruct (insert_rev less x (z :: rp)) eqn:Ei; [done|]. by rewrite last_cons_cons.
  - left. by rewrite last_cons_cons.
Qed.

(** In a list in the order of the ranks, the sort brings to the front the first
    element or one that outscores it. *)
Lemma sort_front x0 l :
  ascending (x0 :: l) -> exists h, head (slice_stable better (x0 :: l)) = Some h /\ (h = x0 \/ outscores h x0).
Proof.
  intros Hs. unfold slice_stable. cbn [fold_left insert_rev]. unfold ascending in Hs.
  assert (forall rp, (exists h, last rp = Some h /\ (h = x0 \/ outscores h x0)) ->
    (forall y x, y ∈ rp -> x ∈ l -> sc_OriginalRank y < sc_OriginalRank x) ->
    StronglySorted (fun x y => sc_OriginalRank x < sc_OriginalRank y) l ->
    exists h, last (fold_left (fun rp x => insert_rev better x rp) l rp) = Some h /\ (h = x0 \/ outscores h x0)) as H.
  { clear Hs. induction l as [|x l IH]; intros rp (h & Hh & Hgood) Hr Hs; [by exists h|]. cbn [fold_left].
    apply StronglySorted_inv in Hs as [Hs Hx]. rewrite Forall_forall in Hx. apply IH; [| |done].
    - destruct (insert_rev_last better x rp h Hh) as [E|[E Hb]]; [by exists h|]. exists x. split; [done|]. right.
      assert (h ∈ rp) as Hin by (by apply last_Some_elem_of). pose proof (Hr h x Hin ltac:(by left)) as Hrank.
      unfold better in Hb. destruct (_ >? epsilon)%f64.
      + destruct Hgood as [->|Hgood]; [done|]. by apply (flt_trans _ _ _ Hgood).
      + apply Z.ltb_lt in Hb. lia.
    - intros y z Hy Hz. rewrite (insert_rev_perm better x rp) in Hy.
      apply elem_of_cons in Hy as [->|Hy]; [by apply Hx|]. apply Hr; [done|by right]. }
  apply StronglySorted_inv in Hs as [Hs Hx]. rewrite Forall_forall in Hx.
  destruct (H [x0]) as (h & Hh & Hgood).
  - exists x0. split; [done|by left].
  - intros y x ->%list_elem_of_singleton Hin. by apply Hx.
  - done.
  - exists h. split; [|done]. by rewrite head_reverse.
Qed.

(** The first candidate of a band in the order of the ranks is the original primary. *)
Lemma original_first c0 rest :
  Forall (fun c => OriginalRank c0 < OriginalRank c) rest -> originalPrimaryID (c0 :: rest) = Decision.ID c0.
Proof.
  intros H. unfold originalPrimaryID.
  enough (fold_left (fun '(r, id) c => if OriginalRank c <? r then (OriginalRank c, Decision.ID c) else (r, id)) rest (OriginalRank c0, Decision.ID c0)
          = (OriginalRank c0, Decision.ID c0)) as -> by done.
  induction H as [|c rest Hc _ IH]; [done|]. cbn [fold_left]. rewrite (proj2 (Z.ltb_ge _ _)) by lia. exact IH.
Qed.

Definition rank_order (band : list Candidate) : Prop := StronglySorted (fun x y => OriginalRank x < OriginalRank y) band.

Lemma scored_ascending band required k w :
  rank_order band -> ascending (ApplyWeights (ScoreCandidatesWithObservations band required k) w).
Proof.
  unfold ApplyWeights, ScoreCandidatesWithObservations. rewrite map_map.
  generalize (computeReliability band), (computeRouterBaseline band), (computeLatency band false), (computeLatency band true),
    (computeCapacity band), (computeCost band), (computeContext band required). intros m1 m2 m3 m4 m5 m6 m7.
  assert (forall c, sc_OriginalRank (set_score w (let '(evidence, reliability) := evidence_gate k c (map_get f_zero m1 (Decision.ID c)) in
    mkScored c (clamp01 <$> (list_to_map [(CompRouterBaseline, map_get f_zero m2 (Decision.ID c)); (CompReliability, reliability);
      (CompLatency, map_get f_zero m3 (Decision.ID c)); (CompTTFT, map_get f_zero m4 (Decision.ID c)); (CompCapacity, map_get f_zero m5 (Decision.ID c));
      (CompCost, map_get f_zero m6 (Decision.ID c)); (CompContext, map_get f_zero m7 (Decision.ID c)); (CompQuality, qualityComponent c); (CompEvidence, evidence)] : gmap string float64))
      f_zero (OriginalRank c) evidence)) = OriginalRank c) as He by (intros c; by destruct (evidence_gate k c _)).
  induction 1 as [|c band Hs IH Hc]; [constructor|]. cbn [map]. constructor; [exact IH|].
  apply Forall_forall. intros sc (c' & -> & Hc')%list_elem_of_fmap. rewrite Forall_forall in Hc.
  specialize (Hc c' Hc'). rewrite <- (He c), <- (He c') in Hc. exact Hc.
Qed.

Lemma scored_map band required k w :
  exists F, ApplyWeights (ScoreCandidatesWithObservations band required k) w = map F band /\ forall c, sc_Candidate (F c) = c.
Proof.
  unfold ApplyWeights, ScoreCandidatesWithObservations. rewrite map_map. eexists. split; [done|].
  intros c. cbn. by destruct (evidence_gate k c _).
Qed.

(** The policy moves the primary only to improve it.  In a band listed in
    the router's order (fewer than twenty candidates, so that the sort is a
    single insertion pass), a selection names a candidate other than the
    router's first, whose weighted score is strictly greater, and by no less
    than the policy's minimum delta where one is set. *)
Theorem policy_move_improves pol req band codes :
  rank_order band -> distinct band -> (length band < 20)%nat ->
  r_Action (decide_scored pol req band codes) = ActionSelect ->
  exists c0 rest t, band = c0 :: rest /\ r_PolicyTrace (decide_scored pol req band codes) = Some t
    /\ SelectedID (decide_scored pol req band codes) = pt_SelectedID t
    /\ pt_OriginalPrimaryID t = Decision.ID c0 /\ pt_SelectedID t <> Decision.ID c0
    /\ (pt_SelectedScore t >? pt_OriginalPrimaryScore t)%f64 = true
    /\ ((MinScoreDelta pol >? f_zero)%f64 = true -> (pt_SelectedScore t - pt_OriginalPrimaryScore t <? MinScoreDelta pol)%f64 = false).
Proof.
  intros Hr Hd Hlen. unfold decide_scored. destruct (ResolveWeights pol (TaskType req)) as [w aware].
  set (required := if MinContextWindow req <=? 0 then _ else _).
  pose proof (scored_ascending band required (MinObservations pol) w Hr) as Hasc.
  destruct (scored_map band required (MinObservations pol) w) as (F & HF & HcF). rewrite HF in Hasc |- *.
  rewrite SliceStable_small by (by rewrite length_map).
  destruct band as [|c0 rest]; [done|]. cbn [map] in Hasc |- *.
  destruct (sort_front (F c0) (map F rest) Hasc) as (h & Hh & Hgood).
  pose proof (slice_stable_perm better (F c0 :: map F rest)) as Hp.
  destruct (slice_stable better (F c0 :: map F rest)) as [|top tl] eqn:Esort; [done|]. injection Hh as ->.
  apply StronglySorted_inv in Hr as [_ Hr]. rewrite (original_first c0 rest Hr).
  assert (List.find (fun sc => String.eqb (Decision.ID (sc_Candidate sc)) (Decision.ID c0)) (h :: tl) = Some (F c0)) as ->.
  { destruct (List.find _ (h :: tl)) as [sc|] eqn:Ef.
    - apply find_some in Ef as [Hin Hid%String.eqb_eq]. apply list_elem_of_In in Hin. rewrite Hp in Hin.
      change (F c0 :: map F rest) with (map F (c0 :: rest)) in Hin. apply list_elem_of_fmap in Hin as (c & -> & Hc).
      rewrite HcF in Hid. f_equal. f_equal. apply (distinct_inj (c0 :: rest)); try done. by left.
    - assert (F c0 ∈ h :: tl) as Hin by (rewrite Hp; by left). apply list_elem_of_In in Hin.
      pose proof (find_none _ _ Ef _ Hin) as Hf. cbn in Hf. by rewrite HcF, String.eqb_refl in Hf. }
  destruct (String.eqb_spec (Decision.ID (sc_Candidate h)) (Decision.ID c0)) as [|Hne]; [done|].
  destruct (_ && _)%bool eqn:Hdelta; [done|]. intros _. exists c0, rest. eexists. split_and!; try done; cbn.
  - destruct Hgood as [->|Hg]; [|exact Hg]. by rewrite HcF in Hne.
  - intros Hm. by rewrite Hm in Hdelta.
Qed.

(** ** Examples *)

Definition w_only_cost : Weights := mkWeights f_zero f_zero f_zero f_zero f_zero f_one f_zero f_zero.
Definition priced (id : string) (rank : Z) (cost : float64) : Candidate :=
  mkCandidate id "p" "m" 1 f_one "" 0 f_zero "" f_zero f_zero f_zero 0 0 f_zero f_zero 0 cost true 0 (mkCaps false false false false) rank.
Definition cost_policy : Policy := mkPolicy "cheap" "" "v1" "select_first" w_only_cost ∅ f_zero 0.
Definition cost_band : list Candidate := [priced "dear" 0 (f_of_int 3); priced "cheap" 1 f_one].
Definition cost_request : DecisionRequest := mkRequest "coding" cost_band "" "" "" "" "" 0 0 0 (mkBudget 0 0) "".

Lemma cost_distinct : distinct cost_band.
Proof. apply (bool_decide_eq_true_1 (NoDup (map Decision.ID cost_band))). by vm_compute. Qed.
Lemma cost_rank_order : rank_order cost_band.
Proof. repeat constructor; cbn; lia. Qed.

Lemma policy_move_improves_witness :
  SelectedID (decide_scored cost_policy cost_request cost_band []) = "cheap"
  /\ exists c0 rest t, cost_band = c0 :: rest /\ r_PolicyTrace (decide_scored cost_policy cost_request cost_band []) = Some t
    /\ (pt_SelectedScore t >? pt_OriginalPrimaryScore t)%f64 = true.
Proof.
  split; [by vm_compute|].
  destruct (policy_move_improves cost_policy cost_request cost_band []) as (c0 & rest & t & H1 & H2 & _ & _ & _ & H3 & _).
  - apply cost_rank_order.
  - apply cost_distinct.
  - cbn. lia.
  - by vm_compute.
  - exact (ex_intro _ c0 (ex_intro _ rest (ex_intro _ t (conj H1 (conj H2 H3))))).
Defined.

Definition on_time : Readings := mkReadings false (mkOutside "healthy" None (Panicked "")) 0 0 1000 5 false false false 0 0.
Lemma policy_never_refused_witness :
  let o := NewOrchestrator None (mkDecisionConfig "local" "policy" 100 "" "" 0 false) in
  let p := NewProvider [cost_policy] "cheap" in
  exists r, policy_decide p (outside on_time) cost_request = Returned r None
    /\ ask o cost_request (PolicyProvider p) on_time (ComputePrimaryConstraints cost_band "") (shared o)
       = accept o cost_request (PolicyProvider p) on_time (cut_error (fill_result (PolicyProvider p) 5 r)) (shared o <| sh_calls := ["policy"] |>).
Proof.
  intros o p.
  destruct (policy_never_refused o cost_request p on_time (ComputePrimaryConstraints cost_band "") (shared o)) as (r & H1 & _ & H2).
  - apply cost_distinct.
  - repeat constructor; cbn; (discriminate || lia).
  - discriminate.
  - reflexivity.
  - reflexivity.
  - reflexivity.
  - exact (ex_intro _ r (conj H1 H2)).
Defined.

(** The weights a decision is explained with omit the quality weight:
    two policies that differ only in it leave traces with the same weights. *)
Theorem trace_omits_quality w q :
  weightsToMap w = weightsToMap (mkWeights (RouterBaseline w) (Reliability w) (WLatency w) (TTFT w) (Capacity w) (Cost w) (Context w) q)
  /\ weightsToMap w !! CompQuality = None.
Proof. split; [done|]. by vm_compute. Qed.

(** Two override keys that differ only in case are one task: which of
    the two weights the policy gets depends on the order in which the map of
    overrides is ranged over. *)
Theorem override_collision :
  let cfg l := mkPolicyConfig "p" "" "v1" "" w_only_cost l f_zero 0 in
  let a := ("coding", w_only_cost) in
  let b := ("Coding", mkWeights f_one f_zero f_zero f_zero f_zero f_zero f_zero f_zero) in
  FromConfig id (fun _ => "") (cfg [a; b]) <> FromConfig id (fun _ => "") (cfg [b; a]).
Proof.
  intros cfg a b H.
  apply (f_equal (fun x => match x with inl p => RouterBaseline (map_get w_only_cost (TaskOverrides p) "coding") | inr _ => f_half end)) in H.
  by vm_compute in H.
Qed.
