(* ===== verification/Egress.v ===== *)
(** * The egress boundary ([src/internal/egress]: [policy.go], [redirect.go])

    Which hosts and addresses the gateway may connect to.  Addresses are
    [net/netip] addresses as integers of 32 and 128 bits; the parsers of
    addresses and URLs and the DNS resolver are arguments, so the theorems hold
    for whatever they answer. *)

From S2P Require Import Prelude.

(** ** [net/netip] *)

Inductive Addr := NoAddr | V4 (a : Z) | V6 (a : Z) (zone : string).
#[global] Instance Addr_eq_dec : EqDecision Addr.
Proof. solve_decision. Defined.
Definition addr_wf (ip : Addr) : Prop :=
  match ip with NoAddr => True | V4 a => 0 <= a < 2 ^ 32 | V6 a _ => 0 <= a < 2 ^ 128 end.
Definition IsValid (ip : Addr) : bool := match ip with NoAddr => false | _ => true end.
Definition WithZone (ip : Addr) (zone : string) : Addr := match ip with V6 a _ => V6 a zone | _ => ip end.
Definition Is4In6 (ip : Addr) : bool := match ip with V6 a _ => Z.shiftr a 32 =? 65535 | _ => false end.
Definition Unmap (ip : Addr) : Addr := match ip with V6 a _ => if Is4In6 ip then V4 (Z.land a (Z.ones 32)) else ip | _ => ip end.
(** [v4(i)]: byte [i] of an IPv4 address; [v6u16(i)]: 16-bit group [i] of an IPv6 address. *)
Definition v4 (a : Z) (i : Z) : Z := Z.land (Z.shiftr a ((3 - i) * 8)) 255.
Definition v6u16 (a : Z) (i : Z) : Z := Z.land (Z.shiftr a ((7 - i) * 16)) 65535.
Definition IsLoopback (ip : Addr) : bool := match Unmap ip with V4 a => v4 a 0 =? 127 | V6 a _ => a =? 1 | NoAddr => false end.
Definition IsMulticast (ip : Addr) : bool :=
  match Unmap ip with V4 a => Z.land (v4 a 0) 240 =? 224 | V6 a _ => Z.shiftr (v6u16 a 0) 8 =? 255 | NoAddr => false end.
Definition IsLinkLocalUnicast (ip : Addr) : bool :=
  match Unmap ip with V4 a => (v4 a 0 =? 169) && (v4 a 1 =? 254) | V6 a _ => Z.land (v6u16 a 0) 65472 =? 65152 | NoAddr => false end.
Definition IsGlobalUnicast (ip : Addr) : bool :=
  match Unmap ip with
  | NoAddr => false
  | V4 a as ip => negb ((a =? 0) || (a =? 4294967295)) && negb (IsLoopback ip) && negb (IsMulticast ip) && negb (IsLinkLocalUnicast ip)
  | V6 a z as ip => negb ((a =? 0) && String.eqb z "") && negb (IsLoopback ip) && negb (IsMulticast ip) && negb (IsLinkLocalUnicast ip)
  end.
Definition IsPrivate (ip : Addr) : bool :=
  match Unmap ip with
  | V4 a => (v4 a 0 =? 10) || ((v4 a 0 =? 172) && (Z.land (v4 a 1) 240 =? 16)) || ((v4 a 0 =? 192) && (v4 a 1 =? 168))
  | V6 a _ => Z.land (Z.shiftr (v6u16 a 0) 8) 254 =? 252
  | NoAddr => false
  end.
Record Prefix := mkPrefix { p_ip : Addr; p_bits : Z }.
Definition mask6 (bits : Z) : Z := Z.shiftl (Z.ones bits) (128 - bits).
(** [Prefix.Contains]: an address with a zone, or of the other family, is in no prefix. *)
Definition Contains (p : Prefix) (ip : Addr) : bool :=
  match p_ip p, ip with
  | V4 n, V4 a => (0 <=? p_bits p) && (p_bits p <=? 32) && (Z.shiftr (Z.lxor a n) (32 - p_bits p) =? 0)
  | V6 n _, V6 a z => String.eqb z "" && (0 <=? p_bits p) && (p_bits p <=? 128) && (Z.land (Z.lxor a n) (mask6 (p_bits p)) =? 0)
  | _, _ => false
  end.
Definition from4 (b0 b1 b2 b3 : Z) : Z := b0 * 2 ^ 24 + b1 * 2 ^ 16 + b2 * 2 ^ 8 + b3.
Definition group6 (l : list Z) : Z := fold_left (fun acc g => acc * 65536 + g) l 0.
Definition net4 (b0 b1 b2 b3 bits : Z) : Prefix := mkPrefix (V4 (from4 b0 b1 b2 b3)) bits.
(** The prefix whose first groups are [l]. *)
Definition net6 (l : list Z) (bits : Z) : Prefix := mkPrefix (V6 (group6 (l ++ replicate (8 - length l) 0)) "") bits.

(** ** The policy *)

Record Policy := mkPolicy { AllowedHosts : list string; AllowLoopback : bool; DenyHosts : list string; DenyCIDRs : list Prefix }.
Definition trim_dot (s : string) : string := TrimSuffix s ".".
Definition deniedHost (p : Policy) (host : string) : bool :=
  let host := ToLower (trim_dot (TrimSpace host)) in
  existsb (fun denied => EqualFold (trim_dot (TrimSpace denied)) host) (DenyHosts p).
Definition allowsHost (p : Policy) (host : string) : bool :=
  match AllowedHosts p with
  | [] => true
  | _ => let host := ToLower (trim_dot host) in existsb (fun allowed => EqualFold (trim_dot (TrimSpace allowed)) host) (AllowedHosts p)
  end.
Definition blockedPrefixes : list Prefix :=
  [net4 0 0 0 0 8; net4 100 64 0 0 10; net4 192 0 0 0 24; net4 192 0 2 0 24; net4 192 88 99 0 24; net4 198 18 0 0 15; net4 198 51 100 0 24;
   net4 203 0 113 0 24; net4 240 0 0 0 4; net6 [] 96; net6 [256] 64; net6 [8193] 32; net6 [8193; 3512] 32; net6 [65216] 10; net6 [100; 65435; 1] 48].
Definition nat64WellKnown : Prefix := net6 [100; 65435] 96.
Definition sixToFour : Prefix := net6 [8194] 16.
(** Byte [i] of [As16()]. *)
Definition as16 (ip : Addr) (i : Z) : Z :=
  Z.land (Z.shiftr (match ip with V6 a _ => a | V4 a => Z.lor (Z.shiftl 65535 32) a | NoAddr => 0 end) ((15 - i) * 8)) 255.
Definition embeddedIPv4 (ip : Addr) : option Addr :=
  if Contains nat64WellKnown ip then Some (V4 (from4 (as16 ip 12) (as16 ip 13) (as16 ip 14) (as16 ip 15)))
  else if Contains sixToFour ip then Some (V4 (from4 (as16 ip 2) (as16 ip 3) (as16 ip 4) (as16 ip 5)))
  else None.
(** The embedded address is an IPv4 address, which embeds nothing: two levels suffice. *)
Fixpoint blocked_levels (levels : nat) (ip : Addr) (allowLoopback : bool) : bool :=
  match levels with
  | O => true
  | S levels =>
      let ip := Unmap (WithZone ip "") in
      if negb (IsValid ip) then true
      else if IsLoopback ip then negb allowLoopback
      else if negb (IsGlobalUnicast ip) || IsPrivate ip then true
      else if existsb (fun prefix => Contains prefix ip) blockedPrefixes then true
      else match embeddedIPv4 ip with Some inner => blocked_levels levels inner false | None => false end
  end.
Definition blocked : Addr -> bool -> bool := blocked_levels 2.
Definition BlockedIP (ip : Addr) : bool := blocked ip false.
Definition deniedIP (p : Policy) (ip : Addr) : bool :=
  let ip := Unmap (WithZone ip "") in
  if negb (IsValid ip) then false else existsb (fun prefix => Contains prefix ip) (DenyCIDRs p).
Definition ipBlocked (p : Policy) (ip : Addr) (allowLoopback : bool) : bool :=
  if deniedIP p ip then true
  else match embeddedIPv4 (WithZone ip "") with
  | Some inner => if deniedIP p inner then true else blocked ip allowLoopback
  | None => blocked ip allowLoopback
  end.
(** [true]: every answer may be dialled. *)
Definition checkDialAnswers (p : Policy) (ips : list Addr) (allowLoopback : bool) : bool :=
  forallb (fun ip => negb (negb (IsValid ip) || ipBlocked p ip allowLoopback)) ips
  && (negb allowLoopback || forallb IsLoopback ips).

(** ** Targets and dialling *)

Record URL := mkURL { Scheme : string; Hostname : string; Host : string; hasUser : bool; RawQuery : string; Fragment : string }.
Inductive EgressError :=
| Malformed | NotHTTPS | HostDenied | HostNotAllowed | AddressDenied | AddressBlocked | BadAddress | ResolutionFailed | AnswerBlocked
| ProxyMalformed | ProxyDenied | ProxyBlocked.

Section parsers.
Context (ParseAddr : string -> option Addr) (parse_url : string -> option URL).

Definition isLoopbackHost (host : string) : bool :=
  let host := ToLower (trim_dot host) in
  String.eqb host "localhost" || HasSuffix host ".localhost"
  || match ParseAddr host with Some ip => IsLoopback (Unmap (WithZone ip "")) | None => false end.
Definition validateURL (p : Policy) (raw : string) : URL + EgressError :=
  match parse_url raw with
  | None => inr Malformed
  | Some u =>
      if String.eqb (Hostname u) "" || hasUser u || negb (String.eqb (RawQuery u) "") || negb (String.eqb (Fragment u) "") then inr Malformed
      else if negb (String.eqb (Scheme u) "https")
              && (negb (String.eqb (Scheme u) "http") || negb (AllowLoopback p) || negb (isLoopbackHost (Hostname u))) then inr NotHTTPS
      else if deniedHost p (Hostname u) then inr HostDenied
      else if negb (allowsHost p (Hostname u)) then inr HostNotAllowed
      else match ParseAddr (Hostname u) with
      | Some ip => if deniedIP p ip then inr AddressDenied else if ipBlocked p ip (AllowLoopback p) then inr AddressBlocked else inl u
      | None => inl u
      end
  end.
(** The checks of a configured proxy: its host, when there is one. *)
Definition check_proxy (p : Policy) (proxyURL : string) : string + EgressError :=
  match parse_url proxyURL with
  | None => inr ProxyMalformed
  | Some u =>
      if String.eqb (Hostname u) "" || (negb (String.eqb (Scheme u) "http") && negb (String.eqb (Scheme u) "https")) then inr ProxyMalformed
      else if deniedHost p (Hostname u) then inr ProxyDenied
      else match ParseAddr (Hostname u) with
      | Some ip =>
          if deniedIP p ip then inr ProxyDenied
          else if ipBlocked p ip (AllowLoopback p && isLoopbackHost (Hostname u)) then inr ProxyBlocked else inl (Hostname u)
      | None => inl (Hostname u)
      end
  end.

(** A transport: the policy it was made from and the one it dials by. *)
Record Transport := mkTransport { t_policy : Policy; t_dialPolicy : Policy }.
Definition NewTransport (p : Policy) (target proxyURL : string) : Transport + EgressError :=
  match validateURL p target with
  | inr e => inr e
  | inl _ =>
      if String.eqb proxyURL "" then inl (mkTransport p p)
      else match check_proxy p proxyURL with
      | inr e => inr e
      | inl proxyHost =>
          inl (mkTransport p
            (match AllowedHosts p with
             | [] => p
             | l => mkPolicy (l ++ [proxyHost]) (AllowLoopback p) (DenyHosts p) (DenyCIDRs p)
             end))
      end
  end.

(** A DNS answer is the bytes of a [net.IP]: [netip.AddrFromSlice], and the
    address its text form parses to (IPv4-mapped answers print as IPv4). *)
Definition join_bytes (l : list Z) : Z := fold_left (fun acc b => acc * 256 + b) l 0.
Definition AddrFromSlice (l : list Z) : Addr :=
  if (length l =? 4)%nat then V4 (join_bytes l) else if (length l =? 16)%nat then V6 (join_bytes l) "" else NoAddr.
Definition dial_addr (l : list Z) : Addr := Unmap (AddrFromSlice l).

(** The dial hook: refused, or the addresses tried in order. *)
Definition dial (t : Transport) (split : string -> option string) (lookup : string -> option (list (list Z))) (addr : string) : list Addr + EgressError :=
  match split addr with
  | None => inr BadAddress
  | Some host =>
      if deniedHost (t_policy t) host then inr HostDenied
      else if negb (allowsHost (t_dialPolicy t) host) then inr HostNotAllowed
      else
        let allowLoopback := AllowLoopback (t_policy t) && isLoopbackHost host in
        match ParseAddr host with
        | Some ip =>
            if deniedIP (t_policy t) ip then inr AddressDenied else if ipBlocked (t_policy t) ip allowLoopback then inr AddressBlocked else inl [ip]
        | None =>
            match lookup host with
            | None | Some [] => inr ResolutionFailed
            | Some ips => if checkDialAnswers (t_dialPolicy t) (map AddrFromSlice ips) allowLoopback then inl (map dial_addr ips) else inr AnswerBlocked
            end
        end
  end.
End parsers.

(** ** Redirects ([redirect.go]) *)

Definition SameOrigin (a b : option URL) : bool :=
  match a, b with Some a, Some b => EqualFold (Scheme a) (Scheme b) && EqualFold (Host a) (Host b) | _, _ => false end.
Inductive RedirectError := TooManyRedirects | CrossOrigin.
(** [via] is the chain of requests so far, the original one first. *)
Definition RefuseCrossOriginRedirects (maxRedirects : Z) (req : option URL) (via : list (option URL)) : option RedirectError :=
  match via with
  | [] => None
  | first :: _ =>
      if (0 <? maxRedirects) && (maxRedirects <=? Z.of_nat (length via)) then Some TooManyRedirects
      else if negb (SameOrigin first req) then Some CrossOrigin
      else None
  end.
