(* ===== verification/EgressProofs.v ===== *)
(** * Theorems on the egress boundary

    The blocklist is equivalent to one list of address ranges, and every
    address the dial hook tries is outside them. *)

From S2P Require Import Prelude Egress.

(** ** Bit tests as ranges *)

Definition within (n size a : Z) : Prop := n <= a < n + size.

(** Linear arithmetic with division and remainder by constants. *)
Ltac div_lia := unfold within, from4; Z.to_euclidean_division_equations; lia.

Lemma land_high x k m : 0 <= k -> 0 <= m -> 0 <= x < 2 ^ (k + m) -> Z.land x (Z.shiftl (Z.ones m) k) = Z.shiftl (Z.shiftr x k) k.
Proof.
  intros Hk Hm Hx. apply Z.bits_inj'. intros i Hi. rewrite Z.land_spec, !Z.shiftl_spec by lia.
  destruct (Z.ltb_spec i k).
  { rewrite !(Z.testbit_neg_r _ (i - k)) by lia. apply andb_false_r. }
  rewrite Z.shiftr_spec by lia. replace (i - k + k) with i by lia.
  destruct (Z.ltb_spec i (k + m)).
  - rewrite Z.ones_spec_low by lia. apply andb_true_r.
  - rewrite Z.ones_spec_high, andb_false_r by lia. destruct (Z.eq_dec x 0) as [->|]; [by rewrite Z.testbit_0_l|].
    symmetry. apply Z.bits_above_log2; [lia|]. apply Z.log2_lt_pow2; [lia|].
    apply Z.lt_le_trans with (2 ^ (k + m)); [lia|]. apply Z.pow_le_mono_r; lia.
Qed.

(** A masked comparison with an aligned constant is a range. *)
Lemma land_range x k m c :
  0 <= k -> 0 <= m -> 0 <= x < 2 ^ (k + m) -> (Z.land x (Z.shiftl (Z.ones m) k) =? Z.shiftl c k) = true <-> within (c * 2 ^ k) (2 ^ k) x.
Proof.
  intros Hk Hm Hx. rewrite land_high, Z.eqb_eq, !Z.shiftl_mul_pow2, Z.shiftr_div_pow2 by lia. unfold within.
  assert (0 < 2 ^ k) as Hp by lia. rewrite Z.mul_cancel_r by lia. split.
  - intros <-. pose proof (Z.div_mod x (2 ^ k)). pose proof (Z.mod_pos_bound x (2 ^ k)). nia.
  - intros H. symmetry. apply (Z.div_unique_pos _ _ _ (x - c * 2 ^ k)); lia.
Qed.

Lemma byte_div a k : 0 <= k -> Z.land (Z.shiftr a k) 255 = (a / 2 ^ k) mod 256.
Proof. intros. change 255 with (Z.ones 8). by rewrite Z.land_ones, Z.shiftr_div_pow2 by lia. Qed.
Lemma group_div a k : 0 <= k -> Z.land (Z.shiftr a k) 65535 = (a / 2 ^ k) mod 65536.
Proof. intros. change 65535 with (Z.ones 16). by rewrite Z.land_ones, Z.shiftr_div_pow2 by lia. Qed.

(** ** Prefixes as ranges *)

Lemma shiftr_lxor_range a n k : 0 <= k -> n mod 2 ^ k = 0 -> (Z.shiftr (Z.lxor a n) k =? 0) = true <-> within n (2 ^ k) a.
Proof.
  intros Hk Hn. rewrite Z.eqb_eq, Z.shiftr_lxor, Z.lxor_eq_0_iff, !Z.shiftr_div_pow2 by lia. unfold within.
  assert (0 < 2 ^ k) by lia. pose proof (Z.div_mod n (2 ^ k)). split.
  - intros E. pose proof (Z.div_mod a (2 ^ k)). pose proof (Z.mod_pos_bound a (2 ^ k)). nia.
  - intros [H1 H2]. symmetry. apply (Z.div_unique_pos _ _ _ (a - n)); lia.
Qed.

Lemma contains4 n bits a : 0 <= bits <= 32 -> n mod 2 ^ (32 - bits) = 0 ->
  Contains (mkPrefix (V4 n) bits) (V4 a) = true <-> within n (2 ^ (32 - bits)) a.
Proof.
  intros Hb Hn. cbn. rewrite !andb_true_iff, !Z.leb_le, shiftr_lxor_range by (lia || done). intuition lia.
Qed.

Lemma contains6 n bits a : 0 <= bits <= 128 -> 0 <= a < 2 ^ 128 -> 0 <= n < 2 ^ 128 -> n mod 2 ^ (128 - bits) = 0 ->
  Contains (mkPrefix (V6 n "") bits) (V6 a "") = true <-> within n (2 ^ (128 - bits)) a.
Proof.
  intros Hb Ha Hn Hal. cbn. rewrite !andb_true_iff, !Z.leb_le. unfold mask6.
  rewrite <- (shiftr_lxor_range a n (128 - bits)) by (lia || done).
  assert (0 <= Z.lxor a n < 2 ^ 128) as Hx.
  { split; [apply Z.lxor_nonneg; lia|]. destruct (Z.eq_dec (Z.lxor a n) 0) as [->|]; [lia|].
    apply Z.log2_lt_pow2; [pose proof (proj2 (Z.lxor_nonneg a n)); lia|].
    pose proof (Z.log2_lxor a n ltac:(lia) ltac:(lia)).
    assert (forall z, 0 <= z < 2 ^ 128 -> Z.log2 z < 128) as Hl
      by (intros z Hz; destruct (Z.eq_dec z 0) as [->|]; [cbn; lia|]; apply Z.log2_lt_pow2; lia).
    pose proof (Hl a Ha). pose proof (Hl n Hn). lia. }
  rewrite land_high by (rewrite ?Z.sub_add; lia).
  rewrite !Z.eqb_eq. rewrite Z.shiftl_eq_0_iff by lia. intuition lia.
Qed.

(** ** The reference: one list of ranges per family

    A range is its first address and its size. *)
Definition range4 (b0 b1 b2 b3 bits : Z) : Z * Z := (from4 b0 b1 b2 b3, 2 ^ (32 - bits)).
Definition range6 (l : list Z) (bits : Z) : Z * Z := (group6 (l ++ replicate (8 - length l) 0), 2 ^ (128 - bits)).
(** Loopback, multicast, link-local, private, and the other special-purpose ranges. *)
Definition special4 : list (Z * Z) :=
  [range4 127 0 0 0 8; range4 224 0 0 0 4; range4 169 254 0 0 16; range4 10 0 0 0 8; range4 172 16 0 0 12; range4 192 168 0 0 16;
   range4 0 0 0 0 8; range4 100 64 0 0 10; range4 192 0 0 0 24; range4 192 0 2 0 24; range4 192 88 99 0 24; range4 198 18 0 0 15;
   range4 198 51 100 0 24; range4 203 0 113 0 24; range4 240 0 0 0 4].
(** Multicast, link-local, unique-local, and the other special-purpose ranges;
    [::/96] has the unspecified address and loopback. *)
Definition special6 : list (Z * Z) :=
  [range6 [65280] 8; range6 [65152] 10; range6 [64512] 7; range6 [] 96; range6 [256] 64; range6 [8193] 32; range6 [8193; 3512] 32;
   range6 [65216] 10; range6 [100; 65435; 1] 48].
Definition outside_all (l : list (Z * Z)) (a : Z) : Prop := Forall (fun r => ~ within r.1 r.2 a) l.
Definition public4 : Z -> Prop := outside_all special4.
(** An IPv6 address is public when it is outside the ranges and so is the IPv4
    address it carries as NAT64 ([64:ff9b::/96], last four bytes) or 6to4
    ([2002::/16], bytes 2 to 5). *)
Definition public6 (a : Z) : Prop :=
  outside_all special6 a
  /\ (within (group6 [100; 65435; 0; 0; 0; 0; 0; 0]) (2 ^ 32) a -> public4 (a mod 2 ^ 32))
  /\ (within (group6 [8194; 0; 0; 0; 0; 0; 0; 0]) (2 ^ 112) a -> public4 ((a / 2 ^ 80) mod 2 ^ 32)).
Definition canonical (ip : Addr) : Addr := Unmap (WithZone ip "").
Definition public (ip : Addr) : Prop :=
  match canonical ip with NoAddr => False | V4 a => public4 a | V6 a _ => public6 a end.

Lemma outside_cons r l a : outside_all (r :: l) a <-> ~ within r.1 r.2 a /\ outside_all l a.
Proof. unfold outside_all. by rewrite Forall_cons. Qed.

Lemma v4_0 a : v4 a 0 = (a / 2 ^ 24) mod 256.
Proof. by apply (byte_div a 24). Qed.
Lemma v4_1 a : v4 a 1 = (a / 2 ^ 16) mod 256.
Proof. by apply (byte_div a 16). Qed.

(** The tests of [net/netip] on an IPv4 address. *)
Lemma loopback4 a : 0 <= a < 2 ^ 32 -> IsLoopback (V4 a) = true <-> within (from4 127 0 0 0) (2 ^ 24) a.
Proof. intros Ha. unfold IsLoopback. cbn [Unmap]. rewrite v4_0, Z.eqb_eq. div_lia. Qed.
Lemma multicast4 a : 0 <= a < 2 ^ 32 -> IsMulticast (V4 a) = true <-> within (from4 224 0 0 0) (2 ^ 28) a.
Proof.
  intros Ha. unfold IsMulticast. cbn [Unmap].
  etrans; [apply (land_range (v4 a 0) 4 4 14); try lia; rewrite v4_0; div_lia|].
  rewrite v4_0. div_lia.
Qed.
Lemma linklocal4 a : 0 <= a < 2 ^ 32 -> IsLinkLocalUnicast (V4 a) = true <-> within (from4 169 254 0 0) (2 ^ 16) a.
Proof.
  intros Ha. unfold IsLinkLocalUnicast. cbn [Unmap]. rewrite andb_true_iff, v4_0, v4_1, !Z.eqb_eq. div_lia.
Qed.
Lemma private4 a : 0 <= a < 2 ^ 32 -> IsPrivate (V4 a) = true <->
  within (from4 10 0 0 0) (2 ^ 24) a \/ within (from4 172 16 0 0) (2 ^ 20) a \/ within (from4 192 168 0 0) (2 ^ 16) a.
Proof.
  intros Ha. unfold IsPrivate. cbn [Unmap]. rewrite !orb_true_iff, !andb_true_iff.
  assert ((Z.land (v4 a 1) 240 =? 16) = true <-> within (1 * 2 ^ 4) (2 ^ 4) (v4 a 1)) as ->
    by (apply (land_range (v4 a 1) 4 4 1); try lia; rewrite v4_1; div_lia).
  rewrite !Z.eqb_eq, v4_0, v4_1. div_lia.
Qed.

(** The tests on an IPv6 address that is not IPv4-mapped. *)
Section v6.
Context (a : Z) (Ha : 0 <= a < 2 ^ 128) (Hm : Is4In6 (V6 a "") = false).

Lemma unmap6 : Unmap (V6 a "") = V6 a "".
Proof using Hm. unfold Unmap. by rewrite Hm. Qed.
Lemma group0 : v6u16 a 0 = a / 2 ^ 112.
Proof using Ha. unfold v6u16. rewrite group_div by lia. cbn. apply Z.mod_small. div_lia. Qed.
Lemma loopback6 : IsLoopback (V6 a "") = true <-> a = 1.
Proof using Hm. unfold IsLoopback. rewrite unmap6. apply Z.eqb_eq. Qed.
Lemma multicast6 : IsMulticast (V6 a "") = true <-> within (group6 [65280; 0; 0; 0; 0; 0; 0; 0]) (2 ^ 120) a.
Proof using Ha Hm.
  unfold IsMulticast. rewrite unmap6, group0, Z.eqb_eq, Z.shiftr_div_pow2 by lia. unfold within.
  change (group6 [65280; 0; 0; 0; 0; 0; 0; 0]) with (65280 * 2 ^ 112). div_lia.
Qed.
Lemma linklocal6 : IsLinkLocalUnicast (V6 a "") = true <-> within (group6 [65152; 0; 0; 0; 0; 0; 0; 0]) (2 ^ 118) a.
Proof using Ha Hm.
  unfold IsLinkLocalUnicast. rewrite unmap6, group0.
  etrans; [apply (land_range (a / 2 ^ 112) 6 10 1018); div_lia|]. unfold within.
  change (group6 [65152; 0; 0; 0; 0; 0; 0; 0]) with (65152 * 2 ^ 112). div_lia.
Qed.
Lemma private6 : IsPrivate (V6 a "") = true <-> within (group6 [64512; 0; 0; 0; 0; 0; 0; 0]) (2 ^ 121) a.
Proof using Ha Hm.
  unfold IsPrivate. rewrite unmap6, group0, Z.shiftr_div_pow2 by lia.
  etrans; [apply (land_range (a / 2 ^ 112 / 2 ^ 8) 1 7 126); div_lia|]. unfold within.
  change (group6 [64512; 0; 0; 0; 0; 0; 0; 0]) with (64512 * 2 ^ 112). div_lia.
Qed.
End v6.

(** ** The blocklist is the reference *)

Lemma not_true_false (b : bool) (P : Prop) : (b = true <-> P) -> b = false <-> ~ P.
Proof. intros H. rewrite <- H. by rewrite not_true_iff_false. Qed.

(** The prefixes of one family in the blocklist, as ranges. *)
Lemma prefixes4 a :
  existsb (fun prefix => Contains prefix (V4 a)) blockedPrefixes = false <->
  outside_all [range4 0 0 0 0 8; range4 100 64 0 0 10; range4 192 0 0 0 24; range4 192 0 2 0 24; range4 192 88 99 0 24; range4 198 18 0 0 15;
   range4 198 51 100 0 24; range4 203 0 113 0 24; range4 240 0 0 0 4] a.
Proof.
  unfold blockedPrefixes, net4. cbn [existsb]. rewrite !outside_cons, !orb_false_iff.
  assert (forall n bits, 0 <= bits <= 32 -> n mod 2 ^ (32 - bits) = 0 ->
    Contains (mkPrefix (V4 n) bits) (V4 a) = false <-> ~ within n (2 ^ (32 - bits)) a) as Hc
    by (intros n bits Hb Hal; apply not_true_false, contains4; done).
  rewrite !Hc by (done || (cbn; lia)).
  cbn [range4 fst snd]. split; intros H; split_and!; try tauto; constructor.
Qed.

Lemma prefixes6 a : 0 <= a < 2 ^ 128 ->
  existsb (fun prefix => Contains prefix (V6 a "")) blockedPrefixes = false <->
  outside_all [range6 [] 96; range6 [256] 64; range6 [8193] 32; range6 [8193; 3512] 32; range6 [65216] 10; range6 [100; 65435; 1] 48] a.
Proof.
  intros Ha. unfold blockedPrefixes, net6. cbn [existsb]. rewrite !outside_cons, !orb_false_iff.
  assert (forall l bits, 0 <= bits <= 128 -> 0 <= group6 (l ++ replicate (8 - length l) 0) < 2 ^ 128 ->
    group6 (l ++ replicate (8 - length l) 0) mod 2 ^ (128 - bits) = 0 ->
    Contains (mkPrefix (V6 (group6 (l ++ replicate (8 - length l) 0)) "") bits) (V6 a "") = false
    <-> ~ within (range6 l bits).1 (range6 l bits).2 a) as H
    by (intros l bits Hb Hn Hal; apply not_true_false, contains6; done).
  rewrite (H [] 96), (H [256] 64), (H [8193] 32), (H [8193; 3512] 32), (H [65216] 10), (H [100; 65435; 1] 48) by (done || (cbn; lia)).
  split; intros H'; split_and!; try tauto; constructor.
Qed.

Lemma blocked4 a levels : 0 <= a < 2 ^ 32 -> blocked_levels (S levels) (V4 a) false = false <-> public4 a.
Proof.
  intros Ha. cbn [blocked_levels WithZone Unmap IsValid negb]. unfold public4, special4. rewrite !outside_cons.
  change (embeddedIPv4 (V4 a)) with (@None Addr).
  pose proof (not_true_false _ _ (loopback4 a Ha)) as Hl. pose proof (not_true_false _ _ (multicast4 a Ha)) as Hu.
  pose proof (not_true_false _ _ (linklocal4 a Ha)) as Hk. pose proof (not_true_false _ _ (private4 a Ha)) as Hp.
  pose proof (prefixes4 a) as Hx. rewrite !outside_cons in Hx. cbn [range4 fst snd] in *.
  unfold IsGlobalUnicast. cbn [Unmap].
  destruct (IsLoopback (V4 a)); [split; [done|]; intros [H _]; by apply Hl in H|].
  destruct (IsMulticast (V4 a)).
  { rewrite andb_false_r. cbn. split; [done|]. intros (_ & H & _). by apply Hu in H. }
  destruct (IsLinkLocalUnicast (V4 a)).
  { rewrite andb_false_r. cbn. split; [done|]. intros (_ & _ & H & _). by apply Hk in H. }
  destruct (IsPrivate (V4 a)).
  { rewrite orb_true_r. split; [done|]. intros (_ & _ & _ & H1 & H2 & H3 & _). exfalso. assert (true = false) by (apply Hp; tauto). done. }
  rewrite !andb_true_r, orb_false_r, negb_involutive.
  assert (outside_all [] a) as Hnil by constructor.
  destruct (existsb (fun prefix => Contains prefix (V4 a)) blockedPrefixes).
  { split; [by destruct (_ || _)|]. intros (_ & _ & _ & _ & _ & _ & H). by apply Hx in H. }
  destruct (Z.eqb_spec a 0) as [->|]; cbn [orb].
  { exfalso. destruct (proj1 Hx eq_refl) as [H _]. apply H. div_lia. }
  destruct (Z.eqb_spec a 4294967295) as [->|].
  { exfalso. destruct (proj1 Hx eq_refl) as (_ & _ & _ & _ & _ & _ & _ & _ & H & _). apply H. div_lia. }
  split; [intros _|done]. pose proof (proj1 Hx eq_refl). split_and!; try tauto.
Qed.

(** The bytes of an embedded address, put together. *)
Lemma embedded_low a : from4 (as16 (V6 a "") 12) (as16 (V6 a "") 13) (as16 (V6 a "") 14) (as16 (V6 a "") 15) = a mod 2 ^ 32.
Proof.
  unfold as16, from4. rewrite !byte_div by lia. cbn [Z.sub Z.mul Z.opp Z.add Z.pos_sub Pos.mul Pos.add Pos.succ Pos.pred_double].
  change (2 ^ 0) with 1. rewrite Z.div_1_r. div_lia.
Qed.
Lemma embedded_mid a : from4 (as16 (V6 a "") 2) (as16 (V6 a "") 3) (as16 (V6 a "") 4) (as16 (V6 a "") 5) = (a / 2 ^ 80) mod 2 ^ 32.
Proof.
  unfold as16. rewrite !byte_div by lia.
  assert (forall k, 0 <= k -> a / 2 ^ (80 + k) = a / 2 ^ 80 / 2 ^ k) as H
    by (intros k Hk; rewrite Z.pow_add_r, Z.div_div by lia; done).
  change ((15 - 2) * 8) with (80 + 24). change ((15 - 3) * 8) with (80 + 16). change ((15 - 4) * 8) with (80 + 8). change ((15 - 5) * 8) with 80.
  rewrite !H by lia. generalize (a / 2 ^ 80). intros x. div_lia.
Qed.

Lemma embedded6 a : 0 <= a < 2 ^ 128 ->
  embeddedIPv4 (V6 a "") =
    if bool_decide (within (group6 [100; 65435; 0; 0; 0; 0; 0; 0]) (2 ^ 32) a) then Some (V4 (a mod 2 ^ 32))
    else if bool_decide (within (group6 [8194; 0; 0; 0; 0; 0; 0; 0]) (2 ^ 112) a) then Some (V4 ((a / 2 ^ 80) mod 2 ^ 32))
    else None.
Proof.
  intros Ha. unfold embeddedIPv4. rewrite embedded_low, embedded_mid.
  assert (Contains nat64WellKnown (V6 a "") = bool_decide (within (group6 [100; 65435; 0; 0; 0; 0; 0; 0]) (2 ^ 32) a)) as ->.
  { apply eq_true_iff_eq. rewrite bool_decide_eq_true. by apply (contains6 (group6 [100; 65435; 0; 0; 0; 0; 0; 0]) 96 a). }
  assert (Contains sixToFour (V6 a "") = bool_decide (within (group6 [8194; 0; 0; 0; 0; 0; 0; 0]) (2 ^ 112) a)) as ->.
  { apply eq_true_iff_eq. rewrite bool_decide_eq_true. by apply (contains6 (group6 [8194; 0; 0; 0; 0; 0; 0; 0]) 16 a). }
  done.
Qed.

Lemma blocked6 a : 0 <= a < 2 ^ 128 -> Is4In6 (V6 a "") = false -> IsLoopback (V6 a "") = false ->
  blocked_levels 2 (V6 a "") false = false <-> public6 a.
Proof.
  intros Ha Hm Hlo.
  assert (public6 a <-> outside_all special6 a /\ match embeddedIPv4 (V6 a "") with Some inner => blocked_levels 1 inner false | None => false end = false) as Hemb.
  { unfold public6. rewrite embedded6 by done.
    destruct (bool_decide_reflect (within (group6 [100; 65435; 0; 0; 0; 0; 0; 0]) (2 ^ 32) a)) as [H1|H1].
    - rewrite blocked4 by (apply Z.mod_pos_bound; lia).
      assert (~ within (group6 [8194; 0; 0; 0; 0; 0; 0; 0]) (2 ^ 112) a).
      { change (group6 [8194; 0; 0; 0; 0; 0; 0; 0]) with (8194 * 2 ^ 112). change (group6 [100; 65435; 0; 0; 0; 0; 0; 0]) with ((100 * 65536 + 65435) * 2 ^ 96) in H1.
        unfold within in *. lia. }
      tauto.
    - destruct (bool_decide_reflect (within (group6 [8194; 0; 0; 0; 0; 0; 0; 0]) (2 ^ 112) a)) as [H2|H2]; [|tauto].
      rewrite blocked4 by (apply Z.mod_pos_bound; lia). tauto. }
  rewrite Hemb. change (blocked_levels 2 (V6 a "") false) with
    (let ip := Unmap (V6 a "") in if negb (IsValid ip) then true else if IsLoopback ip then true
     else if negb (IsGlobalUnicast ip) || IsPrivate ip then true
     else if existsb (fun prefix => Contains prefix ip) blockedPrefixes then true
     else match embeddedIPv4 ip with Some inner => blocked_levels 1 inner false | None => false end).
  cbv zeta. rewrite (unmap6 a Hm), Hlo. cbn [IsValid negb].
  generalize (match embeddedIPv4 (V6 a "") with Some inner => blocked_levels 1 inner false | None => false end). intros emb.
  unfold special6. rewrite !outside_cons.
  pose proof (not_true_false _ _ (multicast6 a Ha Hm)) as Hu. pose proof (not_true_false _ _ (linklocal6 a Ha Hm)) as Hk.
  pose proof (not_true_false _ _ (private6 a Ha Hm)) as Hp. pose proof (prefixes6 a Ha) as Hx. rewrite !outside_cons in Hx.
  unfold IsGlobalUnicast. rewrite (unmap6 a Hm), Hlo.
  destruct (IsMulticast (V6 a "")); [rewrite andb_false_r; cbn; split; [done|]; intros [(H & _) _]; by apply Hu in H|].
  destruct (IsLinkLocalUnicast (V6 a "")); [rewrite andb_false_r; cbn; split; [done|]; intros [(_ & H & _) _]; by apply Hk in H|].
  destruct (IsPrivate (V6 a "")); [rewrite orb_true_r; split; [done|]; intros [(_ & _ & H & _) _]; by apply Hp in H|].
  assert (outside_all [] a) as Hnil by constructor.
  destruct (existsb (fun prefix => Contains prefix (V6 a "")) blockedPrefixes).
  { split; [by destruct (_ || _)|]. intros [(_ & _ & _ & H) _]. by apply Hx in H. }
  rewrite !andb_true_r, orb_false_r, negb_involutive.
  destruct (Z.eqb_spec a 0) as [->|]; cbn [andb].
  { exfalso. destruct (proj1 Hx eq_refl) as [H _]. apply H. cbn. unfold within. lia. }
  pose proof (proj1 Hx eq_refl). tauto.
Qed.

Lemma canonical_wf ip : addr_wf ip -> addr_wf (canonical ip).
Proof.
  unfold canonical. destruct ip as [|a|a z]; intros Hw; [exact I|exact Hw|]. cbn [WithZone Unmap].
  destruct (Is4In6 _); [|exact Hw]. unfold addr_wf. rewrite Z.land_ones by lia. apply Z.mod_pos_bound. lia.
Qed.

(** A canonical IPv6 address is not IPv4-mapped. *)
Lemma canonical_6 ip a z : canonical ip = V6 a z -> Unmap (V6 a z) = V6 a z.
Proof.
  unfold canonical. destruct ip as [| |a' z']; intros E; [discriminate|discriminate|]. cbn [WithZone Unmap] in E.
  destruct (Is4In6 (V6 a' "")) eqn:Em; [discriminate|]. injection E as <- <-. cbn [Unmap]. by rewrite Em.
Qed.

Lemma loopback_not_public ip : addr_wf ip -> IsLoopback (canonical ip) = true -> ~ public ip.
Proof.
  unfold public. intros Hw Hl. pose proof (canonical_wf ip Hw) as Hc.
  unfold IsLoopback in Hl. destruct (canonical ip) as [|a|a z] eqn:E; [discriminate| |].
  - intros H. unfold public4, special4 in H. rewrite outside_cons in H. destruct H as [H _]. apply H.
    exact (proj1 (loopback4 a Hc) Hl).
  - rewrite (canonical_6 _ _ _ E) in Hl. apply Z.eqb_eq in Hl as ->. intros [H _]. unfold special6 in H. rewrite !outside_cons in H.
    destruct H as (_ & _ & _ & H & _). apply H. cbn. unfold within. lia.
Qed.

Lemma only_right (P Q : Prop) : Q <-> (false = true /\ P) \/ Q.
Proof. split; [by right|]. intros [[H _]|H]; [discriminate|exact H]. Qed.

(** The blocklist, exactly.  An address passes if and only if it is a
    loopback address and loopback is allowed, or it is public: once its zone
    and an IPv4 mapping are removed it lies outside one list of special-purpose
    ranges of its family, and so does the IPv4 address a NAT64 or 6to4 address
    carries. *)
Theorem blocked_exact ip allow :
  addr_wf ip -> blocked ip allow = false <-> (IsLoopback (canonical ip) = true /\ allow = true) \/ public ip.
Proof.
  intros Hw. destruct (IsLoopback (canonical ip)) eqn:Hl.
  - pose proof (loopback_not_public ip Hw Hl) as Hn. unfold blocked. cbn [blocked_levels]. fold (canonical ip).
    assert (IsValid (canonical ip) = true) as -> by (by destruct (canonical ip)). rewrite Hl. cbn. destruct allow; cbn; intuition done.
  - assert (blocked ip allow = blocked_levels 2 (canonical ip) false) as ->.
    { unfold blocked. cbn [blocked_levels]. fold (canonical ip).
      assert (Unmap (WithZone (canonical ip) "") = canonical ip) as ->.
      { unfold canonical. destruct ip as [| |a z]; [reflexivity|reflexivity|]. cbn [WithZone Unmap].
        destruct (Is4In6 (V6 a "")) eqn:E; [reflexivity|]. cbn [WithZone Unmap]. by rewrite E. }
      by rewrite Hl. }
    unfold public. unfold canonical in *. destruct ip as [|a|a z]; cbn [WithZone] in *.
    + cbn. apply iff_sym. split; [intros [[H _]|[]]; discriminate|discriminate].
    + cbn [Unmap]. rewrite (blocked4 a 1) by exact Hw. apply only_right.
    + cbn [Unmap] in *. destruct (Is4In6 (V6 a "")) eqn:E.
      * etrans; [apply (blocked4 _ 1); rewrite Z.land_ones by lia; apply Z.mod_pos_bound; lia|]. apply only_right.
      * etrans; [apply (blocked6 a Hw E Hl)|]. apply only_right.
Qed.

(** ** Dialling *)

(** An address the policy lets through: public, or loopback where that was
    earned; and neither it nor an IPv4 address it carries is on the deny list. *)
Definition permitted (p : Policy) (allow : bool) (ip : Addr) : Prop :=
  ((IsLoopback (canonical ip) = true /\ allow = true) \/ public ip)
  /\ Forall (fun prefix => Contains prefix (canonical ip) = false
       /\ forall inner, embeddedIPv4 (WithZone ip "") = Some inner -> Contains prefix inner = false) (DenyCIDRs p).

Lemma existsb_false {A} (f : A -> bool) l : existsb f l = false <-> Forall (fun x => f x = false) l.
Proof.
  induction l as [|x l IH]; cbn; [split; [constructor|done]|]. rewrite orb_false_iff, Forall_cons. by rewrite IH.
Qed.

Lemma embedded_v4 ip inner : embeddedIPv4 ip = Some inner -> exists a, inner = V4 a.
Proof. unfold embeddedIPv4. repeat case_match; intros E; try discriminate; injection E as <-; eauto. Qed.

Lemma ipBlocked_permitted p ip allow : addr_wf ip -> ipBlocked p ip allow = false -> permitted p allow ip.
Proof.
  intros Hw. unfold ipBlocked. destruct (deniedIP p ip) eqn:Hd; [discriminate|]. intros Hb.
  assert (blocked ip allow = false) as Hblk by (destruct (embeddedIPv4 _) as [i|]; [destruct (deniedIP p i); [discriminate|]|]; exact Hb).
  pose proof (proj1 (blocked_exact ip allow Hw) Hblk) as Hpub. split; [exact Hpub|].
  unfold deniedIP in Hd. fold (canonical ip) in Hd.
  destruct (IsValid (canonical ip)) eqn:Hv.
  2:{ exfalso. destruct (canonical ip) eqn:Ec; try discriminate. unfold public in Hpub. rewrite Ec in Hpub. by destruct Hpub as [[? _]|[]]. }
  cbn [negb] in Hd. apply existsb_false in Hd. rewrite Forall_forall in Hd |- *. intros prefix Hin. split; [by apply Hd|].
  intros inner He. rewrite He in Hb. destruct (embedded_v4 _ _ He) as [a ->].
  destruct (deniedIP p (V4 a)) eqn:Hdi; [discriminate|]. unfold deniedIP in Hdi. cbn [WithZone Unmap IsValid negb] in Hdi.
  apply existsb_false in Hdi. rewrite Forall_forall in Hdi. by apply Hdi.
Qed.

Lemma unmap_canonical ip : canonical (Unmap ip) = canonical ip.
Proof.
  unfold canonical. destruct ip as [|a|a z]; [reflexivity|reflexivity|]. cbn [Unmap WithZone].
  change (Is4In6 (V6 a z)) with (Is4In6 (V6 a "")). destruct (Is4In6 (V6 a "")) eqn:E; [reflexivity|]. cbn [WithZone Unmap]. by rewrite E.
Qed.

Lemma permitted_unmap p allow ip : permitted p allow ip -> permitted p allow (Unmap ip).
Proof.
  intros [Hp Hd]. unfold permitted, public. rewrite unmap_canonical. split; [exact Hp|].
  rewrite Forall_forall in Hd |- *. intros prefix Hin. destruct (Hd prefix Hin) as [H1 H2]. split; [exact H1|].
  intros inner He. destruct ip as [|a|a z]; [by apply H2|by apply H2|]. cbn [Unmap] in He.
  destruct (Is4In6 (V6 a z)); [|by apply H2]. discriminate.
Qed.

Lemma join_bytes_bound l : Forall (fun b => 0 <= b < 256) l -> 0 <= join_bytes l < 256 ^ Z.of_nat (length l).
Proof.
  unfold join_bytes. induction l as [|b l IH] using rev_ind; intros H; [cbn; lia|].
  apply Forall_app in H as [Hl Hb]. apply Forall_inv in Hb. specialize (IH Hl).
  rewrite fold_left_app. cbn [fold_left]. rewrite length_app. cbn [length]. rewrite Nat.add_1_r, Nat2Z.inj_succ, Z.pow_succ_r by lia. lia.
Qed.

Lemma slice_wf l : Forall (fun b => 0 <= b < 256) l -> addr_wf (AddrFromSlice l).
Proof.
  intros H. unfold AddrFromSlice. pose proof (join_bytes_bound l H) as Hb.
  destruct (Nat.eqb_spec (length l) 4) as [E|]; [rewrite E in Hb; exact Hb|].
  destruct (Nat.eqb_spec (length l) 16) as [E|]; [rewrite E in Hb; exact Hb|exact I].
Qed.

#[local] Opaque TrimSpace ToLower trim_dot EqualFold.

Section dial.
Context (ParseAddr : string -> option Addr) (parse_url : string -> option URL).
(** What is assumed of the outside: parsed addresses and DNS answers are made of bytes. *)
Hypothesis parsed_wf : forall s ip, ParseAddr s = Some ip -> addr_wf ip.

Lemma dialPolicy_hosts p target proxyURL t host :
  NewTransport ParseAddr parse_url p target proxyURL = inl t ->
  t_policy t = p /\ DenyCIDRs (t_dialPolicy t) = DenyCIDRs p
  /\ (allowsHost (t_dialPolicy t) host = true -> allowsHost p host = true
      \/ exists u, parse_url proxyURL = Some u /\ EqualFold (trim_dot (TrimSpace (Hostname u))) (ToLower (trim_dot host)) = true).
Proof using.
  unfold NewTransport. destruct (validateURL _ _ p target) as [vu|]; [|discriminate]. destruct (String.eqb proxyURL "").
  { intros [= <-]. cbn. auto. }
  destruct (check_proxy ParseAddr parse_url p proxyURL) as [proxyHost|] eqn:Ec; [|discriminate].
  assert (exists u, parse_url proxyURL = Some u /\ proxyHost = Hostname u) as (u & Hu & ->).
  { unfold check_proxy in Ec. destruct (parse_url proxyURL) as [u|]; [|discriminate]. exists u. split; [reflexivity|].
    repeat case_match; try discriminate; by injection Ec. }
  intros [= <-]. cbn [t_policy t_dialPolicy]. unfold allowsHost at 2. destruct (AllowedHosts p) as [|h l] eqn:Eh; [auto|].
  split_and!; [done|done|]. unfold allowsHost. cbn [AllowedHosts app].
  change (h :: l ++ [Hostname u]) with ((h :: l) ++ [Hostname u]). rewrite existsb_app, orb_true_iff.
  intros [H|H]; [by left|]. right. exists u. split; [done|]. cbn [existsb] in H. by rewrite orb_false_r in H.
Qed.

(** (C21) No connection leaves the boundary.  Whatever the resolver and the
    parsers answer, a dial through a transport of the policy is refused or goes
    to a host that is not denied and is allow-listed (or is the configured
    proxy), and every address it tries is permitted: public, or loopback when
    the policy allows it and the host is spelled as loopback, and clear of the
    operator's deny list even through NAT64 and 6to4.  A name that earned the
    loopback exemption connects to loopback only. *)
Theorem dial_safe p target proxyURL t split lookup addr ips :
  (forall host l, lookup host = Some l -> Forall (Forall (fun b => 0 <= b < 256)) l) ->
  NewTransport ParseAddr parse_url p target proxyURL = inl t ->
  dial ParseAddr t split lookup addr = inl ips ->
  exists host, split addr = Some host /\ deniedHost p host = false
    /\ (allowsHost p host = true
        \/ exists u, parse_url proxyURL = Some u /\ EqualFold (trim_dot (TrimSpace (Hostname u))) (ToLower (trim_dot host)) = true)
    /\ Forall (fun ip => permitted p (AllowLoopback p && isLoopbackHost ParseAddr host) ip) ips
    /\ (ParseAddr host = None -> AllowLoopback p && isLoopbackHost ParseAddr host = true -> Forall (fun ip => IsLoopback ip = true) ips).
Proof using parsed_wf.
  intros Hbytes Ht. unfold dial. destruct (split addr) as [host|]; [|discriminate].
  destruct (dialPolicy_hosts _ _ _ _ host Ht) as (Hp & Hc & Ha). rewrite Hp.
  destruct (deniedHost p host) eqn:Hden; [discriminate|]. destruct (allowsHost (t_dialPolicy t) host) eqn:Hal; [|discriminate]. cbn [negb].
  intros Hd. exists host. split; [reflexivity|]. split; [exact Hden|]. split; [by apply Ha|].
  set (allow := AllowLoopback p && isLoopbackHost ParseAddr host) in *.
  destruct (ParseAddr host) as [ip|] eqn:Epa.
  { destruct (deniedIP p ip); [discriminate|]. destruct (ipBlocked p ip allow) eqn:Eb; [discriminate|]. injection Hd as <-.
    split; [|discriminate]. constructor; [|constructor]. apply ipBlocked_permitted; [|exact Eb]. exact (parsed_wf _ _ Epa). }
  destruct (lookup host) as [[|x l]|] eqn:El; [discriminate| |discriminate].
  specialize (Hbytes _ _ El). revert Hd Hbytes. generalize (x :: l). intros answers Hd Hbytes.
  unfold checkDialAnswers in Hd.
  destruct (forallb (fun ip => negb (negb (IsValid ip) || ipBlocked (t_dialPolicy t) ip allow)) (map AddrFromSlice answers)) eqn:E1; [|discriminate].
  cbn [andb] in Hd. destruct (negb allow || forallb IsLoopback (map AddrFromSlice answers)) eqn:E2; [|discriminate]. injection Hd as <-.
  rewrite forallb_forall in E1. rewrite Forall_forall in Hbytes. split.
  - apply Forall_forall. intros ip (b & -> & Hb)%list_elem_of_fmap. apply permitted_unmap.
    specialize (E1 (AddrFromSlice b) ltac:(apply list_elem_of_In; by apply list_elem_of_fmap_2)).
    apply negb_true_iff, orb_false_iff in E1 as [_ E1]. apply ipBlocked_permitted in E1; [|apply slice_wf; by apply Hbytes].
    unfold permitted in E1. by rewrite Hc in E1.
  - intros _ Hallow. rewrite Hallow in E2. cbn [negb orb] in E2. rewrite forallb_forall in E2.
    apply Forall_forall. intros ip (b & -> & Hb)%list_elem_of_fmap.
    specialize (E2 (AddrFromSlice b) ltac:(apply list_elem_of_In; by apply list_elem_of_fmap_2)).
    unfold dial_addr, IsLoopback in *. destruct (AddrFromSlice b) as [|a|a z]; [exact E2|exact E2|]. cbn [Unmap] in *.
    destruct (Is4In6 (V6 a z)) eqn:Em; [exact E2|]. cbn [Unmap]. by rewrite Em.
Qed.
End dial.

(** ** Examples *)

Lemma blocked_exact_witness :
  (IsLoopback (canonical (V4 (from4 8 8 8 8))) = true /\ false = true) \/ public (V4 (from4 8 8 8 8)).
Proof. apply (blocked_exact (V4 (from4 8 8 8 8)) false); [unfold addr_wf, from4; lia|by vm_compute]. Defined.

(** The NAT64 form of the metadata address [169.254.169.254] is blocked. *)
Example nat64_metadata_blocked : blocked (V6 (group6 [100; 65435; 0; 0; 0; 0; 43518; 43518]) "") true = true.
Proof. by vm_compute. Qed.

Definition example_policy : Policy := mkPolicy [] false [] [net4 93 184 0 0 16].
Definition example_url (s : string) : option URL := Some (mkURL "https" "api.example.com" "api.example.com" false "" "").
Lemma dial_safe_witness :
  exists host, host = "api.example.com"
    /\ Forall (fun ip => permitted example_policy (AllowLoopback example_policy && isLoopbackHost (fun _ => None) host) ip) [V4 (from4 8 8 8 8)].
Proof.
  destruct (dial_safe (fun _ => None) example_url ltac:(discriminate) example_policy "https://api.example.com" "" (mkTransport example_policy example_policy)
    (fun s => Some s) (fun _ => Some [[8; 8; 8; 8]]) "api.example.com" [V4 (from4 8 8 8 8)]) as (host & H1 & _ & _ & H2 & _).
  - intros host l [= <-]. constructor; [|constructor]. repeat constructor; lia.
  - by vm_compute.
  - by vm_compute.
  - injection H1 as <-. exact (ex_intro _ "api.example.com" (conj eq_refl H2)).
Defined.
