(* ===== verification/EngineProofs.v ===== *)
(** * What the workflow engine guarantees

    Histories of engine calls on one store: every call runs in an environment of
    its own, may be interleaved with other engines on the same store and may be
    cut short by the end of the process, after which the process's memory is gone
    and the store is what was stored.  Over all of them: nothing that finished is
    revived and side effects happen at most once per attempt, counting the calls
    of all engines.  The rest of the file is about
    single operations: when a node is dispatched or skipped, what the outcome of
    a run means, what cancelling a run does, and three behaviours of the code
    that differ from its documentation. *)

From S2P Require Import Prelude Hash Text Authz Workflow FlowStore FlowProofs Redact Engine EngineLogic.

(** ** Histories *)

Inductive Call :=
| CCreate (pub : PublishedDefinition) (principal : Identity) (input : Payload) (key : string)
| CExecute (fuel : nat) (runID : string)
| CDecide (runID nodeID approver decision : string)
| CCancel (runID : string)
| CForce (runID code msg : string)
| CRecover.

Definition call (env : Env) (lib : Lib) (e : Engine) (c : Call) : M unit :=
  match c with
  | CCreate pub principal input key => CreateRun env lib e pub principal input key;; mret tt
  | CExecute fuel runID => Execute env lib e fuel runID;; mret tt
  | CDecide runID nodeID approver decision => DecideApproval env e runID nodeID approver decision;; mret tt
  | CCancel runID => CancelRun env runID;; mret tt
  | CForce runID code msg => ForceFailRun env runID code msg;; mret tt
  | CRecover => Recover env e
  end.
(** The end of the process takes its memory with it. *)
Definition after (r : St * Res unit) : St :=
  match r with
  | (st, Crash) => mkSt 0 (mkShared (store (sh st)) ∅ ∅ (peers (sh st))) (log st)
  | (st, _) => mkSt 0 (sh st) (log st)
  end.
Definition history (lib : Lib) (cs : list (Env * Engine * Call)) (st : St) : St :=
  fold_left (fun st c => after (call c.1.1 lib c.1.2 c.2 st)) cs st.

Lemma after_store r : store (sh (after r)) = store (sh r.1) /\ log (after r) = log r.1.
Proof. by destruct r as [st []]. Qed.

Lemma follows_call env lib e c : (forall n s, keeps (store s) (store (others env n s))) -> follows (call env lib e c).
Proof.
  intros Ho. destruct c; cbn [call]; try (apply follows_bind; [|intros; apply follows_ret]).
  - by apply follows_createrun.
  - by apply follows_execute.
  - by apply follows_decide.
  - by apply follows_cancel.
  - by apply follows_force.
  - by apply follows_recover.
Qed.

Lemma history_keeps lib cs : Forall (fun c : Env * Engine * Call => forall n s, keeps (store s) (store (others c.1.1 n s))) cs ->
  forall st, keeps (store (sh st)) (store (sh (history lib cs st))).
Proof.
  induction 1 as [|[[env e] c] cs Hc _ IH]; intros st; cbn [history fold_left]; [apply keeps_same|].
  eapply keeps_trans; [|apply IH]. cbn [fst snd]. destruct (after_store (call env lib e c st)) as [-> _]. by apply follows_call.
Qed.

Section at_most_once.
Context (lib : Lib) (reg : Registry) (R : string) (D : Definition_).

(** The engine of the call has this registry, the other actors act as engines with
    that registry do ([peer_step]), and a node with side effects does not itself
    answer that it needs an approval. *)
Definition call_ok (c : Env * Engine * Call) : Prop :=
  registry c.1.2 = reg
  /\ (forall n s, reach reg R D (store s, peers s) (store (others c.1.1 n s), peers (others c.1.1 n s)))
  /\ forall n spec rc err ne, has_effects spec = true -> run_node c.1.1 n spec rc = inr err -> re_Node err = Some ne -> gate_code (ne_Code ne) = false.
(** The calls of all engines. *)
Definition all_calls (st : St) : list Event := log st ++ p_ran (peers (sh st)).
Abbreviation Inv st := (Pinv reg R D (store (sh st)) (joint (log st) (peers (sh st)))).

Lemma call_inv env e c st : call_ok (env, e, c) -> Inv st -> fits (store (sh (call env lib e c st).1)) -> Inv (call env lib e c st).1.
Proof.
  intros (Hreg & Hoth & Heff) HI Hf. cbn [fst snd] in *. subst reg.
  assert (safe e R D (call env lib e c)) as [_ Hs]; [|by apply (Hs st HI I Hf)].
  destruct c; cbn [call]; try (apply safe_bind; [|intros; by apply spec_ret]).
  - by apply safe_tame, tame_createrun.
  - by apply safe_execute.
  - by apply safe_tame, tame_decide.
  - by apply safe_tame, tame_cancel.
  - by apply safe_tame, tame_force.
  - by apply safe_recover.
Qed.
Lemma after_peers r : peers (sh (after r)) = peers (sh r.1).
Proof. by destruct r as [st []]. Qed.
Lemma call_ok_keeps cs : Forall call_ok cs -> Forall (fun c : Env * Engine * Call => forall n s, keeps (store s) (store (others c.1.1 n s))) cs.
Proof. intros H. eapply Forall_impl; [exact H|]. intros c (_ & Ho & _) n s. exact (reach_keeps _ _ _ _ _ (Ho n s)). Qed.

Lemma history_inv cs : Forall call_ok cs -> forall st, Inv st -> fits (store (sh (history lib cs st))) -> Inv (history lib cs st).
Proof.
  induction 1 as [|[[env e] c] cs Hc Hcs IH]; intros st HI Hf; [done|]. cbn [history fold_left fst snd] in *.
  destruct (after_store (call env lib e c st)) as [Es El]. pose proof (after_peers (call env lib e c st)) as Ep.
  assert (fits (store (sh (call env lib e c st).1))) as Hf1.
  { rewrite <- Es. eapply fits_keeps; [|exact Hf]. apply history_keeps. by apply call_ok_keeps. }
  apply IH; [|exact Hf]. rewrite Es, El, Ep. by apply call_inv.
Qed.

Lemma start_inv s k0 run :
  store_ok s k0 -> fits s -> runs s !! R = Some run -> r_Definition run = D ->
  (forall x, In x (rows s R) -> x_State x = NodeRunning -> x_Dispatched x = true) -> Pinv reg R D s (joint [] nobody).
Proof.
  intros Hok Hf Hr Hd Hrows. split; try done; [by eapply store_ok_fits|eauto|intros; cbn; lia|].
  intros n k x (i & Hi & _) Hst. apply Hrows; [|done]. apply list_elem_of_In. by eapply list_elem_of_lookup_2.
Qed.
End at_most_once.

(** (C1) Across every history of engine calls on a stored run, each of which may be cut
    short by the end of the process at any step, and with other engines working on the
    same run in between any two steps, each attempt of a node with side effects calls
    the node's [Run] function at most once, counting the calls of all engines.  The
    others may claim, record a dispatch out of the claimed state and then make its call
    once, give back what a gate refused before the call, record outcomes, retry, cancel,
    force-fail, decide approvals, recover, and end at any point ([peer_step]); like the
    engine itself they put an attempt with side effects back only out of the pending,
    claimed or waiting state or when a gate refused the dispatch they had recorded, and
    they do not delete the run (retention).  All engines have the same registry, and no [Run]
    function with side effects answers that it needs an approval or an operator policy.
    At the start nothing of the run was called, its running attempts are recorded as
    dispatched, and no run ever has 2^62 attempt rows. *)
Theorem side_effect_once lib reg R run k0 st0 cs n k :
  store_ok (store (sh st0)) k0 -> runs (store (sh st0)) !! R = Some run ->
  (forall x, In x (rows (store (sh st0)) R) -> x_State x = NodeRunning -> x_Dispatched x = true) -> log st0 = [] -> peers (sh st0) = nobody ->
  Forall (call_ok reg R (r_Definition run)) cs -> fits (store (sh (history lib cs st0))) ->
  side_effecting reg (r_Definition run) n = true -> (ran R (all_calls (history lib cs st0)) n k <= 1)%nat.
Proof.
  intros Hok Hr Hrows Hlog Hpe Hcs Hf Hs. pose proof (call_ok_keeps _ _ _ _ Hcs) as Hkeep.
  assert (Pinv reg R (r_Definition run) (store (sh (history lib cs st0))) (joint (log (history lib cs st0)) (peers (sh (history lib cs st0))))) as HP;
    [|by apply (pi_once _ _ _ _ _ HP)].
  apply history_inv; [done| |done]. rewrite Hlog, Hpe. eapply start_inv; [done| |done|done|done]. eapply fits_keeps; [|exact Hf].
  by apply history_keeps.
Qed.

(** Nothing that ended is revived: across every history of engine calls, with
    other actors that keep what was decided, and wherever the process ends, a
    finished run keeps its state, every attempt row keeps its place and node and
    a finished one its state, and a recorded approval stands. *)
Theorem engine_never_revives lib cs st :
  Forall (fun c : Env * Engine * Call => forall n s, keeps (store s) (store (others c.1.1 n s))) cs ->
  let s := store (sh st) in
  let s' := store (sh (history lib cs st)) in
  (forall id r, getRun s id = inl r -> exists r', getRun s' id = inl r' /\ (run_Terminal (r_State r) = true -> r_State r' = r_State r))
  /\ (forall id i x, rows s id !! i = Some x -> exists x', rows s' id !! i = Some x' /\ x_NodeID x' = x_NodeID x /\ (node_Terminal (x_State x) = true -> x_State x' = x_State x))
  /\ (forall runID nodeID a, getApproval s runID nodeID = inl a -> getApproval s' runID nodeID = inl a).
Proof.
  intros Hc s s'. destruct (history_keeps lib cs Hc st) as [H1 H2 H3]. fold s s' in H1, H2, H3. split_and!; [|exact H2|].
  - intros id r. unfold getRun. destruct (runs s !! id) as [r0|] eqn:E; [|done]. intros [= <-].
    destruct (H1 id r0 E) as (r' & -> & Ht). eauto.
  - intros runID nodeID a. unfold getApproval. destruct (approvals s !! _) as [a'|] eqn:E; [|done]. intros [= <-]. by rewrite (H3 _ _ E).
Qed.

(** ** Samples *)

Definition plain_lib : Lib :=
  mkLib (fun code _ => code) (fun s => s) (fun _ => "store error") (fun _ => 1) (fun _ => 1) (fun a b => bool_decide (length a = length b)).
(** Nobody else acts and no context ends. *)
Definition alone (clock : nat -> Time) (crash : nat -> bool) (run_node : nat -> NodeSpec -> RunContext -> option Payload + RunError) : Env :=
  mkEnv clock crash (fun _ s => s) (fun _ => false) (fun _ => None) run_node (fun _ => Some [1; 2]) (fun _ => (0%nat, false)) (fun A _ l => l) (fun A _ l => reflexivity l).
Definition node_of (id category effect : string) (gate : bool) (attempts : Z) : NodeSpec :=
  mkSpec id "v1" category [] [] "" effect (mkRetry attempts ["timeout"; "rate_limited"]) Second (2 * Second) 100 100 gate true.
Definition node_specs : list (option NodeSpec) :=
  [Some (node_of "trigger.manual" "trigger" "none" false 1); Some (node_of "pay" "action" "billable" false 1);
   Some (node_of "gate" "action" "none" true 1); Some (node_of "flaky" "action" "read" false 3)].
Definition sample_registry : Registry := match NewRegistry node_specs with inr r => r | inl _ => ∅ end.
Definition flow_of (kind : string) : Definition_ :=
  mkDef "v1" "wf" "sample" [mkNode "start" "trigger.manual" "v1" [] None; mkNode "work" kind "v1" [] None] [mkEdge "e1" "start" "work" ""] [] (mkSettings 0 2 0).
Definition sample_engine : Engine := mkEngine sample_registry "w1" 4 (30 * Second) 0.
Definition created_run (kind : string) : Run := mkRun "r1" "wf" 1 (flow_of kind) RunCreated "" "alice" ["admin"] [] "" "" 0 0 0 0 "" 0.
Definition fresh_ops (kind : string) : list FlowOp :=
  [FlowStore.CreateRun (created_run kind) (Some RunCreated) 1;
   AppendNodeExecution (new_attempt "r1" "start" "initial") (Some NodePending) 2; AppendNodeExecution (new_attempt "r1" "work" "initial") (Some NodePending) 3].
Definition fresh (kind : string) : St := mkSt 0 (mkShared (flow_run sample_hash newStoreState (fresh_ops kind)) ∅ ∅ nobody) [].
Definition all_well (n : nat) (spec : NodeSpec) (rc : RunContext) : option Payload + RunError := inl (Some []).
Definition from (t : Time) (n : nat) : Time := t + Z.of_nat n.
Definition well (t : Time) : Env := alone (from t) (fun _ => false) all_well.
Definition crash_at (k : nat) (t : Time) : Env := alone (from t) (fun n => Nat.eqb n k) all_well.
(** The attempts and the state of the sample run. *)
Definition view (st : St) : list (string * Z * NodeState) * option RunState :=
  (map (fun x => (x_NodeID x, x_Attempt x, x_State x)) (rows (store (sh st)) "r1"), r_State <$> runs (store (sh st)) !! "r1").

Lemma new_store_ok : store_ok newStoreState 0.
Proof. split; try done. intros k id. split; [|intros [_ (r & Hr & _)]]; done. Qed.
Lemma fits_nodes s : map_Forall (fun _ l => Z.of_nat (length l) < 2 ^ 62) (nodes s) -> fits s.
Proof. intros H id. unfold rows. destruct (nodes s !! id) as [l|] eqn:E; [by apply (H id l)|cbn; lia]. Qed.
Lemma not_running_rows l : forallb (fun x => negb (bool_decide (x_State x = NodeRunning))) l = true -> forall x, In x l -> x_State x = NodeRunning -> x_Dispatched x = true.
Proof. rewrite forallb_forall. intros H x Hx Hs. specialize (H x Hx). by rewrite bool_decide_eq_true_2 in H. Qed.

(** The process ends right after the billable node acted; a later process
    recovers the run and executes it again. *)
Definition interrupted : list (Env * Engine * Call) :=
  [(crash_at 27 100, sample_engine, CExecute 10 "r1"); (well (100 * Second), sample_engine, CRecover); (well (101 * Second), sample_engine, CExecute 10 "r1")].

(** Another engine, [w2], takes the billable node as soon as it can: it claims it,
    records the dispatch and makes the call. *)
Definition peer_dispatches (t : Time) (s : Shared) : Shared :=
  let claim := TryClaim "r1" "work" "w2" Second t in
  let s1 := flow_step sample_hash (store s) claim in
  match (tryClaim (store s) "r1" "work" "w2" Second t).2 with
  | inl (Some x) =>
      let exec := x <| x_State := NodeRunning |> <| x_Dispatched := true |> <| x_RunID := "r1" |> in
      match saveNodeExecution s1 exec (Some NodeClaimed) t with
      | (s2, inl _) => s <| store := s2 |> <| peers := mkPeers ((p_held (peers s) ∪ {[held_of "r1" exec]}) ∖ {[held_of "r1" exec]})
                                                         (p_ran (peers s) ++ [Ran "r1" (x_NodeID exec) (x_Attempt exec)]) |>
      | _ => s
      end
  | _ => s
  end.
Lemma peer_dispatches_reach reg D t s : reach reg "r1" D (store s, peers s) (store (peer_dispatches t s), peers (peer_dispatches t s)).
Proof.
  unfold peer_dispatches. cbv zeta. destruct ((tryClaim (store s) "r1" "work" "w2" Second t).2) as [[x|]|]; try apply rtc_refl.
  set (exec := x <| x_State := NodeRunning |> <| x_Dispatched := true |> <| x_RunID := "r1" |>).
  destruct (saveNodeExecution _ exec (Some NodeClaimed) t) as [s2 [y|]] eqn:E; [|apply rtc_refl].
  eapply rtc_l; [by apply (ps_op _ _ _ sample_hash (TryClaim "r1" "work" "w2" Second t))|].
  eapply rtc_l; [eapply (ps_dispatch _ _ _ _ (peers s) exec t s2 y); [done|done|done|exact E]|].
  eapply rtc_l; [apply (ps_call _ _ _ s2 (mkPeers (p_held (peers s) ∪ {[held_of "r1" exec]}) (p_ran (peers s))) (x_NodeID exec) (x_Attempt exec)); cbn; set_solver|].
  apply rtc_refl.
Qed.
Definition raced (t : Time) : Env :=
  mkEnv (from t) (fun _ => false) (fun n s => if Nat.eqb n 18 then peer_dispatches (from t n) s else s) (fun _ => false) (fun _ => None) all_well
    (fun _ => Some [1; 2]) (fun _ => (0%nat, false)) (fun A _ l => l) (fun A _ l => reflexivity l).
Definition race : list (Env * Engine * Call) := [(raced 100, sample_engine, CExecute 10 "r1")].

Lemma sample_calls_ok cs reg D : Forall (fun c : Env * Engine * Call => registry c.1.2 = reg
    /\ (forall n s, others c.1.1 n s = s \/ exists t, others c.1.1 n s = peer_dispatches t s) /\ run_node c.1.1 = all_well) cs -> Forall (call_ok reg "r1" D) cs.
Proof.
  intros H. eapply Forall_impl; [exact H|]. intros c (H1 & H2 & H3). split; [exact H1|]. split; [|by rewrite H3].
  intros n s. destruct (H2 n s) as [->|[t ->]]; [apply rtc_refl|apply peer_dispatches_reach].
Qed.
Lemma side_effect_once_witness :
  ((ran "r1" (all_calls (history plain_lib interrupted (fresh "pay"))) "work" 0 <= 1)%nat
   /\ ran "r1" (log (history plain_lib interrupted (fresh "pay"))) "work" 0 = 1%nat
   /\ view (history plain_lib interrupted (fresh "pay"))
      = ([("start", 0, NodeSucceeded); ("work", 0, NodeNeedsManualAction)], Some RunNeedsManualAction))
  /\ (ran "r1" (all_calls (history plain_lib race (fresh "pay"))) "work" 0 <= 1)%nat
  /\ p_ran (peers (sh (history plain_lib race (fresh "pay")))) = [Ran "r1" "work" 0].
Proof.
  assert (forall cs, Forall (call_ok sample_registry "r1" (flow_of "pay")) cs -> fits (store (sh (history plain_lib cs (fresh "pay")))) ->
    (ran "r1" (all_calls (history plain_lib cs (fresh "pay"))) "work" 0 <= 1)%nat) as H.
  { intros cs Hcs Hf.
    apply (side_effect_once plain_lib sample_registry "r1" (created_run "pay" <| r_CreatedAt := 1 |> <| r_UpdatedAt := 1 |>) (0 + Z.of_nat (length (fresh_ops "pay")))).
    - apply FlowProofs.run_ok; [exact new_store_ok|done|done].
    - vm_compute. reflexivity.
    - apply not_running_rows. vm_compute. reflexivity.
    - reflexivity.
    - reflexivity.
    - exact Hcs.
    - exact Hf.
    - vm_compute. reflexivity. }
  split; [split; [apply H|split; vm_compute; reflexivity]|split; [apply H|vm_compute; reflexivity]].
  - apply sample_calls_ok. repeat apply Forall_cons_2; [..|by apply Forall_nil_2]; (split; [reflexivity|split; [intros; by left|reflexivity]]).
  - apply fits_nodes. apply (bool_decide_eq_true_1 _). vm_compute. reflexivity.
  - apply sample_calls_ok. repeat apply Forall_cons_2; [|by apply Forall_nil_2]. split; [reflexivity|]. split; [|reflexivity].
    intros n s. cbn [fst snd raced others]. destruct (Nat.eqb n 18); [right; eauto|by left].
  - apply fits_nodes. apply (bool_decide_eq_true_1 _). vm_compute. reflexivity.
Defined.

Lemma engine_never_revives_witness :
  let st := history plain_lib [(well 100, sample_engine, CExecute 10 "r1")] (fresh "pay") in
  (exists r', getRun (store (sh (history plain_lib [(well 200, sample_engine, CCancel "r1"); (crash_at 3 300, sample_engine, CExecute 5 "r1")] st))) "r1" = inl r'
     /\ r_State r' = RunSucceeded).
Proof.
  intros st. assert (exists r, getRun (store (sh st)) "r1" = inl r /\ r_State r = RunSucceeded) as (r & E & Es) by (vm_compute; eauto).
  destruct (engine_never_revives plain_lib [(well 200, sample_engine, CCancel "r1"); (crash_at 3 300, sample_engine, CExecute 5 "r1")] st) as (H & _ & _).
  { repeat apply Forall_cons_2; [..|by apply Forall_nil_2]; intros n s; apply keeps_same. }
  destruct (H "r1" r E) as (r' & Hr' & Ht). exists r'. split; [exact Hr'|]. rewrite Es in Ht. by apply Ht.
Defined.

(** ** When a node is dispatched *)

(** An edge fired and its source succeeded. *)
Definition satisfied (current : gmap string NodeExecution) (outputs : list (string * Payload)) (edge : DefinitionEdge) : Prop :=
  edgeFired edge outputs = true /\ exists src, current !! e_From edge = Some src /\ x_State src = NodeSucceeded.
(** The source of the edge is settled, or parked on an edge that fired. *)
Definition resolved (current : gmap string NodeExecution) (outputs : list (string * Payload)) (edge : DefinitionEdge) : Prop :=
  exists src, current !! e_From edge = Some src
    /\ (node_Terminal (x_State src) = true \/ edgeFired edge outputs = true /\ x_State src = NodeNeedsManualAction).

Lemma readiness_loop_spec current outputs edges : forall vote,
  let r := readiness_loop edges current outputs vote in
  (r.1 = true <-> vote = false /\ Forall (satisfied current outputs) edges)
  /\ (r.2 = true <-> Forall (resolved current outputs) edges /\ (vote = true \/ Exists (fun edge => ~ satisfied current outputs edge) edges)).
Proof.
  induction edges as [|edge edges IH]; intros vote; cbn.
  { rewrite !Forall_nil, Exists_nil. destruct vote; cbn; naive_solver. }
  rewrite !Forall_cons, Exists_cons. unfold satisfied at 1 3, resolved at 1.
  destruct (current !! e_From edge) as [src|] eqn:Ec; cbn [fst snd].
  2:{ naive_solver. }
  assert (forall P : NodeExecution -> Prop, (exists s, Some src = Some s /\ P s) <-> P src) as Hex.
  { intros P. split; [intros (s & [= <-] & H); exact H|eauto]. }
  rewrite !Hex. specialize (IH true) as IHt. specialize (IH vote) as IHv. cbn in IHt, IHv.
  destruct (edgeFired edge outputs) eqn:Ef; cbn [negb].
  all: clear IH Hex; destruct (x_State src); cbn [node_Terminal fst snd] in *.
  all: match goal with |- context [?b = true /\ ?s = NodeSucceeded] =>
         assert ((b = true /\ s = NodeSucceeded) \/ ~ (b = true /\ s = NodeSucceeded)) as Hd by (first [left; by split|right; by intros [? ?]]) end.
  all: intuition (try congruence).
Qed.

(** The conditions the code checks. *)
Lemma join_exact (def : Definition_) (nodeID : string) (current : gmap string NodeExecution) (outputs : list (string * Payload)) :
  let edges := incomingEdges def nodeID in
  let r := nodeReadiness def nodeID current outputs in
  (r.1 = true <-> Forall (satisfied current outputs) edges)
  /\ (r.2 = true <-> Forall (resolved current outputs) edges /\ Exists (fun edge => ~ satisfied current outputs edge) edges)
  /\ (r.1 && r.2 = false).
Proof.
  intros edges r. subst r. unfold nodeReadiness. fold edges. clearbody edges. destruct edges as [|edge edges].
  { cbn. split_and!; [split; [constructor|done]|split; [done|intros [_ H]; by inversion H]|done]. }
  destruct (readiness_loop_spec current outputs (edge :: edges) false) as [H1 H2]. cbv zeta in H1, H2. set (r := readiness_loop _ _ _ _) in *.
  split_and!; [rewrite H1; naive_solver|rewrite H2; naive_solver|].
  destruct r as [[] []]; try done. exfalso. destruct H1 as [H1 _]. destruct (H1 eq_refl) as [_ Ha]. destruct H2 as [H2 _].
  destruct (H2 eq_refl) as [_ [|He]]; [done|]. apply Exists_exists in He as (x & Hx & Hn). rewrite Forall_forall in Ha. by apply Hn, Ha.
Qed.

(** *** The rule as it is documented ([docs/nexaflow/RUNTIME.md]) *)

(** An unlabelled edge always fires; a labelled one when its source's output selects
    the label. *)
Definition fires (outputs : list (string * Payload)) (edge : DefinitionEdge) : Prop :=
  e_Branch edge = "" \/ exists out, assoc (e_From edge) outputs = Some out /\ assoc "selected_branch" out = Some (VString (e_Branch edge)).
Definition source_in (current : gmap string NodeExecution) (edge : DefinitionEdge) (P : NodeState -> Prop) : Prop :=
  exists src, current !! e_From edge = Some src /\ P (x_State src).
Definition edge_succeeded current outputs edge : Prop := fires outputs edge /\ source_in current edge (fun s => s = NodeSucceeded).
(** The source succeeded, failed, was cancelled or skipped, or is parked. *)
Definition edge_resolved current edge : Prop :=
  source_in current edge (fun s => s ∈ [NodeSucceeded; NodeFailed; NodeCancelled; NodeSkipped; NodeNeedsManualAction]).
(** An edge from a parked source whose label was not selected. *)
Definition edge_parked_unfired current outputs edge : Prop := ~ fires outputs edge /\ source_in current edge (fun s => s = NodeNeedsManualAction).

Lemma edgeFired_fires outputs edge : edgeFired edge outputs = true <-> fires outputs edge.
Proof.
  unfold edgeFired, fires. destruct (String.eqb_spec (e_Branch edge) "") as [->|Hb]; [naive_solver|].
  destruct (assoc (e_From edge) outputs) as [out|]; [|naive_solver].
  destruct (assoc "selected_branch" out) as [[]|] eqn:E; try (split; [done|naive_solver]). rewrite String.eqb_eq. naive_solver.
Qed.
#[local] Instance fires_dec outputs edge : Decision (fires outputs edge).
Proof. destruct (edgeFired edge outputs) eqn:E; [left; by apply edgeFired_fires|right; intros H%edgeFired_fires; congruence]. Defined.
Lemma satisfied_documented current outputs edge : satisfied current outputs edge <-> edge_succeeded current outputs edge.
Proof. unfold satisfied, edge_succeeded, source_in. by rewrite edgeFired_fires. Qed.
Lemma resolved_documented current outputs edge : resolved current outputs edge <-> edge_resolved current edge /\ ~ edge_parked_unfired current outputs edge.
Proof.
  unfold resolved, edge_resolved, edge_parked_unfired, source_in. setoid_rewrite edgeFired_fires.
  destruct (current !! e_From edge) as [src|]; [|naive_solver].
  assert (forall P : NodeExecution -> Prop, (exists y, Some src = Some y /\ P y) <-> P src) as Hex by naive_solver. rewrite !Hex, !elem_of_cons, elem_of_nil.
  destruct (decide (fires outputs edge)); destruct (x_State src); cbn; naive_solver.
Qed.

(** (C28) The join follows the documented rule.  A node is dispatched just when every
    incoming edge fired and its source succeeded.  It is skipped just when all its
    incoming edges are resolved (their sources succeeded, failed, were cancelled,
    skipped or parked) and at least one of them did not fire from a success, with one
    exception: while a labelled edge that was not selected comes from a parked
    source the node is neither dispatched nor skipped.  The node is never both. *)
Theorem readiness_exact (def : Definition_) (nodeID : string) (current : gmap string NodeExecution) (outputs : list (string * Payload)) :
  let edges := incomingEdges def nodeID in
  let '(ready, skip) := nodeReadiness def nodeID current outputs in
  (ready = true <-> Forall (edge_succeeded current outputs) edges)
  /\ (skip = true <-> Forall (edge_resolved current) edges /\ Exists (fun edge => ~ edge_succeeded current outputs edge) edges
                     /\ ~ Exists (edge_parked_unfired current outputs) edges)
  /\ (Exists (edge_parked_unfired current outputs) edges -> ready = false /\ skip = false)
  /\ ready && skip = false.
Proof.
  cbv zeta. pose proof (join_exact def nodeID current outputs) as (H1 & H2 & H3). cbv zeta in H1, H2, H3.
  destruct (nodeReadiness def nodeID current outputs) as [ready skip]. cbn [fst snd] in *. set (edges := incomingEdges def nodeID) in *.
  assert (ready = true <-> Forall (edge_succeeded current outputs) edges) as R1.
  { rewrite H1, !Forall_forall. by setoid_rewrite satisfied_documented. }
  assert (skip = true <-> Forall (edge_resolved current) edges /\ Exists (fun edge => ~ edge_succeeded current outputs edge) edges
    /\ ~ Exists (edge_parked_unfired current outputs) edges) as R2.
  { rewrite H2, !Forall_forall, !Exists_exists. setoid_rewrite resolved_documented. setoid_rewrite satisfied_documented. naive_solver. }
  split_and!; [exact R1|exact R2| |exact H3].
  intros He. split; apply not_true_iff_false; [rewrite R1|rewrite R2; tauto].
  intros Hs. apply Exists_exists in He as (edge & Hin & Hnf & _). rewrite Forall_forall in Hs. by destruct (Hs edge Hin).
Qed.

(** ** What the state of a run says *)

(** The current attempts that the engine can still move. *)
Definition runnable (def : Definition_) (current : gmap string NodeExecution) (x : NodeExecution) : bool :=
  match x_State x with
  | NodeClaimed | NodeRunning => true
  | NodePending => let r := nodeReadiness def (x_NodeID x) current (outputs_of current) in fst r || snd r
  | _ => false
  end.
(** The state of a running run whose current attempts are these. *)
Definition outcome (def : Definition_) (current : gmap string NodeExecution) : RunState :=
  if bool_decide (map_Exists (fun _ x => x_State x = NodeNeedsManualAction) current) then RunNeedsManualAction
  else if bool_decide (map_Forall (fun _ x => node_Terminal (x_State x) = true) current)
  then if bool_decide (map_Exists (fun _ x => x_State x = NodeFailed) current) then RunFailed else RunSucceeded
  else if bool_decide (map_Exists (fun _ x => x_State x = NodeWaiting) current) && bool_decide (map_Forall (fun _ x => runnable def current x = false) current)
  then RunWaitingForApproval else RunRunning.

Definition has (p : NodeExecution -> bool) (l : list (string * NodeExecution)) : bool := existsb (fun kv => p kv.2) l.
Definition in_state (st : NodeState) (x : NodeExecution) : bool := bool_decide (x_State x = st).

Lemma tally_flags def current l : forall t,
  let t' := fold_left (tally_one def current) l t in
  anyParked t' = anyParked t || has (in_state NodeNeedsManualAction) l /\ anyFailed t' = anyFailed t || has (in_state NodeFailed) l
  /\ anyWaiting t' = anyWaiting t || has (in_state NodeWaiting) l /\ hasRunnable t' = hasRunnable t || has (runnable def current) l
  /\ allTerminal t' = allTerminal t && negb (has (fun x => negb (node_Terminal (x_State x))) l).
Proof.
  induction l as [|[id x] l IH]; intros t; cbn [fold_left].
  { cbn. by rewrite !orb_false_r, andb_true_r. }
  destruct (IH (tally_one def current t (id, x))) as (-> & -> & -> & -> & ->). unfold tally_one, has. cbn [existsb snd]. unfold in_state, runnable.
  destruct (x_State x) eqn:Es; cbn [node_Terminal negb]; repeat (case_bool_decide; try congruence).
  1: destruct (nodeReadiness _ _ _ _) as [[] []]; cbn.
  all: cbn; rewrite ?orb_true_r, ?orb_false_r, ?andb_false_r, ?andb_true_r, ?orb_assoc, ?andb_assoc; split_and!; try done.
  all: by destruct (has _ l).
Qed.

Lemma has_exists p (current : gmap string NodeExecution) (P : NodeExecution -> Prop) l :
  l ≡ₚ map_to_list current -> (forall x, p x = true <-> P x) -> has p l = true <-> map_Exists (fun _ x => P x) current.
Proof.
  intros Hl Hp. unfold has. rewrite existsb_exists. setoid_rewrite <- list_elem_of_In. split.
  - intros ([id x] & Hin & Hx). rewrite Hl in Hin. apply elem_of_map_to_list in Hin. exists id, x. split; [done|by apply Hp].
  - intros (id & x & Hin & Hx). exists (id, x). split; [rewrite Hl; by apply elem_of_map_to_list|by apply Hp].
Qed.
Lemma has_none p (current : gmap string NodeExecution) (P : NodeExecution -> Prop) l :
  l ≡ₚ map_to_list current -> (forall x, p x = false <-> P x) -> has p l = false <-> map_Forall (fun _ x => P x) current.
Proof.
  intros Hl Hp. rewrite <- not_true_iff_false, (has_exists p current (fun x => p x = true) l Hl) by done. split.
  - intros H id x Hx. apply Hp. destruct (p x) eqn:E; [|done]. exfalso. apply H. by exists id, x.
  - intros H (id & x & Hx & Ht). specialize (H id x Hx). apply Hp in H. congruence.
Qed.

(** The branch of [recomputeRunState], whatever the order of the attempts. *)
Lemma tally_outcome def current l : l ≡ₚ map_to_list current ->
  let t := tally def current l in
  (if anyParked t then RunNeedsManualAction else if anyFailed t && allTerminal t then RunFailed
   else if anyWaiting t && negb (hasRunnable t) then RunWaitingForApproval else if allTerminal t then RunSucceeded else RunRunning) = outcome def current.
Proof.
  intros Hl. unfold tally. destruct (tally_flags def current l (mkTally false false false true false None)) as (-> & -> & -> & -> & ->). cbn [anyParked anyFailed anyWaiting allTerminal hasRunnable orb andb].
  unfold outcome.
  assert (forall st, has (in_state st) l = bool_decide (map_Exists (fun _ x => x_State x = st) current)) as Hs.
  { intros st. apply eq_true_iff_eq. rewrite bool_decide_eq_true. apply has_exists; [done|]. intros x. apply bool_decide_eq_true. }
  assert (negb (has (fun x => negb (node_Terminal (x_State x))) l) = bool_decide (map_Forall (fun _ x => node_Terminal (x_State x) = true) current)) as Ht.
  { apply eq_true_iff_eq. rewrite bool_decide_eq_true, negb_true_iff. apply has_none; [done|]. intros x. apply negb_false_iff. }
  assert (negb (has (runnable def current) l) = bool_decide (map_Forall (fun _ x => runnable def current x = false) current)) as Hr.
  { apply eq_true_iff_eq. rewrite bool_decide_eq_true, negb_true_iff. by apply has_none. }
  rewrite !Hs, Ht, Hr. destruct (bool_decide (map_Exists (fun _ x => x_State x = NodeNeedsManualAction) current)); [done|].
  destruct (bool_decide_reflect (map_Forall (fun _ x => node_Terminal (x_State x) = true) current)) as [HT|]; [|by rewrite andb_false_r].
  rewrite andb_true_r. destruct (bool_decide (map_Exists (fun _ x => x_State x = NodeFailed) current)); [done|].
  destruct (bool_decide_reflect (map_Exists (fun _ x => x_State x = NodeWaiting) current)) as [HW|]; [|done]. exfalso. destruct HW as (id & x & Hx & Hw). specialize (HT id x Hx). cbn in HT. by rewrite Hw in HT.
Qed.

(** *** While nobody else acts *)

Section quiet.
Context (env : Env) (Ho : forall n s, others env n s = s) (Hc : forall n, crash env n = false).

Lemma quiet_step n s lg : step env (mkSt n s lg) = (mkSt (S n) s lg, Val n).
Proof. unfold step. cbn. by rewrite Hc. Qed.
Lemma quiet_access {A} (f : nat -> Shared -> Shared * A) n s lg :
  access env f (mkSt n s lg) = (mkSt (S n) (f n s).1 lg, Val (f n s).2).
Proof. unfold access, mbind, M_bind. rewrite quiet_step. cbn. rewrite Ho. by destruct (f n s). Qed.
Lemma quiet_ranged {A} (l : list A) n s lg : ranged env l (mkSt n s lg) = (mkSt (S n) s lg, Val (range env n l)).
Proof. unfold ranged, mbind, M_bind. by rewrite quiet_step. Qed.
Lemma quiet_get {A} (f : storeState -> A + StoreError) n s lg :
  store_get env f (mkSt n s lg) = (mkSt (S n) s lg, match f (store s) with inl a => Val a | inr err => Exc (EStore err) end).
Proof. unfold store_get, mbind, M_bind. rewrite quiet_access. cbn. by destruct (f (store s)). Qed.
Lemma quiet_op {A} (f : Time -> storeState -> Outcome A) n s fl sem pe lg :
  store_op env f (mkSt n (mkShared s fl sem pe) lg) =
  (mkSt (S n) (mkShared (f (clock env n) s).1 fl sem pe) lg, match (f (clock env n) s).2 with inl a => Val a | inr err => Exc (EStore err) end).
Proof. unfold store_op, mbind, M_bind. rewrite quiet_access. cbn. destruct (f (clock env n) s) as [s' r]. cbn. by destruct r. Qed.
Lemma bind_val {A B} (m : M A) (f : A -> M B) st st' a : m st = (st', Val a) -> (m ≫= f) st = f a st'.
Proof. intros H. unfold mbind, M_bind. by rewrite H. Qed.
Lemma try_val {A} (m : M A) st st' a : m st = (st', Val a) -> try m st = (st', Val (inl a)).
Proof. intros H. unfold try. by rewrite H. Qed.

Lemma quiet_update s runID run state code msg n fl sem pe lg :
  runs s !! runID = Some run -> run_Terminal (r_State run) = false -> validRunTransition (r_State run) state = true ->
  UpdateState env runID None state code msg (mkSt n (mkShared s fl sem pe) lg) =
  (mkSt (S n) (mkShared (s <| runs := <[runID := move_run run state code msg (clock env n)]> (runs s) |>) fl sem pe) lg, Val (move_run run state code msg (clock env n))).
Proof. intros Hr Ht Hv. unfold UpdateState. rewrite quiet_op. unfold updateRunState. rewrite Hr, Ht, Hv. cbn. done. Qed.
End quiet.
Lemma move_run_state r state code msg now : r_State (move_run r state code msg now) = state.
Proof. unfold move_run. by repeat case_match. Qed.

Lemma settle_outcome (env : Env) (st : St) (runID : string) (run : Run) (rs : list NodeExecution) :
  (forall n s, others env n s = s) -> (forall n, crash env n = false) ->
  getRun (store (sh st)) runID = inl run -> r_State run = RunRunning -> getNodeExecutions (store (sh st)) runID = inl rs ->
  let st' := (recomputeRunState env runID st).1 in
  (recomputeRunState env runID st).2 = Val tt
  /\ (exists run', getRun (store (sh st')) runID = inl run' /\ r_State run' = outcome (r_Definition run) (currentAttempts rs))
  /\ nodes (store (sh st')) = nodes (store (sh st)).
Proof.
  intros Ho Hc Hr Hs Hn. destruct st as [n [s fl sem pe] lg]. cbn in Hr, Hn |- *.
  assert (runs s !! runID = Some run) as E by (unfold getRun in Hr; destruct (runs s !! runID); [by injection Hr as ->|done]).
  unfold recomputeRunState, GetRun, GetNodeExecutions. rewrite (bind_val _ _ _ _ run) by (rewrite quiet_get by done; cbn; by rewrite Hr). rewrite Hs. cbn [run_Terminal].
  rewrite (bind_val _ _ _ _ rs) by (rewrite quiet_get by done; cbn; by rewrite Hn). cbv zeta.
  rewrite (bind_val _ _ _ _ _ (quiet_ranged env Hc _ _ _ _)).
  rewrite <- (tally_outcome (r_Definition run) (currentAttempts rs) _ (range_perm env _ (S (S n)) _)). cbv zeta. set (t := tally _ _ _).
  assert (forall state code msg, validRunTransition RunRunning state = true ->
    let m := UpdateState env runID None state code msg;; mret tt in
    let st' := (m (mkSt (S (S (S n))) (mkShared s fl sem pe) lg)).1 in
    (m (mkSt (S (S (S n))) (mkShared s fl sem pe) lg)).2 = Val tt
    /\ (exists run', getRun (store (sh st')) runID = inl run' /\ r_State run' = state) /\ nodes (store (sh st')) = nodes s) as Hup.
  { intros state code msg Hv m st'. subst m st'. rewrite (bind_val _ _ _ _ _ (quiet_update env Ho Hc _ _ _ _ _ _ _ _ _ _ _ E ltac:(by rewrite Hs) ltac:(by rewrite Hs))).
    cbn. split_and!; [done| |done]. unfold getRun. cbn. rewrite lookup_insert_eq. eexists. split; [done|apply move_run_state]. }
  destruct (anyParked t); [by apply Hup|]. destruct (anyFailed t && allTerminal t); [destruct (firstFailed t); by apply Hup|].
  destruct (anyWaiting t && negb (hasRunnable t)); [by apply Hup|]. destruct (allTerminal t); [by apply Hup|].
  cbn. split_and!; [done| |done]. unfold getRun. rewrite E. eauto.
Qed.

(** The state a run is documented to have ([docs/nexaflow/RUNTIME.md], the table of
    outcomes): parked when an attempt is parked; when all attempts are finished,
    cancelled when one was cancelled, failed when one failed, and succeeded
    otherwise; waiting when an approval is awaited and the engine can move nothing;
    and running in all other cases. *)
Inductive documented (def : Definition_) (current : gmap string NodeExecution) : RunState -> Prop :=
| d_parked : map_Exists (fun _ x => x_State x = NodeNeedsManualAction) current -> documented def current RunNeedsManualAction
| d_cancelled : map_Forall (fun _ x => node_Terminal (x_State x) = true) current ->
    map_Exists (fun _ x => x_State x = NodeCancelled) current -> documented def current RunCancelled
| d_failed : map_Forall (fun _ x => node_Terminal (x_State x) = true) current ->
    map_Exists (fun _ x => x_State x = NodeFailed) current -> documented def current RunFailed
| d_succeeded : map_Forall (fun _ x => x_State x = NodeSucceeded \/ x_State x = NodeSkipped) current -> documented def current RunSucceeded
| d_waiting : map_Exists (fun _ x => x_State x = NodeWaiting) current -> map_Forall (fun _ x => runnable def current x = false) current ->
    map_Forall (fun _ x => x_State x <> NodeNeedsManualAction) current -> documented def current RunWaitingForApproval
| d_running : map_Exists (fun _ x => node_Terminal (x_State x) = false) current -> map_Forall (fun _ x => x_State x <> NodeNeedsManualAction) current ->
    ~ (map_Exists (fun _ x => x_State x = NodeWaiting) current /\ map_Forall (fun _ x => runnable def current x = false) current) ->
    documented def current RunRunning.
Lemma outcome_documented def current : map_Forall (fun _ x => x_State x <> NodeCancelled) current -> documented def current (outcome def current).
Proof.
  intros Hc. unfold outcome. case_bool_decide as Hp; [by apply d_parked|].
  assert (map_Forall (fun _ x => x_State x <> NodeNeedsManualAction) current) as Hnp by (intros id x Hx E; apply Hp; by exists id, x).
  case_bool_decide as Ht.
  - case_bool_decide as Hf; [by apply d_failed|]. apply d_succeeded. intros id x Hx. specialize (Ht id x Hx). specialize (Hc id x Hx). cbn in Ht, Hc.
    assert (x_State x <> NodeFailed) by (intros E; apply Hf; by exists id, x). destruct (x_State x); try done; auto.
  - destruct (bool_decide_reflect (map_Exists (fun _ x => x_State x = NodeWaiting) current)) as [Hw|Hw];
      [destruct (bool_decide_reflect (map_Forall (fun _ x => runnable def current x = false) current)) as [Hr|Hr]; [by apply d_waiting|]|]; cbn [andb].
    all: apply d_running; [|done|by intros [? ?]]; rewrite map_not_Forall in Ht by (intros; apply _);
      destruct Ht as (id & x & Hx & Hn); exists id, x; (split; [done|by apply not_true_iff_false]).
Qed.

(** (C27) Settling a running run none of whose current attempts was cancelled, while
    nobody else acts and the process does not stop: the call returns, the run is
    stored in the state that the documentation gives for its current attempts,
    whatever the order in which they are visited (parked when an outcome is
    ambiguous, failed or succeeded when all attempts are finished, waiting when only
    approvals can move it, running otherwise), and no attempt row changes.  With a
    cancelled attempt the code stores another state than the documentation gives
    ([cancelled_node_succeeds]). *)
Theorem run_outcome (env : Env) (st : St) (runID : string) (run : Run) (rs : list NodeExecution) :
  (forall n s, others env n s = s) -> (forall n, crash env n = false) ->
  getRun (store (sh st)) runID = inl run -> r_State run = RunRunning -> getNodeExecutions (store (sh st)) runID = inl rs ->
  map_Forall (fun _ x => x_State x <> NodeCancelled) (currentAttempts rs) ->
  let st' := (recomputeRunState env runID st).1 in
  (recomputeRunState env runID st).2 = Val tt
  /\ (exists run', getRun (store (sh st')) runID = inl run' /\ documented (r_Definition run) (currentAttempts rs) (r_State run'))
  /\ nodes (store (sh st')) = nodes (store (sh st)).
Proof.
  intros Ho Hc Hr Hs Hn Hnc. destruct (settle_outcome env st runID run rs Ho Hc Hr Hs Hn) as (H1 & (run' & E1 & E2) & H2).
  split_and!; [exact H1| |exact H2]. exists run'. split; [exact E1|]. rewrite E2. by apply outcome_documented.
Qed.

(** ** Cancelling *)

Lemma currentAttempts_max rs id :
  match currentAttempts rs !! id with
  | Some x => forall y, In y rs -> x_NodeID y = id -> x_Attempt y <= x_Attempt x
  | None => forall y, In y rs -> x_NodeID y <> id
  end.
Proof.
  unfold currentAttempts. induction rs as [|z rs IH] using rev_ind; [cbn; by rewrite lookup_empty|]. rewrite fold_left_app. cbn [fold_left]. set (m := fold_left _ rs ∅) in *.
  destruct (decide (x_NodeID z = id)) as [<-|Hne].
  - destruct (m !! x_NodeID z) as [c|] eqn:Ec.
    + destruct (Z.ltb_spec (x_Attempt c) (x_Attempt z)); rewrite ?lookup_insert_eq, ?Ec; intros y [Hy|[<-|[]]]%in_app_iff En; try lia; specialize (IH y Hy En); lia.
    + rewrite lookup_insert_eq. intros y [Hy|[<-|[]]]%in_app_iff En; [by destruct (IH y Hy)|lia].
  - assert (forall b : bool, (if b then <[x_NodeID z := z]> m else m) !! id = m !! id) as E by (intros []; [by rewrite lookup_insert_ne|done]).
    destruct (m !! x_NodeID z) as [c|]; [rewrite (E (x_Attempt c <? x_Attempt z))|rewrite (E true)];
      (destruct (m !! id) as [x|]; (intros y [Hy|[<-|[]]]%in_app_iff; [by apply IH|done])).
Qed.

(** What the engine takes for the current attempt is the store's. *)
Lemma currentAttempts_current s k runID rs n :
  store_ok s k -> getNodeExecutions s runID = inl rs -> currentAttempts rs !! n = snd <$> currentAttempt s runID n.
Proof.
  intros Hok. unfold getNodeExecutions. destruct (runs s !! runID); [|done]. intros [= <-].
  assert (forall y, In y (slice_stable exec_less (rows s runID)) <-> In y (rows s runID)) as Hin.
  { intros y. rewrite <- !list_elem_of_In. by rewrite slice_stable_perm. }
  pose proof (currentAttempts_max (slice_stable exec_less (rows s runID)) n) as Hmax.
  destruct (currentAttempts _ !! n) as [x|] eqn:Ex.
  - apply currentAttempts_in in Ex as [Hx Hxn]. apply Hin, list_elem_of_In, list_elem_of_lookup_1 in Hx as [i Hi].
    destruct (ok_rows _ _ Hok _ _ (rows_get _ _ _ _ Hi)) as (_ & _ & Hnum & _). pose proof (best_row_numbered _ _ (Hnum n)) as Hb.
    unfold currentAttempt. destruct (best_row n (rows s runID) 0 None) as [[j y]|] eqn:Eb.
    + cbn. f_equal. destruct (currentAttempt_row s runID n j y Eb) as [Hj Hyn].
      assert (In y (rows s runID)) as Hy by (apply list_elem_of_In; by eapply list_elem_of_lookup_2).
      assert (x_Attempt x < Z.of_nat (length (node_rows n (rows s runID)))) as Hlt.
      { assert (In x (node_rows n (rows s runID))) as Hf.
        { apply filter_In. split; [apply list_elem_of_In; by eapply list_elem_of_lookup_2|]. unfold of_node. by rewrite Hxn, String.eqb_refl. }
        apply (in_map x_Attempt) in Hf. rewrite (Hnum n) in Hf. apply in_map_iff in Hf as (m & <- & Hm%in_seq). lia. }
      specialize (Hmax y (proj2 (Hin y) Hy) Hyn). assert (i = j) as <- by (eapply (numbered_unique n); eauto; lia). congruence.
    + exfalso. assert (In x (node_rows n (rows s runID))) as Hf.
      { apply filter_In. split; [apply list_elem_of_In; by eapply list_elem_of_lookup_2|]. unfold of_node. by rewrite Hxn, String.eqb_refl. }
      by rewrite Hb in Hf.
  - destruct (currentAttempt s runID n) as [[i x]|] eqn:Ec; [|done]. exfalso. apply currentAttempt_row in Ec as [Hi Hn].
    apply (Hmax x); [|done]. apply Hin, list_elem_of_In. by eapply list_elem_of_lookup_2.
Qed.

Lemma cancel_save s runID id i x now :
  currentAttempt s runID id = Some (i, x) -> x_NodeID x = id -> x_RunID x = runID -> node_Terminal (x_State x) = false ->
  exists x' r, saveNodeExecution s (set_failed x NodeCancelled "cancelled" "run cancelled") None now = (set_row s runID i x', inl r)
    /\ x_NodeID x' = x_NodeID x /\ x_Attempt x' = x_Attempt x /\ x_State x' = NodeCancelled.
Proof.
  intros Hc Hn Hr Ht. set (y := set_failed x NodeCancelled "cancelled" "run cancelled"). exists (replace_row x y now).
  destruct (replace_row_keeps x y now) as (E1 & E2 & E3 & _ & E5).
  eexists. split; [|split_and!; [exact E2|exact E3|exact E5]]. unfold saveNodeExecution. change (x_RunID y) with (x_RunID x). change (x_NodeID y) with (x_NodeID x).
  change (x_State y) with NodeCancelled. change (x_Attempt y) with (x_Attempt x). rewrite Hn, Hr, Hc, Ht, Z.eqb_refl. cbn [andb negb].
  rewrite (bool_decide_eq_false_2 (is_Some None)) by (by intros [? ?]). cbn [andb].
  assert (validNodeTransition (x_State x) NodeCancelled = true) as -> by (by destruct (x_State x)). done.
Qed.

Lemma cancel_fold env runID l :
  (forall n s, others env n s = s) -> (forall n, crash env n = false) -> NoDup l.*1 -> forall s n fl sem pe lg,
  (forall id x, In (id, x) l -> x_RunID x = runID /\ x_NodeID x = id /\ exists i, currentAttempt s runID id = Some (i, x)) ->
  exists s' n', mfold (fun _ kv =>
      if node_Terminal (x_State kv.2) then mret tt
      else try (Save env (set_failed kv.2 NodeCancelled "cancelled" "run cancelled") None);; mret tt) l tt (mkSt n (mkShared s fl sem pe) lg)
    = (mkSt n' (mkShared s' fl sem pe) lg, Val tt)
    /\ runs s' = runs s /\ (forall id, id ∉ l.*1 -> currentAttempt s' runID id = currentAttempt s runID id)
    /\ forall id x, In (id, x) l -> exists i x', currentAttempt s' runID id = Some (i, x')
         /\ (if node_Terminal (x_State x) then x' = x else x_State x' = NodeCancelled).
Proof.
  intros Ho Hc. induction l as [|[id x] l IH]; intros Hd s n fl sem pe lg Hl; cbn [mfold].
  { exists s, n. by split_and!. }
  cbn in Hd. apply NoDup_cons in Hd as [Hid Hd]. destruct (Hl id x (or_introl eq_refl)) as (Hr & Hn & i & Hi). cbn [snd].
  assert (forall y, In (id, y) l -> False) as Hno.
  { intros y Hy. apply Hid. apply list_elem_of_fmap. exists (id, y). split; [done|by apply list_elem_of_In]. }
  destruct (node_Terminal (x_State x)) eqn:Et.
  - rewrite (bind_val _ _ _ (mkSt n (mkShared s fl sem pe) lg) tt) by done.
    destruct (IH Hd s n fl sem pe lg) as (s' & n' & E1 & E2 & E3 & E4); [intros; apply Hl; by right|]. exists s', n'. split_and!; [exact E1|exact E2| |].
    + intros id' Hid'. apply E3. intros H. apply Hid'. by right.
    + intros id' x' [[= <- <-]|Hin]; [|by apply E4]. exists i, x. rewrite Et. split; [|done]. rewrite E3; [done|]. intros (kv & -> & Hkv)%list_elem_of_fmap.
      destruct kv as [id y]. by apply (Hno y), list_elem_of_In.
  - destruct (cancel_save s runID id i x (clock env n) Hi Hn Hr Et) as (x' & r & Es & X1 & X2 & X3).
    assert ((try (Save env (set_failed x NodeCancelled "cancelled" "run cancelled") None);; mret tt) (mkSt n (mkShared s fl sem pe) lg)
            = (mkSt (S n) (mkShared (set_row s runID i x') fl sem pe) lg, Val tt)) as Estep.
    { erewrite bind_val; [|apply try_val; unfold Save; rewrite quiet_op by done; by rewrite Es]. done. }
    rewrite (bind_val _ _ _ _ _ Estep).
    destruct (IH Hd (set_row s runID i x') (S n) fl sem pe lg) as (s' & n' & E1 & E2 & E3 & E4).
    { intros id' y Hy. destruct (Hl id' y (or_intror Hy)) as (Hr' & Hn' & i' & Hi'). split_and!; [done|done|]. exists i'.
      rewrite (current_set_other _ _ _ _ _ _ _ _ Hi); [done| |done]. intros [= <-]. by apply (Hno y). }
    exists s', n'. split_and!; [exact E1|by rewrite E2| |].
    + intros id' Hid'. rewrite E3 by (intros H; apply Hid'; by right). apply (current_set_other _ _ _ _ _ _ _ _ Hi); [|done]. intros [= <-]. apply Hid'. by left.
    + intros id' y [[= <- <-]|Hin]; [|by apply E4]. exists i, x'. rewrite Et. split; [|done]. rewrite E3 by (intros (kv & -> & Hkv)%list_elem_of_fmap;
        destruct kv as [id y]; by apply (Hno y), list_elem_of_In). by apply (current_set_same _ _ _ _ x).
Qed.

(** (C26) Cancelling a run that is not finished (nor waiting for a timer, which no
    run is in this version) while nobody else acts and the process does not stop:
    the call succeeds, the run is stored as cancelled, every current attempt that
    was not finished is cancelled and the finished ones are as they were. *)
Theorem cancel_settles (env : Env) (st : St) (runID : string) (run : Run) (k : Z) :
  (forall n s, others env n s = s) -> (forall n, crash env n = false) -> store_ok (store (sh st)) k ->
  getRun (store (sh st)) runID = inl run -> run_Terminal (r_State run) = false -> r_State run <> RunWaitingTimer ->
  let st' := (CancelRun env runID st).1 in
  (exists run', (CancelRun env runID st).2 = Val run' /\ getRun (store (sh st')) runID = inl run' /\ r_State run' = RunCancelled)
  /\ forall n i x, currentAttempt (store (sh st)) runID n = Some (i, x) ->
       exists j x', currentAttempt (store (sh st')) runID n = Some (j, x') /\ (if node_Terminal (x_State x) then x' = x else x_State x' = NodeCancelled).
Proof.
  intros Ho Hc Hok Hr Ht Hw. destruct st as [n [s fl sem pe] lg]. cbn in Hok, Hr |- *.
  assert (runs s !! runID = Some run) as E by (unfold getRun in Hr; destruct (runs s !! runID); [by injection Hr as ->|done]).
  assert (exists rs, getNodeExecutions s runID = inl rs) as [rs Hrs] by (unfold getNodeExecutions; rewrite E; eauto).
  pose proof (fun m => currentAttempts_current s k runID rs m Hok Hrs) as Hcur.
  unfold CancelRun, GetRun, GetNodeExecutions. rewrite (bind_val _ _ _ _ run) by (rewrite quiet_get by done; cbn; by rewrite Hr). rewrite Ht.
  rewrite (bind_val _ _ _ _ rs) by (rewrite quiet_get by done; cbn; by rewrite Hrs). rewrite (bind_val _ _ _ _ _ (quiet_ranged env Hc _ _ _ _)).
  set (l := range env _ _). assert (l ≡ₚ map_to_list (currentAttempts rs)) as Hl by apply range_perm.
  destruct (cancel_fold env runID l Ho Hc) with (s := s) (n := S (S (S n))) (fl := fl) (sem := sem) (pe := pe) (lg := lg) as (s' & n' & E1 & E2 & E3 & E4).
  { rewrite Hl. apply NoDup_fst_map_to_list. }
  { intros id x Hin. apply list_elem_of_In in Hin. rewrite Hl in Hin. apply elem_of_map_to_list in Hin. rewrite Hcur in Hin.
    destruct (currentAttempt s runID id) as [[i y]|] eqn:Ey; [|done]. injection Hin as ->. destruct (current_ok _ _ _ _ _ _ Hok Ey) as (_ & ? & ?). eauto. }
  assert (validRunTransition (r_State run) RunCancelled = true) as Hv by (clear -Ht Hw; by destruct (r_State run)).
  rewrite (bind_val _ _ _ _ _ E1). rewrite (bind_val _ _ _ _ _ (try_val _ _ _ _ (quiet_update env Ho Hc s' runID run _ _ _ n' fl sem pe lg ltac:(by rewrite E2) Ht ltac:(by destruct (r_State run))))).
  cbn. split.
  - eexists. split; [done|]. unfold getRun. cbn. rewrite lookup_insert_eq. split; [done|by repeat case_match].
  - intros m i x Hm. destruct (E4 m x) as (j & x' & Hj & Hx); [|exists j, x'; split; [exact Hj|exact Hx]].
    apply list_elem_of_In. rewrite Hl. apply elem_of_map_to_list. by rewrite Hcur, Hm.
Qed.

Lemma cancel_settles_witness :
  let st := (CancelRun (well 500) "r1" (fresh "pay")).1 in
  (exists run', (CancelRun (well 500) "r1" (fresh "pay")).2 = Val run' /\ getRun (store (sh st)) "r1" = inl run' /\ r_State run' = RunCancelled)
  /\ view st = ([("start", 0, NodeCancelled); ("work", 0, NodeCancelled)], Some RunCancelled).
Proof.
  intros st. split; [|vm_compute; reflexivity].
  apply (cancel_settles (well 500) (fresh "pay") "r1" (created_run "pay" <| r_CreatedAt := 1 |> <| r_UpdatedAt := 1 |>) (0 + Z.of_nat (length (fresh_ops "pay")))).
  - done.
  - done.
  - apply FlowProofs.run_ok; [exact new_store_ok|done|done].
  - vm_compute. reflexivity.
  - vm_compute. reflexivity.
  - discriminate.
Defined.

(** The process ended between the last node and the end of the run. *)
Definition unsettled : St := history plain_lib [(crash_at 31 100, sample_engine, CExecute 10 "r1")] (fresh "pay").
Definition stored_run (st : St) : Run := match getRun (store (sh st)) "r1" with inl r => r | inr _ => created_run "" end.
Definition stored_rows (st : St) : list NodeExecution := match getNodeExecutions (store (sh st)) "r1" with inl rs => rs | inr _ => [] end.
Lemma run_outcome_witness :
  (recomputeRunState (well 500) "r1" unsettled).2 = Val tt
  /\ (exists run', getRun (store (sh (recomputeRunState (well 500) "r1" unsettled).1)) "r1" = inl run'
       /\ documented (r_Definition (stored_run unsettled)) (currentAttempts (stored_rows unsettled)) (r_State run'))
  /\ (r_State <$> runs (store (sh (recomputeRunState (well 500) "r1" unsettled).1)) !! "r1") = Some RunSucceeded.
Proof.
  destruct (run_outcome (well 500) unsettled "r1" (stored_run unsettled) (stored_rows unsettled)) as (H1 & H2 & _);
    [done|done|vm_compute; reflexivity|vm_compute; reflexivity|vm_compute; reflexivity|apply (bool_decide_eq_true_1 _); vm_compute; reflexivity|].
  split_and!; [exact H1|exact H2|vm_compute; reflexivity].
Defined.

(** ** Where the code and its documentation part *)

(** A node that is retried: the new attempt is appended before the failed one is
    saved, so the save meets the new attempt and is refused.  The failed attempt
    stays running for good, without an error, and the hook is told that an
    outcome could not be stored. *)
Definition flaky (n : nat) (spec : NodeSpec) (rc : RunContext) : option Payload + RunError :=
  if String.eqb (ns_ID spec) "flaky" && Nat.ltb n 30 then inr (mkRunError false false (Some (mkErr "rate_limited" true "slow down")) "") else inl (Some []).
Theorem retried_attempt_stays_running :
  let st := (Execute (alone (from 100) (fun _ => false) flaky) plain_lib sample_engine 10 "r1" (fresh "flaky")).1 in
  view st = ([("start", 0, NodeSucceeded); ("work", 0, NodeRunning); ("work", 1, NodeSucceeded)], Some RunSucceeded)
  /\ In (Audit (mkEvent "r1" "work" "parked" 0 "needs_manual_action" "result_not_persisted")) (log st).
Proof. split; [vm_compute; reflexivity|]. vm_compute. tauto. Qed.

(** A run that was only created cannot be force-failed. *)
Theorem created_run_not_forced : (ForceFailRun (well 100) "r1" "" "gone" (fresh "pay")).2 = Exc (EStore ErrStateConflict).
Proof. vm_compute. reflexivity. Qed.

(** A node that reports [cancelled] by itself leaves its run succeeded. *)
Definition gives_up (n : nat) (spec : NodeSpec) (rc : RunContext) : option Payload + RunError :=
  if String.eqb (ns_ID spec) "pay" then inr (mkRunError false false (Some (mkErr "cancelled" false "")) "") else inl (Some []).
Theorem cancelled_node_succeeds :
  view (Execute (alone (from 100) (fun _ => false) gives_up) plain_lib sample_engine 10 "r1" (fresh "pay")).1
  = ([("start", 0, NodeSucceeded); ("work", 0, NodeCancelled)], Some RunSucceeded).
Proof. vm_compute. reflexivity. Qed.

(** The process ends while an operator rejects a gated node: the rejection is
    recorded, the node still waits. *)
Definition rejected : St :=
  history plain_lib [(well 100, sample_engine, CExecute 10 "r1"); (crash_at 3 200, sample_engine, CDecide "r1" "work" "bob" "rejected")] (fresh "gate").
Definition still : Env := alone (fun _ => 300) (fun _ => false) all_well.
(** The shared state once the run is driven, and after one more sweep. *)
Definition driven : Shared := sh (UpdateState still "r1" (Some RunWaitingForApproval) RunRunning "" "" (mkSt 0 (mkShared (store (sh rejected)) {["r1"]} {["wf" := (2, 1)]} nobody) [])).1.
Definition running_run : Run := stored_run (mkSt 0 driven []).
Definition spun : Shared := sh (sweep still plain_lib sample_engine running_run (mkSt 0 driven [])).1.

Lemma sweep_spins s : s = driven \/ s = spun -> forall n lg, let r := sweep still plain_lib sample_engine running_run (mkSt n s lg) in r.2 = Val true /\ sh r.1 = spun.
Proof. intros [-> | ->] n lg; vm_compute; split; reflexivity. Qed.
Lemma loop_spins fuel : forall s n lg, s = driven \/ s = spun -> exists st, sweep_loop still plain_lib sample_engine fuel "r1" running_run (mkSt n s lg) = (st, Exc OutOfFuel).
Proof.
  induction fuel as [|fuel IH]; intros s n lg Hs; cbn [sweep_loop]; [eexists; reflexivity|].
  pose proof (sweep_spins s Hs n lg) as [E1 E2]. destruct (sweep still plain_lib sample_engine running_run (mkSt n s lg)) as [[n1 s1 lg1] r] eqn:Er. cbn [fst snd sh] in E1, E2. subst r s1.
  rewrite (bind_val _ _ _ _ _ (try_val _ _ _ _ Er)). unfold GetRun.
  rewrite (bind_val _ _ _ (mkSt (S n1) spun lg1) running_run) by (rewrite quiet_get by done; vm_compute; reflexivity).
  assert (run_Terminal (r_State running_run) = false) as -> by (vm_compute; reflexivity). cbn [negb]. unfold runCtxErr.
  rewrite (bind_val _ _ _ (mkSt (S (S n1)) spun lg1) false) by (erewrite bind_val; [|by apply quiet_step]; done). apply IH. by right.
Qed.
Lemma finally_exc {A} (m : M A) (c : M unit) st st1 st2 err : m st = (st1, Exc err) -> c st1 = (st2, Val tt) -> finally m c st = (st2, Exc err).
Proof. intros H1 H2. unfold finally, mbind, M_bind, try. rewrite H1. by rewrite H2. Qed.
Lemma execute_unfold fuel n : exists st, sh st = driven /\ forall st', sweep_loop still plain_lib sample_engine fuel "r1" running_run st = (st', Exc OutOfFuel) ->
  drive still plain_lib sample_engine fuel "r1" (stored_run rejected) (mkSt n (mkShared (store (sh rejected)) {["r1"]} {["wf" := (2, 1)]} nobody) (log rejected)) = (st', Exc OutOfFuel).
Proof.
  exists (mkSt (S (S n)) driven (log rejected)). split; [done|]. intros st' H. unfold drive.
  rewrite (bind_val _ _ _ (mkSt n (mkShared (store (sh rejected)) {["r1"]} {["wf" := (2, 1)]} nobody) (log rejected)) (inl tt)) by (vm_compute; reflexivity).
  unfold GetRun. rewrite (bind_val _ _ _ (mkSt (S n) (mkShared (store (sh rejected)) {["r1"]} {["wf" := (2, 1)]} nobody) (log rejected)) (stored_run rejected)) by (rewrite quiet_get by done; vm_compute; reflexivity).
  assert (r_State (stored_run rejected) = RunWaitingForApproval) as Es by (vm_compute; reflexivity). rewrite Es. cbn [run_Terminal].
  rewrite (bind_val _ _ _ (mkSt (S (S n)) driven (log rejected)) running_run) by (vm_compute; reflexivity). exact H.
Qed.

(** A rejection that is recorded while the node still waits is fatal for the
    engine: [Execute] never returns, however many sweeps it is given.  Every
    sweep puts the node back into the queue, the registry refuses it for the
    missing approval and it waits again. *)
Theorem rejected_gate_spins (fuel : nat) :
  approvals (store (sh rejected)) !! approvalKey "r1" "work" = Some (mkApproval "r1" "work" "alice" "bob" "rejected" 202)
  /\ (Execute still plain_lib sample_engine fuel "r1" rejected).2 = Exc OutOfFuel.
Proof.
  split; [vm_compute; reflexivity|]. unfold Execute, GetRun.
  rewrite (bind_val _ _ rejected (mkSt 1 (sh rejected) (log rejected)) (stored_run rejected)) by (vm_compute; reflexivity).
  assert (r_State (stored_run rejected) = RunWaitingForApproval) as Es by (vm_compute; reflexivity). rewrite Es. cbn [run_Terminal].
  rewrite bool_decide_eq_false_2 by done.
  rewrite (bind_val _ _ _ (mkSt 2 (sh rejected) (log rejected)) (inl tt)) by (vm_compute; reflexivity).
  rewrite (bind_val _ _ _ (mkSt 3 (mkShared (store (sh rejected)) {["r1"]} ∅ nobody) (log rejected)) true) by (vm_compute; reflexivity). cbn [negb].
  destruct (execute_unfold fuel 4) as (st & Hst & Hd). destruct st as [n s lg]. cbn in Hst. destruct (loop_spins fuel s n lg (or_introl Hst)) as [st' Hl].
  specialize (Hd st' Hl).
  assert (forall m : M (Run * option EngineError), m (mkSt 4 (mkShared (store (sh rejected)) {["r1"]} {["wf" := (2, 1)]} nobody) (log rejected)) = (st', Exc OutOfFuel) ->
    exists st1, finally m (release still (r_DefinitionID (stored_run rejected))) (mkSt 4 (mkShared (store (sh rejected)) {["r1"]} {["wf" := (2, 1)]} nobody) (log rejected)) = (st1, Exc OutOfFuel)) as Hrel.
  { intros m Hm. destruct st' as [n' s' lg']. eexists. eapply finally_exc; [exact Hm|]. unfold release. rewrite quiet_access by done.
    f_equal. f_equal. destruct (semaphores s' !! _) as [[]|]; reflexivity. }
  destruct (Hrel _ Hd) as [[n1 s1 lg1] Hf].
  rewrite (finally_exc _ _ _ (mkSt n1 s1 lg1) (mkSt (S n1) (s1 <| inFlight := inFlight s1 ∖ {["r1"]} |>) lg1) OutOfFuel); [reflexivity| |].
  - rewrite (bind_val _ _ _ (mkSt 4 (mkShared (store (sh rejected)) {["r1"]} {["wf" := (2, 1)]} nobody) (log rejected)) true) by (vm_compute; reflexivity). exact Hf.
  - unfold leave. by rewrite quiet_access.
Qed.
