(* ===== verification/Video.v ===== *)
(** * Video jobs ([src/internal/video]: [domain.go], [request.go], [classify.go], [validation.go], [job.go], [retry_safety.go])

    The brief of a video job, its classification and validation, the job record
    with its state machine, and the assessment of a resubmission.  Fields of the
    source that no modelled operation reads are left out.  Durations and amounts
    are floats of the source; a nil and an empty slice are not told apart. *)

From S2P Require Import Prelude.

(** ** The brief *)

Definition SchemaVersion : string := "video.v1".
Definition ModeTextToVideo : string := "text_to_video".
Definition ModeImageToVideo : string := "image_to_video".
Definition ModeVideoToVideo : string := "video_to_video".
Definition Aspect16x9 : string := "16:9".
Definition Aspect9x16 : string := "9:16".
Definition Aspect1x1 : string := "1:1".
Definition AspectCustom : string := "custom".
Definition PriorityNormal : string := "normal".

Record Asset := mkAsset { as_ID : string; as_Kind : string; as_URI : string; as_ContentType : string; as_SizeBytes : Z; as_SHA256 : string; as_Metadata : list (string * string) }.
#[global] Instance eta_Asset : Eta Asset := fun a => mkAsset (as_ID a) (as_Kind a) (as_URI a) (as_ContentType a) (as_SizeBytes a) (as_SHA256 a) (as_Metadata a).
Record ContinuityContext := mkContinuity { PreviousFinalFrame : option Asset; PreviousManifest : option Asset }.
Record Shot := mkShot {
  sh_ShotID : string; sh_DurationSeconds : float64; sh_Prompt : string; sh_NegativePrompt : string; sh_CameraMovement : string; sh_SubjectAction : string;
  sh_StartState : string; sh_EndState : string; sh_SoundRequirements : list string; sh_NarrationSegment : string; sh_RequiredReferences : list Asset;
  sh_ContinuityConstraints : list string; sh_Provider : string; sh_Model : string; sh_OutputAsset : option Asset }.
#[global] Instance eta_Shot : Eta Shot := fun s =>
  mkShot (sh_ShotID s) (sh_DurationSeconds s) (sh_Prompt s) (sh_NegativePrompt s) (sh_CameraMovement s) (sh_SubjectAction s) (sh_StartState s) (sh_EndState s)
    (sh_SoundRequirements s) (sh_NarrationSegment s) (sh_RequiredReferences s) (sh_ContinuityConstraints s) (sh_Provider s) (sh_Model s) (sh_OutputAsset s).
Record VideoRequest := mkRequest {
  vr_SchemaVersion : string; vr_ProjectID : string; vr_EpisodeID : string; vr_Prompt : string; vr_NegativePrompt : string; vr_Mode : string;
  vr_ProviderPreference : string; vr_ModelPreference : string; vr_DurationSeconds : float64; vr_AspectRatio : string; vr_Width : Z; vr_Height : Z; vr_FPS : Z;
  vr_AudioRequested : bool; vr_DialogueRequested : bool; vr_ReferenceAssets : list Asset; vr_FirstFrameAsset : option Asset; vr_LastFrameAsset : option Asset;
  vr_CharacterReferences : list Asset; vr_LocationReferences : list Asset; vr_StyleReferences : list Asset; vr_ContinuityContext : option ContinuityContext;
  vr_ShotPlan : list Shot; vr_SoundRequirements : list string; vr_NarrationText : string; vr_SubtitleLanguage : string; vr_OutputFormat : string;
  vr_CallbackURL : string; vr_IdempotencyKey : string; vr_MaxCostUSD : float64; vr_DryRun : bool; vr_Priority : string }.
#[global] Instance eta_VideoRequest : Eta VideoRequest := fun r =>
  mkRequest (vr_SchemaVersion r) (vr_ProjectID r) (vr_EpisodeID r) (vr_Prompt r) (vr_NegativePrompt r) (vr_Mode r) (vr_ProviderPreference r) (vr_ModelPreference r)
    (vr_DurationSeconds r) (vr_AspectRatio r) (vr_Width r) (vr_Height r) (vr_FPS r) (vr_AudioRequested r) (vr_DialogueRequested r) (vr_ReferenceAssets r)
    (vr_FirstFrameAsset r) (vr_LastFrameAsset r) (vr_CharacterReferences r) (vr_LocationReferences r) (vr_StyleReferences r) (vr_ContinuityContext r)
    (vr_ShotPlan r) (vr_SoundRequirements r) (vr_NarrationText r) (vr_SubtitleLanguage r) (vr_OutputFormat r) (vr_CallbackURL r) (vr_IdempotencyKey r)
    (vr_MaxCostUSD r) (vr_DryRun r) (vr_Priority r).

Inductive JobType := JobTextToVideo | JobImageToVideo | JobEditExtend | JobCompose.
Record JobClassification := mkClass { jc_Type : JobType; jc_Mode : string; jc_Reasons : list string; jc_AssetEvidence : bool }.
Definition HasSourceVideo (r : VideoRequest) : bool := existsb (fun a => EqualFold (TrimSpace (as_Kind a)) "video") (vr_ReferenceAssets r).
Definition IsContinuityExtension (r : VideoRequest) : bool :=
  match vr_ContinuityContext r with
  | Some c => bool_decide (is_Some (PreviousFinalFrame c)) || bool_decide (is_Some (PreviousManifest c))
  | None => false
  end.
Definition ClassifyBrief (r : VideoRequest) : JobClassification :=
  if HasSourceVideo r then mkClass JobEditExtend ModeVideoToVideo ["source_video_reference"] true
  else if IsContinuityExtension r then mkClass JobEditExtend ModeVideoToVideo ["continuity_extension"] true
  else if bool_decide (is_Some (vr_FirstFrameAsset r)) then mkClass JobImageToVideo ModeImageToVideo ["first_frame_asset"] true
  else if bool_decide (is_Some (vr_LastFrameAsset r)) then mkClass JobImageToVideo ModeImageToVideo ["last_frame_asset"] true
  else if (2 <=? length (vr_ShotPlan r))%nat then mkClass JobCompose ModeTextToVideo ["multi_shot_storyboard"] false
  else mkClass JobTextToVideo ModeTextToVideo ["prompt_only"] false.

Definition or_default (s dflt : string) : string := if String.eqb s "" then dflt else s.
Definition Normalized (r : VideoRequest) : VideoRequest :=
  let r := r <| vr_SchemaVersion := SchemaVersion |> <| vr_ProjectID := TrimSpace (vr_ProjectID r) |> <| vr_EpisodeID := TrimSpace (vr_EpisodeID r) |>
             <| vr_Prompt := TrimSpace (vr_Prompt r) |> <| vr_NarrationText := TrimSpace (vr_NarrationText r) |> <| vr_SubtitleLanguage := TrimSpace (vr_SubtitleLanguage r) |> in
  let r := if String.eqb (vr_Mode r) "" then r <| vr_Mode := jc_Mode (ClassifyBrief r) |> else r in
  r <| vr_AspectRatio := or_default (vr_AspectRatio r) Aspect16x9 |> <| vr_OutputFormat := or_default (vr_OutputFormat r) "mp4" |>
    <| vr_FPS := if vr_FPS r =? 0 then 24 else vr_FPS r |> <| vr_Priority := or_default (vr_Priority r) PriorityNormal |>.

Inductive RequestError :=
| NoProject | NoPrompt | BadMode (mode : string) | ModeContradicts (declared derived : string) | BadDuration | BadAspect (ratio : string) | BadFPS
| NegativeBudget | BadCallback | TooManyShots | InvalidShot (i : nat).
Fixpoint check_shots (i : nat) (shots : list Shot) : option RequestError :=
  match shots with
  | [] => None
  | s :: shots =>
      if String.eqb (TrimSpace (sh_ShotID s)) "" || String.eqb (TrimSpace (sh_Prompt s)) "" || (sh_DurationSeconds s <=? f_zero)%f64 then Some (InvalidShot i)
      else check_shots (S i) shots
  end.
(** [https] tells whether a text parses as an absolute https URL with a host. *)
Definition Validate (https : string -> bool) (r : VideoRequest) : option RequestError :=
  let n := Normalized r in
  let cls := ClassifyBrief r in
  if String.eqb (vr_ProjectID n) "" then Some NoProject
  else if String.eqb (vr_Prompt n) "" && bool_decide (vr_ShotPlan n = []) then Some NoPrompt
  else if negb (existsb (String.eqb (vr_Mode n)) [ModeTextToVideo; ModeImageToVideo; ModeVideoToVideo]) then Some (BadMode (vr_Mode n))
  else if negb (String.eqb (vr_Mode r) "") && jc_AssetEvidence cls && negb (String.eqb (jc_Mode cls) (vr_Mode r)) then Some (ModeContradicts (vr_Mode r) (jc_Mode cls))
  else if (vr_DurationSeconds n <=? f_zero)%f64 || (vr_DurationSeconds n >? f_of_int 3600)%f64 then Some BadDuration
  else if negb (existsb (String.eqb (vr_AspectRatio n)) [Aspect16x9; Aspect9x16; Aspect1x1; AspectCustom]) then Some (BadAspect (vr_AspectRatio n))
  else if (vr_FPS n <? 1) || (120 <? vr_FPS n) then Some BadFPS
  else if (vr_MaxCostUSD n <? f_zero)%f64 then Some NegativeBudget
  else if negb (String.eqb (vr_CallbackURL n) "") && negb (https (vr_CallbackURL n)) then Some BadCallback
  else if (256 <? length (vr_ShotPlan n))%nat then Some TooManyShots
  else check_shots 0 (vr_ShotPlan n).

(** ** Jobs *)

Inductive JobState :=
| StateQueued | StateAdmitted | StatePlanning | StateWaitingForBudget | StateSubmitted | StateProcessing | StatePolling | StateComposing | StateUploading
| StateCompleted | StateFailed | StateCancelRequested | StateCancelled | StateExpired | StateNeedsManualAction | StateDryRun.
#[global] Instance JobState_eq_dec : EqDecision JobState.
Proof. solve_decision. Defined.

Record ShotExecution := mkShotExec {
  se_Index : Z; se_ShotID : string; se_State : JobState; se_Provider : string; se_Model : string; se_ProviderJobID : string; se_Progress : float64;
  se_SubmittedAt : option Time; se_CompletedAt : option Time; se_LastError : string; se_UsageMetadata : list (string * string); se_ActualCostUSD : option float64 }.
Record VideoJob := mkVJob {
  vj_JobID : string; vj_IdempotencyKey : string; vj_LeaseOwner : string; vj_LeaseUntil : Time; vj_ProjectID : string; vj_EpisodeID : string;
  vj_Request : VideoRequest; vj_Provider : string; vj_Model : string; vj_ProviderJobID : string; vj_State : JobState; vj_Progress : float64;
  vj_CreatedAt : Time; vj_SubmittedAt : option Time; vj_CompletedAt : option Time; vj_LastError : string; vj_OperatorForceFailed : bool; vj_RetryCount : Z;
  vj_CurrentShot : Z; vj_TotalShots : Z; vj_ProviderSelection : string; vj_JobType : JobType; vj_JobTypeReasons : list string;
  vj_ShotExecutions : list ShotExecution; vj_OutputAssets : list Asset; vj_EstimatedCostUSD : float64; vj_ActualCostUSD : float64; vj_CostReconciled : bool;
  vj_CostDeltaUSD : option float64; vj_CostBasis : string; vj_UsageMetadata : list (string * string) }.
#[global] Instance eta_VideoJob : Eta VideoJob := fun j =>
  mkVJob (vj_JobID j) (vj_IdempotencyKey j) (vj_LeaseOwner j) (vj_LeaseUntil j) (vj_ProjectID j) (vj_EpisodeID j) (vj_Request j) (vj_Provider j) (vj_Model j)
    (vj_ProviderJobID j) (vj_State j) (vj_Progress j) (vj_CreatedAt j) (vj_SubmittedAt j) (vj_CompletedAt j) (vj_LastError j) (vj_OperatorForceFailed j)
    (vj_RetryCount j) (vj_CurrentShot j) (vj_TotalShots j) (vj_ProviderSelection j) (vj_JobType j) (vj_JobTypeReasons j) (vj_ShotExecutions j)
    (vj_OutputAssets j) (vj_EstimatedCostUSD j) (vj_ActualCostUSD j) (vj_CostReconciled j) (vj_CostDeltaUSD j) (vj_CostBasis j) (vj_UsageMetadata j).

Definition NewJob (id : string) (req : VideoRequest) (now : Time) : VideoJob :=
  let cls := ClassifyBrief req in
  mkVJob id (vr_IdempotencyKey req) "" 0 (vr_ProjectID req) (vr_EpisodeID req) req "" "" "" StateQueued f_zero now None None "" false 0 0
    (Z.of_nat (length (vr_ShotPlan req))) "" (jc_Type cls) (jc_Reasons cls)
    (imap (fun i shot => mkShotExec (Z.of_nat i + 1) (sh_ShotID shot) StateQueued "" "" "" f_zero None None "" [] None) (vr_ShotPlan req))
    [] f_zero f_zero false None "" [].

Definition CanTransition (from to : JobState) : bool :=
  bool_decide (from = to)
  || match from, to with
     | StateQueued, (StateAdmitted | StateWaitingForBudget | StateFailed | StateCancelled | StateNeedsManualAction) => true
     | StateAdmitted, (StatePlanning | StateSubmitted | StateFailed | StateCancelRequested | StateNeedsManualAction) => true
     | StatePlanning, (StateSubmitted | StateFailed | StateNeedsManualAction) => true
     | StateWaitingForBudget, (StateQueued | StateFailed | StateNeedsManualAction) => true
     | StateSubmitted, (StateProcessing | StatePolling | StateCompleted | StateComposing | StateUploading | StateCancelRequested | StateCancelled | StateFailed | StateNeedsManualAction) => true
     | (StateProcessing | StatePolling),
       (StateProcessing | StatePolling | StateComposing | StateUploading | StateCompleted | StateCancelRequested | StateCancelled | StateFailed | StateExpired | StateNeedsManualAction) => true
     | StateComposing, (StateUploading | StateCompleted | StateFailed | StateNeedsManualAction) => true
     | StateUploading, (StateCompleted | StateCancelled | StateFailed | StateNeedsManualAction) => true
     | StateCancelRequested, (StateCancelled | StateFailed | StateNeedsManualAction) => true
     | StateNeedsManualAction, StateCancelled => true
     | StateFailed, (StateQueued | StateCancelled) => true
     | _, _ => false
     end.
Definition IsTerminalState (s : JobState) : bool := match s with StateCompleted | StateCancelled | StateExpired | StateDryRun => true | _ => false end.
Definition IsTerminal (j : VideoJob) : bool := IsTerminalState (vj_State j) || vj_OperatorForceFailed j.
Definition Transition (j : VideoJob) (to : JobState) : option VideoJob := if CanTransition (vj_State j) to then Some (j <| vj_State := to |>) else None.

(** ** Retry safety *)

Inductive RetrySafetyVerdict := RetrySafe | RetryDuplicateRisk | RetryManualAction | RetryBlocked | RetryNotApplicable.
Record RetrySafety := mkSafety { rs_Verdict : RetrySafetyVerdict; rs_ProviderJobIDPresent : bool; rs_DuplicateBillingPossible : bool }.
Definition RetrySafetyFor (j : VideoJob) : RetrySafety :=
  let submittedShots := length (List.filter (fun s => negb (String.eqb (se_ProviderJobID s) "") || bool_decide (is_Some (se_SubmittedAt s))) (vj_ShotExecutions j)) in
  let providerJobPresent := negb (String.eqb (vj_ProviderJobID j) "") || (0 <? submittedShots)%nat in
  let submissionAttempted := providerJobPresent || bool_decide (is_Some (vj_SubmittedAt j)) in
  if vj_OperatorForceFailed j then mkSafety RetryBlocked providerJobPresent providerJobPresent
  else match vj_State j with
  | StateNeedsManualAction => mkSafety RetryManualAction providerJobPresent submissionAttempted
  | StateFailed | StateCancelled =>
      if negb submissionAttempted then mkSafety RetrySafe false false else mkSafety RetryDuplicateRisk providerJobPresent true
  | _ => mkSafety RetryNotApplicable providerJobPresent false
  end.
