(* ===== verification/VideoQueue.v ===== *)
(** * The video job store and work queue ([src/internal/video/queue]: [store.go], [queue.go])

    The in-memory store, each method of which runs under the store's mutex, and
    the bounded queue of the worker pool. *)

From Stdlib Require Import SpecFloat.
From S2P Require Import Prelude Video.

(** ** [reflect.DeepEqual] on jobs *)

(** Floats are compared with [==]: the float fields are compared one by one, the
    rest of the record with all of them erased. *)
#[global] Instance float64_eq_dec : EqDecision float64.
Proof. unfold float64. solve_decision. Defined.
#[global] Instance Asset_eq_dec : EqDecision Asset.
Proof. solve_decision. Defined.
#[global] Instance ContinuityContext_eq_dec : EqDecision ContinuityContext.
Proof. solve_decision. Defined.
#[global] Instance Shot_eq_dec : EqDecision Shot.
Proof. solve_decision. Defined.
#[global] Instance VideoRequest_eq_dec : EqDecision VideoRequest.
Proof. solve_decision. Defined.
#[global] Instance JobType_eq_dec : EqDecision JobType.
Proof. solve_decision. Defined.
#[global] Instance ShotExecution_eq_dec : EqDecision ShotExecution.
Proof. solve_decision. Defined.
#[global] Instance VideoJob_eq_dec : EqDecision VideoJob.
Proof. solve_decision. Defined.

Definition opt_floats (o : option float64) : list float64 := match o with Some x => [x] | None => [] end.
Definition floats (j : VideoJob) : list float64 :=
  [vj_Progress j; vj_EstimatedCostUSD j; vj_ActualCostUSD j; vr_DurationSeconds (vj_Request j); vr_MaxCostUSD (vj_Request j)]
  ++ opt_floats (vj_CostDeltaUSD j) ++ map sh_DurationSeconds (vr_ShotPlan (vj_Request j)) ++ map se_Progress (vj_ShotExecutions j)
  ++ flat_map (fun s => opt_floats (se_ActualCostUSD s)) (vj_ShotExecutions j).
Definition erase_shot (s : ShotExecution) : ShotExecution :=
  mkShotExec (se_Index s) (se_ShotID s) (se_State s) (se_Provider s) (se_Model s) (se_ProviderJobID s) f_zero (se_SubmittedAt s) (se_CompletedAt s) (se_LastError s)
    (se_UsageMetadata s) (if bool_decide (is_Some (se_ActualCostUSD s)) then Some f_zero else None).
Definition erase (j : VideoJob) : VideoJob :=
  j <| vj_Progress := f_zero |> <| vj_EstimatedCostUSD := f_zero |> <| vj_ActualCostUSD := f_zero |>
    <| vj_CostDeltaUSD := if bool_decide (is_Some (vj_CostDeltaUSD j)) then Some f_zero else None |>
    <| vj_Request := vj_Request j <| vr_DurationSeconds := f_zero |> <| vr_MaxCostUSD := f_zero |>
                       <| vr_ShotPlan := map (fun s => s <| sh_DurationSeconds := f_zero |>) (vr_ShotPlan (vj_Request j)) |> |>
    <| vj_ShotExecutions := map erase_shot (vj_ShotExecutions j) |>.
Definition DeepEqual (a b : VideoJob) : bool :=
  bool_decide (erase a = erase b) && bool_decide (length (floats a) = length (floats b)) && forallb (fun xy => feq (fst xy) (snd xy)) (zip (floats a) (floats b)).

(** ** The store *)

Inductive StoreErr := ErrNotFound | ErrTerminalJob | ErrIdempotencyConflict | ErrJobAlreadyExists.
Record MemoryStore := mkMem { mem_jobs : gmap string VideoJob; mem_idem : gmap string string }.
#[global] Instance eta_MemoryStore : Eta MemoryStore := fun s => mkMem (mem_jobs s) (mem_idem s).
Definition NewMemoryStore : MemoryStore := mkMem ∅ ∅.

Definition checkTerminalUpdate (current next : VideoJob) : option StoreErr :=
  if negb (IsTerminal current) then None else if DeepEqual current next then None else Some ErrTerminalJob.
Definition Create (s : MemoryStore) (j : VideoJob) : MemoryStore * option StoreErr :=
  if bool_decide (is_Some (mem_jobs s !! vj_JobID j)) then (s, Some ErrJobAlreadyExists)
  else if String.eqb (vj_IdempotencyKey j) "" then (s <| mem_jobs := <[vj_JobID j := j]> (mem_jobs s) |>, None)
  else if negb (String.eqb (map_get "" (mem_idem s) (vj_IdempotencyKey j)) "") then (s, Some ErrIdempotencyConflict)
  else (mkMem (<[vj_JobID j := j]> (mem_jobs s)) (<[vj_IdempotencyKey j := vj_JobID j]> (mem_idem s)), None).
Definition Delete (s : MemoryStore) (id : string) : MemoryStore :=
  match mem_jobs s !! id with
  | None => s
  | Some j => mkMem (delete id (mem_jobs s)) (if String.eqb (vj_IdempotencyKey j) "" then mem_idem s else delete (vj_IdempotencyKey j) (mem_idem s))
  end.
Definition Get (s : MemoryStore) (id : string) : VideoJob + StoreErr := match mem_jobs s !! id with Some j => inl j | None => inr ErrNotFound end.
(** A key whose job is gone would yield the zero job; the invariant rules it out. *)
Definition GetByIdempotency (s : MemoryStore) (key : string) : VideoJob + StoreErr :=
  let id := map_get "" (mem_idem s) key in
  if String.eqb id "" then inr ErrNotFound else match mem_jobs s !! id with Some j => inl j | None => inr ErrNotFound end.
Definition Update (s : MemoryStore) (j : VideoJob) : MemoryStore * option StoreErr :=
  match mem_jobs s !! vj_JobID j with
  | None => (s, Some ErrNotFound)
  | Some old =>
      match checkTerminalUpdate old j with
      | Some err => (s, Some err)
      | None =>
          if String.eqb (vj_IdempotencyKey j) (vj_IdempotencyKey old) then (s <| mem_jobs := <[vj_JobID j := j]> (mem_jobs s) |>, None)
          else if negb (String.eqb (vj_IdempotencyKey j) "")
                  && match mem_idem s !! vj_IdempotencyKey j with Some id => negb (String.eqb id (vj_JobID j)) | None => false end
          then (s, Some ErrIdempotencyConflict)
          else
            let idem := if String.eqb (vj_IdempotencyKey old) "" then mem_idem s else delete (vj_IdempotencyKey old) (mem_idem s) in
            let idem := if String.eqb (vj_IdempotencyKey j) "" then idem else <[vj_IdempotencyKey j := vj_JobID j]> idem in
            (mkMem (<[vj_JobID j := j]> (mem_jobs s)) idem, None)
      end
  end.
Definition claimable (j : VideoJob) (owner : string) (now : Time) : bool :=
  String.eqb (vj_LeaseOwner j) "" || negb (After (vj_LeaseUntil j) now) || String.eqb (vj_LeaseOwner j) owner.
Definition lease_to (j : VideoJob) (owner : string) (until : Time) : VideoJob := j <| vj_LeaseOwner := owner |> <| vj_LeaseUntil := until |>.
(** [inl None] is a live foreign lease. *)
Definition TryClaim (s : MemoryStore) (id owner : string) (ttl : Duration) (now : Time) : MemoryStore * (option VideoJob + StoreErr) :=
  match mem_jobs s !! id with
  | None => (s, inr ErrNotFound)
  | Some j =>
      if negb (claimable j owner now) then (s, inl None)
      else let j := lease_to j owner (Add now ttl) in (s <| mem_jobs := <[id := j]> (mem_jobs s) |>, inl (Some j))
  end.
(** In the order of a map range. *)
Definition List_ (s : MemoryStore) : list VideoJob := (map_to_list (mem_jobs s)).*2.

(** ** The queue *)

Inductive QueueErr := ErrFull | ErrClosed | QueueCtx.
Record Queue := mkQueue { q_size : nat; q_jobs : list VideoJob; q_closed : bool }.
#[global] Instance eta_Queue : Eta Queue := fun q => mkQueue (q_size q) (q_jobs q) (q_closed q).
Definition NewQueue (size : Z) : Queue := mkQueue (Z.to_nat (if size <? 1 then 1 else size)) [] false.
(** [ended] is what the context says on entry. *)
Definition Enqueue (q : Queue) (ended : bool) (j : VideoJob) : Queue * option QueueErr :=
  if ended then (q, Some QueueCtx)
  else if q_closed q then (q, Some ErrClosed)
  else if (length (q_jobs q) <? q_size q)%nat then (q <| q_jobs := q_jobs q ++ [j] |>, None)
  else (q, Some ErrFull).
(** [None] while nothing is queued and the queue is open. *)
Definition Next (q : Queue) : option (Queue * (VideoJob + unit)) :=
  match q_jobs q with
  | j :: l => Some (q <| q_jobs := l |>, inl j)
  | [] => if q_closed q then Some (q, inr tt) else None
  end.
Definition Len (q : Queue) : nat := length (q_jobs q).
Definition Close (q : Queue) : Queue := q <| q_closed := true |>.

(** ** Coherence of the store *)

(** Jobs are stored under their own non-empty identifier, and the key table is
    the relation between non-empty keys and the jobs that carry them. *)
Record jobs_ok (s : MemoryStore) : Prop := {
  jobs_id : forall id j, mem_jobs s !! id = Some j -> vj_JobID j = id /\ id <> "";
  jobs_idem : forall k id, mem_idem s !! k = Some id <-> k <> "" /\ exists j, mem_jobs s !! id = Some j /\ vj_IdempotencyKey j = k }.

Inductive JobOp := OpCreate (j : VideoJob) | OpUpdate (j : VideoJob) | OpDelete (id : string) | OpClaim (id owner : string) (ttl : Duration) (now : Time).
Definition job_step (s : MemoryStore) (op : JobOp) : MemoryStore :=
  match op with
  | OpCreate j => fst (Create s j)
  | OpUpdate j => fst (Update s j)
  | OpDelete id => Delete s id
  | OpClaim id owner ttl now => fst (TryClaim s id owner ttl now)
  end.
Definition named (op : JobOp) : Prop := match op with OpCreate j => vj_JobID j <> "" | _ => True end.

Lemma jobs_key_unique s a b i j :
  jobs_ok s -> mem_jobs s !! a = Some i -> mem_jobs s !! b = Some j -> vj_IdempotencyKey i = vj_IdempotencyKey j -> vj_IdempotencyKey i <> "" -> a = b.
Proof.
  intros H Ha Hb E Hne. assert (mem_idem s !! vj_IdempotencyKey i = Some a) as E1 by (apply (jobs_idem s H); eauto).
  assert (mem_idem s !! vj_IdempotencyKey i = Some b) as E2 by (apply (jobs_idem s H); eauto). congruence.
Qed.

(** Writing a job over one with the same key. *)
Lemma set_job_ok s id j old :
  jobs_ok s -> mem_jobs s !! id = Some old -> vj_JobID j = id -> vj_IdempotencyKey j = vj_IdempotencyKey old -> jobs_ok (s <| mem_jobs := <[id := j]> (mem_jobs s) |>).
Proof.
  intros H Hold Hj Hk. split; cbn.
  - intros id' j' [[<- <-]|[_ Hj']]%lookup_insert_Some; [split; [done|]; by apply (jobs_id s H) in Hold as [_ ?]|by apply (jobs_id s H)].
  - intros k id'. rewrite (jobs_idem s H k id'). destruct (decide (id = id')) as [<-|Hne].
    + rewrite lookup_insert_eq, Hold. naive_solver.
    + by rewrite lookup_insert_ne.
Qed.

Lemma job_create_ok s j : jobs_ok s -> vj_JobID j <> "" -> jobs_ok (fst (Create s j)).
Proof.
  intros H Hid. unfold Create. case_bool_decide as Hnew; [done|]. assert (mem_jobs s !! vj_JobID j = None) as Hn by (by apply eq_None_not_Some).
  destruct (String.eqb_spec (vj_IdempotencyKey j) "") as [Ek|Ek].
  - split; cbn.
    + intros id' j' [[<- <-]|[_ Hj']]%lookup_insert_Some; [done|by apply (jobs_id s H)].
    + intros k id'. rewrite (jobs_idem s H k id'). destruct (decide (vj_JobID j = id')) as [<-|Hne]; [rewrite lookup_insert_eq, Hn; naive_solver|by rewrite lookup_insert_ne].
  - destruct (String.eqb_spec (map_get "" (mem_idem s) (vj_IdempotencyKey j)) "") as [Eg|_]; [|done]. cbn [negb fst]. split; cbn.
    + intros id' j' [[<- <-]|[_ Hj']]%lookup_insert_Some; [done|by apply (jobs_id s H)].
    + intros k id'. assert (mem_idem s !! vj_IdempotencyKey j = None) as Hfree.
      { unfold map_get in Eg. destruct (mem_idem s !! vj_IdempotencyKey j) as [i|] eqn:Ei; [|done]. exfalso. cbn in Eg. subst i.
        apply (jobs_idem s H) in Ei as (_ & j' & Hj' & _). by apply (jobs_id s H) in Hj' as [_ ?]. }
      destruct (decide (vj_IdempotencyKey j = k)) as [<-|Hk].
      * rewrite lookup_insert_eq. destruct (decide (vj_JobID j = id')) as [<-|Hne]; [rewrite lookup_insert_eq; naive_solver|].
        rewrite lookup_insert_ne by done. split; [by intros [= ?]|]. intros Hex. apply (jobs_idem s H) in Hex. congruence.
      * rewrite lookup_insert_ne by done. rewrite (jobs_idem s H k id'). destruct (decide (vj_JobID j = id')) as [<-|Hne]; [rewrite lookup_insert_eq, Hn; naive_solver|by rewrite lookup_insert_ne].
Qed.

Lemma job_update_ok s j : jobs_ok s -> jobs_ok (fst (Update s j)).
Proof.
  intros H. unfold Update. destruct (mem_jobs s !! vj_JobID j) as [old|] eqn:Eo; [|done]. destruct (checkTerminalUpdate old j); [done|].
  destruct (String.eqb_spec (vj_IdempotencyKey j) (vj_IdempotencyKey old)) as [Ek|Ek]; [by apply (set_job_ok s _ j old)|].
  destruct (_ && _) eqn:Ec; [done|]. cbn [fst]. destruct (jobs_id s H _ _ Eo) as [_ Hid]. split; cbn.
  { intros id' j' [[<- <-]|[_ Hj']]%lookup_insert_Some; [done|by apply (jobs_id s H)]. }
  intros k id'.
  assert (forall k, (if String.eqb (vj_IdempotencyKey old) "" then mem_idem s else delete (vj_IdempotencyKey old) (mem_idem s)) !! k = Some id'
            <-> k <> "" /\ id' <> vj_JobID j /\ exists j', mem_jobs s !! id' = Some j' /\ vj_IdempotencyKey j' = k) as Hdel.
  { intros k'. destruct (String.eqb_spec (vj_IdempotencyKey old) "") as [E0|E0].
    - rewrite (jobs_idem s H). split; [|naive_solver]. intros (Hk & j' & Hj' & Ej). split_and!; [done| |eauto]. intros ->. congruence.
    - destruct (decide (k' = vj_IdempotencyKey old)) as [->|Hk].
      + rewrite lookup_delete_eq. split; [done|]. intros (_ & Hne & j' & Hj' & Ej). exfalso. apply Hne. by eapply (jobs_key_unique s); eauto; congruence.
      + rewrite lookup_delete_ne by done. rewrite (jobs_idem s H). split; [|naive_solver]. intros (Hk' & j' & Hj' & Ej). split_and!; [done| |eauto]. intros ->. congruence. }
  destruct (decide (vj_JobID j = id')) as [<-|Hne].
  - rewrite lookup_insert_eq. destruct (String.eqb_spec (vj_IdempotencyKey j) "") as [E0|E0].
    + rewrite Hdel. naive_solver.
    + destruct (decide (vj_IdempotencyKey j = k)) as [<-|Hk]; [rewrite lookup_insert_eq; naive_solver|]. rewrite lookup_insert_ne, Hdel by done. naive_solver.
  - rewrite lookup_insert_ne by done. destruct (String.eqb_spec (vj_IdempotencyKey j) "") as [E0|E0]; [rewrite Hdel; naive_solver|].
    destruct (decide (vj_IdempotencyKey j = k)) as [<-|Hk]; [|rewrite lookup_insert_ne, Hdel by done; naive_solver].
    rewrite lookup_insert_eq. split; [by intros [= ?]|]. intros Hex. exfalso. apply (jobs_idem s H) in Hex. cbn [negb andb] in Ec. rewrite Hex in Ec.
    apply negb_false_iff, String.eqb_eq in Ec. congruence.
Qed.

Lemma job_step_ok s op : jobs_ok s -> named op -> jobs_ok (job_step s op).
Proof.
  intros H Hn. destruct op as [j|j|id|id owner ttl now]; cbn [job_step named] in *; [by apply job_create_ok|by apply job_update_ok| |].
  - unfold Delete. destruct (mem_jobs s !! id) as [j|] eqn:Ej; [|done]. split; cbn.
    + intros id' j' [_ Hj']%lookup_delete_Some. by apply (jobs_id s H).
    + intros k id'. destruct (String.eqb_spec (vj_IdempotencyKey j) "") as [E0|E0].
      * rewrite (jobs_idem s H). setoid_rewrite lookup_delete_Some. naive_solver congruence.
      * setoid_rewrite lookup_delete_Some. rewrite (jobs_idem s H). split.
        -- intros (Hk & Hk0 & j' & Hj' & Ej'). split; [done|]. exists j'. split_and!; [|done|done]. intros ->. congruence.
        -- intros (Hk0 & j' & (Hne & Hj') & Ej'). split_and!; [|done|eauto]. intros <-. apply Hne. by eapply (jobs_key_unique s); eauto; congruence.
  - unfold TryClaim. destruct (mem_jobs s !! id) as [j|] eqn:Ej; [|done]. destruct (negb _); [done|]. cbn [fst].
    destruct (jobs_id s H id j Ej) as [Hid _]. by apply (set_job_ok s id _ j).
Qed.

Lemma job_run_ok ops : forall s, jobs_ok s -> Forall named ops -> jobs_ok (fold_left job_step ops s).
Proof. induction ops as [|op ops IH]; intros s H Hn; [done|]. apply Forall_cons in Hn as [H1 H2]. cbn. apply IH; [|done]. by apply job_step_ok. Qed.

(** ** What is final *)

Lemma feq_same (x y : float64) : feq x y = true -> x = y \/ (exists s, x = S754_zero s) /\ exists s, y = S754_zero s.
Proof.
  unfold feq, SFeqb. destruct x as [s|s| |s m e], y as [t|t| |t n f]; cbn; try (destruct s); try (destruct t); try discriminate; eauto.
  all: destruct (Z.compare_spec e f) as [->| |]; try discriminate; change (Pos.compare_cont Eq m n) with (Pos.compare m n).
  all: destruct (Pos.compare_spec m n) as [->| |]; try discriminate; by left.
Qed.
(** The same number; the two zeros are one. *)
Definition same_amount (x y : float64) : Prop := x = y \/ (exists s, x = S754_zero s) /\ exists s, y = S754_zero s.
Lemma same_amount_trans x y z : same_amount x y -> same_amount y z -> same_amount x z.
Proof. unfold same_amount. naive_solver. Qed.

(** The same record but for its lease: every field that is not a number is equal
    ([erase] only blanks the numbers), and every number is the same. *)
Definition unleased (j : VideoJob) : VideoJob := j <| vj_LeaseOwner := "" |> <| vj_LeaseUntil := 0 |>.
Definition settled_as (a b : VideoJob) : Prop := erase (unleased a) = erase (unleased b) /\ Forall2 same_amount (floats a) (floats b).
Lemma settled_same a b : erase a = erase b -> Forall2 same_amount (floats a) (floats b) -> settled_as a b.
Proof.
  intros E Hf. split; [|exact Hf]. assert (forall j, erase (unleased j) = unleased (erase j)) as Hc by (by intros []).
  etransitivity; [apply Hc|]. etransitivity; [apply (f_equal unleased E)|]. symmetry. apply Hc.
Qed.
Lemma same_amounts l : Forall2 same_amount l l.
Proof. apply Forall_Forall2_diag, Forall_true. by left. Qed.
Lemma settled_lease j owner until : settled_as j (lease_to j owner until).
Proof. split; [by destruct j|]. destruct j. apply same_amounts. Qed.
Lemma settled_refl j : settled_as j j.
Proof. split; [reflexivity|apply same_amounts]. Qed.
Lemma Forall2_trans_amounts l l' l'' : Forall2 same_amount l l' -> Forall2 same_amount l' l'' -> Forall2 same_amount l l''.
Proof. intros H. revert l''. induction H; inversion 1; subst; constructor; eauto using same_amount_trans. Qed.
Lemma settled_trans a b c : settled_as a b -> settled_as b c -> settled_as a c.
Proof. intros [E1 F1] [E2 F2]. split; [congruence|]. by eapply Forall2_trans_amounts. Qed.
Lemma settled_terminal a b : settled_as a b -> IsTerminal b = IsTerminal a.
Proof. intros [E _]. apply (f_equal IsTerminal) in E. by destruct a, b. Qed.

#[local] Opaque erase DeepEqual lease_to.
Lemma create_final s k id j : mem_jobs s !! id = Some j -> mem_jobs (fst (Create s k)) !! id = Some j.
Proof.
  intros Hj. unfold Create. case_bool_decide as Hn; [exact Hj|]. assert (vj_JobID k <> id) as Hne by (intros E; apply Hn; rewrite E; eauto).
  destruct (String.eqb _ _); [|destruct (negb _); [exact Hj|]]; cbn [fst]; (etransitivity; [apply (lookup_insert_ne (mem_jobs s)); exact Hne|exact Hj]).
Qed.
Lemma update_final s k id j : mem_jobs s !! id = Some j -> IsTerminal j = true -> exists j', mem_jobs (fst (Update s k)) !! id = Some j' /\ (j' = j \/ DeepEqual j j' = true).
Proof.
  intros Hj Ht. assert (exists j', mem_jobs s !! id = Some j' /\ (j' = j \/ DeepEqual j j' = true)) as Hsame by (exists j; split; [exact Hj|by left]).
  unfold Update. destruct (mem_jobs s !! vj_JobID k) as [old|] eqn:Eo; [|exact Hsame]. destruct (checkTerminalUpdate old k) eqn:Ec; [exact Hsame|].
  assert (exists j', <[vj_JobID k := k]> (mem_jobs s) !! id = Some j' /\ (j' = j \/ DeepEqual j j' = true)) as Hw.
  { destruct (decide (vj_JobID k = id)) as [E|Hne]; [|rewrite lookup_insert_ne by done; exact Hsame]. rewrite E, lookup_insert_eq. exists k. split; [reflexivity|]. right.
    rewrite E, Hj in Eo. injection Eo as <-. unfold checkTerminalUpdate in Ec. rewrite Ht in Ec. cbn [negb] in Ec. by destruct (DeepEqual j k). }
  destruct (String.eqb _ _); [exact Hw|]. destruct (_ && _); [exact Hsame|exact Hw].
Qed.
Lemma claim_final s id' owner ttl now id j : mem_jobs s !! id = Some j ->
  exists j', mem_jobs (fst (TryClaim s id' owner ttl now)) !! id = Some j' /\ (j' = j \/ j' = lease_to j owner (Add now ttl)).
Proof.
  intros Hj. assert (exists j', mem_jobs s !! id = Some j' /\ (j' = j \/ j' = lease_to j owner (Add now ttl))) as Hsame by (exists j; split; [exact Hj|by left]).
  unfold TryClaim. destruct (mem_jobs s !! id') as [k|] eqn:Ek; [|exact Hsame]. destruct (negb _); [exact Hsame|]. cbn [fst].
  change (exists j', <[id' := lease_to k owner (Add now ttl)]> (mem_jobs s) !! id = Some j' /\ (j' = j \/ j' = lease_to j owner (Add now ttl))).
  destruct (decide (id' = id)) as [->|Hne]; [|rewrite lookup_insert_ne by done; exact Hsame]. rewrite lookup_insert_eq. rewrite Hj in Ek. injection Ek as ->. eauto.
Qed.
Lemma deep_settled a b : DeepEqual a b = true -> settled_as a b.
Proof.
  Transparent DeepEqual. unfold DeepEqual. intros H. apply andb_true_iff in H as [H Hf]. apply andb_true_iff in H as [H Hl]. apply bool_decide_eq_true in H, Hl.
  apply settled_same; [done|]. clear H. revert Hl Hf. generalize (floats a), (floats b). intros l. induction l as [|x l IH]; intros [|y l'] Hl; try done.
  cbn. rewrite andb_true_iff. intros [Hx Hf]. constructor; [by apply feq_same|]. apply IH; [|done]. by injection Hl.
Qed.
#[local] Opaque DeepEqual.
Lemma job_step_final s op id j :
  mem_jobs s !! id = Some j -> IsTerminal j = true -> op <> OpDelete id ->
  exists j', mem_jobs (job_step s op) !! id = Some j' /\ settled_as j j'.
Proof.
  intros Hj Ht Hop. destruct op as [k|k|id'|id' owner ttl now]; cbn [job_step].
  - exists j. split; [by apply create_final|apply settled_refl].
  - destruct (update_final s k id j Hj Ht) as (j' & Hj' & [-> | Hd]); eexists; (split; [exact Hj'|]); [apply settled_refl|by apply deep_settled].
  - exists j. split; [|apply settled_refl]. unfold Delete. destruct (mem_jobs s !! id'); [|exact Hj]. cbn [mem_jobs]. rewrite lookup_delete_ne by congruence. exact Hj.
  - destruct (claim_final s id' owner ttl now id j Hj) as (j' & Hj' & [-> | ->]); eexists; (split; [exact Hj'|]); [apply settled_refl|apply settled_lease].
Qed.

(** ** The properties *)

(** (C5) Along every sequence of store operations that creates jobs under
    non-empty identifiers only, the job store is coherent: jobs are stored under
    their own identifiers and the key table is exactly the relation between the
    non-empty idempotency keys and the jobs that carry them; and a job that ended
    (or was force-failed) stays, until it is deleted, the record it was in every
    field, numbers included (the two zeros being one number), but for its lease. *)
Theorem job_store_invariant (ops : list JobOp) :
  Forall named ops ->
  jobs_ok (fold_left job_step ops NewMemoryStore)
  /\ forall before after id j, ops = before ++ after -> ~ In (OpDelete id) after ->
       mem_jobs (fold_left job_step before NewMemoryStore) !! id = Some j -> IsTerminal j = true ->
       exists j', mem_jobs (fold_left job_step ops NewMemoryStore) !! id = Some j' /\ settled_as j j'.
Proof.
  intros Hn. assert (jobs_ok NewMemoryStore) as H0 by (split; [done|]; intros k id; split; [done|intros (_ & j & Hj & _); done]).
  split; [by apply job_run_ok|]. intros before after id j -> Hd Hj Ht. apply Forall_app in Hn as [Hb Ha]. rewrite fold_left_app.
  pose proof (job_run_ok before NewMemoryStore H0 Hb) as Hok. set (s := fold_left job_step before NewMemoryStore) in *. clearbody s. clear H0 Hb.
  revert s j Hj Ht Hok. induction after as [|op after IH]; intros s j Hj Ht Hok; [exists j; split; [done|apply settled_refl]|]. apply Forall_cons in Ha as [Hop Ha]. cbn [fold_left].
  destruct (job_step_final s op id j Hj Ht) as (j1 & Hj1 & E1); [intros ->; apply Hd; by left|].
  destruct (IH Ha) with (s := job_step s op) (j := j1) as (j2 & Hj2 & E2); [intros Hin; apply Hd; by right|done|by rewrite (settled_terminal j j1)|by apply job_step_ok|].
  exists j2. split; [done|by eapply settled_trans].
Qed.
(** A cancelled job keeps its record while another one is claimed and an update
    of it is refused. *)
Definition blank_job (id key : string) (s : JobState) : VideoJob :=
  NewJob id (mkRequest SchemaVersion "p" "" "prompt" "" ModeTextToVideo "" "" f_zero Aspect16x9 0 0 24 false false [] None None [] [] [] None [] [] "" "" "mp4" "" key f_zero false PriorityNormal) 0 <| vj_State := s |>.
Definition demo_ops : list JobOp :=
  [OpCreate (blank_job "a" "k" StateQueued); OpUpdate (blank_job "a" "k" StateCancelled); OpCreate (blank_job "b" "" StateQueued);
   OpUpdate (blank_job "a" "k" StateQueued); OpClaim "b" "me" Minute 5; OpCreate (blank_job "c" "k" StateQueued)].
Lemma job_store_invariant_witness :
  Forall named demo_ops /\ exists j', mem_jobs (fold_left job_step demo_ops NewMemoryStore) !! "a" = Some j' /\ settled_as (blank_job "a" "k" StateCancelled) j'.
Proof.
  assert (Forall named demo_ops) as Hn by (repeat apply Forall_cons_2; [done..|by apply Forall_nil_2]). split; [done|].
  destruct (job_store_invariant demo_ops Hn) as [_ H].
  apply (H [OpCreate (blank_job "a" "k" StateQueued); OpUpdate (blank_job "a" "k" StateCancelled)] (skipn 2 demo_ops) "a"); [reflexivity| |vm_compute; reflexivity|reflexivity].
  cbn. intros Hin. repeat destruct Hin as [Hin|Hin]; done.
Defined.
