(* ===== verification/VideoCost.v ===== *)
(** * Prices and the cost ledger of video jobs ([src/internal/video/cost/ledger.go])

    Amounts are floats, so the totals of the ledger are sums in the order of the
    operations.  What does not depend on rounding is the life of a job's
    reservation: it is reserved at most once, settled to at most one actual
    amount, and a settled or released reservation never becomes reserved again. *)

From S2P Require Import Prelude Text Video.

Record CostEstimate := mkEstimate {
  ce_Provider : string; ce_Model : string; ce_Currency : string; ce_EstimatedUSD : float64; ce_UpperBoundUSD : float64; ce_PriceKnown : bool;
  ce_BillableSeconds : float64; ce_Breakdown : list (string * float64) }.
#[global] Instance eta_CostEstimate : Eta CostEstimate := fun e =>
  mkEstimate (ce_Provider e) (ce_Model e) (ce_Currency e) (ce_EstimatedUSD e) (ce_UpperBoundUSD e) (ce_PriceKnown e) (ce_BillableSeconds e) (ce_Breakdown e).
Inductive CostErr := ErrBudgetExceeded | ErrUnknownPrice | ErrInvalidEstimate | JobIDRequired | AlreadyFinalized (job : string) | ConflictingActual (job : string).
#[global] Instance CostErr_eq_dec : EqDecision CostErr.
Proof. solve_decision. Defined.

(** ** The price book *)

Record Price := mkPrice { PerSecondUSD : float64; FixedUSD : float64; Known : bool }.
Abbreviation Book := (gmap string Price) (only parsing).
Definition Set_ (b : Book) (provider model : string) (p : Price) : Book := <[provider +:+ "/" +:+ model := p]> b.
Definition bad (x : float64) : bool := IsNaN x || IsInf x.
Definition Estimate (b : Book) (provider model : string) (r : VideoRequest) : CostEstimate + CostErr :=
  match b !! (provider +:+ "/" +:+ model) with
  | None => inr ErrUnknownPrice
  | Some p =>
      if negb (Known p) then inr ErrUnknownPrice
      else if (PerSecondUSD p <? f_zero)%f64 || (FixedUSD p <? f_zero)%f64 || bad (PerSecondUSD p) || bad (FixedUSD p) then inr ErrInvalidEstimate
      else
        let v := (FixedUSD p + PerSecondUSD p * vr_DurationSeconds r)%f64 in
        if bad v then inr ErrInvalidEstimate else inl (mkEstimate provider model "USD" v v true (vr_DurationSeconds r) [])
  end.

(** ** The ledger *)

Inductive reservationState := reservedState | actualSettledState | estimateSettledState | releasedState.
#[global] Instance reservationState_eq_dec : EqDecision reservationState.
Proof. solve_decision. Defined.
Record reservation := mkRes { rv_estimate : CostEstimate; rv_state : reservationState; rv_actual : float64 }.
#[global] Instance eta_reservation : Eta reservation := fun r => mkRes (rv_estimate r) (rv_state r) (rv_actual r).
Record Ledger := mkLedger {
  l_spent : float64; l_estimatedSpent : float64; l_reserved : float64; l_entries : list CostEstimate; l_byJob : gmap string reservation; l_legacySeq : Z }.
#[global] Instance eta_Ledger : Eta Ledger := fun l => mkLedger (l_spent l) (l_estimatedSpent l) (l_reserved l) (l_entries l) (l_byJob l) (l_legacySeq l).
Definition NewLedger : Ledger := mkLedger f_zero f_zero f_zero [] ∅ 0.

Definition validEstimate (e : CostEstimate) : bool :=
  ce_PriceKnown e && (ce_EstimatedUSD e >=? f_zero)%f64 && (ce_UpperBoundUSD e >=? ce_EstimatedUSD e)%f64 && (ce_UpperBoundUSD e >=? f_zero)%f64
  && negb (bad (ce_EstimatedUSD e)) && negb (bad (ce_UpperBoundUSD e)).
(** [x -= y] with zero as the floor. *)
Definition lower (x y : float64) : float64 := let d := (x - y)%f64 in if (d <? f_zero)%f64 then f_zero else d.

Definition ReserveForJob (l : Ledger) (jobID : string) (e : CostEstimate) (max : float64) : Ledger * option CostErr :=
  if String.eqb jobID "" then (l, Some JobIDRequired)
  else if negb (validEstimate e) then (l, Some (if ce_PriceKnown e then ErrInvalidEstimate else ErrUnknownPrice))
  else if (max <? f_zero)%f64 || bad max then (l, Some ErrInvalidEstimate)
  else if (max >? f_zero)%f64 && (ce_UpperBoundUSD e >? max)%f64 then (l, Some ErrBudgetExceeded)
  else match l_byJob l !! jobID with
  | Some old => if bool_decide (rv_state old = reservedState) then (l, None) else (l, Some (AlreadyFinalized jobID))
  | None =>
      (l <| l_byJob := <[jobID := mkRes e reservedState f_zero]> (l_byJob l) |> <| l_reserved := (l_reserved l + ce_UpperBoundUSD e)%f64 |>
         <| l_entries := l_entries l ++ [e] |>, None)
  end.
Definition Reserve (l : Ledger) (e : CostEstimate) (max : float64) : Ledger * option CostErr :=
  let l := l <| l_legacySeq := uint64 (l_legacySeq l + 1) |> in ReserveForJob l ("legacy-" +:+ Itoa (l_legacySeq l)) e max.
Definition ReleaseForJob (l : Ledger) (jobID : string) : Ledger :=
  match l_byJob l !! jobID with
  | Some r =>
      if bool_decide (rv_state r = reservedState)
      then l <| l_reserved := lower (l_reserved l) (ce_UpperBoundUSD (rv_estimate r)) |> <| l_byJob := <[jobID := r <| rv_state := releasedState |>]> (l_byJob l) |>
      else l
  | None => l
  end.
Definition flat_estimate (usd : float64) : CostEstimate := mkEstimate "" "" "" usd usd true f_zero [].
(** The reservation counts as spent: [r] is stored as settled to [actual]. *)
Definition settle_to (l : Ledger) (jobID : string) (r : reservation) (actual fallback : float64) : Ledger :=
  let e := rv_estimate r in
  let e := if (ce_EstimatedUSD e =? f_zero)%f64 then e <| ce_EstimatedUSD := fallback |> else e in
  l <| l_spent := (l_spent l + actual)%f64 |> <| l_byJob := <[jobID := mkRes e actualSettledState actual]> (l_byJob l) |>.
Definition SettleActual (l : Ledger) (jobID : string) (actual estimateFallback : float64) : Ledger * option CostErr :=
  if String.eqb jobID "" || (actual <? f_zero)%f64 || bad actual || (estimateFallback <? f_zero)%f64 || bad estimateFallback then (l, Some ErrInvalidEstimate)
  else match l_byJob l !! jobID with
  | None => (settle_to l jobID (mkRes (flat_estimate estimateFallback) reservedState f_zero) actual estimateFallback, None)
  | Some r =>
      match rv_state r with
      | actualSettledState => if (rv_actual r =? actual)%f64 then (l, None) else (l, Some (ConflictingActual jobID))
      | estimateSettledState => (settle_to (l <| l_estimatedSpent := lower (l_estimatedSpent l) (ce_EstimatedUSD (rv_estimate r)) |>) jobID r actual estimateFallback, None)
      | reservedState => (settle_to (l <| l_reserved := lower (l_reserved l) (ce_UpperBoundUSD (rv_estimate r)) |>) jobID r actual estimateFallback, None)
      | releasedState => (settle_to l jobID r actual estimateFallback, None)
      end
  end.
Definition estimate_to (l : Ledger) (jobID : string) (r : reservation) (usd : float64) : Ledger :=
  l <| l_byJob := <[jobID := mkRes (rv_estimate r <| ce_EstimatedUSD := usd |>) estimateSettledState (rv_actual r)]> (l_byJob l) |>
    <| l_estimatedSpent := (l_estimatedSpent l + usd)%f64 |>.
Definition SettleEstimate (l : Ledger) (jobID : string) (usd : float64) : Ledger * option CostErr :=
  if String.eqb jobID "" || (usd <? f_zero)%f64 || bad usd then (l, Some ErrInvalidEstimate)
  else match l_byJob l !! jobID with
  | None => (estimate_to l jobID (mkRes (flat_estimate usd) reservedState f_zero) usd, None)
  | Some r =>
      match rv_state r with
      | estimateSettledState | actualSettledState => (l, None)
      | reservedState => (estimate_to (l <| l_reserved := lower (l_reserved l) (ce_UpperBoundUSD (rv_estimate r)) |>) jobID r usd, None)
      | releasedState => (estimate_to l jobID r usd, None)
      end
  end.
(** Estimate, actual, delta and whether the job is reconciled. *)
Definition Reconciliation (l : Ledger) (jobID : string) : option (float64 * float64 * float64 * bool) :=
  match l_byJob l !! jobID with
  | None => None
  | Some r =>
      let valid (x : float64) := negb (bad x) && (x >=? f_zero)%f64 in
      let est := if valid (ce_EstimatedUSD (rv_estimate r)) then ce_EstimatedUSD (rv_estimate r) else f_zero in
      let act := if valid (rv_actual r) then rv_actual r else f_zero in
      match rv_state r with
      | actualSettledState =>
          if valid (ce_EstimatedUSD (rv_estimate r)) && valid (rv_actual r) then Some (est, act, (act - est)%f64, true) else Some (est, act, f_zero, false)
      | _ => Some (est, f_zero, f_zero, false)
      end
  end.

(** ** The life of a reservation *)

Inductive LedgerOp :=
| LReserve (job : string) (e : CostEstimate) (max : float64) | LRelease (job : string) | LActual (job : string) (actual fallback : float64) | LEstimate (job : string) (usd : float64).
Definition ledger_step (l : Ledger) (op : LedgerOp) : Ledger :=
  match op with
  | LReserve job e max => fst (ReserveForJob l job e max)
  | LRelease job => ReleaseForJob l job
  | LActual job actual fallback => fst (SettleActual l job actual fallback)
  | LEstimate job usd => fst (SettleEstimate l job usd)
  end.
Definition state_of (l : Ledger) (job : string) : option reservationState := rv_state <$> l_byJob l !! job.
(** The life of a job's record. *)
Inductive life : option reservationState -> option reservationState -> Prop :=
| life_reserve : life None (Some reservedState)
| life_release : life (Some reservedState) (Some releasedState)
| life_estimate st : st ∈ [None; Some reservedState; Some releasedState] -> life st (Some estimateSettledState)
| life_actual st : st <> Some actualSettledState -> life st (Some actualSettledState).

(** What an operation does to the books: it touches the record of one job at
    most, moves it one step, and adds to the money spent exactly when that record
    becomes settled to an actual amount, which then stays. *)
Definition op_job (op : LedgerOp) : string := match op with LReserve j _ _ | LRelease j | LActual j _ _ | LEstimate j _ => j end.
Definition same_books (l l' : Ledger) (job : string) : Prop := l_byJob l' !! job = l_byJob l !! job.
Definition booked (l l' : Ledger) (job : string) : Prop :=
  l_spent l' = l_spent l /\ (same_books l l' job \/ life (state_of l job) (state_of l' job) /\ state_of l' job <> Some actualSettledState)
  \/ state_of l job <> Some actualSettledState
     /\ exists a, l_spent l' = (l_spent l + a)%f64 /\ state_of l' job = Some actualSettledState /\ rv_actual <$> l_byJob l' !! job = Some a.

#[local] Opaque fadd fsub feq flt fle.
Lemma ledger_step_other l op job : op_job op <> job -> same_books l (ledger_step l op) job.
Proof.
  unfold same_books. destruct op as [j e max|j|j a f|j u]; cbn [op_job ledger_step]; intros Hne.
  - unfold ReserveForJob. repeat case_match; cbn; try done. by rewrite lookup_insert_ne.
  - unfold ReleaseForJob. repeat case_match; cbn; try done. by rewrite lookup_insert_ne.
  - unfold SettleActual, settle_to. repeat case_match; cbn; try done; by rewrite lookup_insert_ne.
  - unfold SettleEstimate, estimate_to. repeat case_match; cbn; try done; by rewrite lookup_insert_ne.
Qed.
Lemma booked_same l job : booked l l job.
Proof. left. split; [done|by left]. Qed.
Lemma ledger_step_booked l op : booked l (ledger_step l op) (op_job op).
Proof.
  destruct op as [j e max|j|j a f|j u]; cbn [op_job ledger_step].
  - unfold ReserveForJob. repeat case_match; cbn [fst]; try apply booked_same.
    left. split; [done|]. right. unfold state_of. cbn. rewrite lookup_insert_eq. match goal with H : l_byJob l !! j = None |- _ => rewrite H end. split; [constructor|done].
  - unfold ReleaseForJob. destruct (l_byJob l !! j) as [r|] eqn:E; [|apply booked_same]. case_bool_decide as Hs; [|apply booked_same].
    left. split; [done|]. right. unfold state_of. cbn. rewrite lookup_insert_eq, E. cbn. rewrite Hs. split; [constructor|done].
  - unfold SettleActual. destruct (_ || _); [apply booked_same|]. destruct (l_byJob l !! j) as [r|] eqn:E.
    + destruct (rv_state r) eqn:Es; try (destruct (feq _ _); apply booked_same); right; unfold state_of, settle_to; cbn; rewrite E; cbn; rewrite Es;
        (split; [done|]); exists a; rewrite lookup_insert_eq; done.
    + right. unfold state_of, settle_to. cbn. rewrite E. split; [done|]. exists a. by rewrite lookup_insert_eq.
  - unfold SettleEstimate. destruct (_ || _); [apply booked_same|]. destruct (l_byJob l !! j) as [r|] eqn:E.
    + destruct (rv_state r) eqn:Es; try apply booked_same; left; (split; [done|]); right; unfold state_of, estimate_to; cbn;
        rewrite lookup_insert_eq, E; cbn; rewrite Es; (split; [constructor; set_solver|done]).
    + left. split; [done|]. right. unfold state_of, estimate_to. cbn. rewrite lookup_insert_eq, E. split; [constructor; set_solver|done].
Qed.

Definition settled (l : Ledger) (job : string) : Prop := state_of l job = Some actualSettledState.
Definition add_charge (x : float64) (c : string * float64) : float64 := (x + snd c)%f64.
(** [charges] is what the money spent between [l] and [l'] consists of. *)
Definition accounts (l l' : Ledger) (charges : list (string * float64)) : Prop :=
  l_spent l' = fold_left add_charge charges (l_spent l) /\ NoDup (map fst charges)
  /\ (forall job, job ∈ map fst charges <-> ~ settled l job /\ settled l' job)
  /\ forall job a, (job, a) ∈ charges -> rv_actual <$> l_byJob l' !! job = Some a.
Lemma settled_stays l op job : settled l job -> same_books l (ledger_step l op) job.
Proof.
  intros Hs. destruct (decide (op_job op = job)) as [<-|Hne]; [|by apply ledger_step_other].
  destruct (ledger_step_booked l op) as [[_ [H|[H _]]]|[H _]]; [done| |by destruct H]. unfold settled in Hs. rewrite Hs in H.
  inversion H as [| |st Hin|st Hne]; subst; [set_solver|done].
Qed.
Lemma settled_books l l' job : same_books l l' job -> settled l' job <-> settled l job.
Proof. unfold same_books, settled, state_of. by intros ->. Qed.
Lemma fold_charge_app c x charges : fold_left add_charge (charges ++ [c]) x = (fold_left add_charge charges x + snd c)%f64.
Proof. by rewrite fold_left_app. Qed.

Lemma ledger_step_life l op : rtc life (state_of l (op_job op)) (state_of (ledger_step l op) (op_job op)).
Proof.
  destruct (ledger_step_booked l op) as [[_ [H|[H _]]]|(Hb & a & _ & H & _)]; [|by apply rtc_once|rewrite H; apply rtc_once; by constructor].
  unfold same_books in H. unfold state_of. by rewrite H.
Qed.
Lemma accounts_step l l' op charges : accounts l l' charges -> (forall job, settled l job -> settled l' job) -> exists charges', accounts l (ledger_step l' op) charges'.
Proof.
  intros (Hsum & Hnd & Hjobs & Hact) Hstart.
  assert (forall job, settled l' job -> rv_actual <$> l_byJob (ledger_step l' op) !! job = rv_actual <$> l_byJob l' !! job) as Hkeep
    by (intros job Hs; pose proof (settled_stays l' op job Hs) as E; unfold same_books in E; by rewrite E).
  assert (forall job, settled l' job -> settled (ledger_step l' op) job) as Hmono
    by (intros job Hs; apply (settled_books l'); [by apply settled_stays|done]).
  assert (forall job a, (job, a) ∈ charges -> rv_actual <$> l_byJob (ledger_step l' op) !! job = Some a) as Hact'.
  { intros job a Hin. rewrite Hkeep; [by apply Hact|]. apply (Hjobs job). by apply (list_elem_of_fmap_2 fst _ (job, a)). }
  assert (forall job, op_job op <> job -> settled (ledger_step l' op) job <-> settled l' job) as Hother
    by (intros job Hne; apply settled_books; by apply ledger_step_other).
  destruct (ledger_step_booked l' op) as [[Hsp Hb]|(Hbef & a & Hsp & Haft & Ha)].
  - exists charges. split_and!; [by rewrite Hsp|done| |done]. intros job. rewrite Hjobs.
    destruct (decide (op_job op = job)) as [<-|Hne]; [|by rewrite Hother].
    destruct Hb as [Hb|[_ Hb]]; [by rewrite (settled_books _ _ _ Hb)|]. split; [intros [? ?]; split; [done|by apply Hmono]|by intros [_ ?]].
  - exists (charges ++ [(op_job op, a)]). split_and!.
    + by rewrite fold_charge_app, <- Hsum.
    + rewrite map_app. apply NoDup_app. split_and!; [done| |apply NoDup_singleton]. intros job Hin Hj%list_elem_of_singleton. cbn in Hj. subst job.
      by apply Hjobs in Hin as [_ ?].
    + intros job. rewrite map_app, elem_of_app, Hjobs. cbn [map fst]. rewrite list_elem_of_singleton.
      destruct (decide (op_job op = job)) as [<-|Hne]; [|rewrite Hother by done; naive_solver].
      split; [intros _; split; [intros H; by apply Hbef, Hstart|done]|by right].
    + intros job b [Hin|[= -> ->]%list_elem_of_singleton]%elem_of_app; [by apply Hact'|done].
Qed.

(** (C6) The books of a job.  Along every sequence of ledger operations the record
    of a job only moves from nothing to reserved, from reserved to released, from
    any of these to settled by an estimate, and from anything to settled by an
    actual amount, which is final and never replaced.  The money spent grows by
    exactly the actual amounts of the jobs that became settled meanwhile, each
    job charged once. *)
Theorem ledger_charges_once (l : Ledger) (ops : list LedgerOp) :
  let l' := fold_left ledger_step ops l in
  (forall job, rtc life (state_of l job) (state_of l' job) /\ (settled l job -> l_byJob l' !! job = l_byJob l !! job))
  /\ exists charges, accounts l l' charges.
Proof.
  assert (forall ops l0 charges, accounts l l0 charges -> (forall job, settled l job -> settled l0 job) ->
    (forall job, rtc life (state_of l0 job) (state_of (fold_left ledger_step ops l0) job)
       /\ (settled l0 job -> l_byJob (fold_left ledger_step ops l0) !! job = l_byJob l0 !! job))
    /\ exists charges', accounts l (fold_left ledger_step ops l0) charges') as H.
  { clear ops. induction ops as [|op ops IH]; intros l0 charges Hc Hst; cbn [fold_left]; [split; [by split|eauto]|].
    destruct (accounts_step l l0 op charges Hc Hst) as [charges' Hc'].
    assert (forall job, settled l0 job -> settled (ledger_step l0 op) job) as Hmono
      by (intros job Hs; apply (settled_books l0); [by apply settled_stays|done]).
    destruct (IH (ledger_step l0 op) charges' Hc') as [I1 I2]; [by auto|]. split; [|done].
    intros job. destruct (I1 job) as [J1 J2]. split; [|intros Hs; rewrite J2 by auto; by apply settled_stays].
    etrans; [|exact J1]. destruct (decide (op_job op = job)) as [<-|Hne]; [apply ledger_step_life|].
    pose proof (ledger_step_other l0 op job Hne) as E. unfold same_books in E. unfold state_of. by rewrite E. }
  apply (H ops l []); [|done]. split_and!; [done|constructor| |by intros job a ?%not_elem_of_nil]. intros job. cbn. rewrite elem_of_nil. naive_solver.
Qed.
