(* ===== verification/VideoRun.v ===== *)
(** * The video orchestrator ([src/internal/video/orchestrator]: [orchestrator.go], [job_ops.go], [retention.go], parts of [episode.go])

    Several orchestrators share one job store.  Their methods are programs over
    the operations they call (store, queue, ledger, provider, clock, lock): a
    small free monad, so that any number of them can be interleaved at the
    granularity of these calls ([pool_step] below).

    A provider is its identifier and the pure answers of its adapter; what it
    answers to a call is chosen by an oracle.  Jobs with several shots are
    executed by [runEpisodeJob], which is not modelled: [RunJob] takes it as an
    argument.  Timers only delay; a scheduled retry puts the job into a list. *)

From Stdlib Require Import SpecFloat.
From S2P Require Import Prelude Hash Text Video VideoQueue VideoCost.

(** ** Providers *)

Record Capabilities := mkCaps {
  cp_Modes : list string; cp_Models : list string; cp_MaxDurationSeconds : float64; cp_AspectRatios : list string; cp_SupportsAudio : bool;
  cp_SupportsWebhooks : bool; cp_SupportsReferenceFrames : bool; cp_SupportsClipExtension : bool; cp_SupportsVideoEditing : bool;
  cp_SupportsMusicGeneration : bool; cp_SupportsDialogueGeneration : bool }.
Record ProviderJob := mkPJob { pj_ProviderJobID : string; pj_Provider : string; pj_Model : string; pj_Accepted : bool }.
Record ProviderJobStatus := mkStatus {
  ps_ProviderJobID : string; ps_State : JobState; ps_Progress : float64; ps_Usage : list (string * string); ps_Outputs : list Asset; ps_ActualCostUSD : option float64 }.
Record Provider := mkProvider { p_ID : string; p_HandlesNarration : bool; p_ValidateRequest : VideoRequest -> bool; p_EstimateCost : VideoRequest -> option CostEstimate }.

(** ** Programs *)

Inductive OrchErr :=
| EStore (what : string) (e : StoreErr) | ECost (e : CostErr) | ECostStore (e : CostErr) | EQueue (e : QueueErr) | ECtx | EProvider (what : string) | EMsg (msg : string)
| ErrJobLeasedElsewhere | ErrForceFailNotActive | ERequest (e : RequestError).

Inductive Op : Type -> Type :=
| SGet (id : string) : Op (VideoJob + StoreErr)
| SByKey (key : string) : Op (VideoJob + StoreErr)
| SCreate (j : VideoJob) : Op (option StoreErr)
| SUpdate (j : VideoJob) : Op (option StoreErr)
| SClaim (id owner : string) (ttl : Duration) (now : Time) : Op (option VideoJob + StoreErr)
| SList : Op (list VideoJob)
| SDelete (id : string) : Op unit
| QEnqueue (j : VideoJob) : Op (option QueueErr)
| LDo (op : LedgerOp) : Op (option CostErr)
| PCapabilities (p : string) : Op (Capabilities + unit)
| PCreate (p job : string) (r : VideoRequest) : Op (ProviderJob + unit)
| PGet (p id : string) : Op (ProviderJobStatus + unit)
| PCancel (p id : string) : Op bool
| PDownload (p : string) (st : ProviderJobStatus) : Op (list Asset + unit)
| Now : Op Time
| CtxEnded : Op bool
| NewJobID : Op string
| Preflight : Op bool
| ScheduleRetry (j : VideoJob) : Op unit
| Lock (id : string) : Op unit
| Unlock (id : string) : Op unit.

Inductive Prog (A : Type) : Type :=
| Ret (a : A)
| Err (e : OrchErr)
| Do {X : Type} (op : Op X) (k : X -> Prog A).
Arguments Ret {A}.
Arguments Err {A}.
Arguments Do {A X}.
Fixpoint prog_bind {A B} (m : Prog A) (f : A -> Prog B) : Prog B :=
  match m with Ret a => f a | Err e => Err e | Do op k => Do op (fun x => prog_bind (k x) f) end.
#[global] Instance Prog_ret : MRet Prog := fun A a => Ret a.
#[global] Instance Prog_bind : MBind Prog := fun A B f m => prog_bind m f.
Fixpoint attempt {A} (m : Prog A) : Prog (A + OrchErr) :=
  match m with Ret a => Ret (inl a) | Err e => Ret (inr e) | Do op k => Do op (fun x => attempt (k x)) end.
Definition doing {X} (op : Op X) : Prog X := Do op Ret.
Fixpoint each {A} (l : list A) (f : A -> Prog unit) : Prog unit := match l with [] => Ret tt | x :: l => f x;; each l f end.

(** ** Helpers *)

Definition fabs (x : float64) : float64 :=
  match x with S754_zero _ => S754_zero false | S754_infinity _ => S754_infinity false | S754_finite _ m e => S754_finite false m e | S754_nan => S754_nan end.
Definition f_cents5 : float64 := (f_of_int 5 / f_of_int 100)%f64.
Definition is_hex (s : string) : bool :=
  str_forall (fun c => let n := Ascii.nat_of_ascii c in ((48 <=? n) && (n <=? 57) || (97 <=? n) && (n <=? 102) || (65 <=? n) && (n <=? 70))%nat) s && Nat.even (String.length s).
Definition set_pair (k v : string) (m : list (string * string)) : list (string * string) := List.filter (fun kv => negb (String.eqb (fst kv) k)) m ++ [(k, v)].
Definition mergeUsage (dst src : list (string * string)) : list (string * string) := fold_left (fun m kv => set_pair (fst kv) (snd kv) m) src dst.
Definition usage_get (k : string) (m : list (string * string)) : string := match List.find (fun kv => String.eqb (fst kv) k) m with Some (_, v) => v | None => "" end.
Definition validActualCost (v : float64) : bool := (v >=? f_zero)%f64 && negb (bad v).
Definition orchEstimate_ok (e : CostEstimate) : bool :=
  ce_PriceKnown e && (ce_EstimatedUSD e >=? f_zero)%f64 && (ce_UpperBoundUSD e >=? ce_EstimatedUSD e)%f64 && negb (bad (ce_EstimatedUSD e)) && negb (bad (ce_UpperBoundUSD e))
  && EqualFold (TrimSpace (ce_Currency e)) "USD".

Definition hasReferenceInputs (r : VideoRequest) : bool :=
  bool_decide (vr_ReferenceAssets r <> []) || bool_decide (is_Some (vr_FirstFrameAsset r)) || bool_decide (is_Some (vr_LastFrameAsset r))
  || bool_decide (vr_CharacterReferences r <> []) || bool_decide (vr_LocationReferences r <> []) || bool_decide (vr_StyleReferences r <> [])
  || bool_decide (is_Some (vr_ContinuityContext r)) || existsb (fun s => bool_decide (sh_RequiredReferences s <> [])) (vr_ShotPlan r).
(** The request with its model filled in, or why the provider cannot take it. *)
Definition validateProviderRequest (r : VideoRequest) (caps : Capabilities) : VideoRequest + OrchErr :=
  if negb (existsb (String.eqb (vr_Mode r)) (cp_Modes caps)) then inr (EMsg "provider does not advertise support for the video mode")
  else if (cp_MaxDurationSeconds caps <=? f_zero)%f64 || bad (cp_MaxDurationSeconds caps) then inr (EMsg "provider has no verified maximum duration; refusing to assume support")
  else if (vr_DurationSeconds r >? cp_MaxDurationSeconds caps)%f64 then inr (EMsg "requested clip duration exceeds provider maximum")
  else match (if String.eqb (vr_ModelPreference r) "" then match cp_Models caps with [] => inr (EMsg "provider did not advertise a selectable model") | m :: _ => inl (r <| vr_ModelPreference := m |>) end
              else match cp_Models caps with
                   | [] => inr (EMsg "provider did not advertise its model capabilities")
                   | models => if existsb (String.eqb (vr_ModelPreference r)) models then inl r else inr (EMsg "provider does not advertise the model")
                   end) with
  | inr e => inr e
  | inl r =>
      match cp_AspectRatios caps with
      | [] => inr (EMsg "provider did not advertise supported aspect ratios")
      | ratios =>
          if negb (existsb (String.eqb (vr_AspectRatio r)) ratios) then inr (EMsg "provider does not support the aspect ratio")
          else if vr_AudioRequested r && negb (cp_SupportsAudio caps) then inr (EMsg "provider does not support requested audio generation")
          else if vr_DialogueRequested r && negb (cp_SupportsAudio caps) && negb (cp_SupportsDialogueGeneration caps) then inr (EMsg "provider does not support requested dialogue/audio")
          else if hasReferenceInputs r && negb (cp_SupportsReferenceFrames caps) then inr (EMsg "provider does not support reference/first/last-frame inputs")
          else if HasSourceVideo r && negb (cp_SupportsVideoEditing caps) then inr (EMsg "provider does not support video editing (source-video brief)")
          else if IsContinuityExtension r && negb (cp_SupportsClipExtension caps) then inr (EMsg "provider does not support clip extension (continuity brief)")
          else if negb (String.eqb (TrimSpace (vr_CallbackURL r)) "") && negb (cp_SupportsWebhooks caps) then inr (EMsg "provider does not support webhooks/callbacks; refusing a callback that would never fire")
          else if bool_decide (vr_SoundRequirements r <> []) && negb (cp_SupportsMusicGeneration caps) && negb (cp_SupportsAudio caps) then inr (EMsg "provider does not support requested music/sound generation")
          else inl r
      end
  end.

Definition line (label value : string) : list string := let v := TrimSpace value in if String.eqb v "" then [] else [label +:+ v].
Definition nl : string := String (Ascii.ascii_of_nat 10) EmptyString.
Definition shotPrompt (s : Shot) : string :=
  Join ([TrimSpace (sh_Prompt s)] ++ line "Camera movement: " (sh_CameraMovement s) ++ line "Subject action: " (sh_SubjectAction s) ++ line "Starting state: " (sh_StartState s)
        ++ line "Ending state: " (sh_EndState s) ++ flat_map (line "Continuity constraint: ") (sh_ContinuityConstraints s)) nl.
(** [%03d] of a positive number. *)
Definition three (n : nat) : string := pad_left 3 (Itoa (Z.of_nat n)).
Definition buildShotRequest (parent : VideoRequest) (shot : Shot) (index : nat) : VideoRequest :=
  parent <| vr_Prompt := shotPrompt shot |>
    <| vr_NegativePrompt := if String.eqb (TrimSpace (sh_NegativePrompt shot)) "" then vr_NegativePrompt parent else sh_NegativePrompt shot |>
    <| vr_DurationSeconds := sh_DurationSeconds shot |> <| vr_MaxCostUSD := f_zero |> <| vr_ShotPlan := [] |>
    <| vr_ProviderPreference := or_default (sh_Provider shot) (vr_ProviderPreference parent) |> <| vr_ModelPreference := or_default (sh_Model shot) (vr_ModelPreference parent) |>
    <| vr_ReferenceAssets := vr_ReferenceAssets parent ++ sh_RequiredReferences shot |> <| vr_AudioRequested := false |> <| vr_DialogueRequested := false |>
    <| vr_NarrationText := "" |> <| vr_SubtitleLanguage := "" |>
    <| vr_IdempotencyKey := if String.eqb (vr_IdempotencyKey parent) "" then "" else vr_IdempotencyKey parent +:+ "-shot-" +:+ three (S index) |>.
Definition episodeDimensions (r : VideoRequest) : Z * Z :=
  if (0 <? vr_Width r) && (0 <? vr_Height r) then (vr_Width r, vr_Height r)
  else if String.eqb (vr_AspectRatio r) Aspect9x16 then (720, 1280)
  else if String.eqb (vr_AspectRatio r) Aspect1x1 then (1024, 1024) else (1280, 720).

(** ** The orchestrator *)

Record Orchestrator := mkOrch {
  o_Providers : gmap string Provider; o_HasLedger : bool; o_HasAssets : bool; o_HasComposer : bool; o_HasNarrator : bool; o_MaxPolls : Z;
  o_InstanceID : string; o_LeaseTTL : Duration }.
Definition DefaultLeaseTTL : Duration := 5 * Minute.
Definition leaseTTL (o : Orchestrator) : Duration := if 0 <? o_LeaseTTL o then o_LeaseTTL o else DefaultLeaseTTL.
Definition isCostBusinessErr (e : CostErr) : bool := match e with ErrBudgetExceeded | ErrUnknownPrice | ErrInvalidEstimate => true | _ => false end.

Section orchestrator.
(** [strconv.ParseFloat], the check of a callback address, and the sentence that
    explains the choice of the provider. *)
Context (parseFloat : string -> option float64) (https : string -> bool) (describe : VideoRequest -> string -> JobType -> CostEstimate -> string).
Context (o : Orchestrator).

Definition store_err (what : string) (r : option StoreErr) : Prog unit := match r with None => mret tt | Some e => Err (EStore what e) end.
Definition update (what : string) (j : VideoJob) : Prog unit := r ← doing (SUpdate j); store_err what r.
Definition ledger (op : LedgerOp) : Prog (option CostErr) := if o_HasLedger o then doing (LDo op) else mret None.

(** *** Admission *)

Definition bad_duration (d : float64) : bool := (d <=? f_zero)%f64 || bad d.
(** A plan with one shot becomes a plain request. *)
Definition single_shot (r : VideoRequest) (shot : Shot) : VideoRequest + OrchErr :=
  if String.eqb (TrimSpace (sh_ShotID shot)) "" then inr (EMsg "single shot requires shot_id")
  else
    let shot := shot <| sh_Prompt := or_default (sh_Prompt shot) (vr_Prompt r) |> <| sh_NegativePrompt := or_default (sh_NegativePrompt shot) (vr_NegativePrompt r) |> in
    if bad_duration (sh_DurationSeconds shot) then inr (EMsg "shot has an invalid duration")
    else if (vr_DurationSeconds r >? f_zero)%f64 && (fabs (vr_DurationSeconds r - sh_DurationSeconds shot) >? f_cents5)%f64 then inr (EMsg "duration_seconds does not match shot duration")
    else if negb (String.eqb (sh_Provider shot) "") && negb (String.eqb (vr_ProviderPreference r) "") && negb (String.eqb (vr_ProviderPreference r) (sh_Provider shot))
    then inr (EMsg "single shot provider conflicts with provider_preference")
    else if negb (String.eqb (sh_Model shot) "") && negb (String.eqb (vr_ModelPreference r) "") && negb (String.eqb (vr_ModelPreference r) (sh_Model shot))
    then inr (EMsg "single shot model conflicts with model_preference")
    else inl (r <| vr_ProviderPreference := or_default (sh_Provider shot) (vr_ProviderPreference r) |> <| vr_ModelPreference := or_default (sh_Model shot) (vr_ModelPreference r) |>
                <| vr_Prompt := shotPrompt shot |> <| vr_NegativePrompt := sh_NegativePrompt shot |> <| vr_DurationSeconds := sh_DurationSeconds shot |>
                <| vr_ReferenceAssets := vr_ReferenceAssets r ++ sh_RequiredReferences shot |>
                <| vr_AudioRequested := vr_AudioRequested r || bool_decide (sh_SoundRequirements shot <> []) |>
                <| vr_NarrationText := or_default (sh_NarrationSegment shot) (vr_NarrationText r) |> <| vr_ShotPlan := [] |>).
Definition many_shots (r : VideoRequest) : VideoRequest + OrchErr :=
  if existsb (fun s => bad_duration (sh_DurationSeconds s)) (vr_ShotPlan r) then inr (EMsg "shot has an invalid duration")
  else
    let total := fold_left (fun t s => (t + sh_DurationSeconds s)%f64) (vr_ShotPlan r) f_zero in
    if (vr_DurationSeconds r <? f_zero)%f64 || bad (vr_DurationSeconds r) then inr (EMsg "duration_seconds is invalid")
    else if (vr_DurationSeconds r >? f_zero)%f64 && (fabs (vr_DurationSeconds r - total) >? f_cents5)%f64 then inr (EMsg "duration_seconds does not match total shot duration")
    else inl (r <| vr_DurationSeconds := total |>).
(** [Create] up to the normalized and validated request. *)
Definition prepare (r : VideoRequest) : VideoRequest + OrchErr :=
  let r := r <| vr_ShotPlan := map (fun s => s <| sh_OutputAsset := None |>) (vr_ShotPlan r) |> in
  let r := if (1 <? length (vr_ShotPlan r))%nat && String.eqb (TrimSpace (vr_NarrationText r)) ""
           then r <| vr_NarrationText := Join (List.filter (fun s => negb (String.eqb s "")) (map (fun s => TrimSpace (sh_NarrationSegment s)) (vr_ShotPlan r))) (nl +:+ nl) |> else r in
  match (match vr_ShotPlan r with [] => inl r | [shot] => single_shot r shot | _ => many_shots r end) with
  | inr e => inr e
  | inl r => let r := Normalized r in match Validate https r with Some e => inr (ERequest e) | None => inl r end
  end.
(** The rules on narration, subtitles and picture size. *)
Definition narration_gate (r : VideoRequest) : option OrchErr :=
  let handles := negb (String.eqb (TrimSpace (vr_ProviderPreference r)) "")
                 && match o_Providers o !! vr_ProviderPreference r with Some p => p_HandlesNarration p | None => false end in
  let narrated := negb (String.eqb (TrimSpace (vr_NarrationText r)) "") in
  if negb (String.eqb (TrimSpace (vr_SubtitleLanguage r)) "") && negb narrated && negb handles then Some (EMsg "subtitle_language requires narration_text or per-shot narration_segment values")
  else if narrated && negb handles && (length (vr_ShotPlan r) <? 2)%nat then Some (EMsg "gateway narration requires a multi-shot episode with at least two shots")
  else if narrated && negb handles && negb (o_HasNarrator o) then Some (EMsg "narration_text requires video.piper_enabled with a valid local Piper model")
  else if narrated && negb handles && (vr_AudioRequested r || vr_DialogueRequested r) then Some (EMsg "local Piper supports narration only; provider audio and dialogue generation are not configured")
  else if narrated && negb handles && existsb (fun s => bool_decide (sh_SoundRequirements s <> [])) (vr_ShotPlan r) then Some (EMsg "a shot requests sound effects but only narration synthesis is configured")
  else if (1 <? length (vr_ShotPlan r))%nat && (negb (Z.rem (fst (episodeDimensions r)) 2 =? 0) || negb (Z.rem (snd (episodeDimensions r)) 2 =? 0))
  then Some (EMsg "multi-shot episode dimensions must be even for H.264 composition") else None.

Definition add_breakdown (m : list (string * float64)) (kv : string * float64) : list (string * float64) :=
  let cur := match List.find (fun e => String.eqb (fst e) (fst kv)) m with Some (_, v) => v | None => f_zero end in
  List.filter (fun e => negb (String.eqb (fst e) (fst kv))) m ++ [(fst kv, (cur + snd kv)%f64)].
Fixpoint plan_shots (p : Provider) (caps : Capabilities) (r : VideoRequest) (shots : list Shot) (i : nat) (seen : list string) (model : string) (total : CostEstimate)
    : string * CostEstimate + OrchErr :=
  match shots with
  | [] => inl (model, total)
  | shot :: shots =>
      let shotID := TrimSpace (sh_ShotID shot) in
      if existsb (String.eqb shotID) seen then inr (EMsg "shot_plan contains duplicate shot_id")
      else if negb (String.eqb (sh_Provider shot) "") && negb (String.eqb (sh_Provider shot) (p_ID p)) then inr (EMsg "shot selects another provider")
      else if negb (String.eqb (sh_Model shot) "") && negb (String.eqb model "") && negb (String.eqb model (sh_Model shot)) then inr (EMsg "shot selects another model")
      else
        let model := or_default (sh_Model shot) model in
        match validateProviderRequest (buildShotRequest r shot i <| vr_ProviderPreference := p_ID p |> <| vr_ModelPreference := model |>) caps with
        | inr e => inr e
        | inl normalized =>
            let model := or_default model (vr_ModelPreference normalized) in
            if negb (p_ValidateRequest p normalized) then inr (EProvider "provider rejected shot")
            else match p_EstimateCost p normalized with
            | None => inr (EProvider "cannot safely estimate cost for shot")
            | Some e =>
                if negb (orchEstimate_ok e) then inr (ECost ErrInvalidEstimate)
                else if negb (String.eqb (ce_Provider e) "") && negb (String.eqb (ce_Provider e) (p_ID p)) then inr (EMsg "shot cost estimate belongs to another provider")
                else if negb (String.eqb (ce_Model e) "") && negb (String.eqb (ce_Model e) (vr_ModelPreference normalized)) then inr (EMsg "shot cost estimate belongs to another model")
                else plan_shots p caps r shots (S i) (shotID :: seen) model
                       (total <| ce_EstimatedUSD := (ce_EstimatedUSD total + ce_EstimatedUSD e)%f64 |> <| ce_UpperBoundUSD := (ce_UpperBoundUSD total + ce_UpperBoundUSD e)%f64 |>
                              <| ce_BillableSeconds := (ce_BillableSeconds total + ce_BillableSeconds e)%f64 |> <| ce_Breakdown := fold_left add_breakdown (ce_Breakdown e) (ce_Breakdown total) |>)
            end
        end
  end.
Definition validateShotPlanRequest (r : VideoRequest) (p : Provider) (caps : Capabilities) : VideoRequest * CostEstimate + OrchErr :=
  if (length (vr_ShotPlan r) <? 2)%nat then inr (EMsg "shot-plan validation requires at least two shots")
  else match plan_shots p caps r (vr_ShotPlan r) 0 [] (TrimSpace (vr_ModelPreference r)) (mkEstimate (p_ID p) "" "USD" f_zero f_zero true f_zero []) with
  | inr e => inr e
  | inl (model, total) => inl (r <| vr_ProviderPreference := p_ID p |> <| vr_ModelPreference := model |>, total <| ce_Model := model |>)
  end.
(** The request as the provider will see it, with its estimate. *)
Definition price (r : VideoRequest) (p : Provider) (caps : Capabilities) : Prog (VideoRequest * CostEstimate) :=
  if (1 <? length (vr_ShotPlan r))%nat then
    if negb (vr_DryRun r) && (negb (o_HasComposer o) || negb (o_HasAssets o)) then Err (EMsg "multi-shot video jobs require an episode composer and asset sink")
    else
      ready ← (if vr_DryRun r then mret true else doing Preflight);
      if negb ready then Err (EMsg "episode composer preflight failed before provider submission")
      else match validateShotPlanRequest r p caps with inr e => Err e | inl re => mret re end
  else match validateProviderRequest r caps with
  | inr e => Err e
  | inl r =>
      if negb (p_ValidateRequest p r) then Err (EProvider "provider rejected request")
      else match p_EstimateCost p r with None => Err (EProvider "cannot safely estimate video cost; refusing submission") | Some e => mret (r, e) end
  end.
Definition check_estimate (r : VideoRequest) (p : Provider) (e : CostEstimate) : option OrchErr :=
  if negb (orchEstimate_ok e) then Some (ECost ErrInvalidEstimate)
  else if negb (String.eqb (ce_Provider e) "") && negb (String.eqb (ce_Provider e) (p_ID p)) then Some (EMsg "provider returned a cost estimate for a different provider")
  else if negb (String.eqb (ce_Model e) "") && negb (String.eqb (ce_Model e) (vr_ModelPreference r)) then Some (EMsg "provider returned a cost estimate for a different model")
  else if (vr_MaxCostUSD r >? f_zero)%f64 && negb (o_HasLedger o) then Some (EMsg "max_cost_usd requires an enabled cost ledger") else None.

(** The job that won a race for the same key, if the key explains the error. *)
Definition existingAfterIdempotencyConflict (key : string) (e : StoreErr) : Prog (option VideoJob) :=
  if String.eqb key "" then mret None
  else match e with
  | ErrIdempotencyConflict => r ← doing (SByKey key); match r with inl j => mret (Some j) | inr err => Err (EStore "resolve concurrent idempotent create" err) end
  | ErrJobAlreadyExists =>
      r ← doing (SByKey key);
      match r with inl j => mret (Some j) | inr ErrNotFound => mret None | inr err => Err (EStore "resolve concurrent idempotent create" err) end
  | _ => mret None
  end.
Definition created_or_existing (key : string) (e : StoreErr) : Prog VideoJob :=
  existing ← existingAfterIdempotencyConflict key e; match existing with Some j => mret j | None => Err (EStore "create" e) end.
Definition submit_job (r : VideoRequest) (p : Provider) (estimate : CostEstimate) : Prog VideoJob :=
  id ← doing NewJobID;
  now ← doing Now;
  let j := NewJob id r now in
  let j := j <| vj_Provider := p_ID p |> <| vj_Model := vr_ModelPreference r |> <| vj_ProviderSelection := describe r (p_ID p) (vj_JobType j) estimate |>
             <| vj_EstimatedCostUSD := ce_EstimatedUSD estimate |> in
  if vr_DryRun r then
    let j := j <| vj_State := StateDryRun |> <| vj_LastError := "estimate only; no provider job was submitted" |> in
    created ← doing (SCreate j);
    match created with None => mret j | Some e => created_or_existing (vr_IdempotencyKey r) e end
  else
    reserved ← ledger (LReserve id estimate (vr_MaxCostUSD r));
    match reserved with
    | Some e => Err (if isCostBusinessErr e then ECost e else ECostStore e)
    | None =>
        created ← doing (SCreate j);
        match created with
        | Some e => ledger (LRelease id);; created_or_existing (vr_IdempotencyKey r) e
        | None =>
            queued ← doing (QEnqueue j);
            match queued with
            | None => mret j
            | Some e =>
                persisted ← doing (SUpdate (j <| vj_State := StateFailed |> <| vj_LastError := "queue admission failed" |>));
                ledger (LRelease id);;
                match persisted with Some err => Err (EStore "queue admission failed; failure state not durable" err) | None => Err (EQueue e) end
            end
        end
    end.
Definition Create_ (r : VideoRequest) : Prog VideoJob :=
  ended ← doing CtxEnded;
  if (ended : bool) then Err ECtx
  else match prepare r with
  | inr e => Err e
  | inl r =>
      match narration_gate r with
      | Some e => Err e
      | None =>
          known ← (if String.eqb (vr_IdempotencyKey r) "" then mret (inr ErrNotFound) else doing (SByKey (vr_IdempotencyKey r)));
          match known with
          | inl old => mret old
          | inr ErrNotFound =>
              match o_Providers o !! vr_ProviderPreference r with
              | None => Err (EMsg "no eligible video provider")
              | Some p =>
                  caps ← doing (PCapabilities (p_ID p));
                  match caps with
                  | inr _ => Err (EProvider "read provider capabilities")
                  | inl caps =>
                      re ← price r p caps;
                      match check_estimate (fst re) p (snd re) with Some e => Err e | None => submit_job (fst re) p (snd re) end
                  end
              end
          | inr e => Err (EStore "lookup idempotency key" e)
          end
      end
  end.

(** *** Execution *)

Definition claim (id : string) : Prog VideoJob :=
  now ← doing Now;
  r ← doing (SClaim id (o_InstanceID o) (leaseTTL o) now);
  match r with inr e => Err (EStore "claim video job" e) | inl None => Err ErrJobLeasedElsewhere | inl (Some j) => mret j end.
Definition set_state (j : VideoJob) (s : JobState) : VideoJob := j <| vj_State := s |>.
Definition set_error (j : VideoJob) (msg : string) : VideoJob := j <| vj_LastError := msg |>.
Definition markNeedsManual (j : VideoJob) (reason : string) : Prog unit :=
  match (if bool_decide (vj_State j = StateNeedsManualAction) then Some j else Transition j StateNeedsManualAction) with
  | None => Err (EMsg "cannot mark video job for manual action")
  | Some j => update "manual action" (set_error j reason)
  end.
Definition markNeedsManualAndError {A} (j : VideoJob) (reason : string) : Prog A := markNeedsManual j reason;; Err (EMsg reason).
Definition fail {A} (j : VideoJob) (msg : string) : Prog A :=
  match (if bool_decide (vj_State j = StateFailed) then Some j else Transition j StateFailed) with
  | None => Err (EMsg "cannot mark video job failed")
  | Some j =>
      update "persist failed video job" (set_error j msg);;
      ledger (LEstimate (vj_JobID j) (vj_EstimatedCostUSD j));;
      Err (EMsg msg)
  end.
(** [defer] of the per-job commit lock. *)
Definition locked {A} (id : string) (m : Prog A) : Prog A :=
  doing (Lock id);; r ← attempt m; doing (Unlock id);; match r with inl a => mret a | inr e => Err e end.

Definition providerActualCost (st : ProviderJobStatus) : option float64 :=
  match (match ps_ActualCostUSD st with Some v => if validActualCost v then Some v else None | None => None end) with
  | Some v => Some v
  | None =>
      let raw := TrimSpace (usage_get "actual_cost_usd" (ps_Usage st)) in
      if String.eqb raw "" then None else match parseFloat raw with Some v => if validActualCost v then Some v else None | None => None end
  end.
Definition applyCostReconciliation (j : VideoJob) (actual : option float64) : VideoJob :=
  match actual with
  | Some a =>
      if validActualCost a
      then j <| vj_ActualCostUSD := a |> <| vj_CostDeltaUSD := Some (a - vj_EstimatedCostUSD j)%f64 |> <| vj_CostReconciled := true |> <| vj_CostBasis := "actual" |>
      else j <| vj_ActualCostUSD := f_zero |> <| vj_CostDeltaUSD := None |> <| vj_CostReconciled := false |> <| vj_CostBasis := "estimate" |>
  | None => j <| vj_ActualCostUSD := f_zero |> <| vj_CostDeltaUSD := None |> <| vj_CostReconciled := false |> <| vj_CostBasis := "estimate" |>
  end.
Definition check_asset (a : Asset) : option string :=
  if String.eqb (TrimSpace (as_URI a)) "" || String.eqb (TrimSpace (as_ContentType a)) "" || (as_SizeBytes a <=? 0) then Some "provider output was not persisted with URI, content type, and non-empty size"
  else if negb (String.length (as_SHA256 a) =? 64)%nat then Some "provider output was not persisted with a SHA-256 checksum"
  else if negb (is_hex (as_SHA256 a)) then Some "provider output checksum is malformed" else None.
Definition tag_output (j : VideoJob) (a : Asset) : Asset :=
  a <| as_Metadata := set_pair "job_id" (vj_JobID j) (set_pair "episode_id" (vj_EpisodeID j) (set_pair "project_id" (vj_ProjectID j) (as_Metadata a))) |>.
Definition complete (j : VideoJob) (actual : option float64) (assets : list Asset) (now : Time) : VideoJob :=
  applyCostReconciliation j actual <| vj_OutputAssets := assets |> <| vj_Progress := f_of_int 1 |> <| vj_LastError := "" |> <| vj_CompletedAt := Some now |>.
(** The commit under the lock. *)
Definition commit (j : VideoJob) (st : ProviderJobStatus) (assets : list Asset) : Prog unit :=
  r ← doing (SGet (vj_JobID j));
  match r with
  | inr e => Err (EStore "reload video job before completion commit" e)
  | inl latest =>
      if IsTerminal latest || bool_decide (vj_State latest = StateFailed) then mret tt
      else
        let actual := providerActualCost st in
        settled ← ledger (match actual with Some a => LActual (vj_JobID latest) a (vj_EstimatedCostUSD latest) | None => LEstimate (vj_JobID latest) (vj_EstimatedCostUSD latest) end);
        match settled with
        | Some e =>
            update "cost settlement failed and resumable job state could not be saved"
              (set_error (applyCostReconciliation latest None) "cost settlement failed; completed provider output remains resumable");;
            Err (ECost e)
        | None =>
            now ← doing Now;
            match Transition (complete latest actual assets now) StateCompleted with
            | None => Err (EMsg "invalid video job transition")
            | Some j => update "outputs were persisted but completion state could not be saved" j
            end
        end
  end.
Definition downloadAndComplete (p : Provider) (j : VideoJob) (st : ProviderJobStatus) : Prog unit :=
  if bool_decide (vj_State j = StateCompleted) then mret tt
  else match ps_Outputs st with
  | [] => markNeedsManualAndError j "provider marked job complete but supplied no output assets"
  | outputs =>
      if negb (o_HasAssets o) then markNeedsManualAndError j "no output asset sink is configured"
      else match (if bool_decide (vj_State j = StateUploading) then Some j else Transition j StateUploading) with
      | None => markNeedsManualAndError j "could not enter output-upload stage"
      | Some j =>
          let j := set_error j "" in
          update "persist output-upload state" j;;
          let st := mkStatus (ps_ProviderJobID st) (ps_State st) (ps_Progress st) (ps_Usage st) (map (tag_output j) outputs) (ps_ActualCostUSD st) in
          got ← doing (PDownload (p_ID p) st);
          match got with
          | inr _ =>
              update "output download failed and job state could not be saved" (set_error j "output download or persistence failed; job remains resumable");;
              Err (EProvider "output download or persistence failed")
          | inl [] => markNeedsManualAndError j "provider returned no persisted output assets"
          | inl assets =>
              match List.find (fun a => bool_decide (is_Some (check_asset a))) assets with
              | Some a => markNeedsManualAndError j (default "" (check_asset a))
              | None => locked (vj_JobID j) (commit j st assets)
              end
          end
      end
  end.

Definition bad_progress (x : float64) : bool := bad x || (x <? f_zero)%f64 || (x >? f_of_int 1)%f64.
Fixpoint poll_loop (polls : nat) (p : Provider) (j : VideoJob) : Prog unit :=
  match polls with
  | O =>
      let j := set_error j "polling deadline reached; remote job remains resumable" in
      update "polling deadline reached and job state could not be saved" j;;
      doing (ScheduleRetry j);;
      Err (EMsg (vj_LastError j))
  | S polls =>
      ended ← doing CtxEnded;
      if (ended : bool) then Err ECtx
      else
        claimed ← claim (vj_JobID j);
        let j := lease_to j (vj_LeaseOwner claimed) (vj_LeaseUntil claimed) in
        ended ← doing CtxEnded;
        if (ended : bool) then Err ECtx
        else
          st ← doing (PGet (p_ID p) (vj_ProviderJobID j));
          match st with
          | inr _ =>
              let j := set_error (j <| vj_RetryCount := vj_RetryCount j + 1 |>) "provider status lookup failed; job remains resumable" in
              update "provider status lookup failed and job state could not be saved" j;;
              poll_loop polls p j
          | inl st =>
              if negb (String.eqb (ps_ProviderJobID st) "") && negb (String.eqb (ps_ProviderJobID st) (vj_ProviderJobID j))
              then markNeedsManualAndError j "provider returned a different job ID"
              else if bad_progress (ps_Progress st) then markNeedsManualAndError j "provider returned invalid progress metadata"
              else
                let j := j <| vj_Progress := if (ps_Progress st >? vj_Progress j)%f64 then ps_Progress st else vj_Progress j |>
                           <| vj_UsageMetadata := mergeUsage (vj_UsageMetadata j) (ps_Usage st) |> in
                match ps_State st with
                | StateFailed => fail j "provider reported job failure"
                | StateCancelled =>
                    match Transition j StateCancelled with
                    | None => Err (EMsg "invalid video job transition")
                    | Some j => update "cancelled" (set_error j "");; ledger (LRelease (vj_JobID j));; mret tt
                    end
                | StateCompleted =>
                    r ← attempt (downloadAndComplete p j st);
                    match r with
                    | inl _ => mret tt
                    | inr e =>
                        latest ← doing (SGet (vj_JobID j));
                        match latest with
                        | inl latest => (if bool_decide (vj_State latest = StateUploading) then doing (ScheduleRetry latest) else mret tt);; Err e
                        | inr _ => Err e
                        end
                    end
                | StateQueued | StateSubmitted | StateProcessing | StatePolling =>
                    if bool_decide (vj_State j = StateUploading) then markNeedsManualAndError j "provider status regressed after output upload began"
                    else
                      match (if bool_decide (ps_State st = StateQueued) then Some j
                             else if bool_decide (ps_State st = StateSubmitted) && (bool_decide (vj_State j = StateProcessing) || bool_decide (vj_State j = StatePolling)) then Some j
                             else Transition j (ps_State st)) with
                      | None => markNeedsManualAndError j "provider returned an unsupported state transition"
                      | Some j => let j := set_error j "" in update "persist provider job progress" j;; poll_loop polls p j
                      end
                | _ => markNeedsManualAndError j "provider returned an unsupported job state"
                end
          end
  end.
Definition pollAndFinalize (p : Provider) (j : VideoJob) : Prog unit := poll_loop (Z.to_nat (if o_MaxPolls o <=? 0 then 300 else o_MaxPolls o)) p j.

(** The submission of a claimed queued job: the job to poll. *)
Definition submit (j : VideoJob) : Prog VideoJob :=
  let j := set_state j StateAdmitted in
  update "persist provider-admission state" j;;
  match o_Providers o !! vj_Provider j with
  | None => fail j "provider unavailable"
  | Some p =>
      submitted ← doing (PCreate (p_ID p) (vj_JobID j) (vj_Request j));
      match submitted with
      | inr _ =>
          markNeedsManual j "provider submission outcome is unknown; automatic resubmission is disabled";;
          Err (EProvider "provider submission outcome is unknown")
      | inl sub =>
          if String.eqb (TrimSpace (pj_ProviderJobID sub)) "" then
            markNeedsManual j "provider returned no confirmed job ID; automatic resubmission is disabled";;
            Err (EMsg "provider did not confirm a job ID; manual action is required")
          else
            now ← doing Now;
            let j := set_state (j <| vj_ProviderJobID := TrimSpace (pj_ProviderJobID sub) |> <| vj_Provider := p_ID p |>
                                  <| vj_Model := or_default (pj_Model sub) (vj_Model j) |> <| vj_SubmittedAt := Some now |>) StateSubmitted in
            saved ← doing (SUpdate j);
            match saved with
            | Some e => doing (PCancel (p_ID p) (vj_ProviderJobID j));; Err (EStore "provider returned a job ID but it was not durably saved; do not resubmit" e)
            | None =>
                if negb (pj_Accepted sub) || (negb (String.eqb (pj_Provider sub) "") && negb (String.eqb (pj_Provider sub) (p_ID p)))
                   || (negb (String.eqb (pj_Model sub) "") && negb (String.eqb (pj_Model sub) (vr_ModelPreference (vj_Request j))))
                then
                  markNeedsManual j "provider submission response was inconsistent; the known provider job ID is retained and automatic retry is disabled";;
                  Err (EMsg "provider submission response was inconsistent; manual action is required")
                else mret j
            end
      end
  end.
(** The work at the provider for a submitted job. *)
Definition go_on (j : VideoJob) : Prog unit :=
  match o_Providers o !! vj_Provider j with
  | None => fail j "provider unavailable"
  | Some p =>
      if bool_decide (vj_State j = StateCancelRequested) then
        ok ← doing (PCancel (p_ID p) (vj_ProviderJobID j));
        if negb ok then Err (EProvider "cancel")
        else update "cancelled" (set_error (set_state j StateCancelled) "");; ledger (LEstimate (vj_JobID j) (vj_EstimatedCostUSD j));; mret tt
      else pollAndFinalize p j
  end.
(** A claimed job with one shot. *)
Definition run_single (j : VideoJob) : Prog unit :=
  match vj_State j with
  | StateCompleted | StateFailed | StateCancelled | StateDryRun => mret tt
  | StateNeedsManualAction => Err (EMsg "video job requires manual action")
  | StateQueued => j ← submit j; go_on j
  | StateAdmitted =>
      if String.eqb (vj_ProviderJobID j) "" then
        markNeedsManual j "provider submission outcome is unknown; automatic resubmission is disabled";;
        Err (EMsg "provider submission outcome is unknown; manual action is required")
      else let j := set_state j StateSubmitted in update "submitted" j;; go_on j
  | StateSubmitted | StateProcessing | StatePolling | StateUploading | StateCancelRequested =>
      if String.eqb (vj_ProviderJobID j) "" then
        markNeedsManual j "active job has no provider job ID; automatic resubmission is disabled";;
        Err (EMsg "active video job has no provider job ID")
      else go_on j
  | _ => markNeedsManual j "unsupported job state for automatic execution";; Err (EMsg "unsupported video job state")
  end.
Context (runEpisodeJob : VideoJob -> Prog unit).
Definition RunJob (queued : VideoJob) : Prog unit :=
  ended ← doing CtxEnded;
  if (ended : bool) then Err ECtx
  else
    r ← doing (SGet (vj_JobID queued));
    match r with
    | inr e => Err (EStore "load video job before execution" e)
    | inl j =>
        claimed ← attempt (claim (vj_JobID j));
        match claimed with
        | inr ErrJobLeasedElsewhere => doing (ScheduleRetry j);; mret tt
        | inr e => Err e
        | inl j => if (1 <? length (vr_ShotPlan (vj_Request j)))%nat then runEpisodeJob j else run_single j
        end
    end.

(** *** Operators *)

Definition force_failed (j : VideoJob) (attempted confirmed : bool) : VideoJob :=
  set_error (set_state j StateFailed <| vj_OperatorForceFailed := true |>)
    (if negb attempted then "Force-failed by operator before provider cancellation could be attempted; remote work may continue and costs may accrue."
     else if confirmed then "Force-failed by operator; provider acknowledged cancellation."
     else "Force-failed by operator; provider cancellation was not confirmed, so remote work may continue and costs may accrue.").
Definition ForceFail (id : string) : Prog (bool * bool) :=
  ended ← doing CtxEnded;
  if (ended : bool) then Err ECtx
  else
    r ← doing (SGet id);
    match r with
    | inr e => Err (EStore "get" e)
    | inl j =>
        if IsTerminal j || bool_decide (vj_State j = StateFailed) then Err ErrForceFailNotActive
        else
          ac ← (if String.eqb (vj_ProviderJobID j) "" then mret (false, false)
                else match o_Providers o !! vj_Provider j with
                     | Some p => ok ← doing (PCancel (p_ID p) (vj_ProviderJobID j)); mret (true, ok)
                     | None => mret (false, false)
                     end);
          locked id (
            r ← doing (SGet id);
            match r with
            | inr e => Err (EStore "get" e)
            | inl j =>
                if IsTerminal j || bool_decide (vj_State j = StateFailed) then Err ErrForceFailNotActive
                else update "persist operator force-fail" (force_failed j (fst ac) (snd ac));; ledger (LRelease (vj_JobID j));; mret ac
            end)
    end.
Definition Cancel (id : string) : Prog unit :=
  r ← doing (SGet id);
  match r with
  | inr e => Err (EStore "get" e)
  | inl j =>
      match vj_State j with
      | StateCompleted | StateFailed | StateCancelled | StateDryRun => Err (EMsg "video job is already terminal")
      | _ =>
          if (1 <? length (vr_ShotPlan (vj_Request j)))%nat && bool_decide (vj_State j = StateComposing)
          then Err (EMsg "episode is composing locally; cancellation during FFmpeg composition is not supported")
          else
            ok ← (if String.eqb (vj_ProviderJobID j) "" then mret true
                  else match o_Providers o !! vj_Provider j with
                       | None => Err (EMsg "provider for active video job is unavailable; refusing to mark remote work cancelled")
                       | Some p => doing (PCancel (p_ID p) (vj_ProviderJobID j))
                       end);
            if negb ok then Err (EProvider "cancel")
            else match Transition j StateCancelled with
            | None => Err (EMsg "invalid video job transition")
            | Some j =>
                update "cancel" (set_error j "");;
                ledger (if String.eqb (vj_ProviderJobID j) "" then LRelease (vj_JobID j) else LEstimate (vj_JobID j) (vj_EstimatedCostUSD j));;
                mret tt
            end
      end
  end.

(** *** Recovery and retention *)

(** The queue is tried again while it is full, at most [fuel] times. *)
Fixpoint enqueueWithBackpressure (fuel : nat) (j : VideoJob) : Prog unit :=
  match fuel with
  | O => Err (EQueue ErrFull)
  | S fuel =>
      r ← doing (QEnqueue j);
      match r with
      | None => mret tt
      | Some ErrFull => ended ← doing CtxEnded; if (ended : bool) then Err ECtx else enqueueWithBackpressure fuel j
      | Some e => Err (EQueue e)
      end
  end.
(** An episode that stopped between a submission and its checkpoint. *)
Definition unknown_shot (plan : list Shot) (runs : list ShotExecution) : option ShotExecution :=
  fst <$> List.find (fun rs => negb (bool_decide (is_Some (sh_OutputAsset (snd rs)))) && String.eqb (se_ProviderJobID (fst rs)) "" && negb (bool_decide (se_State (fst rs) = StateQueued))) (zip runs plan).
Definition recover_episode (fuel : nat) (job : VideoJob) : Prog unit :=
  let runs := vj_ShotExecutions job in
  let plan := vr_ShotPlan (vj_Request job) in
  if negb (length runs =? length plan)%nat then markNeedsManual job "multi-shot job has no complete durable shot checkpoint list"
  else if negb (String.eqb (vj_ProviderJobID job) "")
          && match (if vj_CurrentShot job <? 1 then None else runs !! Z.to_nat (vj_CurrentShot job - 1)) with
             | Some run => negb (String.eqb (se_ProviderJobID run) (vj_ProviderJobID job)) | None => true end
  then markNeedsManual job "parent provider job ID does not match the current shot checkpoint"
  else match unknown_shot plan runs with
  | Some run => markNeedsManual job "shot has an unknown submission checkpoint; automatic resubmission is disabled"
  | None =>
      match vj_State job with
      | StateQueued | StateAdmitted | StateSubmitted | StateProcessing | StatePolling | StateUploading | StateComposing | StateCancelRequested => enqueueWithBackpressure fuel job
      | _ => markNeedsManual job "multi-shot episode state is not restart-resumable"
      end
  end.
Definition recover_job (fuel : nat) (job : VideoJob) : Prog unit :=
  if vr_DryRun (vj_Request job)
     || match vj_State job with StateDryRun | StateCompleted | StateFailed | StateCancelled | StateNeedsManualAction => true | _ => false end then mret tt
  else if (1 <? length (vr_ShotPlan (vj_Request job)))%nat then recover_episode fuel job
  else match vj_State job with
  | StateQueued => enqueueWithBackpressure fuel job
  | StateAdmitted =>
      if String.eqb (vj_ProviderJobID job) "" then markNeedsManual job "previous submission outcome is unknown; automatic resubmission is disabled to avoid duplicate provider charges"
      else let job := set_state job StateSubmitted in update "persist recovered video job" job;; enqueueWithBackpressure fuel job
  | StateSubmitted | StateProcessing | StatePolling | StateUploading | StateCancelRequested =>
      if String.eqb (vj_ProviderJobID job) "" then markNeedsManual job "active job has no provider job ID; automatic resubmission is disabled"
      else enqueueWithBackpressure fuel job
  | StatePlanning | StateWaitingForBudget | StateComposing => markNeedsManual job "this pipeline stage is not restart-resumable yet"
  | _ => markNeedsManual job "unknown or unsupported persisted job state"
  end.
Definition Recover (fuel : nat) : Prog unit :=
  jobs ← doing SList; each (slice_stable (fun a b => Before (vj_CreatedAt a) (vj_CreatedAt b)) jobs) (recover_job fuel).
(** How many were deleted is not recorded. *)
Definition PruneTerminalJobs (now : Time) (retention : Duration) : Prog unit :=
  if retention <=? 0 then mret tt
  else
    jobs ← doing SList;
    each jobs (fun j =>
      if negb (IsTerminal j) then mret tt
      else if After (default (vj_CreatedAt j) (vj_CompletedAt j)) (Add now (- retention)) then mret tt
      else doing (SDelete (vj_JobID j))).
End orchestrator.
