(* ===== verification/VideoPool.v ===== *)
(** * Interleaved video orchestrators

    A pool of threads of several processes over one store, queue and ledger.  A
    step is one call of one thread, a jump of the clock, the start of a call, its
    end, or the end of a process with everything in its memory.  What providers
    answer is chosen by an oracle.  The log keeps the claims, writes and
    submissions that the properties speak about. *)

From S2P Require Import Prelude Hash Text Video VideoQueue VideoCost VideoRun.

Inductive VEvent :=
| EClaim (id owner : string) (until : Time) (s : JobState)
| EWrite (id : string) (s : JobState) (owner : string) (until now : Time)
| ESubmit (id provider : string).
(** Locks are per process. *)
Record World := mkWorld {
  w_store : MemoryStore; w_queue : Queue; w_ledger : Ledger; w_clock : Time; w_locks : gset (string * string); w_retries : list VideoJob; w_log : list VEvent }.
#[global] Instance eta_World : Eta World := fun w => mkWorld (w_store w) (w_queue w) (w_ledger w) (w_clock w) (w_locks w) (w_retries w) (w_log w).

Record Oracle := mkOracle {
  or_caps : Capabilities + unit; or_job : ProviderJob + unit; or_status : ProviderJobStatus + unit; or_ok : bool; or_assets : list Asset + unit;
  or_ended : bool; or_id : string; or_order : list VideoJob -> list VideoJob; or_perm : forall l, or_order l ≡ₚ l }.

Definition note (w : World) (e : VEvent) : World := w <| w_log := w_log w ++ [e] |>.
(** One call by a thread of the process; [None] while a lock is held. *)
Definition perform (orc : Oracle) (proc : string) {X} (op : Op X) (w : World) : option (X * World) :=
  match op in Op X return option (X * World) with
  | SGet id => Some (Get (w_store w) id, w)
  | SByKey key => Some (GetByIdempotency (w_store w) key, w)
  | SCreate j => let '(s, r) := Create (w_store w) j in Some (r, w <| w_store := s |>)
  | SUpdate j =>
      let '(s, r) := Update (w_store w) j in
      let w := w <| w_store := s |> in
      Some (r, match r with None => note w (EWrite (vj_JobID j) (vj_State j) (vj_LeaseOwner j) (vj_LeaseUntil j) (w_clock w)) | Some _ => w end)
  | SClaim id owner ttl now =>
      let '(s, r) := TryClaim (w_store w) id owner ttl now in
      let w := w <| w_store := s |> in
      Some (r, match r with inl (Some j) => note w (EClaim id owner (vj_LeaseUntil j) (vj_State j)) | _ => w end)
  | SList => Some (or_order orc (List_ (w_store w)), w)
  | SDelete id => Some (tt, w <| w_store := Delete (w_store w) id |>)
  | QEnqueue j => let '(q, r) := Enqueue (w_queue w) (or_ended orc) j in Some (r, w <| w_queue := q |>)
  | LDo op =>
      let '(l, r) := match op with
        | LReserve job e max => ReserveForJob (w_ledger w) job e max
        | LRelease job => (ReleaseForJob (w_ledger w) job, None)
        | LActual job a f => SettleActual (w_ledger w) job a f
        | LEstimate job u => SettleEstimate (w_ledger w) job u
        end in
      Some (r, w <| w_ledger := l |>)
  | PCapabilities p => Some (or_caps orc, w)
  | PCreate p job r => Some (or_job orc, note w (ESubmit job p))
  | PGet p id => Some (or_status orc, w)
  | PCancel p id => Some (or_ok orc, w)
  | PDownload p st => Some (or_assets orc, w)
  | Now => Some (w_clock w, w)
  | CtxEnded => Some (or_ended orc, w)
  | NewJobID => Some (or_id orc, w)
  | Preflight => Some (or_ok orc, w)
  | ScheduleRetry j => Some (tt, w <| w_retries := w_retries w ++ [j] |>)
  | Lock id => if bool_decide ((proc, id) ∈ w_locks w) then None else Some (tt, w <| w_locks := {[(proc, id)]} ∪ w_locks w |>)
  | Unlock id => Some (tt, w <| w_locks := w_locks w ∖ {[(proc, id)]} |>)
  end.

(** ** Calls and threads *)

Inductive VCall := VRun (queued : VideoJob) | VCreate (r : VideoRequest) | VCancel (id : string) | VForce (id : string) | VRecover (fuel : nat) | VPrune (now : Time) (retention : Duration).
Record System := mkSystem {
  sys_orch : string -> Orchestrator; sys_orch_id : forall p, o_InstanceID (sys_orch p) = p; sys_parse : string -> option float64; sys_https : string -> bool;
  sys_describe : VideoRequest -> string -> JobType -> CostEstimate -> string; sys_episode : string -> VideoJob -> Prog unit }.
Definition prog_of (y : System) (p : string) (c : VCall) : Prog unit :=
  let o := sys_orch y p in
  match c with
  | VRun queued => RunJob (sys_parse y) o (sys_episode y p) queued
  | VCreate r => Create_ (sys_https y) (sys_describe y) o r;; mret tt
  | VCancel id => Cancel o id
  | VForce id => ForceFail o id;; mret tt
  | VRecover fuel => Recover fuel
  | VPrune now retention => PruneTerminalJobs now retention
  end.
Record Thread := mkThread { th_proc : string; th_call : VCall; th_prog : Prog unit }.
Record Pool := mkPool { po_world : World; po_threads : gmap nat Thread }.
Definition runs_job (J : string) (c : VCall) : bool := match c with VRun queued => String.eqb (vj_JobID queued) J | _ => false end.

Section pool.
Context (y : System) (J : string).

(** A process works on the job [J] in one thread at a time: a job enters the queue
    of a process when it is created there, when the process recovers the store
    before it serves requests ([Start] in [main.go]), or when its worker gave it
    up.  [owner] never yields the empty name, and job identifiers are not handed
    out twice. *)
Inductive pool_step : Pool -> Pool -> Prop :=
| step_call w ths t th orc X (op : Op X) k x w' :
    ths !! t = Some th -> th_prog th = Do op k -> perform orc (th_proc th) op w = Some (x, w') -> or_id orc <> J ->
    pool_step (mkPool w ths) (mkPool w' (<[t := mkThread (th_proc th) (th_call th) (k x)]> ths))
| step_tick w ths c : w_clock w <= c -> pool_step (mkPool w ths) (mkPool (w <| w_clock := c |>) ths)
| step_start w ths t p c :
    ths !! t = None -> p <> "" -> (runs_job J c = true -> forall t' th, ths !! t' = Some th -> runs_job J (th_call th) = true -> th_proc th <> p) ->
    pool_step (mkPool w ths) (mkPool w (<[t := mkThread p c (prog_of y p c)]> ths))
| step_end w ths t : pool_step (mkPool w ths) (mkPool w (delete t ths))
| step_crash w ths p :
    pool_step (mkPool w ths)
      (mkPool (w <| w_locks := filter (fun l => fst l <> p) (w_locks w) |>) (filter (fun kv => th_proc (snd kv) <> p) ths)).

Inductive pool_reach (a : Pool) : Pool -> Prop :=
| reach_refl : pool_reach a a
| reach_step b c : pool_reach a b -> pool_step b c -> pool_reach a c.

(** ** What the log says of [J] *)

Definition submissions (lg : list VEvent) : nat := length (List.filter (fun e => match e with ESubmit id _ => String.eqb id J | _ => false end) lg).
Definition is_admission (e : VEvent) : bool := match e with EWrite id s _ _ _ => String.eqb id J && bool_decide (s = StateAdmitted) | _ => false end.
Definition admissions (lg : list VEvent) : nat := length (List.filter is_admission lg).
(** Every admission was written before the lease it was made under ended. *)
Definition timely (lg : list VEvent) : Prop := forall id s owner until now, In (EWrite id s owner until now) lg -> id = J -> s = StateAdmitted -> now < until.
(** The last claim that found the job queued, and who admitted it. *)
Definition claim_of (e : VEvent) : option (string * Time) := match e with EClaim id o u StateQueued => if String.eqb id J then Some (o, u) else None | _ => None end.
Fixpoint last_claim (lg : list VEvent) (acc : option (string * Time)) : option (string * Time) :=
  match lg with [] => acc | e :: lg => last_claim lg (match claim_of e with Some c => Some c | None => acc end) end.
Definition admitter_of (e : VEvent) : option string := match e with EWrite id s o _ _ => if String.eqb id J && bool_decide (s = StateAdmitted) then Some o else None | _ => None end.
Fixpoint admitter (lg : list VEvent) (acc : option string) : option string :=
  match lg with [] => acc | e :: lg => admitter lg (match admitter_of e with Some o => Some o | None => acc end) end.

Lemma submissions_app lg e : submissions (lg ++ [e]) = (submissions lg + match e with ESubmit id _ => if String.eqb id J then 1 else 0 | _ => 0 end)%nat.
Proof. unfold submissions. rewrite List.filter_app, length_app. cbn. destruct e; cbn; try lia. by destruct (String.eqb _ _). Qed.
Lemma admissions_app lg e : admissions (lg ++ [e]) = (admissions lg + if is_admission e then 1 else 0)%nat.
Proof. unfold admissions. rewrite List.filter_app, length_app. cbn. by destruct (is_admission e). Qed.
Lemma last_claim_app lg e : forall acc, last_claim (lg ++ [e]) acc = match claim_of e with Some c => Some c | None => last_claim lg acc end.
Proof. induction lg as [|e' lg IH]; intros acc; cbn; [by destruct (claim_of e)|apply IH]. Qed.
Lemma admitter_app lg e : forall acc, admitter (lg ++ [e]) acc = match admitter_of e with Some c => Some c | None => admitter lg acc end.
Proof. induction lg as [|e' lg IH]; intros acc; cbn; [by destruct (admitter_of e)|apply IH]. Qed.
Lemma timely_app lg e : timely (lg ++ [e]) -> timely lg.
Proof. intros H id s o u n Hin. apply (H id s o u n). apply in_or_app. by left. Qed.
End pool.
