(* ===== verification/VideoProofs.v ===== *)
(** * Theorems on the video orchestrators

    A queued job with at most one shot is submitted to its provider at most once,
    whatever the interleaving of orchestrators over one store, as long as an
    admission is written before its lease ends.  The proof is rely-guarantee: what
    a thread knows about the job ([Know]) is stable under what the others may do
    ([guar]), and every operation keeps an invariant of the shared world. *)

From S2P Require Import Prelude Hash Text Video VideoQueue VideoCost VideoRun VideoPool.

(** ** Fields of updated jobs *)

Lemma id_set_state j s : vj_JobID (set_state j s) = vj_JobID j. Proof. by destruct j. Qed.
Lemma id_set_error j m : vj_JobID (set_error j m) = vj_JobID j. Proof. by destruct j. Qed.
Lemma id_lease_to j o u : vj_JobID (lease_to j o u) = vj_JobID j. Proof. by destruct j. Qed.
Lemma state_set_state j s : vj_State (set_state j s) = s. Proof. by destruct j. Qed.
Lemma state_set_error j m : vj_State (set_error j m) = vj_State j. Proof. by destruct j. Qed.
Lemma state_lease_to j o u : vj_State (lease_to j o u) = vj_State j. Proof. by destruct j. Qed.
Lemma req_set_state j s : vj_Request (set_state j s) = vj_Request j. Proof. by destruct j. Qed.
Lemma req_set_error j m : vj_Request (set_error j m) = vj_Request j. Proof. by destruct j. Qed.
Lemma req_lease_to j o u : vj_Request (lease_to j o u) = vj_Request j. Proof. by destruct j. Qed.
Lemma owner_set_state j s : vj_LeaseOwner (set_state j s) = vj_LeaseOwner j. Proof. by destruct j. Qed.
Lemma until_set_state j s : vj_LeaseUntil (set_state j s) = vj_LeaseUntil j. Proof. by destruct j. Qed.
Lemma owner_lease_to j o u : vj_LeaseOwner (lease_to j o u) = o. Proof. by destruct j. Qed.
Lemma until_lease_to j o u : vj_LeaseUntil (lease_to j o u) = u. Proof. by destruct j. Qed.

(** Where a transition leads. *)
Lemma transition_some j s j' : Transition j s = Some j' -> j' = set_state j s /\ CanTransition (vj_State j) s = true.
Proof. unfold Transition. destruct (CanTransition _ _) eqn:E; [|done]. by intros [= <-]. Qed.

Definition single (j : VideoJob) : Prop := (length (vr_ShotPlan (vj_Request j)) <= 1)%nat.
(** States that a started job does not go back to. *)
Definition early (s : JobState) : Prop := s = StateQueued \/ s = StateAdmitted.
Definition closed (s : JobState) : Prop := s = StateCancelled \/ s = StateFailed.

Section rely.
Context (J : string).
Notation adm w := (admissions J (w_log w)).
Notation sub w := (submissions J (w_log w)).
Notation last w := (last_claim J (w_log w) None).
Notation admtr w := (admitter J (w_log w) None).
Notation stored w := (mem_jobs (w_store w) !! J).

(** The invariant of the shared world. *)
Record Inv (w : World) : Prop := {
  inv_ids : forall id j, mem_jobs (w_store w) !! id = Some j -> vj_JobID j = id;
  inv_adm : (adm w <= 1)%nat;
  inv_sub : (sub w <= adm w)%nat;
  inv_single : forall j, stored w = Some j -> single j;
  inv_queued : forall j, stored w = Some j -> vj_State j = StateQueued ->
    adm w = 0%nat /\ match last w with Some (o, u) => vj_LeaseOwner j = o /\ vj_LeaseUntil j = u | None => True end;
  inv_started : forall j, stored w = Some j -> vj_State j = StateQueued \/ closed (vj_State j) \/ adm w = 1%nat }.

(** What one step of a thread of the process [p] may change; [r] tells whether
    the thread runs [J]. *)
Record guar (p : string) (r : bool) (w w' : World) : Prop := {
  g_clock : w_clock w' = w_clock w;
  g_mono : (adm w <= adm w')%nat;
  g_adm : adm w' = adm w \/ r = true /\ exists u, last w = Some (p, u);
  g_admitter : admtr w' = admtr w \/ adm w = 0%nat;
  g_sub : sub w' = sub w \/ r = true /\ admtr w = Some p;
  g_claim : last w' = last w \/ r = true /\ match last w with Some (o, u) => u <= w_clock w \/ o = p \/ o = "" | None => True end;
  g_state : forall j', stored w' = Some j' -> early (vj_State j') -> (exists j, stored w = Some j /\ vj_State j = vj_State j') \/ adm w = 0%nat }.

(** What a thread knows: a past moment, and how far [J] has come. *)
Inductive Phase := Nothing | Started | Advanced | Claimed (until : Time) | Token.
#[local] Instance Phase_eq_dec : EqDecision Phase.
Proof. solve_decision. Defined.
Record Know := mkKnow { k_time : option Time; k_phase : Phase }.
Definition knows_phase (p : string) (f : Phase) (w : World) : Prop :=
  match f with
  | Nothing => True
  | Started => adm w = 1%nat
  | Advanced => adm w = 1%nat /\ forall j, stored w = Some j -> ~ early (vj_State j)
  | Claimed u => w_clock w < u -> last w = Some (p, u) /\ adm w = 0%nat
  | Token => adm w = 1%nat /\ admtr w = Some p /\ sub w = 0%nat
  end.
Definition common (f : Phase) : Prop := match f with Claimed _ | Token => False | _ => True end.
(** Only a thread that runs [J] can hold its claim. *)
Definition knows (p : string) (r : bool) (k : Know) (w : World) : Prop :=
  match k_time k with Some t => t <= w_clock w | None => True end /\ (r = false -> common (k_phase k)) /\ knows_phase p (k_phase k) w.

Lemma knows_common p q r f w w' : common f -> Inv w' -> knows_phase p f w -> guar q r w w' -> knows_phase p f w'.
Proof.
  intros Hc H' Hk G. pose proof (inv_adm w' H') as Hle. pose proof (g_mono _ _ _ _ G) as Hm. destruct f; try done; cbn in *; [lia|].
  destruct Hk as [Ha Hs]. split; [lia|]. intros j' Hj' He. destruct (g_state _ _ _ _ G j' Hj' He) as [(j & Hj & E)|E]; [|lia]. apply (Hs j Hj). by rewrite E.
Qed.
(** Knowledge is stable under the steps of the other threads. *)
Lemma knows_stable p r q r' k w w' :
  p <> "" -> (r = true -> r' = true -> p <> q) -> Inv w' -> knows p r k w -> guar q r' w w' -> knows p r k w'.
Proof.
  intros Hp Hne H' (Ht & Hcr & Hk) G. pose proof (inv_adm w' H') as Hle. pose proof (g_mono _ _ _ _ G) as Hm.
  split; [destruct (k_time k); [by rewrite (g_clock _ _ _ _ G)|done]|]. split; [done|]. destruct (k_phase k) as [| | |u|] eqn:Ek; try (by eapply knows_common).
  all: assert (r = true) as -> by (destruct r; [done|destruct (Hcr eq_refl)]).
  - cbn. rewrite (g_clock _ _ _ _ G). intros Hu. destruct (Hk Hu) as [Hl Ha]. split.
    + destruct (g_claim _ _ _ _ G) as [->|[Hr Hc]]; [done|]. rewrite Hl in Hc. destruct Hc as [Hc|[Hc|Hc]]; [lia|by destruct Hne|done].
    + destruct (g_adm _ _ _ _ G) as [->|[Hr (u' & Hu')]]; [done|]. rewrite Hl in Hu'. injection Hu' as [= <- <-]. by destruct Hne.
  - destruct Hk as (Ha & Ho & Hs). split_and!; [lia| |].
    + destruct (g_admitter _ _ _ _ G) as [->|E]; [done|lia].
    + destruct (g_sub _ _ _ _ G) as [->|[Hr E]]; [done|]. rewrite Ho in E. injection E as [= <-]. by destruct Hne.
Qed.

(** ** Programs *)

(** Every step of the program keeps the invariant and the guarantee, and the
    results satisfy [Q] together with what is known then. *)
Fixpoint okp (p : string) (r : bool) {A} (m : Prog A) (k : Know) (Q : A -> Know -> Prop) : Prop :=
  match m with
  | Ret a => Q a k
  | Err _ => True
  | Do op c =>
      forall orc w x w', or_id orc <> J -> Inv w -> knows p r k w -> perform orc p op w = Some (x, w') -> timely J (w_log w') ->
        Inv w' /\ guar p r w w' /\ exists k', knows p r k' w' /\ okp p r (c x) k' Q
  end.
Lemma okp_bind p r {A B} (m : Prog A) (f : A -> Prog B) k Q R :
  okp p r m k Q -> (forall a k', Q a k' -> okp p r (f a) k' R) -> okp p r (m ≫= f) k R.
Proof.
  intros Hm Hf. unfold mbind, Prog_bind. revert k Hm. induction m as [a|e|X op c IH]; intros k Hm; cbn in *; [by apply Hf|done|].
  intros orc w x w' Hid H Hk Hp Ht. destruct (Hm orc w x w' Hid H Hk Hp Ht) as (? & ? & k' & ? & Hc). split_and!; [done|done|]. exists k'. split; [done|by apply IH].
Qed.
Lemma okp_attempt p r {A} (m : Prog A) k (Q : A + OrchErr -> Know -> Prop) : okp p r m k (fun a => Q (inl a)) -> (forall e k', Q (inr e) k') -> okp p r (attempt m) k Q.
Proof.
  intros Hm He. revert k Hm. induction m as [a|e|X op c IH]; intros k Hm; cbn in *; [done|by apply He|].
  intros orc w x w' Hid H Hk Hp Ht. destruct (Hm orc w x w' Hid H Hk Hp Ht) as (? & ? & k' & ? & Hc). split_and!; [done|done|]. exists k'. split; [done|by apply IH].
Qed.

(** *** Steps that leave the history of [J] alone *)

Record same (w w' : World) : Prop := {
  same_clock : w_clock w' = w_clock w; same_adm : adm w' = adm w; same_sub : sub w' = sub w; same_last : last w' = last w; same_admtr : admtr w' = admtr w }.
Definition silent (e : VEvent) : Prop := claim_of J e = None /\ admitter_of J e = None /\ match e with ESubmit id _ => id <> J | _ => True end.
Lemma same_log w w' : w_clock w' = w_clock w -> w_log w' = w_log w -> same w w'.
Proof. intros Hc E. split; [done|..]; by rewrite E. Qed.
Lemma is_admission_of e : is_admission J e = match admitter_of J e with Some _ => true | None => false end.
Proof. destruct e; cbn; try done. by destruct (_ && _). Qed.
Lemma same_silent w w' e : w_clock w' = w_clock w -> w_log w' = w_log w ++ [e] -> silent e -> same w w'.
Proof.
  intros Hc E (H1 & H2 & H3). split; [done|..]; rewrite E; rewrite ?admissions_app, ?submissions_app, ?last_claim_app, ?admitter_app, ?is_admission_of, ?H1, ?H2; [lia| |done|done].
  destruct e as [| |id q]; try lia. destruct (String.eqb_spec id J); [done|lia].
Qed.

Definition benign (w w' : World) : Prop :=
  forall j', stored w' = Some j' ->
    (exists j, stored w = Some j /\ vj_State j = vj_State j' /\ vj_Request j = vj_Request j' /\ (vj_State j' = StateQueued -> j = j'))
    \/ single j' /\ ~ early (vj_State j') /\ (closed (vj_State j') \/ adm w = 1%nat).
Lemma step_same p r w w' :
  Inv w -> same w w' -> (forall id j, mem_jobs (w_store w') !! id = Some j -> vj_JobID j = id) -> benign w w' -> Inv w' /\ guar p r w w'.
Proof.
  intros H S Hids HB. destruct S as [Ec Ea Es El Ead]. split.
  - split; rewrite ?Ea, ?Es, ?El; [done|apply H|apply H|..]; intros j' Hj'; destruct (HB j' Hj') as [(j & Hj & E1 & E2 & E3)|(Hs & He & Hc)].
    + unfold single. rewrite <- E2. by apply (inv_single w H).
    + done.
    + intros Eq. destruct (E3 Eq). by apply (inv_queued w H).
    + intros Eq. destruct He. by left.
    + rewrite <- E1. by apply (inv_started w H).
    + by right.
  - split; rewrite ?Ea, ?Es, ?El, ?Ead, ?Ec; try (by left); try done. intros j' Hj' He.
    destruct (HB j' Hj') as [(j & Hj & E1 & _)|(_ & Hne & _)]; [left; eauto|done].
Qed.
Lemma benign_refl w w' : stored w' = stored w -> benign w w'.
Proof. intros E j' Hj'. left. rewrite E in Hj'. eauto 6. Qed.

(** *** Rules for the operations *)

Definition learn (f : Phase) (s : JobState) : Phase :=
  match f with
  | Nothing => if bool_decide (s = StateQueued \/ closed s) then Nothing else if bool_decide (s = StateAdmitted) then Started else Advanced
  | Started => if bool_decide (early s) then Started else Advanced
  | f => f
  end.
Definition learned (k : Know) (j : VideoJob) : Know := mkKnow (k_time k) (learn (k_phase k) (vj_State j)).
Lemma learn_common f s : common f -> common (learn f s).
Proof. destruct f; cbn; try done; repeat case_bool_decide; done. Qed.
Lemma learn_knows p f w j : Inv w -> stored w = Some j -> knows_phase p f w -> knows_phase p (learn f (vj_State j)) w.
Proof.
  intros H Hj Hk. destruct f; cbn in *; try done.
  - case_bool_decide as H1; [done|]. destruct (inv_started w H j Hj) as [E|[E|E]]; [by destruct H1; left|by destruct H1; right|]. case_bool_decide as H2; [done|].
    split; [done|]. intros j' Hj'. rewrite Hj in Hj'. injection Hj' as [= <-]. intros [He|He]; [by apply H1; left|done].
  - case_bool_decide as H1; [done|]. split; [done|]. intros j' Hj'. rewrite Hj in Hj'. by injection Hj' as [= <-].
Qed.
Lemma learned_knows p r k w j : Inv w -> stored w = Some j -> knows p r k w -> knows p r (learned k j) w.
Proof. intros H Hj (Ht & Hc & Hk). split_and!; [done|intros ?; by apply learn_common, Hc|by apply learn_knows]. Qed.

Definition quiet {X} (op : Op X) : bool :=
  match op with SCreate _ | SUpdate _ | SClaim _ _ _ _ | SDelete _ | PCreate _ _ _ => false | _ => true end.
Lemma quiet_perform orc p {X} (op : Op X) w x w' : quiet op = true -> perform orc p op w = Some (x, w') -> w_store w' = w_store w /\ w_log w' = w_log w /\ w_clock w' = w_clock w.
Proof.
  intros Hq Hp. destruct op; cbn in *; try discriminate Hq; try (by injection Hp as [= <- <-]).
  - destruct (Enqueue _ _ _). by injection Hp as [= <- <-].
  - destruct op; repeat match type of Hp with context [let '(_, _) := ?e in _] => destruct e end; by injection Hp as [= <- <-].
  - case_bool_decide; [done|]. by injection Hp as [= <- <-].
Qed.
(** The same for the answers, which may say something of the store. *)
Lemma calm_step p r {X} (op : Op X) k orc w x w' :
  quiet op = true -> Inv w -> knows p r k w -> perform orc p op w = Some (x, w') -> Inv w' /\ guar p r w w' /\ knows p r k w' /\ w_store w' = w_store w.
Proof.
  intros Hq H Hk Hp. destruct (quiet_perform _ _ _ _ _ _ Hq Hp) as (Es & El & Ec).
  destruct (step_same p r w w' H (same_log w w' Ec El)) as [H' G]; [rewrite Es; apply H|apply benign_refl; by rewrite Es|].
  split_and!; [done|done| |done]. destruct Hk as (Ht & Hc & Hk). split_and!; [by rewrite Ec|done|]. destruct (k_phase k); cbn in *; rewrite ?Es, ?El, ?Ec; done.
Qed.
Lemma ok_quiet p r {X} (op : Op X) k : quiet op = true -> okp p r (doing op) k (fun _ k' => k' = k).
Proof. intros Hq orc w x w' Hid H Hk Hp Ht. destruct (calm_step _ _ _ _ _ _ _ _ Hq H Hk Hp) as (? & ? & ? & _). split_and!; [done|done|]. by exists k. Qed.
Lemma ok_now p r k : okp p r (doing Now) k (fun t k' => k' = mkKnow (Some t) (k_phase k)).
Proof.
  intros orc w x w' Hid H Hk Hp Ht. destruct (calm_step p r Now k _ _ _ _ eq_refl H Hk Hp) as (? & ? & Hk' & _). split_and!; [done|done|]. eexists. split; [|reflexivity].
  destruct Hk' as (? & ? & ?). split_and!; [|done|done]. cbn in *. injection Hp as [= <- <-]. done.
Qed.
Lemma ok_get p r id k :
  okp p r (doing (SGet id)) k (fun x k' => match x with inl j => vj_JobID j = id /\ (if bool_decide (id = J) then single j /\ k' = learned k j /\ (k_phase k = Advanced -> ~ early (vj_State j)) else k' = k) | inr _ => k' = k end).
Proof.
  intros orc w x w' Hid H Hk Hp Ht. destruct (calm_step p r (SGet id) k _ _ _ _ eq_refl H Hk Hp) as (H' & ? & Hk' & Es). split_and!; [done|done|].
  cbn in Hp. injection Hp as [= <- <-]. unfold Get. destruct (mem_jobs (w_store w) !! id) as [j|] eqn:Ej; [|by exists k].
  pose proof (inv_ids w H _ _ Ej). destruct (decide (id = J)) as [->|Hne]; cbn.
  - exists (learned k j). split; [by apply learned_knows|]. rewrite bool_decide_true by done. split_and!; [done|by apply (inv_single w H)|done|].
    intros EA. destruct Hk as (_ & _ & Hk). rewrite EA in Hk. by apply Hk.
  - exists k. split; [done|]. by rewrite bool_decide_false.
Qed.
Lemma ok_get_id p r id k : okp p r (doing (SGet id)) k (fun x k' => k' = k /\ forall j, x = inl j -> vj_JobID j = id).
Proof.
  intros orc w x w' Hid H Hk Hp Ht. destruct (calm_step p r (SGet id) k _ _ _ _ eq_refl H Hk Hp) as (H' & ? & Hk' & Es). split_and!; [done|done|].
  exists k. split; [done|]. split; [done|]. cbn in Hp. injection Hp as [= <- <-]. unfold Get. intros j. destruct (mem_jobs (w_store w) !! id) as [i|] eqn:Ej; [|done]. intros [= <-]. by apply (inv_ids w H).
Qed.
Lemma ok_list p r k :
  okp p r (doing SList) k (fun l k' => (forall j, In j l -> vj_JobID j = J -> single j /\ k' = learned k j) /\ (common (k_phase k) -> common (k_phase k'))).
Proof.
  intros orc w x w' Hid H Hk Hp Ht. destruct (calm_step p r SList k _ _ _ _ eq_refl H Hk Hp) as (H' & ? & Hk' & Es). split_and!; [done|done|].
  cbn in Hp. injection Hp as [= <- <-]. exists (match stored w with Some j => learned k j | None => k end). split.
  - destruct (stored w) eqn:E; [by apply learned_knows|done].
  - split; [|destruct (stored w); [apply learn_common|done]]. intros j Hin Ej. apply list_elem_of_In in Hin. rewrite (or_perm orc) in Hin. unfold List_ in Hin. apply list_elem_of_fmap in Hin as ([i j'] & -> & Hin).
    apply elem_of_map_to_list in Hin. cbn in *. pose proof (inv_ids w H _ _ Hin) as E. assert (i = J) as -> by congruence. rewrite Hin. split; [by apply (inv_single w H)|done].
Qed.

(** Knowledge after an own step, for what does not depend on the claim. *)
Lemma knows_own p r k w w' : common (k_phase k) -> Inv w' -> guar p r w w' -> knows p r k w -> knows p r k w'.
Proof. intros Hc H' G (Ht & ? & Hk). split_and!; [destruct (k_time k); [by rewrite (g_clock _ _ _ _ G)|done]|done|by eapply knows_common]. Qed.

Lemma update_jobs s j s' : Update s j = (s', None) -> mem_jobs s' = <[vj_JobID j := j]> (mem_jobs s).
Proof.
  unfold Update. destruct (mem_jobs s !! vj_JobID j) as [old|]; [|done]. destruct (checkTerminalUpdate old j); [done|].
  destruct (String.eqb (vj_IdempotencyKey j) _); [by intros [= <-]|]. destruct (negb _ && _); [done|]. by intros [= <-].
Qed.
Lemma update_error s j s' e : Update s j = (s', Some e) -> s' = s.
Proof.
  unfold Update. destruct (mem_jobs s !! vj_JobID j) as [old|]; [|by intros [= <- _]]. destruct (checkTerminalUpdate old j); [by intros [= <- _]|].
  destruct (String.eqb (vj_IdempotencyKey j) _); [done|]. destruct (negb _ && _); [by intros [= <- _]|done].
Qed.
Lemma insert_ids w j : Inv w -> forall id j', <[vj_JobID j := j]> (mem_jobs (w_store w)) !! id = Some j' -> vj_JobID j' = id.
Proof. intros H id j' [[<- <-]|[_ Hj']]%lookup_insert_Some; [done|by apply (inv_ids w H)]. Qed.

Definition wrote (k : Know) (j : VideoJob) : Know :=
  if bool_decide (vj_JobID j = J) then mkKnow (k_time k) (match k_phase k with Nothing => Nothing | _ => Advanced end) else k.
(** What may be written under [J] by a thread that does not admit it. *)
Definition writable (k : Know) (j : VideoJob) : Prop :=
  match k_phase k with Claimed _ => vj_JobID j <> J | _ => True end
  /\ (k_phase k = Token -> vj_JobID j = J)
  /\ (vj_JobID j = J -> single j /\ ~ early (vj_State j) /\ (closed (vj_State j) \/ k_phase k <> Nothing)).
Lemma ok_update p r j k : common (k_phase k) \/ k_phase k = Token -> writable k j -> okp p r (doing (SUpdate j)) k (fun e k' => match e with None => k' = wrote k j | Some _ => k' = k end).
Proof.
  intros Hcm (Hw1 & Hw2 & HW) orc w x w' Hid H Hk Hp Ht. cbn in Hp. destruct (Update (w_store w) j) as [s' e] eqn:EU. destruct e as [e|]; injection Hp as [= <- <-].
  { apply update_error in EU as ->. destruct w. cbn in *. split_and!; [done| |by exists k]. by apply step_same; [done|by apply same_log|apply H|by apply benign_refl]. }
  apply update_jobs in EU. set (w' := note _ _) in *.
  assert (mem_jobs (w_store w') = <[vj_JobID j := j]> (mem_jobs (w_store w))) as ES by done.
  assert (vj_JobID j = J -> adm w = 1%nat \/ k_phase k = Nothing) as Hadm.
  { intros EJ. destruct Hk as (_ & _ & Hk). destruct (k_phase k); cbn in Hk; tauto. }
  destruct (step_same p r w w') as [H' G]; [done|..].
  { apply (same_silent _ _ (EWrite (vj_JobID j) (vj_State j) (vj_LeaseOwner j) (vj_LeaseUntil j) (w_clock w))); [done|done|]. split_and!; [done| |done]. cbn.
    destruct (String.eqb_spec (vj_JobID j) J) as [EJ|]; [|done]. destruct (HW EJ) as (_ & He & _). cbn. rewrite bool_decide_false; [done|]. intros E. apply He. by right. }
  { rewrite ES. by apply insert_ids. }
  { intros j' Hj'. rewrite ES in Hj'. apply lookup_insert_Some in Hj' as [[EJ <-]|[_ Hj']]; [|left; eauto 6]. right. destruct (HW EJ) as (? & ? & Hc). split_and!; [done|done|].
    destruct (Hadm EJ) as [?|?]; [by right|]. destruct Hc; [by left|done]. }
  split_and!; [done|done|]. exists (wrote k j). split; [|done]. unfold wrote. destruct (decide (vj_JobID j = J)) as [EJ|EJ].
  - rewrite bool_decide_true by done. destruct Hk as (Ht' & Hc & Hk). split_and!; [done|by destruct (k_phase k)|]. cbn.
    assert (k_phase k = Nothing \/ adm w = 1%nat) as [->|Ha] by (destruct (Hadm EJ); tauto); [done|].
    assert (knows_phase p Advanced w') as HA.
    { split; [pose proof (g_mono _ _ _ _ G); pose proof (inv_adm _ H'); lia|]. intros j' Hj'. rewrite ES, EJ, lookup_insert_eq in Hj'. injection Hj' as [= <-]. by apply HW. }
    by destruct (k_phase k).
  - rewrite bool_decide_false by done. apply (knows_own p r k w); try done. destruct Hcm as [?|E]; [done|]. by destruct (EJ (Hw2 E)).
Qed.
Lemma ok_delete p r id k : common (k_phase k) -> okp p r (doing (SDelete id)) k (fun _ k' => k' = k).
Proof.
  intros Hc orc w x w' Hid H Hk Hp Ht. cbn in Hp. injection Hp as [= <- <-]. match goal with |- Inv ?a /\ _ => set (w' := a) end.
  assert (forall i j, mem_jobs (w_store w') !! i = Some j -> mem_jobs (w_store w) !! i = Some j) as Hsub.
  { intros i j. unfold w'. cbn. unfold Delete. destruct (mem_jobs (w_store w) !! id); [|done]. cbn. by intros [_ ?]%lookup_delete_Some. }
  destruct (step_same p r w w') as [H' G]; [done|by apply same_log|intros i j Hj; by apply (inv_ids w H), Hsub|intros j' Hj'; left; exists j'; eauto 6|].
  split_and!; [done|done|]. exists k. split; [by apply (knows_own p r k w)|done].
Qed.
Lemma ok_create p r j k : common (k_phase k) -> vj_JobID j <> J -> okp p r (doing (SCreate j)) k (fun _ k' => k' = k).
Proof.
  intros Hc Hj orc w x w' Hid H Hk Hp Ht. cbn in Hp. destruct (Create (w_store w) j) as [s' e] eqn:EC. injection Hp as [= <- <-]. match goal with |- Inv ?a /\ _ => set (w' := a) end.
  assert (mem_jobs s' = mem_jobs (w_store w) \/ mem_jobs s' = <[vj_JobID j := j]> (mem_jobs (w_store w))) as ES.
  { unfold Create in EC. case_bool_decide; [injection EC as [= <- _]; by left|]. destruct (String.eqb _ _); [injection EC as [= <- _]; by right|]. destruct (negb _); injection EC as [= <- _]; [by left|by right]. }
  destruct (step_same p r w w') as [H' G]; [done|by apply same_log|..].
  { cbn. destruct ES as [->| ->]; [apply H|by apply insert_ids]. }
  { apply benign_refl. cbn. destruct ES as [->| ->]; [done|by rewrite lookup_insert_ne]. }
  split_and!; [done|done|]. exists k. split; [by apply (knows_own p r k w)|done].
Qed.
Lemma ok_submit_other p r q id rq k : common (k_phase k) -> id <> J -> okp p r (doing (PCreate q id rq)) k (fun _ k' => k' = k).
Proof.
  intros Hc Hi orc w x w' Hid H Hk Hp Ht. cbn in Hp. injection Hp as [= <- <-]. destruct (step_same p r w (note w (ESubmit id q))) as [H' G]; [done| |apply H|by apply benign_refl|].
  { by apply (same_silent _ _ (ESubmit id q)). }
  split_and!; [done|done|]. exists k. split; [by apply (knows_own p r k w)|done].
Qed.

(** The admission under a claim, and the submission it allows. *)
Lemma ok_admit p j k :
  vj_JobID j = J -> single j -> vj_State j = StateAdmitted -> vj_LeaseOwner j = p -> k_phase k = Claimed (vj_LeaseUntil j) ->
  okp p true (doing (SUpdate j)) k (fun e k' => e = None -> k_phase k' = Token).
Proof.
  intros EJ Hs Est Eo Ek orc w x w' Hid H Hk Hp Ht. cbn in Hp. destruct (Update (w_store w) j) as [s' e] eqn:EU. destruct e as [e|]; injection Hp as [= <- <-].
  { apply update_error in EU as ->. destruct w. cbn in *. split_and!; [done| |by exists k]. by apply step_same; [done|by apply same_log|apply H|by apply benign_refl]. }
  apply update_jobs in EU. destruct Hk as (Ht' & _ & Hk). rewrite Ek in Hk. cbn in Hk. set (w' := note _ _) in *.
  assert (mem_jobs (w_store w') = <[vj_JobID j := j]> (mem_jobs (w_store w))) as ES by done.
  assert (w_log w' = w_log w ++ [EWrite (vj_JobID j) (vj_State j) (vj_LeaseOwner j) (vj_LeaseUntil j) (w_clock w)]) as EL by done.
  destruct Hk as [Hl Ha]. { apply (Ht (vj_JobID j) (vj_State j) (vj_LeaseOwner j)); [|done|done]. rewrite EL. apply in_or_app. right. by left. }
  assert (admitter_of J (EWrite (vj_JobID j) (vj_State j) (vj_LeaseOwner j) (vj_LeaseUntil j) (w_clock w)) = Some p) as EA.
  { cbn. rewrite EJ, String.eqb_refl, Est, bool_decide_true by done. by rewrite Eo. }
  assert (adm w' = 1%nat) as A1 by (rewrite EL, admissions_app, is_admission_of, EA; lia).
  assert (sub w' = 0%nat) as S1. { rewrite EL, submissions_app. pose proof (inv_sub w H). cbn. lia. }
  assert (last w' = last w) as L1 by (by rewrite EL, last_claim_app).
  assert (admtr w' = Some p) as D1 by (by rewrite EL, admitter_app, EA).
  assert (stored w' = Some j) as ST by (by rewrite ES, EJ, lookup_insert_eq).
  split_and!.
  - split; rewrite ?A1, ?S1, ?ST; [rewrite ES; by apply insert_ids|lia|lia|..]; intros ? [= <-]; [done|by rewrite Est|by right; right].
  - split; rewrite ?A1, ?L1, ?S1, ?Ha; [done|lia|right; eauto|by right|left; pose proof (inv_sub w H); lia|by left|by right].
  - exists (mkKnow (k_time k) Token). split; [|done]. split_and!; [done|done|exact (conj A1 (conj D1 S1))].
Qed.
Lemma ok_submit p q rq k : k_phase k = Token -> okp p true (doing (PCreate q J rq)) k (fun _ k' => k_phase k' = Started).
Proof.
  intros Ek orc w x w' Hid H Hk Hp Ht. cbn in Hp. injection Hp as [= <- <-]. destruct Hk as (Ht' & _ & Hk). rewrite Ek in Hk. destruct Hk as (Ha & Ho & Hs).
  set (w' := note w (ESubmit J q)). assert (w_log w' = w_log w ++ [ESubmit J q]) as EL by done.
  assert (adm w' = adm w /\ last w' = last w /\ admtr w' = admtr w) as (A1 & L1 & D1) by (rewrite EL, admissions_app, last_claim_app, admitter_app; cbn; split_and!; [lia|done|done]).
  assert (sub w' = 1%nat) as S1 by (rewrite EL, submissions_app, Hs, String.eqb_refl; lia).
  split_and!.
  - split; rewrite ?A1, ?S1, ?L1; [apply H|lia|lia|apply H|apply H|apply H].
  - split; rewrite ?A1, ?L1, ?D1; [done|lia|by left|by left|by right|by left|]. intros j' Hj' _. left. eauto.
  - exists (mkKnow (k_time k) Started). split; [|done]. split_and!; [done|done|]. exact (eq_trans A1 Ha).
Qed.

(** Claims. *)
Lemma claim_shape s id owner ttl now s' x :
  TryClaim s id owner ttl now = (s', x) ->
  (s' = s /\ forall j, x <> inl (Some j))
  \/ exists j, mem_jobs s !! id = Some j /\ claimable j owner now = true /\ x = inl (Some (lease_to j owner (Add now ttl)))
               /\ mem_jobs s' = <[id := lease_to j owner (Add now ttl)]> (mem_jobs s).
Proof.
  unfold TryClaim. destruct (mem_jobs s !! id) as [j|] eqn:Ej; [|intros [= <- <-]; by left]. destruct (claimable j owner now) eqn:Ec; cbn [negb]; intros [= <- <-]; [right|by left]. by exists j.
Qed.
Lemma lease_ids w id j owner until : Inv w -> mem_jobs (w_store w) !! id = Some j ->
  forall i j', <[id := lease_to j owner until]> (mem_jobs (w_store w)) !! i = Some j' -> vj_JobID j' = i.
Proof. intros H Hj i j' [[<- <-]|[_ Hj']]%lookup_insert_Some; [rewrite id_lease_to; by apply (inv_ids w H)|by apply (inv_ids w H)]. Qed.
Lemma ok_claim_other p r id owner ttl now k :
  common (k_phase k) -> id <> J -> okp p r (doing (SClaim id owner ttl now)) k (fun x k' => k' = k /\ forall j, x = inl (Some j) -> vj_JobID j = id).
Proof.
  intros Hc Hi orc w x w' Hid H Hk Hp Ht. cbn in Hp. destruct (TryClaim (w_store w) id owner ttl now) as [s' x'] eqn:EC. injection Hp as [= <- <-].
  destruct (claim_shape _ _ _ _ _ _ _ EC) as [(-> & Hx)|(j & Hj & _ & -> & ES)].
  - match goal with |- Inv ?w' /\ _ => assert (w' = w) as -> end. { destruct x' as [[j|]|e]; [by destruct (Hx j)|by destruct w..]. }
    split_and!; [done| |exists k; split; [done|split; [done|intros j ->; by destruct (Hx j)]]]. by apply step_same; [done|by apply same_log|apply H|by apply benign_refl].
  - set (w' := note _ _). destruct (step_same p r w w') as [H' G]; [done|..].
    { eapply same_silent; [done|done|]. split_and!; [|done|done]. cbn. destruct (vj_State _); try done. by destruct (String.eqb_spec id J). }
    { cbn. rewrite ES. by apply lease_ids. }
    { apply benign_refl. cbn. by rewrite ES, lookup_insert_ne. }
    split_and!; [done|done|]. exists k. split; [by apply (knows_own p r k w)|]. split; [done|]. intros ? [= <-]. rewrite id_lease_to. by apply (inv_ids w H).
Qed.
Lemma ok_claim p ttl now k t :
  common (k_phase k) -> k_time k = Some t -> now <= t ->
  okp p true (doing (SClaim J p ttl now)) k
    (fun x k' => match x with
       | inl (Some j) =>
           vj_JobID j = J /\ single j /\ vj_LeaseOwner j = p
           /\ k' = if bool_decide (vj_State j = StateQueued /\ k_phase k = Nothing) then mkKnow (k_time k) (Claimed (vj_LeaseUntil j)) else learned k j
       | _ => k' = k end).
Proof.
  intros Hc Et Hn orc w x w' Hid H Hk Hp Ht. cbn in Hp. destruct (TryClaim (w_store w) J p ttl now) as [s' x'] eqn:EC. injection Hp as [= <- <-].
  destruct (claim_shape _ _ _ _ _ _ _ EC) as [(-> & Hx)|(j & Hj & Hcl & -> & ES)].
  - match goal with |- Inv ?w' /\ _ => assert (w' = w) as -> end. { destruct x' as [[j|]|e]; [by destruct (Hx j)|by destruct w..]. }
    split_and!; [done| |exists k; split; [done|destruct x' as [[j|]|e]; [by destruct (Hx j)|done..]]]. by apply step_same; [done|by apply same_log|apply H|by apply benign_refl].
  - match goal with |- Inv ?a /\ _ => set (w' := a) end. set (j' := lease_to j p (Add now ttl)) in *.
    assert (stored w' = Some j') as ST by (cbn; by rewrite ES, lookup_insert_eq).
    assert (forall id i, mem_jobs (w_store w') !! id = Some i -> vj_JobID i = id) as Hids by (cbn; rewrite ES; by apply lease_ids).
    assert (w_log w' = w_log w ++ [EClaim J p (vj_LeaseUntil j') (vj_State j')]) as EL by done.
    assert (vj_JobID j' = J /\ single j' /\ vj_LeaseOwner j' = p /\ vj_State j' = vj_State j /\ vj_Request j' = vj_Request j) as (E1 & E2 & E3 & E4 & E5).
    { unfold j', single. rewrite id_lease_to, req_lease_to, owner_lease_to, state_lease_to. split_and!; [by apply (inv_ids w H)|by apply (inv_single w H)|done|done|done]. }
    clearbody j'. destruct Hk as (Htm & Hcf & Hk). rewrite Et in Htm.
    destruct (decide (vj_State j = StateQueued)) as [Eq|Eq].
    + destruct (inv_queued w H j Hj Eq) as [Ha Hl].
      assert (last w' = Some (p, vj_LeaseUntil j')) as L1 by (rewrite EL, last_claim_app; cbn; by rewrite E4, Eq, String.eqb_refl).
      assert (adm w' = adm w /\ sub w' = sub w /\ admtr w' = admtr w) as (A1 & S1 & D1) by (rewrite EL, admissions_app, submissions_app, admitter_app; cbn; split_and!; [lia|lia|done]).
      assert (guar p true w w') as G.
      { split; rewrite ?A1, ?S1, ?D1; [done|lia|by left|by left|by left| |intros; by right]. right. split; [done|]. destruct (last w) as [[o u]|]; [|done]. destruct Hl as [Ho Hu].
        unfold claimable in Hcl. apply orb_prop in Hcl as [Hcl|Hcl%String.eqb_eq]; [|right; left; congruence]. apply orb_prop in Hcl as [Hcl%String.eqb_eq|Hcl]; [right; right; congruence|].
        left. unfold After in Hcl. apply negb_true_iff, Z.ltb_ge in Hcl. cbn in Htm. lia. }
      assert (Inv w') as H'.
      { split; rewrite ?A1, ?S1, ?L1, ?ST; [done|apply H|apply H|..]; intros ? [= <-]; [done|intros _; split; done|left; congruence]. }
      split_and!; [done|done|]. destruct (decide (k_phase k = Nothing)) as [En|En].
      * exists (mkKnow (k_time k) (Claimed (vj_LeaseUntil j'))). split.
        { split_and!; [by rewrite Et|done|]. intros _. split; [exact L1|exact (eq_trans A1 Ha)]. }
        split_and!; [done|done|done|]. rewrite bool_decide_true by (split; congruence). done.
      * exists (learned k j'). split; [apply learned_knows; [done|done|]; apply (knows_own p true k w); try done; split_and!; [by rewrite Et|done|done]|].
        split_and!; [done|done|done|]. rewrite bool_decide_false; [done|]. by intros [_ ?].
    + destruct (step_same p true w w') as [H' G]; [done|..].
      { apply (same_silent w w' _ eq_refl EL). split_and!; [|done|done]. cbn. rewrite E4. by destruct (vj_State j). }
      { done. }
      { intros j0 Hj0. rewrite ST in Hj0. injection Hj0 as [= <-]. left. exists j. split_and!; [done|congruence|congruence|intros E; congruence]. }
      split_and!; [done|done|]. exists (learned k j'). split; [apply learned_knows; [done|done|]; apply (knows_own p true k w); try done; split_and!; [by rewrite Et|done|done]|].
      split_and!; [done|done|done|]. rewrite bool_decide_false; [done|]. intros [? _]. congruence.
Qed.

(** *** Programs of the orchestrator *)

Section programs.
Context (o : Orchestrator) (r : bool).
Notation p := (o_InstanceID o).
Notation ok m k Q := (okp p r m k Q).

Lemma ok_bind_quiet {B X} (op : Op X) (f : X -> Prog B) k (Q : B -> Know -> Prop) : quiet op = true -> (forall x, ok (f x) k Q) -> ok (doing op ≫= f) k Q.
Proof. intros Hq Hf. eapply okp_bind; [by apply ok_quiet|]. by intros x k' ->. Qed.
Lemma ok_weaken {A} (m : Prog A) k (Q R : A -> Know -> Prop) : ok m k Q -> (forall a k', Q a k' -> R a k') -> ok m k R.
Proof.
  intros Hm Hf. revert k Hm. induction m as [a|e|X op c IH]; intros k Hm; cbn in *; [by apply Hf|done|].
  intros orc w x w' Hid H Hk Hp Ht. destruct (Hm orc w x w' Hid H Hk Hp Ht) as (? & ? & k' & ? & Hc). split_and!; [done|done|]. exists k'. split; [done|by apply IH].
Qed.
Lemma ok_ledger {B} op (f : option CostErr -> Prog B) k Q : (forall x, ok (f x) k Q) -> ok (ledger o op ≫= f) k Q.
Proof. intros Hf. unfold ledger. destruct (o_HasLedger o); [by apply ok_bind_quiet|apply Hf]. Qed.
Lemma ok_update_ret what j k (Q : unit -> Know -> Prop) : common (k_phase k) \/ k_phase k = Token -> writable k j -> Q tt (wrote k j) -> ok (update what j) k Q.
Proof. intros Hc Hw HQ. unfold update. eapply okp_bind; [by apply ok_update|]. intros [e|] k' Hk; cbn; [done|]. by rewrite Hk. Qed.
Lemma ok_locked {A} id (m : Prog A) k Q : ok m k Q -> (forall a k', Q a k' -> ok (Ret a) k' Q) -> ok (locked id m) k Q.
Proof.
  intros Hm _. unfold locked. apply ok_bind_quiet; [done|]. intros _. eapply okp_bind.
  - eapply (okp_attempt _ _ _ _ (fun x k' => match x with inl a => Q a k' | inr _ => True end)); [exact Hm|done].
  - intros [a|e] k' HQ; apply ok_bind_quiet; try done.
Qed.

(** A job past its admission, or another job. *)
Definition started (k : Know) (j : VideoJob) : Prop :=
  (vj_JobID j <> J -> common (k_phase k)) /\ (vj_JobID j = J -> single j /\ (k_phase k = Started \/ k_phase k = Advanced \/ k_phase k = Token)).
Definition good (k : Know) (j : VideoJob) : Prop := common (k_phase k) /\ (vj_JobID j = J -> single j /\ ~ early (vj_State j) /\ k_phase k = Advanced).
Lemma good_started k j : good k j -> started k j.
Proof. intros [Hc H]. split; [done|]. intros E. destruct (H E) as (? & _ & ?). tauto. Qed.
Lemma good_like k j j' : vj_JobID j' = vj_JobID j -> vj_Request j' = vj_Request j -> (early (vj_State j') -> early (vj_State j)) -> good k j -> good k j'.
Proof. intros E1 E2 E3 [Hc H]. split; [done|]. rewrite E1. intros E. destruct (H E) as (Hs & ? & ?). unfold single in *. rewrite E2. tauto. Qed.
Lemma started_phase k j : started k j -> common (k_phase k) \/ k_phase k = Token.
Proof. intros [H1 H2]. destruct (decide (vj_JobID j = J)) as [E|E]; [|by left; apply H1]. destruct (H2 E) as (_ & [->|[->| ->]]); cbn; tauto. Qed.
Lemma started_writable k j : started k j -> (vj_JobID j = J -> ~ early (vj_State j)) -> writable k j.
Proof.
  intros [H1 H2] He. destruct (decide (vj_JobID j = J)) as [E|E].
  - destruct (H2 E) as (? & Hk). split_and!; [by destruct Hk as [->|[->| ->]]|done|]. intros _. split_and!; [done|by apply He|right; destruct Hk as [->|[->| ->]]; done].
  - specialize (H1 E). split_and!; [by destruct (k_phase k)|by intros Ek; rewrite Ek in H1|done].
Qed.
Lemma started_wrote k j : started k j -> (vj_JobID j = J -> ~ early (vj_State j)) -> good (wrote k j) j.
Proof.
  intros [H1 H2] He. unfold wrote. destruct (decide (vj_JobID j = J)) as [E|E].
  - rewrite bool_decide_true by done. destruct (H2 E) as (? & Hk). split; [by destruct (k_phase k)|]. intros _. split_and!; [done|by apply He|]. cbn. by destruct Hk as [->|[->| ->]].
  - rewrite bool_decide_false by done. split; [by apply H1|done].
Qed.
(** Writing a started job. *)
Lemma ok_write what j k (Q : unit -> Know -> Prop) : started k j -> (vj_JobID j = J -> ~ early (vj_State j)) -> (forall k', good k' j -> Q tt k') -> ok (update what j) k Q.
Proof. intros Hs He HQ. apply ok_update_ret; [by eapply started_phase|by apply started_writable|]. by apply HQ, started_wrote. Qed.
Lemma ok_write_bind {B} what j (f : unit -> Prog B) k Q : started k j -> (vj_JobID j = J -> ~ early (vj_State j)) -> (forall k', good k' j -> ok (f tt) k' Q) -> ok (update what j ≫= f) k Q.
Proof. intros Hs He Hf. eapply okp_bind; [apply (ok_write _ _ _ (fun _ k' => good k' j)); done|]. intros [] k' Hg. by apply Hf. Qed.
Lemma started_like k j j' : vj_JobID j' = vj_JobID j -> vj_Request j' = vj_Request j -> started k j -> started k j'.
Proof. intros E1 E2 [H1 H2]. split; rewrite E1; [done|]. unfold single. by rewrite E2. Qed.

Lemma not_early_step j s j' : Transition j s = Some j' -> ~ early s -> vj_JobID j' = vj_JobID j /\ vj_Request j' = vj_Request j /\ ~ early (vj_State j').
Proof. intros E He. apply transition_some in E as [-> _]. rewrite id_set_state, req_set_state, state_set_state. done. Qed.
Lemma ok_manual j reason k (Q : unit -> Know -> Prop) : started k j -> (forall k' j', vj_JobID j' = vj_JobID j -> good k' j' -> Q tt k') -> ok (markNeedsManual j reason) k Q.
Proof.
  intros Hs HQ. unfold markNeedsManual.
  assert (forall j', vj_JobID j' = vj_JobID j -> vj_Request j' = vj_Request j -> ~ early (vj_State j') -> ok (update "manual action" (set_error j' reason)) k Q) as Hw.
  { intros j' E1 E2 E3. apply ok_write; [apply (started_like _ j); [by rewrite id_set_error|by rewrite req_set_error|done]|intros _; by rewrite state_set_error|].
    intros k' Hg. eapply HQ; [|exact Hg]. by rewrite id_set_error. }
  case_bool_decide as E; [apply Hw; [done|done|rewrite E; by intros [|]]|]. destruct (Transition j StateNeedsManualAction) as [j'|] eqn:ET; [|done].
  destruct (not_early_step _ _ _ ET) as (? & ? & ?); [by intros [|]|]. by apply Hw.
Qed.
Lemma ok_manual_err {A} j reason k (Q : A -> Know -> Prop) : started k j -> ok (markNeedsManualAndError j reason) k Q.
Proof. intros Hs. unfold markNeedsManualAndError. eapply okp_bind; [by apply (ok_manual _ _ _ (fun _ _ => True))|done]. Qed.
Lemma ok_manual_then {A} j reason e k (Q : A -> Know -> Prop) : started k j -> ok (markNeedsManual j reason;; Err e) k Q.
Proof. intros Hs. eapply okp_bind; [by apply (ok_manual _ _ _ (fun _ _ => True))|done]. Qed.
Lemma ok_fail {A} j msg k (Q : A -> Know -> Prop) : started k j -> ok (fail o j msg) k Q.
Proof.
  intros Hs. unfold fail.
  assert (forall j', vj_JobID j' = vj_JobID j -> vj_Request j' = vj_Request j -> ~ early (vj_State j') ->
            ok (update "persist failed video job" (set_error j' msg);; ledger o (LEstimate (vj_JobID j') (vj_EstimatedCostUSD j'));; Err (EMsg msg)) k Q) as Hw.
  { intros j' E1 E2 E3. apply ok_write_bind; [apply (started_like _ j); [by rewrite id_set_error|by rewrite req_set_error|done]|intros _; by rewrite state_set_error|]. intros k' _. by apply ok_ledger. }
  case_bool_decide as E; [apply Hw; [done|done|rewrite E; by intros [|]]|]. destruct (Transition j StateFailed) as [j'|] eqn:ET; [|done].
  destruct (not_early_step _ _ _ ET) as (? & ? & ?); [by intros [|]|]. by apply Hw.
Qed.

Lemma reconcile_fields j a : vj_JobID (applyCostReconciliation j a) = vj_JobID j /\ vj_Request (applyCostReconciliation j a) = vj_Request j /\ vj_State (applyCostReconciliation j a) = vj_State j.
Proof. unfold applyCostReconciliation. destruct a as [a|]; [destruct (validActualCost a)|]; by destruct j. Qed.
Lemma complete_fields j a l t : vj_JobID (complete j a l t) = vj_JobID j /\ vj_Request (complete j a l t) = vj_Request j.
Proof. unfold complete. destruct (reconcile_fields j a) as (E1 & E2 & _). revert E1 E2. generalize (applyCostReconciliation j a) as i. intros i E1 E2. rewrite <- E1, <- E2. by destruct i. Qed.

(** Reading a started job again. *)
Lemma ok_reload k j (Q : VideoJob + StoreErr -> Know -> Prop) :
  good k j -> (forall j' k', vj_JobID j' = vj_JobID j -> good k' j' -> Q (inl j') k') -> (forall e k', common (k_phase k') -> Q (inr e) k') -> ok (doing (SGet (vj_JobID j))) k Q.
Proof.
  intros [Hc Hg] Hl Hr. eapply ok_weaken; [apply ok_get|]. intros [j'|e] k' Hx; [|subst; by apply Hr]. destruct Hx as [Ei Hx]. apply Hl; [done|]. case_bool_decide as E.
  - destruct Hx as (Hs & -> & He). destruct (Hg E) as (_ & _ & EA). split; [by apply learn_common|]. intros _. split_and!; [done|by apply He|]. unfold learned. by rewrite EA.
  - subst k'. split; [done|]. congruence.
Qed.
Context (parseFloat : string -> option float64).
Lemma ok_commit j st assets k : good k j -> ok (commit parseFloat o j st assets) k (fun _ _ => True).
Proof.
  intros Hg. unfold commit. eapply okp_bind; [apply (ok_reload k j (fun x k' => match x with inl j' => good k' j' | inr _ => True end)); [done|by intros|done]|].
  intros [latest|e] k' Hl; [|done]. destruct (IsTerminal latest || _); [done|]. apply ok_ledger. intros [e|].
  - destruct (reconcile_fields latest None) as (E1 & E2 & E3). apply ok_write_bind; [|rewrite state_set_error, E3|done].
    + apply (started_like _ latest); [by rewrite id_set_error|by rewrite req_set_error|by apply good_started].
    + rewrite id_set_error, E1. intros E. by apply Hl.
  - eapply okp_bind; [apply ok_now|]. intros now k2 ->. destruct (Transition _ StateCompleted) as [j'|] eqn:ET; [|done].
    destruct (complete_fields latest (providerActualCost parseFloat st) assets now) as [E1 E2]. destruct (not_early_step _ _ _ ET) as (F1 & F2 & F3); [by intros [|]|].
    apply ok_write; [|intros _; exact F3|done]. apply (started_like _ latest); [congruence|congruence|]. apply good_started in Hl. exact Hl.
Qed.
Lemma ok_download q j st k : good k j -> ok (downloadAndComplete parseFloat o q j st) k (fun _ _ => True).
Proof.
  intros Hg. unfold downloadAndComplete. case_bool_decide; [done|]. destruct (ps_Outputs st) as [|out outs]; [by apply ok_manual_err, good_started|].
  destruct (o_HasAssets o); cbn [negb]; [|by apply ok_manual_err, good_started].
  assert (forall j', vj_JobID j' = vj_JobID j -> vj_Request j' = vj_Request j -> ~ early (vj_State j') -> good k j') as Hl.
  { intros j' E1 E2 E3. eapply good_like; [exact E1|exact E2|done|exact Hg]. }
  destruct (if bool_decide _ then _ else _) as [j'|] eqn:ET; [|by apply ok_manual_err, good_started].
  assert (good k (set_error j' "") /\ ~ early (vj_State (set_error j' ""))) as [Hg' He'].
  { rewrite state_set_error. case_bool_decide as Eu.
    - injection ET as [= <-]. rewrite Eu. split; [|by intros [|]]. apply Hl; [by rewrite id_set_error|by rewrite req_set_error|]. rewrite state_set_error, Eu. by intros [|].
    - destruct (not_early_step _ _ _ ET) as (E1 & E2 & E3); [by intros [|]|]. split; [|done]. apply Hl; [by rewrite id_set_error|by rewrite req_set_error|by rewrite state_set_error]. }
  set (j1 := set_error j' "") in *. clearbody j1. apply ok_write_bind; [by apply good_started|done|]. intros k1 Hg1. apply ok_bind_quiet; [done|]. intros [assets|[]].
  - destruct assets as [|a assets]; [by apply ok_manual_err, good_started|]. destruct (List.find _ _); [by apply ok_manual_err, good_started|]. apply ok_locked; [by apply ok_commit|done].
  - apply ok_write_bind; [apply (started_like _ j1); [by rewrite id_set_error|by rewrite req_set_error|by apply good_started]|by rewrite state_set_error|done].
Qed.
Lemma ok_claim_any id k (Q : VideoJob -> Know -> Prop) :
  common (k_phase k) -> (id = J -> r = true) ->
  (forall j k', vj_JobID j = id -> (id <> J -> common (k_phase k'))
     -> (id = J -> single j /\ vj_LeaseOwner j = p
                   /\ k_phase k' = if bool_decide (vj_State j = StateQueued /\ k_phase k = Nothing) then Claimed (vj_LeaseUntil j) else learn (k_phase k) (vj_State j)) -> Q j k') ->
  ok (claim o id) k Q.
Proof.
  intros Hc Hr HQ. unfold claim. eapply okp_bind; [apply ok_now|]. intros now k1 ->. destruct (decide (id = J)) as [->|Hne].
  - rewrite (Hr eq_refl). eapply okp_bind; [by apply (ok_claim _ _ _ _ now)|]. intros [[j|]|e] k2 Hx; try done. destruct Hx as (E1 & E2 & E3 & ->).
    apply HQ; [done|done|]. intros _. split_and!; [done|done|]. cbn [k_phase]. by case_bool_decide.
  - eapply okp_bind; [by apply ok_claim_other|]. intros x k2 [-> Hx]. destruct x as [[j|]|e]; try done. apply HQ; [by apply Hx|done|done].
Qed.

(** A provider's progress report moves the job to [cand]. *)
Lemma ok_progress q polls (cand : option VideoJob) j k :
  (forall j k, good k j -> (vj_JobID j = J -> r = true) -> ok (poll_loop parseFloat o polls q j) k (fun _ _ => True)) -> good k j -> (vj_JobID j = J -> r = true) ->
  (forall j', cand = Some j' -> j' = j \/ exists s, ~ early s /\ Transition j s = Some j') ->
  ok match cand with
     | None => markNeedsManualAndError j "provider returned an unsupported state transition"
     | Some j => let j := set_error j "" in update "persist provider job progress" j;; poll_loop parseFloat o polls q j
     end k (fun _ _ => True).
Proof.
  intros IH Hg Hr Hc. destruct cand as [j'|]; [|by apply ok_manual_err, good_started]. cbv zeta.
  assert (vj_JobID j' = vj_JobID j) as Ej by (destruct (Hc _ eq_refl) as [->|(s & Hs & ET)]; [done|by destruct (not_early_step _ _ _ ET Hs)]).
  assert (good k (set_error j' "")) as Hg'.
  { apply (good_like _ j'); [by rewrite id_set_error|by rewrite req_set_error|by rewrite state_set_error|]. destruct (Hc _ eq_refl) as [->|(s & Hs & ET)]; [done|].
    destruct (not_early_step _ _ _ ET Hs) as (E1 & E2 & E3). by apply (good_like _ j). }
  apply ok_write_bind; [by apply good_started|by intros E; apply Hg'|]. intros k' Hk'. apply IH; [done|]. by rewrite id_set_error, Ej.
Qed.

Lemma ok_poll q polls : forall j k, good k j -> (vj_JobID j = J -> r = true) -> ok (poll_loop parseFloat o polls q j) k (fun _ _ => True).
Proof.
  induction polls as [|polls IH]; intros j k Hg Hr; cbn [poll_loop].
  { apply ok_write_bind; [apply (started_like _ j); [by rewrite id_set_error|by rewrite req_set_error|by apply good_started]|rewrite id_set_error, state_set_error; by intros E; apply Hg|].
    intros k' _. by apply ok_bind_quiet. }
  apply ok_bind_quiet; [done|]. intros ended. destruct ended; [done|].
  eapply okp_bind; [apply (ok_claim_any _ k (fun c k' => good k' (lease_to j (vj_LeaseOwner c) (vj_LeaseUntil c)))); [apply Hg|done|]|].
  { intros c k' Ec Hc1 Hc2. destruct (decide (vj_JobID j = J)) as [E|E].
    - destruct (proj2 Hg E) as (? & He & EA). destruct (Hc2 E) as (_ & _ & Ek). rewrite EA, bool_decide_false in Ek by (by intros [_ ?]). cbn in Ek.
      split; [by rewrite Ek|]. intros _. unfold single. rewrite state_lease_to, req_lease_to. done.
    - split; [by apply Hc1|]. by rewrite id_lease_to. }
  clear Hg. intros c k1. cbv beta zeta. rewrite <- (id_lease_to j (vj_LeaseOwner c) (vj_LeaseUntil c)) in Hr. revert Hr. generalize (lease_to j (vj_LeaseOwner c) (vj_LeaseUntil c)). clear j k. intros j Hr Hg. apply ok_bind_quiet; [done|]. intros [|]; [done|]. apply ok_bind_quiet; [done|]. intros [st|[]].
  2: { apply ok_write_bind.
       - apply (started_like _ j); [rewrite id_set_error; by destruct j|rewrite req_set_error; by destruct j|by apply good_started].
       - rewrite id_set_error, state_set_error. destruct j; apply Hg.
       - intros k2 Hg2. apply IH; [done|]. rewrite id_set_error. by destruct j. }
  destruct (negb _ && _); [by apply ok_manual_err, good_started|]. destruct (bad_progress _); [by apply ok_manual_err, good_started|].
  match goal with |- context [mergeUsage ?a ?b] => generalize (mergeUsage a b) end. intros usage.
  match goal with |- context [if ?b then ps_Progress st else _] => generalize (if b then ps_Progress st else vj_Progress j) end. intros progress.
  match goal with |- context [fail o ?i _] => set (j1 := i) end.
  assert (vj_JobID j1 = vj_JobID j) as Ej1 by (by destruct j). rewrite <- Ej1 in Hr.
  assert (good k1 j1) as Hg1 by (apply (good_like _ j); [by destruct j|by destruct j|by destruct j|done]). clear Ej1. clearbody j1. clear Hg j. rename j1 into j, Hg1 into Hg.
  pose proof (good_started _ _ Hg) as Hs.
  destruct (ps_State st) eqn:Est; try (by apply ok_manual_err); try (by apply ok_fail).
  1-4: case_bool_decide as Eup; [by apply ok_manual_err|]; apply ok_progress; [done|done|done|]; intros j'.
  1: rewrite bool_decide_true by done; intros [= <-]; by left.
  1-3: rewrite bool_decide_false by done; try (rewrite bool_decide_false by done; cbn [andb]); try (destruct (_ && _); [intros [= <-]; by left|]);
       intros ET; right; eexists; split; [|exact ET]; by intros [|].
  - eapply okp_bind; [apply (okp_attempt _ _ _ _ (fun _ _ => True)); [by apply ok_download|done]|]. intros [|e] k' _; [done|]. apply ok_bind_quiet; [done|]. intros [latest|]; [|done].
    case_bool_decide; [by apply ok_bind_quiet|done].
  - destruct (Transition j StateCancelled) as [j'|] eqn:ET; [|done]. destruct (not_early_step _ _ _ ET) as (E1 & E2 & E3); [by intros [|]|].
    apply ok_write_bind; [apply (started_like _ j); [by rewrite id_set_error|by rewrite req_set_error|done]|by rewrite state_set_error|]. intros k' _. by apply ok_ledger.
Qed.
(** The admission and submission of a claimed queued job. *)
Lemma ok_submission j k :
  (vj_JobID j <> J -> common (k_phase k)) -> (vj_JobID j = J -> r = true /\ single j /\ vj_LeaseOwner j = p /\ k_phase k = Claimed (vj_LeaseUntil j)) ->
  ok (submit o j) k (fun j' k' => good k' j' /\ vj_JobID j' = vj_JobID j).
Proof.
  intros H1 H2. unfold submit. cbv zeta.
  assert (vj_JobID (set_state j StateAdmitted) = vj_JobID j) as Ei by apply id_set_state.
  eapply (okp_bind _ _ _ _ _ (fun _ k' => (vj_JobID j <> J -> common (k_phase k')) /\ (vj_JobID j = J -> k_phase k' = Token))).
  { unfold update. destruct (decide (vj_JobID j = J)) as [E|E].
    - destruct (H2 E) as (-> & Hs & Ho & Hk). eapply okp_bind.
      + apply ok_admit; [congruence|unfold single; by rewrite req_set_state|apply state_set_state|by rewrite owner_set_state|by rewrite until_set_state].
      + intros [e|] k' Hk'; [done|]. cbn. split; [done|]. by intros _; apply Hk'.
    - eapply okp_bind; [apply ok_update; [by left; apply H1|]|].
      + specialize (H1 E). split_and!; [by destruct (k_phase k)|by intros Ek; rewrite Ek in H1|congruence].
      + intros [e|] k' Hk'; [done|]. cbn. split; [|done]. intros _. rewrite Hk'. unfold wrote. rewrite bool_decide_false by congruence. by apply H1. }
  intros _ k1 [HT1 HT2].
  assert (started k1 (set_state j StateAdmitted)) as Hs1.
  { split; rewrite Ei; [done|]. intros E. destruct (H2 E) as (? & ? & _). unfold single. rewrite req_set_state. split; [done|]. right; right. by apply HT2. }
  revert Ei Hs1. generalize (set_state j StateAdmitted). intros i Ei Hs1.
  destruct (o_Providers o !! vj_Provider i) as [q|]; [|by apply ok_fail].
  eapply (okp_bind _ _ _ _ _ (fun _ k' => started k' i)).
  { destruct (decide (vj_JobID i = J)) as [E|E].
    - destruct (proj2 Hs1 E) as (Hsi & _). assert (r = true) as Er by (apply H2; congruence). eapply ok_weaken; [rewrite Er, E; apply ok_submit, HT2; congruence|]. intros x k' Hk'. split; [done|]. intros _. tauto.
    - eapply ok_weaken; [apply ok_submit_other; [by apply Hs1|done]|]. intros x k' ->. done. }
  intros [sub|[]] k2 Hs2; [|by apply ok_manual_then]. destruct (String.eqb _ _); [by apply ok_manual_then|].
  eapply okp_bind; [apply ok_now|]. intros now k3 ->. match goal with |- context [set_state ?a StateSubmitted] => set (i0 := a); set (i1 := set_state i0 StateSubmitted) end.
  assert (started k2 i1) as Hs3 by (apply (started_like _ i); [unfold i1; rewrite id_set_state; by destruct i|unfold i1; rewrite req_set_state; by destruct i|done]).
  assert (vj_State i1 = StateSubmitted) as E1 by apply state_set_state. assert (vj_JobID i1 = vj_JobID j) as Ei1 by (unfold i1; rewrite id_set_state, <- Ei; by destruct i). clearbody i1. change (started (mkKnow (Some now) (k_phase k2)) i1) in Hs3.
  revert Hs3. generalize (mkKnow (Some now) (k_phase k2)). intros k3 Hs3.
  assert (~ early (vj_State i1)) as He by (rewrite E1; by intros [|]).
  eapply okp_bind; [apply ok_update; [by eapply started_phase|by apply started_writable]|]. intros [e|] k4 ->; [by apply ok_bind_quiet|].
  pose proof (started_wrote _ _ Hs3 (fun _ => He)) as Hg. destruct (negb _ || _ || _); [by apply ok_manual_then, good_started|done].
Qed.

Lemma ok_go_on j k : good k j -> (vj_JobID j = J -> r = true) -> ok (go_on parseFloat o j) k (fun _ _ => True).
Proof.
  intros Hg Hr. unfold go_on. destruct (o_Providers o !! vj_Provider j) as [q|]; [|by apply ok_fail, good_started]. case_bool_decide as Ec.
  - apply ok_bind_quiet; [done|]. intros [|]; [cbn [negb]|done].
    apply ok_write_bind; [apply (started_like _ j); [by rewrite id_set_error, id_set_state|by rewrite req_set_error, req_set_state|by apply good_started]|rewrite state_set_error, state_set_state; by intros _ [|]|].
    intros k' _. by apply ok_ledger.
  - unfold pollAndFinalize. by apply ok_poll.
Qed.
Lemma ok_run_single j k :
  (vj_JobID j <> J -> common (k_phase k)) ->
  (vj_JobID j = J -> r = true /\ single j /\ vj_LeaseOwner j = p
     /\ k_phase k = if bool_decide (vj_State j = StateQueued) then Claimed (vj_LeaseUntil j) else learn Nothing (vj_State j)) ->
  ok (run_single parseFloat o j) k (fun _ _ => True).
Proof.
  intros H1 H2. unfold run_single.
  assert (vj_State j = StateQueued \/ vj_State j = StateCancelled \/ vj_State j = StateFailed \/ started k j /\ (vj_State j = StateAdmitted \/ good k j)) as Hcase.
  { destruct (decide (vj_JobID j = J)) as [E|E].
    - destruct (H2 E) as (Hr & Hs & Ho & Hk). destruct (vj_State j) eqn:Est; try tauto; right; right; right; cbn in Hk; (split; [split; [done|]; intros _; tauto|]); first [by left|right].
      all: split; [by rewrite Hk|intros _; split_and!; [done|rewrite Est; by intros [|]|done]].
    - specialize (H1 E). right; right; right. split; [by split|]. right. by split. }
  destruct (vj_State j) eqn:Est; try done.
  - eapply okp_bind; [apply ok_submission; [done|]|intros j' k' [Hg Ej]; apply ok_go_on; [done|rewrite Ej; intros E; by apply H2]]. intros E. destruct (H2 E) as (? & ? & ? & Hk). rewrite bool_decide_true in Hk by done. done.
  - assert (started k j) as Hs by (destruct Hcase as [?|[?|[?|[? _]]]]; done). destruct (String.eqb _ _); [by apply ok_manual_then|]. cbv zeta.
    apply ok_write_bind; [apply (started_like _ j); [by rewrite id_set_state|by rewrite req_set_state|done]|rewrite state_set_state; by intros _ [|]|]. intros k' Hg. apply ok_go_on; [done|]. rewrite id_set_state. intros E. by apply H2.
  - apply ok_manual_then. destruct Hcase as [?|[?|[?|[? _]]]]; done.
  - apply ok_manual_then. destruct Hcase as [?|[?|[?|[? _]]]]; done.
  - destruct (String.eqb _ _); [apply ok_manual_then|apply ok_go_on; [|by intros E; apply H2]]; destruct Hcase as [?|[?|[?|[? [?|?]]]]]; done.
  - destruct (String.eqb _ _); [apply ok_manual_then|apply ok_go_on; [|by intros E; apply H2]]; destruct Hcase as [?|[?|[?|[? [?|?]]]]]; done.
  - destruct (String.eqb _ _); [apply ok_manual_then|apply ok_go_on; [|by intros E; apply H2]]; destruct Hcase as [?|[?|[?|[? [?|?]]]]]; done.
  - apply ok_manual_then. destruct Hcase as [?|[?|[?|[? _]]]]; done.
  - destruct (String.eqb _ _); [apply ok_manual_then|apply ok_go_on; [|by intros E; apply H2]]; destruct Hcase as [?|[?|[?|[? [?|?]]]]]; done.
  - destruct (String.eqb _ _); [apply ok_manual_then|apply ok_go_on; [|by intros E; apply H2]]; destruct Hcase as [?|[?|[?|[? [?|?]]]]]; done.
  - apply ok_manual_then. destruct Hcase as [?|[?|[?|[? _]]]]; done.
Qed.

(** [episode] is only run for jobs with several shots, which [J] is not. *)
Lemma ok_run_job episode queued k :
  k_phase k = Nothing -> (vj_JobID queued = J -> r = true) ->
  (forall j k, vj_JobID j <> J -> common (k_phase k) -> ok (episode j) k (fun _ _ => True)) -> ok (RunJob parseFloat o episode queued) k (fun _ _ => True).
Proof.
  intros Hn Hr Hep. unfold RunJob. apply ok_bind_quiet; [done|]. intros [|]; [done|]. eapply okp_bind; [apply ok_get_id|]. intros [j|e] k1 [-> Hj]; [|done].
  specialize (Hj j eq_refl).
  eapply (okp_bind _ _ _ _ _ (fun x k' => match x with
    | inl j => (vj_JobID j <> J -> common (k_phase k')) /\ (vj_JobID j = J -> r = true /\ single j /\ vj_LeaseOwner j = p
                 /\ k_phase k' = if bool_decide (vj_State j = StateQueued) then Claimed (vj_LeaseUntil j) else learn Nothing (vj_State j))
    | inr _ => True end)).
  - apply okp_attempt; [|done]. apply ok_claim_any; [by rewrite Hn|rewrite Hj; done|]. rewrite Hj. intros c k' Ec H1 H2. rewrite Ec. split; [done|]. intros E.
    destruct (H2 E) as (? & ? & Hk). split_and!; [by apply Hr|done|done|]. rewrite Hk, Hn. destruct (decide (vj_State c = StateQueued)); [by rewrite !bool_decide_true|].
    rewrite !bool_decide_false; [done|done|by intros [? _]].
  - intros [c|e] k' Hk; [|destruct e; try done; by apply ok_bind_quiet]. destruct Hk as [H1 H2]. destruct (1 <? _)%nat eqn:El.
    + apply Nat.ltb_lt in El. assert (vj_JobID c <> J) as E. { intros E. destruct (H2 E) as (_ & Hs & _). unfold single in Hs. lia. } apply Hep; [done|by apply H1].
    + by apply ok_run_single.
Qed.

(** Operators may end [J], whatever its state. *)
Lemma ok_close what j k (Q : unit -> Know -> Prop) : common (k_phase k) -> (vj_JobID j = J -> single j) -> closed (vj_State j) -> (forall k', common (k_phase k') -> Q tt k') -> ok (update what j) k Q.
Proof.
  intros Hc Hs He HQ. apply ok_update_ret; [by left| |].
  - split_and!; [by destruct (k_phase k)|by intros E; rewrite E in Hc|]. intros E. split_and!; [by apply Hs|by destruct He as [-> | ->]; intros [|]|by left].
  - apply HQ. unfold wrote. case_bool_decide; [by destruct (k_phase k)|done].
Qed.
Lemma ok_get_single id k (Q : VideoJob + StoreErr -> Know -> Prop) :
  common (k_phase k) -> (forall j k', vj_JobID j = id -> (id = J -> single j) -> common (k_phase k') -> Q (inl j) k') -> (forall e k', Q (inr e) k') -> ok (doing (SGet id)) k Q.
Proof.
  intros Hc Hl Hr. eapply ok_weaken; [apply ok_get|]. intros [j|e] k' Hx; [|done]. destruct Hx as [Ei Hx]. case_bool_decide.
  - destruct Hx as (? & -> & _). apply Hl; [done|done|by apply learn_common].
  - subst k'. by apply Hl.
Qed.
Lemma ok_force id k : common (k_phase k) -> ok (ForceFail o id) k (fun _ _ => True).
Proof.
  intros Hc. unfold ForceFail. apply ok_bind_quiet; [done|]. intros [|]; [done|]. apply ok_bind_quiet; [done|]. intros [j|e]; [|done]. destruct (IsTerminal j || _); [done|].
  eapply (okp_bind _ _ _ _ _ (fun _ k' => k' = k)).
  { destruct (String.eqb _ _); [done|]. destruct (o_Providers o !! vj_Provider j); [by apply ok_bind_quiet|done]. }
  intros ac k' ->. apply ok_locked; [|done]. eapply okp_bind; [apply (ok_get_single _ _ (fun x k' => match x with inl j => common (k_phase k') /\ (vj_JobID j = J -> single j) | inr _ => True end)); [done| |done]|].
  { intros j' k' E1 E2 E3. split; [done|]. rewrite E1. exact E2. }
  intros [j'|e] k' Hj; [|done]. destruct Hj as [Hc' Hs]. destruct (IsTerminal j' || _); [done|].
  eapply okp_bind; [apply (ok_close _ _ _ (fun _ _ => True)); [done| | |done]|intros; by apply ok_ledger].
  - unfold force_failed. rewrite id_set_error. unfold single. rewrite req_set_error. by destruct j'.
  - unfold force_failed. rewrite state_set_error. right. by destruct j'.
Qed.
Lemma ok_cancel id k : common (k_phase k) -> ok (Cancel o id) k (fun _ _ => True).
Proof.
  intros Hc. unfold Cancel. eapply okp_bind; [apply (ok_get_single _ _ (fun x k' => match x with inl j => common (k_phase k') /\ (vj_JobID j = J -> single j) | inr _ => True end)); [done| |done]|].
  { intros j' k' E1 E2 E3. split; [done|]. rewrite E1. exact E2. }
  intros [j|e] k1 Hj; [|done]. destruct Hj as [Hc1 Hs].
  match goal with |- ok (match _ with StateQueued => ?m | _ => _ end) _ _ => assert (ok m k1 (fun _ _ => True)) as Hm; [|by destruct (vj_State j)] end.
  destruct (_ && _); [done|]. eapply (okp_bind _ _ _ _ _ (fun _ k' => k' = k1)).
  { destruct (String.eqb _ _); [done|]. destruct (o_Providers o !! vj_Provider j); [by apply ok_quiet|done]. }
  intros ok k' ->. destruct ok; cbn [negb]; [|done]. destruct (Transition j StateCancelled) as [j'|] eqn:ET; [|done]. apply transition_some in ET as [-> _].
  eapply okp_bind; [apply (ok_close _ _ _ (fun _ _ => True)); [done| | |done]|intros; by apply ok_ledger].
  - unfold single. rewrite id_set_error, id_set_state, req_set_error, req_set_state. done.
  - rewrite state_set_error, state_set_state. by left.
Qed.

Lemma ok_new_id k : ok (doing NewJobID) k (fun id k' => id <> J /\ k' = k).
Proof. intros orc w x w' Hid H Hk Hp Ht. destruct (calm_step p r NewJobID k _ _ _ _ eq_refl H Hk Hp) as (? & ? & Hk' & _). split_and!; [done|done|]. exists k. split; [done|]. cbn in Hp. by injection Hp as [= <- <-]. Qed.
Lemma ok_existing key e k : ok (created_or_existing key e) k (fun _ _ => True).
Proof.
  unfold created_or_existing. eapply (okp_bind _ _ _ _ _ (fun _ _ => True)); [|by intros [j|]]. unfold existingAfterIdempotencyConflict. destruct (String.eqb key ""); [done|].
  destruct e; try done; apply ok_bind_quiet; try done; intros [j|e]; try done. by destruct e.
Qed.
Lemma ok_submit_job describe rq q est k : common (k_phase k) -> ok (submit_job describe o rq q est) k (fun _ _ => True).
Proof.
  intros Hc. unfold submit_job. eapply okp_bind; [apply ok_new_id|]. intros id k1 [Hid ->]. eapply okp_bind; [apply ok_now|]. intros now k1 ->. cbv zeta.
  match goal with |- context [SUpdate (?a <| vj_State := StateFailed |> <| vj_LastError := _ |>)] => set (j := a) end.
  assert (vj_JobID j <> J) as Hj by done. clearbody j. destruct (vr_DryRun rq).
  - eapply okp_bind; [apply ok_create; [done|by destruct j]|]. intros [e|] k2 ->; [by apply ok_existing|done].
  - apply ok_ledger. intros [e|]; [by destruct (isCostBusinessErr e)|]. eapply okp_bind; [by apply ok_create|]. intros [e|] k2 ->.
    { apply ok_ledger. intros _. by apply ok_existing. }
    apply ok_bind_quiet; [done|]. intros [e|]; [|done]. eapply okp_bind; [apply ok_update; [by left|]|].
    + match goal with |- writable _ ?u => assert (vj_JobID u <> J) as Hn by (by destruct j) end.
      split_and!; [by destruct (k_phase k)|cbn; by intros E; rewrite E in Hc|done].
    + intros persisted k2 _. apply ok_ledger. intros _. by destruct persisted.
Qed.
Lemma ok_create_call https describe rq k : common (k_phase k) -> ok (Create_ https describe o rq) k (fun _ _ => True).
Proof.
  intros Hc. unfold Create_. apply ok_bind_quiet; [done|]. intros [|]; [done|]. destruct (prepare https rq) as [rq'|e]; [|done]. destruct (narration_gate o rq'); [done|].
  eapply (okp_bind _ _ _ _ _ (fun _ k' => k' = k)); [destruct (String.eqb _ _); [done|by apply ok_quiet]|]. intros [old|e] k1 ->; [done|]. destruct e; try done.
  destruct (o_Providers o !! _) as [q|]; [|done]. apply ok_bind_quiet; [done|]. intros [caps|]; [|done]. eapply (okp_bind _ _ _ _ _ (fun _ k' => k' = k)).
  - unfold price. destruct (1 <? _)%nat.
    + destruct (_ && _); [done|]. eapply (okp_bind _ _ _ _ _ (fun _ k' => k' = k)); [destruct (vr_DryRun rq'); [done|by apply ok_quiet]|]. intros [|] k1 ->; cbn [negb]; [|done].
      by destruct (validateShotPlanRequest _ _ _).
    + destruct (validateProviderRequest _ _) as [rq2|e]; [|done]. destruct (negb _); [done|]. by destruct (p_EstimateCost _ _).
  - intros [rq2 e] k1 ->. destruct (check_estimate _ _ _ _); [done|]. by apply ok_submit_job.
Qed.

(** Recovery and retention. *)
Lemma ok_enqueue fuel j k : ok (enqueueWithBackpressure fuel j) k (fun _ k' => k' = k).
Proof.
  induction fuel as [|fuel IH]; [done|]. cbn [enqueueWithBackpressure]. apply ok_bind_quiet; [done|]. intros [e|]; [|done]. destruct e; try done. apply ok_bind_quiet; [done|]. by intros [|].
Qed.
Definition grown (k k' : Know) : Prop := common (k_phase k') /\ (k_phase k <> Nothing -> k_phase k' <> Nothing).
Lemma grown_wrote k j : common (k_phase k) -> grown k (wrote k j).
Proof. intros Hc. unfold wrote. case_bool_decide; [|by split]. split; [by destruct (k_phase k)|]. cbn. by destruct (k_phase k). Qed.
Lemma ok_write_grown what j k : common (k_phase k) -> writable k j -> ok (update what j) k (fun _ k' => grown k k').
Proof. intros Hc Hw. apply ok_update_ret; [by left|done|by apply grown_wrote]. Qed.
Lemma ok_manual_grown j reason k : common (k_phase k) -> (vj_JobID j = J -> single j /\ (k_phase k <> Nothing \/ CanTransition (vj_State j) StateNeedsManualAction = false /\ vj_State j <> StateNeedsManualAction)) ->
  ok (markNeedsManual j reason) k (fun _ k' => grown k k').
Proof.
  intros Hc Hs. unfold markNeedsManual.
  assert (forall j', vj_JobID j' = vj_JobID j -> vj_Request j' = vj_Request j -> vj_State j' = StateNeedsManualAction -> (vj_JobID j = J -> k_phase k <> Nothing) ->
            ok (update "manual action" (set_error j' reason)) k (fun _ k' => grown k k')) as Hw.
  { intros j' E1 E2 E3 Hp. apply ok_write_grown; [done|]. split_and!; [by destruct (k_phase k)|by intros E; rewrite E in Hc|].
    unfold single. rewrite id_set_error, req_set_error, state_set_error, E1, E2, E3. intros E. split_and!; [by apply Hs|by intros [|]|right; by apply Hp]. }
  case_bool_decide as E; [apply Hw; [done|done|done|intros EJ; destruct (Hs EJ) as [_ [?|[_ ?]]]; done]|]. destruct (Transition j StateNeedsManualAction) as [j'|] eqn:ET; [|done].
  apply transition_some in ET as [-> ET]. apply Hw; [by rewrite id_set_state|by rewrite req_set_state|by rewrite state_set_state|].
  intros EJ. destruct (Hs EJ) as [_ [?|[E2 _]]]; [done|congruence].
Qed.
Lemma ok_recover_job fuel j k :
  common (k_phase k) -> (vj_JobID j = J -> single j /\ (vj_State j = StateQueued \/ closed (vj_State j) \/ k_phase k <> Nothing)) -> ok (recover_job fuel j) k (fun _ k' => grown k k').
Proof.
  intros Hc Hs. assert (forall k' : Know, k' = k -> grown k k') as Hrefl by (by intros ? ->).
  assert (forall i, ok (enqueueWithBackpressure fuel i) k (fun _ k' => grown k k')) as Henq by (intros i; eapply ok_weaken; [apply ok_enqueue|by intros ? ? ->]).
  assert (vj_State j <> StateQueued -> ~ closed (vj_State j) -> forall reason, ok (markNeedsManual j reason) k (fun _ k' => grown k k')) as Hman.
  { intros H1 H2 reason. apply ok_manual_grown; [done|]. intros E. destruct (Hs E) as [? [?|[?|?]]]; try done. split; [done|by left]. }
  unfold recover_job. destruct (_ || _) eqn:Eskip; [by apply Hrefl|].
  assert (~ closed (vj_State j)) as Hcl by (intros [E|E]; rewrite E in Eskip; by rewrite orb_true_r in Eskip).
  destruct (1 <? _)%nat eqn:El.
  { apply Nat.ltb_lt in El. assert (vj_JobID j <> J) as Hj by (intros E; destruct (Hs E) as [H1 _]; unfold single in H1; lia).
    assert (forall reason, ok (markNeedsManual j reason) k (fun _ k' => grown k k')) as Hman' by (intros reason; apply ok_manual_grown; done).
    unfold recover_episode. destruct (negb _); [done|]. destruct (_ && _); [done|]. destruct (unknown_shot _ _); [done|]. destruct (vj_State j); done. }
  destruct (vj_State j) eqn:Est; try (by apply Henq); try (by apply Hman).
  all: destruct (String.eqb _ _); [by apply Hman|]; try (by apply Henq).
  cbv zeta. eapply (okp_bind _ _ _ _ _ (fun _ k' => grown k k')).
  - apply ok_write_grown; [done|]. split_and!; [by destruct (k_phase k)|by intros E; rewrite E in Hc|]. unfold single. rewrite id_set_state, req_set_state, state_set_state. intros E.
    destruct (Hs E) as [? [?|[?|?]]]; try done. split_and!; [done|by intros [|]|by right].
  - intros _ k' Hk'. eapply ok_weaken; [apply ok_enqueue|]. by intros _ ? ->.
Qed.
Lemma ok_recover fuel k : common (k_phase k) -> ok (Recover fuel) k (fun _ _ => True).
Proof.
  intros Hc. unfold Recover. eapply okp_bind; [apply ok_list|]. intros l k' [Hl Hc'].
  assert (forall j, In j (slice_stable (fun a b => Before (vj_CreatedAt a) (vj_CreatedAt b)) l) -> vj_JobID j = J -> single j /\ (vj_State j = StateQueued \/ closed (vj_State j) \/ k_phase k' <> Nothing)) as Hj.
  { intros j Hin EJ. apply list_elem_of_In in Hin. rewrite slice_stable_perm in Hin. apply list_elem_of_In in Hin. destruct (Hl j Hin EJ) as [Hs ->]. split; [done|]. cbn.
    destruct (decide (vj_State j = StateQueued)) as [?|Hq]; [by left|]. destruct (decide (closed (vj_State j))) as [?|Hcl]; [by right; left|]. right; right.
    destruct (k_phase k); cbn; try done; repeat case_bool_decide; first [done|tauto]. }
  specialize (Hc' Hc). revert Hj. generalize (slice_stable (fun a b => Before (vj_CreatedAt a) (vj_CreatedAt b)) l). clear Hl. intros l' Hj. revert k' Hc' Hj.
  induction l' as [|j l' IH]; intros k' Hc' Hj; [done|]. cbn [each]. eapply okp_bind; [apply ok_recover_job; [done|apply Hj; by left]|]. intros _ k2 [Hc2 Hg]. apply IH; [done|].
  intros i Hin EJ. destruct (Hj i) as [? [?|[?|?]]]; [by right|done|tauto|tauto|]. split; [done|]. right; right. by apply Hg.
Qed.
Lemma ok_prune now retention k : common (k_phase k) -> ok (PruneTerminalJobs now retention) k (fun _ _ => True).
Proof.
  intros Hc. unfold PruneTerminalJobs. destruct (retention <=? 0); [done|]. eapply okp_bind; [apply ok_list|]. intros l k' [_ Hc']. specialize (Hc' Hc). clear Hc. revert k' Hc'.
  induction l as [|j l IH]; intros k' Hc'; [done|]. cbn [each]. eapply (okp_bind _ _ _ _ _ (fun _ k2 => k2 = k')); [|by intros _ k2 ->; apply IH].
  destruct (negb _); [done|]. destruct (After _ _); [done|]. by apply ok_delete.
Qed.

(** A program that works on other jobs. *)
Definition op_foreign {X} (op : Op X) : Prop :=
  match op with SCreate j | SUpdate j => vj_JobID j <> J | SClaim id _ _ _ | SDelete id | PCreate _ id _ => id <> J | _ => True end.
(** The store answers with the job that was asked for. *)
Definition answer {X} (op : Op X) : X -> Prop :=
  match op with SGet id => fun x => forall j, x = inl j -> vj_JobID j = id | SClaim id _ _ _ => fun x => forall j, x = inl (Some j) -> vj_JobID j = id | _ => fun _ => True end.
Fixpoint foreign {A} (m : Prog A) : Prop :=
  match m with Ret _ | Err _ => True | Do op c => op_foreign op /\ forall x, answer op x -> foreign (c x) end.
Lemma ok_foreign {A} (m : Prog A) k : common (k_phase k) -> foreign m -> ok m k (fun _ _ => True).
Proof.
  intros Hc. revert k Hc. induction m as [a|e|X op c IH]; intros k Hc; [done|done|]. intros [Hop Hk]. change (ok (Do op c) k (fun _ _ => True)).
  assert (ok (doing op) k (fun x k' => answer op x /\ common (k_phase k'))) as Hd.
  { destruct op; cbn [op_foreign] in Hop; try (eapply ok_weaken; [by apply ok_quiet|by intros ? ? ->]).
    - eapply ok_weaken; [apply ok_get_id|]. by intros x k' [-> ?].
    - eapply ok_weaken; [by apply ok_create|by intros ? ? ->].
    - eapply ok_weaken; [apply ok_update; [by left|]|].
      + split_and!; [by destruct (k_phase k)|by intros E; rewrite E in Hc|done].
      + intros [e|] k' ->; split; try done. unfold wrote. by rewrite bool_decide_false.
    - eapply ok_weaken; [by apply ok_claim_other|]. by intros x k' [-> ?].
    - eapply ok_weaken; [by apply ok_delete|by intros ? ? ->].
    - eapply ok_weaken; [by apply ok_submit_other|by intros ? ? ->]. }
  intros orc w x w' Hid H Hkn Hp Ht. destruct (Hd orc w x w' Hid H Hkn Hp Ht) as (? & ? & k' & ? & Ha & Hc'). split_and!; [done|done|]. exists k'. split; [done|]. apply IH; [done|]. by apply Hk.
Qed.
End programs.

(** *** Pools *)

Context (y : System).
Hypothesis episode_foreign : forall p j, vj_JobID j <> J -> foreign (sys_episode y p j).

Definition runner (th : Thread) : bool := runs_job J (th_call th).
Definition thread_ok (w : World) (th : Thread) : Prop :=
  th_proc th <> "" /\ exists k, knows (th_proc th) (runner th) k w /\ okp (th_proc th) (runner th) (th_prog th) k (fun _ _ => True).
Definition sole (ths : gmap nat Thread) : Prop :=
  forall t t' th th', ths !! t = Some th -> ths !! t' = Some th' -> t <> t' -> runner th = true -> runner th' = true -> th_proc th <> th_proc th'.
Record pool_ok (a : Pool) : Prop := {
  pool_inv : Inv (po_world a); pool_threads : forall t th, po_threads a !! t = Some th -> thread_ok (po_world a) th; pool_sole : sole (po_threads a) }.

Lemma prog_ok p c k : k_phase k = Nothing -> okp p (runs_job J c) (prog_of y p c) k (fun _ _ => True).
Proof.
  intros Hk. assert (common (k_phase k)) as Hc by (by rewrite Hk). refine (eq_ind _ (fun p' => okp p' (runs_job J c) (prog_of y p c) k (fun _ _ => True)) _ _ (sys_orch_id y p)). destruct c as [queued|rq|id|id|fuel|now retention]; cbn [prog_of].
  - apply ok_run_job; [done|cbn; intros ->; by rewrite String.eqb_refl|]. intros j k' Hj Hc'. by apply ok_foreign, episode_foreign.
  - eapply okp_bind; [by apply ok_create_call|done].
  - by apply ok_cancel.
  - eapply okp_bind; [by apply ok_force|done].
  - apply ok_recover; [apply (sys_parse y)|done].
  - by apply ok_prune.
Qed.
Lemma perform_log orc p {X} (op : Op X) w x w' : perform orc p op w = Some (x, w') -> w_log w' = w_log w \/ exists e, w_log w' = w_log w ++ [e].
Proof.
  intros Hp. destruct (quiet op) eqn:Hq; [left; by eapply quiet_perform|]. destruct op; try discriminate Hq; cbn in Hp.
  - destruct (Create _ _). injection Hp as [= <- <-]. by left.
  - destruct (Update _ _) as [s [e|]]; injection Hp as [= <- <-]; [by left|right; eauto].
  - destruct (TryClaim _ _ _ _ _) as [s [[j|]|e]]; injection Hp as [= <- <-]; [right; eauto|by left..].
  - injection Hp as [= <- <-]. by left.
  - injection Hp as [= <- <-]. right; eauto.
Qed.
Lemma perform_timely orc p {X} (op : Op X) w x w' : perform orc p op w = Some (x, w') -> timely J (w_log w') -> timely J (w_log w).
Proof. intros Hp Ht. destruct (perform_log _ _ _ _ _ _ Hp) as [<-|[e E]]; [done|]. rewrite E in Ht. by eapply timely_app. Qed.
(** Worlds that differ in nothing a thread knows about. *)
Lemma inv_like w w' : Inv w -> w_store w' = w_store w -> w_log w' = w_log w -> Inv w'.
Proof. intros H Es El. split; rewrite ?Es, ?El; apply H. Qed.
Lemma knows_like p r k w w' : knows p r k w -> w_store w' = w_store w -> w_log w' = w_log w -> w_clock w <= w_clock w' -> knows p r k w'.
Proof.
  intros (Ht & Hc & Hk) Es El Ec. split_and!; [destruct (k_time k); [lia|done]|done|]. destruct (k_phase k); cbn in *; rewrite ?Es, ?El; try done. intros Hu. apply Hk. lia.
Qed.
Lemma thread_like w w' th : thread_ok w th -> w_store w' = w_store w -> w_log w' = w_log w -> w_clock w <= w_clock w' -> thread_ok w' th.
Proof. intros (Hp & k & Hk & Hok) Es El Ec. split; [done|]. exists k. split; [by eapply knows_like|done]. Qed.

Lemma pool_step_ok a b : pool_ok a -> pool_step y J a b -> timely J (w_log (po_world b)) -> pool_ok b.
Proof.
  intros [HI HT HS] Hst Ht. destruct Hst as [w ths t th orc X op c x w' Hth Hpr Hp Hid|w ths c Hc|w ths t p c Hn Hp Hsole|w ths t|w ths p]; cbn [po_world po_threads] in *.
  - destruct (HT t th Hth) as (Hne & k & Hk & Hok). rewrite Hpr in Hok. destruct (Hok orc w x w' Hid HI Hk Hp Ht) as (HI' & G & k' & Hk' & Hok'). split; cbn; [done|..].
    + intros t1 th1. destruct (decide (t = t1)) as [<-|Hd].
      * rewrite lookup_insert_eq. intros [= <-]. split; [done|]. exists k'. done.
      * rewrite lookup_insert_ne by done. intros Hth1. destruct (HT t1 th1 Hth1) as (Hne1 & k1 & Hk1 & Hok1). split; [done|]. exists k1. split; [|done].
        eapply knows_stable; [done| |done|exact Hk1|exact G]. intros E1 E2. apply (HS t1 t th1 th); done.
    + intros t1 t2 th1 th2 H1 H2 Hd. apply lookup_insert_Some in H1 as [[<- <-]|[Hd1 H1]]; apply lookup_insert_Some in H2 as [[<- <-]|[Hd2 H2]]; try done.
      * intros E1 E2. by apply (HS t t2 th th2).
      * intros E1 E2. by apply (HS t1 t th1 th).
      * by apply (HS t1 t2).
  - split; cbn; [by eapply inv_like|intros t th Hth; eapply thread_like; [by eapply HT|done|done|done]|done].
  - split; cbn; [done| |].
    + intros t1 th1 [[<- <-]|[_ H1]]%lookup_insert_Some; [|by eapply HT]. split; [done|]. exists (mkKnow None Nothing). split; [by split_and!|by apply prog_ok].
    + intros t1 t2 th1 th2 H1 H2 Hd. apply lookup_insert_Some in H1 as [[<- <-]|[Hd1 H1]]; apply lookup_insert_Some in H2 as [[<- <-]|[Hd2 H2]]; try done.
      * intros E1 E2 E3. cbn in E3. symmetry in E3. by apply (Hsole E1 t2 th2 H2 E2).
      * intros E1 E2. by apply (Hsole E2 t1 th1 H1 E1).
      * by apply (HS t1 t2).
  - split; cbn; [done|intros t1 th1 [_ H1]%lookup_delete_Some; by eapply HT|]. intros t1 t2 th1 th2 [_ H1]%lookup_delete_Some [_ H2]%lookup_delete_Some. by apply (HS t1 t2).
  - split; cbn; [by eapply inv_like| |].
    + intros t1 th1 [H1 _]%map_lookup_filter_Some. eapply thread_like; [by eapply HT|done|done|done].
    + intros t1 t2 th1 th2 [H1 _]%map_lookup_filter_Some [H2 _]%map_lookup_filter_Some. by apply (HS t1 t2).
Qed.
Lemma pool_step_timely a b : pool_step y J a b -> timely J (w_log (po_world b)) -> timely J (w_log (po_world a)).
Proof. intros Hst. destruct Hst; cbn; try done. by eapply perform_timely. Qed.
Lemma pool_reach_ok a b : pool_reach y J a b -> pool_ok a -> timely J (w_log (po_world b)) -> pool_ok b.
Proof. induction 1 as [|b c Hr IH Hst]; intros Ha Ht; [done|]. eapply pool_step_ok; [apply IH; [done|by eapply pool_step_timely]|done|done]. Qed.
End rely.

(** ** At most one submission *)

(** (C4) A queued job with at most one shot is submitted to a provider at most once,
    and only after its one durable admission, by any number of orchestrators that
    share the store, in any interleaving with ticks of the clock, creations,
    cancellations, forced failures, recoveries, retention sweeps and crashes,
    provided every admission of the job is written before its lease ends. *)
Theorem submit_once (y : System) (J : string) (w : World) (j : VideoJob) (c : Pool) :
  (forall p j, vj_JobID j <> J -> foreign J (sys_episode y p j)) ->
  (forall id j, mem_jobs (w_store w) !! id = Some j -> vj_JobID j = id) ->
  mem_jobs (w_store w) !! J = Some j -> vj_State j = StateQueued -> (length (vr_ShotPlan (vj_Request j)) <= 1)%nat -> w_log w = [] ->
  pool_reach y J (mkPool w ∅) c -> timely J (w_log (po_world c)) ->
  (submissions J (w_log (po_world c)) <= admissions J (w_log (po_world c)))%nat /\ (admissions J (w_log (po_world c)) <= 1)%nat.
Proof.
  intros Hep Hids Hj Hq Hs Hl Hr Ht. assert (pool_ok J c) as [HI _ _]; [|split; [apply (inv_sub J _ HI)|apply (inv_adm J _ HI)]].
  eapply pool_reach_ok; [exact Hep|exact Hr| |done]. split; cbn; [|done|done]. split; rewrite ?Hl; cbn; [done|lia|lia|..].
  - intros ? ?. by simplify_eq.
  - done.
  - intros ? ?. simplify_eq. by left.
Qed.

(** ** Concrete runs *)

(** Up to [n] steps of one thread. *)
Fixpoint drive (orc : Oracle) (n : nat) (p : string) (m : Prog unit) (w : World) : Prog unit * World :=
  match n, m with
  | S n, Do op c => match perform orc p op w with Some (x, w') => drive orc n p (c x) w' | None => (m, w) end
  | _, _ => (m, w)
  end.
Lemma drive_reach y J orc a p c t n : or_id orc <> J -> forall m w ths, pool_reach y J a (mkPool w ths) -> ths !! t = Some (mkThread p c m) ->
  pool_reach y J a (mkPool (snd (drive orc n p m w)) (<[t := mkThread p c (fst (drive orc n p m w))]> ths)).
Proof.
  intros Hid. induction n as [|n IH]; intros m w ths Ha Ht; [cbn; by rewrite insert_id|]. destruct m as [[]|e|X op k]; cbn; [by rewrite insert_id..|].
  destruct (perform orc p op w) as [[x w']|] eqn:Hp; [|cbn; by rewrite insert_id].
  specialize (IH (k x) w' (<[t := mkThread p c (k x)]> ths)). rewrite insert_insert_eq in IH. apply IH; [|by rewrite lookup_insert_eq]. eapply reach_step; [exact Ha|].
  by apply (step_call y J w ths t (mkThread p c (Do op k)) orc X op k x w').
Qed.

Definition demo_caps : Capabilities := mkCaps [ModeTextToVideo] ["m"] (f_of_int 60) [Aspect16x9] false false false false false false false.
Definition demo_provider : Provider := mkProvider "comfy" false (fun _ => true) (fun _ => Some (mkEstimate "comfy" "m" "USD" (f_of_int 1) (f_of_int 1) true f_zero [])).
Definition demo_orch (p : string) : Orchestrator := mkOrch {["comfy" := demo_provider]} false true false false 3 p 0.
Definition demo_system : System := mkSystem demo_orch (fun _ => eq_refl) (fun _ => None) (fun _ => true) (fun _ _ _ _ => "") (fun _ _ => Err ECtx).
Definition demo_request : VideoRequest :=
  mkRequest SchemaVersion "project" "" "a calm sea" "" ModeTextToVideo "comfy" "m" (f_of_int 5) Aspect16x9 0 0 24 false false [] None None [] [] [] None [] [] "" "" "mp4" "" "" f_zero false PriorityNormal.
Definition demo_job : VideoJob := NewJob "job" demo_request 0 <| vj_Provider := "comfy" |> <| vj_Model := "m" |>.
Definition demo_world : World := mkWorld (mkMem {["job" := demo_job]} ∅) (NewQueue 8) NewLedger 0 ∅ [] [].
(** The provider takes the job and reports it running. *)
Definition demo_oracle : Oracle :=
  mkOracle (inl demo_caps) (inl (mkPJob "remote" "comfy" "m" true)) (inl (mkStatus "remote" StateProcessing f_zero [] [] None)) true (inl []) false "fresh" (fun l => l) (fun l => Permutation_refl l).
Definition demo_prog (p : string) : Prog unit := prog_of demo_system p (VRun demo_job).

(** Two processes run the queued job one after the other. *)
Definition demo_turns : World := snd (drive demo_oracle 40 "b" (demo_prog "b") (snd (drive demo_oracle 40 "a" (demo_prog "a") demo_world))).
(** The first process claims the job and stalls; the second runs it when the
    lease has ended, and then the first goes on. *)
Definition demo_stall : Prog unit * World := drive demo_oracle 4 "a" (demo_prog "a") demo_world.
Definition demo_other : World := snd (drive demo_oracle 8 "b" (demo_prog "b") (snd demo_stall <| w_clock := 6 * Minute |>)).
Definition demo_late : World := snd (drive demo_oracle 8 "a" (fst demo_stall) demo_other).
(** The provider does not answer the submission; then the job is cancelled. *)
Definition demo_lost : Oracle :=
  mkOracle (inl demo_caps) (inr tt) (inr tt) true (inl []) false "fresh" (fun l => l) (fun l => Permutation_refl l).
Definition demo_unknown : World := snd (drive demo_lost 40 "a" (demo_prog "a") demo_world).
Definition demo_cancelled : World := snd (drive demo_lost 40 "a" (prog_of demo_system "a" (VCancel "job")) demo_unknown).

Lemma start_reach y J a w ths t p c :
  pool_reach y J a (mkPool w ths) -> ths !! t = None -> p <> "" -> (forall t' th, ths !! t' = Some th -> th_proc th <> p) -> pool_reach y J a (mkPool w (<[t := mkThread p c (prog_of y p c)]> ths)).
Proof. intros Ha Ht Hp Hn. eapply reach_step; [exact Ha|]. apply step_start; [done|done|]. intros _ t' th Hth _. by eapply Hn. Qed.
(** A thread that starts in an empty pool of its process and takes some steps. *)
Lemma run_reach y J orc a w ths t p c n : or_id orc <> J ->
  pool_reach y J a (mkPool w ths) -> ths !! t = None -> p <> "" -> (forall t' th, ths !! t' = Some th -> th_proc th <> p) ->
  pool_reach y J a (mkPool (snd (drive orc n p (prog_of y p c) w)) (<[t := mkThread p c (fst (drive orc n p (prog_of y p c) w))]> ths)).
Proof. intros Hid Ha Ht Hp Hn. rewrite <- (insert_insert_eq ths t _ (mkThread p c (prog_of y p c))). apply (drive_reach y J orc); [done|by apply start_reach|by rewrite lookup_insert_eq]. Qed.

Lemma turns_reach : exists ths, pool_reach demo_system "job" (mkPool demo_world ∅) (mkPool demo_turns ths).
Proof.
  eexists. unfold demo_turns, demo_prog. eapply (run_reach _ _ _ _ _ (<[1%nat := _]> ∅) 2%nat); [done| |done|done|].
  - apply (run_reach _ _ _ _ _ ∅ 1%nat); [done|apply reach_refl|done|done|done].
  - intros t' th [[_ <-]|[_ Hth]]%lookup_insert_Some; done.
Qed.
Lemma submit_once_witness : (submissions "job" (w_log demo_turns) <= admissions "job" (w_log demo_turns))%nat /\ (admissions "job" (w_log demo_turns) <= 1)%nat.
Proof.
  destruct turns_reach as [ths Hr]. apply (submit_once demo_system "job" demo_world demo_job (mkPool demo_turns ths)); [done| |done|done|cbn; lia|done|exact Hr|].
  - change (mem_jobs (w_store demo_world)) with ({["job" := demo_job]} : gmap string VideoJob). intros id j [<- <-]%lookup_singleton_Some. done.
  - intros id s o u n Hin _ ->. assert (forallb (fun e => match e with EWrite _ StateAdmitted _ u n => n <? u | _ => true end) (w_log demo_turns) = true) as Hall by (vm_compute; reflexivity).
    rewrite forallb_forall in Hall. specialize (Hall _ Hin). cbn in Hall. by apply Z.ltb_lt in Hall.
Defined.

(** A lease does not fence the store: an orchestrator that claims a queued job,
    stalls past the end of its lease and then goes on admits and submits the job
    a second time, after another one has submitted it. *)
Theorem late_admission_submits_twice :
  exists c, pool_reach demo_system "job" (mkPool demo_world ∅) c /\ submissions "job" (w_log (po_world c)) = 2%nat /\ ~ timely "job" (w_log (po_world c)).
Proof.
  exists (mkPool demo_late (<[1%nat := mkThread "a" (VRun demo_job) (fst (drive demo_oracle 8 "a" (fst demo_stall) demo_other))]>
    (<[2%nat := mkThread "b" (VRun demo_job) (fst (drive demo_oracle 8 "b" (demo_prog "b") (snd demo_stall <| w_clock := 6 * Minute |>)))]> (<[1%nat := mkThread "a" (VRun demo_job) (fst demo_stall)]> ∅)))).
  split; [|split; [vm_compute; reflexivity|]].
  - unfold demo_late. apply drive_reach; [done| |by rewrite lookup_insert_ne, lookup_insert_eq]. unfold demo_other, demo_prog. apply run_reach; [done| |done|done|].
    + eapply reach_step; [|apply step_tick; vm_compute; discriminate]. unfold demo_stall, demo_prog. apply (run_reach _ _ _ _ demo_world ∅); [done|apply reach_refl|done|done|done].
    + intros t' th [[_ <-]|[_ Hth]]%lookup_insert_Some; done.
  - intros Ht. specialize (Ht "job" StateAdmitted "a" 300000000000 360000000000). enough (360000000000 < 300000000000) by lia. apply Ht; [|done|done]. vm_compute. tauto.
Qed.
(** A job whose submission was sent and never answered is cancelled, and is then
    reported as one that never reached a provider. *)
Theorem unknown_submission_reported_safe :
  exists c j, pool_reach demo_system "job" (mkPool demo_world ∅) c /\ submissions "job" (w_log (po_world c)) = 1%nat
    /\ mem_jobs (w_store (po_world c)) !! "job" = Some j /\ RetrySafetyFor j = mkSafety RetrySafe false false.
Proof.
  assert (exists j, mem_jobs (w_store demo_cancelled) !! "job" = Some j /\ RetrySafetyFor j = mkSafety RetrySafe false false) as (j & Hj & HR).
  { destruct (mem_jobs (w_store demo_cancelled) !! "job") as [j|] eqn:E.
    - exists j. split; [done|]. assert (RetrySafetyFor <$> (mem_jobs (w_store demo_cancelled) !! "job") = Some (mkSafety RetrySafe false false)) as H by (vm_compute; reflexivity).
      rewrite E in H. by injection H.
    - exfalso. assert (is_Some (mem_jobs (w_store demo_cancelled) !! "job")) as [? H] by (vm_compute; eauto). congruence. }
  eexists (mkPool demo_cancelled _), j. split_and!; [|vm_compute; reflexivity|exact Hj|exact HR].
  unfold demo_cancelled. eapply (run_reach _ _ _ _ demo_unknown (delete 1%nat (<[1%nat := _]> ∅)) 1%nat); [done| |by rewrite lookup_delete_eq|done|].
  - eapply reach_step; [|apply step_end]. unfold demo_unknown, demo_prog. apply (run_reach _ _ _ _ demo_world ∅ 1%nat); [done|apply reach_refl|done|done|done].
  - intros t' th. rewrite delete_insert_eq. done.
Qed.
