(* ===== verification/EventStream.v ===== *)
(** * Binary event streams ([src/internal/providers/eventstream.go])

    Decoding of the length-prefixed, checksummed frames of a Bedrock response and
    their re-emission as server-sent events.  Bytes are integers in [0, 256).  The
    parts of the Go library the file relies on are modelled: [hash/crc32], big
    endian reads, [io.ReadFull], the scanner behind [json.Compact], and
    [json.Marshal] of a string. *)

From Stdlib Require Import Ascii.
From S2P Require Import Prelude Hash Text.

(** ** CRC-32 ([hash/crc32], IEEE polynomial) *)

Definition crc_poly : Z := 3988292384.
Definition crc_bit (c : Z) : Z := if Z.odd c then Z.lxor (Z.shiftr c 1) crc_poly else Z.shiftr c 1.
Definition crc_byte (c b : Z) : Z := Nat.iter 8 crc_bit (Z.lxor c b).
Definition crc_update (c : Z) (data : list Z) : Z := fold_left crc_byte data c.
Definition ChecksumIEEE (data : list Z) : Z := Z.lxor (crc_update (2 ^ 32 - 1) data) (2 ^ 32 - 1).
Example crc32_check : ChecksumIEEE (bytes "123456789") = 3421780262.
Proof. vm_compute. reflexivity. Qed.

(** ** Big endian *)

Definition BigEndian (l : list Z) : Z := fold_left (fun v b => 256 * v + b) l 0.
(** Two's complement at [w] bits. *)
Definition signed (w v : Z) : Z := if v <? 2 ^ (w - 1) then v else v - 2 ^ w.

(** ** The source *)

(** What is left to read, and how the source ends: [None] is the end of the file. *)
Record Source := mkSource { src_data : list Z; src_end : option string }.
Inductive StreamErr :=
| EOF | ErrUnexpectedEOF | ReadFailed (e : string) | PreludeCRC | BadLengths (total headers : Z) | FrameTooLong (total : Z) | HeadersTooLong (headers : Z)
| Truncated (e : StreamErr) | MessageCRC | TruncatedHeader | UnknownValueType (t : Z) | InvalidJSON (event : string).
Definition ReadFull (n : nat) (s : Source) : Source * (list Z + StreamErr) :=
  if (n <=? length (src_data s))%nat then (mkSource (drop n (src_data s)) (src_end s), inl (take n (src_data s)))
  else (mkSource [] (src_end s),
        inr match src_end s with Some e => ReadFailed e | None => if (length (src_data s) =? 0)%nat then EOF else ErrUnexpectedEOF end).

(** ** Frames *)

Definition maxEventStreamFrameBytes : Z := Z.shiftl 32 20.
Definition maxEventStreamHeadersBytes : Z := Z.shiftl 128 10.
Record eventStreamMessage := mkMessage { EventType : string; Payload : list Z }.

Definition hex_bytes (l : list Z) : string := EncodeToString l.
(** The value that starts at [b], of the given type, and what follows it. *)
Definition header_value (valueType : Z) (b : list Z) : (string * list Z) + StreamErr :=
  let fixed (n : nat) (f : list Z -> string) := if (length b <? n)%nat then inr TruncatedHeader else inl (f (take n b), drop n b) in
  if valueType =? 0 then inl ("true", b)
  else if valueType =? 1 then inl ("false", b)
  else if valueType =? 2 then fixed 1%nat (fun l => Itoa (signed 8 (BigEndian l)))
  else if valueType =? 3 then fixed 2%nat (fun l => Itoa (signed 16 (BigEndian l)))
  else if valueType =? 4 then fixed 4%nat (fun l => Itoa (signed 32 (BigEndian l)))
  else if (valueType =? 5) || (valueType =? 8) then fixed 8%nat (fun l => Itoa (signed 64 (BigEndian l)))
  else if (valueType =? 6) || (valueType =? 7) then
    if (length b <? 2)%nat then inr TruncatedHeader
    else
      let n := Z.to_nat (BigEndian (take 2 b)) in
      let b := drop 2 b in
      if (length b <? n)%nat then inr TruncatedHeader else inl (string_of_bytes (take n b), drop n b)
  else if valueType =? 9 then fixed 16%nat hex_bytes
  else inr (UnknownValueType valueType).
(** One round of the loop: a header and what follows it. *)
Definition parse_header (b : list Z) : (string * string * list Z) + StreamErr :=
  match b with
  | [] => inr TruncatedHeader
  | n :: b =>
      if (length b <? Z.to_nat n + 1)%nat then inr TruncatedHeader
      else
        let name := string_of_bytes (take (Z.to_nat n) b) in
        match drop (Z.to_nat n) b with
        | [] => inr TruncatedHeader
        | valueType :: b => match header_value valueType b with inl (value, b) => inl (name, value, b) | inr e => inr e end
        end
  end.
(** Every round consumes bytes, so as many rounds as bytes are enough. *)
Fixpoint headers_loop (fuel : nat) (b : list Z) (headers : gmap string string) : gmap string string + StreamErr :=
  match fuel, b with
  | _, [] => inl headers
  | O, _ => inr TruncatedHeader
  | S fuel, _ => match parse_header b with inl (name, value, b) => headers_loop fuel b (<[name := value]> headers) | inr e => inr e end
  end.
Definition parseEventStreamHeaders (b : list Z) : gmap string string + StreamErr := headers_loop (length b) b ∅.

Definition message_of (headers : gmap string string) (payload : list Z) : eventStreamMessage :=
  let get k := map_get "" headers k in
  if String.eqb (get ":message-type") "exception" || String.eqb (get ":message-type") "error" then
    let excType := if String.eqb (get ":exception-type") "" then get ":error-code" else get ":exception-type" in
    mkMessage (if String.eqb excType "" then "UnknownException" else excType) payload
  else mkMessage (get ":event-type") payload.
Definition readEventStreamMessage (s : Source) : Source * (eventStreamMessage + StreamErr) :=
  let '(s, r) := ReadFull 12 s in
  match r with
  | inr e => (s, inr e)
  | inl prelude =>
      let totalLength := BigEndian (take 4 prelude) in
      let headersLength := BigEndian (take 4 (drop 4 prelude)) in
      let preludeCRC := BigEndian (drop 8 prelude) in
      if negb (ChecksumIEEE (take 8 prelude) =? preludeCRC) then (s, inr PreludeCRC)
      else if (totalLength <? 16) || (totalLength - 16 <? headersLength) then (s, inr (BadLengths totalLength headersLength))
      else if maxEventStreamFrameBytes <? totalLength then (s, inr (FrameTooLong totalLength))
      else if maxEventStreamHeadersBytes <? headersLength then (s, inr (HeadersTooLong headersLength))
      else
        let '(s, r) := ReadFull (Z.to_nat (totalLength - 12)) s in
        match r with
        | inr e => (s, inr (Truncated e))
        | inl rest =>
            let body := take (length rest - 4) rest in
            if negb (ChecksumIEEE (prelude ++ body) =? BigEndian (drop (length rest - 4) rest)) then (s, inr MessageCRC)
            else match parseEventStreamHeaders (take (Z.to_nat headersLength) rest) with
            | inr e => (s, inr e)
            | inl headers => (s, inl (message_of headers (drop (Z.to_nat headersLength) body)))
            end
        end
  end.

(** ** [json.Compact] *)

(** The states of the scanner of [encoding/json] and what it is inside of. *)
Inductive Scan :=
| BeginValue | BeginValueOrEmpty | BeginStringOrEmpty | BeginString | EndValue | EndTop | InString | InStringEsc | InStringEscU (left_ : nat)
| Neg | Digits | Zero | Dot | Dot0 | Exp | ExpSign | Exp0 | Literal (rest : list Z).
Inductive ParseState := ParseObjectKey | ParseObjectValue | ParseArrayValue.
Record Scanner := mkScanner { sc_step : Scan; sc_stack : list ParseState }.
(** Copied, skipped as space, or refused. *)
Inductive Verdict := Keep | Skip | Bad.
Definition maxNestingDepth : nat := 10000.

Definition isSpace (c : Z) : bool := (c =? 32) || (c =? 9) || (c =? 13) || (c =? 10).
Definition is_digit_byte (c : Z) : bool := (48 <=? c) && (c <=? 57).
Definition is_hex_byte (c : Z) : bool := is_digit_byte c || ((97 <=? c) && (c <=? 102)) || ((65 <=? c) && (c <=? 70)).
Definition push (stack : list ParseState) (p : ParseState) (next : Scan) : Scanner * Verdict :=
  if (length stack <? maxNestingDepth)%nat then (mkScanner next (p :: stack), Keep) else (mkScanner next stack, Bad).
Definition pop (stack : list ParseState) : Scanner * Verdict :=
  match stack with
  | [] | [_] => (mkScanner EndTop [], Keep)
  | _ :: stack => (mkScanner EndValue stack, Keep)
  end.
Definition begin_value (c : Z) (stack : list ParseState) : Scanner * Verdict :=
  let go next := (mkScanner next stack, Keep) in
  if isSpace c then (mkScanner BeginValue stack, Skip)
  else if c =? 123 then push stack ParseObjectKey BeginStringOrEmpty
  else if c =? 91 then push stack ParseArrayValue BeginValueOrEmpty
  else if c =? 34 then go InString
  else if c =? 45 then go Neg
  else if c =? 48 then go Zero
  else if c =? 116 then go (Literal (bytes "rue"))
  else if c =? 102 then go (Literal (bytes "alse"))
  else if c =? 110 then go (Literal (bytes "ull"))
  else if (49 <=? c) && (c <=? 57) then go Digits
  else (mkScanner BeginValue stack, Bad).
Definition end_value (c : Z) (stack : list ParseState) : Scanner * Verdict :=
  match stack with
  | [] => (mkScanner EndTop [], if isSpace c then Skip else Bad)
  | p :: stack' =>
      if isSpace c then (mkScanner EndValue stack, Skip)
      else match p with
      | ParseObjectKey => if c =? 58 then (mkScanner BeginValue (ParseObjectValue :: stack'), Keep) else (mkScanner EndValue stack, Bad)
      | ParseObjectValue =>
          if c =? 44 then (mkScanner BeginString (ParseObjectKey :: stack'), Keep)
          else if c =? 125 then pop stack else (mkScanner EndValue stack, Bad)
      | ParseArrayValue =>
          if c =? 44 then (mkScanner BeginValue stack, Keep)
          else if c =? 93 then pop stack else (mkScanner EndValue stack, Bad)
      end
  end.
Definition begin_string (c : Z) (stack : list ParseState) : Scanner * Verdict :=
  if isSpace c then (mkScanner BeginString stack, Skip) else if c =? 34 then (mkScanner InString stack, Keep) else (mkScanner BeginString stack, Bad).
Definition scan (sc : Scanner) (c : Z) : Scanner * Verdict :=
  let stack := sc_stack sc in
  let go next := (mkScanner next stack, Keep) in
  let bad := (sc, Bad) in
  match sc_step sc with
  | BeginValue => begin_value c stack
  | BeginValueOrEmpty => if isSpace c then (sc, Skip) else if c =? 93 then end_value c stack else begin_value c stack
  | BeginStringOrEmpty =>
      if isSpace c then (sc, Skip)
      else if c =? 125 then end_value c (match stack with _ :: s => ParseObjectValue :: s | [] => [] end)
      else begin_string c stack
  | BeginString => begin_string c stack
  | EndValue | EndTop => end_value c stack
  | InString => if c =? 34 then go EndValue else if c =? 92 then go InStringEsc else if c <? 32 then bad else go InString
  | InStringEsc =>
      if existsb (Z.eqb c) [98; 102; 110; 114; 116; 92; 47; 34] then go InString else if c =? 117 then go (InStringEscU 4) else bad
  | InStringEscU n => if is_hex_byte c then go (match n with S (S n) => InStringEscU (S n) | _ => InString end) else bad
  | Neg => if c =? 48 then go Zero else if (49 <=? c) && (c <=? 57) then go Digits else bad
  | Digits =>
      if is_digit_byte c then go Digits
      else if c =? 46 then go Dot else if (c =? 101) || (c =? 69) then go Exp else end_value c stack
  | Zero => if c =? 46 then go Dot else if (c =? 101) || (c =? 69) then go Exp else end_value c stack
  | Dot => if is_digit_byte c then go Dot0 else bad
  | Dot0 => if is_digit_byte c then go Dot0 else if (c =? 101) || (c =? 69) then go Exp else end_value c stack
  | Exp => if (c =? 43) || (c =? 45) then go ExpSign else if is_digit_byte c then go Exp0 else bad
  | ExpSign => if is_digit_byte c then go Exp0 else bad
  | Exp0 => if is_digit_byte c then go Exp0 else end_value c stack
  | Literal l => match l with x :: l => if c =? x then go (match l with [] => EndValue | _ => Literal l end) else bad | [] => bad end
  end.
(** The end of the input is read as a space. *)
Definition at_eof (sc : Scanner) : bool :=
  match sc_step sc with
  | EndTop => true
  | _ => match scan sc 32 with (sc, (Keep | Skip)) => match sc_step sc with EndTop => true | _ => false end | (_, Bad) => false end
  end.
Fixpoint compact_loop (sc : Scanner) (src dst : list Z) : option (list Z) :=
  match src with
  | [] => if at_eof sc then Some dst else None
  | c :: src => let '(sc, v) := scan sc c in match v with Keep => compact_loop sc src (dst ++ [c]) | Skip => compact_loop sc src dst | Bad => None end
  end.
Definition Compact (src : list Z) : option (list Z) := compact_loop (mkScanner BeginValue []) src [].

(** ** [json.Marshal] of a string *)

Definition hex2 (b : Z) : list Z := [byte_of (hex_digit (b / 16)); byte_of (hex_digit (b mod 16))].
Definition escape_byte (b : Z) : list Z :=
  if (b =? 92) || (b =? 34) then [92; b]
  else if b =? 8 then [92; 98] else if b =? 12 then [92; 102] else if b =? 10 then [92; 110] else if b =? 13 then [92; 114] else if b =? 9 then [92; 116]
  else if (b <? 32) || (b =? 60) || (b =? 62) || (b =? 38) then bytes "\u00" ++ hex2 b
  else [b].
(** The width of the rune at the front of a non-ASCII text: one for an invalid byte. *)
Definition rune_width (s : list Z) : nat :=
  let two b0 b1 := cont 194 223 b0 && cont 128 191 b1 in
  let three b0 b1 b2 := cont 224 239 b0 && cont (if b0 =? 224 then 160 else 128) (if b0 =? 237 then 159 else 191) b1 && cont 128 191 b2 in
  let four b0 b1 b2 b3 := cont 240 244 b0 && cont (if b0 =? 240 then 144 else 128) (if b0 =? 244 then 143 else 191) b1 && cont 128 191 b2 && cont 128 191 b3 in
  match s with
  | b0 :: b1 :: t =>
      if two b0 b1 then 2%nat
      else match t with
      | b2 :: t =>
          if three b0 b1 b2 then 3%nat
          else match t with b3 :: _ => if four b0 b1 b2 b3 then 4%nat else 1%nat | [] => 1%nat end
      | [] => 1%nat
      end
  | _ => 1%nat
  end.
Definition escape_rune (r : list Z) : list Z :=
  if (length r <=? 1)%nat then bytes "\ufffd"
  else if bool_decide (r = [226; 128; 168]) then bytes "\u2028"
  else if bool_decide (r = [226; 128; 169]) then bytes "\u2029"
  else r.
Fixpoint quote_loop (fuel : nat) (s : list Z) : list Z :=
  match fuel, s with
  | S fuel, b :: s' => if b <? 128 then escape_byte b ++ quote_loop fuel s' else escape_rune (take (rune_width s) s) ++ quote_loop fuel (drop (rune_width s) s)
  | _, _ => []
  end.
Definition Marshal (s : string) : list Z := [34] ++ quote_loop (String.length s) (bytes s) ++ [34].

(** ** The reader *)

Record eventStreamSSEReader := mkReader { r_src : Source; r_pending : list Z; r_err : option StreamErr; r_done : bool }.
#[global] Instance eta_eventStreamSSEReader : Eta eventStreamSSEReader := fun r => mkReader (r_src r) (r_pending r) (r_err r) (r_done r).
Definition newEventStreamSSEReader (src : Source) : eventStreamSSEReader := mkReader src [] None false.
Definition sse_frame (eventType : string) (compact : list Z) : list Z :=
  bytes "data: {" ++ [34] ++ bytes "eventType" ++ [34] ++ bytes ":" ++ Marshal eventType ++ bytes "," ++ [34] ++ bytes "payload" ++ [34] ++ bytes ":" ++ compact ++ bytes "}" ++ [10; 10].
Definition fill (r : eventStreamSSEReader) : eventStreamSSEReader :=
  if r_done r then r
  else
    let '(src, res) := readEventStreamMessage (r_src r) in
    let r := r <| r_src := src |> in
    match res with
    | inr EOF => r <| r_done := true |>
    | inr e => r <| r_done := true |> <| r_err := Some e |>
    | inl msg =>
        match Compact (match Payload msg with [] => bytes "{}" | p => p end) with
        | None => r <| r_done := true |> <| r_err := Some (InvalidJSON (EventType msg)) |>
        | Some compact => r <| r_pending := r_pending r ++ sse_frame (EventType msg) compact |>
        end
    end.
(** [Read] into a buffer of [n] bytes.  A round without pending bytes ends the
    reader or takes a frame from the source. *)
Fixpoint read_loop (fuel : nat) (n : nat) (r : eventStreamSSEReader) : eventStreamSSEReader * (list Z + StreamErr) :=
  match r_pending r with
  | [] =>
      if r_done r then (r, inr match r_err r with Some e => e | None => EOF end)
      else match fuel with O => (r, inr EOF) | S fuel => read_loop fuel n (fill r) end
  | pending => (r <| r_pending := drop n pending |>, inl (take n pending))
  end.
Definition Read (n : nat) (r : eventStreamSSEReader) : eventStreamSSEReader * (list Z + StreamErr) := read_loop 2 n r.
