(* ===== verification/EventStreamProofs.v ===== *)
(** * Theorems on binary event streams

    A frame that passes the checksums cannot be reached by changing one byte of
    another one, an encoder of the documented frame layout is inverted by the
    decoder, and whatever the source sends every block the reader emits is one
    server-sent event. *)

From Stdlib Require Import Ascii.
From S2P Require Import Prelude Hash Text EventStream.

Definition is_byte (b : Z) : Prop := 0 <= b < 256.

(** ** The checksum *)

Lemma lxor_range n a b : 0 <= n -> 0 <= a < 2 ^ n -> 0 <= b < 2 ^ n -> 0 <= Z.lxor a b < 2 ^ n.
Proof.
  intros Hn Ha Hb. rewrite <- (Z.mod_small a (2 ^ n)), <- (Z.mod_small b (2 ^ n)) by done. enough (Z.lxor (a mod 2 ^ n) (b mod 2 ^ n) = Z.lxor a b mod 2 ^ n) as -> by (apply Z.mod_pos_bound; lia).
  apply Z.bits_inj'. intros m Hm. rewrite Z.lxor_spec. destruct (Z.lt_ge_cases m n); [by rewrite !Z.mod_pow2_bits_low, Z.lxor_spec by lia|by rewrite !Z.mod_pow2_bits_high by lia].
Qed.
Lemma lxor_cancel_l a b c : Z.lxor a b = Z.lxor a c -> b = c.
Proof. intros H. rewrite <- (Z.lxor_0_l b), <- (Z.lxor_0_l c), <- (Z.lxor_nilpotent a), !Z.lxor_assoc. by rewrite H. Qed.
Lemma lxor_cancel_r a b c : Z.lxor b a = Z.lxor c a -> b = c.
Proof. rewrite !(Z.lxor_comm _ a). apply lxor_cancel_l. Qed.

Lemma shiftr1_range c : 0 <= c < 2 ^ 32 -> 0 <= Z.shiftr c 1 < 2 ^ 31.
Proof. intros H. rewrite Z.shiftr_div_pow2 by lia. split; [apply Z.div_pos; lia|apply Z.div_lt_upper_bound; lia]. Qed.
Lemma crc_bit_range c : 0 <= c < 2 ^ 32 -> 0 <= crc_bit c < 2 ^ 32.
Proof. intros H. pose proof (shiftr1_range c H). unfold crc_bit. destruct (Z.odd c); [apply lxor_range; unfold crc_poly; lia|lia]. Qed.
(** The top bit of the result is the bit that was shifted out. *)
Lemma crc_bit_top c : 0 <= c < 2 ^ 32 -> Z.testbit (crc_bit c) 31 = Z.odd c.
Proof.
  intros H. pose proof (shiftr1_range c H) as Hs. assert (Z.testbit (Z.shiftr c 1) 31 = false) as E.
  { destruct (Z.eq_dec (Z.shiftr c 1) 0) as [->|]; [done|]. apply Z.bits_above_log2; [lia|]. apply Z.log2_lt_pow2; lia. }
  unfold crc_bit. destruct (Z.odd c); [|done]. rewrite Z.lxor_spec, E. reflexivity.
Qed.
Lemma crc_bit_inj c d : 0 <= c < 2 ^ 32 -> 0 <= d < 2 ^ 32 -> crc_bit c = crc_bit d -> c = d.
Proof.
  intros Hc Hd E. assert (Z.odd c = Z.odd d) as Eo by (by rewrite <- (crc_bit_top c Hc), <- (crc_bit_top d Hd), E).
  assert (Z.shiftr c 1 = Z.shiftr d 1) as Es by (unfold crc_bit in E; rewrite Eo in E; destruct (Z.odd d); [by eapply lxor_cancel_r|done]).
  rewrite (Z.div2_odd c), (Z.div2_odd d), Eo, !Z.div2_spec. by rewrite Es.
Qed.
Lemma crc_bits_range n c : 0 <= c < 2 ^ 32 -> 0 <= Nat.iter n crc_bit c < 2 ^ 32.
Proof. induction n; [done|]. intros H. cbn. by apply crc_bit_range, IHn. Qed.
Lemma crc_bits_inj n c d : 0 <= c < 2 ^ 32 -> 0 <= d < 2 ^ 32 -> Nat.iter n crc_bit c = Nat.iter n crc_bit d -> c = d.
Proof. intros Hc Hd. induction n as [|n IH]; [done|]. cbn. intros E. apply IH. apply crc_bit_inj; [by apply crc_bits_range..|done]. Qed.
Lemma byte_word b : is_byte b -> 0 <= b < 2 ^ 32.
Proof. unfold is_byte. lia. Qed.
Lemma crc_byte_range c b : 0 <= c < 2 ^ 32 -> is_byte b -> 0 <= crc_byte c b < 2 ^ 32.
Proof. intros Hc Hb. apply crc_bits_range, lxor_range; [lia|done|by apply byte_word]. Qed.
Lemma crc_byte_inj_state c d b : 0 <= c < 2 ^ 32 -> 0 <= d < 2 ^ 32 -> is_byte b -> crc_byte c b = crc_byte d b -> c = d.
Proof. intros Hc Hd Hb E. apply byte_word in Hb. apply (lxor_cancel_r b), (crc_bits_inj 8); [apply lxor_range; lia..|exact E]. Qed.
Lemma crc_byte_inj_byte c a b : 0 <= c < 2 ^ 32 -> is_byte a -> is_byte b -> crc_byte c a = crc_byte c b -> a = b.
Proof. intros Hc Ha Hb E. apply byte_word in Ha. apply byte_word in Hb. apply (lxor_cancel_l c), (crc_bits_inj 8); [apply lxor_range; lia..|exact E]. Qed.
Lemma crc_update_range l : forall c, 0 <= c < 2 ^ 32 -> Forall is_byte l -> 0 <= crc_update c l < 2 ^ 32.
Proof. induction l as [|b l IH]; intros c Hc Hl; [done|]. apply Forall_cons in Hl as [Hb Hl]. cbn. apply IH; [by apply crc_byte_range|done]. Qed.
Lemma crc_update_inj l : forall c d, 0 <= c < 2 ^ 32 -> 0 <= d < 2 ^ 32 -> Forall is_byte l -> crc_update c l = crc_update d l -> c = d.
Proof.
  induction l as [|b l IH]; intros c d Hc Hd Hl E; [done|]. apply Forall_cons in Hl as [Hb Hl]. cbn in E.
  apply IH in E; [|by apply crc_byte_range..|done]. by eapply crc_byte_inj_state.
Qed.
(** One changed byte changes the checksum. *)
Lemma crc_one_byte l i b b' : Forall is_byte l -> l !! i = Some b -> is_byte b' -> b' <> b -> ChecksumIEEE (<[i := b']> l) <> ChecksumIEEE l.
Proof.
  intros Hl Hi Hb' Hne E. apply lxor_cancel_r in E. assert (0 <= 2 ^ 32 - 1 < 2 ^ 32) as H0 by lia. revert E H0. generalize (2 ^ 32 - 1). revert i Hi.
  induction l as [|a l IH]; intros i Hi c E Hc; [done|]. apply Forall_cons in Hl as [Ha Hl]. destruct i as [|i]; cbn in *.
  - injection Hi as [= ->]. apply crc_update_inj in E; [|by apply crc_byte_range..|done]. by apply crc_byte_inj_byte in E.
  - by apply (IH Hl i Hi (crc_byte c a)), crc_byte_range.
Qed.

(** ** Big endian *)

Lemma big_endian_snoc a x : BigEndian (a ++ [x]) = 256 * BigEndian a + x.
Proof. unfold BigEndian. by rewrite fold_left_app. Qed.
Lemma big_endian_range l : Forall is_byte l -> 0 <= BigEndian l < 256 ^ Z.of_nat (length l).
Proof.
  induction l as [|x l IH] using rev_ind; [cbn; lia|]. intros [Hl Hx]%Forall_app. apply Forall_cons in Hx as [Hx _]. specialize (IH Hl).
  rewrite big_endian_snoc, length_app, Nat2Z.inj_add, Z.pow_add_r by lia. change (256 ^ Z.of_nat (length [x])) with 256. unfold is_byte in Hx. lia.
Qed.
Lemma big_endian_inj a : forall b, length a = length b -> Forall is_byte a -> Forall is_byte b -> BigEndian a = BigEndian b -> a = b.
Proof.
  induction a as [|x a IH] using rev_ind; intros b Hlen Ha Hb E; [by destruct b|]. destruct b as [|y b _] using rev_ind; [rewrite length_app in Hlen; cbn in Hlen; lia|].
  rewrite !length_app in Hlen. cbn in Hlen. apply Forall_app in Ha as [Ha Hx]. apply Forall_app in Hb as [Hb Hy]. apply Forall_cons in Hx as [Hx _]. apply Forall_cons in Hy as [Hy _].
  rewrite !big_endian_snoc in E. unfold is_byte in *. assert (BigEndian a = BigEndian b /\ x = y) as [E1 ->] by lia. f_equal. apply IH; [lia|done|done|done].
Qed.
Lemma big_endian_one_byte l i b b' : Forall is_byte l -> l !! i = Some b -> is_byte b' -> b' <> b -> BigEndian (<[i := b']> l) <> BigEndian l.
Proof.
  intros Hl Hi Hb' Hne E. apply big_endian_inj in E; [|by rewrite length_insert|by apply Forall_insert|done]. apply (f_equal (.!! i)) in E.
  rewrite list_lookup_insert_eq in E by (by eapply lookup_lt_Some). congruence.
Qed.

(** ** Corruption *)

(** What an accepted frame looks like. *)
Lemma read_message_shape d e s m :
  readEventStreamMessage (mkSource d e) = (s, inl m) ->
  exists n, (16 <= n <= length d)%nat /\ src_data s = drop n d
    /\ Z.of_nat n = BigEndian (take 4 d) /\ (n <= Z.to_nat maxEventStreamFrameBytes)%nat
    /\ ChecksumIEEE (take 8 d) = BigEndian (take 4 (drop 8 d)) /\ ChecksumIEEE (take (n - 4) d) = BigEndian (take 4 (drop (n - 4) d)).
Proof.
  unfold readEventStreamMessage, ReadFull. cbn [src_data src_end]. destruct (12 <=? length d)%nat eqn:E12; [|done]. apply Nat.leb_le in E12. cbv zeta iota beta. cbn [src_data src_end].
  rewrite !take_take. change (4 `min` 12)%nat with 4%nat. change (8 `min` 12)%nat with 8%nat.
  destruct (ChecksumIEEE (take 8 d) =? _) eqn:E1; cbn [negb]; [|done]. apply Z.eqb_eq in E1.
  destruct (_ || _) eqn:E2; [done|]. apply orb_false_iff in E2 as [E2 E3]. apply Z.ltb_ge in E2, E3. destruct (_ <? _) eqn:E4; [done|]. apply Z.ltb_ge in E4. destruct (_ <? _) eqn:E5; [done|].
  destruct (_ <=? _)%nat eqn:E6; [|done]. apply Nat.leb_le in E6. rewrite length_drop in E6.
  set (total := BigEndian (take 4 d)) in *. set (k := Z.to_nat (total - 12)) in *.
  assert (length (take k (drop 12 d)) = k) as Lk by (rewrite length_take, length_drop; lia). rewrite Lk.
  destruct (ChecksumIEEE _ =? _) eqn:E7; cbn [negb]; [|done]. apply Z.eqb_eq in E7. destruct (parseEventStreamHeaders _); [|done]. intros [= <- <-]. exists (k + 12)%nat.
  assert (Z.of_nat (k + 12) = total) as Et by lia. split_and!; [lia|lia| |done|lia| |].
  - cbn. rewrite drop_drop. f_equal. lia.
  - rewrite E1. f_equal. apply skipn_firstn_comm.
  - replace (k + 12 - 4)%nat with (12 + (k - 4))%nat by lia. rewrite take_take in E7. replace ((k - 4) `min` k)%nat with (k - 4)%nat in E7 by lia.
    rewrite <- (take_drop 12 d) at 1. rewrite take_app_ge by (rewrite length_take; lia). rewrite length_take. replace (12 + (k - 4) - 12 `min` length d)%nat with (k - 4)%nat by lia. rewrite E7. f_equal.
    rewrite skipn_firstn_comm, drop_drop. f_equal. lia.
Qed.

(** A checksum over the first [k] bytes, stored in the four bytes after them,
    does not survive a changed byte in either. *)
Lemma checked_one_byte d k i b b' :
  Forall is_byte d -> d !! i = Some b -> is_byte b' -> b' <> b -> (i < k + 4)%nat ->
  ChecksumIEEE (take k d) = BigEndian (take 4 (drop k d)) -> ChecksumIEEE (take k (<[i := b']> d)) <> BigEndian (take 4 (drop k (<[i := b']> d))).
Proof.
  intros Hd Hi Hb' Hne Hk E. destruct (decide (i < k)%nat) as [Hlt|Hge].
  - rewrite drop_insert_lt by lia. rewrite take_insert_lt by lia. rewrite <- E.
    apply (crc_one_byte _ _ b); [by apply Forall_take|by rewrite lookup_take_lt|done|done].
  - rewrite take_insert_ge by lia. rewrite E, drop_insert_ge by lia. rewrite take_insert_lt by lia. apply not_eq_sym.
    apply (big_endian_one_byte _ _ b); [by apply Forall_take, Forall_drop| |done|done]. rewrite lookup_take_lt, lookup_drop by lia. rewrite <- Hi. f_equal. lia.
Qed.

(** (C23) Changing one byte of an accepted frame, wherever it is, makes the decoder
    report an error instead of a message. *)
Theorem corruption_detected (d : list Z) (e : option string) (s : Source) (m : eventStreamMessage) (i : nat) (b' : Z) :
  Forall is_byte d -> readEventStreamMessage (mkSource d e) = (s, inl m) -> (i < length d - length (src_data s))%nat -> is_byte b' -> d !! i <> Some b' ->
  exists s' err, readEventStreamMessage (mkSource (<[i := b']> d) e) = (s', inr err).
Proof.
  intros Hd Hr Hi Hb' Hne. destruct (readEventStreamMessage (mkSource (<[i := b']> d) e)) as [s' [m'|err]] eqn:Hr'; [exfalso|eauto].
  destruct (read_message_shape _ _ _ _ Hr) as (n & Hn & Es & En & _ & H1 & H2). destruct (read_message_shape _ _ _ _ Hr') as (n' & Hn' & _ & En' & _ & H1' & H2').
  rewrite Es, length_drop in Hi. destruct (lookup_lt_is_Some_2 d i) as [b Hb]; [lia|]. assert (b' <> b) as Hbb by congruence. destruct (decide (i < 12)%nat) as [Hlt|Hge].
  - apply (checked_one_byte d 8 i b b') in H1'; [done|done|done|done|done|lia|done].
  - rewrite take_insert_ge, <- En in En' by lia. assert (n' = n) as -> by lia. apply (checked_one_byte d (n - 4) i b b') in H2'; [done|done|done|done|done|lia|done].
Qed.

(** ** Frames of the documented layout *)

Inductive HeaderValue :=
| HBool (b : bool) | HInt8 (z : Z) | HInt16 (z : Z) | HInt32 (z : Z) | HInt64 (z : Z) | HBytes (l : list Z) | HString (s : string) | HTimestamp (z : Z) | HUUID (l : list Z).
Definition be_signed (n : nat) (z : Z) : list Z := Sha256.be n (z mod 2 ^ (8 * Z.of_nat n)).
Definition sized (l : list Z) : list Z := Sha256.be 2 (Z.of_nat (length l)) ++ l.
Definition encode_value (v : HeaderValue) : list Z :=
  match v with
  | HBool b => [if b then 0 else 1] | HInt8 z => 2 :: be_signed 1 z | HInt16 z => 3 :: be_signed 2 z | HInt32 z => 4 :: be_signed 4 z | HInt64 z => 5 :: be_signed 8 z
  | HBytes l => 6 :: sized l | HString s => 7 :: sized (bytes s) | HTimestamp z => 8 :: be_signed 8 z | HUUID l => 9 :: l
  end.
(** The decoder keeps every value as a text. *)
Definition text_of (v : HeaderValue) : string :=
  match v with
  | HBool b => if b then "true" else "false" | HInt8 z | HInt16 z | HInt32 z | HInt64 z | HTimestamp z => Itoa z
  | HBytes l => string_of_bytes l | HString s => s | HUUID l => hex_bytes l
  end.
Definition fits (bits z : Z) : Prop := - 2 ^ (bits - 1) <= z < 2 ^ (bits - 1).
Definition value_ok (v : HeaderValue) : Prop :=
  match v with
  | HBool _ => True | HInt8 z => fits 8 z | HInt16 z => fits 16 z | HInt32 z => fits 32 z | HInt64 z | HTimestamp z => fits 64 z
  | HBytes l => Z.of_nat (length l) < 65536 | HString s => Z.of_nat (String.length s) < 65536 | HUUID l => length l = 16%nat
  end.
Definition encode_header (h : string * HeaderValue) : list Z := Z.of_nat (String.length (fst h)) :: bytes (fst h) ++ encode_value (snd h).
Definition encode_headers (hs : list (string * HeaderValue)) : list Z := concat (map encode_header hs).
Definition headers_map (hs : list (string * HeaderValue)) (m : gmap string string) : gmap string string := fold_left (fun m h => <[fst h := text_of (snd h)]> m) hs m.
Definition encode_frame (f : list (string * HeaderValue) * list Z) : list Z :=
  let headers := encode_headers (fst f) in
  let prelude := Sha256.be 4 (Z.of_nat (16 + length headers + length (snd f))) ++ Sha256.be 4 (Z.of_nat (length headers)) in
  let body := prelude ++ Sha256.be 4 (ChecksumIEEE prelude) ++ headers ++ snd f in
  body ++ Sha256.be 4 (ChecksumIEEE body).
Definition frame_ok (f : list (string * HeaderValue) * list Z) : Prop :=
  Forall (fun h => (String.length (fst h) < 256)%nat /\ value_ok (snd h)) (fst f)
  /\ Forall is_byte (encode_headers (fst f)) /\ Forall is_byte (snd f)
  /\ Z.of_nat (length (encode_headers (fst f))) <= maxEventStreamHeadersBytes /\ Z.of_nat (16 + length (encode_headers (fst f)) + length (snd f)) <= maxEventStreamFrameBytes.

Lemma be_length n x : length (Sha256.be n x) = n.
Proof. unfold Sha256.be. by rewrite length_map, length_rev, length_seq. Qed.
Lemma be_bytes n x : Forall is_byte (Sha256.be n x).
Proof. unfold Sha256.be. apply Forall_map, Forall_true. intros i. cbn. change 255 with (Z.ones 8). rewrite Z.land_ones by lia. unfold is_byte. apply Z.mod_pos_bound. lia. Qed.
Lemma be_succ n x : Sha256.be (S n) x = Z.land (Z.shiftr x (8 * Z.of_nat n)) 255 :: Sha256.be n x.
Proof. unfold Sha256.be. rewrite seq_S, rev_app_distr. done. Qed.
Lemma big_endian_cons a l : BigEndian (a :: l) = a * 256 ^ Z.of_nat (length l) + BigEndian l.
Proof.
  induction l as [|x l IH] using rev_ind; [cbn; lia|]. rewrite app_comm_cons, !big_endian_snoc, IH, length_app, Nat2Z.inj_add, Z.pow_add_r by lia. change (256 ^ Z.of_nat (length [x])) with 256. ring.
Qed.
Lemma big_endian_be n : forall x, BigEndian (Sha256.be n x) = x mod 256 ^ Z.of_nat n.
Proof.
  induction n as [|n IH]; intros x; [cbn; by rewrite Z.mod_1_r|]. rewrite be_succ, big_endian_cons, be_length, IH. change 255 with (Z.ones 8). rewrite Z.land_ones, Z.shiftr_div_pow2 by lia.
  replace (2 ^ (8 * Z.of_nat n)) with (256 ^ Z.of_nat n) by (rewrite Z.pow_mul_r by lia; done). rewrite Nat2Z.inj_succ, Z.pow_succ_r by lia. rewrite (Z.mul_comm 256), Z.rem_mul_r by lia. change (2 ^ 8) with 256. ring.
Qed.
Lemma big_endian_be_small n x : 0 <= x < 256 ^ Z.of_nat n -> BigEndian (Sha256.be n x) = x.
Proof. intros H. by rewrite big_endian_be, Z.mod_small. Qed.
Lemma signed_be n z : (0 < n)%nat -> fits (8 * Z.of_nat n) z -> signed (8 * Z.of_nat n) (BigEndian (be_signed n z)) = z.
Proof.
  intros Hn [Hlo Hhi]. unfold be_signed, signed. set (w := 8 * Z.of_nat n) in *. assert (256 ^ Z.of_nat n = 2 ^ w) as Ew by (unfold w; rewrite Z.pow_mul_r by lia; done).
  assert (2 ^ w = 2 * 2 ^ (w - 1)) as E2 by (rewrite <- Z.pow_succ_r by lia; f_equal; lia). rewrite big_endian_be, Ew, Zmod_mod.
  destruct (Z.lt_ge_cases z 0) as [Hz|Hz].
  - assert (z mod 2 ^ w = z + 2 ^ w) as -> by (rewrite <- (Z.mod_add z 1), Z.mul_1_l by lia; apply Z.mod_small; lia). destruct (_ <? _) eqn:E; [apply Z.ltb_lt in E; lia|lia].
  - rewrite Z.mod_small by lia. destruct (_ <? _) eqn:E; [done|apply Z.ltb_ge in E; lia].
Qed.
Lemma bytes_length s : length (bytes s) = String.length s.
Proof. unfold bytes. rewrite length_map. induction s; cbn; congruence. Qed.
Lemma string_bytes s : string_of_bytes (bytes s) = s.
Proof.
  unfold string_of_bytes, bytes, char_of, byte_of. rewrite map_map. induction s as [|c s IH]; [done|]. cbn. rewrite N2Z.id, ascii_N_embedding. f_equal. exact IH.
Qed.

Lemma take_app_length' {A} (n : nat) (a b : list A) : length a = n -> take n (a ++ b) = a.
Proof. intros <-. apply take_app_length. Qed.
Lemma drop_app_length' {A} (n : nat) (a b : list A) : length a = n -> drop n (a ++ b) = b.
Proof. intros <-. apply drop_app_length. Qed.
Lemma fixed_value n (f : list Z -> string) (a t : list Z) : length a = n ->
  (if (length (a ++ t) <? n)%nat then inr TruncatedHeader else inl (f (take n (a ++ t)), drop n (a ++ t))) = inl (f a, t) :> (string * list Z) + StreamErr.
Proof. intros H. rewrite take_app_length', drop_app_length' by done. destruct (_ <? _)%nat eqn:E; [|done]. apply Nat.ltb_lt in E. rewrite length_app in E. lia. Qed.
Lemma sized_value (l t : list Z) : Z.of_nat (length l) < 65536 ->
  (if (length (sized l ++ t) <? 2)%nat then inr TruncatedHeader
   else if (length (drop 2 (sized l ++ t)) <? Z.to_nat (BigEndian (take 2 (sized l ++ t))))%nat then inr TruncatedHeader
   else inl (string_of_bytes (take (Z.to_nat (BigEndian (take 2 (sized l ++ t)))) (drop 2 (sized l ++ t))), drop (Z.to_nat (BigEndian (take 2 (sized l ++ t)))) (drop 2 (sized l ++ t))))
  = inl (string_of_bytes l, t) :> (string * list Z) + StreamErr.
Proof.
  intros Hl. unfold sized. rewrite <- !app_assoc. pose proof (be_length 2 (Z.of_nat (length l))) as Hb. rewrite !take_app_length', !drop_app_length' by done.
  rewrite big_endian_be_small by (change (256 ^ Z.of_nat 2) with 65536; lia). rewrite Nat2Z.id, take_app_length, drop_app_length.
  rewrite !(proj2 (Nat.ltb_ge _ _)) by (rewrite length_app; lia). done.
Qed.
Lemma int_value n z t : (0 < n)%nat -> fits (8 * Z.of_nat n) z ->
  (if (length (be_signed n z ++ t) <? n)%nat then inr TruncatedHeader else inl (Itoa (signed (8 * Z.of_nat n) (BigEndian (take n (be_signed n z ++ t)))), drop n (be_signed n z ++ t)))
  = inl (Itoa z, t) :> (string * list Z) + StreamErr.
Proof. intros Hn Hz. rewrite (fixed_value n (fun l => Itoa (signed (8 * Z.of_nat n) (BigEndian l)))) by apply be_length. by rewrite signed_be. Qed.
Lemma header_value_encode v t : value_ok v -> exists ty l, encode_value v = ty :: l /\ header_value ty (l ++ t) = inl (text_of v, t).
Proof.
  destruct v as [[]|z|z|z|z|l|s|z|l]; intros Hv; cbn [encode_value]; do 2 eexists; (split; [reflexivity|]); cbn [header_value Z.eqb Pos.eqb orb text_of value_ok] in *; try reflexivity.
  - exact (int_value 1 z t (Nat.lt_0_succ 0) Hv).
  - exact (int_value 2 z t (Nat.lt_0_succ 1) Hv).
  - exact (int_value 4 z t (Nat.lt_0_succ 3) Hv).
  - exact (int_value 8 z t (Nat.lt_0_succ 7) Hv).
  - unfold header_value. cbn [Z.eqb Pos.eqb orb]. cbv zeta. by apply sized_value.
  - unfold header_value. cbn [Z.eqb Pos.eqb orb]. cbv zeta. rewrite sized_value by (by rewrite bytes_length). by rewrite string_bytes.
  - exact (int_value 8 z t (Nat.lt_0_succ 7) Hv).
  - exact (fixed_value 16 hex_bytes l t Hv).
Qed.
Lemma parse_header_encode h t : (String.length (fst h) < 256)%nat -> value_ok (snd h) -> parse_header (encode_header h ++ t) = inl (fst h, text_of (snd h), t).
Proof.
  intros Hn Hv. destruct h as [name v]. cbn [fst snd] in *. unfold encode_header, parse_header. cbn [fst snd app]. rewrite <- app_assoc, Nat2Z.id.
  destruct (header_value_encode v t Hv) as (ty & l & E & Ev). rewrite E. cbn [app]. rewrite take_app_length', drop_app_length' by apply bytes_length. rewrite string_bytes, Ev.
  destruct (_ <? _)%nat eqn:El; [|done]. apply Nat.ltb_lt in El. rewrite length_app, bytes_length in El. cbn in El. lia.
Qed.
Lemma headers_loop_encode hs : forall fuel m, Forall (fun h => (String.length (fst h) < 256)%nat /\ value_ok (snd h)) hs -> (length hs <= fuel)%nat ->
  headers_loop fuel (encode_headers hs) m = inl (headers_map hs m).
Proof.
  induction hs as [|h hs IH]; intros fuel m Hok Hf; [by destruct fuel|]. apply Forall_cons in Hok as [[Hn Hv] Hok]. destruct fuel as [|fuel]; [cbn in Hf; lia|].
  change (encode_headers (h :: hs)) with (encode_header h ++ encode_headers hs). cbn [headers_loop].
  pose proof (parse_header_encode h (encode_headers hs) Hn Hv) as E. destruct (encode_header h ++ encode_headers hs) as [|b0 b] eqn:Eb; [done|]. rewrite E. apply IH; [done|cbn in Hf; lia].
Qed.
Lemma headers_encode hs : Forall (fun h => (String.length (fst h) < 256)%nat /\ value_ok (snd h)) hs -> parseEventStreamHeaders (encode_headers hs) = inl (headers_map hs ∅).
Proof.
  intros Hok. apply headers_loop_encode; [done|]. clear Hok. induction hs as [|h hs IH]; [done|]. change (encode_headers (h :: hs)) with (encode_header h ++ encode_headers hs).
  rewrite length_app. unfold encode_header. cbn [length]. lia.
Qed.

Lemma checksum_range l : Forall is_byte l -> 0 <= ChecksumIEEE l < 256 ^ Z.of_nat 4.
Proof. intros H. change (256 ^ Z.of_nat 4) with (2 ^ 32). apply lxor_range; [lia|apply crc_update_range; [lia|done]|lia]. Qed.
(** Decoding inverts the documented layout. *)
Lemma frame_roundtrip f t e : frame_ok f -> readEventStreamMessage (mkSource (encode_frame f ++ t) e) = (mkSource t e, inl (message_of (headers_map (fst f) ∅) (snd f))).
Proof.
  destruct f as [hs payload]. intros (Hok & Hhb & Hpb & Hhl & Htl). cbn [fst snd] in *. unfold encode_frame. cbn [fst snd]. cbv zeta.
  set (h := encode_headers hs) in *. set (total := (16 + length h + length payload)%nat) in *.
  set (p8 := Sha256.be 4 (Z.of_nat total) ++ Sha256.be 4 (Z.of_nat (length h))). set (c1 := Sha256.be 4 (ChecksumIEEE p8)). set (body := p8 ++ c1 ++ h ++ payload). set (c2 := Sha256.be 4 (ChecksumIEEE body)).
  assert (length p8 = 8%nat) as L8 by (unfold p8; by rewrite length_app, !be_length). assert (length c1 = 4%nat /\ length c2 = 4%nat) as [L1 L2] by (unfold c1, c2; by rewrite !be_length).
  assert (Forall is_byte p8) as B8 by (unfold p8; apply Forall_app; split; apply be_bytes).
  assert (Forall is_byte body) as Bb by (unfold body; apply Forall_app; split; [done|]; apply Forall_app; split; [apply be_bytes|]; by apply Forall_app).
  assert (BigEndian (take 4 p8) = Z.of_nat total /\ BigEndian (drop 4 p8) = Z.of_nat (length h)) as [ET EH].
  { unfold p8. rewrite take_app_length', drop_app_length' by apply be_length. rewrite !big_endian_be_small; [done|..]; change (256 ^ Z.of_nat 4) with 4294967296; change maxEventStreamFrameBytes with 33554432 in Htl; change maxEventStreamHeadersBytes with 131072 in Hhl; lia. }
  assert (BigEndian c1 = ChecksumIEEE p8 /\ BigEndian c2 = ChecksumIEEE body) as [EC1 EC2] by (unfold c1, c2; rewrite !big_endian_be_small by (by apply checksum_range); done).
  clearbody c1 c2 p8. clear Hhb.
  assert ((body ++ c2) ++ t = (p8 ++ c1) ++ (h ++ payload ++ c2) ++ t) as -> by (unfold body; by rewrite <- !app_assoc).
  assert (length (p8 ++ c1) = 12%nat) as L12 by (rewrite length_app; lia). assert (length (h ++ payload ++ c2) = (total - 12)%nat) as LR by (rewrite !length_app; lia).
  unfold readEventStreamMessage, ReadFull at 1. cbn [src_data src_end]. rewrite take_app_length', drop_app_length' by done.
  destruct (12 <=? _)%nat eqn:E0; [|apply Nat.leb_gt in E0; rewrite length_app in E0; lia]. cbv iota beta zeta.
  assert (take 4 (p8 ++ c1) = take 4 p8) as -> by (rewrite take_app_le by lia; done).
  assert (take 4 (drop 4 (p8 ++ c1)) = drop 4 p8) as -> by (rewrite drop_app_le by lia; apply take_app_length'; rewrite length_drop; lia).
  rewrite (take_app_length' 8), (drop_app_length' 8), ET, EH, EC1, Z.eqb_refl by done. cbn [negb].
  assert ((Z.of_nat total <? 16) || (Z.of_nat total - 16 <? Z.of_nat (length h)) = false) as -> by (apply orb_false_iff; split; apply Z.ltb_ge; lia).
  assert (maxEventStreamFrameBytes <? Z.of_nat total = false) as -> by (apply Z.ltb_ge; lia). assert (maxEventStreamHeadersBytes <? Z.of_nat (length h) = false) as -> by (apply Z.ltb_ge; lia).
  unfold ReadFull. cbn [src_data src_end]. replace (Z.to_nat (Z.of_nat total - 12)) with (total - 12)%nat by lia. rewrite take_app_length', drop_app_length' by done.
  assert ((total - 12 <=? length ((h ++ payload ++ c2) ++ t))%nat = true) as -> by (apply Nat.leb_le; rewrite length_app; lia). cbv iota beta zeta. rewrite LR, Nat2Z.id.
  assert (take (total - 12 - 4) (h ++ payload ++ c2) = h ++ payload) as -> by (rewrite (app_assoc h); apply take_app_length'; rewrite length_app; lia).
  assert (drop (total - 12 - 4) (h ++ payload ++ c2) = c2) as -> by (rewrite (app_assoc h); apply drop_app_length'; rewrite length_app; lia).
  assert ((p8 ++ c1) ++ h ++ payload = body) as -> by (unfold body; by rewrite <- !app_assoc). rewrite EC2, Z.eqb_refl. cbn [negb].
  rewrite take_app_length, drop_app_length. unfold h. by rewrite headers_encode.
Qed.

(** ** Printable output *)

Definition printable (l : list Z) : Prop := Forall (fun b => 32 <= b) l.
Definition scan_ok (sc : Scanner) : Prop := match sc_step sc with Literal l => printable l | _ => True end.
(** Splits the branches of a scanner step and of its tests on bytes. *)
Ltac scan_cases := repeat match goal with
  | H : context [if ?b then _ else _] |- _ => let E := fresh "E" in destruct b eqn:E
  | H : (_, _) = (_, _) |- _ => injection H as [= <- <-]
  | H : context [match ?l with [] => _ | _ :: _ => _ end] |- _ => is_var l; destruct l
  | H : context [match ?p with ParseObjectKey => _ | _ => _ end] |- _ => is_var p; destruct p
  | H : context [match ?n with O => _ | S _ => _ end] |- _ => is_var n; destruct n
  end.
Ltac byte_tests := unfold is_hex_byte, isSpace, is_digit_byte in *; repeat match goal with
  | H : (_ || _) = true |- _ => apply orb_true_iff in H as [H|H]
  | H : (_ && _) = true |- _ => apply andb_true_iff in H as [? ?]
  | H : (_ =? _) = true |- _ => apply Z.eqb_eq in H
  | H : (_ <=? _) = true |- _ => apply Z.leb_le in H
  | H : (_ <? _) = false |- _ => apply Z.ltb_ge in H
  end; try done; try (intros; lia).
Lemma pop_ok stack sc v : pop stack = (sc, v) -> scan_ok sc.
Proof. unfold pop. intros H. scan_cases; done. Qed.
Lemma push_ok stack q next sc v : scan_ok (mkScanner next stack) -> push stack q next = (sc, v) -> scan_ok sc.
Proof. unfold push. intros Hn H. scan_cases; done. Qed.
Lemma end_value_ok c stack sc v : end_value c stack = (sc, v) -> scan_ok sc /\ (v = Keep -> 32 <= c).
Proof.
  unfold end_value. intros H. destruct stack as [|q stack]; [injection H as [= <- <-]; split; [done|]; by destruct (isSpace c)|].
  destruct (isSpace c); [injection H as [= <- <-]; by split|]. destruct q; scan_cases; split; try done; byte_tests; try (by eapply pop_ok); byte_tests.
Qed.
Lemma begin_string_ok c stack sc v : begin_string c stack = (sc, v) -> scan_ok sc /\ (v = Keep -> 32 <= c).
Proof. unfold begin_string. intros H. scan_cases; split; try done; byte_tests. Qed.
Lemma begin_value_ok c stack sc v : begin_value c stack = (sc, v) -> scan_ok sc /\ (v = Keep -> 32 <= c).
Proof.
  unfold begin_value. intros H. destruct (isSpace c); [injection H as [= <- <-]; by split|]. cbv zeta in H.
  destruct (c =? 123) eqn:E1; [split; [eapply push_ok; [|exact H]; done|byte_tests]|]. destruct (c =? 91) eqn:E2; [split; [eapply push_ok; [|exact H]; done|byte_tests]|].
  scan_cases; (split; [first [done|vm_compute; repeat constructor; discriminate]|]); byte_tests.
Qed.
Lemma scan_step_ok sc c sc' v : scan_ok sc -> scan sc c = (sc', v) -> scan_ok sc' /\ (v = Keep -> 32 <= c).
Proof.
  unfold scan. destruct sc as [st stack]. intros Hok H. cbn [sc_step sc_stack] in H. cbv zeta in H.
  destruct st as [| | | | | | | |left_| | | | | | | | |l]; try (by eapply begin_value_ok); try (by eapply end_value_ok); try (by eapply begin_string_ok).
  all: try (destruct l as [|x l]; [injection H as [= <- <-]; by split|]; unfold scan_ok, printable in Hok; cbn in Hok; apply Forall_cons in Hok as [Hx Hl]).
  all: repeat match type of H with (if ?b then _ else _) = _ => let E := fresh "E" in destruct b eqn:E end.
  all: try (by eapply end_value_ok); try (by eapply begin_value_ok); try (by eapply begin_string_ok).
  all: injection H as [= <- <-]; split; try done.
  all: try (intros _; byte_tests).
  - apply existsb_exists in E as (x & Hx & ->%Z.eqb_eq). cbn in Hx. lia.
  - by destruct left_ as [|[|]].
  - by destruct l.
  - by apply Forall_cons_2.
Qed.
Lemma compact_printable src : forall sc dst out, scan_ok sc -> printable dst -> compact_loop sc src dst = Some out -> printable out.
Proof.
  induction src as [|c src IH]; intros sc dst out Hsc Hd; cbn.
  - destruct (at_eof sc); [|done]. by intros [= <-].
  - destruct (scan sc c) as [sc' v] eqn:Es. destruct (scan_step_ok _ _ _ _ Hsc Es) as [Hsc' Hc]. destruct v; [|by apply IH|done]. apply IH; [done|].
    apply Forall_app. split; [done|]. apply Forall_cons_2; [by apply Hc|by apply Forall_nil_2].
Qed.
Lemma Compact_printable src out : Compact src = Some out -> printable out.
Proof. apply compact_printable; [done|by apply Forall_nil_2]. Qed.

Lemma byte_of_range c : is_byte (byte_of c).
Proof. unfold is_byte, byte_of. pose proof (N_ascii_bounded c). lia. Qed.
Lemma bytes_range s : Forall is_byte (bytes s).
Proof. unfold bytes. apply Forall_map, Forall_true. intros c. apply byte_of_range. Qed.
Lemma hex_digit_printable z : 0 <= z < 16 -> 32 <= byte_of (hex_digit z).
Proof. intros Hz. unfold byte_of, hex_digit. destruct (z <? 10); rewrite N_ascii_embedding by lia; lia. Qed.
Lemma printable_check l : forallb (Z.leb 32) l = true -> printable l.
Proof. intros H. apply Forall_forall. intros b Hb. rewrite forallb_forall in H. apply list_elem_of_In in Hb. by apply Z.leb_le, H. Qed.
Lemma escape_byte_printable b : 0 <= b < 128 -> printable (escape_byte b).
Proof.
  intros Hb. unfold escape_byte. destruct ((b =? 92) || (b =? 34)) eqn:E1; [byte_tests; subst; by apply printable_check|].
  do 5 (match goal with |- printable (if ?t then _ else _) => destruct t; [by apply printable_check|] end). clear E1. destruct ((b <? 32) || (b =? 60) || (b =? 62) || (b =? 38)) eqn:E2.
  - apply Forall_app. split; [by apply printable_check|]. unfold hex2. pose proof (Z.mod_pos_bound b 16). pose proof (Z.div_pos b 16). pose proof (Z.div_lt_upper_bound b 16 16). repeat apply Forall_cons_2; [apply hex_digit_printable; lia..|by apply Forall_nil_2].
  - apply Forall_cons_2; [|by apply Forall_nil_2]. repeat (apply orb_false_iff in E2 as [E2 ?]). by apply Z.ltb_ge in E2.
Qed.
Lemma cont_high lo hi b : 128 <= lo -> cont lo hi b = true -> 128 <= b.
Proof. unfold cont. intros Hl [H1 H2]%andb_true_iff. apply Z.leb_le in H1. lia. Qed.
(** The bytes of a rune of two bytes or more are no ASCII. *)
Lemma rune_high b s : 128 <= b -> (1 < length (take (rune_width (b :: s)) (b :: s)))%nat -> Forall (Z.le 128) (take (rune_width (b :: s)) (b :: s)).
Proof.
  intros Hb. unfold rune_width. destruct s as [|b1 s]; [cbn; lia|].
  assert (forall lo hi x, 128 <= lo -> cont lo hi x = true -> 128 <= x) as Hc by (intros; by eapply cont_high).
  destruct (_ && _) eqn:E2; [intros _; apply andb_true_iff in E2 as [_ E2]; cbn; repeat apply Forall_cons_2; [lia|by eapply Hc in E2|by apply Forall_nil_2]|]. clear E2.
  destruct s as [|b2 s]; [cbn; lia|]. destruct (_ && _) eqn:E3.
  { intros _. apply andb_true_iff in E3 as [E3 E3']. apply andb_true_iff in E3 as [_ E3]. cbn. repeat apply Forall_cons_2; [lia|destruct (b =? 224); by eapply Hc in E3|by eapply Hc in E3'|by apply Forall_nil_2]. }
  clear E3. destruct s as [|b3 s]; [cbn; lia|]. destruct (_ && _) eqn:E4; [|cbn; lia].
  intros _. apply andb_true_iff in E4 as [E4 E4c]. apply andb_true_iff in E4 as [E4 E4b]. apply andb_true_iff in E4 as [_ E4].
  cbn. repeat apply Forall_cons_2; [lia|destruct (b =? 240); by eapply Hc in E4|by eapply Hc in E4b|by eapply Hc in E4c|by apply Forall_nil_2].
Qed.
Lemma escape_rune_printable b s : 128 <= b -> printable (escape_rune (take (rune_width (b :: s)) (b :: s))).
Proof.
  intros Hb. unfold escape_rune. destruct (_ <=? 1)%nat eqn:El; [by apply printable_check|]. case_bool_decide; [by apply printable_check|]. case_bool_decide; [by apply printable_check|].
  apply Nat.leb_gt in El. eapply Forall_impl; [by apply rune_high|]. cbn. lia.
Qed.
Lemma quote_printable fuel : forall s, Forall is_byte s -> printable (quote_loop fuel s).
Proof.
  induction fuel as [|fuel IH]; intros s Hs; [by apply Forall_nil_2|]. destruct s as [|b s]; [by apply Forall_nil_2|]. cbn [quote_loop]. pose proof Hs as Hs0. apply Forall_cons in Hs as [Hb Hs]. unfold is_byte in Hb.
  destruct (b <? 128) eqn:E; apply Forall_app; split.
  - apply escape_byte_printable. apply Z.ltb_lt in E. lia.
  - by apply IH.
  - apply escape_rune_printable. by apply Z.ltb_ge in E.
  - by apply IH, Forall_drop.
Qed.
Lemma Marshal_printable s : printable (Marshal s).
Proof. unfold Marshal. apply Forall_app. split; [by apply printable_check|]. apply Forall_app. split; [apply quote_printable, bytes_range|by apply printable_check]. Qed.

(** ** The reader *)

(** The text of one event: a single data line and the blank line that ends it. *)
Definition event_block (body : list Z) : list Z := bytes "data: " ++ body ++ [10; 10].
Lemma sse_frame_block ty out : printable out -> exists body, sse_frame ty out = event_block body /\ printable body.
Proof.
  intros Ho. eexists ([123; 34] ++ bytes "eventType" ++ [34] ++ bytes ":" ++ Marshal ty ++ bytes "," ++ [34] ++ bytes "payload" ++ [34] ++ bytes ":" ++ out ++ bytes "}"). split.
  - unfold sse_frame, event_block. change (bytes "data: {") with (bytes "data: " ++ [123]). by rewrite <- !app_assoc.
  - pose proof (Marshal_printable ty) as Hm. revert Hm. generalize (Marshal ty). intros l Hm. repeat (apply Forall_app; split); try (by apply printable_check); done.
Qed.
(** Messages taken from the source one after the other. *)
Inductive taken (src : Source) : list eventStreamMessage -> Source -> Prop :=
| taken_nil : taken src [] src
| taken_snoc ms s m s' : taken src ms s -> readEventStreamMessage s = (s', inl m) -> taken src (ms ++ [m]) s'.
Definition body_of (m : eventStreamMessage) : list Z := match Payload m with [] => bytes "{}" | l => l end.
Definition emitted (m : eventStreamMessage) : list Z := sse_frame (EventType m) (default [] (Compact (body_of m))).
Fixpoint read_all (sizes : list nat) (r : eventStreamSSEReader) : list Z * eventStreamSSEReader :=
  match sizes with
  | [] => ([], r)
  | n :: sizes => let '(r, res) := Read n r in let '(out, r) := read_all sizes r in (match res with inl l => l ++ out | inr _ => out end, r)
  end.

(** A refill ends the reader or leaves something to read, so one is enough. *)
Lemma fill_progress r : r_done (fill r) = true \/ r_pending (fill r) <> [].
Proof.
  unfold fill. destruct (r_done r) eqn:Ed; [by left|]. destruct (readEventStreamMessage (r_src r)) as [src [m|e]]; [|by destruct e; left].
  destruct (Compact _) as [out|]; [right|by left]. cbn. unfold sse_frame. intros E. apply app_eq_nil in E as [_ E]. done.
Qed.
Lemma read_fuel k n r : read_loop (2 + k) n r = Read n r.
Proof.
  unfold Read. cbn [read_loop Nat.add]. destruct (r_pending r) eqn:E0; [|done]. destruct (r_done r) eqn:E1; [done|].
  destruct (fill_progress r) as [H|H]; destruct (r_pending (fill r)) eqn:E2; try done; by rewrite H.
Qed.

(** What was read and is pending is what the taken messages emit. *)
Definition reader_inv (src : Source) (out : list Z) (r : eventStreamSSEReader) : Prop :=
  exists ms s, taken src ms s /\ (r_done r = false -> r_src r = s) /\ Forall (fun m => is_Some (Compact (body_of m))) ms /\ out ++ r_pending r = concat (map emitted ms).
Lemma fill_inv src out r : reader_inv src out r -> reader_inv src out (fill r).
Proof.
  intros (ms & s & Ht & Hs & Hv & Ho). unfold fill. destruct (r_done r) eqn:Ed; [exists ms, s; rewrite Ed; split; [exact Ht|split; [done|split; [exact Hv|exact Ho]]]|]. destruct (readEventStreamMessage (r_src r)) as [s' [m|e]] eqn:Er.
  - fold (body_of m). destruct (Compact (body_of m)) as [c|] eqn:Ec; [|exists ms, s; split; [exact Ht|split; [done|split; [exact Hv|exact Ho]]]]. exists (ms ++ [m]), s'. rewrite (Hs eq_refl) in Er. split_and!; [by eapply taken_snoc|done| |].
    + apply Forall_app. split; [done|]. apply Forall_cons_2; [by rewrite Ec|by apply Forall_nil_2].
    + rewrite map_app, concat_app, <- Ho, <- app_assoc. cbn [map concat]. rewrite app_nil_r. unfold emitted. rewrite Ec. reflexivity.
  - destruct e; exists ms, s; (split; [exact Ht|split; [done|split; [exact Hv|exact Ho]]]).
Qed.
Lemma read_inv fuel n src : forall out r, reader_inv src out r ->
  reader_inv src (out ++ match snd (read_loop fuel n r) with inl l => l | inr _ => [] end) (fst (read_loop fuel n r)).
Proof.
  induction fuel as [|fuel IH]; intros out r H; cbn [read_loop]; destruct (r_pending r) as [|b l] eqn:Ep.
  1, 3: destruct (r_done r) eqn:Ed; cbn [fst snd]; rewrite ?app_nil_r; try done; by apply IH, fill_inv.
  all: destruct H as (ms & s & Ht & Hs & Hv & Ho); exists ms, s; split_and!; [done|done|done|]; cbn [fst snd r_pending]; rewrite <- Ho, Ep, <- app_assoc; f_equal; apply take_drop.
Qed.

(** (C25) Whatever the source sends, the bytes handed out and pending are the blocks of
    the messages taken from it, in order, and every block is one event: a data
    line of printable bytes and a blank line. *)
Theorem one_event_per_message (src : Source) (sizes : list nat) :
  exists ms s, taken src ms s
    /\ fst (read_all sizes (newEventStreamSSEReader src)) ++ r_pending (snd (read_all sizes (newEventStreamSSEReader src))) = concat (map emitted ms)
    /\ Forall (fun m => is_Some (Compact (body_of m)) /\ exists body, emitted m = event_block body /\ printable body) ms.
Proof.
  assert (forall out r, reader_inv src out r -> reader_inv src (out ++ fst (read_all sizes r)) (snd (read_all sizes r))) as Hall.
  { induction sizes as [|n sizes IH]; intros out r H; cbn [read_all]; [cbn; by rewrite app_nil_r|]. pose proof (read_inv 2 n src out r H) as H1. unfold Read. destruct (read_loop 2 n r) as [r1 res]. cbn [fst snd] in H1.
    apply IH in H1. destruct (read_all sizes r1) as [out2 r2]. cbn [fst snd] in *. rewrite <- app_assoc in H1. destruct res; done. }
  destruct (Hall [] (newEventStreamSSEReader src)) as (ms & s & Ht & _ & Hv & Ho); [exists [], src; split_and!; [apply taken_nil|done|by apply Forall_nil_2|done]|].
  exists ms, s. split_and!; [done|exact Ho|]. eapply Forall_impl; [exact Hv|]. intros m [c Hc]. split; [by rewrite Hc|]. unfold emitted. rewrite Hc. apply sse_frame_block. by eapply Compact_printable.
Qed.

(** (C24) Reading the encoding of any frames within the limits takes back exactly their
    messages, in order, up to the end of the file. *)
Theorem frames_roundtrip (fs : list (list (string * HeaderValue) * list Z)) :
  Forall frame_ok fs ->
  taken (mkSource (concat (map encode_frame fs)) None) (map (fun f => message_of (headers_map (fst f) ∅) (snd f)) fs) (mkSource [] None)
  /\ readEventStreamMessage (mkSource [] None) = (mkSource [] None, inr EOF).
Proof.
  intros Hok. split; [|done]. assert (forall done rest src, Forall frame_ok rest ->
    taken src (map (fun f => message_of (headers_map (fst f) ∅) (snd f)) done) (mkSource (concat (map encode_frame rest)) None) ->
    taken src (map (fun f => message_of (headers_map (fst f) ∅) (snd f)) (done ++ rest)) (mkSource [] None)) as Hgo.
  { intros done rest. revert done. induction rest as [|f rest IH]; intros done src Hr Ht; [by rewrite app_nil_r|]. apply Forall_cons in Hr as [Hf Hr].
    replace (done ++ f :: rest) with ((done ++ [f]) ++ rest) by (by rewrite <- app_assoc). apply IH; [exact Hr|]. rewrite map_app. apply (taken_snoc _ _ _ _ _ Ht). apply frame_roundtrip. exact Hf. }
  apply (Hgo [] fs); [exact Hok|apply taken_nil].
Qed.

(** ** Samples *)

Definition sample_frame : list (string * HeaderValue) * list Z :=
  ([(":message-type", HString "event"); (":event-type", HString "messageStop"); ("n", HInt16 (-2)); ("seen", HBool true)], bytes "{ }").
Definition sample_data : list Z := Eval vm_compute in encode_frame sample_frame.
Lemma byte_check l : forallb (fun b => (0 <=? b) && (b <? 256)) l = true -> Forall is_byte l.
Proof. intros H. apply Forall_forall. intros b Hb. rewrite forallb_forall in H. apply list_elem_of_In in Hb. apply H, andb_true_iff in Hb as [H1 H2]. apply Z.leb_le in H1. apply Z.ltb_lt in H2. done. Qed.
Lemma sample_frame_ok : frame_ok sample_frame.
Proof.
  unfold frame_ok. split; [|split; [|split; [|split]]]; [|by apply byte_check|by apply byte_check|vm_compute; discriminate|vm_compute; discriminate].
  cbn [sample_frame fst]. repeat apply Forall_cons_2; try (by apply Forall_nil_2); (split; [cbn; lia|vm_compute; first [done|split; [discriminate|reflexivity]]]).
Qed.
Lemma frames_roundtrip_witness :
  taken (mkSource (concat (map encode_frame [sample_frame; sample_frame])) None)
    (map (fun f => message_of (headers_map (fst f) ∅) (snd f)) [sample_frame; sample_frame]) (mkSource [] None)
  /\ message_of (headers_map (fst sample_frame) ∅) (snd sample_frame) = mkMessage "messageStop" (bytes "{ }").
Proof.
  split; [|vm_compute; reflexivity]. apply (frames_roundtrip [sample_frame; sample_frame]). apply Forall_cons_2; [exact sample_frame_ok|apply Forall_cons_2; [exact sample_frame_ok|by apply Forall_nil_2]].
Defined.
Lemma corruption_detected_witness : exists s' err, readEventStreamMessage (mkSource (<[20%nat := 65]> sample_data) None) = (s', inr err).
Proof.
  apply (corruption_detected sample_data None (mkSource [] None) (mkMessage "messageStop" (bytes "{ }"))); [by apply byte_check|vm_compute; reflexivity|vm_compute; lia|split; lia|vm_compute; discriminate].
Defined.
Example sample_emitted : string_of_bytes (emitted (mkMessage "a<b" (bytes " [ 1 ] "))) = "data: {" +:+ String (ascii_of_nat 34) "eventType" +:+ String (ascii_of_nat 34) ":" +:+ string_of_bytes (Marshal "a<b") +:+ "," +:+ String (ascii_of_nat 34) "payload" +:+ String (ascii_of_nat 34) ":[1]}" +:+ string_of_bytes [10; 10].
Proof. vm_compute. reflexivity. Qed.
