(* ===== verification/Json.v ===== *)
(** * JSON documents

    What the gateway uses of [encoding/json]: documents as trees, the encoding of
    a tree ([json.Marshal]) and the decoding of a text into a tree
    ([json.Unmarshal] into [any]).  A number keeps its literal, so that decoding
    into an [int] and into a [float64] can both be expressed, and an object keeps
    its members in order with duplicates, since decoding into a struct visits them
    all.  Texts are first run through the scanner of [EventStream.v], as the
    library does, so the parser only has to be right on valid ones. *)

From Stdlib Require Import Ascii SpecFloat.
From S2P Require Import Prelude Hash Text EventStream.

Inductive Json :=
| JNull
| JBool (b : bool)
| JNumber (lit : string)
| JStr (s : string)
| JArr (l : list Json)
| JObj (l : list (string * Json))
| JRaw (text : string) (* a [json.RawMessage] *).
Definition JInt (z : Z) : Json := JNumber (Itoa z).

(** The member a lookup finds: the last one of that name. *)
Definition jfind (k : string) (l : list (string * Json)) : option Json :=
  fold_left (fun r kv => if String.eqb (fst kv) k then Some (snd kv) else r) l None.
Definition field (k : string) (j : Json) : Json := match j with JObj l => default JNull (jfind k l) | _ => JNull end.
Definition jstr (j : Json) : string := match j with JStr s => s | _ => "" end.

(** ** Encoding *)

Definition comma (l : list (list Z)) : list Z := match l with [] => [] | x :: l => x ++ concat (map (fun y => 44 :: y) l) end.
(** [<], [>], [&] and the line separators are escaped in an embedded text. *)
Fixpoint escape_html (s : list Z) : list Z :=
  match s with
  | [] => []
  | c :: s' =>
      let rest := escape_html s' in
      if (c =? 60) || (c =? 62) || (c =? 38) then bytes "\u00" ++ hex2 c ++ rest
      else match s' with
      | 128 :: d :: s'' => if (c =? 226) && ((d =? 168) || (d =? 169)) then bytes "\u202" ++ [byte_of (hex_digit (d mod 16))] ++ escape_html s'' else c :: rest
      | _ => c :: rest
      end
  end.
Definition raw_bytes (text : string) : list Z := escape_html (default [] (Compact (bytes text))).
Fixpoint marshal (j : Json) : list Z :=
  match j with
  | JNull => bytes "null"
  | JBool b => bytes (if b then "true" else "false")
  | JNumber lit => bytes lit
  | JStr s => Marshal s
  | JArr l => [91] ++ comma (map marshal l) ++ [93]
  | JObj l => [123] ++ comma (map (fun kv => Marshal (fst kv) ++ [58] ++ marshal (snd kv)) l) ++ [125]
  | JRaw text => raw_bytes text
  end.
(** A [map[string]any] is encoded with its keys in increasing order. *)
Fixpoint insert_key (k : string) (v : Json) (l : list (string * Json)) : list (string * Json) :=
  match l with
  | [] => [(k, v)]
  | kv :: l' => if String.ltb k (fst kv) then (k, v) :: l else kv :: insert_key k v l'
  end.
Fixpoint sort_keys (j : Json) : Json :=
  match j with
  | JArr l => JArr (map sort_keys l)
  | JObj l => JObj (fold_left (fun acc kv => insert_key (fst kv) (snd kv) acc) (map (fun kv => (fst kv, sort_keys (snd kv))) l) [])
  | j => j
  end.

(** ** Decoding *)

Definition valid (s : list Z) : bool := match Compact s with Some _ => true | None => false end.

Definition hex_val (c : Z) : Z := if c <? 58 then c - 48 else if c <? 71 then c - 55 else c - 87.
Definition getu4 (s : list Z) : option (Z * list Z) :=
  match s with
  | a :: b :: c :: d :: s => if forallb is_hex_byte [a; b; c; d] then Some (4096 * hex_val a + 256 * hex_val b + 16 * hex_val c + hex_val d, s) else None
  | _ => None
  end.
(** The rune of an escaped surrogate pair, [RuneError] where the halves do not fit. *)
Definition DecodeRune (r1 r2 : Z) : Z :=
  if cont 55296 56319 r1 && cont 56320 57343 r2 then (r1 - 55296) * 1024 + (r2 - 56320) + 65536 else RuneError.
Definition is_surrogate (r : Z) : bool := cont 55296 57343 r.
(** The content of a string up to its closing quote, unquoted, and what follows. *)
Fixpoint unquote (fuel : nat) (s : list Z) : option (list Z * list Z) :=
  match fuel with
  | O => None
  | S fuel =>
      let put l s := match unquote fuel s with Some (r, s) => Some (l ++ r, s) | None => None end in
      match s with
      | [] => None
      | 34 :: s => Some ([], s)
      | 92 :: c :: s =>
          if c =? 117 then
            match getu4 s with
            | None => None
            | Some (r, s) =>
                if is_surrogate r then
                  match s with
                  | 92 :: 117 :: s' =>
                      match getu4 s' with
                      | Some (r2, s') => if DecodeRune r r2 =? RuneError then put (encode_rune RuneError) s else put (encode_rune (DecodeRune r r2)) s'
                      | None => put (encode_rune RuneError) s
                      end
                  | _ => put (encode_rune RuneError) s
                  end
                else put (encode_rune r) s
            end
          else if c =? 98 then put [8] s else if c =? 102 then put [12] s else if c =? 110 then put [10] s
          else if c =? 114 then put [13] s else if c =? 116 then put [9] s
          else put [c] s
      | b :: s' =>
          if b <? 128 then put [b] s'
          else if (rune_width s <=? 1)%nat then put (encode_rune RuneError) s'
          else put (take (rune_width s) s) (drop (rune_width s) s)
      end
  end.
Definition is_number_byte (c : Z) : bool := is_digit_byte c || existsb (Z.eqb c) [43; 45; 46; 69; 101].
Fixpoint span (f : Z -> bool) (s : list Z) : list Z * list Z :=
  match s with c :: s' => if f c then let '(a, b) := span f s' in (c :: a, b) else ([], s) | [] => ([], []) end.
Definition skip_space (s : list Z) : list Z := snd (span isSpace s).

(** The value at the front of a valid text; every call consumes a byte or is
    followed by one that does. *)
Fixpoint parse_value (fuel : nat) (s : list Z) : option (Json * list Z) :=
  match fuel with
  | O => None
  | S fuel =>
      match skip_space s with
      | 34 :: s => match unquote (S (length s)) s with Some (r, s) => Some (JStr (string_of_bytes r), s) | None => None end
      | 123 :: s => match skip_space s with 125 :: s => Some (JObj [], s) | _ => match parse_members fuel s with Some (l, s) => Some (JObj l, s) | None => None end end
      | 91 :: s => match skip_space s with 93 :: s => Some (JArr [], s) | _ => match parse_elements fuel s with Some (l, s) => Some (JArr l, s) | None => None end end
      | 116 :: s => Some (JBool true, drop 3 s)
      | 102 :: s => Some (JBool false, drop 4 s)
      | 110 :: s => Some (JNull, drop 3 s)
      | s => let '(lit, s) := span is_number_byte s in Some (JNumber (string_of_bytes lit), s)
      end
  end
with parse_elements (fuel : nat) (s : list Z) : option (list Json * list Z) :=
  match fuel with
  | O => None
  | S fuel =>
      match parse_value fuel s with
      | None => None
      | Some (v, s) =>
          match skip_space s with
          | 44 :: s => match parse_elements fuel s with Some (l, s) => Some (v :: l, s) | None => None end
          | 93 :: s => Some ([v], s)
          | _ => None
          end
      end
  end
with parse_members (fuel : nat) (s : list Z) : option (list (string * Json) * list Z) :=
  match fuel with
  | O => None
  | S fuel =>
      match skip_space s with
      | 34 :: s =>
          match unquote (S (length s)) s with
          | None => None
          | Some (k, s) =>
              match skip_space s with
              | 58 :: s =>
                  match parse_value fuel s with
                  | None => None
                  | Some (v, s) =>
                      match skip_space s with
                      | 44 :: s => match parse_members fuel s with Some (l, s) => Some ((string_of_bytes k, v) :: l, s) | None => None end
                      | 125 :: s => Some ([(string_of_bytes k, v)], s)
                      | _ => None
                      end
                  end
              | _ => None
              end
          end
      | _ => None
      end
  end.
(** Twice the length: an element takes one round of its list and one of its value. *)
Definition Parse (s : list Z) : option Json :=
  if valid s then fst <$> parse_value (2 * length s + 2) s else None.

(** ** Numbers *)

(** The decimal [m] times [10 ^ e], rounded to the nearest float of a format; [None] is out of range. *)
Definition decimal_to (prec emax : Z) (sgn : bool) (m e : Z) : option spec_float :=
  let r :=
    match m with
    | Z.pos p =>
        if 0 <=? e then (if 400 <? e then S754_infinity sgn else binary_normalize prec emax (if sgn then - (m * 10 ^ e) else m * 10 ^ e) 0 sgn)
        else if 400 + Z.log2 m <? - e then S754_zero sgn
        else SFdiv prec emax (S754_finite sgn p 0) (S754_finite false (Z.to_pos (10 ^ (- e))) 0)
    | _ => S754_zero sgn
    end in
  if IsInf r then None else Some r.
Definition digits_val (l : list Z) : Z := fold_left (fun v c => 10 * v + (c - 48)) l 0.
(** The sign, the digits and the decimal exponent of a JSON number. *)
Definition number_parts (lit : string) : bool * Z * Z :=
  let s := bytes lit in
  let '(sgn, s) := match s with 45 :: s => (true, s) | _ => (false, s) end in
  let '(ip, s) := span is_digit_byte s in
  let '(fp, s) := match s with 46 :: s => span is_digit_byte s | _ => ([], s) end in
  let ex := match s with
    | c :: s => if (c =? 101) || (c =? 69) then match s with 45 :: s => - digits_val s | 43 :: s => digits_val s | _ => digits_val s end else 0
    | [] => 0
    end in
  (sgn, digits_val (ip ++ fp), ex - Z.of_nat (length fp)).
(** [strconv.ParseFloat] of a JSON literal, for [float64] and for [float32]. *)
Definition ParseFloat (lit : string) : option float64 := let '(sgn, m, e) := number_parts lit in decimal_to 53 1024 sgn m e.
Definition ParseFloat32 (lit : string) : option spec_float := let '(sgn, m, e) := number_parts lit in decimal_to 24 128 sgn m e.
(** [strconv.ParseInt] of a JSON literal. *)
Definition ParseInt (lit : string) : option Z :=
  let s := bytes lit in
  let '(sgn, s) := match s with 45 :: s => (true, s) | _ => (false, s) end in
  let '(ip, rest) := span is_digit_byte s in
  let v := if (sgn : bool) then - digits_val ip else digits_val ip in
  match ip, rest with
  | _ :: _, [] => if bool_decide (in_int64 v) then Some v else None
  | _, _ => None
  end.
(** Whether decoding into [any] reports an error: some number is out of range. *)
Fixpoint in_range (j : Json) : bool :=
  match j with
  | JNumber lit => match ParseFloat lit with Some _ => true | None => false end
  | JArr l => forallb in_range l
  | JObj l => forallb (fun kv => in_range (snd kv)) l
  | _ => true
  end.
(** [json.Unmarshal] into an [any]. *)
Definition UnmarshalAny (s : string) : option Json :=
  match Parse (bytes s) with Some j => if in_range j then Some j else None | None => None end.
(** [json.Unmarshal] into a [map[string]any]; [null] leaves the map nil. *)
Definition UnmarshalMap (s : string) : option (list (string * Json)) :=
  match UnmarshalAny s with Some (JObj l) => Some l | Some JNull => Some [] | _ => None end.

Definition q (s : string) : string := String (ascii_of_nat 34) (s +:+ String (ascii_of_nat 34) "").
Example parse_sample :
  Parse (bytes (" {" +:+ q "a" +:+ ":[1, -2.5e3 ,true,null]," +:+ q "b\u00e9\ud83d\ude00" +:+ ":{}} "))
  = Some (JObj [("a", JArr [JNumber "1"; JNumber "-2.5e3"; JBool true; JNull]); (string_of_bytes [98; 195; 169; 240; 159; 152; 128], JObj [])]).
Proof. vm_compute. reflexivity. Qed.
Example parse_bad : Parse (bytes "{} x") = None /\ Parse (bytes "01") = None /\ Parse (bytes "[1,]") = None.
Proof. vm_compute. auto. Qed.
Example float_samples :
  ParseFloat "0.1" = Some (fdiv (f_of_int 1) (f_of_int 10)) /\ ParseFloat "-2.5e3" = Some (f_of_int (-2500)) /\ ParseFloat "1e400" = None
  /\ ParseFloat "1e-400" = Some f_zero /\ ParseFloat "5e-324" = Some (S754_finite false 1 (-1074)) /\ ParseFloat "1.7976931348623157e308" = Some (S754_finite false 9007199254740991 971).
Proof. vm_compute. auto 10. Qed.
