(* ===== verification/SSE.v ===== *)
(** * Server-sent events ([src/internal/protocol/canonical/stream.go], lines 55 to 136)

    The reader that splits an upstream body into events, with the line scanner of
    [bufio] it stands on, and the frames the emitters write. *)

From Stdlib Require Import Ascii.
From S2P Require Import Prelude Hash Text EventStream Json.

(** ** Lines ([bufio.Scanner] with [ScanLines]) *)

Definition maxSSEEventBytes : Z := Z.shiftl 8 20.
(** The limit on a line [NewSSEReader] sets. *)
Definition maxLine : Z := Z.shiftl 16 20.
Definition ErrTooLong : string := "bufio.Scanner: token too long".

Definition drop_cr (l : list Z) : list Z := match rev l with 13 :: r => rev r | _ => l end.
(** The tokens of a body and whether a line was too long; [line] is the part of
    the current line read so far. *)
Fixpoint scan_lines (line : list Z) (s : list Z) : list string * bool :=
  let token := string_of_bytes (drop_cr line) in
  let long := (maxLine <=? Z.of_nat (length line)) in
  match s with
  | [] => match line with [] => ([], false) | _ => if long then ([], true) else ([token], false) end
  | c :: s => if c =? 10 then if long then ([], true) else let '(l, e) := scan_lines [] s in (token :: l, e) else scan_lines (line ++ [c]) s
  end.

(** ** The reader *)

(** A body: its bytes, and how it ends ([None]: the end of the file). *)
Record Body := mkBody { body_bytes : list Z; body_err : option string }.
Record SSEReader := mkSSE { s_lines : list string; s_scanErr : option string; s_done : bool; s_eventName : string; s_data : string }.
#[global] Instance eta_SSEReader : Eta SSEReader := fun r => mkSSE (s_lines r) (s_scanErr r) (s_done r) (s_eventName r) (s_data r).
Definition NewSSEReader (b : Body) : SSEReader :=
  let '(lines, long) := scan_lines [] (body_bytes b) in
  mkSSE lines (if long then Some ErrTooLong else body_err b) false "" "".

(** The four outcomes of [Next]: an event, a clean end, an error. *)
Inductive NextResult := NextEvent (name data : string) | NextDone | NextErr (err : string).
Definition limit_err : string := "sse event exceeds safe limit " +:+ Itoa maxSSEEventBytes +:+ " bytes".
(** After the last token.  A reader that gave up on an event does not ask the
    scanner again, so the scanner reports no error. *)
Definition next_end (sr : SSEReader) : SSEReader * NextResult :=
  let sr := sr <| s_done := true |> in
  match s_scanErr sr with
  | Some err => (sr, NextErr err)
  | None => if (0 <? String.length (s_data sr))%nat then (sr <| s_data := "" |>, NextEvent (s_eventName sr) (s_data sr)) else (sr, NextDone)
  end.
Definition lf : string := String (ascii_of_nat 10) "".
Fixpoint next_loop (lines : list string) (sr : SSEReader) : SSEReader * NextResult :=
  match lines with
  | [] => next_end (sr <| s_lines := [] |>)
  | line :: lines =>
      if String.eqb line "" then
        if (0 <? String.length (s_data sr))%nat then (sr <| s_lines := lines |> <| s_data := "" |> <| s_eventName := "" |>, NextEvent (s_eventName sr) (s_data sr))
        else next_loop lines (sr <| s_eventName := "" |>)
      else if HasPrefix line ":" then next_loop lines sr
      else if HasPrefix line "event:" then next_loop lines (sr <| s_eventName := TrimSpace (TrimPrefix line "event:") |>)
      else if HasPrefix line "data:" then
        let value := TrimPrefix (TrimPrefix line "data:") " " in
        let len := Z.of_nat (String.length (s_data sr)) in
        let extra := Z.of_nat (String.length value) + (if 0 <? len then 1 else 0) in
        if maxSSEEventBytes <? len + extra then (sr <| s_lines := lines |> <| s_scanErr := None |> <| s_done := true |> <| s_data := "" |>, NextErr limit_err)
        else next_loop lines (sr <| s_data := s_data sr +:+ (if 0 <? len then lf else "") +:+ value |>)
      else next_loop lines sr
  end.
Definition Next (sr : SSEReader) : SSEReader * NextResult := if s_done sr then next_end sr else next_loop (s_lines sr) sr.

(** ** Frames *)

(** What an emitter writes in one call: an event with an optional name and a
    document, or the marker that ends a chat stream. *)
Inductive Frame := EventFrame (name : string) (data : Json) | DoneFrame.
Definition frame_bytes (f : Frame) : list Z :=
  match f with
  | EventFrame name v =>
      (if String.eqb name "" then [] else bytes "event: " ++ bytes name ++ [10]) ++ bytes "data: " ++ marshal v ++ [10; 10]
  | DoneFrame => bytes "data: [DONE]" ++ [10; 10]
  end.
(** What a reader is to make of it. *)
Definition frame_event (f : Frame) : string * string :=
  match f with EventFrame name v => (name, string_of_bytes (marshal v)) | DoneFrame => ("", "[DONE]") end.

(** The connection to the client: the frames written, the calls of [Write], the
    first error, and what the [n]-th call of [Write] answers. *)
Record Conn := mkConn { c_out : list Frame; c_calls : nat; c_err : option string; c_link : nat -> option string }.
Definition write (f : Frame) (c : Conn) : Conn :=
  match c_err c with
  | Some _ => c
  | None =>
      match c_link c (c_calls c) with
      | None => mkConn (c_out c ++ [f]) (S (c_calls c)) None (c_link c)
      | Some err => mkConn (c_out c) (S (c_calls c)) (Some err) (c_link c)
      end
  end.

Definition read_events (fuel : nat) : SSEReader -> list (string * string) * option NextResult :=
  (fix go fuel sr := match fuel with
   | O => ([], None)
   | S fuel => match Next sr with
     | (sr, NextEvent n d) => let '(l, r) := go fuel sr in ((n, d) :: l, r)
     | (_, r) => ([], Some r)
     end
   end) fuel.
Example sse_sample :
  read_events 9 (NewSSEReader (mkBody (bytes "event: a " ++ [10] ++ bytes "data: x" ++ [13; 10] ++ bytes "data:y" ++ [10] ++ bytes ": c" ++ [10; 10; 10] ++ bytes "data: z") None))
  = ([("a", "x" +:+ lf +:+ "y"); ("", "z")], Some NextDone).
Proof. vm_compute. reflexivity. Qed.
