(* ===== verification/Emitters.v ===== *)
(** * Stream emitters ([src/internal/protocol/canonical/stream.go], [gemini_stream.go])

    The canonical stream events and the four encoders that turn them into the
    dialect of the client.  An emitter is a state machine over a connection that
    may fail at any write; after a failure nothing more is written.  Clock readings
    and the order in which a Go map is visited are arguments. *)

From Stdlib Require Import Ascii.
From S2P Require Import Prelude Hash Text EventStream Json SSE.

(** ** Events *)

Inductive StreamType := StreamStart | StreamText | StreamThinking | StreamToolStart | StreamToolDelta | StreamToolEnd | StreamUsage | StreamEnd | StreamError.
#[global] Instance StreamType_eq : EqDecision StreamType.
Proof. solve_decision. Defined.
Record Usage := mkUsage { InputTokens : Z; OutputTokens : Z; CacheReadTokens : Z; CacheWriteTokens : Z; ReasoningTokens : Z }.
#[global] Instance eta_Usage : Eta Usage := fun u => mkUsage (InputTokens u) (OutputTokens u) (CacheReadTokens u) (CacheWriteTokens u) (ReasoningTokens u).
#[global] Instance Usage_eq : EqDecision Usage.
Proof. solve_decision. Defined.
Definition no_usage : Usage := mkUsage 0 0 0 0 0.
Record StreamEvent := mkEvent {
  Type_ : StreamType; Text : string; ToolIndex : Z; ToolID : string; ToolName : string; ArgsDelta : string; StopReason : string;
  ev_Usage : option Usage; ErrorCode : string; ErrorMsg : string; ArgsFinal : bool }.
#[global] Instance eta_StreamEvent : Eta StreamEvent := fun e =>
  mkEvent (Type_ e) (Text e) (ToolIndex e) (ToolID e) (ToolName e) (ArgsDelta e) (StopReason e) (ev_Usage e) (ErrorCode e) (ErrorMsg e) (ArgsFinal e).
(** An event with only its type set. *)
Definition event (t : StreamType) : StreamEvent := mkEvent t "" 0 "" "" "" "" None "" "" false.

Definition StopEndTurn : string := "end_turn".
Definition StopMaxTokens : string := "max_tokens".
Definition StopToolUse : string := "tool_use".
Definition StopStopSequence : string := "stop_sequence".
Definition StopRefusal : string := "refusal".
Definition StopPauseTurn : string := "pause_turn".
Definition maxStreamTools : nat := 128.
Definition maxStreamToolIndex : Z := 4096.
Definition maxStreamToolName : Z := 1024.
Definition maxStreamArgsDelta : Z := Z.shiftl 1 20.
Definition slen (s : string) : Z := Z.of_nat (String.length s).

(** ** The interface *)

Record StreamEmitter (E : Type) := mkEmitter {
  em_conn : E -> Conn;
  em_Emit : E -> StreamEvent -> E * option string;
  em_Finish : E -> E * option string }.
Arguments mkEmitter {E}.
Arguments em_conn {E}.
Arguments em_Emit {E}.
Arguments em_Finish {E}.

(** ** Anthropic *)

Record anthropicEmitter := mkAnthropic {
  a_conn : Conn; a_model : string; a_messageID : string; a_blocks : gmap Z Z; a_nextIndex : Z; a_textOpen : bool; a_textIndex : Z;
  a_thinkOpen : bool; a_thinkIndex : Z; a_openBlocks : gmap Z bool; a_usage : Usage; a_usageSeen : bool; a_stopReason : string; a_finished : bool }.
#[global] Instance eta_anthropicEmitter : Eta anthropicEmitter := fun e =>
  mkAnthropic (a_conn e) (a_model e) (a_messageID e) (a_blocks e) (a_nextIndex e) (a_textOpen e) (a_textIndex e)
    (a_thinkOpen e) (a_thinkIndex e) (a_openBlocks e) (a_usage e) (a_usageSeen e) (a_stopReason e) (a_finished e).

Definition pad (s : string) (n : nat) : string :=
  let s := pad_left n s in if (n <? String.length s)%nat then str_drop (String.length s - n) s else s.
Definition hexDigits : string := "0123456789abcdef".
Definition is_hex_digit (c : ascii) : bool := existsb (Ascii.eqb c) (String.list_ascii_of_string hexDigits).
Definition uniqueMessageID (messageClock : Z) (requestID : string) : string :=
  let base := String.string_of_list_ascii (List.filter (fun c => negb (Ascii.eqb c "-"%char)) (String.list_ascii_of_string requestID)) in
  let base := if (16 <? String.length base)%nat then str_take 16 base else base in
  "msg_" +:+ pad (FormatHex messageClock) 12 +:+
  (if String.eqb base "" then "" else
   "_" +:+ String.string_of_list_ascii (map (fun c => if is_hex_digit c then c else hex_digit (byte_of c mod 16)) (String.list_ascii_of_string base))).

Definition a_frame (name : string) (v : Json) (e : anthropicEmitter) : anthropicEmitter := e <| a_conn := write (EventFrame name (sort_keys v)) (a_conn e) |>.
Definition block_start (index : Z) (block : Json) : Json := JObj [("type", JStr "content_block_start"); ("index", JInt index); ("content_block", block)].
Definition block_delta (index : Z) (delta : Json) : Json := JObj [("type", JStr "content_block_delta"); ("index", JInt index); ("delta", delta)].
Definition block_stop (index : Z) : Json := JObj [("type", JStr "content_block_stop"); ("index", JInt index)].
Definition openBlock (index : Z) (block : Json) (e : anthropicEmitter) : anthropicEmitter :=
  a_frame "content_block_start" (block_start index block) e <| a_openBlocks ::= <[index := true]> |>.
Definition closeBlock (index : Z) (e : anthropicEmitter) : anthropicEmitter :=
  if default false (a_openBlocks e !! index)
  then a_frame "content_block_stop" (block_stop index) e <| a_openBlocks ::= <[index := false]> |>
  else e.
Definition close_think (e : anthropicEmitter) : anthropicEmitter :=
  if a_thinkOpen e then closeBlock (a_thinkIndex e) e <| a_thinkOpen := false |> <| a_thinkIndex := -1 |> else e.
Definition close_text (e : anthropicEmitter) : anthropicEmitter :=
  if a_textOpen e then closeBlock (a_textIndex e) e <| a_textOpen := false |> <| a_textIndex := -1 |> else e.
Definition text_block : Json := JObj [("type", JStr "text"); ("text", JStr "")].
Definition thinking_block : Json := JObj [("type", JStr "thinking"); ("thinking", JStr "")].
Definition tool_block (id name : string) : Json := JObj [("type", JStr "tool_use"); ("id", JStr id); ("name", JStr name); ("input", JObj [])].
Definition message_start (e : anthropicEmitter) : Json :=
  JObj [("type", JStr "message_start");
        ("message", JObj [("id", JStr (a_messageID e)); ("type", JStr "message"); ("role", JStr "assistant"); ("content", JArr []);
                          ("model", JStr (a_model e)); ("stop_reason", JNull); ("stop_sequence", JNull);
                          ("usage", JObj [("input_tokens", JInt 0); ("output_tokens", JInt 0); ("cache_creation_input_tokens", JInt 0); ("cache_read_input_tokens", JInt 0)])])].
Definition NewAnthropicEmitter (messageClock : Z) (c : Conn) (model requestID : string) : anthropicEmitter :=
  let e := mkAnthropic c model (uniqueMessageID messageClock requestID) ∅ 0 false (-1) false (-1) ∅ no_usage false "" false in
  let e := a_frame "message_start" (message_start e) e in
  a_frame "ping" (JObj [("type", JStr "ping")]) e.

Definition mapErrorType (code : string) : string :=
  let code := ToLower code in
  if existsb (String.eqb code) ["overloaded_error"; "rate_limit_error"; "invalid_request_error"; "authentication_error"] then code else "api_error".
Definition keep_pos (new old : Z) : Z := if 0 <? new then new else old.
Definition a_tool_start (ev : StreamEvent) (e : anthropicEmitter) : anthropicEmitter :=
  let e := close_text (close_think e) in
  let idx := a_nextIndex e in
  let e := e <| a_nextIndex ::= Z.add 1 |> <| a_blocks ::= <[ToolIndex ev := idx]> |> in
  openBlock idx (tool_block (if String.eqb (ToolID ev) "" then "toolu_" +:+ Itoa idx else ToolID ev) (ToolName ev)) e.
Definition a_delta (index : Z) (delta : Json) (e : anthropicEmitter) : anthropicEmitter := a_frame "content_block_delta" (block_delta index delta) e.
Definition a_Emit (e : anthropicEmitter) (ev : StreamEvent) : anthropicEmitter * option string :=
  match c_err (a_conn e) with
  | Some err => (e, Some err)
  | None =>
      let e :=
        match Type_ ev with
        | StreamStart =>
            match ev_Usage ev with
            | Some u => e <| a_usage := (a_usage e) <| InputTokens := keep_pos (InputTokens u) (InputTokens (a_usage e)) |>
                                                   <| CacheReadTokens := keep_pos (CacheReadTokens u) (CacheReadTokens (a_usage e)) |>
                                                   <| CacheWriteTokens := keep_pos (CacheWriteTokens u) (CacheWriteTokens (a_usage e)) |> |>
                          <| a_usageSeen := a_usageSeen e || (0 <? InputTokens u) || (0 <? CacheReadTokens u) || (0 <? CacheWriteTokens u) |>
            | None => e
            end
        | StreamText =>
            let e := if a_textOpen e then e
                     else let e := close_think e in
                          let e := e <| a_textOpen := true |> <| a_textIndex := a_nextIndex e |> in
                          openBlock (a_textIndex e) text_block e <| a_nextIndex ::= Z.add 1 |> in
            a_delta (a_textIndex e) (JObj [("type", JStr "text_delta"); ("text", JStr (Text ev))]) e
        | StreamThinking =>
            let e := if a_thinkOpen e then e
                     else let e := close_text e in
                          let e := e <| a_thinkOpen := true |> <| a_thinkIndex := a_nextIndex e |> in
                          openBlock (a_thinkIndex e) thinking_block e <| a_nextIndex ::= Z.add 1 |> in
            a_delta (a_thinkIndex e) (JObj [("type", JStr "thinking_delta"); ("thinking", JStr (Text ev))]) e
        | StreamToolStart => a_tool_start ev e
        | StreamToolDelta =>
            (* a delta without a start opens the block; if that write fails the delta is not written either *)
            let e := match a_blocks e !! ToolIndex ev with Some _ => e | None => a_tool_start (event StreamToolStart <| ToolIndex := ToolIndex ev |> <| ToolName := ToolName ev |>) e end in
            a_delta (default 0 (a_blocks e !! ToolIndex ev)) (JObj [("type", JStr "input_json_delta"); ("partial_json", JStr (ArgsDelta ev))]) e
        | StreamToolEnd => match a_blocks e !! ToolIndex ev with Some idx => closeBlock idx e | None => e end
        | StreamUsage =>
            match ev_Usage ev with
            | Some u => e <| a_usage := (a_usage e) <| InputTokens := keep_pos (InputTokens u) (InputTokens (a_usage e)) |>
                                                   <| OutputTokens := keep_pos (OutputTokens u) (OutputTokens (a_usage e)) |>
                                                   <| CacheReadTokens := keep_pos (CacheReadTokens u) (CacheReadTokens (a_usage e)) |>
                                                   <| CacheWriteTokens := keep_pos (CacheWriteTokens u) (CacheWriteTokens (a_usage e)) |> |>
                          <| a_usageSeen := true |>
            | None => e
            end
        | StreamEnd => if String.eqb (StopReason ev) "" then e else e <| a_stopReason := StopReason ev |>
        | StreamError => a_frame "error" (JObj [("type", JStr "error"); ("error", JObj [("type", JStr (mapErrorType (ErrorCode ev))); ("message", JStr (ErrorMsg ev))])]) e
        end in
      (e, c_err (a_conn e))
  end.
Definition a_final (e : anthropicEmitter) : Json :=
  let u := a_usage e in
  JObj [("type", JStr "message_delta");
        ("delta", JObj [("stop_reason", JStr (if String.eqb (a_stopReason e) "" then StopEndTurn else a_stopReason e)); ("stop_sequence", JNull)]);
        ("usage", JObj ([("output_tokens", JInt (OutputTokens u))]
                        ++ (if a_usageSeen e || (0 <? InputTokens u) then [("input_tokens", JInt (InputTokens u))] else [])
                        ++ (if 0 <? CacheReadTokens u then [("cache_read_input_tokens", JInt (CacheReadTokens u))] else [])
                        ++ (if 0 <? CacheWriteTokens u then [("cache_creation_input_tokens", JInt (CacheWriteTokens u))] else [])))].
(** [range_] is the order in which the open blocks are visited. *)
Definition a_Finish (range_ : gmap Z bool -> list Z) (e : anthropicEmitter) : anthropicEmitter * option string :=
  if a_finished e || bool_decide (is_Some (c_err (a_conn e))) then (e, c_err (a_conn e))
  else
    let e := e <| a_finished := true |> in
    let e := close_text (close_think e) in
    let e := fold_left (fun e idx => closeBlock idx e) (range_ (a_openBlocks e)) e in
    let e := a_frame "message_delta" (a_final e) e in
    let e := a_frame "message_stop" (JObj [("type", JStr "message_stop")]) e in
    (e, c_err (a_conn e)).
Definition anthropic_emitter (range_ : gmap Z bool -> list Z) : StreamEmitter anthropicEmitter := mkEmitter a_conn a_Emit (a_Finish range_).

(** ** OpenAI chat completions *)

Record openAIEmitter := mkOpenAI {
  o_conn : Conn; o_model : string; o_id : string; o_created : Z; o_emittedAny : bool; o_finish : string; o_usage : option Usage; o_finished : bool }.
#[global] Instance eta_openAIEmitter : Eta openAIEmitter := fun e =>
  mkOpenAI (o_conn e) (o_model e) (o_id e) (o_created e) (o_emittedAny e) (o_finish e) (o_usage e) (o_finished e).
Definition NewOpenAIEmitter (messageClock timeNow : Z) (c : Conn) (model : string) : openAIEmitter :=
  mkOpenAI c model ("chatcmpl-" +:+ Itoa messageClock) timeNow false "" None false.
Definition o_chunk (payload : list (string * Json)) (e : openAIEmitter) : openAIEmitter :=
  e <| o_conn := write (EventFrame "" (sort_keys (JObj (payload ++ [("id", JStr (o_id e)); ("object", JStr "chat.completion.chunk"); ("created", JInt (o_created e)); ("model", JStr (o_model e))])))) (o_conn e) |>.
Definition choice (delta : list (string * Json)) (finish : Json) : list (string * Json) :=
  [("choices", JArr [JObj [("index", JInt 0); ("delta", JObj delta); ("finish_reason", finish)]])].
Definition o_role : list (string * Json) := choice [("role", JStr "assistant"); ("content", JStr "")] JNull.
Definition openAIFinish (stop : string) : string :=
  if String.eqb stop StopToolUse then "tool_calls" else if String.eqb stop StopMaxTokens then "length" else if String.eqb stop StopRefusal then "content_filter" else "stop".
Definition bad_index (ev : StreamEvent) : bool := (ToolIndex ev <? 0) || (maxStreamToolIndex <? ToolIndex ev).
Definition err_metadata : string := "stream tool metadata exceeds safe limit".
Definition err_delta : string := "stream tool delta exceeds safe limit".
Definition o_Emit (e : openAIEmitter) (ev : StreamEvent) : openAIEmitter * option string :=
  let ret e := (e, c_err (o_conn e)) in
  match c_err (o_conn e) with
  | Some err => (e, Some err)
  | None =>
      match Type_ ev with
      | StreamStart => ret (o_chunk o_role e)
      | StreamText => ret (o_chunk (choice [("content", JStr (Text ev))] JNull) (e <| o_emittedAny := true |>))
      | StreamThinking => ret (o_chunk (choice [("reasoning_content", JStr (Text ev))] JNull) e)
      | StreamToolStart =>
          if bad_index ev || (maxStreamToolName <? slen (ToolName ev)) then (e, Some err_metadata)
          else
            let id := if String.eqb (ToolID ev) "" then "call_" +:+ Itoa (ToolIndex ev) else ToolID ev in
            ret (o_chunk (choice [("tool_calls", JArr [JObj [("index", JInt (ToolIndex ev)); ("id", JStr id); ("type", JStr "function"); ("function", JObj [("name", JStr (ToolName ev)); ("arguments", JStr "")])]])] JNull)
                   (e <| o_emittedAny := true |>))
      | StreamToolDelta =>
          if bad_index ev || (maxStreamArgsDelta <? slen (ArgsDelta ev)) then (e, Some err_delta)
          else ret (o_chunk (choice [("tool_calls", JArr [JObj [("index", JInt (ToolIndex ev)); ("function", JObj [("arguments", JStr (ArgsDelta ev))])]])] JNull) (e <| o_emittedAny := true |>))
      | StreamToolEnd => ret e
      | StreamUsage => ret (e <| o_usage := ev_Usage ev |>)
      | StreamEnd => ret (e <| o_finish := openAIFinish (StopReason ev) |>)
      | StreamError => ret (o_chunk [("choices", JArr []); ("error", JObj [("message", JStr (ErrorMsg ev)); ("type", JStr (ErrorCode ev))])] e)
      end
  end.
Definition o_usage_json (u : Usage) : Json :=
  JObj [("prompt_tokens", JInt (InputTokens u)); ("completion_tokens", JInt (OutputTokens u)); ("total_tokens", JInt (int64 (InputTokens u + OutputTokens u)));
        ("prompt_tokens_details", JObj [("cached_tokens", JInt (CacheReadTokens u))]); ("completion_tokens_details", JObj [("reasoning_tokens", JInt (ReasoningTokens u))])].
Definition o_Finish (e : openAIEmitter) : openAIEmitter * option string :=
  if o_finished e || bool_decide (is_Some (c_err (o_conn e))) then (e, c_err (o_conn e))
  else
    let e := e <| o_finished := true |> in
    let e := if o_emittedAny e then e else o_chunk o_role e in
    let e := o_chunk (choice [] (JStr (o_finish e)) ++ match o_usage e with Some u => [("usage", o_usage_json u)] | None => [] end) e in
    let e := e <| o_conn := write DoneFrame (o_conn e) |> in
    (e, c_err (o_conn e)).
Definition openai_emitter : StreamEmitter openAIEmitter := mkEmitter o_conn o_Emit o_Finish.

(** ** OpenAI responses *)

Record responsesEmitter := mkResponses {
  p_conn : Conn; p_model : string; p_id : string; p_toolIdx : gmap Z string; p_toolOutIdx : gmap Z Z; p_toolName : gmap Z string; p_toolArgs : gmap Z string;
  p_nextOutIdx : Z; p_itemSeq : Z; p_usage : option Usage; p_stop : string; p_msgOpen : bool; p_msgDone : bool; p_msgText : string; p_finished : bool }.
#[global] Instance eta_responsesEmitter : Eta responsesEmitter := fun e =>
  mkResponses (p_conn e) (p_model e) (p_id e) (p_toolIdx e) (p_toolOutIdx e) (p_toolName e) (p_toolArgs e)
    (p_nextOutIdx e) (p_itemSeq e) (p_usage e) (p_stop e) (p_msgOpen e) (p_msgDone e) (p_msgText e) (p_finished e).
Definition p_event (name : string) (payload : list (string * Json)) (e : responsesEmitter) : responsesEmitter :=
  match c_err (p_conn e) with
  | Some _ => e
  | None => e <| p_itemSeq ::= Z.add 1 |> <| p_conn := write (EventFrame name (sort_keys (JObj (payload ++ [("sequence_number", JInt (p_itemSeq e))])))) (p_conn e) |>
  end.
Definition NewResponsesEmitter (messageClock timeNow : Z) (c : Conn) (model : string) : responsesEmitter :=
  let e := mkResponses c model ("resp_" +:+ Itoa messageClock) ∅ ∅ ∅ ∅ 1 0 None "" false false "" false in
  let resp := JObj [("id", JStr (p_id e)); ("object", JStr "response"); ("status", JStr "in_progress"); ("model", JStr model); ("output", JArr []); ("created_at", JInt timeNow)] in
  let e := p_event "response.created" [("type", JStr "response.created"); ("response", resp)] e in
  p_event "response.in_progress" [("type", JStr "response.in_progress"); ("response", resp)] e.

Definition observeUsage (u : option Usage) (e : responsesEmitter) : responsesEmitter :=
  match u with
  | None => e
  | Some u =>
      let old := default no_usage (p_usage e) in
      e <| p_usage := Some (old <| InputTokens := Z.max (InputTokens old) (InputTokens u) |> <| OutputTokens := Z.max (OutputTokens old) (OutputTokens u) |>
                                <| CacheReadTokens := Z.max (CacheReadTokens old) (CacheReadTokens u) |> <| ReasoningTokens := Z.max (ReasoningTokens old) (ReasoningTokens u) |>) |>
  end.
Definition output_text (text : string) : Json := JObj [("type", JStr "output_text"); ("text", JStr text); ("annotations", JArr [])].
Definition message_item (status : string) (content : list Json) : Json :=
  JObj [("id", JStr "msg_0"); ("type", JStr "message"); ("role", JStr "assistant"); ("status", JStr status); ("content", JArr content)].
Definition part_of_msg : list (string * Json) := [("item_id", JStr "msg_0"); ("output_index", JInt 0); ("content_index", JInt 0)].
Definition openMessage (e : responsesEmitter) : responsesEmitter :=
  if p_msgOpen e then e
  else
    let e := e <| p_msgOpen := true |> in
    let e := p_event "response.output_item.added" [("type", JStr "response.output_item.added"); ("output_index", JInt 0); ("item", message_item "in_progress" [])] e in
    p_event "response.content_part.added" ([("type", JStr "response.content_part.added")] ++ part_of_msg ++ [("part", output_text "")]) e.
Definition closeMessage (e : responsesEmitter) : responsesEmitter :=
  if negb (p_msgOpen e) || p_msgDone e then e
  else
    let e := e <| p_msgDone := true |> in
    let text := p_msgText e in
    let e := p_event "response.output_text.done" ([("type", JStr "response.output_text.done")] ++ part_of_msg ++ [("text", JStr text)]) e in
    let e := p_event "response.content_part.done" ([("type", JStr "response.content_part.done")] ++ part_of_msg ++ [("part", output_text text)]) e in
    p_event "response.output_item.done" [("type", JStr "response.output_item.done"); ("output_index", JInt 0); ("item", message_item "completed" [output_text text])] e.
Definition call_item (callID name args status : string) : Json :=
  JObj [("type", JStr "function_call"); ("id", JStr ("fc_" +:+ callID)); ("call_id", JStr callID); ("name", JStr name); ("arguments", JStr args); ("status", JStr status)].
Definition err_tool_count : string := "stream exceeds safe tool count " +:+ Itoa (Z.of_nat maxStreamTools).
Definition err_early_delta : string := "stream tool delta arrived before tool start".
Definition err_early_end : string := "stream tool end arrived before tool start".
Definition p_Emit (e : responsesEmitter) (ev : StreamEvent) : responsesEmitter * option string :=
  let ret e := (e, c_err (p_conn e)) in
  match c_err (p_conn e) with
  | Some err => (e, Some err)
  | None =>
      match Type_ ev with
      | StreamStart => ret (observeUsage (ev_Usage ev) e)
      | StreamText =>
          let e := openMessage e <| p_msgText ::= fun t => t +:+ Text ev |> in
          ret (p_event "response.output_text.delta" ([("type", JStr "response.output_text.delta")] ++ part_of_msg ++ [("delta", JStr (Text ev))]) e)
      | StreamThinking =>
          ret (p_event "response.reasoning_summary_text.delta"
                 [("type", JStr "response.reasoning_summary_text.delta"); ("item_id", JStr "rs_0"); ("output_index", JInt 0); ("summary_index", JInt 0); ("delta", JStr (Text ev))] e)
      | StreamToolStart =>
          if bad_index ev || (maxStreamToolName <? slen (ToolName ev)) then (e, Some err_metadata)
          else if negb (bool_decide (is_Some (p_toolIdx e !! ToolIndex ev))) && (maxStreamTools <=? size (p_toolIdx e))%nat then (e, Some err_tool_count)
          else
            let e := closeMessage e in
            let callID := if String.eqb (ToolID ev) "" then "call_" +:+ Itoa (ToolIndex ev) else ToolID ev in
            let outIdx := p_nextOutIdx e in
            let e := e <| p_nextOutIdx ::= Z.add 1 |> <| p_toolIdx ::= <[ToolIndex ev := callID]> |> <| p_toolOutIdx ::= <[ToolIndex ev := outIdx]> |>
                       <| p_toolName ::= <[ToolIndex ev := ToolName ev]> |> <| p_toolArgs ::= <[ToolIndex ev := ""]> |> in
            ret (p_event "response.output_item.added" [("type", JStr "response.output_item.added"); ("output_index", JInt outIdx); ("item", call_item callID (ToolName ev) "" "in_progress")] e)
      | StreamToolDelta =>
          if bad_index ev || (maxStreamArgsDelta <? slen (ArgsDelta ev)) then (e, Some err_delta)
          else match p_toolIdx e !! ToolIndex ev, p_toolOutIdx e !! ToolIndex ev with
          | Some callID, Some outIdx =>
              let e := e <| p_toolArgs ::= alter (fun b => b +:+ ArgsDelta ev) (ToolIndex ev) |> in
              ret (p_event "response.function_call_arguments.delta"
                     [("type", JStr "response.function_call_arguments.delta"); ("item_id", JStr ("fc_" +:+ callID)); ("output_index", JInt outIdx); ("delta", JStr (ArgsDelta ev))] e)
          | _, _ => (e, Some err_early_delta)
          end
      | StreamToolEnd =>
          match p_toolIdx e !! ToolIndex ev, p_toolOutIdx e !! ToolIndex ev with
          | Some callID, Some outIdx =>
              let name := default "" (p_toolName e !! ToolIndex ev) in
              let args := default "" (p_toolArgs e !! ToolIndex ev) in
              let e := p_event "response.function_call_arguments.done"
                         [("type", JStr "response.function_call_arguments.done"); ("item_id", JStr ("fc_" +:+ callID)); ("output_index", JInt outIdx); ("name", JStr name); ("arguments", JStr args)] e in
              ret (p_event "response.output_item.done" [("type", JStr "response.output_item.done"); ("output_index", JInt outIdx); ("item", call_item callID name args "completed")] e)
          | _, _ => (e, Some err_early_end)
          end
      | StreamUsage => ret (observeUsage (ev_Usage ev) e)
      | StreamEnd => ret (e <| p_stop := StopReason ev |>)
      | StreamError =>
          ret (p_event "response.failed" [("type", JStr "response.failed"); ("response", JObj [("id", JStr (p_id e)); ("status", JStr "failed"); ("error", JObj [("code", JStr (ErrorCode ev)); ("message", JStr (ErrorMsg ev))])])] e)
      end
  end.
Definition p_usage_json (u : Usage) : Json :=
  JObj [("input_tokens", JInt (InputTokens u)); ("output_tokens", JInt (OutputTokens u)); ("total_tokens", JInt (int64 (InputTokens u + OutputTokens u)));
        ("input_tokens_details", JObj [("cached_tokens", JInt (CacheReadTokens u))]); ("output_tokens_details", JObj [("reasoning_tokens", JInt (ReasoningTokens u))])].
Definition p_Finish (e : responsesEmitter) : responsesEmitter * option string :=
  if p_finished e || bool_decide (is_Some (c_err (p_conn e))) then (e, c_err (p_conn e))
  else
    let e := closeMessage (e <| p_finished := true |>) in
    let status := if String.eqb (p_stop e) StopMaxTokens || String.eqb (p_stop e) StopRefusal then "incomplete" else "completed" in
    let resp := JObj [("id", JStr (p_id e)); ("object", JStr "response"); ("status", JStr status); ("model", JStr (p_model e)); ("output", JArr []);
                      ("usage", p_usage_json (default no_usage (p_usage e)))] in
    let e := p_event "response.completed" [("type", JStr "response.completed"); ("response", resp)] e in
    (e, c_err (p_conn e)).
Definition responses_emitter : StreamEmitter responsesEmitter := mkEmitter p_conn p_Emit p_Finish.

(** ** Gemini *)

Record geminiEmitter := mkGemini {
  g_conn : Conn; g_model : string; g_finished : bool; g_stopReason : string; g_stopSeen : bool; g_usage : Usage; g_usageSeen : bool;
  g_toolArgs : gmap Z string; g_toolNames : gmap Z string }.
#[global] Instance eta_geminiEmitter : Eta geminiEmitter := fun e =>
  mkGemini (g_conn e) (g_model e) (g_finished e) (g_stopReason e) (g_stopSeen e) (g_usage e) (g_usageSeen e) (g_toolArgs e) (g_toolNames e).
Definition NewGeminiEmitter (c : Conn) (model : string) : geminiEmitter := mkGemini c model false "" false no_usage false ∅ ∅.
(** The documents are structs, so their members keep the order of the fields. *)
Definition g_chunk (v : Json) (e : geminiEmitter) : geminiEmitter := e <| g_conn := write (EventFrame "" v) (g_conn e) |>.
Definition candidateChunk (part : list (string * Json)) (e : geminiEmitter) : geminiEmitter :=
  g_chunk (JObj [("candidates", JArr [JObj [("content", JObj [("role", JStr "model"); ("parts", JArr [JObj part])])]])]) e.
Definition stopReasonToGeminiFinish (reason : string) : string :=
  if String.eqb reason StopMaxTokens then "MAX_TOKENS" else if String.eqb reason StopRefusal then "SAFETY" else "STOP".
Definition err_not_object : string := "stream tool arguments must be a JSON object".
Definition g_Emit (e : geminiEmitter) (ev : StreamEvent) : geminiEmitter * option string :=
  let ret e := (e, c_err (g_conn e)) in
  match c_err (g_conn e) with
  | Some err => (e, Some err)
  | None =>
      match Type_ ev with
      | StreamStart | StreamUsage => ret (match ev_Usage ev with Some u => e <| g_usage := u |> <| g_usageSeen := true |> | None => e end)
      | StreamText => ret (if String.eqb (Text ev) "" then e else candidateChunk [("text", JStr (Text ev))] e)
      | StreamThinking => ret (if String.eqb (Text ev) "" then e else candidateChunk [("text", JStr (Text ev)); ("thought", JBool true)] e)
      | StreamToolStart =>
          if bad_index ev || (maxStreamToolName <? slen (ToolName ev)) then (e, Some err_metadata)
          else if negb (bool_decide (is_Some (g_toolArgs e !! ToolIndex ev))) && (maxStreamTools <=? size (g_toolArgs e))%nat then (e, Some err_tool_count)
          else
            let e := match g_toolArgs e !! ToolIndex ev with Some _ => e | None => e <| g_toolArgs ::= <[ToolIndex ev := ""]> |> end in
            ret (if String.eqb (ToolName ev) "" then e else e <| g_toolNames ::= <[ToolIndex ev := ToolName ev]> |>)
      | StreamToolDelta =>
          match g_toolArgs e !! ToolIndex ev with
          | None => (e, Some err_early_delta)
          | Some b => ret (if ArgsFinal ev && (0 <? slen b) then e else e <| g_toolArgs ::= <[ToolIndex ev := b +:+ ArgsDelta ev]> |>)
          end
      | StreamToolEnd =>
          match g_toolArgs e !! ToolIndex ev with
          | None => (e, Some err_early_end)
          | Some b =>
              let name := default "" (g_toolNames e !! ToolIndex ev) in
              let args := TrimSpace b in
              let args := if String.eqb args "" then "{}" else args in
              match UnmarshalMap args with
              | None => (e, Some err_not_object)
              | Some _ =>
                  let e := candidateChunk [("functionCall", JObj [("name", JStr name); ("args", JRaw args)])] e in
                  ret (e <| g_toolArgs ::= delete (ToolIndex ev) |> <| g_toolNames ::= delete (ToolIndex ev) |>)
              end
          end
      | StreamEnd => ret (e <| g_stopReason := StopReason ev |> <| g_stopSeen := true |>)
      | StreamError => ret e
      end
  end.
Definition g_metadata (u : Usage) : Json :=
  JObj ([("promptTokenCount", JInt (InputTokens u)); ("candidatesTokenCount", JInt (OutputTokens u))]
        ++ (if CacheReadTokens u =? 0 then [] else [("cachedContentTokenCount", JInt (CacheReadTokens u))])
        ++ (if ReasoningTokens u =? 0 then [] else [("thoughtsTokenCount", JInt (ReasoningTokens u))])).
Definition g_Finish (e : geminiEmitter) : geminiEmitter * option string :=
  if g_finished e then (e, c_err (g_conn e))
  else
    let e := e <| g_finished := true |> in
    let reason := if negb (g_stopSeen e) || String.eqb (g_stopReason e) "" then StopEndTurn else g_stopReason e in
    let e := g_chunk (JObj ([("candidates", JArr [JObj [("content", JNull); ("finishReason", JStr (stopReasonToGeminiFinish reason))]])]
                            ++ (if g_usageSeen e && ((0 <? InputTokens (g_usage e)) || (0 <? OutputTokens (g_usage e))) then [("usageMetadata", g_metadata (g_usage e))] else []))) e in
    (e, c_err (g_conn e)).
Definition gemini_emitter : StreamEmitter geminiEmitter := mkEmitter g_conn g_Emit g_Finish.
