(* ===== verification/Decoders.v ===== *)
(** * Stream decoders ([src/internal/protocol/canonical])

    From one upstream event to canonical stream events, for the five upstream
    dialects: [DecodeOpenAIStreamChunk], [DecodeAnthropicStreamEvent] and
    [DecodeGeminiStreamChunk] of [stream.go], [DecodeBedrockStreamChunk] of
    [bedrock.go], [DecodeResponsesStreamEvent] of [openai_responses.go].

    [json.Unmarshal] into a struct is modelled by decoders that take the value so
    far and the text of a JSON value: a member that does not fit its field is
    reported but does not stop the others, names match exactly or else up to case,
    and a repeated member is decoded again on top. *)

From Stdlib Require Import Ascii.
From S2P Require Import Prelude Hash Text EventStream Json SSE Emitters.

(** ** Decoding into Go values *)

(** The value before, the text of a JSON value; the value after, and whether the
    text fitted. *)
Definition Dec (A : Type) : Type := A -> list Z -> A * bool.
Definition value_of (raw : list Z) : Json := match parse_value (2 * length raw + 2) raw with Some (j, _) => j | None => JNull end.
Definition rest_of (raw : list Z) : list Z := match parse_value (2 * length raw + 2) raw with Some (_, s) => s | None => [] end.

(** The texts of the members of an object and of the elements of an array. *)
Fixpoint members_loop (fuel : nat) (s : list Z) : list (string * list Z) :=
  match fuel with
  | O => []
  | S fuel =>
      match skip_space s with
      | 34 :: s =>
          match unquote (S (length s)) s with
          | Some (k, s) =>
              let v := skip_space (drop 1 (skip_space s)) in
              (string_of_bytes k, take (length v - length (rest_of v)) v) :: match skip_space (rest_of v) with 44 :: s => members_loop fuel s | _ => [] end
          | None => []
          end
      | _ => []
      end
  end.
Definition members (raw : list Z) : list (string * list Z) := members_loop (length raw) (drop 1 raw).
Fixpoint elements_loop (fuel : nat) (s : list Z) : list (list Z) :=
  match fuel with
  | O => []
  | S fuel =>
      match skip_space s with
      | [] | 93 :: _ => []
      | v => take (length v - length (rest_of v)) v :: match skip_space (rest_of v) with 44 :: s => elements_loop fuel s | _ => [] end
      end
  end.
Definition elements_ (raw : list Z) : list (list Z) := elements_loop (length raw) (drop 1 raw).

Definition d_string : Dec string := fun cur raw => match value_of raw with JStr s => (s, true) | JNull => (cur, true) | _ => (cur, false) end.
Definition d_bool : Dec bool := fun cur raw => match value_of raw with JBool b => (b, true) | JNull => (cur, true) | _ => (cur, false) end.
Definition d_int : Dec Z := fun cur raw =>
  match value_of raw with
  | JNumber lit => match ParseInt lit with Some z => (z, true) | None => (cur, false) end
  | JNull => (cur, true)
  | _ => (cur, false)
  end.
(** An [any]; [JNull] is the nil interface. *)
Definition d_any : Dec Json := fun _ raw => (value_of raw, in_range (value_of raw)).
(** A [map[string]any]. *)
Definition d_map : Dec (option (list (string * Json))) := fun cur raw =>
  match value_of raw with
  | JObj l => (Some (default [] cur ++ l), forallb (fun kv => in_range (snd kv)) l)
  | JNull => (None, true)
  | _ => (cur, false)
  end.
Definition d_raw : Dec (list Z) := fun _ raw => (raw, true).
Definition d_ptr {A} (zero : A) (d : Dec A) : Dec (option A) := fun cur raw =>
  match value_of raw with JNull => (None, true) | _ => let '(a, ok) := d (default zero cur) raw in (Some a, ok) end.
Fixpoint d_elements {A} (zero : A) (d : Dec A) (cur : list A) (l : list (list Z)) : list A * bool :=
  match l with
  | [] => ([], true)
  | raw :: l =>
      let '(a, ok) := d (match cur with a :: _ => a | [] => zero end) raw in
      let '(r, oks) := d_elements zero d (tail cur) l in
      (a :: r, ok && oks)
  end.
Definition d_slice {A} (zero : A) (d : Dec A) : Dec (list A) := fun cur raw =>
  match value_of raw with JNull => ([], true) | JArr _ => d_elements zero d cur (elements_ raw) | _ => (cur, false) end.

(** The folding of names: letters up to case, the long s and the Kelvin sign. *)
Definition fold_rune (r : Z) : Z := if cont 97 122 r then r - 32 else if r =? 383 then 83 else if r =? 8490 then 75 else r.
Definition foldName (s : string) : list Z := map fold_rune (runes (bytes s)).
Definition find_field {R} (fields : list (string * Dec R)) (key : string) : option (Dec R) :=
  match List.find (fun f => String.eqb (fst f) key) fields with
  | Some f => Some (snd f)
  | None => snd <$> List.find (fun f => bool_decide (foldName (fst f) = foldName key)) fields
  end.
Definition d_struct {R} (fields : list (string * Dec R)) : Dec R := fun cur raw =>
  match value_of raw with
  | JNull => (cur, true)
  | JObj _ =>
      fold_left (fun acc kv => match find_field fields (fst kv) with Some d => let '(r, ok) := d (fst acc) (snd kv) in (r, snd acc && ok) | None => acc end) (members raw) (cur, true)
  | _ => (cur, false)
  end.
(** The field [proj] of a struct. *)
Definition fld {R A} (proj : R -> A) {U : Updater proj} (d : Dec A) : Dec R := fun r raw => let '(a, ok) := d (proj r) raw in (r <| proj := a |>, ok).
(** A field nobody reads: only whether its value fits. *)
Definition unread {R A} (zero : A) (d : Dec A) : Dec R := fun r raw => (r, snd (d zero raw)).
Definition Unmarshal {A} (zero : A) (d : Dec A) (text : list Z) : A * bool := if valid text then d zero (skip_space text) else (zero, false).
Definition ok_or {A} (r : A * bool) : option A := if snd r then Some (fst r) else None.

(** ** Decoding results *)

(** The events, whether they end the stream, or an error. *)
Definition Decoded : Type := (list StreamEvent * bool) + string.
Definition MapStopReason (reason : string) : string :=
  let r := ToLower (TrimSpace reason) in
  if existsb (String.eqb r) ["tool_use"; "tool_calls"; "function_call"] then StopToolUse
  else if existsb (String.eqb r) ["max_tokens"; "length"] then StopMaxTokens
  else if existsb (String.eqb r) ["stop_sequence"; "stop"] then StopStopSequence
  else if existsb (String.eqb r) ["refusal"; "content_filter"] then StopRefusal
  else if String.eqb r "pause_turn" then StopPauseTurn
  else StopEndTurn.
Definition nonempty (s : string) : bool := negb (String.eqb s "").
Definition text_event (s : string) : list StreamEvent := if nonempty s then [event StreamText <| Text := s |>] else [].
Definition thinking_event (s : string) : list StreamEvent := if nonempty s then [event StreamThinking <| Text := s |>] else [].

Section Decoders.
(** What the JSON library says of a text it refuses. *)
Variable json_error : list Z -> string.
Definition refuse {A} (what : string) (text : list Z) : A + string := inr (what +:+ ": " +:+ json_error text).

(** ** OpenAI chat completions *)

Record coreToolCall := mkCall { tc_Index : Z; tc_ID : string; tc_Name : string; tc_Arguments : string }.
#[local] Instance eta_coreToolCall : Eta coreToolCall := fun r => mkCall (tc_Index r) (tc_ID r) (tc_Name r) (tc_Arguments r).
Definition d_toolcall : Dec coreToolCall :=
  d_struct [("index", fld tc_Index d_int); ("id", fld tc_ID d_string); ("type", unread "" d_string);
            ("function", d_struct [("name", fld tc_Name d_string); ("arguments", fld tc_Arguments d_string)])].
Record coreUsage := mkCoreUsage { cu_Prompt : Z; cu_Completion : Z; cu_Cached : option Z; cu_Reasoning : option Z }.
#[local] Instance eta_coreUsage : Eta coreUsage := fun r => mkCoreUsage (cu_Prompt r) (cu_Completion r) (cu_Cached r) (cu_Reasoning r).
Definition d_coreUsage : Dec coreUsage :=
  d_struct [("prompt_tokens", fld cu_Prompt d_int); ("completion_tokens", fld cu_Completion d_int); ("total_tokens", unread 0 d_int);
            ("prompt_tokens_details", fld cu_Cached (d_ptr 0 (d_struct [("cached_tokens", d_int)])));
            ("completion_tokens_details", fld cu_Reasoning (d_ptr 0 (d_struct [("reasoning_tokens", d_int)])))].
Record OChoice := mkChoice { oc_Content : Json; oc_ReasoningContent : string; oc_Reasoning : string; oc_ToolCalls : list coreToolCall; oc_FinishReason : option string }.
#[local] Instance eta_OChoice : Eta OChoice := fun r => mkChoice (oc_Content r) (oc_ReasoningContent r) (oc_Reasoning r) (oc_ToolCalls r) (oc_FinishReason r).
Definition zero_call : coreToolCall := mkCall 0 "" "" "".
Definition d_choice : Dec OChoice :=
  d_struct [("index", unread 0 d_int);
            ("delta", d_struct [("role", unread "" d_string); ("content", fld oc_Content d_any); ("reasoning_content", fld oc_ReasoningContent d_string);
                                ("reasoning", fld oc_Reasoning d_string); ("tool_calls", fld oc_ToolCalls (d_slice zero_call d_toolcall))]);
            ("finish_reason", fld oc_FinishReason (d_ptr "" d_string))].
Record OError := mkOError { oe_Code : Json; oe_Message : string; oe_Type : string }.
#[local] Instance eta_OError : Eta OError := fun r => mkOError (oe_Code r) (oe_Message r) (oe_Type r).
Record OChunk := mkChunk { ok_Choices : list OChoice; ok_Usage : option coreUsage; ok_Error : option OError }.
#[local] Instance eta_OChunk : Eta OChunk := fun r => mkChunk (ok_Choices r) (ok_Usage r) (ok_Error r).
Definition d_chunk : Dec OChunk :=
  d_struct [("choices", fld ok_Choices (d_slice (mkChoice JNull "" "" [] None) d_choice));
            ("usage", fld ok_Usage (d_ptr (mkCoreUsage 0 0 None None) d_coreUsage));
            ("error", fld ok_Error (d_ptr (mkOError JNull "" "") (d_struct [("code", fld oe_Code d_any); ("message", fld oe_Message d_string); ("type", fld oe_Type d_string)])))].

Definition content_events (content : Json) : list StreamEvent :=
  match content with
  | JStr v => text_event v
  | JArr l => flat_map (fun raw => let typ := jstr (field "type" raw) in if String.eqb typ "text" || String.eqb typ "output_text" then text_event (jstr (field "text" raw)) else []) l
  | _ => []
  end.
Definition call_events (tc : coreToolCall) : list StreamEvent :=
  (if nonempty (tc_ID tc) || nonempty (tc_Name tc) then [event StreamToolStart <| ToolIndex := tc_Index tc |> <| ToolID := tc_ID tc |> <| ToolName := tc_Name tc |>] else [])
  ++ (if nonempty (tc_Arguments tc) then [event StreamToolDelta <| ToolIndex := tc_Index tc |> <| ArgsDelta := tc_Arguments tc |>] else []).
Definition choice_events (ch : OChoice) : list StreamEvent :=
  content_events (oc_Content ch)
  ++ thinking_event (if nonempty (oc_ReasoningContent ch) then oc_ReasoningContent ch else oc_Reasoning ch)
  ++ flat_map call_events (oc_ToolCalls ch)
  ++ match oc_FinishReason ch with Some r => if nonempty r then [event StreamEnd <| StopReason := MapStopReason r |>] else [] | None => [] end.
Definition DecodeOpenAIStreamChunk (data : string) : Decoded :=
  let d := TrimSpace data in
  if String.eqb d "" then inl ([], false)
  else if String.eqb d "[DONE]" then inl ([], true)
  else match ok_or (Unmarshal (mkChunk [] None None) d_chunk (bytes d)) with
  | None => refuse "invalid OpenAI SSE chunk" (bytes d)
  | Some chunk =>
      match ok_Error chunk with
      | Some e =>
          let code := if nonempty (jstr (oe_Code e)) then jstr (oe_Code e) else oe_Type e in
          inl ([event StreamError <| ErrorCode := code |> <| ErrorMsg := oe_Message e |>], true)
      | None =>
          let usage := match ok_Usage chunk with
            | Some u => if (0 <? cu_Prompt u) || (0 <? cu_Completion u)
                        then [event StreamUsage <| ev_Usage := Some (mkUsage (cu_Prompt u) (cu_Completion u) (default 0 (cu_Cached u)) 0 (default 0 (cu_Reasoning u))) |>] else []
            | None => []
            end in
          inl (usage ++ flat_map choice_events (ok_Choices chunk), false)
      end
  end.

(** ** Anthropic messages *)

Record AUsage := mkAUsage { au_Input : Z; au_Output : Z; au_CacheRead : Z; au_CacheCreation : Z }.
#[local] Instance eta_AUsage : Eta AUsage := fun r => mkAUsage (au_Input r) (au_Output r) (au_CacheRead r) (au_CacheCreation r).
Definition no_ausage : AUsage := mkAUsage 0 0 0 0.
Definition d_ausage : Dec AUsage :=
  d_struct [("input_tokens", fld au_Input d_int); ("output_tokens", fld au_Output d_int); ("cache_read_input_tokens", fld au_CacheRead d_int); ("cache_creation_input_tokens", fld au_CacheCreation d_int)].
Record AEnvelope := mkAEnv { ae_Type : string; ae_Error : list Z }.
#[local] Instance eta_AEnvelope : Eta AEnvelope := fun r => mkAEnv (ae_Type r) (ae_Error r).
Record ABlock := mkABlock { ab_Index : Z; ab_Type : string; ab_ID : string; ab_Name : string; ab_Text : string; ab_Thinking : string }.
#[local] Instance eta_ABlock : Eta ABlock := fun r => mkABlock (ab_Index r) (ab_Type r) (ab_ID r) (ab_Name r) (ab_Text r) (ab_Thinking r).
Record ADelta := mkADelta { ad_Index : Z; ad_Type : string; ad_Text : string; ad_Thinking : string; ad_PartialJSON : string }.
#[local] Instance eta_ADelta : Eta ADelta := fun r => mkADelta (ad_Index r) (ad_Type r) (ad_Text r) (ad_Thinking r) (ad_PartialJSON r).
Record AMsgDelta := mkAMsg { am_Stop : string; am_Usage : AUsage }.
#[local] Instance eta_AMsgDelta : Eta AMsgDelta := fun r => mkAMsg (am_Stop r) (am_Usage r).

Definition DecodeAnthropicStreamEvent (eventName data : string) : list StreamEvent + string :=
  let d := TrimSpace data in
  if String.eqb d "" then inl []
  else match ok_or (Unmarshal (mkAEnv "" []) (d_struct [("type", fld ae_Type d_string); ("error", fld ae_Error d_raw)]) (bytes d)) with
  | None => refuse "invalid Anthropic SSE event" (bytes d)
  | Some env =>
      if negb (bool_decide (ae_Error env = [])) && negb (bool_decide (ae_Error env = bytes "null")) then
        let e := fst (Unmarshal ("", "") (d_struct [("type", fun r raw => let '(a, ok) := d_string (fst r) raw in ((a, snd r), ok)); ("message", fun r raw => let '(a, ok) := d_string (snd r) raw in ((fst r, a), ok))]) (ae_Error env)) in
        inl [event StreamError <| ErrorCode := fst e |> <| ErrorMsg := snd e |>]
      else if String.eqb (ae_Type env) "message_start" then
        let u := fst (Unmarshal no_ausage (d_struct [("message", d_struct [("usage", d_ausage)])]) (bytes d)) in
        let ev := event StreamStart in
        inl [if (0 <? au_Input u) || (0 <? au_CacheRead u) || (0 <? au_CacheCreation u)
             then ev <| ev_Usage := Some (mkUsage (au_Input u) 0 (au_CacheRead u) (au_CacheCreation u) 0) |> else ev]
      else if String.eqb (ae_Type env) "content_block_start" then
        match ok_or (Unmarshal (mkABlock 0 "" "" "" "" "")
          (d_struct [("index", fld ab_Index d_int); ("content_block", d_struct [("type", fld ab_Type d_string); ("id", fld ab_ID d_string); ("name", fld ab_Name d_string); ("text", fld ab_Text d_string); ("thinking", fld ab_Thinking d_string)])]) (bytes d)) with
        | None => refuse "invalid Anthropic content_block_start" (bytes d)
        | Some cb =>
            inl (if String.eqb (ab_Type cb) "text" then text_event (ab_Text cb)
                 else if String.eqb (ab_Type cb) "thinking" then thinking_event (ab_Thinking cb)
                 else if String.eqb (ab_Type cb) "tool_use" then [event StreamToolStart <| ToolIndex := ab_Index cb |> <| ToolID := ab_ID cb |> <| ToolName := ab_Name cb |>]
                 else [])
        end
      else if String.eqb (ae_Type env) "content_block_delta" then
        match ok_or (Unmarshal (mkADelta 0 "" "" "" "")
          (d_struct [("index", fld ad_Index d_int); ("delta", d_struct [("type", fld ad_Type d_string); ("text", fld ad_Text d_string); ("thinking", fld ad_Thinking d_string); ("partial_json", fld ad_PartialJSON d_string)])]) (bytes d)) with
        | None => refuse "invalid Anthropic content_block_delta" (bytes d)
        | Some dv =>
            inl (if String.eqb (ad_Type dv) "text_delta" then text_event (ad_Text dv)
                 else if String.eqb (ad_Type dv) "thinking_delta" then thinking_event (ad_Thinking dv)
                 else if String.eqb (ad_Type dv) "input_json_delta" then if nonempty (ad_PartialJSON dv) then [event StreamToolDelta <| ToolIndex := ad_Index dv |> <| ArgsDelta := ad_PartialJSON dv |>] else []
                 else [])
        end
      else if String.eqb (ae_Type env) "content_block_stop" then
        inl [event StreamToolEnd <| ToolIndex := fst (Unmarshal 0 (d_struct [("index", d_int)]) (bytes d)) |>]
      else if String.eqb (ae_Type env) "message_delta" then
        match ok_or (Unmarshal (mkAMsg "" no_ausage) (d_struct [("delta", d_struct [("stop_reason", fld am_Stop d_string)]); ("usage", fld am_Usage d_ausage)]) (bytes d)) with
        | None => refuse "invalid Anthropic message_delta" (bytes d)
        | Some md =>
            let u := am_Usage md in
            inl ((if (0 <? au_Output u) || (0 <? au_Input u) || (0 <? au_CacheRead u) || (0 <? au_CacheCreation u)
                  then [event StreamUsage <| ev_Usage := Some (mkUsage (au_Input u) (au_Output u) (au_CacheRead u) (au_CacheCreation u) 0) |>] else [])
                 ++ (if nonempty (am_Stop md) then [event StreamEnd <| StopReason := MapStopReason (am_Stop md) |>] else []))
        end
      else if String.eqb (ae_Type env) "message_stop" then inl [event StreamEnd <| StopReason := StopEndTurn |>]
      else if String.eqb (ae_Type env) "error" then inl [event StreamError <| ErrorMsg := "anthropic stream error event" |>]
      else inl []
  end.
(** ** Gemini *)

(** [strings.ToUpper] on ASCII letters. *)
Definition upper_ascii (c : ascii) : ascii := let n := nat_of_ascii c in if ((97 <=? n) && (n <=? 122))%nat then ascii_of_nat (n - 32) else c.
Definition ToUpper (s : string) : string := String.string_of_list_ascii (map upper_ascii (String.list_ascii_of_string s)).
Definition geminiFinishToStop (reason : string) : string :=
  let r := ToUpper (TrimSpace reason) in
  if String.eqb r "MAX_TOKENS" then StopMaxTokens
  else if existsb (String.eqb r) ["SAFETY"; "PROHIBITED_CONTENT"; "BLOCKLIST"; "SPII"] then StopRefusal
  else StopEndTurn.
Record GeminiCall := mkGCall { gc_Name : string; gc_Args : list Z }.
#[local] Instance eta_GeminiCall : Eta GeminiCall := fun r => mkGCall (gc_Name r) (gc_Args r).
Record GeminiPart := mkGPart { gp_Text : string; gp_FunctionCall : option GeminiCall; gp_FunctionCallV1 : option GeminiCall; gp_Thought : option bool }.
#[local] Instance eta_GeminiPart : Eta GeminiPart := fun r => mkGPart (gp_Text r) (gp_FunctionCall r) (gp_FunctionCallV1 r) (gp_Thought r).
Record GeminiCandidate := mkGCand { gd_Content : option (list GeminiPart); gd_FinishReason : string }.
#[local] Instance eta_GeminiCandidate : Eta GeminiCandidate := fun r => mkGCand (gd_Content r) (gd_FinishReason r).
Record GeminiResponse_ := mkGResp { gr_Candidates : list GeminiCandidate; gr_BlockReason : option string; gr_Usage : option Usage }.
#[local] Instance eta_GeminiResponse : Eta GeminiResponse_ := fun r => mkGResp (gr_Candidates r) (gr_BlockReason r) (gr_Usage r).
Definition d_gcall : Dec GeminiCall := d_struct [("name", fld gc_Name d_string); ("args", fld gc_Args d_raw)].
Definition d_gblob : Dec unit := d_struct [("mimeType", unread "" d_string); ("mime_type", unread "" d_string); ("data", unread "" d_string)].
Definition d_gresult : Dec unit := d_struct [("name", unread "" d_string); ("response", unread [] d_raw)].
Definition d_gpart : Dec GeminiPart :=
  d_struct [("text", fld gp_Text d_string); ("inlineData", unread None (d_ptr tt d_gblob)); ("inline_data", unread None (d_ptr tt d_gblob));
            ("functionCall", fld gp_FunctionCall (d_ptr (mkGCall "" []) d_gcall)); ("function_call", fld gp_FunctionCallV1 (d_ptr (mkGCall "" []) d_gcall));
            ("functionResponse", unread None (d_ptr tt d_gresult)); ("function_response", unread None (d_ptr tt d_gresult)); ("thought", fld gp_Thought (d_ptr false d_bool))].
Definition d_gresponse : Dec GeminiResponse_ :=
  d_struct [("candidates", fld gr_Candidates (d_slice (mkGCand None "")
              (d_struct [("content", fld gd_Content (d_ptr [] (d_struct [("role", unread "" d_string); ("parts", d_slice (mkGPart "" None None None) d_gpart)])));
                         ("finishReason", fld gd_FinishReason d_string)])));
            ("promptFeedback", fld gr_BlockReason (d_ptr "" (d_struct [("blockReason", d_string)])));
            ("usageMetadata", fld gr_Usage (d_ptr no_usage
              (d_struct [("promptTokenCount", fld InputTokens d_int); ("candidatesTokenCount", fld OutputTokens d_int); ("cachedContentTokenCount", fld CacheReadTokens d_int); ("thoughtsTokenCount", fld ReasoningTokens d_int)])))].
(** The events of a part, and whether it is a tool call. *)
Definition gcall_events (c : GeminiCall) : list StreamEvent :=
  let args := string_of_bytes (gc_Args c) in
  let args := if String.eqb (TrimSpace args) "" then "{}" else args in
  [event StreamToolStart <| ToolName := gc_Name c |>; event StreamToolDelta <| ArgsDelta := args |>; event StreamToolEnd].
Definition gpart_events (p : GeminiPart) : list StreamEvent * bool :=
  if nonempty (gp_Text p) then ((if default false (gp_Thought p) then thinking_event (gp_Text p) else text_event (gp_Text p)), false)
  else match gp_FunctionCall p, gp_FunctionCallV1 p with
  | Some c, _ | None, Some c => (gcall_events c, true)
  | None, None => ([], false)
  end.
Definition DecodeGeminiStreamChunk (data : string) : Decoded :=
  let d := TrimSpace data in
  if String.eqb d "" then inl ([], false)
  else match ok_or (Unmarshal (mkGResp [] None None) d_gresponse (bytes d)) with
  | None => refuse "invalid Gemini stream chunk" (bytes d)
  | Some in_ =>
      let blocked := nonempty (default "" (gr_BlockReason in_)) in
      let cand := match gr_Candidates in_ with c :: _ => Some c | [] => None end in
      let terminal := blocked || match cand with Some c => nonempty (TrimSpace (gd_FinishReason c)) | None => false end in
      let parts := match cand with Some c => map gpart_events (default [] (gd_Content c)) | None => [] end in
      let stop := match cand with
        | Some c => let stop := geminiFinishToStop (gd_FinishReason c) in if existsb snd parts && String.eqb stop StopEndTurn then StopToolUse else stop
        | None => if blocked then StopRefusal else StopEndTurn
        end in
      let usage := match gr_Usage in_ with
        | Some u => if (0 <? InputTokens u) || (0 <? OutputTokens u) then [event StreamUsage <| ev_Usage := Some u |>] else []
        | None => []
        end in
      inl (flat_map fst parts ++ usage ++ (if terminal then [event StreamEnd <| StopReason := stop |>] else []), terminal)
  end.

(** ** Bedrock *)

Definition bedrockStopToCanonical (stop : string) : string :=
  if String.eqb stop "stop_sequence" then StopStopSequence
  else if String.eqb stop "tool_use" then StopToolUse
  else if String.eqb stop "max_tokens" then StopMaxTokens
  else if String.eqb stop "content_filtered" || String.eqb stop "guardrail_intervened" then StopRefusal
  else StopEndTurn.
Record bedrockStreamEnvelope := mkBEnv { be_EventType : string; be_Payload : list Z }.
#[local] Instance eta_bedrockStreamEnvelope : Eta bedrockStreamEnvelope := fun r => mkBEnv (be_EventType r) (be_Payload r).
Record BStart := mkBStart { bs_Index : Z; bs_ToolUse : option (string * string) }.
#[local] Instance eta_BStart : Eta BStart := fun r => mkBStart (bs_Index r) (bs_ToolUse r).
Record BDelta := mkBDelta { bd_Index : Z; bd_Text : string; bd_ToolUse : option string }.
#[local] Instance eta_BDelta : Eta BDelta := fun r => mkBDelta (bd_Index r) (bd_Text r) (bd_ToolUse r).
Definition d_busage : Dec Usage :=
  d_struct [("usage", d_struct [("inputTokens", fld InputTokens d_int); ("outputTokens", fld OutputTokens d_int); ("cacheReadInputTokens", fld CacheReadTokens d_int); ("cacheWriteInputTokens", fld CacheWriteTokens d_int)])].
Definition d_btool : Dec (string * string) :=
  d_struct [("toolUseId", fun r raw => let '(a, ok) := d_string (fst r) raw in ((a, snd r), ok)); ("name", fun r raw => let '(a, ok) := d_string (snd r) raw in ((fst r, a), ok))].
Definition DecodeBedrockStreamChunk (data : string) : Decoded :=
  let d := TrimSpace data in
  if String.eqb d "" then inl ([], false)
  else match ok_or (Unmarshal (mkBEnv "" []) (d_struct [("eventType", fld be_EventType d_string); ("payload", fld be_Payload d_raw)]) (bytes d)) with
  | None => refuse "invalid Bedrock stream envelope" (bytes d)
  | Some env =>
      let ty := be_EventType env in
      let payload := be_Payload env in
      if String.eqb ty "messageStart" then inl ([event StreamStart], false)
      else if String.eqb ty "contentBlockStart" then
        match ok_or (Unmarshal (mkBStart 0 None) (d_struct [("contentBlockIndex", fld bs_Index d_int); ("start", d_struct [("toolUse", fld bs_ToolUse (d_ptr ("", "") d_btool))])]) payload) with
        | None => refuse "invalid Bedrock contentBlockStart" payload
        | Some p => inl (match bs_ToolUse p with Some (id, name) => [event StreamToolStart <| ToolIndex := bs_Index p |> <| ToolID := id |> <| ToolName := name |>] | None => [] end, false)
        end
      else if String.eqb ty "contentBlockDelta" then
        match ok_or (Unmarshal (mkBDelta 0 "" None)
          (d_struct [("contentBlockIndex", fld bd_Index d_int); ("delta", d_struct [("text", fld bd_Text d_string); ("toolUse", fld bd_ToolUse (d_ptr "" (d_struct [("input", d_string)])))])]) payload) with
        | None => refuse "invalid Bedrock contentBlockDelta" payload
        | Some p => inl (match bd_ToolUse p with Some input => [event StreamToolDelta <| ToolIndex := bd_Index p |> <| ArgsDelta := input |>] | None => text_event (bd_Text p) end, false)
        end
      else if String.eqb ty "contentBlockStop" then inl ([], false)
      else if String.eqb ty "messageStop" then
        match ok_or (Unmarshal "" (d_struct [("stopReason", d_string)]) payload) with
        | None => refuse "invalid Bedrock messageStop" payload
        | Some stop => inl ([event StreamEnd <| StopReason := bedrockStopToCanonical stop |>], true)
        end
      else if String.eqb ty "metadata" then
        match ok_or (Unmarshal no_usage d_busage payload) with
        | None => refuse "invalid Bedrock metadata event" payload
        | Some u => inl ([event StreamUsage <| ev_Usage := Some u |>], false)
        end
      else if HasSuffix ty "Exception" || HasSuffix ty "exception" then inl ([event StreamError <| ErrorCode := ty |> <| ErrorMsg := string_of_bytes payload |>], true)
      else inl ([], false)
  end.

(** ** OpenAI responses *)

Record ResponsesOutputItem := mkItem { ri_Type : string; ri_Name : string; ri_CallID : string; ri_Arguments : string }.
#[local] Instance eta_ResponsesOutputItem : Eta ResponsesOutputItem := fun r => mkItem (ri_Type r) (ri_Name r) (ri_CallID r) (ri_Arguments r).
Definition zero_item : ResponsesOutputItem := mkItem "" "" "" "".
Definition d_item : Dec ResponsesOutputItem :=
  d_struct [("type", fld ri_Type d_string); ("id", unread "" d_string); ("role", unread "" d_string); ("status", unread "" d_string);
            ("content", unread [] (d_slice None d_map)); ("summary", unread [] (d_slice None d_map));
            ("name", fld ri_Name d_string); ("call_id", fld ri_CallID d_string); ("arguments", fld ri_Arguments d_string)].
Record ResponsesUsage := mkRUsage { ru_Input : Z; ru_Output : Z; ru_Reasoning : option Z; ru_Cached : option Z }.
#[local] Instance eta_ResponsesUsage : Eta ResponsesUsage := fun r => mkRUsage (ru_Input r) (ru_Output r) (ru_Reasoning r) (ru_Cached r).
Definition d_rusage : Dec ResponsesUsage :=
  d_struct [("input_tokens", fld ru_Input d_int); ("output_tokens", fld ru_Output d_int); ("total_tokens", unread 0 d_int);
            ("output_tokens_details", fld ru_Reasoning (d_ptr 0 (d_struct [("reasoning_tokens", d_int)])));
            ("input_tokens_details", fld ru_Cached (d_ptr 0 (d_struct [("cached_tokens", d_int)])))].
Record ResponsesResponse := mkRResp { rr_Output : list ResponsesOutputItem; rr_Usage : option ResponsesUsage }.
#[local] Instance eta_ResponsesResponse : Eta ResponsesResponse := fun r => mkRResp (rr_Output r) (rr_Usage r).
Definition d_response : Dec ResponsesResponse :=
  d_struct [("id", unread "" d_string); ("model", unread "" d_string); ("status", unread "" d_string); ("output", fld rr_Output (d_slice zero_item d_item));
            ("usage", fld rr_Usage (d_ptr (mkRUsage 0 0 None None) d_rusage)); ("error", unread None d_map); ("incomplete_details", unread None d_map)].
Record RDelta := mkRDelta { rd_Index : Z; rd_Delta : string; rd_Name : string; rd_Arguments : string; rd_Item : ResponsesOutputItem }.
#[local] Instance eta_RDelta : Eta RDelta := fun r => mkRDelta (rd_Index r) (rd_Delta r) (rd_Name r) (rd_Arguments r) (rd_Item r).
Definition zero_rdelta : RDelta := mkRDelta 0 "" "" "" zero_item.
Definition rusage_events (u : option ResponsesUsage) : list StreamEvent :=
  match u with
  | Some u => [event StreamUsage <| ev_Usage := Some (mkUsage (ru_Input u) (ru_Output u) (default 0 (ru_Cached u)) 0 (default 0 (ru_Reasoning u))) |>]
  | None => []
  end.
Definition DecodeResponsesStreamEvent (eventName data : string) : Decoded :=
  let d := TrimSpace data in
  let b := bytes d in
  if String.eqb d "" then inl ([], false)
  else match ok_or (Unmarshal "" (d_struct [("type", d_string)]) b) with
  | None => refuse "invalid Responses SSE event" b
  | Some ty =>
      let typ := if String.eqb ty "" then eventName else ty in
      let delta := d_struct [("delta", fld rd_Delta d_string)] in
      let index := ("output_index", fld rd_Index d_int) in
      let item := d_struct [index; ("item", fld rd_Item d_item)] in
      let get d := ok_or (Unmarshal zero_rdelta d b) in
      let some l := inl (l, false) in
      if String.eqb typ "response.output_text.delta" then some match get delta with Some r => text_event (rd_Delta r) | None => [] end
      else if String.eqb typ "response.reasoning_summary_text.delta" || String.eqb typ "response.reasoning_text.delta" then some match get delta with Some r => thinking_event (rd_Delta r) | None => [] end
      else if String.eqb typ "response.output_item.added" then
        some match get item with
             | Some r => if String.eqb (ri_Type (rd_Item r)) "function_call"
                         then [event StreamToolStart <| ToolIndex := rd_Index r |> <| ToolID := ri_CallID (rd_Item r) |> <| ToolName := ri_Name (rd_Item r) |>] else []
             | None => []
             end
      else if String.eqb typ "response.function_call_arguments.delta" then
        some match get (d_struct [index; ("delta", fld rd_Delta d_string)]) with
             | Some r => if nonempty (rd_Delta r) then [event StreamToolDelta <| ToolIndex := rd_Index r |> <| ArgsDelta := rd_Delta r |>] else []
             | None => []
             end
      else if String.eqb typ "response.function_call_arguments.done" then
        some match get (d_struct [index; ("name", fld rd_Name d_string); ("arguments", fld rd_Arguments d_string)]) with
             | Some r => if nonempty (rd_Arguments r) then [event StreamToolDelta <| ToolIndex := rd_Index r |> <| ToolName := rd_Name r |> <| ArgsDelta := rd_Arguments r |> <| ArgsFinal := true |>] else []
             | None => []
             end
      else if String.eqb typ "response.output_item.done" then
        some match get item with
             | Some r =>
                 let i := rd_Item r in
                 if String.eqb (ri_Type i) "function_call" then
                   (if nonempty (ri_Arguments i) then [event StreamToolDelta <| ToolIndex := rd_Index r |> <| ToolID := ri_CallID i |> <| ToolName := ri_Name i |> <| ArgsDelta := ri_Arguments i |> <| ArgsFinal := true |>] else [])
                   ++ [event StreamToolEnd <| ToolIndex := rd_Index r |>]
                 else []
             | None => []
             end
      else if String.eqb typ "response.incomplete" then
        match ok_or (Unmarshal (mkRResp [] None) (d_struct [("response", d_response)]) b) with
        | None => refuse "invalid Responses incomplete event" b
        | Some r => inl (rusage_events (rr_Usage r) ++ [event StreamEnd <| StopReason := StopMaxTokens |>], true)
        end
      else if String.eqb typ "response.failed" || String.eqb typ "error" then
        let err := default [] (fst (Unmarshal None (d_struct [("response", d_struct [("error", d_map)])]) b)) in
        let str k zero := match jfind k err with Some (JStr s) => s | _ => zero end in
        inl ([event StreamError <| ErrorCode := str "code" "" |> <| ErrorMsg := str "message" "responses stream failed" |>], true)
      else if String.eqb typ "response.completed" || String.eqb typ "response.done" then
        match ok_or (Unmarshal (mkRResp [] None) (d_struct [("response", d_response)]) b) with
        | None => refuse "invalid Responses completed event" b
        | Some r =>
            let stop := if existsb (fun i => String.eqb (ri_Type i) "function_call") (rr_Output r) then StopToolUse else StopEndTurn in
            inl (rusage_events (rr_Usage r) ++ [event StreamEnd <| StopReason := stop |>], true)
        end
      else some []
  end.
End Decoders.

(** ** Samples *)

(** Single quotes stand for double quotes in the texts of samples. *)
Definition js (s : string) : string := String.string_of_list_ascii (map (fun c => if Ascii.eqb c "'"%char then ascii_of_nat 34 else c) (String.list_ascii_of_string s)).
Definition no_reason (_ : list Z) : string := "".
Example openai_sample :
  DecodeOpenAIStreamChunk no_reason (js "{'Choices':[{'delta':{'content':[{'type':'text','text':'hi'}],'tool_calls':[{'index':1,'id':'c','function':{'name':'f','arguments':'{'}}]},'finish_reason':'tool_calls'}],'usage':{'prompt_tokens':3}}")
  = inl ([event StreamUsage <| ev_Usage := Some (mkUsage 3 0 0 0 0) |>; event StreamText <| Text := "hi" |>;
          event StreamToolStart <| ToolIndex := 1 |> <| ToolID := "c" |> <| ToolName := "f" |>; event StreamToolDelta <| ToolIndex := 1 |> <| ArgsDelta := "{" |>;
          event StreamEnd <| StopReason := "tool_use" |>], false)
  /\ DecodeOpenAIStreamChunk no_reason (js "{'choices':'x'}") = inr "invalid OpenAI SSE chunk: ".
Proof. vm_compute. auto. Qed.
Example anthropic_sample :
  DecodeAnthropicStreamEvent no_reason "" (js "{'type':'content_block_start','index':2,'content_block':{'type':'tool_use','id':'t','name':'f','input':{}}}")
  = inl [event StreamToolStart <| ToolIndex := 2 |> <| ToolID := "t" |> <| ToolName := "f" |>]
  /\ DecodeAnthropicStreamEvent no_reason "" (js "{'type':'message_delta','delta':{'stop_reason':'end_turn'},'usage':{'output_tokens':7}}")
  = inl [event StreamUsage <| ev_Usage := Some (mkUsage 0 7 0 0 0) |>; event StreamEnd <| StopReason := "end_turn" |>]
  /\ DecodeAnthropicStreamEvent no_reason "" (js "{'type':'error','error':{'type':'overloaded_error','message':'m'}}")
  = inl [event StreamError <| ErrorCode := "overloaded_error" |> <| ErrorMsg := "m" |>].
Proof. vm_compute. auto. Qed.
Example gemini_sample :
  DecodeGeminiStreamChunk no_reason (js "{'candidates':[{'content':{'parts':[{'text':'a'},{'functionCall':{'name':'f','args':{'x': 1}}}]},'finishReason':'STOP'}],'usageMetadata':{'promptTokenCount':1}}")
  = inl ([event StreamText <| Text := "a" |>; event StreamToolStart <| ToolName := "f" |>; event StreamToolDelta <| ArgsDelta := js "{'x': 1}" |>; event StreamToolEnd;
          event StreamUsage <| ev_Usage := Some (mkUsage 1 0 0 0 0) |>; event StreamEnd <| StopReason := "tool_use" |>], true).
Proof. vm_compute. auto. Qed.
Example bedrock_sample :
  DecodeBedrockStreamChunk no_reason (js "{'eventType':'contentBlockDelta','payload':{'contentBlockIndex':1,'delta':{'toolUse':{'input':'{}'}}}}")
  = inl ([event StreamToolDelta <| ToolIndex := 1 |> <| ArgsDelta := "{}" |>], false)
  /\ DecodeBedrockStreamChunk no_reason (js "{'eventType':'throttlingException','payload':{'message':'slow'}}")
  = inl ([event StreamError <| ErrorCode := "throttlingException" |> <| ErrorMsg := js "{'message':'slow'}" |>], true).
Proof. vm_compute. auto. Qed.
Example responses_sample :
  DecodeResponsesStreamEvent no_reason "" (js "{'type':'response.output_item.done','output_index':1,'item':{'type':'function_call','call_id':'c','name':'f','arguments':'{}'}}")
  = inl ([event StreamToolDelta <| ToolIndex := 1 |> <| ToolID := "c" |> <| ToolName := "f" |> <| ArgsDelta := "{}" |> <| ArgsFinal := true |>; event StreamToolEnd <| ToolIndex := 1 |>], false)
  /\ DecodeResponsesStreamEvent no_reason "response.completed" (js "{'response':{'output':[{'type':'function_call'}],'usage':{'input_tokens':2,'input_tokens_details':{'cached_tokens':1}}}}")
  = inl ([event StreamUsage <| ev_Usage := Some (mkUsage 2 0 1 0 0) |>; event StreamEnd <| StopReason := "tool_use" |>], true).
Proof. vm_compute. auto. Qed.
