(* ===== verification/Validation.v ===== *)
(** * Validation of tool calls ([src/internal/protocol/canonical/validation.go])

    The arguments of a tool call are checked against the schema of the tool before
    the call is handed to a client. *)

From Stdlib Require Import Ascii.
From S2P Require Import Prelude Hash Text EventStream Json SSE Emitters Decoders.

Record ToolDef := mkToolDef { td_Name : string; td_Parameters : list Z }.
Record ToolCall := mkToolCall { call_ID : string; call_Name : string; call_Arguments : string }.
Record ValidationMeta := mkMeta { m_Stage : string; m_Protocol : string; m_Streaming : bool; m_Provider : string }.
Record ToolCallValidationError := mkVErr {
  v_Tool : string; v_Field : string; v_ExpectedType : string; v_ActualType : string; v_Stage : string; v_Protocol : string; v_Streaming : bool; v_Provider : string; v_Message : string }.
#[global] Instance eta_ToolCallValidationError : Eta ToolCallValidationError := fun e =>
  mkVErr (v_Tool e) (v_Field e) (v_ExpectedType e) (v_ActualType e) (v_Stage e) (v_Protocol e) (v_Streaming e) (v_Provider e) (v_Message e).
Definition Error (e : ToolCallValidationError) : string :=
  "tool=" +:+ v_Tool e +:+ " field=" +:+ v_Field e +:+ " expected=" +:+ v_ExpectedType e +:+ " actual=" +:+ v_ActualType e +:+ " stage=" +:+ v_Stage e
  +:+ " protocol=" +:+ v_Protocol e +:+ " streaming=" +:+ (if v_Streaming e then "true" else "false") +:+ " provider=" +:+ v_Provider e +:+ ": " +:+ v_Message e.
Definition verr (meta : ValidationMeta) (tool field expected actual message : string) : ToolCallValidationError :=
  mkVErr tool field expected actual (m_Stage meta) (m_Protocol meta) (m_Streaming meta) (m_Provider meta) message.

Record schema := mkSchema { sc_Properties : list (string * list (string * Json)); sc_Required : list string }.
#[global] Instance eta_schema : Eta schema := fun s => mkSchema (sc_Properties s) (sc_Required s).
(** A [map[string]map[string]any]: later members of a name replace earlier ones. *)
Definition d_properties : Dec (list (string * list (string * Json))) := fun cur raw =>
  match value_of raw with
  | JNull => ([], true)
  | JObj _ => fold_left (fun acc kv => let '(m, ok) := d_map None (snd kv) in ((List.filter (fun p => negb (String.eqb (fst p) (fst kv))) (fst acc)) ++ [(fst kv, default [] m)], snd acc && ok)) (members raw) (cur, true)
  | _ => (cur, false)
  end.
Definition d_schema : Dec schema := d_struct [("type", unread "" d_string); ("properties", fld sc_Properties d_properties); ("required", fld sc_Required (d_slice "" d_string))].

(** The name [%T] prints of a decoded value. *)
Definition type_name (j : Json) : string :=
  match j with JNull => "<nil>" | JBool _ => "bool" | JNumber _ => "float64" | JStr _ => "string" | JArr _ => "[]interface {}" | _ => "map[string]interface {}" end.

Section Validation.
(** The texts of the libraries ([json] errors and [%q]), the conversion of a float
    beyond 64 bits, and the order in which the properties are visited. *)
Variable json_error : list Z -> string.
Variable Quote : string -> string.
Variable wild : float64 -> Z.
Variable range_ : list (string * list (string * Json)) -> list (string * list (string * Json)).

Definition is_integer (f : float64) : bool := feq f (f_of_int (match f_trunc f with Some z => z | None => wild f end)).
Definition float_of (lit : string) : float64 := default f_zero (ParseFloat lit).
Definition jsonTypeOf (v : Json) : string :=
  match v with
  | JNull => "null"
  | JStr _ => "string"
  | JBool _ => "boolean"
  | JNumber lit => if is_integer (float_of lit) then "integer" else "number"
  | JArr _ => "array"
  | _ => "object"
  end.
Definition typeMatches (expected : string) (val : Json) : bool :=
  let expected := ToLower expected in
  if String.eqb expected "string" then match val with JStr _ => true | _ => false end
  else if String.eqb expected "integer" then match val with JNumber lit => is_integer (float_of lit) | _ => false end
  else if String.eqb expected "number" then match val with JNumber _ => true | _ => false end
  else if String.eqb expected "boolean" then match val with JBool _ => true | _ => false end
  else if String.eqb expected "array" then match val with JArr _ => true | _ => false end
  else if String.eqb expected "object" then match val with JObj _ => true | _ => false end
  else true.

Definition first_error {A} (f : A -> option ToolCallValidationError) (l : list A) : option ToolCallValidationError :=
  fold_right (fun x r => match f x with Some e => Some e | None => r end) None l.
(** One property of the schema against the arguments. *)
Definition check_property (meta : ValidationMeta) (tool : string) (args : list (string * Json)) (p : string * list (string * Json)) : option ToolCallValidationError :=
  match jfind (fst p) args, jfind "type" (snd p) with
  | Some val, Some (JStr expected) =>
      if Contains expected "null" && match val with JNull => true | _ => false end then None
      else if negb (typeMatches expected val) then
        Some (verr meta tool (fst p) expected (jsonTypeOf val) ("field " +:+ Quote (fst p) +:+ " expected " +:+ expected +:+ " got " +:+ jsonTypeOf val))
      else if String.eqb expected "string" && match val with JStr _ => false | _ => true end then
        Some (verr meta tool (fst p) "string" (jsonTypeOf val) ("parameter " +:+ Quote (fst p) +:+ " type is expected as string but provided as " +:+ jsonTypeOf val))
      else None
  | _, _ => None
  end.
Definition ValidateToolCallWithMeta (def : ToolDef) (call : ToolCall) (meta : ValidationMeta) : option ToolCallValidationError :=
  let tool := td_Name def in
  if String.eqb (TrimSpace (call_Arguments call)) "" then Some (verr meta tool "" "object" "empty" "arguments empty")
  else match UnmarshalMap (call_Arguments call) with
  | None => Some (verr meta tool "" "object" "invalid_json" ("invalid JSON: " +:+ json_error (bytes (call_Arguments call))))
  | Some args =>
      match UnmarshalAny (call_Arguments call) with
      | Some (JObj _) | None =>
          match td_Parameters def with
          | [] => None
          | params =>
              match ok_or (Unmarshal (mkSchema [] []) d_schema params) with
              | None => None
              | Some sc =>
                  match first_error (fun f => match jfind f args with Some _ => None | None => Some (verr meta tool f "required" "missing" ("required field " +:+ Quote f +:+ " missing")) end) (sc_Required sc) with
                  | Some e => Some e
                  | None => first_error (check_property meta tool args) (range_ (sc_Properties sc))
                  end
              end
          end
      | Some j => Some (verr meta tool "" "object" (type_name j) "top-level arguments must be an object")
      end
  end.
Definition ValidateToolCallArguments (schemaJSON : list Z) (args : string) (meta : ValidationMeta) : option ToolCallValidationError :=
  ValidateToolCallWithMeta (mkToolDef "unknown" schemaJSON) (mkToolCall "" "" args) meta.

Definition double_encoded (trimmed : string) : bool :=
  (2 <=? String.length trimmed)%nat && HasPrefix trimmed (js "'") && HasSuffix trimmed (js "'") &&
  match Parse (bytes trimmed) with
  | Some (JStr inner) =>
      let innerTrim := TrimSpace inner in
      HasPrefix innerTrim "{" && HasSuffix innerTrim "}" && match UnmarshalAny innerTrim with Some _ => true | None => false end
  | _ => false
  end.
Definition ValidateRawArguments (args : string) (meta : ValidationMeta) : option ToolCallValidationError :=
  let trimmed := TrimSpace args in
  if String.eqb trimmed "" then Some (verr meta (m_Provider meta) "" "object" "empty" "arguments empty")
  else if double_encoded trimmed then Some (verr meta "" "" "object" "double_encoded_string" "arguments appear double-encoded (JSON string containing JSON object)")
  else match UnmarshalAny trimmed with
  | None => Some (verr meta "" "" "object" "invalid_json" ("invalid JSON: " +:+ json_error (bytes trimmed)))
  | Some (JObj _) => None
  | Some j => Some (verr meta "" "" "object" (match j with JNull => "null" | j => type_name j end) "top-level arguments must be an object")
  end.

(** Without a schema: [command] and [file_path] must be strings, and two
    well-known tools need theirs. *)
Definition check_critical (meta : ValidationMeta) (name : string) (args : list (string * Json)) : option ToolCallValidationError :=
  let critical f := match jfind f args with
    | Some (JStr _) | None => None
    | Some v => Some (verr meta name f "string" (jsonTypeOf v) ("critical field " +:+ Quote f +:+ " expected string but got " +:+ jsonTypeOf v +:+ " (string->unknown bug class)"))
    end in
  let needs f := match jfind f args with Some _ => None | None => Some (verr meta name f "required" "missing" ("required field " +:+ js "'" +:+ f +:+ js "'" +:+ " missing for " +:+ name +:+ " tool")) end in
  match first_error critical ["command"; "file_path"] with
  | Some e => Some e
  | None => if String.eqb name "Bash" then needs "command" else if String.eqb name "Read" then needs "file_path" else None
  end.
Definition ValidateToolBlock (call : ToolCall) (toolDefs : list ToolDef) (meta : ValidationMeta) : option ToolCallValidationError :=
  let named old e := if String.eqb (v_Tool e) old then e <| v_Tool := call_Name call |> else e in
  match ValidateRawArguments (call_Arguments call) meta with
  | Some e => Some (named "" e)
  | None =>
      match List.find (fun td => String.eqb (td_Name td) (call_Name call)) (rev toolDefs) with
      | Some def => named "unknown" <$> ValidateToolCallArguments (td_Parameters def) (call_Arguments call) meta
      | None => match UnmarshalMap (call_Arguments call) with Some args => check_critical meta (call_Name call) args | None => None end
      end
  end.
(** Blocks that are not tool calls are [None]. *)
Definition ValidateResponseBlocks (blocks : list (option ToolCall)) (toolDefs : list ToolDef) (meta : ValidationMeta) : option ToolCallValidationError :=
  first_error (fun b => match b with Some call => ValidateToolBlock call toolDefs meta | None => None end) blocks.

(** ** What acceptance means *)

Lemma first_error_none {A} (f : A -> option ToolCallValidationError) l : first_error f l = None -> forall x, x ∈ l -> f x = None.
Proof.
  induction l as [|y l IH]; intros H x Hx; [by apply elem_of_nil in Hx|]. cbn in H. destruct (f y) eqn:Ey; [done|]. apply elem_of_cons in Hx as [->|Hx]; [done|by apply IH].
Qed.
Lemma check_property_none meta tool args p val expected : check_property meta tool args p = None -> jfind (fst p) args = Some val -> jfind "type" (snd p) = Some (JStr expected) ->
  typeMatches expected val = true \/ Contains expected "null" = true /\ val = JNull.
Proof.
  unfold check_property. intros H Hv E. rewrite Hv, E in H. destruct (Contains expected "null" && _) eqn:En.
  - apply andb_true_iff in En as [H1 H2]. right. split; [done|by destruct val].
  - left. destruct (typeMatches expected val); [done|]. cbn in H. discriminate H.
Qed.
(** Acceptance against a schema. *)
Lemma arguments_none params text meta sc : ValidateToolCallArguments params text meta = None -> params <> [] -> ok_or (Unmarshal (mkSchema [] []) d_schema params) = Some sc ->
  exists args, UnmarshalMap text = Some args /\ (forall f, f ∈ sc_Required sc -> is_Some (jfind f args))
    /\ first_error (check_property meta "unknown" args) (range_ (sc_Properties sc)) = None.
Proof.
  unfold ValidateToolCallArguments, ValidateToolCallWithMeta. cbn [call_Arguments td_Name td_Parameters]. intros H Hp Hs. destruct (String.eqb (TrimSpace text) ""); [discriminate H|]. destruct (UnmarshalMap text) as [args|]; [|discriminate H].
  exists args. split; [done|]. set (req := fun f => match jfind f args with Some _ => None | None => _ end) in H.
  assert (match first_error req (sc_Required sc) with Some e => Some e | None => first_error (check_property meta "unknown" args) (range_ (sc_Properties sc)) end = None) as H1.
  { destruct params as [|b l]; [done|]. rewrite Hs in H. destruct (UnmarshalAny text) as [[]|]; first [discriminate H|exact H]. }
  clear H. destruct (first_error req (sc_Required sc)) eqn:E1; [discriminate H1|]. split; [|exact H1].
  intros f Hf. pose proof (first_error_none _ _ E1 f Hf) as Hj. unfold req in Hj. destruct (jfind f args); [eauto|discriminate Hj].
Qed.
Lemma raw_none text meta : ValidateRawArguments text meta = None -> exists l, UnmarshalAny (TrimSpace text) = Some (JObj l).
Proof.
  unfold ValidateRawArguments. cbv zeta. destruct (String.eqb (TrimSpace text) ""); [discriminate|]. destruct (double_encoded (TrimSpace text)); [discriminate|].
  destruct (UnmarshalAny (TrimSpace text)) as [j|]; [|discriminate]. destruct j; try discriminate. eauto.
Qed.
Lemma block_none call toolDefs meta : ValidateToolBlock call toolDefs meta = None ->
  ValidateRawArguments (call_Arguments call) meta = None
  /\ forall def, List.find (fun td => String.eqb (td_Name td) (call_Name call)) (rev toolDefs) = Some def -> ValidateToolCallArguments (td_Parameters def) (call_Arguments call) meta = None.
Proof.
  unfold ValidateToolBlock. cbv zeta. generalize (ValidateRawArguments (call_Arguments call) meta). intros [e|]; [discriminate|]. intros H. split; [done|].
  intros def Hd. rewrite Hd in H. revert H. generalize (ValidateToolCallArguments (td_Parameters def) (call_Arguments call) meta). intros [e|]; [discriminate|done].
Qed.
(** The definition a call is checked against: the last one of its name. *)
Definition definition_of (toolDefs : list ToolDef) (name : string) : option ToolDef := List.find (fun td => String.eqb (td_Name td) name) (rev toolDefs).
(** An accepted call has a JSON object for arguments.  When the tool is declared with
    a schema the library can read, every required field is there and every declared
    field that is present has its declared type, whatever the order in which the
    properties are visited. *)
Theorem accepted_call_fits_schema (call : ToolCall) (toolDefs : list ToolDef) (meta : ValidationMeta) :
  (forall l, range_ l ≡ₚ l) -> ValidateToolBlock call toolDefs meta = None ->
  (exists l, UnmarshalAny (TrimSpace (call_Arguments call)) = Some (JObj l))
  /\ forall def sc, definition_of toolDefs (call_Name call) = Some def -> td_Parameters def <> [] -> ok_or (Unmarshal (mkSchema [] []) d_schema (td_Parameters def)) = Some sc ->
     exists args, UnmarshalMap (call_Arguments call) = Some args
       /\ (forall f, f ∈ sc_Required sc -> is_Some (jfind f args))
       /\ forall p val expected, p ∈ sc_Properties sc -> jfind (fst p) args = Some val -> jfind "type" (snd p) = Some (JStr expected) ->
          typeMatches expected val = true \/ Contains expected "null" = true /\ val = JNull.
Proof.
  intros Hr [Ev Ha]%block_none. split; [exact (raw_none _ _ Ev)|]. intros def sc Hd Hp Hs.
  destruct (arguments_none _ _ meta sc (Ha def Hd) Hp Hs) as (args & H1 & H2 & H3). exists args. split; [exact H1|]. split; [exact H2|].
  intros p val expected Hin. apply (check_property_none meta "unknown"). apply (first_error_none _ _ H3). by rewrite (Hr (sc_Properties sc)).
Qed.
End Validation.

Example validation_samples :
  let check args := v_Message <$> ValidateToolBlock no_reason (fun s => s) (fun _ => 0) (fun l => l) (mkToolCall "" "f" (js args))
    [mkToolDef "f" (bytes (js "{'type':'object','properties':{'n':{'type':'integer'},'s':{'type':'string'}},'required':['n']}"))] (mkMeta "" "" true "p") in
  check "{'n':3,'s':'x','y':[]}" = None /\ check "{'n':3.0}" = None /\ check "{'n':3.5}" = Some "field n expected integer got number"
  /\ check "{'s':'x'}" = Some "required field n missing" /\ check "{'n':1,'s':{}}" = Some "field s expected string got object"
  /\ check " " = Some "arguments empty" /\ check "[]" = Some "top-level arguments must be an object" /\ check "{" = Some "invalid JSON: "
  /\ check "'{\'n\':1}'" = Some "arguments appear double-encoded (JSON string containing JSON object)".
Proof. vm_compute. auto 20. Qed.

Lemma accepted_call_fits_schema_witness :
  let params := bytes (js "{'properties':{'n':{'type':'integer'}},'required':['n']}") in
  exists args, UnmarshalMap (js "{'n':3}") = Some args /\ is_Some (jfind "n" args).
Proof.
  cbv zeta. destruct (accepted_call_fits_schema no_reason (fun s => s) (fun _ => 0) (fun l => l) (mkToolCall "" "f" (js "{'n':3}"))
    [mkToolDef "f" (bytes (js "{'properties':{'n':{'type':'integer'}},'required':['n']}"))] (mkMeta "" "" true "p")) as [_ H]; [done|vm_compute; reflexivity|].
  destruct (H _ (mkSchema [("n", [("type", JStr "integer")])] ["n"]) eq_refl) as (args & Ha & Hr & _); [discriminate|vm_compute; reflexivity|].
  exists args. split; [exact Ha|]. apply Hr. apply list_elem_of_In. by left.
Defined.
