(* ===== verification/Pump.v ===== *)
(** * The stream pump ([src/internal/httpapi/canonical_path.go])

    [canonicalStreamPump] reads the events of an upstream body, decodes them,
    holds back tool calls until their arguments are complete and valid, and hands
    the rest to the emitter of the client's dialect. *)

From Stdlib Require Import Ascii.
From S2P Require Import Prelude Hash Text EventStream Json SSE Emitters Decoders Validation.

(** What the pump uses of libraries and of its caller. *)
Record PumpEnv := mkPumpEnv {
  pe_json_error : list Z -> string; pe_Quote : string -> string; pe_wild : float64 -> Z;
  pe_range : list (string * list (string * Json)) -> list (string * list (string * Json));
  (** whether the writer can say if it is committed, as the handlers' writer can, and whether it already is *)
  pe_failoverAware : bool; pe_committed : bool;
  pe_kind : string; pe_toolDefs : list ToolDef; pe_usageHook : bool }.

Record PumpState (E : Type) := mkPump {
  q_emitter : option E; q_terminal : bool; q_streamErr : option string;
  q_inputTokens : Z; q_outputTokens : Z; q_cacheReadTokens : Z; q_cacheWriteTokens : Z; q_usageSeen : bool;
  q_toolBlocks : gset Z; q_assembledArgs : gmap Z string; q_toolNames : gmap Z string; q_pendingToolStarts : gmap Z StreamEvent; q_pendingToolOrder : list Z }.
Arguments mkPump {E}.
Arguments q_emitter {E}. Arguments q_terminal {E}. Arguments q_streamErr {E}.
Arguments q_inputTokens {E}. Arguments q_outputTokens {E}. Arguments q_cacheReadTokens {E}. Arguments q_cacheWriteTokens {E}. Arguments q_usageSeen {E}.
Arguments q_toolBlocks {E}. Arguments q_assembledArgs {E}. Arguments q_toolNames {E}. Arguments q_pendingToolStarts {E}. Arguments q_pendingToolOrder {E}.
#[global] Instance eta_PumpState {E} : Eta (PumpState E) := fun q =>
  mkPump (q_emitter q) (q_terminal q) (q_streamErr q) (q_inputTokens q) (q_outputTokens q) (q_cacheReadTokens q) (q_cacheWriteTokens q) (q_usageSeen q)
    (q_toolBlocks q) (q_assembledArgs q) (q_toolNames q) (q_pendingToolStarts q) (q_pendingToolOrder q).
Definition pump_init {E} : PumpState E := mkPump None false None 0 0 0 0 false ∅ ∅ ∅ ∅ [].

(** The decoder of the upstream dialect; whether the chunk itself ends the stream
    is only looked at for three of them. *)
Definition decode (env : PumpEnv) (name data : string) : Decoded :=
  let err := pe_json_error env in
  if String.eqb (pe_kind env) "anthropic" then match DecodeAnthropicStreamEvent err name data with inl evs => inl (evs, false) | inr e => inr e end
  else if String.eqb (pe_kind env) "gemini" then match DecodeGeminiStreamChunk err data with inl (evs, _) => inl (evs, false) | inr e => inr e end
  else if String.eqb (pe_kind env) "bedrock" then DecodeBedrockStreamChunk err data
  else if String.eqb (pe_kind env) "openai_responses" then DecodeResponsesStreamEvent err name data
  else DecodeOpenAIStreamChunk err data.
Definition validateTool (env : PumpEnv) (args name : string) : option ToolCallValidationError :=
  ValidateResponseBlocks (pe_json_error env) (pe_Quote env) (pe_wild env) (pe_range env) [Some (mkToolCall "" name args)] (pe_toolDefs env)
    (mkMeta (pe_kind env +:+ "_to_canonical") (pe_kind env) true (pe_kind env)).
Definition is_tool (t : StreamType) : bool := match t with StreamToolStart | StreamToolDelta | StreamToolEnd => true | _ => false end.
Definition max_args : Z := Z.shiftl 1 20.

Section Pump.
Context {E : Type} (em : StreamEmitter E) (new : E) (env : PumpEnv).
Implicit Types q : PumpState E.

Definition ensureEmitter q : PumpState E * E := match q_emitter q with Some e => (q, e) | None => (q <| q_emitter := Some new |>, new) end.
(** [Emit] on the emitter, made on first use. *)
Definition emit q (ev : StreamEvent) : PumpState E * option string :=
  let '(q, e) := ensureEmitter q in
  let '(e, err) := em_Emit em e ev in
  (q <| q_emitter := Some e |>, err).
Definition committed q : bool := match q_emitter q with Some e => (0 <? c_calls (em_conn em e))%nat | None => false end || pe_committed env.
Definition emitTerminalError q (ev : StreamEvent) : PumpState E :=
  if bool_decide (is_Some (q_emitter q)) && committed q then fst (emit q ev)
  else if pe_failoverAware env then q else fst (emit q ev).
(** [streamErr = err] with the terminal frame. *)
Definition fail q (code msg err : string) : PumpState E :=
  emitTerminalError q (event StreamError <| ErrorCode := code |> <| ErrorMsg := msg |>) <| q_streamErr := Some err |>.

Definition ensurePendingTool q (ev : StreamEvent) : PumpState E :=
  let i := ToolIndex ev in
  let q := match q_pendingToolStarts q !! i with
    | Some _ => q
    | None => q <| q_pendingToolStarts ::= <[i := event StreamToolStart <| ToolIndex := i |> <| ToolID := ToolID ev |> <| ToolName := ToolName ev |>]> |>
                <| q_pendingToolOrder ::= fun l => l ++ [i] |>
    end in
  let q := match q_assembledArgs q !! i with Some _ => q | None => q <| q_assembledArgs ::= <[i := ""]> |> end in
  if nonempty (ToolName ev) then q <| q_toolNames ::= <[i := ToolName ev]> |> else q.
Definition args_of q (i : Z) : string := default "" (q_assembledArgs q !! i).
Definition name_of q (i : Z) : string := default "" (q_toolNames q !! i).
Definition emitValidatedTool q (i : Z) : PumpState E * option string :=
  match q_pendingToolStarts q !! i with
  | None => (q, None)
  | Some start =>
      let name := name_of q i in
      let args := args_of q i in
      let '(q, err) := emit q (start <| ToolName := name |>) in
      match err with
      | Some _ => (q, err)
      | None =>
          let '(q, err) := if nonempty args then emit q (event StreamToolDelta <| ToolIndex := i |> <| ToolName := name |> <| ArgsDelta := args |>) else (q, None) in
          match err with
          | Some _ => (q, err)
          | None =>
              let '(q, err) := emit q (event StreamToolEnd <| ToolIndex := i |> <| ToolName := name |>) in
              match err with
              | Some _ => (q, err)
              | None => (q <| q_pendingToolStarts ::= delete i |> <| q_assembledArgs ::= delete i |> <| q_toolNames ::= delete i |>, None)
              end
          end
      end
  end.
(** Validation, then emission: the end of one tool call. *)
Definition finish_tool q (i : Z) : PumpState E * option string :=
  match validateTool env (args_of q i) (name_of q i) with
  | Some e => (fail q "invalid_request_error" (Error e) (Error e), None)
  | None => emitValidatedTool q i
  end.
(** The tools still open at the end of the stream, in the order of their starts. *)
Fixpoint finish_tools q (order : list Z) : PumpState E * option string :=
  match order with
  | [] => (q, None)
  | i :: order =>
      match q_pendingToolStarts q !! i with
      | None => finish_tools q order
      | Some _ =>
          let '(q, err) := finish_tool q i in
          if bool_decide (is_Some err) || bool_decide (is_Some (q_streamErr q)) then (q, err) else finish_tools q order
      end
  end.
Definition too_large (name : string) : string :=
  "tool=" +:+ name +:+ " field=arguments expected=object actual=too_large stage=" +:+ pe_kind env +:+ "_to_canonical protocol=" +:+ pe_kind env +:+ " streaming=true provider=" +:+ pe_kind env +:+ ": args exceed 1MB limit".
Definition tool_delta q (ev : StreamEvent) : PumpState E :=
  let q := ensurePendingTool q ev in
  let args := args_of q (ToolIndex ev) in
  if ArgsFinal ev && (0 <? slen args) then q
  else if max_args <? slen args + slen (ArgsDelta ev) then let msg := too_large (name_of q (ToolIndex ev)) in fail q "invalid_request_error" msg msg
  else q <| q_assembledArgs ::= <[ToolIndex ev := args +:+ ArgsDelta ev]> |>.
Definition observe q (ev : StreamEvent) : PumpState E :=
  match ev_Usage ev with
  | None => q
  | Some u =>
      q <| q_inputTokens ::= Z.max (InputTokens u) |> <| q_outputTokens ::= Z.max (OutputTokens u) |>
        <| q_cacheReadTokens ::= Z.max (CacheReadTokens u) |> <| q_cacheWriteTokens ::= Z.max (CacheWriteTokens u) |>
        <| q_usageSeen ::= fun s => s || (0 <? InputTokens u) || (0 <? OutputTokens u) |>
  end.
(** Whether an event is dropped: a second end of an Anthropic stream, tool events
    of a frame after the end, the end of an Anthropic block that is no tool. *)
Definition dropped (frameTerminal : bool) q (ev : StreamEvent) : bool :=
  let anthropic := String.eqb (pe_kind env) "anthropic" in
  (anthropic && bool_decide (Type_ ev = StreamEnd) && q_terminal q) || (frameTerminal && is_tool (Type_ ev))
  || (anthropic && bool_decide (Type_ ev = StreamToolEnd) && negb (bool_decide (ToolIndex ev ∈ q_toolBlocks q))).
Definition track_block q (ev : StreamEvent) : PumpState E :=
  if String.eqb (pe_kind env) "anthropic" then
    match Type_ ev with
    | StreamToolStart => q <| q_toolBlocks ::= union {[ToolIndex ev]} |>
    | StreamToolEnd => q <| q_toolBlocks ::= fun s => s ∖ {[ToolIndex ev]} |>
    | _ => q
    end
  else q.
(** One event that is not dropped and not an error; the result is the error that
    makes the pump return at once. *)
Definition pump_event q (ev : StreamEvent) : PumpState E * option string :=
  let q := track_block q ev in
  let '(q, ret, defer) :=
    match Type_ ev with
    | StreamToolStart => (ensurePendingTool q ev, None, true)
    | StreamToolDelta => (tool_delta q ev, None, true)
    | StreamToolEnd => let '(q, err) := finish_tool q (ToolIndex ev) in (q, err, true)
    | StreamEnd => let '(q, err) := finish_tools q (q_pendingToolOrder q) in (q, err, false)
    | _ => (q, None, false)
    end in
  if bool_decide (is_Some ret) || bool_decide (is_Some (q_streamErr q)) then (q, ret)
  else
    let q := observe q ev in
    let q := if bool_decide (Type_ ev = StreamEnd) then q <| q_terminal := true |> else q in
    if (defer : bool) then (q, None) else emit q ev.
Fixpoint pump_events (frameTerminal : bool) q (evs : list StreamEvent) : PumpState E * option string :=
  match evs with
  | [] => (q, None)
  | ev :: evs =>
      if bool_decide (Type_ ev = StreamError) then (emitTerminalError q ev <| q_streamErr := Some ("upstream stream error: " +:+ ErrorMsg ev) |>, None)
      else if dropped frameTerminal q ev then pump_events frameTerminal q evs
      else
        let '(q, ret) := pump_event q ev in
        if bool_decide (is_Some ret) || bool_decide (is_Some (q_streamErr q)) then (q, ret) else pump_events frameTerminal q evs
  end.
(** One frame of the upstream. *)
Definition pump_frame q (name data : string) : PumpState E * option string :=
  let frameTerminal := q_terminal q in
  match decode env name data with
  | inr err => (fail q "" ("upstream stream protocol violation: " +:+ err) err, None)
  | inl (evs, chunkTerminal) => pump_events frameTerminal (q <| q_terminal ::= fun t => t || chunkTerminal |>) evs
  end.
(** The loop; the result is the error that makes the pump return at once.  The
    reader has at most one event per line and one more ([Next] of [SSE.v]). *)
Fixpoint pump_loop (fuel : nat) (reader : SSEReader) q : PumpState E * option string :=
  match fuel with
  | O => (q, None)
  | S fuel =>
      match Next reader with
      | (_, NextErr err) =>
          let q := if q_terminal q then q else emitTerminalError q (event StreamError <| ErrorMsg := "upstream stream read failed: " +:+ err |>) in
          (q <| q_streamErr := Some err |>, None)
      | (_, NextDone) => (q, None)
      | (reader, NextEvent name data) =>
          let '(q, ret) := pump_frame q name data in
          if bool_decide (is_Some ret) || bool_decide (is_Some (q_streamErr q)) then (q, ret) else pump_loop fuel reader q
      end
  end.
Definition ErrUnexpectedEOF : string := "unexpected EOF".
(** The end of the pump: its state, its error, and what the usage hook is told. *)
Definition pump_finish q : PumpState E * option string * option Usage :=
  let q := if negb (q_terminal q) && negb (bool_decide (is_Some (q_streamErr q)))
           then fail q "" "upstream stream ended before completion" ErrUnexpectedEOF else q in
  match q_streamErr q with
  | Some err => (q, Some err, None)
  | None =>
      let '(q, e) := ensureEmitter q in
      let '(e, err) := em_Finish em e in
      let q := q <| q_emitter := Some e |> in
      match err with
      | Some err => (q <| q_streamErr := Some err |>, Some err, None)
      | None => (q, None, if pe_usageHook env && q_usageSeen q then Some (mkUsage (q_inputTokens q) (q_outputTokens q) (q_cacheReadTokens q) (q_cacheWriteTokens q) 0) else None)
      end
  end.
Definition canonicalStreamPump (body : Body) : PumpState E * option string * option Usage :=
  let reader := NewSSEReader body in
  let '(q, ret) := pump_loop (length (s_lines reader) + 2) reader pump_init in
  match ret with Some err => (q, Some err, None) | None => pump_finish q end.
End Pump.

(** The pump with the emitter [NewStreamEmitter] makes for the protocol of the
    client, over a connection: what was written, the error and the usage. *)
Definition streamTo (range_ : gmap Z bool -> list Z) (messageClock timeNow : Z) (protocol model requestID : string) (env : PumpEnv) (c : Conn) (body : Body) : Conn * option string * option Usage :=
  let run (E : Type) (em : StreamEmitter E) (new : E) :=
    let '(q, err, u) := canonicalStreamPump em new env body in (match q_emitter q with Some e => em_conn em e | None => c end, err, u) in
  if String.eqb protocol "anthropic" then run _ (anthropic_emitter range_) (NewAnthropicEmitter messageClock c model requestID)
  else if String.eqb protocol "openai_responses" then run _ responses_emitter (NewResponsesEmitter messageClock timeNow c model)
  else if String.eqb protocol "gemini" then run _ gemini_emitter (NewGeminiEmitter c model)
  else run _ openai_emitter (NewOpenAIEmitter messageClock timeNow c model).
