(* ===== verification/PumpProofs.v ===== *)
(** * Theorems on the stream pump

    What the pump hands to an emitter, whatever the upstream sends and whatever the
    emitter is: tool calls arrive whole and validated, errors end the stream, and
    success means that the emitter was finished.  For the dialect of Anthropic this
    is composed with the emitter: the client receives a well-formed stream. *)

From Stdlib Require Import Ascii.
From S2P Require Import Prelude Hash Text EventStream Json SSE Emitters Decoders Validation Pump.

(** ** The shape of what is emitted *)

Definition tool_start (id name : string) (i : Z) : StreamEvent := event StreamToolStart <| ToolIndex := i |> <| ToolID := id |> <| ToolName := name |>.
Definition tool_args (name args : string) (i : Z) : StreamEvent := event StreamToolDelta <| ToolIndex := i |> <| ToolName := name |> <| ArgsDelta := args |>.
Definition tool_end (name : string) (i : Z) : StreamEvent := event StreamToolEnd <| ToolIndex := i |> <| ToolName := name |>.
(** One tool call: its start, its arguments in one piece, its end. *)
Definition tool_group (id name args : string) (i : Z) : list StreamEvent := [tool_start id name i; tool_args name args i; tool_end name i].
Definition plain (ev : StreamEvent) : Prop := is_tool (Type_ ev) = false /\ Type_ ev <> StreamError.

Section Shape.
Context {E : Type} (em : StreamEmitter E) (new : E) (env : PumpEnv).
Implicit Types q : PumpState E.
Implicit Types evs : list StreamEvent.

Inductive Shaped : list StreamEvent -> Prop :=
| shaped_nil : Shaped []
| shaped_plain evs ev : Shaped evs -> plain ev -> Shaped (evs ++ [ev])
| shaped_tool evs id name args i : Shaped evs -> validateTool env args name = None -> Shaped (evs ++ tool_group id name args i).
(** How a stream may be cut off: by an error event, or inside a tool call. *)
Inductive CutOff : list StreamEvent -> Prop :=
| cut_nothing : CutOff []
| cut_error ev : Type_ ev = StreamError -> CutOff [ev]
| cut_tool id name args i t : validateTool env args name = None -> t `prefix_of` tool_group id name args i -> CutOff t.

Definition feed (e : E) evs : E := fold_left (fun e ev => fst (em_Emit em e ev)) evs e.
Lemma feed_app e a b : feed e (a ++ b) = feed (feed e a) b.
Proof. apply fold_left_app. Qed.
(** The emitter was given exactly these events. *)
Definition emitted q evs : Prop := match q_emitter q with None => evs = [] | Some e => e = feed new evs end.
Definition pending_ok q : Prop := forall i st, q_pendingToolStarts q !! i = Some st -> exists id name, st = tool_start id name i.
Definition Running q : Prop := pending_ok q /\ exists evs, Shaped evs /\ emitted q evs.
Definition Over q : Prop := exists evs t, Shaped evs /\ CutOff t /\ emitted q (evs ++ t).
(** After a step: the stream is over, or, without an error, it goes on. *)
Definition Step (r : PumpState E * option string) : Prop := Over (fst r) /\ (snd r = None -> q_streamErr (fst r) = None -> Running (fst r)).

Lemma running_over q : Running q -> Over q.
Proof. intros (_ & evs & Hs & He). exists evs, []. rewrite app_nil_r. split; [done|split; [apply cut_nothing|done]]. Qed.
Lemma running_step q r : Running q -> Step (q, r).
Proof. intros H. split; [by apply running_over|by intros]. Qed.
Lemma over_step q r : Over q -> is_Some r \/ is_Some (q_streamErr q) -> Step (q, r).
Proof. intros H [[x ->]|[x Hx]]; (split; [done|]); cbn; intros E1 E2; congruence. Qed.

Lemma emit_emitted q evs ev : emitted q evs -> emitted (fst (emit em new q ev)) (evs ++ [ev]).
Proof.
  unfold emitted, emit, ensureEmitter. intros H. destruct (q_emitter q) as [e|] eqn:Ee.
  - destruct (em_Emit em e ev) as [e' err] eqn:Em. cbn. rewrite feed_app, <- H. cbn. by rewrite Em.
  - subst evs. cbn. destruct (em_Emit em new ev) as [e' err]. done.
Qed.
Lemma emit_pending q ev : q_pendingToolStarts (fst (emit em new q ev)) = q_pendingToolStarts q.
Proof. unfold emit, ensureEmitter. destruct (q_emitter q); cbn; by destruct (em_Emit em _ ev). Qed.
Lemma emit_streamErr q ev : q_streamErr (fst (emit em new q ev)) = q_streamErr q.
Proof. unfold emit, ensureEmitter. destruct (q_emitter q); cbn; by destruct (em_Emit em _ ev). Qed.

Lemma terminal_emitted q ev evs : Type_ ev = StreamError -> emitted q evs ->
  exists t, CutOff t /\ emitted (emitTerminalError em new env q ev) (evs ++ t).
Proof.
  intros Ht He. unfold emitTerminalError. destruct (_ && committed _ _ _).
  - exists [ev]. split; [by apply cut_error|by apply emit_emitted].
  - destruct (pe_failoverAware env).
    + exists []. rewrite app_nil_r. split; [apply cut_nothing|done].
    + exists [ev]. split; [by apply cut_error|by apply emit_emitted].
Qed.
Lemma terminal_over q ev : Type_ ev = StreamError -> Running q -> Over (emitTerminalError em new env q ev).
Proof. intros Ht (_ & evs & Hs & He). destruct (terminal_emitted q ev evs Ht He) as (t & Hc & H). by exists evs, t. Qed.
Lemma fail_over q code msg err : Running q -> Over (fail em new env q code msg err).
Proof. intros H. assert (Over (emitTerminalError em new env q (event StreamError <| ErrorCode := code |> <| ErrorMsg := msg |>))) as HO by (by apply terminal_over). exact HO. Qed.

(** Changes that leave the emitter alone. *)
Lemma running_frame q q' : q_emitter q' = q_emitter q -> pending_ok q' -> Running q -> Running q'.
Proof. intros He Hp (_ & evs & Hs & H). split; [done|]. exists evs. split; [done|]. unfold emitted in *. by rewrite He. Qed.

Lemma ensurePending_emitter q ev : q_emitter (ensurePendingTool q ev) = q_emitter q.
Proof. unfold ensurePendingTool. destruct (q_pendingToolStarts q !! _); destruct (q_assembledArgs _ !! _); destruct (nonempty _); done. Qed.
Lemma ensurePending_pending q ev : q_pendingToolStarts (ensurePendingTool q ev)
  = match q_pendingToolStarts q !! ToolIndex ev with Some _ => q_pendingToolStarts q | None => <[ToolIndex ev := tool_start (ToolID ev) (ToolName ev) (ToolIndex ev)]> (q_pendingToolStarts q) end.
Proof. unfold ensurePendingTool. destruct (q_pendingToolStarts q !! _); destruct (q_assembledArgs _ !! _); destruct (nonempty _); done. Qed.
Lemma ensurePending_running q ev : Running q -> Running (ensurePendingTool q ev).
Proof.
  intros H. apply (running_frame q); [apply ensurePending_emitter| |done]. destruct H as [Hp _]. intros i st. rewrite ensurePending_pending.
  destruct (q_pendingToolStarts q !! ToolIndex ev); [apply Hp|]. intros [[<- <-]|[_ Hi]]%lookup_insert_Some; [eauto|by apply Hp].
Qed.
Lemma tool_delta_step q ev : Running q -> Step (tool_delta em new env q ev, None).
Proof.
  intros H. unfold tool_delta. apply (ensurePending_running _ ev) in H. set (q1 := ensurePendingTool q ev) in *. destruct (_ && _); [by apply running_step|].
  destruct (max_args <? _); [apply over_step; [by apply fail_over|by right]|]. apply running_step. apply (running_frame q1); [done|apply H|done].
Qed.

(** [emitValidatedTool] gives the emitter one whole call, or part of it and an error. *)
Lemma emitValidated_step q i : Running q -> validateTool env (args_of q i) (name_of q i) = None -> Step (emitValidatedTool em new q i).
Proof.
  intros H Hv. unfold emitValidatedTool. destruct (q_pendingToolStarts q !! i) as [st|] eqn:Ep; [|by apply running_step].
  pose proof H as (Hp & evs & Hs & He). destruct (Hp _ _ Ep) as (id & nm & ->). set (name := name_of q i) in *. set (args := args_of q i) in *.
  assert (nonempty args = true) as Hne. { destruct (nonempty args) eqn:En; [done|]. unfold nonempty in En. apply negb_false_iff, String.eqb_eq in En. rewrite En in Hv. vm_compute in Hv. done. }
  rewrite Hne. change (tool_start id nm i <| ToolName := name |>) with (tool_start id name i).
  change (event StreamToolDelta <| ToolIndex := i |> <| ToolName := name |> <| ArgsDelta := args |>) with (tool_args name args i).
  change (event StreamToolEnd <| ToolIndex := i |> <| ToolName := name |>) with (tool_end name i).
  assert (forall q' t, t `prefix_of` tool_group id name args i -> emitted q' (evs ++ t) -> Over q') as Hcut.
  { intros q' t Ht Hq'. exists evs, t. split; [done|split; [by eapply cut_tool|done]]. }
  pose proof (emit_emitted q evs (tool_start id name i) He) as H1. pose proof (emit_pending q (tool_start id name i)) as P1.
  destruct (emit em new q (tool_start id name i)) as [q1 [e1|]]; cbn [fst] in H1, P1.
  { apply over_step; [|left; eauto]. apply (Hcut _ [tool_start id name i]); [by eexists|done]. }
  pose proof (emit_emitted q1 _ (tool_args name args i) H1) as H2. pose proof (emit_pending q1 (tool_args name args i)) as P2.
  rewrite <- app_assoc in H2. destruct (emit em new q1 (tool_args name args i)) as [q2 [e2|]]; cbn [fst] in H2, P2.
  { apply over_step; [|left; eauto]. apply (Hcut _ ([tool_start id name i] ++ [tool_args name args i])); [by eexists|done]. }
  pose proof (emit_emitted q2 _ (tool_end name i) H2) as H3. pose proof (emit_pending q2 (tool_end name i)) as P3. rewrite <- !app_assoc in H3.
  destruct (emit em new q2 (tool_end name i)) as [q3 [e3|]]; cbn [fst] in H3, P3.
  { apply over_step; [|left; eauto]. apply (Hcut _ (tool_group id name args i)); [done|done]. }
  apply running_step. split.
  - intros j st. cbn. rewrite P3, P2, P1. intros [_ Hj]%lookup_delete_Some. by apply Hp.
  - exists (evs ++ tool_group id name args i). split; [by apply shaped_tool|done].
Qed.
Lemma finish_tool_step q i : Running q -> Step (finish_tool em new env q i).
Proof.
  intros H. unfold finish_tool. destruct (validateTool env (args_of q i) (name_of q i)) eqn:Ev; [|by apply emitValidated_step].
  apply over_step; [by apply fail_over|by right].
Qed.
Lemma finish_tools_step order : forall q, Running q -> Step (finish_tools em new env q order).
Proof.
  induction order as [|i order IH]; intros q H; cbn [finish_tools]; [by apply running_step|].
  destruct (q_pendingToolStarts q !! i); [|by apply IH]. pose proof (finish_tool_step q i H) as Hs. destruct (finish_tool em new env q i) as [q' err]. destruct Hs as [Ho Hr]. cbn [fst snd] in *.
  case_bool_decide as H1; [apply over_step; [done|by left]|]. case_bool_decide as H2; [apply over_step; [done|by right]|]. cbn [orb].
  apply IH, Hr; [by destruct err; [destruct H1; eauto|]|by destruct (q_streamErr q'); [destruct H2; eauto|]].
Qed.

Lemma track_running q ev : Running q -> Running (track_block env q ev).
Proof. intros H. unfold track_block. destruct (String.eqb _ _); [|done]. destruct (Type_ ev); try done; (apply (running_frame q); [done|apply H|done]). Qed.
Lemma observe_running q ev : Running q -> Running (observe q ev).
Proof. intros H. unfold observe. destruct (ev_Usage ev); [|done]. apply (running_frame q); [done|apply H|done]. Qed.
Lemma emit_plain_step q ev : Running q -> plain ev -> Step (emit em new q ev).
Proof.
  intros (Hp & evs & Hs & He) Hpl. pose proof (emit_emitted q evs ev He) as H1. pose proof (emit_pending q ev) as P1.
  assert (Running (fst (emit em new q ev))) as H. { split; [intros i st; rewrite P1; apply Hp|]. exists (evs ++ [ev]). split; [by apply shaped_plain|done]. }
  split; [by apply running_over|done].
Qed.
Lemma none_of {A} (o : option A) : ~ is_Some o -> o = None.
Proof. destruct o; [intros H; destruct H; eauto|done]. Qed.
(** The rest of an event, once its tools are dealt with. *)
Lemma event_tail_step q ret ev (t : StreamType) (defer : bool) : Step (q, ret) -> (defer = false -> plain ev) ->
  Step (if bool_decide (is_Some ret) || bool_decide (is_Some (q_streamErr q)) then (q, ret)
        else let q := observe q ev in let q := if bool_decide (t = StreamEnd) then q <| q_terminal := true |> else q in if defer then (q, None) else emit em new q ev).
Proof.
  intros [Ho Hr] Hpl. cbn [fst snd] in *. case_bool_decide as H1; [apply over_step; [done|by left]|]. case_bool_decide as H2; [apply over_step; [done|by right]|]. cbn [orb].
  assert (Running q) as H by (apply Hr; by apply none_of). apply (observe_running _ ev) in H.
  assert (Running (if bool_decide (t = StreamEnd) then (observe q ev) <| q_terminal := true |> else observe q ev)) as H'.
  { case_bool_decide; [|done]. apply (running_frame (observe q ev)); [done|apply H|done]. }
  cbv zeta. destruct defer; [by apply running_step|]. apply emit_plain_step; [done|by apply Hpl].
Qed.
Lemma pump_event_step q ev : Running q -> Type_ ev <> StreamError -> Step (pump_event em new env q ev).
Proof.
  intros H Hne. unfold pump_event. apply (track_running _ ev) in H. set (q1 := track_block env q ev) in *.
  assert (is_tool (Type_ ev) = false -> plain ev) as Hpl by (by intros; split).
  pose proof (event_tail_step q1 None ev (Type_ ev) false (running_step _ None H)) as Hplain.
  destruct (Type_ ev) eqn:Et; cbv iota beta; try (apply Hplain; intros _; by apply Hpl).
  - refine (event_tail_step _ None ev StreamToolStart true _ _); [by apply running_step, ensurePending_running|done].
  - refine (event_tail_step _ None ev StreamToolDelta true _ _); [by apply tool_delta_step|done].
  - pose proof (finish_tool_step q1 (ToolIndex ev) H) as Hs. destruct (finish_tool em new env q1 (ToolIndex ev)) as [q2 err]. by refine (event_tail_step q2 err ev StreamToolEnd true Hs _).
  - pose proof (finish_tools_step (q_pendingToolOrder q1) q1 H) as Hs. destruct (finish_tools em new env q1 (q_pendingToolOrder q1)) as [q2 err].
    refine (event_tail_step q2 err ev StreamEnd false Hs _). intros _. by apply Hpl.
Qed.
(** Steps that stop at the first error compose. *)
Lemma step_then (r : PumpState E * option string) (k : PumpState E -> PumpState E * option string) :
  Step r -> (forall q, Running q -> Step (k q)) ->
  Step (let '(q, ret) := r in if bool_decide (is_Some ret) || bool_decide (is_Some (q_streamErr q)) then (q, ret) else k q).
Proof.
  destruct r as [q ret]. intros [Ho Hr] Hk. cbn [fst snd] in *. case_bool_decide as H1; [apply over_step; [done|by left]|]. case_bool_decide as H2; [apply over_step; [done|by right]|].
  apply Hk, Hr; by apply none_of.
Qed.
Lemma pump_events_step ft evs : forall q, Running q -> Step (pump_events em new env ft q evs).
Proof.
  induction evs as [|ev evs IH]; intros q H; cbn [pump_events]; [by apply running_step|]. case_bool_decide as Ht.
  - apply over_step; [|by right]. pose proof (terminal_over q ev Ht H) as HO. exact HO.
  - destruct (dropped env ft q ev); [by apply IH|]. apply step_then; [by apply pump_event_step|done].
Qed.
Lemma pump_frame_step q name data : Running q -> Step (pump_frame em new env q name data).
Proof.
  intros H. unfold pump_frame. destruct (decode env name data) as [[evs t]|err].
  - apply pump_events_step. apply (running_frame q); [done|apply H|done].
  - apply over_step; [by apply fail_over|by right].
Qed.
Lemma pump_loop_step fuel : forall reader q, Running q -> Step (pump_loop em new env fuel reader q).
Proof.
  induction fuel as [|fuel IH]; intros reader q H; cbn [pump_loop]; [by apply running_step|]. destruct (Next reader) as [reader' [name data| |err]]; [|by apply running_step|].
  - apply step_then; [by apply pump_frame_step|intros q' H'; by apply IH].
  - apply over_step; [|by right]. destruct (q_terminal q); [exact (running_over _ H)|]. pose proof (terminal_over q (event StreamError <| ErrorMsg := "upstream stream read failed: " +:+ err |>) eq_refl H) as HO. exact HO.
Qed.

(** The pump as a whole, for any upstream body, decoder outcome and emitter: what
    the emitter is given is a sequence of plain events and whole, validated tool
    calls.  On success it was then finished without an error; on an error it was
    cut off by at most one error event or inside one tool call. *)
Lemma pump_outcome (body : Body) :
  let '(q, err, _) := canonicalStreamPump em new env body in
  match err with
  | None => exists evs e, Shaped evs /\ em_Finish em (feed new evs) = (e, None) /\ q_emitter q = Some e
  | Some err => Over q \/ exists evs e, Shaped evs /\ em_Finish em (feed new evs) = (e, Some err) /\ q_emitter q = Some e
  end.
Proof.
  unfold canonicalStreamPump. assert (Running (@pump_init E)) as Hinit. { split; [intros i st Hi; cbn in Hi; by rewrite lookup_empty in Hi|]. exists []. split; [apply shaped_nil|done]. }
  pose proof (pump_loop_step (length (s_lines (NewSSEReader body)) + 2) (NewSSEReader body) pump_init Hinit) as [Ho Hr].
  destruct (pump_loop em new env _ _ _) as [q [err|]]; [by left|]. cbn [fst snd] in *. unfold pump_finish.
  set (q1 := if negb (q_terminal q) && negb (bool_decide (is_Some (q_streamErr q))) then fail em new env q "" "upstream stream ended before completion" ErrUnexpectedEOF else q).
  assert (Over q1 /\ (q_streamErr q1 = None -> Running q1)) as [Ho1 Hr1].
  { unfold q1. destruct (negb (q_terminal q) && _) eqn:Eb; [|split; [done|by apply Hr]]. apply andb_true_iff in Eb as [_ Eb]. apply negb_true_iff, bool_decide_eq_false in Eb. apply none_of in Eb.
    split; [apply fail_over; by apply Hr|done]. }
  destruct (q_streamErr q1) eqn:Es; [by left|]. destruct (Hr1 eq_refl) as (_ & evs & Hs & He). unfold ensureEmitter. unfold emitted in He.
  assert (exists q2, match q_emitter q1 with Some e => (q1, e) | None => (q1 <| q_emitter := Some new |>, new) end = (q2, feed new evs)) as [q2 ->].
  { destruct (q_emitter q1); subst; eauto. }
  destruct (em_Finish em (feed new evs)) as [e [err|]] eqn:Ef; [right|]; eauto 10.
Qed.

(** (C3) What a client can be given by way of tool calls: for every emitter, upstream
    and environment, the events handed to it are plain ones and whole tool calls
    whose arguments passed validation, in one piece between start and end, followed
    on an error by at most an error event or part of one such call.  Success means
    that the emitter was finished after all of them. *)
Theorem tool_calls_whole_and_validated (body : Body) :
  let '(q, err, _) := canonicalStreamPump em new env body in
  exists evs t, Shaped evs /\ CutOff t
    /\ (emitted q (evs ++ t) \/ t = [] /\ exists e, q_emitter q = Some e /\ em_Finish em (feed new evs) = (e, err))
    /\ (err = None -> t = [] /\ exists e, q_emitter q = Some e /\ em_Finish em (feed new evs) = (e, None)).
Proof.
  pose proof (pump_outcome body) as H. destruct (canonicalStreamPump em new env body) as [[q err] u]. destruct err as [err|].
  - destruct H as [(evs & t & Hs & Hc & He)|(evs & e & Hs & Hf & He)].
    + exists evs, t. split_and!; [done|done|by left|done].
    + exists evs, []. split_and!; [done|apply cut_nothing|right; eauto|done].
  - destruct H as (evs & e & Hs & Hf & He). exists evs, []. split_and!; [done|apply cut_nothing| |]; eauto 10.
Qed.
End Shape.

(** ** The loop ends *)

(** An upper bound on the events a reader still has. *)
Definition reader_size (r : SSEReader) : nat := if s_done r then (if String.eqb (s_data r) "" then 0 else 1)%nat else S (length (s_lines r)).
Lemma next_end_size r : s_done (fst (next_end r)) = true /\ forall n d, snd (next_end r) = NextEvent n d -> s_data (fst (next_end r)) = "" /\ s_data r <> "".
Proof.
  unfold next_end. cbv zeta. change (s_scanErr (r <| s_done := true |>)) with (s_scanErr r). change (s_data (r <| s_done := true |>)) with (s_data r). destruct (s_scanErr r); [split; [done|by intros]|]. destruct (0 <? String.length (s_data r))%nat eqn:El; [|split; [done|by intros]]. split; [done|]. intros n d _. split; [done|]. intros E. by rewrite E in El.
Qed.
Lemma next_loop_size lines : forall r n d, s_done r = false -> snd (next_loop lines r) = NextEvent n d -> (reader_size (fst (next_loop lines r)) <= length lines)%nat.
Proof.
  assert (forall l r n d, snd (next_end (r <| s_lines := l |>)) = NextEvent n d -> (reader_size (fst (next_end (r <| s_lines := l |>))) = 0)%nat) as Hend.
  { intros l r n d H. destruct (next_end_size (r <| s_lines := l |>)) as [H1 H2]. apply H2 in H as [H _]. unfold reader_size. rewrite H1, H. done. }
  assert (forall a b : nat, (a <= b -> a <= S b)%nat) as HS by lia.
  induction lines as [|line lines IH]; intros r n d Hd; cbn [next_loop length]; [intros H; rewrite (Hend _ _ _ _ H); lia|].
  destruct (String.eqb line ""); [destruct (0 <? _)%nat; [intros _; unfold reader_size; match goal with |- context [s_done ?x] => change (s_done x) with (s_done r) end; rewrite Hd; done|]|].
  { intros H. refine (HS _ _ (IH _ _ _ _ H)); exact Hd. }
  destruct (HasPrefix line ":"); [intros H; refine (HS _ _ (IH _ _ _ _ H)); exact Hd|]. destruct (HasPrefix line "event:"); [intros H; refine (HS _ _ (IH _ _ _ _ H)); exact Hd|].
  destruct (HasPrefix line "data:"); [|intros H; refine (HS _ _ (IH _ _ _ _ H)); exact Hd]. destruct (maxSSEEventBytes <? _); [intros H; discriminate H|]. intros H. refine (HS _ _ (IH _ _ _ _ H)); exact Hd.
Qed.
Lemma next_size r r' n d : Next r = (r', NextEvent n d) -> (reader_size r' < reader_size r)%nat.
Proof.
  unfold Next. destruct (s_done r) eqn:Hd.
  - intros H. pose proof (next_end_size r) as [H1 H2]. rewrite H in H1, H2. cbn [fst snd] in *. destruct (H2 n d eq_refl) as [H3 H4]. unfold reader_size. rewrite H1, H3, Hd. cbn. apply String.eqb_neq in H4. rewrite H4. lia.
  - intros H. pose proof (next_loop_size (s_lines r) r n d Hd) as H1. rewrite H in H1. cbn [fst snd] in H1. specialize (H1 eq_refl). unfold reader_size at 2. rewrite Hd. lia.
Qed.
(** More fuel than the pump has changes nothing: the loop always ends by itself. *)
Lemma pump_fuel {E} (em : StreamEmitter E) new env fuel k : forall r q, (reader_size r < fuel)%nat -> pump_loop em new env (fuel + k) r q = pump_loop em new env fuel r q.
Proof.
  induction fuel as [|fuel IH]; intros r q Hf; [lia|]. cbn [Nat.add pump_loop]. destruct (Next r) as [r' [n d| |e]] eqn:En; [|done|done]. apply next_size in En.
  destruct (pump_frame em new env q n d) as [q' ret]. destruct (_ || _); [done|]. apply IH. lia.
Qed.
Lemma pump_fuel_enough {E} (em : StreamEmitter E) new env body k : let r := NewSSEReader body in
  pump_loop em new env (length (s_lines r) + 2 + k) r pump_init = pump_loop em new env (length (s_lines r) + 2) r pump_init.
Proof. intros r. apply pump_fuel. unfold r, NewSSEReader, reader_size. destruct (scan_lines [] (body_bytes body)). cbn. lia. Qed.

(** ** No tool call starts after the end *)

(** The calls held back only become fewer. *)
Definition Fewer {E} (q q' : PumpState E) : Prop := q_pendingToolStarts q' ⊆ q_pendingToolStarts q /\ q_assembledArgs q' ⊆ q_assembledArgs q /\ q_toolNames q' ⊆ q_toolNames q.
Section Late.
Context {E : Type} (em : StreamEmitter E) (new : E) (env : PumpEnv).
Implicit Types q : PumpState E.
Lemma fewer_refl q : Fewer q q.
Proof. done. Qed.
Lemma fewer_trans q1 q2 q3 : Fewer q1 q2 -> Fewer q2 q3 -> Fewer q1 q3.
Proof. intros (A1 & A2 & A3) (B1 & B2 & B3). split_and!; by etrans. Qed.
Lemma emit_fewer q ev : Fewer q (fst (emit em new q ev)).
Proof. unfold emit, ensureEmitter. destruct (q_emitter q); cbn; by destruct (em_Emit em _ ev). Qed.
Lemma terminal_fewer q ev : Fewer q (emitTerminalError em new env q ev).
Proof. unfold emitTerminalError. destruct (_ && _); [apply emit_fewer|]. destruct (pe_failoverAware env); [done|apply emit_fewer]. Qed.
Lemma fail_fewer q code msg err : Fewer q (fail em new env q code msg err).
Proof. apply (terminal_fewer q (event StreamError <| ErrorCode := code |> <| ErrorMsg := msg |>)). Qed.
Lemma emitValidated_fewer q i : Fewer q (fst (emitValidatedTool em new q i)).
Proof.
  unfold emitValidatedTool. destruct (q_pendingToolStarts q !! i) as [st|]; [|done].
  pose proof (emit_fewer q (st <| ToolName := name_of q i |>)) as H1. destruct (emit em new q _) as [q1 [e1|]]; [done|]. cbn [fst] in H1.
  set (r2 := if nonempty (args_of q i) then emit em new q1 (event StreamToolDelta <| ToolIndex := i |> <| ToolName := name_of q i |> <| ArgsDelta := args_of q i |>) else (q1, None)).
  assert (Fewer q (fst r2)) as H2 by (unfold r2; destruct (nonempty _); [apply (fewer_trans _ _ _ H1), emit_fewer|done]). destruct r2 as [q2 [e2|]]; [done|]. cbn [fst] in H2.
  pose proof (fewer_trans _ _ _ H2 (emit_fewer q2 (event StreamToolEnd <| ToolIndex := i |> <| ToolName := name_of q i |>))) as H3. destruct (emit em new q2 _) as [q3 [e3|]]; [done|].
  destruct H3 as (A1 & A2 & A3). cbn [fst] in *. split_and!; (etrans; [apply delete_subseteq|done]).
Qed.
Lemma finish_tool_fewer q i : Fewer q (fst (finish_tool em new env q i)).
Proof. unfold finish_tool. destruct (validateTool _ _ _); [apply fail_fewer|apply emitValidated_fewer]. Qed.
Lemma finish_tools_fewer order : forall q, Fewer q (fst (finish_tools em new env q order)).
Proof.
  induction order as [|i order IH]; intros q; cbn [finish_tools]; [done|]. destruct (q_pendingToolStarts q !! i); [|apply IH]. pose proof (finish_tool_fewer q i) as H.
  destruct (finish_tool em new env q i) as [q' err]. destruct (_ || _); [done|]. apply (fewer_trans _ _ _ H), IH.
Qed.
Lemma pump_event_fewer q ev : is_tool (Type_ ev) = false -> Fewer q (fst (pump_event em new env q ev)).
Proof.
  intros Ht. unfold pump_event. assert (track_block env q ev = q) as -> by (unfold track_block; destruct (String.eqb _ _); [by destruct (Type_ ev)|done]).
  set (r := match Type_ ev with StreamToolStart => _ | _ => _ end). assert (Fewer q (fst (fst r))) as Hr.
  { unfold r. destruct (Type_ ev); try done. pose proof (finish_tools_fewer (q_pendingToolOrder q) q) as H. by destruct (finish_tools em new env q (q_pendingToolOrder q)). }
  clearbody r. destruct r as [[q1 ret] defer]. cbn [fst] in Hr. destruct (_ || _); [done|]. cbv zeta. apply (fewer_trans _ _ _ Hr).
  set (q2 := if bool_decide (Type_ ev = StreamEnd) then observe q1 ev <| q_terminal := true |> else observe q1 ev).
  assert (Fewer q1 q2) as H2 by (unfold q2, observe; destruct (ev_Usage ev); by case_bool_decide). destruct defer; [done|]. apply (fewer_trans _ _ _ H2), emit_fewer.
Qed.
Lemma pump_events_fewer evs : forall q, Fewer q (fst (pump_events em new env true q evs)).
Proof.
  induction evs as [|ev evs IH]; intros q; cbn [pump_events]; [done|]. case_bool_decide as Ht; [apply (terminal_fewer q ev)|]. destruct (dropped env true q ev) eqn:Ed; [apply IH|].
  assert (is_tool (Type_ ev) = false) as Hnt. { unfold dropped in Ed. apply orb_false_iff in Ed as [Ed _]. apply orb_false_iff in Ed as [_ Ed]. exact Ed. }
  pose proof (pump_event_fewer q ev Hnt) as H. destruct (pump_event em new env q ev) as [q' ret]. destruct (_ || _); [done|]. apply (fewer_trans _ _ _ H), IH.
Qed.
(** Once the stream has ended, a further frame of the upstream neither starts a tool
    call nor adds to the name or the arguments of one: the calls held back are among
    those held back at the end, unchanged. *)
Theorem no_tool_call_after_end q name data : q_terminal q = true -> Fewer q (fst (pump_frame em new env q name data)).
Proof.
  intros Ht. unfold pump_frame. rewrite Ht. destruct (decode env name data) as [[evs t]|err]; [|apply fail_fewer].
  apply (fewer_trans _ (q <| q_terminal ::= fun t0 => t0 || t |>)); [done|apply pump_events_fewer].
Qed.
End Late.
