(* ===== verification/AnthropicProofs.v ===== *)
(** * Streams of Anthropic clients are well formed

    The protocol of a message stream as a checker over frames, and the theorem that
    the pump with the Anthropic emitter keeps it for every upstream and every
    failure of the connection. *)

From Stdlib Require Import Ascii.
From S2P Require Import Prelude Hash Text EventStream Json SSE Emitters Decoders Validation Pump PumpProofs.

(** ** The protocol *)

Inductive Phase := Fresh | Streaming | Ending | Stopped | Failed.
#[global] Instance Phase_eq : EqDecision Phase.
Proof. solve_decision. Defined.
(** The phase, the index of the next block, and the open block with its type. *)
Record AState := mkAState { as_phase : Phase; as_next : Z; as_open : option (Z * string) }.
#[global] Instance eta_AState : Eta AState := fun s => mkAState (as_phase s) (as_next s) (as_open s).
Definition is_int (z : Z) (j : Json) : bool := match j with JNumber lit => String.eqb lit (Itoa z) | _ => false end.
Definition delta_type (block : string) : string :=
  if String.eqb block "text" then "text_delta" else if String.eqb block "thinking" then "thinking_delta" else "input_json_delta".
(** One frame: a block is opened only when none is open and with the next index, a
    delta goes to the open block and has its type, a message ends with no block
    open, and nothing follows the end or an error. *)
Definition a_check (s : AState) (f : Frame) : option AState :=
  match f with
  | DoneFrame => None
  | EventFrame name d =>
      let named n := String.eqb name n in
      if negb (named (jstr (field "type" d))) then None
      else match as_phase s with
      | Fresh => if named "message_start" then Some (s <| as_phase := Streaming |>) else None
      | Streaming =>
          if named "ping" then Some s
          else if named "error" then Some (s <| as_phase := Failed |>)
          else match as_open s with
          | None =>
              if named "content_block_start" && is_int (as_next s) (field "index" d) && existsb (String.eqb (jstr (field "type" (field "content_block" d)))) ["text"; "thinking"; "tool_use"]
              then Some (mkAState Streaming (as_next s + 1) (Some (as_next s, jstr (field "type" (field "content_block" d)))))
              else if named "message_delta" then Some (s <| as_phase := Ending |>) else None
          | Some (i, k) =>
              if named "content_block_delta" && is_int i (field "index" d) && String.eqb (jstr (field "type" (field "delta" d))) (delta_type k) then Some s
              else if named "content_block_stop" && is_int i (field "index" d) then Some (s <| as_open := None |>) else None
          end
      | Ending => if named "message_stop" then Some (s <| as_phase := Stopped |>) else None
      | Stopped | Failed => None
      end
  end.
Fixpoint check_all (s : AState) (fs : list Frame) : option AState :=
  match fs with [] => Some s | f :: fs => match a_check s f with Some s => check_all s fs | None => None end end.
Definition fresh : AState := mkAState Fresh 0 None.

Lemma check_all_snoc s fs f s1 s2 : check_all s fs = Some s1 -> a_check s1 f = Some s2 -> check_all s (fs ++ [f]) = Some s2.
Proof. revert s. induction fs as [|g fs IH]; intros s; cbn; [intros [= ->]; by intros ->|]. destruct (a_check s g); [apply IH|done]. Qed.

(** ** The connection *)

(** What was written is well formed and not complete. *)
Definition Partial (c : Conn) : Prop := exists s, check_all fresh (c_out c) = Some s /\ as_phase s <> Stopped.
(** The checker is in state [s], or the connection failed before. *)
Definition At (c : Conn) (s : AState) : Prop := match c_err c with None => check_all fresh (c_out c) = Some s | Some _ => Partial c end.
Lemma at_write c s f s' : At c s -> as_phase s <> Stopped -> a_check s f = Some s' -> At (write f c) s'.
Proof.
  unfold At, write. intros H Hs Hc. destruct (c_err c) as [e|] eqn:Ee; [by rewrite Ee|]. destruct (c_link c (c_calls c)); cbn; [by exists s|by eapply check_all_snoc].
Qed.
Lemma at_partial c s : At c s -> as_phase s <> Stopped -> Partial c.
Proof. unfold At. destruct (c_err c); [done|]. by exists s. Qed.

(** ** Frames of the emitter *)

Lemma is_int_refl z : is_int z (JInt z) = true.
Proof. apply String.eqb_refl. Qed.
Lemma check_open s i b k : as_phase s = Streaming -> as_open s = None -> as_next s = i -> jstr (field "type" (sort_keys b)) = k -> existsb (String.eqb k) ["text"; "thinking"; "tool_use"] = true ->
  a_check s (EventFrame "content_block_start" (sort_keys (block_start i b))) = Some (mkAState Streaming (i + 1) (Some (i, k))).
Proof.
  intros Hp Ho <- Hk Hin. unfold a_check. rewrite Hp, Ho.
  change (field "index" (sort_keys (block_start (as_next s) b))) with (JInt (as_next s)). rewrite is_int_refl.
  change (field "content_block" (sort_keys (block_start (as_next s) b))) with (sort_keys b). rewrite Hk, Hin. reflexivity.
Qed.
Lemma check_delta s i k d : as_phase s = Streaming -> as_open s = Some (i, k) -> jstr (field "type" (sort_keys d)) = delta_type k ->
  a_check s (EventFrame "content_block_delta" (sort_keys (block_delta i d))) = Some s.
Proof.
  intros Hp Ho Hd. unfold a_check. rewrite Hp, Ho. change (field "index" (sort_keys (block_delta i d))) with (JInt i). rewrite is_int_refl.
  change (field "delta" (sort_keys (block_delta i d))) with (sort_keys d). rewrite Hd, (String.eqb_refl (delta_type k)). reflexivity.
Qed.
Lemma check_stop s i k : as_phase s = Streaming -> as_open s = Some (i, k) ->
  a_check s (EventFrame "content_block_stop" (sort_keys (block_stop i))) = Some (s <| as_open := None |>).
Proof. intros Hp Ho. unfold a_check. rewrite Hp, Ho. change (field "index" (sort_keys (block_stop i))) with (JInt i). rewrite is_int_refl. reflexivity. Qed.

(** ** The emitter and the checker *)

Definition kinds : list string := ["text"; "thinking"; "tool_use"].
Lemma kinds_inv k : k ∈ kinds -> k = "text" \/ k = "thinking" \/ k = "tool_use".
Proof. unfold kinds. intros H. apply list_elem_of_In in H. cbn in H. intuition. Qed.
Record AInv (e : anthropicEmitter) (s : AState) : Prop := mkAInv {
  inv_phase : as_phase s = Streaming;
  inv_next : as_next s = a_nextIndex e;
  inv_kind : forall i k, as_open s = Some (i, k) -> k ∈ kinds;
  inv_blocks : forall i, default false (a_openBlocks e !! i) = true <-> exists k, as_open s = Some (i, k);
  inv_text : forall i, as_open s = Some (i, "text") <-> a_textOpen e = true /\ i = a_textIndex e;
  inv_think : forall i, as_open s = Some (i, "thinking") <-> a_thinkOpen e = true /\ i = a_thinkIndex e }.
Definition Sim (e : anthropicEmitter) (s : AState) : Prop := AInv e s /\ At (a_conn e) s.
(** Between tool calls no block of a tool is open. *)
Definition Idle (e : anthropicEmitter) (s : AState) : Prop := Sim e s /\ forall i, as_open s <> Some (i, "tool_use").

(** A frame that changes neither side. *)
Lemma sim_frame e s name v : Sim e s -> a_check s (EventFrame name (sort_keys v)) = Some s -> Sim (a_frame name v e) s.
Proof. intros [[] Hat] Hc. split; [by constructor|]. apply (at_write _ s); [done|congruence|done]. Qed.
(** An emitter with the same blocks and connection. *)
Lemma sim_same e e' s : a_conn e' = a_conn e -> a_nextIndex e' = a_nextIndex e -> a_openBlocks e' = a_openBlocks e -> a_textOpen e' = a_textOpen e -> a_textIndex e' = a_textIndex e ->
  a_thinkOpen e' = a_thinkOpen e -> a_thinkIndex e' = a_thinkIndex e -> Sim e s -> Sim e' s.
Proof. intros E1 E2 E3 E4 E5 E6 E7 [[] Hat]. split; [constructor; rewrite ?E2, ?E3, ?E4, ?E5, ?E6, ?E7; done|by rewrite E1]. Qed.
(** Closing the open block: [e'] is the emitter after it. *)
Lemma sim_close e s i k e' : Sim e s -> as_open s = Some (i, k) ->
  a_conn e' = a_conn (closeBlock i e) -> a_nextIndex e' = a_nextIndex e -> a_openBlocks e' = a_openBlocks (closeBlock i e) -> a_textOpen e' = false -> a_thinkOpen e' = false ->
  Sim e' (s <| as_open := None |>).
Proof.
  intros [[Hp Hn Hk Hb Ht Hth] Hat] Ho E1 E2 E3 E4 E5. unfold closeBlock in E1, E3. assert (default false (a_openBlocks e !! i) = true) as Hi by (apply Hb; eauto). rewrite Hi in E1, E3. split.
  - constructor; cbn; try done; [congruence| | |].
    + intros j. rewrite E3. cbn. split; [|by intros [? ?]]. destruct (decide (j = i)) as [->|Hne]; [by rewrite lookup_insert_eq|]. rewrite lookup_insert_ne by done. intros [k' Ek]%Hb. congruence.
    + intros j. rewrite E4. split; [done|by intros [? _]].
    + intros j. rewrite E5. split; [done|by intros [? _]].
  - rewrite E1. apply (at_write _ s); [done|congruence|by eapply check_stop].
Qed.
(** Opening a block: [e'] is the emitter after it. *)
Lemma sim_open e s b k e' : Sim e s -> as_open s = None -> jstr (field "type" (sort_keys b)) = k -> k ∈ kinds ->
  a_conn e' = write (EventFrame "content_block_start" (sort_keys (block_start (a_nextIndex e) b))) (a_conn e) -> a_nextIndex e' = a_nextIndex e + 1 ->
  a_openBlocks e' = <[a_nextIndex e := true]> (a_openBlocks e) ->
  a_textOpen e' = String.eqb k "text" -> (k = "text" -> a_textIndex e' = a_nextIndex e) -> a_thinkOpen e' = String.eqb k "thinking" -> (k = "thinking" -> a_thinkIndex e' = a_nextIndex e) ->
  Sim e' (mkAState Streaming (a_nextIndex e + 1) (Some (a_nextIndex e, k))).
Proof.
  intros [[Hp Hn Hk Hb Ht Hth] Hat] Ho Hty Hin E1 E2 E3 E4 E5 E6 E7. split.
  - constructor; cbn; try done.
    + by intros i k' [= <- <-].
    + intros i. rewrite E3. destruct (decide (i = a_nextIndex e)) as [->|Hne]; [rewrite lookup_insert_eq; cbn; split; eauto|]. rewrite lookup_insert_ne by done.
      split; [intros [k' Ek]%Hb; congruence|intros [k' [= Ek _]]; congruence].
    + intros i. rewrite E4. split; [intros [= <- ->]; split; [done|by rewrite E5]|]. intros [Hk'%String.eqb_eq ->]. by rewrite E5, Hk'.
    + intros i. rewrite E6. split; [intros [= <- ->]; split; [done|by rewrite E7]|]. intros [Hk'%String.eqb_eq ->]. by rewrite E7, Hk'.
  - rewrite E1. apply (at_write _ s); [done|congruence|]. apply check_open; [done|done|done|done|]. destruct (kinds_inv _ Hin) as [ -> |[ -> | -> ]]; done.
Qed.
(** Closing text and thinking. *)
Lemma idle_close e s : Idle e s -> exists s', Sim (close_text (close_think e)) s' /\ as_open s' = None
  /\ a_textOpen (close_text (close_think e)) = false /\ a_thinkOpen (close_text (close_think e)) = false /\ a_nextIndex (close_text (close_think e)) = a_nextIndex e.
Proof.
  intros [Hs Hnt]. pose proof Hs as [[Hp Hn Hk Hb Ht Hth] Hat]. destruct (as_open s) as [[i k]|] eqn:Ho.
  - assert (k ∈ kinds) as Hin by (by eapply Hk). destruct (kinds_inv _ Hin) as [ -> |[ -> | -> ]]; [| |by destruct (Hnt i)].
    + destruct (proj1 (Ht i) eq_refl) as [Et ->]. assert (a_thinkOpen e = false) as Eth. { destruct (a_thinkOpen e) eqn:E0; [|done]. assert (Some (a_textIndex e, "text") = Some (a_thinkIndex e, "thinking")) by (by apply Hth). congruence. }
      unfold close_think. rewrite Eth. unfold close_text. rewrite Et. assert (a_nextIndex (closeBlock (a_textIndex e) e) = a_nextIndex e /\ a_thinkOpen (closeBlock (a_textIndex e) e) = a_thinkOpen e) as [Enx Eto] by (by unfold closeBlock; destruct (default false _)).
      exists (s <| as_open := None |>). split; [|split; [done|split; [done|split; [cbn; congruence|done]]]]. apply (sim_close e s _ _ _ Hs Ho); [done|done|done|done|cbn; congruence].
    + destruct (proj1 (Hth i) eq_refl) as [Eth ->]. assert (a_textOpen e = false) as Et. { destruct (a_textOpen e) eqn:E0; [|done]. assert (Some (a_thinkIndex e, "thinking") = Some (a_textIndex e, "text")) by (by apply Ht). congruence. }
      unfold close_think. rewrite Eth. set (e1 := closeBlock (a_thinkIndex e) e <| a_thinkOpen := false |> <| a_thinkIndex := -1 |>).
      assert (a_nextIndex e1 = a_nextIndex e /\ a_textOpen e1 = false) as [Enx Eto] by (unfold e1, closeBlock; by destruct (default false _)).
      unfold close_text. rewrite Eto. exists (s <| as_open := None |>). split; [|done]. apply (sim_close e s _ _ _ Hs Ho); [done|done|done|done|done].
  - assert (a_textOpen e = false) as Et. { destruct (a_textOpen e) eqn:E0; [|done]. assert (None = Some (a_textIndex e, "text")) by (by apply Ht). done. }
    assert (a_thinkOpen e = false) as Eth. { destruct (a_thinkOpen e) eqn:E0; [|done]. assert (None = Some (a_thinkIndex e, "thinking")) by (by apply Hth). done. }
    unfold close_think. rewrite Eth. unfold close_text. rewrite Et. exists s. done.
Qed.

(** ** Events *)

(** The connection failed, or the checker follows the emitter between events. *)
Definition Good (e : anthropicEmitter) : Prop := match c_err (a_conn e) with Some _ => Partial (a_conn e) | None => exists s, Idle e s end.
Lemma sim_partial e s : Sim e s -> Partial (a_conn e).
Proof. intros [[] Hat]. apply (at_partial _ s); [done|congruence]. Qed.
Lemma idle_good e s : Idle e s -> Good e.
Proof. intros H. unfold Good. destruct (c_err (a_conn e)); [apply (sim_partial _ s), H|eauto]. Qed.
Lemma good_partial e : Good e -> Partial (a_conn e).
Proof. unfold Good. destruct (c_err (a_conn e)); [done|]. intros [s [H _]]. by eapply sim_partial. Qed.
Lemma emit_failed e ev err : c_err (a_conn e) = Some err -> fst (a_Emit e ev) = e.
Proof. intros H. unfold a_Emit. by rewrite H. Qed.

(** A delta to the open block. *)
Lemma idle_delta e s i k d : Idle e s -> as_open s = Some (i, k) -> jstr (field "type" (sort_keys d)) = delta_type k -> Idle (a_delta i d e) s.
Proof. intros [Hs Hnt] Ho Hd. split; [|done]. apply sim_frame; [done|]. eapply check_delta; [apply Hs|done|done]. Qed.
Lemma text_good e s ev : Idle e s -> c_err (a_conn e) = None -> Type_ ev = StreamText -> Good (fst (a_Emit e ev)).
Proof.
  intros Hi He Ht. unfold a_Emit. rewrite He, Ht. cbv zeta. set (d := JObj [("type", JStr "text_delta"); ("text", JStr (Text ev))]). cbn [fst]. destruct (a_textOpen e) eqn:Eo.
  - apply (idle_good _ s). apply (idle_delta e s _ "text"); [done| |done]. apply (inv_text _ _ (proj1 (proj1 Hi))). done.
  - destruct (idle_close e s Hi) as (s1 & Hs1 & Ho1 & Et1 & Eth1 & Enx1).
    assert (close_text (close_think e) = close_think e) as Eq. { unfold close_text at 1. assert (a_textOpen (close_think e) = a_textOpen e) as -> by (unfold close_think, closeBlock; destruct (a_thinkOpen e); [by destruct (default false _)|done]). by rewrite Eo. }
    rewrite Eq in *. set (e1 := close_think e) in *. eapply idle_good, (idle_delta _ (mkAState Streaming (a_nextIndex e1 + 1) (Some (a_nextIndex e1, "text"))) _ "text"); [|done|done].
    split; [|done]. apply (sim_open e1 s1 text_block "text"); try done; [by apply list_elem_of_In; left|cbn; lia].
Qed.
Lemma thinking_good e s ev : Idle e s -> c_err (a_conn e) = None -> Type_ ev = StreamThinking -> Good (fst (a_Emit e ev)).
Proof.
  intros Hi He Ht. unfold a_Emit. rewrite He, Ht. cbv zeta. set (d := JObj [("type", JStr "thinking_delta"); ("thinking", JStr (Text ev))]). cbn [fst]. destruct (a_thinkOpen e) eqn:Eo.
  - apply (idle_good _ s). apply (idle_delta e s _ "thinking"); [done| |done]. apply (inv_think _ _ (proj1 (proj1 Hi))). done.
  - destruct (idle_close e s Hi) as (s1 & Hs1 & Ho1 & Et1 & Eth1 & Enx1). assert (close_think e = e) as Eq by (unfold close_think; by rewrite Eo).
    rewrite Eq in *. set (e1 := close_text e) in *. eapply idle_good, (idle_delta _ (mkAState Streaming (a_nextIndex e1 + 1) (Some (a_nextIndex e1, "thinking"))) _ "thinking"); [|done|done].
    split; [|done]. apply (sim_open e1 s1 thinking_block "thinking"); try done; [by apply list_elem_of_In; right; left|cbn; lia].
Qed.
Lemma idle_same e e' s : a_conn e' = a_conn e -> a_nextIndex e' = a_nextIndex e -> a_openBlocks e' = a_openBlocks e -> a_textOpen e' = a_textOpen e -> a_textIndex e' = a_textIndex e ->
  a_thinkOpen e' = a_thinkOpen e -> a_thinkIndex e' = a_thinkIndex e -> Idle e s -> Good e'.
Proof. intros E1 E2 E3 E4 E5 E6 E7 [Hs Hnt]. apply (idle_good _ s). split; [by apply (sim_same e)|done]. Qed.
Lemma plain_good e ev : Good e -> plain ev -> Good (fst (a_Emit e ev)).
Proof.
  intros Hg [Hnt Hne]. destruct (c_err (a_conn e)) as [err|] eqn:He; [by rewrite (emit_failed _ _ err)|]. pose proof Hg as Hg'. unfold Good in Hg'. rewrite He in Hg'. destruct Hg' as [s Hi].
  destruct (Type_ ev) eqn:Et; try done; [| by eapply text_good | by eapply thinking_good | |]; unfold a_Emit; rewrite He, Et; cbn [fst].
  - destruct (ev_Usage ev); [|done]. by eapply (idle_same e).
  - destruct (ev_Usage ev); [|done]. by eapply (idle_same e).
  - destruct (String.eqb _ _); [done|]. by eapply (idle_same e).
Qed.

(** ** Tool calls *)

(** The block of the tool at index [i] is open. *)
Definition InTool (i : Z) (e : anthropicEmitter) : Prop := exists s idx, Sim e s /\ as_open s = Some (idx, "tool_use") /\ a_blocks e !! i = Some idx.
Lemma intool_partial i e : InTool i e -> Partial (a_conn e).
Proof. intros (s & idx & H & _). by eapply sim_partial. Qed.
Lemma tool_start_open e id name i : Good e -> c_err (a_conn e) = None -> InTool i (fst (a_Emit e (tool_start id name i))).
Proof.
  intros Hg He. unfold Good in Hg. rewrite He in Hg. destruct Hg as [s Hi]. unfold a_Emit. rewrite He. change (Type_ (tool_start id name i)) with StreamToolStart. cbv iota zeta. cbn [fst]. unfold a_tool_start.
  destruct (idle_close e s Hi) as (s1 & Hs1 & Ho1 & Et1 & Eth1 & _). set (e1 := close_text (close_think e)) in *.
  exists (mkAState Streaming (a_nextIndex e1 + 1) (Some (a_nextIndex e1, "tool_use"))), (a_nextIndex e1). split; [|split; [done|by cbn; rewrite lookup_insert_eq]].
  match goal with |- context [openBlock _ ?b] => apply (sim_open e1 s1 b "tool_use") end; try done; [by apply list_elem_of_In; right; right; left|cbn; lia].
Qed.
Lemma tool_args_open e name args i : InTool i e -> InTool i (fst (a_Emit e (tool_args name args i))).
Proof.
  intros H. destruct (c_err (a_conn e)) as [err|] eqn:He; [by rewrite (emit_failed _ _ err)|]. destruct H as (s & idx & Hs & Ho & Hb). unfold a_Emit. rewrite He. change (Type_ (tool_args name args i)) with StreamToolDelta. cbv iota zeta. cbn [fst].
  change (ToolIndex (tool_args name args i)) with i. rewrite Hb. cbv zeta iota. rewrite Hb. exists s, idx. split; [|split; [done|exact Hb]].
  apply sim_frame; [done|]. eapply check_delta; [apply Hs|exact Ho|done].
Qed.
Lemma tool_end_good e name i : InTool i e -> c_err (a_conn e) = None -> Good (fst (a_Emit e (tool_end name i))).
Proof.
  intros (s & idx & Hs & Ho & Hb) He. unfold a_Emit. rewrite He. change (Type_ (tool_end name i)) with StreamToolEnd. cbv iota zeta. cbn [fst]. change (ToolIndex (tool_end name i)) with i. rewrite Hb.
  assert (a_textOpen e = false) as Et. { destruct (a_textOpen e) eqn:E0; [|done]. assert (as_open s = Some (a_textIndex e, "text")) by (apply (inv_text _ _ (proj1 Hs)); done). congruence. }
  assert (a_thinkOpen e = false) as Eth. { destruct (a_thinkOpen e) eqn:E0; [|done]. assert (as_open s = Some (a_thinkIndex e, "thinking")) by (apply (inv_think _ _ (proj1 Hs)); done). congruence. }
  apply (idle_good _ (s <| as_open := None |>)). split; [|done]. apply (sim_close e s idx "tool_use"); try done; unfold closeBlock; by destruct (default false _).
Qed.
Section Frames.
Variable range_ : gmap Z bool -> list Z.
Notation feedA := (feed (anthropic_emitter range_)).
Lemma feed_failed e evs err : c_err (a_conn e) = Some err -> feedA e evs = e.
Proof. intros H. induction evs as [|ev evs IH]; [done|]. unfold feed. cbn [fold_left em_Emit anthropic_emitter]. rewrite (emit_failed e ev err H). exact IH. Qed.
Lemma group_good e id name args i : Good e -> Good (feedA e (tool_group id name args i)).
Proof.
  intros Hg. destruct (c_err (a_conn e)) as [err|] eqn:He; [by rewrite (feed_failed _ _ err)|]. pose proof (tool_start_open e id name i Hg He) as H1.
  unfold tool_group, feed. cbn [fold_left em_Emit anthropic_emitter]. set (e1 := fst (a_Emit e (tool_start id name i))) in *. pose proof (tool_args_open e1 name args i H1) as H2.
  set (e2 := fst (a_Emit e1 (tool_args name args i))) in *. destruct (c_err (a_conn e2)) as [err|] eqn:He2; [|by apply tool_end_good].
  rewrite (emit_failed e2 _ err) by done. unfold Good. rewrite He2. by eapply intool_partial.
Qed.
Lemma shaped_good env e evs : Good e -> Shaped env evs -> Good (feedA e evs).
Proof.
  intros Hg. induction 1 as [|evs ev _ IH Hp|evs id name args i _ IH _]; [done| |]; rewrite feed_app; [by apply plain_good|by apply group_good].
Qed.
Lemma error_partial e ev : Good e -> Type_ ev = StreamError -> Partial (a_conn (fst (a_Emit e ev))).
Proof.
  intros Hg Ht. destruct (c_err (a_conn e)) as [err|] eqn:He; [rewrite (emit_failed _ _ err) by done; by apply good_partial|]. unfold Good in Hg. rewrite He in Hg. destruct Hg as [s [[Hi Hat] _]].
  unfold a_Emit. rewrite He, Ht. cbn [fst]. apply (at_partial _ (s <| as_phase := Failed |>)); [|done]. apply (at_write _ s); [done|rewrite (inv_phase _ _ Hi); done|].
  unfold a_check. rewrite (inv_phase _ _ Hi). reflexivity.
Qed.
Lemma prefix_group t id name args i : t `prefix_of` tool_group id name args i -> t = [] \/ t = [tool_start id name i] \/ t = [tool_start id name i; tool_args name args i] \/ t = tool_group id name args i.
Proof.
  intros [r Hr]. unfold tool_group in *. destruct t as [|a t]; [by left|]. injection Hr as <- Hr. destruct t as [|b t]; [by right; left|]. injection Hr as <- Hr. destruct t as [|c t]; [by right; right; left|].
  injection Hr as <- Hr. destruct t; [by right; right; right|done].
Qed.
Lemma cutoff_partial env e t : Good e -> CutOff env t -> Partial (a_conn (feedA e t)).
Proof.
  intros Hg [|ev Ht|id name args i t' _ Hp]; [by apply good_partial|by apply error_partial|].
  destruct (c_err (a_conn e)) as [err|] eqn:He; [rewrite (feed_failed _ _ err) by done; by apply good_partial|]. pose proof (tool_start_open e id name i Hg He) as H1.
  destruct (prefix_group _ _ _ _ _ Hp) as [ -> |[ -> |[ -> | -> ]]]; [by apply good_partial| | |by apply good_partial, group_good].
  - by eapply intool_partial.
  - eapply intool_partial. by apply tool_args_open.
Qed.

(** ** Start and end *)

Lemma closeBlock_finished i e : a_finished (closeBlock i e) = a_finished e.
Proof. unfold closeBlock. by destruct (default false _). Qed.
Lemma close_think_finished e : a_finished (close_think e) = a_finished e.
Proof. unfold close_think. destruct (a_thinkOpen e); [apply closeBlock_finished|done]. Qed.
Lemma close_text_finished e : a_finished (close_text e) = a_finished e.
Proof. unfold close_text. destruct (a_textOpen e); [apply closeBlock_finished|done]. Qed.
Lemma tool_start_finished ev e : a_finished (a_tool_start ev e) = a_finished e.
Proof. unfold a_tool_start. cbn. by rewrite close_text_finished, close_think_finished. Qed.
Lemma emit_finished e ev : a_finished (fst (a_Emit e ev)) = a_finished e.
Proof.
  unfold a_Emit. destruct (c_err (a_conn e)); [done|]. destruct (Type_ ev); cbn [fst]; cbv zeta.
  - by destruct (ev_Usage ev).
  - destruct (a_textOpen e); [done|]. cbn. apply close_think_finished.
  - destruct (a_thinkOpen e); [done|]. cbn. apply close_text_finished.
  - apply tool_start_finished.
  - cbn. destruct (a_blocks e !! ToolIndex ev); [done|apply tool_start_finished].
  - destruct (a_blocks e !! ToolIndex ev); [apply closeBlock_finished|done].
  - by destruct (ev_Usage ev).
  - by destruct (String.eqb _ _).
  - done.
Qed.
Lemma feed_finished evs : forall e, a_finished (feedA e evs) = a_finished e.
Proof. induction evs as [|ev evs IH]; intros e; [done|]. unfold feed in *. cbn [fold_left em_Emit anthropic_emitter]. rewrite IH. apply emit_finished. Qed.
(** With no block open, closing the blocks of the map does nothing. *)
Lemma close_rest l : forall e, (forall i, default false (a_openBlocks e !! i) = false) -> fold_left (fun e idx => closeBlock idx e) l e = e.
Proof. induction l as [|i l IH]; intros e H; [done|]. cbn. assert (closeBlock i e = e) as -> by (unfold closeBlock; by rewrite H). by apply IH. Qed.

Lemma finish_frames e : Good e -> a_finished e = false ->
  let '(e', r) := a_Finish range_ e in exists s, check_all fresh (c_out (a_conn e')) = Some s /\ (as_phase s = Stopped <-> r = None).
Proof.
  intros Hg Hf. unfold a_Finish. rewrite Hf. destruct (c_err (a_conn e)) as [err|] eqn:He.
  { rewrite bool_decide_eq_true_2 by done. cbn [orb]. destruct (good_partial e Hg) as (s & Hs & Hp). exists s. split; [done|]. by split. }
  rewrite bool_decide_eq_false_2 by (by intros [x Hx]). cbn [orb]. unfold Good in Hg. rewrite He in Hg. destruct Hg as [s Hi].
  assert (Idle (e <| a_finished := true |>) s) as Hi1 by (destruct Hi as [Hs Hnt]; split; [by apply (sim_same e)|done]).
  destruct (idle_close _ s Hi1) as (s1 & [Hinv Hat] & Ho & _). set (e1 := close_text (close_think (e <| a_finished := true |>))) in *. cbv zeta.
  rewrite close_rest. 2: { intros i. destruct (default false (a_openBlocks e1 !! i)) eqn:Eb; [|done]. apply (inv_blocks _ _ Hinv) in Eb as [k Ek]. congruence. }
  assert (At (a_conn (a_frame "message_delta" (a_final e1) e1)) (s1 <| as_phase := Ending |>)) as Hat2.
  { apply (at_write _ s1); [done|by rewrite (inv_phase _ _ Hinv)|]. unfold a_check. rewrite (inv_phase _ _ Hinv), Ho. reflexivity. }
  set (e2 := a_frame "message_delta" (a_final e1) e1) in *.
  assert (At (a_conn (a_frame "message_stop" (JObj [("type", JStr "message_stop")]) e2)) (s1 <| as_phase := Stopped |>)) as Hat3 by (by apply (at_write _ _ _ _ Hat2)).
  unfold At in Hat3. destruct (c_err (a_conn (a_frame "message_stop" (JObj [("type", JStr "message_stop")]) e2))) eqn:He3; [|by eexists].
  destruct Hat3 as (s' & Hs' & Hp'). exists s'. split; [done|]. by split.
Qed.
Lemma new_good clock link model requestID : Good (NewAnthropicEmitter clock (mkConn [] 0 None link) model requestID).
Proof.
  set (e0 := mkAnthropic (mkConn [] 0 None link) model (uniqueMessageID clock requestID) ∅ 0 false (-1) false (-1) ∅ no_usage false "" false).
  assert (At (a_conn (a_frame "message_start" (message_start e0) e0)) (mkAState Streaming 0 None)) as H1 by (by apply (at_write _ fresh)).
  apply (idle_good _ (mkAState Streaming 0 None)). split; [|done]. split; [|by apply (at_write _ _ _ _ H1)].
  constructor; cbn; try done; intros i; rewrite ?lookup_empty; split; try done; [by intros [k Hk]|by intros [? _]|by intros [? _]].
Qed.

(** (C2) Whatever the upstream sends, in whatever dialect, and whenever the connection
    fails, the frames an Anthropic client receives keep the protocol: numbered
    blocks, one open at a time, deltas of the type of the open block, every block
    closed before the message ends.  The stream is complete exactly when the pump
    reports success. *)
Theorem anthropic_stream_wellformed (env : PumpEnv) (clock : Z) (link : nat -> option string) (model requestID : string) (body : Body) :
  let '(q, err, _) := canonicalStreamPump (anthropic_emitter range_) (NewAnthropicEmitter clock (mkConn [] 0 None link) model requestID) env body in
  exists s, check_all fresh (match q_emitter q with Some e => c_out (a_conn e) | None => [] end) = Some s /\ (as_phase s = Stopped <-> err = None).
Proof.
  set (new := NewAnthropicEmitter clock (mkConn [] 0 None link) model requestID). assert (Good new) as Hn by apply new_good.
  assert (forall evs, Shaped env evs -> a_finished (feedA new evs) = false) as Hfin by (intros evs _; rewrite feed_finished; done).
  pose proof (pump_outcome (anthropic_emitter range_) new env body) as H. destruct (canonicalStreamPump _ _ _ _) as [[q err] u]. destruct err as [err|].
  - destruct H as [(evs & t & Hs & Hc & He)|(evs & e & Hs & Hf & ->)].
    + unfold emitted in He. destruct (q_emitter q) as [e|]; [|by exists fresh]. rewrite feed_app in He. subst e.
      destruct (cutoff_partial env (feedA new evs) t) as (s & H1 & H2); [by eapply shaped_good|done|]. exists s. by split.
    + pose proof (finish_frames (feedA new evs)) as Hff. cbn [em_Finish anthropic_emitter] in Hf. rewrite Hf in Hff. destruct Hff as (s & H1 & H2); [by eapply shaped_good|by eapply Hfin|]. exists s. split; [done|]. by rewrite H2.
  - destruct H as (evs & e & Hs & Hf & ->). pose proof (finish_frames (feedA new evs)) as Hff. cbn [em_Finish anthropic_emitter] in Hf. rewrite Hf in Hff.
    destruct Hff as (s & H1 & H2); [by eapply shaped_good|by eapply Hfin|]. exists s. by split.
Qed.
End Frames.
