(* ===== verification/StreamSamples.v ===== *)
(** * Streams through the pump, end to end

    Concrete upstream bodies, read, decoded, pumped and emitted.  The theorems
    record where a client does not receive what the upstream said. *)

From Stdlib Require Import Ascii.
From S2P Require Import Prelude Hash Text EventStream Json SSE Emitters Decoders Validation Pump PumpProofs AnthropicProofs.

Definition handler (kind : string) : PumpEnv := mkPumpEnv no_reason (fun s => s) (fun _ => 0) (fun l => l) true false kind [] true.
Definition line_up : Conn := mkConn [] 0 None (fun _ => None).
Definition upstream (events : list string) (end_ : option string) : Body := mkBody (concat (map (fun s => bytes ("data: " +:+ js s) ++ [10; 10]) events)) end_.
Definition in_order (m : gmap Z bool) : list Z := (map_to_list m).*1.
Definition sent (protocol kind : string) (body : Body) : list Frame * option string :=
  let '(c, err, _) := streamTo in_order 1 2 protocol "m" "r" (handler kind) line_up body in (c_out c, err).
Definition to_openai : string -> Body -> list Frame * option string := sent "openai_chat".
Definition to_responses : string -> Body -> list Frame * option string := sent "openai_responses".
Definition to_anthropic : string -> Body -> list Frame * option string := sent "anthropic".

(** The delta and the finish reason of a chunk. *)
Definition chunk_of (f : Frame) : option (Json * Json) :=
  match f with EventFrame _ d => match field "choices" d with JArr [c] => Some (field "delta" c, field "finish_reason" c) | _ => None end | DoneFrame => None end.
Definition name_of_frame (f : Frame) : string := match f with EventFrame n _ => n | DoneFrame => "" end.
Definition tool_chunk (name args id : string) : string := "{'choices':[{'delta':{'tool_calls':[{'index':0,'id':'" +:+ id +:+ "','function':{'name':'" +:+ name +:+ "','arguments':'" +:+ args +:+ "'}}]}}]}".

(** A chat stream that calls a tool and ends with its end marker, without a finish
    reason, is reported as a success; the call is held back for good and the client
    sees an empty message with an empty finish reason. *)
Theorem unfinished_tool_call_dropped :
  let '(frames, err) := to_openai "openai_chat" (upstream [tool_chunk "f" "{}" "c"; "[DONE]"] None) in
  err = None /\ omap chunk_of frames = [(JObj [("content", JStr ""); ("role", JStr "assistant")], JNull); (JObj [], JStr "")].
Proof. vm_compute. auto. Qed.

(** Gemini numbers its calls by their place, the decoder gives all of them the
    index 0 and no identity: a chat client receives two calls as one, with the same
    index and identity, and arguments that concatenate to no document. *)
Definition two_calls : Body := upstream ["{'candidates':[{'content':{'parts':[{'functionCall':{'name':'f','args':{'x':1}}},{'functionCall':{'name':'g','args':{'y':2}}}]},'finishReason':'STOP'}]}"] None.
Definition calls_of (f : Frame) : list (Json * Json * Json) :=
  match chunk_of f with
  | Some (d, _) => match field "tool_calls" d with JArr l => map (fun c => (field "index" c, field "id" c, field "arguments" (field "function" c))) l | _ => [] end
  | None => []
  end.
Theorem parallel_gemini_calls_merge :
  let '(frames, err) := to_openai "gemini" two_calls in
  err = None
  /\ flat_map calls_of frames = [(JInt 0, JStr "call_0", JStr ""); (JInt 0, JNull, JStr (js "{'x':1}")); (JInt 0, JStr "call_0", JStr ""); (JInt 0, JNull, JStr (js "{'y':2}"))]
  /\ UnmarshalAny (js "{'x':1}{'y':2}") = None.
Proof. vm_compute. auto. Qed.

(** The message item of a Responses stream is completed before the first tool call
    and never reopened: text after a call is announced for a finished item and is
    in no completed item. *)
Definition text_chunk (t : string) : string := "{'choices':[{'delta':{'content':'" +:+ t +:+ "'}}]}".
Definition done_texts (frames : list Frame) : list Json :=
  omap (fun f => match f with EventFrame "response.output_text.done" d => Some (field "text" d) | _ => None end) frames.
Definition text_deltas (frames : list Frame) : list Json :=
  omap (fun f => match f with EventFrame "response.output_text.delta" d => Some (field "delta" d) | _ => None end) frames.
Theorem text_after_tool_call_lost :
  let '(frames, err) := to_responses "anthropic" (upstream
    ["{'type':'content_block_delta','index':0,'delta':{'type':'text_delta','text':'a'}}";
     "{'type':'content_block_start','index':1,'content_block':{'type':'tool_use','id':'t','name':'f'}}";
     "{'type':'content_block_delta','index':1,'delta':{'type':'input_json_delta','partial_json':'{}'}}"; "{'type':'content_block_stop','index':1}";
     "{'type':'content_block_delta','index':2,'delta':{'type':'text_delta','text':'b'}}";
     "{'type':'message_delta','delta':{'stop_reason':'end_turn'}}"; "{'type':'message_stop'}"] None) in
  err = None /\ text_deltas frames = [JStr "a"; JStr "b"] /\ done_texts frames = [JStr "a"].
Proof. vm_compute. auto. Qed.

(** A read that fails after the upstream named its stop reason ends a committed
    stream with neither an error frame nor an end. *)
Theorem late_read_failure_silent :
  let '(frames, err) := to_responses "anthropic" (upstream ["{'type':'content_block_delta','index':0,'delta':{'type':'text_delta','text':'a'}}"; "{'type':'message_delta','delta':{'stop_reason':'end_turn'}}"] (Some "connection reset")) in
  err = Some "connection reset" /\ map name_of_frame frames
  = ["response.created"; "response.in_progress"; "response.output_item.added"; "response.content_part.added"; "response.output_text.delta"].
Proof. vm_compute. auto. Qed.

(** A tool that takes no arguments streams none; its call is refused and the
    stream fails. *)
Theorem call_without_arguments_refused :
  let '(frames, err) := to_responses "anthropic" (upstream
    ["{'type':'message_start','message':{}}"; "{'type':'content_block_start','index':0,'content_block':{'type':'tool_use','id':'t','name':'now'}}";
     "{'type':'content_block_delta','index':0,'delta':{'type':'input_json_delta','partial_json':''}}"; "{'type':'content_block_stop','index':0}";
     "{'type':'message_delta','delta':{'stop_reason':'tool_use'}}"; "{'type':'message_stop'}"] None) in
  is_Some err /\ map name_of_frame frames = ["response.created"; "response.in_progress"; "response.failed"].
Proof. vm_compute. split; [by eexists|done]. Qed.

(** The same call with an empty object goes through. *)
Example call_with_arguments :
  let '(frames, err) := to_anthropic "openai_chat" (upstream [text_chunk "hi"; tool_chunk "f" "{}" "c"; "{'choices':[{'delta':{},'finish_reason':'tool_calls'}]}"; "[DONE]"] None) in
  err = None /\ map name_of_frame frames
  = ["message_start"; "ping"; "content_block_start"; "content_block_delta"; "content_block_stop"; "content_block_start"; "content_block_delta"; "content_block_stop"; "message_delta"; "message_stop"].
Proof. vm_compute. auto. Qed.

(** A call that arrives after the end is dropped. *)
Definition ended : PumpState openAIEmitter := pump_init <| q_terminal := true |>.
Lemma no_tool_call_after_end_witness :
  let q' := fst (pump_frame openai_emitter (NewOpenAIEmitter 1 2 line_up "m") (handler "openai_chat") ended "" (js (tool_chunk "f" "{}" "c"))) in
  q_terminal ended = true /\ Fewer ended q' /\ q_pendingToolStarts q' = ∅.
Proof.
  cbv zeta. split; [reflexivity|]. assert (Fewer ended (fst (pump_frame openai_emitter (NewOpenAIEmitter 1 2 line_up "m") (handler "openai_chat") ended "" (js (tool_chunk "f" "{}" "c"))))) as H.
  { apply (no_tool_call_after_end openai_emitter (NewOpenAIEmitter 1 2 line_up "m") (handler "openai_chat") ended); reflexivity. }
  split; [exact H|]. destruct H as [H _]. apply map_empty. intros i. apply (lookup_weaken_None _ (q_pendingToolStarts ended)); [reflexivity|exact H].
Defined.
