(* ===== verification/EmitterProofs.v ===== *)
(** * What the emitters write is what a reader reads

    An encoded document has no line breaks, so every frame is one event of the
    stream; the reader of the gateway takes back name and document of each.  Every
    frame of every emitter is such an event: documents of printable bytes under
    fixed names.  [Readable] states this of an emitter; the four dialects are
    instances, and the theorem on streams is proved against it. *)

From Stdlib Require Import Ascii.
From S2P Require Import Prelude Hash Text EventStream EventStreamProofs Json SSE Emitters Decoders Validation Pump PumpProofs StreamSamples.

(** ** Documents *)

Lemma Json_nested_ind (P : Json -> Prop) :
  P JNull -> (forall b, P (JBool b)) -> (forall l, P (JNumber l)) -> (forall s, P (JStr s)) -> (forall l, Forall P l -> P (JArr l)) ->
  (forall l, Forall (fun kv => P (snd kv)) l -> P (JObj l)) -> (forall t, P (JRaw t)) -> forall j, P j.
Proof.
  intros H1 H2 H3 H4 H5 H6 H7. fix IH 1. intros [|b|lit|s|l|l|t]; [exact H1|apply H2|apply H3|apply H4| | |apply H7].
  - apply H5. induction l as [|j l IHl]; [by apply Forall_nil_2|]. by apply Forall_cons_2.
  - apply H6. induction l as [|[k j] l IHl]; [by apply Forall_nil_2|]. by apply Forall_cons_2.
Qed.
(** Numbers are literals without control characters. *)
Fixpoint doc_ok (j : Json) : bool :=
  match j with
  | JNumber lit => forallb (Z.leb 32) (bytes lit)
  | JArr l => forallb doc_ok l
  | JObj l => forallb (fun kv => doc_ok (snd kv)) l
  | _ => true
  end.
Lemma printable_app a b : printable a -> printable b -> printable (a ++ b).
Proof. intros. by apply Forall_app. Qed.
Lemma printable_cons b l : 32 <= b -> printable l -> printable (b :: l).
Proof. intros. by apply Forall_cons_2. Qed.
Lemma comma_printable l : Forall printable l -> printable (comma l).
Proof.
  destruct l as [|x l]; [intros _; by apply Forall_nil_2|]. intros [Hx Hl]%Forall_cons. apply printable_app; [done|]. clear Hx. induction Hl as [|y l Hy _ IH]; [by apply Forall_nil_2|].
  cbn. apply printable_cons; [lia|]. by apply printable_app.
Qed.
Lemma escape_html_printable n : forall l, (length l <= n)%nat -> printable l -> printable (escape_html l).
Proof.
  induction n as [|n IH]; intros l Hn Hl; [destruct l; [by apply Forall_nil_2|cbn in Hn; lia]|]. destruct l as [|c l]; [by apply Forall_nil_2|].
  cbn [length] in Hn. apply Forall_cons in Hl as [Hc Hl]. cbn [escape_html]. destruct ((c =? 60) || (c =? 62) || (c =? 38)) eqn:Ec.
  { assert (c = 60 \/ c = 62 \/ c = 38) as Hc' by lia. apply printable_app; [by apply printable_check|]. apply printable_app; [by destruct Hc' as [ -> |[ -> | -> ]]; apply printable_check|]. apply IH; [lia|done]. }
  assert (printable (c :: escape_html l)) as Hgo by (apply printable_cons; [done|apply IH; [lia|done]]).
  destruct l as [|x l]; [done|]. destruct (decide (x = 128)) as [->|Hx]; [|by destruct x as [|[]|]; try done; repeat (destruct p as [p|p|]; try done)].
  destruct l as [|d l]; [done|]. destruct (_ && _) eqn:Ed; [|done]. assert (d = 168 \/ d = 169) as Hd by lia. apply printable_app; [by apply printable_check|].
  apply printable_app; [by destruct Hd as [ -> | -> ]; apply printable_check|]. apply IH; [cbn in Hn; lia|]. by apply Forall_cons in Hl as [_ [_ Hl]%Forall_cons].
Qed.
Lemma raw_printable t : printable (raw_bytes t).
Proof.
  unfold raw_bytes. apply (escape_html_printable (length (default [] (Compact (bytes t))))); [done|]. destruct (Compact (bytes t)) as [c|] eqn:E; [by eapply Compact_printable|by apply Forall_nil_2].
Qed.
Lemma marshal_printable j : doc_ok j = true -> printable (marshal j).
Proof.
  induction j as [|b|lit|s|l IH|l IH|t] using Json_nested_ind; intros Hok; cbn [marshal].
  - by apply printable_check.
  - destruct b; by apply printable_check.
  - by apply printable_check.
  - apply Marshal_printable.
  - apply printable_cons; [lia|]. apply printable_app; [|by apply printable_check]. apply comma_printable. cbn in Hok. rewrite forallb_forall in Hok. rewrite Forall_forall in IH. apply Forall_forall. intros x Hx.
    apply list_elem_of_In, in_map_iff in Hx as (j & <- & Hj). apply IH; [by apply list_elem_of_In|by apply Hok].
  - apply printable_cons; [lia|]. apply printable_app; [|by apply printable_check]. apply comma_printable. cbn in Hok. rewrite forallb_forall in Hok. rewrite Forall_forall in IH. apply Forall_forall. intros x Hx.
    apply list_elem_of_In, in_map_iff in Hx as (kv & <- & Hj). apply printable_app; [apply Marshal_printable|]. apply printable_cons; [lia|]. apply (IH kv); [by apply list_elem_of_In|by apply (Hok kv)].
  - apply raw_printable.
Qed.
Lemma insert_key_ok k v l : doc_ok v = true -> forallb (fun kv => doc_ok (snd kv)) l = true -> forallb (fun kv => doc_ok (snd kv)) (insert_key k v l) = true.
Proof. intros Hv. induction l as [|kv l IH]; cbn; [by rewrite Hv|]. intros [H1 H2]%andb_true_iff. destruct (String.ltb k (fst kv)); cbn; [by rewrite Hv, H1, H2|]. rewrite H1. by apply IH. Qed.
Lemma sort_keys_ok j : doc_ok j = true -> doc_ok (sort_keys j) = true.
Proof.
  induction j as [|b|lit|s|l IH|l IH|t] using Json_nested_ind; intros Hok; try done; cbn [sort_keys doc_ok] in *.
  - rewrite forallb_forall in *. rewrite Forall_forall in IH. intros x (j & <- & Hj)%in_map_iff. apply IH; [by apply list_elem_of_In|by apply Hok].
  - assert (forall acc, forallb (fun kv => doc_ok (snd kv)) acc = true -> forallb (fun kv => doc_ok (snd kv)) (fold_left (fun acc kv => insert_key (fst kv) (snd kv) acc) (map (fun kv => (fst kv, sort_keys (snd kv))) l) acc) = true) as H; [|by apply H].
    induction l as [|kv l IHl]; intros acc Hacc; [done|]. cbn in Hok |- *. apply andb_true_iff in Hok as [H1 H2]. apply Forall_cons in IH as [I1 I2]. apply IHl; [done|done|]. apply insert_key_ok; [by apply I1|done].
Qed.

(** ** Lines *)

Definition no_newline (l : list Z) : Prop := Forall (fun b => b <> 10) l.
Lemma printable_no_newline l : printable l -> no_newline l.
Proof. intros H. eapply Forall_impl; [exact H|]. cbn. intros. lia. Qed.
Lemma drop_cr_printable l : printable l -> drop_cr l = l.
Proof.
  intros H. unfold drop_cr. destruct (rev l) as [|x r] eqn:E; [done|]. assert (32 <= x) as Hx. { unfold printable in H. rewrite Forall_forall in H. apply H. apply list_elem_of_In. apply in_rev. rewrite E. by left. }
  destruct x as [|p|p]; try done. repeat (destruct p as [p|p|]; try done; try lia).
Qed.
Lemma scan_line line s : forall acc, no_newline line -> Z.of_nat (length (acc ++ line)) < maxLine ->
  scan_lines acc (line ++ 10 :: s) = let '(l, e) := scan_lines [] s in (string_of_bytes (drop_cr (acc ++ line)) :: l, e).
Proof.
  induction line as [|c line IH]; intros acc Hn Hl.
  - rewrite app_nil_r in *. cbn [app scan_lines]. rewrite Z.eqb_refl. assert ((maxLine <=? Z.of_nat (length acc)) = false) as -> by lia. done.
  - apply Forall_cons in Hn as [Hc Hn]. cbn [app scan_lines]. assert ((c =? 10) = false) as -> by lia. rewrite IH; [by rewrite <- app_assoc|done|by rewrite <- app_assoc].
Qed.
Lemma string_app a b : string_of_bytes (a ++ b) = string_of_bytes a +:+ string_of_bytes b.
Proof. unfold string_of_bytes. rewrite map_app. induction (map char_of a) as [|c l IH]; [done|]. exact (f_equal (String c) IH). Qed.
(** A line of the stream: a field name, a blank and printable bytes. *)
Lemma scan_field pre line s : printable (bytes pre) -> printable line -> Z.of_nat (String.length pre + length line) < maxLine ->
  scan_lines [] (bytes pre ++ line ++ 10 :: s) = let '(l, e) := scan_lines [] s in ((pre +:+ string_of_bytes line) :: l, e).
Proof.
  intros Hp Hl Hlen. rewrite app_assoc, (scan_line (bytes pre ++ line) s []).
  - cbn [app]. rewrite drop_cr_printable by (by apply printable_app). by rewrite string_app, string_bytes.
  - apply printable_no_newline, printable_app; done.
  - cbn [app]. rewrite length_app, bytes_length. done.
Qed.

(** ** Frames *)

Definition frame_ok (f : Frame) : Prop :=
  match f with
  | EventFrame name v =>
      doc_ok v = true /\ marshal v <> [] /\ Z.of_nat (length (marshal v)) <= maxSSEEventBytes
      /\ printable (bytes name) /\ TrimSpace (" " +:+ name) = name /\ slen name < maxLine - 7
  | DoneFrame => True
  end.
Definition frame_lines (f : Frame) : list string :=
  match f with
  | EventFrame name v => (if String.eqb name "" then [] else ["event: " +:+ name]) ++ ["data: " +:+ string_of_bytes (marshal v); ""]
  | DoneFrame => ["data: [DONE]"; ""]
  end.
Lemma scan_blank s : scan_lines [] (10 :: s) = let '(l, e) := scan_lines [] s in ("" :: l, e).
Proof. done. Qed.
Lemma scan_frame f s : frame_ok f -> scan_lines [] (frame_bytes f ++ s) = let '(l, e) := scan_lines [] s in (frame_lines f ++ l, e).
Proof.
  assert (forall data, printable data -> Z.of_nat (length data) <= maxSSEEventBytes -> scan_lines [] (bytes "data: " ++ data ++ 10 :: 10 :: s) = let '(l, e) := scan_lines [] s in (("data: " +:+ string_of_bytes data) :: "" :: l, e)) as Hdata.
  { intros data Hp Hl. rewrite scan_field; [|by apply printable_check|done|]. { rewrite scan_blank. by destruct (scan_lines [] s). } unfold maxSSEEventBytes, maxLine in *. cbn [String.length]. change (Z.shiftl 8 20) with 8388608 in Hl. change (Z.shiftl 16 20) with 16777216. lia. }
  destruct f as [name v|].
  - intros (Hd & _ & Hl & Hn & _ & Hnl). unfold frame_bytes, frame_lines. apply marshal_printable in Hd. destruct (String.eqb name "").
    + cbn [app]. rewrite <- !app_assoc. apply Hdata; [done|done].
    + rewrite <- !app_assoc. cbn [app]. rewrite scan_field; [|by apply printable_check|done|]. 2: { rewrite bytes_length. unfold slen in Hnl. cbn [String.length]. lia. }
      rewrite string_bytes. rewrite Hdata by done. by destruct (scan_lines [] s).
  - intros _. change (frame_bytes DoneFrame ++ s) with (bytes "data: " ++ bytes "[DONE]" ++ 10 :: 10 :: s). rewrite Hdata; [done|by apply printable_check|]. done.
Qed.
Lemma scan_frames fs : Forall frame_ok fs -> scan_lines [] (concat (map frame_bytes fs)) = (concat (map frame_lines fs), false).
Proof. induction 1 as [|f fs Hf _ IH]; [done|]. cbn [map concat]. rewrite scan_frame by done. by rewrite IH. Qed.

(** ** Reading *)

Definition idle_reader (lines : list string) : SSEReader := mkSSE lines None false "" "".
Lemma next_data L lines data name : data <> "" -> slen data <= maxSSEEventBytes ->
  next_loop (("data: " +:+ data) :: "" :: lines) (mkSSE L None false name "") = (idle_reader lines, NextEvent name data).
Proof.
  intros Hne Hl. cbn [next_loop]. change (String.eqb ("data: " +:+ data) "") with false. change (HasPrefix ("data: " +:+ data) ":") with false.
  change (HasPrefix ("data: " +:+ data) "event:") with false. change (HasPrefix ("data: " +:+ data) "data:") with true. cbv iota.
  assert (TrimPrefix (TrimPrefix ("data: " +:+ data) "data:") " " = data) as -> by (by destruct data). cbv zeta. change (s_data (mkSSE L None false name "")) with "". cbn [String.length].
  change (Z.of_nat 0) with 0. change (0 <? 0) with false. cbv iota. rewrite Z.add_0_r, Z.add_0_l. fold (slen data). assert ((maxSSEEventBytes <? slen data) = false) as -> by lia.
  change ("" +:+ "" +:+ data) with data. change (String.eqb "" "") with true. cbv iota. change (s_data (mkSSE L None false name "" <| s_data := data |>)) with data.
  assert ((0 <? String.length data)%nat = true) as -> by (destruct data; done). done.
Qed.
Lemma next_name lines name sr : next_loop (("event: " +:+ name) :: lines) sr = next_loop lines (sr <| s_eventName := TrimSpace (" " +:+ name) |>).
Proof.
  cbn [next_loop]. change (String.eqb ("event: " +:+ name) "") with false. change (HasPrefix ("event: " +:+ name) ":") with false. change (HasPrefix ("event: " +:+ name) "event:") with true. cbv iota.
  change (TrimPrefix ("event: " +:+ name) "event:") with (" " +:+ name). reflexivity.
Qed.
Lemma next_frame f lines : frame_ok f -> Next (idle_reader (frame_lines f ++ lines)) = (idle_reader lines, NextEvent (fst (frame_event f)) (snd (frame_event f))).
Proof.
  intros Hok. unfold Next. change (s_done (idle_reader (frame_lines f ++ lines))) with false. cbv iota. change (s_lines (idle_reader (frame_lines f ++ lines))) with (frame_lines f ++ lines). unfold idle_reader at 1.
  destruct f as [name v|]; [|exact (next_data _ lines "[DONE]" "" ltac:(done) ltac:(vm_compute; discriminate))].
  destruct Hok as (_ & Hne & Hl & _ & Ht & _). assert (string_of_bytes (marshal v) <> "") as Hd by (by destruct (marshal v)).
  assert (slen (string_of_bytes (marshal v)) <= maxSSEEventBytes) as Hlen by (unfold slen; rewrite <- bytes_length; unfold bytes, string_of_bytes; rewrite String.list_ascii_of_string_of_list_ascii, !length_map; done).
  unfold frame_lines, frame_event. cbn [fst snd]. destruct (String.eqb name "") eqn:En.
  - apply String.eqb_eq in En as ->. cbn [app]. by apply next_data.
  - cbn [app]. rewrite next_name, Ht. exact (next_data _ lines _ name Hd Hlen).
Qed.
(** A reader takes back every frame, in order, and then the end of the stream. *)
Theorem frames_read_back (fs : list Frame) (fuel : nat) :
  Forall frame_ok fs -> (length fs < fuel)%nat ->
  read_events fuel (NewSSEReader (mkBody (concat (map frame_bytes fs)) None)) = (map frame_event fs, Some NextDone).
Proof.
  intros Hok Hf. unfold NewSSEReader. cbn [body_bytes body_err]. rewrite scan_frames by done. fold (idle_reader (concat (map frame_lines fs))).
  revert fuel Hf. induction Hok as [|f fs H _ IH]; intros [|fuel] Hf; cbn [length] in Hf; try lia; [done|].
  cbn [map concat read_events]. rewrite next_frame by done. fold (read_events fuel). rewrite IH by lia. by destruct (frame_event f).
Qed.

(** ** Frames *)

Definition event_names : list string :=
  [""; "message_start"; "ping"; "content_block_start"; "content_block_delta"; "content_block_stop"; "message_delta"; "message_stop"; "error";
   "response.created"; "response.in_progress"; "response.output_item.added"; "response.content_part.added"; "response.output_text.delta"; "response.output_text.done";
   "response.content_part.done"; "response.output_item.done"; "response.reasoning_summary_text.delta"; "response.function_call_arguments.delta";
   "response.function_call_arguments.done"; "response.failed"; "response.completed"].
Definition is_name (n : string) : bool := existsb (String.eqb n) event_names.
Definition is_obj (v : Json) : bool := match v with JObj _ => true | _ => false end.
Definition wf_frame (f : Frame) : Prop := match f with EventFrame name v => is_name name && is_obj v && doc_ok v = true | DoneFrame => True end.
Definition out_ok (c : Conn) : Prop := Forall wf_frame (c_out c).
Lemma write_ok f c : out_ok c -> wf_frame f -> out_ok (write f c).
Proof. unfold out_ok, write. intros H Hf. destruct (c_err c); [done|]. destruct (c_link c (c_calls c)); [done|]. cbn. apply Forall_app. split; [done|]. apply Forall_cons_2; [done|by apply Forall_nil_2]. Qed.
(** The limit of the reader on the size of an event. *)
Definition small (f : Frame) : Prop := Z.of_nat (length (frame_bytes f)) <= maxSSEEventBytes.

Lemma names_ok n : is_name n = true -> forallb (Z.leb 32) (bytes n) && String.eqb (TrimSpace (" " +:+ n)) n && (String.length n <? 64)%nat = true.
Proof.
  unfold is_name. intros H. apply existsb_exists in H as (m & Hm & E). apply String.eqb_eq in E as ->.
  assert (forallb (fun n => forallb (Z.leb 32) (bytes n) && String.eqb (TrimSpace (" " +:+ n)) n && (String.length n <? 64)%nat) event_names = true) as H by (vm_compute; reflexivity).
  rewrite forallb_forall in H. by apply H.
Qed.
Lemma frame_bytes_length name v : (length (marshal v) <= length (frame_bytes (EventFrame name v)))%nat.
Proof. unfold frame_bytes. generalize (marshal v). intros l. rewrite !length_app. lia. Qed.
Lemma wf_small_ok f : wf_frame f -> small f -> frame_ok f.
Proof.
  destruct f as [name v|]; [|done]. intros H Hs. unfold wf_frame in H. apply andb_true_iff in H as [H Hd]. apply andb_true_iff in H as [Hn Ho]. destruct v as [| | | | |l|]; try discriminate Ho.
  apply names_ok in Hn. apply andb_true_iff in Hn as [Hn Hl]. apply andb_true_iff in Hn as [Hp Ht]. pose proof (frame_bytes_length name (JObj l)) as Hlen. apply Nat.ltb_lt in Hl.
  split; [done|]. split; [discriminate|]. split; [unfold small in Hs; lia|]. split; [by apply printable_check|]. split; [by apply String.eqb_eq|].
  unfold slen, maxLine. change (Z.shiftl 16 20) with 16777216. lia.
Qed.

Lemma printable_digits s : str_forall is_digit s = true -> forallb (Z.leb 32) (bytes s) = true.
Proof.
  induction s as [|c s IH]; [done|]. cbn [str_forall]. intros [Hc Hs]%andb_true_iff. change (bytes (String c s)) with (byte_of c :: bytes s). cbn [forallb]. rewrite (IH Hs), andb_true_r.
  unfold is_digit in Hc. unfold byte_of. apply andb_true_iff in Hc as [Hc _]. apply Nat.leb_le in Hc. unfold nat_of_ascii in Hc. apply Z.leb_le. lia.
Qed.
Lemma int_ok z : forallb (Z.leb 32) (bytes (Itoa z)) = true.
Proof.
  destruct (decide (0 <= z)) as [Hz|Hz]; [by apply printable_digits, Itoa_digits|]. destruct z as [|p|p]; [lia|lia|]. change (Itoa (Z.neg p)) with ("-" +:+ Itoa (Z.pos p)).
  change (bytes ("-" +:+ Itoa (Z.pos p))) with (45 :: bytes (Itoa (Z.pos p))). cbn [forallb]. apply printable_digits, Itoa_digits. lia.
Qed.
Lemma sort_keys_obj v : is_obj (sort_keys v) = is_obj v.
Proof. by destruct v. Qed.
Lemma event_wf name v : is_name name = true -> is_obj v = true -> doc_ok v = true -> wf_frame (EventFrame name (sort_keys v)).
Proof. intros H1 H2 H3. unfold wf_frame. rewrite H1, sort_keys_obj, H2. cbn. by apply sort_keys_ok. Qed.
(** A document written out in the source: its integers are the only numbers. *)
Ltac doc := cbn [doc_ok forallb map fst snd app JInt andb]; rewrite ?int_ok; done.

(** ** The interface *)

Class Readable {E} (em : StreamEmitter E) : Prop := {
  emit_readable e ev : out_ok (em_conn em e) -> out_ok (em_conn em (fst (em_Emit em e ev)));
  finish_readable e : out_ok (em_conn em e) -> out_ok (em_conn em (fst (em_Finish em e))) }.

Section Readable.
Context {E : Type} (em : StreamEmitter E) `{!Readable em}.
Lemma feed_readable evs : forall e, out_ok (em_conn em e) -> out_ok (em_conn em (feed em e evs)).
Proof. induction evs as [|ev evs IH]; intros e H; [done|]. apply IH. by apply emit_readable. Qed.
Lemma stream_reads_back (new : E) (env : PumpEnv) (body : Body) :
  out_ok (em_conn em new) ->
  let '(q, _, _) := canonicalStreamPump em new env body in
  forall e, q_emitter q = Some e -> Forall small (c_out (em_conn em e)) ->
  read_events (S (length (c_out (em_conn em e)))) (NewSSEReader (mkBody (concat (map frame_bytes (c_out (em_conn em e)))) None)) = (map frame_event (c_out (em_conn em e)), Some NextDone).
Proof.
  intros Hn. pose proof (pump_outcome em new env body) as H. destruct (canonicalStreamPump em new env body) as [[q err] u]. intros e He Hs.
  assert (out_ok (em_conn em e)) as Ho.
  { assert (forall evs r, em_Finish em (feed em new evs) = (e, r) -> out_ok (em_conn em e)) as Hfin.
    { intros evs r Hf. pose proof (finish_readable (feed em new evs) (feed_readable evs new Hn)) as Hr. by rewrite Hf in Hr. }
    destruct err as [err|]; [destruct H as [(evs & t & _ & _ & Hem)|(evs & e' & _ & Hf & Hq)]|destruct H as (evs & e' & _ & Hf & Hq)].
    - unfold emitted in Hem. rewrite He in Hem. subst e. by apply feed_readable.
    - rewrite Hq in He. injection He as ->. by eapply Hfin.
    - rewrite Hq in He. injection He as ->. by eapply Hfin. }
  apply frames_read_back; [|lia]. unfold out_ok in Ho. rewrite Forall_forall in *. intros f Hf. apply wf_small_ok; [by apply Ho|by apply Hs].
Qed.
End Readable.

(** ** Anthropic *)

Lemma a_frame_readable name v e : is_name name && is_obj v && doc_ok v = true -> out_ok (a_conn e) -> out_ok (a_conn (a_frame name v e)).
Proof. intros H Ho. apply andb_true_iff in H as [H Hd]. apply andb_true_iff in H as [Hn Hv]. apply write_ok; [done|by apply event_wf]. Qed.
Lemma openBlock_readable i b e : doc_ok b = true -> out_ok (a_conn e) -> out_ok (a_conn (openBlock i b e)).
Proof. intros Hb H. apply a_frame_readable; [|done]. unfold block_start. cbn [is_obj doc_ok forallb snd JInt]. by rewrite int_ok, Hb. Qed.
Lemma closeBlock_readable i e : out_ok (a_conn e) -> out_ok (a_conn (closeBlock i e)).
Proof. intros H. unfold closeBlock. destruct (default false _); [|done]. apply a_frame_readable; [|done]. unfold block_stop. cbn [is_obj doc_ok forallb snd JInt]. by rewrite int_ok. Qed.
Lemma close_readable e : out_ok (a_conn e) -> out_ok (a_conn (close_think e)) /\ out_ok (a_conn (close_text e)).
Proof. intros H. unfold close_think, close_text. split; [destruct (a_thinkOpen e)|destruct (a_textOpen e)]; try done; by apply (closeBlock_readable _ e). Qed.
Lemma a_delta_readable i d e : doc_ok d = true -> out_ok (a_conn e) -> out_ok (a_conn (a_delta i d e)).
Proof. intros Hd H. apply a_frame_readable; [|done]. unfold block_delta. cbn [is_obj doc_ok forallb snd JInt]. by rewrite int_ok, Hd. Qed.
Lemma a_start_readable ev e : out_ok (a_conn e) -> out_ok (a_conn (a_tool_start ev e)).
Proof. intros H. unfold a_tool_start. apply openBlock_readable; [done|]. apply (close_readable (close_think e)). by apply close_readable. Qed.
Lemma a_final_readable e e1 : out_ok (a_conn e) -> out_ok (a_conn (a_frame "message_delta" (a_final e1) e)).
Proof.
  intros H. apply a_frame_readable; [|done]. unfold a_final. generalize (if String.eqb (a_stopReason e1) "" then StopEndTurn else a_stopReason e1). intros stop.
  destruct (_ || _), (0 <? CacheReadTokens _), (0 <? CacheWriteTokens _); doc.
Qed.
#[global] Instance anthropic_readable range_ : Readable (anthropic_emitter range_).
Proof.
  constructor; cbn [em_conn em_Emit em_Finish anthropic_emitter].
  - intros e ev H. unfold a_Emit. destruct (c_err (a_conn e)); [done|]. cbv zeta. cbn [fst]. destruct (Type_ ev).
    + by destruct (ev_Usage ev).
    + apply a_delta_readable; [done|]. destruct (a_textOpen e); [done|]. refine (openBlock_readable _ text_block _ eq_refl _). by apply (close_readable e).
    + apply a_delta_readable; [done|]. destruct (a_thinkOpen e); [done|]. refine (openBlock_readable _ thinking_block _ eq_refl _). by apply (close_readable e).
    + by apply a_start_readable.
    + apply a_delta_readable; [done|]. destruct (a_blocks e !! ToolIndex ev); [done|by apply a_start_readable].
    + destruct (a_blocks e !! ToolIndex ev); [by apply closeBlock_readable|done].
    + by destruct (ev_Usage ev).
    + by destruct (String.eqb _ _).
    + by apply a_frame_readable.
  - intros e H. unfold a_Finish. destruct (_ || _); [done|]. cbv zeta. cbn [fst]. apply a_frame_readable; [done|]. apply a_final_readable.
    assert (forall l e, out_ok (a_conn e) -> out_ok (a_conn (fold_left (fun e idx => closeBlock idx e) l e))) as Hl by (induction l as [|i l IH]; intros e0 He; [done|by apply IH, closeBlock_readable]).
    apply Hl. apply (close_readable (close_think (e <| a_finished := true |>))). by apply close_readable.
Qed.

(** ** OpenAI chat completions *)

Lemma o_chunk_readable payload e : forallb (fun kv => doc_ok (snd kv)) payload = true -> out_ok (o_conn e) -> out_ok (o_conn (o_chunk payload e)).
Proof. intros Hp H. apply write_ok; [done|]. apply event_wf; [done|done|]. cbn [doc_ok]. rewrite forallb_app, Hp. doc. Qed.
Lemma o_usage_ok u : doc_ok (o_usage_json u) = true.
Proof. unfold o_usage_json. doc. Qed.
#[global] Instance openai_readable : Readable openai_emitter.
Proof.
  constructor; cbn [em_conn em_Emit em_Finish openai_emitter].
  - intros e ev H. unfold o_Emit. destruct (c_err (o_conn e)); [done|]. destruct (Type_ ev); cbn [fst]; try done; try (by apply o_chunk_readable).
    + destruct (_ || _); [done|]. cbn [fst]. apply o_chunk_readable; [|done]. unfold choice. doc.
    + destruct (_ || _); [done|]. cbn [fst]. apply o_chunk_readable; [|done]. unfold choice. doc.
  - intros e H. unfold o_Finish. destruct (_ || _); [done|]. cbv zeta. cbn [fst]. apply write_ok; [|done]. apply o_chunk_readable.
    + rewrite forallb_app. apply andb_true_iff. split; [done|]. destruct (o_usage _) as [u|]; [|done]. cbn [forallb snd]. by rewrite o_usage_ok.
    + destruct (o_emittedAny _); [done|]. by apply o_chunk_readable.
Qed.

(** ** OpenAI responses *)

Lemma p_event_readable name payload e : is_name name = true -> forallb (fun kv => doc_ok (snd kv)) payload = true -> out_ok (p_conn e) -> out_ok (p_conn (p_event name payload e)).
Proof.
  intros Hn Hp H. unfold p_event. destruct (c_err (p_conn e)); [done|]. apply write_ok; [done|]. apply event_wf; [done|done|]. cbn [doc_ok]. rewrite forallb_app, Hp. doc.
Qed.
Lemma openMessage_readable e : out_ok (p_conn e) -> out_ok (p_conn (openMessage e)).
Proof. intros H. unfold openMessage. destruct (p_msgOpen e); [done|]. apply p_event_readable; [done|done|]. by apply p_event_readable. Qed.
Lemma closeMessage_readable e : out_ok (p_conn e) -> out_ok (p_conn (closeMessage e)).
Proof. intros H. unfold closeMessage. destruct (_ || _); [done|]. cbv zeta. apply p_event_readable; [done|done|]. apply p_event_readable; [done|done|]. by apply p_event_readable. Qed.
Lemma p_usage_ok u : doc_ok (p_usage_json u) = true.
Proof. unfold p_usage_json. doc. Qed.
Lemma observe_conn u e : p_conn (observeUsage u e) = p_conn e.
Proof. by destruct u. Qed.
#[global] Instance responses_readable : Readable responses_emitter.
Proof.
  constructor; cbn [em_conn em_Emit em_Finish responses_emitter].
  - intros e ev H. unfold p_Emit. destruct (c_err (p_conn e)); [done|]. destruct (Type_ ev); cbv zeta; cbn [fst]; rewrite ?observe_conn; try done.
    + apply p_event_readable; [done|done|]. by apply (openMessage_readable e).
    + by apply p_event_readable.
    + destruct (_ || _); [done|]. destruct (_ && _); [done|]. cbn [fst]. apply p_event_readable; [done|doc|]. by apply (closeMessage_readable e).
    + destruct (_ || _); [done|]. destruct (p_toolIdx e !! _); [|done]. destruct (p_toolOutIdx e !! _); [|done]. cbn [fst]. apply p_event_readable; [done|doc|done].
    + destruct (p_toolIdx e !! _); [|done]. destruct (p_toolOutIdx e !! _); [|done]. cbn [fst]. apply p_event_readable; [done|doc|]. apply p_event_readable; [done|doc|done].
    + by apply p_event_readable.
  - intros e H. unfold p_Finish. destruct (_ || _); [done|]. cbv zeta. cbn [fst]. apply p_event_readable; [done| |by apply closeMessage_readable].
    cbn [forallb snd doc_ok]. by rewrite p_usage_ok.
Qed.

(** ** Gemini *)

Lemma g_chunk_readable v e : is_obj v && doc_ok v = true -> out_ok (g_conn e) -> out_ok (g_conn (g_chunk v e)).
Proof. intros Hv H. apply write_ok; [done|]. exact Hv. Qed.
#[global] Instance gemini_readable : Readable gemini_emitter.
Proof.
  constructor; cbn [em_conn em_Emit em_Finish gemini_emitter].
  - intros e ev H. unfold g_Emit. destruct (c_err (g_conn e)); [done|]. destruct (Type_ ev); cbv zeta; cbn [fst]; try done.
    + by destruct (ev_Usage ev).
    + destruct (String.eqb _ _); [done|by apply g_chunk_readable].
    + destruct (String.eqb _ _); [done|by apply g_chunk_readable].
    + destruct (_ || _); [done|]. destruct (_ && _); [done|]. cbn [fst]. destruct (g_toolArgs e !! _); by destruct (String.eqb _ _).
    + destruct (g_toolArgs e !! _); [|done]. cbn [fst]. by destruct (_ && _).
    + destruct (g_toolArgs e !! _) as [b|]; [|done]. destruct (UnmarshalMap _); [|done]. cbn [fst]. by apply (g_chunk_readable _ e).
    + by destruct (ev_Usage ev).
  - intros e H. unfold g_Finish. destruct (g_finished e); [done|]. cbv zeta. cbn [fst]. apply g_chunk_readable; [|done]. destruct (g_usageSeen _ && _); [|done].
    unfold g_metadata. destruct (CacheReadTokens _ =? 0), (ReasoningTokens _ =? 0); doc.
Qed.

(** ** Samples *)

Lemma new_openai_readable clock now link model : out_ok (em_conn openai_emitter (NewOpenAIEmitter clock now (mkConn [] 0 None link) model)).
Proof. by apply Forall_nil_2. Qed.
Lemma new_gemini_readable link model : out_ok (em_conn gemini_emitter (NewGeminiEmitter (mkConn [] 0 None link) model)).
Proof. by apply Forall_nil_2. Qed.
Lemma new_anthropic_readable range_ clock link model requestID : out_ok (em_conn (anthropic_emitter range_) (NewAnthropicEmitter clock (mkConn [] 0 None link) model requestID)).
Proof. unfold NewAnthropicEmitter. apply a_frame_readable; [done|]. apply a_frame_readable; [done|by apply Forall_nil_2]. Qed.
Lemma new_responses_readable clock now link model : out_ok (em_conn responses_emitter (NewResponsesEmitter clock now (mkConn [] 0 None link) model)).
Proof. unfold NewResponsesEmitter. cbv zeta. apply p_event_readable; [done|doc|]. apply p_event_readable; [done|doc|by apply Forall_nil_2]. Qed.
(** For every upstream body: when no frame that reached the client through emitter
    [em], started as [new], is above the reader's limit of 8 MiB, the bytes that
    reached the client read back as those frames and then end cleanly. *)
Definition reads_back {E} (em : StreamEmitter E) (new : E) : Prop :=
  forall (env : PumpEnv) (body : Body) e,
  q_emitter (fst (fst (canonicalStreamPump em new env body))) = Some e ->
  let out := c_out (em_conn em e) in
  Forall small out ->
  read_events (S (length out)) (NewSSEReader (mkBody (concat (map frame_bytes out)) None)) = (map frame_event out, Some NextDone).
Lemma readable_reads_back {E} (em : StreamEmitter E) `{!Readable em} new : out_ok (em_conn em new) -> reads_back em new.
Proof.
  intros Hn env body e He. pose proof (stream_reads_back em new env body Hn) as H.
  destruct (canonicalStreamPump em new env body) as [[q err] u]. by apply H.
Qed.

(** (C22) Whatever reached the client can be read back by the gateway's own reader, in
    each of the four dialects (Anthropic, OpenAI chat completions, OpenAI responses,
    Gemini), for every upstream body and every failure of the client's connection:
    the bytes split into the events that were written, each with its name and
    document, and end cleanly.  No text, name or argument of the upstream adds or
    splits an event.  The condition is that no single frame is above 8 MiB, the
    limit of the reader on an event; the responses dialect repeats the whole text of
    a message in one frame, so a longer answer is outside the theorem. *)
Theorem client_stream_reads_back range_ clock now link model requestID :
  let conn := mkConn [] 0 None link in
  reads_back (anthropic_emitter range_) (NewAnthropicEmitter clock conn model requestID) /\
  reads_back openai_emitter (NewOpenAIEmitter clock now conn model) /\
  reads_back responses_emitter (NewResponsesEmitter clock now conn model) /\
  reads_back gemini_emitter (NewGeminiEmitter conn model).
Proof.
  cbv zeta. split_and!; apply readable_reads_back; try apply _;
    [apply new_anthropic_readable|apply new_openai_readable|apply new_responses_readable|apply new_gemini_readable].
Qed.

Lemma small_check fs : forallb (fun f => Z.of_nat (length (frame_bytes f)) <=? maxSSEEventBytes) fs = true -> Forall small fs.
Proof. intros H. apply Forall_forall. intros f Hf. rewrite forallb_forall in H. apply list_elem_of_In in Hf. by apply Z.leb_le, H. Qed.
Lemma client_stream_reads_back_witness :
  let r := canonicalStreamPump openai_emitter (NewOpenAIEmitter 1 2 line_up "m") (handler "gemini") two_calls in
  exists e, q_emitter (fst (fst r)) = Some e /\ length (c_out (o_conn e)) = 6%nat
    /\ read_events 7 (NewSSEReader (mkBody (concat (map frame_bytes (c_out (o_conn e)))) None)) = (map frame_event (c_out (o_conn e)), Some NextDone).
Proof.
  cbv zeta. pose proof (client_stream_reads_back (fun _ => []) 1 2 (fun _ => None) "m" "") as (_ & H & _).
  assert (exists e, q_emitter (fst (fst (canonicalStreamPump openai_emitter (NewOpenAIEmitter 1 2 line_up "m") (handler "gemini") two_calls))) = Some e
    /\ length (c_out (o_conn e)) = 6%nat /\ forallb (fun f => Z.of_nat (length (frame_bytes f)) <=? maxSSEEventBytes) (c_out (o_conn e)) = true) as (e & He & Hl & Hs) by (eexists; split; [vm_compute; reflexivity|split; vm_compute; reflexivity]).
  exists e. split; [exact He|]. split; [exact Hl|]. specialize (H (handler "gemini") two_calls e He (small_check _ Hs)).
  change (em_conn openai_emitter e) with (o_conn e) in H. rewrite Hl in H. exact H.
Defined.
