(* ===== verification/CacheWiring.v ===== *)
(** * The caches in the request path ([src/internal/httpapi/cache_wiring.go],
      [cache_wiring_semantic.go] and the cache part of [server.go])

    Which requests may use the response cache and the semantic cache, under which
    key and scope, what is stored and what a configuration swap does.  A handler
    captures the cache generation when it starts; the key, the similarity scope
    and the guards are computed from it and the configuration.  Each operation
    reads or writes the server under a lock of its own, so the operations of
    several requests and of a swap may interleave between them: the store of a
    response is several steps: the snapshot with its guard, the entry, the store.

    The snapshots of the configuration that one operation takes are the same one.
    Writing the response, releasing the budget hold and the events of a hit are
    left out.

    The upstream adapters ([doPath], [registered]) are parameters: the embedding
    deployment is a remote service. *)

From Stdlib Require Import SpecFloat Ascii.
From S2P Require Import Prelude Config Hash Text Router LinkedList Cache Semantic EventStream Json SSE Emitters Decoders.

(** ** Configuration *)

Record SemanticCacheConfig := mkSemConf {
  smc_Enabled : bool; smc_EmbeddingDeployment : string; smc_EmbeddingPath : string;
  smc_Threshold : float64; smc_MaxEntries : Z; smc_TTLSeconds : Z
}.
Record CacheConfig := mkCacheConf {
  cc_Enabled : bool; cc_TTLSeconds : Z; cc_MaxEntries : Z; cc_MaxBodyBytes : Z; cc_Semantic : SemanticCacheConfig
}.
(** What the caches read of the configuration; a provider comes with its
    [ForwardHeaders]. *)
Record Settings := mkSettings {
  w_Cache : CacheConfig; w_ClientAuthEnabled : bool; w_Providers : list (ProviderConfig * list string)
}.
Definition providerConfigFor (cfg : Settings) (providerID : string) : option ProviderConfig :=
  fst <$> List.find (fun p => String.eqb (pc_ID (fst p)) providerID) (w_Providers cfg).

(** ** Requests *)

(** [http.CanonicalHeaderKey]: a name with a byte that is no token byte is kept;
    otherwise the first letter and every letter after a hyphen is a capital. *)
Definition token_byte (c : ascii) : bool :=
  let n := nat_of_ascii c in
  ((48 <=? n) && (n <=? 57) || (65 <=? n) && (n <=? 90) || (97 <=? n) && (n <=? 122))%nat ||
  existsb (Ascii.eqb c) (String.list_ascii_of_string "!#$%&'*+-.^_`|~").
Fixpoint canonical_go (up : bool) (s : string) : string :=
  match s with
  | EmptyString => EmptyString
  | String c s => String (if up then upper_ascii c else lower_ascii c) (canonical_go (Ascii.eqb c "-"%char) s)
  end.
Definition CanonicalHeaderKey (s : string) : string :=
  if forallb token_byte (String.list_ascii_of_string s) then canonical_go true s else s.

(** The header of a request, by canonical name. *)
Abbreviation Header := (gmap string (list string)).
Definition Values (h : Header) (name : string) : list string := default [] (h !! CanonicalHeaderKey name).
Definition Get (h : Header) (name : string) : string := default "" (head (Values h name)).

Definition extractClientKey (h : Header) : string :=
  let k := Get h "x-api-key" in
  if negb (String.eqb k "") then TrimSpace k
  else
    let auth := TrimSpace (Get h "Authorization") in
    if String.eqb auth "" then ""
    else if HasPrefix (ToLower auth) "bearer " then TrimSpace (str_drop 7 auth)
    else auth.
Definition keyDigest (key : string) : string := EncodeToString (Sha256.Sum256 (bytes key)).

(** What a handler passes to the caches about a request. *)
Record Request := mkRequest {
  r_Header : Header; r_Path : string; r_Raw : list Z; r_Stream : bool; r_Temperature : option float64;
  r_TopP : option float64; r_HasTools : bool; r_Model : string; r_RequireNoTraining : bool; r_Candidates : list Scored
}.

(** ** The context of a key *)

(** The request headers that an eligible provider would be sent. *)
Definition session_headers : list string :=
  ["x-claude-code-session-id"; "x-litellm-session-id"; "x-litellm-trace-id"; "x-session-id"].
Definition forwardNames (cfg : Settings) (candidates : list Scored) : gset string :=
  let providerIDs : gset string := list_to_set (map sd_ProviderID candidates) in
  fold_left (fun acc p => if bool_decide (pc_ID (fst p) ∈ providerIDs)
                          then fold_left (fun acc n => if String.eqb n "" then acc else {[CanonicalHeaderKey n]} ∪ acc) (snd p) acc
                          else acc)
    (w_Providers cfg) (list_to_set (map CanonicalHeaderKey session_headers)).
(** The map's keys are written in increasing order; a header that is absent is a nil slice. *)
Definition forwarded (cfg : Settings) (r : Request) : list (string * Json) :=
  map (fun name => (name, match Values (r_Header r) name with [] => JNull | vs => JArr (map JStr vs) end))
    (slice_stable String.ltb (elements (forwardNames cfg (r_Candidates r)))).
Definition clientKeyDigest (cfg : Settings) (r : Request) : string :=
  if w_ClientAuthEnabled cfg then keyDigest (extractClientKey (r_Header r)) else "".
(** The two members marked [omitempty]. *)
Definition context_members (digest : string) (fwd : list (string * Json)) : list (string * Json) :=
  (if String.eqb digest "" then [] else [("client_key_digest", JStr digest)]) ++
  (match fwd with [] => [] | _ => [("forwarded_headers", JObj fwd)] end).

(** ** The exact-match cache *)

Definition deterministic (r : Request) : bool :=
  match r_Temperature r with Some t => feq t f_zero | None => true end &&
  match r_TopP r with Some p => feq p (f_of_int 1) | None => true end.
Definition exact_context (cfg : Settings) (r : Request) (generation : Z) : list Z :=
  marshal (JObj (("generation", JInt generation) :: context_members (clientKeyDigest cfg r) (forwarded cfg r))).
(** [None] is a request that may not be cached. *)
Definition cacheLookupFor (cfg : Settings) (r : Request) (generation : Z) : option string :=
  if negb (cc_Enabled (w_Cache cfg)) || r_Stream r then None
  else if negb (deterministic r) then None
  else if cc_MaxBodyBytes (w_Cache cfg) <? Z.of_nat (length (r_Raw r)) then None
  else Some (EncodeToString (Sha256.Sum256 (key_text (bytes (r_Path r)) (r_Raw r) (exact_context cfg r generation)))).

(** ** The semantic cache *)

Record semanticContext := mkSemCtx {
  sx_scope : string; sx_vector : list float32; sx_promptSHA256 : string; sx_embeddingDep : string; sx_requireNoTrain : bool
}.
Definition semanticScope_text (cfg : Settings) (r : Request) : list Z :=
  marshal (JObj (("path", JStr (r_Path r)) :: ("model", JStr (r_Model r)) :: context_members (clientKeyDigest cfg r) (forwarded cfg r))).
Definition semanticScope (cfg : Settings) (r : Request) : string := EncodeToString (Sha256.Sum256 (semanticScope_text cfg r)).

(** *** The text of a prompt *)

Record PromptMessage := mkPromptMsg { pm_Role : string; pm_Content : list Z }.
#[export] Instance eta_PromptMessage : Eta PromptMessage := fun m => mkPromptMsg (pm_Role m) (pm_Content m).
Record PromptBlock := mkPromptBlock { pb_Type : string; pb_Text : string }.
#[export] Instance eta_PromptBlock : Eta PromptBlock := fun m => mkPromptBlock (pb_Type m) (pb_Text m).
Definition d_messages : Dec (list PromptMessage) :=
  d_struct [("messages", d_slice (mkPromptMsg "" []) (d_struct [("role", fld pm_Role d_string); ("content", fld pm_Content d_raw)]))].
Definition d_blocks : Dec (list PromptBlock) :=
  d_slice (mkPromptBlock "" "") (d_struct [("type", fld pb_Type d_string); ("text", fld pb_Text d_string)]).
Definition newline : string := String "010"%char "".
Definition prompt_line (role text : string) : string := role +:+ ": " +:+ text +:+ newline.
Definition message_text (m : PromptMessage) : string :=
  match ok_or (Unmarshal "" d_string (pm_Content m)) with
  | Some plain => if String.eqb plain "" then "" else prompt_line (pm_Role m) plain
  | None =>
      match ok_or (Unmarshal [] d_blocks (pm_Content m)) with
      | None => ""
      | Some blocks =>
          foldr (fun b s => (if (String.eqb (pb_Type b) "text" || String.eqb (pb_Type b) "input_text") && negb (String.eqb (pb_Text b) "")
                             then prompt_line (pm_Role m) (pb_Text b) else "") +:+ s) "" blocks
      end
  end.
Definition semanticPromptText (raw : list Z) : option string :=
  match ok_or (Unmarshal [] d_messages raw) with
  | None | Some [] => None
  | Some ms =>
      let text := TrimSpace (foldr (fun m s => message_text m +:+ s) "" ms) in
      if String.eqb text "" || (Z.shiftl 32 10 <? Z.of_nat (String.length text)) then None else Some text
  end.

(** *** Embedding *)

(** [strings.Index(s, "/")]: the text before the first slash and after it. *)
Fixpoint cut_slash (s : string) : option (string * string) :=
  match s with
  | EmptyString => None
  | String c s => if Ascii.eqb c "/"%char then Some ("", s)
                  else match cut_slash s with Some (a, b) => Some (String c a, b) | None => None end
  end.
Definition d_float32 : Dec float32 := fun cur raw =>
  match value_of raw with
  | JNumber lit => match ParseFloat32 lit with Some x => (x, true) | None => (cur, false) end
  | JNull => (cur, true)
  | _ => (cur, false)
  end.
Definition d_embedding : Dec (list (list float32)) :=
  d_struct [("data", d_slice [] (d_struct [("embedding", d_slice (f_zero : float32) d_float32)]))].
(** A call to a provider: the provider, the path and the payload. *)
Record Call := mkUpstreamCall { uc_Provider : ProviderConfig; uc_Path : string; uc_Payload : list Z }.

Section Wiring.
(** The adapters: whether a provider has one, and what a call answers: an error,
    or a status with the body read up to the limit or an error. *)
Variable registered : string -> bool.
Variable doPath : Call -> option (Z * option (list Z)).

(** The last model of that ID; [""] is none. *)
Definition upstreamModel (p : ProviderConfig) (id : string) : string :=
  fold_left (fun acc m => if String.eqb (mc_ID m) id then mc_Model m else acc) (pc_Models p) "".
(** The call that embeds a text, if there is one. *)
Definition embed_call (cfg : Settings) (text : string) : option Call :=
  let sem := cc_Semantic (w_Cache cfg) in
  '(provider, model) ← cut_slash (smc_EmbeddingDeployment sem);
  p ← providerConfigFor cfg provider;
  let upstream := upstreamModel p model in
  if String.eqb upstream "" then None
  else if negb (registered (pc_ID p)) then None
  else Some (mkUpstreamCall p (smc_EmbeddingPath sem) (marshal (JObj [("input", JStr text); ("model", JStr upstream)]))).
(** [None] is an error. *)
Definition embedText (cfg : Settings) (text : string) : option (list float32) :=
  call ← embed_call cfg text;
  '(status, body) ← doPath call;
  if negb (status =? 200) then None
  else
    body ← body;
    match ok_or (Unmarshal [] d_embedding body) with
    | Some (v :: _) => match v with [] => None | _ => Some v end
    | _ => None
    end.

(** The guards of [semanticPrepare] before the prompt is read. *)
Definition semantic_admits (cfg : Settings) (r : Request) : bool :=
  smc_Enabled (cc_Semantic (w_Cache cfg)) && negb (r_Stream r) && negb (r_HasTools r) &&
  String.eqb (Get (r_Header r) "x-nexaroute-no-cache") "" && deterministic r &&
  negb (cc_MaxBodyBytes (w_Cache cfg) <? Z.of_nat (length (r_Raw r))).
Definition semanticPrepare (cfg : Settings) (r : Request) : option semanticContext :=
  if negb (semantic_admits cfg r) then None
  else
    text ← semanticPromptText (r_Raw r);
    vector ← embedText cfg text;
    Some (mkSemCtx (semanticScope cfg r) vector (EncodeToString (Sha256.Sum256 (bytes text)))
            (smc_EmbeddingDeployment (cc_Semantic (w_Cache cfg))) (r_RequireNoTraining r)).

(** ** The server *)

Record Server := mkServer { sv_cfg : Settings; sv_generation : Z; sv_respCache : Cache; sv_semCache : SemanticCache }.

(** *** Serving *)

(** The answer of a panic-free cache; the caches never panic ([CacheProofs], [SemanticProofs]). *)
Definition cacheServe (s : Server) (r : Request) (key : option string) (now : Time) : option (Server * option Entry) :=
  match key with
  | None => Some (s, None)
  | Some key =>
      if negb (String.eqb (Get (r_Header r) "x-nexaroute-no-cache") "")
      then Some (mkServer (sv_cfg s) (sv_generation s) (Bypass (sv_respCache s)) (sv_semCache s), None)
      else '(c, e) ← Lookup (sv_respCache s) key now;
           Some (mkServer (sv_cfg s) (sv_generation s) c (sv_semCache s), e)
  end.
Definition semanticServe (s : Server) (sc : option semanticContext) (now : Time) : option (Server * option (SemanticEntry * float64)) :=
  match sc with
  | None => Some (s, None)
  | Some sc =>
      if String.eqb (sx_scope sc) "" then Some (s, None)
      else '(c, e) ← SemLookup (sv_semCache s) (sx_scope sc) (sx_vector sc) (sx_requireNoTrain sc) now;
           Some (mkServer (sv_cfg s) (sv_generation s) (sv_respCache s) c, e)
  end.

(** *** Storing: the snapshot with its guard, the entry, then the store *)

Definition cacheStore_check (s : Server) (key : option string) (generation status : Z) (body : string) : option string :=
  key ← key;
  if negb (status =? 200) || String.eqb body "" then None
  else if negb (cc_Enabled (w_Cache (sv_cfg s))) || negb (generation =? sv_generation s) then None
  else Some key.
Definition cacheStore_commit (s : Server) (key : string) (e : Entry) : option Server :=
  c ← Store (sv_respCache s) key e;
  Some (mkServer (sv_cfg s) (sv_generation s) c (sv_semCache s)).

(** The entry [semanticStore] builds from the configuration it sees. *)
Definition semantic_entry (cfg : Settings) (sc : semanticContext) (deploymentID body : string) (status : Z) (now : Time) : SemanticEntry :=
  let providerID := match cut_slash deploymentID with Some (p, _) => if String.eqb p "" then deploymentID else p | None => deploymentID end in
  let '(trains, sourceModel) :=
    match providerConfigFor cfg providerID with
    | Some p => (dh_TrainsOnData (pc_DataHandling p),
                 fold_left (fun acc m => if String.eqb (providerID +:+ "/" +:+ mc_ID m) deploymentID then mc_Model m else acc) (pc_Models p) "")
    | None => ("unknown", "")
    end in
  mkSem body "application/json" status now (sx_vector sc) (sx_scope sc) deploymentID trains (sx_requireNoTrain sc)
    (sx_embeddingDep sc) (sx_promptSHA256 sc) sourceModel.
Definition semanticStore_check (s : Server) (sc : option semanticContext) (generation status : Z) (body : string) : option semanticContext :=
  sc ← sc;
  if negb (status =? 200) || String.eqb body "" then None
  else if negb (smc_Enabled (cc_Semantic (w_Cache (sv_cfg s)))) || negb (generation =? sv_generation s) then None
  else Some sc.
Definition semanticStore_commit (s : Server) (e : SemanticEntry) : option Server :=
  c ← SemStore (sv_semCache s) e;
  Some (mkServer (sv_cfg s) (sv_generation s) (sv_respCache s) c).

(** *** The cache part of a configuration swap, under the runtime lock *)

Definition applyConfig (s : Server) (cfg : Settings) : Server :=
  mkServer cfg (uint64 (sv_generation s + 1)) (Invalidate (sv_respCache s)) (SemInvalidate (sv_semCache s)).
Definition CacheTTL (cfg : Settings) : Duration := int64 (cc_TTLSeconds (w_Cache cfg) * Second).
Definition newSemanticCache (cfg : Settings) : SemanticCache :=
  let sem := cc_Semantic (w_Cache cfg) in
  NewSemantic (if 0 <? smc_TTLSeconds sem then int64 (smc_TTLSeconds sem * Second) else CacheTTL cfg)
    (smc_Threshold sem) (smc_MaxEntries sem) 0.
(** The caches of a new server. *)
Definition NewServer (cfg : Settings) : Server :=
  mkServer cfg 1 (New (CacheTTL cfg) (cc_MaxEntries (w_Cache cfg)) (cc_MaxBodyBytes (w_Cache cfg))) (newSemanticCache cfg).

(** ** Requests and swaps interleaved *)

(** A complete upstream answer: the deployment, the status and the body. *)
Record Answer := mkAnswer { an_Deployment : string; an_Status : Z; an_Body : string }.
Inductive Served :=
| FromCache (e : Entry)
| FromSemantic (e : SemanticEntry) (score : float64)
| FromUpstream (a : Answer).
(** How far the handler of a request is, from the generation it captured to the
    semantic store. *)
Inductive Phase :=
| PStart
| PKeyed (key : option string)
| PMissed (key : option string)
| PPrepared (key : option string) (sc : option semanticContext)
| PUpstream (key : option string) (sc : option semanticContext)
| PAnswered (key : option string) (sc : option semanticContext) (a : Answer)
| PChecked (store : option string) (sc : option semanticContext) (a : Answer)
| PStored (sc : option semanticContext) (a : Answer)
| PSemChecked (sc : option semanticContext) (a : Answer)
| PSemBuilt (e : option SemanticEntry) (a : Answer)
| PDone (served : Served).
(** [h_KeyConf] and [h_ScopeConf] record the configurations the key and the scope
    were computed from (the one at the start until then): the two snapshots of one
    handler may be on either side of a swap. *)
Record Handler := mkHandler {
  h_Request : Request; h_Generation : Z; h_KeyConf : Settings; h_ScopeConf : Settings; h_Phase : Phase
}.
(** The server, the handlers, and a record of what was stored by which handler. *)
Record World := mkWorld {
  wd_Server : Server;
  wd_Handlers : gmap nat Handler;
  wd_Stored : list (Handler * string * Entry);
  wd_SemStored : list (Handler * SemanticEntry)
}.

Definition to_phase (h : Handler) (p : Phase) : Handler := mkHandler (h_Request h) (h_Generation h) (h_KeyConf h) (h_ScopeConf h) p.
Definition keyed (cfg : Settings) (h : Handler) (p : Phase) : Handler := mkHandler (h_Request h) (h_Generation h) cfg (h_ScopeConf h) p.
Definition prepared (cfg : Settings) (h : Handler) (p : Phase) : Handler := mkHandler (h_Request h) (h_Generation h) (h_KeyConf h) cfg p.
Definition set_phase (w : World) (i : nat) (h : Handler) (p : Phase) : gmap nat Handler := <[i := to_phase h p]> (wd_Handlers w).
(** The handlers reject a body that is no JSON document before they look at the
    caches, and are registered for fixed paths. *)
Definition plain_request (r : Request) : Prop := 0 ∉ bytes (r_Path r) /\ 0 ∉ r_Raw r.

(** One atomic step of one handler, or a swap. *)
Inductive wstep : World -> World -> Prop :=
| s_swap s hs l l' cfg : wstep (mkWorld s hs l l') (mkWorld (applyConfig s cfg) hs l l')
| s_start s hs l l' i r : hs !! i = None -> plain_request r ->
    wstep (mkWorld s hs l l') (mkWorld s (<[i := mkHandler r (sv_generation s) (sv_cfg s) (sv_cfg s) PStart]> hs) l l')
| s_key w i h : wd_Handlers w !! i = Some h -> h_Phase h = PStart ->
    wstep w (mkWorld (wd_Server w)
      (<[i := keyed (sv_cfg (wd_Server w)) h (PKeyed (cacheLookupFor (sv_cfg (wd_Server w)) (h_Request h) (h_Generation h)))]> (wd_Handlers w))
      (wd_Stored w) (wd_SemStored w))
| s_serve w i h key now s r : wd_Handlers w !! i = Some h -> h_Phase h = PKeyed key ->
    cacheServe (wd_Server w) (h_Request h) key now = Some (s, r) ->
    wstep w (mkWorld s (set_phase w i h (match r with Some e => PDone (FromCache e) | None => PMissed key end))
               (wd_Stored w) (wd_SemStored w))
| s_prepare w i h key : wd_Handlers w !! i = Some h -> h_Phase h = PMissed key ->
    wstep w (mkWorld (wd_Server w)
      (<[i := prepared (sv_cfg (wd_Server w)) h (PPrepared key (semanticPrepare (sv_cfg (wd_Server w)) (h_Request h)))]> (wd_Handlers w))
      (wd_Stored w) (wd_SemStored w))
| s_semserve w i h key sc now s r : wd_Handlers w !! i = Some h -> h_Phase h = PPrepared key sc ->
    semanticServe (wd_Server w) sc now = Some (s, r) ->
    wstep w (mkWorld s (set_phase w i h (match r with Some (e, sco) => PDone (FromSemantic e sco) | None => PUpstream key sc end))
               (wd_Stored w) (wd_SemStored w))
| s_answer w i h key sc a : wd_Handlers w !! i = Some h -> h_Phase h = PUpstream key sc ->
    wstep w (mkWorld (wd_Server w) (set_phase w i h (PAnswered key sc a)) (wd_Stored w) (wd_SemStored w))
| s_check w i h key sc a : wd_Handlers w !! i = Some h -> h_Phase h = PAnswered key sc a ->
    wstep w (mkWorld (wd_Server w)
      (set_phase w i h (PChecked (cacheStore_check (wd_Server w) key (h_Generation h) (an_Status a) (an_Body a)) sc a))
      (wd_Stored w) (wd_SemStored w))
| s_skip w i h sc a : wd_Handlers w !! i = Some h -> h_Phase h = PChecked None sc a ->
    wstep w (mkWorld (wd_Server w) (set_phase w i h (PStored sc a)) (wd_Stored w) (wd_SemStored w))
| s_store w i h key sc a now s : wd_Handlers w !! i = Some h -> h_Phase h = PChecked (Some key) sc a ->
    cacheStore_commit (wd_Server w) key (mkEntry (an_Body a) "application/json" (an_Status a) now (an_Deployment a)) = Some s ->
    wstep w (mkWorld s (set_phase w i h (PStored sc a))
      ((h, key,
        mkEntry (an_Body a) "application/json" (an_Status a) now (an_Deployment a)) :: wd_Stored w)
      (wd_SemStored w))
| s_semcheck w i h sc a : wd_Handlers w !! i = Some h -> h_Phase h = PStored sc a ->
    wstep w (mkWorld (wd_Server w)
      (set_phase w i h (PSemChecked (semanticStore_check (wd_Server w) sc (h_Generation h) (an_Status a) (an_Body a)) a))
      (wd_Stored w) (wd_SemStored w))
| s_build w i h sc a now : wd_Handlers w !! i = Some h -> h_Phase h = PSemChecked sc a ->
    wstep w (mkWorld (wd_Server w)
      (set_phase w i h (PSemBuilt (sc ← sc; Some (semantic_entry (sv_cfg (wd_Server w)) sc (an_Deployment a) (an_Body a) (an_Status a) now)) a))
      (wd_Stored w) (wd_SemStored w))
| s_semskip w i h a : wd_Handlers w !! i = Some h -> h_Phase h = PSemBuilt None a ->
    wstep w (mkWorld (wd_Server w) (set_phase w i h (PDone (FromUpstream a))) (wd_Stored w) (wd_SemStored w))
| s_semstore w i h e a s : wd_Handlers w !! i = Some h -> h_Phase h = PSemBuilt (Some e) a ->
    semanticStore_commit (wd_Server w) e = Some s ->
    wstep w (mkWorld s (set_phase w i h (PDone (FromUpstream a))) (wd_Stored w) ((h, e) :: wd_SemStored w)).
Definition init_world (cfg : Settings) : World := mkWorld (NewServer cfg) ∅ [] [].
Definition reachable (cfg : Settings) : World -> Prop := rtc wstep (init_world cfg).
End Wiring.
