(* ===== verification/CacheWiringProofs.v ===== *)
(** * Isolation of cached responses

    Whatever requests and configuration swaps interleave, a response served from
    the exact-match cache was stored by a request of the same generation, path,
    body, client key and forwarded headers; one served from the semantic cache by
    a request of the same path, model, client key and forwarded headers, under the
    same privacy requirement.  The client key and the headers are those the
    configuration of each handler, at the moment it computed its key or scope,
    makes it look at.  Both hold up to a SHA-256 collision of the texts that are
    hashed. *)

From Stdlib Require Import SpecFloat Ascii.
From S2P Require Import Prelude Config Hash Text Router LinkedList Cache CacheProofs Semantic EventStream EventStreamProofs Json SSE Emitters Decoders CacheWiring.

(** ** Reading back the context of a key *)

(** A text inside a JSON string: quotes only after a backslash. *)
Fixpoint escaped (l : list Z) : bool :=
  match l with
  | [] => true
  | b :: l => if b =? 92 then match l with [] => false | _ :: l => escaped l end
              else negb (b =? 34) && escaped l
  end.
Lemma escaped_app n : forall l m, (length l <= n)%nat -> escaped l = true -> escaped m = true -> escaped (l ++ m) = true.
Proof.
  induction n as [|n IH]; intros [|b l] m Hn Hl Hm; try done; cbn [length] in Hn; [lia|]. cbn [app escaped] in *.
  destruct (b =? 92).
  - destruct l as [|c l]; [done|]. cbn [app]. apply IH; [cbn in Hn; lia|done|done].
  - apply andb_prop in Hl as [-> Hl]. apply IH; [lia|done|done].
Qed.
Lemma escaped_cut n : forall l m r r', (length l <= n)%nat -> escaped l = true -> escaped m = true ->
  l ++ 34 :: r = m ++ 34 :: r' -> l = m /\ r = r'.
Proof.
  induction n as [|n IH]; intros [|b l] [|b' m] r r' Hn Hl Hm He; cbn [length app] in *; try lia.
  - by injection He.
  - injection He as <- _. discriminate Hm.
  - by injection He.
  - injection He as <- _. discriminate Hm.
  - injection He as -> _. discriminate Hl.
  - injection He as <- He. cbn [escaped] in Hl, Hm. destruct (b =? 92).
    + destruct l as [|c l], m as [|c' m]; try done. cbn [app] in He. injection He as <- He.
      destruct (IH l m r r') as [-> ->]; [cbn in Hn; lia|done..].
    + apply andb_prop in Hl as [_ Hl], Hm as [_ Hm]. destruct (IH l m r r') as [-> ->]; [lia|done..].
Qed.

Lemma escaped_plain l : Forall (fun b => b <> 34 /\ b <> 92) l -> escaped l = true.
Proof.
  induction 1 as [|b l [H1 H2] _ IH]; [done|]. cbn [escaped]. destruct (Z.eqb_spec b 92); [done|].
  by destruct (Z.eqb_spec b 34).
Qed.
Lemma hex_digit_plain z : 0 <= z < 16 -> byte_of (hex_digit z) <> 34 /\ byte_of (hex_digit z) <> 92.
Proof. intros Hz. unfold byte_of, hex_digit. destruct (Z.ltb_spec z 10); rewrite N_ascii_embedding by lia; lia. Qed.
Lemma escape_byte_escaped b : 0 <= b < 128 -> escaped (escape_byte b) = true.
Proof.
  intros Hb. unfold escape_byte. destruct ((b =? 92) || (b =? 34)) eqn:E1; [done|].
  do 5 (match goal with |- escaped (if ?t then _ else _) = _ => destruct t; [done|] end).
  apply orb_false_iff in E1 as [E1 E1'].
  destruct ((b <? 32) || (b =? 60) || (b =? 62) || (b =? 38)).
  - apply (escaped_app 4); [done|done|]. apply escaped_plain. unfold hex2.
    pose proof (Z.mod_pos_bound b 16). pose proof (Z.div_pos b 16). pose proof (Z.div_lt_upper_bound b 16 16).
    repeat apply Forall_cons_2; [apply hex_digit_plain; lia..|by apply Forall_nil_2].
  - apply escaped_plain. repeat constructor; lia.
Qed.
Lemma escape_rune_escaped b s : 128 <= b -> escaped (escape_rune (take (rune_width (b :: s)) (b :: s))) = true.
Proof.
  intros Hb. unfold escape_rune. destruct (_ <=? 1)%nat eqn:El; [done|]. do 2 (case_bool_decide; [done|]).
  apply Nat.leb_gt in El. apply escaped_plain. eapply Forall_impl; [by apply rune_high|]. cbn. lia.
Qed.
Lemma quote_escaped fuel : forall s, Forall is_byte s -> escaped (quote_loop fuel s) = true.
Proof.
  induction fuel as [|fuel IH]; intros [|b s] Hs; try done. cbn [quote_loop]. pose proof Hs as [Hb Hs']%Forall_cons. unfold is_byte in Hb.
  destruct (Z.ltb_spec b 128); (eapply escaped_app; [done| |]).
  - apply escape_byte_escaped. lia.
  - by apply IH.
  - by apply escape_rune_escaped.
  - by apply IH, Forall_drop.
Qed.
(** A JSON string can be cut off a text in one way only. *)
Lemma Marshal_cut s s' r r' : Marshal s ++ r = Marshal s' ++ r' -> Marshal s = Marshal s' /\ r = r'.
Proof.
  unfold Marshal. rewrite <- !app_assoc. cbn [app]. intros [= He].
  eapply escaped_cut in He as [-> ->]; [done|done|apply quote_escaped, bytes_range..].
Qed.

(** ** Digests *)

Lemma Sum256_bytes msg : Forall is_byte (Sha256.Sum256 msg).
Proof.
  unfold Sha256.Sum256. apply Forall_forall. intros b Hb. apply list_elem_of_In, in_flat_map in Hb as (w & _ & Hb).
  unfold Sha256.be in Hb. apply in_map_iff in Hb as (i & <- & _). unfold is_byte.
  change 255 with (Z.ones 8). rewrite Z.land_ones by lia. apply Z.mod_pos_bound. lia.
Qed.
(** The digits of a digest need no escape. *)
Definition plain_digit (b : Z) : Prop := 48 <= b <= 57 \/ 97 <= b <= 102.
Lemma hex_digit_range z : 0 <= z < 16 -> plain_digit (byte_of (hex_digit z)).
Proof. intros Hz. unfold plain_digit, byte_of, hex_digit. destruct (Z.ltb_spec z 10); rewrite N_ascii_embedding by lia; lia. Qed.
Lemma hex_plain l : Forall is_byte l -> Forall plain_digit (bytes (EncodeToString l)).
Proof.
  induction 1 as [|b l Hb _ IH]; [by apply Forall_nil|]. unfold is_byte in Hb. cbn [EncodeToString].
  pose proof (Z.mod_pos_bound b 16). pose proof (Z.div_pos b 16). pose proof (Z.div_lt_upper_bound b 16 16).
  repeat apply Forall_cons_2; [apply hex_digit_range; lia..|exact IH].
Qed.
Lemma quote_plain l : Forall plain_digit l -> quote_loop (length l) l = l.
Proof.
  induction 1 as [|b l Hb _ IH]; [done|]. unfold plain_digit in Hb. cbn [length quote_loop].
  destruct (Z.ltb_spec b 128); [|lia]. rewrite IH. unfold escape_byte.
  repeat match goal with |- context [b =? ?n] => destruct (Z.eqb_spec b n); [lia|] end. by destruct (Z.ltb_spec b 32); [lia|].
Qed.
Lemma digest_inj s s' : Forall plain_digit (bytes s) -> Forall plain_digit (bytes s') -> Marshal s = Marshal s' -> s = s'.
Proof.
  intros Hs Hs'. unfold Marshal. intros [= He]. apply app_inv_tail in He.
  rewrite <- !bytes_length, !quote_plain in He by done. rewrite <- (string_bytes s), <- (string_bytes s'). by f_equal.
Qed.

(** ** The context of a key *)

Definition context_tail (digest : string) (fwd : list (string * Json)) : list Z :=
  concat (map (fun kv => 44 :: Marshal (fst kv) ++ [58] ++ marshal (snd kv)) (context_members digest fwd)) ++ [125].
Lemma marshal_context k v (l : list (string * Json)) digest fwd : l = context_members digest fwd ->
  marshal (JObj ((k, v) :: l)) = [123] ++ Marshal k ++ [58] ++ marshal v ++ context_tail digest fwd.
Proof.
  intros ->. unfold context_tail. cbn [marshal map comma fst snd]. rewrite map_map, <- !app_assoc. reflexivity.
Qed.

(** The forwarded headers of a context, as they are encoded. *)
Definition encoded (fwd : list (string * Json)) : list Z := marshal (JObj fwd).
Definition digest_part (digest : string) : list Z :=
  if String.eqb digest "" then [] else 44 :: Marshal "client_key_digest" ++ [58] ++ Marshal digest.
Definition headers_part (fwd : list (string * Json)) : list Z :=
  match fwd with [] => [] | _ => 44 :: Marshal "forwarded_headers" ++ [58] ++ encoded fwd end.
Lemma context_tail_eq digest fwd : context_tail digest fwd = digest_part digest ++ headers_part fwd ++ [125].
Proof.
  unfold context_tail, context_members, digest_part, headers_part, encoded.
  destruct (String.eqb digest ""), fwd as [|kv fwd]; cbn [app map concat fst snd]; rewrite ?app_nil_r, <- ?app_assoc; reflexivity.
Qed.
Lemma headers_part_inj f f' : headers_part f ++ [125] = headers_part f' ++ [125] -> encoded f = encoded f'.
Proof.
  intros He%app_inv_tail. destruct f as [|kv f], f' as [|kv' f']; [done|done|done|].
  revert He. unfold headers_part. generalize (encoded (kv :: f)), (encoded (kv' :: f')). intros e e' He. by injection He.
Qed.
Lemma names_differ x y : Marshal "client_key_digest" ++ x = Marshal "forwarded_headers" ++ y -> False.
Proof. by intros [He _]%Marshal_cut. Qed.
Lemma context_tail_inj d d' f f' : context_tail d f = context_tail d' f' ->
  (d = "" <-> d' = "") /\ (d <> "" -> Marshal d = Marshal d') /\ encoded f = encoded f'.
Proof.
  rewrite !context_tail_eq. unfold digest_part. destruct (String.eqb_spec d "") as [->|Hd], (String.eqb_spec d' "") as [->|Hd'];
    cbn [app]; intros He.
  - split; [done|]. split; [done|]. by apply headers_part_inj.
  - exfalso. destruct f as [|kv f]; cbn [headers_part app] in He; [done|]. apply (f_equal (@tail Z)) in He. cbn [tail] in He. rewrite <- !app_assoc in He.
    by apply symmetry, names_differ in He.
  - exfalso. destruct f' as [|kv f']; cbn [headers_part app] in He; [done|]. apply (f_equal (@tail Z)) in He. cbn [tail] in He. rewrite <- !app_assoc in He.
    by apply names_differ in He.
  - apply (f_equal (@tail Z)) in He. cbn [tail] in He. rewrite <- !app_assoc in He. apply app_inv_head, (f_equal (@tail Z)) in He. cbn [tail app] in He.
    apply Marshal_cut in He as [Hm He]. split; [done|]. split; [done|]. by apply headers_part_inj.
Qed.

Lemma digits_cut a b x y : Forall (fun c => 48 <= c <= 57) a -> Forall (fun c => 48 <= c <= 57) b ->
  (exists c l, x = c :: l /\ ~ 48 <= c <= 57) -> (exists c l, y = c :: l /\ ~ 48 <= c <= 57) ->
  a ++ x = b ++ y -> a = b /\ x = y.
Proof.
  intros Ha Hb (c & l & -> & Hc) (c' & l' & -> & Hc'). revert b Hb.
  induction Ha as [|d a Hd _ IH]; intros [|d' b] Hb He; cbn [app] in He; [done|..].
  - injection He as -> _. apply Forall_cons in Hb as [Hb _]. lia.
  - injection He as -> _. lia.
  - injection He as -> He. apply Forall_cons in Hb as [_ Hb]. by destruct (IH b Hb He) as [-> ->].
Qed.
Lemma Itoa_bytes z : 0 <= z -> Forall (fun c => 48 <= c <= 57) (bytes (Itoa z)).
Proof.
  intros Hz%Itoa_digits. revert Hz. generalize (Itoa z). induction s as [|c s IH]; [by intros _; apply Forall_nil|].
  cbn [str_forall]. intros [Hc Hs]%andb_prop. constructor; [|by apply IH]. unfold is_digit in Hc. unfold byte_of.
  apply andb_prop in Hc as [H1 H2]. apply Nat.leb_le in H1, H2. unfold nat_of_ascii in H1, H2. lia.
Qed.
Lemma context_tail_head d f : exists c l, context_tail d f = c :: l /\ ~ 48 <= c <= 57.
Proof.
  rewrite context_tail_eq. unfold digest_part, headers_part.
  destruct (String.eqb d ""), f as [|kv f]; cbn [app]; eexists _, _; (split; [reflexivity|lia]).
Qed.
Lemma digest_plain cfg r : Forall plain_digit (bytes (clientKeyDigest cfg r)).
Proof.
  unfold clientKeyDigest, keyDigest. destruct (w_ClientAuthEnabled cfg); [apply hex_plain, Sum256_bytes|by apply Forall_nil].
Qed.
Lemma digest_eq cfg r cfg' r' f f' : context_tail (clientKeyDigest cfg r) f = context_tail (clientKeyDigest cfg' r') f' ->
  clientKeyDigest cfg r = clientKeyDigest cfg' r' /\ encoded f = encoded f'.
Proof.
  intros (H0 & Hm & Hf)%context_tail_inj. split; [|done]. destruct (decide (clientKeyDigest cfg r = "")) as [E|Hne].
  - rewrite E. symmetry. by apply H0.
  - apply digest_inj; [apply digest_plain..|by apply Hm].
Qed.

(** What the two contexts determine. *)
Lemma exact_context_inj cfg r g cfg' r' g' : 0 <= g -> 0 <= g' -> exact_context cfg r g = exact_context cfg' r' g' ->
  g = g' /\ clientKeyDigest cfg r = clientKeyDigest cfg' r' /\ encoded (forwarded cfg r) = encoded (forwarded cfg' r').
Proof.
  intros Hg Hg'. unfold exact_context. erewrite !marshal_context by reflexivity.
  intros He%app_inv_head%app_inv_head%app_inv_head. unfold JInt in He. cbn [marshal] in He.
  apply digits_cut in He as [Hi He]; [|apply Itoa_bytes; lia|apply Itoa_bytes; lia|apply context_tail_head|apply context_tail_head].
  split; [|by apply digest_eq]. apply Itoa_inj. rewrite <- (string_bytes (Itoa g)), <- (string_bytes (Itoa g')). by f_equal.
Qed.

(** ** The forwarded headers, read back *)

(** The headers that bear on the answer: the session headers, and those some
    provider of a candidate is configured to be sent. *)
Definition sent (cfg : Settings) (r : Request) (n : string) : Prop :=
  (exists f, f ∈ session_headers /\ n = CanonicalHeaderKey f) \/
  exists p fs c f, (p, fs) ∈ w_Providers cfg /\ c ∈ r_Candidates r /\ sd_ProviderID c = pc_ID p /\ f ∈ fs /\ f <> "" /\ n = CanonicalHeaderKey f.
(** Every header that bears on [r] bears on [r'] with the same values, as JSON texts. *)
Definition headers_carried (cfg : Settings) (r : Request) (cfg' : Settings) (r' : Request) : Prop :=
  forall n, sent cfg r n -> exists n', sent cfg' r' n' /\ Marshal n' = Marshal n /\
    map Marshal (Values (r_Header r') n') = map Marshal (Values (r_Header r) n).
Definition same_headers (cfg : Settings) (r : Request) (cfg' : Settings) (r' : Request) : Prop :=
  headers_carried cfg r cfg' r' /\ headers_carried cfg' r' cfg r.

Lemma elem_of_names (fs : list string) : forall (acc : gset string) n,
  n ∈ fold_left (fun acc n => if String.eqb n "" then acc else {[CanonicalHeaderKey n]} ∪ acc) fs acc <->
  n ∈ acc \/ exists f, f ∈ fs /\ f <> "" /\ n = CanonicalHeaderKey f.
Proof.
  induction fs as [|f fs IH]; intros acc n; cbn [fold_left]; [set_solver|]. rewrite IH.
  destruct (String.eqb_spec f "") as [->|Hf]; set_solver.
Qed.
Lemma elem_of_forwardNames cfg r n : n ∈ forwardNames cfg (r_Candidates r) <-> sent cfg r n.
Proof.
  unfold forwardNames, sent. set (ids := list_to_set _).
  assert (forall p : ProviderConfig, pc_ID p ∈ ids <-> exists c, c ∈ r_Candidates r /\ sd_ProviderID c = pc_ID p) as Hids.
  { intros p. unfold ids. rewrite elem_of_list_to_set, list_elem_of_fmap. naive_solver. }
  assert (forall (acc : gset string), n ∈ fold_left (fun acc p => if bool_decide (pc_ID (fst p) ∈ ids)
      then fold_left (fun acc n => if String.eqb n "" then acc else {[CanonicalHeaderKey n]} ∪ acc) (snd p) acc else acc) (w_Providers cfg) acc <->
    n ∈ acc \/ exists p fs c f, (p, fs) ∈ w_Providers cfg /\ c ∈ r_Candidates r /\ sd_ProviderID c = pc_ID p /\ f ∈ fs /\ f <> "" /\ n = CanonicalHeaderKey f) as H.
  { induction (w_Providers cfg) as [|[p fs] ps IH]; intros acc; cbn [fold_left fst snd].
    - split; [by left|]. intros [?|(? & ? & ? & ? & H & _)]; [done|]. by apply not_elem_of_nil in H.
    - rewrite IH. clear IH. case_bool_decide as Hp.
      + rewrite elem_of_names. apply Hids in Hp as (c & Hc & Ec). split.
        * intros [[?|(f & ? & ? & ?)]|(p' & fs' & c' & f & ? & ?)]; [by left|right; exists p, fs, c, f; set_solver|right; exists p', fs', c', f; set_solver].
        * intros [?|(p' & fs' & c' & f & [[= -> ->]|Hin]%elem_of_cons & ? & ? & ? & ? & ?)]; [by left; left|left; right; eauto|right; eauto 10].
      + split.
        * intros [?|(p' & fs' & c' & f & ? & ?)]; [by left|right; exists p', fs', c', f; set_solver].
        * intros [?|(p' & fs' & c' & f & [[= -> ->]|Hin]%elem_of_cons & ? & ? & ? & ? & ?)]; [by left|exfalso; apply Hp, Hids; eauto|right; eauto 10]. }
  rewrite H, elem_of_list_to_set, list_elem_of_fmap. naive_solver.
Qed.

(** A header and its values, as they are written. *)
Definition header_json (vs : list string) : Json := match vs with [] => JNull | vs => JArr (map JStr vs) end.
Lemma tail_eq (b : Z) l l' : b :: l = b :: l' -> l = l'.
Proof. by intros [= ->]. Qed.
Lemma texts_cut (l : list string) : forall l' r r',
  concat (map (fun y => 44 :: y) (map marshal (map JStr l))) ++ 93 :: r = concat (map (fun y => 44 :: y) (map marshal (map JStr l'))) ++ 93 :: r' ->
  map Marshal l = map Marshal l' /\ r = r'.
Proof.
  induction l as [|x l IH]; intros [|x' l'] r r'; cbn [map concat app marshal]; [by intros [= ->]|done|done|].
  rewrite <- !app_assoc. intros He%tail_eq. apply Marshal_cut in He as [-> He]. by destruct (IH _ _ _ He) as [-> ->].
Qed.
Lemma header_cut vs vs' r r' : marshal (header_json vs) ++ r = marshal (header_json vs') ++ r' -> map Marshal vs = map Marshal vs' /\ r = r'.
Proof.
  destruct vs as [|v vs], vs' as [|v' vs']; cbn [header_json marshal map comma]; [by intros ->%app_inv_head|done|done|].
  rewrite <- !app_assoc. intros He%app_inv_head. apply Marshal_cut in He as [Hv He]. cbn [app] in He.
  apply texts_cut in He as [Hvs ->]. cbn [map]. by rewrite Hv, Hvs.
Qed.
Definition written (h : Header) (n : string) : list Z * list (list Z) := (Marshal n, map Marshal (Values h n)).
Definition member (h : Header) (n : string) : list Z := Marshal n ++ [58] ++ marshal (header_json (Values h n)).
Lemma member_cut h n h' n' r r' : member h n ++ r = member h' n' ++ r' -> written h n = written h' n' /\ r = r'.
Proof.
  unfold member, written. rewrite <- !app_assoc. intros He. apply Marshal_cut in He as [-> He]. apply app_inv_head in He.
  by apply header_cut in He as [-> ->].
Qed.
Lemma members_cut h h' ns : forall ns' r r',
  concat (map (fun y => 44 :: y) (map (member h) ns)) ++ 125 :: r = concat (map (fun y => 44 :: y) (map (member h') ns')) ++ 125 :: r' ->
  map (written h) ns = map (written h') ns'.
Proof.
  induction ns as [|n ns IH]; intros [|n' ns'] r r'; cbn [map concat app]; [done..|].
  rewrite <- !app_assoc. intros He%tail_eq. apply member_cut in He as [-> He]. f_equal. by eapply IH.
Qed.
Lemma encoded_members h ns : encoded (map (fun n => (n, header_json (Values h n))) ns) = [123] ++ comma (map (member h) ns) ++ [125].
Proof. unfold encoded. cbn [marshal]. by rewrite map_map. Qed.
Lemma encoded_inj h h' ns ns' :
  encoded (map (fun n => (n, header_json (Values h n))) ns) = encoded (map (fun n => (n, header_json (Values h' n))) ns') ->
  map (written h) ns = map (written h') ns'.
Proof.
  rewrite !encoded_members. destruct ns as [|n ns], ns' as [|n' ns']; cbn [map comma app]; [done|done|done|].
  rewrite <- !app_assoc. intros He%tail_eq. apply member_cut in He as [-> He]. f_equal. by eapply members_cut.
Qed.
Definition names (cfg : Settings) (r : Request) : list string := slice_stable String.ltb (elements (forwardNames cfg (r_Candidates r))).
Lemma elem_of_sorted_names cfg r n : n ∈ names cfg r <-> sent cfg r n.
Proof. unfold names. by rewrite slice_stable_perm, elem_of_elements, elem_of_forwardNames. Qed.
Lemma carried cfg r cfg' r' : map (written (r_Header r)) (names cfg r) = map (written (r_Header r')) (names cfg' r') -> headers_carried cfg r cfg' r'.
Proof.
  intros He n Hn%elem_of_sorted_names. apply (list_elem_of_fmap_2 (written (r_Header r))) in Hn. change (fmap ?f ?l) with (map f l) in Hn.
  rewrite He in Hn. apply list_elem_of_fmap in Hn as (n' & E & Hn'%elem_of_sorted_names). exists n'.
  unfold written in E. apply pair_equal_spec in E as [E1 E2]. split_and!; [done|by symmetry..].
Qed.
Lemma forwarded_names cfg r : forwarded cfg r = map (fun n => (n, header_json (Values (r_Header r) n))) (names cfg r).
Proof. unfold forwarded, names. apply map_ext. intros n. by destruct (Values (r_Header r) n). Qed.
Lemma forwarded_inj cfg r cfg' r' : encoded (forwarded cfg r) = encoded (forwarded cfg' r') -> same_headers cfg r cfg' r'.
Proof. rewrite !forwarded_names. intros He%encoded_inj. split; by apply carried. Qed.

(** ** The client, read back *)

(** Two texts that differ but have one digest. *)
Definition collision (t t' : list Z) : Prop := t <> t' /\ EncodeToString (Sha256.Sum256 t) = EncodeToString (Sha256.Sum256 t').
(** Both requests came while clients were told apart, with one key, or both while
    they were not. *)
Definition same_client (cfg : Settings) (r : Request) (cfg' : Settings) (r' : Request) : Prop :=
  w_ClientAuthEnabled cfg = w_ClientAuthEnabled cfg' /\
  (w_ClientAuthEnabled cfg = true -> extractClientKey (r_Header r) = extractClientKey (r_Header r') \/
     collision (bytes (extractClientKey (r_Header r))) (bytes (extractClientKey (r_Header r')))).
Lemma keyDigest_ne k : keyDigest k <> "".
Proof. intros H%(f_equal String.length). unfold keyDigest in H. by rewrite EncodeToString_length, Sum256_length in H. Qed.
Lemma client_inj cfg r cfg' r' : clientKeyDigest cfg r = clientKeyDigest cfg' r' -> same_client cfg r cfg' r'.
Proof.
  unfold clientKeyDigest, same_client. destruct (w_ClientAuthEnabled cfg), (w_ClientAuthEnabled cfg'); intros He.
  - split; [done|]. intros _. destruct (decide (extractClientKey (r_Header r) = extractClientKey (r_Header r'))) as [|Hne]; [by left|right].
    split; [|exact He]. intros E. apply Hne. by rewrite <- (string_bytes (extractClientKey (r_Header r))), E, string_bytes.
  - by apply keyDigest_ne in He.
  - by apply symmetry, keyDigest_ne in He.
  - done.
Qed.

(** ** Entries of the semantic cache's heap *)

(** No node of [h'] carries an entry that [h] did not have at that place. *)
Definition entries_kept (h h' : heap SemanticEntry) : Prop :=
  forall x n', h' !! x = Some n' -> exists n, h !! x = Some n /\ n_entry n' = n_entry n.
#[local] Instance entries_kept_po : PreOrder entries_kept.
Proof.
  split; [intros h x n Hn; by exists n|]. intros h1 h2 h3 H1 H2 x n3 Hn3.
  destruct (H2 x n3 Hn3) as (n2 & Hn2 & ->). exact (H1 x n2 Hn2).
Qed.
Lemma set_prev_kept h x v h' : set_prev h x v = Some h' -> entries_kept h h'.
Proof.
  unfold set_prev. destruct (h !! x) as [n|] eqn:Hx; [|done]. intros [= <-] y n' [[<- <-]|[_ Hy]]%lookup_insert_Some; eauto.
Qed.
Lemma set_next_kept h x v h' : set_next h x v = Some h' -> entries_kept h h'.
Proof.
  unfold set_next. destruct (h !! x) as [n|] eqn:Hx; [|done]. intros [= <-] y n' [[<- <-]|[_ Hy]]%lookup_insert_Some; eauto.
Qed.
Ltac kept :=
  repeat match goal with
    | H : (match ?o with Some _ => _ | None => None end) = Some _ |- _ => let E := fresh "E" in destruct o eqn:E; [|discriminate H]
    | H : mbind _ ?o = Some _ |- _ => let E := fresh "E" in destruct o eqn:E; [|discriminate H]; cbn [mbind option_bind] in H
    | H : (let '(_, _) := ?p in _) = Some _ |- _ => destruct p
    | H : set_prev _ _ _ = Some _ |- _ => apply set_prev_kept in H
    | H : set_next _ _ _ = Some _ |- _ => apply set_next_kept in H
    | H : Some _ = Some _ |- _ => injection H as <- <- || injection H as <-
    end.
Lemma pushFront_kept h l n h' l' : pushFront h l n = Some (h', l') -> entries_kept h h'.
Proof.
  unfold pushFront. intros H. destruct (l_head l); kept; repeat (etransitivity; [eassumption|]); reflexivity.
Qed.
Lemma unlink_kept h l n h' l' : unlink h l n = Some (h', l') -> entries_kept h h'.
Proof.
  unfold unlink. intros H. kept.
  repeat match goal with H : match ?o with Some _ => _ | None => _ end = Some _ |- _ => destruct o end; kept;
    repeat (etransitivity; [eassumption|]); reflexivity.
Qed.
Lemma moveToFront_kept h l n h' l' : moveToFront h l n = Some (h', l') -> entries_kept h h'.
Proof.
  unfold moveToFront. case_bool_decide; [by intros [= <- <-]|]. intros H1. kept.
  etransitivity; [by eapply unlink_kept|by eapply pushFront_kept].
Qed.
Lemma set_list_kept c o c' : set_list c <$> o = Some c' ->
  (forall h l, o = Some (h, l) -> entries_kept (sc_heap c) h) -> entries_kept (sc_heap c) (sc_heap c').
Proof. destruct o as [[h l]|]; [|done]. intros [= <-] H. by apply (H h l). Qed.
Lemma sem_removeNode_kept c n c' : sem_removeNode c n = Some c' -> entries_kept (sc_heap c) (sc_heap c').
Proof.
  unfold sem_removeNode, sem_unlink. intros H. kept.
  destruct (sc_entries c !! n_key l); (eapply set_list_kept in H; [exact H|]); intros h l' Hu; by apply unlink_kept in Hu.
Qed.
Lemma sem_evict_kept fuel : forall c size c', sem_evict fuel c size = Some c' -> entries_kept (sc_heap c) (sc_heap c').
Proof.
  induction fuel as [|fuel IH]; intros c size c'; cbn [sem_evict]; destruct (l_tail (sc_order c)) as [n|];
    [destruct (_ <? _); [done|]|by intros [= <-]|destruct (_ <? _)|by intros [= <-]]; [by intros [= <-]| |by intros [= <-]].
  intros H. kept. etransitivity; [by eapply sem_removeNode_kept|by eapply IH].
Qed.
Lemma sem_evict_count_kept c c' : sem_evict_count c = Some c' -> entries_kept (sc_heap c) (sc_heap c').
Proof.
  unfold sem_evict_count. destruct (l_tail (sc_order c)) as [n|]; [|by intros [= <-]].
  destruct (_ <=? _); [|by intros [= <-]]. apply sem_removeNode_kept.
Qed.
(** A store adds the entry and no other. *)
Lemma SemStore_entries c e c' x n' : SemStore c e = Some c' -> sc_heap c' !! x = Some n' ->
  n_entry n' = e \/ exists n, sc_heap c !! x = Some n /\ n_entry n' = n_entry n.
Proof.
  unfold SemStore, sem_pushFront. destruct (sem_rejects _ e); [intros [= <-] Hn; eauto|]. intros H Hn. kept.
  cbn [sc_heap update] in *.
  match goal with H : set_list _ <$> _ = Some _ |- _ =>
    eapply set_list_kept in H; [destruct (H x n' Hn) as (n1 & Hn1 & ->)|intros h l' Hp; by apply pushFront_kept in Hp] end.
  cbn [sc_heap update] in Hn1. apply lookup_insert_Some in Hn1 as [[_ <-]|[_ Hn1]]; [by left|right].
  match goal with H1 : sem_evict _ _ _ = Some _, H2 : sem_evict_count _ = Some _ |- _ =>
    apply sem_evict_kept in H1; apply sem_evict_count_kept in H2; destruct (H2 x n1 Hn1) as (n2 & Hn2 & ->); exact (H1 x n2 Hn2) end.
Qed.

(** A lookup answers with an eligible entry of the heap. *)
Lemma scan_found fuel c scope v req now : forall node best bs p s,
  Semantic.scan fuel c scope v req now node best bs = Some (Some p, s) ->
  best = Some p \/ exists n, sc_heap c !! p = Some n /\ sem_eligible (sc_ttl c) scope req now (n_entry n) = true.
Proof.
  induction fuel as [|fuel IH]; intros [x|] best bs p s; cbn [Semantic.scan]; [done|by intros [= -> _]; left| |by intros [= -> _]; left].
  destruct (sc_heap c !! x) as [n|] eqn:Hx; [|done]. cbn [mbind option_bind].
  destruct (sem_eligible _ _ _ _ _) eqn:He; [|apply IH]. destruct (_ && _); [|apply IH].
  intros [[= <-]|Hs]%IH; [right; eauto|by right].
Qed.
Lemma SemLookup_found c scope v req now c' r : SemLookup c scope v req now = Some (c', r) ->
  entries_kept (sc_heap c) (sc_heap c') /\
  forall e s, r = Some (e, s) -> sem_eligible (sc_ttl c) scope req now e = true /\ exists x n, sc_heap c !! x = Some n /\ n_entry n = e.
Proof.
  unfold SemLookup, sem_moveToFront. destruct (sem_bad_vector v); [by intros [= <- <-]|]. intros H. kept.
  destruct o as [p|]; kept; [|done]. cbn [sc_heap update].
  match goal with H : set_list _ <$> _ = Some _ |- _ =>
    eapply set_list_kept in H; [rename H into Hm|intros h l' Hm; by apply moveToFront_kept in Hm] end. split; [done|].
  intros e x [= <- <-]. destruct (scan_found _ _ _ _ _ _ _ _ _ _ _ E) as [|(n & Hn & He)]; [done|].
  destruct (Hm _ _ E1) as (n1 & Hn1 & Ee). rewrite Hn in Hn1. injection Hn1 as <-. rewrite Ee. eauto.
Qed.

(** ** The invariant of the interleavings *)

Section Isolation.
Variable registered : string -> bool.
Variable doPath : Call -> option (Z * option (list Z)).
Abbreviation prepare := (semanticPrepare registered doPath).
Abbreviation step := (wstep registered doPath).

Implicit Types (h : Handler).
Definition keyed_by h (k : string) : Prop := cacheLookupFor (h_KeyConf h) (h_Request h) (h_Generation h) = Some k.
Definition prepared_by h (sc : semanticContext) : Prop := prepare (h_ScopeConf h) (h_Request h) = Some sc.
Definition built_by h (a : Answer) (e : SemanticEntry) : Prop :=
  exists cfg sc now, prepared_by h sc /\ e = semantic_entry cfg sc (an_Deployment a) (an_Body a) (an_Status a) now.

(** What a handler holds at each point, given what has been stored. *)
Definition phase_ok (L : list (Handler * string * Entry)) (M : list (Handler * SemanticEntry)) h (p : Phase) : Prop :=
  match p with
  | PStart | PDone (FromUpstream _) => True
  | PKeyed key | PMissed key => forall k, key = Some k -> keyed_by h k
  | PPrepared key sc | PUpstream key sc | PAnswered key sc _ | PChecked key sc _ =>
      (forall k, key = Some k -> keyed_by h k) /\ forall x, sc = Some x -> prepared_by h x
  | PStored sc _ | PSemChecked sc _ => forall x, sc = Some x -> prepared_by h x
  | PSemBuilt e a => forall x, e = Some x -> built_by h a x
  | PDone (FromCache e) => exists k q, keyed_by h k /\ (q, k, e) ∈ L
  | PDone (FromSemantic e _) => exists sc q ttl now, prepared_by h sc /\ (q, e) ∈ M /\
      sem_eligible ttl (sx_scope sc) (sx_requireNoTrain sc) now e = true
  end.
Definition handlers_ok L M (hs : gmap nat Handler) : Prop :=
  forall i h, hs !! i = Some h -> plain_request (h_Request h) /\ 0 <= h_Generation h /\ phase_ok L M h (h_Phase h).
Record caches_ok (s : Server) (L : list (Handler * string * Entry)) (M : list (Handler * SemanticEntry)) : Prop := {
  ok_generation : 0 <= sv_generation s;
  ok_resp : exists xs, cache_rep (sv_respCache s) xs /\ forall k e, (k, e) ∈ xs.*2 -> exists q, (q, k, e) ∈ L;
  ok_sem : forall x n, sc_heap (sv_semCache s) !! x = Some n -> exists q, (q, n_entry n) ∈ M
}.
(** [h] stored [e], under [k], as the answer it got from upstream. *)
Definition stored_answer h (k : string) (e : Entry) : Prop :=
  exists sc a now, h_Phase h = PChecked (Some k) sc a /\ e = mkEntry (an_Body a) "application/json" (an_Status a) now (an_Deployment a).
Definition logs_ok (L : list (Handler * string * Entry)) (M : list (Handler * SemanticEntry)) : Prop :=
  (forall h k e, (h, k, e) ∈ L -> (plain_request (h_Request h) /\ 0 <= h_Generation h /\ keyed_by h k) /\ stored_answer h k e) /\
  (forall h e, (h, e) ∈ M -> exists a, h_Phase h = PSemBuilt (Some e) a /\ built_by h a e).
Definition world_ok (w : World) : Prop :=
  caches_ok (wd_Server w) (wd_Stored w) (wd_SemStored w) /\ logs_ok (wd_Stored w) (wd_SemStored w) /\
  handlers_ok (wd_Stored w) (wd_SemStored w) (wd_Handlers w).

Lemma phase_ok_mono L M L' M' h p : L ⊆ L' -> M ⊆ M' -> phase_ok L M h p -> phase_ok L' M' h p.
Proof.
  intros HL HM. destruct p as [| | | | | | | | | |[| |]]; cbn [phase_ok]; try done.
  - intros (k & q & ? & ?). exists k, q. set_solver.
  - intros (sc & q & ttl & now & ? & ? & ?). exists sc, q, ttl, now. set_solver.
Qed.
(** A handler moves to a phase that is right for it. *)
Lemma placed_ok w i h h' L M : handlers_ok (wd_Stored w) (wd_SemStored w) (wd_Handlers w) ->
  wd_Stored w ⊆ L -> wd_SemStored w ⊆ M -> wd_Handlers w !! i = Some h ->
  h_Request h' = h_Request h -> h_Generation h' = h_Generation h ->
  phase_ok L M h' (h_Phase h') -> handlers_ok L M (<[i := h']> (wd_Handlers w)).
Proof.
  intros Hw HL HM Hi Er Eg Hp j k. intros [[<- <-]|[_ Hj]]%lookup_insert_Some.
  - rewrite Er, Eg. destruct (Hw i h Hi) as (? & ? & _). done.
  - destruct (Hw j k Hj) as (? & ? & ?). split_and!; [done..|]. by eapply phase_ok_mono.
Qed.
Lemma moved_ok w i h p L M : handlers_ok (wd_Stored w) (wd_SemStored w) (wd_Handlers w) ->
  wd_Stored w ⊆ L -> wd_SemStored w ⊆ M -> wd_Handlers w !! i = Some h ->
  phase_ok L M h p -> handlers_ok L M (set_phase w i h p).
Proof. intros Hw HL HM Hi Hp. by eapply placed_ok. Qed.
Lemma phase_of w i h : world_ok w -> wd_Handlers w !! i = Some h ->
  plain_request (h_Request h) /\ 0 <= h_Generation h /\ phase_ok (wd_Stored w) (wd_SemStored w) h (h_Phase h).
Proof. intros (_ & _ & H) Hi. exact (H i h Hi). Qed.

(** *** The operations on the caches *)

Lemma rep_stats c st xs : cache_rep c xs -> cache_rep (c <| c_stats := st |>) xs.
Proof. intros [? ? ? ? ? ? ?]. by split. Qed.

Lemma applyConfig_ok s cfg L M : caches_ok s L M -> caches_ok (applyConfig s cfg) L M.
Proof.
  intros [Hg (xs & Hr & Hl) Hs]. split; cbn [applyConfig sv_generation sv_respCache sv_semCache].
  - unfold uint64. apply Z.mod_pos_bound. lia.
  - exists []. split; [|intros k e Hin; by apply not_elem_of_nil in Hin].
    pose proof (cr_maxBytes _ _ Hr). pose proof (cr_maxEntries _ _ Hr). pose proof (cached_total_nonneg xs.*2).
    apply (rep_cleared (sv_respCache s)); lia.
  - exact Hs.
Qed.
Lemma cacheServe_ok s r key now s' e L M : caches_ok s L M -> cacheServe s r key now = Some (s', e) ->
  caches_ok s' L M /\ forall x, e = Some x -> exists k q, key = Some k /\ (q, k, x) ∈ L.
Proof.
  intros Hok. unfold cacheServe. destruct key as [k|]; [|by intros [= <- <-]].
  destruct Hok as [Hg (xs & Hr & Hl) Hs]. destruct (negb _).
  - intros [= <- <-]. split; [|done]. split; [done| |done]. exists xs. split; [by apply rep_stats|done].
  - destruct (lookup_spec _ _ k now Hr) as (c' & x & ys & E & Hr' & _ & _ & _ & El). rewrite E. cbn [mbind option_bind].
    intros [= <- <-]. pose proof (lru_op_origin (c_ttl (sv_respCache s)) 0 0 xs.*2 (OpLookup k now)) as Ho. cbn [lru_op] in Ho. rewrite El in Ho. cbn [fst] in Ho.
    split.
    + split; [done| |done]. exists ys. split; [done|]. intros k' e' Hin. destruct (Ho k' e' Hin) as [|[Hin' _]]; [done|by apply Hl].
    + intros y ->. exists k. unfold lru_lookup in El. destruct (lru_find k xs.*2) as [e'|] eqn:Hf; [|done].
      apply lru_find_elem, Hl in Hf as [q Hq]. destruct (_ <? _); [done|]. injection El as _ <-. by exists q.
Qed.
Lemma cacheStore_ok s k e s' q L M : caches_ok s L M -> cacheStore_commit s k e = Some s' -> caches_ok s' ((q, k, e) :: L) M.
Proof.
  intros [Hg (xs & Hr & Hl) Hs]. unfold cacheStore_commit. destruct (store_spec _ _ k e Hr) as (c' & ys & -> & Hr' & _ & _ & _ & El).
  cbn [mbind option_bind]. intros [= <-]. split; [done| |done]. exists ys. split; [done|]. intros k' e' Hin. rewrite <- El in Hin.
  destruct (lru_op_origin 0 (c_maxEntries (sv_respCache s)) (c_maxBytes (sv_respCache s)) xs.*2 (OpStore k e) k' e') as [[= -> ->]|[Hin' _]]; [exact Hin| |].
  - exists q. by left.
  - destruct (Hl k' e' Hin') as [q' Hq']. exists q'. by right.
Qed.
Lemma semanticServe_ok s sc now s' res L M : caches_ok s L M -> semanticServe s sc now = Some (s', res) ->
  caches_ok s' L M /\ forall e x, res = Some (e, x) ->
    exists y q ttl, sc = Some y /\ (q, e) ∈ M /\ sem_eligible ttl (sx_scope y) (sx_requireNoTrain y) now e = true.
Proof.
  intros Hok. unfold semanticServe. destruct sc as [y|]; [|by intros [= <- <-]].
  destruct (String.eqb _ _); [by intros [= <- <-]|]. destruct Hok as [Hg Hr Hs].
  destruct (SemLookup _ _ _ _ _) as [[c' r']|] eqn:E; [|done]. cbn [mbind option_bind]. intros [= <- <-].
  destruct (SemLookup_found _ _ _ _ _ _ _ E) as [Hk Hf]. split.
  - split; [done|done|]. intros x n Hn. destruct (Hk x n Hn) as (n0 & Hn0 & ->). by apply (Hs x).
  - intros e x ->. destruct (Hf e x eq_refl) as (He & p & n & Hn & <-). destruct (Hs p n Hn) as [q Hq]. eauto 7.
Qed.
Lemma semanticStore_ok s e s' q L M : caches_ok s L M -> semanticStore_commit s e = Some s' -> caches_ok s' L ((q, e) :: M).
Proof.
  intros [Hg Hr Hs]. unfold semanticStore_commit. destruct (SemStore _ _) as [c'|] eqn:E; [|done]. cbn [mbind option_bind].
  intros [= <-]. split; [done|done|]. intros x n Hn. destruct (SemStore_entries _ _ _ _ _ E Hn) as [->|(n0 & Hn0 & ->)].
  - exists q. by left.
  - destruct (Hs x n0 Hn0) as [q' Hq']. exists q'. by right.
Qed.

(** *** Every step keeps the invariant *)

Lemma store_key s key g st b k : cacheStore_check s key g st b = Some k -> key = Some k.
Proof. unfold cacheStore_check. destruct key as [k'|]; [|done]. cbn [mbind option_bind]. do 2 (destruct (_ || _); [done|]). by intros [= ->]. Qed.
Lemma store_ctx s sc g st b x : semanticStore_check s sc g st b = Some x -> sc = Some x.
Proof. unfold semanticStore_check. destruct sc as [y|]; [|done]. cbn [mbind option_bind]. do 2 (destruct (_ || _); [done|]). by intros [= ->]. Qed.

Lemma init_ok cfg : world_ok (init_world cfg).
Proof.
  split_and!.
  - split; [done| |]; cbn [wd_Server init_world NewServer sv_respCache sv_semCache].
    + exists []. split; [apply New_rep|]. intros k e Hin. by apply not_elem_of_nil in Hin.
    + intros x n Hn. unfold newSemanticCache, NewSemantic in Hn. cbn [sc_heap] in Hn. by rewrite lookup_empty in Hn.
  - split; [intros h k e Hin|intros h e Hin]; by apply not_elem_of_nil in Hin.
  - intros i h Hi. cbn [wd_Handlers init_world] in Hi. by rewrite lookup_empty in Hi.
Qed.

Lemma wstep_ok w w' : step w w' -> world_ok w -> world_ok w'.
Proof.
  intros Hstep Hw. pose proof Hw as (Hc & Hl & Hh). destruct Hstep; cbn [wd_Server wd_Stored wd_SemStored wd_Handlers] in *;
    try (match goal with Hi : wd_Handlers _ !! _ = Some _ |- _ => destruct (phase_of _ _ _ Hw Hi) as (Hpl & Hg & Hp) end;
         match goal with E : h_Phase _ = _ |- _ => rewrite E in Hp; cbn [phase_ok] in Hp end).
  - split_and!; [by apply applyConfig_ok|apply Hl..|done].
  - split_and!; [done|apply Hl..|]. intros j k. cbn [wd_Handlers].
    intros [[<- <-]|[_ Hj]]%lookup_insert_Some; [|by apply (Hh j)]. cbn. split_and!; [done|apply Hc|done].
  - split_and!; [done|apply Hl..|]. eapply placed_ok; try done. by cbn.
  - destruct (cacheServe_ok _ _ _ _ _ _ _ _ Hc ltac:(eassumption)) as [Hc' He]. split_and!; [done|apply Hl..|].
    eapply moved_ok; try done. destruct r as [e|]; [|done]. destruct (He e eq_refl) as (k & q & -> & Hq). cbn. eauto.
  - split_and!; [done|apply Hl..|]. by eapply placed_ok.
  - destruct (semanticServe_ok _ _ _ _ _ _ _ Hc ltac:(eassumption)) as [Hc' He]. split_and!; [done|apply Hl..|].
    eapply moved_ok; try done. destruct r as [[e x]|]; [|done]. destruct (He e x eq_refl) as (y & q & ttl & -> & Hq & Hel).
    cbn. exists y, q, ttl, now. split; [by apply Hp|done].
  - split_and!; [done|apply Hl..|]. by eapply moved_ok.
  - split_and!; [done|apply Hl..|]. eapply moved_ok; try done. cbn. split; [|apply Hp].
    intros k Hk%store_key. by apply (proj1 Hp).
  - split_and!; [done|apply Hl..|]. eapply moved_ok; try done. exact (proj2 Hp).
  - split_and!; [by eapply cacheStore_ok| |].
    + split; [|apply Hl]. intros q k e [[= -> -> ->]|Hin]%elem_of_cons; [|by apply Hl in Hin].
      split; [by split_and!; [..|apply (proj1 Hp)]|]. unfold stored_answer. eauto.
    + eapply moved_ok; [done|set_solver|done|done|exact (proj2 Hp)].
  - split_and!; [done|apply Hl..|]. eapply moved_ok; try done. cbn. intros x Hx%store_ctx. by apply Hp.
  - split_and!; [done|apply Hl..|]. eapply moved_ok; try done. cbn. intros x Hx. destruct sc as [y|]; [|done].
    injection Hx as <-. unfold built_by. eauto 7.
  - split_and!; [done|apply Hl..|]. by eapply moved_ok.
  - split_and!; [by eapply semanticStore_ok| |].
    + split; [apply Hl|]. intros q e' [[= -> ->]|Hin]%elem_of_cons; [eauto|by apply Hl in Hin].
    + eapply moved_ok; [done|done|set_solver|done|done].
Qed.
Lemma reachable_ok cfg w : reachable registered doPath cfg w -> world_ok w.
Proof. intros Hr. unfold reachable in Hr. revert Hr. generalize (init_ok cfg). generalize (init_world cfg). induction 2; [done|]. by eauto using wstep_ok. Qed.

(** The text hashed into the key of a handler, and into its scope. *)
Definition exact_text h : list Z :=
  key_text (bytes (r_Path (h_Request h))) (r_Raw (h_Request h)) (exact_context (h_KeyConf h) (h_Request h) (h_Generation h)).
Lemma keyed_hash h k : keyed_by h k -> k = EncodeToString (Sha256.Sum256 (exact_text h)).
Proof. unfold keyed_by, cacheLookupFor. do 3 (destruct (_ : bool); [done|]). by intros [= <-]. Qed.
Lemma string_of_bytes_inj (s s' : string) : bytes s = bytes s' -> s = s'.
Proof. intros E. by rewrite <- (string_bytes s), E, string_bytes. Qed.

(** (C12) A response from the exact-match cache is the answer to the same request.
    However requests and configuration swaps interleave, when handler [h] is served
    [e] from the cache, a handler [h'] had stored [e] as the answer it got from
    upstream.  [h'] captured the same generation and served the same path and body,
    and, under the configurations the two keys were computed from, both came with
    the same client key (or both while clients were not told apart) and the same
    values of the session headers and of every header forwarded to a provider of
    their candidates, as JSON texts.  The one exception is a SHA-256 collision of
    the two texts hashed into the keys, or of the two client keys.  So a cached
    response never crosses clients and does not outlive the configuration it was
    produced under, although the guard and the store are not atomic.  Requests have
    no NUL byte in their path and body, as JSON bodies at fixed paths. *)
Theorem exact_hit_isolated (cfg0 : Settings) (w : World) (i : nat) (h : Handler) (e : Entry) :
  reachable registered doPath cfg0 w -> wd_Handlers w !! i = Some h -> h_Phase h = PDone (FromCache e) ->
  exists h' k, (h', k, e) ∈ wd_Stored w /\ stored_answer h' k e /\
    (collision (exact_text h) (exact_text h') \/
     h_Generation h' = h_Generation h /\ r_Path (h_Request h') = r_Path (h_Request h) /\ r_Raw (h_Request h') = r_Raw (h_Request h) /\
     same_client (h_KeyConf h) (h_Request h) (h_KeyConf h') (h_Request h') /\
     same_headers (h_KeyConf h) (h_Request h) (h_KeyConf h') (h_Request h')).
Proof.
  intros Hr Hi Hp. pose proof (reachable_ok _ _ Hr) as Hw. destruct (phase_of _ _ _ Hw Hi) as ([P1 P2] & Hg & Hph).
  rewrite Hp in Hph. destruct Hph as (k & h' & Hk%keyed_hash & Hin). destruct Hw as (_ & Hl & _).
  destruct (proj1 Hl _ _ _ Hin) as (([P1' P2'] & Hg' & Hk'%keyed_hash) & Ha). exists h', k. split; [done|]. split; [done|].
  destruct (decide (exact_text h = exact_text h')) as [E|Hne].
  2: { left. split; [done|]. congruence. }
  right. unfold exact_text, key_text in E.
  apply zero_sep_inj in E as [Ep E]; [|done..]. apply zero_sep_inj in E as [Eb E]; [|done..].
  apply exact_context_inj in E as (Eg & Ed%client_inj & Ef%forwarded_inj); [|done..].
  split_and!; [done|by apply string_of_bytes_inj|done..].
Qed.

End Isolation.
