(* ===== verification/CacheWiringSamples.v ===== *)
(** * The caches run on examples

    An executable driver for the steps of [CacheWiring.wstep], the witnesses of the
    isolation theorems, and three runs that show where the semantic cache departs
    from what its documentation says. *)

From Stdlib Require Import SpecFloat Ascii.
From S2P Require Import Prelude Config Health Hash Text Router RouterSamples LinkedList Cache CacheProofs Semantic EventStream EventStreamProofs Json SSE Emitters Decoders CacheWiring CacheWiringProofs.

(** ** The driver *)

Inductive action :=
| ASwap (cfg : Settings)
| AStart (i : nat) (r : Request)
| AStep (i : nat) (now : Time) (a : Answer).

Section Drive.
Variable registered : string -> bool.
Variable doPath : Call -> option (Z * option (list Z)).

(** The next step of handler [i], at time [now]; [a] is the answer when the upstream answers. *)
Definition step_handler (w : World) (i : nat) (now : Time) (a : Answer) : option World :=
  h ← wd_Handlers w !! i;
  let s := wd_Server w in
  let goto s p L M := Some (mkWorld s (set_phase w i h p) L M) in
  let L := wd_Stored w in
  let M := wd_SemStored w in
  match h_Phase h with
  | PStart => Some (mkWorld s (<[i := keyed (sv_cfg s) h (PKeyed (cacheLookupFor (sv_cfg s) (h_Request h) (h_Generation h)))]> (wd_Handlers w)) L M)
  | PKeyed key =>
      '(s, r) ← cacheServe s (h_Request h) key now;
      goto s (match r with Some e => PDone (FromCache e) | None => PMissed key end) L M
  | PMissed key =>
      Some (mkWorld s (<[i := prepared (sv_cfg s) h (PPrepared key (semanticPrepare registered doPath (sv_cfg s) (h_Request h)))]> (wd_Handlers w)) L M)
  | PPrepared key sc =>
      '(s, r) ← semanticServe s sc now;
      goto s (match r with Some (e, x) => PDone (FromSemantic e x) | None => PUpstream key sc end) L M
  | PUpstream key sc => goto s (PAnswered key sc a) L M
  | PAnswered key sc a => goto s (PChecked (cacheStore_check s key (h_Generation h) (an_Status a) (an_Body a)) sc a) L M
  | PChecked None sc a => goto s (PStored sc a) L M
  | PChecked (Some key) sc a =>
      let e := mkEntry (an_Body a) "application/json" (an_Status a) now (an_Deployment a) in
      s ← cacheStore_commit s key e; goto s (PStored sc a) ((h, key, e) :: L) M
  | PStored sc a => goto s (PSemChecked (semanticStore_check s sc (h_Generation h) (an_Status a) (an_Body a)) a) L M
  | PSemChecked sc a =>
      goto s (PSemBuilt (sc ← sc; Some (semantic_entry (sv_cfg s) sc (an_Deployment a) (an_Body a) (an_Status a) now)) a) L M
  | PSemBuilt None a => goto s (PDone (FromUpstream a)) L M
  | PSemBuilt (Some e) a => s ← semanticStore_commit s e; goto s (PDone (FromUpstream a)) L ((h, e) :: M)
  | PDone _ => None
  end.
#[export] Instance plain_request_dec r : Decision (plain_request r).
Proof. unfold plain_request. apply _. Defined.
Definition act (w : World) (x : action) : option World :=
  match x with
  | ASwap cfg => Some (mkWorld (applyConfig (wd_Server w) cfg) (wd_Handlers w) (wd_Stored w) (wd_SemStored w))
  | AStart i r =>
      if decide (wd_Handlers w !! i = None /\ plain_request r)
      then let s := wd_Server w in
           Some (mkWorld s (<[i := mkHandler r (sv_generation s) (sv_cfg s) (sv_cfg s) PStart]> (wd_Handlers w)) (wd_Stored w) (wd_SemStored w))
      else None
  | AStep i now a => step_handler w i now a
  end.
Fixpoint drive (w : World) (xs : list action) : option World :=
  match xs with [] => Some w | x :: xs => w ← act w x; drive w xs end.

Lemma act_sound w x w' : act w x = Some w' -> wstep registered doPath w w'.
Proof.
  destruct w as [s hs L M]. destruct x as [cfg|i r|i now a]; cbn [act].
  - intros [= <-]. apply s_swap.
  - destruct (decide _) as [[Hi Hr]|]; [|done]. intros [= <-]. by apply s_start.
  - unfold step_handler. destruct (wd_Handlers _ !! i) as [h|] eqn:Hi; [|done]. cbn [mbind option_bind].
    destruct (h_Phase h) as [|key|key|key sc|key sc|key sc a'|[key|] sc a'|sc a'|sc a'|[e|] a'|] eqn:Hp; try done.
    + intros [= <-]. by apply s_key.
    + destruct (cacheServe _ _ _ _) as [[s' r]|] eqn:E; [|done]. intros [= <-]. by eapply s_serve.
    + intros [= <-]. by apply s_prepare.
    + destruct (semanticServe _ _ _) as [[s' r]|] eqn:E; [|done]. intros [= <-]. by eapply s_semserve.
    + intros [= <-]. by apply s_answer.
    + intros [= <-]. by apply s_check.
    + destruct (cacheStore_commit _ _ _) as [s'|] eqn:E; [|done]. intros [= <-]. by eapply s_store.
    + intros [= <-]. by apply s_skip.
    + intros [= <-]. by apply s_semcheck.
    + intros [= <-]. by apply s_build.
    + destruct (semanticStore_commit _ _) as [s'|] eqn:E; [|done]. intros [= <-]. by eapply s_semstore.
    + intros [= <-]. by apply s_semskip.
Qed.
Lemma drive_sound xs : forall w w', drive w xs = Some w' -> rtc (wstep registered doPath) w w'.
Proof.
  induction xs as [|x xs IH]; intros w w'; cbn [drive]; [by intros [= <-]|].
  destruct (act w x) as [w1|] eqn:E; [|done]. cbn [mbind option_bind]. intros H. eapply rtc_l; [by eapply act_sound|by apply IH].
Qed.
End Drive.
Abbreviation no_answer := (mkAnswer "" 0 "").
Definition steps (n i : nat) : list action := replicate n (AStep i 100 no_answer).

(** ** Examples *)

(** Provider [p1] answers the chats and does not train on data; [emb] embeds the
    prompts and does. *)
Definition p1 : ProviderConfig := mkProviderConfig "p1" "One" "openai_compatible" (RouterSamples.sample_data "no") true [sample_model "a" 1].
Definition emb : ProviderConfig := mkProviderConfig "emb" "Embeddings" "openai_compatible" (RouterSamples.sample_data "yes") true [sample_model "e" 1].
Definition sample_settings (providers : list ProviderConfig) : Settings :=
  mkSettings (mkCacheConf true 300 256 1048576 (mkSemConf true "emb/e" "/v1/embeddings" f_zero 0 0)) true
    (map (fun p => (p, [])) providers).
Definition candidate_of (id provider : string) : Scored :=
  mkScored (mkDeployment (provider +:+ "/" +:+ id) provider "" "openai_compatible" "gpt" [] 0 f_zero 0 f_zero f_zero
              (mkCapabilities true true true true) "no")
    zero_State f_zero f_zero f_zero false f_zero f_zero f_zero f_zero f_zero f_zero f_zero.
Definition text_block (s : string) : Json := JObj [("type", JStr "text"); ("text", JStr s)].
Definition image_block (url : string) : Json := JObj [("type", JStr "image_url"); ("image_url", JObj [("url", JStr url)])].
Definition chat (blocks : list Json) : list Z :=
  marshal (JObj [("model", JStr "gpt"); ("temperature", JInt 0);
                 ("messages", JArr [JObj [("role", JStr "user"); ("content", JArr blocks)]])]).
Definition chat_request (key : string) (raw : list Z) (noTraining : bool) (candidates : list Scored) : Request :=
  mkRequest {["X-Api-Key" := [key]]} "/v1/chat/completions" raw false (Some f_zero) None false "gpt" noTraining candidates.
(** Every prompt is embedded as the same vector. *)
Definition embedding_body : list Z := marshal (JObj [("data", JArr [JObj [("embedding", JArr [JInt 3; JInt 4])]])]).
Definition one_vector (c : Call) : option (Z * option (list Z)) := Some (200, Some embedding_body).
Definition every (s : string) : bool := true.
Definition p1_answer (body : string) : Answer := mkAnswer "p1/a" 200 body.
(** A request that is answered upstream: to the answer, then to the end. *)
Definition serve_upstream (i : nat) (r : Request) (body : string) : list action :=
  AStart i r :: steps 4 i ++ [AStep i 100 (p1_answer body)] ++ steps 5 i.

Definition phases (w : World) : list (option Phase) := (fun i => h_Phase <$> wd_Handlers w !! i) <$> [0; 1; 2; 3]%nat.
Definition hello : Request := chat_request "k1" (chat [text_block "hello"]) true [candidate_of "a" "p1"].
Definition hello_again : Request := chat_request "k1" (chat [text_block "hello again"]) true [candidate_of "a" "p1"].
Definition other_client : Request := chat_request "k2" (chat [text_block "hello"]) true [candidate_of "a" "p1"].

(** The first request is answered upstream, a repeat from the exact-match cache, a
    similar one from the semantic cache, and another client's goes upstream. *)
Definition three_requests : list action :=
  serve_upstream 0 hello "A" ++ AStart 1 hello :: steps 2 1 ++ AStart 2 hello_again :: steps 4 2 ++ AStart 3 other_client :: steps 4 3.
(** The world a run ends in. *)
Definition ran (providers : list ProviderConfig) (xs : list action) : option World := drive every one_vector (init_world (sample_settings providers)) xs.
Lemma ran_reachable providers xs w : ran providers xs = Some w -> reachable every one_vector (sample_settings providers) w.
Proof. apply drive_sound. Qed.
Definition served_at (w : World) (i : nat) : option (Handler * Served) :=
  h ← wd_Handlers w !! i; match h_Phase h with PDone s => Some (h, s) | _ => None end.
Lemma served_at_done w i h s : served_at w i = Some (h, s) -> wd_Handlers w !! i = Some h /\ h_Phase h = PDone s.
Proof.
  unfold served_at. destruct (wd_Handlers w !! i) as [h'|]; [|done]. cbn [mbind option_bind].
  destruct (h_Phase h') eqn:E; try done. by intros [= <- <-].
Qed.

(** The run serves handler 1 from the exact-match cache and handler 2 from the semantic one. *)
Definition served_kinds (w : World) : list (option bool) :=
  (fun i => match served_at w i with Some (_, FromCache _) => Some true | Some (_, FromSemantic _ _) => Some false | _ => None end) <$> [1; 2]%nat.
Example three_requests_kinds : served_kinds <$> ran [p1; emb] three_requests = Some [Some true; Some false].
Proof. vm_compute. reflexivity. Qed.
Lemma three_requests_hits : exists w h1 e1 h2 e2 s2, ran [p1; emb] three_requests = Some w /\
  served_at w 1 = Some (h1, FromCache e1) /\ served_at w 2 = Some (h2, FromSemantic e2 s2).
Proof.
  pose proof three_requests_kinds as H. destruct (ran [p1; emb] three_requests) as [w|]; [|discriminate H].
  unfold served_kinds in H. cbn [fmap option_fmap option_map list_fmap] in H.
  destruct (served_at w 1) as [[h1 [e1| |]]|] eqn:E1, (served_at w 2) as [[h2 [|e2 s2|]]|] eqn:E2; try discriminate H.
  exists w, h1, e1, h2, e2, s2. done.
Qed.

Lemma exact_hit_isolated_witness :
  exists w h e, ran [p1; emb] three_requests = Some w /\ served_at w 1 = Some (h, FromCache e) /\
  exists h' k, (h', k, e) ∈ wd_Stored w /\ stored_answer h' k e /\
    (collision (exact_text h) (exact_text h') \/
     h_Generation h' = h_Generation h /\ r_Path (h_Request h') = r_Path (h_Request h) /\ r_Raw (h_Request h') = r_Raw (h_Request h) /\
     same_client (h_KeyConf h) (h_Request h) (h_KeyConf h') (h_Request h') /\
     same_headers (h_KeyConf h) (h_Request h) (h_KeyConf h') (h_Request h')).
Proof.
  destruct three_requests_hits as (w & h & e & _ & _ & _ & E & Es & _).
  exists w, h, e. split; [exact E|]. split; [exact Es|]. destruct (served_at_done _ _ _ _ Es) as [Hi Hp].
  exact (exact_hit_isolated every one_vector _ w 1 h e (ran_reachable _ _ _ E) Hi Hp).
Defined.

(** ** Where the semantic cache departs from its documentation *)

(** What a run shows of a handler served from the semantic cache: the body of its
    request and its generation, the deployment and the body of the response, the
    requests that stored entries, and the providers configured at the end. *)
Record Report := mkReport {
  rp_raw : list Z; rp_generation : Z; rp_deployment : string; rp_body : string; rp_storedBy : list (list Z * Z); rp_providers : list string
}.
Definition semantic_report (w : World) (i : nat) : option Report :=
  match served_at w i with
  | Some (h, FromSemantic e _) =>
      Some (mkReport (r_Raw (h_Request h)) (h_Generation h) (se_Deployment e) (se_Body e)
              (map (fun x => (r_Raw (h_Request (fst x)), h_Generation (fst x))) (wd_SemStored w))
              (map (fun p => pc_ID (fst p)) (w_Providers (sv_cfg (wd_Server w)))))
  | _ => None
  end.
Lemma reported providers xs i rep : (w ← ran providers xs; semantic_report w i) = Some rep ->
  exists w, reachable every one_vector (sample_settings providers) w /\ semantic_report w i = Some rep.
Proof.
  destruct (ran providers xs) as [w|] eqn:E; [|done]. intros H. exists w. split; [by apply (ran_reachable providers xs)|done].
Qed.

Definition p3 : ProviderConfig := mkProviderConfig "p3" "Three" "openai_compatible" (RouterSamples.sample_data "no") true [sample_model "a" 1].
Definition hello_p3 : Request := chat_request "k1" (chat [text_block "hello again"]) true [candidate_of "a" "p3"].
Definition swap_during_store : list action :=
  AStart 0 hello :: steps 4 0 ++ [AStep 0 100 (p1_answer "A")] ++ steps 4 0 ++
  ASwap (sample_settings [p3; emb]) :: steps 1 0 ++ AStart 1 hello_p3 :: steps 4 1.
(** A response can outlive a configuration swap in the semantic cache.  The guard
    on the generation and the store are two steps, and neither the scope nor the
    entry carries the generation: when a swap that removes provider [p1] falls
    between them, a request of generation 2 is served the response of [p1] that a
    request of generation 1 has stored. *)
Theorem stale_semantic_response_served :
  exists w, reachable every one_vector (sample_settings [p1; emb]) w /\
    semantic_report w 1 = Some (mkReport (r_Raw hello_p3) 2 "p1/a" "A" [(r_Raw hello, 1)] ["p3"; "emb"]).
Proof. apply (reported [p1; emb] swap_during_store). vm_compute. reflexivity. Qed.

(** A prompt that must not be trained on is sent to the embedding provider, whatever
    that provider declares: here one that trains on data. *)
Theorem no_training_prompt_embedded :
  exists text call, r_RequireNoTraining hello = true /\ semantic_admits (sample_settings [p1; emb]) hello = true /\
    semanticPromptText (r_Raw hello) = Some text /\ text = "user: hello" /\
    embed_call every (sample_settings [p1; emb]) text = Some call /\
    dh_TrainsOnData (pc_DataHandling (uc_Provider call)) = "yes" /\
    uc_Payload call = marshal (JObj [("input", JStr text); ("model", JStr "gpt")]).
Proof. eexists _, _. repeat (split; [vm_compute; reflexivity|]). vm_compute. reflexivity. Qed.

Definition what_is_this (url : string) : Request :=
  chat_request "k1" (chat [text_block "What is this?"; image_block url]) false [candidate_of "a" "p1"].
Definition cat : Request := what_is_this "https://i/cat.png".
Definition dog : Request := what_is_this "https://i/dog.png".
Definition two_images : list action := serve_upstream 0 cat "a cat" ++ AStart 1 dog :: steps 4 1.
(** The prompt text leaves out every block that is no text, so two requests that
    differ only in their image have one prompt text, and the second is served the
    answer to the first. *)
Theorem images_ignored_by_similarity :
  semanticPromptText (r_Raw dog) = semanticPromptText (r_Raw cat) /\
  exists w, reachable every one_vector (sample_settings [p1; emb]) w /\
    semantic_report w 1 = Some (mkReport (r_Raw dog) 1 "p1/a" "a cat" [(r_Raw cat, 1)] ["p1"; "emb"]).
Proof. split; [vm_compute; reflexivity|]. apply (reported [p1; emb] two_images). vm_compute. reflexivity. Qed.
