(* ===== verification/Hedging.v ===== *)
(** * Request hedging ([src/internal/httpapi/hedging.go])

    The first attempt of a request races a second deployment when its response
    headers are slow.  The race is a loop around a [select] on four channels; the
    two legs, the timer, the caller's context and the goroutines that clean up
    after a loser run beside it.  The arms of the [select] are functions on the
    state of the race; [rstep] interleaves them with the environment in every
    possible order, also after the race has returned.  The upstream calls are the
    environment: a leg may finish at any time with any result.

    Then an invariant of the interleavings, in two parts: while the loop runs
    ([looping]) and after it has returned ([returned]).

    What is shown: a race that can still learn something never blocks, a response
    that any leg obtains is the one returned or is closed, at most one hedge is
    launched, an error is returned only when no leg is left in flight, and the
    leg that delivered the response is never cancelled. *)

From S2P Require Import Prelude Config.

Section Race.
(** Responses, as the adapters produce them. *)
Context {Resp : Type}.

(** ** Legs *)

(** What an upstream call returns: a response or an error. *)
Record callResult := mkCallResult { cr_resp : option Resp; cr_err : option string }.
Record hedgeResult := mkHedgeResult { hr_resp : option Resp; hr_err : option string; hr_start : Time }.
Definition normalizeHedgeResult (r : hedgeResult) : hedgeResult :=
  match hr_err r, hr_resp r with
  | None, None => mkHedgeResult None (Some "upstream returned nil response without error") (hr_start r)
  | _, _ => r
  end.
(** The channel [done] of a leg: empty, holding the result, or closed and empty. *)
Inductive Channel := Pending | Ready (r : hedgeResult) | Closed.
Record hedgeLeg := mkLeg { leg_start : Time; leg_done : Channel; leg_cancelled : bool }.
#[export] Instance eta_hedgeLeg : Eta hedgeLeg := fun l => mkLeg (leg_start l) (leg_done l) (leg_cancelled l).
Definition startHedgeLeg (now : Time) : hedgeLeg := mkLeg now Pending false.
(** The leg's goroutine delivers what its call returned. *)
Definition finish_leg (l : hedgeLeg) (r : callResult) : hedgeLeg :=
  l <| leg_done := Ready (normalizeHedgeResult (mkHedgeResult (cr_resp r) (cr_err r) (leg_start l))) |>.

(** ** The state of a race *)

Inductive Side := Primary | Secondary.
Record hedgeOutcome := mkOutcome {
  ho_resp : option Resp; ho_err : option string; ho_start : Time; ho_secondaryWon : bool; ho_hedgeLaunched : bool
}.
Inductive Event :=
| RouteAttempt (deployment : string)
| HedgeLaunch (deployment : string)
| HedgeFail (deployment message : string)
| HedgedAbandoned (deployment reason : string).
Record Race := mkRace {
  ra_primaryID : string; ra_secondaryID : string;
  ra_primaryLeg : hedgeLeg;
  ra_secondaryLeg : option hedgeLeg;
  ra_timer : bool (* the timer's channel holds its tick *);
  ra_armed : bool (* the timer has not fired yet *);
  ra_ctx : option string (* the error of the route context, once done *);
  ra_primaryResult : option hedgeResult;
  ra_secondaryResult : option hedgeResult;
  ra_outcome : option hedgeOutcome;
  ra_cleaners : list (Side * string) (* the goroutines of [abandonHedgeLeg], with their reasons *);
  ra_closed : list Resp;
  ra_produced : list Resp (* every response a leg has obtained *);
  ra_events : list Event
}.
#[export] Instance eta_Race : Eta Race := fun r =>
  mkRace (ra_primaryID r) (ra_secondaryID r) (ra_primaryLeg r) (ra_secondaryLeg r) (ra_timer r) (ra_armed r) (ra_ctx r)
    (ra_primaryResult r) (ra_secondaryResult r) (ra_outcome r) (ra_cleaners r) (ra_closed r) (ra_produced r) (ra_events r).

Definition leg_of (s : Side) (r : Race) : option hedgeLeg :=
  match s with Primary => Some (ra_primaryLeg r) | Secondary => ra_secondaryLeg r end.
Definition id_of (s : Side) (r : Race) : string := match s with Primary => ra_primaryID r | Secondary => ra_secondaryID r end.
Definition update_leg (s : Side) (f : hedgeLeg -> hedgeLeg) (r : Race) : Race :=
  match s with
  | Primary => r <| ra_primaryLeg ::= f |>
  | Secondary => r <| ra_secondaryLeg ::= fmap f |>
  end.

(** [abandonHedgeLeg]: cancel now, clean up later. *)
Definition abandonHedgeLeg (s : Side) (reason : string) (r : Race) : Race :=
  match leg_of s r with
  | None => r
  | Some _ => update_leg s (fun l => l <| leg_cancelled := true |>) r <| ra_cleaners ::= fun c => c ++ [(s, reason)] |>
  end.
Definition launchSecondary (now : Time) (r : Race) : Race :=
  match ra_secondaryLeg r with
  | Some _ => r
  | None => r <| ra_secondaryLeg := Some (startHedgeLeg now) |>
              <| ra_events ::= fun e => e ++ [RouteAttempt (ra_secondaryID r); HedgeLaunch (ra_secondaryID r)] |>
  end.
Definition launched (r : Race) : bool := match ra_secondaryLeg r with Some _ => true | None => false end.
Definition outcome (o : hedgeOutcome) (r : Race) : Race := r <| ra_outcome := Some o |>.

(** ** The arms of the [select] *)

Definition lost_to_primary : string := "lost hedged race (primary responded first)".
Definition lost_to_hedge : string := "lost hedged race (hedge responded first)".
Definition route_cancelled : string := "route context cancelled during hedged race".

Definition onPrimary (x : hedgeResult) (r : Race) : Race :=
  let r := r <| ra_primaryLeg ::= fun l => l <| leg_done := Closed |> |> <| ra_primaryResult := Some x |> in
  match hr_err x with
  | None => outcome (mkOutcome (hr_resp x) None (hr_start x) false (launched r)) (abandonHedgeLeg Secondary lost_to_primary r)
  | Some err =>
      if negb (launched r) then outcome (mkOutcome None (Some err) (hr_start x) false false) r
      else match ra_secondaryResult r with
           | Some y =>
               match hr_err y with
               | None => outcome (mkOutcome (hr_resp y) None (hr_start y) true true) r
               | Some _ => outcome (mkOutcome None (Some err) (hr_start x) false true) r
               end
           | None => r
           end
  end.
Definition onSecondary (x : hedgeResult) (r : Race) : Race :=
  let r := r <| ra_secondaryLeg ::= fmap (fun l => l <| leg_done := Closed |>) |> <| ra_secondaryResult := Some x |> in
  match hr_err x with
  | None => outcome (mkOutcome (hr_resp x) None (hr_start x) true true) (abandonHedgeLeg Primary lost_to_hedge r)
  | Some err =>
      let r := r <| ra_events ::= fun e => e ++ [HedgeFail (ra_secondaryID r) err] |> in
      match ra_primaryResult r with
      | Some y => outcome (mkOutcome None (hr_err y) (hr_start y) false true) r
      | None => r
      end
  end.
Definition onTimer (now : Time) (r : Race) : Race := launchSecondary now (r <| ra_timer := false |>).
Definition onDone (now : Time) (err : string) (r : Race) : Race :=
  let r := abandonHedgeLeg Primary route_cancelled r in
  let r := abandonHedgeLeg Secondary route_cancelled r in
  outcome (mkOutcome None (Some err) now false (launched r)) r.

(** A cleaner has received from the leg's channel: it closes a response. *)
Definition clean (s : Side) (reason : string) (r : Race) : Race :=
  let r := match leg_of s r with
           | Some l => match leg_done l with
                       | Ready x => r <| ra_closed ::= fun c => c ++ option_list (hr_resp x) |>
                       | _ => r
                       end
           | None => r
           end in
  update_leg s (fun l => l <| leg_done := Closed |>) r <| ra_events ::= fun e => e ++ [HedgedAbandoned (id_of s r) reason] |>.

(** ** Steps *)

(** The race starts with the primary leg and an armed timer. *)
Definition hedgedUpstreamDo (primaryID secondaryID : string) (now : Time) : Race :=
  mkRace primaryID secondaryID (startHedgeLeg now) None false true None None None None [] [] [] [].

(** A call that reports an error has no open response ([http.Client.Do]: on error
    any response can be ignored). *)
Definition sane_result (x : callResult) : Prop := cr_err x = None \/ cr_resp x = None.
Definition deliver (s : Side) (x : callResult) (r : Race) : Race :=
  update_leg s (fun l => finish_leg l x) r <| ra_produced ::= fun p => p ++ option_list (cr_resp x) |>.

Inductive rstep : Race -> Race -> Prop :=
(* the environment *)
| e_leg s l x r : leg_of s r = Some l -> leg_done l = Pending -> sane_result x -> rstep r (deliver s x r)
| e_timer r : ra_armed r = true -> ra_outcome r = None -> rstep r (r <| ra_armed := false |> <| ra_timer := true |>)
| e_ctx err r : ra_ctx r = None -> rstep r (r <| ra_ctx := Some err |>)
(* the select *)
| r_primary x r : ra_outcome r = None -> ra_primaryResult r = None -> leg_done (ra_primaryLeg r) = Ready x -> rstep r (onPrimary x r)
| r_secondary l x r : ra_outcome r = None -> ra_secondaryResult r = None -> ra_secondaryLeg r = Some l -> leg_done l = Ready x ->
    rstep r (onSecondary x r)
| r_timer now r : ra_outcome r = None -> ra_timer r = true -> rstep r (onTimer now r)
| r_done now err r : ra_outcome r = None -> ra_ctx r = Some err -> rstep r (onDone now err r)
(* a cleaner receives *)
| c_clean c1 s reason c2 l r : ra_cleaners r = c1 ++ (s, reason) :: c2 -> leg_of s r = Some l -> leg_done l <> Pending ->
    rstep r (clean s reason (r <| ra_cleaners := c1 ++ c2 |>)).
End Race.

(** ** Attempts *)

(** What the choice of a partner reads of an attempt. *)
Record hedgeAttemptBundle := mkBundle {
  hb_deployment : string; hb_payload : string; hb_canonicalKind : string; hb_path : string
}.
Inductive Upstream := Do (deployment payload : string) | DoPath (deployment method path payload : string).
Definition dispatch (b : hedgeAttemptBundle) : Upstream :=
  if negb (String.eqb (hb_path b) "") then DoPath (hb_deployment b) "POST" (hb_path b) (hb_payload b)
  else Do (hb_deployment b) (hb_payload b).
Definition HedgingDelay (cfg : Config) : Duration := int64 (rc_HedgingDelayMS (cfg_Routing cfg) * Millisecond).
Definition hedgingEligible (cfg : Config) : bool :=
  rc_HedgingEnabled (cfg_Routing cfg) && (0 <? HedgingDelay cfg) && (1 <? rc_MaxAttempts (cfg_Routing cfg)).

(** The attempt to race against, [None] for a plain call. *)
Definition hedge_partner (cfg : Config) (candidates i attempts max : Z) (primary : hedgeAttemptBundle)
    (build : Z -> option hedgeAttemptBundle) : option hedgeAttemptBundle :=
  if negb (attempts =? 1) || negb (hedgingEligible cfg) || (candidates <=? i + 1) || (max <? attempts + 1) then None
  else
    partner ← build (i + 1);
    if negb (String.eqb (hb_canonicalKind primary) (hb_canonicalKind partner)) ||
       negb (String.eqb (hb_path primary) "") || negb (String.eqb (hb_path partner) "") then None
    else Some partner.
(** The outcome, the bundle it belongs to, and whether the hedge was launched. *)
Inductive doAttemptWithHedge {Resp : Type} (cfg : Config) (candidates i attempts max : Z) (primary : hedgeAttemptBundle)
    (build : Z -> option hedgeAttemptBundle) (now : Time) : hedgeOutcome (Resp := Resp) -> hedgeAttemptBundle -> bool -> Prop :=
| plain_attempt (r : callResult (Resp := Resp)) (start : Time) :
    hedge_partner cfg candidates i attempts max primary build = None ->
    doAttemptWithHedge cfg candidates i attempts max primary build now
      (mkOutcome (cr_resp r) (cr_err r) start false false) primary false
| hedged_attempt partner (r : Race (Resp := Resp)) o :
    hedge_partner cfg candidates i attempts max primary build = Some partner ->
    rtc rstep (hedgedUpstreamDo (hb_deployment primary) (hb_deployment partner) now) r -> ra_outcome r = Some o ->
    doAttemptWithHedge cfg candidates i attempts max primary build now
      o (if ho_secondaryWon o then partner else primary) (ho_hedgeLaunched o).

(** ** Mapping errors *)

Definition maxProtocolMappingErrorBytes : Z := 512.
Definition boundedProtocolMappingError (err : option string) : option string :=
  match err with
  | None => None
  | Some err =>
      let message := TrimSpace err in
      let message := if maxProtocolMappingErrorBytes <? Z.of_nat (String.length message)
                     then String.substring 0 (Z.to_nat maxProtocolMappingErrorBytes) message +:+ "..." else message in
      Some ("unsupported protocol mapping: " +:+ message)
  end.

#[export] Instance Side_eq_dec : EqDecision Side.
Proof. solve_decision. Defined.

Section Proofs.
Context {Resp : Type}.
Abbreviation Result := (hedgeResult (Resp := Resp)).
Abbreviation Leg := (hedgeLeg (Resp := Resp)).
Abbreviation Chan := (Channel (Resp := Resp)).
Abbreviation Outcome := (hedgeOutcome (Resp := Resp)).
Abbreviation State := (Race (Resp := Resp)).
Abbreviation Returns := (callResult (Resp := Resp)).
Implicit Types (r : State) (x y : Result) (l : Leg) (o : Outcome).

(** A result is a response or an error, never both or neither. *)
Definition normal x : Prop :=
  (hr_err x = None /\ exists b, hr_resp x = Some b) \/ (exists e, hr_err x = Some e /\ hr_resp x = None).
Definition waiting_resp (c : Chan) : list Resp := match c with Ready x => option_list (hr_resp x) | _ => [] end.
Definition leg_resp (ol : option Leg) : list Resp := match ol with Some l => waiting_resp (leg_done l) | None => [] end.
Definition chan_ok (c : Chan) : Prop := match c with Ready x => normal x | _ => True end.
Definition launches (es : list Event) : nat := length (List.filter (fun e => match e with HedgeLaunch _ => true | _ => false end) es).
Arguments launches : simpl never.

(** A leg and what the loop has received from it: nothing yet, or an error. *)
Definition side_ok l (res : option Result) : Prop :=
  leg_cancelled l = false /\ chan_ok (leg_done l) /\
  match res with
  | None => leg_done l <> Closed
  | Some x => leg_done l = Closed /\ exists e, hr_err x = Some e /\ hr_resp x = None
  end.
Record looping r : Prop := {
  lp_outcome : ra_outcome r = None;
  lp_cleaners : ra_cleaners r = [];
  lp_closed : ra_closed r = [];
  lp_primary : side_ok (ra_primaryLeg r) (ra_primaryResult r);
  lp_secondary : match ra_secondaryLeg r with
                 | None => ra_secondaryResult r = None
                 | Some l => side_ok l (ra_secondaryResult r) /\ ra_armed r = false /\ ra_timer r = false
                 end;
  lp_timer : ra_armed r = true -> ra_timer r = false;
  lp_waits : ra_primaryResult r = None \/ (ra_secondaryLeg r <> None /\ ra_secondaryResult r = None);
  lp_produced : ra_produced r ≡ₚ leg_resp (Some (ra_primaryLeg r)) ++ leg_resp (ra_secondaryLeg r);
  lp_launches : launches (ra_events r) = if launched r then 1%nat else 0%nat
}.

Definition result_of (s : Side) r : option Result := match s with Primary => ra_primaryResult r | Secondary => ra_secondaryResult r end.
(** The leg of a side is closed, or somebody waits for it. *)
Definition covered (s : Side) r : Prop :=
  forall l, leg_of s r = Some l -> chan_ok (leg_done l) /\ (leg_done l = Closed \/ exists reason, (s, reason) ∈ ra_cleaners r).
(** The response comes from the leg that is said to have won; an error is the
    context's, or the primary's when no leg is in flight. *)
Definition outcome_ok o r : Prop :=
  match ho_err o with
  | None => exists s x l b, result_of s r = Some x /\ hr_err x = None /\ hr_resp x = Some b /\ ho_resp o = Some b /\
      ho_start o = hr_start x /\ ho_secondaryWon o = match s with Primary => false | Secondary => true end /\
      leg_of s r = Some l /\ leg_cancelled l = false
  | Some err => ho_resp o = None /\ ho_secondaryWon o = false /\
      ((ra_ctx r = Some err /\ forall s l, leg_of s r = Some l -> leg_cancelled l = true) \/
       (exists x, ra_primaryResult r = Some x /\ hr_err x = Some err /\ ho_start o = hr_start x /\
          (ra_secondaryLeg r = None \/ exists y e, ra_secondaryResult r = Some y /\ hr_err y = Some e)))
  end.
Record returned o r : Prop := {
  rt_outcome : ra_outcome r = Some o;
  rt_primary : covered Primary r;
  rt_secondary : covered Secondary r;
  rt_ok : outcome_ok o r;
  rt_produced : ra_produced r ≡ₚ ra_closed r ++ option_list (ho_resp o) ++ leg_resp (Some (ra_primaryLeg r)) ++ leg_resp (ra_secondaryLeg r);
  rt_launched : ho_hedgeLaunched o = launched r;
  rt_launches : launches (ra_events r) = if launched r then 1%nat else 0%nat;
  rt_cleaners : forall s reason, (s, reason) ∈ ra_cleaners r -> leg_of s r <> None
}.
Definition race_ok r : Prop := looping r \/ exists o, returned o r.

Lemma launches_app es es' : launches (es ++ es') = (launches es + launches es')%nat.
Proof. unfold launches. by rewrite List.filter_app, length_app. Qed.
Lemma normalize_normal (c : Returns) t : sane_result c -> normal (normalizeHedgeResult (mkHedgeResult (cr_resp c) (cr_err c) t)).
Proof.
  destruct c as [[b|] [e|]]; intros [H|H]; cbn in *; try discriminate; unfold normal; cbn; eauto.
Qed.
Lemma normalize_resp (c : Returns) t :
  hr_resp (normalizeHedgeResult (mkHedgeResult (cr_resp c) (cr_err c) t)) = cr_resp c.
Proof. by destruct c as [[b|] [e|]]. Qed.

Lemma init_looping p s now : looping (hedgedUpstreamDo p s now).
Proof. split; try done; cbn. by left. Qed.

(** *** The environment *)

(** What a delivery does to the leg of a side. *)
Lemma finish_resp l c : waiting_resp (leg_done (finish_leg l c)) = option_list (cr_resp c).
Proof. cbn. by rewrite normalize_resp. Qed.
Lemma finish_chan l c : sane_result c -> chan_ok (leg_done (finish_leg l c)).
Proof. intros Hc. by apply normalize_normal. Qed.
Lemma finish_side l c res : sane_result c -> leg_done l = Pending -> side_ok l res -> side_ok (finish_leg l c) res.
Proof.
  intros Hc Hp (Hn & _ & Hr). split; [done|]. split; [by apply finish_chan|].
  destruct res as [x|]; [|done]. destruct Hr as [Hr _]. congruence.
Qed.
Lemma perm_deliver (P A B b : list Resp) : P ≡ₚ A ++ B -> P ++ b ≡ₚ A ++ b ++ B.
Proof. intros ->. rewrite <- app_assoc. f_equiv. apply Permutation_app_comm. Qed.

Lemma deliver_looping s l c r : leg_of s r = Some l -> leg_done l = Pending -> sane_result c -> looping r -> looping (deliver s c r).
Proof.
  intros Hl Hp Hc [H1 H2 H3 H4 H5 H6 H7 H8 H9]. destruct s; cbn [leg_of] in Hl; [injection Hl as <-|rewrite Hl in *].
  - split; cbn -[finish_leg]; try done; [by apply finish_side|]. rewrite finish_resp.
    apply (perm_deliver _ []). by rewrite H8; cbn; rewrite Hp.
  - split; cbn -[finish_leg]; rewrite ?Hl; cbn -[finish_leg]; try done.
    + destruct H5 as [H5 ?]. split; [by apply finish_side|done].
    + destruct H7 as [|[_ H7]]; [by left|by right].
    + rewrite finish_resp. rewrite H8. cbn [leg_resp]. rewrite Hp. cbn. by rewrite app_nil_r.
    + unfold launched in *. cbn -[finish_leg]. rewrite Hl in *. done.
Qed.

(** After the return only channels, cleaners and the context change. *)
Record after r r' : Prop := {
  af_outcome : ra_outcome r' = ra_outcome r;
  af_result : forall s, result_of s r' = result_of s r;
  af_ctx : forall e, ra_ctx r = Some e -> ra_ctx r' = Some e;
  af_legs : forall s, leg_cancelled <$> leg_of s r' = leg_cancelled <$> leg_of s r;
  af_launches : launches (ra_events r') = launches (ra_events r)
}.
Lemma after_leg r r' s l' : after r r' -> leg_of s r' = Some l' -> exists l, leg_of s r = Some l /\ leg_cancelled l = leg_cancelled l'.
Proof.
  intros Ha Hl. pose proof (af_legs _ _ Ha s) as H. rewrite Hl in H. destruct (leg_of s r) as [l|]; [|done]. injection H as ->. eauto.
Qed.
Lemma after_outcome r r' o : after r r' -> outcome_ok o r -> outcome_ok o r'.
Proof.
  intros Ha. unfold outcome_ok. destruct (ho_err o) as [err|].
  - intros (H1 & H2 & H3). split; [done|]. split; [done|]. destruct H3 as [[Hc Hl]|(x & Hx & He & Hs & Hy)]; [left|right].
    + split; [by apply (af_ctx _ _ Ha)|]. intros s l' Hl'. destruct (after_leg _ _ _ _ Ha Hl') as (l & E & <-). by apply (Hl s).
    + exists x. pose proof (af_result _ _ Ha Primary) as E1. pose proof (af_result _ _ Ha Secondary) as E2. cbn in E1, E2.
      rewrite E1, E2. split_and!; try done. destruct Hy as [Hy|Hy]; [left|by right].
      pose proof (af_legs _ _ Ha Secondary) as E3. cbn in E3. rewrite Hy in E3. by destruct (ra_secondaryLeg r').
  - intros (s & x & l & b & Hx & ? & ? & ? & ? & ? & Hl & Hcan). pose proof (af_legs _ _ Ha s) as E. rewrite Hl in E.
    destruct (leg_of s r') as [l'|] eqn:El; [|done]. injection E as E. rewrite Hcan in E.
    exists s, x, l', b. rewrite (af_result _ _ Ha s). split_and!; done.
Qed.
Lemma after_launched r r' : after r r' -> launched r' = launched r.
Proof. intros Ha. pose proof (af_legs _ _ Ha Secondary) as E. unfold launched. cbn in E. by destruct (ra_secondaryLeg r), (ra_secondaryLeg r'). Qed.
Lemma after_returned r r' o : after r r' -> returned o r -> covered Primary r' -> covered Secondary r' ->
  ra_produced r' ≡ₚ ra_closed r' ++ option_list (ho_resp o) ++ leg_resp (Some (ra_primaryLeg r')) ++ leg_resp (ra_secondaryLeg r') ->
  (forall c, c ∈ ra_cleaners r' -> c ∈ ra_cleaners r) -> returned o r'.
Proof.
  intros Ha [H1 _ _ H4 _ H6 H7 H8] Hp Hs Hprod Hcl. split; try done.
  - by rewrite (af_outcome _ _ Ha).
  - by apply (after_outcome r).
  - by rewrite (after_launched _ _ Ha).
  - by rewrite (af_launches _ _ Ha), (after_launched _ _ Ha).
  - intros s reason Hin%Hcl%H8 Hno. pose proof (af_legs _ _ Ha s) as E. rewrite Hno in E. by destruct (leg_of s r).
Qed.

Lemma deliver_returned s l c r o : leg_of s r = Some l -> leg_done l = Pending -> sane_result c -> returned o r -> returned o (deliver s c r).
Proof.
  intros Hl Hp Hc Hr. apply (after_returned r); try done.
  - split; [by destruct s|by intros []; destruct s|by destruct s| |by destruct s].
    intros []; destruct s; cbn -[finish_leg] in *; try done. by destruct (ra_secondaryLeg r).
  - destruct Hr as [_ Hcov _ _ _ _ _ _]. intros l' Hl'. destruct s; cbn -[finish_leg] in *; [|by apply Hcov].
    injection Hl' as <-. injection Hl as <-. split; [by apply finish_chan|]. right.
    by destruct (Hcov _ eq_refl) as [_ [Hx|Hx]]; [congruence|].
  - destruct Hr as [_ _ Hcov _ _ _ _ _]. intros l' Hl'. destruct s; cbn -[finish_leg] in *; [by apply Hcov|].
    rewrite Hl in Hl'. injection Hl' as <-. split; [by apply finish_chan|]. right.
    by destruct (Hcov _ Hl) as [_ [Hx|Hx]]; [congruence|].
  - pose proof (rt_produced _ _ Hr) as Hprod. destruct s; cbn -[finish_leg] in *.
    + injection Hl as <-. rewrite finish_resp. rewrite Hp in Hprod. rewrite Hprod. cbn. rewrite <- !app_assoc. do 2 f_equiv. apply Permutation_app_comm.
    + rewrite Hl in *. cbn -[finish_leg] in *. rewrite finish_resp. rewrite Hp in Hprod. rewrite Hprod. cbn.
      by rewrite app_nil_r, <- !app_assoc.
  - by destruct s.
Qed.

(** A cleaner that has received closes what it got. *)
Lemma clean_after s reason r c : after r (clean s reason (r <| ra_cleaners := c |>)).
Proof.
  unfold clean. destruct s; cbn [leg_of ra_primaryLeg ra_secondaryLeg update].
  - destruct (leg_done (ra_primaryLeg r)); (split; cbn; [done|by intros []|done|by intros []|etransitivity; [apply launches_app|cbn; apply Nat.add_0_r]]).
  - destruct (ra_secondaryLeg r) as [l|] eqn:E; [destruct (leg_done l)|];
      (split; cbn; [done|by intros []|done|by intros []; cbn; rewrite ?E|etransitivity; [apply launches_app|cbn; apply Nat.add_0_r]]).
Qed.
Definition closed_leg l : Leg := l <| leg_done := Closed |>.
Lemma clean_legs s s' reason r c : leg_of s' (clean s reason (r <| ra_cleaners := c |>)) =
  if decide (s = s') then closed_leg <$> leg_of s' r else leg_of s' r.
Proof.
  unfold clean. destruct s; cbn [leg_of ra_primaryLeg ra_secondaryLeg update].
  - destruct (leg_done (ra_primaryLeg r)), s'; done.
  - destruct (ra_secondaryLeg r) as [l|] eqn:E; [destruct (leg_done l)|]; destruct s'; cbn; rewrite ?E; done.
Qed.
Lemma clean_cleaners s reason r c : ra_cleaners (clean s reason (r <| ra_cleaners := c |>)) = c.
Proof. unfold clean. destruct s; cbn; [by destruct (leg_done _)|]. destruct (ra_secondaryLeg r) as [l|]; [by destruct (leg_done l)|done]. Qed.
Lemma clean_closed s reason r c : ra_closed (clean s reason (r <| ra_cleaners := c |>)) = ra_closed r ++ leg_resp (leg_of s r) /\
  ra_produced (clean s reason (r <| ra_cleaners := c |>)) = ra_produced r.
Proof.
  unfold clean. destruct s; cbn.
  - destruct (leg_done _); cbn; by rewrite ?app_nil_r.
  - destruct (ra_secondaryLeg r) as [l|]; [destruct (leg_done l) eqn:E|]; cbn; rewrite ?E; cbn; by rewrite ?app_nil_r.
Qed.

Lemma clean_covered c1 s reason c2 r s' : ra_cleaners r = c1 ++ (s, reason) :: c2 -> covered s' r ->
  covered s' (clean s reason (r <| ra_cleaners := c1 ++ c2 |>)).
Proof.
  intros Hcl Hcov l'. rewrite clean_legs. destruct (decide (s = s')) as [<-|Hne].
  - destruct (leg_of s r) as [l|]; [|done]. intros [= <-]. split; [done|by left].
  - intros Hl. destruct (Hcov l' Hl) as [Hch Hw]. split; [done|]. destruct Hw as [Hw|[reason' Hw]]; [by left|right].
    exists reason'. rewrite clean_cleaners. rewrite Hcl in Hw. apply elem_of_app in Hw as [Hw|[[= -> ->]|Hw]%elem_of_cons]; [set_solver|done|set_solver].
Qed.
Lemma clean_returned c1 s reason c2 r o : ra_cleaners r = c1 ++ (s, reason) :: c2 ->
  returned o r -> returned o (clean s reason (r <| ra_cleaners := c1 ++ c2 |>)).
Proof.
  intros Hcl Hr. apply (after_returned r); try done.
  - apply clean_after.
  - apply clean_covered; [done|apply Hr].
  - apply clean_covered; [done|apply Hr].
  - destruct (clean_closed s reason r (c1 ++ c2)) as [-> ->]. rewrite (rt_produced _ _ Hr).
    change (ra_secondaryLeg (clean s reason (r <| ra_cleaners := c1 ++ c2 |>))) with (leg_of Secondary (clean s reason (r <| ra_cleaners := c1 ++ c2 |>))).
    change (Some (ra_primaryLeg (clean s reason (r <| ra_cleaners := c1 ++ c2 |>)))) with (leg_of Primary (clean s reason (r <| ra_cleaners := c1 ++ c2 |>))).
    rewrite !clean_legs. change (Some (ra_primaryLeg r)) with (leg_of Primary r). change (ra_secondaryLeg r) with (leg_of Secondary r).
    assert (forall s0, leg_resp (closed_leg <$> leg_of s0 r) = []) as E0 by (intros s0; by destruct (leg_of s0 r)).
    rewrite <- app_assoc. f_equiv. destruct s; cbn [decide]; destruct (decide _); try done; destruct (decide _); try done; rewrite E0; cbn [app];
      rewrite ?app_nil_r; [|rewrite (app_assoc (option_list _)); apply Permutation_app_comm]. rewrite app_assoc, (Permutation_app_comm (option_list _)), <- app_assoc. done.
  - rewrite clean_cleaners, Hcl. set_solver.
Qed.

(** *** The arms of the select *)

Ltac race r := destruct r as [pid sid [st1 ch1 ca1] sec tm ar cx pr sr oc cl cd pd ev]; cbn in *.
Ltac no_stray := intros ? ? Hin; cbn in *; repeat (apply elem_of_cons in Hin as [[= -> ->]|Hin]; [done|]); by apply not_elem_of_nil in Hin.
Lemma onPrimary_ok x r : looping r -> ra_primaryResult r = None -> leg_done (ra_primaryLeg r) = Ready x -> race_ok (onPrimary x r).
Proof.
  intros [H1 H2 H3 H4 H5 H6 H7 H8 H9] Hres Hx. race r. subst. destruct H4 as (Hc & Hn & _). cbn in Hc, Hn. subst ca1.
  unfold onPrimary. cbn. destruct Hn as [(Ee & b & Eb)|(e & Ee & Eb)]; rewrite Ee; cbn in H8; rewrite Eb in H8; cbn in H8.
  - right. eexists. split; cbn.
    + reflexivity.
    + by destruct sec as [l|]; intros l' [= <-]; (split; [done|by left]).
    + destruct sec as [l|]; cbn; intros l' [= <-]. destruct H5 as [(_ & Hn & _) _]. split; [done|]. right. eexists. by left.
    + unfold outcome_ok. cbn. exists Primary, x, (mkLeg st1 Closed false), b. by destruct sec.
    + rewrite Eb. destruct sec as [l|]; cbn in *; done.
    + by destruct sec.
    + destruct sec; exact H9.
    + destruct sec; no_stray.
  - destruct sec as [l|]; cbn.
    + destruct H5 as ((Hcl & Hch & Hsr) & -> & ->). destruct sr as [y|]; cbn.
      * destruct Hsr as (Hd & e' & Ey & _). rewrite Ey. right. eexists. split; cbn.
        -- reflexivity.
        -- intros l' [= <-]. split; [done|by left].
        -- intros l' [= <-]. split; [done|by left].
        -- unfold outcome_ok. cbn. split_and!; try done. right. exists x. split_and!; try done. right. eauto.
        -- exact H8.
        -- reflexivity.
        -- exact H9.
        -- no_stray.
      * left. split; cbn; try done; [|by right]. unfold side_ok. split_and!; try done. cbn. eauto.
    + right. subst sr. eexists. split; cbn.
      * reflexivity.
      * intros l' [= <-]. split; [done|by left].
      * done.
      * unfold outcome_ok. cbn. split_and!; try done. right. exists x. split_and!; try done. by left.
      * exact H8.
      * reflexivity.
      * exact H9.
      * no_stray.
Qed.
Lemma onSecondary_ok l x r : looping r -> ra_secondaryResult r = None -> ra_secondaryLeg r = Some l -> leg_done l = Ready x ->
  race_ok (onSecondary x r).
Proof.
  intros [H1 H2 H3 H4 H5 H6 H7 H8 H9] Hres Hl Hx. race r. subst. destruct l as [st2 ch2 ca2]. cbn in Hx. subst ch2.
  destruct H5 as ((Hc & Hn & _) & -> & ->). cbn in Hc, Hn. subst ca2. destruct H4 as (Hc1 & Hch1 & Hpr). cbn in Hc1, Hch1, Hpr. subst ca1.
  unfold onSecondary. cbn. destruct Hn as [(Ee & b & Eb)|(e & Ee & Eb)]; rewrite Ee; cbn in H8; rewrite Eb in H8; cbn in H8.
  - right. eexists. split; cbn.
    + reflexivity.
    + intros l' [= <-]. split; [done|]. right. eexists. by left.
    + intros l' [= <-]. split; [done|by left].
    + unfold outcome_ok. cbn. exists Secondary, x, (mkLeg st2 Closed false), b. done.
    + rewrite Eb. cbn. rewrite app_nil_r. rewrite H8. cbn. apply Permutation_app_comm.
    + reflexivity.
    + exact H9.
    + no_stray.
  - assert (launches (ev ++ [HedgeFail sid e]) = 1%nat) as H9' by (by rewrite launches_app, H9).
    rewrite app_nil_r in H8. destruct pr as [y|].
    + destruct Hpr as (-> & e' & Ey & Ey'). right. eexists. split; cbn.
      * reflexivity.
      * intros l' [= <-]. split; [done|by left].
      * intros l' [= <-]. split; [done|by left].
      * unfold outcome_ok. cbn. rewrite Ey. split_and!; try done. right. exists y. split_and!; try done. right. eauto.
      * by rewrite app_nil_r.
      * reflexivity.
      * exact H9'.
      * no_stray.
    + left. split; cbn; try done; [|by left|by rewrite app_nil_r]. unfold side_ok. split_and!; try done. cbn. eauto.
Qed.
Lemma onTimer_ok now r : looping r -> ra_timer r = true -> looping (onTimer now r).
Proof.
  intros [H1 H2 H3 H4 H5 H6 H7 H8 H9] Ht. race r. subst. destruct sec as [l|]; [by destruct H5 as (_ & _ & [=])|].
  subst sr. unfold onTimer, launchSecondary. cbn. split; cbn; try done.
  - split_and!; try done. destruct ar; [|done]. by specialize (H6 eq_refl).
  - by destruct H7 as [->|[? _]]; [left|].
  - by rewrite launches_app, H9.
Qed.
Lemma onDone_ok now err r : looping r -> ra_ctx r = Some err -> race_ok (onDone now err r).
Proof.
  intros [H1 H2 H3 H4 H5 H6 H7 H8 H9] Hc. race r. subst. right. destruct H4 as (_ & Hch & _). cbn in Hch.
  destruct sec as [l|]; eexists; (split; cbn; [reflexivity| | | | | | |no_stray]); try reflexivity; try exact H8; try exact H9.
  - intros l' [= <-]. split; [done|]. right. eexists. by left.
  - intros l' [= <-]. destruct H5 as ((_ & Hn & _) & _). split; [done|]. right. eexists. right. by left.
  - unfold outcome_ok. cbn. split_and!; try done. left. split; [done|]. by intros [] l' [= <-].
  - intros l' [= <-]. split; [done|]. right. eexists. by left.
  - done.
  - unfold outcome_ok. cbn. split_and!; try done. left. split; [done|]. by intros [] l' [= <-].
Qed.

(** *** Every interleaving *)

Lemma looping_of r : race_ok r -> ra_outcome r = None -> looping r.
Proof. intros [H|(o & H)] Ho; [done|]. by rewrite (rt_outcome _ _ H) in Ho. Qed.
Lemma rstep_ok r r' : rstep r r' -> race_ok r -> race_ok r'.
Proof.
  destruct 1 as [s l c r Hl Hp Hc|r Ha Ho|err r Hc|x r Ho Hr Hx|l x r Ho Hr Hl Hx|now r Ho Ht|now err r Ho Hc|c1 s reason c2 l r Hcl Hl Hp]; intros Hok.
  - destruct Hok as [H|(o & H)]; [left; by eapply deliver_looping|right; exists o; by eapply deliver_returned].
  - left. apply looping_of in Hok; [|done]. destruct Hok as [H1 H2 H3 H4 H5 H6 H7 H8 H9]. split; cbn; try done.
    destruct (ra_secondaryLeg r); [|done]. destruct H5 as (_ & H5 & _). congruence.
  - destruct Hok as [H|(o & H)]; [left; by destruct H|right; exists o]. apply (after_returned r); try done; [|apply H..].
    split; try done. cbn. congruence.
  - apply onPrimary_ok; [by apply looping_of|done..].
  - eapply onSecondary_ok; [by apply looping_of|done..].
  - left. apply onTimer_ok; [by apply looping_of|done].
  - apply onDone_ok; [by apply looping_of|done].
  - destruct Hok as [H|(o & H)]; [rewrite (lp_cleaners _ H) in Hcl; by destruct c1|right; exists o]. by apply clean_returned.
Qed.
Lemma race_reachable p s now r : rtc rstep (hedgedUpstreamDo p s now) r -> race_ok r.
Proof.
  generalize (or_introl (init_looping p s now) : race_ok (hedgedUpstreamDo p s now)). generalize (hedgedUpstreamDo (Resp := Resp) p s now).
  induction 2; [done|]. eauto using rstep_ok.
Qed.

(** ** Guarantees *)

(** Once a race has returned, its outcome is sound: a response is the one of the leg
    that is said to have won, and that leg is not cancelled; an error is the
    context's, with every leg cancelled, or the primary's, and then no leg is left
    in flight: the hedge was never launched or has failed as well.  At most one
    hedge was launched, and the outcome says whether. *)
Theorem hedge_outcome_sound (p s : string) (now : Time) (r : State) (o : Outcome) :
  rtc rstep (hedgedUpstreamDo p s now) r -> ra_outcome r = Some o ->
  outcome_ok o r /\ ho_hedgeLaunched o = launched r /\
  launches (ra_events r) = (if launched r then 1 else 0)%nat.
Proof.
  intros Hr Ho. destruct (race_reachable _ _ _ _ Hr) as [H|(o' & H)]; [by rewrite (lp_outcome _ H) in Ho|].
  rewrite (rt_outcome _ _ H) in Ho. injection Ho as ->. split; [apply H|]. split; apply H.
Qed.

(** (C15) No response is lost.  In every state after the return, the responses the legs
    have obtained are those already closed, the one returned, and those still in
    the channel of a leg; and every leg whose channel is not yet drained has a
    goroutine that will close what it delivers. *)
Theorem hedge_conserves_responses (p s : string) (now : Time) (r : State) (o : Outcome) :
  rtc rstep (hedgedUpstreamDo p s now) r -> ra_outcome r = Some o ->
  ra_produced r ≡ₚ ra_closed r ++ option_list (ho_resp o) ++ leg_resp (leg_of Primary r) ++ leg_resp (leg_of Secondary r) /\
  forall side l, leg_of side r = Some l -> leg_done l = Closed \/ exists reason, (side, reason) ∈ ra_cleaners r.
Proof.
  intros Hr Ho. destruct (race_reachable _ _ _ _ Hr) as [H|(o' & H)]; [by rewrite (lp_outcome _ H) in Ho|].
  rewrite (rt_outcome _ _ H) in Ho. injection Ho as ->. split; [apply H|]. intros [] l Hl; by apply H.
Qed.

(** *** Termination *)

(** What may still happen: deliveries, the tick, the context, the arms, the
    cleaners.  A launch brings a leg, an abandonment at most two cleaners. *)
Definition chan_weight (c : Chan) : nat := match c with Pending => 2 | Ready _ => 1 | Closed => 0 end.
Definition weight r : nat :=
  (chan_weight (leg_done (ra_primaryLeg r)) +
   match ra_secondaryLeg r with Some l => chan_weight (leg_done l) | None => 0 end +
   (if ra_armed r then 5 else 0) + (if ra_timer r then 4 else 0) +
   match ra_ctx r with None => 1 | Some _ => 0 end +
   match ra_outcome r with None => 3 | Some _ => 0 end + length (ra_cleaners r))%nat.

Lemma clean_weight s reason r c1 c2 : ra_cleaners r = c1 ++ (s, reason) :: c2 ->
  (weight (clean s reason (r <| ra_cleaners := (c1 ++ c2)%list |>)) < weight r)%nat.
Proof.
  intros Hcl. race r. subst cl. unfold clean, weight. destruct s; cbn.
  - destruct ch1; cbn; rewrite !length_app; cbn; lia.
  - destruct sec as [[st2 ch2 ca2]|]; [destruct ch2|]; cbn; rewrite !length_app; cbn; lia.
Qed.
Lemma rstep_weight r r' : rstep r r' -> race_ok r -> (weight r' < weight r)%nat.
Proof.
  destruct 1 as [s l c r Hl Hp Hc|r Ha Ho|err r Hc|x r Ho Hr Hx|l x r Ho Hr Hl Hx|now r Ho Ht|now err r Ho Hc|c1 s reason c2 l r Hcl Hl Hp]; intros Hok.
  - race r. unfold weight. destruct s; cbn in *; simplify_eq; cbn in *; rewrite ?Hp; cbn; lia.
  - race r. subst. unfold weight. cbn. destruct tm; cbn; lia.
  - race r. subst. unfold weight. cbn. lia.
  - race r. subst. unfold weight, onPrimary. cbn. destruct (hr_err x); cbn; destruct sec as [[st2 ch2 ca2]|]; cbn; try lia.
    + destruct sr as [y|]; cbn; [destruct (hr_err y); cbn; lia|lia].
    + rewrite length_app. cbn. lia.
  - race r. subst. unfold weight, onSecondary. cbn. rewrite Hx. destruct (hr_err x); cbn; [destruct pr; cbn; lia|]. rewrite length_app. cbn. lia.
  - pose proof (lp_secondary _ (looping_of _ Hok Ho)) as H5.
    race r. subst. destruct sec as [l|]; [by destruct H5 as (_ & _ & [=])|]. unfold weight. cbn. lia.
  - race r. subst. unfold weight, onDone. cbn. destruct sec as [[st2 ch2 ca2]|]; cbn; rewrite ?length_app; cbn; lia.
  - by apply clean_weight.
Qed.
Lemma rstep_bound n : forall r r', race_ok r -> nsteps rstep n r r' -> race_ok r' /\ (weight r' + n <= weight r)%nat.
Proof.
  induction n as [|n IH]; intros r r' Hok Hn; inversion Hn as [|? ? r1 ? H1 H2]; subst; [by rewrite Nat.add_0_r|].
  destruct (IH r1 r' (rstep_ok _ _ H1 Hok) H2) as [Hok' Hw]. pose proof (rstep_weight _ _ H1 Hok). split; [done|lia].
Qed.

(** An arm that receives a result is ready as soon as the started legs are done,
    so the loop never waits for nothing. *)
Lemma arms_ready r : looping r -> (forall side l, leg_of side r = Some l -> leg_done l <> Pending) ->
  exists x, (ra_primaryResult r = None /\ leg_done (ra_primaryLeg r) = Ready x) \/
            (exists l, ra_secondaryResult r = None /\ ra_secondaryLeg r = Some l /\ leg_done l = Ready x).
Proof.
  intros [_ _ _ (_ & _ & H4) H5 _ H7 _ _] Hd. destruct H7 as [H7|[H7 H7']].
  - rewrite H7 in H4. specialize (Hd Primary _ eq_refl). destruct (leg_done (ra_primaryLeg r)) as [|x|]; [done|eauto|done].
  - destruct (ra_secondaryLeg r) as [l|] eqn:El; [|done]. rewrite H7' in H5. destruct H5 as ((_ & _ & H5) & _).
    specialize (Hd Secondary l El). destruct (leg_done l) as [|x|] eqn:Ed; [done| |done]. exists x. right. eauto.
Qed.

(** (C16) A hedged race ends.  No run has more than eleven steps; the loop has an arm to
    take whenever the started legs are done, whether or not the context is; and in a
    state where nothing can happen any more the race has returned, the cleaners are
    gone, and every response obtained was closed, but for the one returned. *)
Theorem hedge_terminates (p s : string) (now : Time) (n : nat) (r : State) :
  nsteps rstep n (hedgedUpstreamDo p s now) r ->
  (n <= 11)%nat /\
  (ra_outcome r = None -> (forall side l, leg_of side r = Some l -> leg_done l <> Pending) ->
     exists x, rstep r (onPrimary x r) \/ rstep r (onSecondary x r)) /\
  ((forall r', ~ rstep r r') ->
     exists o, ra_outcome r = Some o /\ ra_cleaners r = [] /\ ra_produced r ≡ₚ ra_closed r ++ option_list (ho_resp o)).
Proof.
  intros Hn. destruct (rstep_bound n _ _ (or_introl (init_looping p s now)) Hn) as [Hok Hw]. cbn in Hw. split; [lia|]. split.
  - intros Ho Hd. destruct (arms_ready r (looping_of _ Hok Ho) Hd) as (x & [[H1 H2]|(l & H1 & H2 & H3)]); exists x; [left|right].
    + by apply r_primary.
    + by eapply r_secondary.
  - intros Hstuck. assert (forall side l, leg_of side r = Some l -> leg_done l <> Pending) as Hd.
    { intros side l Hl Hp. apply (Hstuck (deliver side (mkCallResult None None) r)). eapply e_leg; [done|done|by left]. }
    destruct Hok as [H|(o & H)].
    + exfalso. destruct (ra_ctx r) as [err|] eqn:Hc; [|by apply (Hstuck (r <| ra_ctx := Some "" |>)); apply e_ctx].
      apply (Hstuck (onDone 0 err r)). apply r_done; [apply H|done].
    + exists o. split; [apply H|]. assert (ra_cleaners r = []) as Hcl.
      { destruct (ra_cleaners r) as [|[side reason] c] eqn:Hcl; [done|exfalso].
        destruct (leg_of side r) as [l|] eqn:Hl; [|apply (rt_cleaners _ _ H side reason); [rewrite Hcl; by left|done]].
        eapply Hstuck. eapply (c_clean [] side reason c l); [done|done|by eapply Hd]. }
      split; [done|]. rewrite (rt_produced _ _ H).
      assert (forall side l, leg_of side r = Some l -> leg_done l = Closed) as Hclosed.
      { intros side l Hl. assert (covered side r) as Hcov by (destruct side; apply H).
        destruct (Hcov l Hl) as [_ [|[reason Hin]]]; [done|]. rewrite Hcl in Hin. by apply not_elem_of_nil in Hin. }
      cbn [leg_resp]. rewrite (Hclosed Primary _ eq_refl). destruct (ra_secondaryLeg r) as [l|] eqn:El; cbn; [rewrite (Hclosed Secondary l El)|]; cbn; by rewrite app_nil_r.
Qed.
End Proofs.

(** ** Attempts *)

(** Hedging stays within the attempts of a request.  When an attempt is hedged it
    is the first one, the configuration allows it, the partner is the next
    candidate, the two calls are within the maximum, and the bundle returned is
    that of the leg that won; otherwise one call to the primary was made. *)
Theorem hedged_attempt_within_budget {Resp : Type} (cfg : Config) (n i attempts max : Z) (primary : hedgeAttemptBundle)
    (build : Z -> option hedgeAttemptBundle) (now : Time) (o : hedgeOutcome (Resp := Resp)) (winner : hedgeAttemptBundle) (hedged : bool) :
  doAttemptWithHedge cfg n i attempts max primary build now o winner hedged ->
  (ho_secondaryWon o = true -> hedged = true /\ build (i + 1) = Some winner) /\
  (ho_secondaryWon o = false -> winner = primary) /\
  (hedged = true -> attempts = 1 /\ attempts + 1 <= max /\ i + 1 < n /\ rc_HedgingEnabled (cfg_Routing cfg) = true /\
     hb_path winner = "" /\ hb_canonicalKind winner = hb_canonicalKind primary).
Proof.
  destruct 1 as [r t _|partner r o Hp Hr Ho]; [done|].
  unfold hedge_partner in Hp. destruct (negb (attempts =? 1) || _ || _ || _) eqn:Eg; [done|].
  rewrite !orb_false_iff, !negb_false_iff, Z.eqb_eq, Z.leb_gt, Z.ltb_ge in Eg. destruct Eg as [[[Ea Ee] Ei] Em].
  destruct (build (i + 1)) as [b|] eqn:Eb; [|done]. cbn [mbind option_bind] in Hp.
  destruct (negb _ || _ || _) eqn:Ek; [done|]. injection Hp as ->.
  rewrite !orb_false_iff, !negb_false_iff, !String.eqb_eq in Ek. destruct Ek as [[Ek Ep] Eq].
  unfold hedgingEligible in Ee. apply andb_prop in Ee as [Ee _]. apply andb_prop in Ee as [Ee _].
  assert (ho_secondaryWon o = true -> ho_hedgeLaunched o = true) as Hl.
  { intros Hw. destruct (race_reachable _ _ _ _ Hr) as [H|(o' & H)]; [by rewrite (lp_outcome _ H) in Ho|].
    rewrite (rt_outcome _ _ H) in Ho. injection Ho as ->. pose proof (rt_ok _ _ H) as Hok. unfold outcome_ok in Hok. rewrite (rt_launched _ _ H).
    destruct (ho_err o); [destruct Hok as (_ & ? & _); congruence|]. destruct Hok as (s & x & l & b & _ & _ & _ & _ & _ & Hs & Hl & _).
    rewrite Hw in Hs. destruct s; [done|]. cbn in Hl. unfold launched. by rewrite Hl. }
  split; [|split].
  - intros Hw. rewrite Hw. auto.
  - intros Hw. by rewrite Hw.
  - intros _. destruct (ho_secondaryWon o); split_and!; try done; lia.
Qed.

(** ** A race on an example *)

(** The primary is slow, the hedge answers first, and the primary's late response
    is closed. *)
Definition sample_race : Race (Resp := string) :=
  clean Primary lost_to_hedge
    (deliver Primary (mkCallResult (Some "A") None)
       (onSecondary (mkHedgeResult (Some "B") None 15)
          (deliver Secondary (mkCallResult (Some "B") None)
             (onTimer 15 (hedgedUpstreamDo "p1/a" "p2/a" 10 <| ra_armed := false |> <| ra_timer := true |>)))) <| ra_cleaners := [] |>).
Lemma sample_race_steps : nsteps rstep 6 (hedgedUpstreamDo "p1/a" "p2/a" 10) sample_race.
Proof.
  eapply nsteps_l; [by apply e_timer|]. eapply nsteps_l; [by apply (r_timer 15)|].
  eapply nsteps_l; [eapply (e_leg Secondary _ (mkCallResult (Some "B") None)); [reflexivity|reflexivity|by left]|].
  eapply nsteps_l; [by eapply (r_secondary _ (mkHedgeResult (Some "B") None 15))|].
  eapply nsteps_l; [eapply (e_leg Primary _ (mkCallResult (Some "A") None)); [reflexivity|reflexivity|by left]|].
  eapply nsteps_l; [by eapply (c_clean [] Primary lost_to_hedge [])|]. apply nsteps_O.
Qed.
Lemma sample_race_reachable : rtc rstep (hedgedUpstreamDo "p1/a" "p2/a" 10) sample_race.
Proof. eapply rtc_nsteps_2, sample_race_steps. Qed.
Definition sample_outcome : hedgeOutcome := mkOutcome (Some "B") None 15 true true.
Lemma hedge_outcome_sound_witness :
  outcome_ok sample_outcome sample_race /\ ho_hedgeLaunched sample_outcome = launched sample_race /\
  launches (ra_events sample_race) = (if launched sample_race then 1 else 0)%nat.
Proof. exact (hedge_outcome_sound "p1/a" "p2/a" 10 sample_race sample_outcome sample_race_reachable eq_refl). Defined.
Lemma hedge_conserves_responses_witness :
  ra_closed sample_race = ["A"] /\
  ra_produced sample_race ≡ₚ ra_closed sample_race ++ option_list (ho_resp sample_outcome) ++ leg_resp (leg_of Primary sample_race) ++ leg_resp (leg_of Secondary sample_race) /\
  forall side l, leg_of side sample_race = Some l -> leg_done l = Closed \/ exists reason, (side, reason) ∈ ra_cleaners sample_race.
Proof.
  split; [reflexivity|]. exact (hedge_conserves_responses "p1/a" "p2/a" 10 sample_race sample_outcome sample_race_reachable eq_refl).
Defined.
Lemma hedge_terminates_witness : (6 <= 11)%nat /\
  (ra_outcome sample_race = None -> (forall side l, leg_of side sample_race = Some l -> leg_done l <> Pending) ->
     exists x, rstep sample_race (onPrimary x sample_race) \/ rstep sample_race (onSecondary x sample_race)) /\
  ((forall r', ~ rstep sample_race r') ->
     exists o, ra_outcome sample_race = Some o /\ ra_cleaners sample_race = [] /\
       ra_produced sample_race ≡ₚ ra_closed sample_race ++ option_list (ho_resp o)).
Proof. exact (hedge_terminates "p1/a" "p2/a" 10 6 sample_race sample_race_steps). Defined.
